(* ===== verification/_CoqProject ===== *)
-Q . S2P
Prelude.v
RustStr.v
MachineFloat.v
External.v
Body.v
BodyLimits.v
ServerName.v
Upstream.v
Tls.v
ConfigBase.v
Addresses.v
AccessLog.v
ConfigUpstream.v
ConfigUpstreamSafety.v
Template.v
CacheConfig.v
ProxyHeader.v
Route.v
Listener.v
Stats.v
StatsRecord.v
StatsSafety.v
StatsDelta.v
SnapshotRace.v
Lifecycle.v
Runtime.v
RuntimeSafety.v
Router.v
GrpcHealth.v
RequestTarget.v
ClientIp.v
GrpcWeb.v
GrpcWebSafety.v
Resolver.v
RequestHeaders.v
Health.v
HealthSafety.v
HealthSelection.v
CacheTypes.v
CacheRequest.v
CachePolicy.v
CacheStore.v
ConfigCache.v
ConfigCacheSafety.v
ConfigRoute.v
ConfigRouteSafety.v
ConfigServer.v
ConfigFile.v
ConfigFileSafety.v
CacheRange.v
CacheIndex.v
CacheMaintenance.v
CacheInvariant.v
CacheSafety.v
CacheLookup.v
CacheLookupSafety.v
HttpResponse.v
GrpcObservability.v
Compression.v
RequestBody.v
ForwardRequest.v
Forward.v
ForwardSafety.v
SharedMemory.v
SharedIndex.v
SharedJson.v
SharedIndexView.v
SharedIndexStore.v
RateLimit.v
Handler.v
HandlerSafety.v
SharedIndexSafety.v
SharedFillLease.v
CacheFillShared.v
CacheFill.v
CacheFillSafety.v
CacheFillLocal.v
CacheFillSharedSafety.v
CacheStreaming.v
CacheStreamingSafety.v
