(* ===== verification/Prelude.v ===== *)
(** * rginx: a verification library for the edge reverse proxy

    rginx is an HTTP edge proxy written in Rust: a configuration is loaded,
    validated and compiled ([crates/rginx-config]) into the model of
    [crates/rginx-core]; the server ([crates/rginx-http]) routes each request by
    host and path, decides what the client's address is, answers it from the
    response cache or forwards it to a peer of an upstream, and
    [crates/rginx-runtime] reloads, restarts and supervises all of it.  This
    development translates the decision-making code of these crates into
    executable Rocq definitions and proves what they promise each other.

    ** Conventions

    A [String] is the [string] of its bytes, a byte string read off the wire a
    list of integers in [0, 256); a [uN] is a [Z] whose wrap-around, saturation
    or overflow is written out where the source's operation has one; a duration
    or an instant is its milliseconds (nanoseconds where the source compares
    them).  [Result] is [result], its [?] the notation [let?].  A Rust map is a
    [gmap] or an association list where the order matters.  A shared object
    ([Arc], [Mutex], an atomic) is an identifier into a store; a poll-based body
    is a state machine over the results its inner body's polls will give
    (Body.v).  Crates that are not in the repository ([http], [regex], [ipnet],
    [serde_json], [sha2], [httpdate], [base64], [rustls], the DNS resolver, the
    kernel's file and shared-memory calls) are classes of operations, with a
    class of the laws the code relies on and a reference instance that
    satisfies them (External.v, SharedJson.v); the standard library's own
    functions are written out (RustStr.v, External.v).

    Every definition that models code is preceded by the path, the lines and
    the symbol it translates.

    ** The parts

    - Prelude.v, RustStr.v, MachineFloat.v, External.v, Body.v: results, machine
      integers and floats, iterator adaptors, strings, addresses, interfaces,
      bodies.
    - Core model: ServerName.v (host patterns), Upstream.v (peers and the
      weighted selection), Template.v, CacheConfig.v (key templates and
      predicates), ProxyHeader.v (header values), Route.v (matchers and access
      control), Tls.v, AccessLog.v (log formats), Listener.v (servers,
      listeners, the configuration snapshot and what a reload may change).
    - Configuration: ConfigBase.v (errors, checks, the interfaces of the
      compiler), Addresses.v (socket addresses are read as they are printed) and
      one file per section of a configuration (ConfigUpstream.v, ConfigCache.v,
      ConfigRoute.v, each with its Safety file), with its raw data, its
      validation and its compilation; ConfigServer.v (listeners, TLS, HTTP/3)
      and ConfigFile.v (virtual hosts, ACME, the whole),
      with ConfigFileSafety.v on what a configuration compiles to.
    - The way of a request: Router.v, RequestTarget.v, ClientIp.v (client
      address, PROXY protocol), RequestHeaders.v, GrpcWeb.v and GrpcWebSafety.v
      (translation both ways), GrpcHealth.v (the probe's messages), Resolver.v
      (the DNS cache), Health.v, HealthSafety.v and HealthSelection.v (passive
      and active health, request counts, selection of peers), BodyLimits.v
      (timeouts and size limits of bodies), HttpResponse.v (the responses the
      proxy makes itself), GrpcObservability.v (what a gRPC call is recorded as),
      Compression.v (coded responses), RateLimit.v (token buckets of a process
      and shared ones), RequestBody.v (what a peer is sent as a body),
      ForwardRequest.v (gRPC timeouts, whose fault an error is), Forward.v (the
      set-up, the attempts, the response, the background refresh) and
      ForwardSafety.v; Handler.v composes them into what happens to a request
      from its listener to the access log, HandlerSafety.v shows what that
      comes to.
    - What is reported: Stats.v (counters and rolling windows), StatsRecord.v
      (the operations that record an event, snapshot versions and deltas),
      StatsSafety.v, StatsDelta.v, SnapshotRace.v.
    - The life of the server: Lifecycle.v (listeners, connection guards, the
      commit of a reload), Runtime.v (groups of workers, their accept loops, the
      supervisor's reload and shutdown as steps that interleave),
      RuntimeSafety.v.
    - The cache of one process: CacheTypes.v, CacheRequest.v, CachePolicy.v,
      CacheStore.v, CacheRange.v (what is cacheable, under which key, for how
      long, which slice); CacheIndex.v and CacheMaintenance.v (the index and
      every operation on it), with CacheInvariant.v and CacheSafety.v (its
      invariant and reachable states); CacheLookup.v and CacheLookupSafety.v
      (the lookup loop and the fill locks); CacheStreaming.v and
      CacheStreamingSafety.v (storing a body while it is sent).
    - The cache between processes: SharedMemory.v (segments), SharedJson.v,
      SharedIndex.v (the document, its change ring, the followers),
      SharedIndexView.v, SharedIndexStore.v, SharedIndexSafety.v (replication),
      SharedFillLease.v (fill locks as leases); CacheFillShared.v (published
      fills), CacheFill.v (the writing task and its readers as interleaved
      steps), CacheFillSafety.v, CacheFillLocal.v, CacheFillSharedSafety.v.

    ** What the theorems show

    Routing refines a documented precedence relation; selections are complete,
    distinct and fair; health and cooldown follow the history of results; the
    cache index is consistent in every reachable state, its loops terminate
    and a store stays within the zone's limit; lookups answer, and serve only
    what policy allows; fill locks exclude each other, in a process and as
    leases between processes; a replica shows the shared document; readers of a
    running fill, never left out, come to its end with the whole body; what is
    stored is what was sent; parsers and printers, encoders and decoders are
    inverse; the headers sent upstream are the client's end-to-end headers and
    the proxy's own; a request is answered (but for one panic, of a gRPC-Web
    client that upgrades), counted and logged once, its attempts are those that
    were counted, its peers are held as long as their responses are sent or
    tunnelled; a client is let through as often as its rate limit says, the same
    by every process; a coded response reads as the original does; a task that
    runs finds its listener through every reload, and connections are counted
    under their own listener; a gRPC call is recorded once and as it ended;
    bodies are cut by nothing but their timeouts and limits; validated
    configurations compile whenever the files, log formats, addresses and
    upstreams (peer URLs, TLS names, DNS lifetimes) that only compilation reads
    are good, to what the runtime assumes of them; counters report what
    happened, no more and no less, and snapshot deltas every change that has
    been published, to an observer that looked while none was under way.  A
    replica of the shared index that publishes while others do can miss what
    they published, and a reader of a fill can find that its file has just been
    renamed: the theorems say when they do not.  Windows in which
    the code misbehaves are concrete runs ([Example]s) beside the theorems that
    exclude them by hypothesis.

    ** Fuel

    The source's unbounded loops recurse on the polls of the inner body, on the
    access schedule ([eviction_terminates] and [cleanup_terminates]: twice its
    length is enough), or on a turn count ([lookup_answers]: one turn more than
    there are entries).  Interleavings are explicit schedules; liveness is
    stated for schedules that never leave the task out ([fair_run]).

    ** Not modelled

    Sockets, TLS, QUIC and timers (third-party crates driven by glue), DER
    parsing and OCSP, ACME and its storage, the encoders of compressed bodies,
    the command line and its rendering, logging.  Of the parts that are
    modelled, the directory scan that reloads a cache from disk ([load.rs]) and
    file-system failures beyond those a definition takes as arguments. *)

From stdpp Require Export prelude gmap strings pretty list sorting.
From Stdlib Require Export ZArith Lia.

Declare Scope rginx_scope.
Delimit Scope rginx_scope with rginx.
Open Scope Z_scope.

(** ** Results: Rust's [Result<T, E>] and the [?] operator *)

Inductive result (E A : Type) : Type :=
| Ok (a : A)
| Err (e : E).
Arguments Ok {E A} a.
Arguments Err {E A} e.

Definition rbind {E A B} (m : result E A) (k : A → result E B) : result E B :=
  match m with Ok a => k a | Err e => Err e end.

Definition rmap {E A B} (f : A → B) (m : result E A) : result E B :=
  match m with Ok a => Ok (f a) | Err e => Err e end.

Definition is_ok {E A} (m : result E A) : bool :=
  match m with Ok _ => true | Err _ => false end.

Definition ok_or {E A} (o : option A) (e : E) : result E A :=
  match o with Some a => Ok a | None => Err e end.

Definition result_ok {E A} (m : result E A) : option A :=
  match m with Ok a => Some a | Err _ => None end.

Definition is_some {A} (o : option A) : bool := match o with Some _ => true | None => false end.

Notation "'let?' x := m 'in' k" := (rbind m (λ x, k))
  (at level 200, x pattern, m at level 100, k at level 200,
   format "'[v' 'let?'  x  :=  m  'in' '/' k ']'") : rginx_scope.
Open Scope rginx_scope.

Lemma rbind_ok {E A B} (m : result E A) (k : A → result E B) b :
  rbind m k = Ok b ↔ ∃ a, m = Ok a ∧ k a = Ok b.
Proof. destruct m; simpl; naive_solver. Qed.

(** [iter.map(f).collect::<Result<Vec<_>, _>>()] and a loop of fallible checks. *)
Fixpoint collect {E A B} (f : A → result E B) (l : list A) : result E (list B) :=
  match l with
  | [] => Ok []
  | x :: l => let? y := f x in let? ys := collect f l in Ok (y :: ys)
  end.

Fixpoint for_each {E A} (f : A → result E ()) (l : list A) : result E () :=
  match l with
  | [] => Ok tt
  | x :: l => let? _ := f x in for_each f l
  end.

(** [if b { return Err(e); }] and [option.map(f).transpose()?]. *)
Definition reject {E} (b : bool) (e : E) : result E () := if b then Err e else Ok tt.
Definition transpose {E A B} (f : A → result E B) (o : option A) : result E (option B) :=
  match o with Some a => rmap Some (f a) | None => Ok None end.

Lemma collect_ok {E A B} (f : A → result E B) l ys :
  collect f l = Ok ys ↔ Forall2 (λ x y, f x = Ok y) l ys.
Proof.
  revert ys. induction l as [|x l IH]; intros ys; simpl.
  - split; [intros [= <-]; constructor|]. by inversion 1.
  - rewrite rbind_ok. setoid_rewrite rbind_ok. split.
    + intros (y & Hy & zs & Hzs%IH & [= <-]). by constructor.
    + inversion 1; subst. eexists. split; [done|]. eexists. split; [by apply IH|done].
Qed.

Lemma collect_total {E A B} (f : A → result E B) l :
  Forall (λ x, ∃ y, f x = Ok y) l → ∃ ys, collect f l = Ok ys.
Proof.
  induction 1 as [|x l (y & Hy) Hl (ys & Hys)]; simpl; [by eexists|].
  exists (y :: ys). by rewrite Hy; simpl; rewrite Hys.
Qed.

Lemma for_each_ok {E A} (f : A → result E ()) l :
  for_each f l = Ok tt ↔ Forall (λ x, f x = Ok tt) l.
Proof.
  induction l as [|x l IH]; simpl; [split; [constructor|done]|].
  rewrite rbind_ok, Forall_cons, <-IH. split; [intros ([] & ? & ?); done|].
  intros [? ?]. by exists tt.
Qed.

Lemma reject_ok {E} b (e : E) : reject b e = Ok tt ↔ b = false.
Proof. by destruct b. Qed.

Lemma transpose_ok {E A B} (f : A → result E B) o r :
  transpose f o = Ok r ↔
  match o with Some a => ∃ b, f a = Ok b ∧ r = Some b | None => r = None end.
Proof.
  destruct o as [a|]; simpl; [|naive_solver].
  destruct (f a); simpl; naive_solver.
Qed.

Lemma rbind_unit {E B} (m : result E ()) (k : result E B) b :
  rbind m (λ _, k) = Ok b ↔ m = Ok tt ∧ k = Ok b.
Proof. destruct m as [[]|]; simpl; naive_solver. Qed.

(** ** Machine integers

    A Rust [uN] is a [Z] kept in [0, 2^N); the operations that can leave the
    range are written with the wrap-around or saturation the source asks for. *)

Definition u8_max : Z := 2 ^ 8 - 1.
Definition u16_max : Z := 2 ^ 16 - 1.
Definition u32_max : Z := 2 ^ 32 - 1.
Definition u64_max : Z := 2 ^ 64 - 1.

Definition is_u8 (z : Z) : Prop := 0 ≤ z < 2 ^ 8.
Definition is_u32 (z : Z) : Prop := 0 ≤ z < 2 ^ 32.
Definition is_u64 (z : Z) : Prop := 0 ≤ z < 2 ^ 64.

(** [a.saturating_add(b)], [a.saturating_sub(b)] and [a.wrapping_mul(b)] on u64
    (usize is 64 bits wide on the supported targets). *)
Definition sat_add64 (a b : Z) : Z := Z.min (a + b) u64_max.
Definition sat_sub (a b : Z) : Z := Z.max (a - b) 0.
Definition wrap32 (z : Z) : Z := z mod 2 ^ 32.
Definition wrap64 (z : Z) : Z := z mod 2 ^ 64.
Definition wrapping_mul64 (a b : Z) : Z := wrap64 (a * b).

Lemma wrap64_range z : is_u64 (wrap64 z).
Proof. apply Z.mod_pos_bound. lia. Qed.

Lemma wrap64_small z : is_u64 z → wrap64 z = z.
Proof. apply Z.mod_small. Qed.

Lemma sat_add64_range a b : 0 ≤ a → 0 ≤ b → is_u64 (sat_add64 a b).
Proof. unfold sat_add64, is_u64, u64_max. lia. Qed.

Lemma sat_add64_mono a b c d : a ≤ b → c ≤ d → sat_add64 a c ≤ sat_add64 b d.
Proof. unfold sat_add64. lia. Qed.

(** Bits: a disjoint [lor] is an addition, and [land] with ones is a remainder. *)
Lemma lor_shiftl_add a b n : 0 ≤ n → 0 ≤ a < 2 ^ n → Z.lor a (Z.shiftl b n) = a + b * 2 ^ n.
Proof.
  intros Hn Ha.
  assert (Hd : Z.land a (Z.shiftl b n) = 0).
  { apply Z.bits_inj_iff'. intros i Hi. rewrite Z.land_spec, Z.bits_0.
    destruct (Z.lt_ge_cases i n).
    - rewrite Z.shiftl_spec_low by done. apply andb_false_r.
    - rewrite (Z.testbit_eqb a) by done.
      rewrite Z.div_small; [done|]. split; [lia|].
      eapply Z.lt_le_trans; [apply Ha|]. apply Z.pow_le_mono_r; lia. }
  rewrite <-Z.lxor_lor, <-Z.add_nocarry_lxor by done.
  by rewrite Z.shiftl_mul_pow2.
Qed.

Lemma land_ones_mod a n : 0 ≤ n → Z.land a (2 ^ n - 1) = a mod 2 ^ n.
Proof.
  intros. rewrite <-Z.land_ones by done. by rewrite Z.ones_equiv, Z.sub_1_r.
Qed.

(** ** Comparison results *)

Definition then_cmp (c d : comparison) : comparison :=
  match c with Eq => d | _ => c end.

(** [(a, b).cmp(&(c, d))] on pairs of integers. *)
Definition pair_cmp (x y : Z * Z) : comparison :=
  then_cmp (x.1 ?= y.1) (x.2 ?= y.2).

Definition cmp_is_gt (c : comparison) : bool :=
  match c with Gt => true | _ => false end.

(** ** Option and list helpers that mirror the Rust iterator adaptors *)

Fixpoint find_map {A B} (f : A → option B) (l : list A) : option B :=
  match l with
  | [] => None
  | x :: l => match f x with Some b => Some b | None => find_map f l end
  end.

Lemma find_map_Some {A B} (f : A → option B) l b :
  find_map f l = Some b → ∃ x, x ∈ l ∧ f x = Some b.
Proof.
  induction l as [|x l IH]; simpl; [done|].
  destruct (f x) eqn:Hx; [intros [= ->]; exists x; set_solver|].
  intros (y & Hy & Hf)%IH. exists y. set_solver.
Qed.

Lemma find_map_None {A B} (f : A → option B) l :
  find_map f l = None ↔ Forall (λ x, f x = None) l.
Proof.
  induction l as [|x l IH]; simpl.
  - split; [constructor|done].
  - destruct (f x) eqn:Hx.
    + split; [done|]. inversion 1. congruence.
    + rewrite Forall_cons, <-IH. naive_solver.
Qed.

Fixpoint find_first {A} (p : A → bool) (l : list A) : option A :=
  match l with
  | [] => None
  | x :: l => if p x then Some x else find_first p l
  end.

Lemma find_first_Some {A} (p : A → bool) l x :
  find_first p l = Some x →
  ∃ l1 l2, l = l1 ++ x :: l2 ∧ p x = true ∧ Forall (λ y, p y = false) l1.
Proof.
  induction l as [|y l IH]; simpl; [done|].
  destruct (p y) eqn:Hy.
  - intros [= ->]. exists [], l. split_and!; [done|done|constructor].
  - intros (l1 & l2 & -> & Hx & Hl)%IH. exists (y :: l1), l2.
    split_and!; [done|done|by constructor].
Qed.

Lemma find_first_None {A} (p : A → bool) l :
  find_first p l = None ↔ Forall (λ y, p y = false) l.
Proof.
  induction l as [|y l IH]; simpl.
  - split; [constructor|done].
  - destruct (p y) eqn:Hy.
    + split; [done|]. inversion 1. congruence.
    + rewrite Forall_cons, <-IH. naive_solver.
Qed.

(** [iter.enumerate()]. *)
Fixpoint enumerate_from {A} (i : nat) (l : list A) : list (nat * A) :=
  match l with
  | [] => []
  | x :: l => (i, x) :: enumerate_from (S i) l
  end.
Definition enumerate {A} (l : list A) : list (nat * A) := enumerate_from 0 l.

Lemma elem_of_enumerate_from {A} (l : list A) i j x :
  (j, x) ∈ enumerate_from i l ↔ (i ≤ j)%nat ∧ l !! (j - i)%nat = Some x.
Proof.
  revert i. induction l as [|y l IH]; intros i; simpl.
  - rewrite elem_of_nil, lookup_nil. naive_solver.
  - rewrite elem_of_cons, IH. split.
    + intros [[= -> ->]|[Hle Hl]].
      * rewrite Nat.sub_diag. done.
      * split; [lia|]. by replace (j - i)%nat with (S (j - S i)) by lia.
    + intros [Hle Hl]. destruct (decide (j = i)) as [->|Hne].
      * rewrite Nat.sub_diag in Hl. naive_solver.
      * right. split; [lia|].
        by replace (j - i)%nat with (S (j - S i)) in Hl by lia.
Qed.

Lemma elem_of_enumerate {A} (l : list A) j x :
  (j, x) ∈ enumerate l ↔ l !! j = Some x.
Proof.
  unfold enumerate. rewrite elem_of_enumerate_from, Nat.sub_0_r.
  intuition lia.
Qed.

Lemma map_snd_enumerate {A} n (l : list A) : map snd (enumerate_from n l) = l.
Proof. revert n. induction l as [|x l IH]; intros n; [done|]. cbn. by rewrite IH. Qed.

Lemma list_filter_ext_in {A} (P Q : A → Prop) `{!∀ x, Decision (P x), !∀ x, Decision (Q x)} (l : list A) :
  (∀ x, x ∈ l → P x ↔ Q x) → filter P l = filter Q l.
Proof.
  induction l as [|x l IH]; intros Hiff; [done|]. rewrite !filter_cons.
  assert (P x ↔ Q x) by (apply Hiff; set_solver).
  rewrite IH by (intros; apply Hiff; set_solver).
  case_decide; case_decide; tauto.
Qed.

Lemma list_filter_all {A} (P : A → Prop) `{!∀ x, Decision (P x)} (l : list A) :
  (∀ x, P x) → filter P l = l.
Proof.
  intros HP. induction l as [|x l IH]; [done|].
  rewrite filter_cons, IH. by rewrite decide_True.
Qed.

Lemma list_filter_none {A} (P : A → Prop) `{!∀ x, Decision (P x)} (l : list A) :
  (∀ x, ¬ P x) → filter P l = [].
Proof.
  intros HP. induction l as [|x l IH]; [done|].
  rewrite filter_cons, IH. by rewrite decide_False.
Qed.

Lemma list_filter_fmap {A B} (f : A → B) (P : B → Prop) `{!∀ x, Decision (P x)} (l : list A) :
  filter P (f <$> l) = f <$> filter (λ x, P (f x)) l.
Proof.
  induction l as [|x l IH]; [done|].
  rewrite fmap_cons, !filter_cons, IH. by case_decide.
Qed.

Lemma omap_split {A B} (f : A → option B) (l : list A) k1 y k2 :
  omap f l = k1 ++ y :: k2 →
  ∃ l1 x l2, l = l1 ++ x :: l2 ∧ f x = Some y ∧ omap f l1 = k1 ∧ omap f l2 = k2.
Proof.
  revert k1. induction l as [|z l IH]; intros k1; simpl; [by destruct k1|].
  destruct (f z) as [w|] eqn:Hz.
  - destruct k1 as [|w' k1]; simpl; intros [= -> Hl].
    + by exists [], z, l.
    + destruct (IH _ Hl) as (l1 & x & l2 & -> & Hx & <- & <-).
      exists (z :: l1), x, l2. cbn. by rewrite Hz.
  - intros Hl. destruct (IH _ Hl) as (l1 & x & l2 & -> & Hx & <- & <-).
    exists (z :: l1), x, l2. cbn. by rewrite Hz.
Qed.

(** Sum of a list of integers ([iter.sum()] without overflow). *)
Definition zsum (l : list Z) : Z := foldr Z.add 0 l.

Lemma zsum_app l1 l2 : zsum (l1 ++ l2) = zsum l1 + zsum l2.
Proof. induction l1; simpl; lia. Qed.

Lemma zsum_nonneg l : Forall (λ z, 0 ≤ z) l → 0 ≤ zsum l.
Proof. induction 1; simpl; lia. Qed.

(** ** Champions

    Several selections of the source walk a list and keep one champion,
    replacing it by a later candidate under a test ([max_by], [select_vhost],
    [select_more_specific]).  [champion] is that walk, and the lemmas below
    say what it returns for any test that agrees with a preorder. *)

Section Champion.
  Context {A : Type} (replaces : A → A → bool).

Definition challenge (acc : option A) (x : A) : option A :=
    match acc with
    | None => Some x
    | Some y => if replaces x y then Some x else Some y
    end.

Definition champion_from (acc : option A) (l : list A) : option A :=
    fold_left challenge l acc.
Definition champion (l : list A) : option A := champion_from None l.

Lemma champion_from_is_Some l y : ∃ x, champion_from (Some y) l = Some x.
  Proof.
    revert y. induction l as [|z l IH]; intros y; simpl; [by eexists|].
    destruct (replaces z y); apply IH.
  Qed.

Lemma champion_None l : champion l = None ↔ l = [].
  Proof.
    destruct l as [|y l]; [done|]. split; [|done]. intros Hc.
    destruct (champion_from_is_Some l y) as [x Hx].
    assert (Some x = None) by (rewrite <-Hx; exact Hc). done.
  Qed.

  Context (le : A → A → Prop) `{!PreOrder le}.
  Context (replaces_true : ∀ x y, replaces x y = true → le y x).
  Context (replaces_false : ∀ x y, replaces x y = false → le x y).

Lemma champion_from_Some l y :
    ∃ x, champion_from (Some y) l = Some x ∧ (x = y ∨ x ∈ l) ∧
         le y x ∧ Forall (λ z, le z x) l.
  Proof using All.
    revert y. induction l as [|z l IH]; intros y.
    - exists y. split_and!; [done|by left|reflexivity|constructor].
    - simpl. destruct (replaces z y) eqn:Hr.
      + destruct (IH z) as (x & Hc & Hin & Hle & Hall). exists x.
        apply replaces_true in Hr.
        split_and!; [done|set_solver|by etrans|by constructor].
      + destruct (IH y) as (x & Hc & Hin & Hle & Hall). exists x.
        apply replaces_false in Hr.
        split_and!; [done|set_solver|done|constructor; [by etrans|done]].
  Qed.

Lemma champion_Some l x :
    champion l = Some x → x ∈ l ∧ Forall (λ z, le z x) l.
  Proof using All.
    destruct l as [|y l]; [done|].
    unfold champion. simpl. intros Hc.
    destruct (champion_from_Some l y) as (x' & Hc' & Hin & Hle & Hall).
    unfold champion_from in *. simplify_eq.
    split; [set_solver|by constructor].
  Qed.

End Champion.

(** When the champion is replaced only by a strictly greater candidate, the
    winner is the first of the maximal elements. *)
Section FirstChampion.
  Context {A : Type} (replaces : A → A → bool) (rank : A → A → comparison).
  Context (le := λ x y, rank x y ≠ Gt) (Hpre : PreOrder le).
  Context (Hrep : ∀ x y, replaces x y = true ↔ rank x y = Gt).
  Context (Hanti : ∀ x y, rank x y = CompOpp (rank y x)).

Lemma first_champion_from l y x :
    champion_from replaces (Some y) l = Some x →
    (x = y ∧ Forall (λ z, rank z y ≠ Gt) l) ∨
    ∃ l1 l2, l = l1 ++ x :: l2 ∧ rank x y = Gt ∧
             Forall (λ z, rank x z = Gt) l1 ∧ Forall (λ z, rank z x ≠ Gt) l2.
  Proof using All.
    assert (Htr : ∀ a b c, rank a b = Gt → rank b c ≠ Lt → rank a c = Gt).
    { intros a b c Hab Hbc. destruct (rank a c) eqn:Hac; [| |done]; exfalso.
      - assert (le a b) as Hle; [|by apply Hle].
        transitivity c; [unfold le; congruence|].
        unfold le. rewrite Hanti. by destruct (rank b c).
      - assert (le a b) as Hle; [|by apply Hle].
        transitivity c; [unfold le; congruence|].
        unfold le. rewrite Hanti. by destruct (rank b c). }
    revert y. induction l as [|z l IH]; intros y; simpl.
    - intros [= ->]. left. split; [done|constructor].
    - destruct (replaces z y) eqn:Hr.
      + apply Hrep in Hr. intros [[-> Hall]|(l1 & l2 & -> & Hgt & H1 & H2)]%IH.
        * right. exists [], l. split_and!; [done|done|constructor|done].
        * right. exists (z :: l1), l2. split_and!; [done| |by constructor|done].
          eapply Htr; [done|]. congruence.
      + assert (Hzy : rank z y ≠ Gt) by (intros H%Hrep; congruence).
        intros [[-> Hall]|(l1 & l2 & -> & Hgt & H1 & H2)]%IH.
        * left. split; [done|by constructor].
        * right. exists (z :: l1), l2. split_and!; [done|done| |done].
          constructor; [|done]. eapply Htr; [done|].
          rewrite Hanti. by destruct (rank z y).
  Qed.

Lemma first_champion_Some l x :
    champion replaces l = Some x →
    ∃ l1 l2, l = l1 ++ x :: l2 ∧
      Forall (λ z, rank x z = Gt) l1 ∧ Forall (λ z, rank z x ≠ Gt) l2.
  Proof using All.
    destruct l as [|y l]; [done|]. unfold champion. simpl.
    intros [[-> Hall]|(l1 & l2 & -> & Hgt & H1 & H2)]%first_champion_from.
    - exists [], l. split_and!; [done|constructor|done].
    - exists (y :: l1), l2. split_and!; [done|by constructor|done].
  Qed.
End FirstChampion.

(** [slice.sort_by(cmp)]: the stable sort, by insertion. *)
Section SortBy.
  Context {A : Type} (cmp : A → A → comparison).

Fixpoint insert_by (x : A) (l : list A) : list A :=
    match l with
    | [] => [x]
    | y :: l' => if cmp_is_gt (cmp x y) then y :: insert_by x l' else x :: l
    end.
Definition sort_by (l : list A) : list A := foldr insert_by [] l.

Lemma insert_by_perm x l : insert_by x l ≡ₚ x :: l.
  Proof.
    induction l as [|y l IH]; simpl; [done|]. case_match; [|done].
    rewrite IH. by constructor.
  Qed.

Lemma sort_by_perm l : sort_by l ≡ₚ l.
  Proof. induction l as [|x l IH]; simpl; [done|]. by rewrite insert_by_perm, IH. Qed.

  Context (Hanti : ∀ x y, cmp x y = CompOpp (cmp y x)).
  Context (Htrans : ∀ x y z, cmp x y ≠ Gt → cmp y z ≠ Gt → cmp x z ≠ Gt).
  Context (Heq : ∀ x y, cmp x y = Eq → x = y).

Definition sorted_by : list A → Prop := Sorted.StronglySorted (λ x y, cmp x y ≠ Gt).

Lemma insert_by_sorted x l : sorted_by l → sorted_by (insert_by x l).
  Proof using Hanti Htrans.
    unfold sorted_by. induction 1 as [|y l Hl IH Hy]; simpl; [repeat constructor|].
    destruct (cmp x y) eqn:Hxy; simpl.
    - constructor; [by constructor|]. constructor; [by rewrite Hxy|].
      eapply Forall_impl; [exact Hy|]. intros z Hz. eapply Htrans; [|exact Hz]. by rewrite Hxy.
    - constructor; [by constructor|]. constructor; [by rewrite Hxy|].
      eapply Forall_impl; [exact Hy|]. intros z Hz. eapply Htrans; [|exact Hz]. by rewrite Hxy.
    - constructor; [done|]. rewrite insert_by_perm. constructor; [|done].
      rewrite Hanti, Hxy. done.
  Qed.

Lemma sort_by_sorted l : sorted_by (sort_by l).
  Proof using Hanti Htrans.
    induction l as [|x l IH]; simpl; [constructor|]. by apply insert_by_sorted.
  Qed.

Lemma sorted_by_unique l k : sorted_by l → sorted_by k → l ≡ₚ k → l = k.
  Proof using Hanti Htrans Heq.
    unfold sorted_by. intros Hl. revert k. induction Hl as [|x l Hl IH Hx]; intros k Hk Hp.
    - by apply Permutation_nil_l in Hp.
    - inversion Hk as [|y k' Hk' Hy]; subst.
      { by apply Permutation_nil_r in Hp. }
      assert (x = y) as ->.
      { assert (x ∈ y :: k') as Hin by (rewrite <-Hp; set_solver).
        assert (y ∈ x :: l) as Hin' by (rewrite Hp; set_solver).
        apply elem_of_cons in Hin as [->|Hin]; [done|].
        apply elem_of_cons in Hin' as [->|Hin']; [done|].
        rewrite Forall_forall in Hx, Hy. pose proof (Hx _ Hin') as H1.
        pose proof (Hy _ Hin) as H2. rewrite Hanti in H2.
        apply Heq. by destruct (cmp x y). }
      apply Permutation_cons_inv in Hp. f_equal. by apply IH.
  Qed.

Lemma sort_by_unique l k : l ≡ₚ k → sort_by l = sort_by k.
  Proof using Hanti Heq Htrans.
    intros Hp. apply sorted_by_unique; try apply sort_by_sorted.
    by rewrite !sort_by_perm.
  Qed.

Lemma sort_by_fixed l : sorted_by l → sort_by l = l.
  Proof using Hanti Heq Htrans.
    intros Hl. apply sorted_by_unique; [apply sort_by_sorted|done|apply sort_by_perm].
  Qed.
End SortBy.

(** [vec.dedup()]: adjacent equal elements are merged. *)
Fixpoint dedup {A} `{EqDecision A} (l : list A) : list A :=
  match l with
  | [] => []
  | x :: l' =>
      match dedup l' with
      | y :: r => if decide (x = y) then y :: r else x :: y :: r
      | [] => [x]
      end
  end.

Lemma elem_of_dedup {A} `{EqDecision A} (l : list A) x : x ∈ dedup l ↔ x ∈ l.
Proof.
  induction l as [|y l IH]; [done|]. simpl.
  rewrite elem_of_cons, <-IH.
  destruct (dedup l) as [|z r]; [|case_decide; subst]; set_solver.
Qed.

(** A sorted list holds equal elements side by side, so [dedup] leaves each
    once. *)
Lemma dedup_sorted_NoDup {A} `{EqDecision A} (cmp : A → A → comparison) (l : list A) :
  (∀ x y, cmp x y = CompOpp (cmp y x)) → (∀ x y, cmp x y = Eq → x = y) →
  (∀ x y z, cmp x y ≠ Gt → cmp y z ≠ Gt → cmp x z ≠ Gt) →
  sorted_by cmp l → NoDup (dedup l) ∧ sorted_by cmp (dedup l).
Proof.
  intros Hanti Heq Htrans. unfold sorted_by. induction 1 as [|x l Hl [IHn IHs] Hx]; simpl.
  { split; constructor. }
  assert (Hall : Forall (λ z, cmp x z ≠ Gt) (dedup l)).
  { apply Forall_forall. intros z Hz. rewrite elem_of_dedup in Hz.
    rewrite Forall_forall in Hx. exact (Hx z Hz). }
  destruct (dedup l) as [|y r]; [split; [apply NoDup_singleton|by repeat constructor]|].
  case_decide; [by subst|]. split; [|by constructor]. constructor; [|done].
  apply not_elem_of_cons. split; [done|]. intros Hin.
  inversion IHs as [|?? _ Hy]; subst. rewrite Forall_forall in Hy. specialize (Hy _ Hin).
  apply Forall_cons in Hall as [Hxy _]. rewrite Hanti in Hy.
  destruct (cmp x y) eqn:He; [|done..]. by apply Heq in He.
Qed.

(** ** Weak orders given by a comparison *)

Record weak_order {A} (cmp : A → A → comparison) : Prop := {
  wo_anti x y : cmp x y = CompOpp (cmp y x);
  wo_trans x y z : cmp x y ≠ Gt → cmp y z ≠ Gt → cmp x z ≠ Gt;
}.

Lemma weak_order_Eq {A} (cmp : A → A → comparison) x y z :
  weak_order cmp → cmp x y = Eq → cmp y z = Eq → cmp x z = Eq.
Proof.
  intros [Ha Ht] Hxy Hyz.
  pose proof (Ht x y z ltac:(by rewrite Hxy) ltac:(by rewrite Hyz)) as H1.
  pose proof (Ht z y x ltac:(by rewrite Ha, Hyz) ltac:(by rewrite Ha, Hxy)) as H2.
  rewrite Ha in H2. by destruct (cmp x z).
Qed.

Lemma weak_order_Lt {A} (cmp : A → A → comparison) x y z :
  weak_order cmp → cmp x y ≠ Gt → cmp y z ≠ Gt → cmp x y = Lt ∨ cmp y z = Lt → cmp x z = Lt.
Proof.
  intros [Ha Ht] Hxy Hyz Hlt. destruct (cmp x z) eqn:Hxz; [exfalso|done|by destruct (Ht x y z Hxy Hyz)].
  destruct Hlt as [Hlt|Hlt].
  - apply (Ht y z x Hyz); [by rewrite Ha, Hxz|]. by rewrite Ha, Hlt.
  - apply (Ht z x y); [by rewrite Ha, Hxz|done|]. by rewrite Ha, Hlt.
Qed.

Lemma weak_order_then {A} (c d : A → A → comparison) :
  weak_order c → weak_order d → weak_order (λ x y, then_cmp (c x y) (d x y)).
Proof.
  intros Hc Hd. split.
  - intros x y. rewrite (wo_anti _ Hc), (wo_anti _ Hd). by destruct (c y x).
  - intros x y z H1 H2. destruct (c x y) eqn:Hxy, (c y z) eqn:Hyz; try done.
    + rewrite (weak_order_Eq c x y z) by done. by eapply (wo_trans _ Hd).
    + rewrite (weak_order_Lt c x y z); [done|done|by rewrite Hxy|by rewrite Hyz|by right].
    + rewrite (weak_order_Lt c x y z); [done|done|by rewrite Hxy|by rewrite Hyz|by left].
    + rewrite (weak_order_Lt c x y z); [done|done|by rewrite Hxy|by rewrite Hyz|by left].
Qed.

Lemma weak_order_on {A B} (f : A → B) (c : B → B → comparison) :
  weak_order c → weak_order (λ x y, c (f x) (f y)).
Proof. intros [Ha Ht]. split; [intros; apply Ha|intros x y z; apply Ht]. Qed.

Lemma weak_order_flip {A} (c : A → A → comparison) : weak_order c → weak_order (λ x y, c y x).
Proof. intros [Ha Ht]. split; [intros; apply Ha|]. intros x y z H1 H2. by eapply Ht. Qed.

Lemma weak_order_Z : weak_order Z.compare.
Proof.
  split; [intros x y; by rewrite Z.compare_antisym|]. intros x y z.
  destruct (Z.compare_spec x y), (Z.compare_spec y z), (Z.compare_spec x z); try done; lia.
Qed.

Lemma weak_order_nat : weak_order Nat.compare.
Proof.
  split; [intros x y; by rewrite Nat.compare_antisym|]. intros x y z.
  destruct (Nat.compare_spec x y), (Nat.compare_spec y z), (Nat.compare_spec x z); try done; lia.
Qed.

(** After sorting, what is taken is not above what is left. *)
Lemma sort_by_take {A} (cmp : A → A → comparison) l n x y :
  weak_order cmp → x ∈ take n (sort_by cmp l) → y ∈ drop n (sort_by cmp l) → cmp x y ≠ Gt.
Proof.
  intros [Ha Ht] Hx Hy. pose proof (sort_by_sorted cmp Ha Ht l) as Hs. unfold sorted_by in Hs.
  rewrite <-(take_drop n (sort_by cmp l)) in Hs.
  exact (StronglySorted_app_1_elem_of _ _ _ x y Hs Hx Hy).
Qed.

(** ** Automation *)

Create HintDb rginx.
#[export] Hint Resolve wrap64_range sat_add64_mono zsum_nonneg : rginx.

(** Split the guards of a translated function in the goal or a hypothesis. *)
Ltac case_guards :=
  repeat first
    [ progress simplify_eq/=
    | case_match
    | progress case_decide ].

Ltac boolify :=
  repeat match goal with
  | H : _ && _ = true |- _ => apply andb_true_iff in H as [? ?]
  | H : _ || _ = false |- _ => apply orb_false_iff in H as [? ?]
  | H : negb _ = true |- _ => apply negb_true_iff in H
  | H : negb _ = false |- _ => apply negb_false_iff in H
  | H : (_ <? _) = true |- _ => apply Z.ltb_lt in H
  | H : (_ <? _) = false |- _ => apply Z.ltb_ge in H
  | H : (_ <=? _) = true |- _ => apply Z.leb_le in H
  | H : (_ <=? _) = false |- _ => apply Z.leb_gt in H
  | H : (_ =? _) = true |- _ => apply Z.eqb_eq in H
  | H : (_ =? _) = false |- _ => apply Z.eqb_neq in H
  end.
