(* ===== verification/RustStr.v ===== *)
(** * Rust strings

    A [&str] or [String] is the [string] of its bytes.  This file holds the
    standard-library operations the source calls, written on bytes: prefix and
    suffix tests, [split], [split_once], [find], [trim] (with every Unicode
    [White_Space] character, by its UTF-8 encoding), ASCII case folding,
    decimal parsing with overflow, and the byte-wise ordering. *)

From Stdlib Require Export Ascii.
From S2P Require Import Prelude.

(** ** Characters *)

Definition byte_of (c : ascii) : Z := Z.of_N (N_of_ascii c).

Definition in_range (lo hi z : Z) : bool := (lo <=? z) && (z <=? hi).

Definition is_ascii_digit (c : ascii) : bool := in_range 48 57 (byte_of c).
Definition is_ascii_upper (c : ascii) : bool := in_range 65 90 (byte_of c).
Definition is_ascii_lower (c : ascii) : bool := in_range 97 122 (byte_of c).
Definition is_ascii_alphabetic (c : ascii) : bool := is_ascii_upper c || is_ascii_lower c.
Definition is_ascii_alphanumeric (c : ascii) : bool :=
  is_ascii_alphabetic c || is_ascii_digit c.

(** [char::is_ascii_lowercase]-folding of one byte. *)
Definition ascii_lower (c : ascii) : ascii :=
  if is_ascii_upper c then ascii_of_N (N_of_ascii c + 32) else c.
Definition ascii_upper (c : ascii) : ascii :=
  if is_ascii_lower c then ascii_of_N (N_of_ascii c - 32) else c.

Definition ascii_eqb (a b : ascii) : bool := bool_decide (a = b).
Definition str_eqb (a b : string) : bool := bool_decide (a = b).

Lemma str_eqb_true a b : str_eqb a b = true ↔ a = b.
Proof. apply bool_decide_eq_true. Qed.
Lemma str_eqb_false a b : str_eqb a b = false ↔ a ≠ b.
Proof. apply bool_decide_eq_false. Qed.
Lemma str_eqb_refl a : str_eqb a a = true.
Proof. by apply str_eqb_true. Qed.
#[export] Hint Rewrite str_eqb_refl : rginx.

(** ** Basic operations *)

Definition str_len (s : string) : Z := Z.of_nat (String.length s).
Definition str_is_empty (s : string) : bool :=
  match s with EmptyString => true | _ => false end.

Fixpoint str_map (f : ascii → ascii) (s : string) : string :=
  match s with
  | EmptyString => EmptyString
  | String c s => String (f c) (str_map f s)
  end.

Definition to_ascii_lowercase : string → string := str_map ascii_lower.
Definition to_ascii_uppercase : string → string := str_map ascii_upper.
Definition eq_ignore_ascii_case (a b : string) : bool :=
  str_eqb (to_ascii_lowercase a) (to_ascii_lowercase b).

(** [s.strip_prefix(p)]. *)
Fixpoint strip_prefix (p s : string) : option string :=
  match p, s with
  | EmptyString, _ => Some s
  | String a p, String b s => if ascii_eqb a b then strip_prefix p s else None
  | _, EmptyString => None
  end.

Definition starts_with (p s : string) : bool :=
  match strip_prefix p s with Some _ => true | None => false end.

(** [s.strip_suffix(p)]. *)
Fixpoint strip_suffix (p s : string) : option string :=
  if str_eqb s p then Some EmptyString
  else match s with
       | EmptyString => None
       | String c s => String c <$> strip_suffix p s
       end.

Definition ends_with (p s : string) : bool :=
  match strip_suffix p s with Some _ => true | None => false end.

(** [s.split_once(c)] for an ASCII character. *)
Fixpoint split_once (c : ascii) (s : string) : option (string * string) :=
  match s with
  | EmptyString => None
  | String a s =>
      if ascii_eqb a c then Some (EmptyString, s)
      else match split_once c s with
           | Some (x, y) => Some (String a x, y)
           | None => None
           end
  end.

(** [s.split(c)] for an ASCII character: always at least one piece. *)
Fixpoint split (c : ascii) (s : string) : list string :=
  match s with
  | EmptyString => [EmptyString]
  | String a s =>
      if ascii_eqb a c then EmptyString :: split c s
      else match split c s with
           | [] => [String a EmptyString]
           | w :: ws => String a w :: ws
           end
  end.

(** [s.split(p)] for a predicate on characters. *)
Fixpoint split_by (p : ascii → bool) (s : string) : list string :=
  match s with
  | EmptyString => [EmptyString]
  | String a s =>
      if p a then EmptyString :: split_by p s
      else match split_by p s with
           | [] => [String a EmptyString]
           | w :: ws => String a w :: ws
           end
  end.

(** [char::is_ascii_whitespace]: space, tab, line feed, form feed, return. *)
Definition is_ascii_whitespace (c : ascii) : bool :=
  let b := byte_of c in (b =? 32) || (b =? 9) || (b =? 10) || (b =? 12) || (b =? 13).

Definition contains_char (c : ascii) (s : string) : bool :=
  match split_once c s with Some _ => true | None => false end.

(** [haystack.contains(needle)]. *)
Fixpoint contains_str (p s : string) : bool :=
  starts_with p s ||
  match s with EmptyString => false | String _ s => contains_str p s end.

Fixpoint str_all (p : ascii → bool) (s : string) : bool :=
  match s with
  | EmptyString => true
  | String c s => p c && str_all p s
  end.

Fixpoint str_join (sep : string) (l : list string) : string :=
  match l with
  | [] => EmptyString
  | [w] => w
  | w :: ws => w +:+ sep +:+ str_join sep ws
  end.

(** ** Trimming

    [ws_head] recognises one whitespace character at the head of a UTF-8
    string and returns the rest; [ws_head_rev] does so on a reversed string. *)

Definition is_ascii_ws_byte (z : Z) : bool := in_range 9 13 z || (z =? 32).

Definition ws2 (a b : Z) : bool := (a =? 194) && ((b =? 133) || (b =? 160)).
Definition ws3 (a b c : Z) : bool :=
  ((a =? 225) && (b =? 154) && (c =? 128)) ||
  ((a =? 226) && (b =? 128) &&
     (in_range 128 138 c || (c =? 168) || (c =? 169) || (c =? 175))) ||
  ((a =? 226) && (b =? 129) && (c =? 159)) ||
  ((a =? 227) && (b =? 128) && (c =? 128)).

Fixpoint trim_start (s : string) : string :=
  match s with
  | EmptyString => s
  | String a r1 =>
      if is_ascii_ws_byte (byte_of a) then trim_start r1
      else match r1 with
           | EmptyString => s
           | String b r2 =>
               if ws2 (byte_of a) (byte_of b) then trim_start r2
               else match r2 with
                    | EmptyString => s
                    | String c r3 =>
                        if ws3 (byte_of a) (byte_of b) (byte_of c)
                        then trim_start r3 else s
                    end
           end
  end.

Fixpoint trim_start_rev (s : string) : string :=
  match s with
  | EmptyString => s
  | String a r1 =>
      if is_ascii_ws_byte (byte_of a) then trim_start_rev r1
      else match r1 with
           | EmptyString => s
           | String b r2 =>
               if ws2 (byte_of b) (byte_of a) then trim_start_rev r2
               else match r2 with
                    | EmptyString => s
                    | String c r3 =>
                        if ws3 (byte_of c) (byte_of b) (byte_of a)
                        then trim_start_rev r3 else s
                    end
           end
  end.

Definition trim_end (s : string) : string := String.rev (trim_start_rev (String.rev s)).
Definition trim (s : string) : string := trim_end (trim_start s).

(** [s.trim_matches(c)] for one ASCII character. *)
Fixpoint trim_start_char (c : ascii) (s : string) : string :=
  match s with
  | String a r => if ascii_eqb a c then trim_start_char c r else s
  | EmptyString => s
  end.
Definition trim_matches (c : ascii) (s : string) : string :=
  String.rev (trim_start_char c (String.rev (trim_start_char c s))).

(** ** Decimal numbers *)

Fixpoint parse_digits (max acc : Z) (s : string) : option Z :=
  match s with
  | EmptyString => Some acc
  | String c s =>
      if is_ascii_digit c then
        let acc' := acc * 10 + (byte_of c - 48) in
        if acc' <=? max then parse_digits max acc' s else None
      else None
  end.

(** [s.parse::<uN>()]: an optional [+], at least one digit, no overflow. *)
Definition parse_uint (max : Z) (s : string) : option Z :=
  match s with
  | EmptyString => None
  | String c r =>
      if ascii_eqb c "+"%char then
        match r with EmptyString => None | _ => parse_digits max 0 r end
      else parse_digits max 0 s
  end.
Definition parse_u64 : string → option Z := parse_uint u64_max.
Definition parse_u16 : string → option Z := parse_uint u16_max.

(** [n.to_string()]. *)
Definition dec (n : Z) : string := pretty (Z.to_N n).

(** ** Ordering: [str::cmp] is byte-wise *)

Definition str_cmp (a b : string) : comparison := String.compare a b.

(** ** Lemmas *)

Lemma ascii_eqb_true a b : ascii_eqb a b = true ↔ a = b.
Proof. apply bool_decide_eq_true. Qed.
Lemma ascii_eqb_refl a : ascii_eqb a a = true.
Proof. by apply ascii_eqb_true. Qed.

Lemma strip_prefix_Some p s r : strip_prefix p s = Some r ↔ s = p +:+ r.
Proof.
  revert s r. induction p as [|a p IH]; intros [|b s] r; simpl.
  - change (EmptyString +:+ r) with r. split; congruence.
  - change (EmptyString +:+ r) with r. split; congruence.
  - split; [done|]. discriminate.
  - change (String a p +:+ r) with (String a (p +:+ r)).
    destruct (ascii_eqb a b) eqn:Hab.
    + apply ascii_eqb_true in Hab as ->. rewrite IH. split; congruence.
    + split; [done|]. intros [= -> _]. by rewrite ascii_eqb_refl in Hab.
Qed.

Lemma strip_prefix_app p s : strip_prefix p (p +:+ s) = Some s.
Proof. by apply strip_prefix_Some. Qed.

Lemma starts_with_spec p s : starts_with p s = true ↔ ∃ r, s = p +:+ r.
Proof.
  unfold starts_with. destruct (strip_prefix p s) as [r|] eqn:H.
  - split; [|done]. intros _. exists r. by apply strip_prefix_Some.
  - split; [done|]. intros [r ->].
    assert (strip_prefix p (p +:+ r) = Some r) by (by apply strip_prefix_Some).
    congruence.
Qed.

Lemma starts_with_app p r : starts_with p (p +:+ r) = true.
Proof. apply starts_with_spec. by exists r. Qed.

Lemma str_app_nil_r s : s +:+ EmptyString = s.
Proof. induction s as [|c s IH]; [done|]. unfold String.app in *. simpl. by rewrite IH. Qed.

Lemma str_app_assoc a b c : (a +:+ b) +:+ c = a +:+ (b +:+ c).
Proof. induction a as [|x a IH]; [done|]. unfold String.app in *. simpl. by rewrite IH. Qed.

Lemma str_len_app a b : str_len (a +:+ b) = str_len a + str_len b.
Proof.
  unfold str_len. induction a as [|c a IH]; [done|].
  unfold String.app in *. simpl. lia.
Qed.

Lemma str_len_nonneg s : 0 ≤ str_len s.
Proof. unfold str_len. lia. Qed.
#[export] Hint Resolve str_len_nonneg : rginx.

Lemma str_cmp_antisym a b : str_cmp a b = CompOpp (str_cmp b a).
Proof. apply String.compare_antisym. Qed.

Lemma str_cmp_eq a b : str_cmp a b = Eq ↔ a = b.
Proof.
  split; [apply String.compare_eq_iff|]. intros ->.
  pose proof (str_cmp_antisym b b) as H. by destruct (str_cmp b b).
Qed.

Lemma str_cmp_le_trans a b c : str_cmp a b ≠ Gt → str_cmp b c ≠ Gt → str_cmp a c ≠ Gt.
Proof.
  assert (Hle : ∀ x y, str_cmp x y ≠ Gt ↔ String.le x y).
  { intros x y. unfold String.le, String.leb, str_cmp.
    by destruct (String.compare x y). }
  rewrite !Hle. by intros; etrans.
Qed.

Lemma to_ascii_lowercase_len s : str_len (to_ascii_lowercase s) = str_len s.
Proof.
  unfold str_len, to_ascii_lowercase. induction s as [|c s IH]; simpl; [done|].
  simpl in IH. lia.
Qed.

Lemma ascii_lower_idemp c : ascii_lower (ascii_lower c) = ascii_lower c.
Proof. destruct c as [[] [] [] [] [] [] [] []]; reflexivity. Qed.

Lemma to_ascii_lowercase_idemp s :
  to_ascii_lowercase (to_ascii_lowercase s) = to_ascii_lowercase s.
Proof.
  unfold to_ascii_lowercase.
  induction s as [|c s IH]; simpl; [done|]. by rewrite ascii_lower_idemp, IH.
Qed.

(** ** Splitting and joining *)

Lemma split_nonempty c s : split c s ≠ [].
Proof.
  destruct s as [|a s]; simpl; [done|].
  destruct (ascii_eqb a c); [done|]. by destruct (split c s).
Qed.

Lemma join_split c s : str_join (String c EmptyString) (split c s) = s.
Proof.
  induction s as [|a s IH]; simpl; [done|].
  pose proof (split_nonempty c s) as Hne.
  destruct (ascii_eqb a c) eqn:Ha.
  - apply ascii_eqb_true in Ha as ->.
    destruct (split c s) as [|w ws]; [done|]. simpl in *. by rewrite IH.
  - destruct (split c s) as [|w ws]; [done|].
    destruct ws as [|w' ws]; simpl in *.
    + by rewrite IH.
    + unfold String.app in *. simpl in *. by rewrite IH.
Qed.

Lemma split_once_Some c s x y :
  split_once c s = Some (x, y) → s = x +:+ String c y ∧ contains_char c x = false.
Proof.
  revert x y. induction s as [|a s IH]; intros x y; simpl; [done|].
  destruct (ascii_eqb a c) eqn:Ha.
  - intros [= <- <-]. apply ascii_eqb_true in Ha as ->. done.
  - destruct (split_once c s) as [[x' y']|] eqn:Hs; [|done].
    intros [= <- <-]. destruct (IH x' y' eq_refl) as [-> Hx].
    split; [done|]. unfold contains_char in *. simpl. rewrite Ha.
    by destruct (split_once c x') as [[]|].
Qed.

(** ** Decimal round trip *)

Lemma parse_digits_bound max acc s n :
  0 ≤ acc ≤ max → parse_digits max acc s = Some n → 0 ≤ n ≤ max.
Proof.
  revert acc. induction s as [|c s IH]; intros acc Hacc; simpl; [naive_solver|].
  destruct (is_ascii_digit c) eqn:Hd; [|done].
  destruct (_ <=? max) eqn:Hm; [|done]. apply IH.
  unfold is_ascii_digit, in_range in Hd. boolify. lia.
Qed.

Lemma parse_uint_bound max s n :
  0 ≤ max → parse_uint max s = Some n → 0 ≤ n ≤ max.
Proof.
  intros Hmax. destruct s as [|c r]; [done|]. unfold parse_uint.
  destruct (ascii_eqb c "+"%char).
  - destruct r; [done|]. apply parse_digits_bound. lia.
  - apply parse_digits_bound. lia.
Qed.

Lemma parse_u64_bound s n : parse_u64 s = Some n → is_u64 n.
Proof.
  intros H%parse_uint_bound; [|unfold u64_max; lia].
  unfold is_u64, u64_max in *. lia.
Qed.
#[export] Hint Resolve parse_u64_bound : rginx.

(** ** Trimming text behind an ASCII prefix *)

Definition is_ascii (c : ascii) : bool := byte_of c <? 128.

Lemma str_rev_app a b : String.rev (a +:+ b) = String.rev b +:+ String.rev a.
Proof.
  assert (Hrev : ∀ x y, String.rev_app x y = String.rev x +:+ y).
  { intros x. unfold String.rev. induction x as [|c x IH]; intros y; simpl; [done|].
    rewrite (IH (String c y)), (IH (String c EmptyString)), str_app_assoc. done. }
  induction a as [|c a IH]; [by rewrite str_app_nil_r|].
  change (String c a +:+ b) with (String c (a +:+ b)). unfold String.rev in *. simpl.
  rewrite (Hrev (a +:+ b)), (Hrev a). unfold String.rev. by rewrite IH, str_app_assoc.
Qed.

Lemma str_rev_involutive s : String.rev (String.rev s) = s.
Proof.
  induction s as [|c s IH]; [done|].
  change (String c s) with (String c EmptyString +:+ s).
  by rewrite !str_rev_app, IH.
Qed.

Lemma str_rev_empty s : str_is_empty (String.rev s) = str_is_empty s.
Proof.
  destruct s as [|c s]; [done|]. change (String c s) with (String c EmptyString +:+ s).
  rewrite str_rev_app. by destruct (String.rev s).
Qed.

Lemma trim_start_rev_le n s :
  (String.length s ≤ n)%nat → (String.length (trim_start_rev s) ≤ String.length s)%nat.
Proof.
  revert s. induction n as [|n IHn]; intros [|a [|b [|d s]]] Hn; simpl in *; try lia;
    repeat case_match; simpl in *; try lia.
  all: repeat match goal with
       | |- context [String.length (trim_start_rev ?x)] =>
           let H := fresh in pose proof (IHn x) as H; simpl in H; specialize (H ltac:(lia));
           revert H; generalize (String.length (trim_start_rev x)); intros
       end; try lia.
Qed.

(** A trimmed string refutes each whitespace test the trimming makes. *)
Ltac refute_ws H P :=
  let E := fresh "Hws" in
  revert H; destruct P eqn:E; intros H;
  [ exfalso; apply (f_equal String.length) in H; cbn [String.length] in H;
    try match type of H with
    | context [String.length (trim_start_rev ?s)] =>
        pose proof (trim_start_rev_le (String.length s) s ltac:(lia))
    end; cbn [String.length] in *; lia
  | ].

Lemma trim_start_rev_cons a r1 :
  trim_start_rev (String a r1) =
  if is_ascii_ws_byte (byte_of a) then trim_start_rev r1
  else match r1 with
       | EmptyString => String a r1
       | String b r2 =>
           if ws2 (byte_of b) (byte_of a) then trim_start_rev r2
           else match r2 with
                | EmptyString => String a r1
                | String c r3 =>
                    if ws3 (byte_of c) (byte_of b) (byte_of a)
                    then trim_start_rev r3 else String a r1
                end
       end.
Proof. done. Qed.

Lemma trim_start_rev_app r c q :
  str_is_empty r = false → trim_start_rev r = r → is_ascii c = true →
  trim_start_rev (r +:+ String c q) = r +:+ String c q.
Proof.
  intros Hne Htrim Hasc. unfold is_ascii in Hasc. boolify.
  destruct r as [|a [|b [|d r]]]; [done|..]; unfold String.app in *;
    cbn [String.append]; rewrite trim_start_rev_cons in Htrim |- *; cbv iota in Htrim |- *.
  - refute_ws Htrim (is_ascii_ws_byte (byte_of a)).
    assert (ws2 (byte_of c) (byte_of a) = false) as -> by (unfold ws2; lia).
    destruct q as [|e q]; [done|].
    by assert (ws3 (byte_of e) (byte_of c) (byte_of a) = false) as -> by (unfold ws3; lia).
  - refute_ws Htrim (is_ascii_ws_byte (byte_of a)).
    refute_ws Htrim (ws2 (byte_of b) (byte_of a)).
    by assert (ws3 (byte_of c) (byte_of b) (byte_of a) = false) as -> by (unfold ws3; lia).
  - refute_ws Htrim (is_ascii_ws_byte (byte_of a)).
    refute_ws Htrim (ws2 (byte_of b) (byte_of a)).
    by refute_ws Htrim (ws3 (byte_of d) (byte_of b) (byte_of a)).
Qed.

Lemma trim_start_le n s :
  (String.length s ≤ n)%nat → (String.length (trim_start s) ≤ String.length s)%nat.
Proof.
  revert s. induction n as [|n IHn]; intros [|a [|b [|d s]]] Hn; simpl in *; try lia;
    repeat case_match; simpl in *; try lia.
  all: repeat match goal with
       | |- context [String.length (trim_start ?x)] =>
           let H := fresh in pose proof (IHn x) as H; simpl in H; specialize (H ltac:(lia));
           revert H; generalize (String.length (trim_start x)); intros
       end; try lia.
Qed.

Lemma length_str_rev s : String.length (String.rev s) = String.length s.
Proof.
  induction s as [|c s IH]; [done|]. change (String c s) with (String c EmptyString +:+ s) at 1.
  pose proof (str_len_app (String.rev s) (String.rev (String c EmptyString))) as H.
  rewrite str_rev_app. unfold str_len in H. cbn [String.length]. simpl in H. lia.
Qed.

(** A trimmed string starts and ends without whitespace. *)
Lemma trim_fixed_inv s :
  trim s = s → trim_start s = s ∧ trim_start_rev (String.rev s) = String.rev s.
Proof.
  intros Ht. unfold trim, trim_end in Ht.
  pose proof (trim_start_le _ s (le_n _)) as H1.
  pose proof (trim_start_rev_le _ (String.rev (trim_start s)) (le_n _)) as H2.
  rewrite length_str_rev in H2.
  assert (Hs : trim_start s = s ∨ (String.length (trim_start s) < String.length s)%nat).
  { destruct (decide (String.length (trim_start s) = String.length s)) as [He|];
      [left|right; lia].
    clear -He. destruct s as [|a [|b [|c r]]]; cbn [trim_start] in *; repeat case_match;
      try done; exfalso; cbn [String.length] in *; try lia.
    all: match type of He with
         | context [String.length (trim_start ?x)] => pose proof (trim_start_le _ x (le_n _))
         end; cbn [String.length] in *; lia. }
  destruct Hs as [Hs|Hs].
  - split; [done|]. rewrite Hs in Ht. rewrite <-Ht at 2. by rewrite str_rev_involutive.
  - exfalso. apply (f_equal String.length) in Ht. rewrite length_str_rev in Ht. lia.
Qed.

(** Prefixing a trimmed, non-empty text with ASCII text that does not start
    with whitespace keeps it trimmed. *)
Lemma trim_prefixed a p c text :
  is_ascii a = true → is_ascii c = true → is_ascii_ws_byte (byte_of a) = false →
  str_is_empty text = false → trim text = text →
  trim ((String a p +:+ String c EmptyString) +:+ text) =
  (String a p +:+ String c EmptyString) +:+ text.
Proof.
  intros Ha Hc Haw Hne [_ Ht]%trim_fixed_inv.
  unfold trim, trim_end.
  assert (Hstart : trim_start ((String a p +:+ String c EmptyString) +:+ text) =
                   (String a p +:+ String c EmptyString) +:+ text).
  { rewrite str_app_assoc. set (r := String c EmptyString +:+ text).
    change (String a p +:+ r) with (String a (p +:+ r)). cbn [trim_start].
    rewrite Haw. unfold is_ascii in Ha. boolify.
    destruct (p +:+ r) as [|b [|d q]]; [done|..].
    - by assert (ws2 (byte_of a) (byte_of b) = false) as -> by (unfold ws2; lia).
    - assert (ws2 (byte_of a) (byte_of b) = false) as -> by (unfold ws2; lia).
      by assert (ws3 (byte_of a) (byte_of b) (byte_of d) = false) as -> by (unfold ws3; lia). }
  rewrite Hstart, (str_rev_app _ text), (str_rev_app (String a p)).
  change (String.rev (String c EmptyString) +:+ String.rev (String a p))
    with (String c (String.rev (String a p))).
  rewrite trim_start_rev_app; [|by rewrite str_rev_empty|done|done].
  change (String c (String.rev (String a p)))
    with (String.rev (String c EmptyString) +:+ String.rev (String a p)).
  by rewrite <-str_rev_app, <-str_rev_app, str_rev_involutive.
Qed.

Lemma contains_char_app c a b :
  contains_char c (a +:+ b) = contains_char c a || contains_char c b.
Proof.
  induction a as [|x a IH]; [done|].
  change (String x a +:+ b) with (String x (a +:+ b)).
  unfold contains_char in *. simpl. destruct (ascii_eqb x c); [done|].
  destruct (split_once c (a +:+ b)) as [[]|], (split_once c a) as [[]|]; done.
Qed.

(** ** Visible text *)

Definition is_graphic (c : ascii) : bool := in_range 33 126 (byte_of c).

Lemma str_all_app p a b : str_all p (a +:+ b) = str_all p a && str_all p b.
Proof.
  induction a as [|c a IH]; [done|]. change (String c a +:+ b) with (String c (a +:+ b)).
  simpl. by rewrite IH, andb_assoc.
Qed.

Lemma str_all_impl (p q : ascii → bool) s :
  (∀ c, p c = true → q c = true) → str_all p s = true → str_all q s = true.
Proof. intros H. induction s; simpl; [done|]. intros. boolify. rewrite H by done. auto. Qed.

Lemma str_snoc s : s ≠ EmptyString → ∃ q b, s = q +:+ String b EmptyString.
Proof.
  induction s as [|c s IH]; [done|]. intros _. destruct s as [|d s].
  - by exists EmptyString, c.
  - destruct IH as (q & b & Hq); [done|]. exists (String c q), b. by rewrite Hq.
Qed.

Lemma trim_start_graphic a r : is_graphic a = true → trim_start (String a r) = String a r.
Proof.
  unfold is_graphic, in_range. intros. boolify. cbn [trim_start].
  assert (is_ascii_ws_byte (byte_of a) = false) as -> by (unfold is_ascii_ws_byte, in_range; lia).
  destruct r as [|b [|c r]]; [done|..].
  - by assert (ws2 (byte_of a) (byte_of b) = false) as -> by (unfold ws2; lia).
  - assert (ws2 (byte_of a) (byte_of b) = false) as -> by (unfold ws2; lia).
    by assert (ws3 (byte_of a) (byte_of b) (byte_of c) = false) as -> by (unfold ws3; lia).
Qed.

Lemma trim_start_rev_graphic a r :
  is_graphic a = true → trim_start_rev (String a r) = String a r.
Proof.
  unfold is_graphic, in_range. intros. boolify. rewrite trim_start_rev_cons.
  assert (is_ascii_ws_byte (byte_of a) = false) as -> by (unfold is_ascii_ws_byte, in_range; lia).
  destruct r as [|b [|c r]]; [done|..].
  - by assert (ws2 (byte_of b) (byte_of a) = false) as -> by (unfold ws2; lia).
  - assert (ws2 (byte_of b) (byte_of a) = false) as -> by (unfold ws2; lia).
    by assert (ws3 (byte_of c) (byte_of b) (byte_of a) = false) as -> by (unfold ws3, in_range; lia).
Qed.

(** Text between two visible characters is its own trim. *)
Lemma trim_between a r q b s :
  s = String a r → s = q +:+ String b EmptyString →
  is_graphic a = true → is_graphic b = true → trim s = s.
Proof.
  intros Ha Hb Hga Hgb. unfold trim, trim_end. rewrite Ha at 1.
  rewrite trim_start_graphic, <-Ha by done.
  assert (Hr : String.rev s = String b (String.rev q)).
  { rewrite Hb, str_rev_app. done. }
  rewrite Hr, trim_start_rev_graphic, <-Hr by done. apply str_rev_involutive.
Qed.

Lemma trim_graphic s : str_all is_graphic s = true → trim s = s.
Proof.
  intros Hs. destruct s as [|a r]; [done|].
  destruct (str_snoc (String a r)) as (q & b & Hq); [done|].
  eapply (trim_between a r q b); [done|done| |].
  - simpl in Hs. by boolify.
  - rewrite Hq, str_all_app in Hs. boolify. simpl in *. by boolify.
Qed.

(** ** Decimal text *)

Lemma digit_char x :
  (x < 10)%N →
  is_ascii_digit (pretty_N_char x) = true ∧ byte_of (pretty_N_char x) - 48 = Z.of_N x.
Proof.
  intros. assert (x = 0 ∨ x = 1 ∨ x = 2 ∨ x = 3 ∨ x = 4 ∨ x = 5 ∨ x = 6 ∨ x = 7 ∨ x = 8 ∨ x = 9)%N
    as Hx by lia. naive_solver.
Qed.

Lemma parse_digits_go max x s :
  Z.of_N x ≤ max → (0 < x)%N →
  parse_digits max 0 (pretty_N_go x s) = parse_digits max (Z.of_N x) s.
Proof.
  revert s. induction (N.lt_wf_0 x) as [x _ IH]; intros s Hmax Hx.
  rewrite pretty_N_go_step by done.
  assert (Hd : Z.of_N x = Z.of_N (x `div` 10) * 10 + Z.of_N (x `mod` 10)).
  { pose proof (N.div_mod x 10 ltac:(lia)). lia. }
  destruct (digit_char (x `mod` 10)%N) as [Hdig Hval]; [by apply N.mod_lt|].
  destruct (decide (x `div` 10 = 0)%N) as [Hz|Hz].
  - rewrite Hz in Hd |- *. rewrite pretty_N_go_0. cbn [parse_digits]. rewrite Hdig, Hval.
    replace (0 * 10 + Z.of_N (x `mod` 10)) with (Z.of_N x) by lia.
    by rewrite (proj2 (Z.leb_le _ _)) by lia.
  - pose proof (N.div_lt x 10 ltac:(lia) ltac:(lia)).
    rewrite IH; [|done|clear -Hmax H; lia|clear -Hz; apply N.neq_0_lt_0; done].
    cbn [parse_digits]. rewrite Hdig, Hval, <-Hd.
    by rewrite (proj2 (Z.leb_le _ _)) by lia.
Qed.

Lemma pretty_go_digits x s :
  str_all is_ascii_digit s = true → str_all is_ascii_digit (pretty_N_go x s) = true.
Proof.
  revert s. induction (N.lt_wf_0 x) as [x _ IH]; intros s Hs.
  destruct (decide (x = 0)%N) as [->|Hx]; [done|].
  rewrite pretty_N_go_step by lia. apply IH; [apply N.div_lt; lia|].
  simpl. rewrite Hs. destruct (digit_char (x `mod` 10)%N) as [-> _]; [by apply N.mod_lt|done].
Qed.

Lemma dec_digits n : str_all is_ascii_digit (dec n) = true.
Proof.
  unfold dec, pretty, pretty_N. case_decide; [done|]. by apply pretty_go_digits.
Qed.

Lemma pretty_go_nonempty x s : s ≠ EmptyString → pretty_N_go x s ≠ EmptyString.
Proof.
  revert s. induction (N.lt_wf_0 x) as [x _ IH]; intros s Hs.
  destruct (decide (x = 0)%N) as [->|Hx]; [done|].
  rewrite pretty_N_go_step by lia. apply IH; [apply N.div_lt; lia|done].
Qed.

Lemma dec_nonempty n : dec n ≠ EmptyString.
Proof.
  unfold dec, pretty, pretty_N. case_decide as Hz; [done|].
  rewrite pretty_N_go_step by lia. by apply pretty_go_nonempty.
Qed.

Lemma parse_uint_dec max n : 0 ≤ n ≤ max → parse_uint max (dec n) = Some n.
Proof.
  intros Hn. pose proof (dec_digits n) as Hd.
  assert (Hp : parse_digits max 0 (dec n) = Some n).
  { unfold dec, pretty, pretty_N. case_decide as Hz.
    - replace n with 0 by lia. 
      change (parse_digits max 0 "0") with (if 0 <=? max then Some 0 else None).
      by replace (0 <=? max) with true by lia.
    - rewrite parse_digits_go by lia. cbn. f_equal. lia. }
  unfold parse_uint. destruct (dec n) as [|c r] eqn:He; [by apply dec_nonempty in He|].
  destruct (ascii_eqb c "+"%char) eqn:Hc; [|done].
  apply ascii_eqb_true in Hc as ->. simpl in Hd. done.
Qed.

Lemma parse_u64_dec n : is_u64 n → parse_u64 (dec n) = Some n.
Proof. unfold is_u64. intros. apply parse_uint_dec. unfold u64_max. lia. Qed.

Lemma digits_graphic s : str_all is_ascii_digit s = true → str_all is_graphic s = true.
Proof.
  apply str_all_impl. unfold is_ascii_digit, is_graphic, in_range. intros. boolify. lia.
Qed.

(** What holds of every character is kept by trimming. *)
Lemma trim_start_all p n s :
  (String.length s ≤ n)%nat → str_all p s = true → str_all p (trim_start s) = true.
Proof.
  revert s. induction n as [|n IH]; intros s Hn Hp; [destruct s; [done|simpl in Hn; lia]|].
  destruct s as [|a r1]; [done|]. pose proof Hp as Hall. simpl in Hn, Hp. apply andb_true_iff in Hp as [_ H1]. cbn [trim_start].
  destruct (is_ascii_ws_byte _); [apply IH; [lia|done]|]. destruct r1 as [|b r2]; [done|].
  simpl in Hn, H1. apply andb_true_iff in H1 as [_ H2]. destruct (ws2 _ _); [apply IH; [lia|done]|].
  destruct r2 as [|c r3]; [done|]. simpl in Hn, H2. apply andb_true_iff in H2 as [_ H3].
  destruct (ws3 _ _ _); [apply IH; [lia|done]|done].
Qed.
Lemma trim_start_rev_all p n s :
  (String.length s ≤ n)%nat → str_all p s = true → str_all p (trim_start_rev s) = true.
Proof.
  revert s. induction n as [|n IH]; intros s Hn Hp; [destruct s; [done|simpl in Hn; lia]|].
  destruct s as [|a r1]; [done|]. pose proof Hp as Hall. simpl in Hn, Hp. apply andb_true_iff in Hp as [_ H1]. cbn [trim_start_rev].
  destruct (is_ascii_ws_byte _); [apply IH; [lia|done]|]. destruct r1 as [|b r2]; [done|].
  simpl in Hn, H1. apply andb_true_iff in H1 as [_ H2]. destruct (ws2 _ _); [apply IH; [lia|done]|].
  destruct r2 as [|c r3]; [done|]. simpl in Hn, H2. apply andb_true_iff in H2 as [_ H3].
  destruct (ws3 _ _ _); [apply IH; [lia|done]|done].
Qed.
Lemma str_all_rev p s : str_all p (String.rev s) = str_all p s.
Proof.
  induction s as [|c s IH]; [done|]. change (String c s) with (String c EmptyString +:+ s) at 1.
  rewrite str_rev_app, str_all_app, IH. simpl. by rewrite andb_true_r, andb_comm.
Qed.
Lemma trim_all p s : str_all p s = true → str_all p (trim s) = true.
Proof.
  intros Hp. unfold trim, trim_end. rewrite str_all_rev. apply (trim_start_rev_all p _ _ (le_n _)).
  rewrite str_all_rev. by apply (trim_start_all p _ _ (le_n _)).
Qed.

Lemma trim_dec n : trim (dec n) = dec n.
Proof. apply trim_graphic, digits_graphic, dec_digits. Qed.

Lemma digits_no_char c s :
  is_ascii_digit c = false → str_all is_ascii_digit s = true → contains_char c s = false.
Proof.
  intros Hc. unfold contains_char. induction s as [|a s IH]; simpl; [done|]. intros. boolify.
  destruct (ascii_eqb a c) eqn:Ha; [apply ascii_eqb_true in Ha; congruence|].
  specialize (IH ltac:(done)). by destruct (split_once c s) as [[]|].
Qed.

Lemma split_once_app c x y :
  contains_char c x = false → split_once c (x +:+ String c y) = Some (x, y).
Proof.
  induction x as [|a x IH].
  - intros _. change (EmptyString +:+ String c y) with (String c y). simpl.
    by rewrite ascii_eqb_refl.
  - change (String a x +:+ String c y) with (String a (x +:+ String c y)).
    unfold contains_char. simpl. destruct (ascii_eqb a c); [done|]. intros H.
    rewrite IH; [done|]. unfold contains_char. by destruct (split_once c x) as [[]|].
Qed.

(** ** Appending in a loop *)

Definition str_concat (l : list string) : string := foldr (λ w r, w +:+ r) EmptyString l.

Lemma foldl_append {A} (f : A → string) l acc :
  foldl (λ s x, s +:+ f x) acc l = acc +:+ str_concat (map f l).
Proof.
  revert acc. induction l as [|x l IH]; intros acc; simpl; [by rewrite str_app_nil_r|].
  by rewrite IH, str_app_assoc.
Qed.

Lemma str_app_inj_l a b c : a +:+ b = a +:+ c → b = c.
Proof. induction a as [|x a IH]; [done|]. intros [= H]. by apply IH. Qed.

(** Two texts cut at the first occurrence of a separator neither holds. *)
Lemma cut_inj c a b x y :
  contains_char c a = false → contains_char c b = false →
  a +:+ String c x = b +:+ String c y → a = b ∧ x = y.
Proof.
  intros Ha Hb He. apply (f_equal (split_once c)) in He.
  rewrite !split_once_app in He by done. by injection He as -> ->.
Qed.
