(* ===== verification/MachineFloat.v ===== *)
(** * Floating point

    [f32] and [f64] as the Standard Library's executable IEEE 754 arithmetic:
    every operation rounds to the nearest representable number.  [str::parse]
    reads a decimal and rounds it once. *)

From Stdlib Require Import Floats.SpecFloat.
From S2P Require Import Prelude RustStr.

Record FloatFormat : Type := mkFormat { ff_prec : Z; ff_emax : Z }.
Definition f32 : FloatFormat := mkFormat 24 128.
Definition f64 : FloatFormat := mkFormat 53 1024.

Section Format.
Context (F : FloatFormat).
Notation prec := (ff_prec F).
Notation emax := (ff_emax F).

(** [z as fN]. *)
Definition float_of_Z (z : Z) : spec_float := binary_normalize prec emax z 0 false.
Definition float_add (a b : spec_float) : spec_float := SFadd prec emax a b.
Definition float_sub (a b : spec_float) : spec_float := SFsub prec emax a b.
Definition float_mul (a b : spec_float) : spec_float := SFmul prec emax a b.
Definition float_div (a b : spec_float) : spec_float := SFdiv prec emax a b.

Definition float_lt (a b : spec_float) : bool := match SFcompare a b with Some Lt => true | _ => false end.
Definition float_le (a b : spec_float) : bool := match SFcompare a b with Some (Lt | Eq) => true | _ => false end.
Definition float_ge (a b : spec_float) : bool := float_le b a.

(** [fN::min] and [fN::max]: the other number if one is not a number. *)
Definition float_min (a b : spec_float) : spec_float :=
  match a, b with
  | S754_nan, _ => b
  | _, S754_nan => a
  | _, _ => if float_lt b a then b else a
  end.
Definition float_max (a b : spec_float) : spec_float :=
  match a, b with
  | S754_nan, _ => b
  | _, S754_nan => a
  | _, _ => if float_lt a b then b else a
  end.

(** The float nearest to [mantissa * 10 ^ exponent]. *)
Definition float_of_decimal (negative : bool) (mantissa exponent : Z) : spec_float :=
  match mantissa with
  | Zpos _ =>
      if 0 <=? exponent then
        binary_normalize prec emax (let m := mantissa * 10 ^ exponent in if negative then - m else m) 0 negative
      else
        let '(quotient, e, loc) := SFdiv_core_binary prec emax mantissa 0 (10 ^ (- exponent)) 0 in
        binary_round_aux prec emax negative quotient e loc
  | _ => S754_zero negative
  end.

(** The leading digits, as digits and their number, and what follows. *)
Fixpoint leading_digits (s : string) (value : Z) (count : Z) : Z * Z * string :=
  match s with
  | String c rest =>
      if is_ascii_digit c then leading_digits rest (value * 10 + (byte_of c - 48)) (count + 1) else (value, count, s)
  | EmptyString => (value, count, s)
  end.

Definition signed (s : string) : bool * string :=
  match s with
  | String c rest =>
      if ascii_eqb c "-"%char then (true, rest) else if ascii_eqb c "+"%char then (false, rest) else (false, s)
  | EmptyString => (false, s)
  end.

(** [e] or [E], a sign, and digits up to the end. *)
Definition parse_exponent (s : string) : option Z :=
  match s with
  | EmptyString => Some 0
  | String c rest =>
      if ascii_eqb c "e"%char || ascii_eqb c "E"%char then
        let '(negative, rest) := signed rest in
        let '(value, count, rest) := leading_digits rest 0 0 in
        if (0 <? count) && str_is_empty rest then Some (if negative then - value else value) else None
      else None
  end.

(** [s.parse::<fN>()]. *)
Definition parse_float (s : string) : option spec_float :=
  let '(negative, rest) := signed s in
  let lower := to_ascii_lowercase rest in
  if str_eqb lower "inf" || str_eqb lower "infinity" then Some (S754_infinity negative)
  else if str_eqb lower "nan" then Some S754_nan
  else
    let '(integer, integer_count, rest) := leading_digits rest 0 0 in
    let '(value, fraction_count, rest) :=
      match strip_prefix "." rest with
      | Some rest =>
          let '(value, count, rest) := leading_digits rest integer 0 in (value, count, rest)
      | None => (integer, 0, rest)
      end in
    if integer_count + fraction_count =? 0 then None
    else
      exponent ← parse_exponent rest;
      Some (float_of_decimal negative value (exponent - fraction_count)).
End Format.

Example tenth : parse_float f64 "0.1" = Some (S754_finite false 7205759403792794 (-56)).
Proof. reflexivity. Qed.
Example half : parse_float f32 "5e-1" = Some (S754_finite false 8388608 (-24)).
Proof. reflexivity. Qed.
Example third_of_a_million : float_div f64 (float_of_Z f64 1000000) (float_of_Z f64 3) = S754_finite false 5726623061333333 (-34).
Proof. reflexivity. Qed.

(** ** Integers are exact *)

Lemma digits_log n : Zpos (digits2_pos n) = Z.log2 (Zpos n) + 1.
Proof.
  induction n as [n IH|n IH|]; [| |done]; cbn [digits2_pos]; rewrite Pos2Z.inj_succ, IH.
  - change (Zpos n~1) with (2 * Zpos n + 1). rewrite Z.log2_succ_double by lia. lia.
  - change (Zpos n~0) with (2 * Zpos n). rewrite Z.log2_double by lia. lia.
Qed.

Lemma iter_double m d : Zpos (Pos.iter xO m d) = Zpos m * 2 ^ Zpos d.
Proof.
  induction d as [|d IH] using Pos.peano_ind; [cbn; lia|]. rewrite Pos.iter_succ, Pos2Z.inj_succ, Z.pow_succ_r by lia.
  change (Zpos (Pos.iter xO m d)~0) with (2 * Zpos (Pos.iter xO m d)). rewrite IH. lia.
Qed.

Lemma iter_pos_nat {A} (f : A → A) n x : SpecFloat.iter_pos f n x = Nat.iter (Pos.to_nat n) f x.
Proof.
  revert x. induction n as [n IH|n IH|]; intros x; [| |done]; cbn [SpecFloat.iter_pos]; rewrite !IH, <-Nat.iter_add.
  - replace (Pos.to_nat n~1) with (S (Pos.to_nat n + Pos.to_nat n)) by lia. by rewrite Nat.iter_succ_r.
  - by replace (Pos.to_nat n~0) with (Pos.to_nat n + Pos.to_nat n)%nat by lia.
Qed.

Lemma shr_exact s m : 0 < m → Nat.iter s shr_1 (Build_shr_record (m * 2 ^ Z.of_nat s) false false) = Build_shr_record m false false.
Proof.
  intros Hm. induction s as [|s IH]; [cbn; f_equal; lia|]. rewrite Nat.iter_succ_r.
  assert (shr_1 (Build_shr_record (m * 2 ^ Z.of_nat (S s)) false false) = Build_shr_record (m * 2 ^ Z.of_nat s) false false) as ->;
    [|done].
  rewrite Nat2Z.inj_succ, Z.pow_succ_r by lia. replace (m * (2 * 2 ^ Z.of_nat s)) with (2 * (m * 2 ^ Z.of_nat s)) by lia.
  assert (0 < m * 2 ^ Z.of_nat s) as Hp by lia. destruct (m * 2 ^ Z.of_nat s) as [|p|p]; [lia|done|lia].
Qed.

(** The float that an integer of at most 53 bits is. *)
Definition exact_float (z : Z) : spec_float :=
  match z with
  | Zpos p =>
      let d := Zpos (digits2_pos p) in S754_finite false (Z.to_pos (Zpos p * 2 ^ (53 - d))) (d - 53)
  | _ => S754_zero false
  end.

Lemma pow_digits p n : 0 ≤ n → Zpos (digits2_pos (Z.to_pos (Zpos p * 2 ^ n))) = Zpos (digits2_pos p) + n.
Proof.
  intros Hn. rewrite !digits_log, Z2Pos.id by (pose proof (Z.pow_pos_nonneg 2 n); nia).
  rewrite Z.log2_mul_pow2 by lia. lia.
Qed.

(** A mantissa of exactly 53 bits is not rounded. *)
Lemma fexp_normal p e :
  Zpos (digits2_pos p) = 53 → -1074 ≤ e →
  shr_fexp 53 1024 (Zpos p) e loc_Exact = (Build_shr_record (Zpos p) false false, e).
Proof.
  intros Hd He. unfold shr_fexp, fexp, emin. cbn [Zdigits2]. rewrite Hd.
  by replace (Z.max (53 + e - 53) (3 - 1024 - 53) - e) with 0 by lia.
Qed.

Lemma round_normal p e :
  Zpos (digits2_pos p) = 53 → -1074 ≤ e ≤ 971 → binary_round_aux 53 1024 false (Zpos p) e loc_Exact = S754_finite false p e.
Proof.
  intros Hd He. unfold binary_round_aux. rewrite fexp_normal by lia. cbn [shr_m loc_of_shr_record round_nearest_even].
  rewrite fexp_normal by lia. cbn [shr_m]. by rewrite (proj2 (Z.leb_le e (1024 - 53))) by lia.
Qed.

Lemma normalize_exact p j :
  Zpos (digits2_pos p) ≤ 53 → 0 ≤ j ≤ 900 →
  binary_normalize 53 1024 (Zpos p * 2 ^ j) (- j) false = exact_float (Zpos p).
Proof.
  intros Hd Hj. pose proof (Z.pow_pos_nonneg 2 j ltac:(lia) ltac:(lia)) as Hpow.
  assert (Zpos p * 2 ^ j = Zpos (Z.to_pos (Zpos p * 2 ^ j))) as -> by (rewrite Z2Pos.id; nia).
  cbn [binary_normalize]. unfold binary_round. rewrite (pow_digits p j) by lia.
  pose proof (pow_digits p (53 - Zpos (digits2_pos p)) ltac:(lia)) as Hfull.
  set (d := Zpos (digits2_pos p)) in *. assert (1 ≤ d) as Hd1 by (unfold d; lia).
  pose proof (Z.pow_pos_nonneg 2 (53 - d) ltac:(lia) ltac:(lia)) as Hpd.
  unfold fexp, emin. replace (Z.max (d + j + - j - 53) (3 - 1024 - 53)) with (d - 53) by lia.
  unfold shl_align. cbn [exact_float]. fold d.
  destruct (d - 53 - - j) as [|s|s] eqn:Hs.
  - replace (53 - d) with j by lia. rewrite round_normal; [f_equal; lia| |lia]. rewrite (pow_digits p j) by lia. fold d. lia.
  - unfold binary_round_aux, shr_fexp at 1, fexp at 1, emin at 1. cbn [Zdigits2]. rewrite (pow_digits p j) by lia. fold d.
    replace (Z.max (d + j + - j - 53) (3 - 1024 - 53) - - j) with (Zpos s) by lia.
    cbn [shr shr_record_of_loc]. rewrite iter_pos_nat, Z2Pos.id by nia.
    assert (Zpos p * 2 ^ j = (Zpos p * 2 ^ (53 - d)) * 2 ^ Z.of_nat (Pos.to_nat s)) as ->.
    { rewrite positive_nat_Z, <-Z.mul_assoc, <-Z.pow_add_r by lia. do 2 f_equal. lia. }
    rewrite shr_exact by nia. cbn [shr_m loc_of_shr_record round_nearest_even].
    assert (Zpos p * 2 ^ (53 - d) = Zpos (Z.to_pos (Zpos p * 2 ^ (53 - d)))) as Hp by (rewrite Z2Pos.id; nia).
    rewrite Hp, fexp_normal by lia. cbn [shr_m]. rewrite (proj2 (Z.leb_le _ (1024 - 53))) by lia.
    rewrite <-Hp. f_equal. lia.
  - assert (Pos.iter xO (Z.to_pos (Zpos p * 2 ^ j)) s = Z.to_pos (Zpos p * 2 ^ (53 - d))) as ->.
    { rewrite <-Pos2Z.inj_iff, iter_double, !Z2Pos.id by nia. rewrite <-Z.mul_assoc, <-Z.pow_add_r by lia. do 2 f_equal. lia. }
    apply round_normal; lia.
Qed.

Lemma digits_le z n : 0 < z < 2 ^ n → 0 ≤ n → Zpos (digits2_pos (Z.to_pos z)) ≤ n.
Proof. intros Hz Hn. rewrite digits_log, Z2Pos.id by lia. pose proof (proj1 (Z.log2_lt_pow2 z n ltac:(lia)) ltac:(lia)). lia. Qed.

(** An integer below 2^53 is a float, ... *)
Lemma float_of_Z_exact z : 0 ≤ z < 2 ^ 53 → float_of_Z f64 z = exact_float z.
Proof.
  intros Hz. destruct z as [|p|p]; [done| |lia]. unfold float_of_Z. cbn [ff_prec ff_emax f64].
  rewrite <-(normalize_exact p 0) by (try apply (digits_le (Zpos p)); lia). f_equal; lia.
Qed.

Lemma exact_float_pos z : 0 < z → exact_float z = S754_finite false (Z.to_pos (z * 2 ^ (52 - Z.log2 z))) (Z.log2 z - 52).
Proof.
  intros Hz. destruct z as [|p|p]; [lia| |lia]. cbn [exact_float]. rewrite digits_log. repeat (f_equal; try lia).
Qed.

(** ... one less than it is one less than it as a float, ... *)
Lemma float_sub_one z : 1 ≤ z < 2 ^ 53 → float_sub f64 (float_of_Z f64 z) (float_of_Z f64 1) = float_of_Z f64 (z - 1).
Proof.
  intros Hz. rewrite !float_of_Z_exact by lia. unfold float_sub. cbn [ff_prec ff_emax f64]. rewrite (exact_float_pos z) by lia.
  pose proof (Z.log2_nonneg z). assert (Z.log2 z < 53) by (apply Z.log2_lt_pow2; lia).
  assert (0 < z * 2 ^ (52 - Z.log2 z)) by (pose proof (Z.pow_pos_nonneg 2 (52 - Z.log2 z)); nia).
  unfold SFsub. change (exact_float 1) with (S754_finite false 4503599627370496 (-52)). cbn [cond_Zopp].
  replace (Z.min (Z.log2 z - 52) (-52)) with (-52) by lia.
  assert (Zpos (shl_align (Z.to_pos (z * 2 ^ (52 - Z.log2 z))) (Z.log2 z - 52) (-52)).1 = z * 2 ^ 52) as ->.
  { unfold shl_align. destruct (-52 - (Z.log2 z - 52)) as [|s|s] eqn:Hs; cbn [fst]; [| lia |].
    - rewrite Z2Pos.id by lia. do 2 f_equal. lia.
    - rewrite iter_double, Z2Pos.id by lia. rewrite <-Z.mul_assoc, <-Z.pow_add_r by lia. do 2 f_equal. lia. }
  change (Zpos (shl_align 4503599627370496 (-52) (-52)).1) with (1 * 2 ^ 52). rewrite <-Z.mul_sub_distr_r.
  destruct (z - 1) as [|p|p] eqn:Hp; [done| |lia].
  apply (normalize_exact p 52); [apply (digits_le (Zpos p))|]; lia.
Qed.

(** ... and integers compare as floats as they do. *)
Lemma float_compare_exact a b :
  0 ≤ a < 2 ^ 53 → 0 ≤ b < 2 ^ 53 → SFcompare (float_of_Z f64 a) (float_of_Z f64 b) = Some (a ?= b).
Proof.
  intros Ha Hb. rewrite !float_of_Z_exact by done.
  destruct (decide (a = 0)) as [->|Ha0].
  { destruct (decide (b = 0)) as [->|]; [done|]. rewrite (exact_float_pos b) by lia. cbn. by destruct b; try lia. }
  destruct (decide (b = 0)) as [->|Hb0].
  { rewrite (exact_float_pos a) by lia. cbn. by destruct a; try lia. }
  rewrite (exact_float_pos a), (exact_float_pos b) by lia. cbn [SFcompare]. f_equal.
  assert (∀ z, 0 < z → z < 2 ^ 53 → 0 ≤ Z.log2 z < 53) as Hlog.
  { intros z Hz Hlt. split; [apply Z.log2_nonneg|apply Z.log2_lt_pow2; lia]. }
  pose proof (Hlog a ltac:(lia) ltac:(lia)). pose proof (Hlog b ltac:(lia) ltac:(lia)).
  pose proof (Z.log2_spec a ltac:(lia)) as Hsa. pose proof (Z.log2_spec b ltac:(lia)) as Hsb.
  destruct (Z.compare_spec (Z.log2 a - 52) (Z.log2 b - 52)) as [He|He|He].
  - change (PosDef.Pos.compare_cont Eq) with Pos.compare. assert (Z.log2 a = Z.log2 b) as Hab by lia. rewrite Hab in *.
    pose proof (Z.pow_pos_nonneg 2 (52 - Z.log2 b) ltac:(lia) ltac:(lia)).
    rewrite Pos2Z.inj_compare, !Z2Pos.id by nia. rewrite (Z.mul_comm a), (Z.mul_comm b). symmetry. by apply Zmult_compare_compat_l, Z.lt_gt.
  - symmetry. apply Z.compare_lt_iff. pose proof (Z.pow_le_mono_r 2 (Z.succ (Z.log2 a)) (Z.log2 b)). lia.
  - symmetry. apply Z.compare_gt_iff. pose proof (Z.pow_le_mono_r 2 (Z.succ (Z.log2 b)) (Z.log2 a)). lia.
Qed.

Lemma float_lt_exact a b : 0 ≤ a < 2 ^ 53 → 0 ≤ b < 2 ^ 53 → float_lt (float_of_Z f64 a) (float_of_Z f64 b) = (a <? b).
Proof. intros Ha Hb. unfold float_lt. by rewrite float_compare_exact. Qed.

Lemma float_le_exact a b : 0 ≤ a < 2 ^ 53 → 0 ≤ b < 2 ^ 53 → float_le (float_of_Z f64 a) (float_of_Z f64 b) = (a <=? b).
Proof. intros Ha Hb. unfold float_le. rewrite float_compare_exact by done. unfold Z.leb. by destruct (a ?= b). Qed.

Lemma float_min_exact a b :
  0 ≤ a < 2 ^ 53 → 0 ≤ b < 2 ^ 53 → float_min (float_of_Z f64 a) (float_of_Z f64 b) = float_of_Z f64 (Z.min a b).
Proof.
  intros Ha Hb. pose proof (float_lt_exact b a Hb Ha) as Hlt. rewrite !float_of_Z_exact in * by lia.
  unfold float_min. rewrite Hlt. destruct (Z.ltb_spec b a);
    [rewrite Z.min_r by lia|rewrite Z.min_l by lia]; destruct a, b; try done; lia.
Qed.
