(* ===== verification/External.v ===== *)
(** * Interfaces of the crates the source calls

    The code relies on [regex], [ipnet], [http] and [base64]; none of them is
    in the repository.  Each is a class of operations, used as a parameter by
    the components, with a class of laws that states its documented behaviour
    and a small reference instance that shows the laws can hold. *)

From S2P Require Import Prelude RustStr.

(** ** Addresses ([std::net]) *)

(** The octets of an address, most significant first. *)
Inductive IpAddr : Type :=
| V4 (octets : list Z)
| V6 (octets : list Z).

#[export] Instance IpAddr_eq_dec : EqDecision IpAddr.
Proof. solve_decision. Defined.

Definition ip_octets (a : IpAddr) : list Z :=
  match a with V4 o | V6 o => o end.

Definition ip_wf (a : IpAddr) : Prop :=
  Forall is_u8 (ip_octets a) ∧
  length (ip_octets a) = match a with V4 _ => 4%nat | V6 _ => 16%nat end.

(** A socket address: an address and a port. *)
Record SocketAddr : Type := mkSocketAddr { sock_ip : IpAddr; sock_port : Z }.

(** [Display] of the address types. *)

Definition hex_digit (z : Z) : ascii :=
  ascii_of_N (Z.to_N (if z <? 10 then 48 + z else 87 + z)).

Definition hex16 (z : Z) : string :=
  let h k := hex_digit (Z.land (Z.shiftr z (4 * k)) 15) in
  if 4096 <=? z then String (h 3) (String (h 2) (String (h 1) (String (h 0) EmptyString)))
  else if 256 <=? z then String (h 2) (String (h 1) (String (h 0) EmptyString))
  else if 16 <=? z then String (h 1) (String (h 0) EmptyString)
  else String (h 0) EmptyString.

Fixpoint segments (octets : list Z) : list Z :=
  match octets with
  | a :: b :: octets => (a * 256 + b) :: segments octets
  | _ => []
  end.

(** The first longest run of zero segments: (start, length). *)
Fixpoint longest_zeroes (i : nat) (current longest : nat * nat) (segs : list Z) : nat * nat :=
  match segs with
  | [] => longest
  | s :: segs =>
      if s =? 0 then
        let start := if (current.2 =? 0)%nat then i else current.1 in
        let current := (start, S current.2) in
        longest_zeroes (S i) current
          (if (longest.2 <? current.2)%nat then current else longest) segs
      else longest_zeroes (S i) (0%nat, 0%nat) longest segs
  end.

Definition join_segments (segs : list Z) : string := str_join ":" (map hex16 segs).

Definition ipv4_to_string (octets : list Z) : string := str_join "." (map dec octets).

Definition ipv6_to_string (octets : list Z) : string :=
  if bool_decide (take 12 octets = [0; 0; 0; 0; 0; 0; 0; 0; 0; 0; 255; 255])
  then "::ffff:" +:+ ipv4_to_string (drop 12 octets)
  else
    let segs := segments octets in
    let zeroes := longest_zeroes 0 (0%nat, 0%nat) (0%nat, 0%nat) segs in
    if (1 <? zeroes.2)%nat
    then join_segments (take zeroes.1 segs) +:+ "::" +:+
         join_segments (drop (zeroes.1 + zeroes.2) segs)
    else join_segments segs.

Definition ip_to_string (ip : IpAddr) : string :=
  match ip with V4 o => ipv4_to_string o | V6 o => ipv6_to_string o end.

Definition socket_to_string (a : SocketAddr) : string :=
  match sock_ip a with
  | V4 o => ipv4_to_string o +:+ ":" +:+ dec (sock_port a)
  | V6 o => "[" +:+ ipv6_to_string o +:+ "]:" +:+ dec (sock_port a)
  end.

Example ipv6_display :
  ip_to_string (V6 [32; 1; 13; 184; 0; 0; 0; 0; 0; 0; 0; 0; 0; 0; 0; 1]) = "2001:db8::1".
Proof. by vm_compute. Qed.

(** [Ord] of the address types: IPv4 before IPv6, then by octets. *)
Fixpoint octets_cmp (a b : list Z) : comparison :=
  match a, b with
  | [], [] => Eq
  | [], _ => Lt
  | _, [] => Gt
  | x :: a, y :: b => then_cmp (x ?= y) (octets_cmp a b)
  end.

Definition ip_cmp (a b : IpAddr) : comparison :=
  match a, b with
  | V4 x, V4 y => octets_cmp x y
  | V4 _, V6 _ => Lt
  | V6 _, V4 _ => Gt
  | V6 x, V6 y => octets_cmp x y
  end.

Definition is_ipv4 (a : IpAddr) : bool := match a with V4 _ => true | V6 _ => false end.
Definition is_ipv6 (a : IpAddr) : bool := negb (is_ipv4 a).

(** [FromStr] of the address types: the standard library's parser, which reads
    a prefix and gives it back with the rest. *)

Definition digit_value (radix : Z) (c : ascii) : option Z :=
  let z := byte_of c in
  let v := if in_range 48 57 z then z - 48
           else if in_range 97 102 z then z - 87
           else if in_range 65 70 z then z - 55 else radix in
  if v <? radix then Some v else None.

Fixpoint read_digits (radix acc : Z) (count : nat) (s : string) : Z * nat * string :=
  match s with
  | String c r =>
      match digit_value radix c with
      | Some v => read_digits radix (acc * radix + v) (S count) r
      | None => (acc, count, s)
      end
  | EmptyString => (acc, count, s)
  end.

(** At most [max_digits] digits and at most [max]; a leading zero only when
    [zero_prefix]. *)
Definition read_number (radix max : Z) (max_digits : nat) (zero_prefix : bool) (s : string)
    : option (Z * string) :=
  let '(n, count, rest) := read_digits radix 0 0 s in
  if (count =? 0)%nat || (max_digits <? count)%nat || (max <? n) then None
  else if negb zero_prefix && (1 <? count)%nat && starts_with "0" s then None
  else Some (n, rest).

Definition read_ipv4 (s : string) : option (list Z * string) :=
  let group s := read_number 10 255 3 false s in
  let dotted s := strip_prefix "." s ≫= group in
  '(a, s) ← group s; '(b, s) ← dotted s; '(c, s) ← dotted s; '(d, s) ← dotted s;
  Some ([a; b; c; d], s).

(** [read_separator(':', index, _)]. *)
Definition after_colon (index : nat) (s : string) : option string :=
  if (0 <? index)%nat then strip_prefix ":" s else Some s.

(** Up to [limit] groups of 16 bits, the last two possibly as an IPv4 address:
    the groups' octets, how many there are, and whether they end in IPv4. *)
Fixpoint read_groups (room index : nat) (s : string) : list Z * nat * bool * string :=
  match room with
  | O => ([], index, false, s)
  | S room' =>
      match (if (1 <? room)%nat then after_colon index s ≫= read_ipv4 else None) with
      | Some (octets, rest) => (octets, S (S index), true, rest)
      | None =>
          match after_colon index s ≫= read_number 16 65535 4 true with
          | Some (group, rest) =>
              let '(octets, count, ipv4, rest) := read_groups room' (S index) rest in
              (group / 256 :: group mod 256 :: octets, count, ipv4, rest)
          | None => ([], index, false, s)
          end
      end
  end.

Definition read_ipv6 (s : string) : option (list Z * string) :=
  let '(head, head_size, head_ipv4, rest) := read_groups 8 0 s in
  if (head_size =? 8)%nat then Some (head, rest)
  else if head_ipv4 then None
  else
    rest ← strip_prefix "::" rest;
    let '(tail, tail_size, _, rest) := read_groups (7 - head_size) 0 rest in
    Some (head ++ replicate (16 - 2 * head_size - 2 * tail_size) 0 ++ tail, rest).

Definition ip_from_str (s : string) : option IpAddr :=
  match read_ipv4 s with
  | Some (octets, EmptyString) => Some (V4 octets)
  | _ =>
      match read_ipv6 s with
      | Some (octets, EmptyString) => Some (V6 octets)
      | _ => None
      end
  end.

Example ip_parse :
  map ip_from_str ["127.0.0.1"; "127.0.0.01"; "::1"; "2001:db8::1"; "::ffff:1.2.3.4"; "1:2:3:4:5:6:7:8";
                   "1:2:3:4:5:6:7"; "1::2::3"; "example.com"; "256.1.1.1"; "12345::"]%string =
  [Some (V4 [127; 0; 0; 1]); None;
   Some (V6 [0; 0; 0; 0; 0; 0; 0; 0; 0; 0; 0; 0; 0; 0; 0; 1]);
   Some (V6 [32; 1; 13; 184; 0; 0; 0; 0; 0; 0; 0; 0; 0; 0; 0; 1]);
   Some (V6 [0; 0; 0; 0; 0; 0; 0; 0; 0; 0; 255; 255; 1; 2; 3; 4]);
   Some (V6 [0; 1; 0; 2; 0; 3; 0; 4; 0; 5; 0; 6; 0; 7; 0; 8]); None; None; None; None; None].
Proof. by vm_compute. Qed.

(** ** [http::Uri]: the parts of a parsed absolute URI. *)

Record UriParts : Type := mkUriParts { uri_host : option string; uri_port : option Z }.
Class UriApi : Type := { uri_parse : string → option UriParts }.

(** A reference instance: [scheme://host:port]. *)
Module RefUri.
Definition parse (s : string) : option UriParts :=
    '(_, rest) ← split_once ":"%char s;
    rest ← strip_prefix "//" rest;
    match split_once ":"%char rest with
    | Some (host, port) => Some (mkUriParts (Some host) (parse_uint u16_max port))
    | None => Some (mkUriParts (Some rest) None)
    end.
#[export] Instance api : UriApi := {| uri_parse := parse |}.
End RefUri.

(** ** [regex] *)

Class RegexApi : Type := {
  Regex : Type;
  regex_is_match : Regex → string → bool;
}.

(** ** [ipnet] *)

Class IpNetApi : Type := {
  IpNet : Type;
  ipnet_contains : IpNet → IpAddr → bool;
}.

(** ** [sha2] and [httpdate] *)

(** [Sha256::digest]: the octets of the digest. *)
Class Sha256Api : Type := { sha256_digest : string → list Z }.
Class Sha256Laws (api : Sha256Api) : Prop := {
  sha256_len s : length (sha256_digest s) = 32%nat;
  sha256_octets s : Forall is_u8 (sha256_digest s);
}.

(** [httpdate::parse_http_date]: nanoseconds since the Unix epoch. *)
Class HttpDateApi : Type := { parse_http_date : string → option Z }.

(** ** [base64]

    [STANDARD] and [STANDARD_NO_PAD]: three octets become four characters, the
    last group padded or not. *)

Class Base64Api : Type := {
  base64_encode : list Z → list Z;
  base64_encode_no_pad : list Z → list Z;
  base64_decode : list Z → option (list Z);
}.
Class Base64Laws (api : Base64Api) : Prop := {
  base64_nil : base64_encode [] = [];
  base64_app a b :
    length a = 3%nat → base64_encode (a ++ b) = base64_encode a ++ base64_encode b;
  base64_no_pad k a : length a = (3 * k)%nat → base64_encode_no_pad a = base64_encode a;
  base64_group a : (0 < length a ≤ 3)%nat → length (base64_encode a) = 4%nat;
  base64_decode_group a :
    (0 < length a ≤ 3)%nat → Forall is_u8 a → base64_decode (base64_encode a) = Some a;
  base64_graphic a : Forall is_u8 a → Forall (λ b, 32 < b) (base64_encode a);
}.

(** ** [http]

    Header names are their canonical lower-case text; a header value is opaque
    bytes that may or may not be readable as a string ([to_str]).  Methods and
    status codes are their text and their number. *)

Class HttpApi : Type := {
  HeaderMap : Type;
  HeaderValue : Type;
  hm_new : HeaderMap;
  hm_get_all : HeaderMap → string → list HeaderValue;
  hm_insert : string → HeaderValue → HeaderMap → HeaderMap;
  hm_append : string → HeaderValue → HeaderMap → HeaderMap;
  hm_remove : string → HeaderMap → HeaderMap;
  hm_iter : HeaderMap → list (string * HeaderValue);
  hv_to_str : HeaderValue → option string;
  hv_as_bytes : HeaderValue → string;
  hv_from_bytes : string → option HeaderValue;
  hv_from_str : string → option HeaderValue;
  hv_from_static : string → HeaderValue;
  header_name_parse : string → option string;
}.

Definition hm_get `{HttpApi} (m : HeaderMap) (name : string) : option HeaderValue :=
  head (hm_get_all m name).
Definition hm_contains_key `{HttpApi} (m : HeaderMap) (name : string) : bool :=
  match hm_get_all m name with [] => false | _ => true end.
Definition hm_is_empty `{HttpApi} (m : HeaderMap) : bool :=
  match hm_iter m with [] => true | _ => false end.
(** [headers.keys()]: every name once. *)
Fixpoint keep_first (seen l : list string) : list string :=
  match l with
  | [] => []
  | x :: l =>
      if bool_decide (x ∈ seen) then keep_first seen l else x :: keep_first (x :: seen) l
  end.
Definition hm_keys `{HttpApi} (m : HeaderMap) : list string := keep_first [] (map fst (hm_iter m)).
(** [headers.get_all(name).iter().filter_map(|v| v.to_str().ok())]. *)
Definition hm_get_all_str `{HttpApi} (m : HeaderMap) (name : string) : list string :=
  omap hv_to_str (hm_get_all m name).
Definition hm_get_str `{HttpApi} (m : HeaderMap) (name : string) : option string :=
  hm_get m name ≫= hv_to_str.

(** Visible ASCII, space and tab. *)
Definition value_char_ok (c : ascii) : bool :=
  in_range 32 126 (byte_of c) || (byte_of c =? 9).

Class HttpLaws (api : HttpApi) : Prop := {
  hm_get_all_new name : hm_get_all hm_new name = [];
  hm_get_all_insert_eq name v m : hm_get_all (hm_insert name v m) name = [v];
  hm_get_all_insert_ne name name' v m :
    name ≠ name' → hm_get_all (hm_insert name v m) name' = hm_get_all m name';
  hm_get_all_append_eq name v m :
    hm_get_all (hm_append name v m) name = hm_get_all m name ++ [v];
  hm_get_all_append_ne name name' v m :
    name ≠ name' → hm_get_all (hm_append name v m) name' = hm_get_all m name';
  hm_get_all_remove_eq name m : hm_get_all (hm_remove name m) name = [];
  hm_get_all_remove_ne name name' m :
    name ≠ name' → hm_get_all (hm_remove name m) name' = hm_get_all m name';
  hm_get_all_iter m name :
    hm_get_all m name = omap (λ '(n, v), if decide (n = name) then Some v else None) (hm_iter m);
  hv_to_str_bytes v s : hv_to_str v = Some s → hv_as_bytes v = s;
  hv_to_str_inv v s : hv_to_str v = Some s → str_all value_char_ok s = true;
  hv_to_str_visible v : str_all value_char_ok (hv_as_bytes v) = true → hv_to_str v = Some (hv_as_bytes v);
  hv_from_bytes_bytes s v : hv_from_bytes s = Some v → hv_as_bytes v = s;
  hv_from_str_bytes s v : hv_from_str s = Some v → hv_as_bytes v = s;
  hv_from_str_visible s :
    str_all value_char_ok s = true → ∃ v, hv_from_str s = Some v ∧ hv_to_str v = Some s;
  hv_from_static_visible s :
    str_all value_char_ok s = true → hv_to_str (hv_from_static s) = Some s;
}.

Lemma elem_of_keep_first seen l x : x ∈ keep_first seen l ↔ x ∈ l ∧ x ∉ seen.
Proof.
  revert seen. induction l as [|y l IH]; intros seen; simpl; [set_solver|].
  case_bool_decide; rewrite ?elem_of_cons, IH, ?elem_of_cons;
    destruct (decide (x = y)) as [->|]; naive_solver.
Qed.

Lemma keep_first_NoDup seen l : NoDup (keep_first seen l).
Proof.
  revert seen. induction l as [|y l IH]; intros seen; simpl; [constructor|].
  case_bool_decide; [done|]. constructor; [|done]. rewrite elem_of_keep_first. set_solver.
Qed.

Lemma elem_of_hm_keys `{HttpLaws} m name : name ∈ hm_keys m ↔ hm_get_all m name ≠ [].
Proof.
  unfold hm_keys. rewrite elem_of_keep_first, hm_get_all_iter, list_elem_of_fmap. split.
  - intros [((n, v) & Hn & Hin) _] Hnil. simpl in Hn. subst n.
    assert (v ∈ omap (λ '(n, v), if decide (n = name) then Some v else None) (hm_iter m)) as Hv.
    { apply list_elem_of_omap. exists (name, v). split; [done|]. by rewrite decide_True. }
    rewrite Hnil in Hv. by apply not_elem_of_nil in Hv.
  - intros Hne. split; [|set_solver].
    destruct (omap _ (hm_iter m)) as [|v l] eqn:Ho; [done|].
    assert (v ∈ omap (λ '(n, v), if decide (n = name) then Some v else None) (hm_iter m)) as Hv
      by (rewrite Ho; set_solver).
    apply list_elem_of_omap in Hv as ((n, w) & Hin & Hw). case_decide; [|done].
    simplify_eq. by exists (name, v).
Qed.

(** A reference instance: an ordered association list of readable values,
    header names accepted when they are non-empty token characters. *)

Module RefHttp.
Notation header_list := (list (string * string)).

Definition name_char_ok (c : ascii) : bool :=
    is_ascii_alphanumeric c || ascii_eqb c "-"%char || ascii_eqb c "_"%char.

Definition lookup_all (m : header_list) (name : string) : list string :=
    omap (λ '(n, v), if decide (n = name) then Some v else None) m.

Definition remove (name : string) (m : header_list) : header_list :=
    filter (λ p, p.1 ≠ name) m.

Definition parse_name (s : string) : option string :=
    if negb (str_is_empty s) && str_all name_char_ok s
    then Some (to_ascii_lowercase s) else None.

#[export] Instance api : HttpApi := {|
    HeaderMap := header_list;
    HeaderValue := string;
    hm_new := [];
    hm_get_all := lookup_all;
    hm_insert name v m := remove name m ++ [(name, v)];
    hm_append name v m := m ++ [(name, v)];
    hm_remove := remove;
    hm_iter m := m;
    hv_to_str v := if str_all value_char_ok v then Some v else None;
    hv_as_bytes v := v;
    hv_from_bytes s := if str_all value_char_ok s then Some s else None;
    hv_from_str s := if str_all value_char_ok s then Some s else None;
    hv_from_static s := s;
    header_name_parse := parse_name;
  |}.

Lemma lookup_all_cons n v m name :
    lookup_all ((n, v) :: m) name =
    (if decide (n = name) then [v] else []) ++ lookup_all m name.
  Proof. unfold lookup_all. simpl. by case_decide. Qed.

Lemma lookup_all_remove_eq name m : lookup_all (remove name m) name = [].
  Proof.
    induction m as [|[n v] m IH]; [done|]. unfold remove in *.
    rewrite filter_cons. case_decide as Hn; [|done].
    by rewrite lookup_all_cons, decide_False, IH.
  Qed.

Lemma lookup_all_remove_ne name name' m :
    name ≠ name' → lookup_all (remove name m) name' = lookup_all m name'.
  Proof.
    intros Hne. induction m as [|[n v] m IH]; [done|]. unfold remove in *.
    rewrite filter_cons, lookup_all_cons. case_decide as Hn.
    - by rewrite lookup_all_cons, IH.
    - rewrite IH, decide_False; [done|].
      simpl in *. intros ->. congruence.
  Qed.

Lemma lookup_all_snoc m n v name :
    lookup_all (m ++ [(n, v)]) name =
    lookup_all m name ++ (if decide (n = name) then [v] else []).
  Proof.
    unfold lookup_all. rewrite omap_app. simpl. by case_decide.
  Qed.

#[export] Instance laws : HttpLaws api.
  Proof.
    split; simpl; intros.
    - done.
    - by rewrite lookup_all_snoc, lookup_all_remove_eq, decide_True.
    - by rewrite lookup_all_snoc, lookup_all_remove_ne, decide_False, app_nil_r.
    - by rewrite lookup_all_snoc, decide_True.
    - by rewrite lookup_all_snoc, decide_False, app_nil_r.
    - apply lookup_all_remove_eq.
    - by apply lookup_all_remove_ne.
    - done.
    - destruct (str_all value_char_ok v); congruence.
    - destruct (str_all value_char_ok v) eqn:?; congruence.
    - match goal with H : _ = true |- _ => by rewrite !H end.
    - destruct (str_all value_char_ok s); congruence.
    - destruct (str_all value_char_ok s); congruence.
    - exists s. match goal with H : _ = true |- _ => by rewrite !H end.
    - match goal with H : _ = true |- _ => by rewrite !H end.
  Qed.
End RefHttp.

(** A reference [regex]: a pattern is matched as a literal substring. *)
Module RefRegex.
#[export] Instance api : RegexApi := {|
    Regex := string;
    regex_is_match pattern s := contains_str pattern s;
  |}.
End RefRegex.

(** A reference [ipnet] for IPv4 networks: base octets and a prefix length. *)
Module RefIpNet.
Definition addr_bits (o : list Z) : Z := foldl (λ acc b, acc * 256 + b) 0 o.
#[export] Instance api : IpNetApi := {|
    IpNet := list Z * Z;
    ipnet_contains net ip :=
      match ip with
      | V4 o => Z.shiftr (addr_bits net.1) (32 - net.2) =? Z.shiftr (addr_bits o) (32 - net.2)
      | V6 _ => false
      end;
  |}.
End RefIpNet.

(** A reference digest: the first 32 octets of the text, padded with zeros. *)
Module RefSha256.
Definition octets (s : string) : list Z :=
    map byte_of (String.list_ascii_of_string s).
#[export] Instance api : Sha256Api :=
    {| sha256_digest s := take 32 (octets s ++ replicate 32 0) |}.
#[export] Instance laws : Sha256Laws api.
  Proof.
    split; simpl; intros s.
    - rewrite length_take_le; [done|]. rewrite length_app. simpl. lia.
    - apply Forall_take, Forall_app. split.
      + unfold octets. induction (String.list_ascii_of_string s) as [|c l IH]; simpl; constructor; [|done].
        unfold is_u8, byte_of. pose proof (N_ascii_bounded c). lia.
      + repeat constructor; lia.
  Qed.
End RefSha256.

(** A reference [httpdate]: no date parses. *)
Module RefHttpDate.
#[export] Instance api : HttpDateApi := {| parse_http_date _ := None |}.
End RefHttpDate.

(** A reference [base64]: the standard alphabet. *)
Module RefBase64.
Definition digit (v : Z) : Z :=
  if v <? 26 then 65 + v else if v <? 52 then 71 + v else if v <? 62 then v - 4
  else if v =? 62 then 43 else 47.
Definition value (c : Z) : option Z :=
  if in_range 65 90 c then Some (c - 65) else if in_range 97 122 c then Some (c - 71)
  else if in_range 48 57 c then Some (c + 4) else if c =? 43 then Some 62
  else if c =? 47 then Some 63 else None.

Definition group (pad : list Z) (l : list Z) : list Z :=
  match l with
  | [] => []
  | [a] => [digit (a / 4); digit (a mod 4 * 16)] ++ pad ++ pad
  | [a; b] => [digit (a / 4); digit (a mod 4 * 16 + b / 16); digit (b mod 16 * 4)] ++ pad
  | a :: b :: c :: _ =>
      [digit (a / 4); digit (a mod 4 * 16 + b / 16); digit (b mod 16 * 4 + c / 64); digit (c mod 64)]
  end.

Fixpoint encode (pad : list Z) (l : list Z) : list Z :=
  match l with
  | a :: b :: c :: l => group pad [a; b; c] ++ encode pad l
  | _ => group pad l
  end.

(** One group; unused bits are zero. *)
Definition decode (l : list Z) : option (list Z) :=
  match l with
  | [c1; c2; c3; c4] =>
      a ← value c1; b ← value c2;
      if (c3 =? 61) && (c4 =? 61) then
        if b mod 16 =? 0 then Some [a * 4 + b / 16] else None
      else
        c ← value c3;
        if c4 =? 61 then
          if c mod 4 =? 0 then Some [a * 4 + b / 16; b mod 16 * 16 + c / 4] else None
        else
          d ← value c4;
          Some [a * 4 + b / 16; b mod 16 * 16 + c / 4; c mod 4 * 64 + d]
  | _ => None
  end.

#[export] Instance api : Base64Api := {|
  base64_encode := encode [61];
  base64_encode_no_pad := encode [];
  base64_decode := decode;
|}.

Lemma value_digit v : 0 ≤ v < 64 → value (digit v) = Some v ∧ digit v ≠ 61 ∧ 32 < digit v.
Proof.
  intros Hv. unfold value, digit, in_range.
  destruct (Z.ltb_spec v 26); [|destruct (Z.ltb_spec v 52); [|destruct (Z.ltb_spec v 62);
    [|destruct (Z.eqb_spec v 62)]]];
    repeat case_match; rewrite ?andb_true_iff, ?andb_false_iff in *; boolify; split_and!; try f_equal; lia.
Qed.

(** The six bits of each character are in range, and give the octets back. *)
Lemma sixths a b c :
  is_u8 a → is_u8 b → is_u8 c →
  (0 ≤ a / 4 < 64 ∧ 0 ≤ a mod 4 * 16 + b / 16 < 64 ∧ 0 ≤ b mod 16 * 4 + c / 64 < 64 ∧ 0 ≤ c mod 64 < 64) ∧
  (a / 4 * 4 + (a mod 4 * 16 + b / 16) / 16 = a ∧
   (a mod 4 * 16 + b / 16) mod 16 * 16 + (b mod 16 * 4 + c / 64) / 4 = b ∧
   (b mod 16 * 4 + c / 64) mod 4 * 64 + c mod 64 = c).
Proof. unfold is_u8. intros. split_and!; Z.to_euclidean_division_equations; lia. Qed.

Lemma decode_group a : (0 < length a ≤ 3)%nat → Forall is_u8 a → decode (encode [61] a) = Some a.
Proof.
  intros Hl Ha.
  assert (H0 : is_u8 0) by (unfold is_u8; lia).
  destruct a as [|a [|b [|c [|]]]]; simpl in Hl; try lia; rewrite ?Forall_cons in Ha; cbn [encode group app decode].
  - destruct (sixths a 0 0) as ((H1 & H2 & _) & (H3 & _)); [tauto..|].
    rewrite Z.div_0_l, Z.add_0_r in H2, H3 by lia.
    rewrite (proj1 (value_digit _ H1)), (proj1 (value_digit _ H2)). cbn.
    rewrite Z.mod_mul by lia. cbn. by rewrite H3.
  - destruct (sixths a b 0) as ((H1 & H2 & H3 & _) & (H4 & H5 & _)); [tauto..|].
    rewrite Z.div_0_l, Z.add_0_r in H3, H5 by lia.
    destruct (value_digit _ H1) as [V1 _], (value_digit _ H2) as [V2 _], (value_digit _ H3) as [V3 [N3 _]].
    rewrite V1, V2. cbn [mbind option_bind]. rewrite (proj2 (Z.eqb_neq _ 61) N3), V3. cbn.
    replace (b mod 16 * 4 mod 4) with 0 by (by rewrite Z.mod_mul). cbn. by rewrite H4, H5.
  - destruct (sixths a b c) as ((H1 & H2 & H3 & H4) & (H5 & H6 & H7)); [tauto..|].
    destruct (value_digit _ H1) as [V1 _], (value_digit _ H2) as [V2 _], (value_digit _ H3) as [V3 [N3 _]],
      (value_digit _ H4) as [V4 [N4 _]].
    rewrite V1, V2. cbn [mbind option_bind].
    rewrite (proj2 (Z.eqb_neq _ 61) N3), V3. cbn. rewrite (proj2 (Z.eqb_neq _ 61) N4), V4. cbn. by rewrite H5, H6, H7.
Qed.

Lemma encode_graphic a : Forall is_u8 a → Forall (λ b, 32 < b) (encode [61] a).
Proof.
  assert (H0 : is_u8 0) by (unfold is_u8; lia).
  remember (length a) as n eqn:Hn. revert a Hn.
  induction n as [n IH] using lt_wf_ind. intros a -> Ha.
  destruct a as [|a [|b [|c l]]]; rewrite ?Forall_cons in Ha; cbn [encode group app].
  - constructor.
  - destruct (sixths a 0 0) as ((H1 & H2 & _) & _); [tauto..|]. rewrite Z.div_0_l, Z.add_0_r in H2 by lia.
    repeat constructor; try apply value_digit; done.
  - destruct (sixths a b 0) as ((H1 & H2 & H3 & _) & _); [tauto..|]. rewrite Z.div_0_l, Z.add_0_r in H3 by lia.
    repeat constructor; try apply value_digit; done.
  - destruct (sixths a b c) as ((H1 & H2 & H3 & H4) & _); [tauto..|].
    repeat (constructor; [by apply value_digit|]). eapply IH; [|done|tauto]. simpl. lia.
Qed.

#[export] Instance laws : Base64Laws api.
Proof.
  split; simpl.
  - done.
  - intros [|a [|b [|c [|d t]]]] l Hl; done.
  - intros k. induction k as [|k IH]; intros a Hl; [by destruct a|].
    destruct a as [|a [|b [|c l]]]; simpl in Hl; try lia. cbn. by rewrite IH by lia.
  - intros [|a [|b [|c [|d l]]]] Hl; simpl in *; try lia; done.
  - apply decode_group.
  - apply encode_graphic.
Qed.
End RefBase64.
