(* ===== verification/Body.v ===== *)
(** * HTTP bodies

    The frames, the errors and the poll results of [hyper]'s [Body] trait, shared
    by the components that wrap one body in another: a wrapper's state holds the
    results the next polls of its inner body give, and the results of the
    wrapper's own polls are again such a list, so wrappers compose.  A byte
    string is a list of integers in [0, 256). *)

From S2P Require Import Prelude RustStr External.

Notation bytes := (list Z).

(** [Box<dyn Error>]: the errors this repository creates, and any other. *)
Inductive BoxError : Type :=
| InvalidDataError (message : string)
| RequestBodyLimitError (max_request_body_bytes : Z)
| TimedOutError (message : string)
| OtherError (message : string).

Section Body.
Context {HTTP : HttpApi}.

(** [hyper::body::Frame]. *)
Inductive BodyFrame : Type :=
| DataFrame (data : bytes)
| TrailersFrame (trailers : HeaderMap)
| OtherFrame.

(** [Poll<Option<Result<Frame, E>>>]. *)
Inductive FramePoll (E : Type) : Type :=
| Pending
| ReadyEnd
| ReadyFrame (f : BodyFrame)
| ReadyError (e : E).

(** An inner body is the sequence of results its next polls give; when it is
    exhausted the body has ended and every further poll is [ReadyEnd]. *)
Definition next_poll {E} (inner : list (FramePoll E)) : FramePoll E * list (FramePoll E) :=
  match inner with
  | [] => (ReadyEnd E, [])
  | p :: inner => (p, inner)
  end.

(** The results of the first [n] polls of a body. *)
Fixpoint polls {E S} (poll : S → FramePoll E * S) (n : nat) (s : S) : list (FramePoll E) :=
  match n with
  | O => []
  | S n => let '(p, s) := poll s in p :: polls poll n s
  end.

(** The bytes a sequence of results delivers. *)
Definition poll_bytes {E} (p : FramePoll E) : bytes :=
  match p with ReadyFrame _ (DataFrame d) => d | _ => [] end.
Definition delivered {E} (l : list (FramePoll E)) : bytes := concat (map poll_bytes l).

Definition len (data : bytes) : Z := Z.of_nat (length data).

(** Results of a body that neither fails nor ends early: data and waits. *)
Definition flowing {E} (p : FramePoll E) : Prop :=
  match p with Pending _ | ReadyFrame _ (DataFrame _) => True | _ => False end.

Definition is_error {E} (p : FramePoll E) : Prop :=
  match p with ReadyError _ _ => True | _ => False end.

(** The waits are not observed by the reader. *)
Definition not_pending {E} (p : FramePoll E) : Prop :=
  match p with Pending _ => False | _ => True end.
#[export] Instance not_pending_dec {E} (p : FramePoll E) : Decision (not_pending p).
Proof. destruct p; simpl; apply _. Defined.
Definition events {E} (l : list (FramePoll E)) : list (FramePoll E) := filter not_pending l.

Lemma delivered_cons {E} (p : FramePoll E) l : delivered (p :: l) = poll_bytes p ++ delivered l.
Proof. done. Qed.

Lemma delivered_app {E} (l k : list (FramePoll E)) : delivered (l ++ k) = delivered l ++ delivered k.
Proof. unfold delivered. by rewrite map_app, concat_app. Qed.

Lemma delivered_ends {E} n : delivered (replicate n (ReadyEnd E)) = [].
Proof. induction n as [|n IH]; [done|]. simpl. by rewrite delivered_cons, IH. Qed.

Lemma delivered_events {E} (l : list (FramePoll E)) : delivered (events l) = delivered l.
Proof.
  induction l as [|p l IH]; [done|]. unfold events in *. rewrite filter_cons, delivered_cons.
  destruct p; simpl; rewrite ?delivered_cons; by rewrite IH.
Qed.

Lemma len_app a b : len (a ++ b) = len a + len b.
Proof. unfold len. rewrite length_app. lia. Qed.

Lemma len_nonneg a : 0 ≤ len a.
Proof. unfold len. lia. Qed.
End Body.

Arguments Pending {HTTP E}.
Arguments ReadyEnd {HTTP E}.
Arguments ReadyFrame {HTTP E} f.
Arguments ReadyError {HTTP E} e.

(** ** Text and numbers as bytes *)

Definition bytes_of_string (s : string) : bytes := map byte_of (String.list_ascii_of_string s).
Definition byte_ascii (b : Z) : ascii := ascii_of_N (Z.to_N b).
Definition string_of_bytes (l : bytes) : string := String.string_of_list_ascii (map byte_ascii l).

Lemma byte_ascii_of c : byte_ascii (byte_of c) = c.
Proof. unfold byte_ascii, byte_of. by rewrite N2Z.id, ascii_N_embedding. Qed.

Lemma string_bytes s : string_of_bytes (bytes_of_string s) = s.
Proof.
  unfold string_of_bytes, bytes_of_string. rewrite map_map. induction s as [|c s IH]; [done|].
  cbn. by rewrite byte_ascii_of, IH.
Qed.

Lemma bytes_of_string_app a b : bytes_of_string (a +:+ b) = bytes_of_string a ++ bytes_of_string b.
Proof. induction a as [|c a IH]; [done|]. unfold bytes_of_string in *. simpl. by f_equal. Qed.

Lemma bytes_of_string_u8 s : Forall is_u8 (bytes_of_string s).
Proof.
  induction s as [|c s IH]; constructor; [|done]. unfold is_u8, byte_of.
  pose proof (N_ascii_bounded c). lia.
Qed.

(** [u32::from_be_bytes] and [u32::to_be_bytes]. *)
Definition u32_from_be (b0 b1 b2 b3 : Z) : Z :=
  Z.lor (Z.shiftl b0 24) (Z.lor (Z.shiftl b1 16) (Z.lor (Z.shiftl b2 8) b3)).
Definition u32_to_be (z : Z) : bytes :=
  [Z.land (Z.shiftr z 24) 255; Z.land (Z.shiftr z 16) 255; Z.land (Z.shiftr z 8) 255;
   Z.land z 255].

Lemma u32_be_roundtrip z b0 b1 b2 b3 :
  is_u32 z → u32_to_be z = [b0; b1; b2; b3] → u32_from_be b0 b1 b2 b3 = z.
Proof.
  unfold is_u32, u32_to_be, u32_from_be. intros Hz [= <- <- <- <-].
  rewrite !(land_ones_mod _ 8), !Z.shiftr_div_pow2 by lia.
  pose proof (Z.mod_pos_bound z (2 ^ 8) ltac:(lia)).
  pose proof (Z.mod_pos_bound (z / 2 ^ 8) (2 ^ 8) ltac:(lia)).
  pose proof (Z.mod_pos_bound (z / 2 ^ 16) (2 ^ 8) ltac:(lia)).
  rewrite (Z.lor_comm _ (z mod 2 ^ 8)), lor_shiftl_add by lia.
  rewrite (Z.lor_comm (Z.shiftl ((z / 2 ^ 16) mod _) _)), lor_shiftl_add by lia.
  rewrite (Z.lor_comm (Z.shiftl ((z / 2 ^ 24) mod _) _)), lor_shiftl_add by lia.
  rewrite (Z.mod_small (z / 2 ^ 24)).
  - replace (z / 2 ^ 24) with (z / 2 ^ 8 / 2 ^ 8 / 2 ^ 8) by (rewrite !Z.div_div by lia; done).
    replace (z / 2 ^ 16) with (z / 2 ^ 8 / 2 ^ 8) by (rewrite !Z.div_div by lia; done).
    pose proof (Z.div_mod z (2 ^ 8) ltac:(lia)).
    pose proof (Z.div_mod (z / 2 ^ 8) (2 ^ 8) ltac:(lia)).
    pose proof (Z.div_mod (z / 2 ^ 8 / 2 ^ 8) (2 ^ 8) ltac:(lia)).
    lia.
  - split; [apply Z.div_pos; lia|]. apply Z.div_lt_upper_bound; lia.
Qed.
