(* ===== verification/BodyLimits.v ===== *)
(** * Limits on bodies and sockets

    Models [crates/rginx-http/src/timeout]: the limit on the size of a request
    body ([body/max_bytes.rs]), the idle timeout of a stream ([body/idle.rs]),
    the gRPC deadline of a response ([body/grpc_deadline.rs]), their timers
    ([timers.rs]) and the write timeout of a socket ([io.rs]).

    Every poll happens at an instant, in milliseconds; a [Sleep] is the instant
    at which it is due.  [Instant + Duration] is assumed not to overflow: the
    source panics if it does.

    What a guard does to a stream is stated by [cuts]: the polls of the guarded
    stream are those of the stream it guards, or they are the same up to the
    first poll at which the guard steps in, its answer, and the end. *)

From S2P Require Import Prelude RustStr External Body.

Section Limits.
Context {HTTP : HttpApi}.
Notation FramePoll := (FramePoll BoxError).

(** ** Timers *)

(** [Option<Pin<Box<Sleep>>>]: the instant the armed timer is due. *)
Notation Sleep := (option Z).

(** Source: crates/rginx-http/src/timeout/timers.rs:10-16 (reset_idle_timer) *)
Definition reset_idle_timer (now timeout : Z) (sleep : Sleep) : Sleep := Some (now + timeout).

(** Source: crates/rginx-http/src/timeout/timers.rs:18-22 (arm_idle_timer) *)
Definition arm_idle_timer (now timeout : Z) (sleep : Sleep) : Sleep :=
  match sleep with Some _ => sleep | None => Some (now + timeout) end.

(** Source: crates/rginx-http/src/timeout/timers.rs:24-26 (clear_idle_timer) *)
Definition clear_idle_timer (sleep : Sleep) : Sleep := None.

(** [sleep.poll(cx).is_ready()]. *)
Definition sleep_due (now : Z) (sleep : Sleep) : bool :=
  match sleep with Some due => due <=? now | None => false end.

Definition stall_message (label : string) (timeout : Z) : string :=
  label +:+ " stalled for " +:+ dec timeout +:+ " ms".

(** Source: crates/rginx-http/src/timeout/timers.rs:28-50 (poll_idle_timer) *)
Definition poll_idle_timer (now : Z) (sleep : Sleep) (timeout : Z) (label : string) : option BoxError * Sleep :=
  let sleep := arm_idle_timer now timeout sleep in
  (if sleep_due now sleep then Some (TimedOutError (stall_message label timeout)) else None, sleep).

(** Source: crates/rginx-http/src/timeout/timers.rs:78-102 (poll_write_timeout) *)
Definition poll_write_timeout (now : Z) (sleep : Sleep) (timeout : Z) (label operation : string)
    : option BoxError * Sleep :=
  let sleep := arm_idle_timer now timeout sleep in
  (if sleep_due now sleep
   then Some (TimedOutError (stall_message (label +:+ " " +:+ operation) timeout)) else None, sleep).

(** [Poll<io::Result<T>>]: none is [Pending]. *)
(** Source: crates/rginx-http/src/timeout/timers.rs:52-76 (poll_write_side) *)
Definition poll_write_side {T} (now : Z) (result : option (result BoxError T)) (timeout : option Z)
    (sleep : Sleep) (label operation : string) : option (Prelude.result BoxError T) * Sleep :=
  match result with
  | Some result => (Some result, clear_idle_timer sleep)
  | None =>
      match timeout with
      | None => (None, sleep)
      | Some timeout =>
          match poll_write_timeout now sleep timeout label operation with
          | (Some error, sleep) => (Some (Err error), sleep)
          | (None, sleep) => (None, sleep)
          end
      end
  end.

(** Source: crates/rginx-http/src/timeout/io.rs:15-21 (WriteTimeoutIo) *)
Record WriteTimeoutIo : Type := mkWriteIo {
  wt_timeout : option Z;
  wt_label : string;
  wt_sleep : Sleep;
}.

(** The socket's answers are arguments; [poll_write_vectored] is [poll_write]. *)
(** Source: crates/rginx-http/src/timeout/io.rs:47-55 (poll_write) *)
Definition poll_write (now : Z) (answer : option (result BoxError Z)) (io : WriteTimeoutIo)
    : option (result BoxError Z) * WriteTimeoutIo :=
  let '(r, sleep) := poll_write_side now answer (wt_timeout io) (wt_sleep io) (wt_label io) "write" in
  (r, mkWriteIo (wt_timeout io) (wt_label io) sleep).

(** Source: crates/rginx-http/src/timeout/io.rs:57-61 (poll_flush) *)
Definition poll_flush (now : Z) (answer : option (result BoxError ())) (io : WriteTimeoutIo)
    : option (result BoxError ()) * WriteTimeoutIo :=
  let '(r, sleep) := poll_write_side now answer (wt_timeout io) (wt_sleep io) (wt_label io) "flush" in
  (r, mkWriteIo (wt_timeout io) (wt_label io) sleep).

(** Source: crates/rginx-http/src/timeout/io.rs:63-67 (poll_shutdown) *)
Definition poll_shutdown (now : Z) (answer : option (result BoxError ())) (io : WriteTimeoutIo)
    : option (result BoxError ()) * WriteTimeoutIo :=
  let '(r, sleep) := poll_write_side now answer (wt_timeout io) (wt_sleep io) (wt_label io) "shutdown" in
  (r, mkWriteIo (wt_timeout io) (wt_label io) sleep).

(** ** The idle timeout *)

(** Source: crates/rginx-http/src/timeout/body/idle.rs:5-12 (IdleTimeoutBody) *)
Record IdleTimeoutBody : Type := mkIdle {
  it_inner : list FramePoll;
  it_timeout : Z;
  it_label : string;
  it_sleep : Sleep;
  it_done : bool;
}.

(** Source: crates/rginx-http/src/timeout/body/idle.rs:16-18 (IdleTimeoutBody::new) *)
Definition idle_new (inner : list FramePoll) (timeout : Z) (label : string) : IdleTimeoutBody :=
  mkIdle inner timeout label None false.

(** Source: crates/rginx-http/src/timeout/body/idle.rs:29-65 (IdleTimeoutBody::poll_frame) *)
Definition idle_poll_frame (now : Z) (b : IdleTimeoutBody) : FramePoll * IdleTimeoutBody :=
  if it_done b then (ReadyEnd, b)
  else
    let '(p, inner) := next_poll (it_inner b) in
    let next (sleep : Sleep) (done : bool) := mkIdle inner (it_timeout b) (it_label b) sleep done in
    match p with
    | ReadyFrame frame =>
        let done := match frame with TrailersFrame _ => true | _ => it_done b end in
        (ReadyFrame frame, next (reset_idle_timer now (it_timeout b) (it_sleep b)) done)
    | ReadyError error => (ReadyError error, next (it_sleep b) true)
    | ReadyEnd => (ReadyEnd, next (it_sleep b) true)
    | Pending =>
        match poll_idle_timer now (it_sleep b) (it_timeout b) (it_label b) with
        | (Some error, sleep) => (ReadyError error, next sleep true)
        | (None, sleep) => (Pending, next sleep (it_done b))
        end
    end.

(** Source: crates/rginx-http/src/timeout/body/idle.rs:67-69 (IdleTimeoutBody::is_end_stream) *)
Definition idle_is_end_stream (b : IdleTimeoutBody) : bool := it_done b.

(** ** The gRPC deadline *)

(** The trailers of a response whose deadline has passed; the message is checked
    to be a header value when it is built. *)
(** Source: crates/rginx-http/src/timeout/body.rs:24-34 (grpc_deadline_exceeded_trailers) *)
Definition grpc_deadline_exceeded_trailers (message : string) : HeaderMap :=
  let trailers := hm_insert "grpc-status" (hv_from_static "4") hm_new in
  if str_is_empty message then trailers
  else match hv_from_str message with
       | Some value => hm_insert "grpc-message" value trailers
       | None => trailers
       end.

(** Source: crates/rginx-http/src/timeout/body/grpc_deadline.rs:5-13 (GrpcDeadlineBody) *)
Record GrpcDeadlineBody : Type := mkDeadline {
  gd_inner : list FramePoll;
  gd_deadline : Z;
  gd_timeout_message : string;
  gd_done : bool;
}.

(** Source: crates/rginx-http/src/timeout/body/grpc_deadline.rs:17-32 (GrpcDeadlineBody::new) *)
Definition deadline_new (inner : list FramePoll) (deadline : Z) (timeout_message : string) : GrpcDeadlineBody :=
  mkDeadline inner deadline timeout_message false.

(** Source: crates/rginx-http/src/timeout/body/grpc_deadline.rs:43-85 (GrpcDeadlineBody::poll_frame) *)
Definition deadline_poll_frame (now : Z) (b : GrpcDeadlineBody) : FramePoll * GrpcDeadlineBody :=
  if gd_done b then (ReadyEnd, b)
  else
    let '(p, inner) := next_poll (gd_inner b) in
    let next (done : bool) := mkDeadline inner (gd_deadline b) (gd_timeout_message b) done in
    match p with
    | ReadyFrame frame =>
        (ReadyFrame frame, next match frame with TrailersFrame _ => true | _ => gd_done b end)
    | ReadyError error => (ReadyError error, next true)
    | ReadyEnd => (ReadyEnd, next true)
    | Pending =>
        if sleep_due now (Some (gd_deadline b))
        then (ReadyFrame (TrailersFrame (grpc_deadline_exceeded_trailers (gd_timeout_message b))), next true)
        else (Pending, next (gd_done b))
    end.

(** Source: crates/rginx-http/src/timeout/body/grpc_deadline.rs:87-89 (GrpcDeadlineBody::is_end_stream) *)
Definition deadline_is_end_stream (b : GrpcDeadlineBody) : bool := gd_done b.

(** ** The size limit *)

(** Source: crates/rginx-http/src/timeout/body/max_bytes.rs:32-38 (MaxBytesBody) *)
Record MaxBytesBody : Type := mkMaxBytes {
  mb_inner : list FramePoll;
  mb_max_request_body_bytes : Z;
  mb_bytes_read : Z;
  mb_done : bool;
}.

(** Source: crates/rginx-http/src/timeout/body/max_bytes.rs:42-44 (MaxBytesBody::new) *)
Definition max_bytes_new (inner : list FramePoll) (max_request_body_bytes : Z) : MaxBytesBody :=
  mkMaxBytes inner max_request_body_bytes 0 false.

(** Source: crates/rginx-http/src/timeout/body/max_bytes.rs:55-96 (MaxBytesBody::poll_frame) *)
Definition max_bytes_poll_frame (b : MaxBytesBody) : FramePoll * MaxBytesBody :=
  if mb_done b then (ReadyEnd, b)
  else
    let '(p, inner) := next_poll (mb_inner b) in
    let next (bytes_read : Z) (done : bool) := mkMaxBytes inner (mb_max_request_body_bytes b) bytes_read done in
    match p with
    | ReadyFrame (DataFrame data) =>
        if sat_sub (mb_max_request_body_bytes b) (mb_bytes_read b) <? len data
        then (ReadyError (RequestBodyLimitError (mb_max_request_body_bytes b)), next (mb_bytes_read b) true)
        else (ReadyFrame (DataFrame data), next (mb_bytes_read b + len data) (mb_done b))
    | ReadyFrame (TrailersFrame trailers) => (ReadyFrame (TrailersFrame trailers), next (mb_bytes_read b) true)
    | ReadyFrame OtherFrame => (ReadyFrame OtherFrame, next (mb_bytes_read b) (mb_done b))
    | ReadyError error => (ReadyError error, next (mb_bytes_read b) true)
    | ReadyEnd => (ReadyEnd, next (mb_bytes_read b) true)
    | Pending => (Pending, next (mb_bytes_read b) (mb_done b))
    end.

(** Source: crates/rginx-http/src/timeout/body/max_bytes.rs:98-100 (MaxBytesBody::is_end_stream) *)
Definition max_bytes_is_end_stream (inner_is_end_stream : bool) (b : MaxBytesBody) : bool :=
  mb_done b || inner_is_end_stream.

(** [SizeHint]: at least, and at most where a bound is known. *)
(** Source: crates/rginx-http/src/timeout/body/max_bytes.rs:102-109 (MaxBytesBody::size_hint) *)
Definition max_bytes_size_hint (inner : Z * option Z) (b : MaxBytesBody) : Z * option Z :=
  let remaining := sat_sub (mb_max_request_body_bytes b) (mb_bytes_read b) in
  (Z.min (fst inner) remaining,
   Some match snd inner with Some upper => Z.min upper remaining | None => remaining end).

(** ** Polls at instants *)

Fixpoint timed_polls {S} (poll : Z → S → FramePoll * S) (clock : list Z) (s : S) : list FramePoll :=
  match clock with
  | [] => []
  | now :: clock => let '(p, s) := poll now s in p :: timed_polls poll clock s
  end.

(** The inner body's own polls, which stop at its first end, error or trailers:
    no guard polls it again after that. *)
Definition terminal (p : FramePoll) : bool :=
  match p with ReadyEnd | ReadyError _ | ReadyFrame (TrailersFrame _) => true | _ => false end.

Fixpoint fused (n : nat) (inner : list FramePoll) : list FramePoll :=
  match n with
  | O => []
  | S n =>
      let '(p, inner) := next_poll inner in
      p :: if terminal p then replicate n ReadyEnd else fused n inner
  end.

(** [event k r]: at poll [k] the guard answers [r] of its own. *)
Definition cuts (event : nat → FramePoll → Prop) (stream out : list FramePoll) : Prop :=
  out = stream ∧ (∀ k r, (k < length stream)%nat → ¬ event k r) ∨
  ∃ k r, (k < length stream)%nat ∧ event k r ∧ (∀ j r, (j < k)%nat → ¬ event j r) ∧
         out = take k stream ++ r :: replicate (length stream - S k) ReadyEnd.

(** The timers due at a poll: nothing but [Pending] since a poll [timeout] ago. *)
Definition stalled (timeout : Z) (clock : list Z) (stream : list FramePoll) (k : nat) : Prop :=
  ∃ j s t, (j ≤ k)%nat ∧ clock !! j = Some s ∧ clock !! k = Some t ∧ s + timeout ≤ t ∧
           stream !! k = Some Pending ∧ ∀ i, (j < i ≤ k)%nat → stream !! i = Some Pending.

Definition past (deadline : Z) (clock : list Z) (stream : list FramePoll) (k : nat) : Prop :=
  ∃ t, clock !! k = Some t ∧ deadline ≤ t ∧ stream !! k = Some Pending.

Definition over (limit : Z) (stream : list FramePoll) (k : nat) : Prop :=
  ∃ data, stream !! k = Some (ReadyFrame (DataFrame data)) ∧ limit < len (delivered (take (S k) stream)).

(** ** Guards in general *)

Lemma length_timed_polls {S} (poll : Z → S → FramePoll * S) clock s :
  length (timed_polls poll clock s) = length clock.
Proof. revert s. induction clock as [|t clock IH]; intros s; [done|]. simpl. destruct (poll t s). simpl. by rewrite IH. Qed.

Lemma length_fused n inner : length (fused n inner) = n.
Proof.
  revert inner. induction n as [|n IH]; intros inner; [done|]. simpl. destruct (next_poll inner) as [p i].
  simpl. f_equal. destruct (terminal p); [apply length_replicate|apply IH].
Qed.

(** Nothing comes after the end. *)
Definition settled (l : list FramePoll) : Prop :=
  ∀ i k p, (i < k)%nat → l !! i = Some p → terminal p = true → (k < length l)%nat → l !! k = Some ReadyEnd.

Lemma settled_cons p l : settled (p :: l) ↔ settled l ∧ (terminal p = true → l = replicate (length l) ReadyEnd).
Proof.
  split.
  - intros H. split.
    + intros i k q Hik Hi Hq Hk. apply (H (S i) (S k) q); simpl; lia || done.
    + intros Hp. apply list_eq_same_length with (length l); [by rewrite length_replicate|done|].
      intros i x y Hi Hx Hy. assert (l !! i = Some ReadyEnd) by (apply (H 0%nat (S i) p); simpl; lia || done).
      apply lookup_replicate in Hy as [-> _]. congruence.
  - intros [H Hp] i k q Hik Hi Hq Hk. destruct k as [|k]; [lia|]. simpl in Hk |- *. destruct i as [|i].
    + simplify_eq/=. rewrite (Hp Hq). apply lookup_replicate. split; [done|lia].
    + apply (H i k q); simpl in *; lia || done.
Qed.

Lemma settled_ends n : settled (replicate n ReadyEnd).
Proof. intros i k p Hik Hi _ Hk. rewrite length_replicate in Hk. apply lookup_replicate. done. Qed.

Lemma settled_fused n inner : settled (fused n inner).
Proof.
  revert inner. induction n as [|n IH]; intros inner; [by intros ????|]. simpl. destruct (next_poll inner) as [p i].
  apply settled_cons. destruct (terminal p); [|done]. split; [apply settled_ends|]. intros _. by rewrite length_replicate.
Qed.

Lemma fused_settled l : settled l → fused (length l) l = l.
Proof.
  induction l as [|p l IH]; intros H; [done|]. apply settled_cons in H as [Hl Hp]. simpl. f_equal.
  destruct (terminal p); [by rewrite <-Hp|by apply IH].
Qed.

Lemma cuts_now event p stream r : event 0%nat r → cuts event (p :: stream) (r :: replicate (length stream) ReadyEnd).
Proof. intros H. right. exists 0%nat, r. simpl. rewrite Nat.sub_0_r. split_and!; [lia|done| |done]. intros. lia. Qed.

Lemma cuts_later event p stream out :
  (∀ r, ¬ event 0%nat r) → cuts (λ k, event (S k)) stream out → cuts event (p :: stream) (p :: out).
Proof.
  intros H0 [[-> Hn]|(k & r & Hk & He & Hb & ->)].
  - left. split; [done|]. intros [|k] r Hk; [apply H0|]. apply Hn. simpl in Hk. lia.
  - right. exists (S k), r. split_and!; [simpl; lia|done| |done]. intros [|j] r' Hj; [apply H0|apply Hb; lia].
Qed.

Lemma cuts_quiet (event : nat → FramePoll → Prop) stream :
  (∀ k r, (k < length stream)%nat → ¬ event k r) → cuts event stream stream.
Proof. by left. Qed.

(** Only the first event counts. *)
Lemma cuts_ext (e e' : nat → FramePoll → Prop) stream out :
  (∀ k r, (k < length stream)%nat → (∀ j r', (j < k)%nat → ¬ e j r') → e k r ↔ e' k r) →
  cuts e stream out → cuts e' stream out.
Proof.
  intros Hiff [[-> Hn]|(k & r & Hk & He & Hb & ->)].
  - left. split; [done|]. intros k r Hk He. apply Hiff in He; [by eapply Hn| done|]. intros j r' Hj. apply Hn. lia.
  - right. exists k, r. split_and!; [done|by apply Hiff| |done]. intros j r' Hj He'.
    apply Hiff in He'; [by eapply Hb|lia|]. intros. apply Hb. lia.
Qed.

Lemma timed_polls_sim {S T} (f : S → T) (poll : Z → S → FramePoll * S) (poll' : Z → T → FramePoll * T) :
  (∀ t s, poll' t (f s) = ((poll t s).1, f (poll t s).2)) →
  ∀ clock s, timed_polls poll clock s = timed_polls poll' clock (f s).
Proof.
  intros Hsim clock. induction clock as [|t clock IH]; intros s; [done|]. simpl. rewrite Hsim.
  destruct (poll t s) as [p s'] eqn:Hp. simpl. by rewrite IH.
Qed.

(** A guard looks at each result of its body and may answer in its place. *)
Section Guard.
Context {S : Type} (act : Z → FramePoll → S → option FramePoll * S).

Definition guard_poll (now : Z) (g : list FramePoll * S * bool) : FramePoll * (list FramePoll * S * bool) :=
  let '(inner, s, done) := g in
  if done then (ReadyEnd, g)
  else
    let '(p, inner) := next_poll inner in
    match act now p s with
    | (Some r, s) => (r, (inner, s, true))
    | (None, s) => (p, (inner, s, terminal p))
    end.

Fixpoint guard_state (clock : list Z) (stream : list FramePoll) (k : nat) (s : S) : S :=
  match k, clock, stream with
  | Datatypes.S k, now :: clock, p :: stream => guard_state clock stream k (act now p s).2
  | _, _, _ => s
  end.

Definition guard_event (clock : list Z) (stream : list FramePoll) (s : S) (k : nat) (r : FramePoll) : Prop :=
  ∃ now p, clock !! k = Some now ∧ stream !! k = Some p ∧ (act now p (guard_state clock stream k s)).1 = Some r.

Lemma guard_done clock inner s : timed_polls guard_poll clock (inner, s, true) = replicate (length clock) ReadyEnd.
Proof. induction clock as [|t clock IH]; [done|]. simpl. by rewrite IH. Qed.

Lemma guard_settled clock inner s d : settled (timed_polls guard_poll clock (inner, s, d)).
Proof.
  revert inner s d. induction clock as [|t clock IH]; intros inner s d; [by intros ????|].
  destruct d; [rewrite guard_done; apply settled_ends|]. simpl. destruct (next_poll inner) as [p i].
  destruct (act t p s) as [[r|] s']; apply settled_cons; (split; [apply IH|]);
    rewrite length_timed_polls; [by rewrite guard_done|]. intros ->. by rewrite guard_done.
Qed.

Hypothesis act_end : ∀ now s, (act now ReadyEnd s).1 = None.

Lemma guard_cuts clock inner s :
  cuts (guard_event clock (fused (length clock) inner) s) (fused (length clock) inner)
    (timed_polls guard_poll clock (inner, s, false)).
Proof.
  revert inner s. induction clock as [|t clock IH]; intros inner s.
  { apply cuts_quiet. simpl. lia. }
  simpl. destruct (next_poll inner) as [p i]. destruct (act t p s) as [[r|] s'] eqn:Ha; simpl.
  - rewrite guard_done.
    pose proof (cuts_now (guard_event (t :: clock) (p :: (if terminal p then replicate (length clock) ReadyEnd else fused (length clock) i)) s) p
      (if terminal p then replicate (length clock) ReadyEnd else fused (length clock) i) r) as H.
    assert (length (if terminal p then replicate (length clock) ReadyEnd else fused (length clock) i) = length clock) as Hl
      by (destruct (terminal p); [apply length_replicate|apply length_fused]).
    rewrite Hl in H. apply H. exists t, p. simpl. by rewrite Ha.
  - apply cuts_later.
    { intros r (now & q & [= <-] & [= <-] & Hr). simpl in Hr. by rewrite Ha in Hr. }
    assert (∀ stream k r, guard_event (t :: clock) (p :: stream) s (Datatypes.S k) r ↔ guard_event clock stream s' k r) as Hshift.
    { intros stream k r. unfold guard_event. simpl. by rewrite Ha. }
    destruct (terminal p) eqn:Hp.
    + rewrite guard_done. apply cuts_quiet. intros k r Hk He. apply Hshift in He as (now & q & _ & Hq & Hr).
      apply lookup_replicate in Hq as [-> _]. by rewrite act_end in Hr.
    + eapply cuts_ext; [|apply (IH i s')]. intros k r _ _. symmetry. apply Hshift.
Qed.
End Guard.

(** ** The three guards *)

Definition idle_act (timeout : Z) (label : string) (now : Z) (p : FramePoll) (sleep : Sleep)
    : option FramePoll * Sleep :=
  match p with
  | ReadyFrame _ => (None, reset_idle_timer now timeout sleep)
  | Pending => (ReadyError <$> (poll_idle_timer now sleep timeout label).1, (poll_idle_timer now sleep timeout label).2)
  | _ => (None, sleep)
  end.

Definition deadline_act (deadline : Z) (message : string) (now : Z) (p : FramePoll) (_ : ()) : option FramePoll * () :=
  match p with
  | Pending =>
      (if deadline <=? now then Some (ReadyFrame (TrailersFrame (grpc_deadline_exceeded_trailers message))) else None, tt)
  | _ => (None, tt)
  end.

Definition max_bytes_act (limit : Z) (_ : Z) (p : FramePoll) (bytes_read : Z) : option FramePoll * Z :=
  match p with
  | ReadyFrame (DataFrame data) =>
      if sat_sub limit bytes_read <? len data
      then (Some (ReadyError (RequestBodyLimitError limit)), bytes_read) else (None, bytes_read + len data)
  | _ => (None, bytes_read)
  end.

Lemma idle_is_guard clock inner timeout label :
  timed_polls idle_poll_frame clock (idle_new inner timeout label) =
  timed_polls (guard_poll (idle_act timeout label)) clock (inner, None, false).
Proof.
  set (f := λ b, (it_inner b, it_sleep b, it_done b)).
  set (ok := λ b, it_timeout b = timeout ∧ it_label b = label).
  assert (∀ clock b, ok b → timed_polls idle_poll_frame clock b = timed_polls (guard_poll (idle_act timeout label)) clock (f b)) as H.
  { clear clock. induction clock as [|t clock IH]; intros b Hb; [done|]. simpl.
    destruct b as [i T l s d], Hb as [HT Hl]. simpl in HT, Hl. subst T l. unfold idle_poll_frame, f. simpl.
    destruct d; simpl; [by rewrite IH|]. destruct (next_poll i) as [p i'].
    destruct p as [| |[]|]; cbn [idle_act poll_idle_timer fst snd fmap option_fmap option_map terminal];
      try (destruct (sleep_due _ _)); simpl; by rewrite IH. }
  by apply H.
Qed.

Lemma deadline_is_guard clock inner deadline message :
  timed_polls deadline_poll_frame clock (deadline_new inner deadline message) =
  timed_polls (guard_poll (deadline_act deadline message)) clock (inner, tt, false).
Proof.
  set (f := λ b, (gd_inner b, tt, gd_done b)).
  assert (∀ clock b, gd_deadline b = deadline → gd_timeout_message b = message →
    timed_polls deadline_poll_frame clock b = timed_polls (guard_poll (deadline_act deadline message)) clock (f b)) as H.
  { clear clock. induction clock as [|t clock IH]; intros b Hd Hm; [done|]. simpl.
    destruct b as [i D m d]. simpl in Hd, Hm. subst D m. unfold deadline_poll_frame, f. simpl.
    destruct d; simpl; [by rewrite IH|]. destruct (next_poll i) as [p i'].
    destruct p as [| |[]|]; cbn [deadline_act terminal]; unfold sleep_due; try (destruct (_ <=? _)); simpl; by rewrite IH. }
  by apply H.
Qed.

(** The size limit does not look at the clock. *)
Lemma max_bytes_is_guard clock inner limit :
  polls max_bytes_poll_frame (length clock) (max_bytes_new inner limit) =
  timed_polls (guard_poll (max_bytes_act limit)) clock (inner, 0, false).
Proof.
  set (f := λ b, (mb_inner b, mb_bytes_read b, mb_done b)).
  assert (∀ clock b, mb_max_request_body_bytes b = limit →
    polls max_bytes_poll_frame (length clock) b = timed_polls (guard_poll (max_bytes_act limit)) clock (f b)) as H.
  { clear clock. induction clock as [|t clock IH]; intros b Hm; [done|]. simpl.
    destruct b as [i D m d]. simpl in Hm. subst D. unfold max_bytes_poll_frame, f. simpl.
    destruct d; simpl; [by rewrite IH|]. destruct (next_poll i) as [p i'].
    destruct p as [| |[]|]; cbn [max_bytes_act terminal]; try (destruct (_ <? _)); simpl; by rewrite IH. }
  by apply H.
Qed.

(** *** When they step in *)

Definition monotone (clock : list Z) : Prop :=
  ∀ j k s t, (j ≤ k)%nat → clock !! j = Some s → clock !! k = Some t → s ≤ t.

Lemma monotone_cons t clock : monotone (t :: clock) → monotone clock ∧ Forall (λ u, t ≤ u) clock.
Proof.
  intros H. split.
  - intros j k s u Hjk Hj Hk. apply (H (S j) (S k)); simpl; lia || done.
  - apply Forall_lookup. intros k u Hk. apply (H 0%nat (S k)); [lia|done|done].
Qed.

(** With the instant of the last activity before the stream starts. *)
Definition stalled_since (since : option Z) timeout clock stream (k : nat) : Prop :=
  stalled timeout clock stream k ∨
  ∃ s t, since = Some s ∧ clock !! k = Some t ∧ s + timeout ≤ t ∧ ∀ i, (i ≤ k)%nat → stream !! i = Some Pending.

Lemma stalled_since_S since timeout t clock p stream k :
  stalled_since since timeout (t :: clock) (p :: stream) (S k) ↔
  stalled timeout clock stream k ∨
  (∀ i, (i ≤ k)%nat → stream !! i = Some Pending) ∧
  ∃ u, clock !! k = Some u ∧ (t + timeout ≤ u ∨ p = Pending ∧ ∃ s, since = Some s ∧ s + timeout ≤ u).
Proof.
  unfold stalled_since, stalled. split.
  - intros [([|j] & s & u & Hj & Hs & Hu & Hle & Hk & Hi)|(s & u & Hs & Hu & Hle & Hi)].
    + right. simplify_eq/=. split; [|by eauto]. intros i Hik. apply (Hi (S i)). lia.
    + left. exists j, s, u. split_and!; [lia|done..|]. intros i Hik. apply (Hi (S i)). lia.
    + right. split; [intros i Hik; apply (Hi (S i)); lia|]. exists u. split; [done|]. right.
      specialize (Hi 0%nat ltac:(lia)). simpl in Hi. split; [congruence|by eauto].
  - intros [(j & s & u & Hj & Hs & Hu & Hle & Hk & Hi)|(Hi & u & Hu & [Hle|(-> & s & -> & Hle)])].
    + left. exists (S j), s, u. split_and!; [lia|done..|]. intros [|i] Hik; [lia|]. apply Hi. lia.
    + left. exists 0%nat, t, u. split_and!; [lia|done|done|done|by apply (Hi k)|]. intros [|i] Hik; [lia|]. apply Hi. lia.
    + right. exists s, u. split_and!; [done..|]. intros [|i] Hik; [done|]. apply Hi. lia.
Qed.

Lemma settled_not_pending stream k :
  settled stream → stream !! 0%nat = Some ReadyEnd → stream !! k ≠ Some Pending.
Proof.
  intros Hs H0 Hk. assert (stream !! k = Some ReadyEnd); [|congruence]. destruct k as [|k]; [done|].
  eapply (Hs 0%nat); [lia|done|done|]. apply lookup_lt_Some in Hk. lia.
Qed.

Lemma stalled_since_at since timeout clock stream k :
  stalled_since since timeout clock stream k → is_Some (clock !! k) ∧ stream !! k = Some Pending.
Proof. intros [(? & ? & ? & _ & _ & -> & _ & Hk & _)|(? & ? & _ & -> & _ & Hi)]; split; eauto. Qed.

Lemma stalled_since_0 since timeout t clock p stream :
  stalled_since since timeout (t :: clock) (p :: stream) 0 ↔
  p = Pending ∧ (timeout ≤ 0 ∨ ∃ s, since = Some s ∧ s + timeout ≤ t).
Proof.
  split.
  - intros [([|j] & s & u & Hj & Hs & Hu & Hle & Hk & Hi)|(s & u & -> & Hu & Hle & Hi)]; [|lia|]; simplify_eq/=.
    + split; [done|]. left. lia.
    + specialize (Hi 0%nat ltac:(lia)). simplify_eq/=. split; [done|by eauto].
  - intros [-> [Hle|(s & -> & Hle)]].
    + left. exists 0%nat, t, t. split_and!; [lia|done|done|lia|done|lia].
    + right. exists s, t. split_and!; [done..|]. intros i Hi. by assert (i = 0%nat) as -> by lia.
Qed.

Lemma stalled_since_split since timeout clock stream k :
  stalled_since since timeout clock stream k ↔
  stalled timeout clock stream k ∨
  (∀ i, (i ≤ k)%nat → stream !! i = Some Pending) ∧
  ∃ u, clock !! k = Some u ∧ ∃ s, since = Some s ∧ s + timeout ≤ u.
Proof. unfold stalled_since. split; (intros [H|H]; [by left|right]); naive_solver. Qed.

(** A poll restarts the timer, arms it, or leaves it. *)
Lemma stalled_after t since since' timeout clock p stream k :
  (∀ s, since = Some s → Forall (λ u, s ≤ u) (t :: clock)) →
  match p with
  | ReadyFrame _ => since' = Some t
  | Pending => since' = match since with Some s => Some s | None => Some t end
  | _ => since' = since ∧ stream = replicate (length stream) ReadyEnd
  end →
  stalled_since since' timeout clock stream k ↔ stalled_since since timeout (t :: clock) (p :: stream) (S k).
Proof.
  intros Hsince Hp. rewrite stalled_since_split, stalled_since_S.
  assert (∀ s u, since = Some s → t + timeout ≤ u → s + timeout ≤ u) as Hle.
  { intros s u Hs Hu. specialize (Hsince s Hs). inversion Hsince. lia. }
  assert (stream = replicate (length stream) ReadyEnd → ∀ i, (i ≤ k)%nat → stream !! i ≠ Some Pending) as Hend.
  { intros -> i _ [? _]%lookup_replicate. done. }
  destruct p as [| |f|e]; [destruct since as [s|]| | |];
    (split; (intros [H|[Hi (u & Hu & H)]]; [by left|])).
  all: try (destruct Hp as [_ Hp]; by destruct (Hend Hp k ltac:(lia)); apply Hi).
  all: right; (split; [done|]); exists u; (split; [done|]); naive_solver.
Qed.

(** The timer is due when nothing has happened for [timeout]. *)
Lemma idle_events timeout label clock stream since k r :
  monotone clock → (∀ s, since = Some s → Forall (λ u, s ≤ u) clock) → settled stream →
  guard_event (idle_act timeout label) clock stream ((λ s, s + timeout) <$> since) k r ↔
  stalled_since since timeout clock stream k ∧ r = ReadyError (TimedOutError (stall_message label timeout)).
Proof.
  revert clock stream since. induction k as [|k IH]; intros [|t clock] [|p stream] since Hm Hsince Hset;
    try (split; [by intros (? & ? & ? & ? & ?)|intros [[[??] ?]%stalled_since_at _]; done]).
  - rewrite stalled_since_0. unfold guard_event. simpl. split.
    + intros (? & ? & [= <-] & [= <-] & Hr). destruct p; try done. destruct since as [s|]; simpl in Hr; case_match eqn:Hd; try done;
        apply Z.leb_le in Hd; simplify_eq/=; (split; [split; [done|]|done]); [right; eauto|left; lia].
    + intros [[-> Hle] ->]. exists t, Pending. split_and!; [done..|]. unfold idle_act, poll_idle_timer, sleep_due.
      destruct since as [s|]; simpl.
      * specialize (Hsince s eq_refl). inversion Hsince. rewrite (proj2 (Z.leb_le _ _)); [done|].
        destruct Hle as [?|(? & [= <-] & ?)]; lia.
      * destruct Hle as [?|(? & ? & ?)]; [|done]. by rewrite (proj2 (Z.leb_le _ _)) by lia.
  - apply monotone_cons in Hm as [Hm Ht]. apply settled_cons in Hset as [Hset Hp].
    set (since' := match p with ReadyFrame _ => Some t | Pending => match since with Some s => Some s | None => Some t end
                   | _ => since end).
    assert (guard_event (idle_act timeout label) (t :: clock) (p :: stream) ((λ s, s + timeout) <$> since) (S k) r ↔
            guard_event (idle_act timeout label) clock stream ((λ s, s + timeout) <$> since') k r) as ->.
    { unfold since'. by destruct p as [| |f|e], since. }
    rewrite (IH clock stream since'), (stalled_after t since since' _ _ p); [done|done| |done| |done].
    + destruct p; unfold since'; auto.
    + intros s Hs. assert (s = t ∨ since = Some s) as [->|Hs']; [|done|by specialize (Hsince s Hs'); inversion Hsince].
      unfold since' in Hs. destruct p, since; naive_solver.
Qed.

Lemma idle_timeout_cuts clock inner timeout label :
  monotone clock →
  let stream := fused (length clock) inner in
  cuts (λ k r, stalled timeout clock stream k ∧ r = ReadyError (TimedOutError (stall_message label timeout))) stream
    (timed_polls idle_poll_frame clock (idle_new inner timeout label)).
Proof.
  intros Hm stream. rewrite idle_is_guard. eapply cuts_ext; [|apply guard_cuts; done]. intros k r _ _.
  rewrite (idle_events timeout label clock _ None) by (done || apply settled_fused). unfold stalled_since. naive_solver.
Qed.

Lemma deadline_cuts clock inner deadline message :
  let stream := fused (length clock) inner in
  cuts (λ k r, past deadline clock stream k ∧ r = ReadyFrame (TrailersFrame (grpc_deadline_exceeded_trailers message)))
    stream (timed_polls deadline_poll_frame clock (deadline_new inner deadline message)).
Proof.
  intros stream. rewrite deadline_is_guard. eapply cuts_ext; [|apply guard_cuts; done]. intros k r _ _.
  unfold guard_event, past. split.
  - intros (t & p & Ht & Hp & Hr). destruct p; try done. simpl in Hr. case_match eqn:Hd; [|done].
    apply Z.leb_le in Hd. naive_solver.
  - intros [(t & Ht & Hd & Hp) ->]. exists t, Pending. split_and!; [done..|]. simpl.
    by rewrite (proj2 (Z.leb_le _ _)) by done.
Qed.

(** What has been read when the limit was not passed. *)
Lemma max_bytes_state limit clock stream k read :
  length clock = length stream → (k ≤ length stream)%nat → 0 ≤ read ≤ limit →
  (∀ j r, (j < k)%nat → ¬ guard_event (max_bytes_act limit) clock stream read j r) →
  guard_state (max_bytes_act limit) clock stream k read = read + len (delivered (take k stream)) ∧
  read + len (delivered (take k stream)) ≤ limit.
Proof.
  revert clock stream read. induction k as [|k IH]; intros [|t clock] [|p stream] read Hl Hk Hread Hno;
    try done; try (simpl in *; lia); try (simpl; unfold len; simpl; lia).
  pose proof (len_nonneg (poll_bytes p)) as Hb.
  assert (0 ≤ (max_bytes_act limit t p read).2 ≤ limit ∧ (max_bytes_act limit t p read).2 = read + len (poll_bytes p)) as [Hs Heq].
  { specialize (Hno 0%nat). unfold guard_event in Hno. assert (len [] = 0) as Hnil by done.
    destruct p as [| |[d| |]|e]; simpl in *; try lia.
    case_match eqn:Hd; [|apply Z.ltb_ge in Hd; unfold sat_sub in Hd; simpl; lia].
    exfalso. eapply Hno; [lia|]. exists t, (ReadyFrame (DataFrame d)). split_and!; [done..|]. simpl. by rewrite Hd. }
  destruct (IH clock stream (max_bytes_act limit t p read).2) as [Hst Hle]; [simpl in *; lia..|done| |].
  { intros j r Hj. apply (Hno (S j) r). lia. }
  cbn [guard_state take]. rewrite Hst, delivered_cons, len_app. lia.
Qed.

Lemma max_bytes_cuts n inner limit :
  0 ≤ limit →
  let stream := fused n inner in
  cuts (λ k r, over limit stream k ∧ r = ReadyError (RequestBodyLimitError limit)) stream
    (polls max_bytes_poll_frame n (max_bytes_new inner limit)).
Proof.
  intros Hlim stream. set (clock := replicate n 0). assert (length clock = n) as Hn by apply length_replicate.
  pose proof (max_bytes_is_guard clock inner limit) as Hg. rewrite Hn in Hg. rewrite Hg.
  pose proof (guard_cuts (max_bytes_act limit) ltac:(done) clock inner 0) as Hcut. rewrite Hn in Hcut. fold stream in Hcut.
  eapply cuts_ext; [|exact Hcut]. intros k r Hk Hno. unfold guard_event, over.
  destruct (max_bytes_state limit clock stream k 0) as [Hst Hle]; [by rewrite Hn; unfold stream; rewrite length_fused|lia|lia|done|].
  assert (clock !! k = Some 0) as Hc.
  { apply lookup_replicate. split; [done|]. unfold stream in Hk. by rewrite length_fused in Hk. }
  destruct (lookup_lt_is_Some_2 stream k Hk) as [p Hp]. rewrite (take_S_r _ _ _ Hp), delivered_app, len_app.
  split.
  - intros (t & q & Ht & Hq & Hr). rewrite Hst in Hr. destruct q as [| |[d| |]|]; try done. simpl in Hr. case_match eqn:Hd; [|done].
    simplify_eq/=. split; [|done]. exists d. split; [done|]. apply Z.ltb_lt in Hd. unfold sat_sub in Hd.
    rewrite delivered_cons, app_nil_r. simpl. lia.
  - intros [(d & Hd & Hover) ->]. simplify_eq. exists 0, (ReadyFrame (DataFrame d)). split_and!; [done..|]. rewrite Hst. simpl.
    rewrite delivered_cons, app_nil_r in Hover. simpl in Hover.
    rewrite (proj2 (Z.ltb_lt _ _)); [done|]. unfold sat_sub. pose proof (len_nonneg d). lia.
Qed.

(** *** One guard around another *)

Lemma cuts_length event stream out : cuts event stream out → length out = length stream.
Proof.
  intros [[-> _]|(k & r & Hk & _ & _ & ->)]; [done|]. rewrite length_app. simpl. rewrite length_take, length_replicate. lia.
Qed.

Lemma cuts_compose e1 e2 e2' stream mid out :
  cuts e1 stream mid → cuts e2 mid out →
  (∀ k r, take (S k) mid = take (S k) stream → e2 k r ↔ e2' k r) →
  (∀ k r r', mid !! k = Some r → e1 k r → ¬ e2 k r') →
  (∀ k r, mid !! k = Some ReadyEnd → ¬ e2 k r) →
  cuts (λ k r, e1 k r ∨ (∀ r', ¬ e1 k r') ∧ e2' k r) stream out.
Proof.
  intros [[-> H1]|(k1 & r1 & Hk1 & He1 & Hb1 & ->)] H2 Hsame Hown Hend.
  - eapply cuts_ext; [|exact H2]. intros k r Hk _. rewrite Hsame by done.
    split; [intros H; right; split; [intros r'; by apply H1|done]|]. intros [H|[_ H]]; [by apply H1 in H|done].
  - assert (length (take k1 stream) = k1) as Ht by (rewrite length_take; lia).
    assert (∀ j, (j < k1)%nat → take (S j) (take k1 stream ++ r1 :: replicate (length stream - S k1) ReadyEnd) = take (S j) stream) as Hpre.
    { intros j Hj. rewrite take_app_le, take_take by lia. f_equal. lia. }
    destruct H2 as [[-> H2]|(k2 & r2 & Hk2 & He2 & Hb2 & ->)].
    + right. exists k1, r1. split_and!; [done|by left| |done]. intros j r Hj [He|[_ He]]; [by eapply Hb1|].
      apply Hsame in He; [|by apply Hpre]. eapply H2; [|exact He]. rewrite length_app. simpl. lia.
    + assert (k2 < k1)%nat as Hlt.
      { apply Nat.nle_gt. intros Hle. destruct (decide (k2 = k1)) as [->|Hne].
        - eapply (Hown k1 r1); [|done|exact He2]. rewrite lookup_app_r, Ht, Nat.sub_diag by lia. done.
        - eapply (Hend k2); [|exact He2]. rewrite lookup_app_r, Ht by lia. rewrite length_app in Hk2. simpl in Hk2.
          rewrite Ht, length_replicate in Hk2. destruct (k2 - k1)%nat as [|m] eqn:Hm; [lia|]. simpl.
          apply lookup_replicate. split; [done|lia]. }
      right. exists k2, r2. split_and!; [lia| | |].
      * right. split; [intros r' He; by eapply Hb1|]. apply Hsame; [by apply Hpre|done].
      * intros j r Hj [He|[_ He]]; [eapply (Hb1 j); [lia|done]|]. apply Hsame in He; [by eapply Hb2|apply Hpre; lia].
      * rewrite length_app. simpl. rewrite Ht, length_replicate, take_app_le, take_take by lia. f_equal; [f_equal; lia|].
        do 2 f_equal. lia.
Qed.
End Limits.
