(* ===== verification/ServerName.v ===== *)
(** * Server names: host patterns and the best match

    Models [crates/rginx-core/src/config/server_name.rs]: exact names, [.name]
    and [*.name] suffix wildcards, [name.*] prefix wildcards, and the choice of
    the best pattern of a list for a request host. *)

From S2P Require Import Prelude RustStr.

(** Source: crates/rginx-core/src/config/server_name.rs:2-7 (ServerNameMatch) *)
Inductive ServerNameMatch : Type :=
| Exact
| DotWildcard (suffix_len : Z)
| LeadingWildcard (suffix_len : Z)
| TrailingWildcard (prefix_len : Z).

#[export] Instance ServerNameMatch_eq_dec : EqDecision ServerNameMatch.
Proof. solve_decision. Defined.

(** Source: crates/rginx-core/src/config/server_name.rs:10-17 (ServerNameMatch::priority) *)
Definition priority (m : ServerNameMatch) : Z * Z :=
  match m with
  | Exact => (4, 0)
  | DotWildcard suffix_len => (2, suffix_len)
  | LeadingWildcard suffix_len => (2, suffix_len)
  | TrailingWildcard prefix_len => (1, prefix_len)
  end.

(** Source: crates/rginx-core/src/config/server_name.rs:76-84 (normalize_host_for_match) *)
Definition normalize_host_for_match (host : string) : string :=
  let plain := to_ascii_lowercase (default host (head (split ":"%char host))) in
  match strip_prefix "[" host with
  | Some rest =>
      match split_once "]"%char rest with
      | Some (addr, _) => to_ascii_lowercase addr
      | None => plain
      end
  | None => plain
  end.

(** Source: crates/rginx-core/src/config/server_name.rs:32-74 (match_server_name) *)
Definition match_server_name (raw_pattern host : string) : option ServerNameMatch :=
  let hostname := normalize_host_for_match host in
  let pattern := to_ascii_lowercase (trim raw_pattern) in
  if str_is_empty pattern then None
  else match strip_prefix "." pattern with
  | Some suffix =>
      if str_is_empty suffix then None
      else if str_eqb hostname suffix || ends_with ("." +:+ suffix) hostname
           then Some (DotWildcard (str_len suffix))
           else None
  | None =>
  match strip_prefix "*." pattern with
  | Some suffix =>
      if str_is_empty suffix || str_eqb hostname suffix then None
      else if ends_with ("." +:+ suffix) hostname
           then Some (LeadingWildcard (str_len suffix))
           else None
  | None =>
  match strip_suffix ".*" pattern with
  | Some prefix =>
      if str_is_empty prefix || str_eqb hostname prefix then None
      else match strip_prefix prefix hostname with
           | Some remainder =>
               if starts_with "." remainder && (1 <? str_len remainder)
               then Some (TrailingWildcard (str_len prefix))
               else None
           | None => None
           end
  | None => if str_eqb hostname pattern then Some Exact else None
  end end end.

(** The order [max_by] uses: priority first, then the smaller pattern text. *)
(** Source: crates/rginx-core/src/config/server_name.rs:27-29 (best_matching_server_name_pattern, the comparison) *)
Definition pattern_cmp (left right : string * ServerNameMatch) : comparison :=
  then_cmp (pair_cmp (priority left.2) (priority right.2))
           (str_cmp right.1 left.1).

(** [max_by] keeps the later of two equal elements. *)
Definition max_by_replaces (later current : string * ServerNameMatch) : bool :=
  negb (cmp_is_gt (pattern_cmp current later)).

(** Source: crates/rginx-core/src/config/server_name.rs:20-30 (best_matching_server_name_pattern) *)
Definition best_matching_server_name_pattern (patterns : list string) (host : string)
    : option (string * ServerNameMatch) :=
  champion max_by_replaces
    (omap (λ pattern, (λ m, (pattern, m)) <$> match_server_name pattern host) patterns).

(** Source: crates/rginx-core/src/config/virtual_host.rs:16-19 (VirtualHost::best_server_name_match) *)
Definition best_server_name_match (server_names : list string) (host : string)
    : option ServerNameMatch :=
  snd <$> best_matching_server_name_pattern server_names host.

(** Source: crates/rginx-core/src/config/virtual_host.rs:12-14 (VirtualHost::matches_host) *)
Definition matches_host (server_names : list string) (host : string) : bool :=
  match server_names with
  | [] => true
  | _ => match best_server_name_match server_names host with Some _ => true | None => false end
  end.

(** ** Ranks are totally ordered *)

Lemma pair_cmp_antisym x y : pair_cmp x y = CompOpp (pair_cmp y x).
Proof.
  unfold pair_cmp. rewrite (Z.compare_antisym x.1), (Z.compare_antisym x.2).
  destruct (x.1 ?= y.1); simpl; try done. by destruct (x.2 ?= y.2).
Qed.

Lemma pair_cmp_le x y :
  pair_cmp x y ≠ Gt ↔ x.1 < y.1 ∨ (x.1 = y.1 ∧ x.2 ≤ y.2).
Proof.
  unfold pair_cmp. destruct (Z.compare_spec x.1 y.1); simpl.
  - destruct (Z.compare_spec x.2 y.2); intuition (lia || congruence).
  - intuition (lia || congruence).
  - intuition (lia || congruence).
Qed.

Lemma pair_cmp_eq x y : pair_cmp x y = Eq ↔ x = y.
Proof.
  destruct x as [a b], y as [c d]. unfold pair_cmp. simpl.
  destruct (Z.compare_spec a c); simpl; [|naive_solver lia..].
  destruct (Z.compare_spec b d); naive_solver lia.
Qed.

Lemma pattern_cmp_antisym x y : pattern_cmp x y = CompOpp (pattern_cmp y x).
Proof.
  unfold pattern_cmp. rewrite (pair_cmp_antisym (priority x.2)), (str_cmp_antisym y.1).
  by destruct (pair_cmp (priority y.2) (priority x.2)).
Qed.

Definition pattern_le (x y : string * ServerNameMatch) : Prop := pattern_cmp x y ≠ Gt.

Lemma pattern_le_spec x y :
  pattern_le x y ↔
  pair_cmp (priority x.2) (priority y.2) = Lt ∨
  (priority x.2 = priority y.2 ∧ str_cmp y.1 x.1 ≠ Gt).
Proof.
  unfold pattern_le, pattern_cmp. rewrite <-pair_cmp_eq.
  destruct (pair_cmp (priority x.2) (priority y.2)); simpl; naive_solver.
Qed.

Lemma pair_cmp_lt_le_trans x y z : pair_cmp x y = Lt → pair_cmp y z ≠ Gt → pair_cmp x z = Lt.
Proof.
  intros Hxy Hyz. destruct (pair_cmp x z) eqn:Hxz; [|done|]; exfalso.
  - apply pair_cmp_eq in Hxz as ->. rewrite pair_cmp_antisym in Hxy.
    destruct (pair_cmp y z); naive_solver.
  - assert (pair_cmp x y ≠ Gt) as H1 by congruence.
    assert (pair_cmp x z ≠ Gt) as H2; [|done].
    rewrite pair_cmp_le in *. lia.
Qed.

#[export] Instance pattern_le_preorder : PreOrder pattern_le.
Proof.
  split.
  - intros x. apply pattern_le_spec. right. split; [done|].
    by rewrite (proj2 (str_cmp_eq _ _)).
  - intros x y z [Hxy|[Hxy Hs]]%pattern_le_spec Hyz; apply pattern_le_spec.
    + left. eapply pair_cmp_lt_le_trans; [done|].
      apply pattern_le_spec in Hyz as [->|[Heq _]]; [done|].
      by rewrite (proj2 (pair_cmp_eq _ _) Heq).
    + rewrite Hxy. apply pattern_le_spec in Hyz as [Hyz|[Heq Hs']]; [by left|].
      right. split; [done|]. by eapply str_cmp_le_trans.
Qed.

Lemma pattern_le_antisym x y : pattern_le x y → pattern_le y x → x.1 = y.1.
Proof.
  unfold pattern_le. rewrite (pattern_cmp_antisym y x). intros H1 H2.
  assert (Heq : pattern_cmp x y = Eq) by (destruct (pattern_cmp x y); naive_solver).
  unfold pattern_cmp in Heq.
  destruct (pair_cmp _ _); simpl in Heq; try done.
  symmetry. by apply str_cmp_eq.
Qed.

Lemma max_by_replaces_true x y : max_by_replaces x y = true → pattern_le y x.
Proof. unfold max_by_replaces, pattern_le. by destruct (pattern_cmp y x). Qed.
Lemma max_by_replaces_false x y : max_by_replaces x y = false → pattern_le x y.
Proof.
  unfold max_by_replaces, pattern_le. rewrite (pattern_cmp_antisym x y).
  by destruct (pattern_cmp y x).
Qed.

#[export] Hint Resolve max_by_replaces_true max_by_replaces_false : rginx.

Lemma elem_of_matches (patterns : list string) host p m :
  (p, m) ∈ (omap (λ pattern, (λ m, (pattern, m)) <$> match_server_name pattern host) patterns : list (string * ServerNameMatch)) ↔
  p ∈ patterns ∧ match_server_name p host = Some m.
Proof.
  rewrite list_elem_of_omap. split.
  - intros (q & Hq & Hm). apply fmap_Some in Hm as (m' & Hm' & [= -> ->]). done.
  - intros [Hp Hm]. exists p. by rewrite Hm.
Qed.

(** The winner is a listed pattern that matches, and no listed pattern that
    matches beats it. *)
Lemma best_pattern_Some (patterns : list string) host p m :
  best_matching_server_name_pattern patterns host = Some (p, m) →
  p ∈ patterns ∧ match_server_name p host = Some m ∧
  ∀ q n, q ∈ patterns → match_server_name q host = Some n → pattern_le (q, n) (p, m).
Proof.
  intros Hbest. unfold best_matching_server_name_pattern in Hbest.
  apply (champion_Some _ pattern_le) in Hbest as [Hin Hall]; [|eauto with rginx..].
  apply elem_of_matches in Hin as [Hp Hm]. split_and!; [done..|].
  intros q n Hq Hn. rewrite Forall_forall in Hall.
  apply Hall, elem_of_matches. done.
Qed.

Lemma best_pattern_None (patterns : list string) host :
  best_matching_server_name_pattern patterns host = None ↔
  ∀ q, q ∈ patterns → match_server_name q host = None.
Proof.
  unfold best_matching_server_name_pattern.
  rewrite champion_None.
  split.
  - intros Hnil q Hq. destruct (match_server_name q host) as [m|] eqn:Hm; [|done].
    assert (Hin : (q, m) ∈ ([] : list (string * ServerNameMatch))); [|by apply not_elem_of_nil in Hin].
    rewrite <-Hnil. by apply elem_of_matches.
  - intros Hall. destruct (omap _ patterns) as [|[q m] l] eqn:Hl; [done|].
    assert (Hin : (q, m) ∈ (q, m) :: l) by (left; done).
    rewrite <-Hl in Hin. apply elem_of_matches in Hin as [Hq Hm].
    by rewrite Hall in Hm.
Qed.

(** The pattern a host is served by is a property of the set of patterns: the
    order in which a configuration lists them, or repeats them, never matters. *)
Theorem best_pattern_set_only (ps qs : list string) (host : string)
    (Hset : ∀ p, p ∈ ps ↔ p ∈ qs) :
  best_matching_server_name_pattern ps host = best_matching_server_name_pattern qs host.
Proof.
  destruct (best_matching_server_name_pattern ps host) as [[p m]|] eqn:Hp,
    (best_matching_server_name_pattern qs host) as [[q n]|] eqn:Hq.
  - apply best_pattern_Some in Hp as (Hpi & Hpm & Hpall).
    apply best_pattern_Some in Hq as (Hqi & Hqm & Hqall).
    assert (Heq : p = q).
    { apply (pattern_le_antisym (p, m) (q, n)); [apply Hqall|apply Hpall]; try done;
        by apply Hset. }
    subst. congruence.
  - apply best_pattern_Some in Hp as (Hpi & Hpm & _). rewrite best_pattern_None in Hq.
    rewrite Hq in Hpm; [done|by apply Hset].
  - apply best_pattern_Some in Hq as (Hqi & Hqm & _). rewrite best_pattern_None in Hp.
    rewrite Hp in Hqm; [done|by apply Hset].
  - done.
Qed.

Lemma best_pattern_set_only_witness :
  best_matching_server_name_pattern ["*.example.com"; "api.example.com"] "API.example.com:443" =
  Some ("api.example.com", Exact) ∧
  best_matching_server_name_pattern ["*.example.com"; "api.example.com"] "API.example.com:443" =
  best_matching_server_name_pattern ["api.example.com"; "*.example.com"] "API.example.com:443".
Proof.
  split; [by vm_compute|].
  apply best_pattern_set_only. intros p. set_solver.
Defined.
