(* ===== verification/Upstream.v ===== *)
(** * Upstreams: peers, weights and load balancing

    Models [crates/rginx-core/src/config/upstream/types.rs] (the data) and
    [upstream/selection.rs] (weighted round robin over an atomic cursor and
    IP-hash affinity, each within the primary or the backup pool). *)

From S2P Require Import Prelude RustStr External.

(** ** Data *)

(** Source: crates/rginx-core/src/config/tls.rs:33-36 (TlsVersion) *)
Inductive TlsVersion : Type := Tls12 | Tls13.

(** Source: crates/rginx-core/src/config/upstream/types.rs:4-10 (ActiveHealthCheck) *)
Record ActiveHealthCheck : Type := mkActiveHealthCheck {
  ahc_path : string;
  ahc_grpc_service : option string;
  ahc_interval : Z;
  ahc_timeout : Z;
  ahc_healthy_successes_required : Z;
}.

(** Source: crates/rginx-core/src/config/upstream/types.rs:13-19 (UpstreamProtocol) *)
Inductive UpstreamProtocol : Type :=
| ProtoAuto | ProtoHttp1 | ProtoHttp2 | ProtoH2c | ProtoHttp3.

(** Source: crates/rginx-core/src/config/upstream/types.rs:22-30 (UpstreamProtocol::as_str) *)
Definition protocol_as_str (p : UpstreamProtocol) : string :=
  match p with
  | ProtoAuto => "auto"
  | ProtoHttp1 => "http1"
  | ProtoHttp2 => "http2"
  | ProtoH2c => "h2c"
  | ProtoHttp3 => "http3"
  end.

(** Source: crates/rginx-core/src/config/upstream/types.rs:34-38 (UpstreamLoadBalance) *)
Inductive UpstreamLoadBalance : Type := RoundRobin | IpHash | LeastConn.

#[export] Instance UpstreamLoadBalance_eq_dec : EqDecision UpstreamLoadBalance.
Proof. solve_decision. Defined.

(** Source: crates/rginx-core/src/config/upstream/types.rs:41-47 (UpstreamLoadBalance::as_str) *)
Definition load_balance_as_str (lb : UpstreamLoadBalance) : string :=
  match lb with
  | RoundRobin => "round_robin"
  | IpHash => "ip_hash"
  | LeastConn => "least_conn"
  end.

(** Durations are milliseconds; socket addresses are their text. *)
(** Source: crates/rginx-core/src/config/upstream/types.rs:51-60 (UpstreamDnsPolicy) *)
Record UpstreamDnsPolicy : Type := mkUpstreamDnsPolicy {
  dns_resolver_addrs : list string;
  dns_min_ttl : Z;
  dns_max_ttl : Z;
  dns_negative_ttl : Z;
  dns_stale_if_error : Z;
  dns_refresh_before_expiry : Z;
  dns_prefer_ipv4 : bool;
  dns_prefer_ipv6 : bool;
}.

(** Source: crates/rginx-core/src/config/upstream/types.rs:63-74 (UpstreamDnsPolicy::default) *)
Definition dns_policy_default : UpstreamDnsPolicy := {|
  dns_resolver_addrs := [];
  dns_min_ttl := 5 * 1000;
  dns_max_ttl := 300 * 1000;
  dns_negative_ttl := 30 * 1000;
  dns_stale_if_error := 60 * 1000;
  dns_refresh_before_expiry := 10 * 1000;
  dns_prefer_ipv4 := false;
  dns_prefer_ipv6 := false;
|}.

(** Source: crates/rginx-core/src/config/upstream/types.rs:148-152 (UpstreamTls) *)
Inductive UpstreamTls : Type :=
| NativeRoots
| CustomCa (ca_cert_path : string)
| Insecure.

(** Source: crates/rginx-core/src/config/upstream/types.rs:78-103 (UpstreamSettings) *)
Record UpstreamSettings : Type := mkUpstreamSettings {
  set_protocol : UpstreamProtocol;
  set_load_balance : UpstreamLoadBalance;
  set_dns : UpstreamDnsPolicy;
  set_server_name : bool;
  set_server_name_override : option string;
  set_tls_versions : option (list TlsVersion);
  set_server_verify_depth : option Z;
  set_server_crl_path : option string;
  set_client_identity : option (string * string);
  set_request_timeout : Z;
  set_connect_timeout : Z;
  set_write_timeout : Z;
  set_idle_timeout : Z;
  set_pool_idle_timeout : option Z;
  set_pool_max_idle_per_host : Z;
  set_tcp_keepalive : option Z;
  set_tcp_nodelay : bool;
  set_http2_keep_alive_interval : option Z;
  set_http2_keep_alive_timeout : Z;
  set_http2_keep_alive_while_idle : bool;
  set_max_replayable_request_body_bytes : Z;
  set_unhealthy_after_failures : Z;
  set_unhealthy_cooldown : Z;
  set_active_health_check : option ActiveHealthCheck;
}.

(** Source: crates/rginx-core/src/config/upstream/types.rs:138-145 (UpstreamPeer) *)
Record UpstreamPeer : Type := mkUpstreamPeer {
  peer_url : string;
  peer_scheme : string;
  peer_authority : string;
  peer_weight : Z;
  peer_backup : bool;
  peer_max_conns : option Z;
}.

#[export] Instance UpstreamPeer_inhabited : Inhabited UpstreamPeer :=
  populate (mkUpstreamPeer "" "" "" 0 false None).

(** Source: crates/rginx-core/src/config/upstream/types.rs:106-135 (Upstream) *)
Record Upstream : Type := mkUpstream {
  up_name : string;
  up_peers : list UpstreamPeer;
  up_tls : UpstreamTls;
  up_protocol : UpstreamProtocol;
  up_load_balance : UpstreamLoadBalance;
  up_dns : UpstreamDnsPolicy;
  up_server_name : bool;
  up_server_name_override : option string;
  up_tls_versions : option (list TlsVersion);
  up_server_verify_depth : option Z;
  up_server_crl_path : option string;
  up_client_identity : option (string * string);
  up_request_timeout : Z;
  up_connect_timeout : Z;
  up_write_timeout : Z;
  up_idle_timeout : Z;
  up_pool_idle_timeout : option Z;
  up_pool_max_idle_per_host : Z;
  up_tcp_keepalive : option Z;
  up_tcp_nodelay : bool;
  up_http2_keep_alive_interval : option Z;
  up_http2_keep_alive_timeout : Z;
  up_http2_keep_alive_while_idle : bool;
  up_max_replayable_request_body_bytes : Z;
  up_unhealthy_after_failures : Z;
  up_unhealthy_cooldown : Z;
  up_active_health_check : option ActiveHealthCheck;
  up_cursor : Z;
}.

(** Source: crates/rginx-core/src/config/upstream/selection.rs:6-42 (Upstream::new) *)
Definition new_upstream (name : string) (peers : list UpstreamPeer) (tls : UpstreamTls)
    (settings : UpstreamSettings) : Upstream := {|
  up_name := name;
  up_peers := peers;
  up_tls := tls;
  up_protocol := set_protocol settings;
  up_load_balance := set_load_balance settings;
  up_dns := set_dns settings;
  up_server_name := set_server_name settings;
  up_server_name_override := set_server_name_override settings;
  up_tls_versions := set_tls_versions settings;
  up_server_verify_depth := set_server_verify_depth settings;
  up_server_crl_path := set_server_crl_path settings;
  up_client_identity := set_client_identity settings;
  up_request_timeout := set_request_timeout settings;
  up_connect_timeout := set_connect_timeout settings;
  up_write_timeout := set_write_timeout settings;
  up_idle_timeout := set_idle_timeout settings;
  up_pool_idle_timeout := set_pool_idle_timeout settings;
  up_pool_max_idle_per_host := set_pool_max_idle_per_host settings;
  up_tcp_keepalive := set_tcp_keepalive settings;
  up_tcp_nodelay := set_tcp_nodelay settings;
  up_http2_keep_alive_interval := set_http2_keep_alive_interval settings;
  up_http2_keep_alive_timeout := set_http2_keep_alive_timeout settings;
  up_http2_keep_alive_while_idle := set_http2_keep_alive_while_idle settings;
  up_max_replayable_request_body_bytes := set_max_replayable_request_body_bytes settings;
  up_unhealthy_after_failures := set_unhealthy_after_failures settings;
  up_unhealthy_cooldown := set_unhealthy_cooldown settings;
  up_active_health_check := set_active_health_check settings;
  up_cursor := 0;
|}.

(** [self.cursor] is an atomic: the only field a selection changes. *)
Definition set_cursor (c : Z) (u : Upstream) : Upstream := {|
  up_name := up_name u;
  up_peers := up_peers u;
  up_tls := up_tls u;
  up_protocol := up_protocol u;
  up_load_balance := up_load_balance u;
  up_dns := up_dns u;
  up_server_name := up_server_name u;
  up_server_name_override := up_server_name_override u;
  up_tls_versions := up_tls_versions u;
  up_server_verify_depth := up_server_verify_depth u;
  up_server_crl_path := up_server_crl_path u;
  up_client_identity := up_client_identity u;
  up_request_timeout := up_request_timeout u;
  up_connect_timeout := up_connect_timeout u;
  up_write_timeout := up_write_timeout u;
  up_idle_timeout := up_idle_timeout u;
  up_pool_idle_timeout := up_pool_idle_timeout u;
  up_pool_max_idle_per_host := up_pool_max_idle_per_host u;
  up_tcp_keepalive := up_tcp_keepalive u;
  up_tcp_nodelay := up_tcp_nodelay u;
  up_http2_keep_alive_interval := up_http2_keep_alive_interval u;
  up_http2_keep_alive_timeout := up_http2_keep_alive_timeout u;
  up_http2_keep_alive_while_idle := up_http2_keep_alive_while_idle u;
  up_max_replayable_request_body_bytes := up_max_replayable_request_body_bytes u;
  up_unhealthy_after_failures := up_unhealthy_after_failures u;
  up_unhealthy_cooldown := up_unhealthy_cooldown u;
  up_active_health_check := up_active_health_check u;
  up_cursor := c;
|}.

(** ** Hashing *)

Definition FNV_OFFSET : Z := 0xcbf29ce484222325.
Definition FNV_PRIME : Z := 0x100000001b3.

(** Source: crates/rginx-core/src/config/upstream/selection.rs:213-225 (stable_ip_hash) *)
Definition stable_ip_hash (client_ip : IpAddr) : Z :=
  foldl (λ hash byte, wrapping_mul64 (Z.lxor hash byte) FNV_PRIME) FNV_OFFSET
        (ip_octets client_ip).

(** ** Pools and weighted slots *)

(** Source: crates/rginx-core/src/config/upstream/selection.rs:148-154 (Upstream::peer_indices_for_pool) *)
Definition peer_indices_for_pool (u : Upstream) (backup : bool) : list nat :=
  omap (λ '(index, peer),
          if bool_decide (peer_backup peer = backup) then Some index else None)
       (enumerate (up_peers u)).

(** The weights behind a list of indices; every index the code uses comes from
    [peer_indices_for_pool], so it is in range. *)
Definition weights_at (u : Upstream) (peer_indices : list nat) : list Z :=
  map (λ index, peer_weight (up_peers u !!! index)) peer_indices.

(** Source: crates/rginx-core/src/config/upstream/selection.rs:156-158 (Upstream::total_weight_for_indices) *)
Definition total_weight_for_indices (u : Upstream) (peer_indices : list nat) : Z :=
  zsum (weights_at u peer_indices).

Fixpoint slot_position (position : nat) (offset : Z) (weights : list Z) (slot : Z)
    : option nat :=
  match weights with
  | [] => None
  | w :: weights =>
      let offset := offset + w in
      if slot <? offset then Some position
      else slot_position (S position) offset weights slot
  end.

(** Source: crates/rginx-core/src/config/upstream/selection.rs:195-210 (Upstream::peer_position_for_weighted_slot) *)
Definition peer_position_for_weighted_slot (u : Upstream) (peer_indices : list nat)
    (slot : Z) : option nat :=
  slot_position 0 0 (weights_at u peer_indices) slot.

(** One pass over the slots from [start]: positions in the order they are first
    met, stopping at [count].  [fuel] counts the remaining offsets. *)
(** Source: crates/rginx-core/src/config/upstream/selection.rs:171-189 (Upstream::weighted_peers_from_indices, the pass) *)
Fixpoint weighted_loop (position : Z → option nat) (total start : Z) (count : nat)
    (fuel : nat) (offset : Z) (seen : list bool) (selected : list nat) : list nat :=
  match fuel with
  | O => selected
  | S fuel =>
      match position ((start + offset) mod total) with
      | None => weighted_loop position total start count fuel (offset + 1) seen selected
      | Some p =>
          if default false (seen !! p)
          then weighted_loop position total start count fuel (offset + 1) seen selected
          else
            let seen := <[p := true]> seen in
            let selected := selected ++ [p] in
            if (length selected =? count)%nat then selected
            else weighted_loop position total start count fuel (offset + 1) seen selected
      end
  end.

(** Source: crates/rginx-core/src/config/upstream/selection.rs:160-193 (Upstream::weighted_peers_from_indices) *)
Definition weighted_peers_from_indices (u : Upstream) (peer_indices : list nat)
    (start : Z) (limit : nat) : list UpstreamPeer :=
  let total_weight := total_weight_for_indices u peer_indices in
  if total_weight =? 0 then []
  else
    let count := Nat.min limit (length peer_indices) in
    let positions :=
      weighted_loop (peer_position_for_weighted_slot u peer_indices) total_weight start
        count (Z.to_nat total_weight) 0 (replicate (length peer_indices) false) [] in
    map (λ position, up_peers u !!! (peer_indices !!! position)) positions.

(** ** Selection *)

(** The cursor is advanced with [fetch_add], which wraps. *)
(** Source: crates/rginx-core/src/config/upstream/selection.rs:86-103 (Upstream::next_peers_in_pool) *)
Definition next_peers_in_pool (u : Upstream) (limit : nat) (backup : bool)
    : list UpstreamPeer * Upstream :=
  let peer_indices := peer_indices_for_pool u backup in
  if (length peer_indices =? 0)%nat || (limit =? 0)%nat then ([], u)
  else
    let total_weight := total_weight_for_indices u peer_indices in
    if total_weight =? 0 then
      (map (λ index, up_peers u !!! index) (take limit peer_indices), u)
    else
      let start := up_cursor u mod total_weight in
      (weighted_peers_from_indices u peer_indices start limit,
       set_cursor (wrap64 (up_cursor u + 1)) u).

(** Source: crates/rginx-core/src/config/upstream/selection.rs:48-51 (Upstream::next_peers) *)
Definition next_peers (u : Upstream) (limit : nat) : list UpstreamPeer * Upstream :=
  let '(primary, u) := next_peers_in_pool u limit false in
  match primary with
  | [] => next_peers_in_pool u limit true
  | _ => (primary, u)
  end.

(** Source: crates/rginx-core/src/config/upstream/selection.rs:44-46 (Upstream::next_peer) *)
Definition next_peer (u : Upstream) : option UpstreamPeer * Upstream :=
  let '(peers, u) := next_peers u 1 in (head peers, u).

(** Source: crates/rginx-core/src/config/upstream/selection.rs:53-55 (Upstream::primary_next_peers) *)
Definition primary_next_peers (u : Upstream) (limit : nat) := next_peers_in_pool u limit false.
(** Source: crates/rginx-core/src/config/upstream/selection.rs:57-59 (Upstream::backup_next_peers) *)
Definition backup_next_peers (u : Upstream) (limit : nat) := next_peers_in_pool u limit true.

(** Source: crates/rginx-core/src/config/upstream/selection.rs:61-63 (Upstream::has_primary_peers) *)
Definition has_primary_peers (u : Upstream) : bool :=
  existsb (λ peer, negb (peer_backup peer)) (up_peers u).

(** Source: crates/rginx-core/src/config/upstream/selection.rs:125-146 (Upstream::ip_hash_peers_in_pool) *)
Definition ip_hash_peers_in_pool (u : Upstream) (client_ip : IpAddr) (limit : nat)
    (peer_indices : list nat) : list UpstreamPeer :=
  if (length peer_indices =? 0)%nat || (limit =? 0)%nat then []
  else
    let total_weight := total_weight_for_indices u peer_indices in
    if total_weight =? 0 then
      map (λ index, up_peers u !!! index) (take limit peer_indices)
    else
      let start := stable_ip_hash client_ip mod total_weight in
      weighted_peers_from_indices u peer_indices start limit.

(** Source: crates/rginx-core/src/config/upstream/selection.rs:105-123 (Upstream::peers_for_client_ip_in_pool) *)
Definition peers_for_client_ip_in_pool (u : Upstream) (client_ip : IpAddr) (limit : nat)
    (backup : bool) : list UpstreamPeer * Upstream :=
  let peer_indices := peer_indices_for_pool u backup in
  if (length peer_indices =? 0)%nat || (limit =? 0)%nat then ([], u)
  else match up_load_balance u with
       | RoundRobin => next_peers_in_pool u limit backup
       | IpHash => (ip_hash_peers_in_pool u client_ip limit peer_indices, u)
       | LeastConn => next_peers_in_pool u limit backup
       end.

(** Source: crates/rginx-core/src/config/upstream/selection.rs:65-72 (Upstream::peers_for_client_ip) *)
Definition peers_for_client_ip (u : Upstream) (client_ip : IpAddr) (limit : nat)
    : list UpstreamPeer * Upstream :=
  let '(primary, u) := peers_for_client_ip_in_pool u client_ip limit false in
  match primary with
  | [] => peers_for_client_ip_in_pool u client_ip limit true
  | _ => (primary, u)
  end.

(** Source: crates/rginx-core/src/config/upstream/selection.rs:74-80 (Upstream::primary_peers_for_client_ip) *)
Definition primary_peers_for_client_ip (u : Upstream) (client_ip : IpAddr) (limit : nat) :=
  peers_for_client_ip_in_pool u client_ip limit false.
(** Source: crates/rginx-core/src/config/upstream/selection.rs:82-84 (Upstream::backup_peers_for_client_ip) *)
Definition backup_peers_for_client_ip (u : Upstream) (client_ip : IpAddr) (limit : nat) :=
  peers_for_client_ip_in_pool u client_ip limit true.

(** Weights are unsigned. *)
Definition weights_ok (u : Upstream) : Prop :=
  Forall (λ p, 0 ≤ peer_weight p) (up_peers u).

(** ** Slots partition the total weight *)

Lemma slot_position_spec weights pos off slot :
  Forall (λ w, 0 ≤ w) weights → off ≤ slot →
  match slot_position pos off weights slot with
  | Some p => (pos ≤ p)%nat ∧ ∃ w, weights !! (p - pos)%nat = Some w ∧
      off + zsum (take (p - pos) weights) ≤ slot < off + zsum (take (p - pos) weights) + w
  | None => off + zsum weights ≤ slot
  end.
Proof.
  revert pos off. induction weights as [|w ws IH]; intros pos off Hw Hoff; simpl; [lia|].
  inversion Hw; subst. destruct (slot <? off + w) eqn:Hs; boolify.
  - rewrite Nat.sub_diag. split; [done|]. exists w. simpl. split; [done|lia].
  - specialize (IH (S pos) (off + w) ltac:(done) Hs).
    destruct (slot_position _ _ _ _) as [p|]; [|lia].
    destruct IH as (Hp & w' & Hl & Hb). split; [lia|]. exists w'.
    replace (p - pos)%nat with (S (p - S pos)) by lia. simpl. split; [done|lia].
Qed.

Lemma zsum_take_mono ws p q :
  Forall (λ w, 0 ≤ w) ws → (p ≤ q)%nat → zsum (take p ws) ≤ zsum (take q ws).
Proof.
  revert p q. induction ws as [|w ws IH]; intros p q Hw Hpq; [by rewrite !take_nil|].
  inversion Hw; subst. destruct p as [|p], q as [|q]; simpl; [lia| |lia|].
  - assert (0 ≤ zsum (take q ws)) by (apply zsum_nonneg; by apply Forall_take). lia.
  - specialize (IH p q ltac:(done) ltac:(lia)). lia.
Qed.

Lemma zsum_take_S ws p w :
  ws !! p = Some w → zsum (take (S p) ws) = zsum (take p ws) + w.
Proof. intros H. rewrite (take_S_r _ _ _ H), zsum_app. simpl. lia. Qed.

Lemma zsum_take_le ws p : Forall (λ w, 0 ≤ w) ws → zsum (take p ws) ≤ zsum ws.
Proof.
  intros Hw. rewrite <-(take_drop p ws) at 2. rewrite zsum_app.
  assert (0 ≤ zsum (drop p ws)) by (apply zsum_nonneg; by apply Forall_drop). lia.
Qed.

(** The slots of position [p] are the half-open interval of its weight. *)
Lemma slot_position_iff ws slot p :
  Forall (λ w, 0 ≤ w) ws → 0 ≤ slot →
  slot_position 0 0 ws slot = Some p ↔
  ∃ w, ws !! p = Some w ∧ zsum (take p ws) ≤ slot < zsum (take p ws) + w.
Proof.
  intros Hw Hs. pose proof (slot_position_spec ws 0 0 slot Hw Hs) as Hspec.
  split.
  - intros Heq. rewrite Heq in Hspec. destruct Hspec as (_ & w & Hl & Hb).
    rewrite Nat.sub_0_r in *. exists w. split; [done|lia].
  - intros (w & Hl & Hb). destruct (slot_position 0 0 ws slot) as [q|].
    + destruct Hspec as (_ & w' & Hl' & Hb'). rewrite Nat.sub_0_r in *. f_equal.
      pose proof (zsum_take_S _ _ _ Hl). pose proof (zsum_take_S _ _ _ Hl').
      destruct (lt_eq_lt_dec p q) as [[Hlt|?]|Hlt]; [|done|]; exfalso.
      * pose proof (zsum_take_mono ws (S p) q Hw ltac:(lia)). lia.
      * pose proof (zsum_take_mono ws (S q) p Hw ltac:(lia)). lia.
    + pose proof (zsum_take_S _ _ _ Hl). pose proof (zsum_take_le ws (S p) Hw). lia.
Qed.

Lemma slot_position_lt ws slot p :
  Forall (λ w, 0 ≤ w) ws → 0 ≤ slot →
  slot_position 0 0 ws slot = Some p → (p < length ws)%nat.
Proof.
  intros Hw Hs (w & Hl & _)%slot_position_iff; [|done..]. by eapply lookup_lt_Some.
Qed.

Lemma slot_position_total ws slot :
  Forall (λ w, 0 ≤ w) ws → 0 ≤ slot < zsum ws → ∃ p, slot_position 0 0 ws slot = Some p.
Proof.
  intros Hw Hs. pose proof (slot_position_spec ws 0 0 slot Hw ltac:(lia)) as Hspec.
  destruct (slot_position 0 0 ws slot) as [p|]; [by exists p|lia].
Qed.

(** Every position of positive weight owns a slot. *)
Lemma slot_position_onto ws p w :
  Forall (λ w, 0 ≤ w) ws → ws !! p = Some w → 0 < w →
  ∃ slot, 0 ≤ slot < zsum ws ∧ slot_position 0 0 ws slot = Some p.
Proof.
  intros Hw Hl Hpos. exists (zsum (take p ws)).
  pose proof (zsum_take_S _ _ _ Hl). pose proof (zsum_take_le ws (S p) Hw).
  assert (0 ≤ zsum (take p ws)) by (apply zsum_nonneg; by apply Forall_take).
  split; [lia|]. apply slot_position_iff; [done|lia|]. exists w. split; [done|lia].
Qed.

(** ** The weighted pass *)

Definition positive_positions (ws : list Z) : list nat :=
  filter (λ p, 0 < ws !!! p) (seq 0 (length ws)).

Lemma elem_of_positive_positions ws p :
  p ∈ positive_positions ws ↔ ∃ w, ws !! p = Some w ∧ 0 < w.
Proof.
  unfold positive_positions. rewrite list_elem_of_filter, elem_of_seq. split.
  - intros [Hw Hp]. destruct (lookup_lt_is_Some_2 ws p) as [w Hl]; [lia|].
    rewrite (list_lookup_total_correct _ _ _ Hl) in Hw. by exists w.
  - intros (w & Hl & Hw). rewrite (list_lookup_total_correct _ _ _ Hl).
    apply lookup_lt_Some in Hl. split; [done|lia].
Qed.

Lemma NoDup_positive_positions ws : NoDup (positive_positions ws).
Proof. apply NoDup_filter, NoDup_seq. Qed.

Section WeightedPass.
  Context (ws : list Z) (start : Z) (count : nat).
  Context (Hws : Forall (λ w, 0 ≤ w) ws) (Hstart : 0 ≤ start < zsum ws).
Let position := slot_position 0 0 ws.

  (** The state of the pass after [offset] slots. *)
Record pass_inv (offset : Z) (seen : list bool) (selected : list nat) : Prop := {
    inv_offset : 0 ≤ offset;
    inv_len : length seen = length ws;
    inv_seen : ∀ p, seen !! p = Some true ↔ p ∈ selected;
    inv_nodup : NoDup selected;
    inv_positive : ∀ p, p ∈ selected → p ∈ positive_positions ws;
    inv_visited : ∀ o p, 0 ≤ o < offset →
      position ((start + o) mod zsum ws) = Some p → p ∈ selected;
    inv_count : (length selected < count)%nat;
    inv_first : ∀ p, 0 < offset → position start = Some p → head selected = Some p;
    inv_empty : offset = 0 → selected = [];
  }.

Record pass_result (r : list nat) : Prop := {
    res_nodup : NoDup r;
    res_positive : ∀ p, p ∈ r → p ∈ positive_positions ws;
    res_full : length r = count ∨
               ((length r < count)%nat ∧ ∀ p, p ∈ positive_positions ws → p ∈ r);
    res_first : ∀ p, position start = Some p → head r = Some p;
  }.

Lemma slot_in_range o : 0 ≤ (start + o) mod zsum ws < zsum ws.
  Proof. apply Z.mod_pos_bound. lia. Qed.

Lemma position_positive slot p :
    0 ≤ slot → position slot = Some p → p ∈ positive_positions ws.
  Proof.
    intros Hs (w & Hl & Hb)%slot_position_iff; [|done..].
    apply elem_of_positive_positions. exists w. split; [done|lia].
  Qed.

Lemma pass_inv_skip offset seen selected p :
    pass_inv offset seen selected →
    position ((start + offset) mod zsum ws) = Some p → p ∈ selected →
    pass_inv (offset + 1) seen selected.
  Proof.
    intros [] Hp Hin. split; try done; try lia.
    - intros o q Ho Hq. destruct (decide (o = offset)) as [->|]; [congruence|].
      apply (inv_visited0 o); [lia|done].
    - intros q _ Hq. destruct (decide (offset = 0)) as [->|].
      + rewrite inv_empty0 in Hin by done. by apply not_elem_of_nil in Hin.
      + apply inv_first0; [lia|done].
  Qed.

Lemma pass_inv_push offset seen selected p :
    pass_inv offset seen selected →
    position ((start + offset) mod zsum ws) = Some p → p ∉ selected →
    length (selected ++ [p]) ≠ count →
    pass_inv (offset + 1) (<[p := true]> seen) (selected ++ [p]).
  Proof.
    intros [] Hp Hnin Hne. pose proof (slot_in_range offset) as Hr.
    assert (Hlt : (p < length seen)%nat).
    { rewrite inv_len0. eapply slot_position_lt; [done| |done]. lia. }
    split.
    - lia.
    - by rewrite length_insert.
    - intros q. rewrite elem_of_app, list_elem_of_singleton.
      destruct (decide (p = q)) as [->|Hpq].
      + rewrite list_lookup_insert_eq by done. naive_solver.
      + rewrite list_lookup_insert_ne by done. rewrite inv_seen0. naive_solver.
    - apply NoDup_app. split_and!; [done| |apply NoDup_singleton]. set_solver.
    - intros q. rewrite elem_of_app, list_elem_of_singleton.
      intros [Hq| ->]; [by apply inv_positive0|].
      eapply position_positive; [|done]. lia.
    - intros o q Ho Hq. destruct (decide (o = offset)) as [->|]; [set_solver|].
      apply elem_of_app. left. apply (inv_visited0 o); [lia|done].
    - rewrite length_app in *. simpl in *. lia.
    - intros q _ Hq. destruct (decide (offset = 0)) as [->|].
      + rewrite inv_empty0 by done. rewrite Z.add_0_r, Z.mod_small in Hp by lia.
        simpl. congruence.
      + assert (Hh : head selected = Some q) by (apply inv_first0; [lia|done]).
        by destruct selected.
    - lia.
  Qed.

Lemma pass_push_full offset seen selected p :
    pass_inv offset seen selected →
    position ((start + offset) mod zsum ws) = Some p → p ∉ selected →
    length (selected ++ [p]) = count → pass_result (selected ++ [p]).
  Proof.
    intros [] Hp Hnin Hcount. pose proof (slot_in_range offset) as Hr. split.
    - apply NoDup_app. split_and!; [done| |apply NoDup_singleton]. set_solver.
    - intros q. rewrite elem_of_app, list_elem_of_singleton.
      intros [Hq| ->]; [by apply inv_positive0|]. eapply position_positive; [|done]. lia.
    - by left.
    - intros q Hq. destruct (decide (offset = 0)) as [->|].
      + rewrite inv_empty0 by done. rewrite Z.add_0_r, Z.mod_small in Hp by lia.
        simpl. congruence.
      + assert (Hh : head selected = Some q) by (apply inv_first0; [lia|done]).
        by destruct selected.
  Qed.

Lemma pass_done seen selected : pass_inv (zsum ws) seen selected → pass_result selected.
  Proof.
    intros []. split; try done.
    - right. split; [done|]. intros p (w & Hl & Hw)%elem_of_positive_positions.
      destruct (slot_position_onto ws p w Hws Hl Hw) as (slot & Hs & Hp).
      apply (inv_visited0 ((slot - start) mod zsum ws)).
      + apply Z.mod_pos_bound. lia.
      + rewrite Z.add_mod_idemp_r by lia.
        replace (start + (slot - start)) with slot by lia. by rewrite Z.mod_small.
    - intros p Hp. apply inv_first0; [lia|done].
  Qed.

Lemma weighted_loop_result fuel offset seen selected :
    pass_inv offset seen selected → offset + Z.of_nat fuel = zsum ws →
    pass_result (weighted_loop position (zsum ws) start count fuel offset seen selected).
  Proof.
    revert offset seen selected.
    induction fuel as [|fuel IH]; intros offset seen selected Hinv Hfuel; cbn [weighted_loop].
    - apply (pass_done seen). by replace (zsum ws) with offset by lia.
    - destruct (slot_position_total ws ((start + offset) mod zsum ws) Hws
        (slot_in_range offset)) as [p Hp].
      change (slot_position 0 0 ws) with position in Hp. rewrite Hp.
      destruct (default false (seen !! p)) eqn:Hseen.
      + apply IH; [|lia]. eapply pass_inv_skip; [done..|]. apply (inv_seen _ _ _ Hinv).
        by destruct (seen !! p) as [[]|].
      + assert (p ∉ selected).
        { intros Hin. apply (inv_seen _ _ _ Hinv) in Hin. by rewrite Hin in Hseen. }
        destruct (Nat.eqb_spec (length (selected ++ [p])) count) as [Heq|Hne].
        * by eapply pass_push_full.
        * apply IH; [by apply pass_inv_push|lia].
  Qed.

Lemma weighted_loop_spec :
    (0 < count)%nat →
    pass_result (weighted_loop position (zsum ws) start count (Z.to_nat (zsum ws)) 0
                   (replicate (length ws) false) []).
  Proof.
    intros Hc. apply weighted_loop_result; [|lia].
    split; try first [done|lia|by rewrite length_replicate|apply NoDup_nil_2|set_solver].
    intros p. rewrite lookup_replicate. set_solver.
  Qed.
End WeightedPass.

Lemma pass_result_length ws start count r :
  pass_result ws start count r →
  length r = Nat.min count (length (positive_positions ws)).
Proof.
  intros [Hnd Hpos Hfull _].
  assert (length r ≤ length (positive_positions ws))%nat.
  { apply submseteq_length, NoDup_submseteq; [done|]. intros p. apply Hpos. }
  destruct Hfull as [Heq|[Hlt Hall]]; [lia|].
  assert (length (positive_positions ws) ≤ length r)%nat; [|lia].
  apply submseteq_length, NoDup_submseteq; [apply NoDup_positive_positions|].
  intros p. apply Hall.
Qed.

Lemma elem_of_peer_indices u backup i :
  i ∈ peer_indices_for_pool u backup ↔
  ∃ p, up_peers u !! i = Some p ∧ peer_backup p = backup.
Proof.
  unfold peer_indices_for_pool. rewrite list_elem_of_omap. split.
  - intros ([j p] & Hin%elem_of_enumerate & Hj). case_bool_decide; naive_solver.
  - intros (p & Hl & Hb). exists (i, p). split; [by apply elem_of_enumerate|].
    by rewrite bool_decide_eq_true_2.
Qed.

Lemma omap_enumerate_lb (f : UpstreamPeer → bool) n l :
  Forall (λ i, n ≤ i)%nat (omap (λ '(i, p), if f p then Some i else None) (enumerate_from n l)).
Proof.
  revert n. induction l as [|p l IH]; intros n; simpl; [constructor|].
  assert (Forall (λ i, n ≤ i)%nat
    (omap (λ '(i, p), if f p then Some i else None) (enumerate_from (S n) l))).
  { eapply Forall_impl; [apply IH|]. simpl. lia. }
  destruct (f p); [constructor; [lia|done]|done].
Qed.

Lemma NoDup_peer_indices u backup : NoDup (peer_indices_for_pool u backup).
Proof.
  unfold peer_indices_for_pool, enumerate. generalize 0%nat as n.
  induction (up_peers u) as [|p l IH]; intros n; [apply NoDup_nil_2|].
  cbn [enumerate_from omap list_omap]. case_bool_decide; [|apply IH].
  apply NoDup_cons_2; [|apply IH]. intros Hin.
  pose proof (omap_enumerate_lb (λ p, bool_decide (peer_backup p = backup)) (S n) l) as Hlb.
  rewrite Forall_forall in Hlb. apply Hlb in Hin. lia.
Qed.

Lemma weights_at_nonneg u backup :
  weights_ok u → Forall (λ w, 0 ≤ w) (weights_at u (peer_indices_for_pool u backup)).
Proof.
  intros Hw. unfold weights_at. rewrite Forall_map. apply Forall_forall.
  intros i (p & Hp & _)%elem_of_peer_indices. simpl.
  rewrite (list_lookup_total_correct _ _ _ Hp). unfold weights_ok in Hw.
  rewrite Forall_forall in Hw. apply Hw. by eapply list_elem_of_lookup_2.
Qed.

Lemma length_weights_at u js : length (weights_at u js) = length js.
Proof. apply length_map. Qed.

Lemma lookup_weights_at u js p :
  weights_at u js !! p = (λ i, peer_weight (up_peers u !!! i)) <$> (js !! p).
Proof. apply list_lookup_fmap. Qed.

(** The pool members a weighted pass can select. *)
Definition eligible (u : Upstream) (backup : bool) : list nat :=
  filter (λ i, 0 < peer_weight (up_peers u !!! i)) (peer_indices_for_pool u backup).

Lemma length_positive_positions u js :
  length (positive_positions (weights_at u js)) =
  length (filter (λ i, 0 < peer_weight (up_peers u !!! i)) js).
Proof.
  unfold positive_positions. induction js as [|i js IH] using rev_ind; [done|].
  rewrite length_weights_at, length_app in *. simpl.
  rewrite Nat.add_1_r, seq_S, !filter_app, !length_app. f_equal.
  - rewrite <-IH. f_equal. apply list_filter_ext_in.
    intros p [_ Hp]%elem_of_seq. simpl in Hp.
    rewrite !list_lookup_total_alt, !lookup_weights_at, lookup_app_l by lia. done.
  - rewrite !filter_cons. simpl. rewrite list_lookup_total_alt, lookup_weights_at.
    rewrite lookup_app_r, Nat.sub_diag by lia. simpl. by case_decide.
Qed.

(** [weighted_peers_from_indices] as a list of distinct, eligible indices. *)
Lemma weighted_peers_indices u backup start limit :
  let js := peer_indices_for_pool u backup in
  let total := total_weight_for_indices u js in
  weights_ok u → 0 ≤ start < total → (0 < limit)%nat →
  ∃ ps, pass_result (weights_at u js) start (Nat.min limit (length js)) ps ∧
    weighted_peers_from_indices u js start limit =
    map (λ p, up_peers u !!! (js !!! p)) ps.
Proof.
  intros js total Hw Hstart Hlimit. unfold weighted_peers_from_indices.
  fold total. destruct (Z.eqb_spec total 0) as [|_]; [lia|].
  eexists; split; [|reflexivity].
  unfold total, total_weight_for_indices in *.
  rewrite <-(length_weights_at u js). apply weighted_loop_spec.
  - by apply weights_at_nonneg.
  - done.
  - rewrite length_weights_at. destruct js; [simpl in *; lia|simpl; lia].
Qed.

(** ** A whole pool *)

Lemma omap_enumerate_filter (b : bool) n (l k : list UpstreamPeer) :
  (∀ i p, l !! i = Some p → k !! (n + i)%nat = Some p) →
  map (λ i, k !!! i) (omap (λ '(index, peer),
    if bool_decide (peer_backup peer = b) then Some index else None) (enumerate_from n l)) =
  filter (λ p, peer_backup p = b) l.
Proof.
  revert n. induction l as [|p l IH]; intros n Hk; [done|].
  cbn [enumerate_from omap list_omap]. rewrite filter_cons.
  assert (Hl : ∀ i q, l !! i = Some q → k !! (S n + i)%nat = Some q).
  { intros i q Hi. replace (S n + i)%nat with (n + S i)%nat by lia. by apply (Hk (S i)). }
  specialize (IH (S n) Hl). case_bool_decide; [rewrite decide_True by done|by rewrite decide_False].
  cbn [map]. rewrite IH. f_equal. specialize (Hk 0%nat p eq_refl). rewrite Nat.add_0_r in Hk.
  by apply list_lookup_total_correct.
Qed.

Lemma pool_filter u b :
  map (λ i, up_peers u !!! i) (peer_indices_for_pool u b) = filter (λ p, peer_backup p = b) (up_peers u).
Proof. by apply omap_enumerate_filter. Qed.

(** With positive weights a pass over a pool orders all of it. *)
Lemma weighted_pass_perm u b start limit :
  Forall (λ p, 0 < peer_weight p) (up_peers u) →
  0 ≤ start < total_weight_for_indices u (peer_indices_for_pool u b) →
  (length (up_peers u) ≤ limit)%nat →
  weighted_peers_from_indices u (peer_indices_for_pool u b) start limit ≡ₚ
    filter (λ p, peer_backup p = b) (up_peers u).
Proof.
  intros Hw Hstart Hlimit. rewrite <-pool_filter. set (js := peer_indices_for_pool u b) in *.
  assert (weights_ok u) as Hok by (eapply Forall_impl; [exact Hw|]; cbn; lia).
  assert (Hlen : (length js ≤ length (up_peers u))%nat).
  { transitivity (length (filter (λ p, peer_backup p = b) (up_peers u))).
    - unfold js. rewrite <-pool_filter, length_map. done.
    - apply length_filter. }
  assert (Hjs : js ≠ []).
  { intros Hnil. rewrite Hnil in Hstart. cbn in Hstart. lia. }
  destruct (weighted_peers_indices u b start limit Hok Hstart) as (ps & Hres & Heq).
  { destruct js; [done|cbn in Hlen; lia]. }
  fold js in Hres, Heq. rewrite Heq.
  assert (Hall : positive_positions (weights_at u js) = seq 0 (length js)).
  { unfold positive_positions. rewrite length_weights_at.
    assert (Forall (λ p, 0 < weights_at u js !!! p) (seq 0 (length js))) as Hpos.
    { apply Forall_forall. intros p [_ Hp]%elem_of_seq. cbn in Hp.
      destruct (lookup_lt_is_Some_2 js p Hp) as [i Hi].
      rewrite (list_lookup_total_correct (weights_at u js) p (peer_weight (up_peers u !!! i)))
        by (by rewrite lookup_weights_at, Hi).
      assert (i ∈ peer_indices_for_pool u b) as Hin by (by eapply list_elem_of_lookup_2).
      apply elem_of_peer_indices in Hin as (q & Hq & _). rewrite Forall_forall in Hw.
      rewrite (list_lookup_total_correct _ _ _ Hq). apply Hw. by eapply list_elem_of_lookup_2. }
    induction Hpos as [|p l Hp _ IH]; [done|]. rewrite filter_cons, decide_True by done. by rewrite IH. }
  assert (Hps : ps ≡ₚ seq 0 (length js)).
  { apply submseteq_length_Permutation; [|].
    - apply NoDup_submseteq; [apply Hres|]. intros p Hp%(res_positive _ _ _ _ Hres). by rewrite Hall in Hp.
    - rewrite (pass_result_length _ _ _ _ Hres), Hall, length_seq. lia. }
  rewrite Hps. apply reflexive_eq. change (λ i, up_peers u !!! i) with (λ i, up_peers u !!! i).
  transitivity (map (λ i, up_peers u !!! i) (map (λ p, js !!! p) (seq 0 (length js)))).
  { by rewrite map_map. }
  f_equal. apply list_eq. intros i. rewrite list_lookup_fmap.
  destruct (decide (i < length js)%nat) as [Hi|Hi].
  - rewrite lookup_seq_lt by done. cbn. destruct (lookup_lt_is_Some_2 js i Hi) as [j Hj].
    by rewrite (list_lookup_total_correct _ _ _ Hj).
  - rewrite lookup_seq_ge by lia. cbn. symmetry. apply lookup_ge_None. lia.
Qed.

(** Choosing for a client orders the whole pool, and only moves the cursor. *)
Lemma peers_for_client_perm u ip b :
  Forall (λ p, 0 < peer_weight p) (up_peers u) →
  let '(ordered, u') := peers_for_client_ip_in_pool u ip (length (up_peers u)) b in
  ordered ≡ₚ filter (λ p, peer_backup p = b) (up_peers u) ∧
  up_peers u' = up_peers u ∧ up_name u' = up_name u.
Proof.
  intros Hw. unfold peers_for_client_ip_in_pool.
  destruct (peer_indices_for_pool u b) as [|j js] eqn:Hjs.
  { cbn. split; [|done]. rewrite <-pool_filter, Hjs. done. }
  assert (Hne : (length (up_peers u) =? 0)%nat = false).
  { apply Nat.eqb_neq. assert (j ∈ peer_indices_for_pool u b) as Hin by (rewrite Hjs; by left).
    apply elem_of_peer_indices in Hin as (q & Hq & _). apply lookup_lt_Some in Hq. lia. }
  cbn [length Nat.eqb]. rewrite Hne. cbn [orb]. rewrite <-Hjs.
  assert (Hjs0 : (length (peer_indices_for_pool u b) =? 0)%nat = false) by (by rewrite Hjs).
  assert (Htotal : 0 < total_weight_for_indices u (peer_indices_for_pool u b)).
  { unfold total_weight_for_indices, weights_at. rewrite Hjs. cbn [map zsum foldr].
    assert (j ∈ peer_indices_for_pool u b) as Hin by (rewrite Hjs; by left).
    apply elem_of_peer_indices in Hin as (q & Hq & _).
    rewrite (list_lookup_total_correct _ _ _ Hq).
    rewrite Forall_forall in Hw. pose proof (Hw q ltac:(by eapply list_elem_of_lookup_2)).
    assert (0 ≤ foldr Z.add 0 (map (λ i, peer_weight (up_peers u !!! i)) js)); [|lia].
    apply (zsum_nonneg (map _ js)). apply Forall_map, Forall_forall. intros i Hi.
    assert (i ∈ peer_indices_for_pool u b) as Hin by (rewrite Hjs; by right).
    apply elem_of_peer_indices in Hin as (q' & Hq' & _).
    rewrite (list_lookup_total_correct _ _ _ Hq').
    pose proof (Hw q' ltac:(by eapply list_elem_of_lookup_2)). lia. }
  assert (Hnext : let '(ordered, u') := next_peers_in_pool u (length (up_peers u)) b in
    ordered ≡ₚ filter (λ p, peer_backup p = b) (up_peers u) ∧ up_peers u' = up_peers u ∧ up_name u' = up_name u).
  { unfold next_peers_in_pool. rewrite Hne, Hjs0. cbn [orb].
    destruct (Z.eqb_spec (total_weight_for_indices u (peer_indices_for_pool u b)) 0) as [|_]; [lia|].
    split; [|done]. apply weighted_pass_perm; [done|apply Z.mod_pos_bound; lia|done]. }
  destruct (up_load_balance u); [done| |done].
  split; [|done]. unfold ip_hash_peers_in_pool. rewrite Hne, Hjs0. cbn [orb].
  destruct (Z.eqb_spec (total_weight_for_indices u (peer_indices_for_pool u b)) 0) as [|_]; [lia|].
  apply weighted_pass_perm; [done|apply Z.mod_pos_bound; lia|done].
Qed.

(** C2.  A weighted selection from any start slot returns pairwise distinct
    members of the requested pool, all of positive weight, exactly
    [min limit (number of such members)] of them, and the first one is the
    owner of the start slot: nobody eligible is lost and nobody is repeated. *)
Theorem weighted_selection_complete (u : Upstream) (backup : bool) (start : Z) (limit : nat)
    (Hw : weights_ok u) (Hlimit : (0 < limit)%nat)
    (Hstart : 0 ≤ start < total_weight_for_indices u (peer_indices_for_pool u backup)) :
  ∃ selected : list nat,
    weighted_peers_from_indices u (peer_indices_for_pool u backup) start limit =
      map (λ i, up_peers u !!! i) selected ∧
    NoDup selected ∧
    (∀ i, i ∈ selected → i ∈ eligible u backup) ∧
    length selected = Nat.min limit (length (eligible u backup)) ∧
    head selected =
      (λ p, peer_indices_for_pool u backup !!! p) <$>
        peer_position_for_weighted_slot u (peer_indices_for_pool u backup) start.
Proof.
  destruct (weighted_peers_indices u backup start limit Hw Hstart Hlimit) as (ps & Hres & ->).
  set (js := peer_indices_for_pool u backup) in *.
  exists (map (λ p, js !!! p) ps).
  assert (Hin : ∀ p, p ∈ ps → ∃ i, js !! p = Some i ∧ 0 < peer_weight (up_peers u !!! i)).
  { intros p Hp%(res_positive _ _ _ _ Hres).
    apply elem_of_positive_positions in Hp as (w & Hl & Hpos).
    rewrite lookup_weights_at in Hl. apply fmap_Some in Hl as (i & Hi & ->). by exists i. }
  split_and!.
  - by rewrite map_map.
  - apply NoDup_fmap_2_strong; [|apply Hres].
    intros p q Hp Hq Heq. destruct (Hin p Hp) as (i & Hi & _), (Hin q Hq) as (j & Hj & _).
    rewrite (list_lookup_total_correct _ _ _ Hi), (list_lookup_total_correct _ _ _ Hj) in Heq.
    subst. eapply NoDup_lookup; [apply NoDup_peer_indices|done..].
  - intros i (p & -> & Hp)%list_elem_of_fmap. destruct (Hin p Hp) as (i & Hi & Hpos).
    rewrite (list_lookup_total_correct _ _ _ Hi). apply list_elem_of_filter.
    split; [done|]. by eapply list_elem_of_lookup_2.
  - rewrite length_map, (pass_result_length _ _ _ _ Hres), length_positive_positions.
    unfold eligible. fold js. pose proof (length_filter (λ i, 0 < peer_weight (up_peers u !!! i)) js).
    lia.
  - unfold peer_position_for_weighted_slot.
    destruct (slot_position_total (weights_at u js) start) as [p Hp]; [|done|].
    { by apply weights_at_nonneg. }
    rewrite Hp. simpl. pose proof (res_first _ _ _ _ Hres p Hp). by destruct ps; simplify_eq/=.
Qed.

Definition demo_peer (url : string) (weight : Z) (backup : bool) : UpstreamPeer :=
  mkUpstreamPeer url "http" url weight backup None.

Definition demo_upstream : Upstream :=
  new_upstream "backend"
    [demo_peer "a" 3 false; demo_peer "spare" 1 true; demo_peer "b" 1 false] NativeRoots
    {| set_protocol := ProtoAuto; set_load_balance := RoundRobin; set_dns := dns_policy_default;
       set_server_name := true; set_server_name_override := None; set_tls_versions := None;
       set_server_verify_depth := None; set_server_crl_path := None;
       set_client_identity := None; set_request_timeout := 30000;
       set_connect_timeout := 30000; set_write_timeout := 30000; set_idle_timeout := 30000;
       set_pool_idle_timeout := None; set_pool_max_idle_per_host := 32;
       set_tcp_keepalive := None; set_tcp_nodelay := true;
       set_http2_keep_alive_interval := None; set_http2_keep_alive_timeout := 20000;
       set_http2_keep_alive_while_idle := false;
       set_max_replayable_request_body_bytes := 65536; set_unhealthy_after_failures := 2;
       set_unhealthy_cooldown := 10000; set_active_health_check := None |}.

Lemma weighted_selection_complete_witness :
  weighted_peers_from_indices demo_upstream [0%nat; 2%nat] 3 2 =
    [demo_peer "b" 1 false; demo_peer "a" 3 false] ∧
  ∃ selected : list nat,
    weighted_peers_from_indices demo_upstream (peer_indices_for_pool demo_upstream false) 3 2 =
      map (λ i, up_peers demo_upstream !!! i) selected ∧
    NoDup selected ∧
    (∀ i, i ∈ selected → i ∈ eligible demo_upstream false) ∧
    length selected = Nat.min 2 (length (eligible demo_upstream false)) ∧
    head selected =
      (λ p, peer_indices_for_pool demo_upstream false !!! p) <$>
        peer_position_for_weighted_slot demo_upstream (peer_indices_for_pool demo_upstream false) 3.
Proof.
  split; [by vm_compute|].
  apply (weighted_selection_complete demo_upstream false 3 2).
  - repeat constructor; simpl; lia.
  - lia.
  - vm_compute. split; [discriminate|reflexivity].
Defined.

(** ** Fairness of one cursor cycle *)

(** [n] successive single-peer selections. *)
Fixpoint run_selections (n : nat) (u : Upstream) (backup : bool) : list (option UpstreamPeer) * Upstream :=
  match n with
  | O => ([], u)
  | S n =>
      let '(peers, u) := next_peers_in_pool u 1 backup in
      let '(rest, u) := run_selections n u backup in
      (head peers :: rest, u)
  end.

Lemma fmap_seqZ_shift (f : Z → Z) a b n :
  (∀ i, 0 ≤ i < n → f (a + i) = b + i) → f <$> seqZ a n = seqZ b n.
Proof.
  intros Hf. apply list_eq. intros i. rewrite list_lookup_fmap.
  destruct (decide (Z.of_nat i < n)).
  - rewrite !lookup_seqZ_lt by done. simpl. f_equal. apply Hf. lia.
  - by rewrite !lookup_seqZ_ge by lia.
Qed.

Lemma rotate_slots total c :
  0 < total → (λ k, (c + k) mod total) <$> seqZ 0 total ≡ₚ seqZ 0 total.
Proof.
  intros Ht. assert (Hr : 0 ≤ c mod total < total) by (apply Z.mod_pos_bound; lia).
  remember (c mod total) as r eqn:Er.
  assert (Hmod : ∀ k, (c + k) mod total = (r + k) mod total).
  { intros k. by rewrite Er, Z.add_mod_idemp_l by lia. }
  assert (Hsplit : seqZ 0 total = seqZ 0 (total - r) ++ seqZ (total - r) r).
  { rewrite <-(Z.add_0_l (total - r)) at 2. rewrite <-seqZ_app by lia. f_equal. lia. }
  rewrite Hsplit at 1. rewrite fmap_app.
  rewrite (fmap_seqZ_shift _ 0 r), (fmap_seqZ_shift _ (total - r) 0).
  - rewrite Permutation_app_comm. rewrite <-(Z.add_0_l r) at 2.
    rewrite <-seqZ_app by lia. by replace (r + (total - r)) with total by lia.
  - intros i Hi. rewrite Hmod. symmetry. apply (Z.mod_unique_pos _ _ 1); lia.
  - intros i Hi. rewrite Hmod, Z.mod_small by lia. lia.
Qed.

Lemma count_interval total a w (P : Z → Prop) `{!∀ z, Decision (P z)} :
  0 ≤ a → 0 ≤ w → a + w ≤ total → (∀ z, 0 ≤ z < total → P z ↔ a ≤ z < a + w) →
  length (filter P (seqZ 0 total)) = Z.to_nat w.
Proof.
  intros Ha Hw Hle HP.
  assert (Hin : ∀ z m n, z ∈ seqZ m n → m ≤ z < m + n).
  { intros z m n (i & Hi)%list_elem_of_lookup. apply lookup_seqZ in Hi. lia. }
  replace total with (a + (w + (total - a - w))) by lia.
  rewrite !seqZ_app, !filter_app, !length_app by lia.
  rewrite (list_filter_ext_in P (λ _, False) (seqZ 0 a)),
    (list_filter_ext_in P (λ _, True) (seqZ (0 + a) w)),
    (list_filter_ext_in P (λ _, False) (seqZ (0 + a + w) (total - a - w))).
  - rewrite (list_filter_all (λ _, True)) by done.
    rewrite !(list_filter_none (λ _, False)) by tauto. simpl. rewrite length_seqZ. lia.
  - intros z Hz%Hin. rewrite HP by lia. lia.
  - intros z Hz%Hin. rewrite HP by lia. lia.
  - intros z Hz%Hin. rewrite HP by lia. lia.
Qed.

(** Over one full turn of the slots, from any start, position [p] owns exactly
    as many slots as its weight. *)
Lemma slots_owned ws c p w :
  Forall (λ w, 0 ≤ w) ws → 0 < zsum ws → ws !! p = Some w →
  length (filter (λ o, o = Some p)
    ((λ k, slot_position 0 0 ws ((c + k) mod zsum ws)) <$> seqZ 0 (zsum ws))) = Z.to_nat w.
Proof.
  intros Hws Ht Hl.
  assert (Hp : (λ k, slot_position 0 0 ws ((c + k) mod zsum ws)) <$> seqZ 0 (zsum ws) ≡ₚ
               slot_position 0 0 ws <$> seqZ 0 (zsum ws)).
  { rewrite <-(rotate_slots (zsum ws) c Ht) at 2. by rewrite <-list_fmap_compose. }
  rewrite Hp, list_filter_fmap, length_fmap.
  pose proof (zsum_take_S _ _ _ Hl). pose proof (zsum_take_le ws (S p) Hws).
  assert (0 ≤ zsum (take p ws)) by (apply zsum_nonneg; by apply Forall_take).
  assert (0 ≤ w) by (rewrite Forall_forall in Hws; eapply Hws, list_elem_of_lookup_2; done).
  apply (count_interval (zsum ws) (zsum (take p ws)) w); [lia..|].
  intros z Hz. simpl. rewrite slot_position_iff by (done || lia). naive_solver lia.
Qed.

Lemma slots_owned_from ws c p w :
  Forall (λ w, 0 ≤ w) ws → 0 < zsum ws → ws !! p = Some w →
  length (filter (λ o, o = Some p)
    ((λ k, slot_position 0 0 ws (k mod zsum ws)) <$> seqZ c (zsum ws))) = Z.to_nat w.
Proof.
  intros Hws Ht Hl. rewrite <-(slots_owned ws c p w Hws Ht Hl). do 2 f_equal.
  rewrite <-(fmap_seqZ_shift (λ k, c + k) 0 c) by lia.
  by rewrite <-list_fmap_compose.
Qed.

Section RoundRobin.
  Context (u : Upstream) (backup : bool) (Hw : weights_ok u).
Let js := peer_indices_for_pool u backup.
Let ws := weights_at u js.
  Context (Htotal : 0 < zsum ws).

  (** The pool member that owns the slot of cursor value [c]. *)
Definition chosen_at (c : Z) : option nat := slot_position 0 0 ws (c mod zsum ws).

Lemma next_one c :
    is_u64 c →
    ∃ p, chosen_at c = Some p ∧ (p < length js)%nat ∧
      next_peers_in_pool (set_cursor c u) 1 backup =
        ([up_peers u !!! (js !!! p)], set_cursor (wrap64 (c + 1)) u).
  Proof.
    intros Hc. assert (Hr : 0 ≤ c mod zsum ws < zsum ws) by (apply Z.mod_pos_bound; lia).
    destruct (slot_position_total ws (c mod zsum ws)) as [p Hp]; [by apply weights_at_nonneg|done|].
    exists p. split; [done|]. split.
    { rewrite <-(length_weights_at u js). eapply slot_position_lt; [|apply Hr|done].
      by apply weights_at_nonneg. }
    unfold next_peers_in_pool. cbn [up_cursor set_cursor up_peers].
    change (peer_indices_for_pool (set_cursor c u) backup) with js.
    change (total_weight_for_indices (set_cursor c u) js) with (zsum ws).
    assert (Hjs : js ≠ []) by (intros Hnil; unfold ws in Htotal; rewrite Hnil in Htotal; simpl in *; lia).
    destruct (weighted_peers_indices u backup (c mod zsum ws) 1 Hw Hr ltac:(lia))
      as (ps & Hres & Heq).
    fold js in Hres, Heq. fold ws in Hres.
    change (weighted_peers_from_indices (set_cursor c u) js (c mod zsum ws) 1)
      with (weighted_peers_from_indices u js (c mod zsum ws) 1).
    destruct (Nat.eqb_spec (length js) 0) as [H0|_]; [by apply length_zero_iff_nil in H0|].
    destruct (Z.eqb_spec (zsum ws) 0) as [|_]; [lia|]. simpl. f_equal.
    rewrite Heq.
    assert (Hlen : (length ps ≤ 1)%nat) by (rewrite (pass_result_length _ _ _ _ Hres); lia).
    pose proof (res_first _ _ _ _ Hres p Hp) as Hhead.
    destruct ps as [|q [|]]; simplify_eq/=; done || lia.
  Qed.

Lemma run_selections_spec n c :
    0 ≤ c → c + Z.of_nat n < 2 ^ 64 →
    (run_selections n (set_cursor c u) backup).1 =
      (λ o, (λ p, up_peers u !!! (js !!! p)) <$> o) <$> (chosen_at <$> seqZ c (Z.of_nat n)) ∧
    (run_selections n (set_cursor c u) backup).2 = set_cursor (c + Z.of_nat n) u.
  Proof.
    revert c. induction n as [|n IH]; intros c Hc Hn.
    { simpl. by rewrite Z.add_0_r. }
    destruct (next_one c) as (p & Hp & _ & Hnext); [unfold is_u64; lia|].
    simpl. rewrite Hnext. rewrite wrap64_small by (unfold is_u64; lia).
    destruct (IH (c + 1)) as [IH1 IH2]; [lia..|].
    destruct (run_selections n _ backup) as [rest u']. simpl in *. subst.
    rewrite (seqZ_cons c) by lia. rewrite !fmap_cons, Hp. simpl. split.
    - replace (Z.pred (Z.of_nat (S n))) with (Z.of_nat n) by lia.
      by replace (Z.succ c) with (c + 1) by lia.
    - f_equal. lia.
  Qed.
End RoundRobin.

(** Weighted round robin is fair: in any [total_weight] consecutive
    single-peer selections (the cursor not wrapping in between) every selection
    yields a pool member, and the member at position [p] of the pool is yielded
    exactly as many times as its weight. *)
Theorem round_robin_fair (u : Upstream) (backup : bool)
    (Hw : weights_ok u) (Hc : 0 ≤ up_cursor u)
    (Htotal : 0 < total_weight_for_indices u (peer_indices_for_pool u backup))
    (Hwrap : up_cursor u + total_weight_for_indices u (peer_indices_for_pool u backup) < 2 ^ 64) :
  let js := peer_indices_for_pool u backup in
  ∃ chosen : list nat,
    (run_selections (Z.to_nat (total_weight_for_indices u js)) u backup).1 =
      map (λ p, Some (up_peers u !!! (js !!! p))) chosen ∧
    ∀ p i, js !! p = Some i →
      length (filter (λ q, q = p) chosen) = Z.to_nat (peer_weight (up_peers u !!! i)).
Proof.
  intros js. fold js in Htotal, Hwrap. set (total := total_weight_for_indices u js) in *.
  assert (Hu : u = set_cursor (up_cursor u) u) by (by destruct u).
  destruct (run_selections_spec u backup Hw Htotal (Z.to_nat total) (up_cursor u)) as [Hrun _];
    [done|rewrite Z2Nat.id by lia; lia|].
  rewrite <-Hu in Hrun. rewrite Hrun, Z2Nat.id by lia.
  set (os := chosen_at u backup <$> seqZ (up_cursor u) total).
  assert (Hall : Forall is_Some os).
  { apply Forall_fmap, Forall_forall. intros c _. simpl.
    apply slot_position_total; [by apply weights_at_nonneg|]. by apply Z.mod_pos_bound. }
  assert (Hos : os = Some <$> omap id os).
  { clearbody os. induction Hall as [|o os [p ->] _ IH]; [done|]. simpl. by f_equal. }
  exists (omap id os). split.
  - rewrite Hos at 1. by rewrite <-list_fmap_compose.
  - intros p i Hi.
    assert (Hl : weights_at u js !! p = Some (peer_weight (up_peers u !!! i)))
      by (by rewrite lookup_weights_at, Hi).
    rewrite <-(slots_owned_from (weights_at u js) (up_cursor u) p _
                 (weights_at_nonneg u backup Hw) Htotal Hl).
    change (_ <$> seqZ _ _) with os. rewrite Hos at 2.
    rewrite list_filter_fmap, length_fmap. f_equal. apply list_filter_ext_in. naive_solver.
Qed.

Lemma round_robin_fair_witness :
  (run_selections 4 demo_upstream false).1 =
    map Some [demo_peer "a" 3 false; demo_peer "a" 3 false; demo_peer "a" 3 false;
              demo_peer "b" 1 false] ∧
  let js := peer_indices_for_pool demo_upstream false in
  ∃ chosen : list nat,
    (run_selections (Z.to_nat (total_weight_for_indices demo_upstream js)) demo_upstream false).1 =
      map (λ p, Some (up_peers demo_upstream !!! (js !!! p))) chosen ∧
    ∀ p i, js !! p = Some i →
      length (filter (λ q, q = p) chosen) = Z.to_nat (peer_weight (up_peers demo_upstream !!! i)).
Proof.
  split; [by vm_compute|].
  apply (round_robin_fair demo_upstream false).
  - repeat constructor; simpl; lia.
  - simpl. lia.
  - by vm_compute.
  - by vm_compute.
Defined.
