(* ===== verification/Tls.v ===== *)
(** * TLS settings of servers

    The data of [crates/rginx-core/src/config/tls.rs] that listeners and virtual
    hosts carry; paths are strings.  [TlsVersion] is in Upstream.v. *)

From S2P Require Import Prelude RustStr Upstream.

(** Source: crates/rginx-core/src/config/tls.rs:4-9 (OcspNonceMode) *)
Inductive OcspNonceMode : Type := NonceDisabled | NoncePreferred | NonceRequired.

(** Source: crates/rginx-core/src/config/tls.rs:12-16 (OcspResponderPolicy) *)
Inductive OcspResponderPolicy : Type := IssuerOnly | IssuerOrDelegated.

(** Source: crates/rginx-core/src/config/tls.rs:19-22 (OcspConfig) *)
Record OcspConfig : Type := mkOcspConfig {
  ocsp_nonce : OcspNonceMode;
  ocsp_responder_policy : OcspResponderPolicy;
}.

(** [OcspConfig::default()]. *)
Definition ocsp_default : OcspConfig := mkOcspConfig NonceDisabled IssuerOrDelegated.

(** Source: crates/rginx-core/src/config/tls.rs:25-30 (ServerCertificateBundle) *)
Record ServerCertificateBundle : Type := mkCertificateBundle {
  scb_cert_path : string;
  scb_key_path : string;
  scb_ocsp_staple_path : option string;
  scb_ocsp : OcspConfig;
}.

(** Source: crates/rginx-core/src/config/tls.rs:39-49 (TlsCipherSuite) *)
Inductive TlsCipherSuite : Type :=
| Tls13Aes256GcmSha384 | Tls13Aes128GcmSha256 | Tls13Chacha20Poly1305Sha256
| TlsEcdheEcdsaWithAes256GcmSha384 | TlsEcdheEcdsaWithAes128GcmSha256
| TlsEcdheEcdsaWithChacha20Poly1305Sha256 | TlsEcdheRsaWithAes256GcmSha384
| TlsEcdheRsaWithAes128GcmSha256 | TlsEcdheRsaWithChacha20Poly1305Sha256.

(** Source: crates/rginx-core/src/config/tls.rs:52-60 (TlsKeyExchangeGroup) *)
Inductive TlsKeyExchangeGroup : Type :=
| X25519 | Secp256r1 | Secp384r1 | X25519Mlkem768 | Secp256r1Mlkem768 | Mlkem768 | Mlkem1024.

#[export] Instance TlsCipherSuite_eq_dec : EqDecision TlsCipherSuite.
Proof. solve_decision. Defined.
#[export] Instance TlsKeyExchangeGroup_eq_dec : EqDecision TlsKeyExchangeGroup.
Proof. solve_decision. Defined.

(** Source: crates/rginx-core/src/config/tls.rs:63-66 (ServerClientAuthMode) *)
Inductive ServerClientAuthMode : Type := AuthOptional | AuthRequired.

(** Source: crates/rginx-core/src/config/tls.rs:69-74 (ServerClientAuthPolicy) *)
Record ServerClientAuthPolicy : Type := mkClientAuth {
  sca_mode : ServerClientAuthMode;
  sca_ca_cert_path : string;
  sca_verify_depth : option Z;
  sca_crl_path : option string;
}.

(** Source: crates/rginx-core/src/config/tls.rs:83-89 (VirtualHostTls) *)
Record VirtualHostTls : Type := mkVhostTls {
  vht_cert_path : string;
  vht_key_path : string;
  vht_additional_certificates : list ServerCertificateBundle;
  vht_ocsp_staple_path : option string;
  vht_ocsp : OcspConfig;
}.

(** Source: crates/rginx-core/src/config/tls.rs:92-107 (ServerTls) *)
Record ServerTls : Type := mkServerTls {
  stl_cert_path : string;
  stl_key_path : string;
  stl_additional_certificates : list ServerCertificateBundle;
  stl_versions : option (list TlsVersion);
  stl_cipher_suites : option (list TlsCipherSuite);
  stl_key_exchange_groups : option (list TlsKeyExchangeGroup);
  stl_alpn_protocols : option (list string);
  stl_ocsp_staple_path : option string;
  stl_ocsp : OcspConfig;
  stl_session_resumption : option bool;
  stl_session_tickets : option bool;
  stl_session_cache_size : option Z;
  stl_session_ticket_count : option Z;
  stl_client_auth : option ServerClientAuthPolicy;
}.
