(* ===== verification/ConfigBase.v ===== *)
(** * Configuration: errors, checks and the compiler's interfaces

    Models [crates/rginx-core/src/error.rs], [crates/rginx-config/src/compile/path.rs]
    and [crates/rginx-config/src/listen.rs], and holds what every section of a
    configuration needs: the parsers of the crates the compiler calls, the file
    system it looks at, and the lemmas on chains of checks.

    The text of a foreign parser's error is given by [display_error] from what
    was parsed; the messages around it are the source's. *)

From S2P Require Import Prelude RustStr External.

(** ** Errors *)

(** Source: crates/rginx-core/src/error.rs:4-17 (Error) *)
Inductive Error : Type :=
| IoError (message : string)
| AddrParse (message : string)
| InvalidUri (message : string)
| InvalidStatusCode
| ConfigError (message : string)
| ServerError (message : string).

Notation "'fmt[' x ; .. ; y ']'" :=
  (str_concat (@cons string x%string .. (@cons string y%string (@nil string)) ..))
  (at level 0, x at level 99, y at level 99) : rginx_scope.
Notation "'fail[' x ; .. ; y ']'" :=
  (ConfigError (str_concat (@cons string x%string .. (@cons string y%string (@nil string)) ..)))
  (at level 0, x at level 99, y at level 99) : rginx_scope.

(** ** Interfaces *)

(** [http::Uri]. *)
Record Uri : Type := mkUri {
  uri_scheme : option string;
  uri_authority : option string;
  uri_path : string;
  uri_query : option string;
}.

Class ConfigApi {NET : IpNetApi} {RX : RegexApi} : Type := {
  (** [http]: [Uri], [PathAndQuery], [Method]. *)
  parse_uri : string → option Uri;
  path_and_query_ok : string → bool;
  parse_method : string → option string;
  (** [rustls]: is this a server name? *)
  tls_server_name_ok : string → bool;
  (** [ipnet] and [regex]. *)
  parse_ipnet : string → option IpNet;
  build_regex : string → bool → option Regex;
  (** The file system: is there a file at this path? *)
  path_is_file : string → bool;
  (** The text of the error of parsing the second argument as the first. *)
  display_error : string → string → string;
}.
Arguments ConfigApi : clear implicits.

(** ** [std::net::SocketAddr]: [a.b.c.d:port] or [[v6%scope]:port] *)

Definition read_port (s : string) : option (Z * string) :=
  strip_prefix ":" s ≫= (λ s, read_number 10 u16_max (String.length s) true s).

Definition read_scope_id (s : string) : option (Z * string) :=
  strip_prefix "%" s ≫= (λ s, read_number 10 u32_max (String.length s) true s).

Definition read_socket_v4 (s : string) : option (SocketAddr * string) :=
  '(octets, s) ← read_ipv4 s;
  '(port, s) ← read_port s;
  Some (mkSocketAddr (V4 octets) port, s).

Definition read_socket_v6 (s : string) : option (SocketAddr * string) :=
  s ← strip_prefix "[" s;
  '(octets, s) ← read_ipv6 s;
  let s := default s (snd <$> read_scope_id s) in
  s ← strip_prefix "]" s;
  '(port, s) ← read_port s;
  Some (mkSocketAddr (V6 octets) port, s).

(** The scope of an address is parsed and dropped: the model's addresses have
    none. *)
Definition socket_from_str (s : string) : option SocketAddr :=
  match read_socket_v4 s with
  | Some (addr, EmptyString) => Some addr
  | _ =>
      match read_socket_v6 s with
      | Some (addr, EmptyString) => Some addr
      | _ => None
      end
  end.

Definition addr_error : string := "invalid socket address syntax".

Example socket_addr_parse :
  map socket_from_str ["127.0.0.1:80"; "[::1]:443"; "127.0.0.1"; "[::1%3]:1"; "1.2.3.4:70000"; "::1:80"]%string =
  [Some (mkSocketAddr (V4 [127; 0; 0; 1]) 80);
   Some (mkSocketAddr (V6 [0; 0; 0; 0; 0; 0; 0; 0; 0; 0; 0; 0; 0; 0; 0; 1]) 443); None;
   Some (mkSocketAddr (V6 [0; 0; 0; 0; 0; 0; 0; 0; 0; 0; 0; 0; 0; 0; 0; 1]) 1); None; None].
Proof. by vm_compute. Qed.

(** ** Paths *)

(** [base.join(path)] for a relative [path]. *)
Definition path_join (base path : string) : string :=
  if str_is_empty base || ends_with "/" base then base +:+ path
  else base +:+ "/" +:+ path.

(** Source: crates/rginx-config/src/compile/path.rs:3-6 (resolve_path) *)
Definition resolve_path (base_dir path : string) : string :=
  if starts_with "/" path then path else path_join base_dir path.

(** ** Numbers *)

(** [usize::try_from(value)]: a [usize] has 64 bits. *)
Definition usize_try_from (value : Z) : option Z :=
  if value <=? u64_max then Some value else None.

Definition is_some_and {A} (p : A → bool) (o : option A) : bool :=
  match o with Some a => p a | None => false end.

Definition is_zero (o : option Z) : bool := is_some_and (Z.eqb 0) o.

Definition blank (s : string) : bool := str_is_empty (trim s).

Lemma dec_inj a b : 0 ≤ a → 0 ≤ b → dec a = dec b → a = b.
Proof.
  intros Ha Hb H. apply (f_equal (parse_uint (Z.max a b))) in H.
  rewrite !parse_uint_dec in H by lia. by injection H.
Qed.

(** [set.insert(x)]: the set, and whether [x] is new. *)
Definition hs_insert (x : string) (s : gset string) : bool * gset string :=
  (bool_decide (x ∉ s), {[x]} ∪ s).

(** ** Chains of checks *)

(** A [for] loop that carries a state through fallible steps. *)
Fixpoint try_fold {E S A} (f : S → A → result E S) (s : S) (l : list A) : result E S :=
  match l with
  | [] => Ok s
  | x :: l => let? s := f s x in try_fold f s l
  end.

(** Takes a successful computation apart: the checks it passed become
    equations of booleans, the results of its steps variables. *)
Ltac passed H :=
  lazymatch type of H with
  | rbind (reject _ _) _ = Ok _ =>
      let Hc := fresh "Hcheck" in
      apply rbind_unit in H as [Hc%reject_ok H]; passed H
  | rbind _ (λ _ : (), _) = Ok _ =>
      let Hc := fresh "Hstep" in
      apply rbind_ok in H as ([] & Hc & H); passed H
  | rbind _ _ = Ok _ =>
      let x := fresh "r" in let Hc := fresh "Hstep" in
      apply rbind_ok in H as (x & Hc & H); passed H
  | reject _ _ = Ok _ => apply reject_ok in H
  | _ => idtac
  end.

Lemma is_ok_true {E A} (m : result E A) : is_ok m = true → ∃ a, m = Ok a.
Proof. destruct m; [by eexists|done]. Qed.

Lemma ok_or_ok {E A} (o : option A) (e : E) a : ok_or o e = Ok a ↔ o = Some a.
Proof. destruct o; simpl; naive_solver. Qed.

Lemma rmap_ok {E A B} (f : A → B) (m : result E A) b : rmap f m = Ok b ↔ ∃ a, m = Ok a ∧ b = f a.
Proof. destruct m; simpl; naive_solver. Qed.

Lemma is_some_and_false {A} (p : A → bool) o :
  is_some_and p o = false ↔ ∀ a, o = Some a → p a = false.
Proof. destruct o; simpl; naive_solver. Qed.

Lemma is_zero_false o : is_zero o = false ↔ ∀ v, o = Some v → v ≠ 0.
Proof. unfold is_zero. rewrite is_some_and_false. split; intros H v Hv; specialize (H v Hv); lia. Qed.

(** A loop that collects the names of its elements and refuses a repetition. *)
Lemma try_fold_names {E A} (f : gset string → A → result E (gset string)) (key : A → string)
    (P : A → Prop) l s s' :
  (∀ x s s', f s x = Ok s' ↔ P x ∧ key x ∉ s ∧ s' = {[key x]} ∪ s) →
  try_fold f s l = Ok s' ↔
    Forall P l ∧ NoDup (key <$> l) ∧ (∀ x, x ∈ l → key x ∉ s) ∧
    s' = (list_to_set (key <$> l) : gset string) ∪ s.
Proof.
  intros Hf. revert s. induction l as [|x l IH]; intros s; simpl.
  - split; [intros [= ->]|intros (_ & _ & _ & ->)]; [|f_equal; set_solver].
    split_and!; [constructor|constructor|set_solver|set_solver].
  - rewrite rbind_ok. setoid_rewrite IH. setoid_rewrite Hf.
    rewrite Forall_cons, NoDup_cons. split.
    + intros (? & (HP & Hx & ->) & Hl & Hnd & Hout & ->). split_and!; [done|done| |done| |set_solver].
      * intros (y & Hy & Hin)%list_elem_of_fmap. specialize (Hout y Hin). set_solver.
      * intros y [->|Hy]%elem_of_cons; [done|]. specialize (Hout y Hy). set_solver.
    + intros ([HP Hl] & [Hx Hnd] & Hout & ->). eexists. split_and!; [done|set_solver|done|done|done| |set_solver].
      intros y Hy. pose proof (Hout y ltac:(set_solver)).
      assert (key y ≠ key x); [|set_solver]. intros Heq. apply Hx. rewrite <-Heq. by apply list_elem_of_fmap_2.
Qed.

(** A reference instance: [scheme://authority/path?query], IPv4 networks
    with their prefix length, patterns as literals, no files. *)
Module RefConfig.
Definition from_nonempty (s : string) : option string := if str_is_empty s then None else Some s.
Definition split_uri (s : string) : option Uri :=
  '(scheme, rest) ← split_once ":" s;
  rest ← strip_prefix "//" rest;
  let '(rest, query) :=
    match split_once "?" rest with Some (rest, query) => (rest, Some query) | None => (rest, None) end in
  let '(authority, path) :=
    match split_once "/" rest with Some (authority, path) => (authority, "/" +:+ path) | None => (rest, "/"%string) end in
  Some (mkUri (from_nonempty scheme) (from_nonempty authority) path query).
Definition split_net (s : string) : option (@IpNet RefIpNet.api) :=
  '(addr, len) ← split_once "/" s;
  len ← parse_uint 32 len;
  match ip_from_str addr with Some (V4 octets) => Some (octets, len) | _ => None end.
#[export] Instance api : ConfigApi RefIpNet.api RefRegex.api := {|
  parse_uri := split_uri;
  path_and_query_ok path := starts_with "/" path;
  parse_method m := from_nonempty m;
  tls_server_name_ok name := negb (str_is_empty name);
  parse_ipnet s := split_net s;
  build_regex pattern _ := Some (pattern : @Regex RefRegex.api);
  path_is_file _ := false;
  display_error what _ := "invalid " +:+ what;
|}.
End RefConfig.
