(* ===== verification/Addresses.v ===== *)
(** * Socket addresses: what is printed is read back

    The compiler prints the addresses it has parsed and parses them again, and
    names listeners by their text.  Here [SocketAddr]'s [Display] and [FromStr]
    (External.v, ConfigBase.v) are shown inverse, IPv6 with its compressed zeroes
    and its mapped IPv4 form included, so that different addresses have different
    names. *)

From S2P Require Import Prelude RustStr External ConfigBase.

Definition is_u16 (z : Z) : Prop := 0 ≤ z < 2 ^ 16.

(** ** Numbers *)

Lemma read_digits_app radix s acc count n k rest :
  read_digits radix acc count s = (n, k, EmptyString) → read_digits radix acc count (s +:+ rest) = read_digits radix n k rest.
Proof.
  revert acc count. induction s as [|c s IH]; intros acc count; simpl; [by intros [= -> ->]|].
  destruct (digit_value radix c); [apply IH|done].
Qed.

(** A printed number, read back on its own. *)
Definition reads_back (radix : Z) (print : Z → string) (max_digits : nat) (zero_prefix : bool) (n : Z) : bool :=
  let '(v, k, rest) := read_digits radix 0 0 (print n) in
  (v =? n) && negb (k =? 0)%nat && (k <=? max_digits)%nat && str_is_empty rest &&
  (zero_prefix || negb (1 <? k)%nat || negb (starts_with "0" (print n))).

(** [p] of [z], [z + 1], ..., [n] of them. *)
Fixpoint all_from (p : Z → bool) (n : nat) (z : Z) : bool :=
  match n with O => true | S n => p z && all_from p n (z + 1) end.

Lemma below_all (p : Z → bool) n z : all_from p n 0 = true → 0 ≤ z < Z.of_nat n → p z = true.
Proof.
  assert (Hgo : ∀ n a, all_from p n a = true → a ≤ z < a + Z.of_nat n → p z = true).
  { clear n. induction n as [|n IH]; intros a; simpl; [lia|]. intros [Ha Hn]%andb_true_iff Hz.
    destruct (decide (z = a)) as [->|?]; [done|]. apply (IH (a + 1)); [done|lia]. }
  intros H Hz. by apply (Hgo n 0); [|lia].
Qed.

Lemma decimal_octets : all_from (reads_back 10 dec 3 false) 256 0 = true.
Proof. by vm_compute. Qed.
Lemma hex_groups : all_from (reads_back 16 hex16 4 true) (256 * 256) 0 = true.
Proof. by vm_compute. Qed.

(** Where a number ends. *)
Definition ends_number (radix : Z) (rest : string) : Prop :=
  match rest with EmptyString => True | String c _ => digit_value radix c = None end.

Lemma read_digits_ends radix n k rest : ends_number radix rest → read_digits radix n k rest = (n, k, rest).
Proof. destruct rest as [|c rest]; simpl; [done|]. by intros ->. Qed.

Lemma starts_zero_app a b : str_is_empty a = false → starts_with "0" (a +:+ b) = starts_with "0" a.
Proof. destruct a as [|c a]; [done|]. intros _. unfold starts_with. simpl. by destruct (ascii_eqb _ c). Qed.

Lemma read_printed radix print digits limit max_digits zero_prefix n rest :
  reads_back radix print digits zero_prefix n = true → (digits <= max_digits)%nat → n ≤ limit → ends_number radix rest →
  read_number radix limit max_digits zero_prefix (print n +:+ rest) = Some (n, rest).
Proof.
  unfold reads_back, read_number. destruct (read_digits radix 0 0 (print n)) as [[v k] r] eqn:Hr. intros Hb Hd Hn He.
  apply andb_true_iff in Hb as [Hb Hz]. apply andb_true_iff in Hb as [Hb Hempty]. apply andb_true_iff in Hb as [Hb Hk].
  apply andb_true_iff in Hb as [Hv Hk0]. apply Z.eqb_eq in Hv as ->. destruct r; [|done].
  rewrite (read_digits_app _ _ _ _ _ _ _ Hr), (read_digits_ends _ _ _ _ He).
  apply Nat.leb_le in Hk. apply negb_true_iff in Hk0. rewrite Hk0. simpl.
  rewrite (proj2 (Nat.ltb_ge max_digits k)) by lia. rewrite (proj2 (Z.ltb_ge limit n)) by lia. simpl.
  destruct (negb zero_prefix && (1 <? k)%nat) eqn:Hc; simpl; [|done].
  apply andb_true_iff in Hc as [Hzp Hc]. apply negb_true_iff in Hzp as ->. rewrite Hc in Hz. simpl in Hz. apply negb_true_iff in Hz.
  rewrite starts_zero_app, Hz; [done|]. destruct (print n); [|done]. simpl in Hr. injection Hr as _ <-. done.
Qed.

Lemma read_octet n rest :
  is_u8 n → ends_number 10 rest → read_number 10 255 3 false (dec n +:+ rest) = Some (n, rest).
Proof.
  unfold is_u8. intros Hn. apply (read_printed _ _ 3); [|lia|lia]. apply (below_all _ _ _ decimal_octets). lia.
Qed.

Lemma read_group n rest :
  is_u16 n → ends_number 16 rest → read_number 16 65535 4 true (hex16 n +:+ rest) = Some (n, rest).
Proof.
  unfold is_u16. intros Hn. apply (read_printed _ _ 4); [|lia|lia]. apply (below_all _ _ _ hex_groups). lia.
Qed.

(** ** IPv4 *)

Lemma read_printed_ipv4 octets rest :
  Forall is_u8 octets → length octets = 4%nat → ends_number 10 rest →
  read_ipv4 (ipv4_to_string octets +:+ rest) = Some (octets, rest).
Proof.
  destruct octets as [|a [|b [|c [|d [|]]]]]; try done. intros H _ He.
  repeat match goal with H : Forall _ (_ :: _) |- _ => apply Forall_cons in H as [? H] end.
  unfold ipv4_to_string, read_ipv4. cbn [map str_join]. rewrite !str_app_assoc.
  do 3 (rewrite read_octet by done; cbn [mbind option_bind]; rewrite (strip_prefix_app "."); cbn [mbind option_bind]).
  by rewrite read_octet by done.
Qed.

(** A text without a dot is not an IPv4 address. *)
Definition no_dot (s : string) : bool := str_all (λ c, negb (ascii_eqb c "."%char)) s.

Lemma read_digits_no_dot radix acc count s n k rest :
  no_dot s = true → read_digits radix acc count s = (n, k, rest) → no_dot rest = true.
Proof.
  revert acc count. induction s as [|c s IH]; intros acc count; simpl; [by intros _ [= _ _ <-]|].
  intros Hd. pose proof Hd as Hd'. simpl in Hd'. apply andb_true_iff in Hd' as [_ Hs].
  destruct (digit_value radix c); [by apply IH|]. by intros [= _ _ <-].
Qed.

Lemma read_ipv4_no_dot s : no_dot s = true → read_ipv4 s = None.
Proof.
  intros Hs. unfold read_ipv4. destruct (read_number 10 255 3 false s) as [[n rest]|] eqn:Hr; cbn [mbind option_bind]; [|done].
  assert (Hrest : no_dot rest = true).
  { unfold read_number in Hr. destruct (read_digits 10 0 0 s) as [[v k] r] eqn:Hd.
    apply (read_digits_no_dot _ _ _ _ _ _ _ Hs) in Hd. repeat case_match; congruence. }
  assert (strip_prefix "." rest = None) as ->; [|done].
  destruct rest as [|c rest]; [done|]. simpl in Hrest. apply andb_true_iff in Hrest as [Hc _]. simpl.
  destruct (ascii_eqb "." c) eqn:Heq; [|done]. apply ascii_eqb_true in Heq as <-. done.
Qed.

(** ** IPv6 *)

Definition octets_of (segs : list Z) : list Z := segs ≫= λ g, [g / 256; g mod 256].

Lemma segments_octets n octets :
  Forall is_u8 octets → length octets = (2 * n)%nat →
  octets_of (segments octets) = octets ∧ Forall is_u16 (segments octets) ∧ length (segments octets) = n.
Proof.
  revert octets. induction n as [|n IH]; intros octets Ho Hl.
  { destruct octets; [|done]. split_and!; done || constructor. }
  destruct octets as [|a [|b octets]]; try (simpl in Hl; lia).
  apply Forall_cons in Ho as [Ha Ho]. apply Forall_cons in Ho as [Hb Ho]. unfold is_u8 in Ha, Hb.
  destruct (IH octets Ho) as (H1 & H2 & H3); [simpl in Hl; lia|]. cbn [segments]. unfold octets_of in *. rewrite bind_cons, H1. cbn [app].
  split_and!; [|constructor; [unfold is_u16; lia|done]|simpl; by f_equal].
  rewrite Z.div_add_l, Z.div_small, Z.add_0_r by lia. do 2 f_equal. rewrite Z.add_comm, Z_mod_plus_full, Z.mod_small by lia. done.
Qed.

Lemma octets_of_zeroes n : octets_of (replicate n 0) = replicate (2 * n) 0.
Proof.
  induction n as [|n IH]; [done|]. unfold octets_of in *. simpl replicate at 1. rewrite bind_cons, IH.
  replace (2 * S n)%nat with (S (S (2 * n))) by lia. done.
Qed.

Fixpoint groups_text (index : nat) (segs : list Z) (rest : string) : string :=
  match segs with
  | [] => rest
  | g :: segs => (if (0 <? index)%nat then ":" else "")%string +:+ hex16 g +:+ groups_text (S index) segs rest
  end.

Lemma groups_text_join segs rest : join_segments segs +:+ rest = groups_text 0 segs rest.
Proof.
  assert (Hlater : ∀ segs i, groups_text (S i) segs rest = match segs with [] => rest | _ => ":" +:+ join_segments segs +:+ rest end).
  { clear segs. induction segs as [|g segs IH]; intros i; [done|]. cbn [groups_text]. rewrite IH. unfold join_segments.
    destruct segs as [|h segs]; cbn [map str_join]; [done|]. by rewrite !str_app_assoc. }
  destruct segs as [|g segs]; [done|]. cbn [groups_text]. rewrite Hlater. unfold join_segments.
  destruct segs as [|h segs]; cbn [map str_join]; [done|]. by rewrite !str_app_assoc.
Qed.

Lemma hex_no_dot : all_from (λ n, no_dot (hex16 n)) (256 * 256) 0 = true.
Proof. by vm_compute. Qed.

Lemma no_dot_app a b : no_dot (a +:+ b) = no_dot a && no_dot b.
Proof. unfold no_dot. induction a as [|c a IH]; [done|]. simpl. by rewrite IH, andb_assoc. Qed.

Lemma groups_no_dot segs index rest : Forall is_u16 segs → no_dot rest = true → no_dot (groups_text index segs rest) = true.
Proof.
  intros Hs Hr. revert index. induction Hs as [|g segs Hg _ IH]; intros index; cbn [groups_text]; [done|].
  rewrite !no_dot_app, IH, andb_true_r, andb_true_iff. split; [by destruct (0 <? index)%nat|].
  apply (below_all _ _ _ hex_no_dot). unfold is_u16 in Hg. lia.
Qed.

Lemma after_colon_no_dot index s r : no_dot s = true → after_colon index s = Some r → no_dot r = true.
Proof.
  unfold after_colon. destruct (0 <? index)%nat; [|by intros ? [= <-]].
  intros Hs ->%strip_prefix_Some. done.
Qed.

(** Where the groups end. *)
Definition ends_groups (index : nat) (rest : string) : Prop :=
  ends_number 16 rest ∧ no_dot rest = true ∧ after_colon index rest ≫= read_number 16 65535 4 true = None.

Lemma read_groups_printed segs room index rest :
  Forall is_u16 segs → (length segs <= room)%nat → ends_groups (index + length segs) rest →
  read_groups room index (groups_text index segs rest) = (octets_of segs, (index + length segs)%nat, false, rest).
Proof.
  intros Hs. revert room index. induction Hs as [|g segs Hg Hs IH]; intros room index Hl (He & Hd & Hstop).
  { simpl in *. rewrite Nat.add_0_r in *. destruct room as [|room]; [done|]. simpl.
    assert (Hno : after_colon index rest ≫= read_ipv4 = None).
    { destruct (after_colon index rest) as [r|] eqn:Hr; simpl; [|done]. apply read_ipv4_no_dot. by eapply after_colon_no_dot. }
    destruct (1 <? S room)%nat; rewrite ?Hno, Hstop; done. }
  destruct room as [|room]; [simpl in Hl; lia|]. simpl in Hl.
  assert (Hcolon : after_colon index (groups_text index (g :: segs) rest) = Some (hex16 g +:+ groups_text (S index) segs rest)).
  { unfold after_colon. simpl. destruct (0 <? index)%nat; [|done]. apply (strip_prefix_app ":"). }
  assert (Hnd : no_dot (groups_text index (g :: segs) rest) = true) by (apply groups_no_dot; [by constructor|done]).
  cbn [read_groups]. rewrite Hcolon. cbn [mbind option_bind].
  rewrite (read_ipv4_no_dot (hex16 g +:+ _)) by (by eapply after_colon_no_dot).
  assert (Hend : ends_number 16 (groups_text (S index) segs rest)) by (destruct segs; [done|by simpl]).
  rewrite (read_group g _ Hg Hend). destruct (1 <? S room)%nat.
  all: rewrite (IH room (S index)); [|lia|by rewrite Nat.add_succ_comm].
  all: unfold octets_of; rewrite bind_cons; simpl; by rewrite Nat.add_succ_r.
Qed.

(** The zeroes that are left out. *)
Definition zero_run (segs : list Z) (run : nat * nat) : Prop :=
  (run.1 + run.2 <= length segs)%nat ∧ ∀ k, (run.1 <= k < run.1 + run.2)%nat → segs !! k = Some 0.

Lemma longest_zeroes_run l pre current longest :
  (current.2 = 0%nat ∨ (current.1 + current.2 = length pre)%nat ∧ zero_run (pre ++ l) current) →
  zero_run (pre ++ l) longest → zero_run (pre ++ l) (longest_zeroes (length pre) current longest l).
Proof.
  revert pre current longest. induction l as [|s l IH]; intros pre current longest Hc Hl; simpl; [done|].
  assert (Hpre : pre ++ s :: l = (pre ++ [s]) ++ l) by (by rewrite <- app_assoc).
  assert (Hlen : S (length pre) = length (pre ++ [s])) by (rewrite length_app; simpl; lia).
  destruct (s =? 0) eqn:Hs.
  - apply Z.eqb_eq in Hs as ->. rewrite Hlen, Hpre. rewrite Hpre in Hc, Hl.
    set (current' := (if (current.2 =? 0)%nat then length pre else current.1, S current.2)).
    assert (Hc' : (current'.1 + current'.2 = length (pre ++ [0%Z]))%nat ∧ zero_run ((pre ++ [0]) ++ l) current').
    { unfold current'. rewrite length_app. simpl. destruct (current.2 =? 0)%nat eqn:Hz.
      - apply Nat.eqb_eq in Hz. rewrite Hz. split; [simpl; lia|]. split; simpl; [rewrite !length_app; simpl; lia|].
        intros k Hk. assert (k = length pre) as -> by lia. rewrite <- app_assoc. by apply list_lookup_middle.
      - apply Nat.eqb_neq in Hz. destruct Hc as [?|[Hc1 [Hc2 Hc3]]]; [done|]. split; [simpl in *; lia|].
        split; simpl; [rewrite !length_app in *; simpl in *; lia|]. intros k Hk.
        destruct (decide (k = length pre)) as [->|?]; [rewrite <- app_assoc; by apply list_lookup_middle|apply Hc3; lia]. }
    apply IH; [by right|]. destruct (longest.2 <? S current.2)%nat; [apply Hc'|done].
  - rewrite Hlen, Hpre. rewrite Hpre in Hl. apply IH; [by left|done].
Qed.

Lemma zero_run_split segs run :
  zero_run segs run → segs = take run.1 segs ++ replicate run.2 0 ++ drop (run.1 + run.2) segs.
Proof.
  intros [Hle Hz]. rewrite <- (take_drop run.1 segs) at 1. f_equal.
  rewrite <- (take_drop run.2 (drop run.1 segs)), drop_drop. f_equal.
  apply list_eq. intros k. destruct (decide (k < run.2)%nat) as [Hk|Hk].
  - rewrite lookup_take_lt, lookup_drop, Hz by lia. symmetry. by apply lookup_replicate_2.
  - rewrite lookup_take_ge by lia. symmetry. apply lookup_replicate_None. lia.
Qed.

Definition bracket_end (rest : string) : Prop := ∃ r, rest = String "]" r ∧ no_dot r = true.

Lemma bracket_ends rest index : bracket_end rest → ends_groups index rest.
Proof.
  intros (r & -> & Hr). split; [done|]. split; [exact Hr|]. unfold after_colon. by destruct (0 <? index)%nat.
Qed.

Lemma read_no_group room rest : read_groups (S room) 0 (":" +:+ rest) = ([], 0%nat, false, ":" +:+ rest).
Proof. cbn [read_groups]. destruct (1 <? S room)%nat; reflexivity. Qed.

Lemma read_groups_step room index s :
  read_groups (S room) index s =
  match (if (1 <? S room)%nat then after_colon index s ≫= read_ipv4 else None) with
  | Some (octets, rest) => (octets, S (S index), true, rest)
  | None =>
      match after_colon index s ≫= read_number 16 65535 4 true with
      | Some (group, rest) =>
          let '(octets, count, ipv4, rest) := read_groups room (S index) rest in
          (group / 256 :: group mod 256 :: octets, count, ipv4, rest)
      | None => ([], index, false, s)
      end
  end.
Proof. reflexivity. Qed.

(** [ffff:a.b.c.d]. *)
Lemma read_mapped o4 rest :
  Forall is_u8 o4 → length o4 = 4%nat → ends_number 10 rest →
  read_groups 7 0 ("ffff:" +:+ ipv4_to_string o4 +:+ rest) = ([255; 255] ++ o4, 3%nat, true, rest).
Proof.
  intros Ho Hl He. pose proof (read_printed_ipv4 o4 rest Ho Hl He) as H4. set (text := ipv4_to_string o4 +:+ rest) in *.
  assert (Hin : read_groups 6 1 (":" +:+ text) = (o4, 3%nat, true, rest)).
  { rewrite read_groups_step. change (after_colon 1 (":" +:+ text)) with (Some text). change (1 <? 6)%nat with true.
    cbn [mbind option_bind]. by rewrite H4. }
  change ("ffff:" +:+ text) with (hex16 65535 +:+ (":" +:+ text)).
  assert (Hg : read_number 16 65535 4 true (hex16 65535 +:+ (":" +:+ text)) = Some (65535, ":" +:+ text))
    by (apply read_group; [unfold is_u16; lia|done]).
  rewrite read_groups_step. change (after_colon 0 (hex16 65535 +:+ (":" +:+ text))) with (Some (hex16 65535 +:+ (":" +:+ text))).
  change (1 <? 7)%nat with true. cbn [mbind option_bind].
  change (read_ipv4 (hex16 65535 +:+ (":" +:+ text))) with (@None (list Z * string)). by rewrite Hg, Hin.
Qed.

Lemma read_printed_ipv6 octets rest :
  Forall is_u8 octets → length octets = 16%nat → bracket_end rest →
  read_ipv6 (ipv6_to_string octets +:+ rest) = Some (octets, rest).
Proof.
  intros Ho Hlen Hb. unfold ipv6_to_string. case_bool_decide as Hmapped.
  - rewrite str_app_assoc. unfold read_ipv6.
    change ("::ffff:" +:+ ipv4_to_string (drop 12 octets) +:+ rest) with (":" +:+ (":ffff:" +:+ ipv4_to_string (drop 12 octets) +:+ rest)).
    rewrite read_no_group.
    change (strip_prefix "::" (":" +:+ (":ffff:" +:+ ipv4_to_string (drop 12 octets) +:+ rest)))
      with (Some ("ffff:" +:+ ipv4_to_string (drop 12 octets) +:+ rest)).
    cbn [Nat.eqb Nat.sub mbind option_bind]. rewrite read_mapped;
      [|by apply Forall_drop|rewrite length_drop; lia|by destruct Hb as (r & -> & _)].
    rewrite <- (take_drop 12 octets) at 2. by rewrite Hmapped.
  - destruct (segments_octets 8 octets Ho Hlen) as (Hoct & Hsegs & Hlen8). set (segs := segments octets) in *.
    pose proof (longest_zeroes_run segs [] (0, 0)%nat (0, 0)%nat) as Hrun. simpl in Hrun.
    specialize (Hrun ltac:(by left)). destruct (longest_zeroes 0 (0, 0)%nat (0, 0)%nat segs) as [start n]. simpl.
    specialize (Hrun ltac:(split; simpl; [lia|intros; lia])).
    destruct (1 <? n)%nat eqn:Hn.
    + apply Nat.ltb_lt in Hn. pose proof Hrun as [Hle _]. simpl in Hle. pose proof (zero_run_split _ _ Hrun) as Hsplit. simpl in Hsplit.
      assert (Hends : ends_groups start ("::" +:+ join_segments (drop (start + n) segs) +:+ rest)).
      { split_and!; [done| |unfold after_colon; by destruct (0 <? start)%nat].
        rewrite !no_dot_app, andb_true_iff. split; [done|]. rewrite <- no_dot_app, groups_text_join.
        apply groups_no_dot; [by apply Forall_drop|]. by apply (bracket_ends rest 0). }
      assert (Hhead : length (take start segs) = start) by (rewrite length_take; lia).
      rewrite !str_app_assoc, groups_text_join. unfold read_ipv6.
      rewrite (read_groups_printed _ 8 0); [|by apply Forall_take|lia|by rewrite Hhead].
      rewrite Hhead. simpl Nat.add. rewrite (proj2 (Nat.eqb_neq start 8)) by lia.
      rewrite strip_prefix_app. cbn [mbind option_bind]. rewrite groups_text_join.
      assert (Htail : length (drop (start + n) segs) = (8 - (start + n))%nat) by (rewrite length_drop; lia).
      rewrite (read_groups_printed _ (7 - start) 0); [|by apply Forall_drop|lia|by apply bracket_ends].
      rewrite Htail. do 2 f_equal. transitivity (octets_of segs); [|done].
      assert (Heq : octets_of segs = octets_of (take start segs) ++ octets_of (replicate n 0) ++ octets_of (drop (start + n) segs))
        by (rewrite Hsplit at 1; unfold octets_of; by rewrite !bind_app).
      rewrite Heq, octets_of_zeroes. do 3 f_equal. lia.
    + rewrite groups_text_join. unfold read_ipv6. rewrite (read_groups_printed _ 8 0); [|done|lia|by apply bracket_ends].
      rewrite Hlen8. simpl. by rewrite Hoct.
Qed.

(** ** Socket addresses *)

Definition sock_wf (a : SocketAddr) : Prop := ip_wf (sock_ip a) ∧ is_u16 (sock_port a).

Lemma read_digits_go x s count :
  (0 < x)%N → ∃ k, (count < k)%nat ∧ read_digits 10 0 count (pretty_N_go x s) = read_digits 10 (Z.of_N x) k s.
Proof.
  revert s count. induction (N.lt_wf_0 x) as [x _ IH]; intros s count Hx. rewrite pretty_N_go_step by done.
  assert (Hd : Z.of_N x = Z.of_N (x `div` 10) * 10 + Z.of_N (x `mod` 10)) by (pose proof (N.div_mod x 10 ltac:(lia)); lia).
  assert (Hc : digit_value 10 (pretty_N_char (x `mod` 10)) = Some (Z.of_N (x `mod` 10))).
  { pose proof (N.mod_lt x 10 ltac:(lia)) as Hm. set (d := (x `mod` 10)%N) in *.
    assert (d = 0 ∨ d = 1 ∨ d = 2 ∨ d = 3 ∨ d = 4 ∨ d = 5 ∨ d = 6 ∨ d = 7 ∨ d = 8 ∨ d = 9)%N as Hx' by (clearbody d; lia).
    clearbody d. naive_solver. }
  destruct (decide (x `div` 10 = 0)%N) as [Hz|Hz].
  - exists (S count). split; [clear; lia|]. rewrite Hz in Hd |- *. rewrite pretty_N_go_0. simpl. rewrite Hc. f_equal. symmetry. exact Hd.
  - destruct (IH (x `div` 10)%N (N.div_lt x 10 Hx eq_refl) (String (pretty_N_char (x `mod` 10)) s) count) as (k & Hk & Hr);
      [clear -Hz; apply N.neq_0_lt_0; done|].
    exists (S k). split; [clear -Hk; lia|]. rewrite Hr. simpl. rewrite Hc. f_equal. symmetry. exact Hd.
Qed.

Lemma read_digits_dec n : 0 ≤ n → ∃ k, (0 < k)%nat ∧ read_digits 10 0 0 (dec n) = (n, k, EmptyString).
Proof.
  intros Hn. unfold dec, pretty, pretty_N. case_decide as Hz; [exists 1%nat; replace n with 0 by lia; split; [lia|reflexivity]|].
  destruct (read_digits_go (Z.to_N n) EmptyString 0) as (k & Hk & Hr); [lia|]. exists k. split; [done|]. rewrite Hr. simpl. f_equal. f_equal. lia.
Qed.

Lemma read_digits_count s acc c v k : read_digits 10 acc c s = (v, k, EmptyString) → k = (c + String.length s)%nat.
Proof.
  revert acc c. induction s as [|x s IH]; intros acc c; simpl; [intros [= _ <-]; lia|]. destruct (digit_value 10 x); [|done].
  intros H%IH. lia.
Qed.

Lemma read_printed_port port : is_u16 port → read_port (":" +:+ dec port) = Some (port, EmptyString).
Proof.
  unfold is_u16. intros Hp. unfold read_port. rewrite (strip_prefix_app ":"). simpl.
  destruct (read_digits_dec port) as (k & Hk & Hr); [lia|]. unfold read_number, u16_max. rewrite Hr.
  rewrite (proj2 (Nat.eqb_neq k 0)) by lia. apply read_digits_count in Hr as ->. simpl.
  rewrite Nat.ltb_irrefl. by rewrite (proj2 (Z.ltb_ge _ port)) by lia.
Qed.

Lemma dec_no_dot n : no_dot (dec n) = true.
Proof. eapply str_all_impl; [|apply dec_digits]. intros c. destruct (ascii_eqb c ".") eqn:Hc; [|done]. by apply ascii_eqb_true in Hc as ->. Qed.

Lemma socket_round_trip a : sock_wf a → socket_from_str (socket_to_string a) = Some a.
Proof.
  destruct a as [[o|o] port]; intros [[Ho Hl] Hp]; simpl in Ho, Hl, Hp; unfold socket_from_str, socket_to_string; cbn [sock_ip sock_port].
  - unfold read_socket_v4. rewrite read_printed_ipv4 by done. cbn [mbind option_bind]. by rewrite (read_printed_port _ Hp).
  - assert (Hv4 : read_socket_v4 ("[" +:+ ipv6_to_string o +:+ "]:" +:+ dec port) = None) by done. rewrite Hv4.
    unfold read_socket_v6. rewrite (strip_prefix_app "["). cbn [mbind option_bind].
    rewrite read_printed_ipv6; [|done|done|].
    + cbn [mbind option_bind]. change (read_scope_id ("]:" +:+ dec port)) with (@None (Z * string)). cbn [default fmap option_fmap option_map].
      change (strip_prefix "]" ("]:" +:+ dec port)) with (Some (":" +:+ dec port)). cbn [mbind option_bind].
      by rewrite (read_printed_port _ Hp).
    + exists (":" +:+ dec port). split; [done|]. apply dec_no_dot.
Qed.

Lemma socket_to_string_inj a b : sock_wf a → sock_wf b → socket_to_string a = socket_to_string b → a = b.
Proof. intros Ha Hb H. apply socket_round_trip in Ha, Hb. congruence. Qed.

(** ** What is read is an address *)

Lemma digit_value_bound radix c v : digit_value radix c = Some v → 0 ≤ v.
Proof.
  unfold digit_value, in_range. set (z := byte_of c). intros H.
  repeat match type of H with context [if ?b then _ else _] => destruct b eqn:? end; simplify_eq; boolify; lia.
Qed.

Lemma read_number_bound radix max digits zero_prefix s n rest :
  0 ≤ radix → read_number radix max digits zero_prefix s = Some (n, rest) → 0 ≤ n ≤ max.
Proof.
  intros Hradix. unfold read_number.
  assert (Hgo : ∀ s acc c v k r, 0 ≤ acc → read_digits radix acc c s = (v, k, r) → 0 ≤ v).
  { clear s n rest. induction s as [|x s IH]; intros acc c v k r Hacc; simpl; [by intros [= <- _ _]|].
    destruct (digit_value radix x) as [d|] eqn:Hd; [|by intros [= <- _ _]]. apply digit_value_bound in Hd. apply IH. nia. }
  destruct (read_digits radix 0 0 s) as [[v k] r] eqn:Hr. apply Hgo in Hr; [|lia].
  destruct (_ || _ || (max <? v)) eqn:Hc; [done|]. destruct (_ && _ && _); [done|]. intros [= <- _].
  apply orb_false_iff in Hc as [_ Hc]. boolify. lia.
Qed.

Lemma read_ipv4_octets s octets rest :
  read_ipv4 s = Some (octets, rest) → Forall is_u8 octets ∧ length octets = 4%nat.
Proof.
  unfold read_ipv4. intros H.
  destruct (read_number 10 255 3 false s) as [[a s1]|] eqn:Ha; cbn [mbind option_bind] in H; [|done].
  apply bind_Some in H as ([b s2] & Hb & H).
  apply bind_Some in H as ([c s3] & Hc & H). apply bind_Some in H as ([d s4] & Hd & H). injection H as <- <-.
  apply bind_Some in Hb as (? & _ & Hb). apply bind_Some in Hc as (? & _ & Hc). apply bind_Some in Hd as (? & _ & Hd).
  apply read_number_bound in Ha, Hb, Hc, Hd; try lia. split; [|done]. repeat constructor; unfold is_u8; lia.
Qed.

Lemma read_groups_octets room index s octets count ipv4 rest :
  read_groups room index s = (octets, count, ipv4, rest) →
  Forall is_u8 octets ∧ (index <= count <= index + room)%nat ∧ length octets = (2 * (count - index))%nat.
Proof.
  revert index s octets count ipv4 rest. induction room as [|room IH]; intros index s octets count ipv4 rest.
  { simpl. intros [= <- <- _ _]. split_and!; [constructor|lia..|simpl; lia]. }
  rewrite read_groups_step. destruct (if (1 <? S room)%nat then _ else None) as [[o4 r4]|] eqn:H4.
  - intros [= <- <- _ _]. destruct (1 <? S room)%nat eqn:Hroom; [|done]. apply bind_Some in H4 as (? & _ & H4).
    apply read_ipv4_octets in H4 as [Ho Hl]. apply Nat.ltb_lt in Hroom. split_and!; [done|lia..|lia].
  - clear H4. destruct (after_colon index s ≫= read_number 16 65535 4 true) as [[g r]|] eqn:Hg.
    + destruct (read_groups room (S index) r) as [[[o c] i] r'] eqn:Hr. intros [= <- <- _ _].
      apply IH in Hr as (Ho & Hc & Hl). apply bind_Some in Hg as (? & _ & Hg). apply read_number_bound in Hg; [|lia].
      pose proof (Z.div_pos g 256). pose proof (Z.div_lt_upper_bound g 256 256). pose proof (Z.mod_pos_bound g 256).
      split; [repeat constructor; [unfold is_u8; lia..|done]|]. split; [lia|simpl; lia].
    + intros [= <- <- _ _]. split_and!; [constructor|lia..|simpl; lia].
Qed.

Lemma read_ipv6_octets s octets rest : read_ipv6 s = Some (octets, rest) → Forall is_u8 octets ∧ length octets = 16%nat.
Proof.
  unfold read_ipv6. destruct (read_groups 8 0 s) as [[[head h] i] r] eqn:Hh. apply read_groups_octets in Hh as (Ho & Hc & Hl).
  destruct (h =? 8)%nat eqn:H8; [intros [= <- _]; apply Nat.eqb_eq in H8; split; [done|lia]|]. apply Nat.eqb_neq in H8.
  destruct i; [done|]. intros (r1 & _ & H)%bind_Some.
  destruct (read_groups (7 - h) 0 r1) as [[[tail t] i2] r2] eqn:Ht. apply read_groups_octets in Ht as (Hto & Htc & Htl).
  injection H as <- <-. split.
  - rewrite !Forall_app. split_and!; [done| |done]. apply Forall_replicate. unfold is_u8. lia.
  - rewrite !length_app, length_replicate. lia.
Qed.

Lemma socket_from_str_wf s a : socket_from_str s = Some a → sock_wf a.
Proof.
  assert (Hport : ∀ s p r, read_port s = Some (p, r) → is_u16 p).
  { intros t p r (? & _ & H)%bind_Some. apply read_number_bound in H; [|lia]. unfold is_u16, u16_max in *. lia. }
  assert (H4 : ∀ b r, read_socket_v4 s = Some (b, r) → sock_wf b).
  { intros b r H. unfold read_socket_v4 in H. apply bind_Some in H as ([o s1] & Ho & H). apply bind_Some in H as ([p s2] & Hp & [= <- _]).
    apply read_ipv4_octets in Ho. split; [done|by eapply Hport]. }
  assert (H6 : ∀ b r, read_socket_v6 s = Some (b, r) → sock_wf b).
  { intros b r H. unfold read_socket_v6 in H. apply bind_Some in H as (s0 & _ & H). apply bind_Some in H as ([o s1] & Ho & H).
    apply bind_Some in H as (s2 & _ & H). apply bind_Some in H as ([p s3] & Hp & [= <- _]).
    apply read_ipv6_octets in Ho. split; [done|by eapply Hport]. }
  unfold socket_from_str. destruct (read_socket_v4 s) as [[b [|]]|] eqn:Hv4.
  - intros [= <-]. by eapply H4.
  - destruct (read_socket_v6 s) as [[c [|]]|] eqn:Hv6; try done. intros [= <-]. by eapply H6.
  - destruct (read_socket_v6 s) as [[c [|]]|] eqn:Hv6; try done. intros [= <-]. by eapply H6.
Qed.
