(* ===== verification/AccessLog.v ===== *)
(** * Access log formats

    Models [crates/rginx-core/src/config/access_log.rs] and its modules
    ([variables.rs], [helpers.rs]): the parser of a format, which reads [$name],
    [${name}] and [$$], and the renderer of a line.

    The source slices the template at its indices; the scanner walks it with the
    literal text, or the variable's name, read so far. *)

From S2P Require Import Prelude RustStr External ConfigBase.

(** Source: crates/rginx-core/src/config/access_log/variables.rs:4-41 (AccessLogVariable) *)
Inductive AccessLogVariable : Type :=
| LogRequestId | LogRemoteAddr | LogPeerAddr | LogMethod | LogHost | LogPath | LogRequest | LogStatus
| LogBodyBytesSent | LogElapsedMs | LogClientIpSource | LogVhost | LogRoute | LogScheme | LogHttpVersion
| LogTlsVersion | LogTlsAlpn | LogUserAgent | LogReferer | LogTlsClientAuthenticated | LogTlsClientSubject
| LogTlsClientIssuer | LogTlsClientSerial | LogTlsClientSanDnsNames | LogTlsClientChainLength
| LogTlsClientChainSubjects | LogGrpcProtocol | LogGrpcService | LogGrpcMethod | LogGrpcStatus | LogGrpcMessage
| LogCacheStatus | LogUpstreamName | LogUpstreamAddr | LogUpstreamStatus | LogUpstreamResponseTimeMs.

#[export] Instance AccessLogVariable_eq_dec : EqDecision AccessLogVariable.
Proof. solve_decision. Defined.

(** The names of each variable. *)
Definition access_log_names : list (string * AccessLogVariable) :=
  [("request_id", LogRequestId); ("remote_addr", LogRemoteAddr); ("client_ip", LogRemoteAddr);
   ("peer_addr", LogPeerAddr); ("method", LogMethod); ("request_method", LogMethod); ("host", LogHost);
   ("path", LogPath); ("request_uri", LogPath); ("request", LogRequest); ("status", LogStatus);
   ("body_bytes_sent", LogBodyBytesSent); ("bytes_sent", LogBodyBytesSent);
   ("request_time_ms", LogElapsedMs); ("elapsed_ms", LogElapsedMs);
   ("client_ip_source", LogClientIpSource); ("vhost", LogVhost); ("server_name", LogVhost);
   ("route", LogRoute); ("scheme", LogScheme); ("http_version", LogHttpVersion);
   ("server_protocol", LogHttpVersion); ("tls_version", LogTlsVersion); ("ssl_protocol", LogTlsVersion);
   ("tls_alpn", LogTlsAlpn); ("http_user_agent", LogUserAgent); ("user_agent", LogUserAgent);
   ("http_referer", LogReferer); ("referer", LogReferer);
   ("tls_client_authenticated", LogTlsClientAuthenticated); ("tls_client_subject", LogTlsClientSubject);
   ("tls_client_issuer", LogTlsClientIssuer); ("tls_client_serial", LogTlsClientSerial);
   ("tls_client_san_dns_names", LogTlsClientSanDnsNames);
   ("tls_client_chain_length", LogTlsClientChainLength);
   ("tls_client_chain_subjects", LogTlsClientChainSubjects); ("grpc_protocol", LogGrpcProtocol);
   ("grpc_service", LogGrpcService); ("grpc_method", LogGrpcMethod); ("grpc_status", LogGrpcStatus);
   ("grpc_message", LogGrpcMessage); ("cache_status", LogCacheStatus);
   ("upstream_cache_status", LogCacheStatus); ("upstream_name", LogUpstreamName);
   ("upstream_addr", LogUpstreamAddr); ("upstream_status", LogUpstreamStatus);
   ("upstream_response_time_ms", LogUpstreamResponseTimeMs)]%string.

(** Source: crates/rginx-core/src/config/access_log/variables.rs:43-83 (parse_access_log_variable) *)
Definition parse_access_log_variable (name : string) : result Error AccessLogVariable :=
  ok_or (snd <$> List.find (λ entry, str_eqb (fst entry) name) access_log_names)
    fail["access_log_format variable `$"; name; "` is not supported"].

(** Source: crates/rginx-core/src/config/access_log.rs:18-21 (AccessLogSegment) *)
Inductive AccessLogSegment : Type :=
| LogLiteral (literal : string)
| LogVariable (variable : AccessLogVariable).

(** Source: crates/rginx-core/src/config/access_log.rs:12-15 (AccessLogFormat) *)
Record AccessLogFormat : Type := mkAccessLogFormat {
  log_template : string;
  log_segments : list AccessLogSegment;
}.

(** Source: crates/rginx-core/src/config/access_log/helpers.rs:1-3 (is_access_log_variable_char) *)
Definition is_access_log_variable_char (c : ascii) : bool := is_ascii_alphanumeric c || ascii_eqb c "_"%char.

(** Where the scanner is: in literal text, after [${], or after [$] in a name. *)
Inductive LogScan : Type :=
| InLiteral (literal : string)
| InBraces (name : string)
| InName (name : string).

Definition dollar : string := "$".
Definition snoc (s : string) (c : ascii) : string := s +:+ String c EmptyString.

(** [if literal_start < index { segments.push(..) }]. *)
Definition log_flush (segments : list AccessLogSegment) (literal : string) : list AccessLogSegment :=
  if str_is_empty literal then segments else segments ++ [LogLiteral literal].

Fixpoint scan_access_log (scan : LogScan) (segments : list AccessLogSegment) (s : string)
    : result Error (list AccessLogSegment) :=
  let variable name := let? v := parse_access_log_variable name in Ok (segments ++ [LogVariable v]) in
  match s with
  | EmptyString =>
      match scan with
      | InLiteral literal => Ok (log_flush segments literal)
      | InBraces _ => Err fail["access_log_format contains an unterminated `${...}` variable"]
      | InName name => variable name
      end
  | String c rest =>
      let text (literal : string) (segments : list AccessLogSegment) :=
        if negb (ascii_eqb c "$"%char) then scan_access_log (InLiteral (snoc literal c)) segments rest
        else
          let segments := log_flush segments literal in
          match rest with
          | String next rest' =>
              if ascii_eqb next "$"%char
              then scan_access_log (InLiteral EmptyString) (segments ++ [LogLiteral dollar]) rest'
              else if ascii_eqb next "{"%char then scan_access_log (InBraces EmptyString) segments rest'
              else if is_access_log_variable_char next
              then scan_access_log (InName (String next EmptyString)) segments rest'
              else scan_access_log (InLiteral EmptyString) (segments ++ [LogLiteral dollar]) rest
          | EmptyString => scan_access_log (InLiteral EmptyString) (segments ++ [LogLiteral dollar]) rest
          end in
      match scan with
      | InLiteral literal => text literal segments
      | InBraces name =>
          if ascii_eqb c "}"%char
          then let? segments := variable name in scan_access_log (InLiteral EmptyString) segments rest
          else scan_access_log (InBraces (snoc name c)) segments rest
      | InName name =>
          if is_access_log_variable_char c then scan_access_log (InName (snoc name c)) segments rest
          else let? segments := variable name in text EmptyString segments
      end
  end.

(** Source: crates/rginx-core/src/config/access_log.rs:64-129 (AccessLogFormat::parse) *)
Definition parse_access_log_format (template : string) : result Error AccessLogFormat :=
  let? segments := scan_access_log (InLiteral EmptyString) [] template in
  Ok (mkAccessLogFormat template segments).

(** Source: crates/rginx-core/src/config/access_log.rs:24-61 (AccessLogValues) *)
Record AccessLogValues : Type := mkLogValues {
  lv_request_id : string;
  lv_remote_addr : string;
  lv_peer_addr : string;
  lv_method : string;
  lv_host : string;
  lv_path : string;
  lv_request : string;
  lv_status : Z;
  lv_body_bytes_sent : option Z;
  lv_elapsed_ms : Z;
  lv_client_ip_source : string;
  lv_vhost : string;
  lv_route : string;
  lv_scheme : string;
  lv_http_version : string;
  lv_tls_version : option string;
  lv_tls_alpn : option string;
  lv_user_agent : option string;
  lv_referer : option string;
  lv_tls_client_authenticated : bool;
  lv_tls_client_subject : option string;
  lv_tls_client_issuer : option string;
  lv_tls_client_serial : option string;
  lv_tls_client_san_dns_names : option string;
  lv_tls_client_chain_length : option Z;
  lv_tls_client_chain_subjects : option string;
  lv_grpc_protocol : option string;
  lv_grpc_service : option string;
  lv_grpc_method : option string;
  lv_grpc_status : option string;
  lv_grpc_message : option string;
  lv_cache_status : option string;
  lv_upstream_name : option string;
  lv_upstream_addr : option string;
  lv_upstream_status : option Z;
  lv_upstream_response_time_ms : option Z;
}.

(** Source: crates/rginx-core/src/config/access_log/helpers.rs:5-7 (fallback_access_log_value) *)
Definition fallback_access_log_value (value : string) : string :=
  if str_is_empty value then "-" else value.

(** Source: crates/rginx-core/src/config/access_log/helpers.rs:9-11 (fallback_access_log_option) *)
Definition fallback_access_log_option (value : option string) : string :=
  match value with Some value => fallback_access_log_value value | None => "-" end.

Definition dec_or_dash (value : option Z) : string := match value with Some n => dec n | None => "-" end.

Definition render_variable (values : AccessLogValues) (variable : AccessLogVariable) : string :=
  match variable with
  | LogRequestId => lv_request_id values
  | LogRemoteAddr => lv_remote_addr values
  | LogPeerAddr => lv_peer_addr values
  | LogMethod => lv_method values
  | LogHost => fallback_access_log_value (lv_host values)
  | LogPath => lv_path values
  | LogRequest => lv_request values
  | LogStatus => dec (lv_status values)
  | LogBodyBytesSent => dec_or_dash (lv_body_bytes_sent values)
  | LogElapsedMs => dec (lv_elapsed_ms values)
  | LogClientIpSource => lv_client_ip_source values
  | LogVhost => lv_vhost values
  | LogRoute => lv_route values
  | LogScheme => lv_scheme values
  | LogHttpVersion => lv_http_version values
  | LogTlsVersion => fallback_access_log_option (lv_tls_version values)
  | LogTlsAlpn => fallback_access_log_option (lv_tls_alpn values)
  | LogUserAgent => fallback_access_log_option (lv_user_agent values)
  | LogReferer => fallback_access_log_option (lv_referer values)
  | LogTlsClientAuthenticated => if lv_tls_client_authenticated values then "true" else "false"
  | LogTlsClientSubject => fallback_access_log_option (lv_tls_client_subject values)
  | LogTlsClientIssuer => fallback_access_log_option (lv_tls_client_issuer values)
  | LogTlsClientSerial => fallback_access_log_option (lv_tls_client_serial values)
  | LogTlsClientSanDnsNames => fallback_access_log_option (lv_tls_client_san_dns_names values)
  | LogTlsClientChainLength => dec_or_dash (lv_tls_client_chain_length values)
  | LogTlsClientChainSubjects => fallback_access_log_option (lv_tls_client_chain_subjects values)
  | LogGrpcProtocol => fallback_access_log_option (lv_grpc_protocol values)
  | LogGrpcService => fallback_access_log_option (lv_grpc_service values)
  | LogGrpcMethod => fallback_access_log_option (lv_grpc_method values)
  | LogGrpcStatus => fallback_access_log_option (lv_grpc_status values)
  | LogGrpcMessage => fallback_access_log_option (lv_grpc_message values)
  | LogCacheStatus => fallback_access_log_option (lv_cache_status values)
  | LogUpstreamName => fallback_access_log_option (lv_upstream_name values)
  | LogUpstreamAddr => fallback_access_log_option (lv_upstream_addr values)
  | LogUpstreamStatus => dec_or_dash (lv_upstream_status values)
  | LogUpstreamResponseTimeMs => dec_or_dash (lv_upstream_response_time_ms values)
  end.

(** Source: crates/rginx-core/src/config/access_log.rs:135-246 (AccessLogFormat::render) *)
Definition render_access_log (format : AccessLogFormat) (values : AccessLogValues) : string :=
  str_concat (map (λ segment,
    match segment with LogLiteral literal => literal | LogVariable v => render_variable values v end)
    (log_segments format)).

(** ** Printing a format *)

Definition variable_name (v : AccessLogVariable) : string :=
  default EmptyString (fst <$> List.find (λ entry, bool_decide (snd entry = v)) access_log_names).

Definition print_segment (segment : AccessLogSegment) : string :=
  match segment with
  | LogLiteral literal => if str_eqb literal dollar then "$$" else literal
  | LogVariable v => "${" +:+ variable_name v +:+ "}"
  end.

Definition print_access_log (segments : list AccessLogSegment) : string := str_concat (map print_segment segments).

(** What the parser gives: literals without [$], never two of them in a row,
    and [$] itself as a literal of its own. *)
Fixpoint log_normal (after_literal : bool) (segments : list AccessLogSegment) : bool :=
  match segments with
  | [] => true
  | LogLiteral literal :: segments =>
      if str_eqb literal dollar then log_normal false segments
      else negb after_literal && negb (str_is_empty literal) && negb (contains_char "$"%char literal) &&
           log_normal true segments
  | LogVariable _ :: segments => log_normal false segments
  end.

Example log_format_parsed :
  parse_access_log_format "$$5 ${status} $request_time_ms-$ $host" =
  Ok (mkAccessLogFormat "$$5 ${status} $request_time_ms-$ $host"
    [LogLiteral "$"; LogLiteral "5 "; LogVariable LogStatus; LogLiteral " "; LogVariable LogElapsedMs;
     LogLiteral "-"; LogLiteral "$"; LogLiteral " "; LogVariable LogHost]).
Proof. reflexivity. Qed.

(** ** The scanner *)

Lemma contains_char_cons c a s : contains_char c (String a s) = ascii_eqb a c || contains_char c s.
Proof. unfold contains_char. simpl. destruct (ascii_eqb a c); [done|]. by destruct (split_once c s) as [[]|]. Qed.

Lemma snoc_app s c rest : snoc s c +:+ rest = s +:+ String c rest.
Proof. unfold snoc. by rewrite str_app_assoc. Qed.

Lemma snoc_contains c s a : contains_char c (snoc s a) = contains_char c s || ascii_eqb a c.
Proof. unfold snoc. rewrite contains_char_app, contains_char_cons. by rewrite orb_false_r. Qed.

Lemma scan_literal text acc segments rest :
  contains_char "$"%char text = false →
  scan_access_log (InLiteral acc) segments (text +:+ rest) = scan_access_log (InLiteral (acc +:+ text)) segments rest.
Proof.
  revert acc. induction text as [|c text IH]; intros acc H; [by rewrite str_app_nil_r|].
  rewrite contains_char_cons in H. apply orb_false_iff in H as [Hc H].
  change (String c text +:+ rest) with (String c (text +:+ rest)). cbn [scan_access_log]. rewrite Hc. simpl.
  by rewrite IH, snoc_app.
Qed.

Lemma scan_braces name acc segments rest :
  contains_char "}"%char name = false →
  scan_access_log (InBraces acc) segments (name +:+ "}" +:+ rest) =
  let? v := parse_access_log_variable (acc +:+ name) in
  scan_access_log (InLiteral EmptyString) (segments ++ [LogVariable v]) rest.
Proof.
  revert acc. induction name as [|c name IH]; intros acc H.
  - change (EmptyString +:+ "}" +:+ rest) with (String "}"%char rest). cbn [scan_access_log].
    rewrite ascii_eqb_refl, str_app_nil_r. by destruct (parse_access_log_variable acc).
  - rewrite contains_char_cons in H. apply orb_false_iff in H as [Hc H].
    change (String c name +:+ "}" +:+ rest) with (String c (name +:+ "}" +:+ rest)). cbn [scan_access_log]. rewrite Hc.
    by rewrite IH, snoc_app.
Qed.

Lemma variable_name_parses v :
  parse_access_log_variable (variable_name v) = Ok v ∧ contains_char "}"%char (variable_name v) = false.
Proof. by destruct v. Qed.

Lemma scan_dollar acc segments rest :
  scan_access_log (InLiteral acc) segments ("$$" +:+ rest) =
  scan_access_log (InLiteral EmptyString) (log_flush segments acc ++ [LogLiteral dollar]) rest.
Proof. done. Qed.

Lemma access_scan_open acc segments rest :
  scan_access_log (InLiteral acc) segments ("${" +:+ rest) =
  scan_access_log (InBraces EmptyString) (log_flush segments acc) rest.
Proof. done. Qed.

Lemma log_flush_nil segments : log_flush segments EmptyString = segments.
Proof. done. Qed.

Lemma print_access_log_cons segment segments :
  print_access_log (segment :: segments) = print_segment segment +:+ print_access_log segments.
Proof. done. Qed.

Lemma scan_printed_log segments acc before :
  log_normal (negb (str_is_empty acc)) segments = true →
  scan_access_log (InLiteral acc) before (print_access_log segments) = Ok (log_flush before acc ++ segments).
Proof.
  revert acc before. induction segments as [|[literal|v] segments IH]; intros acc before Hn;
    rewrite ?print_access_log_cons.
  - by rewrite app_nil_r.
  - cbn [log_normal] in Hn. cbn [print_segment]. destruct (str_eqb literal dollar) eqn:Hd.
    + apply str_eqb_true in Hd as ->. rewrite scan_dollar, (IH EmptyString), log_flush_nil by done. by rewrite <-app_assoc.
    + apply andb_true_iff in Hn as [[[Ha He]%andb_true_iff Hc]%andb_true_iff Hn].
      apply negb_true_iff in He, Hc. destruct acc as [|? ?]; [|done]. rewrite scan_literal by done.
      change (EmptyString +:+ literal) with literal. rewrite IH by (by rewrite He). unfold log_flush.
      rewrite He. simpl. by rewrite <-app_assoc.
  - destruct (variable_name_parses v) as [Hp Hb]. cbn [print_segment].
    rewrite !str_app_assoc, access_scan_open, scan_braces by done.
    change (EmptyString +:+ variable_name v) with (variable_name v). rewrite Hp. cbn [rbind].
    rewrite (IH EmptyString), log_flush_nil by done. by rewrite <-app_assoc.
Qed.

(** Whether the last segment is text that more text would have joined. *)
Fixpoint log_last (after_literal : bool) (segments : list AccessLogSegment) : bool :=
  match segments with
  | [] => after_literal
  | LogLiteral literal :: segments => log_last (negb (str_eqb literal dollar)) segments
  | LogVariable _ :: segments => log_last false segments
  end.

Lemma log_normal_app b l k : log_normal b (l ++ k) = log_normal b l && log_normal (log_last b l) k.
Proof.
  revert b. induction l as [|[literal|v] l IH]; intros b; simpl; [done| |by rewrite IH].
  destruct (str_eqb literal dollar); simpl; rewrite IH; [done|]. by rewrite !andb_assoc.
Qed.

Lemma log_last_app b l k : log_last b (l ++ k) = log_last (log_last b l) k.
Proof. revert b. by induction l as [|[literal|v] l IH]; intros b; simpl. Qed.

Definition scan_ok (scan : LogScan) (segments : list AccessLogSegment) : Prop :=
  log_normal false segments = true ∧
  match scan with
  | InLiteral literal => log_last false segments = false ∧ contains_char "$"%char literal = false
  | _ => True
  end.

Lemma log_flush_normal segments literal :
  log_normal false segments = true → log_last false segments = false → contains_char "$"%char literal = false →
  log_normal false (log_flush segments literal) = true.
Proof.
  intros Hn Hl Hd. unfold log_flush. destruct literal as [|c literal]; [done|]. simpl str_is_empty. cbn [negb].
  rewrite log_normal_app, Hn, Hl. cbn [log_normal]. rewrite Hd.
  destruct (str_eqb (String c literal) dollar) eqn:He; [|done]. by apply str_eqb_true in He as [= -> ->].
Qed.

Lemma log_ends_normal segments segment :
  log_normal false segments = true → segment = LogLiteral dollar ∨ (∃ v, segment = LogVariable v) →
  scan_ok (InLiteral EmptyString) (segments ++ [segment]).
Proof.
  intros Hn Hs. unfold scan_ok. rewrite log_normal_app, log_last_app, Hn. destruct Hs as [->|[v ->]]; done.
Qed.

Lemma scan_access_log_normal s scan segments out :
  scan_ok scan segments → scan_access_log scan segments s = Ok out → log_normal false out = true.
Proof.
  revert scan segments. induction (well_founded_ltof _ String.length s) as [s _ IH]. unfold ltof in IH.
  intros scan segments Hok H. destruct s as [|c rest].
  - destruct scan as [literal|name|name]; cbn [scan_access_log] in H; [|done|].
    + simplify_eq. destruct Hok as (? & ? & ?). by apply log_flush_normal.
    + destruct (parse_access_log_variable name) as [v|]; simplify_eq/=. apply log_ends_normal; [apply Hok|eauto].
  - assert (∀ literal segments, scan_ok (InLiteral literal) segments →
      (if negb (ascii_eqb c "$"%char) then scan_access_log (InLiteral (snoc literal c)) segments rest
        else
          let segments := log_flush segments literal in
          match rest with
          | String next rest' =>
              if ascii_eqb next "$"%char
              then scan_access_log (InLiteral EmptyString) (segments ++ [LogLiteral dollar]) rest'
              else if ascii_eqb next "{"%char then scan_access_log (InBraces EmptyString) segments rest'
              else if is_access_log_variable_char next
              then scan_access_log (InName (String next EmptyString)) segments rest'
              else scan_access_log (InLiteral EmptyString) (segments ++ [LogLiteral dollar]) rest
          | EmptyString => scan_access_log (InLiteral EmptyString) (segments ++ [LogLiteral dollar]) rest
          end) = Ok out → log_normal false out = true) as Htext.
    { clear H Hok. intros literal segs (Hn & Hl & Hd) H. destruct (ascii_eqb c "$"%char) eqn:Hc; cbn [negb] in H.
      - pose proof (log_flush_normal _ _ Hn Hl Hd) as Hf. cbv zeta in H. destruct rest as [|next rest'].
        + eapply IH; [|by apply log_ends_normal; [exact Hf|left]|exact H]. simpl. lia.
        + repeat case_match; (eapply IH; [| |exact H]; [simpl; lia|]);
            first [by apply log_ends_normal; [exact Hf|left]|by split].
      - eapply IH; [| |exact H]; [simpl; lia|]. split; [done|]. by rewrite snoc_contains, Hd, Hc. }
    destruct scan as [literal|name|name]; cbn [scan_access_log] in H.
    + by eapply Htext.
    + destruct (ascii_eqb c "}"%char); [|eapply IH; [| |exact H]; [simpl; lia|exact Hok]].
      destruct (parse_access_log_variable name) as [v|]; cbn [rbind] in H; [|done].
      eapply IH; [| |exact H]; [simpl; lia|]. apply log_ends_normal; [apply Hok|eauto].
    + destruct (is_access_log_variable_char c); [eapply IH; [| |exact H]; [simpl; lia|exact Hok]|].
      destruct (parse_access_log_variable name) as [v|]; cbn [rbind] in H; [|done].
      eapply Htext; [|exact H]. apply log_ends_normal; [apply Hok|eauto].
Qed.

(** Access log formats round-trip: what the parser reads off a template is
    in normal form (no variable unresolved, no [$] left inside a literal), and
    every sequence of segments in normal form is read back from its printed
    text, [$] doubled and variables in braces.  So a format means what its
    segments say, and every format can be written. *)
Theorem access_log_format_roundtrip :
  (∀ segments, log_normal false segments = true →
     parse_access_log_format (print_access_log segments) =
     Ok (mkAccessLogFormat (print_access_log segments) segments)) ∧
  (∀ template format, parse_access_log_format template = Ok format →
     log_template format = template ∧ log_normal false (log_segments format) = true ∧
     log_segments <$> result_ok (parse_access_log_format (print_access_log (log_segments format))) =
       Some (log_segments format)).
Proof.
  assert (∀ segments, log_normal false segments = true →
     parse_access_log_format (print_access_log segments) =
     Ok (mkAccessLogFormat (print_access_log segments) segments)) as Hprint.
  { intros segments Hn. unfold parse_access_log_format. rewrite (scan_printed_log segments EmptyString [] Hn). by rewrite log_flush_nil. }
  split; [exact Hprint|]. intros template format H. unfold parse_access_log_format in H.
  destruct (scan_access_log _ _ _) as [segments|] eqn:Hs; simplify_eq/=.
  assert (log_normal false segments = true) as Hn
    by (refine (scan_access_log_normal _ _ _ _ _ Hs); by split_and!).
  by rewrite (Hprint segments Hn).
Qed.

Definition sample_log_template : string := "$remote_addr [$request] ${status}: $$$body_bytes_sent".
Definition sample_log_segments : list AccessLogSegment :=
  [LogVariable LogRemoteAddr; LogLiteral " ["; LogVariable LogRequest; LogLiteral "] "; LogVariable LogStatus;
   LogLiteral ": "; LogLiteral dollar; LogVariable LogBodyBytesSent].

Lemma access_log_format_roundtrip_witness :
  log_normal false sample_log_segments = true ∧
  parse_access_log_format (print_access_log sample_log_segments) =
    Ok (mkAccessLogFormat (print_access_log sample_log_segments) sample_log_segments) ∧
  print_access_log sample_log_segments = "${remote_addr} [${request}] ${status}: $$${body_bytes_sent}"%string ∧
  log_segments <$> result_ok (parse_access_log_format sample_log_template) = Some sample_log_segments.
Proof.
  split_and!; [reflexivity|by apply (proj1 access_log_format_roundtrip)|reflexivity|reflexivity].
Defined.
