(* ===== verification/ConfigUpstream.v ===== *)
(** * Configuration: upstreams

    Models [crates/rginx-config/src/model/upstream.rs] (the raw data),
    [validate/upstream.rs], [validate/upstream/] and [compile/upstream.rs],
    [compile/upstream/].  Integers are as they were deserialized, in the range
    of their type; a socket address is its text once parsed. *)

From S2P Require Import Prelude RustStr External ConfigBase Upstream.

(** ** Data *)

(** Source: crates/rginx-config/src/model/upstream.rs:98-105 (UpstreamTlsModeConfig) *)
Inductive UpstreamTlsModeConfig : Type :=
| NativeRootsConfig
| CustomCaConfig (ca_cert_path : string)
| InsecureConfig.

(** Source: crates/rginx-config/src/model/upstream.rs:118-125 (UpstreamProtocolConfig) *)
Inductive UpstreamProtocolConfig : Type :=
| AutoConfig | Http1Config | Http2Config | H2cConfig | Http3Config.

(** Source: crates/rginx-config/src/model/upstream.rs:128-133 (UpstreamLoadBalanceConfig) *)
Inductive UpstreamLoadBalanceConfig : Type :=
| RoundRobinConfig | IpHashConfig | LeastConnConfig.

(** Source: crates/rginx-config/src/model/tls.rs:76-79 (TlsVersionConfig) *)
Inductive TlsVersionConfig : Type := Tls12Config | Tls13Config.

#[export] Instance TlsVersionConfig_eq_dec : EqDecision TlsVersionConfig.
Proof. solve_decision. Defined.

(** Source: crates/rginx-config/src/model/upstream.rs:108-115 (UpstreamTlsConfig) *)
Record UpstreamTlsConfig : Type := mkUpstreamTlsConfig {
  utls_verify : UpstreamTlsModeConfig;
  utls_versions : option (list TlsVersionConfig);
  utls_verify_depth : option Z;
  utls_crl_path : option string;
  utls_client_cert_path : option string;
  utls_client_key_path : option string;
}.

(** Source: crates/rginx-config/src/model/upstream.rs:63-80 (UpstreamDnsConfig) *)
Record UpstreamDnsConfig : Type := mkUpstreamDnsConfig {
  udns_resolver_addrs : list string;
  udns_min_ttl_secs : option Z;
  udns_max_ttl_secs : option Z;
  udns_negative_ttl_secs : option Z;
  udns_stale_if_error_secs : option Z;
  udns_refresh_before_expiry_secs : option Z;
  udns_prefer_ipv4 : option bool;
  udns_prefer_ipv6 : option bool;
}.

(** Source: crates/rginx-config/src/model/upstream.rs:83-91 (UpstreamPeerConfig) *)
Record UpstreamPeerConfig : Type := mkUpstreamPeerConfig {
  pc_url : string;
  pc_weight : Z;
  pc_backup : bool;
  pc_max_conns : option Z;
}.

(** Source: crates/rginx-config/src/model/upstream.rs:6-60 (UpstreamConfig) *)
Record UpstreamConfig : Type := mkUpstreamConfig {
  uc_name : string;
  uc_peers : list UpstreamPeerConfig;
  uc_tls : option UpstreamTlsConfig;
  uc_dns : option UpstreamDnsConfig;
  uc_protocol : UpstreamProtocolConfig;
  uc_load_balance : UpstreamLoadBalanceConfig;
  uc_server_name : option bool;
  uc_server_name_override : option string;
  uc_request_timeout_secs : option Z;
  uc_connect_timeout_secs : option Z;
  uc_read_timeout_secs : option Z;
  uc_write_timeout_secs : option Z;
  uc_idle_timeout_secs : option Z;
  uc_pool_idle_timeout_secs : option Z;
  uc_pool_max_idle_per_host : option Z;
  uc_tcp_keepalive_secs : option Z;
  uc_tcp_nodelay : option bool;
  uc_http2_keep_alive_interval_secs : option Z;
  uc_http2_keep_alive_timeout_secs : option Z;
  uc_http2_keep_alive_while_idle : option bool;
  uc_max_replayable_request_body_bytes : option Z;
  uc_unhealthy_after_failures : option Z;
  uc_unhealthy_cooldown_secs : option Z;
  uc_health_check_path : option string;
  uc_health_check_grpc_service : option string;
  uc_health_check_interval_secs : option Z;
  uc_health_check_timeout_secs : option Z;
  uc_healthy_successes_required : option Z;
}.

(** Source: crates/rginx-config/src/compile/mod.rs:19-38 (DEFAULT_UPSTREAM_REQUEST_TIMEOUT_SECS and DEFAULT_GRPC_HEALTH_CHECK_PATH) *)
Definition DEFAULT_UPSTREAM_REQUEST_TIMEOUT_SECS : Z := 30.
Definition DEFAULT_UPSTREAM_CONNECT_TIMEOUT_SECS : Z := DEFAULT_UPSTREAM_REQUEST_TIMEOUT_SECS.
Definition DEFAULT_UPSTREAM_WRITE_TIMEOUT_SECS : Z := DEFAULT_UPSTREAM_REQUEST_TIMEOUT_SECS.
Definition DEFAULT_UPSTREAM_IDLE_TIMEOUT_SECS : Z := DEFAULT_UPSTREAM_REQUEST_TIMEOUT_SECS.
Definition DEFAULT_UPSTREAM_POOL_IDLE_TIMEOUT_SECS : Z := 90.
Definition DEFAULT_UPSTREAM_POOL_MAX_IDLE_PER_HOST : Z := u64_max.
Definition DEFAULT_UPSTREAM_HTTP2_KEEP_ALIVE_TIMEOUT_SECS : Z := 20.
Definition DEFAULT_MAX_REPLAYABLE_REQUEST_BODY_BYTES : Z := 64 * 1024.
Definition DEFAULT_UNHEALTHY_AFTER_FAILURES : Z := 2.
Definition DEFAULT_UNHEALTHY_COOLDOWN_SECS : Z := 10.
Definition DEFAULT_HEALTH_CHECK_INTERVAL_SECS : Z := 5.
Definition DEFAULT_HEALTH_CHECK_TIMEOUT_SECS : Z := 2.
Definition DEFAULT_HEALTHY_SUCCESSES_REQUIRED : Z := 2.
Definition DEFAULT_UPSTREAM_DNS_MIN_TTL_SECS : Z := 5.
Definition DEFAULT_UPSTREAM_DNS_MAX_TTL_SECS : Z := 300.
Definition DEFAULT_UPSTREAM_DNS_NEGATIVE_TTL_SECS : Z := 30.
Definition DEFAULT_UPSTREAM_DNS_STALE_IF_ERROR_SECS : Z := 60.
Definition DEFAULT_UPSTREAM_DNS_REFRESH_BEFORE_EXPIRY_SECS : Z := 10.
Definition DEFAULT_GRPC_HEALTH_CHECK_PATH : string := "/grpc.health.v1.Health/Check".

Section ConfigUpstream.
  Context {NET : IpNetApi} {RX : RegexApi} {API : ConfigApi NET RX}.

(** ** Validation *)

(** Source: crates/rginx-config/src/validate/upstream/basics.rs:3-46 (validate_upstream_name_and_peers) *)
Definition validate_upstream_name_and_peers (upstream : UpstreamConfig) (upstream_names : gset string)
    : result Error (gset string) :=
  let name := uc_name upstream in
  let? _ := reject (blank name) fail["upstream name must not be empty"] in
  let '(inserted, upstream_names) := hs_insert name upstream_names in
  let? _ := reject (negb inserted) fail["duplicate upstream `"; name; "`"] in
  let? _ := reject (bool_decide (uc_peers upstream = []))
    fail["upstream `"; name; "` must define at least one peer"] in
  let? _ := for_each (λ peer,
    let? _ := reject (blank (pc_url peer)) fail["upstream `"; name; "` contains an empty peer url"] in
    let? _ := reject (pc_weight peer =? 0)
      fail["upstream `"; name; "` peer `"; pc_url peer; "` weight must be greater than 0"] in
    reject (is_zero (pc_max_conns peer))
      fail["upstream `"; name; "` peer `"; pc_url peer; "` max_conns must be greater than 0"])
    (uc_peers upstream) in
  Ok upstream_names.

(** Source: crates/rginx-config/src/validate/upstream/basics.rs:48-59 (validate_server_name_override) *)
Definition validate_server_name_override (upstream : UpstreamConfig) : result Error () :=
  reject (is_some_and blank (uc_server_name_override upstream))
    fail["upstream `"; uc_name upstream; "` server_name_override must not be empty"].

(** Source: crates/rginx-config/src/validate/upstream/tls.rs:70-91 (validate_tls_versions) *)
Definition validate_tls_versions (upstream_name : string) (versions : option (list TlsVersionConfig))
    : result Error () :=
  match versions with
  | None => Ok tt
  | Some versions =>
      let? _ := reject (bool_decide (versions = []))
        fail["upstream `"; upstream_name; "` TLS versions must not be empty"] in
      reject (negb (bool_decide (NoDup versions)))
        fail["upstream `"; upstream_name; "` TLS versions must not contain duplicates"]
  end.

(** Source: crates/rginx-config/src/validate/upstream/tls.rs:3-68 (validate_tls_settings) *)
Definition validate_tls_settings (upstream : UpstreamConfig) : result Error () :=
  let name := uc_name upstream in
  match uc_tls upstream with
  | None => Ok tt
  | Some tls =>
      let? _ := reject (match utls_verify tls with CustomCaConfig path => blank path | _ => false end)
        fail["upstream `"; name; "` custom CA path must not be empty"] in
      let? _ := validate_tls_versions name (utls_versions tls) in
      let? _ := reject (is_zero (utls_verify_depth tls))
        fail["upstream `"; name; "` verify_depth must be greater than 0"] in
      let? _ := reject (is_some_and blank (utls_crl_path tls))
        fail["upstream `"; name; "` crl_path must not be empty"] in
      let? _ := reject
        (match utls_verify tls with
         | InsecureConfig => is_some (utls_verify_depth tls) || is_some (utls_crl_path tls)
         | _ => false
         end)
        fail["upstream `"; name; "` verify_depth and crl_path require certificate verification to remain enabled"] in
      match utls_client_cert_path tls, utls_client_key_path tls with
      | Some cert_path, Some key_path =>
          let? _ := reject (blank cert_path) fail["upstream `"; name; "` client_cert_path must not be empty"] in
          reject (blank key_path) fail["upstream `"; name; "` client_key_path must not be empty"]
      | None, None => Ok tt
      | _, _ =>
          Err fail["upstream `"; name; "` mTLS identity requires both client_cert_path and client_key_path"]
      end
  end.

Definition protocol_name (p : UpstreamProtocolConfig) : string :=
  match p with
  | AutoConfig => "Auto" | Http1Config => "Http1" | Http2Config => "Http2"
  | H2cConfig => "H2c" | Http3Config => "Http3"
  end.

(** Source: crates/rginx-config/src/validate/upstream/protocol.rs:3-38 (validate_protocol_requirements) *)
Definition validate_protocol_requirements (upstream : UpstreamConfig) : result Error () :=
  let name := uc_name upstream in
  for_each (λ peer,
    let? uri := ok_or (parse_uri (pc_url peer))
      fail["upstream `"; name; "` peer url `"; pc_url peer; "` is not a valid URI: ";
           display_error "Uri" (pc_url peer)] in
    let scheme_is s := bool_decide (uri_scheme uri = Some s) in
    match uc_protocol upstream with
    | Http2Config | Http3Config =>
        reject (negb (scheme_is "https"%string))
          fail["upstream `"; name; "` protocol `"; protocol_name (uc_protocol upstream);
               "` currently requires all peers to use `https://`; cleartext upstreams are not supported"]
    | H2cConfig =>
        reject (negb (scheme_is "http"%string))
          fail["upstream `"; name; "` protocol `H2c` requires all peers to use `http://`"]
    | _ => Ok tt
    end) (uc_peers upstream).

(** Source: crates/rginx-config/src/validate/upstream/dns.rs:3-55 (validate_dns_settings) *)
Definition validate_dns_settings (upstream : UpstreamConfig) : result Error () :=
  let name := uc_name upstream in
  match uc_dns upstream with
  | None => Ok tt
  | Some dns =>
      let? _ := for_each (λ resolver_addr,
        let? _ := reject (blank resolver_addr)
          fail["upstream `"; name; "` dns.resolver_addrs must not contain blank entries"] in
        reject (negb (is_some (socket_from_str resolver_addr)))
          fail["upstream `"; name; "` dns.resolver_addrs entry `"; resolver_addr; "` is invalid: "; addr_error])
        (udns_resolver_addrs dns) in
      let? _ := for_each (λ '(field, value),
        reject (is_zero value) fail["upstream `"; name; "` "; field; " must be greater than 0"])
        [("dns.min_ttl_secs"%string, udns_min_ttl_secs dns);
         ("dns.max_ttl_secs"%string, udns_max_ttl_secs dns);
         ("dns.negative_ttl_secs"%string, udns_negative_ttl_secs dns);
         ("dns.stale_if_error_secs"%string, udns_stale_if_error_secs dns);
         ("dns.refresh_before_expiry_secs"%string, udns_refresh_before_expiry_secs dns)] in
      let? _ := reject (default false (udns_prefer_ipv4 dns) && default false (udns_prefer_ipv6 dns))
        fail["upstream `"; name; "` dns.prefer_ipv4 and dns.prefer_ipv6 cannot both be true"] in
      reject (match udns_min_ttl_secs dns, udns_max_ttl_secs dns with
              | Some min_ttl, Some max_ttl => max_ttl <? min_ttl
              | _, _ => false
              end)
        fail["upstream `"; name; "` dns.min_ttl_secs must be less than or equal to dns.max_ttl_secs"]
  end.

(** Source: crates/rginx-config/src/validate/upstream/tuning.rs:3-53 (validate_timeout_and_tuning) *)
Definition validate_timeout_and_tuning (upstream : UpstreamConfig) : result Error () :=
  let name := uc_name upstream in
  let? _ := for_each (λ '(field, value),
    reject (is_zero value) fail["upstream `"; name; "` "; field; " must be greater than 0"])
    [("request_timeout_secs"%string, uc_request_timeout_secs upstream);
     ("connect_timeout_secs"%string, uc_connect_timeout_secs upstream);
     ("read_timeout_secs"%string, uc_read_timeout_secs upstream);
     ("write_timeout_secs"%string, uc_write_timeout_secs upstream);
     ("idle_timeout_secs"%string, uc_idle_timeout_secs upstream);
     ("tcp_keepalive_secs"%string, uc_tcp_keepalive_secs upstream);
     ("http2_keep_alive_interval_secs"%string, uc_http2_keep_alive_interval_secs upstream);
     ("http2_keep_alive_timeout_secs"%string, uc_http2_keep_alive_timeout_secs upstream)] in
  let has_http2_keep_alive_tuning :=
    is_some (uc_http2_keep_alive_timeout_secs upstream)
    || is_some (uc_http2_keep_alive_while_idle upstream) in
  let? _ := reject (negb (is_some (uc_http2_keep_alive_interval_secs upstream)) && has_http2_keep_alive_tuning)
    fail["upstream `"; name; "` http2_keep_alive_timeout_secs and http2_keep_alive_while_idle require http2_keep_alive_interval_secs to be set"] in
  let? _ := reject (is_zero (uc_max_replayable_request_body_bytes upstream))
    fail["upstream `"; name; "` max_replayable_request_body_bytes must be greater than 0"] in
  let? _ := reject (is_zero (uc_unhealthy_after_failures upstream))
    fail["upstream `"; name; "` unhealthy_after_failures must be greater than 0"] in
  reject (is_zero (uc_unhealthy_cooldown_secs upstream))
    fail["upstream `"; name; "` unhealthy_cooldown_secs must be greater than 0"].

(** Source: crates/rginx-config/src/validate/upstream/health.rs:5-114 (validate_active_health_settings) *)
Definition validate_active_health_settings (upstream : UpstreamConfig) : result Error () :=
  let name := uc_name upstream in
  let? _ :=
    match uc_health_check_path upstream with
    | None => Ok tt
    | Some path =>
        let? _ := reject (blank path) fail["upstream `"; name; "` health_check_path must not be empty"] in
        let? _ := reject (negb (starts_with "/" path))
          fail["upstream `"; name; "` health_check_path must start with `/`"] in
        reject (negb (path_and_query_ok path))
          fail["upstream `"; name; "` health_check_path `"; path; "` is invalid: ";
               display_error "PathAndQuery" path]
    end in
  let? _ :=
    match uc_health_check_grpc_service upstream with
    | None => Ok tt
    | Some service =>
        let? _ := reject (negb (str_is_empty service) && blank service)
          fail["upstream `"; name; "` health_check_grpc_service must not be blank"] in
        let? _ := reject (contains_char "/" service)
          fail["upstream `"; name; "` health_check_grpc_service must not contain `/`"] in
        let? _ := reject
          (is_some_and (λ path, negb (str_eqb path DEFAULT_GRPC_HEALTH_CHECK_PATH)) (uc_health_check_path upstream))
          fail["upstream `"; name; "` health_check_grpc_service requires health_check_path to be `";
               DEFAULT_GRPC_HEALTH_CHECK_PATH; "`"] in
        let? _ := reject (match uc_protocol upstream with Http1Config => true | _ => false end)
          fail["upstream `"; name; "` health_check_grpc_service requires protocol `Auto`, `Http2`, or `H2c`"] in
        let h2c := match uc_protocol upstream with H2cConfig => true | _ => false end in
        let required_scheme : string := if h2c then "http" else "https" in
        reject
          (existsb (λ peer,
             match parse_uri (pc_url peer) with
             | Some uri => negb (bool_decide (uri_scheme uri = Some required_scheme))
             | None => true
             end) (uc_peers upstream))
          (if h2c
           then fail["upstream `"; name; "` health_check_grpc_service with protocol `H2c` requires all peers to use `http://`"]
           else fail["upstream `"; name; "` health_check_grpc_service currently requires all peers to use `https://`; cleartext h2c health checks are not supported"])
    end in
  let has_active_health_overrides :=
    is_some (uc_health_check_interval_secs upstream) || is_some (uc_health_check_timeout_secs upstream)
    || is_some (uc_healthy_successes_required upstream) in
  let? _ := reject
    (negb (is_some (uc_health_check_path upstream)) && negb (is_some (uc_health_check_grpc_service upstream))
     && has_active_health_overrides)
    fail["upstream `"; name; "` active health-check tuning requires health_check_path or health_check_grpc_service to be set"] in
  let? _ := for_each (λ '(field, value),
    reject (is_zero value) fail["upstream `"; name; "` "; field; " must be greater than 0"])
    [("health_check_interval_secs"%string, uc_health_check_interval_secs upstream);
     ("health_check_timeout_secs"%string, uc_health_check_timeout_secs upstream)] in
  reject (is_zero (uc_healthy_successes_required upstream))
    fail["upstream `"; name; "` healthy_successes_required must be greater than 0"].

Definition validate_upstream (upstream : UpstreamConfig) (upstream_names : gset string)
    : result Error (gset string) :=
  let? upstream_names := validate_upstream_name_and_peers upstream upstream_names in
  let? _ := validate_tls_settings upstream in
  let? _ := validate_server_name_override upstream in
  let? _ := validate_protocol_requirements upstream in
  let? _ := validate_dns_settings upstream in
  let? _ := validate_timeout_and_tuning upstream in
  let? _ := validate_active_health_settings upstream in
  Ok upstream_names.

(** Source: crates/rginx-config/src/validate/upstream.rs:16-30 (validate_upstreams) *)
Definition validate_upstreams (upstreams : list UpstreamConfig) : result Error (gset string) :=
  try_fold (λ names upstream, validate_upstream upstream names) ∅ upstreams.

(** ** Compilation *)

Definition from_secs (secs : Z) : Z := secs * 1000.

(** Source: crates/rginx-config/src/compile/upstream/settings.rs:11-19 (compile_timeout_secs) *)
Definition compile_timeout_secs (raw : Z) (upstream_name field : string) : result Error Z :=
  let? _ := reject (raw =? 0) fail["upstream `"; upstream_name; "` "; field; " must be greater than 0"] in
  Ok (from_secs raw).

(** Source: crates/rginx-config/src/compile/upstream/settings.rs:21-27 (compile_pool_max_idle_per_host) *)
Definition compile_pool_max_idle_per_host (upstream_name : string) (raw : Z) : result Error Z :=
  ok_or (usize_try_from raw)
    fail["upstream `"; upstream_name; "` pool_max_idle_per_host `"; dec raw; "` exceeds platform limits"].

(** Source: crates/rginx-config/src/compile/upstream/settings.rs:29-65 (compile_protocol) *)
Definition compile_protocol (upstream_name : string) (protocol : UpstreamProtocolConfig)
    (peers : list UpstreamPeer) : result Error UpstreamProtocol :=
  let any_other scheme := existsb (λ peer, negb (str_eqb (peer_scheme peer) scheme)) peers in
  match protocol with
  | AutoConfig => Ok ProtoAuto
  | Http1Config => Ok ProtoHttp1
  | Http2Config =>
      let? _ := reject (any_other "https"%string)
        fail["upstream `"; upstream_name; "` protocol `Http2` currently requires all peers to use `https://`; cleartext h2c upstreams are not supported"] in
      Ok ProtoHttp2
  | H2cConfig =>
      let? _ := reject (any_other "http"%string)
        fail["upstream `"; upstream_name; "` protocol `H2c` requires all peers to use `http://`"] in
      Ok ProtoH2c
  | Http3Config =>
      let? _ := reject (any_other "https"%string)
        fail["upstream `"; upstream_name; "` protocol `Http3` currently requires all peers to use `https://`; cleartext upstreams are not supported"] in
      Ok ProtoHttp3
  end.

(** Source: crates/rginx-config/src/compile/upstream/settings.rs:67-73 (compile_load_balance) *)
Definition compile_load_balance (load_balance : UpstreamLoadBalanceConfig) : UpstreamLoadBalance :=
  match load_balance with
  | RoundRobinConfig => RoundRobin
  | IpHashConfig => IpHash
  | LeastConnConfig => LeastConn
  end.

(** Source: crates/rginx-config/src/compile/upstream/settings.rs:140-147 (normalize_server_name_override) *)
Definition normalize_server_name_override (value : string) : string :=
  let trimmed := trim value in
  default trimmed (strip_prefix "[" trimmed ≫= strip_suffix "]").

(** Source: crates/rginx-config/src/compile/upstream/settings.rs:75-91 (compile_server_name_override) *)
Definition compile_server_name_override (upstream_name : string) (server_name_override : option string)
    : result Error (option string) :=
  match server_name_override with
  | None => Ok None
  | Some server_name_override =>
      let normalized := normalize_server_name_override server_name_override in
      let? _ := reject (negb (tls_server_name_ok normalized))
        fail["upstream `"; upstream_name; "` server_name_override `"; normalized; "` is invalid: ";
             display_error "ServerName" normalized] in
      Ok (Some normalized)
  end.

(** Source: crates/rginx-config/src/compile/upstream/settings.rs:93-104 (compile_max_replayable_request_body_bytes) *)
Definition compile_max_replayable_request_body_bytes (upstream_name : string) (bytes : option Z)
    : result Error Z :=
  let bytes := default DEFAULT_MAX_REPLAYABLE_REQUEST_BODY_BYTES bytes in
  ok_or (usize_try_from bytes)
    fail["upstream `"; upstream_name; "` max_replayable_request_body_bytes `"; dec bytes; "` exceeds platform limits"].

(** Source: crates/rginx-config/src/compile/upstream/settings.rs:106-138 (compile_active_health_check) *)
Definition compile_active_health_check (upstream_name : string)
    (health_check_path health_check_grpc_service : option string)
    (health_check_interval_secs health_check_timeout_secs healthy_successes_required : option Z)
    : result Error (option ActiveHealthCheck) :=
  let path :=
    match health_check_path, health_check_grpc_service with
    | Some path, _ => Some path
    | None, Some _ => Some DEFAULT_GRPC_HEALTH_CHECK_PATH
    | None, None => None
    end in
  match path with
  | None => Ok None
  | Some path =>
      let? _ := reject (negb (path_and_query_ok path))
        fail["upstream `"; upstream_name; "` health_check_path `"; path; "` is invalid: ";
             display_error "PathAndQuery" path] in
      Ok (Some {|
        ahc_path := path;
        ahc_grpc_service := health_check_grpc_service;
        ahc_interval := from_secs (default DEFAULT_HEALTH_CHECK_INTERVAL_SECS health_check_interval_secs);
        ahc_timeout := from_secs (default DEFAULT_HEALTH_CHECK_TIMEOUT_SECS health_check_timeout_secs);
        ahc_healthy_successes_required := default DEFAULT_HEALTHY_SUCCESSES_REQUIRED healthy_successes_required;
      |})
  end.

(** Source: crates/rginx-config/src/compile/upstream/peer.rs:3-52 (compile_peer) *)
Definition compile_peer (upstream_name url : string) (weight : Z) (backup : bool) (max_conns : option Z)
    : result Error UpstreamPeer :=
  let? uri := ok_or (parse_uri url) (InvalidUri (display_error "Uri" url)) in
  let? scheme := ok_or (uri_scheme uri)
    fail["upstream `"; upstream_name; "` peer `"; url; "` must include a scheme"] in
  let? authority := ok_or (uri_authority uri)
    fail["upstream `"; upstream_name; "` peer `"; url; "` must include an authority"] in
  let? _ := reject (negb (str_eqb scheme "http") && negb (str_eqb scheme "https"))
    fail["upstream `"; upstream_name; "` peer `"; url; "` uses unsupported scheme `"; scheme;
         "`; only `http` and `https` are supported in this build"] in
  let? _ := reject (negb (str_eqb (uri_path uri) "/") && negb (str_is_empty (uri_path uri)))
    fail["upstream `"; upstream_name; "` peer `"; url; "` must not contain a path"] in
  let? _ := reject (is_some (uri_query uri))
    fail["upstream `"; upstream_name; "` peer `"; url; "` must not contain a query"] in
  let? max_conns := transpose (λ value,
    ok_or (usize_try_from value)
      fail["upstream `"; upstream_name; "` peer `"; authority; "` max_conns `"; dec value; "` does not fit into usize"])
    max_conns in
  Ok {| peer_url := url; peer_scheme := scheme; peer_authority := authority;
        peer_weight := weight; peer_backup := backup; peer_max_conns := max_conns |}.

(** Source: crates/rginx-config/src/compile/upstream/tls.rs:7-13 (CompiledUpstreamTls) *)
Record CompiledUpstreamTls : Type := mkCompiledUpstreamTls {
  ctls_verify_mode : UpstreamTls;
  ctls_tls_versions : option (list TlsVersion);
  ctls_server_verify_depth : option Z;
  ctls_server_crl_path : option string;
  ctls_client_identity : option (string * string);
}.

(** Source: crates/rginx-config/src/compile/upstream/tls.rs:97-107 (compile_tls_versions) *)
Definition compile_tls_versions (versions : option (list TlsVersionConfig)) : option (list TlsVersion) :=
  map (λ version, match version with Tls12Config => Tls12 | Tls13Config => Tls13 end) <$> versions.

Definition existing_file (base_dir path : string) (error : string → Error) : result Error string :=
  let resolved := resolve_path base_dir path in
  let? _ := reject (negb (path_is_file resolved)) (error resolved) in
  Ok resolved.

(** Source: crates/rginx-config/src/compile/upstream/tls.rs:15-95 (compile_tls) *)
Definition compile_tls (upstream_name : string) (tls : option UpstreamTlsConfig) (base_dir : string)
    : result Error CompiledUpstreamTls :=
  let tls := default (mkUpstreamTlsConfig NativeRootsConfig None None None None None) tls in
  let missing (what resolved : string) :=
    fail["upstream `"; upstream_name; "` "; what; " file `"; resolved; "` does not exist or is not a file"] in
  let? verify_mode :=
    match utls_verify tls with
    | NativeRootsConfig => Ok NativeRoots
    | InsecureConfig => Ok Insecure
    | CustomCaConfig ca_cert_path => rmap CustomCa (existing_file base_dir ca_cert_path (missing "custom CA"%string))
    end in
  let tls_versions := compile_tls_versions (utls_versions tls) in
  let? server_crl_path := transpose (λ path, existing_file base_dir path (missing "CRL"%string)) (utls_crl_path tls) in
  let? client_identity :=
    match utls_client_cert_path tls, utls_client_key_path tls with
    | None, None => Ok None
    | Some cert_path, Some key_path =>
        let? cert_path := existing_file base_dir cert_path (missing "client certificate"%string) in
        let? key_path := existing_file base_dir key_path (missing "client private key"%string) in
        Ok (Some (cert_path, key_path))
    | _, _ =>
        Err fail["upstream `"; upstream_name; "` mTLS identity requires both client_cert_path and client_key_path"]
    end in
  Ok (mkCompiledUpstreamTls verify_mode tls_versions (utls_verify_depth tls) server_crl_path client_identity).

(** Source: crates/rginx-config/src/compile/upstream/dns.rs:9-71 (compile_dns_policy) *)
Definition compile_dns_policy (upstream_name : string) (dns : option UpstreamDnsConfig)
    : result Error UpstreamDnsPolicy :=
  match dns with
  | None => Ok dns_policy_default
  | Some dns =>
      let? resolver_addrs := collect (λ value,
        let? addr := ok_or (socket_from_str value)
          fail["upstream `"; upstream_name; "` dns.resolver_addrs entry `"; value; "` is invalid: "; addr_error] in
        Ok (socket_to_string addr)) (udns_resolver_addrs dns) in
      let ttl (value : option Z) default_secs field :=
        compile_timeout_secs (default default_secs value) upstream_name field in
      let? min_ttl := ttl (udns_min_ttl_secs dns) DEFAULT_UPSTREAM_DNS_MIN_TTL_SECS "dns.min_ttl_secs"%string in
      let? max_ttl := ttl (udns_max_ttl_secs dns) DEFAULT_UPSTREAM_DNS_MAX_TTL_SECS "dns.max_ttl_secs"%string in
      let? negative_ttl :=
        ttl (udns_negative_ttl_secs dns) DEFAULT_UPSTREAM_DNS_NEGATIVE_TTL_SECS "dns.negative_ttl_secs"%string in
      let? stale_if_error :=
        ttl (udns_stale_if_error_secs dns) DEFAULT_UPSTREAM_DNS_STALE_IF_ERROR_SECS "dns.stale_if_error_secs"%string in
      let? refresh_before_expiry :=
        ttl (udns_refresh_before_expiry_secs dns) DEFAULT_UPSTREAM_DNS_REFRESH_BEFORE_EXPIRY_SECS
          "dns.refresh_before_expiry_secs"%string in
      let? _ := reject (max_ttl <? min_ttl)
        fail["upstream `"; upstream_name; "` dns.min_ttl_secs must be less than or equal to dns.max_ttl_secs"] in
      Ok {| dns_resolver_addrs := resolver_addrs;
            dns_min_ttl := min_ttl; dns_max_ttl := max_ttl; dns_negative_ttl := negative_ttl;
            dns_stale_if_error := stale_if_error; dns_refresh_before_expiry := refresh_before_expiry;
            dns_prefer_ipv4 := default false (udns_prefer_ipv4 dns);
            dns_prefer_ipv6 := default false (udns_prefer_ipv6 dns) |}
  end.

(** [a.or(b).unwrap_or(default)]. *)
Definition or_else (a b : option Z) (d : Z) : Z :=
  match a, b with Some a, _ => a | None, Some b => b | None, None => d end.

(** The closure of [compile_upstreams_with_names], for one upstream. *)
(** Source: crates/rginx-config/src/compile/upstream.rs:34-204 (compile_upstreams_with_names) *)
Definition compile_upstream (base_dir : string) (name_mapper : string → string) (upstream : UpstreamConfig)
    : result Error (string * Upstream) :=
  let name := name_mapper (uc_name upstream) in
  let? peers := collect (λ peer,
    compile_peer name (pc_url peer) (pc_weight peer) (pc_backup peer) (pc_max_conns peer)) (uc_peers upstream) in
  let? compiled_tls := compile_tls name (uc_tls upstream) base_dir in
  let? protocol := compile_protocol name (uc_protocol upstream) peers in
  let load_balance := compile_load_balance (uc_load_balance upstream) in
  let? dns := compile_dns_policy name (uc_dns upstream) in
  let? server_name_override := compile_server_name_override name (uc_server_name_override upstream) in
  let timeout (secs : option Z) default_secs field :=
    compile_timeout_secs (or_else secs (uc_request_timeout_secs upstream) default_secs) name field in
  let? request_timeout :=
    timeout (uc_read_timeout_secs upstream) DEFAULT_UPSTREAM_REQUEST_TIMEOUT_SECS "read_timeout_secs"%string in
  let? connect_timeout :=
    timeout (uc_connect_timeout_secs upstream) DEFAULT_UPSTREAM_CONNECT_TIMEOUT_SECS "connect_timeout_secs"%string in
  let? write_timeout :=
    timeout (uc_write_timeout_secs upstream) DEFAULT_UPSTREAM_WRITE_TIMEOUT_SECS "write_timeout_secs"%string in
  let? idle_timeout :=
    timeout (uc_idle_timeout_secs upstream) DEFAULT_UPSTREAM_IDLE_TIMEOUT_SECS "idle_timeout_secs"%string in
  let? pool_idle_timeout :=
    match uc_pool_idle_timeout_secs upstream with
    | Some secs =>
        if secs =? 0 then Ok None
        else rmap Some (compile_timeout_secs secs name "pool_idle_timeout_secs")
    | None => Ok (Some (from_secs DEFAULT_UPSTREAM_POOL_IDLE_TIMEOUT_SECS))
    end in
  let? pool_max_idle_per_host := compile_pool_max_idle_per_host name
    (default DEFAULT_UPSTREAM_POOL_MAX_IDLE_PER_HOST (uc_pool_max_idle_per_host upstream)) in
  let? tcp_keepalive := transpose (λ secs, compile_timeout_secs secs name "tcp_keepalive_secs")
    (uc_tcp_keepalive_secs upstream) in
  let? http2_keep_alive_interval :=
    transpose (λ secs, compile_timeout_secs secs name "http2_keep_alive_interval_secs")
      (uc_http2_keep_alive_interval_secs upstream) in
  let? http2_keep_alive_timeout := compile_timeout_secs
    (default DEFAULT_UPSTREAM_HTTP2_KEEP_ALIVE_TIMEOUT_SECS (uc_http2_keep_alive_timeout_secs upstream))
    name "http2_keep_alive_timeout_secs" in
  let? max_replayable_request_body_bytes :=
    compile_max_replayable_request_body_bytes name (uc_max_replayable_request_body_bytes upstream) in
  let? active_health_check := compile_active_health_check name
    (uc_health_check_path upstream) (uc_health_check_grpc_service upstream)
    (uc_health_check_interval_secs upstream) (uc_health_check_timeout_secs upstream)
    (uc_healthy_successes_required upstream) in
  Ok (name, new_upstream name peers (ctls_verify_mode compiled_tls) {|
    set_protocol := protocol;
    set_load_balance := load_balance;
    set_dns := dns;
    set_server_name := default true (uc_server_name upstream);
    set_server_name_override := server_name_override;
    set_tls_versions := ctls_tls_versions compiled_tls;
    set_server_verify_depth := ctls_server_verify_depth compiled_tls;
    set_server_crl_path := ctls_server_crl_path compiled_tls;
    set_client_identity := ctls_client_identity compiled_tls;
    set_request_timeout := request_timeout;
    set_connect_timeout := connect_timeout;
    set_write_timeout := write_timeout;
    set_idle_timeout := idle_timeout;
    set_pool_idle_timeout := pool_idle_timeout;
    set_pool_max_idle_per_host := pool_max_idle_per_host;
    set_tcp_keepalive := tcp_keepalive;
    set_tcp_nodelay := default false (uc_tcp_nodelay upstream);
    set_http2_keep_alive_interval := http2_keep_alive_interval;
    set_http2_keep_alive_timeout := http2_keep_alive_timeout;
    set_http2_keep_alive_while_idle := default false (uc_http2_keep_alive_while_idle upstream);
    set_max_replayable_request_body_bytes := max_replayable_request_body_bytes;
    set_unhealthy_after_failures := default DEFAULT_UNHEALTHY_AFTER_FAILURES (uc_unhealthy_after_failures upstream);
    set_unhealthy_cooldown := from_secs (default DEFAULT_UNHEALTHY_COOLDOWN_SECS (uc_unhealthy_cooldown_secs upstream));
    set_active_health_check := active_health_check;
  |}).

Local Notation Upstreams := (gmap string Upstream).

Definition add_compiled (compiled : list (string * Upstream)) : result Error Upstreams :=
  try_fold (λ upstreams '(name, upstream),
    let? _ := reject (is_some (upstreams !! name)) fail["duplicate compiled upstream `"; name; "`"] in
    Ok (<[name := upstream]> upstreams)) ∅ compiled.

(** Source: crates/rginx-config/src/compile/upstream.rs:34-204 (compile_upstreams_with_names) *)
Definition compile_upstreams_with_names (raw_upstreams : list UpstreamConfig) (base_dir : string)
    (name_mapper : string → string) : result Error Upstreams :=
  let? compiled := collect (compile_upstream base_dir name_mapper) raw_upstreams in
  add_compiled compiled.

(** Source: crates/rginx-config/src/compile/upstream.rs:15-20 (compile_upstreams) *)
Definition compile_upstreams (raw_upstreams : list UpstreamConfig) (base_dir : string)
    : result Error Upstreams :=
  compile_upstreams_with_names raw_upstreams base_dir (λ name, name).

(** Source: crates/rginx-config/src/compile/upstream.rs:30-32 (scoped_upstream_name) *)
Definition scoped_upstream_name (scope name : string) : string := fmt[scope; "::"; name].

(** Source: crates/rginx-config/src/compile/upstream.rs:22-28 (compile_scoped_upstreams) *)
Definition compile_scoped_upstreams (raw_upstreams : list UpstreamConfig) (base_dir scope : string)
    : result Error Upstreams :=
  compile_upstreams_with_names raw_upstreams base_dir (scoped_upstream_name scope).
End ConfigUpstream.
