(* ===== verification/ConfigUpstreamSafety.v ===== *)
(** * Validated upstreams

    A validated configuration of upstreams compiles to upstreams the runtime's
    theorems apply to, and what can still go wrong in compiling it is exactly
    what validation leaves to it: the shape of the peers' URLs, files that are
    not there, a server name TLS refuses, a minimal DNS lifetime above the
    default maximum. *)

From S2P Require Import Prelude RustStr External ConfigBase Upstream ConfigUpstream.

Section Typing.
  Context {NET : IpNetApi} {RX : RegexApi} {API : ConfigApi NET RX}.

(** ** What deserialization promises: every integer fits its type *)

Definition opt_u64 (o : option Z) : Prop := ∀ v, o = Some v → is_u64 v.
Definition opt_u32 (o : option Z) : Prop := ∀ v, o = Some v → is_u32 v.

Definition dns_config_typed (d : UpstreamDnsConfig) : Prop :=
  Forall opt_u64 [udns_min_ttl_secs d; udns_max_ttl_secs d; udns_negative_ttl_secs d;
                  udns_stale_if_error_secs d; udns_refresh_before_expiry_secs d].

Definition upstream_config_typed (u : UpstreamConfig) : Prop :=
  Forall (λ p, is_u32 (pc_weight p) ∧ opt_u64 (pc_max_conns p)) (uc_peers u) ∧
  Forall opt_u64
    [uc_request_timeout_secs u; uc_connect_timeout_secs u; uc_read_timeout_secs u;
     uc_write_timeout_secs u; uc_idle_timeout_secs u; uc_pool_idle_timeout_secs u;
     uc_pool_max_idle_per_host u; uc_tcp_keepalive_secs u; uc_http2_keep_alive_interval_secs u;
     uc_http2_keep_alive_timeout_secs u; uc_max_replayable_request_body_bytes u;
     uc_unhealthy_cooldown_secs u; uc_health_check_interval_secs u; uc_health_check_timeout_secs u] ∧
  Forall opt_u32 [uc_unhealthy_after_failures u; uc_healthy_successes_required u] ∧
  (∀ d, uc_dns u = Some d → dns_config_typed d).

(** ** What the runtime relies on *)

Definition positive (o : option Z) : Prop := ∀ v, o = Some v → 0 < v.

Definition peer_typed (p : UpstreamPeer) : Prop :=
  0 < peer_weight p < 2 ^ 32 ∧ (peer_scheme p = "http" ∨ peer_scheme p = "https")%string ∧
  (∀ v, peer_max_conns p = Some v → 0 < v < 2 ^ 64).

(** The scheme a protocol needs of every peer. *)
Definition required_scheme (p : UpstreamProtocol) : option string :=
  match p with
  | ProtoHttp2 | ProtoHttp3 => Some "https"%string
  | ProtoH2c => Some "http"%string
  | ProtoAuto | ProtoHttp1 => None
  end.

Definition dns_typed (d : UpstreamDnsPolicy) : Prop :=
  0 < dns_min_ttl d ≤ dns_max_ttl d ∧ 0 < dns_negative_ttl d ∧ 0 < dns_stale_if_error d ∧
  0 < dns_refresh_before_expiry d ∧ ¬ (dns_prefer_ipv4 d = true ∧ dns_prefer_ipv6 d = true).

Definition check_typed (c : ActiveHealthCheck) : Prop :=
  path_and_query_ok (ahc_path c) = true ∧ 0 < ahc_interval c ∧ 0 < ahc_timeout c ∧
  1 ≤ ahc_healthy_successes_required c < 2 ^ 32 ∧
  (∀ service, ahc_grpc_service c = Some service →
     ahc_path c = DEFAULT_GRPC_HEALTH_CHECK_PATH ∧ contains_char "/" service = false).

Definition upstream_typed (u : Upstream) : Prop :=
  up_peers u ≠ [] ∧ Forall peer_typed (up_peers u) ∧
  (∀ scheme, required_scheme (up_protocol u) = Some scheme →
     Forall (λ p, peer_scheme p = scheme) (up_peers u)) ∧
  dns_typed (up_dns u) ∧
  Forall (Z.lt 0) [up_request_timeout u; up_connect_timeout u; up_write_timeout u; up_idle_timeout u;
                   up_http2_keep_alive_timeout u; up_unhealthy_cooldown u;
                   up_max_replayable_request_body_bytes u] ∧
  Forall positive [up_pool_idle_timeout u; up_tcp_keepalive u; up_http2_keep_alive_interval u] ∧
  1 ≤ up_unhealthy_after_failures u < 2 ^ 32 ∧
  (∀ c, up_active_health_check u = Some c → check_typed c) ∧
  up_cursor u = 0.

(** What validation leaves to the compiler. *)
Definition peer_deployable (url : string) : Prop :=
  ∃ uri scheme authority,
    parse_uri url = Some uri ∧ uri_scheme uri = Some scheme ∧ uri_authority uri = Some authority ∧
    (scheme = "http" ∨ scheme = "https")%string ∧ (uri_path uri = "/" ∨ uri_path uri = "")%string ∧
    uri_query uri = None.

Definition file_there (base_dir : string) (path : option string) : Prop :=
  ∀ p, path = Some p → path_is_file (resolve_path base_dir p) = true.

Definition custom_ca (m : UpstreamTlsModeConfig) : option string :=
  match m with CustomCaConfig p => Some p | _ => None end.

Definition deployable (base_dir : string) (u : UpstreamConfig) : Prop :=
  Forall (λ p, peer_deployable (pc_url p)) (uc_peers u) ∧
  (∀ tls, uc_tls u = Some tls →
     Forall (file_there base_dir) [custom_ca (utls_verify tls); utls_crl_path tls;
                                   utls_client_cert_path tls; utls_client_key_path tls]) ∧
  (∀ name, uc_server_name_override u = Some name →
     tls_server_name_ok (normalize_server_name_override name) = true) ∧
  (∀ d, uc_dns u = Some d →
     default DEFAULT_UPSTREAM_DNS_MIN_TTL_SECS (udns_min_ttl_secs d) ≤
     default DEFAULT_UPSTREAM_DNS_MAX_TTL_SECS (udns_max_ttl_secs d)).

(** ** Validation, check by check *)

Definition validated (u : UpstreamConfig) : Prop :=
  blank (uc_name u) = false ∧ uc_peers u ≠ [] ∧
  Forall (λ p, blank (pc_url p) = false ∧ pc_weight p ≠ 0 ∧ is_zero (pc_max_conns p) = false) (uc_peers u) ∧
  validate_tls_settings u = Ok tt ∧ validate_server_name_override u = Ok tt ∧
  validate_protocol_requirements u = Ok tt ∧ validate_dns_settings u = Ok tt ∧
  validate_timeout_and_tuning u = Ok tt ∧ validate_active_health_settings u = Ok tt.

Lemma validate_upstream_name_and_peers_ok u names names' :
  validate_upstream_name_and_peers u names = Ok names' ↔
  blank (uc_name u) = false ∧ uc_name u ∉ names ∧ uc_peers u ≠ [] ∧
  Forall (λ p, blank (pc_url p) = false ∧ pc_weight p ≠ 0 ∧ is_zero (pc_max_conns p) = false) (uc_peers u) ∧
  names' = {[uc_name u]} ∪ names.
Proof.
  unfold validate_upstream_name_and_peers. cbn [hs_insert].
  rewrite !rbind_unit, !reject_ok, for_each_ok, negb_false_iff, bool_decide_eq_true, bool_decide_eq_false.
  rewrite (Forall_iff _ _ (λ p, blank (pc_url p) = false ∧ pc_weight p ≠ 0 ∧ is_zero (pc_max_conns p) = false)).
  2: { intros p. rewrite !rbind_unit, !reject_ok, Z.eqb_neq. done. }
  naive_solver.
Qed.

Lemma validate_upstream_ok u names names' :
  validate_upstream u names = Ok names' ↔
  validated u ∧ uc_name u ∉ names ∧ names' = {[uc_name u]} ∪ names.
Proof.
  unfold validate_upstream, validated.
  rewrite rbind_ok. split.
  - intros (a & Ha%validate_upstream_name_and_peers_ok & H). rewrite !rbind_unit in H. naive_solver.
  - intros H. exists names'. rewrite validate_upstream_name_and_peers_ok, !rbind_unit. naive_solver.
Qed.

Lemma validate_upstreams_ok upstreams names :
  validate_upstreams upstreams = Ok names ↔
  Forall validated upstreams ∧ NoDup (uc_name <$> upstreams) ∧
  names = list_to_set (uc_name <$> upstreams).
Proof.
  unfold validate_upstreams. rewrite (try_fold_names _ uc_name validated).
  2: { intros. apply validate_upstream_ok. }
  rewrite (right_id_L ∅ (∪)). set_solver.
Qed.

(** ** Compilation, step by step *)

Lemma compile_timeout_secs_ok raw name field d :
  compile_timeout_secs raw name field = Ok d ↔ raw ≠ 0 ∧ d = from_secs raw.
Proof. unfold compile_timeout_secs. rewrite rbind_unit, reject_ok, Z.eqb_neq. naive_solver. Qed.

Lemma usize_transpose o (e : Z → Error) r :
  opt_u64 o → transpose (λ value, ok_or (usize_try_from value) (e value)) o = Ok r ↔ r = o.
Proof.
  intros Ho. rewrite transpose_ok. destruct o as [v|]; [|done].
  assert (usize_try_from v = Some v) as ->.
  { specialize (Ho v eq_refl). unfold usize_try_from, is_u64, u64_max in *. destruct (Z.leb_spec v (2 ^ 64 - 1)); [done|lia]. }
  simpl. naive_solver.
Qed.

Lemma usize_default d o : opt_u64 o → is_u64 d → usize_try_from (default d o) = Some (default d o).
Proof.
  intros Ho Hd. unfold usize_try_from. destruct (Z.leb_spec (default d o) u64_max) as [|Hlt]; [done|].
  destruct o as [v|]; cbn in Hlt; [specialize (Ho v eq_refl); unfold is_u64 in Ho|unfold is_u64 in Hd];
    unfold u64_max in Hlt; lia.
Qed.

Lemma not_either (s a b : string) :
  negb (str_eqb s a) && negb (str_eqb s b) = false ↔ s = a ∨ s = b.
Proof. unfold str_eqb. do 2 case_bool_decide; naive_solver. Qed.

Lemma bare_path (s : string) :
  negb (str_eqb s "/") && negb (str_is_empty s) = false ↔ (s = "/" ∨ s = "")%string.
Proof. rewrite <-not_either. unfold str_eqb. by destruct s. Qed.

Lemma compile_peer_ok name url weight backup max_conns p :
  opt_u64 max_conns → compile_peer name url weight backup max_conns = Ok p →
  peer_deployable url ∧ peer_weight p = weight ∧ peer_max_conns p = max_conns ∧
  (peer_scheme p = "http" ∨ peer_scheme p = "https")%string ∧
  (∃ uri, parse_uri url = Some uri ∧ uri_scheme uri = Some (peer_scheme p)).
Proof.
  intros Hmax H. unfold compile_peer in H. passed H. injection H as <-. simpl.
  apply ok_or_ok in Hstep, Hstep0, Hstep1. apply not_either in Hcheck. apply usize_transpose in Hstep2; [|done].
  split_and!; [|done|done|done|by exists r].
  exists r, r0, r1. split_and!; [done..| |by destruct (uri_query r)].
  by apply bare_path.
Qed.

Lemma compile_peer_total name url weight backup max_conns :
  opt_u64 max_conns → peer_deployable url → ∃ p, compile_peer name url weight backup max_conns = Ok p.
Proof.
  intros Hmax (uri & scheme & authority & Huri & Hs & Ha & Hscheme & Hpath & Hq).
  unfold compile_peer. rewrite Huri. cbn [ok_or rbind]. rewrite Hs. cbn [ok_or rbind].
  rewrite Ha. cbn [ok_or rbind].
  rewrite Hq, (proj2 (not_either _ "http" "https") Hscheme). cbn [reject rbind is_some].
  rewrite (proj2 (bare_path _) Hpath). cbn [reject rbind].
  rewrite (proj2 (usize_transpose max_conns _ max_conns Hmax) eq_refl). by eexists.
Qed.

(** [compile_tls]. *)

Lemma existing_file_ok base_dir path (e : string → Error) r :
  existing_file base_dir path e = Ok r ↔
  path_is_file (resolve_path base_dir path) = true ∧ r = resolve_path base_dir path.
Proof. unfold existing_file. rewrite rbind_unit, reject_ok, negb_false_iff. naive_solver. Qed.

Definition tls_files (base_dir : string) (tls : UpstreamTlsConfig) : Prop :=
  Forall (file_there base_dir) [custom_ca (utls_verify tls); utls_crl_path tls;
                                utls_client_cert_path tls; utls_client_key_path tls].

Lemma compile_tls_iff name tls base_dir :
  (∃ c, compile_tls name (Some tls) base_dir = Ok c) ↔
  tls_files base_dir tls ∧
  is_some (utls_client_cert_path tls) = is_some (utls_client_key_path tls).
Proof.
  unfold compile_tls, tls_files, file_there. rewrite !Forall_cons.
  destruct tls as [verify versions depth crl cert key]. cbn -[existing_file]. split.
  - intros (c & H). passed H. apply transpose_ok in Hstep0. split.
    + split_and!; [| | | |apply Forall_nil_2]; intros p Hp; simplify_eq/=.
      * destruct verify; simplify_eq/=.
        by apply rmap_ok in Hstep as (? & [? _]%existing_file_ok & _).
      * by destruct Hstep0 as (? & [? _]%existing_file_ok & _).
      * destruct key; [|done]. passed Hstep1. by apply existing_file_ok in Hstep2 as [? _].
      * destruct cert; [|done]. passed Hstep1. by apply existing_file_ok in Hstep3 as [? _].
    + by destruct cert, key.
  - intros ((Hca & Hcrl & Hcert & Hkey & _) & Hboth).
    assert (∀ p e, path_is_file (resolve_path base_dir p) = true → existing_file base_dir p e = Ok (resolve_path base_dir p)) as Hf
      by (intros; by apply existing_file_ok).
    destruct verify as [|ca|]; destruct crl as [crl|]; destruct cert as [cert|], key as [key|]; try done;
      cbn -[existing_file]; repeat (rewrite Hf by auto; cbn -[existing_file]); by eexists.
Qed.

(** Timeouts: a validated one is positive, and so is its default. *)

Lemma positive_default secs d :
  opt_u64 secs → is_zero secs = false → 0 < d → 0 < default d secs.
Proof.
  intros Hty Hz Hd. destruct secs as [v|]; [|done]. cbn.
  pose proof (proj1 (is_zero_false _) Hz v eq_refl). specialize (Hty v eq_refl). unfold is_u64 in Hty. lia.
Qed.

Lemma counter_default o d :
  opt_u32 o → is_zero o = false → 1 ≤ d < 2 ^ 32 → 1 ≤ default d o < 2 ^ 32.
Proof.
  intros Hty Hz Hd. destruct o as [v|]; [|done]. cbn.
  pose proof (proj1 (is_zero_false _) Hz v eq_refl). specialize (Hty v eq_refl). unfold is_u32 in Hty. lia.
Qed.

Lemma compile_default secs d name field :
  is_zero secs = false → d ≠ 0 →
  compile_timeout_secs (default d secs) name field = Ok (from_secs (default d secs)).
Proof.
  intros Hz Hd. apply compile_timeout_secs_ok. split; [|done].
  destruct secs as [v|]; [|done]. by apply (proj1 (is_zero_false _) Hz v).
Qed.

Lemma from_secs_positive s : 0 < s → 0 < from_secs s.
Proof. unfold from_secs. lia. Qed.

Lemma from_secs_mono a b : from_secs a ≤ from_secs b ↔ a ≤ b.
Proof. unfold from_secs. lia. Qed.

(** [compile_dns_policy]. *)

Definition dns_valid (d : UpstreamDnsConfig) : Prop :=
  Forall (λ a, ∃ addr, socket_from_str a = Some addr) (udns_resolver_addrs d) ∧
  Forall (λ o, is_zero o = false)
    [udns_min_ttl_secs d; udns_max_ttl_secs d; udns_negative_ttl_secs d;
     udns_stale_if_error_secs d; udns_refresh_before_expiry_secs d] ∧
  default false (udns_prefer_ipv4 d) && default false (udns_prefer_ipv6 d) = false.

Lemma nonzero_fields name (l : list (string * option Z)) :
  Forall (λ x, (let '(field, value) := x in
    reject (is_zero value) fail["upstream `"; name; "` "; field; " must be greater than 0"]) = Ok tt) l →
  Forall (λ o, is_zero o = false) (snd <$> l).
Proof.
  intros H. apply Forall_fmap. eapply Forall_impl; [exact H|]. intros [f v] Hv. by apply reject_ok in Hv.
Qed.

Lemma validate_dns_settings_ok u d :
  validate_dns_settings u = Ok tt → uc_dns u = Some d → dns_valid d.
Proof.
  intros H Hd. unfold validate_dns_settings in H. rewrite Hd in H. passed H.
  apply for_each_ok in Hstep, Hstep0. split_and!; [| |done].
  - eapply Forall_impl; [exact Hstep|]. intros a Ha. cbn beta in Ha. passed Ha.
    destruct (socket_from_str a); [by eexists|done].
  - by apply nonzero_fields in Hstep0.
Qed.

Lemma compile_dns_policy_ok name dns :
  (∀ d, dns = Some d → dns_valid d ∧ dns_config_typed d) →
  ((∃ p, compile_dns_policy name dns = Ok p) ↔
   (∀ d, dns = Some d → default DEFAULT_UPSTREAM_DNS_MIN_TTL_SECS (udns_min_ttl_secs d) ≤
                        default DEFAULT_UPSTREAM_DNS_MAX_TTL_SECS (udns_max_ttl_secs d))) ∧
  (∀ p, compile_dns_policy name dns = Ok p → dns_typed p).
Proof.
  intros Hd. destruct dns as [d|].
  2: { split; [split; [done|by eexists]|]. intros p [= <-]. unfold dns_typed; cbn. lia. }
  destruct (Hd d eq_refl) as ((Haddr & Hz & Hpref) & Hty). clear Hd.
  unfold dns_config_typed in Hty. rewrite !Forall_cons in Hz, Hty.
  destruct Hz as (Hz1 & Hz2 & Hz3 & Hz4 & Hz5 & _), Hty as (Ht1 & Ht2 & Ht3 & Ht4 & Ht5 & _).
  assert (∃ addrs, collect (λ value, let? addr := ok_or (socket_from_str value)
    fail["upstream `"; name; "` dns.resolver_addrs entry `"; value; "` is invalid: "; addr_error] in
    Ok (socket_to_string addr)) (udns_resolver_addrs d) = Ok addrs) as (addrs & Haddrs).
  { apply collect_total. eapply Forall_impl; [exact Haddr|]. intros a (addr & ->). by eexists. }
  unfold compile_dns_policy. rewrite Haddrs. cbn [rbind].
  rewrite !compile_default by done. cbn [rbind].
  set (mn := default _ (udns_min_ttl_secs d)). set (mx := default _ (udns_max_ttl_secs d)).
  split.
  - split.
    + intros (p & H) d' [= <-]. passed H. apply Z.ltb_ge in Hcheck. by apply from_secs_mono.
    + intros H. specialize (H d eq_refl). fold mn mx in H. apply from_secs_mono, Z.ltb_ge in H.
      rewrite H. by eexists.
  - intros p H. passed H. injection H as <-. apply Z.ltb_ge in Hcheck. unfold dns_typed. cbn.
    split_and!; try (apply from_secs_positive, positive_default; done); [done|].
    intros [H1 H2]. by rewrite H1, H2 in Hpref.
Qed.

(** Timeouts with the request timeout as their fallback. *)

Lemma or_else_default a b d : or_else a b d = default (default d b) a.
Proof. by destruct a, b. Qed.

Lemma compile_or_else a b d name field :
  is_zero a = false → is_zero b = false → d ≠ 0 →
  compile_timeout_secs (or_else a b d) name field = Ok (from_secs (or_else a b d)).
Proof.
  intros Ha Hb Hd. rewrite or_else_default. apply compile_default; [done|].
  destruct b as [v|]; [|done]. by apply (proj1 (is_zero_false _) Hb v).
Qed.

Lemma positive_or_else a b d :
  opt_u64 a → opt_u64 b → is_zero a = false → is_zero b = false → 0 < d → 0 < or_else a b d.
Proof. intros. rewrite or_else_default. by repeat apply positive_default. Qed.

Lemma compile_optional o name field :
  is_zero o = false →
  transpose (λ secs, compile_timeout_secs secs name field) o = Ok (from_secs <$> o).
Proof.
  intros Hz. apply transpose_ok. destruct o as [v|]; [|done]. eexists. split; [|done].
  apply compile_timeout_secs_ok. split; [|done]. by apply (proj1 (is_zero_false _) Hz v).
Qed.

Lemma positive_optional o : opt_u64 o → is_zero o = false → positive (from_secs <$> o).
Proof.
  intros Hty Hz v Hv. apply fmap_Some in Hv as (w & -> & ->). apply from_secs_positive.
  by apply (positive_default (Some w) 1).
Qed.

(** [validate_timeout_and_tuning]. *)

Definition tuning_valid (u : UpstreamConfig) : Prop :=
  Forall (λ o, is_zero o = false)
    [uc_request_timeout_secs u; uc_connect_timeout_secs u; uc_read_timeout_secs u; uc_write_timeout_secs u;
     uc_idle_timeout_secs u; uc_tcp_keepalive_secs u; uc_http2_keep_alive_interval_secs u;
     uc_http2_keep_alive_timeout_secs u; uc_max_replayable_request_body_bytes u;
     uc_unhealthy_after_failures u; uc_unhealthy_cooldown_secs u].

Lemma validate_timeout_and_tuning_ok u : validate_timeout_and_tuning u = Ok tt → tuning_valid u.
Proof.
  intros H. unfold validate_timeout_and_tuning in H. passed H.
  apply for_each_ok, nonzero_fields in Hstep. unfold tuning_valid.
  apply (Forall_app_2 _ [_; _; _; _; _; _; _; _] [_; _; _]); [done|]. by repeat constructor.
Qed.

(** Health checks. *)

Definition health_valid (u : UpstreamConfig) : Prop :=
  (∀ path, uc_health_check_path u = Some path → path_and_query_ok path = true) ∧
  (∀ service, uc_health_check_grpc_service u = Some service →
     contains_char "/" service = false ∧
     ∀ path, uc_health_check_path u = Some path → path = DEFAULT_GRPC_HEALTH_CHECK_PATH) ∧
  Forall (λ o, is_zero o = false)
    [uc_health_check_interval_secs u; uc_health_check_timeout_secs u; uc_healthy_successes_required u].

Lemma validate_active_health_settings_ok u : validate_active_health_settings u = Ok tt → health_valid u.
Proof.
  intros H. unfold validate_active_health_settings in H. passed H.
  apply for_each_ok, nonzero_fields in Hstep1. split_and!.
  - intros path Hp. rewrite Hp in Hstep. passed Hstep. by apply negb_false_iff in Hstep.
  - intros service Hs. rewrite Hs in Hstep0. passed Hstep0. split; [done|]. intros path Hp.
    apply (proj1 (is_some_and_false _ _) Hcheck2) in Hp. by apply negb_false_iff, bool_decide_eq_true in Hp.
  - apply (Forall_app_2 _ [_; _] [_]); [done|]. by repeat constructor.
Qed.

Lemma compile_active_health_check_ok u name :
  health_valid u → path_and_query_ok DEFAULT_GRPC_HEALTH_CHECK_PATH = true →
  Forall opt_u64 [uc_health_check_interval_secs u; uc_health_check_timeout_secs u] →
  opt_u32 (uc_healthy_successes_required u) →
  ∃ check, compile_active_health_check name (uc_health_check_path u) (uc_health_check_grpc_service u)
      (uc_health_check_interval_secs u) (uc_health_check_timeout_secs u) (uc_healthy_successes_required u) = Ok check ∧
    ∀ c, check = Some c → check_typed c.
Proof.
  intros (Hpath & Hgrpc & Hz) Hdef Hty Hty'.
  rewrite !Forall_cons in Hz. rewrite !Forall_cons in Hty.
  destruct Hz as (Hz1 & Hz2 & Hz3 & _), Hty as (Ht1 & Ht2 & _).
  unfold compile_active_health_check.
  assert (∀ path, path_and_query_ok path = true →
    (∀ service, uc_health_check_grpc_service u = Some service → path = DEFAULT_GRPC_HEALTH_CHECK_PATH) →
    check_typed {|
        ahc_path := path;
        ahc_grpc_service := uc_health_check_grpc_service u;
        ahc_interval := from_secs (default DEFAULT_HEALTH_CHECK_INTERVAL_SECS (uc_health_check_interval_secs u));
        ahc_timeout := from_secs (default DEFAULT_HEALTH_CHECK_TIMEOUT_SECS (uc_health_check_timeout_secs u));
        ahc_healthy_successes_required :=
          default DEFAULT_HEALTHY_SUCCESSES_REQUIRED (uc_healthy_successes_required u) |}) as Hall.
  { intros path Hok Hg. unfold check_typed; cbn.
    split_and!; try (apply from_secs_positive, positive_default; done); try (by apply counter_default); [done|].
    - intros service Hs. split; [by eapply Hg|]. by destruct (Hgrpc service Hs). }
  destruct (uc_health_check_path u) as [path|] eqn:Hp.
  - rewrite (Hpath path eq_refl). cbn [negb reject rbind]. eexists. split; [done|].
    intros c [= <-]. apply Hall; [by apply Hpath|]. intros service Hs.
    destruct (Hgrpc service Hs) as [_ He]. by apply He.
  - destruct (uc_health_check_grpc_service u) eqn:Hs; [|by exists None].
    rewrite Hdef. cbn [negb reject rbind]. eexists. split; [done|]. intros c [= <-]. by apply Hall.
Qed.

(** Protocols. *)

Definition protocol_scheme (p : UpstreamProtocolConfig) : option string :=
  match p with
  | Http2Config | Http3Config => Some "https"%string
  | H2cConfig => Some "http"%string
  | AutoConfig | Http1Config => None
  end.

Lemma validate_protocol_requirements_ok u :
  validate_protocol_requirements u = Ok tt →
  ∀ p scheme, p ∈ uc_peers u → protocol_scheme (uc_protocol u) = Some scheme →
    ∀ uri, parse_uri (pc_url p) = Some uri → uri_scheme uri = Some scheme.
Proof.
  intros H p scheme Hp Hs uri Huri. apply for_each_ok in H.
  apply (proj1 (Forall_forall _ _) H) in Hp. rewrite Huri in Hp. cbn in Hp.
  destruct (uc_protocol u); simplify_eq/=; by apply reject_ok, negb_false_iff, bool_decide_eq_true in Hp.
Qed.

Lemma compile_protocol_ok name p peers :
  (∀ scheme, protocol_scheme p = Some scheme → Forall (λ q, peer_scheme q = scheme) peers) →
  ∃ protocol, compile_protocol name p peers = Ok protocol ∧ required_scheme protocol = protocol_scheme p.
Proof.
  intros H.
  assert (∀ scheme, protocol_scheme p = Some scheme →
    existsb (λ q, negb (str_eqb (peer_scheme q) scheme)) peers = false) as Hno.
  { intros scheme Hs. apply not_true_is_false. intros (q & Hq & Hne)%existsb_exists.
    apply negb_true_iff, bool_decide_eq_false in Hne. apply Hne.
    apply (proj1 (Forall_forall _ _) (H scheme Hs)). by apply list_elem_of_In. }
  unfold compile_protocol. destruct p; cbn [protocol_scheme] in Hno; try (by eexists);
    rewrite (Hno _ eq_refl); by eexists.
Qed.

(** Peers, all together. *)

Lemma compile_peers_ok name (l : list UpstreamPeerConfig) peers :
  Forall (λ p, is_u32 (pc_weight p) ∧ opt_u64 (pc_max_conns p)) l →
  Forall (λ p, blank (pc_url p) = false ∧ pc_weight p ≠ 0 ∧ is_zero (pc_max_conns p) = false) l →
  collect (λ p, compile_peer name (pc_url p) (pc_weight p) (pc_backup p) (pc_max_conns p)) l = Ok peers →
  Forall (λ p, peer_deployable (pc_url p)) l ∧ Forall peer_typed peers ∧ length peers = length l ∧
  (∀ q, q ∈ peers → ∃ p uri, p ∈ l ∧ parse_uri (pc_url p) = Some uri ∧ uri_scheme uri = Some (peer_scheme q)).
Proof.
  intros Hty Hv H%collect_ok. induction H as [|p q l peers Hq Hl IH].
  { split_and!; [constructor|constructor|done|set_solver]. }
  apply Forall_cons in Hty as [[Hw Hmax] Hty]. apply Forall_cons in Hv as [(_ & Hw0 & Hz) Hv].
  destruct (IH Hty Hv) as (Hd & Ht & Hlen & Hsch).
  apply compile_peer_ok in Hq as (Hdp & Hweight & Hconns & Hscheme & uri & Huri & Hus); [|done].
  split_and!.
  - by constructor.
  - constructor; [|done]. unfold peer_typed. rewrite Hweight, Hconns. unfold is_u32 in Hw.
    split_and!; [lia|lia|done|]. intros v Hmv. specialize (Hmax v Hmv). unfold is_u64 in Hmax.
    pose proof (proj1 (is_zero_false _) Hz v Hmv). lia.
  - cbn. by rewrite Hlen.
  - intros q' [->|Hq']%elem_of_cons; [exists p, uri; set_solver|].
    destruct (Hsch q' Hq') as (p' & uri' & ? & ? & ?). exists p', uri'. set_solver.
Qed.

Lemma add_compiled_ok (l : list (string * Upstream)) m :
  add_compiled l = Ok m ↔ NoDup (l.*1) ∧ m = list_to_map l.
Proof.
  unfold add_compiled.
  assert (∀ m0, try_fold (λ upstreams '(name, upstream),
      let? _ := reject (is_some (upstreams !! name)) fail["duplicate compiled upstream `"; name; "`"] in
      Ok (<[name := upstream]> upstreams)) m0 l = Ok m ↔
    NoDup (l.*1) ∧ (∀ n, n ∈ l.*1 → m0 !! n = None) ∧ m = list_to_map l ∪ m0) as Hgen.
  { induction l as [|[n u] l IH]; intros m0.
    - cbn. rewrite (left_id_L ∅ (∪)). split; [intros [= ->]; split_and!; [constructor|set_solver|done]|naive_solver].
    - cbn [try_fold]. setoid_rewrite rbind_ok. setoid_rewrite rbind_unit. setoid_rewrite reject_ok.
      rewrite !fmap_cons, NoDup_cons. cbn [fst list_to_map foldr uncurry]. split.
      + intros (m1 & [Hn [= <-]] & (Hnd & Hout & ->)%IH).
        assert (m0 !! n = None) as Hn0 by (by destruct (m0 !! n)).
        assert (n ∉ l.*1) as Hnew by (intros Hin; specialize (Hout n Hin); by rewrite lookup_insert_eq in Hout).
        split_and!; [done|done| |].
        * intros n' [->|Hin]%elem_of_cons; [done|]. specialize (Hout n' Hin).
          by apply lookup_insert_None in Hout as [? _].
        * cbn. rewrite <-insert_union_l, insert_union_r; [done|]. by apply not_elem_of_list_to_map_1.
      + intros ([Hnew Hnd] & Hout & ->). eexists. split; [split; [|done]|apply IH].
        * by rewrite (Hout n) by set_solver.
        * split_and!; [done| |].
          -- intros n' Hin. apply lookup_insert_None. split; [apply Hout; set_solver|]. by intros ->.
          -- cbn. rewrite <-insert_union_l, insert_union_r; [done|]. by apply not_elem_of_list_to_map_1. }
  rewrite Hgen, (right_id_L ∅ (∪)). naive_solver.
Qed.

(** ** One upstream *)

Context (grpc_path : path_and_query_ok DEFAULT_GRPC_HEALTH_CHECK_PATH = true).

Lemma tls_pair u tls :
  validate_tls_settings u = Ok tt → uc_tls u = Some tls →
  is_some (utls_client_cert_path tls) = is_some (utls_client_key_path tls).
Proof.
  intros H Ht. unfold validate_tls_settings in H. rewrite Ht in H. passed H.
  by destruct (utls_client_cert_path tls), (utls_client_key_path tls).
Qed.

Lemma compile_tls_deployable name u base_dir :
  validate_tls_settings u = Ok tt →
  (∃ c, compile_tls name (uc_tls u) base_dir = Ok c) ↔
  (∀ tls, uc_tls u = Some tls → tls_files base_dir tls).
Proof.
  intros Hv. destruct (uc_tls u) as [tls|] eqn:Ht.
  - rewrite compile_tls_iff. pose proof (tls_pair u tls Hv Ht). naive_solver.
  - split; [done|]. by eexists.
Qed.

Lemma compile_override_ok name o :
  (∃ r, compile_server_name_override name o = Ok r) ↔
  (∀ n, o = Some n → tls_server_name_ok (normalize_server_name_override n) = true).
Proof.
  destruct o as [n|]; cbn; [|split; [done|by eexists]].
  setoid_rewrite rbind_unit. setoid_rewrite reject_ok. setoid_rewrite negb_false_iff. naive_solver.
Qed.

(** The peers of an upstream, as the protocol needs them. *)
Lemma peers_match_protocol u name peers :
  validated u → upstream_config_typed u →
  collect (λ p, compile_peer name (pc_url p) (pc_weight p) (pc_backup p) (pc_max_conns p)) (uc_peers u) = Ok peers →
  ∀ scheme, protocol_scheme (uc_protocol u) = Some scheme → Forall (λ q, peer_scheme q = scheme) peers.
Proof.
  intros (_ & _ & Hv & _ & _ & Hprot & _) (Hty & _) Hp scheme Hs.
  apply compile_peers_ok in Hp as (_ & _ & _ & Hsch); [|done..].
  apply Forall_forall. intros q (p & uri & Hin & Huri & Hq)%Hsch.
  pose proof (validate_protocol_requirements_ok u Hprot p scheme Hin Hs uri Huri). congruence.
Qed.

Section OneUpstream.
Context (base_dir : string) (mapper : string → string) (u : UpstreamConfig).
Context (Hv : validated u) (Hty : upstream_config_typed u).

(** Once validated, only five steps of the compiler can fail, and the rest of
    the upstream is typed whatever they return. *)
Lemma compile_upstream_settled :
  let name := mapper (uc_name u) in
  ∃ g : list UpstreamPeer → CompiledUpstreamTls → UpstreamProtocol → UpstreamDnsPolicy → option string → Upstream,
    compile_upstream base_dir mapper u =
      (let? peers := collect (λ p, compile_peer name (pc_url p) (pc_weight p) (pc_backup p) (pc_max_conns p)) (uc_peers u) in
       let? tls := compile_tls name (uc_tls u) base_dir in
       let? protocol := compile_protocol name (uc_protocol u) peers in
       let? dns := compile_dns_policy name (uc_dns u) in
       let? over := compile_server_name_override name (uc_server_name_override u) in
       Ok (name, g peers tls protocol dns over)) ∧
    ∀ peers tls protocol dns over,
      up_name (g peers tls protocol dns over) = name ∧
      up_peers (g peers tls protocol dns over) = peers ∧
      (peers ≠ [] → Forall peer_typed peers →
       (∀ scheme, required_scheme protocol = Some scheme → Forall (λ p, peer_scheme p = scheme) peers) →
       dns_typed dns → upstream_typed (g peers tls protocol dns over)).
Proof.
  intros name. unfold compile_upstream. fold name. cbv zeta.
  destruct Hv as (_ & _ & _ & _ & _ & _ & _ & Htune%validate_timeout_and_tuning_ok & Hhealth%validate_active_health_settings_ok).
  destruct Hty as (_ & Ht & Ht' & _).
  unfold tuning_valid in Htune. rewrite !Forall_cons in Htune. destruct Htune as (? & ? & ? & ? & ? & ? & ? & Hh & Hm & Hu & Hc & _).
  rewrite !Forall_cons in Ht. destruct Ht as (? & ? & ? & ? & ? & ? & ? & ? & ? & ? & ? & ? & ? & ? & _).
  rewrite !Forall_cons in Ht'. destruct Ht' as (Hu32 & ? & _).
  rewrite !compile_or_else by done. rewrite !compile_optional by done. rewrite compile_default by done.
  destruct (compile_active_health_check_ok u name Hhealth grpc_path) as (check & -> & Hcheck);
    [by repeat (apply Forall_cons_2; [done|]); apply Forall_nil_2|done|].
  assert (compile_pool_max_idle_per_host name
    (default DEFAULT_UPSTREAM_POOL_MAX_IDLE_PER_HOST (uc_pool_max_idle_per_host u)) =
    Ok (default DEFAULT_UPSTREAM_POOL_MAX_IDLE_PER_HOST (uc_pool_max_idle_per_host u))) as ->.
  { by apply ok_or_ok, usize_default. }
  assert (compile_max_replayable_request_body_bytes name (uc_max_replayable_request_body_bytes u) =
    Ok (default DEFAULT_MAX_REPLAYABLE_REQUEST_BODY_BYTES (uc_max_replayable_request_body_bytes u))) as ->.
  { by apply ok_or_ok, usize_default. }
  assert (∃ pool, (match uc_pool_idle_timeout_secs u with
     | Some secs => if secs =? 0 then Ok None else rmap Some (compile_timeout_secs secs name "pool_idle_timeout_secs")
     | None => Ok (Some (from_secs DEFAULT_UPSTREAM_POOL_IDLE_TIMEOUT_SECS))
     end) = Ok pool ∧ positive pool) as (pool & -> & Hpool).
  { destruct (uc_pool_idle_timeout_secs u) as [v|]; [|by eexists; split; [done|intros ? [= <-]]].
    destruct (Z.eqb_spec v 0) as [->|]; [by exists None|]. exists (Some (from_secs v)).
    rewrite (proj2 (compile_timeout_secs_ok v name _ _) (conj ltac:(done) eq_refl)). split; [done|].
    intros w [= <-]. apply from_secs_positive.
    match goal with H : opt_u64 (Some v) |- _ => destruct (H v eq_refl) end. lia. }
  cbn [rbind]. eexists (λ peers tls protocol dns over, _). split; [reflexivity|].
  intros peers tls protocol dns over. split_and!; [done..|].
  intros Hne Hpeers Hscheme Hdns. unfold upstream_typed. cbn.
  split; [done|]. split; [done|]. split; [done|]. split; [done|]. split; [|split; [|split; [|done]]].
  - repeat (apply Forall_cons_2; [try apply from_secs_positive; first [by apply positive_or_else|by apply positive_default]|]).
    apply Forall_nil_2.
  - repeat (apply Forall_cons_2; [first [done|by apply positive_optional]|]). apply Forall_nil_2.
  - by apply counter_default.
Qed.

Lemma compile_upstream_ok r :
  compile_upstream base_dir mapper u = Ok r →
  r.1 = mapper (uc_name u) ∧ up_name r.2 = r.1 ∧ upstream_typed r.2 ∧ deployable base_dir u.
Proof.
  intros H. destruct compile_upstream_settled as (g & Hg & Hall). rewrite Hg in H. passed H.
  injection H as <-. destruct (Hall r0 r1 r2 r3 r4) as (Hname & _ & Htyped).
  pose proof Hv as (_ & Hne & Hpv & Htls & _ & _ & Hdns & _).
  destruct Hty as (Hpt & _ & _ & Hdt).
  pose proof (peers_match_protocol u _ r0 Hv Hty Hstep) as Hmatch.
  destruct (compile_peers_ok _ _ _ Hpt Hpv Hstep) as (Hdep & Hpeers & Hlen & _).
  destruct (compile_protocol_ok (mapper (uc_name u)) (uc_protocol u) r0 Hmatch) as (protocol & Hp & Hreq).
  assert (r2 = protocol) as -> by congruence.
  destruct (compile_dns_policy_ok (mapper (uc_name u)) (uc_dns u)) as [Hdns1 Hdns2].
  { intros d Hd. split; [by eapply validate_dns_settings_ok|by apply Hdt]. }
  split_and!; [done|done|apply Htyped; [|done| |by apply Hdns2]|].
  - by destruct r0, (uc_peers u).
  - intros scheme Hs. apply Hmatch. congruence.
  - split_and!; [done| | |].
    + apply (compile_tls_deployable (mapper (uc_name u))); [done|by eexists].
    + apply (compile_override_ok (mapper (uc_name u))). by eexists.
    + apply Hdns1. by eexists.
Qed.

Lemma compile_upstream_total :
  deployable base_dir u → ∃ r, compile_upstream base_dir mapper u = Ok r.
Proof.
  intros (Hdep & Htls & Hover & Hmin). destruct compile_upstream_settled as (g & -> & _).
  set (name := mapper (uc_name u)).
  pose proof Hv as (_ & _ & _ & Hvt & _ & _ & Hdns & _). pose proof Hty as (Hpt & _ & _ & Hdt).
  assert (∃ peers, collect (λ p, compile_peer name (pc_url p) (pc_weight p) (pc_backup p) (pc_max_conns p))
    (uc_peers u) = Ok peers) as (peers & Hpeers).
  { apply collect_total. apply Forall_forall. intros p Hp. apply compile_peer_total.
    - by apply (proj1 (Forall_forall _ _) Hpt) in Hp as [_ ?].
    - by apply (proj1 (Forall_forall _ _) Hdep) in Hp. }
  rewrite Hpeers. cbn [rbind].
  apply (compile_tls_deployable name) in Htls as (tls & ->); [|done]. cbn [rbind].
  destruct (compile_protocol_ok name (uc_protocol u) peers) as (protocol & -> & _);
    [by eapply peers_match_protocol|]. cbn [rbind].
  destruct (compile_dns_policy_ok name (uc_dns u)) as [Hdns1 _].
  { intros d Hd. split; [by eapply validate_dns_settings_ok|by apply Hdt]. }
  apply Hdns1 in Hmin as (dns & ->). cbn [rbind].
  apply (compile_override_ok name) in Hover as (over & ->). by eexists.
Qed.
End OneUpstream.

(** ** The upstreams of a configuration *)

Lemma compile_all_ok base_dir mapper upstreams compiled :
  Forall validated upstreams → Forall upstream_config_typed upstreams →
  collect (compile_upstream base_dir mapper) upstreams = Ok compiled →
  compiled.*1 = mapper ∘ uc_name <$> upstreams ∧
  Forall (λ r, up_name r.2 = r.1 ∧ upstream_typed r.2) compiled ∧
  Forall (deployable base_dir) upstreams.
Proof.
  intros Hv Hty H%collect_ok. induction H as [|u r us rs Hr Hrs IH]; [done|].
  apply Forall_cons in Hv as [Hu Hv], Hty as [Hut Hty]. destruct (IH Hv Hty) as (Hn & Hall & Hdep).
  apply compile_upstream_ok in Hr as (Hr1 & Hr2 & Hr3 & Hr4); [|done..].
  split_and!; [by rewrite !fmap_cons, Hr1, Hn|by constructor|by constructor].
Qed.
End Typing.

(** What a validated configuration of upstreams compiles to is what the
    runtime's theorems assume: every configured upstream is there under its
    name, has peers of positive 32-bit weight and positive limits, speaks a
    scheme its protocol allows, has positive timeouts and thresholds, an ordered
    pair of DNS lifetimes and a well-formed health check. *)
Theorem compiled_upstreams_are_typed {NET : IpNetApi} {RX : RegexApi} {API : ConfigApi NET RX}
    (base_dir : string) (mapper : string → string) (upstreams : list UpstreamConfig)
    (names : gset string) (m : gmap string Upstream)
    (grpc_path : path_and_query_ok DEFAULT_GRPC_HEALTH_CHECK_PATH = true)
    (Hty : Forall upstream_config_typed upstreams)
    (Hv : validate_upstreams upstreams = Ok names)
    (Hc : compile_upstreams_with_names upstreams base_dir mapper = Ok m) :
  dom m = set_map mapper names ∧
  map_Forall (λ name u, up_name u = name ∧ upstream_typed u) m.
Proof.
  apply validate_upstreams_ok in Hv as (Hvs & Hnd & ->).
  unfold compile_upstreams_with_names in Hc. passed Hc.
  apply add_compiled_ok in Hc as [Hnd' ->].
  apply (compile_all_ok grpc_path) in Hstep as (Hnames & Hall & _); [|done..]. split.
  - rewrite dom_list_to_map_L, Hnames, list_fmap_compose. apply set_eq. intros x.
    rewrite elem_of_list_to_set, list_elem_of_fmap, elem_of_map. by setoid_rewrite elem_of_list_to_set.
  - intros name u Hu%elem_of_list_to_map_2. apply (proj1 (Forall_forall _ _) Hall) in Hu as (? & Ht).
    done.
Qed.

(** A validated configuration of upstreams compiles if and only if it can
    be deployed: its peers' URLs are bare [http] or [https] origins, the files
    it names are there, TLS accepts the server names, and the DNS lifetimes are
    ordered once the defaults are filled in.  Nothing else is left to fail. *)
Theorem validated_upstreams_compile {NET : IpNetApi} {RX : RegexApi} {API : ConfigApi NET RX}
    (base_dir : string) (mapper : string → string) (upstreams : list UpstreamConfig) (names : gset string)
    (grpc_path : path_and_query_ok DEFAULT_GRPC_HEALTH_CHECK_PATH = true)
    (Hty : Forall upstream_config_typed upstreams)
    (Hv : validate_upstreams upstreams = Ok names)
    (Hinj : Inj (=) (=) mapper) :
  (∃ m, compile_upstreams_with_names upstreams base_dir mapper = Ok m) ↔
  Forall (deployable base_dir) upstreams.
Proof.
  apply validate_upstreams_ok in Hv as (Hvs & Hnd & ->). unfold compile_upstreams_with_names. split.
  - intros (m & Hc). passed Hc. by apply (compile_all_ok grpc_path) in Hstep as (_ & _ & ?).
  - intros Hd.
    assert (∃ compiled, collect (compile_upstream base_dir mapper) upstreams = Ok compiled) as (compiled & Hcomp).
    { apply collect_total. rewrite !Forall_forall in *. intros u Hu. apply (compile_upstream_total grpc_path); auto. }
    rewrite Hcomp. eexists. apply add_compiled_ok. split; [|done].
    apply (compile_all_ok grpc_path) in Hcomp as (-> & _ & _); [|done..].
    rewrite list_fmap_compose. by apply NoDup_fmap_2.
Qed.

(** Two upstreams: one weighted over HTTP, one gRPC service with its health
    check, whose second peer is only a backup. *)
Module Sample.
Definition plain (name : string) (peers : list UpstreamPeerConfig) : UpstreamConfig :=
  mkUpstreamConfig name peers None None AutoConfig RoundRobinConfig None None None None None None None
    None None None None None None None None None None None None None None None.
Definition grpc (name : string) (peers : list UpstreamPeerConfig) : UpstreamConfig :=
  mkUpstreamConfig name peers None
    (Some (mkUpstreamDnsConfig ["10.0.0.53:53"%string] (Some 2) None None (Some 600) None (Some true) None))
    Http2Config LeastConnConfig None (Some "[api.internal]"%string) (Some 15) None None None None
    (Some 0) (Some 8) None None (Some 30) (Some 5) None (Some 1024) (Some 3) (Some 20)
    None (Some "api.v1"%string) (Some 10) None (Some 4).
Definition upstreams : list UpstreamConfig :=
  [plain "web" [mkUpstreamPeerConfig "http://10.0.0.1:8080" 3 false (Some 100);
                mkUpstreamPeerConfig "http://10.0.0.2:8080/" 1 false None];
   grpc "api" [mkUpstreamPeerConfig "https://10.0.0.3" 1 false None;
               mkUpstreamPeerConfig "https://10.0.0.4" 2 true None]].
End Sample.

Ltac forall_list := repeat (apply Forall_cons_2 || apply Forall_nil_2).

Lemma sample_upstreams_typed : Forall upstream_config_typed Sample.upstreams.
Proof.
  forall_list; split_and!; forall_list;
    repeat first [by cbn; lia|intros ? [= <-]; (split; lia) || cbn|split_and!|split|lia|progress forall_list].
Qed.

Lemma sample_upstreams_compile :
  ∃ names m, validate_upstreams (API := RefConfig.api) Sample.upstreams = Ok names ∧
    compile_scoped_upstreams (API := RefConfig.api) Sample.upstreams "/etc/rginx" "servers[0]" = Ok m.
Proof.
  destruct (is_ok_true (validate_upstreams (API := RefConfig.api) Sample.upstreams)) as (names & Hv);
    [by vm_compute|].
  destruct (is_ok_true (compile_scoped_upstreams (API := RefConfig.api) Sample.upstreams "/etc/rginx" "servers[0]"))
    as (m & Hc); [by vm_compute|].
  by exists names, m.
Qed.

Lemma sample_deployable base_dir : Forall (deployable (API := RefConfig.api) base_dir) Sample.upstreams.
Proof.
  forall_list; split_and!; try done; try (intros ? [= <-]; vm_compute; done); forall_list;
    (eexists _, _, _; split_and!; [vm_compute; reflexivity|done..|auto|auto|done]).
Qed.

#[export] Instance scoped_upstream_name_inj scope : Inj (=) (=) (scoped_upstream_name scope).
Proof.
  intros a b H. unfold scoped_upstream_name in H. cbn in H.
  apply (inj (String.append scope)) in H. simplify_eq/=. by rewrite !str_app_nil_r in H.
Qed.

Lemma compiled_upstreams_are_typed_witness :
  ∃ names m,
    compile_scoped_upstreams (API := RefConfig.api) Sample.upstreams "/etc/rginx" "servers[0]" = Ok m ∧
    dom m = set_map (scoped_upstream_name "servers[0]") (names : gset string) ∧
    map_Forall (λ name u, up_name u = name ∧ upstream_typed (API := RefConfig.api) u) m.
Proof.
  destruct sample_upstreams_compile as (names & m & Hv & Hc). exists names, m. split; [exact Hc|].
  apply (compiled_upstreams_are_typed (API := RefConfig.api) "/etc/rginx" (scoped_upstream_name "servers[0]")
    Sample.upstreams names m eq_refl sample_upstreams_typed Hv Hc).
Defined.

Lemma validated_upstreams_compile_witness :
  ∃ m, compile_upstreams_with_names (API := RefConfig.api) Sample.upstreams "/etc/rginx" (λ name, name) = Ok m.
Proof.
  destruct sample_upstreams_compile as (names & m & Hv & _).
  apply (validated_upstreams_compile (API := RefConfig.api) "/etc/rginx" (λ name, name)
    Sample.upstreams names eq_refl sample_upstreams_typed Hv).
  - by intros a b.
  - apply sample_deployable.
Defined.
