(* ===== verification/Template.v ===== *)
(** * Brace templates

    The scanner shared by [CacheKeyTemplate::parse] (cache/key_template.rs) and
    [ProxyHeaderTemplate::parse] (route/proxy_header.rs): literal text with
    [{{] and [}}] escapes, and [{name}] variables handed to a variable parser.
    Where the source slices the raw string up to the next closing brace, the
    scanner walks it with the variable text read so far ([Some text]). *)

From S2P Require Import Prelude RustStr.

Inductive template_part (V : Type) : Type :=
| Literal (text : string)
| Variable_ (v : V).
Arguments Literal {V} text.
Arguments Variable_ {V} v.

Definition push_char (s : string) (c : ascii) : string := s +:+ String c EmptyString.

Definition flush_literal {V} (parts : list (template_part V)) (literal : string)
    : list (template_part V) :=
  if str_is_empty literal then parts else parts ++ [Literal literal].

Section Scan.
  Context {V E : Type} (parse_variable : string → result E V).
  Context (unclosed unescaped empty : E).

(** Source: crates/rginx-core/src/config/cache/key_template.rs:8-62 (CacheKeyTemplate::parse) *)
Fixpoint scan_template (variable : option string) (literal : string)
    (parts : list (template_part V)) (s : string) : result E (list (template_part V)) :=
  match variable with
  | Some text =>
      match s with
      | EmptyString => Err unclosed
      | String c rest =>
          if ascii_eqb c "}"%char then
            if str_is_empty (trim text) then Err empty
            else
              let? v := parse_variable (trim text) in
              scan_template None EmptyString (parts ++ [Variable_ v]) rest
          else scan_template (Some (push_char text c)) literal parts rest
      end
  | None =>
      match s with
      | EmptyString => Ok (flush_literal parts literal)
      | String a rest =>
          match rest with
          | String b rest' =>
              if ascii_eqb a "{"%char && ascii_eqb b "{"%char then
                scan_template None (push_char literal "{"%char) parts rest'
              else if ascii_eqb a "}"%char && ascii_eqb b "}"%char then
                scan_template None (push_char literal "}"%char) parts rest'
              else if ascii_eqb a "{"%char then
                scan_template (Some EmptyString) EmptyString (flush_literal parts literal) rest
              else if ascii_eqb a "}"%char then Err unescaped
              else scan_template None (push_char literal a) parts rest
          | EmptyString =>
              if ascii_eqb a "{"%char then Err unclosed
              else if ascii_eqb a "}"%char then Err unescaped
              else Ok (flush_literal parts (push_char literal a))
          end
      end
  end.

Definition parse_template (raw : string) : result E (list (template_part V)) :=
  scan_template None EmptyString [] raw.

  (** ** Printing templates back *)

Fixpoint escape (s : string) : string :=
    match s with
    | EmptyString => EmptyString
    | String c s =>
        if ascii_eqb c "{"%char || ascii_eqb c "}"%char
        then String c (String c (escape s)) else String c (escape s)
    end.

  Context (print_variable : V → string).

Definition print_part (p : template_part V) : string :=
    match p with
    | Literal text => escape text
    | Variable_ v => "{" +:+ print_variable v +:+ "}"
    end.

Definition print_template (parts : list (template_part V)) : string :=
    foldr (λ p acc, print_part p +:+ acc) EmptyString parts.

  (** A variable whose text parses back: non-blank, trimmed, brace-free. *)
Definition printable (v : V) : Prop :=
    let text := print_variable v in
    trim text = text ∧ str_is_empty text = false ∧
    contains_char "}"%char text = false ∧ contains_char "{"%char text = false ∧
    parse_variable text = Ok v.

  (** Literals are non-empty and never adjacent, variables printable. *)
Fixpoint normal (after_literal : bool) (parts : list (template_part V)) : Prop :=
    match parts with
    | [] => True
    | Literal text :: parts =>
        after_literal = false ∧ str_is_empty text = false ∧ normal true parts
    | Variable_ v :: parts => printable v ∧ normal false parts
    end.

Lemma push_char_app text c rest : push_char text c +:+ rest = text +:+ String c rest.
  Proof. unfold push_char. by rewrite str_app_assoc. Qed.

Lemma scan_variable text v parts rest acc :
    contains_char "}"%char text = false →
    trim (acc +:+ text) = acc +:+ text → str_is_empty (acc +:+ text) = false →
    parse_variable (acc +:+ text) = Ok v →
    scan_template (Some acc) EmptyString parts (text +:+ "}" +:+ rest) =
    scan_template None EmptyString (parts ++ [Variable_ v]) rest.
  Proof using E V empty parse_variable unclosed unescaped.
    revert acc. induction text as [|c text IH]; intros acc Hc Ht Hne Hp.
    - rewrite str_app_nil_r in *.
      change (EmptyString +:+ "}" +:+ rest) with (String "}"%char rest).
      cbn [scan_template]. rewrite ascii_eqb_refl, Ht, Hne, Hp. done.
    - unfold contains_char in Hc. simpl in Hc.
      destruct (ascii_eqb c "}"%char) eqn:Hcb; [done|].
      change (String c text +:+ "}" +:+ rest) with (String c (text +:+ "}" +:+ rest)).
      cbn [scan_template]. rewrite Hcb. apply IH; rewrite ?push_char_app; try done.
      unfold contains_char. by destruct (split_once _ text) as [[]|].
  Qed.

Lemma scan_escaped text literal parts rest :
    scan_template None literal parts (escape text +:+ rest) =
    scan_template None (literal +:+ text) parts rest.
  Proof using E V empty parse_variable unclosed unescaped.
    revert literal. induction text as [|c text IH]; intros literal.
    - by rewrite str_app_nil_r.
    - simpl. destruct (ascii_eqb c "{"%char) eqn:H1; [|destruct (ascii_eqb c "}"%char) eqn:H2]; simpl.
      + apply ascii_eqb_true in H1 as ->.
        change (String "{"%char (String "{"%char (escape text)) +:+ rest) with
          (String "{"%char (String "{"%char (escape text +:+ rest))).
        cbn [scan_template]. rewrite !ascii_eqb_refl. simpl.
        by rewrite IH, push_char_app.
      + apply ascii_eqb_true in H2 as ->.
        change (String "}"%char (String "}"%char (escape text)) +:+ rest) with
          (String "}"%char (String "}"%char (escape text +:+ rest))).
        cbn [scan_template]. rewrite !ascii_eqb_refl. simpl.
        by rewrite IH, push_char_app.
      + change (String c (escape text) +:+ rest) with (String c (escape text +:+ rest)).
        rewrite <-push_char_app, <-IH. cbn [scan_template].
        rewrite H1, H2. simpl.
        destruct (escape text +:+ rest) eqn:He; [|done]. done.
  Qed.

Lemma scan_open literal parts text rest :
    str_is_empty text = false → contains_char "{"%char text = false →
    scan_template None literal parts ("{" +:+ text +:+ rest) =
    scan_template (Some EmptyString) EmptyString (flush_literal parts literal) (text +:+ rest).
  Proof using E V empty parse_variable unclosed unescaped.
    destruct text as [|c text]; [done|]. intros _ Hc.
    unfold contains_char in Hc. simpl in Hc.
    destruct (ascii_eqb c "{"%char) eqn:Hcb; [done|].
    change ("{" +:+ String c text +:+ rest) with (String "{"%char (String c (text +:+ rest))).
    change (String c text +:+ rest) with (String c (text +:+ rest)).
    cbn [scan_template]. rewrite Hcb. by rewrite ascii_eqb_refl.
  Qed.

Lemma print_template_cons p parts :
    print_template (p :: parts) = print_part p +:+ print_template parts.
  Proof. done. Qed.

Lemma scan_printed parts acc literal :
    normal (negb (str_is_empty literal)) parts →
    scan_template None literal acc (print_template parts) =
    Ok (flush_literal acc literal ++ parts).
  Proof using E V empty parse_variable print_variable unclosed unescaped.
    revert acc literal. induction parts as [|[text|v] parts IH];
      intros acc literal Hn; rewrite ?print_template_cons.
    - by rewrite app_nil_r.
    - destruct Hn as (Hl & Hne & Hn). rewrite negb_false_iff in Hl.
      destruct literal; [|done]. cbn [print_part]. rewrite scan_escaped.
      change (EmptyString +:+ text) with text. rewrite IH by (by rewrite Hne).
      unfold flush_literal. rewrite Hne. simpl. by rewrite <-app_assoc.
    - destruct Hn as ((Ht & Hne & Hc & Ho & Hp) & Hn).
      cbn [print_part]. rewrite !str_app_assoc. rewrite scan_open by done.
      rewrite (scan_variable _ v) by done. rewrite (IH _ EmptyString) by done.
      unfold flush_literal at 1. simpl. by rewrite <-app_assoc.
  Qed.

Lemma parse_print_template parts :
    normal false parts → parse_template (print_template parts) = Ok parts.
  Proof using E V empty parse_variable print_variable unclosed unescaped.
    intros Hn. unfold parse_template. by rewrite scan_printed.
  Qed.
End Scan.
