(* ===== verification/CacheConfig.v ===== *)
(** * Route cache policy: predicates and key templates

    Models [crates/rginx-core/src/config/cache.rs], [cache/predicate.rs] and
    [cache/key_template.rs].  Methods are their text, statuses their number,
    durations milliseconds; header maps come from the [http] interface. *)

From S2P Require Import Prelude RustStr External Template.

Definition GET : string := "GET".
Definition HEAD : string := "HEAD".

(** ** Data *)

(** Source: crates/rginx-core/src/config/cache.rs:12-26 (CacheZone) *)
Record CacheZone : Type := mkCacheZone {
  zone_name : string;
  zone_path : string;
  zone_max_size_bytes : option Z;
  zone_inactive : Z;
  zone_default_ttl : Z;
  zone_max_entry_bytes : Z;
  zone_path_levels : list Z;
  zone_loader_batch_entries : Z;
  zone_loader_sleep : Z;
  zone_manager_batch_entries : Z;
  zone_manager_sleep : Z;
  zone_inactive_cleanup_interval : Z;
  zone_shared_index : bool;
}.

(** Source: crates/rginx-core/src/config/cache.rs:53-56 (CacheStatusTtlRule) *)
Record CacheStatusTtlRule : Type := mkCacheStatusTtlRule {
  rule_statuses : list Z;
  rule_ttl : Z;
}.

(** Source: crates/rginx-core/src/config/cache.rs:59-71 (CachePredicate) *)
Inductive CachePredicate : Type :=
| PAny (conditions : list CachePredicate)
| PAll (conditions : list CachePredicate)
| PNot (condition : CachePredicate)
| PMethod (method : string)
| PHeaderExists (name : string)
| PHeaderEquals (name value : string)
| PQueryExists (name : string)
| PQueryEquals (name value : string)
| PCookieExists (name : string)
| PCookieEquals (name value : string)
| PStatus (statuses : list Z).

(** Source: crates/rginx-core/src/config/cache.rs:74-85 (CacheUseStaleCondition) *)
Inductive CacheUseStaleCondition : Type :=
| UseStaleError | UseStaleTimeout | UseStaleUpdating
| UseStaleHttp403 | UseStaleHttp404 | UseStaleHttp429
| UseStaleHttp500 | UseStaleHttp502 | UseStaleHttp503 | UseStaleHttp504.

#[export] Instance CacheUseStaleCondition_eq_dec : EqDecision CacheUseStaleCondition.
Proof. solve_decision. Defined.

(** Source: crates/rginx-core/src/config/cache.rs:88-94 (CacheIgnoreHeader) *)
Inductive CacheIgnoreHeader : Type :=
| IgnoreXAccelExpires | IgnoreExpires | IgnoreCacheControl | IgnoreSetCookie | IgnoreVary.

#[export] Instance CacheIgnoreHeader_eq_dec : EqDecision CacheIgnoreHeader.
Proof. solve_decision. Defined.

(** Source: crates/rginx-core/src/config/cache.rs:97-100 (CacheRangeRequestPolicy) *)
Inductive CacheRangeRequestPolicy : Type := RangeBypass | RangeCache.

#[export] Instance CacheRangeRequestPolicy_eq_dec : EqDecision CacheRangeRequestPolicy.
Proof. solve_decision. Defined.

(** Source: crates/rginx-core/src/config/cache.rs:122-130 (CacheKeyVariable) *)
Inductive CacheKeyVariable : Type :=
| KeyScheme | KeyHost | KeyUri | KeyMethod
| KeyHeader (name : string)
| KeyQuery (name : string)
| KeyCookie (name : string).

(** Source: crates/rginx-core/src/config/cache.rs:110-119 (CacheKeyTemplate and CacheKeyTemplatePart) *)
Record CacheKeyTemplate : Type := mkCacheKeyTemplate {
  key_raw : string;
  key_parts : list (template_part CacheKeyVariable);
}.

(** Source: crates/rginx-core/src/config/cache.rs:29-50 (RouteCachePolicy) *)
Record RouteCachePolicy : Type := mkRouteCachePolicy {
  pol_zone : string;
  pol_methods : list string;
  pol_statuses : list Z;
  pol_ttl_by_status : list CacheStatusTtlRule;
  pol_key : CacheKeyTemplate;
  pol_cache_bypass : option CachePredicate;
  pol_no_cache : option CachePredicate;
  pol_stale_if_error : option Z;
  pol_grace : option Z;
  pol_keep : option Z;
  pol_pass_ttl : option Z;
  pol_use_stale : list CacheUseStaleCondition;
  pol_background_update : bool;
  pol_lock_timeout : Z;
  pol_lock_age : Z;
  pol_min_uses : Z;
  pol_ignore_headers : list CacheIgnoreHeader;
  pol_range_requests : CacheRangeRequestPolicy;
  pol_slice_size_bytes : option Z;
  pol_convert_head : bool;
}.

(** ** Query and cookie pairs *)

Definition split_pair (pair : string) : string * string :=
  default (pair, EmptyString) (split_once "="%char pair).

Definition non_empty (s : string) : bool := negb (str_is_empty s).

(** Source: crates/rginx-core/src/config/cache/predicate.rs:51-61 (query_pairs) *)
Definition query_pairs (uri : string) : list (string * string) :=
  match split_once "?"%char uri with
  | Some (_, query) => map split_pair (List.filter non_empty (split "&"%char query))
  | None => []
  end.

(** Source: crates/rginx-core/src/config/cache/predicate.rs:63-75 (cookie_pairs) *)
Definition cookie_pairs `{HttpApi} (headers : HeaderMap) : list (string * string) :=
  map (λ cookie, let '(name, value) := split_pair cookie in (trim name, trim value))
    (List.filter non_empty
      (map trim (mjoin (map (split ";"%char) (hm_get_all_str headers "cookie"))))).

(** ** Predicates *)

Section Predicate.
  Context {HTTP : HttpApi}.

(** Source: crates/rginx-core/src/config/cache.rs:103-107 (CachePredicateRequestContext) *)
Record CachePredicateRequestContext : Type := mkPredicateContext {
  ctx_method : string;
  ctx_uri : string;
  ctx_headers : HeaderMap;
}.

Definition has_pair (name : string) (pairs : list (string * string)) : bool :=
  existsb (λ p, str_eqb p.1 name) pairs.
Definition has_pair_value (name value : string) (pairs : list (string * string)) : bool :=
  existsb (λ p, str_eqb p.1 name && str_eqb p.2 value) pairs.

(** Source: crates/rginx-core/src/config/cache/predicate.rs:4-30 (CachePredicate::matches_request) *)
Fixpoint matches_request (request : CachePredicateRequestContext) (p : CachePredicate) : bool :=
  match p with
  | PAny conditions => existsb (matches_request request) conditions
  | PAll conditions => forallb (matches_request request) conditions
  | PNot condition => negb (matches_request request condition)
  | PMethod method => str_eqb method (ctx_method request)
  | PHeaderExists name => hm_contains_key (ctx_headers request) name
  | PHeaderEquals name value =>
      existsb (λ header, str_eqb header value) (hm_get_all_str (ctx_headers request) name)
  | PQueryExists name => has_pair name (query_pairs (ctx_uri request))
  | PQueryEquals name value => has_pair_value name value (query_pairs (ctx_uri request))
  | PCookieExists name => has_pair name (cookie_pairs (ctx_headers request))
  | PCookieEquals name value => has_pair_value name value (cookie_pairs (ctx_headers request))
  | PStatus _ => false
  end.

(** Source: crates/rginx-core/src/config/cache/predicate.rs:32-48 (CachePredicate::matches_response) *)
Fixpoint matches_response (request : CachePredicateRequestContext) (status : Z)
    (p : CachePredicate) : bool :=
  match p with
  | PAny conditions => existsb (matches_response request status) conditions
  | PAll conditions => forallb (matches_response request status) conditions
  | PNot condition => negb (matches_response request status condition)
  | PStatus statuses => bool_decide (status ∈ statuses)
  | _ => matches_request request p
  end.
End Predicate.

(** The [Status]-free predicates: the ones a request alone decides. *)
Fixpoint status_free (p : CachePredicate) : bool :=
  match p with
  | PAny conditions | PAll conditions => forallb status_free conditions
  | PNot condition => status_free condition
  | PStatus _ => false
  | _ => true
  end.

(** ** Key templates *)

(** Source: crates/rginx-core/src/config/cache/key_template.rs:109-126 (CacheKeyTemplateError) *)
Inductive CacheKeyTemplateError : Type :=
| UnclosedVariable (template : string)
| UnescapedClose (template : string)
| EmptyVariable (template : string)
| UnknownVariable (name : string)
| InvalidRequestHeader (name : string)
| EmptyVariableArgument (name : string).

Section KeyTemplate.
  Context {HTTP : HttpApi}.

(** Source: crates/rginx-core/src/config/cache/key_template.rs:128-171 (parse_cache_key_variable) *)
Definition parse_cache_key_variable (name : string)
    : result CacheKeyTemplateError CacheKeyVariable :=
  if str_eqb name "scheme" then Ok KeyScheme
  else if str_eqb name "host" then Ok KeyHost
  else if str_eqb name "uri" then Ok KeyUri
  else if str_eqb name "method" then Ok KeyMethod
  else match strip_prefix "header:" name with
  | Some header_name =>
      let header_name := trim header_name in
      if str_is_empty header_name then Err (EmptyVariableArgument name)
      else let? header_name :=
             ok_or (header_name_parse header_name) (InvalidRequestHeader header_name) in
           Ok (KeyHeader header_name)
  | None =>
  match strip_prefix "query:" name with
  | Some query_name =>
      let query_name := trim query_name in
      if str_is_empty query_name then Err (EmptyVariableArgument name)
      else Ok (KeyQuery query_name)
  | None =>
  match strip_prefix "cookie:" name with
  | Some cookie_name =>
      let cookie_name := trim cookie_name in
      if str_is_empty cookie_name then Err (EmptyVariableArgument name)
      else Ok (KeyCookie cookie_name)
  | None => Err (UnknownVariable name)
  end end end.

(** Source: crates/rginx-core/src/config/cache/key_template.rs:8-62 (CacheKeyTemplate::parse) *)
Definition parse_cache_key_template (raw : string)
    : result CacheKeyTemplateError CacheKeyTemplate :=
  let? parts := parse_template parse_cache_key_variable
    (UnclosedVariable raw) (UnescapedClose raw) (EmptyVariable raw) raw in
  Ok (mkCacheKeyTemplate raw parts).

(** Source: crates/rginx-core/src/config/cache.rs:133-139 (CacheKeyRenderContext) *)
Record CacheKeyRenderContext : Type := mkKeyContext {
  kc_scheme : string;
  kc_host : string;
  kc_uri : string;
  kc_method : string;
  kc_headers : HeaderMap;
}.

(** Source: crates/rginx-core/src/config/cache/key_template.rs:173-182 (append_joined_header_values) *)
Definition joined_header_values (headers : HeaderMap) (name : string) : string :=
  str_join "," (hm_get_all_str headers name).

Definition first_value (name : string) (pairs : list (string * string)) : option string :=
  find_map (λ p, if str_eqb p.1 name then Some p.2 else None) pairs.

(** Source: crates/rginx-core/src/config/cache/key_template.rs:73-92 (CacheKeyTemplate::render, one variable) *)
Definition render_variable (context : CacheKeyRenderContext) (v : CacheKeyVariable) : string :=
  match v with
  | KeyScheme => kc_scheme context
  | KeyHost => kc_host context
  | KeyUri => kc_uri context
  | KeyMethod => kc_method context
  | KeyHeader name => joined_header_values (kc_headers context) name
  | KeyQuery name => default EmptyString (first_value name (query_pairs (kc_uri context)))
  | KeyCookie name => default EmptyString (first_value name (cookie_pairs (kc_headers context)))
  end.

(** Source: crates/rginx-core/src/config/cache/key_template.rs:68-99 (CacheKeyTemplate::render) *)
Definition render_key (t : CacheKeyTemplate) (context : CacheKeyRenderContext) : string :=
  foldl (λ rendered part,
    rendered +:+ match part with
                 | Literal value => value
                 | Variable_ variable => render_variable context variable
                 end) EmptyString (key_parts t).

(** Source: crates/rginx-core/src/config/cache/key_template.rs:101-105 (CacheKeyTemplate::references_method) *)
Definition references_method (t : CacheKeyTemplate) : bool :=
  existsb (λ part, match part with Variable_ KeyMethod => true | _ => false end) (key_parts t).

  (** ** Printing key templates *)

Definition print_cache_key_variable (v : CacheKeyVariable) : string :=
    match v with
    | KeyScheme => "scheme"
    | KeyHost => "host"
    | KeyUri => "uri"
    | KeyMethod => "method"
    | KeyHeader name => "header:" +:+ name
    | KeyQuery name => "query:" +:+ name
    | KeyCookie name => "cookie:" +:+ name
    end.
End KeyTemplate.

(** ** Printing and parsing agree *)

Section RoundTrip.
  Context {HTTP : HttpApi}.

  (** An argument that survives the brace syntax. *)
Definition argument_ok (text : string) : Prop :=
    str_is_empty text = false ∧ trim text = text ∧
    contains_char "{"%char text = false ∧ contains_char "}"%char text = false.

Definition key_variable_ok (v : CacheKeyVariable) : Prop :=
    match v with
    | KeyHeader name => argument_ok name ∧ header_name_parse name = Some name
    | KeyQuery name | KeyCookie name => argument_ok name
    | _ => True
    end.

Lemma prefixed_argument_ok a r text :
    argument_ok text →
    is_ascii a = true → is_ascii_ws_byte (byte_of a) = false →
    contains_char "{"%char (String a r +:+ ":") = false →
    contains_char "}"%char (String a r +:+ ":") = false →
    argument_ok ((String a r +:+ ":") +:+ text).
  Proof.
    intros (Hne & Ht & Ho & Hc) Ha Hw Hpo Hpc. split_and!.
    - done.
    - by apply trim_prefixed.
    - by rewrite contains_char_app, Hpo, Ho.
    - by rewrite contains_char_app, Hpc, Hc.
  Qed.

Lemma key_variable_printable v :
    key_variable_ok v → printable parse_cache_key_variable print_cache_key_variable v.
  Proof.
    intros Hok. unfold printable.
    destruct v as [| | | |name|name|name]; simpl in Hok; [split_and!; by vm_compute..| | |].
    - destruct Hok as [Hok Hname].
      destruct (prefixed_argument_ok "h" "eader" name Hok) as (Hne & Ht & Ho & Hc);
        [by vm_compute..|].
      destruct Hok as (Hne' & Ht' & _). split_and!; [done..|].
      unfold parse_cache_key_variable, print_cache_key_variable. simpl.
      change (EmptyString +:+ name) with name. by rewrite Ht', Hne', Hname.
    - destruct (prefixed_argument_ok "q" "uery" name Hok) as (Hne & Ht & Ho & Hc);
        [by vm_compute..|].
      destruct Hok as (Hne' & Ht' & _). split_and!; [done..|].
      unfold parse_cache_key_variable, print_cache_key_variable. simpl.
      change (EmptyString +:+ name) with name. by rewrite Ht', Hne'.
    - destruct (prefixed_argument_ok "c" "ookie" name Hok) as (Hne & Ht & Ho & Hc);
        [by vm_compute..|].
      destruct Hok as (Hne' & Ht' & _). split_and!; [done..|].
      unfold parse_cache_key_variable, print_cache_key_variable. simpl.
      change (EmptyString +:+ name) with name. by rewrite Ht', Hne'.
  Qed.

  (** Literals non-empty and never adjacent, variables well formed. *)
Fixpoint key_parts_ok (after_literal : bool) (parts : list (template_part CacheKeyVariable))
      : Prop :=
    match parts with
    | [] => True
    | Literal text :: parts =>
        after_literal = false ∧ str_is_empty text = false ∧ key_parts_ok true parts
    | Variable_ v :: parts => key_variable_ok v ∧ key_parts_ok false parts
    end.

Lemma key_parts_normal after parts :
    key_parts_ok after parts →
    normal parse_cache_key_variable print_cache_key_variable after parts.
  Proof.
    revert after. induction parts as [|[text|v] parts IH]; intros after; simpl; [done|..].
    - naive_solver.
    - intros [Hv Hp]. split; [by apply key_variable_printable|by apply IH].
  Qed.

  (** C3.  Cache-key templates round-trip: printing any well-formed sequence of
      literals and variables (braces in literals doubled, variables as
      [{scheme}], [{header:x}], ...) and parsing the text gives back exactly that
      sequence, so every template is expressible and escapes lose nothing. *)
Theorem cache_key_template_roundtrip (parts : list (template_part CacheKeyVariable))
      (Hok : key_parts_ok false parts) :
    parse_cache_key_template (print_template print_cache_key_variable parts) =
      Ok (mkCacheKeyTemplate (print_template print_cache_key_variable parts) parts).
  Proof.
    unfold parse_cache_key_template.
    by rewrite parse_print_template by by apply key_parts_normal.
  Qed.

End RoundTrip.

Lemma cache_key_template_roundtrip_witness :
  @parse_cache_key_template RefHttp.api "{scheme}://{{{host}}}{uri}|{header:accept}" =
  Ok (mkCacheKeyTemplate "{scheme}://{{{host}}}{uri}|{header:accept}"
        [Variable_ KeyScheme; Literal "://{"; Variable_ KeyHost; Literal "}";
         Variable_ KeyUri; Literal "|"; Variable_ (KeyHeader "accept")]).
Proof.
  apply (@cache_key_template_roundtrip RefHttp.api
    [Variable_ KeyScheme; Literal "://{"; Variable_ KeyHost; Literal "}";
     Variable_ KeyUri; Literal "|"; Variable_ (KeyHeader "accept")]).
  repeat split; by vm_compute.
Defined.
