(* ===== verification/ProxyHeader.v ===== *)
(** * Proxy headers: values of [proxy_set_headers]

    Models [crates/rginx-core/src/config/route/proxy_header.rs]: static and
    dynamic header values, brace templates, and their rendering for one
    request. *)

From S2P Require Import Prelude RustStr External Template.

(** Source: crates/rginx-core/src/config/route/proxy_header.rs:193-208 (ProxyHeaderTemplateError) *)
Inductive ProxyHeaderTemplateError : Type :=
| PhUnclosedVariable (template : string)
| PhUnescapedClose (template : string)
| PhEmptyVariable (template : string)
| PhUnknownVariable (name : string)
| PhInvalidRequestHeader (name : string).

(** Source: crates/rginx-core/src/config/route/proxy_header.rs:146-154 (ProxyHeaderVariable) *)
Inductive ProxyHeaderVariable : Type :=
| PhvHost | PhvScheme | PhvClientIp | PhvRemoteAddr | PhvPeerAddr | PhvForwardedFor
| PhvRequestHeader (name : string).

(** Source: crates/rginx-core/src/config/route/proxy_header.rs:51-54 (ProxyHeaderTemplate) *)
Record ProxyHeaderTemplate : Type := mkProxyHeaderTemplate {
  ph_raw : string;
  ph_parts : list (template_part ProxyHeaderVariable);
}.

(** [http::header::InvalidHeaderValue]. *)
Inductive InvalidHeaderValue : Type := mkInvalidHeaderValue.

Section ProxyHeader.
  Context {HTTP : HttpApi}.

(** Source: crates/rginx-core/src/config/route/proxy_header.rs:12-23 (ProxyHeaderValue) *)
Inductive ProxyHeaderValue : Type :=
| PhStatic (value : HeaderValue)
| PhHost | PhScheme | PhClientIp | PhRemoteAddr | PhPeerAddr | PhForwardedFor
| PhRequestHeader (name : string)
| PhTemplate (template : ProxyHeaderTemplate)
| PhRemove.

(** Source: crates/rginx-core/src/config/route/proxy_header.rs:176-184 (ProxyHeaderRenderContext) *)
Record ProxyHeaderRenderContext : Type := mkProxyHeaderRenderContext {
  phc_original_headers : HeaderMap;
  phc_original_host : option HeaderValue;
  phc_upstream_authority : string;
  phc_client_ip : IpAddr;
  phc_peer_addr : SocketAddr;
  phc_forwarded_for : string;
  phc_scheme : string;
}.

(** Source: crates/rginx-core/src/config/route/proxy_header.rs:187-189 (ProxyHeaderRenderContext::host_value) *)
Definition host_value (context : ProxyHeaderRenderContext) : string :=
  default (phc_upstream_authority context) (phc_original_host context ≫= hv_to_str).

(** Source: crates/rginx-core/src/config/route/proxy_header.rs:210-235 (parse_proxy_header_variable) *)
Definition parse_proxy_header_variable (variable : string)
    : result ProxyHeaderTemplateError ProxyHeaderVariable :=
  if str_eqb variable "host" then Ok PhvHost
  else if str_eqb variable "scheme" then Ok PhvScheme
  else if str_eqb variable "client_ip" then Ok PhvClientIp
  else if str_eqb variable "remote_addr" then Ok PhvRemoteAddr
  else if str_eqb variable "peer_addr" then Ok PhvPeerAddr
  else if str_eqb variable "forwarded_for" then Ok PhvForwardedFor
  else match strip_prefix "header:" variable with
       | None => Err (PhUnknownVariable variable)
       | Some header_name =>
           let? header_name :=
             ok_or (header_name_parse header_name) (PhInvalidRequestHeader header_name) in
           Ok (PhvRequestHeader header_name)
       end.

(** Source: crates/rginx-core/src/config/route/proxy_header.rs:57-114 (ProxyHeaderTemplate::parse) *)
Definition parse_proxy_header_template (raw : string)
    : result ProxyHeaderTemplateError ProxyHeaderTemplate :=
  let? parts := parse_template parse_proxy_header_variable
    (PhUnclosedVariable raw) (PhUnescapedClose raw) (PhEmptyVariable raw) raw in
  Ok (mkProxyHeaderTemplate raw parts).

(** Source: crates/rginx-core/src/config/route/proxy_header.rs:157-172 (ProxyHeaderVariable::append_to) *)
Definition append_to (variable : ProxyHeaderVariable) (context : ProxyHeaderRenderContext)
    (rendered : string) : string :=
  match variable with
  | PhvHost => rendered +:+ host_value context
  | PhvScheme => rendered +:+ phc_scheme context
  | PhvClientIp | PhvRemoteAddr => rendered +:+ ip_to_string (phc_client_ip context)
  | PhvPeerAddr => rendered +:+ socket_to_string (phc_peer_addr context)
  | PhvForwardedFor => rendered +:+ phc_forwarded_for context
  | PhvRequestHeader name =>
      match hm_get (phc_original_headers context) name with
      | Some value => rendered +:+ hv_as_bytes value
      | None => rendered
      end
  end.

(** Source: crates/rginx-core/src/config/route/proxy_header.rs:120-136 (ProxyHeaderTemplate::render) *)
Definition render_proxy_template (t : ProxyHeaderTemplate) (context : ProxyHeaderRenderContext)
    : result InvalidHeaderValue HeaderValue :=
  let rendered :=
    foldl (λ rendered part,
      match part with
      | Literal value => rendered +:+ value
      | Variable_ variable => append_to variable context rendered
      end) EmptyString (ph_parts t) in
  ok_or (hv_from_bytes rendered) mkInvalidHeaderValue.

Definition header_from_str (s : string) : result InvalidHeaderValue (option HeaderValue) :=
  rmap Some (ok_or (hv_from_str s) mkInvalidHeaderValue).

(** Source: crates/rginx-core/src/config/route/proxy_header.rs:26-43 (ProxyHeaderValue::render) *)
Definition render_proxy_header (v : ProxyHeaderValue) (context : ProxyHeaderRenderContext)
    : result InvalidHeaderValue (option HeaderValue) :=
  match v with
  | PhStatic value => Ok (Some value)
  | PhHost => header_from_str (host_value context)
  | PhScheme => header_from_str (phc_scheme context)
  | PhClientIp | PhRemoteAddr => header_from_str (ip_to_string (phc_client_ip context))
  | PhPeerAddr => header_from_str (socket_to_string (phc_peer_addr context))
  | PhForwardedFor => header_from_str (phc_forwarded_for context)
  | PhRequestHeader name => Ok (hm_get (phc_original_headers context) name)
  | PhTemplate template => rmap Some (render_proxy_template template context)
  | PhRemove => Ok None
  end.

(** Source: crates/rginx-core/src/config/route/proxy_header.rs:45-47 (ProxyHeaderValue::removes_header) *)
Definition removes_header (v : ProxyHeaderValue) : bool :=
  match v with PhRemove => true | _ => false end.
End ProxyHeader.
