(* ===== verification/Route.v ===== *)
(** * Routes: matchers, access control and actions

    Models [crates/rginx-core/src/config/route.rs], [route/regex_matcher.rs]
    and the data of [virtual_host.rs].  Regular expressions, networks and
    header values are the interfaces of External.v. *)

From S2P Require Import Prelude RustStr External ServerName Upstream Tls CacheConfig ProxyHeader.

Section Route.
  Context {RX : RegexApi} {NET : IpNetApi} {HTTP : HttpApi}.

(** ** Access control and policies *)

(** Source: crates/rginx-core/src/config/route.rs:46-49 (RouteAccessControl) *)
Record RouteAccessControl : Type := mkRouteAccessControl {
  allow_cidrs : list IpNet;
  deny_cidrs : list IpNet;
}.

(** Source: crates/rginx-core/src/config/route.rs:56-62 (RouteAccessControl::allows) *)
Definition allows (acl : RouteAccessControl) (ip : IpAddr) : bool :=
  if existsb (λ cidr, ipnet_contains cidr ip) (deny_cidrs acl) then false
  else match allow_cidrs acl with
       | [] => true
       | _ => existsb (λ cidr, ipnet_contains cidr ip) (allow_cidrs acl)
       end.

(** Source: crates/rginx-core/src/config/route.rs:66-69 (RouteRateLimit) *)
Record RouteRateLimit : Type := mkRouteRateLimit {
  requests_per_sec : Z;
  burst : Z;
}.

(** Source: crates/rginx-core/src/config/route.rs:78-83 (RouteBufferingPolicy) *)
Inductive RouteBufferingPolicy : Type := BufferingAuto | BufferingOn | BufferingOff.

(** Source: crates/rginx-core/src/config/route.rs:86-92 (RouteBufferingPolicy::as_str) *)
Definition buffering_as_str (p : RouteBufferingPolicy) : string :=
  match p with
  | BufferingAuto => "auto"
  | BufferingOn => "on"
  | BufferingOff => "off"
  end.

(** Source: crates/rginx-core/src/config/route.rs:96-101 (RouteCompressionPolicy) *)
Inductive RouteCompressionPolicy : Type := CompressionOff | CompressionAuto | CompressionForce.

(** Source: crates/rginx-core/src/config/route.rs:104-110 (RouteCompressionPolicy::as_str) *)
Definition compression_as_str (p : RouteCompressionPolicy) : string :=
  match p with
  | CompressionOff => "off"
  | CompressionAuto => "auto"
  | CompressionForce => "force"
  end.

(** ** Matchers *)

(** Source: crates/rginx-core/src/config/route/regex_matcher.rs:5-9 (RouteRegexMatcher) *)
Record RouteRegexMatcher : Type := mkRouteRegexMatcher {
  rx_pattern : string;
  rx_case_insensitive : bool;
  rx_regex : Regex;
}.

(** Source: crates/rginx-core/src/config/route/regex_matcher.rs:35-37 (RouteRegexMatcher::matches) *)
Definition regex_matches (r : RouteRegexMatcher) (path : string) : bool :=
  regex_is_match (rx_regex r) path.

(** Source: crates/rginx-core/src/config/route.rs:114-119 (RouteMatcher) *)
Inductive RouteMatcher : Type :=
| MExact (path : string)
| MPreferredPrefix (prefix : string)
| MPrefix (prefix : string)
| MRegex (regex : RouteRegexMatcher).

(** Source: crates/rginx-core/src/config/route.rs:155-167 (prefix_matches) *)
Definition prefix_matches (prefix path : string) : bool :=
  if str_eqb prefix "/" then true
  else if str_eqb path prefix then true
  else match strip_prefix prefix path with
       | Some remainder =>
           if ends_with "/" prefix then true else starts_with "/" remainder
       | None => false
       end.

(** Source: crates/rginx-core/src/config/route.rs:122-128 (RouteMatcher::matches) *)
Definition matcher_matches (m : RouteMatcher) (path : string) : bool :=
  match m with
  | MExact expected => str_eqb path expected
  | MPreferredPrefix prefix | MPrefix prefix => prefix_matches prefix path
  | MRegex regex => regex_matches regex path
  end.

(** Source: crates/rginx-core/src/config/route.rs:130-137 (RouteMatcher::priority) *)
Definition matcher_priority (m : RouteMatcher) : Z * Z :=
  match m with
  | MExact path => (4, str_len path)
  | MPreferredPrefix path => (3, str_len path)
  | MRegex _ => (2, 0)
  | MPrefix path => (1, str_len path)
  end.

(** Source: crates/rginx-core/src/config/route.rs:139-152 (RouteMatcher::id_fragment) *)
Definition matcher_id_fragment (m : RouteMatcher) : string :=
  match m with
  | MExact path => "exact:" +:+ path
  | MPreferredPrefix path => "preferred_prefix:" +:+ path
  | MPrefix path => "prefix:" +:+ path
  | MRegex regex =>
      if rx_case_insensitive regex then "regex:i:" +:+ rx_pattern regex
      else "regex:" +:+ rx_pattern regex
  end.

(** Source: crates/rginx-core/src/config/route.rs:170-173 (GrpcRouteMatch) *)
Record GrpcRouteMatch : Type := mkGrpcRouteMatch {
  grpc_service : option string;
  grpc_method : option string;
}.

Definition is_none_or {A} (p : A → bool) (o : option A) : bool :=
  match o with None => true | Some a => p a end.

Definition b2z (b : bool) : Z := if b then 1 else 0.

(** Source: crates/rginx-core/src/config/route.rs:176-179 (GrpcRouteMatch::matches) *)
Definition grpc_matches (g : GrpcRouteMatch) (service method : string) : bool :=
  is_none_or (λ expected, str_eqb expected service) (grpc_service g) &&
  is_none_or (λ expected, str_eqb expected method) (grpc_method g).

(** Source: crates/rginx-core/src/config/route.rs:181-183 (GrpcRouteMatch::priority) *)
Definition grpc_priority (g : GrpcRouteMatch) : Z :=
  b2z (is_some (grpc_service g)) + b2z (is_some (grpc_method g)).

(** Source: crates/rginx-core/src/config/route.rs:185-194 (GrpcRouteMatch::id_fragment) *)
Definition grpc_id_fragment (g : GrpcRouteMatch) : string :=
  let fragments :=
    match grpc_service g with Some service => ["service=" +:+ service] | None => [] end ++
    match grpc_method g with Some method => ["method=" +:+ method] | None => [] end in
  "grpc:" +:+ str_join "," fragments.

(** ** Actions and routes *)

(** Source: crates/rginx-core/src/config/route.rs:204-210 (ProxyTarget) *)
Record ProxyTarget : Type := mkProxyTarget {
  tgt_upstream_name : string;
  tgt_upstream : Upstream;
  tgt_preserve_host : bool;
  tgt_strip_prefix : option string;
  tgt_proxy_set_headers : list (string * ProxyHeaderValue);
}.

(** Source: crates/rginx-core/src/config/route.rs:213-217 (ReturnAction) *)
Record ReturnAction : Type := mkReturnAction {
  ret_status : Z;
  ret_location : string;
  ret_body : option string;
}.

(** Source: crates/rginx-core/src/config/route.rs:198-201 (RouteAction) *)
Inductive RouteAction : Type :=
| Proxy (target : ProxyTarget)
| Return_ (action : ReturnAction).

(** Source: crates/rginx-core/src/config/route.rs:20-35 (Route) *)
Record Route : Type := mkRoute {
  route_id : string;
  route_matcher : RouteMatcher;
  route_grpc_match : option GrpcRouteMatch;
  route_action : RouteAction;
  route_access_control : RouteAccessControl;
  route_rate_limit : option RouteRateLimit;
  route_allow_early_data : bool;
  route_request_buffering : RouteBufferingPolicy;
  route_response_buffering : RouteBufferingPolicy;
  route_compression : RouteCompressionPolicy;
  route_compression_min_bytes : option Z;
  route_compression_content_types : list string;
  route_streaming_response_idle_timeout : option Z;
  route_cache : option RouteCachePolicy;
}.

Definition route_grpc_rank (r : Route) : Z :=
  match route_grpc_match r with Some g => grpc_priority g | None => 0 end.

(** Source: crates/rginx-core/src/config/route.rs:38-42 (Route::priority) *)
Definition route_priority (r : Route) : Z * Z * Z :=
  let '(matcher_rank, matcher_len) := matcher_priority (route_matcher r) in
  (matcher_rank, matcher_len, route_grpc_rank r).

(** Source: crates/rginx-core/src/config/virtual_host.rs:4-9 (VirtualHost) *)
Record VirtualHost : Type := mkVirtualHost {
  vhost_id : string;
  vhost_server_names : list string;
  vhost_routes : list Route;
  vhost_tls : option VirtualHostTls;
}.

(** ** Facts *)

(** Access control is deny-first: a client is let through exactly when no
    deny network contains it and either the allow list is empty or one of its
    networks contains it; adding a deny network can only take access away. *)
Theorem access_control_deny_first (acl : RouteAccessControl) (ip : IpAddr) :
  (allows acl ip = true ↔
     (∀ cidr, cidr ∈ deny_cidrs acl → ipnet_contains cidr ip = false) ∧
     (allow_cidrs acl = [] ∨ ∃ cidr, cidr ∈ allow_cidrs acl ∧ ipnet_contains cidr ip = true)) ∧
  (∀ extra, allows (mkRouteAccessControl (allow_cidrs acl) (extra :: deny_cidrs acl)) ip = true →
     allows acl ip = true).
Proof.
  assert (Hex : ∀ l, existsb (λ cidr, ipnet_contains cidr ip) l = true ↔
                ∃ cidr, cidr ∈ l ∧ ipnet_contains cidr ip = true).
  { intros l. rewrite existsb_exists. by setoid_rewrite list_elem_of_In. }
  assert (Hallow : ∀ l, match l with [] => true | _ => existsb (λ cidr, ipnet_contains cidr ip) l end = true ↔
                   l = [] ∨ ∃ cidr, cidr ∈ l ∧ ipnet_contains cidr ip = true).
  { intros [|c l]; [naive_solver|]. rewrite Hex. naive_solver. }
  unfold allows. split.
  - destruct (existsb _ (deny_cidrs acl)) eqn:Hd.
    + apply Hex in Hd as (c & Hc & Hm). split; [done|]. intros [Hall _].
      by rewrite Hall in Hm.
    + rewrite Hallow. split; [|tauto]. intros Ha. split; [|done].
      intros c Hc. destruct (ipnet_contains c ip) eqn:Hm; [|done].
      rewrite <-Hd. symmetry. apply Hex. by exists c.
  - intros extra. simpl. by destruct (ipnet_contains extra ip); [|].
Qed.

(** Prefix matching respects path segments. *)
Lemma prefix_matches_spec prefix path :
  prefix_matches prefix path = true ↔
  prefix = "/" ∨ path = prefix ∨
  ∃ rest, path = prefix +:+ rest ∧ (ends_with "/" prefix = true ∨ ∃ r, rest = "/" +:+ r).
Proof.
  unfold prefix_matches.
  destruct (str_eqb prefix "/") eqn:H1; [apply str_eqb_true in H1; tauto|].
  destruct (str_eqb path prefix) eqn:H2; [apply str_eqb_true in H2; tauto|].
  apply str_eqb_false in H1, H2.
  destruct (strip_prefix prefix path) as [rest|] eqn:H3.
  - apply strip_prefix_Some in H3 as ->. destruct (ends_with "/" prefix) eqn:He.
    + split; [|done]. intros _. right; right. exists rest. tauto.
    + rewrite starts_with_spec. split.
      * intros Hr. right; right. exists rest. tauto.
      * intros [?|[?|(rest' & Heq & Hr)]]; [done..|].
        apply (inj (String.app prefix)) in Heq as ->. destruct Hr; [done|tauto].
  - split; [done|]. intros [?|[?|(rest & -> & _)]]; [done..|].
    assert (Hs : strip_prefix prefix (prefix +:+ rest) = Some rest)
      by (by apply strip_prefix_Some). congruence.
Qed.
End Route.
