(* ===== verification/Listener.v ===== *)
(** * Listeners, the configuration snapshot and its transitions

    Models the data of [crates/rginx-core/src/config/server.rs], [listener.rs],
    [acme.rs] and [snapshot.rs] with their methods, and
    [crates/rginx-http/src/transition.rs]: which changes of the configuration a
    running process may take over without a restart. *)

From S2P Require Import Prelude RustStr External ConfigBase AccessLog ServerName Upstream Tls CacheConfig ProxyHeader Route.

(** ** Data *)

(** Source: crates/rginx-core/src/config/server.rs:10-14 (RuntimeSettings) *)
Record RuntimeSettings : Type := mkRuntimeSettings {
  run_shutdown_timeout : Z;
  run_worker_threads : option Z;
  run_accept_workers : Z;
}.

(** Source: crates/rginx-core/src/config/acme.rs:5-7 (AcmeChallengeType) *)
Inductive AcmeChallengeType : Type := Http01.

(** Source: crates/rginx-core/src/config/acme.rs:18-24 (AcmeSettings) *)
Record AcmeSettings : Type := mkAcmeSettings {
  acme_directory_url : string;
  acme_contacts : list string;
  acme_state_dir : string;
  acme_renew_before : Z;
  acme_poll_interval : Z;
}.

(** Source: crates/rginx-core/src/config/acme.rs:27-33 (ManagedCertificateSpec) *)
Record ManagedCertificateSpec : Type := mkManagedCertificate {
  mcs_scope : string;
  mcs_domains : list string;
  mcs_cert_path : string;
  mcs_key_path : string;
  mcs_challenge : AcmeChallengeType;
}.

(** Source: crates/rginx-core/src/config/listener.rs:8-11 (ListenerTransportKind) *)
Inductive ListenerTransportKind : Type := Tcp | Udp.

#[export] Instance ListenerTransportKind_eq_dec : EqDecision ListenerTransportKind.
Proof. solve_decision. Defined.

(** Source: crates/rginx-core/src/config/listener.rs:14-19 (ListenerTransportKind::as_str) *)
Definition transport_as_str (kind : ListenerTransportKind) : string :=
  match kind with Tcp => "tcp" | Udp => "udp" end.

(** Source: crates/rginx-core/src/config/listener.rs:23-27 (ListenerApplicationProtocol) *)
Inductive ListenerApplicationProtocol : Type := AppHttp1 | AppHttp2 | AppHttp3.

#[export] Instance SocketAddr_eq_dec : EqDecision SocketAddr.
Proof. solve_decision. Defined.

(** Source: crates/rginx-core/src/config/listener.rs:40-51 (ListenerHttp3) *)
Record ListenerHttp3 : Type := mkHttp3 {
  h3_listen_addr : SocketAddr;
  h3_advertise_alt_svc : bool;
  h3_alt_svc_max_age : Z;
  h3_max_concurrent_streams : Z;
  h3_stream_buffer_size : Z;
  h3_active_connection_id_limit : Z;
  h3_retry : bool;
  h3_host_key_path : option string;
  h3_gso : bool;
  h3_early_data_enabled : bool;
}.

(** Source: crates/rginx-core/src/config/listener.rs:54-68 (ListenerTransportBinding) *)
Record ListenerTransportBinding : Type := mkBinding {
  lb_name : string;
  lb_kind : ListenerTransportKind;
  lb_listen_addr : SocketAddr;
  lb_protocols : list ListenerApplicationProtocol;
  lb_http3 : option ListenerHttp3;
}.

Section Listener.
Context {RX : RegexApi} {NET : IpNetApi} {HTTP : HttpApi}.

(** Source: crates/rginx-core/src/config/server.rs:17-32 (Server) *)
Record Server : Type := mkServer {
  srv_listen_addr : SocketAddr;
  srv_server_header : HeaderValue;
  srv_default_certificate : option string;
  srv_trusted_proxies : list IpNet;
  srv_client_ip_header : option string;
  srv_keep_alive : bool;
  srv_max_headers : option Z;
  srv_max_request_body_bytes : option Z;
  srv_max_connections : option Z;
  srv_header_read_timeout : option Z;
  srv_request_body_read_timeout : option Z;
  srv_response_write_timeout : option Z;
  srv_access_log_format : option AccessLogFormat;
  srv_tls : option ServerTls;
}.

(** Source: crates/rginx-core/src/config/server.rs:42-44 (default_server_header) *)
Definition default_server_header : HeaderValue := hv_from_static "rginx".

(** Source: crates/rginx-core/src/config/listener.rs:71-78 (Listener) *)
Record Listener : Type := mkListener {
  lst_id : string;
  lst_name : string;
  lst_server : Server;
  lst_tls_termination_enabled : bool;
  lst_proxy_protocol_enabled : bool;
  lst_http3 : option ListenerHttp3;
}.

(** Source: crates/rginx-core/src/config/listener.rs:89-91 (Listener::binding_count) *)
Definition binding_count (l : Listener) : Z := 1 + (if is_some (lst_http3 l) then 1 else 0).

(** The fields of a UDP binding are those of the listener's HTTP/3 settings. *)
(** Source: crates/rginx-core/src/config/listener.rs:93-133 (Listener::transport_bindings) *)
Definition transport_bindings (l : Listener) : list ListenerTransportBinding :=
  mkBinding "tcp" Tcp (srv_listen_addr (lst_server l))
    (if lst_tls_termination_enabled l then [AppHttp1; AppHttp2] else [AppHttp1]) None ::
  match lst_http3 l with
  | Some http3 => [mkBinding "udp" Udp (h3_listen_addr http3) [AppHttp3] (Some http3)]
  | None => []
  end.

(** Source: crates/rginx-core/src/config/snapshot.rs:10-19 (ConfigSnapshot) *)
Record ConfigSnapshot : Type := mkSnapshot {
  cfg_runtime : RuntimeSettings;
  cfg_acme : option AcmeSettings;
  cfg_managed_certificates : list ManagedCertificateSpec;
  cfg_listeners : list Listener;
  cfg_default_vhost : VirtualHost;
  cfg_vhosts : list VirtualHost;
  cfg_cache_zones : gmap string CacheZone;
  cfg_upstreams : gmap string Upstream;
}.

(** Source: crates/rginx-core/src/config/snapshot.rs:22-25 (ConfigSnapshot::total_route_count) *)
Definition total_route_count (c : ConfigSnapshot) : Z :=
  Z.of_nat (length (vhost_routes (cfg_default_vhost c))) +
  foldr (λ v n, Z.of_nat (length (vhost_routes v)) + n) 0 (cfg_vhosts c).

(** Source: crates/rginx-core/src/config/snapshot.rs:27-29 (ConfigSnapshot::total_vhost_count) *)
Definition total_vhost_count (c : ConfigSnapshot) : Z := 1 + Z.of_nat (length (cfg_vhosts c)).

(** Source: crates/rginx-core/src/config/snapshot.rs:35-37 (ConfigSnapshot::total_listener_binding_count) *)
Definition total_listener_binding_count (c : ConfigSnapshot) : Z :=
  foldr (λ l n, binding_count l + n) 0 (cfg_listeners c).

(** Source: crates/rginx-core/src/config/snapshot.rs:39-41 (ConfigSnapshot::tls_enabled) *)
Definition config_tls_enabled (c : ConfigSnapshot) : bool :=
  existsb lst_tls_termination_enabled (cfg_listeners c).

(** Source: crates/rginx-core/src/config/snapshot.rs:43-45 (ConfigSnapshot::http3_enabled) *)
Definition config_http3_enabled (c : ConfigSnapshot) : bool :=
  existsb (λ l, is_some (lst_http3 l)) (cfg_listeners c).

(** Source: crates/rginx-core/src/config/snapshot.rs:47-49 (ConfigSnapshot::listener) *)
Definition config_listener (c : ConfigSnapshot) (id : string) : option Listener :=
  List.find (λ l, str_eqb (lst_id l) id) (cfg_listeners c).

(** ** Transitions *)

(** Source: crates/rginx-http/src/transition.rs:30-33 (ConfigTransitionKind) *)
Inductive ConfigTransitionKind : Type := HotReload | RestartRequired.

(** Source: crates/rginx-http/src/transition.rs:19-27 (RESTART_REQUIRED_FIELDS) *)
Definition RESTART_REQUIRED_FIELDS : list string :=
  ["listen"; "server.http3.listen"; "listeners[].listen"; "listeners[].http3.listen"; "servers[].listen";
   "runtime.worker_threads"; "runtime.accept_workers"]%string.

(** Source: crates/rginx-http/src/transition.rs:3-17 (RELOADABLE_FIELDS) *)
Definition RELOADABLE_FIELDS : list string :=
  ["server.tls"; "server.http3.advertise_alt_svc"; "server.http3.alt_svc_max_age_secs"; "listeners[].tls";
   "listeners[].http3.advertise_alt_svc"; "listeners[].http3.alt_svc_max_age_secs"; "servers[].tls";
   "upstreams[].tls"; "upstreams[].server_name"; "upstreams[].server_name_override";
   "servers[].upstreams[].tls"; "servers[].upstreams[].server_name";
   "servers[].upstreams[].server_name_override"]%string.

(** Source: crates/rginx-http/src/transition.rs:42-46 (ConfigTransitionPlan) *)
Record ConfigTransitionPlan : Type := mkTransitionPlan {
  plan_kind : ConfigTransitionKind;
  plan_reloadable_fields : list string;
  plan_restart_required_fields : list string;
  plan_changed_restart_required_fields : list string;
}.

(** [listeners.iter().map(|l| (id, l)).collect::<HashMap<_, _>>()]: the last of
    several entries with one key is kept. *)
Definition listeners_by_id (listeners : list Listener) : gmap string Listener :=
  foldl (λ m l, <[lst_id l := l]> m) ∅ listeners.

(** Source: crates/rginx-http/src/transition.rs:144-146 (next_listener_http3) *)
Definition next_listener_http3 (listener : Listener) : option SocketAddr := h3_listen_addr <$> lst_http3 listener.

Definition addr_or_dash (addr : option SocketAddr) : string :=
  match addr with Some addr => socket_to_string addr | None => "-" end.

(** [format!("{:?}")] of an [Option<usize>]. *)
Definition debug_option (n : option Z) : string :=
  match n with Some n => fmt["Some("; dec n; ")"] | None => "None" end.

(** What a listener of the running configuration asks to change. *)
Definition listener_changes (next_by_id : gmap string Listener) (current : Listener) : list string :=
  match next_by_id !! lst_id current with
  | None => []
  | Some next =>
      let current_addr := srv_listen_addr (lst_server current) in
      let next_addr := srv_listen_addr (lst_server next) in
      let current_http3 := h3_listen_addr <$> lst_http3 current in
      let next_http3 := next_listener_http3 next in
      (if decide (current_addr = next_addr) then []
       else [fmt[lst_id current; ".listen "; socket_to_string current_addr; " -> "; socket_to_string next_addr]]) ++
      (if decide (current_http3 = next_http3) then []
       else [fmt[lst_id current; ".http3.listen "; addr_or_dash current_http3; " -> "; addr_or_dash next_http3]])
  end.

(** Source: crates/rginx-http/src/transition.rs:80-142 (plan_config_transition) *)
Definition plan_config_transition (current next : ConfigSnapshot) : ConfigTransitionPlan :=
  let next_by_id := listeners_by_id (cfg_listeners next) in
  let r := cfg_runtime current in
  let r' := cfg_runtime next in
  let changes :=
    mjoin (map (listener_changes next_by_id) (cfg_listeners current)) ++
    (if decide (run_worker_threads r = run_worker_threads r') then []
     else [fmt["runtime.worker_threads "; debug_option (run_worker_threads r); " -> ";
               debug_option (run_worker_threads r')]]) ++
    (if decide (run_accept_workers r = run_accept_workers r') then []
     else [fmt["runtime.accept_workers "; dec (run_accept_workers r); " -> "; dec (run_accept_workers r')]]) in
  mkTransitionPlan (match changes with [] => HotReload | _ => RestartRequired end)
    RELOADABLE_FIELDS RESTART_REQUIRED_FIELDS changes.

(** Source: crates/rginx-http/src/transition.rs:65-73 (ConfigTransitionPlan::restart_required_message) *)
Definition restart_required_message (plan : ConfigTransitionPlan) : option string :=
  match plan_kind plan with
  | RestartRequired =>
      Some fmt["reload requires restart because these startup-boundary fields changed (restart-boundary: ";
               str_join ", " (plan_restart_required_fields plan); "): ";
               str_join "; " (plan_changed_restart_required_fields plan)]
  | HotReload => None
  end.

(** Source: crates/rginx-http/src/transition.rs:148-154 (validate_config_transition) *)
Definition validate_config_transition (current next : ConfigSnapshot) : result Error () :=
  match restart_required_message (plan_config_transition current next) with
  | Some message => Err (ConfigError message)
  | None => Ok tt
  end.

(** ** Facts *)

Lemma listeners_by_id_lookup listeners id l :
  listeners_by_id listeners !! id = Some l → l ∈ listeners ∧ lst_id l = id.
Proof.
  unfold listeners_by_id. induction listeners as [|x listeners IH] using rev_ind; [done|].
  rewrite foldl_app. simpl. intros [[<- <-]|[_ H]]%lookup_insert_Some; [split; [apply elem_of_app; right; by left|done]|].
  destruct (IH H). split; [apply elem_of_app; by left|done].
Qed.

Lemma listeners_by_id_Some listeners l :
  l ∈ listeners → is_Some (listeners_by_id listeners !! lst_id l).
Proof.
  unfold listeners_by_id. induction listeners as [|x listeners IH] using rev_ind; [by intros ?%not_elem_of_nil|].
  rewrite foldl_app. simpl. intros [H|H]%elem_of_app; [|apply list_elem_of_singleton in H as ->].
  - destruct (decide (lst_id x = lst_id l)) as [->|?]; [rewrite lookup_insert_eq; by eauto|].
    rewrite lookup_insert_ne by done. by apply IH.
  - rewrite lookup_insert_eq. by eauto.
Qed.

Lemma listeners_by_id_NoDup listeners l :
  NoDup (map lst_id listeners) → l ∈ listeners → listeners_by_id listeners !! lst_id l = Some l.
Proof.
  intros Hn Hl. destruct (listeners_by_id_Some _ _ Hl) as [l' Hl']. rewrite Hl'. f_equal.
  apply listeners_by_id_lookup in Hl' as [Hin Hid].
  apply list_elem_of_lookup in Hl as [i Hi], Hin as [j Hj].
  assert (i = j) as -> by (eapply (NoDup_lookup (map lst_id listeners)); [done| |]; rewrite list_lookup_fmap; [by rewrite Hi|by rewrite Hj; simpl; rewrite Hid]).
  congruence.
Qed.

Lemma config_listener_Some c id l : config_listener c id = Some l → l ∈ cfg_listeners c ∧ lst_id l = id.
Proof. intros [H1%list_elem_of_In H2%str_eqb_true]%find_some. done. Qed.

Lemma config_listener_None c id : config_listener c id = None ↔ ∀ l, l ∈ cfg_listeners c → lst_id l ≠ id.
Proof.
  split.
  - intros H l Hl <-. pose proof (find_none _ _ H l ltac:(by apply list_elem_of_In)) as Hf. simpl in Hf.
    by rewrite str_eqb_refl in Hf.
  - intros H. destruct (config_listener c id) as [l|] eqn:Hc; [|done]. apply config_listener_Some in Hc as [Hl <-].
    by destruct (H l Hl).
Qed.

(** What a transition that is accepted keeps. *)
Definition keeps_sockets (current next : ConfigSnapshot) : Prop :=
  run_worker_threads (cfg_runtime next) = run_worker_threads (cfg_runtime current) ∧
  run_accept_workers (cfg_runtime next) = run_accept_workers (cfg_runtime current) ∧
  ∀ l l', l ∈ cfg_listeners current → listeners_by_id (cfg_listeners next) !! lst_id l = Some l' →
    map (λ b, (lb_kind b, lb_listen_addr b)) (transport_bindings l') =
    map (λ b, (lb_kind b, lb_listen_addr b)) (transport_bindings l).

Lemma listener_changes_nil next_by_id l :
  listener_changes next_by_id l = [] ↔
  ∀ l', next_by_id !! lst_id l = Some l' →
    map (λ b, (lb_kind b, lb_listen_addr b)) (transport_bindings l') =
    map (λ b, (lb_kind b, lb_listen_addr b)) (transport_bindings l).
Proof.
  unfold listener_changes. destruct (next_by_id !! lst_id l) as [l'|]; [|by split].
  unfold next_listener_http3, transport_bindings. split.
  - intros [H1 H2]%app_nil. intros ? [= <-].
    destruct (decide (srv_listen_addr (lst_server l) = srv_listen_addr (lst_server l'))) as [Ha|]; [|done].
    destruct (decide (h3_listen_addr <$> lst_http3 l = _)) as [Hb|]; [|done].
    simpl. rewrite Ha. f_equal. destruct (lst_http3 l), (lst_http3 l'); simplify_eq/=; by rewrite ?Hb.
  - intros H. specialize (H l' eq_refl). simpl in H. injection H as Ha Hb. rewrite decide_True by done. simpl.
    rewrite decide_True; [done|]. destruct (lst_http3 l), (lst_http3 l'); simplify_eq/=; congruence.
Qed.

(** A reload is refused exactly when it would change a socket, or the number of
    threads, that the process was started with; listeners may come and go. *)
Lemma transition_keeps_sockets current next :
  validate_config_transition current next = Ok tt ↔ keeps_sockets current next.
Proof.
  assert (validate_config_transition current next = Ok tt ↔
          plan_changed_restart_required_fields (plan_config_transition current next) = []) as ->.
  { unfold validate_config_transition, plan_config_transition, restart_required_message. simpl.
    match goal with |- context [match ?l with [] => HotReload | _ => _ end] => by destruct l end. }
  simpl. unfold keeps_sockets. split.
  - intros [Hl [Hw Ha]%app_nil]%app_nil. split_and!.
    + by destruct (decide (run_worker_threads _ = run_worker_threads _)).
    + by destruct (decide (run_accept_workers _ = run_accept_workers _)).
    + intros l l' Hin. apply listener_changes_nil.
      assert (∀ ls, mjoin (map (listener_changes (listeners_by_id (cfg_listeners next))) ls) = [] → ∀ x, x ∈ ls →
                listener_changes (listeners_by_id (cfg_listeners next)) x = []) as Hall.
      { intros ls Hls x Hx. apply list_elem_of_split in Hx as (a & b & ->).
        rewrite map_app in Hls. simpl in Hls. rewrite join_app in Hls. simpl in Hls. by apply app_nil in Hls as [_ [? _]%app_nil]. }
      by eapply Hall.
  - intros (Hw & Ha & Hl). rewrite !decide_True by done. rewrite app_nil_r.
    assert (∀ ls, (∀ x, x ∈ ls → x ∈ cfg_listeners current) →
              mjoin (map (listener_changes (listeners_by_id (cfg_listeners next))) ls) = []) as Hall; [|by apply Hall].
    induction ls as [|x ls IH]; intros Hls; [done|]. simpl. rewrite IH by (intros; apply Hls; by right).
    rewrite app_nil_r. apply listener_changes_nil. intros l' Hl'. apply Hl; [apply Hls; by left|done].
Qed.
End Listener.
