(* ===== verification/Stats.v ===== *)
(** * Runtime statistics

    Models [crates/rginx-http/src/state/counters] ([http.rs], [rolling.rs],
    [grpc.rs], [traffic.rs], [upstreams.rs]), the operations that record an event
    ([traffic/record.rs], [connections/operations/record.rs],
    [upstreams/record.rs]) and the snapshot versions they advance
    ([snapshot_bus.rs], [traffic/snapshot.rs], [upstreams/snapshot.rs]).

    A struct of counters is a function from the names of its fields to their
    values: reading a field is applying it, [bump] is [fetch_add(1)].  The
    counters are [u64]s that are only ever incremented by one; they are taken not
    to wrap.  The clock of the rolling counters is in seconds. *)

From S2P Require Import Prelude RustStr External ConfigBase AccessLog ServerName Upstream Tls CacheConfig ProxyHeader Route Listener.

(** ** Counters *)

Definition bump {F} `{EqDecision F} (field : F) (counters : F → Z) : F → Z :=
  λ f, if decide (f = field) then counters f + 1 else counters f.

Definition zeroes {F} : F → Z := λ _, 0.

(** *** Rolling windows *)

Definition RECENT_WINDOW_SECS : Z := 60.
Definition MAX_RECENT_WINDOW_SECS : Z := 300.

(** The oldest bucket first: (second, count). *)
(** Source: crates/rginx-http/src/state/counters/rolling.rs:2-4 (RollingCounter) *)
Definition RollingCounter : Type := list (Z * Z).

(** Source: crates/rginx-http/src/state/counters/rolling.rs:125-130 (trim_old_buckets) *)
Fixpoint trim_old_buckets (buckets : RollingCounter) (now_second window_secs : Z) : RollingCounter :=
  match buckets with
  | (second, count) :: rest =>
      if second <? sat_sub now_second (sat_sub window_secs 1) then trim_old_buckets rest now_second window_secs
      else buckets
  | [] => []
  end.

(** Source: crates/rginx-http/src/state/counters/rolling.rs:31-43 (RollingCounter::increment_at) *)
Definition increment_at (second : Z) (buckets : RollingCounter) : RollingCounter :=
  let buckets := trim_old_buckets buckets second MAX_RECENT_WINDOW_SECS in
  match reverse buckets with
  | (bucket_second, count) :: before =>
      if bucket_second =? second then reverse ((bucket_second, count + 1) :: before)
      else if second <? bucket_second then reverse ((bucket_second, count + 1) :: before)
      else buckets ++ [(second, 1)]
  | [] => buckets ++ [(second, 1)]
  end.

(** The sum, and the counter after it was trimmed. *)
(** Source: crates/rginx-http/src/state/counters/rolling.rs:45-50 (RollingCounter::sum_recent) *)
Definition sum_recent (now_second window_secs : Z) (buckets : RollingCounter) : Z * RollingCounter :=
  let buckets := trim_old_buckets buckets now_second MAX_RECENT_WINDOW_SECS in
  let cutoff := sat_sub now_second (sat_sub window_secs 1) in
  (foldr (λ '(second, count) sum, if cutoff <=? second then count + sum else sum) 0 buckets, buckets).

(** Source: crates/rginx-http/src/state/counters/rolling.rs:7-14 (RecentTrafficStatsCounters) *)
Inductive RecentTraffic : Type :=
| RecentRequests | RecentResponses | RecentResponses2xx | RecentResponses4xx | RecentResponses5xx | RecentGrpcRequests.

(** Source: crates/rginx-http/src/state/counters/rolling.rs:17-24 (RecentUpstreamStatsCounters) *)
Inductive RecentUpstream : Type :=
| RecentUpstreamRequests | RecentPeerAttempts | RecentCompleted | RecentBadGateway | RecentGatewayTimeout
| RecentFailovers.

#[export] Instance RecentTraffic_eq_dec : EqDecision RecentTraffic.
Proof. solve_decision. Defined.
#[export] Instance RecentUpstream_eq_dec : EqDecision RecentUpstream.
Proof. solve_decision. Defined.

Definition roll {F} `{EqDecision F} (now : Z) (field : F) (recent : F → RollingCounter) : F → RollingCounter :=
  λ f, if decide (f = field) then increment_at now (recent f) else recent f.

(** Source: crates/rginx-http/src/state/counters/rolling.rs:79-81 (RecentTrafficStatsCounters::record_downstream_request) *)
Definition recent_record_request (now : Z) : (RecentTraffic → RollingCounter) → RecentTraffic → RollingCounter :=
  roll now RecentRequests.

(** Source: crates/rginx-http/src/state/counters/rolling.rs:83-91 (RecentTrafficStatsCounters::record_downstream_response) *)
Definition recent_record_response (now status : Z) (recent : RecentTraffic → RollingCounter)
    : RecentTraffic → RollingCounter :=
  let recent := roll now RecentResponses recent in
  if status / 100 =? 2 then roll now RecentResponses2xx recent
  else if status / 100 =? 4 then roll now RecentResponses4xx recent
  else if status / 100 =? 5 then roll now RecentResponses5xx recent
  else recent.

(** Source: crates/rginx-http/src/state/counters/rolling.rs:93-95 (RecentTrafficStatsCounters::record_grpc_request) *)
Definition recent_record_grpc (now : Z) : (RecentTraffic → RollingCounter) → RecentTraffic → RollingCounter :=
  roll now RecentGrpcRequests.

(** *** Responses and gRPC *)

(** Source: crates/rginx-http/src/state/counters/traffic.rs:2-9 (ResponseCounters) *)
Inductive ResponseCounter : Type :=
| Responses | Responses1xx | Responses2xx | Responses3xx | Responses4xx | Responses5xx.

#[export] Instance ResponseCounter_eq_dec : EqDecision ResponseCounter.
Proof. solve_decision. Defined.

(** The counter of a status, if its class has one. *)
Definition response_class (status : Z) : option ResponseCounter :=
  let class := status / 100 in
  if class =? 1 then Some Responses1xx else if class =? 2 then Some Responses2xx
  else if class =? 3 then Some Responses3xx else if class =? 4 then Some Responses4xx
  else if class =? 5 then Some Responses5xx else None.

(** Source: crates/rginx-http/src/state/counters/traffic.rs:107-127 (ResponseCounters::record) *)
Definition record_response (status : Z) (responses : ResponseCounter → Z) : ResponseCounter → Z :=
  let responses := bump Responses responses in
  match response_class status with Some class => bump class responses | None => responses end.

(** Source: crates/rginx-http/src/state/counters/grpc.rs:2-16 (GrpcTrafficCounters) *)
Inductive GrpcCounter : Type :=
| GrpcRequests | GrpcProtocolGrpc | GrpcProtocolWeb | GrpcProtocolWebText
| GrpcStatus0 | GrpcStatus1 | GrpcStatus3 | GrpcStatus4 | GrpcStatus7 | GrpcStatus8 | GrpcStatus12 | GrpcStatus14
| GrpcStatusOther.

#[export] Instance GrpcCounter_eq_dec : EqDecision GrpcCounter.
Proof. solve_decision. Defined.

(** Source: crates/rginx-http/src/state/counters/grpc.rs:19-33 (GrpcTrafficCounters::record_request) *)
Definition grpc_record_request (protocol : string) (grpc : GrpcCounter → Z) : GrpcCounter → Z :=
  let grpc := bump GrpcRequests grpc in
  if str_eqb protocol "grpc" then bump GrpcProtocolGrpc grpc
  else if str_eqb protocol "grpc-web" then bump GrpcProtocolWeb grpc
  else if str_eqb protocol "grpc-web-text" then bump GrpcProtocolWebText grpc
  else grpc.

Definition grpc_status_counters : list (string * GrpcCounter) :=
  [("0", GrpcStatus0); ("1", GrpcStatus1); ("3", GrpcStatus3); ("4", GrpcStatus4); ("7", GrpcStatus7);
   ("8", GrpcStatus8); ("12", GrpcStatus12); ("14", GrpcStatus14)]%string.

(** Source: crates/rginx-http/src/state/counters/grpc.rs:35-65 (GrpcTrafficCounters::record_status) *)
Definition grpc_record_status (status : option string) (grpc : GrpcCounter → Z) : GrpcCounter → Z :=
  bump (default GrpcStatusOther
          (status ← status; snd <$> List.find (λ entry, str_eqb (fst entry) status) grpc_status_counters)) grpc.

(** ** Traffic *)

(** Source: crates/rginx-http/src/state/counters/http.rs:2-24 (HttpCounters) *)
Inductive HttpCounter : Type :=
| ConnectionsAccepted | ConnectionsRejected | DownstreamRequests
| DownstreamResponse (class : ResponseCounter)
| MtlsConnections | MtlsRequests | MtlsAnonymousRequests
| HandshakeFailures | HandshakeMissingClientCert | HandshakeUnknownCa | HandshakeBadCertificate
| HandshakeCertificateRevoked | HandshakeVerifyDepthExceeded | HandshakeOther
| EarlyDataAccepted | EarlyDataRejected.

(** Source: crates/rginx-http/src/state/counters/http.rs:35-42 (TlsHandshakeFailureReason) *)
Inductive TlsHandshakeFailureReason : Type :=
| MissingClientCert | UnknownCa | BadCertificate | CertificateRevoked | VerifyDepthExceeded | OtherFailure.

(** [quinn::ConnectionError], as far as it is told apart. *)
Inductive ConnectionError : Type :=
| VersionMismatch | TransportError | ConnectionClosed | ApplicationClosed | ConnectionReset | ConnectionTimedOut
| LocallyClosed | CidsExhausted.

(** Source: crates/rginx-http/src/state/counters/traffic.rs:21-57 (ListenerTrafficCounters) *)
Inductive ListenerCounter : Type :=
| ListenerHttp (counter : HttpCounter)
| ListenerUnmatched
| Http3RetryIssued | Http3RetryFailed | Http3AcceptErrors | Http3ResolveErrors | Http3BodyStreamErrors
| Http3ResponseStreamErrors
| Http3Close (reason : ConnectionError).

#[export] Instance HttpCounter_eq_dec : EqDecision HttpCounter.
Proof. solve_decision. Defined.
#[export] Instance ConnectionError_eq_dec : EqDecision ConnectionError.
Proof. solve_decision. Defined.
#[export] Instance ListenerCounter_eq_dec : EqDecision ListenerCounter.
Proof. solve_decision. Defined.

(** A listener's own counters; its gauges [active_http3_connections] and
    [active_http3_request_streams] are left out. *)
Record ListenerTrafficCounters : Type := mkListenerTraffic {
  ltc_totals : ListenerCounter → Z;
  ltc_recent : RecentTraffic → RollingCounter;
  ltc_grpc : GrpcCounter → Z;
}.

(** Source: crates/rginx-http/src/state/counters/traffic.rs:12-18 (RequestTrafficCounters) *)
Record RequestTrafficCounters : Type := mkRequestTraffic {
  rtc_downstream_requests : Z;
  rtc_unmatched_requests : Z;
  rtc_responses : ResponseCounter → Z;
  rtc_recent : RecentTraffic → RollingCounter;
  rtc_grpc : GrpcCounter → Z;
}.

(** Source: crates/rginx-http/src/state/counters/traffic.rs:60-67 (RouteTrafficCounters) *)
Record RouteTrafficCounters : Type := mkRouteTraffic {
  otc_downstream_requests : Z;
  otc_responses : ResponseCounter → Z;
  otc_access_denied : Z;
  otc_rate_limited : Z;
  otc_recent : RecentTraffic → RollingCounter;
  otc_grpc : GrpcCounter → Z;
}.

Definition listener_traffic_default : ListenerTrafficCounters := mkListenerTraffic zeroes (λ _, []) zeroes.
Definition request_traffic_default : RequestTrafficCounters := mkRequestTraffic 0 0 zeroes (λ _, []) zeroes.
Definition route_traffic_default : RouteTrafficCounters := mkRouteTraffic 0 zeroes 0 0 (λ _, []) zeroes.

(** Source: crates/rginx-http/src/state/counters/traffic.rs:70-75 (ListenerTrafficEntry) *)
Record ListenerTrafficEntry : Type := mkListenerEntry {
  lte_listener_name : string;
  lte_listen_addr : SocketAddr;
  lte_http3_enabled : bool;
  lte_counters : ListenerTrafficCounters;
}.

(** Source: crates/rginx-http/src/state/counters/traffic.rs:78-81 (VhostTrafficEntry) *)
Record VhostTrafficEntry : Type := mkVhostEntry {
  vte_server_names : list string;
  vte_counters : RequestTrafficCounters;
}.

(** Source: crates/rginx-http/src/state/counters/traffic.rs:84-87 (RouteTrafficEntry) *)
Record RouteTrafficEntry : Type := mkRouteEntry {
  rte_vhost_id : string;
  rte_counters : RouteTrafficCounters;
}.

(** Source: crates/rginx-http/src/state/counters/traffic.rs:90-97 (TrafficStatsIndex) *)
Record TrafficStatsIndex : Type := mkTrafficIndex {
  tsi_listeners : gmap string ListenerTrafficEntry;
  tsi_listener_order : list string;
  tsi_vhosts : gmap string VhostTrafficEntry;
  tsi_vhost_order : list string;
  tsi_routes : gmap string RouteTrafficEntry;
  tsi_route_order : list string;
}.

(** Source: crates/rginx-http/src/state/counters/traffic.rs:100-104 (TrafficComponentVersions) *)
Record TrafficComponentVersions : Type := mkTrafficVersions {
  tcv_listeners : gmap string Z;
  tcv_vhosts : gmap string Z;
  tcv_routes : gmap string Z;
}.

Definition empty_traffic : TrafficStatsIndex := mkTrafficIndex ∅ [] ∅ [] ∅ [].

(** ** Upstreams *)

(** Source: crates/rginx-http/src/state/counters/upstreams.rs:2-21 (UpstreamStats) *)
Inductive UpstreamCounter : Type :=
| UpstreamRequests | PeerAttempts | PeerSuccesses | PeerFailures | PeerTimeouts | Failovers | CompletedResponses
| BadGatewayResponses | GatewayTimeoutResponses | BadRequestResponses | PayloadTooLargeResponses
| UnsupportedMediaTypeResponses | NoHealthyPeers
| TlsUnknownCa | TlsBadCertificate | TlsCertificateRevoked | TlsVerifyDepthExceeded.

(** Source: crates/rginx-http/src/state/counters/upstreams.rs:24-29 (UpstreamPeerStats) *)
Inductive PeerCounter : Type := AttemptsTotal | SuccessesTotal | FailuresTotal | TimeoutsTotal.

#[export] Instance UpstreamCounter_eq_dec : EqDecision UpstreamCounter.
Proof. solve_decision. Defined.
#[export] Instance PeerCounter_eq_dec : EqDecision PeerCounter.
Proof. solve_decision. Defined.

(** Source: crates/rginx-http/src/state/counters/upstreams.rs:32-37 (UpstreamStatsEntry) *)
Record UpstreamStatsEntry : Type := mkUpstreamEntry {
  use_upstream : Upstream;
  use_counters : UpstreamCounter → Z;
  use_recent : RecentUpstream → RollingCounter;
  use_peers : gmap string (PeerCounter → Z);
  use_peer_order : list string;
}.

(** Source: crates/rginx-http/src/state/counters/upstreams.rs:39-73 (build_upstream_stats_map) *)
Definition build_upstream_stats_map (upstreams : gmap string Upstream)
    (existing : option (gmap string UpstreamStatsEntry)) : gmap string UpstreamStatsEntry :=
  list_to_map (map (λ '(_, upstream),
    let current := stats ← existing; stats !! up_name upstream in
    let peers := foldl (λ m peer,
        <[peer_url peer := default zeroes (entry ← current; use_peers entry !! peer_url peer)]> m)
      ∅ (up_peers upstream) in
    (up_name upstream,
     mkUpstreamEntry upstream (default zeroes (use_counters <$> current)) (default (λ _, []) (use_recent <$> current))
       peers (map peer_url (up_peers upstream)))) (map_to_list upstreams)).

(** Source: crates/rginx-http/src/state/counters/upstreams.rs:75-87 (build_upstream_name_versions) *)
Definition build_name_versions {A} (named : gmap string A) (existing : option (gmap string Z)) : gmap string Z :=
  map_imap (λ name _, Some (default 0 (current ← existing; current !! name))) named.
