(* ===== verification/StatsRecord.v ===== *)
(** * Recording events

    The operations of [SharedState] that count an event and advance the snapshot
    versions, and the delta an observer asks for: [crates/rginx-http/src/state]
    ([snapshot_bus.rs], [helpers.rs], [traffic], [upstreams],
    [connections/operations/record.rs]).

    An operation is written here as one function, what it comes to when no other
    one falls in between; SnapshotRace.v has the writes it publishes its change
    with one by one, of any number of operations at once. *)

From S2P Require Import Prelude RustStr External ConfigBase AccessLog ServerName Upstream Tls CacheConfig ProxyHeader Route Listener Stats.

(** Source: crates/rginx-http/src/state/snapshots/delta.rs:63-70 (SnapshotModule) *)
Inductive SnapshotModule : Type :=
| ModStatus | ModCounters | ModTraffic | ModPeerHealth | ModUpstreams | ModCache.

#[export] Instance SnapshotModule_eq_dec : EqDecision SnapshotModule.
Proof. solve_decision. Defined.

Definition ALL_MODULES : list SnapshotModule :=
  [ModStatus; ModCounters; ModTraffic; ModPeerHealth; ModUpstreams; ModCache].

(** Source: crates/rginx-http/src/state/snapshots/delta.rs:86-89 (SnapshotModule::normalize) *)
Definition normalize_modules (include : option (list SnapshotModule)) : list SnapshotModule :=
  let requested := default ALL_MODULES include in
  List.filter (λ m, bool_decide (m ∈ requested)) ALL_MODULES.

Record StatsState : Type := mkStats {
  st_http : HttpCounter → Z;
  st_traffic : TrafficStatsIndex;
  st_traffic_versions : TrafficComponentVersions;
  st_upstreams : gmap string UpstreamStatsEntry;
  st_upstream_versions : gmap string Z;
  st_peer_health_versions : gmap string Z;
  st_cache_versions : gmap string Z;
  st_version : Z;
  st_components : SnapshotModule → Z;
}.

(** ** Versions *)

Definition with_components (version : Z) (changed : SnapshotModule → bool) (s : StatsState) : StatsState :=
  mkStats (st_http s) (st_traffic s) (st_traffic_versions s) (st_upstreams s) (st_upstream_versions s)
    (st_peer_health_versions s) (st_cache_versions s) version
    (λ m, if changed m then version else st_components s m).

(** Source: crates/rginx-http/src/state/snapshot_bus.rs:214-243 (mark_snapshot_changed_components_with_cache) *)
Definition mark_snapshot_changed_components_with_cache
    (status counters traffic peer_health upstreams cache : bool) (s : StatsState) : Z * StatsState :=
  let version := st_version s + 1 in
  (version,
   with_components version (λ m,
     match m with
     | ModStatus => status | ModCounters => counters | ModTraffic => traffic
     | ModPeerHealth => peer_health | ModUpstreams => upstreams | ModCache => cache
     end) s).

(** Source: crates/rginx-http/src/state/snapshot_bus.rs:196-212 (mark_snapshot_changed_components) *)
Definition mark_snapshot_changed_components (status counters traffic peer_health upstreams : bool)
    (s : StatsState) : Z * StatsState :=
  mark_snapshot_changed_components_with_cache status counters traffic peer_health upstreams false s.

Definition with_traffic (f : TrafficStatsIndex → TrafficStatsIndex) (s : StatsState) : StatsState :=
  mkStats (st_http s) (f (st_traffic s)) (st_traffic_versions s) (st_upstreams s) (st_upstream_versions s)
    (st_peer_health_versions s) (st_cache_versions s) (st_version s) (st_components s).
Definition with_traffic_versions (f : TrafficComponentVersions → TrafficComponentVersions) (s : StatsState)
    : StatsState :=
  mkStats (st_http s) (st_traffic s) (f (st_traffic_versions s)) (st_upstreams s) (st_upstream_versions s)
    (st_peer_health_versions s) (st_cache_versions s) (st_version s) (st_components s).
Definition with_upstreams (f : gmap string UpstreamStatsEntry → gmap string UpstreamStatsEntry) (s : StatsState)
    : StatsState :=
  mkStats (st_http s) (st_traffic s) (st_traffic_versions s) (f (st_upstreams s)) (st_upstream_versions s)
    (st_peer_health_versions s) (st_cache_versions s) (st_version s) (st_components s).
Definition with_upstream_versions (f : gmap string Z → gmap string Z) (s : StatsState) : StatsState :=
  mkStats (st_http s) (st_traffic s) (st_traffic_versions s) (st_upstreams s) (f (st_upstream_versions s))
    (st_peer_health_versions s) (st_cache_versions s) (st_version s) (st_components s).
Definition with_peer_health_versions (f : gmap string Z → gmap string Z) (s : StatsState) : StatsState :=
  mkStats (st_http s) (st_traffic s) (st_traffic_versions s) (st_upstreams s) (st_upstream_versions s)
    (f (st_peer_health_versions s)) (st_cache_versions s) (st_version s) (st_components s).
Definition with_cache_versions (f : gmap string Z → gmap string Z) (s : StatsState) : StatsState :=
  mkStats (st_http s) (st_traffic s) (st_traffic_versions s) (st_upstreams s) (st_upstream_versions s)
    (st_peer_health_versions s) (f (st_cache_versions s)) (st_version s) (st_components s).
Definition count_http (counter : HttpCounter) (s : StatsState) : StatsState :=
  mkStats (bump counter (st_http s)) (st_traffic s) (st_traffic_versions s) (st_upstreams s) (st_upstream_versions s)
    (st_peer_health_versions s) (st_cache_versions s) (st_version s) (st_components s).

Definition insert_some_key (key : option string) (version : Z) (m : gmap string Z) : gmap string Z :=
  match key with Some key => <[key := version]> m | None => m end.

(** Source: crates/rginx-http/src/state/traffic/snapshot.rs:219-239 (mark_traffic_targets_changed) *)
Definition mark_traffic_targets_changed (version : Z) (listener_id vhost_id route_id : option string)
    : StatsState → StatsState :=
  with_traffic_versions (λ v,
    mkTrafficVersions (insert_some_key listener_id version (tcv_listeners v))
      (insert_some_key vhost_id version (tcv_vhosts v)) (insert_some_key route_id version (tcv_routes v))).

(** Source: crates/rginx-http/src/state/snapshot_bus.rs:184-194 (mark_named_component_target_changed) *)
Definition mark_named_component_target_changed (name : string) (version : Z) (versions : gmap string Z)
    : gmap string Z := <[name := version]> versions.

(** ** Traffic *)

Definition on_listener (id : string) (f : ListenerTrafficCounters → ListenerTrafficCounters) : StatsState → StatsState :=
  with_traffic (λ t,
    mkTrafficIndex
      (alter (λ e, mkListenerEntry (lte_listener_name e) (lte_listen_addr e) (lte_http3_enabled e) (f (lte_counters e)))
         id (tsi_listeners t))
      (tsi_listener_order t) (tsi_vhosts t) (tsi_vhost_order t) (tsi_routes t) (tsi_route_order t)).
Definition on_vhost (id : string) (f : RequestTrafficCounters → RequestTrafficCounters) : StatsState → StatsState :=
  with_traffic (λ t,
    mkTrafficIndex (tsi_listeners t) (tsi_listener_order t)
      (alter (λ e, mkVhostEntry (vte_server_names e) (f (vte_counters e))) id (tsi_vhosts t))
      (tsi_vhost_order t) (tsi_routes t) (tsi_route_order t)).
Definition on_route (id : option string) (f : RouteTrafficCounters → RouteTrafficCounters) : StatsState → StatsState :=
  with_traffic (λ t,
    mkTrafficIndex (tsi_listeners t) (tsi_listener_order t) (tsi_vhosts t) (tsi_vhost_order t)
      match id with
      | Some id => alter (λ e, mkRouteEntry (rte_vhost_id e) (f (rte_counters e))) id (tsi_routes t)
      | None => tsi_routes t
      end (tsi_route_order t)).

(** The end of every operation that records traffic. *)
Definition traffic_changed (status counters : bool) (listener_id vhost_id route_id : option string) (s : StatsState)
    : StatsState :=
  let '(version, s) := mark_snapshot_changed_components status counters true false false s in
  mark_traffic_targets_changed version listener_id vhost_id route_id s.

(** Source: crates/rginx-http/src/state/traffic/record.rs:4-33 (record_downstream_request) *)
Definition record_downstream_request (listener_id vhost_id : string) (route_id : option string) (now : Z)
    (s : StatsState) : StatsState :=
  let s := count_http DownstreamRequests s in
  let s := on_listener listener_id (λ c,
    mkListenerTraffic
      (let totals := bump (ListenerHttp DownstreamRequests) (ltc_totals c) in
       if is_some route_id then totals else bump ListenerUnmatched totals)
      (recent_record_request now (ltc_recent c)) (ltc_grpc c)) s in
  let s := on_vhost vhost_id (λ c,
    mkRequestTraffic (rtc_downstream_requests c + 1)
      (if is_some route_id then rtc_unmatched_requests c else rtc_unmatched_requests c + 1)
      (rtc_responses c) (recent_record_request now (rtc_recent c)) (rtc_grpc c)) s in
  let s := on_route route_id (λ c,
    mkRouteTraffic (otc_downstream_requests c + 1) (otc_responses c) (otc_access_denied c) (otc_rate_limited c)
      (recent_record_request now (otc_recent c)) (otc_grpc c)) s in
  traffic_changed false true (Some listener_id) (Some vhost_id) route_id s.

(** Source: crates/rginx-http/src/state/traffic/record.rs:55-97 (record_downstream_response) *)
Definition record_downstream_response (listener_id vhost_id : string) (route_id : option string) (status now : Z)
    (s : StatsState) : StatsState :=
  let s := count_http (DownstreamResponse Responses) s in
  let s := match response_class status with Some class => count_http (DownstreamResponse class) s | None => s end in
  let s := on_listener listener_id (λ c,
    mkListenerTraffic
      (let totals := bump (ListenerHttp (DownstreamResponse Responses)) (ltc_totals c) in
       match response_class status with
       | Some class => bump (ListenerHttp (DownstreamResponse class)) totals
       | None => totals
       end)
      (recent_record_response now status (ltc_recent c)) (ltc_grpc c)) s in
  let s := on_vhost vhost_id (λ c,
    mkRequestTraffic (rtc_downstream_requests c) (rtc_unmatched_requests c)
      (record_response status (rtc_responses c)) (recent_record_response now status (rtc_recent c)) (rtc_grpc c)) s in
  let s := on_route route_id (λ c,
    mkRouteTraffic (otc_downstream_requests c) (record_response status (otc_responses c)) (otc_access_denied c)
      (otc_rate_limited c) (recent_record_response now status (otc_recent c)) (otc_grpc c)) s in
  traffic_changed false true (Some listener_id) (Some vhost_id) route_id s.

(** Source: crates/rginx-http/src/state/traffic/record.rs:99-106 (record_route_access_denied) *)
Definition record_route_access_denied (route_id : string) (s : StatsState) : StatsState :=
  traffic_changed false false None None (Some route_id)
    (on_route (Some route_id) (λ c,
       mkRouteTraffic (otc_downstream_requests c) (otc_responses c) (otc_access_denied c + 1) (otc_rate_limited c)
         (otc_recent c) (otc_grpc c)) s).

(** Source: crates/rginx-http/src/state/traffic/record.rs:108-115 (record_route_rate_limited) *)
Definition record_route_rate_limited (route_id : string) (s : StatsState) : StatsState :=
  traffic_changed false false None None (Some route_id)
    (on_route (Some route_id) (λ c,
       mkRouteTraffic (otc_downstream_requests c) (otc_responses c) (otc_access_denied c) (otc_rate_limited c + 1)
         (otc_recent c) (otc_grpc c)) s).

(** Source: crates/rginx-http/src/state/traffic/record.rs:117-140 (record_grpc_request) *)
Definition record_grpc_request (listener_id vhost_id : string) (route_id : option string) (protocol : string)
    (now : Z) (s : StatsState) : StatsState :=
  let s := on_listener listener_id (λ c,
    mkListenerTraffic (ltc_totals c) (recent_record_grpc now (ltc_recent c))
      (grpc_record_request protocol (ltc_grpc c))) s in
  let s := on_vhost vhost_id (λ c,
    mkRequestTraffic (rtc_downstream_requests c) (rtc_unmatched_requests c) (rtc_responses c)
      (recent_record_grpc now (rtc_recent c)) (grpc_record_request protocol (rtc_grpc c))) s in
  let s := on_route route_id (λ c,
    mkRouteTraffic (otc_downstream_requests c) (otc_responses c) (otc_access_denied c) (otc_rate_limited c)
      (recent_record_grpc now (otc_recent c)) (grpc_record_request protocol (otc_grpc c))) s in
  traffic_changed false false (Some listener_id) (Some vhost_id) route_id s.

(** Source: crates/rginx-http/src/state/traffic/record.rs:142-162 (record_grpc_status) *)
Definition record_grpc_status (listener_id vhost_id : string) (route_id status : option string) (s : StatsState)
    : StatsState :=
  let s := on_listener listener_id (λ c,
    mkListenerTraffic (ltc_totals c) (ltc_recent c) (grpc_record_status status (ltc_grpc c))) s in
  let s := on_vhost vhost_id (λ c,
    mkRequestTraffic (rtc_downstream_requests c) (rtc_unmatched_requests c) (rtc_responses c) (rtc_recent c)
      (grpc_record_status status (rtc_grpc c))) s in
  let s := on_route route_id (λ c,
    mkRouteTraffic (otc_downstream_requests c) (otc_responses c) (otc_access_denied c) (otc_rate_limited c)
      (otc_recent c) (grpc_record_status status (otc_grpc c))) s in
  traffic_changed false false (Some listener_id) (Some vhost_id) route_id s.

(** ** Connections *)

(** A counter of the process and of the listener. *)
Definition count_listener (counter : ListenerCounter) (listener_id : string) : StatsState → StatsState :=
  on_listener listener_id (λ c, mkListenerTraffic (bump counter (ltc_totals c)) (ltc_recent c) (ltc_grpc c)).
Definition count_both (counter : HttpCounter) (listener_id : string) (s : StatsState) : StatsState :=
  count_listener (ListenerHttp counter) listener_id (count_http counter s).

(** Source: crates/rginx-http/src/state/connections/operations/record.rs:4-12 (record_connection_accepted) *)
Definition record_connection_accepted (listener_id : string) (s : StatsState) : StatsState :=
  traffic_changed true true (Some listener_id) None None (count_both ConnectionsAccepted listener_id s).

(** Source: crates/rginx-http/src/state/connections/operations/record.rs:104-112 (record_connection_rejected) *)
Definition record_connection_rejected (listener_id : string) (s : StatsState) : StatsState :=
  traffic_changed true true (Some listener_id) None None (count_both ConnectionsRejected listener_id s).

(** Source: crates/rginx-http/src/state/connections/operations/record.rs:14-26 (record_mtls_handshake_success) *)
Definition record_mtls_handshake_success (listener_id : string) (authenticated : bool) (s : StatsState)
    : StatsState :=
  if negb authenticated then s
  else traffic_changed true true (Some listener_id) None None (count_both MtlsConnections listener_id s).

(** Source: crates/rginx-http/src/state/traffic/record.rs:35-53 (record_mtls_request) *)
Definition record_mtls_request (listener_id : string) (authenticated : bool) (s : StatsState) : StatsState :=
  traffic_changed true true (Some listener_id) None None
    (count_both (if authenticated then MtlsRequests else MtlsAnonymousRequests) listener_id s).

Definition handshake_counter (reason : TlsHandshakeFailureReason) : HttpCounter :=
  match reason with
  | MissingClientCert => HandshakeMissingClientCert
  | UnknownCa => HandshakeUnknownCa
  | BadCertificate => HandshakeBadCertificate
  | CertificateRevoked => HandshakeCertificateRevoked
  | VerifyDepthExceeded => HandshakeVerifyDepthExceeded
  | OtherFailure => HandshakeOther
  end.

(** Source: crates/rginx-http/src/state/connections/operations/record.rs:28-102 (record_tls_handshake_failure) *)
Definition record_tls_handshake_failure (listener_id : string) (reason : TlsHandshakeFailureReason) (s : StatsState)
    : StatsState :=
  let s := count_http HandshakeFailures s in
  let s := count_both (handshake_counter reason) listener_id s in
  let s := count_listener (ListenerHttp HandshakeFailures) listener_id s in
  traffic_changed true true (Some listener_id) None None s.

(** Source: crates/rginx-http/src/state/connections/operations/record.rs:114-122 (record_http3_early_data_accepted_request) *)
Definition record_http3_early_data_accepted_request (listener_id : string) (s : StatsState) : StatsState :=
  traffic_changed true true (Some listener_id) None None (count_both EarlyDataAccepted listener_id s).

(** Source: crates/rginx-http/src/state/connections/operations/record.rs:124-132 (record_http3_early_data_rejected_request) *)
Definition record_http3_early_data_rejected_request (listener_id : string) (s : StatsState) : StatsState :=
  traffic_changed true true (Some listener_id) None None (count_both EarlyDataRejected listener_id s).

(** The counters that only the listener has. *)
Definition record_http3 (counter : ListenerCounter) (listener_id : string) (s : StatsState) : StatsState :=
  traffic_changed true false (Some listener_id) None None (count_listener counter listener_id s).

(** Source: crates/rginx-http/src/state/connections/operations/record.rs:134-141 (record_http3_retry_issued) *)
Definition record_http3_retry_issued : string → StatsState → StatsState := record_http3 Http3RetryIssued.
(** Source: crates/rginx-http/src/state/connections/operations/record.rs:143-150 (record_http3_retry_failed) *)
Definition record_http3_retry_failed : string → StatsState → StatsState := record_http3 Http3RetryFailed.
(** Source: crates/rginx-http/src/state/connections/operations/record.rs:152-159 (record_http3_request_accept_error) *)
Definition record_http3_request_accept_error : string → StatsState → StatsState := record_http3 Http3AcceptErrors.
(** Source: crates/rginx-http/src/state/connections/operations/record.rs:161-168 (record_http3_request_resolve_error) *)
Definition record_http3_request_resolve_error : string → StatsState → StatsState := record_http3 Http3ResolveErrors.
(** Source: crates/rginx-http/src/state/connections/operations/record.rs:170-177 (record_http3_request_body_stream_error) *)
Definition record_http3_request_body_stream_error : string → StatsState → StatsState :=
  record_http3 Http3BodyStreamErrors.
(** Source: crates/rginx-http/src/state/connections/operations/record.rs:179-186 (record_http3_response_stream_error) *)
Definition record_http3_response_stream_error : string → StatsState → StatsState :=
  record_http3 Http3ResponseStreamErrors.
(** Source: crates/rginx-http/src/state/connections/operations/record.rs:188-236 (record_http3_connection_close) *)
Definition record_http3_connection_close (listener_id : string) (reason : ConnectionError) : StatsState → StatsState :=
  record_http3 (Http3Close reason) listener_id.

(** ** Upstreams *)

Definition on_upstream (name : string) (f : UpstreamStatsEntry → UpstreamStatsEntry) : StatsState → StatsState :=
  with_upstreams (alter f name).

Definition count_upstream (counter : UpstreamCounter) (e : UpstreamStatsEntry) : UpstreamStatsEntry :=
  mkUpstreamEntry (use_upstream e) (bump counter (use_counters e)) (use_recent e) (use_peers e) (use_peer_order e).
Definition roll_upstream (now : Z) (field : RecentUpstream) (e : UpstreamStatsEntry) : UpstreamStatsEntry :=
  mkUpstreamEntry (use_upstream e) (use_counters e) (roll now field (use_recent e)) (use_peers e) (use_peer_order e).
Definition count_peer (peer_url : string) (counter : PeerCounter) (e : UpstreamStatsEntry) : UpstreamStatsEntry :=
  mkUpstreamEntry (use_upstream e) (use_counters e) (use_recent e) (alter (bump counter) peer_url (use_peers e))
    (use_peer_order e).

(** The end of every operation that records something of an upstream. *)
Definition upstream_changed (name : string) (s : StatsState) : StatsState :=
  let '(version, s) := mark_snapshot_changed_components false false false false true s in
  with_upstream_versions (mark_named_component_target_changed name version) s.

(** [let Some(counters) = self.upstream_stats_counters(name) else { return; }]. *)
Definition record_upstream (name : string) (f : UpstreamStatsEntry → UpstreamStatsEntry) (s : StatsState) : StatsState :=
  match st_upstreams s !! name with
  | None => s
  | Some _ => upstream_changed name (on_upstream name f s)
  end.

(** [let Some((counters, peer)) = self.upstream_stats_peer_counters(name, url) else { return; }]. *)
Definition record_peer (name url : string) (f : UpstreamStatsEntry → UpstreamStatsEntry) (s : StatsState) : StatsState :=
  match st_upstreams s !! name ≫= λ entry, use_peers entry !! url with
  | None => s
  | Some _ => upstream_changed name (on_upstream name f s)
  end.

(** Source: crates/rginx-http/src/state/upstreams/record.rs:4-17 (record_upstream_request) *)
Definition record_upstream_request (name : string) (now : Z) : StatsState → StatsState :=
  record_upstream name (λ e, roll_upstream now RecentUpstreamRequests (count_upstream UpstreamRequests e)).

(** Source: crates/rginx-http/src/state/upstreams/record.rs:19-34 (record_upstream_peer_attempt) *)
Definition record_upstream_peer_attempt (name url : string) (now : Z) : StatsState → StatsState :=
  record_peer name url (λ e,
    roll_upstream now RecentPeerAttempts (count_peer url AttemptsTotal (count_upstream PeerAttempts e))).

(** Source: crates/rginx-http/src/state/upstreams/record.rs:36-50 (record_upstream_peer_success) *)
Definition record_upstream_peer_success (name url : string) : StatsState → StatsState :=
  record_peer name url (λ e, count_peer url SuccessesTotal (count_upstream PeerSuccesses e)).

(** Source: crates/rginx-http/src/state/upstreams/record.rs:52-66 (record_upstream_peer_failure) *)
Definition record_upstream_peer_failure (name url : string) : StatsState → StatsState :=
  record_peer name url (λ e, count_peer url FailuresTotal (count_upstream PeerFailures e)).

(** Source: crates/rginx-http/src/state/upstreams/record.rs:68-82 (record_upstream_peer_timeout) *)
Definition record_upstream_peer_timeout (name url : string) : StatsState → StatsState :=
  record_peer name url (λ e, count_peer url TimeoutsTotal (count_upstream PeerTimeouts e)).

(** Source: crates/rginx-http/src/state/upstreams/record.rs:84-97 (record_upstream_failover) *)
Definition record_upstream_failover (name : string) (now : Z) : StatsState → StatsState :=
  record_upstream name (λ e, roll_upstream now RecentFailovers (count_upstream Failovers e)).

(** Source: crates/rginx-http/src/state/upstreams/record.rs:99-112 (record_upstream_completed_response) *)
Definition record_upstream_completed_response (name : string) (now : Z) : StatsState → StatsState :=
  record_upstream name (λ e, roll_upstream now RecentCompleted (count_upstream CompletedResponses e)).

(** Source: crates/rginx-http/src/state/upstreams/record.rs:114-127 (record_upstream_bad_gateway_response) *)
Definition record_upstream_bad_gateway_response (name : string) (now : Z) : StatsState → StatsState :=
  record_upstream name (λ e, roll_upstream now RecentBadGateway (count_upstream BadGatewayResponses e)).

(** Source: crates/rginx-http/src/state/upstreams/record.rs:129-142 (record_upstream_gateway_timeout_response) *)
Definition record_upstream_gateway_timeout_response (name : string) (now : Z) : StatsState → StatsState :=
  record_upstream name (λ e, roll_upstream now RecentGatewayTimeout (count_upstream GatewayTimeoutResponses e)).

(** Source: crates/rginx-http/src/state/upstreams/record.rs:144-156 (record_upstream_bad_request_response) *)
Definition record_upstream_bad_request_response (name : string) : StatsState → StatsState :=
  record_upstream name (count_upstream BadRequestResponses).

(** Source: crates/rginx-http/src/state/upstreams/record.rs:158-170 (record_upstream_payload_too_large_response) *)
Definition record_upstream_payload_too_large_response (name : string) : StatsState → StatsState :=
  record_upstream name (count_upstream PayloadTooLargeResponses).

(** Source: crates/rginx-http/src/state/upstreams/record.rs:172-184 (record_upstream_unsupported_media_type_response) *)
Definition record_upstream_unsupported_media_type_response (name : string) : StatsState → StatsState :=
  record_upstream name (count_upstream UnsupportedMediaTypeResponses).

(** Source: crates/rginx-http/src/state/upstreams/record.rs:186-198 (record_upstream_no_healthy_peers) *)
Definition record_upstream_no_healthy_peers (name : string) : StatsState → StatsState :=
  record_upstream name (count_upstream NoHealthyPeers).

Definition tls_failure_counters : list (string * UpstreamCounter) :=
  [("unknown_ca", TlsUnknownCa); ("bad_certificate", TlsBadCertificate);
   ("certificate_revoked", TlsCertificateRevoked); ("verify_depth_exceeded", TlsVerifyDepthExceeded)]%string.

(** Source: crates/rginx-http/src/state/upstreams/record.rs:200-230 (record_upstream_peer_failure_class) *)
Definition record_upstream_peer_failure_class (name failure_class : string) (s : StatsState) : StatsState :=
  match snd <$> List.find (λ entry, str_eqb (fst entry) failure_class) tls_failure_counters with
  | Some counter => record_upstream name (count_upstream counter) s
  | None => s
  end.

(** ** Notifiers *)

(** Source: crates/rginx-http/src/state/helpers.rs:40-55 (build_peer_health_notifier) *)
Definition peer_health_changed (upstream_name : string) (s : StatsState) : StatsState :=
  let '(version, s) := mark_snapshot_changed_components false false false true false s in
  with_peer_health_versions <[upstream_name := version]> s.

(** Source: crates/rginx-http/src/state/helpers.rs:57-73 (build_cache_notifier) *)
Definition cache_zone_changed (zone_name : string) (s : StatsState) : StatsState :=
  let '(version, s) := mark_snapshot_changed_components_with_cache true false false false false true s in
  with_cache_versions <[zone_name := version]> s.

(** ** A new configuration *)

Section Config.
Context {RX : RegexApi} {NET : IpNetApi} {HTTP : HttpApi}.

Definition all_vhosts (config : ConfigSnapshot) : list VirtualHost := cfg_default_vhost config :: cfg_vhosts config.

Definition register_route (existing : TrafficStatsIndex) (vhost : VirtualHost) (index : TrafficStatsIndex)
    (route : Route) : TrafficStatsIndex :=
  mkTrafficIndex (tsi_listeners index) (tsi_listener_order index) (tsi_vhosts index) (tsi_vhost_order index)
    (<[route_id route := mkRouteEntry (vhost_id vhost)
        (default route_traffic_default (rte_counters <$> tsi_routes existing !! route_id route))]> (tsi_routes index))
    (tsi_route_order index ++ [route_id route]).

Definition register_vhost (existing : TrafficStatsIndex) (index : TrafficStatsIndex) (vhost : VirtualHost)
    : TrafficStatsIndex :=
  foldl (register_route existing vhost)
    (mkTrafficIndex (tsi_listeners index) (tsi_listener_order index)
      (<[vhost_id vhost := mkVhostEntry (vhost_server_names vhost)
          (default request_traffic_default (vte_counters <$> tsi_vhosts existing !! vhost_id vhost))]> (tsi_vhosts index))
      (tsi_vhost_order index ++ [vhost_id vhost]) (tsi_routes index) (tsi_route_order index))
    (vhost_routes vhost).

Definition register_listener (existing : TrafficStatsIndex) (index : TrafficStatsIndex) (listener : Listener)
    : TrafficStatsIndex :=
  mkTrafficIndex
    (<[lst_id listener := mkListenerEntry (lst_name listener) (srv_listen_addr (lst_server listener))
        (is_some (lst_http3 listener))
        (default listener_traffic_default (lte_counters <$> tsi_listeners existing !! lst_id listener))]>
       (tsi_listeners index))
    (tsi_listener_order index ++ [lst_id listener]) (tsi_vhosts index) (tsi_vhost_order index) (tsi_routes index)
    (tsi_route_order index).

(** No existing index is an empty one. *)
(** Source: crates/rginx-http/src/state/counters/traffic.rs:141-197 (build_traffic_stats_index) *)
Definition build_traffic_stats_index (config : ConfigSnapshot) (existing : TrafficStatsIndex) : TrafficStatsIndex :=
  foldl (register_vhost existing)
    (foldl (register_listener existing) empty_traffic (cfg_listeners config)) (all_vhosts config).

Definition kept_version (versions : gmap string Z) (m : gmap string Z) (id : string) : gmap string Z :=
  <[id := default 0 (versions !! id)]> m.

(** Source: crates/rginx-http/src/state/counters/traffic.rs:199-229 (build_traffic_component_versions) *)
Definition build_traffic_component_versions (config : ConfigSnapshot) (existing : TrafficComponentVersions)
    : TrafficComponentVersions :=
  mkTrafficVersions
    (foldl (kept_version (tcv_listeners existing)) ∅ (map lst_id (cfg_listeners config)))
    (foldl (kept_version (tcv_vhosts existing)) ∅ (map vhost_id (all_vhosts config)))
    (foldl (kept_version (tcv_routes existing)) ∅
       (map route_id (mjoin (map vhost_routes (all_vhosts config))))).

(** Source: crates/rginx-http/src/state/traffic/snapshot.rs:147-158 (sync_traffic_stats) *)
Definition sync_traffic_stats (config : ConfigSnapshot) (s : StatsState) : StatsState :=
  with_traffic_versions (build_traffic_component_versions config)
    (with_traffic (build_traffic_stats_index config) s).

(** Source: crates/rginx-http/src/state/upstreams/snapshot.rs:109-124 (sync_upstream_stats) *)
Definition sync_upstream_stats (config : ConfigSnapshot) (s : StatsState) : StatsState :=
  with_upstream_versions (λ existing, build_name_versions (cfg_upstreams config) (Some existing))
    (with_upstreams (λ existing, build_upstream_stats_map (cfg_upstreams config) (Some existing)) s).

(** Source: crates/rginx-http/src/state/upstreams/snapshot.rs:126-137 (sync_peer_health_versions) *)
Definition sync_peer_health_versions (config : ConfigSnapshot) : StatsState → StatsState :=
  with_peer_health_versions (λ existing, build_name_versions (cfg_upstreams config) (Some existing)).

(** Source: crates/rginx-http/src/state/cache.rs:113-120 (sync_cache_versions) *)
Definition sync_cache_versions (config : ConfigSnapshot) : StatsState → StatsState :=
  with_cache_versions (λ existing, build_name_versions (cfg_cache_zones config) (Some existing)).

Definition insert_all (keys : list string) (version : Z) (m : gmap string Z) : gmap string Z :=
  foldl (λ m key, <[key := version]> m) m keys.

Definition keys_of {A} (m : gmap string A) : list string := map fst (map_to_list m).

(** Source: crates/rginx-http/src/state/traffic/snapshot.rs:241-271 (mark_all_traffic_targets_changed) *)
Definition mark_all_traffic_targets_changed (previous next : ConfigSnapshot) (version : Z) : StatsState → StatsState :=
  with_traffic_versions (λ v,
    let vhosts := all_vhosts previous ++ all_vhosts next in
    mkTrafficVersions
      (insert_all (map lst_id (cfg_listeners previous ++ cfg_listeners next)) version (tcv_listeners v))
      (insert_all (map vhost_id vhosts) version (tcv_vhosts v))
      (insert_all (map route_id (mjoin (map vhost_routes vhosts))) version (tcv_routes v))).

(** Source: crates/rginx-http/src/state/upstreams/snapshot.rs:158-185 (mark_all_upstream_targets_changed) *)
Definition mark_all_upstream_targets_changed (previous next : ConfigSnapshot) (version : Z) (s : StatsState)
    : StatsState :=
  let names := keys_of (cfg_upstreams previous) ++ keys_of (cfg_upstreams next) in
  with_peer_health_versions (insert_all names version) (with_upstream_versions (insert_all names version) s).

(** Source: crates/rginx-http/src/state/cache.rs:122-136 (mark_all_cache_zones_changed) *)
Definition mark_all_cache_zones_changed (previous next : ConfigSnapshot) (version : Z) : StatsState → StatsState :=
  with_cache_versions (insert_all (keys_of (cfg_cache_zones previous) ++ keys_of (cfg_cache_zones next)) version).

(** The [BTreeSet]s differ. *)
Definition sets_differ (a b : list string) : bool :=
  negb (bool_decide ((list_to_set a : gset string) = list_to_set b)).

(** Source: crates/rginx-http/src/state/lifecycle/topology.rs:3-27 (traffic_topology_changed) *)
Definition traffic_topology_changed (previous next : ConfigSnapshot) : bool :=
  let listener_ids config := map lst_id (cfg_listeners config) in
  let vhost_ids config := map vhost_id (all_vhosts config) in
  let route_ids config := map route_id (mjoin (map vhost_routes (all_vhosts config))) in
  sets_differ (listener_ids previous) (listener_ids next) || sets_differ (vhost_ids previous) (vhost_ids next) ||
  sets_differ (route_ids previous) (route_ids next).

(** Source: crates/rginx-http/src/state/lifecycle/topology.rs:29-32 (upstream_topology_changed) *)
Definition upstream_topology_changed (previous next : ConfigSnapshot) : bool :=
  sets_differ (keys_of (cfg_upstreams previous)) (keys_of (cfg_upstreams next)).

Definition build_stats (config : ConfigSnapshot) : StatsState :=
  mkStats zeroes (build_traffic_stats_index config empty_traffic)
    (build_traffic_component_versions config (mkTrafficVersions ∅ ∅ ∅))
    (build_upstream_stats_map (cfg_upstreams config) None) (build_name_versions (cfg_upstreams config) None)
    (build_name_versions (cfg_upstreams config) None) (build_name_versions (cfg_cache_zones config) None) 0 zeroes.
End Config.

(** ** Deltas *)

(** Source: crates/rginx-http/src/state/snapshot_bus.rs:170-182 (changed_named_component_targets_since) *)
Definition changed_named_component_targets_since (versions : gmap string Z) (since_version : Z) : list string :=
  sort_by str_cmp (map fst (List.filter (λ '(_, version), since_version <? version) (map_to_list versions))).

(** The [Option] fields are those of the modules that were asked for. *)
(** Source: crates/rginx-http/src/state/snapshots/delta.rs:4-59 (SnapshotDeltaSnapshot) *)
Record SnapshotDelta : Type := mkDelta {
  sd_since_version : Z;
  sd_current_snapshot_version : Z;
  sd_included_modules : list SnapshotModule;
  sd_recent_window_secs : option Z;
  sd_version : SnapshotModule → option Z;
  sd_changed : SnapshotModule → option bool;
  sd_traffic_recent_changed : option bool;
  sd_upstreams_recent_changed : option bool;
  sd_changed_listener_ids : option (list string);
  sd_changed_vhost_ids : option (list string);
  sd_changed_route_ids : option (list string);
  sd_changed_peer_health_upstream_names : option (list string);
  sd_changed_upstream_names : option (list string);
  sd_changed_cache_zone_names : option (list string);
}.

(** The versions, as an observer reads them. *)
Record Versions : Type := mkVersions {
  vs_version : Z;
  vs_components : SnapshotModule → Z;
  vs_listeners : gmap string Z;
  vs_vhosts : gmap string Z;
  vs_routes : gmap string Z;
  vs_upstreams : gmap string Z;
  vs_peer_health : gmap string Z;
  vs_cache : gmap string Z;
}.

Definition versions_of (s : StatsState) : Versions :=
  mkVersions (st_version s) (st_components s) (tcv_listeners (st_traffic_versions s))
    (tcv_vhosts (st_traffic_versions s)) (tcv_routes (st_traffic_versions s)) (st_upstream_versions s)
    (st_peer_health_versions s) (st_cache_versions s).

(** [read]: what the loads give, one after the other.  The [changed_recent_*]
    lists are the [changed_*] lists when a window was asked for. *)
(** Source: crates/rginx-http/src/state/snapshot_bus.rs:62-168 (snapshot_delta_since) *)
Definition snapshot_delta_since (since_version : Z) (include : option (list SnapshotModule)) (window_secs : option Z)
    (read : Versions) : SnapshotDelta :=
  let included_modules := normalize_modules include in
  let included (m : SnapshotModule) := bool_decide (m ∈ included_modules) in
  let then_some {A} (m : SnapshotModule) (a : A) : option A := if included m then Some a else None in
  let recent (m : SnapshotModule) : option bool :=
    if included m && is_some window_secs then Some (since_version <? vs_components read m) else None in
  let targets (m : SnapshotModule) (versions : gmap string Z) : option (list string) :=
    then_some m (changed_named_component_targets_since versions since_version) in
  mkDelta since_version (vs_version read) included_modules window_secs
    (λ m, then_some m (vs_components read m)) (λ m, then_some m (since_version <? vs_components read m))
    (recent ModTraffic) (recent ModUpstreams)
    (targets ModTraffic (vs_listeners read)) (targets ModTraffic (vs_vhosts read))
    (targets ModTraffic (vs_routes read)) (targets ModPeerHealth (vs_peer_health read))
    (targets ModUpstreams (vs_upstreams read)) (targets ModCache (vs_cache read)).

(** What a waiting observer sees: the version at each wake-up, and whether the
    wait that follows it runs into the timeout; a wait without a timeout that is
    never woken does not return. *)
(** Source: crates/rginx-http/src/state/snapshot_bus.rs:40-60 (wait_for_snapshot_change) *)
Fixpoint wait_for_snapshot_change (since_version : Z) (wakeups : list (Z * bool)) (current : Z) : option Z :=
  if since_version <? current then Some current
  else
    match wakeups with
    | [] => None
    | (version, timed_out) :: wakeups =>
        if timed_out then Some version else wait_for_snapshot_change since_version wakeups version
    end.
