(* ===== verification/StatsSafety.v ===== *)
(** * What the statistics say

    The rolling counters count what happened in their window; every event is
    counted once at each level; a delta names exactly what changed since the
    version it is asked for. *)

From S2P Require Import Prelude RustStr External ConfigBase AccessLog ServerName Upstream Tls CacheConfig ProxyHeader Route Listener Stats StatsRecord.

(** ** Rolling counters *)

(** A counter is incremented and read, at instants that do not decrease. *)
Inductive RollingEvent : Type := Increment (second : Z) | Read (second window : Z).

Definition rolling_time (e : RollingEvent) : Z := match e with Increment t => t | Read t _ => t end.

Definition rolling_step (buckets : RollingCounter) (e : RollingEvent) : RollingCounter :=
  match e with
  | Increment second => increment_at second buckets
  | Read second window => (sum_recent second window buckets).2
  end.

Definition rolling_run (events : list RollingEvent) : RollingCounter := foldl rolling_step [] events.

Definition incremented (events : list RollingEvent) : list Z :=
  omap (λ e, match e with Increment t => Some t | Read _ _ => None end) events.

Definition from_second (c : Z) (seconds : list Z) : Z := Z.of_nat (length (filter (λ t, c ≤ t) seconds)).

Definition bucket_sum (c : Z) (buckets : RollingCounter) : Z :=
  foldr (λ '(second, count) sum, if c <=? second then count + sum else sum) 0 buckets.

Lemma bucket_sum_app c a b : bucket_sum c (a ++ b) = bucket_sum c a + bucket_sum c b.
Proof. unfold bucket_sum. induction a as [|[s n] a IH]; simpl; [lia|]. case_match; lia. Qed.

Lemma from_second_app c a b : from_second c (a ++ b) = from_second c a + from_second c b.
Proof. unfold from_second. rewrite filter_app, length_app. lia. Qed.

Lemma trim_sum buckets now window c :
  sat_sub now (sat_sub window 1) ≤ c → bucket_sum c (trim_old_buckets buckets now window) = bucket_sum c buckets.
Proof.
  intros Hc. induction buckets as [|[s n] b IH]; [done|]. simpl. case_match eqn:Hs; [|done]. boolify.
  rewrite IH. unfold bucket_sum. simpl. by rewrite (proj2 (Z.leb_gt c s)) by lia.
Qed.

Lemma trim_suffix buckets now window : trim_old_buckets buckets now window `suffix_of` buckets.
Proof. induction buckets as [|[s n] b IH]; simpl; [done|]. case_match; [by apply suffix_cons_r|done]. Qed.

Definition older (a b : Z * Z) : Prop := fst a < fst b.

Lemma trim_head buckets now window :
  StronglySorted older buckets →
  Forall (λ b, sat_sub now (sat_sub window 1) ≤ fst b) (trim_old_buckets buckets now window).
Proof.
  induction 1 as [|[s n] b Hs IH Hb]; simpl; [constructor|]. case_match eqn:Hc; [done|]. boolify.
  constructor; [done|]. eapply Forall_impl; [exact Hb|]. unfold older. simpl. lia.
Qed.

(** The buckets are in order and none is newer than [time]; what is at most
    [MAX_RECENT_WINDOW_SECS] old is still there. *)
Record counts (buckets : RollingCounter) (seconds : list Z) (time : Z) : Prop := {
  counts_order : StronglySorted older buckets;
  counts_newest : Forall (λ b, fst b ≤ time) buckets;
  counts_sum c : time - MAX_RECENT_WINDOW_SECS < c → 0 ≤ c → bucket_sum c buckets = from_second c seconds;
}.

Lemma counts_trim buckets seconds time now :
  time ≤ now → counts buckets seconds time → counts (trim_old_buckets buckets now MAX_RECENT_WINDOW_SECS) seconds now.
Proof.
  intros Hle [Ho Hb Hc]. pose proof (trim_suffix buckets now MAX_RECENT_WINDOW_SECS) as [k Hk]. split.
  - rewrite Hk in Ho. by eapply StronglySorted_app_1_r.
  - rewrite Hk in Hb. apply Forall_app in Hb as [_ Hb]. eapply Forall_impl; [exact Hb|]. simpl. lia.
  - intros c Hlt H0. rewrite trim_sum; [apply Hc; lia|]. unfold sat_sub, MAX_RECENT_WINDOW_SECS in *. lia.
Qed.

(** Another bucket at the end, or one more in the last. *)
Lemma counts_extend before last last' seconds now :
  StronglySorted older before → Forall (λ b, fst b < now) before → Forall (λ b, fst b ≤ now) last →
  (∀ c, bucket_sum c last' = bucket_sum c last + if c <=? now then 1 else 0) →
  (∃ n, last' = [(now, n)]) →
  (∀ c, now - MAX_RECENT_WINDOW_SECS < c → 0 ≤ c → bucket_sum c (before ++ last) = from_second c seconds) →
  counts (before ++ last') (seconds ++ [now]) now.
Proof.
  intros Ho Hb Hl Hsum [n Hlast] Hc. split.
  - apply StronglySorted_app_2; [|done|subst; constructor; constructor]. intros x y Hx Hy. subst.
    apply list_elem_of_singleton in Hy as ->. rewrite Forall_forall in Hb. by apply Hb.
  - apply Forall_app; split; [eapply Forall_impl; [exact Hb|]; simpl; lia|]. subst. apply Forall_singleton. simpl. lia.
  - intros c Hlt H0. rewrite bucket_sum_app, from_second_app, <-Hc, Hsum, bucket_sum_app by done. unfold from_second.
    rewrite filter_cons. case_decide; case_match; boolify; simpl; lia.
Qed.

Lemma counts_increment buckets seconds time now :
  time ≤ now → counts buckets seconds time → counts (increment_at now buckets) (seconds ++ [now]) now.
Proof.
  intros Hle H%(counts_trim _ _ _ now Hle). unfold increment_at.
  set (b := trim_old_buckets _ _ _) in *. destruct H as [Ho Hb Hc].
  assert (Forall (λ b, fst b < now) b → counts (b ++ [(now, 1)]) (seconds ++ [now]) now) as Hpush.
  { intros Hlt. apply (counts_extend b [] [(now, 1)]); try done; [by eauto|by rewrite app_nil_r]. }
  destruct (reverse b) as [|[s n] before] eqn:Hr.
  { apply (f_equal reverse) in Hr. rewrite reverse_involutive in Hr. rewrite Hr in Hpush |- *. by apply Hpush. }
  assert (b = reverse before ++ [(s, n)]) as Heq by (by rewrite <-reverse_cons, <-Hr, reverse_involutive).
  rewrite Heq in Hb, Ho. apply Forall_app in Hb as [Hbefore Hlast]. inversion_clear Hlast as [|?? Hsn _]. simpl in Hsn.
  apply StronglySorted_app in Ho as (Hcross & Ho & _).
  assert (Forall (λ x, fst x < s) (reverse before)) as Hbs.
  { apply Forall_forall. intros x Hx. apply (Hcross x (s, n)); [done|by left]. }
  assert (s = now → counts (reverse ((s, n + 1) :: before)) (seconds ++ [now]) now) as Hadd.
  { intros ->. rewrite reverse_cons. apply (counts_extend _ [(now, n)]); try done; [by apply Forall_singleton| |by eauto|by rewrite <-Heq].
    intros c. unfold bucket_sum. simpl. case_match; lia. }
  destruct (s =? now) eqn:?, (now <? s) eqn:?; boolify; [lia|by apply Hadd|lia|]. apply Hpush. rewrite Heq. apply Forall_app. split.
  - eapply Forall_impl; [exact Hbs|]. simpl. lia.
  - apply Forall_singleton. simpl. lia.
Qed.

Lemma rolling_counts events time :
  StronglySorted (λ a b, rolling_time a ≤ rolling_time b) events →
  Forall (λ e, 0 ≤ rolling_time e ≤ time) events →
  counts (rolling_run events) (incremented events) time.
Proof.
  intros Hs Ht. revert time Hs Ht. induction events as [|e events IH] using rev_ind; intros time Hs Ht.
  { split; [constructor|constructor|done]. }
  apply Forall_app in Ht as [Ht He]. inversion_clear He as [|?? [H0 Hle] _].
  apply StronglySorted_app in Hs as (Hcross & Hs & _).
  assert (counts (rolling_run events) (incremented events) (rolling_time e)) as Hc.
  { apply IH; [done|]. apply Forall_forall. intros x Hx. rewrite Forall_forall in Ht. specialize (Ht x Hx).
    specialize (Hcross x e Hx ltac:(by left)). simpl in *. lia. }
  assert (counts (rolling_run (events ++ [e])) (incremented (events ++ [e])) (rolling_time e)) as [Ho Hb Hn].
  { unfold rolling_run, incremented. rewrite foldl_app, omap_app. fold (rolling_run events) (incremented events).
    destruct e as [t|t w]; simpl in *; [by apply (counts_increment _ _ t)|]. rewrite app_nil_r. by apply (counts_trim _ _ t). }
  split; [done|eapply Forall_impl; [exact Hb|]; simpl; lia|]. intros c Hlt Hc0. apply Hn; lia.
Qed.

(** Seconds in order fit into the window. *)
Lemma ordered_length buckets a b :
  StronglySorted older buckets → Forall (λ x, a ≤ fst x < b) buckets → Z.of_nat (length buckets) ≤ Z.max (b - a) 0.
Proof.
  intros Hs. revert a. induction Hs as [|x l Hs IH Hx]; intros a Hb; [simpl; lia|].
  inversion Hb as [|?? Hax Hl]; subst. specialize (IH (fst x + 1)). rewrite length_cons.
  assert (Forall (λ y, fst x + 1 ≤ fst y < b) l) as Hl'.
  { apply Forall_forall. intros y Hy. rewrite Forall_forall in Hl, Hx. specialize (Hl y Hy). specialize (Hx y Hy).
    unfold older in Hx. lia. }
  specialize (IH Hl'). lia.
Qed.

Lemma incremented_times events now :
  Forall (λ e, 0 ≤ rolling_time e ≤ now) events → Forall (λ t, 0 ≤ t) (incremented events).
Proof.
  intros H. apply Forall_forall. intros t (e & He & Ht)%list_elem_of_omap. rewrite Forall_forall in H.
  specialize (H e He). destruct e; simplify_eq/=. lia.
Qed.

Lemma from_second_ext c d seconds :
  Forall (λ t, c ≤ t ↔ d ≤ t) seconds → from_second c seconds = from_second d seconds.
Proof.
  unfold from_second. induction 1 as [|t l Ht _ IH]; [done|]. rewrite !filter_cons.
  destruct (decide (c ≤ t)), (decide (d ≤ t)); simpl; lia.
Qed.


