(* ===== verification/StatsDelta.v ===== *)
(** * Runs of recorded events

    What happened, as a sequence of the operations of StatsRecord.v, and what
    each of them marks as changed. *)

From S2P Require Import Prelude RustStr External ConfigBase AccessLog ServerName Upstream Tls CacheConfig ProxyHeader Route Listener Stats StatsRecord.

(** ** Events *)

(** What is recorded of a listener alone. *)
Inductive ListenerEvent : Type :=
| ConnectionAccepted | ConnectionRejected | MtlsHandshake (authenticated : bool) | MtlsRequest (authenticated : bool)
| TlsHandshakeFailure (reason : TlsHandshakeFailureReason)
| EarlyDataRequest (accepted : bool)
| RetryIssued | RetryFailed | RequestAcceptError | RequestResolveError | RequestBodyStreamError | ResponseStreamError
| ConnectionClose (reason : ConnectionError).

(** What is recorded of an upstream. *)
Inductive UpstreamEvent : Type :=
| URequest (now : Z) | UPeerAttempt (url : string) (now : Z) | UPeerSuccess (url : string) | UPeerFailure (url : string)
| UPeerTimeout (url : string) | UFailover (now : Z) | UCompleted (now : Z) | UBadGateway (now : Z)
| UGatewayTimeout (now : Z) | UBadRequest | UPayloadTooLarge | UUnsupportedMediaType | UNoHealthyPeers
| UFailureClass (class : string).

Inductive StatsEvent : Type :=
| DownstreamRequest (listener vhost : string) (route : option string) (now : Z)
| DownstreamResponded (listener vhost : string) (route : option string) (status now : Z)
| AccessDenied (route : string)
| RateLimited (route : string)
| GrpcRequest (listener vhost : string) (route : option string) (protocol : string) (now : Z)
| GrpcStatus (listener vhost : string) (route status : option string)
| OfListener (listener : string) (event : ListenerEvent)
| OfUpstream (upstream : string) (event : UpstreamEvent)
| PeerHealthChanged (upstream : string)
| CacheZoneChanged (zone : string).

Definition listener_step (id : string) (e : ListenerEvent) : StatsState → StatsState :=
  match e with
  | ConnectionAccepted => record_connection_accepted id
  | ConnectionRejected => record_connection_rejected id
  | MtlsHandshake authenticated => record_mtls_handshake_success id authenticated
  | MtlsRequest authenticated => record_mtls_request id authenticated
  | TlsHandshakeFailure reason => record_tls_handshake_failure id reason
  | EarlyDataRequest true => record_http3_early_data_accepted_request id
  | EarlyDataRequest false => record_http3_early_data_rejected_request id
  | RetryIssued => record_http3_retry_issued id
  | RetryFailed => record_http3_retry_failed id
  | RequestAcceptError => record_http3_request_accept_error id
  | RequestResolveError => record_http3_request_resolve_error id
  | RequestBodyStreamError => record_http3_request_body_stream_error id
  | ResponseStreamError => record_http3_response_stream_error id
  | ConnectionClose reason => record_http3_connection_close id reason
  end.

Definition upstream_step (name : string) (e : UpstreamEvent) : StatsState → StatsState :=
  match e with
  | URequest now => record_upstream_request name now
  | UPeerAttempt url now => record_upstream_peer_attempt name url now
  | UPeerSuccess url => record_upstream_peer_success name url
  | UPeerFailure url => record_upstream_peer_failure name url
  | UPeerTimeout url => record_upstream_peer_timeout name url
  | UFailover now => record_upstream_failover name now
  | UCompleted now => record_upstream_completed_response name now
  | UBadGateway now => record_upstream_bad_gateway_response name now
  | UGatewayTimeout now => record_upstream_gateway_timeout_response name now
  | UBadRequest => record_upstream_bad_request_response name
  | UPayloadTooLarge => record_upstream_payload_too_large_response name
  | UUnsupportedMediaType => record_upstream_unsupported_media_type_response name
  | UNoHealthyPeers => record_upstream_no_healthy_peers name
  | UFailureClass class => record_upstream_peer_failure_class name class
  end.

Definition stats_step (s : StatsState) (e : StatsEvent) : StatsState :=
  match e with
  | DownstreamRequest listener vhost route now => record_downstream_request listener vhost route now s
  | DownstreamResponded listener vhost route status now => record_downstream_response listener vhost route status now s
  | AccessDenied route => record_route_access_denied route s
  | RateLimited route => record_route_rate_limited route s
  | GrpcRequest listener vhost route protocol now => record_grpc_request listener vhost route protocol now s
  | GrpcStatus listener vhost route status => record_grpc_status listener vhost route status s
  | OfListener listener e => listener_step listener e s
  | OfUpstream upstream e => upstream_step upstream e s
  | PeerHealthChanged upstream => peer_health_changed upstream s
  | CacheZoneChanged zone => cache_zone_changed zone s
  end.

Definition stats_run (events : list StatsEvent) (s : StatsState) : StatsState := foldl stats_step s events.

(** ** What an event touches *)

(** The modules and the names an operation marks as changed. *)
Record Touch : Type := mkTouch {
  tc_modules : list SnapshotModule;
  tc_listener : option string;
  tc_vhost : option string;
  tc_route : option string;
  tc_upstream : option string;
  tc_peer_health : option string;
  tc_cache : option string;
}.

Definition touch_traffic (modules : list SnapshotModule) (listener vhost route : option string) : Touch :=
  mkTouch modules listener vhost route None None None.

(** What is known of the upstream's own counters decides whether an operation
    on it does anything. *)
Definition upstream_known (name : string) (e : UpstreamEvent) (s : StatsState) : bool :=
  match e with
  | UPeerAttempt url _ | UPeerSuccess url | UPeerFailure url | UPeerTimeout url =>
      is_some (st_upstreams s !! name ≫= λ entry, use_peers entry !! url)
  | UFailureClass class =>
      is_some (List.find (λ entry, str_eqb (fst entry) class) tls_failure_counters) && is_some (st_upstreams s !! name)
  | _ => is_some (st_upstreams s !! name)
  end.

Definition touch_of (s : StatsState) (e : StatsEvent) : option Touch :=
  match e with
  | DownstreamRequest listener vhost route _ | DownstreamResponded listener vhost route _ _ =>
      Some (touch_traffic [ModCounters; ModTraffic] (Some listener) (Some vhost) route)
  | AccessDenied route | RateLimited route => Some (touch_traffic [ModTraffic] None None (Some route))
  | GrpcRequest listener vhost route _ _ | GrpcStatus listener vhost route _ =>
      Some (touch_traffic [ModTraffic] (Some listener) (Some vhost) route)
  | OfListener listener e =>
      match e with
      | MtlsHandshake false => None
      | ConnectionAccepted | ConnectionRejected | MtlsHandshake true | MtlsRequest _ | TlsHandshakeFailure _
      | EarlyDataRequest _ => Some (touch_traffic [ModStatus; ModCounters; ModTraffic] (Some listener) None None)
      | _ => Some (touch_traffic [ModStatus; ModTraffic] (Some listener) None None)
      end
  | OfUpstream upstream e =>
      if upstream_known upstream e s then Some (mkTouch [ModUpstreams] None None None (Some upstream) None None)
      else None
  | PeerHealthChanged upstream => Some (mkTouch [ModPeerHealth] None None None None (Some upstream) None)
  | CacheZoneChanged zone => Some (mkTouch [ModStatus; ModCache] None None None None None (Some zone))
  end.

(** ** Versions *)

(** What a touch does to the versions. *)
Record touched (t : Touch) (v w : Versions) : Prop := {
  td_version : vs_version w = vs_version v + 1;
  td_components m : vs_components w m = if bool_decide (m ∈ tc_modules t) then vs_version w else vs_components v m;
  td_listeners : vs_listeners w = insert_some_key (tc_listener t) (vs_version w) (vs_listeners v);
  td_vhosts : vs_vhosts w = insert_some_key (tc_vhost t) (vs_version w) (vs_vhosts v);
  td_routes : vs_routes w = insert_some_key (tc_route t) (vs_version w) (vs_routes v);
  td_upstreams : vs_upstreams w = insert_some_key (tc_upstream t) (vs_version w) (vs_upstreams v);
  td_peer_health : vs_peer_health w = insert_some_key (tc_peer_health t) (vs_version w) (vs_peer_health v);
  td_cache : vs_cache w = insert_some_key (tc_cache t) (vs_version w) (vs_cache v);
}.

Definition step_versions (t : option Touch) (v w : Versions) : Prop :=
  match t with Some t => touched t v w | None => w = v end.

Lemma traffic_changed_touched (status counters : bool) l vh r s s' :
  versions_of s' = versions_of s →
  touched (touch_traffic ((if status then [ModStatus] else []) ++ (if counters then [ModCounters] else []) ++ [ModTraffic])
             l vh r) (versions_of s) (versions_of (traffic_changed status counters l vh r s')).
Proof.
  intros Heq. unfold versions_of in *. injection Heq as H1 H2 H3 H4 H5 H6 H7 H8.
  split; simpl; rewrite ?H1, ?H3, ?H4, ?H5, ?H6, ?H7, ?H8; try done.
  intros m. rewrite H2. by destruct m, status, counters.
Qed.

Lemma upstream_changed_touched name s s' :
  versions_of s' = versions_of s →
  touched (mkTouch [ModUpstreams] None None None (Some name) None None) (versions_of s)
    (versions_of (upstream_changed name s')).
Proof.
  intros Heq. unfold versions_of in *. injection Heq as H1 H2 H3 H4 H5 H6 H7 H8.
  split; simpl; rewrite ?H1, ?H3, ?H4, ?H5, ?H6, ?H7, ?H8; try done. intros m. rewrite H2. by destruct m.
Qed.

Lemma record_upstream_touched name f s :
  step_versions (if is_some (st_upstreams s !! name) then
                   Some (mkTouch [ModUpstreams] None None None (Some name) None None) else None)
    (versions_of s) (versions_of (record_upstream name f s)).
Proof. unfold record_upstream. destruct (st_upstreams s !! name); [by apply upstream_changed_touched|done]. Qed.

Lemma record_peer_touched name url f s :
  step_versions (if is_some (st_upstreams s !! name ≫= λ entry, use_peers entry !! url) then
                   Some (mkTouch [ModUpstreams] None None None (Some name) None None) else None)
    (versions_of s) (versions_of (record_peer name url f s)).
Proof.
  unfold record_peer. destruct (st_upstreams s !! name ≫= _); [by apply upstream_changed_touched|done].
Qed.

Lemma stats_step_touches s e : step_versions (touch_of s e) (versions_of s) (versions_of (stats_step s e)).
Proof.
  destruct e as [l v r now|l v r status now|r|r|l v r p now|l v r st|l e|u e|u|z]; unfold stats_step, touch_of.
  1: by apply (traffic_changed_touched false true).
  2-5: by apply (traffic_changed_touched false false).
  - apply (traffic_changed_touched false true). unfold record_downstream_response, versions_of. simpl.
    by destruct (response_class status).
  - destruct e as [| |[]|[]|r|[]| | | | | | |r]; try done;
      first [by apply (traffic_changed_touched true true) | by apply (traffic_changed_touched true false)].
  - destruct e; try apply record_upstream_touched; try apply record_peer_touched. cbn [upstream_step upstream_known].
    unfold record_upstream_peer_failure_class. destruct (List.find _ _) as [[]|]; simpl; [|done].
    apply record_upstream_touched.
  - split; simpl; try done. by intros [].
  - split; simpl; try done. by intros [].
Qed.

(** ** What a delta lists *)

Lemma changed_targets_spec versions since name :
  name ∈ changed_named_component_targets_since versions since ↔
  ∃ version, versions !! name = Some version ∧ since < version.
Proof.
  unfold changed_named_component_targets_since. rewrite sort_by_perm, list_elem_of_fmap. split.
  - intros ([k v] & -> & [Hk Hv]%list_elem_of_In%filter_In). boolify. exists v. split; [|done].
    by apply elem_of_map_to_list, list_elem_of_In.
  - intros (v & Hl & Hlt). exists (name, v). split; [done|]. apply list_elem_of_In, filter_In. split.
    + by apply list_elem_of_In, elem_of_map_to_list.
    + by apply Z.ltb_lt.
Qed.

Lemma kept_versions_fresh ids m name version :
  map_Forall (λ _ v, v = 0) m → foldl (kept_version ∅) m ids !! name = Some version → version = 0.
Proof.
  revert m. induction ids as [|id ids IH]; intros m Hm; [apply Hm|]. simpl. apply IH. intros n v.
  unfold kept_version. rewrite lookup_empty. intros [[_ <-]|[_ Hl]]%lookup_insert_Some; [done|by eapply Hm].
Qed.

Lemma no_versions_kept ids name version : foldl (kept_version ∅) ∅ ids !! name = Some version → version = 0.
Proof. apply kept_versions_fresh, map_Forall_empty. Qed.

Lemma name_versions_fresh {A} (named : gmap string A) name version :
  build_name_versions named None !! name = Some version → version = 0.
Proof. unfold build_name_versions. rewrite map_lookup_imap. destruct (named !! name); simpl; congruence. Qed.

