(* ===== verification/SnapshotRace.v ===== *)
(** * Recordings, write by write

    What a recording publishes of its change
    ([mark_snapshot_changed_components] and the marks of the names, of
    [crates/rginx-http/src/state/snapshot_bus.rs]) as the separate atomic
    operations they are, of any number of recordings at once in any order, and
    an observer whose loads fall between them.

    A recording takes its version first and publishes what changed after it.  An
    observer that looks meanwhile can read the new version and not see the name;
    what was published under an older version after that is never reported to it
    ([late_insert_is_not_reported]), and of two marks of one name the older can
    win ([older_mark_overwrites]).  An observer that looked when nothing was
    under way is told everything ([snapshot_delta_is_exact]). *)

From S2P Require Import Prelude RustStr External ConfigBase AccessLog ServerName Upstream Tls CacheConfig ProxyHeader Route Listener Stats StatsRecord StatsDelta.

(** ** Writes *)

(** One store, or what is inserted under one lock. *)
Inductive Write : Type :=
| WComponent (m : SnapshotModule)
| WTraffic (listener vhost route : option string)
| WUpstream (name : string)
| WPeerHealth (name : string)
| WCacheZone (name : string).

Definition with_version (version : Z) (s : StatsState) : StatsState :=
  mkStats (st_http s) (st_traffic s) (st_traffic_versions s) (st_upstreams s) (st_upstream_versions s)
    (st_peer_health_versions s) (st_cache_versions s) version (st_components s).

Definition store_component (m : SnapshotModule) (version : Z) (s : StatsState) : StatsState :=
  mkStats (st_http s) (st_traffic s) (st_traffic_versions s) (st_upstreams s) (st_upstream_versions s)
    (st_peer_health_versions s) (st_cache_versions s) (st_version s)
    (λ m', if bool_decide (m' = m) then version else st_components s m').

Definition apply_write (version : Z) (s : StatsState) (w : Write) : StatsState :=
  match w with
  | WComponent m => store_component m version s
  | WTraffic listener vhost route => mark_traffic_targets_changed version listener vhost route s
  | WUpstream name => with_upstream_versions (mark_named_component_target_changed name version) s
  | WPeerHealth name => with_peer_health_versions (mark_named_component_target_changed name version) s
  | WCacheZone name => with_cache_versions (mark_named_component_target_changed name version) s
  end.

(** The components in the order of the code, then the names. *)
(** Source: crates/rginx-http/src/state/snapshot_bus.rs:214-243 (mark_snapshot_changed_components_with_cache) *)
Definition writes_of (t : Touch) : list Write :=
  map WComponent
    (List.filter (λ m, bool_decide (m ∈ tc_modules t))
       [ModStatus; ModCounters; ModTraffic; ModPeerHealth; ModUpstreams; ModCache]) ++
  (if is_some (tc_listener t) || is_some (tc_vhost t) || is_some (tc_route t)
   then [WTraffic (tc_listener t) (tc_vhost t) (tc_route t)] else []) ++
  option_list (WUpstream <$> tc_upstream t) ++ option_list (WPeerHealth <$> tc_peer_health t) ++
  option_list (WCacheZone <$> tc_cache t).

(** ** Recordings *)

(** A recording: it counts, takes a version and publishes what it touched. *)
Inductive Recording : Type :=
| RecStart (e : StatsEvent)
| RecCounted (t : Touch)
| RecWriting (t : Touch) (version : Z) (rest : list Write)
| RecNothing.

(** The counters of an event, without its marks. *)
Definition count_event (e : StatsEvent) (s : StatsState) : StatsState :=
  let s' := stats_step s e in
  mkStats (st_http s') (st_traffic s') (st_traffic_versions s) (st_upstreams s') (st_upstream_versions s)
    (st_peer_health_versions s) (st_cache_versions s) (st_version s) (st_components s).

Record Recordings : Type := mkRecordings { rc_stats : StatsState; rc_threads : list Recording }.

(** The next atomic operation of one recording. *)
Definition recording_step (s : StatsState) (r : Recording) : StatsState * Recording :=
  match r with
  | RecStart e => (count_event e s, match touch_of s e with Some t => RecCounted t | None => RecNothing end)
  | RecCounted t => (with_version (st_version s + 1) s, RecWriting t (st_version s + 1) (writes_of t))
  | RecWriting t version (w :: rest) => (apply_write version s w, RecWriting t version rest)
  | RecWriting _ _ [] | RecNothing => (s, r)
  end.

Definition step_at (i : nat) (c : Recordings) : Recordings :=
  match rc_threads c !! i with
  | Some r => let '(s, r) := recording_step (rc_stats c) r in mkRecordings s (<[i := r]> (rc_threads c))
  | None => c
  end.

Definition run_schedule (schedule : list nat) (c : Recordings) : Recordings := foldl (λ c i, step_at i c) c schedule.

Definition started (events : list StatsEvent) (s : StatsState) : Recordings :=
  mkRecordings s (map RecStart events).

(** Later, whatever the order in which the recordings go on. *)
Definition later (c c' : Recordings) : Prop := rtc (λ c c', ∃ i, c' = step_at i c) c c'.

(** No recording has taken a version and is still publishing. *)
Definition none_under_way (c : Recordings) : Prop :=
  ∀ t version rest, RecWriting t version rest ∈ rc_threads c → rest = [].

(** What an observer reads from [first] on until [last]: the version, then each
    component, the names of the traffic under one lock, and the others each
    under theirs. *)
Record read_between (first last : Recordings) (v : Versions) : Prop := {
  rb_version : vs_version v = st_version (rc_stats first);
  rb_component m : ∃ c, later first c ∧ later c last ∧ vs_components v m = st_components (rc_stats c) m;
  rb_traffic : ∃ c, later first c ∧ later c last ∧ let versions := versions_of (rc_stats c) in
    vs_listeners v = vs_listeners versions ∧ vs_vhosts v = vs_vhosts versions ∧ vs_routes v = vs_routes versions;
  rb_upstreams : ∃ c, later first c ∧ later c last ∧ vs_upstreams v = st_upstream_versions (rc_stats c);
  rb_peer_health : ∃ c, later first c ∧ later c last ∧ vs_peer_health v = st_peer_health_versions (rc_stats c);
  rb_cache : ∃ c, later first c ∧ later c last ∧ vs_cache v = st_cache_versions (rc_stats c);
}.

(** ** Races *)

Definition no_stats : StatsState :=
  mkStats zeroes (mkTrafficIndex ∅ [] ∅ [] ∅ []) (mkTrafficVersions ∅ ∅ ∅) ∅ ∅ ∅ ∅ 0 zeroes.

(** The observer reads version 2 while the first recording has not published its
    zone: no later delta names it, and the component is back at an older
    version. *)
Example late_insert_is_not_reported :
  let c0 := started [CacheZoneChanged "a"; CacheZoneChanged "b"] no_stats in
  let seen := run_schedule [0; 0; 1; 1; 1; 1; 1]%nat c0 in
  let last := run_schedule [0; 0; 0]%nat seen in
  let delta since c := snapshot_delta_since since None None (versions_of (rc_stats c)) in
  st_version (rc_stats seen) = 2 ∧
  sd_changed_cache_zone_names (delta 0 seen) = Some ["b"]%string ∧
  sd_changed_cache_zone_names (delta 2 last) = Some [] ∧
  sd_version (delta 2 last) ModCache = Some 1.
Proof. vm_compute. done. Qed.

(** Both changes are of one name and an observer looked between them: it is told
    of the second, then not any more. *)
Example older_mark_overwrites :
  let c0 := started [CacheZoneChanged "a"; CacheZoneChanged "a"] no_stats in
  let seen := run_schedule [0; 0]%nat c0 in
  let during := run_schedule [1; 1; 1; 1; 1]%nat seen in
  let last := run_schedule [0; 0; 0]%nat during in
  let delta since c := snapshot_delta_since since None None (versions_of (rc_stats c)) in
  sd_changed_cache_zone_names (delta 1 during) = Some ["a"]%string ∧
  sd_changed_cache_zone_names (delta 1 last) = Some [].
Proof. vm_compute. done. Qed.

(** ** Cells *)

(** What a version is kept for. *)
Inductive Cell : Type :=
| CComponent (m : SnapshotModule)
| CListener (name : string) | CVhost (name : string) | CRoute (name : string)
| CUpstream (name : string) | CPeerHealth (name : string) | CCacheZone (name : string).

(** The version in a cell; none is 0, which no change has. *)
Definition version_in (c : Cell) (v : Versions) : Z :=
  match c with
  | CComponent m => vs_components v m
  | CListener name => default 0 (vs_listeners v !! name)
  | CVhost name => default 0 (vs_vhosts v !! name)
  | CRoute name => default 0 (vs_routes v !! name)
  | CUpstream name => default 0 (vs_upstreams v !! name)
  | CPeerHealth name => default 0 (vs_peer_health v !! name)
  | CCacheZone name => default 0 (vs_cache v !! name)
  end.
Definition cell (c : Cell) (s : StatsState) : Z := version_in c (versions_of s).

Definition touches_cell (t : Touch) (c : Cell) : Prop :=
  match c with
  | CComponent m => m ∈ tc_modules t
  | CListener name => tc_listener t = Some name
  | CVhost name => tc_vhost t = Some name
  | CRoute name => tc_route t = Some name
  | CUpstream name => tc_upstream t = Some name
  | CPeerHealth name => tc_peer_health t = Some name
  | CCacheZone name => tc_cache t = Some name
  end.

Definition writes_cell (w : Write) (c : Cell) : Prop :=
  match w, c with
  | WComponent m, CComponent m' => m' = m
  | WTraffic listener _ _, CListener name => listener = Some name
  | WTraffic _ vhost _, CVhost name => vhost = Some name
  | WTraffic _ _ route, CRoute name => route = Some name
  | WUpstream name, CUpstream name' => name = name'
  | WPeerHealth name, CPeerHealth name' => name = name'
  | WCacheZone name, CCacheZone name' => name = name'
  | _, _ => False
  end.

#[export] Instance writes_cell_dec w c : Decision (writes_cell w c).
Proof. destruct w, c; simpl; apply _. Defined.

Lemma lookup_inserted_key key version m name :
  default 0 (insert_some_key key version m !! name) = if decide (key = Some name) then version else default 0 (m !! name).
Proof.
  destruct key as [key|]; cbn [insert_some_key]; [|by rewrite decide_False].
  destruct (decide (key = name)) as [->|Hne]; [by rewrite lookup_insert_eq, decide_True|].
  rewrite lookup_insert_ne, decide_False; [done|congruence|done].
Qed.

Lemma lookup_inserted key (version : Z) (m : gmap string Z) name :
  default 0 (<[key := version]> m !! name) = if decide (key = name) then version else default 0 (m !! name).
Proof. case_decide; [subst; by rewrite lookup_insert_eq|by rewrite lookup_insert_ne]. Qed.

Lemma cell_written version w c s :
  cell c (apply_write version s w) = if decide (writes_cell w c) then version else cell c s.
Proof.
  destruct w, c; unfold cell; cbn; try done; rewrite ?lookup_inserted_key; try done;
    try (unfold mark_named_component_target_changed; apply lookup_inserted).
  repeat case_bool_decide; repeat case_decide; done.
Qed.

Lemma version_written version w s : st_version (apply_write version s w) = st_version s.
Proof. by destruct w. Qed.

Lemma cell_counted c e s : cell c (count_event e s) = cell c s.
Proof. by destruct c. Qed.

(** The writes of a recording are of the cells it touches. *)
Lemma writes_touched t c : (∃ w, w ∈ writes_of t ∧ writes_cell w c) ↔ touches_cell t c.
Proof.
  unfold writes_of. destruct t as [modules l v r u p z].
  cbn [tc_modules tc_listener tc_vhost tc_route tc_upstream tc_peer_health tc_cache]. split.
  - intros (w & Hin & Hw). rewrite !elem_of_app in Hin. destruct Hin as [Hin|[Hin|[Hin|[Hin|Hin]]]].
    + apply list_elem_of_fmap in Hin as (m & -> & [_ Hm]%list_elem_of_In%filter_In). apply bool_decide_eq_true in Hm.
      destruct c; simpl in *; by subst.
    + destruct (_ || _); [|by apply not_elem_of_nil in Hin]. apply list_elem_of_singleton in Hin as ->. by destruct c.
    + destruct u; [|by apply not_elem_of_nil in Hin]. apply list_elem_of_singleton in Hin as ->. destruct c; simpl in *; by subst.
    + destruct p; [|by apply not_elem_of_nil in Hin]. apply list_elem_of_singleton in Hin as ->. destruct c; simpl in *; by subst.
    + destruct z; [|by apply not_elem_of_nil in Hin]. apply list_elem_of_singleton in Hin as ->. destruct c; simpl in *; by subst.
  - destruct c as [m|n|n|n|n|n|n]; cbn [touches_cell tc_modules tc_listener tc_vhost tc_route tc_upstream tc_peer_health tc_cache]; intros H.
    + exists (WComponent m). split; [|done]. apply elem_of_app. left. apply list_elem_of_fmap. exists m. split; [done|].
      apply list_elem_of_In, filter_In. split; [destruct m; cbn; tauto|by apply bool_decide_eq_true].
    + exists (WTraffic l v r). split; [|done]. rewrite H. cbn. set_solver.
    + exists (WTraffic l v r). split; [|done]. rewrite H. cbn. rewrite orb_true_r. set_solver.
    + exists (WTraffic l v r). split; [|done]. rewrite H. cbn. rewrite orb_true_r. set_solver.
    + exists (WUpstream n). split; [|done]. rewrite H. cbn. set_solver.
    + exists (WPeerHealth n). split; [|done]. rewrite H. cbn. set_solver.
    + exists (WCacheZone n). split; [|done]. rewrite H. cbn. set_solver.
Qed.

(** ** A recording alone *)

Lemma cell_all_written version ws c s :
  cell c (foldl (apply_write version) s ws) = if decide (Exists (λ w, writes_cell w c) ws) then version else cell c s.
Proof.
  revert s. induction ws as [|w ws IH]; intros s; [cbn; case_decide as H; [by apply Exists_nil in H|done]|].
  cbn [foldl]. rewrite IH, cell_written.
  destruct (decide (Exists _ ws)) as [H|H]; [by rewrite decide_True by (by right)|].
  destruct (decide (writes_cell w c)) as [Hw|Hw]; [by rewrite decide_True by (by left)|].
  rewrite decide_False; [done|]. by intros [|]%Exists_cons.
Qed.

Lemma cell_recorded s e t c :
  touch_of s e = Some t →
  (touches_cell t c → cell c (stats_step s e) = st_version s + 1) ∧ (¬ touches_cell t c → cell c (stats_step s e) = cell c s).
Proof.
  intros Ht. pose proof (stats_step_touches s e) as H. rewrite Ht in H. destruct H as [Hv Hm Hl Hh Hr Hu Hp Hz].
  change (vs_version (versions_of s)) with (st_version s) in Hv. unfold cell.
  destruct c; cbn [touches_cell version_in]; rewrite ?Hm, ?Hl, ?Hh, ?Hr, ?Hu, ?Hp, ?Hz, ?lookup_inserted_key, ?Hv;
    (split; intros H; [try by rewrite decide_True|try by rewrite decide_False]); by case_bool_decide.
Qed.

(** A recording that nothing falls in between leaves the counters and the
    versions that StatsRecord.v says. *)
Lemma recording_alone s e :
  let counted := count_event e s in
  match touch_of s e with
  | Some t =>
      let s' := foldl (apply_write (st_version s + 1)) (with_version (st_version s + 1) counted) (writes_of t) in
      st_version s' = st_version (stats_step s e) ∧ ∀ c, cell c s' = cell c (stats_step s e)
  | None => ∀ c, cell c counted = cell c (stats_step s e)
  end.
Proof.
  intros counted. destruct (touch_of s e) as [t|] eqn:Ht.
  - split.
    + pose proof (stats_step_touches s e) as H. rewrite Ht in H. apply td_version in H. cbn in H. rewrite H.
      assert (∀ ws s0, st_version (foldl (apply_write (st_version s + 1)) s0 ws) = st_version s0) as Hws.
      { induction ws as [|w ws IH]; intros s0; [done|]. cbn. by rewrite IH, version_written. }
      by rewrite Hws.
    + intros c. rewrite cell_all_written. pose proof (writes_touched t c) as Hw. rewrite <-Exists_exists in Hw.
      destruct (cell_recorded s e t c Ht) as [H1 H2].
      case_decide as Hd; [by rewrite H1 by (by apply Hw)|]. rewrite H2 by (by rewrite <-Hw). by destruct c.
  - intros c. pose proof (stats_step_touches s e) as H. rewrite Ht in H. unfold cell. cbn in H. rewrite H. by destruct c.
Qed.

(** ** Recordings at once *)

(** Where a recording goes from there. *)
Lemma step_at_thread i c r j :
  rc_threads (step_at i c) !! j = Some r →
  ∃ r0, rc_threads c !! j = Some r0 ∧ (r = r0 ∨ (i = j ∧ r = (recording_step (rc_stats c) r0).2)).
Proof.
  unfold step_at. destruct (rc_threads c !! i) as [r1|] eqn:Hi; [|by exists r; split; [|left]].
  destruct (recording_step (rc_stats c) r1) as [s r2] eqn:Hs. cbn.
  intros [(<- & <- & _)|[_ H]]%list_lookup_insert_Some; [exists r1; split; [done|right; by rewrite Hs]|exists r; split; [done|by left]].
Qed.

(** What holds of every run: the versions that recordings have taken are all
    there are, and a recording publishes what it touched. *)
Record recordings_ok (c : Recordings) : Prop := {
  ro_version : 0 ≤ st_version (rc_stats c);
  ro_cells k : cell k (rc_stats c) ≤ st_version (rc_stats c);
  ro_versions t version rest : RecWriting t version rest ∈ rc_threads c → 0 < version ≤ st_version (rc_stats c);
  ro_writes t version rest w : RecWriting t version rest ∈ rc_threads c → w ∈ rest → w ∈ writes_of t;
}.

(** What holds of it once an observer has looked at [since], when nothing was
    under way. *)
Record since_ok (since : Z) (c : Recordings) : Prop := {
  so_version : since ≤ st_version (rc_stats c);
  so_writing t version w rest : RecWriting t version (w :: rest) ∈ rc_threads c → since < version;
  so_published t version rest k :
    RecWriting t version rest ∈ rc_threads c → since < version → touches_cell t k →
    since < cell k (rc_stats c) ∨ Exists (λ w, writes_cell w k) rest;
  so_touched k : since < cell k (rc_stats c) →
    ∃ t version rest, RecWriting t version rest ∈ rc_threads c ∧ since < version ∧ touches_cell t k;
}.

Definition writing (r : Recording) : bool := match r with RecWriting _ _ _ => true | _ => false end.
Definition versions_taken (c : Recordings) : nat := length (List.filter writing (rc_threads c)).

(** The cases of a step. *)
Inductive step_case (i : nat) (c : Recordings) : Recordings → Prop :=
| case_idle : step_case i c c
| case_counted s t :
    (∀ k, cell k s = cell k (rc_stats c)) → st_version s = st_version (rc_stats c) →
    (∃ e, rc_threads c !! i = Some (RecStart e)) → writing t = false →
    step_case i c (mkRecordings s (<[i := t]> (rc_threads c)))
| case_version t :
    rc_threads c !! i = Some (RecCounted t) → let version := st_version (rc_stats c) + 1 in
    step_case i c (mkRecordings (with_version version (rc_stats c)) (<[i := RecWriting t version (writes_of t)]> (rc_threads c)))
| case_write t version w rest :
    rc_threads c !! i = Some (RecWriting t version (w :: rest)) →
    step_case i c (mkRecordings (apply_write version (rc_stats c) w) (<[i := RecWriting t version rest]> (rc_threads c))).

Lemma insert_same {A} (l : list A) i x : l !! i = Some x → <[i := x]> l = l.
Proof. apply list_insert_id. Qed.

Lemma step_cases i c : step_case i c (step_at i c).
Proof.
  unfold step_at. destruct (rc_threads c !! i) as [r|] eqn:Hi; [|apply case_idle].
  destruct r as [e|t|t version [|w rest]|]; cbn [recording_step].
  - apply case_counted; [intros k; apply cell_counted|done|by exists e|by destruct (touch_of _ _)].
  - by apply case_version.
  - rewrite insert_same by done. destruct c. apply case_idle.
  - by apply case_write.
  - rewrite insert_same by done. destruct c. apply case_idle.
Qed.

Lemma in_inserted (i : nat) (r r' : Recording) (l : list Recording) :
  r ∈ <[i := r']> l → r = r' ∨ r ∈ l.
Proof. intros (j & [(_ & -> & _)|[_ H]]%list_lookup_insert_Some)%list_elem_of_lookup; [by left|right]. by eapply list_elem_of_lookup_2. Qed.

(** A recording that is not replaced stays. *)
Lemma writing_stays (i : nat) (r0 r : Recording) (l : list Recording) t version rest :
  l !! i = Some r0 → writing r0 = false → RecWriting t version rest ∈ l → RecWriting t version rest ∈ <[i := r]> l.
Proof.
  intros Hi Hr (j & Hj)%list_elem_of_lookup. apply list_elem_of_lookup. exists j.
  rewrite list_lookup_insert_ne; [done|]. intros ->. rewrite Hi in Hj. by injection Hj as ->.
Qed.

Lemma writing_goes_on (i : nat) (l : list Recording) t version w rest t' version' rest' :
  l !! i = Some (RecWriting t version (w :: rest)) → RecWriting t' version' rest' ∈ l →
  (t' = t ∧ version' = version ∧ rest' = w :: rest) ∨
  RecWriting t' version' rest' ∈ <[i := RecWriting t version rest]> l.
Proof.
  intros Hi (j & Hj)%list_elem_of_lookup. destruct (decide (j = i)) as [->|Hne].
  - left. rewrite Hi in Hj. by injection Hj as -> -> ->.
  - right. apply list_elem_of_lookup. exists j. by rewrite list_lookup_insert_ne.
Qed.

Lemma inserted_is_in (i : nat) (r r0 : Recording) (l : list Recording) : l !! i = Some r0 → r ∈ <[i := r]> l.
Proof.
  intros Hi. apply list_elem_of_lookup. exists i. apply list_lookup_insert_eq. by eapply lookup_lt_Some.
Qed.

Lemma recording_step_ok i c : recordings_ok c → recordings_ok (step_at i c).
Proof.
  intros Hc. pose proof Hc as [Hpos Hcells Hversions Hwrites].
  destruct (step_cases i c) as [|s t Hk Hv (e & He) Ht|t Ht version|t version w rest Ht]; [done|..]; split; cbn [rc_stats rc_threads].
  - by rewrite Hv.
  - intros k. by rewrite Hk, Hv.
  - intros t' version rest [<-|Hin]%in_inserted; [done|]. rewrite Hv. by eapply Hversions.
  - intros t' version rest w [<-|Hin]%in_inserted; [done|]. by eapply Hwrites.
  - cbn. lia.
  - intros k. specialize (Hcells k).
    assert (cell k (with_version version (rc_stats c)) = cell k (rc_stats c)) as -> by (by destruct k). cbn. lia.
  - intros t' version' rest' [[= -> -> ->]|Hin]%in_inserted; cbn.
    + unfold version. lia.
    + specialize (Hversions _ _ _ Hin). lia.
  - intros t' version' rest' w [[= -> -> ->]|Hin]%in_inserted; [done|by eapply Hwrites].
  - by rewrite version_written.
  - intros k. rewrite cell_written, version_written. pose proof (Hversions t version _ (list_elem_of_lookup_2 _ _ _ Ht)).
    specialize (Hcells k). case_decide; lia.
  - intros t' version' rest' [[= -> -> ->]|Hin]%in_inserted; rewrite version_written; [|by eapply Hversions].
    eapply Hversions. by eapply list_elem_of_lookup_2.
  - intros t' version' rest' w' [[= -> -> ->]|Hin]%in_inserted Hw; [|by eapply Hwrites].
    eapply Hwrites; [by eapply list_elem_of_lookup_2|by right].
Qed.

Lemma step_since since i c : recordings_ok c → since_ok since c → since_ok since (step_at i c).
Proof.
  intros [Hpos Hcells Hversions Hwrites] Hc. pose proof Hc as [Hv Hw Hp Ht].
  destruct (step_cases i c) as [|s r Hk Hsv (e & He) Hr|t Hi version|t version w rest Hi]; [done|..]; split; cbn [rc_stats rc_threads].
  - by rewrite Hsv.
  - intros t version w rest [<-|Hin]%in_inserted; [done|by eapply Hw].
  - intros t version rest k [<-|Hin]%in_inserted; [done|]. rewrite Hk. by apply Hp.
  - intros k. rewrite Hk. intros (t & version & rest & Hin & H)%Ht. exists t, version, rest. split; [|done].
    by eapply writing_stays.
  - cbn. lia.
  - intros t' version' w rest [[= -> -> _]|Hin]%in_inserted; [unfold version; lia|by eapply Hw].
  - intros t' version' rest k Hin Hlt Hk. assert (cell k (with_version version (rc_stats c)) = cell k (rc_stats c)) as -> by (by destruct k).
    apply in_inserted in Hin as [[= -> -> ->]|Hin]; [|by eapply Hp]. right. apply Exists_exists. by apply writes_touched.
  - intros k. assert (cell k (with_version version (rc_stats c)) = cell k (rc_stats c)) as -> by (by destruct k).
    intros (t' & version' & rest & Hin & H)%Ht. exists t', version', rest. split; [|done]. by eapply writing_stays.
  - by rewrite version_written.
  - intros t' version' w' rest' [[= -> -> <-]|Hin]%in_inserted; [|by eapply Hw].
    eapply Hw. by eapply list_elem_of_lookup_2.
  - intros t' version' rest' k Hin Hlt Hk. rewrite cell_written.
    pose proof (Hw _ _ _ _ (list_elem_of_lookup_2 _ _ _ Hi)) as Hsince.
    apply in_inserted in Hin as [[= -> -> ->]|Hin].
    + destruct (Hp _ _ _ _ (list_elem_of_lookup_2 _ _ _ Hi) Hlt Hk) as [H|H].
      * left. by case_decide.
      * apply Exists_cons in H as [H|H]; [left; by rewrite decide_True|by right].
    + destruct (Hp _ _ _ _ Hin Hlt Hk) as [H|H]; [left; by case_decide|by right].
  - intros k. rewrite cell_written. pose proof (list_elem_of_lookup_2 _ _ _ Hi) as Hin0.
    case_decide as Hwk.
    + intros Hlt. exists t, version, rest. split; [by eapply inserted_is_in|]. split; [done|].
      apply writes_touched. exists w. split; [eapply Hwrites; [exact Hin0|by left]|done].
    + intros (t' & version' & rest' & Hin & Hlt & Hk)%Ht.
      destruct (writing_goes_on _ _ _ _ w _ t' version' rest' Hi Hin) as [(-> & -> & ->)|Hin'].
      * exists t, version, rest. split; [by eapply inserted_is_in|done].
      * by exists t', version', rest'.
Qed.

(** A recording that has taken its version keeps it. *)
Lemma step_keeps i c t version rest :
  RecWriting t version rest ∈ rc_threads c →
  ∃ rest', RecWriting t version rest' ∈ rc_threads (step_at i c) ∧ (rest = [] → rest' = []).
Proof.
  intros Hin. destruct (step_cases i c) as [|s r Hk Hsv (e & He) Hr|t' Hi v|t' version' w rest' Hi]; [by exists rest|..].
  - exists rest. split; [by eapply writing_stays|done].
  - exists rest. split; [by eapply writing_stays|done].
  - destruct (writing_goes_on _ _ _ _ w _ t version rest Hi Hin) as [(-> & -> & ->)|H]; [|by exists rest].
    exists rest'. split; [by eapply inserted_is_in|done].
Qed.

Lemma later_keeps c c' t version rest :
  later c c' → RecWriting t version rest ∈ rc_threads c →
  ∃ rest', RecWriting t version rest' ∈ rc_threads c' ∧ (rest = [] → rest' = []).
Proof.
  intros H. revert rest. induction H as [c|c c1 c' [i ->] _ IH]; intros rest Hin; [by exists rest|].
  destruct (step_keeps i _ _ _ _ Hin) as (rest1 & Hin1 & H1). destruct (IH _ Hin1) as (rest2 & Hin2 & H2). exists rest2. auto.
Qed.

Lemma later_ok c c' : later c c' → recordings_ok c → recordings_ok c'.
Proof. induction 1 as [|c c1 c' [i ->] _ IH]; [done|]. intros H. by apply IH, recording_step_ok. Qed.

Lemma later_since since c c' : later c c' → recordings_ok c → since_ok since c → since_ok since c'.
Proof. induction 1 as [|c c1 c' [i ->] _ IH]; [done|]. intros H H'. apply IH; [by apply recording_step_ok|by apply step_since]. Qed.

Lemma quiet_since c : recordings_ok c → none_under_way c → since_ok (st_version (rc_stats c)) c.
Proof.
  intros [Hpos Hcells Hversions Hwrites] Hq. split.
  - done.
  - intros t version w rest Hin. by specialize (Hq _ _ _ Hin).
  - intros t version rest k Hin Hlt. specialize (Hversions _ _ _ Hin). lia.
  - intros k. specialize (Hcells k). lia.
Qed.

(** The version is the number of recordings that have taken one. *)
Lemma filter_inserted (l : list Recording) i r0 r :
  l !! i = Some r0 →
  (length (List.filter writing (<[i := r]> l)) + (if writing r0 then 1 else 0) =
   length (List.filter writing l) + (if writing r then 1 else 0))%nat.
Proof.
  revert i. induction l as [|x l IH]; intros [|i] H; try done; cbn in H.
  - injection H as ->. cbn. destruct (writing r), (writing r0); cbn; lia.
  - specialize (IH _ H). change (<[S i := r]> (x :: l)) with (x :: <[i := r]> l). cbn [List.filter].
    destruct (writing x); cbn [length]; lia.
Qed.

Lemma step_taken i c :
  st_version (rc_stats c) = Z.of_nat (versions_taken c) →
  st_version (rc_stats (step_at i c)) = Z.of_nat (versions_taken (step_at i c)).
Proof.
  unfold versions_taken. intros Hv. destruct (step_cases i c) as [|s r Hk Hsv (e & He) Hr|t Hi v|t version w rest Hi]; [done|..]; cbn [rc_stats rc_threads].
  - pose proof (filter_inserted _ _ _ r He) as H. rewrite Hr in H. cbn [writing] in H. lia.
  - pose proof (filter_inserted _ _ _ (RecWriting t v (writes_of t)) Hi) as H.
    cbn [writing] in H. cbn [with_version st_version]. fold v. lia.
  - pose proof (filter_inserted _ _ _ (RecWriting t version rest) Hi) as H. cbn [writing] in H. rewrite version_written. lia.
Qed.

Lemma later_taken c c' :
  later c c' → st_version (rc_stats c) = Z.of_nat (versions_taken c) →
  st_version (rc_stats c') = Z.of_nat (versions_taken c').
Proof. induction 1 as [|c c1 c' [i ->] _ IH]; [done|]. intros H. by apply IH, step_taken. Qed.

(** ** The delta *)

Section Delta.
Context {RX : RegexApi} {NET : IpNetApi} {HTTP : HttpApi}.

Lemma started_ok (config : ConfigSnapshot) events :
  let c := started events (build_stats config) in
  recordings_ok c ∧ st_version (rc_stats c) = Z.of_nat (versions_taken c).
Proof.
  assert (∀ r, r ∈ map RecStart events → writing r = false) as Hnone.
  { by intros r (e & -> & _)%list_elem_of_fmap. }
  split; [split; cbn [started rc_stats rc_threads]|].
  - done.
  - assert (∀ o : option Z, (∀ v, o = Some v → v = 0) → default 0 o ≤ 0) as Hzero.
    { intros [v|] H; [by rewrite (H v)|done]. }
    intros [m|n|n|n|n|n|n]; unfold cell; cbn [version_in]; [done|..]; apply Hzero; intros v Hl.
    + exact (no_versions_kept _ _ _ Hl).
    + exact (no_versions_kept (map vhost_id (all_vhosts config)) _ _ Hl).
    + exact (no_versions_kept (map route_id (mjoin (map vhost_routes (all_vhosts config)))) _ _ Hl).
    + exact (name_versions_fresh _ _ _ Hl).
    + exact (name_versions_fresh _ _ _ Hl).
    + exact (name_versions_fresh _ _ _ Hl).
  - by intros t version rest ?%Hnone.
  - by intros t version rest w ?%Hnone.
  - unfold versions_taken. cbn [started rc_stats rc_threads build_stats st_version].
    clear Hnone. induction events as [|e events IH]; [done|exact IH].
Qed.

(** The recordings that took a version since: those that had published it when
    the observer began to read, and all of them. *)
Definition published_since (since : Z) (first : Recordings) (t : Touch) : Prop :=
  ∃ version, RecWriting t version [] ∈ rc_threads first ∧ since < version.
Definition begun_since (since : Z) (last : Recordings) (t : Touch) : Prop :=
  ∃ version rest, RecWriting t version rest ∈ rc_threads last ∧ since < version.

(** The names of a module that was asked for: all that were published are among
    them, and each comes from a recording. *)
Definition lists_changes (include : option (list SnapshotModule)) (module : SnapshotModule) (names : option (list string))
    (named : Touch → option string) (published begun : Touch → Prop) : Prop :=
  if bool_decide (module ∈ default ALL_MODULES include) then
    ∃ listed, names = Some listed ∧
      (∀ t name, published t → named t = Some name → name ∈ listed) ∧
      (∀ name, name ∈ listed → ∃ t, begun t ∧ named t = Some name)
  else names = None.

Lemma module_included m include :
  bool_decide (m ∈ normalize_modules include) = bool_decide (m ∈ default ALL_MODULES include).
Proof.
  apply bool_decide_ext. unfold normalize_modules. rewrite list_elem_of_In, filter_In. split.
  - by intros [_ ?%bool_decide_eq_true].
  - intros H. split; [destruct m; cbn; tauto|by apply bool_decide_eq_true].
Qed.

(** What is read of a cell between two moments. *)
Lemma cell_read since first mid last k :
  recordings_ok first → since_ok since first → later first mid → later mid last →
  ((∃ t, published_since since first t ∧ touches_cell t k) → since < cell k (rc_stats mid)) ∧
  (since < cell k (rc_stats mid) → ∃ t, begun_since since last t ∧ touches_cell t k).
Proof.
  intros Hok Hs H1 H2. pose proof (later_since _ _ _ H1 Hok Hs) as [_ _ Hp Ht]. split.
  - intros (t & (version & Hin & Hlt) & Hk). destruct (later_keeps _ _ _ _ _ H1 Hin) as (rest & Hin' & Hnil).
    rewrite Hnil in Hin' by done. destruct (Hp _ _ _ _ Hin' Hlt Hk) as [H|H]; [done|by apply Exists_nil in H].
  - intros (t & version & rest & Hin & Hlt & Hk)%Ht. destruct (later_keeps _ _ _ _ _ H2 Hin) as (rest' & Hin' & _).
    exists t. split; [by exists version, rest'|done].
Qed.

Lemma listed_changes since first last mid include module versions named (of_name : string → Cell) :
  0 ≤ since → recordings_ok first → since_ok since first → later first mid → later mid last →
  (∀ name, cell (of_name name) (rc_stats mid) = default 0 (versions !! name)) →
  (∀ t name, touches_cell t (of_name name) ↔ named t = Some name) →
  lists_changes include module
    (if bool_decide (module ∈ normalize_modules include) then Some (changed_named_component_targets_since versions since) else None)
    named (published_since since first) (begun_since since last).
Proof.
  intros Hpos Hok Hs H1 H2 Hcell Hnamed. unfold lists_changes. rewrite module_included. case_bool_decide; [|done].
  eexists. split; [done|].
  assert (∀ name, name ∈ changed_named_component_targets_since versions since ↔ since < cell (of_name name) (rc_stats mid)) as Hlisted.
  { intros name. rewrite changed_targets_spec, Hcell. split; [by intros (v & -> & Hv)|].
    destruct (versions !! name) as [v|]; cbn; [by exists v|lia]. }
  split.
  - intros t name Hp Hn. apply Hlisted. apply (cell_read _ _ _ _ _ Hok Hs H1 H2). exists t. split; [done|by apply Hnamed].
  - intros name Hin%Hlisted. apply (cell_read _ _ _ _ _ Hok Hs H1 H2) in Hin as (t & Hb & Hn). exists t. split; [done|by apply Hnamed].
Qed.

(** C26.  What a snapshot delta reports is exact, whatever the order in which
    any number of recordings make their writes, between the loads of the
    observer too.  To an observer that read the version when no recording was
    under way, a later delta reports, of the modules it asks for and of the
    listeners, virtual hosts, routes, upstreams and cache zones, everything that
    a recording changed that has published since, and nothing that no recording
    has touched since; the version is the number of recordings that have taken
    one.  (When the observer last looked while one was under way, its change can
    be lost to it: [late_insert_is_not_reported].) *)
Theorem snapshot_delta_is_exact (config : ConfigSnapshot) (events : list StatsEvent)
    (seen first last : Recordings) (read : Versions) (include : option (list SnapshotModule)) (window : option Z) :
  later (started events (build_stats config)) seen → none_under_way seen →
  later seen first → later first last → read_between first last read →
  let since := st_version (rc_stats seen) in
  let delta := snapshot_delta_since since include window read in
  let published := published_since since first in
  let begun := begun_since since last in
  since = Z.of_nat (versions_taken seen) ∧
  sd_current_snapshot_version delta = Z.of_nat (versions_taken first) ∧
  (∀ m, if bool_decide (m ∈ default ALL_MODULES include) then
          ∃ changed, sd_changed delta m = Some changed ∧
            ((∃ t, published t ∧ m ∈ tc_modules t) → changed = true) ∧
            (changed = true → ∃ t, begun t ∧ m ∈ tc_modules t)
        else sd_changed delta m = None) ∧
  lists_changes include ModTraffic (sd_changed_listener_ids delta) tc_listener published begun ∧
  lists_changes include ModTraffic (sd_changed_vhost_ids delta) tc_vhost published begun ∧
  lists_changes include ModTraffic (sd_changed_route_ids delta) tc_route published begun ∧
  lists_changes include ModPeerHealth (sd_changed_peer_health_upstream_names delta) tc_peer_health published begun ∧
  lists_changes include ModUpstreams (sd_changed_upstream_names delta) tc_upstream published begun ∧
  lists_changes include ModCache (sd_changed_cache_zone_names delta) tc_cache published begun.
Proof.
  intros H0 Hq H1 H2 Hr since delta published begun.
  destruct (started_ok config events) as [Hok Htaken].
  pose proof (later_ok _ _ H0 Hok) as Hseen. pose proof (quiet_since _ Hseen Hq) as Hs. fold since in Hs.
  pose proof (later_taken _ _ H0 Htaken) as Hcount.
  pose proof (later_ok _ _ H1 Hseen) as Hfirst. pose proof (later_since _ _ _ H1 Hseen Hs) as Hsf.
  pose proof (ro_version _ Hseen) as Hpos.
  destruct Hr as [Hversion Hcomponent (ct & Hct1 & Hct2 & Hl & Hh & Hro) (cu & Hcu1 & Hcu2 & Hu) (cp & Hcp1 & Hcp2 & Hp) (cz & Hcz1 & Hcz2 & Hz)].
  split; [exact Hcount|]. split; [cbn; rewrite Hversion; by apply (later_taken seen)|]. split.
  { intros m. unfold delta, snapshot_delta_since. cbv zeta. cbn [sd_changed]. rewrite module_included. case_bool_decide; [|done]. eexists. split; [done|].
    destruct (Hcomponent m) as (c & Hc1 & Hc2 & ->). rewrite Z.ltb_lt. exact (cell_read since first c last (CComponent m) Hfirst Hsf Hc1 Hc2). }
  unfold delta, snapshot_delta_since. cbv zeta.
  cbn [sd_changed_listener_ids sd_changed_vhost_ids sd_changed_route_ids sd_changed_peer_health_upstream_names
       sd_changed_upstream_names sd_changed_cache_zone_names].
  rewrite Hl, Hh, Hro, Hu, Hp, Hz.
  split; [|split; [|split; [|split; [|split]]]].
  - by apply (listed_changes since first last ct include ModTraffic _ tc_listener CListener).
  - by apply (listed_changes since first last ct include ModTraffic _ tc_vhost CVhost).
  - by apply (listed_changes since first last ct include ModTraffic _ tc_route CRoute).
  - by apply (listed_changes since first last cp include ModPeerHealth _ tc_peer_health CPeerHealth).
  - by apply (listed_changes since first last cu include ModUpstreams _ tc_upstream CUpstream).
  - by apply (listed_changes since first last cz include ModCache _ tc_cache CCacheZone).
Qed.
End Delta.

(** ** Two recordings and an observer *)

Lemma schedule_later schedule c : later c (run_schedule schedule c).
Proof.
  revert c. induction schedule as [|i schedule IH]; intros c; [apply rtc_refl|].
  eapply rtc_l; [by exists i|apply IH].
Qed.

Definition published (r : Recording) : bool := match r with RecWriting _ _ (_ :: _) => false | _ => true end.

Lemma none_under_way_check c : forallb published (rc_threads c) = true → none_under_way c.
Proof.
  intros H t version rest Hin%list_elem_of_In. rewrite forallb_forall in H. specialize (H _ Hin). by destruct rest.
Qed.

#[local] Existing Instance RefRegex.api.
#[local] Existing Instance RefIpNet.api.
#[local] Existing Instance RefHttp.api.

Definition sample_config : ConfigSnapshot :=
  mkSnapshot (mkRuntimeSettings 10000 None 1) None [] [] (mkVirtualHost "server" [] [] None) [] ∅ ∅.
Definition sample_events : list StatsEvent :=
  [CacheZoneChanged "a"; CacheZoneChanged "b"; DownstreamRequest "l" "server" None 0].

(** The first recording is over; the second publishes while the third goes on,
    and the observer reads the version before the third has published. *)
Definition sample_seen : Recordings := run_schedule [0; 0; 0; 0; 0]%nat (started sample_events (build_stats sample_config)).
Definition sample_first : Recordings := run_schedule [1; 2; 1; 2; 1; 1; 2; 1]%nat sample_seen.
Definition sample_last : Recordings := run_schedule [2; 2]%nat sample_first.
Definition sample_read : Versions :=
  let v := versions_of (rc_stats sample_last) in
  mkVersions (st_version (rc_stats sample_first)) (vs_components v) (vs_listeners v) (vs_vhosts v) (vs_routes v)
    (vs_upstreams v) (vs_peer_health v) (vs_cache v).

Lemma sample_reads : read_between sample_first sample_last sample_read.
Proof. split; [done|intros m|..]; exists sample_last; by (split; [apply schedule_later|split; [apply rtc_refl|]]). Qed.

Lemma snapshot_delta_is_exact_witness :
  ∃ listed, sd_changed_cache_zone_names (snapshot_delta_since 1 None None sample_read) = Some listed ∧
    "b"%string ∈ listed ∧ ∀ name, name ∈ listed → ∃ t, begun_since 1 sample_last t ∧ tc_cache t = Some name.
Proof.
  destruct (snapshot_delta_is_exact sample_config sample_events sample_seen sample_first sample_last sample_read None None
    (schedule_later _ _) (none_under_way_check sample_seen eq_refl) (schedule_later _ _) (schedule_later _ _) sample_reads)
    as (_ & _ & _ & _ & _ & _ & _ & _ & listed & Hl & Hin & Hfrom).
  exists listed. split; [exact Hl|]. split; [|exact Hfrom].
  refine (Hin (mkTouch [ModStatus; ModCache] None None None None None (Some "b"%string)) _ _ eq_refl).
  exists 2. split; [|by vm_compute]. apply list_elem_of_lookup. exists 1%nat. by vm_compute.
Defined.
