(* ===== verification/Lifecycle.v ===== *)
(** * The state of the server: listeners, connections, reloads

    Models [crates/rginx-http/src/state/connections] (the guards that count the
    connections of a listener), [state/lifecycle/reload.rs], [acme.rs], what of
    [status.rs] changes state, and [current_listener] of [state/snapshot_bus.rs].

    An [Arc<AtomicUsize>] is a number into a store of counters.  A commit is cut
    into the steps that others may see.  The acceptors of rustls, the clients and
    the caches of a configuration are parameters; [None] is a panic where the
    source has [expect].  The guards of HTTP/3 connections and request streams,
    and the tasks of tunnels, are left out. *)

From S2P Require Import Prelude RustStr External ConfigBase AccessLog ServerName Upstream Tls Template CacheConfig ProxyHeader Route Listener Stats StatsRecord StatsSafety StatsDelta.

(** ** The state of the server *)

(** Source: crates/rginx-http/src/state/snapshots/reload.rs:5-8 (ReloadOutcomeSnapshot) *)
Inductive ReloadOutcome : Type := ReloadSucceeded (revision : Z) | ReloadFailed (error : string).

(** Source: crates/rginx-http/src/state/snapshots/reload.rs:11-17 (ReloadResultSnapshot) *)
Record ReloadResult : Type := mkReloadResult {
  rr_finished_at_unix_ms : Z;
  rr_outcome : ReloadOutcome;
  rr_tls_certificate_changes : list string;
  rr_active_revision : Z;
  rr_rollback_preserved_revision : option Z;
}.

(** Source: crates/rginx-http/src/state/counters/http.rs:27-32 (ReloadHistory) *)
Record ReloadHistory : Type := mkReloadHistory {
  rh_attempts_total : Z;
  rh_successes_total : Z;
  rh_failures_total : Z;
  rh_last_result : option ReloadResult;
}.

(** Source: crates/rginx-http/src/state/mod.rs:103-108 (OcspRuntimeStatusEntry) *)
Record OcspRuntimeStatusEntry : Type := mkOcspStatus {
  os_last_refresh_unix_ms : option Z;
  os_refreshes_total : Z;
  os_failures_total : Z;
  os_last_error : option string;
}.

(** Source: crates/rginx-http/src/state/mod.rs:111-117 (AcmeRuntimeStatusEntry) *)
Record AcmeRuntimeStatusEntry : Type := mkAcmeStatus {
  as_last_success_unix_ms : option Z;
  as_refreshes_total : Z;
  as_failures_total : Z;
  as_retry_after_unix_ms : option Z;
  as_last_error : option string;
}.

(** The atomics: their values by number, and the next number. *)
Record Counters : Type := mkCounters { ct_values : gmap nat Z; ct_next : nat }.

Definition count_of (c : nat) (s : Counters) : Z := default 0 (ct_values s !! c).
Definition add_count (c : nat) (n : Z) (s : Counters) : Counters :=
  mkCounters (<[c := wrap64 (count_of c s + n)]> (ct_values s)) (ct_next s).

(** [entry(id).or_insert_with(|| Arc::new(AtomicUsize::new(0)))]. *)
Definition ensure_counter (id : string) (m : gmap string nat) (s : Counters) : gmap string nat * Counters :=
  match m !! id with
  | Some _ => (m, s)
  | None => (<[id := ct_next s]> m, mkCounters (<[ct_next s := 0]> (ct_values s)) (S (ct_next s)))
  end.

Section Lifecycle.
Context {RX : RegexApi} {NET : IpNetApi} {HTTP : HttpApi}.
(** What [build_tls_acceptor] gives, and building the clients and the caches. *)
Context (Acceptor : Type) (build_tls_acceptor : ConfigSnapshot → Listener → result Error (option Acceptor))
        (build_clients_and_cache : ConfigSnapshot → result Error ()).

(** Of [ActiveState] the revision and the configuration. *)
(** Source: crates/rginx-http/src/state/mod.rs:76-100 (SharedState) *)
Record SharedState : Type := mkShared {
  ss_revision : Z;
  ss_config : ConfigSnapshot;
  ss_listener_tls_acceptors : gmap string (option Acceptor);
  ss_listener_active_connections : gmap string nat;
  ss_counters : Counters;
  ss_active_connections : Z;
  ss_retired_listeners : gmap string Listener;
  ss_stats : StatsState;
  ss_reload_history : ReloadHistory;
  ss_acme_statuses : gmap string AcmeRuntimeStatusEntry;
  ss_ocsp_statuses : gmap string OcspRuntimeStatusEntry;
}.

Definition with_revision (revision : Z) (config : ConfigSnapshot) (s : SharedState) : SharedState :=
  mkShared revision config (ss_listener_tls_acceptors s) (ss_listener_active_connections s) (ss_counters s)
    (ss_active_connections s) (ss_retired_listeners s) (ss_stats s) (ss_reload_history s) (ss_acme_statuses s) (ss_ocsp_statuses s).
Definition with_acceptors (acceptors : gmap string (option Acceptor)) (s : SharedState) : SharedState :=
  mkShared (ss_revision s) (ss_config s) acceptors (ss_listener_active_connections s) (ss_counters s)
    (ss_active_connections s) (ss_retired_listeners s) (ss_stats s) (ss_reload_history s) (ss_acme_statuses s) (ss_ocsp_statuses s).
Definition with_connections (m : gmap string nat) (counters : Counters) (total : Z) (s : SharedState) : SharedState :=
  mkShared (ss_revision s) (ss_config s) (ss_listener_tls_acceptors s) m counters total (ss_retired_listeners s) (ss_stats s)
    (ss_reload_history s) (ss_acme_statuses s) (ss_ocsp_statuses s).
Definition with_retired (retired : gmap string Listener) (s : SharedState) : SharedState :=
  mkShared (ss_revision s) (ss_config s) (ss_listener_tls_acceptors s) (ss_listener_active_connections s) (ss_counters s)
    (ss_active_connections s) retired (ss_stats s) (ss_reload_history s) (ss_acme_statuses s) (ss_ocsp_statuses s).
Definition with_stats (f : StatsState → StatsState) (s : SharedState) : SharedState :=
  mkShared (ss_revision s) (ss_config s) (ss_listener_tls_acceptors s) (ss_listener_active_connections s) (ss_counters s)
    (ss_active_connections s) (ss_retired_listeners s) (f (ss_stats s)) (ss_reload_history s) (ss_acme_statuses s) (ss_ocsp_statuses s).
Definition with_history (history : ReloadHistory) (s : SharedState) : SharedState :=
  mkShared (ss_revision s) (ss_config s) (ss_listener_tls_acceptors s) (ss_listener_active_connections s) (ss_counters s)
    (ss_active_connections s) (ss_retired_listeners s) (ss_stats s) history (ss_acme_statuses s) (ss_ocsp_statuses s).
Definition with_acme_statuses (statuses : gmap string AcmeRuntimeStatusEntry) (s : SharedState) : SharedState :=
  mkShared (ss_revision s) (ss_config s) (ss_listener_tls_acceptors s) (ss_listener_active_connections s) (ss_counters s)
    (ss_active_connections s) (ss_retired_listeners s) (ss_stats s) (ss_reload_history s) statuses (ss_ocsp_statuses s).
Definition with_ocsp_statuses (statuses : gmap string OcspRuntimeStatusEntry) (s : SharedState) : SharedState :=
  mkShared (ss_revision s) (ss_config s) (ss_listener_tls_acceptors s) (ss_listener_active_connections s) (ss_counters s)
    (ss_active_connections s) (ss_retired_listeners s) (ss_stats s) (ss_reload_history s) (ss_acme_statuses s) statuses.

(** [mark_snapshot_changed_components(true, false, false, false, false)]. *)
Definition status_changed (s : SharedState) : SharedState :=
  with_stats (λ st, (mark_snapshot_changed_components true false false false false st).2) s.

(** ** Listeners *)

(** Source: crates/rginx-http/src/state/snapshot_bus.rs:20-30 (SharedState::current_listener) *)
Definition current_listener (s : SharedState) (listener_id : string) : option Listener :=
  match config_listener (ss_config s) listener_id with
  | Some listener => Some listener
  | None => ss_retired_listeners s !! listener_id
  end.

(** Source: crates/rginx-http/src/state/lifecycle/status.rs:163-165 (SharedState::tls_acceptor) *)
Definition tls_acceptor (s : SharedState) (listener_id : string) : option Acceptor :=
  ss_listener_tls_acceptors s !! listener_id ≫= id.

(** Source: crates/rginx-http/src/state/lifecycle/status.rs:171-181 (SharedState::retire_listener_runtime) *)
Definition retire_listener_runtime (listener : Listener) (s : SharedState) : SharedState :=
  let s := with_retired (<[lst_id listener := listener]> (ss_retired_listeners s)) s in
  let '(m, counters) := ensure_counter (lst_id listener) (ss_listener_active_connections s) (ss_counters s) in
  with_connections m counters (ss_active_connections s) s.

(** Source: crates/rginx-http/src/state/lifecycle/status.rs:183-193 (SharedState::remove_retired_listener_runtime) *)
Definition remove_retired_listener_runtime (listener_id : string) (s : SharedState) : SharedState :=
  let s := with_retired (delete listener_id (ss_retired_listeners s)) s in
  let s := with_acceptors (delete listener_id (ss_listener_tls_acceptors s)) s in
  with_connections (delete listener_id (ss_listener_active_connections s)) (ss_counters s) (ss_active_connections s) s.

(** Source: crates/rginx-http/src/state/lifecycle/status.rs:195-203 (SharedState::sync_listener_active_connections) *)
Definition sync_listener_active_connections (config : ConfigSnapshot) (s : SharedState) : SharedState :=
  let '(m, counters) :=
    foldl (λ '(m, counters) listener, ensure_counter (lst_id listener) m counters)
      (ss_listener_active_connections s, ss_counters s) (cfg_listeners config) in
  with_connections m counters (ss_active_connections s) s.

(** ** Connections *)

(** The counter of the listener that a guard holds. *)
(** Source: crates/rginx-http/src/state/connections/guards.rs:3-11 (ActiveConnectionGuard) *)
Record ConnectionGuard : Type := mkGuard { gd_counter : nat; gd_listener_id : string }.

Definition take_guard (listener_id : string) (counter : nat) (s : SharedState) : ConnectionGuard * SharedState :=
  (mkGuard counter listener_id,
   with_connections (ss_listener_active_connections s) (add_count counter 1 (ss_counters s))
     (wrap64 (ss_active_connections s + 1)) s).

(** The loop compares and swaps until nothing came in between. *)
(** Source: crates/rginx-http/src/state/connections/operations/acquire.rs:11-44 (SharedState::try_acquire_connection) *)
Definition try_acquire_connection (listener_id : string) (limit : option Z) (s : SharedState)
    : option (ConnectionGuard * SharedState) :=
  counter ← ss_listener_active_connections s !! listener_id;
  if match limit with Some limit => limit <=? count_of counter (ss_counters s) | None => false end then None
  else Some (take_guard listener_id counter s).

(** What a change of the connections of a listener marks. *)
Definition connections_changed (listener_id : string) : SharedState → SharedState :=
  with_stats (traffic_changed true false (Some listener_id) None None).

(** [None]: the listener is not there, a panic. *)
(** Source: crates/rginx-http/src/state/connections/operations/acquire.rs:46-68 (SharedState::retain_connection_slot) *)
Definition retain_connection_slot (listener_id : string) (s : SharedState) : option (ConnectionGuard * SharedState) :=
  counter ← ss_listener_active_connections s !! listener_id;
  let '(guard, s) := take_guard listener_id counter s in
  Some (guard, connections_changed listener_id s).

(** Source: crates/rginx-http/src/state/connections/guards.rs:32-44 (ActiveConnectionGuard::drop) *)
Definition drop_connection_guard (guard : ConnectionGuard) (s : SharedState) : SharedState :=
  connections_changed (gd_listener_id guard)
    (with_connections (ss_listener_active_connections s) (add_count (gd_counter guard) (-1) (ss_counters s))
       (wrap64 (ss_active_connections s - 1)) s).

(** ** Reloading *)

(** [unix_ms]: the clock. *)
(** Source: crates/rginx-http/src/state/lifecycle/reload.rs:6-20 (SharedState::record_reload_success) *)
Definition record_reload_success (revision : Z) (tls_certificate_changes : list string) (unix_ms : Z) (s : SharedState)
    : SharedState :=
  let history := ss_reload_history s in
  status_changed (with_history (mkReloadHistory (rh_attempts_total history + 1) (rh_successes_total history + 1)
    (rh_failures_total history)
    (Some (mkReloadResult unix_ms (ReloadSucceeded revision) tls_certificate_changes revision None))) s).

(** Source: crates/rginx-http/src/state/lifecycle/reload.rs:22-36 (SharedState::record_reload_failure) *)
Definition record_reload_failure (error : string) (active_revision : Z) (unix_ms : Z) (s : SharedState) : SharedState :=
  let history := ss_reload_history s in
  status_changed (with_history (mkReloadHistory (rh_attempts_total history + 1) (rh_successes_total history)
    (rh_failures_total history + 1)
    (Some (mkReloadResult unix_ms (ReloadFailed error) [] active_revision (Some active_revision)))) s).

(** Source: crates/rginx-http/src/state/mod.rs:35-41 (PreparedState) *)
Record PreparedState : Type := mkPreparedState {
  ps_config : ConfigSnapshot;
  ps_listener_tls_acceptors : gmap string (option Acceptor);
  ps_retired_listeners : list Listener;
}.

(** Source: crates/rginx-http/src/state/helpers.rs:21-38 (prepare_listener_tls_acceptors) *)
Definition prepare_listener_tls_acceptors (config : ConfigSnapshot) : result Error (gmap string (option Acceptor)) :=
  foldl (λ acceptors listener,
    let? acceptors := acceptors in
    let? acceptor := build_tls_acceptor config listener in
    Ok (<[lst_id listener := acceptor]> acceptors)) (Ok ∅) (cfg_listeners config).

(** Source: crates/rginx-http/src/state/helpers.rs:1-19 (prepare_state) *)
Definition prepare_state (config : ConfigSnapshot) : result Error PreparedState :=
  let? _ := build_clients_and_cache config in
  let? acceptors := prepare_listener_tls_acceptors config in
  Ok (mkPreparedState config acceptors []).

(** Source: crates/rginx-http/src/state/lifecycle/reload.rs:73-98 (SharedState::prepare_replacement) *)
Definition prepare_replacement (config : ConfigSnapshot) (s : SharedState) : result Error PreparedState :=
  let? _ := validate_config_transition (ss_config s) config in
  let? prepared := prepare_state config in
  Ok (mkPreparedState (ps_config prepared) (ps_listener_tls_acceptors prepared)
        (List.filter (λ listener, negb (is_some (config_listener config (lst_id listener)))) (cfg_listeners (ss_config s)))).

(** The steps of a commit, each of which others may see: the listeners that go
    are retired and their acceptors kept, what is counted by listener is there
    for the new ones, the configuration changes, the acceptors change. *)
Definition commit_retired (prepared : PreparedState) (s : SharedState) : SharedState :=
  with_retired (foldl (λ m listener, <[lst_id listener := listener]> m) (ss_retired_listeners s) (ps_retired_listeners prepared)) s.

Definition merged_acceptors (prepared : PreparedState) (s : SharedState) : gmap string (option Acceptor) :=
  foldl (λ m listener,
    match ss_listener_tls_acceptors s !! lst_id listener with
    | Some acceptor => <[lst_id listener := acceptor]> m
    | None => m
    end) (ps_listener_tls_acceptors prepared) (ps_retired_listeners prepared).

(** Source: crates/rginx-http/src/state/lifecycle/acme.rs:60-70 (SharedState::sync_acme_statuses) *)
Definition sync_acme_statuses (config : ConfigSnapshot) (s : SharedState) : SharedState :=
  with_acme_statuses
    (filter (λ '(scope, _), scope ∈ map mcs_scope (cfg_managed_certificates config)) (ss_acme_statuses s)) s.

Definition commit_synced (prepared : PreparedState) (s : SharedState) : SharedState :=
  let config := ps_config prepared in
  let s := sync_listener_active_connections config s in
  let s := with_stats (λ st, sync_cache_versions config (sync_upstream_stats config (sync_peer_health_versions config
                        (sync_traffic_stats config st)))) s in
  sync_acme_statuses config s.

Definition commit_config (prepared : PreparedState) (s : SharedState) : SharedState :=
  with_revision (ss_revision s + 1) (ps_config prepared) s.

Definition commit_acceptors (previous : ConfigSnapshot) (merged : gmap string (option Acceptor)) (prepared : PreparedState)
    (s : SharedState) : SharedState :=
  let config := ps_config prepared in
  with_stats (λ st,
    let '(version, st) := mark_snapshot_changed_components_with_cache true false true true true true st in
    let st := if traffic_topology_changed previous config then mark_all_traffic_targets_changed previous config version st else st in
    let st := if upstream_topology_changed previous config then mark_all_upstream_targets_changed previous config version st
              else st in
    mark_all_cache_zones_changed previous config version st) (with_acceptors merged s).

(** All of it, without another step in between. *)
(** Source: crates/rginx-http/src/state/lifecycle/reload.rs:100-161 (SharedState::commit_prepared) *)
Definition commit_prepared (prepared : PreparedState) (s : SharedState) : SharedState :=
  let previous := ss_config s in
  let s := commit_retired prepared s in
  let merged := merged_acceptors prepared s in
  commit_acceptors previous merged prepared (commit_config prepared (commit_synced prepared s)).

(** Source: crates/rginx-http/src/state/lifecycle/reload.rs:59-62 (SharedState::replace) *)
Definition replace (config : ConfigSnapshot) (s : SharedState) : result Error SharedState :=
  let? prepared := prepare_replacement config s in
  Ok (commit_prepared prepared s).

(** The acceptors of listeners that are draining are not kept. *)
(** Source: crates/rginx-http/src/state/lifecycle/reload.rs:64-71 (SharedState::refresh_tls_acceptors_from_current_config) *)
Definition refresh_tls_acceptors_from_current_config (s : SharedState) : result Error SharedState :=
  let? acceptors := prepare_listener_tls_acceptors (ss_config s) in
  Ok (status_changed (with_acceptors acceptors s)).

(** ** Certificates *)

Definition no_acme_status : AcmeRuntimeStatusEntry := mkAcmeStatus None 0 0 None None.
Definition no_ocsp_status : OcspRuntimeStatusEntry := mkOcspStatus None 0 0 None.

(** Source: crates/rginx-http/src/state/lifecycle/acme.rs:31-41 (SharedState::record_acme_refresh_success) *)
Definition record_acme_refresh_success (scope : string) (unix_ms : Z) (s : SharedState) : SharedState :=
  let entry := default no_acme_status (ss_acme_statuses s !! scope) in
  status_changed (with_acme_statuses
    (<[scope := mkAcmeStatus (Some unix_ms) (as_refreshes_total entry + 1) (as_failures_total entry) None None]>
       (ss_acme_statuses s)) s).

(** [retry_after_ms]: when to try again; [None] without a delay or past the end
    of time. *)
(** Source: crates/rginx-http/src/state/lifecycle/acme.rs:43-58 (SharedState::record_acme_refresh_failure) *)
Definition record_acme_refresh_failure (scope error : string) (retry_after_ms : option Z) (s : SharedState) : SharedState :=
  let entry := default no_acme_status (ss_acme_statuses s !! scope) in
  status_changed (with_acme_statuses
    (<[scope := mkAcmeStatus (as_last_success_unix_ms entry) (as_refreshes_total entry) (as_failures_total entry + 1)
                  retry_after_ms (Some error)]> (ss_acme_statuses s)) s).

(** Source: crates/rginx-http/src/state/lifecycle/reload.rs:38-47 (SharedState::record_ocsp_refresh_success) *)
Definition record_ocsp_refresh_success (scope : string) (unix_ms : Z) (s : SharedState) : SharedState :=
  let entry := default no_ocsp_status (ss_ocsp_statuses s !! scope) in
  status_changed (with_ocsp_statuses
    (<[scope := mkOcspStatus (Some unix_ms) (os_refreshes_total entry + 1) (os_failures_total entry) None]>
       (ss_ocsp_statuses s)) s).

(** Source: crates/rginx-http/src/state/lifecycle/reload.rs:49-57 (SharedState::record_ocsp_refresh_failure) *)
Definition record_ocsp_refresh_failure (scope error : string) (s : SharedState) : SharedState :=
  let entry := default no_ocsp_status (ss_ocsp_statuses s !! scope) in
  status_changed (with_ocsp_statuses
    (<[scope := mkOcspStatus (os_last_refresh_unix_ms entry) (os_refreshes_total entry) (os_failures_total entry + 1)
                  (Some error)]> (ss_ocsp_statuses s)) s).
End Lifecycle.
