(* ===== verification/Runtime.v ===== *)
(** * The runtime: workers, groups of listeners and reloads

    Models [crates/rginx-runtime/src/bootstrap/listeners] (binding and activating
    the listeners a configuration adds, reconciling the groups with it, pruning
    the drained ones), [bootstrap/reload.rs] and [reload.rs] (the reload of the
    configuration), the shutdown of [bootstrap/shutdown.rs], and the loops of
    [crates/rginx-http/src/server/accept.rs] and [server/http3/accept_loop.rs],
    whose tasks they start.

    Tasks have numbers.  The supervisor, the workers, the connections, tunnels of
    upgraded connections and a refresh of the certificates take turns: an
    [Action] is what one of them does between two points at which it waits, and a
    commit is cut where others may see its state. *)

From S2P Require Import Prelude RustStr External ConfigBase AccessLog ServerName Upstream Tls Template CacheConfig ProxyHeader Route Listener Stats StatsRecord StatsSafety StatsDelta Lifecycle.

(** [error.to_string()]; the text of [http]'s error is the same for every code. *)
(** Source: crates/rginx-core/src/error.rs:4-17 (Error) *)
Definition error_to_string (e : Error) : string :=
  match e with
  | IoError message => "io error: " +:+ message
  | AddrParse message => "address parse error: " +:+ message
  | InvalidUri message => "invalid uri: " +:+ message
  | InvalidStatusCode => "invalid status code: invalid status code"
  | ConfigError message => "configuration error: " +:+ message
  | ServerError message => "server error: " +:+ message
  end%string.

Section Runtime.
Context {RX : RegexApi} {NET : IpNetApi} {HTTP : HttpApi}.
Context (Acceptor : Type) (build_tls_acceptor : ConfigSnapshot → Listener → result Error (option Acceptor))
        (build_clients_and_cache : ConfigSnapshot → result Error ()).

(** ** Tasks *)

(** A connection's task: its guard, the acceptor it was given, and whether it has
    taken its first step. *)
Record Connection : Type := mkConnection {
  cn_guard : ConnectionGuard;
  cn_tls_acceptor : option Acceptor;
  cn_started : bool;
}.

(** A task that accepts connections; [wk_shutdown] is what the group's channel
    says, and [wk_accepted] the acceptor it read for a connection it has not
    counted yet. *)
Record Worker : Type := mkWorker {
  wk_listener_id : string;
  wk_kind : ListenerTransportKind;
  wk_shutdown : bool;
  wk_accepting : bool;
  wk_accepted : option (option Acceptor);
  wk_connections : list Connection;
}.

(** [JoinHandle::is_finished]. *)
Definition worker_is_finished (w : Worker) : bool := negb (wk_accepting w) && match wk_connections w with [] => true | _ => false end.

Definition with_accepted (accepted : option (option Acceptor)) (w : Worker) : Worker :=
  mkWorker (wk_listener_id w) (wk_kind w) (wk_shutdown w) (wk_accepting w) accepted (wk_connections w).
Definition with_worker_connections (connections : list Connection) (w : Worker) : Worker :=
  mkWorker (wk_listener_id w) (wk_kind w) (wk_shutdown w) (wk_accepting w) (wk_accepted w) connections.
Definition told_to_stop (w : Worker) : Worker :=
  mkWorker (wk_listener_id w) (wk_kind w) true (wk_accepting w) (wk_accepted w) (wk_connections w).
Definition stopped (w : Worker) : Worker :=
  mkWorker (wk_listener_id w) (wk_kind w) (wk_shutdown w) false (wk_accepted w) (wk_connections w).
Definition aborted (w : Worker) : Worker :=
  mkWorker (wk_listener_id w) (wk_kind w) (wk_shutdown w) false None [].

(** ** Groups *)

(** The sockets are left out. *)
(** Source: crates/rginx-runtime/src/bootstrap/listeners/group.rs:10-17 (ListenerWorkerGroup) *)
Record ListenerWorkerGroup : Type := mkGroup { gr_listener : Listener; gr_tasks : list nat }.

(** How many sockets to accept from, and how many HTTP/3 endpoints. *)
(** Source: crates/rginx-runtime/src/bootstrap/listeners/prepare.rs:14-20 (PreparedListenerWorkerGroup) *)
Record PreparedListenerWorkerGroup : Type := mkPreparedGroup {
  pg_listener : Listener;
  pg_worker_listeners : nat;
  pg_http3_endpoints : nat;
}.

Definition group_id (g : ListenerWorkerGroup) : string := lst_id (gr_listener g).
Definition prepared_id (p : PreparedListenerWorkerGroup) : string := lst_id (pg_listener p).

(** Source: crates/rginx-runtime/src/bootstrap/listeners/group.rs:38-40 (ListenerWorkerGroup::is_finished) *)
Definition group_is_finished (tasks : list Worker) (g : ListenerWorkerGroup) : bool :=
  forallb (λ t, match tasks !! t with Some w => worker_is_finished w | None => true end) (gr_tasks g).

(** Source: crates/rginx-runtime/src/bootstrap/listeners/group.rs:28-30 (ListenerWorkerGroup::initiate_shutdown) *)
Definition initiate_shutdown (g : ListenerWorkerGroup) (tasks : list Worker) : list Worker :=
  foldl (λ tasks t, alter told_to_stop t tasks) tasks (gr_tasks g).

(** The addresses groups hold. *)
Definition group_addrs (groups : list ListenerWorkerGroup) : list (ListenerTransportKind * SocketAddr) :=
  groups ≫= λ g, map (λ b, (lb_kind b, lb_listen_addr b)) (transport_bindings (gr_listener g)).

(** [bind listener]: binding the listener's sockets and building its HTTP/3
    endpoints, with the error if that fails. *)
(** Source: crates/rginx-runtime/src/bootstrap/listeners/prepare.rs:140-169 (prepare_listener_worker_group) *)
Definition prepare_listener_worker_group (bind : Listener → result Error ()) (accept_workers : Z) (listener : Listener)
    : result Error PreparedListenerWorkerGroup :=
  let? _ := bind listener in
  Ok (mkPreparedGroup listener (Z.to_nat accept_workers)
        (if is_some (lst_http3 listener) then Z.to_nat (Z.max accept_workers 1) else 0%nat)).

(** The binding whose address another listener holds, if any. *)
Definition reused_binding (addrs : list (ListenerTransportKind * SocketAddr)) (listener : Listener)
    : option ListenerTransportBinding :=
  List.find (λ b, bool_decide ((lb_kind b, lb_listen_addr b) ∈ addrs)) (transport_bindings listener).

(** Source: crates/rginx-runtime/src/bootstrap/listeners/prepare.rs:67-138 (prepare_added_listener_bindings) *)
Fixpoint prepare_added_listener_bindings (bind : Listener → result Error ()) (accept_workers : Z)
    (active : gmap string ListenerWorkerGroup) (draining : list ListenerWorkerGroup) (next_listeners : list Listener)
    : result Error (list PreparedListenerWorkerGroup) :=
  match next_listeners with
  | [] => Ok []
  | listener :: rest =>
      if is_some (active !! lst_id listener) then prepare_added_listener_bindings bind accept_workers active draining rest
      else if existsb (λ g, str_eqb (group_id g) (lst_id listener)) draining then
        Err (ServerError fmt["listener `"; lst_name listener;
          "` cannot be re-added until the previous generation has drained"])
      else match reused_binding (group_addrs (map snd (map_to_list active)) ++ group_addrs draining) listener with
        | Some binding =>
            Err (ServerError fmt["listener `"; lst_name listener; "` reuses "; transport_as_str (lb_kind binding);
              " listen address `"; socket_to_string (lb_listen_addr binding);
              "` with a different listener identity during reload"])
        | None =>
            let? prepared := prepare_listener_worker_group bind accept_workers listener in
            let? rest := prepare_added_listener_bindings bind accept_workers active draining rest in
            Ok (prepared :: rest)
        end
  end.

Definition new_worker (listener_id : string) (kind : ListenerTransportKind) : Worker :=
  mkWorker listener_id kind false true None [].

(** Source: crates/rginx-runtime/src/bootstrap/listeners/activate.rs:22-82 (activate_prepared_listener_worker_group) *)
Definition activate_prepared_listener_worker_group (prepared : PreparedListenerWorkerGroup) (tasks : list Worker)
    : ListenerWorkerGroup * list Worker :=
  let spawned := replicate (pg_worker_listeners prepared) (new_worker (prepared_id prepared) Tcp)
                 ++ replicate (pg_http3_endpoints prepared) (new_worker (prepared_id prepared) Udp) in
  (mkGroup (pg_listener prepared) (seq (length tasks) (length spawned)), tasks ++ spawned).

(** [group.listener = next_listener.clone()]. *)
Definition with_listener (listener : Listener) (g : ListenerWorkerGroup) : ListenerWorkerGroup := mkGroup listener (gr_tasks g).

Definition activate_all (prepared : list PreparedListenerWorkerGroup) (active : gmap string ListenerWorkerGroup)
    (tasks : list Worker) : gmap string ListenerWorkerGroup * list Worker :=
  foldl (λ '(active, tasks) p,
    let '(g, tasks) := activate_prepared_listener_worker_group p tasks in (<[prepared_id p := g]> active, tasks))
    (active, tasks) prepared.

(** The groups of listeners that the configuration no longer has drain, those of
    the others follow it ([expect] holds: they are those it has), and the
    additions start. *)
(** Source: crates/rginx-runtime/src/bootstrap/listeners/reconcile.rs:11-62 (reconcile_listener_worker_groups) *)
Definition reconcile_listener_worker_groups (next_config : ConfigSnapshot) (prepared : list PreparedListenerWorkerGroup)
    (active : gmap string ListenerWorkerGroup) (draining : list ListenerWorkerGroup) (tasks : list Worker)
    (s : SharedState Acceptor)
    : gmap string ListenerWorkerGroup * list ListenerWorkerGroup * list Worker * SharedState Acceptor :=
  let next_by_id := listeners_by_id (cfg_listeners next_config) in
  let removed := map snd (map_to_list (filter (λ '(id, _), next_by_id !! id = None) active)) in
  let s := foldl (λ s g, retire_listener_runtime Acceptor (gr_listener g) s) s removed in
  let tasks := foldl (λ tasks g, initiate_shutdown g tasks) tasks removed in
  let kept := map_imap (λ id g, (λ listener, with_listener listener g) <$> next_by_id !! id) active in
  let '(active, tasks) := activate_all prepared kept tasks in
  (active, draining ++ removed, tasks, s).

(** Source: crates/rginx-runtime/src/bootstrap/listeners/reconcile.rs:64-82 (prune_draining_listener_groups) *)
Fixpoint prune_draining_listener_groups (tasks : list Worker) (draining : list ListenerWorkerGroup) (s : SharedState Acceptor)
    : list ListenerWorkerGroup * SharedState Acceptor :=
  match draining with
  | [] => ([], s)
  | g :: rest =>
      if group_is_finished tasks g then
        prune_draining_listener_groups tasks rest (remove_retired_listener_runtime Acceptor (group_id g) s)
      else
        let '(rest, s) := prune_draining_listener_groups tasks rest s in (g :: rest, s)
  end.

(** ** The reload of the supervisor *)

(** Source: crates/rginx-runtime/src/reload.rs:7-11 (PendingReload) *)
Record PendingReload : Type := mkPendingReload {
  pr_current_config : ConfigSnapshot;
  pr_current_revision : Z;
  pr_next_config : ConfigSnapshot;
}.

(** [loaded] is what [load_and_compile] gives. *)
(** Source: crates/rginx-runtime/src/reload.rs:18-37 (prepare_reload) *)
Definition prepare_reload (loaded : result Error ConfigSnapshot) (unix_ms : Z) (s : SharedState Acceptor)
    : result Error PendingReload * SharedState Acceptor :=
  let current_config := ss_config Acceptor s in
  let current_revision := ss_revision Acceptor s in
  match loaded with
  | Err error => (Err error, record_reload_failure Acceptor (error_to_string error) current_revision unix_ms s)
  | Ok next_config =>
      match validate_config_transition current_config next_config with
      | Err error => (Err error, record_reload_failure Acceptor (error_to_string error) current_revision unix_ms s)
      | Ok _ => (Ok (mkPendingReload current_config current_revision next_config), s)
      end
  end.

(** How far a reload has come: the bindings are there, the listeners that go are
    retired, their acceptors are kept, what is counted by listener is there, the
    configuration is the next one, its acceptors are installed.  [previous]: the
    configuration when the commit began. *)
Inductive Phase : Type :=
| Waiting
| Bound (pending : PendingReload) (additions : list PreparedListenerWorkerGroup)
| Retired (prepared : PreparedState Acceptor) (previous : ConfigSnapshot) (additions : list PreparedListenerWorkerGroup)
| Merged (merged : gmap string (option Acceptor)) (prepared : PreparedState Acceptor) (previous : ConfigSnapshot)
    (additions : list PreparedListenerWorkerGroup)
| Synced (merged : gmap string (option Acceptor)) (prepared : PreparedState Acceptor) (previous : ConfigSnapshot)
    (additions : list PreparedListenerWorkerGroup)
| Swapped (merged : gmap string (option Acceptor)) (prepared : PreparedState Acceptor) (previous : ConfigSnapshot)
    (additions : list PreparedListenerWorkerGroup)
| Committed (config : ConfigSnapshot) (additions : list PreparedListenerWorkerGroup)
| ShuttingDown.

(** [rt_refresh]: the acceptors a refresh has built and not installed yet;
    [rt_tunnels]: the guards that upgraded connections hold. *)
Record Runtime : Type := mkRuntime {
  rt_shared : SharedState Acceptor;
  rt_active : gmap string ListenerWorkerGroup;
  rt_draining : list ListenerWorkerGroup;
  rt_tasks : list Worker;
  rt_tunnels : list ConnectionGuard;
  rt_refresh : option (gmap string (option Acceptor));
  rt_phase : Phase;
}.

Definition with_shared (s : SharedState Acceptor) (r : Runtime) : Runtime :=
  mkRuntime s (rt_active r) (rt_draining r) (rt_tasks r) (rt_tunnels r) (rt_refresh r) (rt_phase r).
Definition with_tasks (tasks : list Worker) (r : Runtime) : Runtime :=
  mkRuntime (rt_shared r) (rt_active r) (rt_draining r) tasks (rt_tunnels r) (rt_refresh r) (rt_phase r).
Definition with_tunnels (tunnels : list ConnectionGuard) (r : Runtime) : Runtime :=
  mkRuntime (rt_shared r) (rt_active r) (rt_draining r) (rt_tasks r) tunnels (rt_refresh r) (rt_phase r).
Definition with_refresh (refresh : option (gmap string (option Acceptor))) (r : Runtime) : Runtime :=
  mkRuntime (rt_shared r) (rt_active r) (rt_draining r) (rt_tasks r) (rt_tunnels r) refresh (rt_phase r).
Definition with_phase (phase : Phase) (r : Runtime) : Runtime :=
  mkRuntime (rt_shared r) (rt_active r) (rt_draining r) (rt_tasks r) (rt_tunnels r) (rt_refresh r) phase.
Definition with_groups (active : gmap string ListenerWorkerGroup) (draining : list ListenerWorkerGroup) (r : Runtime) : Runtime :=
  mkRuntime (rt_shared r) active draining (rt_tasks r) (rt_tunnels r) (rt_refresh r) (rt_phase r).

(** The signal: [prepare_reload] and the bindings of what the configuration adds. *)
(** Source: crates/rginx-runtime/src/bootstrap/reload.rs:13-60 (handle_reload_signal) *)
Definition begin_reload (loaded : result Error ConfigSnapshot) (bind : Listener → result Error ()) (unix_ms : Z) (r : Runtime)
    : Runtime :=
  match prepare_reload loaded unix_ms (rt_shared r) with
  | (Err _, s) => with_shared s r
  | (Ok pending, s) =>
      let next := pr_next_config pending in
      match prepare_added_listener_bindings bind (run_accept_workers (cfg_runtime next)) (rt_active r) (rt_draining r)
              (cfg_listeners next) with
      | Ok additions => with_phase (Bound pending additions) (with_shared s r)
      | Err error =>
          with_shared (record_reload_failure Acceptor (error_to_string error) (pr_current_revision pending) unix_ms s) r
      end
  end.

(** The next piece of a reload: [commit_reload], which is [SharedState::replace]
    and its record, and then [reconcile_listener_worker_groups].  [changes]:
    [describe_tls_certificate_changes]. *)
(** Source: crates/rginx-runtime/src/reload.rs:39-54 (commit_reload) *)
Definition continue_reload (changes : list string) (unix_ms : Z) (r : Runtime) : option Runtime :=
  let s := rt_shared r in
  match rt_phase r with
  | Bound pending additions =>
      match prepare_replacement Acceptor build_tls_acceptor build_clients_and_cache (pr_next_config pending) s with
      | Err error =>
          Some (with_phase Waiting (with_shared
            (record_reload_failure Acceptor (error_to_string error) (pr_current_revision pending) unix_ms s) r))
      | Ok prepared =>
          Some (with_phase (Retired prepared (ss_config Acceptor s) additions)
                  (with_shared (commit_retired Acceptor prepared s) r))
      end
  | Retired prepared previous additions =>
      Some (with_phase (Merged (merged_acceptors Acceptor prepared s) prepared previous additions) r)
  | Merged merged prepared previous additions =>
      Some (with_phase (Synced merged prepared previous additions) (with_shared (commit_synced Acceptor prepared s) r))
  | Synced merged prepared previous additions =>
      Some (with_phase (Swapped merged prepared previous additions) (with_shared (commit_config Acceptor prepared s) r))
  | Swapped merged prepared previous additions =>
      Some (with_phase (Committed (ps_config Acceptor prepared) additions)
              (with_shared (commit_acceptors Acceptor previous merged prepared s) r))
  | Committed config additions =>
      let s := record_reload_success Acceptor (ss_revision Acceptor s) changes unix_ms s in
      let '(active, draining, tasks, s) :=
        reconcile_listener_worker_groups config additions (rt_active r) (rt_draining r) (rt_tasks r) s in
      Some (with_phase Waiting (with_groups active draining (with_tasks tasks (with_shared s r))))
  | Waiting | ShuttingDown => None
  end.

(** ** Workers and connections *)

(** What a step gives: a state, or nothing when the task cannot take it, or a
    panic of the task. *)
Inductive Outcome : Type := Moved (r : Runtime) | Stuck | Panicked.

Definition with_task (t : nat) (w : Worker) (r : Runtime) : Runtime := with_tasks (<[t := w]> (rt_tasks r)) r.

(** A connection comes in.  Over TCP the loop reads the acceptor first. *)
(** Source: crates/rginx-http/src/server/accept.rs:42-50 (serve, accepting) *)
Definition worker_accepts (t : nat) (r : Runtime) : Outcome :=
  match rt_tasks r !! t with
  | Some w =>
      if wk_accepting w && negb (is_some (wk_accepted w)) then
        Moved (with_task t (with_accepted (Some (match wk_kind w with
                                                 | Tcp => tls_acceptor Acceptor (rt_shared r) (wk_listener_id w)
                                                 | Udp => None
                                                 end)) w) r)
      else Stuck
  | None => Stuck
  end.

(** Then it finds its listener, and takes a slot for the connection or rejects it. *)
(** Source: crates/rginx-http/src/server/accept.rs:51-71 (serve, admitting) *)
Definition worker_admits (w : Worker) (acceptor : option Acceptor) (listener : Listener) (s : SharedState Acceptor)
    : Worker * SharedState Acceptor :=
  let id := wk_listener_id w in
  let w := with_accepted None w in
  match try_acquire_connection Acceptor id (srv_max_connections (lst_server listener)) s with
  | None => (w, with_stats Acceptor (record_connection_rejected id) s)
  | Some (guard, s) =>
      (with_worker_connections (wk_connections w ++ [mkConnection guard acceptor false]) w,
       with_stats Acceptor (record_connection_accepted id) s)
  end.

(** [may_retry]: the client's address is not validated and a retry is possible;
    [retry_failed]: sending it fails. *)
(** Source: crates/rginx-http/src/server/http3/accept_loop.rs:38-88 (serve_http3, admitting) *)
Definition worker_serves (t : nat) (may_retry retry_failed : bool) (r : Runtime) : Outcome :=
  match rt_tasks r !! t with
  | Some w =>
      match wk_accepted w with
      | Some acceptor =>
          let id := wk_listener_id w in
          match current_listener Acceptor (rt_shared r) id with
          | None => Panicked
          | Some listener =>
              if bool_decide (wk_kind w = Udp) && match lst_http3 listener with Some http3 => h3_retry http3 | None => false end
                 && may_retry then
                let s := with_stats Acceptor (record_http3_retry_issued id) (rt_shared r) in
                let s := if retry_failed then with_stats Acceptor (record_http3_retry_failed id) s else s in
                Moved (with_shared s (with_task t (with_accepted None w) r))
              else
                let '(w, s) := worker_admits w acceptor listener (rt_shared r) in
                Moved (with_shared s (with_task t w r))
          end
      | None => Stuck
      end
  | None => Stuck
  end.

(** The loop sees that the group shuts down, and stops. *)
(** Source: crates/rginx-http/src/server/accept.rs:23-41 (serve, stopping) *)
Definition worker_stops (t : nat) (r : Runtime) : Outcome :=
  match rt_tasks r !! t with
  | Some w =>
      if wk_shutdown w && wk_accepting w && negb (is_some (wk_accepted w)) then Moved (with_task t (stopped w) r) else Stuck
  | None => Stuck
  end.

Definition drop_guards (guards : list ConnectionGuard) (s : SharedState Acceptor) : SharedState Acceptor :=
  foldl (λ s guard, drop_connection_guard Acceptor guard s) s guards.

(** [accepted?] fails, or the task is aborted: its connections go with it. *)
Definition worker_aborts (t : nat) (r : Runtime) : Outcome :=
  match rt_tasks r !! t with
  | Some w => Moved (with_shared (drop_guards (map cn_guard (wk_connections w)) (rt_shared r)) (with_task t (aborted w) r))
  | None => Stuck
  end.

(** What a connection does with its state: it finds its listener first. *)
(** Source: crates/rginx-http/src/server/connection.rs:35-38 (serve_connection, start) *)
Definition connection_starts (t c : nat) (r : Runtime) : Outcome :=
  match rt_tasks r !! t with
  | Some w =>
      match wk_connections w !! c with
      | Some cn =>
          if cn_started cn then Stuck
          else match current_listener Acceptor (rt_shared r) (wk_listener_id w) with
            | None => Panicked
            | Some _ =>
                Moved (with_task t (with_worker_connections
                  (<[c := mkConnection (cn_guard cn) (cn_tls_acceptor cn) true]> (wk_connections w)) w) r)
            end
      | None => Stuck
      end
  | None => Stuck
  end.

Definition connection_ends (t c : nat) (r : Runtime) : Outcome :=
  match rt_tasks r !! t with
  | Some w =>
      match wk_connections w !! c with
      | Some cn =>
          Moved (with_shared (drop_connection_guard Acceptor (cn_guard cn) (rt_shared r))
                   (with_task t (with_worker_connections (delete c (wk_connections w)) w) r))
      | None => Stuck
      end
  | None => Stuck
  end.

(** A request on the connection is upgraded: the tunnel takes a slot of its own. *)
Definition connection_upgrades (t c : nat) (r : Runtime) : Outcome :=
  match rt_tasks r !! t with
  | Some w =>
      match wk_connections w !! c with
      | Some cn =>
          if cn_started cn then
            match retain_connection_slot Acceptor (wk_listener_id w) (rt_shared r) with
            | None => Panicked
            | Some (guard, s) => Moved (with_shared s (with_tunnels (rt_tunnels r ++ [guard]) r))
            end
          else Stuck
      | None => Stuck
      end
  | None => Stuck
  end.

Definition tunnel_ends (n : nat) (r : Runtime) : Outcome :=
  match rt_tunnels r !! n with
  | Some guard =>
      Moved (with_shared (drop_connection_guard Acceptor guard (rt_shared r)) (with_tunnels (delete n (rt_tunnels r)) r))
  | None => Stuck
  end.

(** ** Shutting down *)

(** Source: crates/rginx-runtime/src/bootstrap/listeners/drain.rs:3-9 (initiate_shutdown_for_groups) *)
Definition initiate_shutdown_for_groups (groups : list ListenerWorkerGroup) (tasks : list Worker) : list Worker :=
  foldl (λ tasks g, initiate_shutdown g tasks) tasks groups.

Definition begin_shutdown (r : Runtime) : Runtime :=
  with_phase ShuttingDown (with_tasks
    (initiate_shutdown_for_groups (rt_draining r) (initiate_shutdown_for_groups (map snd (map_to_list (rt_active r))) (rt_tasks r))) r).

(** When every task of every group has ended: the groups go, and what is kept
    for the draining ones. *)
(** Source: crates/rginx-runtime/src/bootstrap/listeners/join.rs:5-23 (join_listener_worker_groups) *)
Definition join_listener_worker_groups (r : Runtime) : Outcome :=
  match rt_phase r with
  | ShuttingDown =>
      if forallb (group_is_finished (rt_tasks r)) (map snd (map_to_list (rt_active r)) ++ rt_draining r) then
        Moved (with_shared (foldl (λ s g, remove_retired_listener_runtime Acceptor (group_id g) s) (rt_shared r) (rt_draining r))
                 (with_groups ∅ [] r))
      else Stuck
  | _ => Stuck
  end.

(** ** Steps *)

Inductive Action : Type :=
| Reload (loaded : result Error ConfigSnapshot) (bind : Listener → result Error ()) (unix_ms : Z)
| ContinueReload (changes : list string) (unix_ms : Z)
| Prune
| Shutdown
| Join
| RefreshBuilds
| RefreshInstalls
| WorkerAccepts (t : nat)
| WorkerServes (t : nat) (may_retry retry_failed : bool)
| WorkerStops (t : nat)
| WorkerAborts (t : nat)
| ConnectionStarts (t c : nat)
| ConnectionEnds (t c : nat)
| ConnectionUpgrades (t c : nat)
| TunnelEnds (n : nat).

(** One step.  The supervisor takes a signal and prunes between two reloads; a
    refresh builds the acceptors of the configuration there is, and installs them
    some time later. *)
Definition step (a : Action) (r : Runtime) : Outcome :=
  match a with
  | Reload loaded bind unix_ms => match rt_phase r with Waiting => Moved (begin_reload loaded bind unix_ms r) | _ => Stuck end
  | ContinueReload changes unix_ms => match continue_reload changes unix_ms r with Some r => Moved r | None => Stuck end
  | Prune =>
      match rt_phase r with
      | Waiting =>
          let '(draining, s) := prune_draining_listener_groups (rt_tasks r) (rt_draining r) (rt_shared r) in
          Moved (with_groups (rt_active r) draining (with_shared s r))
      | _ => Stuck
      end
  | Shutdown => match rt_phase r with Waiting => Moved (begin_shutdown r) | _ => Stuck end
  | Join => join_listener_worker_groups r
  | RefreshBuilds =>
      match prepare_listener_tls_acceptors Acceptor build_tls_acceptor (ss_config Acceptor (rt_shared r)) with
      | Ok acceptors => Moved (with_refresh (Some acceptors) r)
      | Err _ => Moved r
      end
  | RefreshInstalls =>
      match rt_refresh r with
      | Some acceptors =>
          Moved (with_shared (status_changed Acceptor (with_acceptors Acceptor acceptors (rt_shared r))) (with_refresh None r))
      | None => Stuck
      end
  | WorkerAccepts t => worker_accepts t r
  | WorkerServes t may_retry retry_failed => worker_serves t may_retry retry_failed r
  | WorkerStops t => worker_stops t r
  | WorkerAborts t => worker_aborts t r
  | ConnectionStarts t c => connection_starts t c r
  | ConnectionEnds t c => connection_ends t c r
  | ConnectionUpgrades t c => connection_upgrades t c r
  | TunnelEnds n => tunnel_ends n r
  end.

(** Steps that cannot be taken are passed over. *)
Fixpoint run (actions : list Action) (r : Runtime) : option Runtime :=
  match actions with
  | [] => Some r
  | a :: actions => match step a r with Moved r => run actions r | Stuck => run actions r | Panicked => None end
  end.

(** ** Start *)

Definition no_reloads : ReloadHistory := mkReloadHistory 0 0 0 None.

(** Source: crates/rginx-http/src/state/mod.rs:128-206 (SharedState::from_parts) *)
Definition from_parts (config : ConfigSnapshot) : result Error (SharedState Acceptor) :=
  let? prepared := prepare_state Acceptor build_tls_acceptor build_clients_and_cache config in
  Ok (sync_listener_active_connections Acceptor config
        (mkShared Acceptor 0 config (ps_listener_tls_acceptors Acceptor prepared) ∅ (mkCounters ∅ 0) 0 ∅ (build_stats config)
           no_reloads ∅ ∅)).

(** The sockets may be inherited. *)
(** Source: crates/rginx-runtime/src/bootstrap/listeners/prepare.rs:22-65 (build_initial_listener_groups) *)
Definition build_initial_listener_groups (bind : Listener → result Error ()) (config : ConfigSnapshot)
    : result Error (gmap string ListenerWorkerGroup * list Worker) :=
  foldl (λ acc listener,
    let? acc := acc in
    let? prepared := prepare_listener_worker_group bind (run_accept_workers (cfg_runtime config)) listener in
    Ok (activate_all [prepared] acc.1 acc.2)) (Ok (∅, [])) (cfg_listeners config).

(** Source: crates/rginx-runtime/src/bootstrap/mod.rs:26-35 (run, start) *)
Definition start (bind : Listener → result Error ()) (config : ConfigSnapshot) : result Error Runtime :=
  let? shared := from_parts config in
  let? groups := build_initial_listener_groups bind config in
  Ok (mkRuntime shared groups.1 [] groups.2 [] None Waiting).
End Runtime.

Arguments Waiting {RX NET HTTP Acceptor}.
Arguments ShuttingDown {RX NET HTTP Acceptor}.
Arguments Bound {RX NET HTTP Acceptor}.
Arguments Retired {RX NET HTTP Acceptor}.
Arguments Merged {RX NET HTTP Acceptor}.
Arguments Synced {RX NET HTTP Acceptor}.
Arguments Swapped {RX NET HTTP Acceptor}.
Arguments Committed {RX NET HTTP Acceptor}.
Arguments Moved {RX NET HTTP Acceptor}.
Arguments Stuck {RX NET HTTP Acceptor}.
Arguments Panicked {RX NET HTTP Acceptor}.
