(* ===== verification/RuntimeSafety.v ===== *)
(** * The listeners of running tasks, and the counts of connections

    What holds in every state the runtime reaches, whatever way the supervisor,
    the workers, the connections and the refreshes of certificates are
    interleaved: a task never misses its listener or its counter, so that no
    [expect] fails, and what is counted is what there is. *)

From S2P Require Import Prelude RustStr External ConfigBase AccessLog ServerName Upstream Tls Template CacheConfig ProxyHeader Route Listener Stats StatsRecord StatsSafety StatsDelta Lifecycle Runtime.

Section RuntimeSafety.
Context {RX : RegexApi} {NET : IpNetApi} {HTTP : HttpApi}.
Context (Acceptor : Type) (build_tls_acceptor : ConfigSnapshot → Listener → result Error (option Acceptor))
        (build_clients_and_cache : ConfigSnapshot → result Error ()).
Local Notation Runtime := (Runtime Acceptor).
Local Notation Worker := (Worker Acceptor).
Local Notation SharedState := (SharedState Acceptor).
Implicit Types (r : Runtime) (s : SharedState) (w : Worker) (tasks : list Worker) (g : ListenerWorkerGroup)
  (active : gmap string ListenerWorkerGroup) (draining : list ListenerWorkerGroup).

(** ** Groups and their tasks *)

Definition is_group active draining g : Prop := (∃ id, active !! id = Some g) ∨ g ∈ draining.

Record groups_ok active draining tasks : Prop := {
  go_active : ∀ id g, active !! id = Some g → group_id g = id;
  go_draining : NoDup (map group_id draining);
  go_disjoint : ∀ g, g ∈ draining → active !! group_id g = None;
  go_tasks : ∀ g t, is_group active draining g → t ∈ gr_tasks g → ∃ w, tasks !! t = Some w ∧ wk_listener_id _ w = group_id g;
  go_owned : ∀ t w, tasks !! t = Some w → worker_is_finished _ w = false → ∃ g, is_group active draining g ∧ t ∈ gr_tasks g;
  go_accepting : ∀ t w, tasks !! t = Some w → wk_accepted _ w ≠ None → wk_accepting _ w = true;
}.

(** How a task may change: it keeps its listener and does not start again. *)
Definition follows w w' : Prop :=
  wk_listener_id _ w' = wk_listener_id _ w ∧
  (worker_is_finished _ w = true → worker_is_finished _ w' = true) ∧
  ((wk_accepted _ w ≠ None → wk_accepting _ w = true) → wk_accepted _ w' ≠ None → wk_accepting _ w' = true).

#[local] Instance follows_preorder : PreOrder follows.
Proof. split; [intros w; unfold follows; tauto|]. intros a b c (Hi & Hf & Ha) (Hi' & Hf' & Ha'). unfold follows. rewrite Hi'. tauto. Qed.

Lemma follows_all_refl tasks : Forall2 follows tasks tasks.
Proof. induction tasks; constructor; done. Qed.

Lemma follows_insert tasks t w w' : tasks !! t = Some w → follows w w' → Forall2 follows tasks (<[t := w']> tasks).
Proof.
  intros Ht Hf. pose proof (lookup_lt_Some _ _ _ Ht) as Hlt.
  rewrite <- (list_insert_id tasks t w Ht) at 1. apply Forall2_insert; [apply follows_all_refl|done].
Qed.

Lemma told_to_stop_follows w : follows w (told_to_stop _ w).
Proof. by destruct w. Qed.

Lemma alter_follows t tasks : Forall2 follows tasks (alter (told_to_stop _) t tasks).
Proof.
  revert t. induction tasks as [|w tasks IH]; intros [|t]; constructor; first [done|apply IH].
Qed.

Lemma initiate_shutdown_follows g tasks : Forall2 follows tasks (initiate_shutdown _ g tasks).
Proof.
  unfold initiate_shutdown. generalize (gr_tasks g). intros l. revert tasks.
  induction l as [|t l IH]; intros tasks; simpl; [apply follows_all_refl|]. etrans; [apply alter_follows|apply IH].
Qed.

Lemma shutdown_all_follows groups tasks :
  Forall2 follows tasks (foldl (λ tasks g, initiate_shutdown _ g tasks) tasks groups).
Proof.
  revert tasks. induction groups as [|g groups IH]; intros tasks; simpl; [apply follows_all_refl|].
  etrans; [apply initiate_shutdown_follows|apply IH].
Qed.

Lemma groups_ok_follows active draining tasks tasks' :
  groups_ok active draining tasks → Forall2 follows tasks tasks' → groups_ok active draining tasks'.
Proof.
  intros H Hf. destruct H as [Ha Hd Hj Ht Ho Hi]. split; [done..| | |].
  - intros g t Hg Hin. destruct (Ht g t Hg Hin) as (w & Hw & Hid).
    destruct (Forall2_lookup_l _ _ _ _ _ Hf Hw) as (w' & Hw' & Hfw & _). exists w'. by rewrite Hfw.
  - intros t w' Hw' Hu. destruct (Forall2_lookup_r _ _ _ _ _ Hf Hw') as (w & Hw & _ & Hfin & _).
    apply (Ho t w Hw). destruct (worker_is_finished _ w); [|done]. rewrite Hfin in Hu; done.
  - intros t w' Hw' Hacc. destruct (Forall2_lookup_r _ _ _ _ _ Hf Hw') as (w & Hw & _ & _ & Hidle).
    apply Hidle; [by apply (Hi t)|done].
Qed.

(** *** Activating *)

Lemma spawned_lookup p t w :
  (replicate (pg_worker_listeners p) (new_worker Acceptor (prepared_id p) Tcp)
   ++ replicate (pg_http3_endpoints p) (new_worker Acceptor (prepared_id p) Udp)) !! t = Some w →
  wk_listener_id _ w = prepared_id p ∧ wk_accepted _ w = None.
Proof.
  intros [H|[_ H]]%lookup_app_Some; apply lookup_replicate in H as [-> _]; done.
Qed.

Lemma groups_ok_activate active draining tasks p :
  groups_ok active draining tasks → active !! prepared_id p = None →
  (∀ g, g ∈ draining → group_id g ≠ prepared_id p) →
  let '(g, tasks') := activate_prepared_listener_worker_group _ p tasks in
  groups_ok (<[prepared_id p := g]> active) draining tasks'.
Proof.
  intros [Ha Hd Hj Ht Ho Hi] Hnew Hdr. unfold activate_prepared_listener_worker_group.
  set (spawned := replicate _ _ ++ replicate _ _).
  assert (Hsp : ∀ t w, spawned !! t = Some w → wk_listener_id _ w = prepared_id p ∧ wk_accepted _ w = None)
    by (intros; by eapply spawned_lookup).
  clearbody spawned. set (g := mkGroup _ _). simpl. split; simpl.
  - intros id g'. destruct (decide (id = prepared_id p)) as [->|?]; [rewrite lookup_insert_eq; by intros [= <-]|].
    rewrite lookup_insert_ne by done. apply Ha.
  - done.
  - intros g' Hg'. rewrite lookup_insert_ne; [by apply Hj|]. intros Heq. by apply (Hdr g').
  - intros g' t Hg' Hin.
    assert (g' = g ∨ is_group active draining g') as [->|Hold].
    { destruct Hg' as [[id Hid]|Hg']; [|by right; right].
      destruct (decide (id = prepared_id p)) as [->|?]; [rewrite lookup_insert_eq in Hid; left; congruence|].
      rewrite lookup_insert_ne in Hid by done. right. left. by exists id. }
    + simpl in Hin. apply elem_of_seq in Hin as [Hle Hlt].
      destruct (lookup_lt_is_Some_2 spawned (t - length tasks)) as [w Hw]; [lia|].
      exists w. rewrite lookup_app_r by lia. split; [done|]. by apply Hsp in Hw as [-> _].
    + destruct (Ht g' t Hold Hin) as (w & Hw & Hid). exists w. split; [by apply lookup_app_l_Some|done].
  - intros t w [Hw|[Hle Hw]]%lookup_app_Some Hu.
    + destruct (Ho t w Hw Hu) as (g' & Hg' & Hin). exists g'. split; [|done].
      destruct Hg' as [[id Hid]|Hg']; [left|by right]. exists id. rewrite lookup_insert_ne; [done|]. intros <-. congruence.
    + exists g. split; [left; exists (prepared_id p); by rewrite lookup_insert_eq|].
      simpl. apply elem_of_seq. apply lookup_lt_Some in Hw. lia.
  - intros t w [Hw|[Hle Hw]]%lookup_app_Some Hacc; [by apply (Hi t w)|]. apply Hsp in Hw as [_ Hw]. done.
Qed.

(** What a reload adds: listeners of the configuration that no group has. *)
Definition additions_ok (next : ConfigSnapshot) active draining (additions : list PreparedListenerWorkerGroup) : Prop :=
  NoDup (map prepared_id additions) ∧
  ∀ p, p ∈ additions → pg_listener p ∈ cfg_listeners next ∧ active !! prepared_id p = None ∧
    ∀ g, g ∈ draining → group_id g ≠ prepared_id p.

Lemma groups_ok_activate_all additions active draining tasks :
  groups_ok active draining tasks → NoDup (map prepared_id additions) →
  (∀ p, p ∈ additions → active !! prepared_id p = None ∧ ∀ g, g ∈ draining → group_id g ≠ prepared_id p) →
  let '(active', tasks') := activate_all _ additions active tasks in
  groups_ok active' draining tasks' ∧
  ∀ id, is_Some (active' !! id) ↔ is_Some (active !! id) ∨ id ∈ map prepared_id additions.
Proof.
  revert active tasks. induction additions as [|p additions IH]; intros active tasks Hok Hn Hadd.
  { simpl. split; [done|]. intros id. rewrite list_elem_of_In. simpl. tauto. }
  simpl in Hn. apply NoDup_cons in Hn as [Hp Hn].
  destruct (Hadd p) as [Hnew Hdr]; [by left|].
  pose proof (groups_ok_activate active draining tasks p Hok Hnew Hdr) as Hact.
  change (activate_all Acceptor (p :: additions) active tasks) with
    (activate_all Acceptor additions (<[prepared_id p := (activate_prepared_listener_worker_group Acceptor p tasks).1]> active)
       (activate_prepared_listener_worker_group Acceptor p tasks).2).
  destruct (activate_prepared_listener_worker_group _ p tasks) as [g tasks1]. cbn [fst snd].
  assert (Hrest : ∀ q, q ∈ additions → <[prepared_id p := g]> active !! prepared_id q = None ∧
            ∀ g', g' ∈ draining → group_id g' ≠ prepared_id q).
  { intros q Hq. destruct (Hadd q) as [Hq1 Hq2]; [by right|]. split; [|done].
    rewrite lookup_insert_ne; [done|]. intros Heq. apply Hp. rewrite Heq. by apply list_elem_of_fmap_2. }
  specialize (IH (<[prepared_id p := g]> active) tasks1 Hact Hn Hrest).
  destruct (activate_all _ additions _ _) as [active' tasks']. destruct IH as [Hok' Hdom].
  split; [done|]. intros id. rewrite Hdom. simpl. rewrite elem_of_cons.
  destruct (decide (id = prepared_id p)) as [->|?]; [rewrite lookup_insert_eq; split; [tauto|left; by eexists]|].
  rewrite lookup_insert_ne by done. tauto.
Qed.

(** *** Reconciling and pruning *)

Definition removed_groups (next : ConfigSnapshot) active : list ListenerWorkerGroup :=
  map snd (map_to_list (filter (λ '(id, _), listeners_by_id (cfg_listeners next) !! id = None) active)).

Definition kept_groups (next : ConfigSnapshot) active : gmap string ListenerWorkerGroup :=
  map_imap (λ id g, (λ listener, with_listener listener g) <$> listeners_by_id (cfg_listeners next) !! id) active.

Lemma removed_group next active g :
  g ∈ removed_groups next active ↔ ∃ id, active !! id = Some g ∧ listeners_by_id (cfg_listeners next) !! id = None.
Proof.
  unfold removed_groups. rewrite list_elem_of_fmap. split.
  - intros ([id g'] & -> & Hin%elem_of_map_to_list). apply map_lookup_filter_Some in Hin as [? ?]. by exists id.
  - intros (id & Ha & Hn). exists (id, g). split; [done|]. by apply elem_of_map_to_list, map_lookup_filter_Some.
Qed.

Lemma removed_ids next active draining tasks :
  groups_ok active draining tasks → NoDup (map group_id (removed_groups next active)).
Proof.
  intros [Ha _ _ _ _ _]. unfold removed_groups.
  assert (Heq : ∀ l : list (string * ListenerWorkerGroup), (∀ x, x ∈ l → group_id x.2 = x.1) →
            map group_id (map snd l) = map fst l).
  { induction l as [|x l IH]; intros Hl; [done|]. simpl. rewrite (Hl x) by (by left). f_equal.
    apply IH. intros y Hy. apply Hl. by right. }
  rewrite Heq; [apply NoDup_fst_map_to_list|].
  intros [id g] [Hin _]%elem_of_map_to_list%map_lookup_filter_Some. by apply Ha.
Qed.

Lemma kept_lookup next active id g' :
  kept_groups next active !! id = Some g' ↔
  ∃ g l, active !! id = Some g ∧ listeners_by_id (cfg_listeners next) !! id = Some l ∧ g' = with_listener l g.
Proof.
  unfold kept_groups. rewrite map_lookup_imap. destruct (active !! id) as [g|]; simpl; [|split; [done|by intros (?&?&?&?)]].
  destruct (listeners_by_id _ !! id) as [l|]; simpl.
  - split; [intros [= <-]; eauto|by intros (?&?&[= <-]&[= <-]&->)].
  - split; [done|by intros (?&?&?&?&?)].
Qed.

(** The groups after a reconciliation are those before, some of them moved. *)
Lemma reconciled_group next active draining tasks :
  groups_ok active draining tasks →
  (∀ g', is_group (kept_groups next active) (draining ++ removed_groups next active) g' →
     ∃ g, is_group active draining g ∧ gr_tasks g' = gr_tasks g ∧ group_id g' = group_id g) ∧
  (∀ g, is_group active draining g →
     ∃ g', is_group (kept_groups next active) (draining ++ removed_groups next active) g' ∧ gr_tasks g' = gr_tasks g).
Proof.
  intros [Ha _ _ _ _ _]. split.
  - intros g' [[id (g & l & Hg & Hl & ->)%kept_lookup]|[Hin|(id & Hg & _)%removed_group]%elem_of_app].
    + exists g. split; [left; by exists id|]. split; [done|]. rewrite (Ha _ _ Hg).
      by apply listeners_by_id_lookup in Hl as [_ <-].
    + exists g'. split; [by right|done].
    + exists g'. split; [left; by exists id|done].
  - intros g [[id Hg]|Hin].
    + destruct (listeners_by_id (cfg_listeners next) !! id) as [l|] eqn:Hl.
      * exists (with_listener l g). split; [|done]. left. exists id. apply kept_lookup. eauto.
      * exists g. split; [|done]. right. apply elem_of_app. right. apply removed_group. eauto.
    + exists g. split; [|done]. right. apply elem_of_app. by left.
Qed.

Lemma groups_ok_reconcile next active draining tasks :
  groups_ok active draining tasks → groups_ok (kept_groups next active) (draining ++ removed_groups next active) tasks.
Proof.
  intros H. destruct (reconciled_group next _ _ _ H) as [Hback Hforth].
  pose proof (removed_ids next _ _ _ H) as Hr. destruct H as [Ha Hd Hj Ht Ho Hi]. split; [..|done].
  - intros id g' (g & l & _ & Hl & ->)%kept_lookup. by apply listeners_by_id_lookup in Hl as [_ <-].
  - rewrite map_app. apply NoDup_app. split; [done|]. split; [|done].
    intros id (g & -> & Hg)%list_elem_of_fmap (g' & Heq & (id' & Hg' & _)%removed_group)%list_elem_of_fmap.
    pose proof (Ha _ _ Hg') as Hid. pose proof (Hj _ Hg) as Hnone. congruence.
  - intros g [Hg|(id & Hg & Hn)%removed_group]%elem_of_app; apply eq_None_not_Some; intros [g' (g0 & l & Hg0 & Hl & _)%kept_lookup].
    + rewrite (Hj _ Hg) in Hg0. done.
    + rewrite (Ha _ _ Hg) in Hl. congruence.
  - intros g' t Hg' Hin. destruct (Hback g' Hg') as (g & Hg & Htk & Hid). rewrite Hid. apply Ht; [done|by rewrite <- Htk].
  - intros t w Hw Hu. destruct (Ho t w Hw Hu) as (g & Hg & Hin). destruct (Hforth g Hg) as (g' & Hg' & Htk).
    exists g'. by rewrite Htk.
Qed.

Definition unfinished tasks draining : list ListenerWorkerGroup := List.filter (λ g, negb (group_is_finished _ tasks g)) draining.
Definition finished tasks draining : list ListenerWorkerGroup := List.filter (group_is_finished _ tasks) draining.

Definition remove_all (groups : list ListenerWorkerGroup) s : SharedState :=
  foldl (λ s g, remove_retired_listener_runtime Acceptor (group_id g) s) s groups.

Lemma prune_spec tasks draining s :
  prune_draining_listener_groups _ tasks draining s = (unfinished tasks draining, remove_all (finished tasks draining) s).
Proof.
  revert s. unfold unfinished, finished. induction draining as [|g draining IH]; intros s; simpl; [done|].
  destruct (group_is_finished _ tasks g); simpl; [apply IH|]. by rewrite IH.
Qed.

Lemma in_unfinished tasks draining g :
  g ∈ unfinished tasks draining ↔ g ∈ draining ∧ group_is_finished _ tasks g = false.
Proof. unfold unfinished. rewrite !list_elem_of_In, filter_In, negb_true_iff. done. Qed.

Lemma in_finished tasks draining g : g ∈ finished tasks draining ↔ g ∈ draining ∧ group_is_finished _ tasks g = true.
Proof. unfold finished. rewrite !list_elem_of_In, filter_In. done. Qed.

Lemma unfinished_task tasks g t w :
  tasks !! t = Some w → worker_is_finished _ w = false → t ∈ gr_tasks g → group_is_finished _ tasks g = false.
Proof.
  intros Hw Hu Hin. apply not_true_is_false. unfold group_is_finished. rewrite forallb_forall. intros H.
  specialize (H t ltac:(by apply list_elem_of_In)). rewrite Hw in H. congruence.
Qed.

Lemma groups_ok_prune active draining tasks :
  groups_ok active draining tasks → groups_ok active (unfinished tasks draining) tasks.
Proof.
  intros [Ha Hd Hj Ht Ho Hi].
  assert (Hsub : ∀ g, is_group active (unfinished tasks draining) g → is_group active draining g).
  { intros g [?|[? _]%in_unfinished]; [by left|by right]. }
  split; [done|..|done].
  - clear -Hd. unfold unfinished. induction draining as [|g draining IH]; simpl in *; [done|].
    apply NoDup_cons in Hd as [Hg Hd]. destruct (negb _); simpl; [|by apply IH]. apply NoDup_cons. split; [|by apply IH].
    intros (g' & Heq & [Hin _]%list_elem_of_In%filter_In)%list_elem_of_fmap. apply Hg. rewrite Heq.
    apply list_elem_of_fmap_2. by apply list_elem_of_In.
  - intros g [Hg _]%in_unfinished. by apply Hj.
  - intros g t Hg Hin. apply Ht; [by apply Hsub|done].
  - intros t w Hw Hu. destruct (Ho t w Hw Hu) as (g & Hg & Hin). exists g. split; [|done].
    destruct Hg as [?|?]; [by left|]. right. apply in_unfinished. split; [done|]. by eapply unfinished_task.
Qed.

(** ** Tables by listener *)

Definition has (config : ConfigSnapshot) (id : string) : Prop := is_Some (config_listener config id).
Definition listed s id : Prop := has (ss_config _ s) id.
Definition retired s id : Prop := is_Some (ss_retired_listeners _ s !! id).
Definition counted s id : Prop := is_Some (ss_listener_active_connections _ s !! id).

Definition same_tables s s' : Prop :=
  ss_config _ s' = ss_config _ s ∧ ss_retired_listeners _ s' = ss_retired_listeners _ s ∧
  ss_listener_active_connections _ s' = ss_listener_active_connections _ s.

Lemma same_tables_trans s1 s2 s3 : same_tables s1 s2 → same_tables s2 s3 → same_tables s1 s3.
Proof. intros (?&?&?) (?&?&?). unfold same_tables. split_and!; congruence. Qed.

Lemma has_in config l : l ∈ cfg_listeners config → has config (lst_id l).
Proof.
  intros Hl. unfold has. destruct (config_listener config (lst_id l)) as [l'|] eqn:Hc; [by eexists|].
  by destruct (proj1 (config_listener_None _ _) Hc l Hl).
Qed.

Lemma has_by_id config id : has config id ↔ is_Some (listeners_by_id (cfg_listeners config) !! id).
Proof.
  split; intros [l Hl].
  - apply config_listener_Some in Hl as [Hl <-]. by apply listeners_by_id_Some.
  - apply listeners_by_id_lookup in Hl as [Hl <-]. by apply has_in.
Qed.

Lemma current_listener_available s id : listed s id ∨ retired s id ↔ is_Some (current_listener _ s id).
Proof.
  unfold current_listener, listed, has, retired. destruct (config_listener _ id); simpl; [|by naive_solver].
  split; [by eexists|]. intros _. left. by eexists.
Qed.

Lemma ensure_counter_lookup id m c id' :
  is_Some ((ensure_counter id m c).1 !! id') ↔ is_Some (m !! id') ∨ id' = id.
Proof.
  unfold ensure_counter. destruct (m !! id) as [n|] eqn:Hm; simpl.
  - split; [by left|]. intros [?| ->]; [done|]. by eexists.
  - destruct (decide (id' = id)) as [->|?]; [rewrite lookup_insert_eq; split; [by right|by eexists]|].
    rewrite lookup_insert_ne by done. tauto.
Qed.

Lemma sync_counted config s id :
  counted (sync_listener_active_connections _ config s) id ↔ counted s id ∨ has config id.
Proof.
  assert (Hfold : ∀ l m c,
    is_Some ((foldl (λ '(m, counters) listener, ensure_counter (lst_id listener) m counters) (m, c) l).1 !! id) ↔
    is_Some (m !! id) ∨ id ∈ map lst_id l).
  { induction l as [|x l IH]; intros m c; simpl; [rewrite list_elem_of_In; simpl; tauto|].
    pose proof (ensure_counter_lookup (lst_id x) m c id) as He. destruct (ensure_counter _ m c) as [m' c']. simpl in He.
    rewrite IH, He, elem_of_cons. tauto. }
  unfold counted, sync_listener_active_connections. specialize (Hfold (cfg_listeners config) (ss_listener_active_connections _ s)
    (ss_counters _ s)). destruct (foldl _ _ _) as [m c]. simpl in *. rewrite Hfold.
  apply or_iff_compat_l. rewrite list_elem_of_fmap. split; [intros (l & -> & Hl); by apply has_in|].
  intros [l [Hl <-]%config_listener_Some]. by exists l.
Qed.

Lemma sync_same config s :
  ss_config _ (sync_listener_active_connections Acceptor config s) = ss_config _ s ∧
  ss_retired_listeners _ (sync_listener_active_connections Acceptor config s) = ss_retired_listeners _ s.
Proof. unfold sync_listener_active_connections. by destruct (foldl _ _ _). Qed.

Lemma retire_tables l s :
  ss_config _ (retire_listener_runtime Acceptor l s) = ss_config _ s ∧
  (∀ id, retired (retire_listener_runtime _ l s) id ↔ retired s id ∨ id = lst_id l) ∧
  (∀ id, counted (retire_listener_runtime _ l s) id ↔ counted s id ∨ id = lst_id l).
Proof.
  unfold retire_listener_runtime, retired, counted. simpl.
  pose proof (ensure_counter_lookup (lst_id l) (ss_listener_active_connections _ s) (ss_counters _ s)) as He.
  destruct (ensure_counter _ _ _) as [m c]. simpl in *. split_and!; [done| |done].
  intros id. destruct (decide (id = lst_id l)) as [->|?]; [rewrite lookup_insert_eq; split; [by right|by eexists]|].
  rewrite lookup_insert_ne by done. tauto.
Qed.

Lemma retire_all_tables groups s :
  let s' := foldl (λ s g, retire_listener_runtime Acceptor (gr_listener g) s) s groups in
  ss_config _ s' = ss_config _ s ∧
  (∀ id, retired s' id ↔ retired s id ∨ id ∈ map group_id groups) ∧
  (∀ id, counted s' id ↔ counted s id ∨ id ∈ map group_id groups).
Proof.
  revert s. induction groups as [|g groups IH]; intros s; simpl.
  { split_and!; [done|..]; intros id; rewrite list_elem_of_In; simpl; tauto. }
  destruct (retire_tables (gr_listener g) s) as (Hc & Hr & Hn). destruct (IH (retire_listener_runtime _ (gr_listener g) s)) as (Hc' & Hr' & Hn').
  split_and!; [congruence|..]; intros id; rewrite elem_of_cons; [rewrite Hr', Hr|rewrite Hn', Hn]; unfold group_id; tauto.
Qed.

Lemma remove_all_tables groups s :
  ss_config _ (remove_all groups s) = ss_config _ s ∧
  (∀ id, id ∉ map group_id groups → retired s id → retired (remove_all groups s) id) ∧
  (∀ id, id ∉ map group_id groups → counted s id → counted (remove_all groups s) id).
Proof.
  unfold remove_all. revert s. induction groups as [|g groups IH]; intros s; simpl; [done|].
  destruct (IH (remove_retired_listener_runtime _ (group_id g) s)) as (Hc & Hr & Hn). split_and!; [done|..];
    intros id [Hne Hni]%not_elem_of_cons H; [apply Hr|apply Hn]; try done; unfold retired, counted; simpl; by rewrite lookup_delete_ne by done.
Qed.

(** ** The state of a reload *)

Definition phase_ok s active draining (phase : Phase Acceptor) : Prop :=
  match phase with
  | Waiting | ShuttingDown => ∀ id, is_Some (active !! id) → listed s id
  | Bound pending additions =>
      (∀ id, is_Some (active !! id) → listed s id) ∧ additions_ok (pr_next_config pending) active draining additions
  | Retired prepared _ additions | Merged _ prepared _ additions =>
      (∀ id, listed s id → has (ps_config _ prepared) id ∨ retired s id) ∧
      additions_ok (ps_config _ prepared) active draining additions
  | Synced _ prepared _ additions =>
      (∀ id, listed s id → has (ps_config _ prepared) id ∨ retired s id) ∧
      (∀ id, has (ps_config _ prepared) id → counted s id) ∧ additions_ok (ps_config _ prepared) active draining additions
  | Swapped _ prepared _ additions =>
      ss_config _ s = ps_config _ prepared ∧ (∀ id, listed s id → counted s id) ∧
      additions_ok (ps_config _ prepared) active draining additions
  | Committed config additions =>
      ss_config _ s = config ∧ (∀ id, listed s id → counted s id) ∧ additions_ok config active draining additions
  end.

Record runtime_ok r : Prop := {
  ro_groups : groups_ok (rt_active _ r) (rt_draining _ r) (rt_tasks _ r);
  ro_active : ∀ id, is_Some (rt_active _ r !! id) →
    (listed (rt_shared _ r) id ∨ retired (rt_shared _ r) id) ∧ counted (rt_shared _ r) id;
  ro_draining : ∀ g, g ∈ rt_draining _ r → retired (rt_shared _ r) (group_id g) ∧ counted (rt_shared _ r) (group_id g);
  ro_phase : phase_ok (rt_shared _ r) (rt_active _ r) (rt_draining _ r) (rt_phase _ r);
}.

Lemma phase_ok_same s s' active draining phase : same_tables s s' → phase_ok s active draining phase → phase_ok s' active draining phase.
Proof.
  intros (Hc & Hr & Hn). unfold phase_ok, listed, retired, counted. rewrite Hc, Hr, Hn. done.
Qed.

(** Steps of tasks. *)
Lemma runtime_ok_frame r r' :
  runtime_ok r → same_tables (rt_shared _ r) (rt_shared _ r') → rt_active _ r' = rt_active _ r →
  rt_draining _ r' = rt_draining _ r → rt_phase _ r' = rt_phase _ r → Forall2 follows (rt_tasks _ r) (rt_tasks _ r') → runtime_ok r'.
Proof.
  intros [Hg Ha Hd Hp] Hs Hact Hdr Hph Hf. pose proof Hs as (Hc & Hr & Hn).
  split; rewrite ?Hact, ?Hdr, ?Hph.
  - by eapply groups_ok_follows.
  - unfold listed, retired, counted in *. rewrite Hc, Hr, Hn. done.
  - unfold listed, retired, counted in *. rewrite Hr, Hn. done.
  - by apply (phase_ok_same _ _ _ _ _ Hs).
Qed.

(** A task that runs has its listener and its counter. *)
Lemma running_task r t w :
  runtime_ok r → rt_tasks _ r !! t = Some w → worker_is_finished _ w = false →
  is_Some (current_listener _ (rt_shared _ r) (wk_listener_id _ w)) ∧ counted (rt_shared _ r) (wk_listener_id _ w).
Proof.
  intros [[Ha Hd Hj Ht Ho Hi] Hact Hdr _] Hw Hu. destruct (Ho t w Hw Hu) as (g & Hg & Hin).
  destruct (Ht g t Hg Hin) as (w' & Hw' & Hid). assert (w' = w) as -> by congruence. rewrite Hid.
  destruct Hg as [[id Hg]|Hg].
  - rewrite (Ha _ _ Hg). destruct (Hact id ltac:(by eexists)) as [Hav Hc]. split; [by apply current_listener_available|done].
  - destruct (Hdr g Hg) as [Hr Hc]. split; [apply current_listener_available; by right|done].
Qed.

(** ** Every step keeps it *)

(** The configurations that are loaded name every listener once. *)
Definition distinct_listeners (config : ConfigSnapshot) : Prop := NoDup (map lst_id (cfg_listeners config)).
Definition action_ok (a : Action) : Prop :=
  match a with Reload (Ok config) _ _ => distinct_listeners config | _ => True end.

Lemma prepared_additions bind accept_workers active draining listeners additions :
  NoDup (map lst_id listeners) →
  prepare_added_listener_bindings bind accept_workers active draining listeners = Ok additions →
  NoDup (map prepared_id additions) ∧
  ∀ p, p ∈ additions → pg_listener p ∈ listeners ∧ active !! prepared_id p = None ∧ ∀ g, g ∈ draining → group_id g ≠ prepared_id p.
Proof.
  revert additions. induction listeners as [|l listeners IH]; intros additions Hn; simpl.
  { intros [= <-]. split; [constructor|]. by intros p ?%not_elem_of_nil. }
  simpl in Hn. apply NoDup_cons in Hn as [Hl Hn].
  destruct (is_some (active !! lst_id l)) eqn:Hact.
  { intros [Hnd Hin]%IH; [|done]. split; [done|]. intros p Hp. destruct (Hin p Hp). split; [by right|done]. }
  destruct (existsb _ draining) eqn:Hdr; [done|]. destruct (reused_binding _ l); [done|].
  unfold prepare_listener_worker_group. destruct (bind l) as [[]|]; simpl; [|done].
  destruct (prepare_added_listener_bindings _ _ _ _ listeners) as [rest|] eqn:Hrest; simpl; [|done]. intros [= <-].
  destruct (IH rest Hn eq_refl) as [Hnd Hin]. split.
  - simpl. apply NoDup_cons. split; [|done]. intros (p & Heq & Hp)%list_elem_of_fmap. destruct (Hin p Hp) as [Hpl _].
    apply Hl. unfold prepared_id in Heq. simpl in Heq. rewrite Heq. by apply list_elem_of_fmap_2.
  - intros p [->|Hp]%elem_of_cons; [|destruct (Hin p Hp); split; [by right|done]]. unfold prepared_id. simpl.
    split; [by left|]. split; [by destruct (active !! lst_id l)|]. intros g Hg Heq.
    apply not_true_iff_false in Hdr. apply Hdr, existsb_exists. exists g. split; [by apply list_elem_of_In|]. by apply str_eqb_true.
Qed.

Lemma begin_reload_ok loaded bind ms r :
  rt_phase _ r = Waiting → (∀ config, loaded = Ok config → distinct_listeners config) → runtime_ok r →
  runtime_ok (begin_reload _ loaded bind ms r).
Proof.
  intros Hw Hd Hok. unfold begin_reload, prepare_reload.
  assert (Hfail : ∀ error revision, runtime_ok (with_shared _ (record_reload_failure _ error revision ms (rt_shared _ r)) r)).
  { intros. by apply (runtime_ok_frame r). }
  destruct loaded as [next|error]; [|apply Hfail]. destruct (validate_config_transition _ next) as [[]|error]; simpl; [|apply Hfail].
  destruct (prepare_added_listener_bindings _ _ _ _ _) as [additions|error] eqn:Hadd; [|apply Hfail].
  apply prepared_additions in Hadd; [|by apply (Hd next)].
  destruct Hok as [Hg Ha Hdr Hp]. rewrite Hw in Hp. by split.
Qed.

Lemma commit_retired_lookup prepared s id :
  retired (commit_retired Acceptor prepared s) id ↔ retired s id ∨ id ∈ map lst_id (ps_retired_listeners _ prepared).
Proof.
  unfold retired, commit_retired. simpl. generalize (ss_retired_listeners _ s).
  induction (ps_retired_listeners _ prepared) as [|l ls IH]; intros m; simpl; [rewrite list_elem_of_In; simpl; tauto|].
  rewrite IH, elem_of_cons. destruct (decide (id = lst_id l)) as [->|?]; [rewrite lookup_insert_eq|rewrite lookup_insert_ne by done; tauto].
  split; [tauto|left; by eexists].
Qed.

Lemma replacement_retires next s prepared :
  prepare_replacement _ build_tls_acceptor build_clients_and_cache next s = Ok prepared →
  ps_config _ prepared = next ∧
  ∀ id, listed s id → has next id ∨ id ∈ map lst_id (ps_retired_listeners _ prepared).
Proof.
  unfold prepare_replacement. destruct (validate_config_transition _ _); simpl; [|done].
  unfold prepare_state. destruct (build_clients_and_cache next); simpl; [|done].
  destruct (prepare_listener_tls_acceptors _ _ next); simpl; [|done]. intros [= <-]. simpl. split; [done|].
  intros id [l Hl]. destruct (config_listener next id) as [l'|] eqn:Hn; [left; by eexists|right].
  apply config_listener_Some in Hl as [Hl <-]. apply list_elem_of_fmap_2.
  rewrite list_elem_of_In, filter_In, <- list_elem_of_In. split; [done|]. by rewrite Hn.
Qed.

Lemma reconcile_ok config additions changes ms r :
  rt_phase _ r = Committed config additions → runtime_ok r → ∀ r', continue_reload _ build_tls_acceptor build_clients_and_cache changes ms r = Some r' →
  runtime_ok r'.
Proof.
  intros Hph [Hg Ha Hd Hp] r'. rewrite Hph in Hp. destruct Hp as (Hc & Hn & [Hnd Hadd]).
  unfold continue_reload. rewrite Hph. unfold reconcile_listener_worker_groups.
  set (s1 := record_reload_success _ _ _ _ _). assert (Hs1 : same_tables (rt_shared _ r) s1) by done. clearbody s1.
  fold (removed_groups config (rt_active _ r)). fold (kept_groups config (rt_active _ r)).
  destruct (retire_all_tables (removed_groups config (rt_active _ r)) s1) as (Hc2 & Hr2 & Hn2).
  set (s2 := foldl _ s1 _) in *. clearbody s2.
  pose proof (groups_ok_reconcile config _ _ _ Hg) as Hg'.
  pose proof (groups_ok_follows _ _ _ _ Hg' (shutdown_all_follows (removed_groups config (rt_active _ r)) (rt_tasks _ r))) as Hg2.
  set (tasks2 := foldl _ (rt_tasks _ r) _) in *. clearbody tasks2. clear Hg'.
  assert (Hrem : ∀ id, id ∈ map group_id (removed_groups config (rt_active _ r)) →
            is_Some (rt_active _ r !! id) ∧ ¬ has config id).
  { intros id (g & -> & (id' & Hid & Hno)%removed_group)%list_elem_of_fmap. rewrite (go_active _ _ _ Hg _ _ Hid).
    split; [by eexists|]. rewrite has_by_id, Hno. by intros [? ?]. }
  assert (Hfresh : ∀ p, p ∈ additions → kept_groups config (rt_active _ r) !! prepared_id p = None ∧
            ∀ g, g ∈ rt_draining _ r ++ removed_groups config (rt_active _ r) → group_id g ≠ prepared_id p).
  { intros p Hp. destruct (Hadd p Hp) as (Hin & Hnone & Hdr). split.
    - apply eq_None_not_Some. intros [g (g0 & l & Hg0 & _)%kept_lookup]. congruence.
    - intros g [Hgd|Hgr]%elem_of_app; [by apply Hdr|]. intros Heq.
      destruct (Hrem (group_id g)) as [[? Hs] _]; [by apply list_elem_of_fmap_2|]. rewrite Heq in Hs. congruence. }
  pose proof (groups_ok_activate_all additions _ _ _ Hg2 Hnd Hfresh) as Hall.
  destruct (activate_all _ additions _ tasks2) as [active' tasks']. destruct Hall as [Hg3 Hdom]. intros [= <-].
  destruct Hs1 as (Hs1c & Hs1r & Hs1n).
  assert (Hact : ∀ id, is_Some (active' !! id) → has config id).
  { intros id [[g (g0 & l & _ & Hl & _)%kept_lookup]|(p & -> & Hp)%list_elem_of_fmap]%Hdom.
    - apply has_by_id. by eexists.
    - apply has_in. by apply Hadd. }
  assert (Hlisted : ∀ id, has config id → listed s2 id) by (intros id; unfold listed; rewrite Hc2, Hs1c, Hc; done).
  split; simpl; [done|..].
  - intros id Hid%Hact. split; [left; by apply Hlisted|]. apply Hn2. left. unfold counted. rewrite Hs1n. apply Hn.
    unfold listed. by rewrite Hc.
  - intros g [Hgd|Hgr]%elem_of_app; rewrite Hr2, Hn2; unfold retired, counted; rewrite Hs1r, Hs1n.
    + destruct (Hd g Hgd). split; by left.
    + split; right; by apply list_elem_of_fmap_2.
  - intros id Hid. by apply Hlisted, Hact.
Qed.

Lemma continue_reload_ok changes ms r r' :
  runtime_ok r → continue_reload _ build_tls_acceptor build_clients_and_cache changes ms r = Some r' → runtime_ok r'.
Proof.
  intros Hok. destruct (rt_phase _ r) as [|pending additions|prepared previous additions|merged prepared previous additions
    |merged prepared previous additions|merged prepared previous additions|config additions|] eqn:Hph;
    [..|intros H; by eapply (reconcile_ok config additions)|]; unfold continue_reload; rewrite Hph; try done;
    pose proof Hok as [Hg Ha Hd Hp]; rewrite Hph in Hp.
  - destruct (prepare_replacement _ _ _ _ _) as [prepared|error] eqn:Hprep; intros [= <-].
    + apply replacement_retires in Hprep as [Hcfg Hret]. destruct Hp as [Hact Hadd].
      split; simpl; [done|..].
      * intros id Hid. destruct (Ha id Hid) as [[?|?] ?]; (split; [|done]); [by left|right; apply commit_retired_lookup; by left].
      * intros g Hgr. destruct (Hd g Hgr). split; [apply commit_retired_lookup; by left|done].
      * rewrite Hcfg. split; [|done]. intros id Hid. rewrite commit_retired_lookup. destruct (Hret id Hid); tauto.
    + destruct Hp as [Hact _]. by split.
  - intros [= <-]. by split.
  - intros [= <-]. destruct Hp as [Hret Hadd].
    set (s := rt_shared _ r) in *.
    destruct (sync_same (ps_config _ prepared) s) as [Hc Hr]. pose proof (sync_counted (ps_config _ prepared) s) as Hn.
    assert (Hsame : same_tables (sync_listener_active_connections _ (ps_config _ prepared) s) (commit_synced _ prepared s)) by done.
    destruct Hsame as (Hc' & Hr' & Hn').
    split; simpl; [done|..]; unfold listed, retired, counted in *; rewrite ?Hc', ?Hr', ?Hn', ?Hc, ?Hr.
    * intros id Hid. destruct (Ha id Hid) as [Hav Hcn]. split; [done|]. apply Hn. by left.
    * intros g Hgr. destruct (Hd g Hgr) as [Hrt Hcn]. split; [done|]. apply Hn. by left.
    * split_and!; [done| |done]. intros id Hid. apply Hn. by right.
  - intros [= <-]. destruct Hp as (Hret & Hcn & Hadd). split; simpl; [done|..]; unfold listed, retired, counted in *; simpl.
    + intros id Hid. destruct (Ha id Hid) as [[Hl|Hr] Hc]; (split; [|done]); [by apply Hret|by right].
    + done.
    + split_and!; done.
  - intros [= <-]. destruct Hp as (Hc & Hcn & Hadd).
    assert (Hsame : same_tables (rt_shared _ r) (commit_acceptors Acceptor previous merged prepared (rt_shared _ r))) by done.
    destruct Hsame as (Hc' & Hr' & Hn'). split; simpl; [done|..]; unfold listed, retired, counted in *; rewrite ?Hc', ?Hr', ?Hn'; [done..|].
    split_and!; done.
Qed.

Lemma prune_ok r :
  rt_phase _ r = Waiting → runtime_ok r →
  let '(draining, s) := prune_draining_listener_groups _ (rt_tasks _ r) (rt_draining _ r) (rt_shared _ r) in
  runtime_ok (with_groups _ (rt_active _ r) draining (with_shared _ s r)).
Proof.
  intros Hph [Hg Ha Hd Hp]. rewrite prune_spec. rewrite Hph in Hp.
  destruct (remove_all_tables (finished (rt_tasks _ r) (rt_draining _ r)) (rt_shared _ r)) as (Hc & Hr & Hn).
  assert (Hne : ∀ id, is_Some (rt_active _ r !! id) → id ∉ map group_id (finished (rt_tasks _ r) (rt_draining _ r))).
  { intros id [g0 Hid] (g & -> & [Hin _]%in_finished)%list_elem_of_fmap. rewrite (go_disjoint _ _ _ Hg g Hin) in Hid. done. }
  split; simpl; [by apply groups_ok_prune|..].
  - intros id Hid. destruct (Ha id Hid) as [_ Hcn]. split; [|by apply Hn; [apply Hne|]].
    left. unfold listed. rewrite Hc. by apply Hp.
  - intros g [Hin Hu]%in_unfinished. destruct (Hd g Hin) as [Hrt Hcn].
    assert (Hni : group_id g ∉ map group_id (finished (rt_tasks _ r) (rt_draining _ r))).
    { intros (g' & Heq & [Hin' Hf]%in_finished)%list_elem_of_fmap.
      apply list_elem_of_lookup in Hin as [i Hi], Hin' as [j Hj].
      assert (i = j) as -> by (eapply (NoDup_lookup _ _ _ (group_id g) (go_draining _ _ _ Hg)); rewrite list_lookup_fmap; [by rewrite Hi|by rewrite Hj; simpl; rewrite Heq]).
      congruence. }
    split; [by apply Hr|by apply Hn].
  - rewrite Hph. intros id Hid. unfold listed. rewrite Hc. by apply Hp.
Qed.

Definition holds (P : Runtime → Prop) (o : Outcome Acceptor) : Prop :=
  match o with Moved r => P r | Stuck => True | Panicked => False end.

Lemma task_moves r t w w' s' :
  runtime_ok r → rt_tasks _ r !! t = Some w → follows w w' → same_tables (rt_shared _ r) s' →
  runtime_ok (with_shared _ s' (with_task _ t w' r)).
Proof. intros Hok Ht Hf Hs. apply (runtime_ok_frame r); try done. by apply (follows_insert _ _ w). Qed.

Lemma accepted_runs r t w : runtime_ok r → rt_tasks _ r !! t = Some w → wk_accepted _ w ≠ None → wk_accepting _ w = true.
Proof. intros Hok. apply (go_accepting _ _ _ (ro_groups _ Hok)). Qed.

Lemma accepting_unfinished w : wk_accepting _ w = true → worker_is_finished _ w = false.
Proof. unfold worker_is_finished. by intros ->. Qed.

Lemma connected_unfinished w c cn : wk_connections _ w !! c = Some cn → worker_is_finished _ w = false.
Proof. unfold worker_is_finished. destruct (wk_connections _ w); [done|]. intros _. apply andb_false_r. Qed.

Lemma unfinished_follows w w' :
  worker_is_finished _ w = false → wk_listener_id _ w' = wk_listener_id _ w → wk_accepting _ w' = wk_accepting _ w →
  (wk_accepted _ w' ≠ None → wk_accepted _ w ≠ None ∨ wk_accepting _ w = true) → follows w w'.
Proof.
  intros Hu Hid Hac Had. unfold follows. split; [done|]. rewrite Hu. split; [done|]. rewrite Hac. intros H H'.
  by destruct (Had H') as [?%H|?].
Qed.

Lemma worker_accepts_ok t r : runtime_ok r → holds runtime_ok (worker_accepts _ t r).
Proof.
  intros Hok. unfold worker_accepts. destruct (rt_tasks _ r !! t) as [w|] eqn:Ht; simpl; [|done].
  destruct (wk_accepting _ w && _) eqn:Hc; simpl; [|done]. apply andb_true_iff in Hc as [Hac _].
  apply (runtime_ok_frame r); try done. apply (follows_insert _ _ w); [done|].
  apply unfinished_follows; [by apply accepting_unfinished|done..|by right].
Qed.

Lemma worker_admits_follows w acceptor listener s :
  worker_is_finished _ w = false →
  follows w (worker_admits _ w acceptor listener s).1 ∧ same_tables s (worker_admits _ w acceptor listener s).2.
Proof.
  intros Hu. unfold worker_admits, try_acquire_connection.
  destruct (ss_listener_active_connections _ s !! wk_listener_id _ w); simpl; [destruct (match srv_max_connections _ with Some _ => _ | None => _ end); simpl|];
    (split; [apply unfinished_follows; done|done]).
Qed.

Lemma worker_serves_ok t may_retry retry_failed r : runtime_ok r → holds runtime_ok (worker_serves _ t may_retry retry_failed r).
Proof.
  intros Hok. unfold worker_serves. destruct (rt_tasks _ r !! t) as [w|] eqn:Ht; simpl; [|done].
  destruct (wk_accepted _ w) as [acceptor|] eqn:Hacc; simpl; [|done].
  assert (Hu : worker_is_finished _ w = false).
  { apply accepting_unfinished. apply (accepted_runs r t w); [done..|]. by rewrite Hacc. }
  destruct (running_task r t w Hok Ht Hu) as [[listener Hl] _]. rewrite Hl.
  destruct (bool_decide _ && _ && _); simpl.
  - apply (task_moves _ _ w); [done..| |by destruct retry_failed]. apply unfinished_follows; done.
  - destruct (worker_admits_follows w acceptor listener (rt_shared _ r) Hu) as [Hf Hs].
    destruct (worker_admits _ w acceptor listener _) as [w' s']. by apply (task_moves _ _ w).
Qed.

Lemma worker_stops_ok t r : runtime_ok r → holds runtime_ok (worker_stops _ t r).
Proof.
  intros Hok. unfold worker_stops. destruct (rt_tasks _ r !! t) as [w|] eqn:Ht; simpl; [|done].
  destruct (_ && _ && negb (is_some (wk_accepted _ w))) eqn:Hc; simpl; [|done].
  apply andb_true_iff in Hc as [Hc Hid]. apply andb_true_iff in Hc as [_ Hac].
  apply (runtime_ok_frame r); try done. apply (follows_insert _ _ w); [done|]. split; [done|].
  rewrite accepting_unfinished by done. split; [done|]. simpl. by destruct (wk_accepted _ w).
Qed.

Lemma drop_guards_same guards s : same_tables s (drop_guards _ guards s).
Proof. unfold drop_guards. revert s. induction guards as [|g gs IH]; intros s; simpl; [done|]. eapply same_tables_trans; [|apply IH]. done. Qed.

Lemma worker_aborts_ok t r : runtime_ok r → holds runtime_ok (worker_aborts _ t r).
Proof.
  intros Hok. unfold worker_aborts. destruct (rt_tasks _ r !! t) as [w|] eqn:Ht; simpl; [|done].
  apply (task_moves _ _ w); [done..| |apply drop_guards_same]. by split.
Qed.

Lemma connection_starts_ok t c r : runtime_ok r → holds runtime_ok (connection_starts _ t c r).
Proof.
  intros Hok. unfold connection_starts. destruct (rt_tasks _ r !! t) as [w|] eqn:Ht; simpl; [|done].
  destruct (wk_connections _ w !! c) as [cn|] eqn:Hc; simpl; [|done]. destruct (cn_started _ cn); simpl; [done|].
  pose proof (connected_unfinished _ _ _ Hc) as Hu. destruct (running_task r t w Hok Ht Hu) as [[l Hl] _]. rewrite Hl. simpl.
  apply (runtime_ok_frame r); try done. apply (follows_insert _ _ w); [done|]. apply unfinished_follows; try done. by left.
Qed.

Lemma connection_ends_ok t c r : runtime_ok r → holds runtime_ok (connection_ends _ t c r).
Proof.
  intros Hok. unfold connection_ends. destruct (rt_tasks _ r !! t) as [w|] eqn:Ht; simpl; [|done].
  destruct (wk_connections _ w !! c) as [cn|] eqn:Hc; simpl; [|done].
  apply (task_moves _ _ w); [done..| |done]. apply unfinished_follows; [by eapply connected_unfinished|done..|by left].
Qed.

Lemma connection_upgrades_ok t c r : runtime_ok r → holds runtime_ok (connection_upgrades _ t c r).
Proof.
  intros Hok. unfold connection_upgrades. destruct (rt_tasks _ r !! t) as [w|] eqn:Ht; simpl; [|done].
  destruct (wk_connections _ w !! c) as [cn|] eqn:Hc; simpl; [|done]. destruct (cn_started _ cn); simpl; [|done].
  pose proof (connected_unfinished _ _ _ Hc) as Hu. destruct (running_task r t w Hok Ht Hu) as [_ [n Hn]].
  unfold retain_connection_slot. rewrite Hn. simpl. by apply (runtime_ok_frame r).
Qed.

Lemma shutdown_ok r : rt_phase _ r = Waiting → runtime_ok r → runtime_ok (begin_shutdown _ r).
Proof.
  intros Hph [Hg Ha Hd Hp]. rewrite Hph in Hp. split; simpl; [|done..]. unfold initiate_shutdown_for_groups.
  eapply groups_ok_follows; [done|]. etrans; apply shutdown_all_follows.
Qed.

Lemma join_ok r : runtime_ok r → holds runtime_ok (join_listener_worker_groups _ r).
Proof.
  intros [Hg _ _ _]. unfold join_listener_worker_groups. destruct (rt_phase _ r) eqn:Hph; simpl; try done.
  destruct (forallb _ _) eqn:Hf; simpl; [|done]. rewrite forallb_forall in Hf. destruct Hg as [Ha Hdn Hj Ht Ho Hi].
  split; simpl; rewrite ?Hph.
  - split; [done|constructor|by intros g ?%not_elem_of_nil| | |done].
    + by intros g t [[id Hid]|?%not_elem_of_nil].
    + intros t w Hw Hu. destruct (Ho t w Hw Hu) as (g & Hg & Hin). exfalso.
      assert (Hall : g ∈ map snd (map_to_list (rt_active _ r)) ++ rt_draining _ r).
      { apply elem_of_app. destruct Hg as [[id Hid]|Hg]; [left|by right]. apply list_elem_of_fmap. exists (id, g).
        split; [done|]. by apply elem_of_map_to_list. }
      specialize (Hf g ltac:(by apply list_elem_of_In)). rewrite (unfinished_task _ _ _ _ Hw Hu Hin) in Hf. done.
  - intros id [? ?]. done.
  - by intros g ?%not_elem_of_nil.
  - intros id [? ?]. done.
Qed.

Lemma step_ok a r :
  runtime_ok r → action_ok a → holds runtime_ok (step _ build_tls_acceptor build_clients_and_cache a r).
Proof.
  intros Hok Ha. destruct a as [loaded bind ms|changes ms| | | | | |t|t mr rf|t|t|t c|t c|t c|n]; simpl.
  - destruct (rt_phase _ r) eqn:Hph; simpl; try done. apply begin_reload_ok; [done| |done]. intros config ->. done.
  - destruct (continue_reload _ _ _ _ _ _) eqn:Hc; simpl; [|done]. by eapply continue_reload_ok.
  - destruct (rt_phase _ r) eqn:Hph; simpl; try done. pose proof (prune_ok r Hph Hok) as H.
    by destruct (prune_draining_listener_groups _ _ _ _).
  - destruct (rt_phase _ r) eqn:Hph; simpl; try done. by apply shutdown_ok.
  - by apply join_ok.
  - destruct (prepare_listener_tls_acceptors _ _ _); simpl; [by apply (runtime_ok_frame r)|done].
  - destruct (rt_refresh _ r); simpl; [by apply (runtime_ok_frame r)|done].
  - by apply worker_accepts_ok.
  - by apply worker_serves_ok.
  - by apply worker_stops_ok.
  - by apply worker_aborts_ok.
  - by apply connection_starts_ok.
  - by apply connection_ends_ok.
  - by apply connection_upgrades_ok.
  - unfold tunnel_ends. destruct (rt_tunnels _ r !! n); simpl; [by apply (runtime_ok_frame r)|done].
Qed.

(** ** The start *)

Lemma initial_groups_ok bind config active tasks :
  distinct_listeners config → build_initial_listener_groups Acceptor bind config = Ok (active, tasks) →
  groups_ok active [] tasks ∧ ∀ id, is_Some (active !! id) → has config id.
Proof.
  intros Hd. unfold build_initial_listener_groups.
  set (f := λ (acc : result Error (gmap string ListenerWorkerGroup * list Worker)) listener, _).
  assert (Hfail : ∀ l e, foldl f (Err e) l = Err e) by (induction l; done).
  assert (Hgo : ∀ l a ts, groups_ok a [] ts → (∀ id, is_Some (a !! id) → has config id ∧ id ∉ map lst_id l) →
            NoDup (map lst_id l) → (∀ x, x ∈ l → x ∈ cfg_listeners config) → foldl f (Ok (a, ts)) l = Ok (active, tasks) →
            groups_ok active [] tasks ∧ ∀ id, is_Some (active !! id) → has config id).
  { induction l as [|x l IH]; intros a ts Hok Ha Hn Hin; cbn [foldl].
    { intros [= <- <-]. split; [done|]. intros id Hid. by apply Ha. }
    unfold f at 2, prepare_listener_worker_group. simpl rbind. destruct (bind x); simpl rbind; [|by rewrite Hfail].
    set (p := mkPreparedGroup _ _ _). change (lst_id x) with (prepared_id p) in *.
    simpl in Hn. apply NoDup_cons in Hn as [Hx Hn].
    assert (Hnone : a !! lst_id x = None).
    { apply eq_None_not_Some. intros [_ Hni]%Ha. apply Hni. by left. }
    pose proof (groups_ok_activate_all [p] a [] ts Hok) as Hact.
    destruct (activate_all _ [p] a ts) as [a' ts']. destruct Hact as [Hok' Hdom].
    { apply NoDup_singleton. }
    { intros q ->%list_elem_of_singleton. split; [done|]. by intros g ?%not_elem_of_nil. }
    apply IH; [done| |done|intros; apply Hin; by right].
    intros id [Hid| ->%list_elem_of_singleton]%Hdom; [|split; [apply has_in, Hin; by left|done]].
    destruct (Ha id Hid) as [? Hni]. split; [done|]. intros ?. apply Hni. by right. }
  apply Hgo; try done.
  - split; [done|apply NoDup_nil_2|by intros ? ?%not_elem_of_nil|by intros g t [[??]|?%not_elem_of_nil]|done|done].
  - by intros id [? ?].
Qed.

Lemma start_ok bind config r :
  distinct_listeners config → start _ build_tls_acceptor build_clients_and_cache bind config = Ok r → runtime_ok r.
Proof.
  intros Hd. unfold start, from_parts.
  destruct (prepare_state _ _ _ config) as [prepared|]; simpl; [|done].
  destruct (build_initial_listener_groups _ _ _) as [[active tasks]|] eqn:Hb; simpl; [|done]. intros [= <-].
  destruct (initial_groups_ok _ _ _ _ Hd Hb) as [Hg Hhas].
  set (s0 := mkShared _ _ _ _ _ _ _ _ _ _ _ _). destruct (sync_same config s0) as [Hc _].
  split; simpl; [done|..].
  - intros id Hid. split; [left; unfold listed; rewrite Hc; by apply Hhas|]. apply sync_counted. right. by apply Hhas.
  - by intros g ?%not_elem_of_nil.
  - intros id Hid. unfold listed. rewrite Hc. by apply Hhas.
Qed.

Lemma runtime_run_ok actions r :
  runtime_ok r → Forall action_ok actions →
  ∃ r', run _ build_tls_acceptor build_clients_and_cache actions r = Some r' ∧ runtime_ok r'.
Proof.
  revert r. induction actions as [|a actions IH]; intros r Hok Hf; simpl; [by exists r|].
  apply Forall_cons in Hf as [Ha Hf]. pose proof (step_ok a r Hok Ha) as Hs.
  destruct (step _ _ _ a r); simpl in Hs; [by apply IH|by apply IH|done].
Qed.

(** ** What is counted *)

(** The guards of connections and tunnels. *)
Definition guards_of tasks : list ConnectionGuard := tasks ≫= λ w, map (cn_guard _) (wk_connections _ w).
Definition live_guards r : list ConnectionGuard := guards_of (rt_tasks _ r) ++ rt_tunnels _ r.

(** Those that hold a counter. *)
Definition holders (counter : nat) (guards : list ConnectionGuard) : Z :=
  Z.of_nat (length (filter (λ gd, gd_counter gd = counter) guards)).

Record counts_ok guards s : Prop := {
  co_total : ss_active_connections _ s = wrap64 (Z.of_nat (length guards));
  co_each : ∀ c, count_of c (ss_counters _ s) = wrap64 (holders c guards);
  co_guards : ∀ gd, gd ∈ guards → (gd_counter gd < ct_next (ss_counters _ s))%nat;
  co_map : ∀ id c, ss_listener_active_connections _ s !! id = Some c → (c < ct_next (ss_counters _ s))%nat;
  co_distinct : ∀ id id' c, ss_listener_active_connections _ s !! id = Some c →
    ss_listener_active_connections _ s !! id' = Some c → id' = id;
  co_owner : ∀ gd id, gd ∈ guards → ss_listener_active_connections _ s !! id = Some (gd_counter gd) → gd_listener_id gd = id;
}.

Lemma counts_ok_perm guards guards' s : guards ≡ₚ guards' → counts_ok guards s → counts_ok guards' s.
Proof.
  intros Hp [Ht He Hg Hm Hd Ho]. split; [by rewrite <- Hp| | |done|done|].
  - intros c. rewrite He. unfold holders. by rewrite Hp.
  - intros gd. rewrite <- Hp. apply Hg.
  - intros gd id. rewrite <- Hp. apply Ho.
Qed.

Lemma wrap64_add a b : wrap64 (wrap64 a + b) = wrap64 (a + b).
Proof. unfold wrap64. by rewrite Zplus_mod_idemp_l. Qed.

Lemma count_of_add c n k counters :
  count_of c (add_count k n counters) = if decide (c = k) then wrap64 (count_of c counters + n) else count_of c counters.
Proof.
  unfold count_of, add_count. simpl. case_decide as H; [subst; by rewrite lookup_insert_eq|by rewrite lookup_insert_ne].
Qed.

Lemma take_guard_counts guards id counter s :
  counts_ok guards s → ss_listener_active_connections _ s !! id = Some counter →
  counts_ok ((take_guard _ id counter s).1 :: guards) (take_guard _ id counter s).2.
Proof.
  intros [Ht He Hg Hm Hd Ho] Hid. pose proof (Hm _ _ Hid) as Hlt. split; simpl.
  - rewrite Ht, wrap64_add. f_equal. lia.
  - intros c. rewrite count_of_add, He. unfold holders. rewrite filter_cons. simpl.
    destruct (decide (c = counter)) as [->|Hne]; [rewrite decide_True by done|rewrite decide_False by congruence; done].
    rewrite wrap64_add. f_equal. simpl. lia.
  - intros gd [->|Hin]%elem_of_cons; [done|by apply Hg].
  - done.
  - done.
  - intros gd id' [->|Hin]%elem_of_cons; [|by apply Ho]. simpl. intros Hid'. by apply (Hd id' id counter).
Qed.

Lemma drop_guard_counts guards gd s : counts_ok (gd :: guards) s → counts_ok guards (drop_connection_guard _ gd s).
Proof.
  intros [Ht He Hg Hm Hd Ho]. split; simpl.
  - rewrite Ht. replace (wrap64 _ - 1) with (wrap64 (Z.of_nat (length (gd :: guards))) + -1) by lia. rewrite wrap64_add. f_equal.
    simpl length. lia.
  - intros c. rewrite count_of_add, He. unfold holders. rewrite filter_cons.
    destruct (decide (c = gd_counter gd)) as [->|Hne]; [rewrite decide_True by done|rewrite decide_False by congruence; done].
    rewrite wrap64_add. f_equal. simpl length. lia.
  - intros gd' Hin. apply Hg. by right.
  - done.
  - done.
  - intros gd' id Hin. apply Ho. by right.
Qed.

Lemma drop_guards_counts dropped guards s : counts_ok (dropped ++ guards) s → counts_ok guards (drop_guards _ dropped s).
Proof.
  unfold drop_guards. revert s. induction dropped as [|gd dropped IH]; intros s H; simpl; [done|]. apply IH, drop_guard_counts, H.
Qed.

(** What changes neither the counters nor the connections. *)
Definition same_counts s s' : Prop :=
  ss_active_connections _ s' = ss_active_connections _ s ∧ ss_counters _ s' = ss_counters _ s ∧
  ∀ id c, ss_listener_active_connections _ s' !! id = Some c → ss_listener_active_connections _ s !! id = Some c.

Lemma counts_ok_same guards s s' : same_counts s s' → counts_ok guards s → counts_ok guards s'.
Proof.
  intros (Ht & Hc & Hm) [H1 H2 H3 H4 H5 H6]. split; rewrite ?Ht, ?Hc; try done.
  - intros id c Hid. by apply (H4 id), Hm.
  - intros id id' c Hid Hid'. by apply (H5 id id' c); apply Hm.
  - intros gd id Hin Hid. by apply H6, Hm.
Qed.

Lemma ensure_counter_counts id guards s :
  counts_ok guards s →
  let '(m, counters) := ensure_counter id (ss_listener_active_connections _ s) (ss_counters _ s) in
  counts_ok guards (with_connections _ m counters (ss_active_connections _ s) s).
Proof.
  intros [Ht He Hg Hm Hd Ho]. unfold ensure_counter. destruct (ss_listener_active_connections _ s !! id) eqn:Hid; [done|].
  assert (Hnew : holders (ct_next (ss_counters _ s)) guards = 0).
  { unfold holders. assert (Hl : ∀ l, (∀ gd, gd ∈ l → gd_counter gd ≠ ct_next (ss_counters _ s)) →
      filter (λ gd, gd_counter gd = ct_next (ss_counters _ s)) l = []).
    { induction l as [|gd l IH]; intros H; [done|]. rewrite filter_cons_False by (apply H; by left). apply IH. intros gd' Hin.
      apply H. by right. }
    rewrite Hl; [done|]. intros gd Hin. pose proof (Hg gd Hin). lia. }
  split; simpl; [done|..].
  - intros c. unfold count_of. simpl. destruct (decide (c = ct_next (ss_counters _ s))) as [->|?].
    + rewrite lookup_insert_eq, Hnew. done.
    + rewrite lookup_insert_ne by done. apply He.
  - intros gd Hin. pose proof (Hg gd Hin). lia.
  - intros id' c [[<- <-]|[_ H]]%lookup_insert_Some; [lia|]. pose proof (Hm _ _ H). lia.
  - intros id1 id2 c [[<- <-]|[Hne H]]%lookup_insert_Some [[<- Hc]|[Hne' H']]%lookup_insert_Some; try done.
    + pose proof (Hm _ _ H'). lia.
    + subst c. pose proof (Hm _ _ H). lia.
    + by apply (Hd id1 id2 c).
  - intros gd id' Hin [[<- Heq]|[_ H]]%lookup_insert_Some; [|by apply Ho]. pose proof (Hg gd Hin). lia.
Qed.

Lemma sync_counts config guards s : counts_ok guards s → counts_ok guards (sync_listener_active_connections _ config s).
Proof.
  unfold sync_listener_active_connections. generalize (cfg_listeners config). intros l. revert s.
  induction l as [|x l IH]; intros s H; simpl; [by destruct s|].
  pose proof (ensure_counter_counts (lst_id x) guards s H) as Hx. destruct (ensure_counter _ _ _) as [m c].
  apply (IH _ Hx).
Qed.

Lemma retire_counts l guards s : counts_ok guards s → counts_ok guards (retire_listener_runtime _ l s).
Proof.
  intros H. unfold retire_listener_runtime.
  set (s1 := with_retired _ _ s). assert (H1 : counts_ok guards s1) by (by apply (counts_ok_same _ s)).
  pose proof (ensure_counter_counts (lst_id l) guards s1 H1) as Hc. by destruct (ensure_counter _ _ _).
Qed.

Lemma retire_all_counts groups guards s :
  counts_ok guards s → counts_ok guards (foldl (λ s g, retire_listener_runtime Acceptor (gr_listener g) s) s groups).
Proof. revert s. induction groups as [|g groups IH]; intros s H; simpl; [done|]. by apply IH, retire_counts. Qed.

Lemma remove_all_same_counts groups s : same_counts s (remove_all groups s).
Proof.
  unfold remove_all. revert s. induction groups as [|g groups IH]; intros s; simpl; [by split_and!|].
  destruct (IH (remove_retired_listener_runtime _ (group_id g) s)) as (Ht & Hc & Hm). split_and!; [done..|].
  intros id c Hid%Hm. simpl in Hid. by apply lookup_delete_Some in Hid as [_ ?].
Qed.

(** The guards of the tasks. *)

Lemma guards_of_same tasks tasks' :
  Forall2 (λ w w', wk_connections _ w' = wk_connections Acceptor w) tasks tasks' → guards_of tasks' = guards_of tasks.
Proof. induction 1 as [|w w' tasks tasks' Hw _ IH]; [done|]. unfold guards_of in *. by rewrite !bind_cons, IH, Hw. Qed.

#[local] Instance same_connections_preorder : PreOrder (λ w w', wk_connections _ w' = wk_connections Acceptor w).
Proof. split; [done|]. intros a b c. congruence. Qed.

Lemma shutdown_same groups tasks :
  Forall2 (λ w w', wk_connections _ w' = wk_connections Acceptor w) tasks (initiate_shutdown_for_groups _ groups tasks).
Proof.
  unfold initiate_shutdown_for_groups, initiate_shutdown. revert tasks. induction groups as [|g groups IH]; intros tasks; simpl; [done|].
  etrans; [|apply IH]. generalize (gr_tasks g). intros l. revert tasks. induction l as [|t l IHl]; intros tasks; simpl; [done|].
  etrans; [|apply IHl]. revert t. induction tasks as [|w tasks IHt]; intros [|t]; constructor; first [done|apply IHt].
Qed.

Lemma guards_of_idle l : (∀ w, w ∈ l → wk_connections Acceptor w = []) → guards_of l = [].
Proof.
  unfold guards_of. induction l as [|w l IH]; intros H; [done|]. rewrite bind_cons, (H w) by (by left). simpl.
  apply IH. intros w' Hw'. apply H. by right.
Qed.

Lemma activate_all_guards additions active tasks : guards_of (activate_all _ additions active tasks).2 = guards_of tasks.
Proof.
  revert active tasks. induction additions as [|p additions IH]; intros active tasks; [done|].
  change (activate_all Acceptor (p :: additions) active tasks) with
    (activate_all Acceptor additions (<[prepared_id p := (activate_prepared_listener_worker_group Acceptor p tasks).1]> active)
       (activate_prepared_listener_worker_group Acceptor p tasks).2).
  rewrite IH. unfold activate_prepared_listener_worker_group, guards_of. simpl. rewrite bind_app, (guards_of_idle (_ ++ _)), app_nil_r; [done|].
  intros w [Hw|Hw]%elem_of_app; apply elem_of_replicate in Hw as [-> _]; done.
Qed.

(** *** Every step keeps it *)

Definition runtime_counts r : Prop := counts_ok (live_guards r) (rt_shared _ r).

Lemma counts_frame r r' :
  runtime_counts r → same_counts (rt_shared _ r) (rt_shared _ r') → guards_of (rt_tasks _ r') = guards_of (rt_tasks _ r) →
  rt_tunnels _ r' = rt_tunnels _ r → runtime_counts r'.
Proof. intros H Hs Hg Ht. unfold runtime_counts, live_guards. rewrite Hg, Ht. by eapply counts_ok_same. Qed.

Lemma same_counts_refl s : same_counts s s.
Proof. by split_and!. Qed.
#[local] Hint Resolve same_counts_refl : core.

(** A task whose connections change. *)
Lemma counts_task r t w w' s' :
  rt_tasks _ r !! t = Some w →
  (∀ rest, live_guards r ≡ₚ map (cn_guard _) (wk_connections _ w) ++ rest →
     counts_ok (map (cn_guard _) (wk_connections _ w') ++ rest) s') →
  runtime_counts (with_shared _ s' (with_task _ t w' r)).
Proof.
  intros Ht H. unfold runtime_counts, live_guards. simpl.
  set (old := map (cn_guard _) (wk_connections _ w)) in *. set (new := map _ (wk_connections _ w')) in *.
  assert (Hsplit : ∃ rest, guards_of (rt_tasks _ r) ≡ₚ old ++ rest ∧ guards_of (<[t := w']> (rt_tasks _ r)) ≡ₚ new ++ rest).
  { pose proof (lookup_lt_Some _ _ _ Ht) as Hlt.
    exists (guards_of (take t (rt_tasks _ r)) ++ guards_of (drop (S t) (rt_tasks _ r))). split.
    - rewrite <- (take_drop_middle _ t w Ht) at 1. unfold guards_of, old. rewrite bind_app, bind_cons. solve_Permutation.
    - rewrite insert_take_drop by done. unfold guards_of, new. rewrite bind_app, bind_cons. solve_Permutation. }
  destruct Hsplit as (rest & Hold & Hnew).
  apply (counts_ok_perm (new ++ (rest ++ rt_tunnels _ r))); [rewrite Hnew; by rewrite app_assoc|].
  apply H. unfold live_guards. rewrite Hold. by rewrite app_assoc.
Qed.

Definition keeps_counts (o : Outcome Acceptor) : Prop := match o with Moved r => runtime_counts r | _ => True end.

Lemma counts_task_same r t w w' :
  runtime_counts r → rt_tasks _ r !! t = Some w → map (cn_guard _) (wk_connections _ w') = map (cn_guard _) (wk_connections _ w) →
  runtime_counts (with_task _ t w' r).
Proof.
  intros H Ht Heq. change (with_task _ t w' r) with (with_shared _ (rt_shared _ r) (with_task _ t w' r)).
  apply (counts_task _ _ w); [done|]. intros rest Hp. rewrite Heq. by apply (counts_ok_perm (live_guards r)).
Qed.

Lemma admits_counts r t w acceptor listener :
  runtime_counts r → rt_tasks _ r !! t = Some w →
  runtime_counts (with_shared _ (worker_admits _ w acceptor listener (rt_shared _ r)).2
                    (with_task _ t (worker_admits _ w acceptor listener (rt_shared _ r)).1 r)).
Proof.
  intros H Ht. apply (counts_task _ _ w); [done|]. intros rest Hp. apply (counts_ok_perm _ _ _ Hp) in H.
  unfold worker_admits, try_acquire_connection. set (s := rt_shared _ r) in *.
  destruct (ss_listener_active_connections _ s !! wk_listener_id _ w) as [c|] eqn:Hc; simpl; [|by apply (counts_ok_same _ s)].
  destruct (match srv_max_connections _ with Some _ => _ | None => _ end); simpl; [by apply (counts_ok_same _ s)|].
  pose proof (take_guard_counts _ (wk_listener_id _ w) c s H Hc) as Htake. simpl in Htake.
  rewrite map_app. simpl. eapply counts_ok_perm; [|by eapply counts_ok_same; [|apply Htake]]. solve_Permutation.
Qed.

Lemma connection_step_counts t c r :
  runtime_counts r → keeps_counts (connection_starts _ t c r) ∧ keeps_counts (connection_ends _ t c r) ∧
  keeps_counts (connection_upgrades _ t c r).
Proof.
  intros H. unfold connection_starts, connection_ends, connection_upgrades.
  destruct (rt_tasks _ r !! t) as [w|] eqn:Ht; simpl; [|done]. destruct (wk_connections _ w !! c) as [cn|] eqn:Hc; simpl; [|done].
  split_and!.
  - destruct (cn_started _ cn); simpl; [done|]. destruct (current_listener _ _ _); simpl; [|done].
    apply (counts_task_same _ _ w); [done..|]. simpl.
    change (map (cn_guard Acceptor)) with (fmap (M:=list) (cn_guard Acceptor)).
    rewrite list_fmap_insert. simpl. apply list_insert_id. by rewrite list_lookup_fmap, Hc.
  - apply (counts_task _ _ w); [done|]. intros rest Hp. apply (counts_ok_perm _ _ _ Hp) in H. simpl. apply drop_guard_counts.
    eapply counts_ok_perm; [|exact H].
    apply (Permutation_app_tail rest (Permutation_map (cn_guard _) (delete_Permutation _ _ _ Hc))).
  - destruct (cn_started _ cn); simpl; [|done]. unfold retain_connection_slot.
    destruct (ss_listener_active_connections _ _ !! _) as [n|] eqn:Hn; simpl; [|done].
    pose proof (take_guard_counts _ (wk_listener_id _ w) n _ H Hn) as Htake.
    unfold runtime_counts, live_guards in *. simpl in *.
    eapply counts_ok_perm; [|by eapply counts_ok_same; [|apply Htake]]. solve_Permutation.
Qed.

Lemma worker_step_counts t may_retry retry_failed r :
  runtime_counts r → keeps_counts (worker_accepts _ t r) ∧ keeps_counts (worker_serves _ t may_retry retry_failed r) ∧
  keeps_counts (worker_stops _ t r) ∧ keeps_counts (worker_aborts _ t r).
Proof.
  intros H. unfold worker_accepts, worker_serves, worker_stops, worker_aborts.
  destruct (rt_tasks _ r !! t) as [w|] eqn:Ht; simpl; [|done]. split_and!.
  - destruct (_ && _); simpl; [|done]. by apply (counts_task_same _ _ w).
  - destruct (wk_accepted _ w) as [acceptor|]; simpl; [|done]. destruct (current_listener _ _ _) as [listener|]; simpl; [|done].
    destruct (bool_decide _ && _ && _); simpl.
    + apply (counts_frame (with_task _ t (with_accepted _ None w) r)); [by apply (counts_task_same _ _ w)| |done..].
      by destruct retry_failed.
    + pose proof (admits_counts r t w acceptor listener H Ht). by destruct (worker_admits _ _ _ _ _).
  - destruct (_ && _ && negb (is_some (wk_accepted _ w))); simpl; [|done]. by apply (counts_task_same _ _ w).
  - apply (counts_task _ _ w); [done|]. intros rest Hp. apply (counts_ok_perm _ _ _ Hp) in H. by apply drop_guards_counts.
Qed.

Lemma continue_reload_counts changes ms r r' :
  runtime_counts r → continue_reload _ build_tls_acceptor build_clients_and_cache changes ms r = Some r' → runtime_counts r'.
Proof.
  intros H. unfold continue_reload.
  destruct (rt_phase _ r) as [|pending additions|prepared previous additions|merged prepared previous additions
    |merged prepared previous additions|merged prepared previous additions|config additions|]; try done.
  - destruct (prepare_replacement _ _ _ _ _); intros [= <-]; by apply (counts_frame r).
  - intros [= <-]. by apply (counts_frame r).
  - intros [= <-]. unfold runtime_counts in *. simpl. eapply counts_ok_same; [|apply (sync_counts (ps_config _ prepared)), H]. done.
  - intros [= <-]. by apply (counts_frame r).
  - intros [= <-]. by apply (counts_frame r).
  - unfold reconcile_listener_worker_groups. set (s1 := record_reload_success _ _ _ _ _).
    set (removed := map snd _). set (kept := map_imap _ _).
    pose proof (activate_all_guards additions kept (initiate_shutdown_for_groups _ removed (rt_tasks _ r))) as Hg.
    rewrite (guards_of_same _ _ (shutdown_same removed (rt_tasks _ r))) in Hg.
    unfold initiate_shutdown_for_groups in Hg. destruct (activate_all _ _ _ _) as [active' tasks']. simpl in Hg. intros [= <-].
    unfold runtime_counts, live_guards in *. simpl. rewrite Hg. apply retire_all_counts. by apply (counts_ok_same _ (rt_shared _ r)).
Qed.

Lemma step_counts a r : runtime_counts r → keeps_counts (step _ build_tls_acceptor build_clients_and_cache a r).
Proof.
  intros H. destruct a as [loaded bind ms|changes ms| | | | | |t|t mr rf|t|t|t c|t c|t c|n]; simpl.
  - destruct (rt_phase _ r); simpl; try done. unfold begin_reload, prepare_reload.
    destruct loaded as [next|]; simpl; [|by apply (counts_frame r)].
    destruct (validate_config_transition _ _); simpl; [|by apply (counts_frame r)].
    destruct (prepare_added_listener_bindings _ _ _ _ _); by apply (counts_frame r).
  - destruct (continue_reload _ _ _ _ _ _) eqn:Hc; simpl; [|done]. by eapply continue_reload_counts.
  - destruct (rt_phase _ r); simpl; try done. rewrite prune_spec. simpl.
    apply (counts_frame r); [done|apply remove_all_same_counts|done..].
  - destruct (rt_phase _ r); simpl; try done. apply (counts_frame r); [done..| |done]. simpl.
    apply guards_of_same. etrans; apply shutdown_same.
  - unfold join_listener_worker_groups. destruct (rt_phase _ r); simpl; try done. destruct (forallb _ _); simpl; [|done].
    apply (counts_frame r); [done|apply remove_all_same_counts|done..].
  - destruct (prepare_listener_tls_acceptors _ _ _); simpl; by apply (counts_frame r).
  - destruct (rt_refresh _ r); simpl; [by apply (counts_frame r)|done].
  - by apply (worker_step_counts t false false).
  - by apply worker_step_counts.
  - by apply (worker_step_counts t false false).
  - by apply (worker_step_counts t false false).
  - by apply connection_step_counts.
  - by apply connection_step_counts.
  - by apply connection_step_counts.
  - unfold tunnel_ends. destruct (rt_tunnels _ r !! n) as [gd|] eqn:Hn; simpl; [|done].
    unfold runtime_counts, live_guards in *. simpl. apply drop_guard_counts. eapply counts_ok_perm; [|exact H].
    etrans; [apply (Permutation_app_head _ (delete_Permutation _ _ _ Hn))|]. solve_Permutation.
Qed.

Lemma start_counts bind config r : start _ build_tls_acceptor build_clients_and_cache bind config = Ok r → runtime_counts r.
Proof.
  unfold start, from_parts. destruct (prepare_state _ _ _ config) as [prepared|]; simpl; [|done].
  unfold build_initial_listener_groups.
  set (f := λ (acc : result Error (gmap string ListenerWorkerGroup * list Worker)) listener, _).
  assert (Hfail : ∀ l e, foldl f (Err e) l = Err e) by (induction l; done).
  assert (Hgo : ∀ l acc res, guards_of acc.2 = [] → foldl f (Ok acc) l = Ok res → guards_of res.2 = []).
  { induction l as [|x l IH]; intros acc res Ha; cbn [foldl]; [by intros [= <-]|].
    unfold f at 2, prepare_listener_worker_group. simpl rbind. destruct (bind x); simpl rbind; [|by rewrite Hfail].
    apply IH. by rewrite activate_all_guards. }
  destruct (foldl f _ _) as [groups|] eqn:Hg; simpl; [|done]. intros [= <-].
  apply Hgo in Hg; [|done]. unfold runtime_counts, live_guards. simpl. rewrite Hg. apply sync_counts. split; simpl; try done;
    by intros gd ?%not_elem_of_nil.
Qed.

Lemma run_counts actions r r' :
  runtime_counts r → run _ build_tls_acceptor build_clients_and_cache actions r = Some r' → runtime_counts r'.
Proof.
  revert r. induction actions as [|a actions IH]; intros r H; simpl; [by intros [= <-]|].
  pose proof (step_counts a r H) as Hs. destruct (step _ _ _ a r); simpl in Hs; [by apply IH|by apply IH|done].
Qed.

(** ** Whose counters they are *)

(** The connections there are: their listener, and their guard. *)
Definition conns_of tasks : list (string * ConnectionGuard) :=
  tasks ≫= λ w, map (λ cn, (wk_listener_id _ w, cn_guard _ cn)) (wk_connections Acceptor w).

Lemma guards_of_conns tasks : guards_of tasks = map snd (conns_of tasks).
Proof.
  unfold guards_of, conns_of. induction tasks as [|w tasks IH]; [done|]. rewrite !bind_cons, map_app, IH. by rewrite map_map.
Qed.

(** The guard counts under the counter that the listener has. *)
Definition owns s (id : string) (gd : ConnectionGuard) : Prop :=
  gd_listener_id gd = id ∧ ss_listener_active_connections Acceptor s !! id = Some (gd_counter gd).

Lemma conns_of_same tasks tasks' :
  Forall2 (λ w w', wk_connections _ w' = wk_connections Acceptor w) tasks tasks' → Forall2 follows tasks tasks' →
  conns_of tasks' = conns_of tasks.
Proof.
  induction 1 as [|w w' tasks tasks' Hw _ IH]; intros Hf; [done|]. inversion_clear Hf as [|?? ?? [Hid _] Hf'].
  unfold conns_of in *. by rewrite !bind_cons, IH, Hw, Hid.
Qed.

Lemma conns_of_shutdown groups tasks : conns_of (initiate_shutdown_for_groups _ groups tasks) = conns_of tasks.
Proof. apply conns_of_same; [apply shutdown_same|apply shutdown_all_follows]. Qed.

Lemma conns_of_activate additions active tasks : conns_of (activate_all _ additions active tasks).2 = conns_of tasks.
Proof.
  revert active tasks. induction additions as [|p additions IH]; intros active tasks; [done|].
  change (activate_all Acceptor (p :: additions) active tasks) with
    (activate_all Acceptor additions (<[prepared_id p := (activate_prepared_listener_worker_group Acceptor p tasks).1]> active)
       (activate_prepared_listener_worker_group Acceptor p tasks).2).
  rewrite IH. unfold activate_prepared_listener_worker_group, conns_of. simpl. rewrite bind_app. rewrite <-(app_nil_r (tasks ≫= _)) at 2.
  f_equal. rewrite bind_app. generalize (pg_worker_listeners p) (pg_http3_endpoints p). intros n m.
  assert (∀ k kind, (replicate k (new_worker Acceptor (prepared_id p) kind) ≫= λ w, map (λ cn, (wk_listener_id _ w, cn_guard _ cn)) (wk_connections _ w)) = []) as Hnone
    by (induction k as [|k IHk]; intros kind; [done|]; cbn [replicate]; rewrite bind_cons, IHk; done).
  by rewrite !Hnone.
Qed.

Lemma conns_of_insert tasks t w' x :
  x ∈ conns_of (<[t := w']> tasks) →
  x ∈ conns_of tasks ∨ ∃ cn, cn ∈ wk_connections _ w' ∧ x = (wk_listener_id _ w', cn_guard _ cn).
Proof.
  unfold conns_of. intros (w & Hx & Hw)%list_elem_of_bind. apply list_elem_of_lookup in Hw as [i Hi].
  apply list_lookup_insert_Some in Hi as [(<- & <- & _)|[_ Hi]].
  - right. apply list_elem_of_fmap in Hx as (cn & -> & Hcn). by exists cn.
  - left. apply list_elem_of_bind. exists w. split; [done|]. by eapply list_elem_of_lookup_2.
Qed.

Lemma conns_of_task tasks t w cn :
  tasks !! t = Some w → cn ∈ wk_connections _ w → (wk_listener_id _ w, cn_guard _ cn) ∈ conns_of tasks.
Proof.
  intros Ht Hcn. apply list_elem_of_bind. exists w. split; [|by eapply list_elem_of_lookup_2].
  apply list_elem_of_fmap. by exists cn.
Qed.

(** A listener keeps its counter until it is removed. *)
Definition keeps_counters s s' : Prop :=
  ∀ id c, ss_listener_active_connections Acceptor s !! id = Some c → ss_listener_active_connections _ s' !! id = Some c.

Lemma keeps_refl s : keeps_counters s s.
Proof. by intros id c. Qed.
#[local] Hint Resolve keeps_refl : core.

Lemma keeps_trans s1 s2 s3 : keeps_counters s1 s2 → keeps_counters s2 s3 → keeps_counters s1 s3.
Proof. intros H1 H2 id c H. by apply H2, H1. Qed.

Lemma ensure_counter_keeps id m counters id' c : m !! id' = Some c → (ensure_counter id m counters).1 !! id' = Some c.
Proof. intros H. unfold ensure_counter. destruct (m !! id) eqn:Hid; [done|]. simpl. rewrite lookup_insert_ne; [done|congruence]. Qed.

Lemma sync_keeps config s : keeps_counters s (sync_listener_active_connections _ config s).
Proof.
  intros id c. unfold sync_listener_active_connections. generalize (cfg_listeners config), (ss_counters _ s), (ss_listener_active_connections _ s).
  intros l counters m Hid.
  assert (Hgo : ∀ l m counters, m !! id = Some c →
    (foldl (λ '(m, counters) listener, ensure_counter (lst_id listener) m counters) (m, counters) l).1 !! id = Some c).
  { clear. induction l as [|x l IH]; intros m counters Hid; simpl; [done|].
    pose proof (ensure_counter_keeps (lst_id x) m counters id c Hid). by destruct (ensure_counter _ _ _) as [m' counters']; apply IH. }
  specialize (Hgo l m counters Hid). by destruct (foldl _ _ _).
Qed.

Lemma retire_keeps l s : keeps_counters s (retire_listener_runtime _ l s).
Proof.
  intros id c Hid. unfold retire_listener_runtime. simpl.
  pose proof (ensure_counter_keeps (lst_id l) _ (ss_counters _ s) id c Hid). by destruct (ensure_counter _ _ _).
Qed.

Lemma retire_all_keeps groups s :
  keeps_counters s (foldl (λ s g, retire_listener_runtime Acceptor (gr_listener g) s) s groups).
Proof. revert s. induction groups as [|g groups IH]; intros s; simpl; [apply keeps_refl|].
  eapply keeps_trans; [apply retire_keeps|apply IH]. Qed.

Lemma drop_guards_keeps guards s : keeps_counters s (drop_guards _ guards s).
Proof. intros id c. by destruct (drop_guards_same guards s) as (_ & _ & ->). Qed.

(** What a step does to the counters' owners. *)
Record traced (r r' : Runtime) : Prop := {
  tr_counters : ∀ id c, ss_listener_active_connections _ (rt_shared _ r) !! id = Some c →
    ss_listener_active_connections _ (rt_shared _ r') !! id = Some c ∨ ss_listener_active_connections _ (rt_shared _ r') !! id = None;
  tr_conns : ∀ x, x ∈ conns_of (rt_tasks _ r') → x ∈ conns_of (rt_tasks _ r) ∨ owns (rt_shared _ r') x.1 x.2;
  tr_tunnels : ∀ gd, gd ∈ rt_tunnels _ r' → gd ∈ rt_tunnels _ r ∨ owns (rt_shared _ r') (gd_listener_id gd) gd;
}.

Definition traces (r : Runtime) (o : Outcome Acceptor) : Prop :=
  match o with Moved r' => traced r r' ∧ keeps_counters (rt_shared _ r) (rt_shared _ r') | _ => True end.

Lemma traced_frame r r' :
  keeps_counters (rt_shared _ r) (rt_shared _ r') → conns_of (rt_tasks _ r') = conns_of (rt_tasks _ r) →
  rt_tunnels _ r' = rt_tunnels _ r → traces r (Moved r').
Proof.
  intros Hk Hc Ht. split; [|done]. split; [by left; apply Hk|intros x; rewrite Hc; by left|intros gd; rewrite Ht; by left].
Qed.

Ltac framed := apply traced_frame; [by intros ??|done|done].

(** A task's connections change. *)
Lemma traced_task r t w w' s' :
  rt_tasks _ r !! t = Some w → keeps_counters (rt_shared _ r) s' → wk_listener_id _ w' = wk_listener_id _ w →
  (∀ cn, cn ∈ wk_connections _ w' → (∃ cn', cn' ∈ wk_connections _ w ∧ cn_guard _ cn' = cn_guard _ cn) ∨ owns s' (wk_listener_id _ w) (cn_guard _ cn)) →
  traces r (Moved (with_shared _ s' (with_task _ t w' r))).
Proof.
  intros Ht Hk Hid Hc. split; [|done]. split; simpl; [by left; apply Hk| |by left].
  intros x [Hx|(cn & Hcn & ->)]%conns_of_insert; [by left|]. rewrite Hid. destruct (Hc cn Hcn) as [(cn' & Hcn' & <-)|Ho]; [|by right].
  left. by eapply conns_of_task.
Qed.

Lemma traced_task_same r t w w' :
  rt_tasks _ r !! t = Some w → wk_listener_id _ w' = wk_listener_id _ w → wk_connections _ w' = wk_connections _ w →
  traces r (Moved (with_task _ t w' r)).
Proof.
  intros Ht Hid Hc. change (with_task _ t w' r) with (with_shared _ (rt_shared _ r) (with_task _ t w' r)).
  apply (traced_task _ _ w); [done|by intros ??|done|]. intros cn. rewrite Hc. left. by exists cn.
Qed.

Lemma admits_traced r t w acceptor listener :
  rt_tasks _ r !! t = Some w →
  traces r (Moved (with_shared _ (worker_admits _ w acceptor listener (rt_shared _ r)).2
                    (with_task _ t (worker_admits _ w acceptor listener (rt_shared _ r)).1 r))).
Proof.
  intros Ht. unfold worker_admits, try_acquire_connection. set (s := rt_shared _ r).
  destruct (ss_listener_active_connections _ s !! wk_listener_id _ w) as [c|] eqn:Hc; simpl;
    [destruct (match srv_max_connections _ with Some _ => _ | None => _ end); simpl|];
    (apply (traced_task _ _ w); [done|by intros ??|done|]; simpl; intros cn Hcn); try (by left; exists cn).
  apply elem_of_app in Hcn as [Hcn| ->%list_elem_of_singleton]; [left; by exists cn|]. by right.
Qed.

Lemma connection_step_traced t c r :
  traces r (connection_starts _ t c r) ∧ traces r (connection_ends _ t c r) ∧ traces r (connection_upgrades _ t c r).
Proof.
  unfold connection_starts, connection_ends, connection_upgrades.
  destruct (rt_tasks _ r !! t) as [w|] eqn:Ht; [|done]. destruct (wk_connections _ w !! c) as [cn|] eqn:Hc; [|done].
  split_and!.
  - destruct (cn_started _ cn); [done|]. destruct (current_listener _ _ _); [|done].
    change (with_task _ t ?w' r) with (with_shared _ (rt_shared _ r) (with_task _ t w' r)).
    apply (traced_task _ _ w); [done|by intros ??|done|]. simpl. intros cn' Hcn'. left. apply list_elem_of_lookup in Hcn' as [i Hi].
    apply list_lookup_insert_Some in Hi as [(<- & <- & _)|[_ Hi]]; [exists cn|exists cn']; split; try done; by eapply list_elem_of_lookup_2.
  - apply (traced_task _ _ w); [done|by intros ??|done|]. simpl. intros cn' Hcn'. left. exists cn'. split; [|done].
    apply list_elem_of_lookup in Hcn' as [i Hi]. rewrite list_lookup_delete in Hi. case_match; by eapply list_elem_of_lookup_2.
  - destruct (cn_started _ cn); [|done]. unfold retain_connection_slot.
    destruct (ss_listener_active_connections _ _ !! _) as [n|] eqn:Hn; [|done]. split; [|by intros ??]. split; simpl; [by left..|].
    intros gd [Hgd| ->%list_elem_of_singleton]%elem_of_app; [by left|]. by right.
Qed.

Lemma worker_step_traced t may_retry retry_failed r :
  traces r (worker_accepts _ t r) ∧ traces r (worker_serves _ t may_retry retry_failed r) ∧
  traces r (worker_stops _ t r) ∧ traces r (worker_aborts _ t r).
Proof.
  unfold worker_accepts, worker_serves, worker_stops, worker_aborts.
  destruct (rt_tasks _ r !! t) as [w|] eqn:Ht; [|done]. split_and!.
  - destruct (_ && _); [|done]. by apply (traced_task_same _ _ w).
  - destruct (wk_accepted _ w) as [acceptor|]; [|done]. destruct (current_listener _ _ _) as [listener|]; [|done].
    destruct (bool_decide _ && _ && _).
    + apply (traced_task _ _ w); [done|intros ??; by destruct retry_failed|done|]. intros cn Hcn. left. by exists cn.
    + pose proof (admits_traced r t w acceptor listener Ht). by destruct (worker_admits _ _ _ _ _).
  - destruct (_ && _ && negb (is_some (wk_accepted _ w))); [|done]. by apply (traced_task_same _ _ w).
  - apply (traced_task _ _ w); [done|apply drop_guards_keeps|done|]. simpl. by intros cn ?%not_elem_of_nil.
Qed.

Lemma continue_reload_traced changes ms r r' :
  continue_reload _ build_tls_acceptor build_clients_and_cache changes ms r = Some r' → traces r (Moved r').
Proof.
  unfold continue_reload.
  destruct (rt_phase _ r) as [|pending additions|prepared previous additions|merged prepared previous additions
    |merged prepared previous additions|merged prepared previous additions|config additions|]; try done.
  - destruct (prepare_replacement _ _ _ _ _); intros [= <-]; framed.
  - intros [= <-]. framed.
  - intros [= <-]. apply traced_frame; [|done..]. exact (sync_keeps (ps_config _ prepared) (rt_shared _ r)).
  - intros [= <-]. framed.
  - intros [= <-]. framed.
  - unfold reconcile_listener_worker_groups. set (s1 := record_reload_success _ _ _ _ _).
    set (removed := map snd _). set (kept := map_imap _ _).
    pose proof (conns_of_activate additions kept (initiate_shutdown_for_groups _ removed (rt_tasks _ r))) as Hc.
    rewrite conns_of_shutdown in Hc.
    unfold initiate_shutdown_for_groups in Hc. destruct (activate_all _ _ _ _) as [active' tasks']. intros [= <-].
    apply traced_frame; [|exact Hc|done]. exact (retire_all_keeps removed s1).
Qed.

(** Only pruning and joining remove a listener. *)
Definition removes (a : Action) : bool := match a with Prune | Join => true | _ => false end.

Lemma removal_traced r groups active draining :
  traced r (with_shared Acceptor (remove_all groups (rt_shared _ r)) (with_groups _ active draining r)).
Proof.
  split; simpl; [|by left..]. intros id c Hid. destruct (ss_listener_active_connections _ (remove_all groups (rt_shared _ r)) !! id) as [c'|] eqn:Hc; [|by right].
  left. destruct (remove_all_same_counts groups (rt_shared _ r)) as (_ & _ & Hm). apply Hm in Hc. congruence.
Qed.

Lemma step_traced a r r' :
  step _ build_tls_acceptor build_clients_and_cache a r = Moved r' →
  traced r r' ∧ (removes a = false → keeps_counters (rt_shared _ r) (rt_shared _ r')).
Proof.
  assert (∀ o, traces r o → o = Moved r' → traced r r' ∧ (removes a = false → keeps_counters (rt_shared _ r) (rt_shared _ r'))) as Hkept
    by (intros o Ho ->; by destruct Ho).
  destruct a as [loaded bind ms|changes ms| | | | | |t|t mr rf|t|t|t c|t c|t c|n]; cbn [step removes] in *.
  - destruct (rt_phase _ r); try done. apply Hkept. unfold begin_reload, prepare_reload.
    destruct loaded as [next|]; [|framed]. destruct (validate_config_transition _ _); [|framed].
    destruct (prepare_added_listener_bindings _ _ _ _ _); framed.
  - destruct (continue_reload _ _ _ _ _ _) eqn:Hc; [|done]. apply Hkept. by eapply continue_reload_traced.
  - destruct (rt_phase _ r); try done. rewrite prune_spec. intros [= <-]. split; [|done]. apply removal_traced.
  - destruct (rt_phase _ r); try done. apply Hkept, traced_frame; [by intros ??| |done]. simpl. by rewrite !conns_of_shutdown.
  - unfold join_listener_worker_groups. destruct (rt_phase _ r); try done. destruct (forallb _ _); [|done].
    intros [= <-]. split; [|done]. apply (removal_traced r (rt_draining _ r)).
  - destruct (prepare_listener_tls_acceptors _ _ _); apply Hkept; framed.
  - destruct (rt_refresh _ r); [apply Hkept; framed|done].
  - apply Hkept, (worker_step_traced t false false).
  - apply Hkept, worker_step_traced.
  - apply Hkept, (worker_step_traced t false false).
  - apply Hkept, (worker_step_traced t false false).
  - apply Hkept, connection_step_traced.
  - apply Hkept, connection_step_traced.
  - apply Hkept, connection_step_traced.
  - unfold tunnel_ends. destruct (rt_tunnels _ r !! n) as [gd|] eqn:Hn; [|done]. apply Hkept. split; [|by intros ??].
    split; simpl; [by left..|]. intros gd' Hgd'. left. apply list_elem_of_lookup in Hgd' as [i Hi].
    rewrite list_lookup_delete in Hi. case_match; by eapply list_elem_of_lookup_2.
Qed.

(** Every connection counts under the counter that its listener has. *)
Definition conns_ok r : Prop := ∀ x, x ∈ conns_of (rt_tasks _ r) → owns (rt_shared _ r) x.1 x.2.
(** So does every tunnel, while no listener has been removed. *)
Definition tunnels_ok r : Prop := ∀ gd, gd ∈ rt_tunnels _ r → owns (rt_shared _ r) (gd_listener_id gd) gd.

Lemma connected_counted r x : runtime_ok r → x ∈ conns_of (rt_tasks _ r) → counted (rt_shared _ r) x.1.
Proof.
  intros Hok (w & Hx & Hw)%list_elem_of_bind. apply list_elem_of_fmap in Hx as (cn & -> & Hcn).
  apply list_elem_of_lookup in Hw as [t Ht], Hcn as [c Hc].
  destruct (running_task r t w Hok Ht) as [_ H]; [by eapply connected_unfinished|exact H].
Qed.

Lemma conns_ok_step r r' : runtime_ok r' → traced r r' → conns_ok r → conns_ok r'.
Proof.
  intros Hok Htr Hr x Hx. destruct (tr_conns _ _ Htr x Hx) as [Hold|]; [|done]. destruct (Hr x Hold) as [Hid Hc].
  split; [done|]. destruct (tr_counters _ _ Htr _ _ Hc) as [|Hnone]; [done|].
  destruct (connected_counted r' x Hok Hx) as [c Hsome]. congruence.
Qed.

Lemma tunnels_ok_step r r' : keeps_counters (rt_shared _ r) (rt_shared _ r') → traced r r' → tunnels_ok r → tunnels_ok r'.
Proof.
  intros Hk Htr Hr gd Hgd. destruct (tr_tunnels _ _ Htr gd Hgd) as [Hold|]; [|done]. destruct (Hr gd Hold) as [_ Hc].
  split; [done|]. by apply Hk.
Qed.

Lemma start_idle bind config r : start _ build_tls_acceptor build_clients_and_cache bind config = Ok r → live_guards r = [].
Proof.
  unfold start, from_parts.
  destruct (prepare_state _ _ _ config) as [prepared|]; simpl; [|done]. unfold build_initial_listener_groups.
  set (f := λ (acc : result Error (gmap string ListenerWorkerGroup * list Worker)) listener, _).
  assert (Hfail : ∀ l e, foldl f (Err e) l = Err e) by (induction l; done).
  assert (Hgo : ∀ l acc res, guards_of acc.2 = [] → foldl f (Ok acc) l = Ok res → guards_of res.2 = []).
  { induction l as [|x l IH]; intros acc res Ha; cbn [foldl]; [by intros [= <-]|].
    unfold f at 2, prepare_listener_worker_group. simpl rbind. destruct (bind x); simpl rbind; [|by rewrite Hfail].
    apply IH. by rewrite activate_all_guards. }
  destruct (foldl f _ _) as [groups|] eqn:Hg; simpl; [|done]. intros [= <-].
  apply Hgo in Hg; [|done]. unfold live_guards. simpl. by rewrite Hg.
Qed.

Lemma start_owned bind config r :
  start _ build_tls_acceptor build_clients_and_cache bind config = Ok r → conns_ok r ∧ tunnels_ok r.
Proof.
  intros Hs%start_idle. unfold live_guards in Hs. apply app_nil in Hs as [Hg Ht]. rewrite guards_of_conns in Hg.
  apply fmap_nil_inv in Hg. unfold conns_ok, tunnels_ok. rewrite Hg, Ht. split; by intros ? ?%not_elem_of_nil.
Qed.

Lemma run_owned actions r r' :
  runtime_ok r → Forall action_ok actions → conns_ok r →
  run _ build_tls_acceptor build_clients_and_cache actions r = Some r' →
  conns_ok r' ∧ (tunnels_ok r → forallb (λ a, negb (removes a)) actions = true → tunnels_ok r').
Proof.
  revert r. induction actions as [|a actions IH]; intros r Hok Ha Hr; simpl; [by intros [= <-]|].
  apply Forall_cons in Ha as [Ha Has]. pose proof (step_ok a r Hok Ha) as Hstep. pose proof (step_traced a r) as Htr.
  destruct (step _ _ _ a r) as [r1| |]; simpl in Hstep; [|intros Hrun|done].
  - destruct (Htr r1 eq_refl) as [Ht Hk]. intros Hrun. destruct (IH r1) as [H1 H2]; [done|done|by eapply conns_ok_step|done|].
    split; [done|]. intros Htun [Hne Hall]%andb_true_iff. apply H2; [|done]. apply negb_true_iff in Hne. exact (tunnels_ok_step _ _ (Hk Hne) Ht Htun).
  - destruct (IH r Hok Has Hr Hrun) as [H1 H2]. split; [done|]. intros Htun [_ Hall]%andb_true_iff. auto.
Qed.

(** The connections of a listener, and the tunnels of it that count under a
    counter. *)
Definition connections_of (id : string) r : Z :=
  Z.of_nat (length (filter (λ x, x.1 = id) (conns_of (rt_tasks _ r)))).
Definition tunnels_of (id : string) (counter : nat) r : Z :=
  Z.of_nat (length (filter (λ gd, gd_listener_id gd = id ∧ gd_counter gd = counter) (rt_tunnels _ r))).

Lemma length_filter_same {A} (P Q : A → Prop) `{!∀ x, Decision (P x), !∀ x, Decision (Q x)} l :
  (∀ x, x ∈ l → P x ↔ Q x) → length (filter P l) = length (filter Q l).
Proof.
  induction l as [|x l IH]; intros Hpq; [done|]. rewrite !filter_cons. pose proof (Hpq x ltac:(by left)) as Hx.
  assert (length (filter P l) = length (filter Q l)) as Hl by (apply IH; intros y Hy; apply Hpq; by right).
  destruct (decide (P x)), (decide (Q x)); cbn [length]; [by rewrite Hl|tauto|tauto|done].
Qed.

(** The holders of a listener's counter are its connections and tunnels. *)
Lemma holders_of_listener r id counter :
  runtime_counts r → conns_ok r → ss_listener_active_connections _ (rt_shared _ r) !! id = Some counter →
  holders counter (live_guards r) = connections_of id r + tunnels_of id counter r.
Proof.
  intros [_ _ _ _ Hd Ho] Hc Hid. unfold holders, connections_of, tunnels_of, live_guards.
  rewrite filter_app, length_app, Nat2Z.inj_add. f_equal; f_equal.
  - rewrite guards_of_conns. transitivity (length (filter (λ x : string * ConnectionGuard, gd_counter x.2 = counter) (conns_of (rt_tasks _ r)))).
    + generalize (conns_of (rt_tasks _ r)). intros l. induction l as [|x l IH]; [done|]. cbn [map]. rewrite !filter_cons.
      case_decide; cbn [length]; by rewrite IH.
    + apply length_filter_same. intros x Hx. destruct (Hc x Hx) as [_ Hown]. split.
      * intros <-. by apply (Hd id x.1 (gd_counter x.2)).
      * intros <-. congruence.
  - apply length_filter_same. intros gd Hgd. split; [|tauto]. intros Hcounter. split; [|done].
    apply Ho; [|by rewrite Hcounter]. apply elem_of_app. by right.
Qed.


(** ** Properties *)

(** C36.  Whatever the order of reloads, refreshes, shutdown and what the
    workers and connections do, no task panics for want of its listener or its
    counter; and a task that still runs, of a listener that serves or drains,
    has both. *)
Theorem running_tasks_keep_their_listener bind config r actions :
  distinct_listeners config → start _ build_tls_acceptor build_clients_and_cache bind config = Ok r → Forall action_ok actions →
  ∃ r', run _ build_tls_acceptor build_clients_and_cache actions r = Some r' ∧
    ∀ t w, rt_tasks _ r' !! t = Some w → worker_is_finished _ w = false →
      is_Some (current_listener _ (rt_shared _ r') (wk_listener_id _ w)) ∧
      is_Some (ss_listener_active_connections _ (rt_shared _ r') !! wk_listener_id _ w).
Proof.
  intros Hd Hs Ha. destruct (runtime_run_ok actions r (start_ok _ _ _ Hd Hs) Ha) as (r' & Hr & Hok). exists r'. split; [done|].
  intros t w. by apply running_task.
Qed.

(** C37.  In every state the server's counter is the number of connections and
    tunnels that live, and each listener has a counter of its own, which no other
    listener shares: its number is that of the listener's own connections and of
    its tunnels that count under this counter, and a listener with a limit takes
    another connection exactly when this number is lower.  All of a listener's
    connections count under it; so do all its tunnels as long as the groups that
    drain have not been pruned or joined, which is when a listener is removed.
    (A tunnel may outlive the removal of its listener; if the listener comes back
    it has a new counter, and the tunnel goes on counting under the one it had.)
    This is while fewer than 2^64 connections and tunnels live. *)
Theorem connections_are_counted bind config r actions :
  distinct_listeners config → start _ build_tls_acceptor build_clients_and_cache bind config = Ok r → Forall action_ok actions →
  ∃ r', run _ build_tls_acceptor build_clients_and_cache actions r = Some r' ∧
    (Z.of_nat (length (live_guards r')) < 2 ^ 64 →
     ss_active_connections _ (rt_shared _ r') = Z.of_nat (length (live_guards r')) ∧
     ∀ id counter, ss_listener_active_connections _ (rt_shared _ r') !! id = Some counter →
       (∀ id', ss_listener_active_connections _ (rt_shared _ r') !! id' = Some counter → id' = id) ∧
       count_of counter (ss_counters _ (rt_shared _ r')) = connections_of id r' + tunnels_of id counter r' ∧
       ∀ limit, try_acquire_connection _ id (Some limit) (rt_shared _ r') = None ↔
                limit <= connections_of id r' + tunnels_of id counter r') ∧
    (∀ x, x ∈ conns_of (rt_tasks _ r') → owns (rt_shared _ r') x.1 x.2) ∧
    (forallb (λ a, negb (removes a)) actions = true →
     ∀ gd, gd ∈ rt_tunnels _ r' → owns (rt_shared _ r') (gd_listener_id gd) gd).
Proof.
  intros Hd Hs Ha. pose proof (start_ok _ _ _ Hd Hs) as Hok0. destruct (start_owned _ _ _ Hs) as [Hc0 Ht0].
  destruct (runtime_run_ok actions r Hok0 Ha) as (r' & Hr & _). exists r'. split; [done|].
  destruct (run_owned actions r r' Hok0 Ha Hc0 Hr) as [Hconns Htunnels].
  pose proof (run_counts _ _ _ (start_counts _ _ _ Hs) Hr) as Hcounts.
  split; [|split; [exact Hconns|intros Hall; by apply Htunnels]]. intros Hlt.
  pose proof Hcounts as [Ht He Hg Hm Hdist Ho].
  split; [rewrite Ht; apply wrap64_small; unfold is_u64; lia|]. intros id counter Hc.
  assert (Hcount : count_of counter (ss_counters _ (rt_shared _ r')) = connections_of id r' + tunnels_of id counter r').
  { rewrite <-(holders_of_listener r' id counter Hcounts Hconns Hc), He. apply wrap64_small. unfold is_u64, holders.
    pose proof (length_filter (λ gd, gd_counter gd = counter) (live_guards r')). lia. }
  split_and!; [intros id' Hid'; by apply (Hdist id id' counter)|done|]. intros limit. unfold try_acquire_connection. rewrite Hc. simpl. rewrite Hcount.
  destruct (limit <=? _) eqn:Hle; boolify; split; done || lia.
Qed.
End RuntimeSafety.

(** ** Witnesses and samples *)

#[local] Existing Instance RefRegex.api.
#[local] Existing Instance RefIpNet.api.
#[local] Existing Instance RefHttp.api.

(** Certificates are named after their listener. *)
Definition sample_build (_ : ConfigSnapshot) (l : Listener) : result Error (option string) :=
  Ok (if lst_tls_termination_enabled l then Some (lst_id l) else None).
Definition sample_clients (_ : ConfigSnapshot) : result Error () := Ok tt.
Definition sample_bind (_ : Listener) : result Error () := Ok tt.

Definition sample_server (port : Z) (limit : option Z) : Server :=
  mkServer (mkSocketAddr (V4 [0; 0; 0; 0]) port) default_server_header None [] None true None None limit None None None None None.
Definition sample_http : Listener := mkListener "http" "http" (sample_server 80 (Some 2)) false false None.
Definition sample_https : Listener := mkListener "https" "https" (sample_server 443 None) true false None.
Definition sample_config (listeners : list Listener) : ConfigSnapshot :=
  mkSnapshot (mkRuntimeSettings 10000 None 1) None [] listeners (mkVirtualHost "server" [] [] None) [] ∅ ∅.

Definition sample_start (listeners : list Listener) : result Error (Runtime string) :=
  start string sample_build sample_clients sample_bind (sample_config listeners).
Definition sample_run (actions : list Action) (listeners : list Listener) : option (Runtime string) :=
  match sample_start listeners with Ok r => run string sample_build sample_clients actions r | Err _ => None end.

(** A reload and its six pieces. *)
Definition reload_to (listeners : list Listener) : list Action :=
  Reload (Ok (sample_config listeners)) sample_bind 1000 :: replicate 6 (ContinueReload [] 1000).
Definition connects (t : nat) : list Action := [WorkerAccepts t; WorkerServes t false false].

(** What each task's connections do with TLS. *)
Definition acceptors_of (r : option (Runtime string)) : list (string * list (option string)) :=
  match r with
  | Some r => map (λ w, (wk_listener_id _ w, map (cn_tls_acceptor _) (wk_connections _ w))) (rt_tasks _ r)
  | None => []
  end.

(** A connection of a listener that drains goes on, opens a tunnel, and when the
    last connection is gone the listener is removed; the tunnel stays counted. *)
Definition drains : list Action :=
  connects 1 ++ [ConnectionStarts 1 0] ++ reload_to [sample_http] ++ connects 1 ++ [ConnectionUpgrades 1 0; WorkerStops 1;
    ConnectionStarts 1 1; ConnectionEnds 1 0; Prune; ConnectionEnds 1 0; Prune].

Example drained_listener_is_removed :
  match sample_run drains [sample_http; sample_https] with
  | Some r => (map group_id (rt_draining _ r), current_listener _ (rt_shared _ r) "https", ss_active_connections _ (rt_shared _ r))
              = ([], None, 1)
  | None => False
  end.
Proof. by vm_compute. Qed.

(** A tunnel outlives its listener: when the listener comes back it has a new
    counter, and the tunnel is not among its connections. *)
Example tunnel_of_an_earlier_listener :
  match sample_run (drains ++ reload_to [sample_http; sample_https] ++ connects 2) [sample_http; sample_https] with
  | Some r => (ss_active_connections _ (rt_shared _ r), map gd_counter (rt_tunnels _ r),
               ss_listener_active_connections _ (rt_shared _ r) !! "https") = (2, [1%nat], Some 2%nat)
  | None => False
  end.
Proof. by vm_compute. Qed.

(** The listener may not come back before it has drained. *)
Example draining_listener_is_not_added_again :
  match sample_run (connects 1 ++ reload_to [sample_http] ++ reload_to [sample_http; sample_https]) [sample_http; sample_https] with
  | Some r => (rh_successes_total (ss_reload_history _ (rt_shared _ r)), rh_failures_total (ss_reload_history _ (rt_shared _ r)))
              = (1, 1)
  | None => False
  end.
Proof. by vm_compute. Qed.

Example limit_is_kept :
  option_map (λ r, map (λ w, length (wk_connections _ w)) (rt_tasks _ r))
    (sample_run (connects 0 ++ connects 0 ++ connects 0) [sample_http; sample_https]) = Some [2; 0]%nat.
Proof. by vm_compute. Qed.

(** A refresh of the certificates keeps the acceptors of the listeners of the
    configuration only: a TLS listener that drains, whose worker has not stopped,
    then takes a connection without TLS. *)
Example refresh_drops_draining_acceptors :
  acceptors_of (sample_run (connects 1 ++ reload_to [sample_http] ++ [RefreshBuilds; RefreshInstalls] ++ connects 1)
                  [sample_http; sample_https]) = [("http", []); ("https", [Some "https"; None])]%string.
Proof. by vm_compute. Qed.

(** So does a refresh that a reload overtakes, for a TLS listener that the reload
    added, until the next refresh or reload. *)
Example overtaken_refresh_drops_new_acceptors :
  acceptors_of (sample_run ([RefreshBuilds] ++ reload_to [sample_http; sample_https] ++ connects 1 ++ [RefreshInstalls] ++ connects 1)
                  [sample_http]) = [("http", []); ("https", [Some "https"; None])]%string.
Proof. by vm_compute. Qed.

Lemma running_tasks_keep_their_listener_witness :
  ∃ r r', sample_start [sample_http; sample_https] = Ok r ∧ run string sample_build sample_clients drains r = Some r' ∧
    ∀ t w, rt_tasks _ r' !! t = Some w → worker_is_finished _ w = false →
      is_Some (current_listener _ (rt_shared _ r') (wk_listener_id _ w)) ∧
      is_Some (ss_listener_active_connections _ (rt_shared _ r') !! wk_listener_id _ w).
Proof.
  assert (Hx : match sample_start [sample_http; sample_https] with Ok _ => True | Err _ => False end) by (by vm_compute).
  destruct (sample_start [sample_http; sample_https]) as [r|] eqn:Hs; [|destruct Hx].
  destruct (running_tasks_keep_their_listener string sample_build sample_clients sample_bind
              (sample_config [sample_http; sample_https]) r drains) as (r' & Hr & Hall).
  - unfold distinct_listeners. apply (bool_decide_unpack _). by vm_compute.
  - exact Hs.
  - repeat constructor.
    apply (bool_decide_unpack _). by vm_compute.
  - exists r, r'. split; [reflexivity|]. split; [exact Hr|exact Hall].
Defined.

(** Two connections and a tunnel, the limit of two reached. *)
Definition fills : list Action := connects 0 ++ [ConnectionStarts 0 0; ConnectionUpgrades 0 0] ++ connects 0.

Lemma connections_are_counted_witness :
  ∃ r r', sample_start [sample_http; sample_https] = Ok r ∧ run string sample_build sample_clients fills r = Some r' ∧
    ss_active_connections _ (rt_shared _ r') = 2 ∧
    ∀ limit, try_acquire_connection _ "http" (Some limit) (rt_shared _ r') = None ↔ limit <= 2.
Proof.
  assert (Hx : match sample_start [sample_http; sample_https] with
               | Ok r =>
                   match run string sample_build sample_clients fills r with
                   | Some r' => (length (live_guards _ r'), ss_listener_active_connections _ (rt_shared _ r') !! "http",
                                 connections_of _ "http" r', tunnels_of _ "http" 0 r') = (2%nat, Some 0%nat, 1, 1)
                   | None => False
                   end
               | Err _ => False
               end) by (by vm_compute).
  destruct (sample_start [sample_http; sample_https]) as [r|] eqn:Hs; [|destruct Hx].
  destruct (connections_are_counted string sample_build sample_clients sample_bind (sample_config [sample_http; sample_https]) r fills)
    as (r' & Hr & Hall & _).
  - unfold distinct_listeners. apply (bool_decide_unpack _). by vm_compute.
  - exact Hs.
  - repeat constructor.
  - rewrite Hr in Hx. injection Hx as Hlive Hc Hconns Htunnels. destruct Hall as [Htotal Heach]; [rewrite Hlive; lia|].
    exists r, r'. split; [reflexivity|]. split; [exact Hr|]. rewrite Hlive in Htotal. split; [exact Htotal|].
    destruct (Heach _ _ Hc) as (_ & _ & Hlim). rewrite Hconns, Htunnels in Hlim. exact Hlim.
Defined.
