(* ===== verification/Router.v ===== *)
(** * The router: virtual host and route selection

    Models [crates/rginx-http/src/router.rs]: one pass keeps the most specific
    exact route and the most specific prefix route, then regular expressions
    are tried in order unless the best prefix is a preferred one; virtual hosts
    are chosen by the priority of their best server name. *)

From S2P Require Import Prelude RustStr External ServerName Upstream CacheConfig ProxyHeader Route.

Section Router.
  Context {RX : RegexApi} {NET : IpNetApi} {HTTP : HttpApi}.

(** Source: crates/rginx-http/src/router.rs:4-7 (GrpcRequestMatch) *)
Record GrpcRequestMatch : Type := mkGrpcRequestMatch {
  grm_service : string;
  grm_method : string;
}.

(** Source: crates/rginx-http/src/router.rs:10-13 (RouteMatchContext) *)
Record RouteMatchContext : Type := mkRouteMatchContext {
  rmc_path : string;
  rmc_grpc : option GrpcRequestMatch;
}.

(** Source: crates/rginx-http/src/router.rs:16-18 (RouteMatchContext::new) *)
Definition new_context (path : string) : RouteMatchContext := mkRouteMatchContext path None.
(** Source: crates/rginx-http/src/router.rs:20-22 (RouteMatchContext::with_grpc) *)
Definition with_grpc (path service method : string) : RouteMatchContext :=
  mkRouteMatchContext path (Some (mkGrpcRequestMatch service method)).

(** Source: crates/rginx-http/src/router.rs:179-187 (route_matches) *)
Definition route_matches (route : Route) (context : RouteMatchContext) : bool :=
  if negb (matcher_matches (route_matcher route) (rmc_path context)) then false
  else is_none_or
         (λ grpc_match,
            match rmc_grpc context with
            | Some grpc => grpc_matches grpc_match (grm_service grpc) (grm_method grpc)
            | None => false
            end) (route_grpc_match route).

(** Source: crates/rginx-http/src/router.rs:80-86 (Candidate) *)
Record Candidate : Type := mkCandidate {
  cand_index : nat;
  cand_route : Route;
  cand_match_len : Z;
  cand_grpc_rank : Z;
  cand_preferred_prefix : bool;
}.

(** Source: crates/rginx-http/src/router.rs:89-97 (Candidate::new) *)
Definition new_candidate (index : nat) (route : Route) (match_len : Z) (preferred_prefix : bool)
    : Candidate :=
  mkCandidate index route match_len
    (match route_grpc_match route with Some g => grpc_priority g | None => 0 end)
    preferred_prefix.

(** Source: crates/rginx-http/src/router.rs:100-119 (select_more_specific) *)
Definition select_more_specific (current : option Candidate) (candidate : Candidate)
    : option Candidate :=
  match current with
  | None => Some candidate
  | Some existing =>
      if cand_match_len existing <? cand_match_len candidate then Some candidate
      else if cand_match_len candidate <? cand_match_len existing then Some existing
      else if cand_preferred_prefix candidate && negb (cand_preferred_prefix existing)
      then Some candidate
      else if negb (cand_preferred_prefix candidate) && cand_preferred_prefix existing
      then Some existing
      else if cand_grpc_rank existing <? cand_grpc_rank candidate then Some candidate
      else if cand_grpc_rank candidate <? cand_grpc_rank existing then Some existing
      else if (cand_index candidate <? cand_index existing)%nat then Some candidate
      else Some existing
  end.

(** One iteration of the first loop: the [exact] and [prefix] accumulators. *)
(** Source: crates/rginx-http/src/router.rs:37-58 (select_route_with_context, first loop body) *)
Definition consider (context : RouteMatchContext) (acc : option Candidate * option Candidate)
    (entry : nat * Route) : option Candidate * option Candidate :=
  let '(exact, prefix) := acc in
  let '(index, route) := entry in
  if negb (route_matches route context) then acc
  else match route_matcher route with
       | MExact path =>
           (select_more_specific exact (new_candidate index route (str_len path) false), prefix)
       | MPreferredPrefix path =>
           (exact, select_more_specific prefix (new_candidate index route (str_len path) true))
       | MPrefix path =>
           (exact, select_more_specific prefix (new_candidate index route (str_len path) false))
       | MRegex _ => acc
       end.

Definition is_regex (r : Route) : bool :=
  match route_matcher r with MRegex _ => true | _ => false end.

(** Source: crates/rginx-http/src/router.rs:29-77 (select_route_with_context) *)
Definition select_route_with_context (routes : list Route) (context : RouteMatchContext)
    : option Route :=
  let '(exact, prefix) := foldl (consider context) (None, None) (enumerate routes) in
  match exact with
  | Some candidate => Some (cand_route candidate)
  | None =>
      let fallback :=
        match find_first (λ route, is_regex route && route_matches route context) routes with
        | Some route => Some route
        | None => cand_route <$> prefix
        end in
      match prefix with
      | Some candidate => if cand_preferred_prefix candidate then Some (cand_route candidate) else fallback
      | None => fallback
      end
  end.

(** Source: crates/rginx-http/src/router.rs:25-27 (select_route) *)
Definition select_route (routes : list Route) (path : string) : option Route :=
  select_route_with_context routes (new_context path).

(** Source: crates/rginx-http/src/router.rs:122-144 (select_vhost) *)
Definition vhost_step (host : string) (selected : option ((Z * Z) * VirtualHost))
    (vhost : VirtualHost) : option ((Z * Z) * VirtualHost) :=
  match best_server_name_match (vhost_server_names vhost) host with
  | None => selected
  | Some matched =>
      let prio := priority matched in
      match selected with
      | None => Some (prio, vhost)
      | Some (current_priority, _) =>
          if cmp_is_gt (pair_cmp prio current_priority) then Some (prio, vhost) else selected
      end
  end.

(** Source: crates/rginx-http/src/router.rs:122-144 (select_vhost) *)
Definition select_vhost (vhosts : list VirtualHost) (default_ : VirtualHost) (host : string)
    : VirtualHost :=
  match foldl (vhost_step host) None vhosts with
  | Some (_, vhost) => vhost
  | None => default_
  end.

(** Source: crates/rginx-http/src/router.rs:147-149 (select_route_in_vhost) *)
Definition select_route_in_vhost (vhost : VirtualHost) (path : string) : option Route :=
  select_route (vhost_routes vhost) path.
(** Source: crates/rginx-http/src/router.rs:151-156 (select_route_in_vhost_with_context) *)
Definition select_route_in_vhost_with_context (vhost : VirtualHost)
    (context : RouteMatchContext) : option Route :=
  select_route_with_context (vhost_routes vhost) context.

(** Source: crates/rginx-http/src/router.rs:159-167 (select_route_by_host) *)
Definition select_route_by_host (default_vhost : VirtualHost) (vhosts : list VirtualHost)
    (host path : string) : option (VirtualHost * Route) :=
  let vhost := select_vhost vhosts default_vhost host in
  (λ route, (vhost, route)) <$> select_route_in_vhost vhost path.

(** Source: crates/rginx-http/src/router.rs:169-177 (select_route_by_host_with_context) *)
Definition select_route_by_host_with_context (default_vhost : VirtualHost)
    (vhosts : list VirtualHost) (host : string) (context : RouteMatchContext)
    : option (VirtualHost * Route) :=
  let vhost := select_vhost vhosts default_vhost host in
  (λ route, (vhost, route)) <$> select_route_in_vhost_with_context vhost context.

(** ** Specificity is a total order on candidates of distinct indices *)

Definition z2 (b : bool) : Z := if b then 1 else 0.

(** The order [select_more_specific] implements, as a single comparison. *)
Definition specificity (x y : Candidate) : comparison :=
  then_cmp (cand_match_len x ?= cand_match_len y)
    (then_cmp (z2 (cand_preferred_prefix x) ?= z2 (cand_preferred_prefix y))
      (then_cmp (cand_grpc_rank x ?= cand_grpc_rank y)
        (Nat.compare (cand_index y) (cand_index x)))).

Definition more_specific (x y : Candidate) : bool := cmp_is_gt (specificity x y).

Lemma select_more_specific_challenge current candidate :
  select_more_specific current candidate = challenge more_specific current candidate.
Proof.
  destruct current as [existing|]; [|done]. unfold select_more_specific, challenge.
  unfold more_specific, specificity.
  destruct (Z.compare_spec (cand_match_len candidate) (cand_match_len existing)) as [E|E|E]; simpl.
  - rewrite E, !Z.ltb_irrefl.
    destruct (cand_preferred_prefix candidate), (cand_preferred_prefix existing); simpl; try done.
    all: destruct (Z.compare_spec (cand_grpc_rank candidate) (cand_grpc_rank existing)) as [F|F|F]; simpl.
    all: try rewrite F, !Z.ltb_irrefl.
    all: try (rewrite (proj2 (Z.ltb_ge (cand_grpc_rank existing) (cand_grpc_rank candidate))) by lia;
              by rewrite (proj2 (Z.ltb_lt (cand_grpc_rank candidate) (cand_grpc_rank existing))) by lia).
    all: try by rewrite (proj2 (Z.ltb_lt (cand_grpc_rank existing) (cand_grpc_rank candidate))) by lia.
    all: destruct (Nat.compare_spec (cand_index existing) (cand_index candidate)) as [G|G|G]; simpl.
    all: destruct (Nat.ltb_spec (cand_index candidate) (cand_index existing)); done || lia.
  - rewrite (proj2 (Z.ltb_ge (cand_match_len existing) (cand_match_len candidate))) by lia.
    by rewrite (proj2 (Z.ltb_lt (cand_match_len candidate) (cand_match_len existing))) by lia.
  - by rewrite (proj2 (Z.ltb_lt (cand_match_len existing) (cand_match_len candidate))) by lia.
Qed.

Definition spec_le (x y : Candidate) : Prop := specificity x y ≠ Gt.

Lemma spec_le_alt x y :
  spec_le x y ↔
    cand_match_len x < cand_match_len y ∨
    (cand_match_len x = cand_match_len y ∧
      (z2 (cand_preferred_prefix x) < z2 (cand_preferred_prefix y) ∨
      (z2 (cand_preferred_prefix x) = z2 (cand_preferred_prefix y) ∧
        (cand_grpc_rank x < cand_grpc_rank y ∨
        (cand_grpc_rank x = cand_grpc_rank y ∧ (cand_index y ≤ cand_index x)%nat))))).
Proof.
  unfold spec_le, specificity.
  destruct (Z.compare_spec (cand_match_len x) (cand_match_len y)); simpl;
    [|intuition (lia || congruence)..].
  destruct (Z.compare_spec (z2 (cand_preferred_prefix x)) (z2 (cand_preferred_prefix y))); simpl;
    [|intuition (lia || congruence)..].
  destruct (Z.compare_spec (cand_grpc_rank x) (cand_grpc_rank y)); simpl;
    [|intuition (lia || congruence)..].
  destruct (Nat.compare_spec (cand_index y) (cand_index x)); intuition (lia || congruence).
Qed.

#[export] Instance spec_le_preorder : PreOrder spec_le.
Proof.
  split.
  - intros x. apply spec_le_alt. lia.
  - intros x y z Hxy Hyz. rewrite spec_le_alt in *. lia.
Qed.

Lemma spec_le_antisym x y : spec_le x y → spec_le y x → cand_index x = cand_index y.
Proof. rewrite !spec_le_alt. lia. Qed.

Lemma spec_le_total x y : specificity x y = Gt → spec_le y x.
Proof.
  intros Hgt. destruct (decide (spec_le x y)) as [Hle|Hnle].
  - unfold spec_le in Hle. congruence.
  - rewrite spec_le_alt in *. lia.
Qed.

Lemma more_specific_true x y : more_specific x y = true → spec_le y x.
Proof. unfold more_specific. intros H. apply spec_le_total. by destruct (specificity x y). Qed.
Lemma more_specific_false x y : more_specific x y = false → spec_le x y.
Proof. unfold more_specific, spec_le. by destruct (specificity x y). Qed.

(** ** The two accumulators are champions *)

Definition exact_candidate (context : RouteMatchContext) (entry : nat * Route) : option Candidate :=
  let '(index, route) := entry in
  if route_matches route context then
    match route_matcher route with
    | MExact path => Some (new_candidate index route (str_len path) false)
    | _ => None
    end
  else None.

Definition prefix_candidate (context : RouteMatchContext) (entry : nat * Route) : option Candidate :=
  let '(index, route) := entry in
  if route_matches route context then
    match route_matcher route with
    | MPreferredPrefix path => Some (new_candidate index route (str_len path) true)
    | MPrefix path => Some (new_candidate index route (str_len path) false)
    | _ => None
    end
  else None.

Definition exacts (context : RouteMatchContext) (routes : list Route) : list Candidate :=
  omap (exact_candidate context) (enumerate routes).
Definition prefixes (context : RouteMatchContext) (routes : list Route) : list Candidate :=
  omap (prefix_candidate context) (enumerate routes).

Lemma consider_champions context entries e p :
  foldl (consider context) (e, p) entries =
  (champion_from more_specific e (omap (exact_candidate context) entries),
   champion_from more_specific p (omap (prefix_candidate context) entries)).
Proof.
  revert e p. induction entries as [|[i r] entries IH]; intros e p; [done|].
  simpl. destruct (route_matches r context); simpl; [|by rewrite IH].
  destruct (route_matcher r); rewrite IH, ?select_more_specific_challenge; done.
Qed.

Lemma select_route_champions routes context :
  select_route_with_context routes context =
  match champion more_specific (exacts context routes) with
  | Some c => Some (cand_route c)
  | None =>
      let fallback :=
        match find_first (λ r, is_regex r && route_matches r context) routes with
        | Some r => Some r
        | None => cand_route <$> champion more_specific (prefixes context routes)
        end in
      match champion more_specific (prefixes context routes) with
      | Some c => if cand_preferred_prefix c then Some (cand_route c) else fallback
      | None => fallback
      end
  end.
Proof. unfold select_route_with_context. by rewrite consider_champions. Qed.

Lemma elem_of_exacts context routes c :
  c ∈ exacts context routes ↔
  ∃ i r path, routes !! i = Some r ∧ route_matches r context = true ∧
    route_matcher r = MExact path ∧ c = new_candidate i r (str_len path) false.
Proof.
  unfold exacts. rewrite list_elem_of_omap. split.
  - intros ([i r] & Hin%elem_of_enumerate & Hc). simpl in Hc.
    destruct (route_matches r context) eqn:Hm; [|done].
    destruct (route_matcher r) eqn:Hr; simplify_eq. by exists i, r, path.
  - intros (i & r & path & Hi & Hm & Hr & ->). exists (i, r).
    split; [by apply elem_of_enumerate|]. simpl. by rewrite Hm, Hr.
Qed.

Lemma elem_of_prefixes context routes c :
  c ∈ prefixes context routes ↔
  ∃ i r path, routes !! i = Some r ∧ route_matches r context = true ∧
    ((route_matcher r = MPreferredPrefix path ∧ c = new_candidate i r (str_len path) true) ∨
     (route_matcher r = MPrefix path ∧ c = new_candidate i r (str_len path) false)).
Proof.
  unfold prefixes. rewrite list_elem_of_omap. split.
  - intros ([i r] & Hin%elem_of_enumerate & Hc). simpl in Hc.
    destruct (route_matches r context) eqn:Hm; [|done].
    destruct (route_matcher r) eqn:Hr; simplify_eq; exists i, r; eexists; eauto 6.
  - intros (i & r & path & Hi & Hm & [[Hr ->]|[Hr ->]]); exists (i, r);
      (split; [by apply elem_of_enumerate|]; simpl; by rewrite Hm, Hr).
Qed.

Lemma candidates_route context routes c :
  c ∈ exacts context routes ∨ c ∈ prefixes context routes →
  routes !! cand_index c = Some (cand_route c) ∧
  route_matches (cand_route c) context = true ∧ is_regex (cand_route c) = false.
Proof.
  unfold is_regex. intros [Hc|Hc].
  - apply elem_of_exacts in Hc as (i & r & path & Hi & Hm & Hr & ->). simpl. by rewrite Hr.
  - apply elem_of_prefixes in Hc as (i & r & path & Hi & Hm & [[Hr ->]|[Hr ->]]); simpl; by rewrite Hr.
Qed.

(** ** The documented precedence *)

(** The best of a list of candidates. *)
Definition best (l : list Candidate) (c : Candidate) : Prop :=
  c ∈ l ∧ ∀ d, d ∈ l → spec_le d c.

Lemma champion_best l c : champion more_specific l = Some c → best l c.
Proof.
  intros Hc. apply (champion_Some _ spec_le more_specific_true more_specific_false) in Hc as [Hin Hall].
  split; [done|]. by rewrite Forall_forall in Hall.
Qed.

Lemma champion_nil l : champion more_specific l = None → l = [].
Proof. by rewrite champion_None. Qed.

Definition regex_hit (context : RouteMatchContext) (routes : list Route) (i : nat) (r : Route) : Prop :=
  routes !! i = Some r ∧ is_regex r = true ∧ route_matches r context = true.

(** The nginx order of precedence as a relation: an exact match wins; else the
    longest prefix wins if it is a preferred one; else the first regular
    expression in configuration order; else the longest prefix. *)
Inductive selected (context : RouteMatchContext) (routes : list Route) : Route → Prop :=
| sel_exact c :
    best (exacts context routes) c → selected context routes (cand_route c)
| sel_preferred c :
    exacts context routes = [] → best (prefixes context routes) c →
    cand_preferred_prefix c = true → selected context routes (cand_route c)
| sel_regex i r :
    exacts context routes = [] →
    (∀ c, best (prefixes context routes) c → cand_preferred_prefix c = false) →
    regex_hit context routes i r →
    (∀ j s, regex_hit context routes j s → (i ≤ j)%nat) →
    selected context routes r
| sel_prefix c :
    exacts context routes = [] → (∀ j s, ¬ regex_hit context routes j s) →
    best (prefixes context routes) c → selected context routes (cand_route c).

Lemma best_unique context routes l c d :
  l = exacts context routes ∨ l = prefixes context routes →
  best l c → best l d → cand_route c = cand_route d ∧ cand_preferred_prefix c = cand_preferred_prefix d.
Proof.
  intros Hl [Hc Hcb] [Hd Hdb].
  pose proof (Hcb _ Hd) as H1. pose proof (Hdb _ Hc) as H2.
  pose proof (spec_le_antisym _ _ H1 H2) as Hidx.
  assert (Hroute : ∀ e, e ∈ l → routes !! cand_index e = Some (cand_route e)).
  { intros e He. destruct (candidates_route context routes e) as [? _]; [|done].
    destruct Hl as [->| ->]; tauto. }
  pose proof (Hroute _ Hc) as Ec. pose proof (Hroute _ Hd) as Ed.
  split; [rewrite Hidx in Ed; congruence|].
  rewrite spec_le_alt in H1, H2.
  destruct (cand_preferred_prefix c), (cand_preferred_prefix d); simpl in *; try done; lia.
Qed.

Lemma find_regex_Some context routes r :
  find_first (λ r, is_regex r && route_matches r context) routes = Some r →
  ∃ i, regex_hit context routes i r ∧ ∀ j s, regex_hit context routes j s → (i ≤ j)%nat.
Proof.
  intros (l1 & l2 & -> & Hr & Hl1)%find_first_Some. apply andb_true_iff in Hr as [Hx Hm].
  exists (length l1). split.
  - split_and!; [|done..]. by rewrite lookup_app_r, Nat.sub_diag.
  - intros j s (Hj & Hsx & Hsm). destruct (decide (length l1 ≤ j)%nat) as [|Hlt]; [done|].
    rewrite lookup_app_l in Hj by lia. rewrite Forall_forall in Hl1.
    apply list_elem_of_lookup_2, Hl1 in Hj. by rewrite Hsx, Hsm in Hj.
Qed.

Lemma find_regex_None context routes :
  find_first (λ r, is_regex r && route_matches r context) routes = None →
  ∀ j s, ¬ regex_hit context routes j s.
Proof.
  rewrite find_first_None, Forall_forall. intros Hall j s (Hj & Hx & Hm).
  apply list_elem_of_lookup_2, Hall in Hj. by rewrite Hx, Hm in Hj.
Qed.

Lemma select_route_sound context routes r :
  select_route_with_context routes context = Some r → selected context routes r.
Proof.
  rewrite select_route_champions.
  destruct (champion more_specific (exacts context routes)) as [c|] eqn:He.
  { intros [= <-]. by apply sel_exact, champion_best. }
  apply champion_nil in He.
  destruct (champion more_specific (prefixes context routes)) as [c|] eqn:Hp.
  - destruct (cand_preferred_prefix c) eqn:Hpp.
    + intros [= <-]. apply sel_preferred; [done|by apply champion_best|done].
    + simpl. destruct (find_first _ routes) as [s|] eqn:Hf.
      * intros [= <-]. apply find_regex_Some in Hf as (i & Hhit & Hmin).
        eapply sel_regex; [done| |done|done]. intros d Hd. rewrite <-Hpp.
        symmetry. eapply (best_unique context routes); [by right| |done]. by apply champion_best.
      * intros [= <-]. apply sel_prefix; [done|by apply find_regex_None|by apply champion_best].
  - simpl. destruct (find_first _ routes) as [s|] eqn:Hf; [|done].
    intros [= <-]. apply find_regex_Some in Hf as (i & Hhit & Hmin).
    eapply sel_regex; [done| |done|done]. intros d [Hd _].
    apply champion_nil in Hp. rewrite Hp in Hd. by apply not_elem_of_nil in Hd.
Qed.

Lemma best_empty c : ¬ best [] c.
Proof. intros [Hin _]. by apply not_elem_of_nil in Hin. Qed.

Lemma selected_functional context routes r s :
  selected context routes r → selected context routes s → r = s.
Proof.
  assert (Hexact : ∀ c, exacts context routes = [] → ¬ best (exacts context routes) c).
  { intros c ->. apply best_empty. }
  intros [c Hc|c He Hc Hp|i r' He Hnp Hr Hmin|c He Hnr Hc]
    [d Hd|d He' Hd Hp'|j s' He' Hnp' Hs Hmin'|d He' Hnr' Hd];
    try (exfalso; by eapply Hexact);
    try by eapply (best_unique context routes); [by left| |].
  all: try by eapply (best_unique context routes); [by right| |].
  all: try by (apply Hnp' in Hc; congruence).
  all: try by (apply Hnp in Hd; congruence).
  all: try by (exfalso; eapply Hnr; eauto).
  all: try by (exfalso; eapply Hnr'; eauto).
  assert (i = j) as <- by (apply Nat.le_antisymm; eauto).
  destruct Hr as [Hr _], Hs as [Hs _]. congruence.
Qed.

(** C1.  The router implements the documented precedence exactly: it returns a
    route if and only if that route is the one the precedence relation selects,
    and it returns none exactly when no configured route matches the request. *)
Theorem select_route_refines_precedence (routes : list Route) (context : RouteMatchContext) :
  (∀ r, select_route_with_context routes context = Some r ↔ selected context routes r) ∧
  (select_route_with_context routes context = None ↔
     ∀ r, r ∈ routes → route_matches r context = false).
Proof.
  assert (Hnone : select_route_with_context routes context = None →
                  exacts context routes = [] ∧ prefixes context routes = [] ∧
                  ∀ j s, ¬ regex_hit context routes j s).
  { rewrite select_route_champions.
    destruct (champion more_specific (exacts context routes)) as [c|] eqn:He; [done|].
    destruct (champion more_specific (prefixes context routes)) as [c|] eqn:Hp; simpl.
    - destruct (cand_preferred_prefix c); [done|]. by destruct (find_first _ routes).
    - destruct (find_first _ routes) as [s|] eqn:Hf; [done|]. intros _.
      split_and!; [by apply champion_nil..|by apply find_regex_None]. }
  assert (Hempty : (∀ r, r ∈ routes → route_matches r context = false) →
                   ∀ r, ¬ selected context routes r).
  { intros Hall r. assert (Hcand : ∀ c, c ∈ exacts context routes ∨ c ∈ prefixes context routes → False).
    { intros c Hc. apply candidates_route in Hc as (Hi & Hm & _).
      apply list_elem_of_lookup_2, Hall in Hi. congruence. }
    intros [c [Hc _]|c _ [Hc _] _|i s _ _ (Hi & _ & Hm) _|c _ _ [Hc _]]; eauto.
    apply list_elem_of_lookup_2, Hall in Hi. congruence. }
  split.
  - intros r. split; [apply select_route_sound|]. intros Hr.
    destruct (select_route_with_context routes context) as [s|] eqn:Hs.
    + f_equal. eapply selected_functional; [|done]. by apply select_route_sound.
    + destruct (Hnone eq_refl) as (He & Hp & Hx). exfalso.
      destruct Hr as [c Hc|c _ Hc _|i s _ _ Hi _|c _ _ Hc].
      * rewrite He in Hc. by apply best_empty in Hc.
      * rewrite Hp in Hc. by apply best_empty in Hc.
      * by eapply Hx.
      * rewrite Hp in Hc. by apply best_empty in Hc.
  - split.
    + intros Hs r Hr. destruct (Hnone Hs) as (He & Hp & Hx).
      destruct (route_matches r context) eqn:Hm; [|done]. exfalso.
      apply list_elem_of_lookup in Hr as [i Hi].
      destruct (route_matcher r) as [path|path|path|x] eqn:Hrm.
      * eapply not_elem_of_nil. rewrite <-He. apply elem_of_exacts. by exists i, r, path.
      * eapply not_elem_of_nil. rewrite <-Hp. apply elem_of_prefixes. exists i, r, path. eauto.
      * eapply not_elem_of_nil. rewrite <-Hp. apply elem_of_prefixes. exists i, r, path. eauto.
      * apply (Hx i r). unfold regex_hit, is_regex. by rewrite Hrm.
    + intros Hall. destruct (select_route_with_context routes context) as [s|] eqn:Hs; [|done].
      exfalso. eapply Hempty; [done|]. by apply select_route_sound.
Qed.

(** ** Virtual hosts *)

Definition vhost_match (host : string) (vhost : VirtualHost) : option ((Z * Z) * VirtualHost) :=
  (λ m, (priority m, vhost)) <$> best_server_name_match (vhost_server_names vhost) host.

Definition vhost_rank (x y : (Z * Z) * VirtualHost) : comparison := pair_cmp x.1 y.1.

Lemma vhost_step_champion host acc vhosts :
  foldl (vhost_step host) acc vhosts =
  champion_from (λ x y, cmp_is_gt (vhost_rank x y)) acc (omap (vhost_match host) vhosts).
Proof.
  revert acc. induction vhosts as [|v vhosts IH]; intros acc; [done|].
  simpl. rewrite IH. unfold vhost_step, vhost_match.
  destruct (best_server_name_match (vhost_server_names v) host) as [m|]; [|done].
  destruct acc as [[p w]|]; [|done]. simpl. unfold challenge, vhost_rank. simpl.
  by destruct (cmp_is_gt _).
Qed.

Lemma vhost_rank_preorder : PreOrder (λ x y, vhost_rank x y ≠ Gt).
Proof.
  unfold vhost_rank. split.
  - intros x. apply pair_cmp_le. lia.
  - intros x y z. rewrite !pair_cmp_le. lia.
Qed.

(** A request host is served by the first configured virtual host whose
    best server-name match has the highest priority of all (earlier hosts match
    strictly worse, later ones no better), and by the default host exactly when
    no virtual host matches. *)
Theorem select_vhost_first_best (vhosts : list VirtualHost) (default_ : VirtualHost) (host : string) :
  (∃ l1 v l2 m, vhosts = l1 ++ v :: l2 ∧ select_vhost vhosts default_ host = v ∧
     best_server_name_match (vhost_server_names v) host = Some m ∧
     (∀ w n, w ∈ l1 → best_server_name_match (vhost_server_names w) host = Some n →
        pair_cmp (priority n) (priority m) = Lt) ∧
     (∀ w n, w ∈ l2 → best_server_name_match (vhost_server_names w) host = Some n →
        pair_cmp (priority n) (priority m) ≠ Gt)) ∨
  ((∀ w, w ∈ vhosts → best_server_name_match (vhost_server_names w) host = None) ∧
   select_vhost vhosts default_ host = default_).
Proof.
  unfold select_vhost. rewrite vhost_step_champion.
  change (champion_from ?f None ?l) with (champion f l).
  assert (Hmatch : ∀ w n l, w ∈ l → best_server_name_match (vhost_server_names w) host = Some n →
                   (priority n, w) ∈ (omap (vhost_match host) l : list ((Z * Z) * VirtualHost))).
  { intros w n l Hw Hn. apply list_elem_of_omap. exists w. split; [done|].
    unfold vhost_match. by rewrite Hn. }
  destruct (champion _ _) as [[p v]|] eqn:Hc.
  - left. apply (first_champion_Some _ vhost_rank vhost_rank_preorder) in Hc
      as (k1 & k2 & Hk & Hk1 & Hk2).
    + apply omap_split in Hk as (l1 & x & l2 & -> & Hx & <- & <-).
      unfold vhost_match in Hx. apply fmap_Some in Hx as (m & Hm & [= -> ->]).
      exists l1, x, l2, m. rewrite Forall_forall in Hk1, Hk2. split_and!; try done.
      * intros w n Hw Hn. specialize (Hk1 _ (Hmatch w n l1 Hw Hn)).
        unfold vhost_rank in Hk1. simpl in Hk1. by rewrite pair_cmp_antisym, Hk1.
      * intros w n Hw Hn. exact (Hk2 _ (Hmatch w n l2 Hw Hn)).
    + intros x y. by destruct (vhost_rank x y).
    + intros x y. apply pair_cmp_antisym.
  - right. split; [|done]. intros w Hw.
    apply champion_None in Hc.
    destruct (best_server_name_match _ host) as [n|] eqn:Hn; [|done].
    pose proof (Hmatch w n vhosts Hw Hn) as Hin. rewrite Hc in Hin.
    by apply not_elem_of_nil in Hin.
Qed.
End Router.
