(* ===== verification/GrpcHealth.v ===== *)
(** * gRPC health probes

    Models [crates/rginx-http/src/proxy/health/grpc_health_codec.rs]: the
    protobuf varints, the gRPC frame and the [grpc.health.v1] messages of an
    active probe, and the verdict on a probe's response.  A byte string is a
    list of integers in [0, 256); an index into a payload is modelled by the
    suffix it points at; errors are their messages. *)

From S2P Require Import Prelude RustStr External Body.

(** ** Serving status *)

Definition GRPC_HEALTH_SERVING_STATUS_SERVING : Z := 1.

(** Source: crates/rginx-http/src/proxy/health/grpc_health_codec.rs:10-16 (GrpcHealthServingStatus) *)
Inductive GrpcHealthServingStatus : Type :=
| Unknown | Serving | NotServing | ServiceUnknown | Other (value : Z).

(** Source: crates/rginx-http/src/proxy/health/grpc_health_codec.rs:19-27 (GrpcHealthServingStatus::from_u64) *)
Definition from_u64 (value : Z) : GrpcHealthServingStatus :=
  if value =? 0 then Unknown
  else if value =? GRPC_HEALTH_SERVING_STATUS_SERVING then Serving
  else if value =? 2 then NotServing
  else if value =? 3 then ServiceUnknown
  else Other value.

(** Source: crates/rginx-http/src/proxy/health/grpc_health_codec.rs:29-31 (GrpcHealthServingStatus::is_serving) *)
Definition is_serving (s : GrpcHealthServingStatus) : bool :=
  match s with Serving => true | _ => false end.

(** ** Varints *)

(** Ten groups of seven bits cover a u64; [append_protobuf_varint_step] below
    shows the fuel is never used up. *)
(** Source: crates/rginx-http/src/proxy/health/grpc_health_codec.rs:190-202 (append_protobuf_varint) *)
Fixpoint append_varint_loop (fuel : nat) (value : Z) : bytes :=
  match fuel with
  | O => []
  | S fuel =>
      let byte := Z.land value 0x7f in
      let value := Z.shiftr value 7 in
      if value =? 0 then [byte]
      else Z.lor byte 0x80 :: append_varint_loop fuel value
  end.

(** Source: crates/rginx-http/src/proxy/health/grpc_health_codec.rs:190-202 (append_protobuf_varint) *)
Definition append_protobuf_varint (value : Z) : bytes := append_varint_loop 10 value.

Definition EOF_VARINT : string := "unexpected EOF while decoding protobuf varint".

(** Source: crates/rginx-http/src/proxy/health/grpc_health_codec.rs:204-224 (decode_protobuf_varint) *)
Fixpoint decode_varint_loop (value shift : Z) (payload : bytes) : result string (Z * bytes) :=
  match payload with
  | [] => Err EOF_VARINT
  | byte :: payload =>
      let value := Z.lor value (wrap64 (Z.shiftl (Z.land byte 0x7f) shift)) in
      if Z.land byte 0x80 =? 0 then Ok (value, payload)
      else
        let shift := shift + 7 in
        if 64 <=? shift then Err "protobuf varint is too large"
        else decode_varint_loop value shift payload
  end.

(** Source: crates/rginx-http/src/proxy/health/grpc_health_codec.rs:204-224 (decode_protobuf_varint) *)
Definition decode_protobuf_varint (payload : bytes) : result string (Z * bytes) :=
  decode_varint_loop 0 0 payload.

(** ** Fields *)

Definition advance (n : Z) (payload : bytes) (error : string) : result string bytes :=
  if Z.of_nat (length payload) <? n then Err error else Ok (drop (Z.to_nat n) payload).

(** Source: crates/rginx-http/src/proxy/health/grpc_health_codec.rs:226-269 (skip_protobuf_field) *)
Definition skip_protobuf_field (payload : bytes) (wire_type : Z) : result string bytes :=
  if wire_type =? 0 then
    let? (_, payload) := decode_protobuf_varint payload in Ok payload
  else if wire_type =? 1 then
    advance 8 payload "unexpected EOF while skipping fixed64 protobuf field"
  else if wire_type =? 2 then
    let? (len, payload) := decode_protobuf_varint payload in
    advance len payload "unexpected EOF while skipping length-delimited protobuf field"
  else if wire_type =? 5 then
    advance 4 payload "unexpected EOF while skipping fixed32 protobuf field"
  else Err ("unsupported protobuf wire type `" +:+ dec wire_type +:+
            "` in gRPC health response").

(** One turn of the field loop. *)
(** Source: crates/rginx-http/src/proxy/health/grpc_health_codec.rs:167-188 (decode_grpc_health_check_response_payload) *)
Definition decode_field (payload : bytes) (serving_status : GrpcHealthServingStatus)
    : result string (bytes * GrpcHealthServingStatus) :=
  let? (tag, payload) := decode_protobuf_varint payload in
  let field_number := Z.shiftr tag 3 in
  let wire_type := Z.land tag 0x07 in
  if (field_number =? 1) && (wire_type =? 0) then
    let? (value, payload) := decode_protobuf_varint payload in
    Ok (payload, from_u64 value)
  else
    let? payload := skip_protobuf_field payload wire_type in
    Ok (payload, serving_status).

(** Each turn consumes at least the tag byte, so [length payload] turns are
    enough; [decode_fields_step] is the loop's own equation. *)
(** Source: crates/rginx-http/src/proxy/health/grpc_health_codec.rs:167-188 (decode_grpc_health_check_response_payload) *)
Fixpoint decode_fields (fuel : nat) (payload : bytes) (serving_status : GrpcHealthServingStatus)
    : result string GrpcHealthServingStatus :=
  match fuel, payload with
  | S fuel, _ :: _ =>
      let? (payload, serving_status) := decode_field payload serving_status in
      decode_fields fuel payload serving_status
  | _, _ => Ok serving_status
  end.

(** Source: crates/rginx-http/src/proxy/health/grpc_health_codec.rs:167-188 (decode_grpc_health_check_response_payload) *)
Definition decode_grpc_health_check_response_payload (payload : bytes)
    : result string GrpcHealthServingStatus :=
  decode_fields (length payload) payload Unknown.

(** ** Frames *)

(** Source: crates/rginx-http/src/proxy/health/grpc_health_codec.rs:143-165 (decode_grpc_frame_payload) *)
Definition decode_grpc_frame_payload (body : bytes) : result string bytes :=
  match body with
  | compressed :: b1 :: b2 :: b3 :: b4 :: payload =>
      if negb (compressed =? 0) then Err "compressed gRPC health responses are not supported"
      else
        let len := u32_from_be b1 b2 b3 b4 in
        let expected_len := 5 + len in
        if negb (Z.of_nat (length body) =? expected_len) then
          Err ("gRPC health response frame length mismatch: expected " +:+ dec expected_len +:+
               " bytes, got " +:+ dec (Z.of_nat (length body)))
        else Ok payload
  | _ => Err "incomplete gRPC health response frame header"
  end.

(** Source: crates/rginx-http/src/proxy/health/grpc_health_codec.rs:132-141 (decode_grpc_health_check_response) *)
Definition decode_grpc_health_check_response (body : bytes)
    : result string (option GrpcHealthServingStatus) :=
  match body with
  | [] => Ok None
  | _ =>
      let? payload := decode_grpc_frame_payload body in
      let? status := decode_grpc_health_check_response_payload payload in
      Ok (Some status)
  end.

(** [payload.len() as u32] keeps the low 32 bits. *)
Definition grpc_frame (payload : bytes) : bytes :=
  [0] ++ u32_to_be (wrap32 (Z.of_nat (length payload))) ++ payload.

(** Source: crates/rginx-http/src/proxy/health/grpc_health_codec.rs:117-130 (encode_grpc_health_check_request) *)
Definition encode_grpc_health_check_request (service : bytes) : bytes :=
  let payload :=
    match service with
    | [] => []
    | _ => [0x0a] ++ append_protobuf_varint (Z.of_nat (length service)) ++ service
    end in
  grpc_frame payload.

(** ** Probe responses *)

Section Probe.
Context {HTTP : HttpApi}.

(** Source: crates/rginx-http/src/proxy/health/grpc_health_codec.rs:35-42 (GrpcHealthProbeResult) *)
Inductive GrpcHealthProbeResult : Type :=
| ProbeServing
| ProbeNotServing (http_status : Z) (grpc_status : option string)
    (serving_status : option GrpcHealthServingStatus).

(** Source: crates/rginx-http/src/proxy/common.rs:41-47 (append_header_map) *)
Definition append_header_map (destination source : HeaderMap) : HeaderMap :=
  foldl (λ dst '(name, value), hm_append name value dst) destination (hm_iter source).

(** Source: crates/rginx-http/src/proxy/health/grpc_health_codec.rs:70-102 (collect_response_body_and_trailers) *)
Fixpoint collect_response_body_and_trailers (frames : list (result string BodyFrame))
    (collected : bytes) (trailers : option HeaderMap) : result string (bytes * option HeaderMap) :=
  match frames with
  | [] => Ok (collected, trailers)
  | Err e :: _ => Err e
  | Ok (DataFrame data) :: frames =>
      collect_response_body_and_trailers frames (collected ++ data) trailers
  | Ok (TrailersFrame frame_trailers) :: frames =>
      collect_response_body_and_trailers frames collected
        (Some (match trailers with
               | Some existing => append_header_map existing frame_trailers
               | None => frame_trailers
               end))
  | Ok OtherFrame :: frames => collect_response_body_and_trailers frames collected trailers
  end.

(** Source: crates/rginx-http/src/proxy/health/grpc_health_codec.rs:104-115 (grpc_trailer_value) *)
Definition grpc_trailer_value (headers : HeaderMap) (trailers : option HeaderMap) (name : string)
    : option string :=
  match trailers ≫= (λ trailers, hm_get trailers name) with
  | Some value => hv_to_str value
  | None => hm_get headers name ≫= hv_to_str
  end.

Definition is_success (status : Z) : bool := (200 <=? status) && (status <? 300).

(** Source: crates/rginx-http/src/proxy/health/grpc_health_codec.rs:44-68 (evaluate_grpc_health_probe_response) *)
Definition evaluate_grpc_health_probe_response (http_status : Z) (headers : HeaderMap)
    (frames : list (result string BodyFrame)) : result string GrpcHealthProbeResult :=
  let? (body, trailers) := collect_response_body_and_trailers frames [] None in
  let grpc_status := grpc_trailer_value headers trailers "grpc-status" in
  let? serving_status := decode_grpc_health_check_response body in
  Ok (if is_success http_status && bool_decide (grpc_status = Some "0") &&
         match serving_status with Some s => is_serving s | None => false end
      then ProbeServing
      else ProbeNotServing http_status grpc_status serving_status).
End Probe.

(** ** Varints: the loop's equation and the round trip *)

Lemma append_varint_fuel f v :
  (1 ≤ f)%nat → 0 ≤ v < 2 ^ (7 * Z.of_nat f) →
  append_varint_loop (S f) v = append_varint_loop f v.
Proof.
  revert v. induction f as [|f IH]; intros v Hf Hv; [lia|].
  set (g := S f). cbn [append_varint_loop]. subst g.
  destruct (Z.shiftr v 7 =? 0) eqn:Hz.
  - cbn [append_varint_loop]. by rewrite Hz.
  - assert (Hs : 0 ≤ Z.shiftr v 7 < 2 ^ (7 * Z.of_nat f)).
    { rewrite Z.shiftr_div_pow2 by lia. split; [apply Z.div_pos; lia|].
      apply Z.div_lt_upper_bound; [lia|]. rewrite <-Z.pow_add_r by lia.
      replace (7 + 7 * Z.of_nat f) with (7 * Z.of_nat (S f)) by lia. lia. }
    destruct f as [|f].
    { boolify. change (7 * Z.of_nat 0) with 0 in Hs. simpl in Hs. lia. }
    rewrite IH by (done || lia).
    change (append_varint_loop (S (S f)) v) with
      (if Z.shiftr v 7 =? 0 then [Z.land v 0x7f]
       else Z.lor (Z.land v 0x7f) 0x80 :: append_varint_loop (S f) (Z.shiftr v 7)).
    by rewrite Hz.
Qed.

(** The encoder's own recursion equation: ten turns never run out on a u64. *)
Lemma append_protobuf_varint_step v :
  is_u64 v →
  append_protobuf_varint v =
  if Z.shiftr v 7 =? 0 then [Z.land v 0x7f]
  else Z.lor (Z.land v 0x7f) 0x80 :: append_protobuf_varint (Z.shiftr v 7).
Proof.
  intros Hv. unfold append_protobuf_varint. unfold is_u64 in Hv.
  change (append_varint_loop 10 v) with
    (if Z.shiftr v 7 =? 0 then [Z.land v 0x7f]
     else Z.lor (Z.land v 0x7f) 0x80 :: append_varint_loop 9 (Z.shiftr v 7)).
  destruct (Z.shiftr v 7 =? 0); [done|]. f_equal. symmetry.
  apply append_varint_fuel; [lia|].
  rewrite Z.shiftr_div_pow2 by lia. split; [apply Z.div_pos; lia|].
  apply Z.div_lt_upper_bound; [lia|]. simpl. lia.
Qed.

Lemma varint_byte_cont v :
  Z.land (Z.lor (Z.land v 0x7f) 0x80) 0x7f = Z.land v 0x7f ∧
  Z.land (Z.lor (Z.land v 0x7f) 0x80) 0x80 = 0x80.
Proof.
  rewrite !Z.land_lor_distr_l, <-!Z.land_assoc. split.
  - change (Z.land 128 127) with 0. change (Z.land 127 127) with 127. apply Z.lor_0_r.
  - change (Z.land 127 128) with 0. by rewrite Z.land_0_r.
Qed.

Lemma decode_append_varint f v acc shift rest :
  (1 ≤ f)%nat → 0 ≤ v < 2 ^ (7 * Z.of_nat f) → 0 ≤ shift → 0 ≤ acc < 2 ^ shift →
  v * 2 ^ shift < 2 ^ 64 →
  decode_varint_loop acc shift (append_varint_loop f v ++ rest) =
  Ok (acc + v * 2 ^ shift, rest).
Proof.
  revert v acc shift. induction f as [|f IH]; intros v acc shift Hf Hv Hs Hacc Hb; [lia|].
  assert (Hm : Z.land v 0x7f = v mod 2 ^ 7) by (apply (land_ones_mod v 7); lia).
  assert (Hr : 0 ≤ v mod 2 ^ 7 < 2 ^ 7) by (apply Z.mod_pos_bound; lia).
  assert (Hd : v = 2 ^ 7 * Z.shiftr v 7 + v mod 2 ^ 7).
  { rewrite Z.shiftr_div_pow2 by lia. apply Z.div_mod. lia. }
  assert (Hp : 0 < 2 ^ shift) by (apply Z.pow_pos_nonneg; lia).
  assert (Hq : 0 ≤ Z.shiftr v 7) by (apply Z.shiftr_nonneg; lia).
  assert (Hw : wrap64 (Z.shiftl (v mod 2 ^ 7) shift) = Z.shiftl (v mod 2 ^ 7) shift).
  { apply wrap64_small. rewrite Z.shiftl_mul_pow2 by done. unfold is_u64. nia. }
  cbn [append_varint_loop]. destruct (Z.shiftr v 7 =? 0) eqn:Hz.
  - boolify. cbn [app decode_varint_loop].
    assert (E1 : Z.land (Z.land v 127) 127 = Z.land v 127).
    { rewrite <-Z.land_assoc. reflexivity. }
    assert (E2 : Z.land (Z.land v 127) 128 = 0).
    { rewrite <-Z.land_assoc. apply Z.land_0_r. }
    rewrite E1, E2, Hm, Hw. cbn [Z.eqb].
    rewrite lor_shiftl_add by done. repeat f_equal. lia.
  - boolify. destruct (varint_byte_cont v) as [E1 E2].
    cbn [app decode_varint_loop]. rewrite E1, E2, Hm, Hw.
    change (128 =? 0) with false. cbn iota. rewrite lor_shiftl_add by done.
    assert (Hpow : 2 ^ (shift + 7) = 2 ^ shift * 2 ^ 7) by (apply Z.pow_add_r; lia).
    assert (Hlt : shift + 7 < 64).
    { apply (Z.pow_lt_mono_r_iff 2); [lia|lia|]. rewrite Hpow. nia. }
    rewrite (proj2 (Z.leb_gt _ _)) by lia.
    assert (Hv' : 0 ≤ Z.shiftr v 7 < 2 ^ (7 * Z.of_nat f)).
    { split; [done|]. rewrite Z.shiftr_div_pow2 by lia.
      apply Z.div_lt_upper_bound; [lia|]. rewrite <-Z.pow_add_r by lia.
      replace (7 + 7 * Z.of_nat f) with (7 * Z.of_nat (S f)) by lia. lia. }
    rewrite IH; [f_equal; f_equal; nia| |done|lia|nia|nia].
    destruct f; [|lia]. change (7 * Z.of_nat 0) with 0 in Hv'. simpl in Hv'. lia.
Qed.

Lemma decode_append_protobuf_varint v rest :
  is_u64 v → decode_protobuf_varint (append_protobuf_varint v ++ rest) = Ok (v, rest).
Proof.
  intros Hv. unfold is_u64 in Hv. unfold decode_protobuf_varint, append_protobuf_varint.
  rewrite decode_append_varint; simpl; try lia. repeat f_equal. lia.
Qed.

(** ** The field loop *)

Lemma decode_varint_loop_shorter value shift payload v rest :
  decode_varint_loop value shift payload = Ok (v, rest) → (length rest < length payload)%nat.
Proof.
  revert value shift. induction payload as [|b payload IH]; intros value shift; simpl; [done|].
  destruct (Z.land b 128 =? 0); [intros [= _ ->]; lia|].
  destruct (64 <=? shift + 7); [done|]. intros ?%IH. lia.
Qed.

Lemma decode_protobuf_varint_shorter payload v rest :
  decode_protobuf_varint payload = Ok (v, rest) → (length rest < length payload)%nat.
Proof. apply decode_varint_loop_shorter. Qed.

Lemma advance_ok n payload e rest :
  advance n payload e = Ok rest → rest = drop (Z.to_nat n) payload.
Proof. unfold advance. case_match; [done|]. by intros [= ->]. Qed.

Lemma skip_protobuf_field_le payload w rest :
  skip_protobuf_field payload w = Ok rest → (length rest ≤ length payload)%nat.
Proof.
  unfold skip_protobuf_field. repeat case_match; rewrite ?rbind_ok; try done.
  - intros ([v r] & Hv%decode_protobuf_varint_shorter & [= <-]). lia.
  - intros ->%advance_ok. rewrite length_drop. lia.
  - intros ([v r] & Hv%decode_protobuf_varint_shorter & ->%advance_ok). rewrite length_drop. lia.
  - intros ->%advance_ok. rewrite length_drop. lia.
Qed.

Lemma decode_field_shorter payload st rest st' :
  decode_field payload st = Ok (rest, st') → (length rest < length payload)%nat.
Proof.
  unfold decode_field. rewrite rbind_ok.
  intros ([tag r] & H1%decode_protobuf_varint_shorter & H2). case_match.
  - apply rbind_ok in H2 as ([v r'] & H3%decode_protobuf_varint_shorter & [= <- <-]). lia.
  - apply rbind_ok in H2 as (r' & H3%skip_protobuf_field_le & [= <- <-]). lia.
Qed.

Lemma decode_fields_fuel f1 f2 payload st :
  (length payload ≤ f1)%nat → (length payload ≤ f2)%nat →
  decode_fields f1 payload st = decode_fields f2 payload st.
Proof.
  revert f2 payload st. induction f1 as [|f1 IH]; intros f2 payload st H1 H2.
  - destruct payload; [|simpl in *; lia]. by destruct f2.
  - destruct payload as [|b payload]; [by destruct f2|].
    destruct f2 as [|f2]; [simpl in *; lia|]. cbn [decode_fields].
    destruct (decode_field (b :: payload) st) as [[r st']|e] eqn:Hd; [|done]. cbn.
    apply decode_field_shorter in Hd. simpl in *. apply IH; lia.
Qed.

(** The field loop's own recursion equation. *)
Lemma decode_fields_step payload st :
  payload ≠ [] →
  decode_fields (length payload) payload st =
  let? (payload', st') := decode_field payload st in
  decode_fields (length payload') payload' st'.
Proof.
  destruct payload as [|b payload]; [done|]. intros _. cbn [length decode_fields].
  destruct (decode_field (b :: payload) st) as [[r st']|e] eqn:Hd; [|done]. cbn.
  apply decode_field_shorter in Hd. simpl in Hd. apply decode_fields_fuel; lia.
Qed.

(** ** The wire format the decoder accepts

    A message is a list of fields; a conforming peer may send fields this
    program does not know, in any order and number. *)
Inductive Field : Type :=
| FVarint (number value : Z)
| FFixed64 (number : Z) (data : bytes)
| FBytes (number : Z) (data : bytes)
| FFixed32 (number : Z) (data : bytes).

Definition field_wf (f : Field) : Prop :=
  match f with
  | FVarint n v => 0 ≤ n < 2 ^ 61 ∧ is_u64 v
  | FFixed64 n d => 0 ≤ n < 2 ^ 61 ∧ length d = 8%nat
  | FBytes n d => 0 ≤ n < 2 ^ 61 ∧ Z.of_nat (length d) < 2 ^ 64
  | FFixed32 n d => 0 ≤ n < 2 ^ 61 ∧ length d = 4%nat
  end.

Definition wire_tag (number wire : Z) : bytes := append_protobuf_varint (number * 8 + wire).

Definition wire_field (f : Field) : bytes :=
  match f with
  | FVarint n v => wire_tag n 0 ++ append_protobuf_varint v
  | FFixed64 n d => wire_tag n 1 ++ d
  | FBytes n d => wire_tag n 2 ++ append_protobuf_varint (Z.of_nat (length d)) ++ d
  | FFixed32 n d => wire_tag n 5 ++ d
  end.

Definition wire_message (fs : list Field) : bytes := concat (map wire_field fs).

(** proto3: the last occurrence of field 1 is the status, absent means 0. *)
Definition field_status (st : GrpcHealthServingStatus) (f : Field) : GrpcHealthServingStatus :=
  match f with FVarint 1 v => from_u64 v | _ => st end.
Definition message_status (fs : list Field) : GrpcHealthServingStatus :=
  foldl field_status Unknown fs.

Lemma wire_tag_decode n w rest :
  0 ≤ n < 2 ^ 61 → 0 ≤ w < 8 →
  decode_protobuf_varint (wire_tag n w ++ rest) = Ok (n * 8 + w, rest) ∧
  Z.shiftr (n * 8 + w) 3 = n ∧ Z.land (n * 8 + w) 7 = w.
Proof.
  intros Hn Hw. split_and!.
  - apply decode_append_protobuf_varint. unfold is_u64. lia.
  - rewrite Z.shiftr_div_pow2 by lia. change (2 ^ 3) with 8.
    rewrite Z.div_add_l, Z.div_small by lia. lia.
  - rewrite (land_ones_mod _ 3) by lia. change (2 ^ 3) with 8.
    rewrite Z.add_comm, Z.mod_add, Z.mod_small by lia. lia.
Qed.

Lemma advance_app n d rest e :
  n = Z.of_nat (length d) → advance n (d ++ rest) e = Ok rest.
Proof.
  intros ->. unfold advance. rewrite length_app, Nat2Z.id, drop_app_length.
  by rewrite (proj2 (Z.ltb_ge _ _)) by lia.
Qed.

Lemma decode_wire_field f st rest :
  field_wf f → decode_field (wire_field f ++ rest) st = Ok (rest, field_status st f).
Proof.
  intros Hwf. unfold decode_field.
  destruct f as [n v|n d|n d|n d]; destruct Hwf as [Hn Hd]; unfold wire_field;
    rewrite <-!(assoc_L (++)).
  - destruct (wire_tag_decode n 0 (append_protobuf_varint v ++ rest)) as (E1 & E2 & E3); [done|lia|].
    rewrite E1. cbn [rbind]. cbv zeta. rewrite ?E2, ?E3. rewrite Z.eqb_refl, andb_true_r. destruct (Z.eqb_spec n 1) as [->|Hne].
    + by rewrite decode_append_protobuf_varint.
    + unfold skip_protobuf_field. rewrite Z.eqb_refl, decode_append_protobuf_varint by done.
      cbn. destruct n as [|[]|]; done.
  - destruct (wire_tag_decode n 1 (d ++ rest)) as (E1 & E2 & E3); [done|lia|].
    rewrite E1. cbn [rbind]. cbv zeta. rewrite ?E2, ?E3. rewrite andb_false_r. unfold skip_protobuf_field. cbn [Z.eqb Pos.eqb].
    rewrite advance_app by (rewrite Hd; done). done.
  - destruct (wire_tag_decode n 2 (append_protobuf_varint (Z.of_nat (length d)) ++ d ++ rest))
      as (E1 & E2 & E3); [done|lia|].
    rewrite E1. cbn [rbind]. cbv zeta. rewrite ?E2, ?E3. rewrite andb_false_r. unfold skip_protobuf_field. cbn [Z.eqb Pos.eqb].
    rewrite decode_append_protobuf_varint by (unfold is_u64; lia). cbn [rbind].
    by rewrite advance_app.
  - destruct (wire_tag_decode n 5 (d ++ rest)) as (E1 & E2 & E3); [done|lia|].
    rewrite E1. cbn [rbind]. cbv zeta. rewrite ?E2, ?E3. rewrite andb_false_r. unfold skip_protobuf_field. cbn [Z.eqb Pos.eqb].
    rewrite advance_app by (rewrite Hd; done). done.
Qed.

Lemma wire_tag_nonempty n w : wire_tag n w ≠ [].
Proof.
  unfold wire_tag, append_protobuf_varint. cbn [append_varint_loop]. by case_match.
Qed.

Lemma wire_field_nonempty f rest : wire_field f ++ rest ≠ [].
Proof.
  destruct f; simpl; intros H; apply app_eq_nil in H as [H _];
    apply app_eq_nil in H as [H _]; by apply wire_tag_nonempty in H.
Qed.

Lemma decode_wire_message fs st :
  Forall field_wf fs →
  decode_fields (length (wire_message fs)) (wire_message fs) st = Ok (foldl field_status st fs).
Proof.
  intros Hwf. revert st. induction Hwf as [|f fs Hf Hfs IH]; intros st; [done|].
  unfold wire_message. cbn [map concat]. fold (wire_message fs).
  rewrite decode_fields_step by apply wire_field_nonempty.
  rewrite decode_wire_field by done. apply IH.
Qed.

(** ** Frames *)

Lemma decode_grpc_frame payload :
  Z.of_nat (length payload) < 2 ^ 32 → decode_grpc_frame_payload (grpc_frame payload) = Ok payload.
Proof.
  intros Hl. unfold grpc_frame. cbn [app u32_to_be decode_grpc_frame_payload].
  assert (Hw : wrap32 (Z.of_nat (length payload)) = Z.of_nat (length payload)).
  { apply Z.mod_small. lia. }
  rewrite Hw. rewrite (u32_be_roundtrip (Z.of_nat (length payload))) by (done || (unfold is_u32; lia)).
  cbn [Z.eqb negb length].
  rewrite (proj2 (Z.eqb_eq _ _)) by lia. done.
Qed.

(** ** The health-check exchange *)

(** The decoder answers every well-formed response, whatever unknown
    fields it carries: a frame that holds the wire form of any list of fields
    decodes to the value of its last [status] field, [Unknown] when it has
    none, so a forward-compatible server is never reported as an error. *)
Theorem grpc_response_decodes_last_status (fs : list Field) :
  Forall field_wf fs → Z.of_nat (length (wire_message fs)) < 2 ^ 32 →
  decode_grpc_health_check_response (grpc_frame (wire_message fs)) =
  Ok (Some (message_status fs)).
Proof.
  intros Hwf Hl. unfold decode_grpc_health_check_response.
  rewrite decode_grpc_frame by done. cbn [rbind].
  unfold decode_grpc_health_check_response_payload.
  rewrite decode_wire_message by done. done.
Qed.

Theorem grpc_response_decodes_last_status_witness :
  decode_grpc_health_check_response
    (grpc_frame (wire_message [FVarint 1 2; FBytes 7 [104; 105]; FVarint 1 1; FFixed32 9 [0; 0; 0; 1]]))
  = Ok (Some Serving).
Proof.
  apply (grpc_response_decodes_last_status
    [FVarint 1 2; FBytes 7 [104; 105]; FVarint 1 1; FFixed32 9 [0; 0; 0; 1]]).
  - repeat constructor; vm_compute; congruence.
  - vm_compute. reflexivity.
Defined.

(** The request the probe sends is the frame a conforming server expects:
    field 1 of the message carries the service name, and the empty service
    name is the empty message. *)
Theorem grpc_request_encodes_service (service : bytes) :
  Z.of_nat (length service) < 2 ^ 31 →
  decode_grpc_frame_payload (encode_grpc_health_check_request service) =
  Ok (match service with [] => [] | _ => wire_message [FBytes 1 service] end).
Proof.
  intros Hl. unfold encode_grpc_health_check_request. destruct service as [|b service]; [done|].
  set (d := b :: service) in *. rewrite decode_grpc_frame.
  - unfold wire_message. cbn [map concat wire_field]. rewrite app_nil_r. done.
  - rewrite !length_app. enough (length (append_protobuf_varint (Z.of_nat (length d))) ≤ 10)%nat.
    { cbn [length]. lia. }
    unfold append_protobuf_varint. generalize (Z.of_nat (length d)).
    assert (∀ f v, (length (append_varint_loop f v) ≤ f)%nat) as H; [|intros; apply H].
    induction f; intros v; simpl; [lia|]. case_match; simpl; [lia|]. specialize (IHf (Z.shiftr v 7)). lia.
Qed.

Theorem grpc_request_encodes_service_witness :
  decode_grpc_frame_payload (encode_grpc_health_check_request [97; 98]) =
  Ok (wire_message [FBytes 1 [97; 98]]).
Proof. apply (grpc_request_encodes_service [97; 98]). vm_compute. reflexivity. Defined.

(** A probe counts as serving exactly when the body was read to its end,
    the HTTP status is 2xx, the [grpc-status] (trailers first, then headers)
    is "0" and the message decodes to SERVING; every other readable response
    is reported as not serving, with what was seen. *)
Theorem grpc_probe_serving_iff `{HTTP : HttpApi} http_status headers frames :
  evaluate_grpc_health_probe_response http_status headers frames = Ok ProbeServing ↔
  ∃ body trailers,
    collect_response_body_and_trailers frames [] None = Ok (body, trailers) ∧
    200 ≤ http_status < 300 ∧
    grpc_trailer_value headers trailers "grpc-status" = Some "0"%string ∧
    decode_grpc_health_check_response body = Ok (Some Serving).
Proof.
  unfold evaluate_grpc_health_probe_response. rewrite rbind_ok. split.
  - intros ([body trailers] & Hc & (st & Hd & Hs)%rbind_ok). exists body, trailers.
    destruct (is_success http_status) eqn:Hh; [|done].
    destruct (bool_decide _) eqn:Hb; [|done]. apply bool_decide_eq_true in Hb.
    destruct st as [[]|]; try done. unfold is_success in Hh. boolify. done.
  - intros (body & trailers & Hc & Hh & Hg & Hd). exists (body, trailers). split; [done|].
    rewrite Hd. cbn [rbind]. rewrite Hg, bool_decide_true by done.
    unfold is_success. rewrite (proj2 (Z.leb_le _ _)), (proj2 (Z.ltb_lt _ _)) by lia. done.
Qed.
