(* ===== verification/RequestTarget.v ===== *)
(** * Request targets

    Models [crates/rginx-http/src/request_target.rs]: dot segments, empty
    segments and the trailing slash of a request path; and the upstream path of
    [proxy/common.rs] ([build_proxy_uri]) with its prefix stripping.  The path
    and the query of an [http::Uri] are strings. *)

From S2P Require Import Prelude RustStr External.

(** ** Normalisation *)

(** The segments kept so far, the last first; [None] when [..] leaves the root. *)
Fixpoint normalize_segments (segments stack : list string) : option (list string) :=
  match segments with
  | [] => Some (reverse stack)
  | segment :: segments =>
      if str_is_empty segment || str_eqb segment "." then normalize_segments segments stack
      else if str_eqb segment ".." then
        match stack with
        | [] => None
        | _ :: stack => normalize_segments segments stack
        end
      else normalize_segments segments (segment :: stack)
  end.

(** Source: crates/rginx-http/src/request_target.rs:27-69 (normalize_request_path) *)
Definition normalize_request_path (path : string) : string :=
  if str_eqb path "*" then "*"%string
  else
    let path := if str_is_empty path then "/"%string else path in
    let absolute := starts_with "/" path in
    let trailing_slash := ends_with "/" path in
    match normalize_segments (split "/"%char path) [] with
    | None => "/"%string
    | Some normalized_segments =>
        let normalized := if absolute then "/"%string else EmptyString in
        let normalized := normalized +:+ str_join "/" normalized_segments in
        let normalized := if str_is_empty normalized then "/"%string else normalized in
        let normalized :=
          if trailing_slash && negb (str_eqb normalized "/") && negb (ends_with "/" normalized)
          then normalized +:+ "/" else normalized in
        if starts_with "/" normalized then normalized else "/" +:+ normalized
    end.

(** Source: crates/rginx-http/src/request_target.rs:3-6 (NormalizedRequestTarget) *)
Record NormalizedRequestTarget : Type := mkTarget {
  nt_path : string;
  nt_path_and_query : string;
}.

(** Source: crates/rginx-http/src/request_target.rs:11-19 (normalize_request_target) *)
Definition normalize_request_target (uri_path : string) (uri_query : option string)
    : NormalizedRequestTarget :=
  let path := normalize_request_path uri_path in
  mkTarget path match uri_query with
                | Some query => path +:+ "?" +:+ query
                | None => path
                end.

(** Source: crates/rginx-http/src/request_target.rs:21-25 (raw_request_target) *)
Definition raw_request_target (path_and_query : option string) (uri_path : string) : string :=
  default uri_path path_and_query.

(** The path and query sent upstream; the scheme and the authority are the
    peer's. *)
(** Source: crates/rginx-http/src/proxy/common.rs:3-32 (build_proxy_uri) *)
Definition proxy_path_and_query (uri_path : string) (uri_query : option string)
    (strip : option string) : string :=
  let original_path := nt_path_and_query (normalize_request_target uri_path uri_query) in
  match strip with
  | Some prefix =>
      match strip_prefix prefix original_path with
      | Some stripped =>
          if str_is_empty stripped || starts_with "?" stripped
          then if str_is_empty stripped then "/"%string else stripped
          else if starts_with "/" stripped then stripped
          else original_path
      | None => original_path
      end
  | None => original_path
  end.

Example normalized_paths :
  map normalize_request_path
    [""; "*"; "/"; "//a///b"; "/a/./b/"; "/a/../b"; "/../etc/passwd"; "/a/b/.."; "a/b"; "/a/.."; "/a/../"]%string =
  ["/"; "*"; "/"; "/a/b"; "/a/b/"; "/b"; "/"; "/a"; "/a/b"; "/"; "/"]%string.
Proof. by vm_compute. Qed.

(** ** The normal form *)

(** A segment that is neither empty nor a dot segment, and holds no slash. *)
Definition plain_segment (s : string) : Prop :=
  s ≠ EmptyString ∧ s ≠ "."%string ∧ s ≠ ".."%string ∧ contains_char "/"%char s = false.

Definition normal_form (segments : list string) (trailing : bool) : string :=
  match segments with
  | [] => "/"%string
  | _ => "/" +:+ str_join "/" segments +:+ (if trailing then "/" else EmptyString)
  end.

Lemma split_pieces c s : Forall (λ w, contains_char c w = false) (split c s).
Proof.
  induction s as [|a s IH]; cbn; [by repeat constructor|].
  destruct (ascii_eqb a c) eqn:Ha; [by constructor|].
  pose proof (split_nonempty c s). destruct (split c s) as [|w ws]; [done|].
  inversion IH as [|? ? Hw Hws]; subst. constructor; [|done].
  unfold contains_char in *. cbn. rewrite Ha. by destruct (split_once c w) as [[]|].
Qed.

Lemma normalize_segments_plain segments stack l :
  Forall (λ w, contains_char "/"%char w = false) segments → Forall plain_segment stack →
  normalize_segments segments stack = Some l → Forall plain_segment l.
Proof.
  intros Hs. revert stack. induction Hs as [|w segments Hw Hs IH]; intros stack Hst; cbn.
  - intros [= <-]. by apply Forall_reverse.
  - destruct (str_is_empty w || str_eqb w ".") eqn:He; [by apply IH|].
    destruct (str_eqb w "..") eqn:Hd.
    + destruct stack as [|x stack]; [done|]. apply IH. by inversion Hst.
    + apply IH. constructor; [|done]. apply orb_false_iff in He as [He1 He2].
      apply str_eqb_false in He2, Hd. split_and!; try done. by intros ->.
Qed.

Lemma str_join_cons w ws : ws ≠ [] → str_join "/" (w :: ws) = w +:+ "/" +:+ str_join "/" ws.
Proof. by destruct ws. Qed.

Lemma str_app_nonempty a b : b ≠ EmptyString → a +:+ b ≠ EmptyString.
Proof. by destruct a. Qed.

Lemma str_join_nonempty l : l ≠ [] → Forall plain_segment l → str_join "/" l ≠ EmptyString.
Proof.
  destruct l as [|w [|w' ws]]; [done|..]; intros _ Hl; inversion Hl as [|? ? (Hw & _) _]; subst; [done|].
  cbn. destruct w; [done|]. done.
Qed.

Lemma ends_with_app a b : ends_with b (a +:+ b) = true.
Proof.
  unfold ends_with. induction a as [|c a IH].
  - change (EmptyString +:+ b) with b. destruct b; cbn [strip_suffix]; by rewrite str_eqb_refl.
  - change (String c a +:+ b) with (String c (a +:+ b)). cbn [strip_suffix].
    destruct (str_eqb _ b); [done|]. by destruct (strip_suffix b (a +:+ b)).
Qed.

Lemma ends_with_slash s : ends_with "/" s = true ↔ ∃ a, s = a +:+ "/".
Proof.
  split; [|intros [a ->]; apply ends_with_app]. unfold ends_with. intros Hs.
  induction s as [|c s IH]; [done|]. cbn [strip_suffix] in Hs.
  destruct (str_eqb (String c s) "/") eqn:He; [apply str_eqb_true in He as ->; by exists EmptyString|].
  destruct (strip_suffix "/" s) eqn:Hr; [|done]. destruct IH as [a ->]; [done|]. by exists (String c a).
Qed.

Lemma last_char_inj a b c d : a +:+ String c EmptyString = b +:+ String d EmptyString → c = d.
Proof. intros H. apply (f_equal String.rev) in H. rewrite !str_rev_app in H. cbn in H. by injection H. Qed.

Lemma plain_last w : plain_segment w → ∃ q b, w = q +:+ String b EmptyString ∧ b ≠ "/"%char.
Proof.
  intros (Hne & _ & _ & Hc). destruct (str_snoc w Hne) as (q & b & ->). exists q, b. split; [done|]. intros ->.
  rewrite contains_char_app in Hc. apply orb_false_iff in Hc as [_ Hc]. done.
Qed.

Lemma join_last l p : l ≠ [] → Forall plain_segment l →
  ∃ q b, p +:+ str_join "/" l = q +:+ String b EmptyString ∧ b ≠ "/"%char.
Proof.
  revert p. induction l as [|w l IH]; intros p Hne Hl; [done|]. inversion Hl as [|? ? Hw Hws]; subst.
  destruct l as [|w' l].
  - destruct (plain_last w Hw) as (q & b & -> & Hb). exists (p +:+ q), b. cbn. by rewrite str_app_assoc.
  - destruct (IH (p +:+ w +:+ "/") ltac:(done) Hws) as (q & b & Hq & Hb). exists q, b. split; [|done].
    rewrite str_join_cons by done. rewrite <-Hq. by rewrite !str_app_assoc.
Qed.

Lemma join_no_end l p : l ≠ [] → Forall plain_segment l → ends_with "/" (p +:+ str_join "/" l) = false.
Proof.
  intros Hne Hl. destruct (ends_with _ _) eqn:He; [exfalso|done]. apply ends_with_slash in He as [a Ha].
  destruct (join_last l p Hne Hl) as (q & b & Hq & Hb). rewrite Hq in Ha. by apply last_char_inj in Ha.
Qed.

Lemma join_no_start l x : l ≠ [] → Forall plain_segment l → starts_with "/" (str_join "/" l +:+ x) = false.
Proof.
  intros Hne Hl. destruct l as [|w ws]; [done|]. inversion Hl as [|? ? (Hw & _ & _ & Hc) _]; subst.
  destruct w as [|a w]; [done|]. unfold contains_char in Hc. cbn in Hc.
  assert (∃ r, str_join "/" (String a w :: ws) +:+ x = String a r) as [r ->].
  { destruct ws as [|w' ws].
    - by exists (w +:+ x).
    - exists ((w +:+ "/" +:+ str_join "/" (w' :: ws)) +:+ x). by rewrite str_join_cons. }
  unfold starts_with. cbn. destruct (ascii_eqb "/" a) eqn:Ha; [|done].
  apply ascii_eqb_true in Ha as <-. by rewrite ascii_eqb_refl in Hc.
Qed.

Definition rooted (path : string) : string := if str_is_empty path then "/"%string else path.

Lemma normalize_form path :
  path ≠ "*"%string →
  normalize_request_path path =
    match normalize_segments (split "/"%char (rooted path)) [] with
    | None => "/"%string
    | Some l => normal_form l (ends_with "/" (rooted path))
    end.
Proof.
  intros Hstar. unfold normalize_request_path. rewrite (proj2 (str_eqb_false _ _) Hstar). fold (rooted path).
  set (p := rooted path). destruct (normalize_segments (split "/" p) []) as [l|] eqn:Hn; [|done].
  apply normalize_segments_plain in Hn; [|apply split_pieces|constructor].
  destruct l as [|w l].
  { cbn. by destruct (starts_with "/" p); cbn; rewrite ?andb_false_r. }
  set (j := str_join "/" (w :: l)).
  assert (Hj : j ≠ EmptyString) by by apply str_join_nonempty.
  assert (Hend : ∀ q, ends_with "/" (q +:+ j) = false) by (intros q; by apply join_no_end).
  assert (Hstart : ∀ x, starts_with "/" (j +:+ x) = false) by (intros x; by apply join_no_start).
  assert (Hslash : ∀ q, str_eqb (q +:+ j) "/" = false).
  { intros q. apply str_eqb_false. intros Hq. specialize (Hend q). by rewrite Hq in Hend. }
  destruct (starts_with "/" p).
  - assert (str_is_empty ("/" +:+ j) = false) as -> by done.
    rewrite Hslash, Hend. unfold normal_form. fold j. destruct (ends_with "/" p); cbn [andb negb].
    + by rewrite str_app_assoc.
    + by rewrite str_app_nil_r.
  - change (EmptyString +:+ j) with j.
    assert (str_is_empty j = false) as -> by (by destruct j).
    pose proof (Hslash EmptyString) as H1. pose proof (Hend EmptyString) as H2.
    change (EmptyString +:+ j) with j in H1, H2. rewrite H1, H2. unfold normal_form. fold j.
    destruct (ends_with "/" p); cbn [andb negb]; [by rewrite Hstart|].
    pose proof (Hstart EmptyString) as H3. rewrite str_app_nil_r in H3. by rewrite H3, str_app_nil_r.
Qed.

Lemma split_app c w s : contains_char c w = false → split c (w +:+ String c s) = w :: split c s.
Proof.
  unfold contains_char. induction w as [|a w IH].
  - intros _. change (EmptyString +:+ String c s) with (String c s). cbn. by rewrite ascii_eqb_refl.
  - cbn. change (String a w +:+ String c s) with (String a (w +:+ String c s)).
    destruct (ascii_eqb a c) eqn:Ha; [done|]. intros Hc. cbn. rewrite Ha, IH; [done|].
    by destruct (split_once c w) as [[]|].
Qed.

Lemma split_none c w : contains_char c w = false → split c w = [w].
Proof.
  unfold contains_char. induction w as [|a w IH]; [done|]. cbn.
  destruct (ascii_eqb a c) eqn:Ha; [done|]. intros Hc. rewrite IH; [done|]. by destruct (split_once c w) as [[]|].
Qed.

Lemma split_join l (trailing : bool) :
  l ≠ [] → Forall plain_segment l →
  split "/"%char (str_join "/" l +:+ (if trailing then "/" else EmptyString)) =
  l ++ (if trailing then [EmptyString] else []).
Proof.
  induction l as [|w l IH]; [done|]. intros _ Hl. inversion Hl as [|? ? (_ & _ & _ & Hw) Hws]; subst.
  destruct l as [|w' l].
  - cbn. destruct trailing; [by rewrite split_app|]. by rewrite str_app_nil_r, split_none.
  - rewrite str_join_cons, !str_app_assoc by done.
    change ("/" +:+ (str_join "/" (w' :: l) +:+ (if trailing then "/" else EmptyString))) with
      (String "/"%char (str_join "/" (w' :: l) +:+ (if trailing then "/" else EmptyString))).
    rewrite split_app by done. rewrite IH; [done|done|done].
Qed.

Lemma normalize_segments_app l stack tail :
  Forall plain_segment l → normalize_segments (l ++ tail) stack = normalize_segments tail (reverse l ++ stack).
Proof.
  intros Hl. revert stack. induction Hl as [|w l (Hw & Hd & Hdd & _) Hl IH]; intros stack; [done|]. cbn [app normalize_segments].
  rewrite (proj2 (str_eqb_false w ".") Hd), (proj2 (str_eqb_false w "..") Hdd).
  assert (str_is_empty w = false) as -> by (by destruct w). cbn [orb].
  rewrite IH, reverse_cons, <-app_assoc. done.
Qed.

Lemma normal_form_fixed l trailing :
  Forall plain_segment l → normalize_request_path (normal_form l trailing) = normal_form l trailing.
Proof.
  intros Hl. destruct l as [|w l]; [by vm_compute|].
  set (l' := w :: l) in *. assert (Hne : l' ≠ []) by done.
  assert (Hf : normal_form l' trailing = String "/"%char (str_join "/" l' +:+ (if trailing then "/" else EmptyString)))
    by done.
  rewrite normalize_form by (by rewrite Hf). unfold rooted.
  assert (str_is_empty (normal_form l' trailing) = false) as -> by done.
  rewrite Hf at 1. cbn [split]. rewrite ascii_eqb_refl, split_join by done.
  assert (Hend : ends_with "/" (normal_form l' trailing) = trailing).
  { unfold normal_form. fold l'. destruct l' as [|x k]; [done|]. destruct trailing.
    - rewrite <-str_app_assoc. apply ends_with_app.
    - rewrite str_app_nil_r. by apply join_no_end. }
  rewrite Hend. cbn [normalize_segments str_is_empty orb]. rewrite normalize_segments_app by done.
  destruct trailing; cbn [normalize_segments str_is_empty orb]; by rewrite app_nil_r, reverse_involutive.
Qed.

(** The path a request is routed by and forwarded with is normal: it starts
    at the root and none of its segments is empty, [.] or [..], however the
    path was written, so no request climbs out of the tree it was routed in;
    and normalising a second time (as the proxy does after the router) changes
    nothing. *)
Theorem request_path_is_normal (path : string) :
  path ≠ "*"%string →
  (∃ segments trailing, Forall plain_segment segments ∧
     normalize_request_path path = normal_form segments trailing) ∧
  normalize_request_path (normalize_request_path path) = normalize_request_path path.
Proof.
  intros Hstar.
  assert (Hn : ∃ segments trailing, Forall plain_segment segments ∧
     normalize_request_path path = normal_form segments trailing).
  { rewrite normalize_form by done. destruct (normalize_segments _ []) as [l|] eqn:Hs; [|by exists [], false].
    exists l, (ends_with "/" (rooted path)). split; [|done].
    eapply normalize_segments_plain; [apply split_pieces|constructor|exact Hs]. }
  split; [done|]. destruct Hn as (l & tr & Hl & ->). by apply normal_form_fixed.
Qed.

Theorem request_path_is_normal_witness :
  normalize_request_path (normalize_request_path "/a/./b//../c/") = normalize_request_path "/a/./b//../c/".
Proof. apply (request_path_is_normal "/a/./b//../c/"). discriminate. Defined.
