(* ===== verification/ClientIp.v ===== *)
(** * Whose request it is

    Models [crates/rginx-http/src/client_ip.rs] and the PROXY protocol header of
    [server/proxy_protocol.rs]: the address a request is attributed to, from the
    socket, the PROXY header, a client-IP header or [X-Forwarded-For]. *)

From S2P Require Import Prelude RustStr External Body.

(** ** Parsing addresses *)

(** [SocketAddr::from_str]: an IPv4 address and a port, or a bracketed IPv6
    address with an optional scope. *)
Definition read_port (s : string) : option (Z * string) :=
  strip_prefix ":" s ≫= λ s, read_number 10 u16_max (String.length s) true s.

Definition socket_from_str (s : string) : option SocketAddr :=
  match read_ipv4 s ≫= λ '(octets, rest), (λ '(port, rest), (octets, port, rest)) <$> read_port rest with
  | Some (octets, port, EmptyString) => Some (mkSocketAddr (V4 octets) port)
  | _ =>
      '(octets, rest) ← strip_prefix "[" s ≫= read_ipv6;
      rest ← match strip_prefix "%" rest with
             | Some scope => snd <$> read_number 10 u32_max (String.length scope) true scope
             | None => Some rest
             end;
      rest ← strip_prefix "]" rest;
      '(port, rest) ← read_port rest;
      if str_is_empty rest then Some (mkSocketAddr (V6 octets) port) else None
  end.

Example socket_parse :
  map socket_from_str ["1.2.3.4:80"; "[::1]:443"; "[fe80::1%2]:1"; "1.2.3.4"; "::1:443"; "1.2.3.4:65536"]%string =
  [Some (mkSocketAddr (V4 [1; 2; 3; 4]) 80);
   Some (mkSocketAddr (V6 [0; 0; 0; 0; 0; 0; 0; 0; 0; 0; 0; 0; 0; 0; 0; 1]) 443);
   Some (mkSocketAddr (V6 [254; 128; 0; 0; 0; 0; 0; 0; 0; 0; 0; 0; 0; 0; 0; 1]) 1); None; None; None].
Proof. by vm_compute. Qed.

(** ** The PROXY protocol, version 1 *)

(** [str::split_whitespace]: the words between Unicode white space. *)
Fixpoint split_whitespace_from (word s : string) : list string :=
  let flush l := if str_is_empty word then l else word :: l in
  match s with
  | EmptyString => flush []
  | String a r1 =>
      if is_ascii_ws_byte (byte_of a) then flush (split_whitespace_from EmptyString r1)
      else match r1 with
           | EmptyString => [word +:+ s]
           | String b r2 =>
               if ws2 (byte_of a) (byte_of b) then flush (split_whitespace_from EmptyString r2)
               else match r2 with
                    | String c r3 =>
                        if ws3 (byte_of a) (byte_of b) (byte_of c)
                        then flush (split_whitespace_from EmptyString r3)
                        else split_whitespace_from (word +:+ String a EmptyString) r1
                    | EmptyString => split_whitespace_from (word +:+ String a EmptyString) r1
                    end
           end
  end.
Definition split_whitespace (s : string) : list string := split_whitespace_from EmptyString s.

Definition crlf : string := String (ascii_of_N 13) (String (ascii_of_N 10) EmptyString).

(** [header.trim_end_matches("\r\n")]. *)
Fixpoint trim_end_crlf (fuel : nat) (s : string) : string :=
  match fuel with
  | O => s
  | S fuel => match strip_suffix crlf s with Some s => trim_end_crlf fuel s | None => s end
  end.

(** Every failure is an [InvalidData] error. *)
(** Source: crates/rginx-http/src/server/proxy_protocol.rs:37-112 (parse_proxy_protocol_v1) *)
Definition parse_proxy_protocol_v1 (header : string) (remote_addr : SocketAddr)
    (trust_remote_addr : bool) : result string (option SocketAddr) :=
  let header := trim_end_crlf (String.length header) header in
  if str_eqb header "PROXY UNKNOWN" then Ok None
  else
    let parts := split_whitespace header in
    if negb (bool_decide (parts !! 0%nat = Some "PROXY"%string)) || bool_decide (is_Some (parts !! 6%nat))
    then Err "invalid proxy protocol header"%string
    else
      let? source :=
        if bool_decide (parts !! 1%nat = Some "TCP4"%string) || bool_decide (parts !! 1%nat = Some "TCP6"%string) then
          let? ip := ok_or (parts !! 2%nat) "missing proxy protocol source address"%string in
          let? ip := ok_or (ip_from_str ip) "invalid proxy protocol source address"%string in
          let? port := ok_or (parts !! 4%nat) "missing proxy protocol source port"%string in
          let? port := ok_or (parse_u16 port) "invalid proxy protocol source port"%string in
          Ok (mkSocketAddr ip port)
        else Err "unsupported proxy protocol transport"%string in
      if negb trust_remote_addr then Ok None else Ok (Some source).

Definition max_proxy_protocol_header_bytes : nat := 108.

(** The header is read byte by byte up to the first CR LF; the rest of the
    stream is left for the request.  The stream ends with an error. *)
(** Source: crates/rginx-http/src/server/proxy_protocol.rs:7-35 (read_proxy_protocol_source_addr) *)
Fixpoint read_proxy_header (header stream : bytes) : result string (bytes * bytes) :=
  if (max_proxy_protocol_header_bytes <=? length header)%nat
  then Err "proxy protocol header is too long"%string
  else
    match stream with
    | [] => Err "unexpected end of file"%string
    | byte :: stream =>
        let header := header ++ [byte] in
        if bool_decide (drop (length header - 2) header = [13; 10]) then Ok (header, stream)
        else read_proxy_header header stream
    end.

(** The six fields the protocol allows after [UNKNOWN] are rejected; only the
    bare line is accepted. *)
Example proxy_lines :
  let remote := mkSocketAddr (V4 [10; 0; 0; 1]) 9 in
  map (λ h, parse_proxy_protocol_v1 (h +:+ crlf) remote true)
    ["PROXY TCP4 1.2.3.4 10.0.0.1 5000 443"; "PROXY UNKNOWN";
     "PROXY UNKNOWN ffff::1 ffff::2 65535 65535"; "PROXY TCP4 1.2.3.4 10.0.0.1 70000 443"; "GET / HTTP/1.1"]%string =
  [Ok (Some (mkSocketAddr (V4 [1; 2; 3; 4]) 5000)); Ok None;
   Err "unsupported proxy protocol transport"%string; Err "invalid proxy protocol source port"%string;
   Err "invalid proxy protocol header"%string].
Proof. by vm_compute. Qed.

(** ** The client address *)

(** Source: crates/rginx-http/src/client_ip.rs:7-11 (ClientIpSource) *)
Inductive ClientIpSource : Type := SocketPeer | XForwardedFor | ClientIpHeader.

(** Source: crates/rginx-http/src/client_ip.rs:14-20 (ClientIpSource::as_str) *)
Definition client_ip_source_as_str (s : ClientIpSource) : string :=
  match s with
  | SocketPeer => "socket_peer"
  | XForwardedFor => "x_forwarded_for"
  | ClientIpHeader => "client_ip_header"
  end.

(** Source: crates/rginx-http/src/client_ip.rs:24-29 (ClientAddress) *)
Record ClientAddress : Type := mkClientAddress {
  ca_peer_addr : SocketAddr;
  ca_client_ip : IpAddr;
  ca_forwarded_for : string;
  ca_source : ClientIpSource;
}.

(** Source: crates/rginx-http/src/client_ip.rs:32-39 (TlsClientIdentity) *)
Record TlsClientIdentity : Type := mkTlsClientIdentity {
  tci_subject : option string;
  tci_issuer : option string;
  tci_serial_number : option string;
  tci_san_dns_names : list string;
  tci_chain_length : Z;
  tci_chain_subjects : list string;
}.

(** Source: crates/rginx-http/src/client_ip.rs:42-49 (ConnectionPeerAddrs) *)
Record ConnectionPeerAddrs : Type := mkConnectionPeer {
  cp_socket_peer_addr : SocketAddr;
  cp_proxy_protocol_source_addr : option SocketAddr;
  cp_tls_client_identity : option TlsClientIdentity;
  cp_tls_version : option string;
  cp_tls_alpn : option string;
  cp_early_data : bool;
}.

Section ClientIp.
Context {HTTP : HttpApi} {NET : IpNetApi}.

(** The fields of [Server] that are read. *)
Context (trusted_proxies : list IpNet) (client_ip_header : option string).

(** Source: crates/rginx-core/src/config/server.rs:35-37 (Server::is_trusted_proxy) *)
Definition is_trusted_proxy (ip : IpAddr) : bool :=
  existsb (λ cidr, ipnet_contains cidr ip) trusted_proxies.

(** Source: crates/rginx-http/src/client_ip.rs:134-140 (parse_forwarded_ip) *)
Definition parse_forwarded_ip (token : string) : option IpAddr :=
  match ip_from_str token with
  | Some ip => Some ip
  | None => sock_ip <$> socket_from_str token
  end.

(** Source: crates/rginx-http/src/client_ip.rs:92-96 (parse_client_ip_header) *)
Definition parse_client_ip_header (headers : HeaderMap) (header_name : string) : option IpAddr :=
  value ← hm_get headers header_name;
  value ← hv_to_str value;
  token ← find_first (λ token, negb (str_is_empty token)) (map trim (split ","%char (trim value)));
  parse_forwarded_ip token.

(** All or nothing: an empty or invalid element, or an unreadable value, discards
    the whole chain. *)
Fixpoint parse_tokens (tokens : list string) (chain : list IpAddr) : option (list IpAddr) :=
  match tokens with
  | [] => Some chain
  | token :: tokens =>
      let token := trim token in
      if str_is_empty token then None
      else ip ← parse_forwarded_ip token; parse_tokens tokens (chain ++ [ip])
  end.

Fixpoint parse_values (values : list HeaderValue) (chain : list IpAddr) : option (list IpAddr) :=
  match values with
  | [] => Some chain
  | value :: values =>
      value ← hv_to_str value;
      chain ← parse_tokens (split ","%char value) chain;
      parse_values values chain
  end.

(** Source: crates/rginx-http/src/client_ip.rs:116-132 (parse_x_forwarded_for) *)
Definition parse_x_forwarded_for (headers : HeaderMap) : option (list IpAddr) :=
  chain ← parse_values (hm_get_all headers "x-forwarded-for") [];
  match chain with [] => None | _ => Some chain end.

(** [chain[0]] exists: the chain is not empty. *)
(** Source: crates/rginx-http/src/client_ip.rs:142-154 (select_client_ip_with_immediate_peer) *)
Definition select_client_ip_with_immediate_peer (chain : list IpAddr) (immediate_peer : IpAddr) : IpAddr :=
  match find_first (λ ip, negb (is_trusted_proxy ip)) (reverse chain ++ [immediate_peer]) with
  | Some ip => ip
  | None => default immediate_peer (head chain)
  end.

(** Source: crates/rginx-http/src/client_ip.rs:98-105 (direct_peer) *)
Definition direct_peer (peer_addr : SocketAddr) : ClientAddress :=
  mkClientAddress peer_addr (sock_ip peer_addr) (ip_to_string (sock_ip peer_addr)) SocketPeer.

(** Source: crates/rginx-http/src/client_ip.rs:107-114 (proxied_peer) *)
Definition proxied_peer (peer_addr : SocketAddr) (client_ip : IpAddr) : ClientAddress :=
  mkClientAddress peer_addr client_ip (ip_to_string client_ip) SocketPeer.

(** Source: crates/rginx-http/src/client_ip.rs:51-90 (resolve_client_address) *)
Definition resolve_client_address (headers : HeaderMap) (connection : ConnectionPeerAddrs) : ClientAddress :=
  let peer := cp_socket_peer_addr connection in
  if negb (is_trusted_proxy (sock_ip peer)) then direct_peer peer
  else
    let immediate_peer := default peer (cp_proxy_protocol_source_addr connection) in
    match client_ip_header ≫= parse_client_ip_header headers with
    | Some client_ip =>
        mkClientAddress peer client_ip
          (ip_to_string client_ip +:+ ", " +:+ ip_to_string (sock_ip immediate_peer)) ClientIpHeader
    | None =>
        match parse_x_forwarded_for headers with
        | None => proxied_peer peer (sock_ip immediate_peer)
        | Some chain =>
            mkClientAddress peer
              (select_client_ip_with_immediate_peer chain (sock_ip immediate_peer))
              (str_join ", " (map ip_to_string chain) +:+ ", " +:+ ip_to_string (sock_ip immediate_peer))
              XForwardedFor
        end
    end.

(** ** Who may say who the client is *)

Lemma find_first_app {A} (p : A → bool) l k :
  find_first p (l ++ k) = match find_first p l with Some x => Some x | None => find_first p k end.
Proof. induction l as [|x l IH]; [done|]. cbn. by destruct (p x). Qed.

Definition trusted (ip : IpAddr) : Prop := is_trusted_proxy ip = true.

(** The last untrusted hop, the immediate peer being the last. *)
Definition last_untrusted (hops : list IpAddr) (ip : IpAddr) : Prop :=
  ∃ before after, hops = before ++ ip :: after ∧ ¬ trusted ip ∧ Forall trusted after.

Lemma selected_hop hops :
  match find_first (λ ip, negb (is_trusted_proxy ip)) (reverse hops) with
  | Some ip => last_untrusted hops ip
  | None => Forall trusted hops
  end.
Proof.
  destruct (find_first _ _) as [ip|] eqn:Hf.
  - apply find_first_Some in Hf as (l1 & l2 & Hl & Hip & Hl1).
    exists (reverse l2), (reverse l1). split_and!.
    + by rewrite <-(reverse_involutive hops), Hl, reverse_app, reverse_cons, <-app_assoc.
    + unfold trusted. by apply negb_true_iff in Hip as ->.
    + apply Forall_reverse. eapply Forall_impl; [exact Hl1|]. intros x Hx. by apply negb_false_iff in Hx.
  - apply find_first_None in Hf. rewrite <-(reverse_involutive hops). apply Forall_reverse.
    eapply Forall_impl; [exact Hf|]. intros x Hx. by apply negb_false_iff in Hx.
Qed.

Lemma select_hop chain immediate :
  chain ≠ [] →
  last_untrusted chain (select_client_ip_with_immediate_peer chain immediate) ∨
  (Forall trusted chain ∧ ¬ trusted immediate ∧ select_client_ip_with_immediate_peer chain immediate = immediate) ∨
  (Forall trusted chain ∧ trusted immediate ∧ head chain = Some (select_client_ip_with_immediate_peer chain immediate)).
Proof.
  intros Hne. unfold select_client_ip_with_immediate_peer. rewrite find_first_app.
  pose proof (selected_hop chain) as Hs. destruct (find_first _ (reverse chain)) as [ip|]; [by left|].
  right. cbn. unfold trusted. destruct (is_trusted_proxy immediate); cbn; [right|by left].
  split; [done|]. by destruct chain.
Qed.

Lemma select_prefix spoofed chain immediate :
  ¬ Forall trusted chain →
  select_client_ip_with_immediate_peer (spoofed ++ chain) immediate = select_client_ip_with_immediate_peer chain immediate.
Proof.
  intros Hall. unfold select_client_ip_with_immediate_peer. rewrite reverse_app, <-app_assoc, !find_first_app.
  pose proof (selected_hop chain) as Hs. by destruct (find_first _ (reverse chain)).
Qed.

Lemma forwarded_chain_nonempty headers chain : parse_x_forwarded_for headers = Some chain → chain ≠ [].
Proof. unfold parse_x_forwarded_for. by destruct (parse_values _ _) as [[|? ?]|]; cbn; intros; simplify_eq. Qed.
End ClientIp.

(** C17.  Who the client is.  A request from a socket that is not trusted is
    attributed to that socket, whatever its headers say.  From a trusted socket it
    is attributed to the address in the configured client header, if that is
    there and reads as one; else to the last untrusted address of
    [X-Forwarded-For], if all of it reads as addresses; if every address there is
    trusted, to the immediate peer unless that is trusted too, and then to the
    first address; and to the immediate peer if there is no chain.  What is put
    in front of a chain with an untrusted address changes nothing.  The text sent
    upstream is what was believed, followed by the immediate peer.  (The
    immediate peer is the one of the PROXY protocol if there is one, and its
    header is believed although it need not be trusted itself:
    [proxy_protocol_client_is_spoofed].) *)
Theorem client_address_is_vouched_for {HTTP : HttpApi} {NET : IpNetApi} (proxies : list IpNet) (client_ip_header : option string)
    (headers : HeaderMap) (connection : ConnectionPeerAddrs) :
  let socket := cp_socket_peer_addr connection in
  let immediate := sock_ip (default socket (cp_proxy_protocol_source_addr connection)) in
  let named headers := client_ip_header ≫= parse_client_ip_header headers in
  let client headers := resolve_client_address proxies client_ip_header headers connection in
  ca_peer_addr (client headers) = socket ∧
  (¬ trusted proxies (sock_ip socket) →
     ca_client_ip (client headers) = sock_ip socket ∧ ca_forwarded_for (client headers) = ip_to_string (sock_ip socket)) ∧
  (trusted proxies (sock_ip socket) →
    (∀ ip, named headers = Some ip →
       ca_client_ip (client headers) = ip ∧
       ca_forwarded_for (client headers) = ip_to_string ip +:+ ", " +:+ ip_to_string immediate) ∧
    (named headers = None → parse_x_forwarded_for headers = None →
       ca_client_ip (client headers) = immediate ∧ ca_forwarded_for (client headers) = ip_to_string immediate) ∧
    (∀ chain, named headers = None → parse_x_forwarded_for headers = Some chain →
       let ip := ca_client_ip (client headers) in
       (last_untrusted proxies chain ip ∨
        (Forall (trusted proxies) chain ∧ ¬ trusted proxies immediate ∧ ip = immediate) ∨
        (Forall (trusted proxies) chain ∧ trusted proxies immediate ∧ head chain = Some ip)) ∧
       ca_forwarded_for (client headers) =
         str_join ", " (map ip_to_string chain) +:+ ", " +:+ ip_to_string immediate ∧
       ∀ spoofed headers', ¬ Forall (trusted proxies) chain → named headers' = None →
         parse_x_forwarded_for headers' = Some (spoofed ++ chain) → ca_client_ip (client headers') = ip)).
Proof.
  intros socket immediate named client. unfold client, resolve_client_address.
  fold socket. fold (named headers). unfold trusted at 1 2.
  destruct (is_trusted_proxy proxies (sock_ip socket)) eqn:Hp; cbn [negb].
  2:{ split_and!; [done|done|by intros]. }
  split; [by destruct (named headers); [|destruct (parse_x_forwarded_for headers)]|]. split; [done|]. intros _. split_and!.
  - by intros ip ->.
  - by intros -> ->.
  - intros chain -> Hc. rewrite Hc. cbn [ca_client_ip ca_forwarded_for]. fold immediate. split_and!.
    + by eapply select_hop, forwarded_chain_nonempty.
    + done.
    + intros spoofed headers' Hall Hn Hs. fold (named headers'). rewrite Hn, Hs. by apply select_prefix.
Qed.

(** ** A concrete proxy *)

Definition ten_net : list (@IpNet RefIpNet.api) := [([10; 0; 0; 0], 8)].
Definition behind (source : option SocketAddr) : ConnectionPeerAddrs :=
  mkConnectionPeer (mkSocketAddr (V4 [10; 2; 3; 4]) 4000) source None None None false.
Definition forwarded (value : string) : @HeaderMap RefHttp.api := [("x-forwarded-for", value)]%string.

Theorem client_address_is_vouched_for_witness :
  ca_client_ip (resolve_client_address (NET := RefIpNet.api) ten_net None
    (forwarded "203.0.113.66, 198.51.100.9, 10.1.2.3") (behind None)) = V4 [198; 51; 100; 9].
Proof.
  destruct (@client_address_is_vouched_for RefHttp.api RefIpNet.api ten_net None
    (forwarded "198.51.100.9, 10.1.2.3") (behind None)) as (_ & _ & H).
  destruct (H eq_refl) as (_ & _ & Hchain).
  destruct (Hchain [V4 [198; 51; 100; 9]; V4 [10; 1; 2; 3]]) as (_ & _ & Hs); [done|by vm_compute|].
  rewrite (Hs [V4 [203; 0; 113; 66]] (forwarded "203.0.113.66, 198.51.100.9, 10.1.2.3")); [by vm_compute| |done|by vm_compute].
  intros Hall. inversion Hall as [|? ? Hx _]. vm_compute in Hx. discriminate Hx.
Defined.

(** Behind a load balancer that speaks the PROXY protocol the client itself is
    the immediate peer, and it is not trusted; yet the [X-Forwarded-For] it
    sends is believed before its own address. *)
Example proxy_protocol_client_is_spoofed :
  ca_client_ip (resolve_client_address (NET := RefIpNet.api) ten_net None
    (forwarded "203.0.113.66") (behind (Some (mkSocketAddr (V4 [198; 51; 100; 9]) 1234)))) = V4 [203; 0; 113; 66].
Proof. by vm_compute. Qed.
