(* ===== verification/GrpcWeb.v ===== *)
(** * gRPC-Web translation

    Models [crates/rginx-http/src/proxy/grpc_web]: the codec ([codec.rs]) and the
    four bodies that translate a stream one poll at a time
    ([body/text_decode.rs], [text_encode.rs], [request.rs], [response.rs]).

    A poll that runs its loop several times takes several results of the inner
    body: the loops recurse on that list. *)

From S2P Require Import Prelude RustStr External Body.

Section GrpcWeb.
Context {HTTP : HttpApi} {B64 : Base64Api}.
Notation FramePoll := (FramePoll BoxError).

(** Source: crates/rginx-http/src/proxy/grpc_web/codec.rs:3-5 (invalid_grpc_web_body) *)
Definition invalid_grpc_web_body (message : string) : BoxError := InvalidDataError message.

(** Source: crates/rginx-http/src/proxy/common.rs:41-47 (append_header_map) *)
Definition append_header_map (destination source : HeaderMap) : HeaderMap :=
  foldl (λ m name, foldl (λ m value, hm_append name value m) m (hm_get_all source name))
    destination (hm_keys source).

(** ** Trailer blocks *)

(** [payload.split(|byte| *byte == b'\n')]. *)
Fixpoint split_lines (payload : bytes) : list bytes :=
  match payload with
  | [] => [[]]
  | b :: payload =>
      if b =? 10 then [] :: split_lines payload
      else match split_lines payload with
           | line :: lines => (b :: line) :: lines
           | [] => [[b]]
           end
  end.

(** [line.strip_suffix(b"\r").unwrap_or(line)]. *)
Fixpoint strip_cr (line : bytes) : bytes :=
  match line with
  | [] => []
  | [b] => if b =? 13 then [] else [b]
  | b :: line => b :: strip_cr line
  end.

(** [line.iter().position(|byte| *byte == b':')], then [split_at]. *)
Fixpoint split_colon (line : bytes) : option (bytes * bytes) :=
  match line with
  | [] => None
  | b :: line =>
      if b =? 58 then Some ([], line)
      else '(name, value) ← split_colon line; Some (b :: name, value)
  end.

(** [std::str::from_utf8]: the well-formed byte sequences of the Unicode
    standard. *)
Definition cont (b : Z) : bool := in_range 128 191 b.
Fixpoint utf8_valid (l : bytes) : bool :=
  match l with
  | [] => true
  | b :: l1 =>
      if b <? 128 then utf8_valid l1
      else match l1 with
      | [] => false
      | c :: l2 =>
          if in_range 194 223 b then cont c && utf8_valid l2
          else match l2 with
          | [] => false
          | d :: l3 =>
              let second :=
                if b =? 224 then in_range 160 191 c
                else if b =? 237 then in_range 128 159 c
                else (in_range 225 236 b || in_range 238 239 b) && cont c in
              if in_range 224 239 b then second && cont d && utf8_valid l3
              else match l3 with
              | [] => false
              | e :: l4 =>
                  let second :=
                    if b =? 240 then in_range 144 191 c
                    else if b =? 244 then in_range 128 143 c
                    else in_range 241 243 b && cont c in
                  second && cont d && cont e && utf8_valid l4
              end
          end
      end
  end.

Definition decode_trailer_line (trailers : HeaderMap) (line : bytes) : result BoxError HeaderMap :=
  let line := strip_cr line in
  match line with
  | [] => Ok trailers
  | _ =>
      let? (name, value) :=
        ok_or (split_colon line)
          (invalid_grpc_web_body "grpc-web trailer line should contain ':'") in
      let? name :=
        ok_or (header_name_parse (string_of_bytes name))
          (invalid_grpc_web_body "grpc-web trailer name should be a valid HTTP header") in
      if negb (utf8_valid value)
      then Err (invalid_grpc_web_body "grpc-web trailer value should be valid utf-8")
      else
        let? value :=
          ok_or (hv_from_str (trim (string_of_bytes value)))
            (invalid_grpc_web_body "grpc-web trailer value should be a valid HTTP header") in
        Ok (hm_append name value trailers)
  end.

(** Source: crates/rginx-http/src/proxy/grpc_web/codec.rs:50-77 (decode_grpc_web_trailer_block) *)
Definition decode_grpc_web_trailer_block (payload : bytes) : result BoxError HeaderMap :=
  foldl (λ trailers line, let? trailers := trailers in decode_trailer_line trailers line)
    (Ok hm_new) (split_lines payload).

(** The length is written in four bytes. *)
(** Source: crates/rginx-http/src/proxy/grpc_web/codec.rs:161-175 (encode_grpc_web_trailers) *)
Definition encode_grpc_web_trailers (trailers : HeaderMap) : bytes :=
  let trailer_block :=
    concat (map (λ '(name, value), bytes_of_string name ++ [58; 32] ++
                   bytes_of_string (hv_as_bytes value) ++ [13; 10]) (hm_iter trailers)) in
  [128] ++ u32_to_be (wrap32 (len trailer_block)) ++ trailer_block.

(** Source: crates/rginx-http/src/proxy/grpc_web/codec.rs:149-159 (extract_grpc_initial_trailers) *)
Definition extract_grpc_initial_trailers (headers : HeaderMap) : option HeaderMap * HeaderMap :=
  let '(trailers, headers) :=
    foldl (λ '(trailers, headers) name,
             match hm_get headers name with
             | Some value => (hm_insert name value trailers, hm_remove name headers)
             | None => (trailers, headers)
             end) (hm_new, headers) ["grpc-status"; "grpc-message"; "grpc-status-details-bin"]%string in
  (if hm_is_empty trailers then None else Some trailers, headers).

(** ** Request frames *)

(** Source: crates/rginx-http/src/proxy/grpc_web/codec.rs:7-10 (ParsedGrpcWebRequestFrame) *)
Inductive ParsedGrpcWebRequestFrame : Type :=
| ParsedData (frame : bytes)
| ParsedTrailers (trailers : HeaderMap).

(** The frame parsed, if a whole one is there, and the rest of the buffer. *)
(** Source: crates/rginx-http/src/proxy/grpc_web/codec.rs:12-48 (decode_grpc_web_request_frame) *)
Definition decode_grpc_web_request_frame (buffer : bytes) (inner_finished saw_grpc_web_trailers : bool)
    : result BoxError (option ParsedGrpcWebRequestFrame) * bytes :=
  match buffer with
  | [] => (Ok None, buffer)
  | _ =>
      if saw_grpc_web_trailers
      then (Err (invalid_grpc_web_body "grpc-web request trailer frame must be terminal"), buffer)
      else match buffer with
      | flags :: b1 :: b2 :: b3 :: b4 :: _ =>
          let len := u32_from_be b1 b2 b3 b4 in
          let frame_len := sat_add64 5 len in
          if Z.of_nat (length buffer) <? frame_len then
            if inner_finished
            then (Err (invalid_grpc_web_body "incomplete grpc-web request frame payload"), buffer)
            else (Ok None, buffer)
          else
            let frame := take (Z.to_nat frame_len) buffer in
            let buffer := drop (Z.to_nat frame_len) buffer in
            if negb (Z.land flags 128 =? 0) then
              (rmap (λ t, Some (ParsedTrailers t)) (decode_grpc_web_trailer_block (drop 5 frame)), buffer)
            else (Ok (Some (ParsedData frame)), buffer)
      | _ =>
          if inner_finished
          then (Err (invalid_grpc_web_body "incomplete grpc-web request frame header"), buffer)
          else (Ok None, buffer)
      end
  end.

(** Source: crates/rginx-http/src/proxy/grpc_web/body/request.rs:7-16 (GrpcWebRequestBody) *)
Record GrpcWebRequestBody : Type := mkRequestBody {
  rb_inner : list FramePoll;
  rb_inner_finished : bool;
  rb_inner_trailers : option HeaderMap;
  rb_pending_data : option bytes;
  rb_pending_trailers : option HeaderMap;
  rb_buffer : bytes;
  rb_saw_grpc_web_trailers : bool;
}.

(** Source: crates/rginx-http/src/proxy/grpc_web/body/request.rs:20-30 (GrpcWebRequestBody::new) *)
Definition request_body_new (inner : list FramePoll) : GrpcWebRequestBody :=
  mkRequestBody inner false None None None [] false.

(** What a turn of the loop finds in the buffer: the result of the poll, or none
    and the buffer, the trailers of the inner body and whether a trailer frame
    was seen.  Trailers that are empty are dropped and the loop goes on with the
    rest of the buffer. *)
Definition request_frame (buffer : bytes) (finished saw : bool) (inner_trailers : option HeaderMap)
    : option FramePoll * bytes * bool * option HeaderMap :=
  match decode_grpc_web_request_frame buffer finished saw with
  | (Ok (Some (ParsedData data)), buffer) =>
      (Some (ReadyFrame (DataFrame data)), buffer, saw, inner_trailers)
  | (Ok (Some (ParsedTrailers trailers)), buffer) =>
      let trailers := match inner_trailers with
                      | Some inner_trailers => append_header_map trailers inner_trailers
                      | None => trailers
                      end in
      if hm_is_empty trailers then
        match decode_grpc_web_request_frame buffer finished true with
        | (Err error, buffer) => (Some (ReadyError error), buffer, true, None)
        | (Ok _, buffer) => (None, buffer, true, None)
        end
      else (Some (ReadyFrame (TrailersFrame trailers)), buffer, true, None)
  | (Ok None, buffer) => (None, buffer, saw, inner_trailers)
  | (Err error, buffer) => (Some (ReadyError error), buffer, saw, inner_trailers)
  end.

(** The turns after the inner body ended. *)
Definition request_finish (inner : list FramePoll) (buffer : bytes) (saw : bool)
    (inner_trailers : option HeaderMap) : FramePoll * GrpcWebRequestBody :=
  match request_frame buffer true saw inner_trailers with
  | (Some p, buffer, saw, inner_trailers) =>
      (p, mkRequestBody inner true inner_trailers None None buffer saw)
  | (None, buffer, saw, Some trailers) =>
      (ReadyFrame (TrailersFrame trailers), mkRequestBody inner true None None None buffer saw)
  | (None, buffer, saw, None) => (ReadyEnd, mkRequestBody inner true None None None buffer saw)
  end.

(** Source: crates/rginx-http/src/proxy/grpc_web/body/request.rs:41-121 (GrpcWebRequestBody::poll_frame) *)
Fixpoint request_loop (inner : list FramePoll) (buffer : bytes) (saw : bool)
    (inner_trailers : option HeaderMap) : FramePoll * GrpcWebRequestBody :=
  match request_frame buffer false saw inner_trailers with
  | (Some p, buffer, saw, inner_trailers) =>
      (p, mkRequestBody inner false inner_trailers None None buffer saw)
  | (None, buffer, saw, inner_trailers) =>
      match inner with
      | [] => request_finish [] buffer saw inner_trailers
      | ReadyEnd :: inner => request_finish inner buffer saw inner_trailers
      | ReadyFrame (DataFrame data) :: inner =>
          if saw && match data with [] => false | _ => true end
          then (ReadyError (invalid_grpc_web_body "grpc-web request trailer frame must be terminal"),
                mkRequestBody inner false inner_trailers None None buffer saw)
          else request_loop inner (buffer ++ data) saw inner_trailers
      | ReadyFrame (TrailersFrame trailers) :: inner =>
          let inner_trailers := match inner_trailers with
                                | Some existing => append_header_map existing trailers
                                | None => trailers
                                end in
          request_finish inner buffer saw (Some inner_trailers)
      | ReadyFrame OtherFrame :: inner =>
          (ReadyError (invalid_grpc_web_body "unexpected downstream request frame for grpc-web decoding"),
           mkRequestBody inner false inner_trailers None None buffer saw)
      | ReadyError error :: inner =>
          (ReadyError error, mkRequestBody inner true inner_trailers None None buffer saw)
      | Pending :: inner => (Pending, mkRequestBody inner false inner_trailers None None buffer saw)
      end
  end.

(** Source: crates/rginx-http/src/proxy/grpc_web/body/request.rs:41-121 (GrpcWebRequestBody::poll_frame) *)
Definition request_poll_frame (b : GrpcWebRequestBody) : FramePoll * GrpcWebRequestBody :=
  match rb_pending_data b, rb_pending_trailers b with
  | Some data, t =>
      (ReadyFrame (DataFrame data),
       mkRequestBody (rb_inner b) (rb_inner_finished b) (rb_inner_trailers b) None t (rb_buffer b)
         (rb_saw_grpc_web_trailers b))
  | None, Some trailers =>
      (ReadyFrame (TrailersFrame trailers),
       mkRequestBody (rb_inner b) (rb_inner_finished b) (rb_inner_trailers b) None None (rb_buffer b)
         (rb_saw_grpc_web_trailers b))
  | None, None =>
      if rb_inner_finished b
      then request_finish (rb_inner b) (rb_buffer b) (rb_saw_grpc_web_trailers b) (rb_inner_trailers b)
      else request_loop (rb_inner b) (rb_buffer b) (rb_saw_grpc_web_trailers b) (rb_inner_trailers b)
  end.

(** Source: crates/rginx-http/src/proxy/grpc_web/body/request.rs:123-129 (GrpcWebRequestBody::is_end_stream) *)
Definition request_is_end_stream (b : GrpcWebRequestBody) : bool :=
  rb_inner_finished b && negb (is_some (rb_inner_trailers b)) && negb (is_some (rb_pending_data b)) &&
  negb (is_some (rb_pending_trailers b)) && match rb_buffer b with [] => true | _ => false end.

(** ** The text encoding *)

(** [u8::is_ascii_whitespace]. *)
Definition u8_is_ascii_whitespace (b : Z) : bool :=
  (b =? 32) || (b =? 9) || (b =? 10) || (b =? 12) || (b =? 13).

Definition strip_whitespace (data : bytes) : bytes :=
  filter (λ b, u8_is_ascii_whitespace b = false) data.

(** [encoded.chunks_exact(4)], each decoded on its own. *)
Fixpoint decode_quanta (encoded : bytes) : result BoxError bytes :=
  match encoded with
  | a :: b :: c :: d :: encoded =>
      let? chunk := ok_or (base64_decode [a; b; c; d])
                      (invalid_grpc_web_body "invalid grpc-web-text base64 chunk") in
      let? decoded := decode_quanta encoded in
      Ok (chunk ++ decoded)
  | _ => Ok []
  end.

(** [(!decoded.is_empty()).then(..)]. *)
Definition non_empty (decoded : bytes) : option bytes :=
  match decoded with [] => None | _ => Some decoded end.

(** The message of the [base64] error is left out. *)
(** Source: crates/rginx-http/src/proxy/grpc_web/codec.rs:79-104 (decode_grpc_web_text_chunk) *)
Definition decode_grpc_web_text_chunk (carryover data : bytes)
    : result BoxError (option bytes) * bytes :=
  let carryover := carryover ++ strip_whitespace data in
  let complete_len := (length carryover / 4 * 4)%nat in
  if (complete_len =? 0)%nat then (Ok None, carryover)
  else (rmap non_empty (decode_quanta (take complete_len carryover)), drop complete_len carryover).

(** Source: crates/rginx-http/src/proxy/grpc_web/codec.rs:106-127 (decode_grpc_web_text_final) *)
Definition decode_grpc_web_text_final (carryover : bytes) : result BoxError (option bytes) * bytes :=
  match carryover with
  | [] => (Ok None, carryover)
  | _ =>
      if negb (length carryover mod 4 =? 0)%nat
      then (Err (invalid_grpc_web_body "incomplete grpc-web-text base64 body"), carryover)
      else (rmap non_empty (decode_quanta carryover), [])
  end.

(** Source: crates/rginx-http/src/proxy/grpc_web/codec.rs:129-138 (encode_grpc_web_text_chunk) *)
Definition encode_grpc_web_text_chunk (carryover data : bytes) : option bytes * bytes :=
  let carryover := carryover ++ data in
  let complete_len := (length carryover / 3 * 3)%nat in
  if (complete_len =? 0)%nat then (None, carryover)
  else (Some (base64_encode_no_pad (take complete_len carryover)), drop complete_len carryover).

(** Source: crates/rginx-http/src/proxy/grpc_web/codec.rs:140-147 (flush_grpc_web_text_chunk) *)
Definition flush_grpc_web_text_chunk (carryover : bytes) : option bytes * bytes :=
  match carryover with
  | [] => (None, carryover)
  | _ => (Some (base64_encode carryover), [])
  end.

(** Source: crates/rginx-http/src/proxy/grpc_web/body/text_decode.rs:7-14 (GrpcWebTextDecodeBody) *)
Record GrpcWebTextDecodeBody : Type := mkTextDecode {
  td_inner : list FramePoll;
  td_pending_data : option bytes;
  td_pending_trailers : option HeaderMap;
  td_carryover : bytes;
  td_inner_finished : bool;
}.

(** Source: crates/rginx-http/src/proxy/grpc_web/body/text_decode.rs:18-26 (GrpcWebTextDecodeBody::new) *)
Definition text_decode_new (inner : list FramePoll) : GrpcWebTextDecodeBody :=
  mkTextDecode inner None None [] false.

Definition text_decode_finish (inner : list FramePoll) (carryover : bytes)
    : FramePoll * GrpcWebTextDecodeBody :=
  let '(decoded, carryover) := decode_grpc_web_text_final carryover in
  (match decoded with
   | Ok (Some data) => ReadyFrame (DataFrame data)
   | Ok None => ReadyEnd
   | Err error => ReadyError error
   end, mkTextDecode inner None None carryover true).

(** Source: crates/rginx-http/src/proxy/grpc_web/body/text_decode.rs:37-98 (GrpcWebTextDecodeBody::poll_frame) *)
Fixpoint text_decode_loop (inner : list FramePoll) (carryover : bytes)
    : FramePoll * GrpcWebTextDecodeBody :=
  match inner with
  | [] => text_decode_finish [] carryover
  | ReadyEnd :: inner => text_decode_finish inner carryover
  | ReadyFrame (DataFrame data) :: inner =>
      match decode_grpc_web_text_chunk carryover data with
      | (Ok (Some decoded), carryover) =>
          (ReadyFrame (DataFrame decoded), mkTextDecode inner None None carryover false)
      | (Ok None, carryover) => text_decode_loop inner carryover
      | (Err error, carryover) => (ReadyError error, mkTextDecode inner None None carryover false)
      end
  | ReadyFrame (TrailersFrame trailers) :: inner =>
      match decode_grpc_web_text_final carryover with
      | (Ok (Some decoded), carryover) =>
          (ReadyFrame (DataFrame decoded), mkTextDecode inner None (Some trailers) carryover false)
      | (Ok None, carryover) =>
          (ReadyFrame (TrailersFrame trailers), mkTextDecode inner None None carryover false)
      | (Err error, carryover) => (ReadyError error, mkTextDecode inner None None carryover false)
      end
  | ReadyFrame OtherFrame :: inner =>
      (ReadyError (invalid_grpc_web_body "unexpected downstream request frame for grpc-web-text decoding"),
       mkTextDecode inner None None carryover false)
  | ReadyError error :: inner => (ReadyError error, mkTextDecode inner None None carryover true)
  | Pending :: inner => (Pending, mkTextDecode inner None None carryover false)
  end.

(** Source: crates/rginx-http/src/proxy/grpc_web/body/text_decode.rs:37-98 (GrpcWebTextDecodeBody::poll_frame) *)
Definition text_decode_poll_frame (b : GrpcWebTextDecodeBody) : FramePoll * GrpcWebTextDecodeBody :=
  match td_pending_data b, td_pending_trailers b with
  | Some data, t =>
      (ReadyFrame (DataFrame data),
       mkTextDecode (td_inner b) None t (td_carryover b) (td_inner_finished b))
  | None, Some trailers =>
      (ReadyFrame (TrailersFrame trailers),
       mkTextDecode (td_inner b) None None (td_carryover b) (td_inner_finished b))
  | None, None =>
      if td_inner_finished b then text_decode_finish (td_inner b) (td_carryover b)
      else text_decode_loop (td_inner b) (td_carryover b)
  end.

(** Source: crates/rginx-http/src/proxy/grpc_web/body/text_decode.rs:100-105 (GrpcWebTextDecodeBody::is_end_stream) *)
Definition text_decode_is_end_stream (b : GrpcWebTextDecodeBody) : bool :=
  td_inner_finished b && negb (is_some (td_pending_data b)) && negb (is_some (td_pending_trailers b)) &&
  match td_carryover b with [] => true | _ => false end.

(** Source: crates/rginx-http/src/proxy/grpc_web/body/text_encode.rs:8-14 (GrpcWebTextEncodeBody) *)
Record GrpcWebTextEncodeBody : Type := mkTextEncode {
  te_inner : list FramePoll;
  te_pending_data : option bytes;
  te_carryover : bytes;
  te_inner_finished : bool;
}.

(** Source: crates/rginx-http/src/proxy/grpc_web/body/text_encode.rs:18-20 (GrpcWebTextEncodeBody::new) *)
Definition text_encode_new (inner : list FramePoll) : GrpcWebTextEncodeBody :=
  mkTextEncode inner None [] false.

Definition text_encode_finish (inner : list FramePoll) (carryover : bytes)
    : FramePoll * GrpcWebTextEncodeBody :=
  let '(data, carryover) := flush_grpc_web_text_chunk carryover in
  (match data with Some data => ReadyFrame (DataFrame data) | None => ReadyEnd end,
   mkTextEncode inner None carryover true).

(** Source: crates/rginx-http/src/proxy/grpc_web/body/text_encode.rs:31-83 (GrpcWebTextEncodeBody::poll_frame) *)
Fixpoint text_encode_loop (inner : list FramePoll) (carryover : bytes)
    : FramePoll * GrpcWebTextEncodeBody :=
  match inner with
  | [] => text_encode_finish [] carryover
  | ReadyEnd :: inner => text_encode_finish inner carryover
  | ReadyFrame (DataFrame data) :: inner =>
      match encode_grpc_web_text_chunk carryover data with
      | (Some encoded, carryover) =>
          (ReadyFrame (DataFrame encoded), mkTextEncode inner None carryover false)
      | (None, carryover) => text_encode_loop inner carryover
      end
  | ReadyFrame (TrailersFrame trailers) :: inner =>
      match encode_grpc_web_text_chunk carryover (encode_grpc_web_trailers trailers) with
      | (Some encoded, carryover) =>
          (ReadyFrame (DataFrame encoded), mkTextEncode inner None carryover false)
      | (None, carryover) => text_encode_loop inner carryover
      end
  | ReadyFrame OtherFrame :: inner =>
      (ReadyError (invalid_grpc_web_body "unexpected upstream response frame for grpc-web-text encoding"),
       mkTextEncode inner None carryover false)
  | ReadyError error :: inner => (ReadyError error, mkTextEncode inner None carryover true)
  | Pending :: inner => (Pending, mkTextEncode inner None carryover false)
  end.

(** Source: crates/rginx-http/src/proxy/grpc_web/body/text_encode.rs:31-83 (GrpcWebTextEncodeBody::poll_frame) *)
Definition text_encode_poll_frame (b : GrpcWebTextEncodeBody) : FramePoll * GrpcWebTextEncodeBody :=
  match te_pending_data b with
  | Some data =>
      (ReadyFrame (DataFrame data),
       mkTextEncode (te_inner b) None (te_carryover b) (te_inner_finished b))
  | None =>
      if te_inner_finished b then text_encode_finish (te_inner b) (te_carryover b)
      else text_encode_loop (te_inner b) (te_carryover b)
  end.

(** Source: crates/rginx-http/src/proxy/grpc_web/body/text_encode.rs:85-87 (GrpcWebTextEncodeBody::is_end_stream) *)
Definition text_encode_is_end_stream (b : GrpcWebTextEncodeBody) : bool :=
  te_inner_finished b && negb (is_some (te_pending_data b)) &&
  match te_carryover b with [] => true | _ => false end.

(** ** Responses *)

(** Source: crates/rginx-http/src/proxy/grpc_web/body/response.rs:5-11 (GrpcWebResponseBody) *)
Record GrpcWebResponseBody : Type := mkResponseBody {
  pb_inner : list FramePoll;
  pb_pending_frame : option bytes;
  pb_fallback_trailers : option HeaderMap;
  pb_inner_finished : bool;
}.

(** Source: crates/rginx-http/src/proxy/grpc_web/body/response.rs:15-17 (GrpcWebResponseBody::new) *)
Definition response_body_new (inner : list FramePoll) (fallback_trailers : option HeaderMap)
    : GrpcWebResponseBody :=
  mkResponseBody inner None fallback_trailers false.

Definition response_finish (inner : list FramePoll) (fallback : option HeaderMap)
    : FramePoll * GrpcWebResponseBody :=
  match fallback with
  | Some trailers =>
      if negb (hm_is_empty trailers)
      then (ReadyFrame (DataFrame (encode_grpc_web_trailers trailers)), mkResponseBody inner None None true)
      else (ReadyEnd, mkResponseBody inner None None true)
  | None => (ReadyEnd, mkResponseBody inner None None true)
  end.

(** Source: crates/rginx-http/src/proxy/grpc_web/body/response.rs:28-77 (GrpcWebResponseBody::poll_frame) *)
Definition response_poll_frame (b : GrpcWebResponseBody) : FramePoll * GrpcWebResponseBody :=
  match pb_pending_frame b with
  | Some frame =>
      (ReadyFrame (DataFrame frame),
       mkResponseBody (pb_inner b) None (pb_fallback_trailers b) (pb_inner_finished b))
  | None =>
      if pb_inner_finished b then (ReadyEnd, b)
      else
        let '(p, inner) := next_poll (pb_inner b) in
        match p with
        | ReadyFrame (DataFrame data) =>
            (ReadyFrame (DataFrame data), mkResponseBody inner None (pb_fallback_trailers b) false)
        | ReadyFrame (TrailersFrame trailers) =>
            (ReadyFrame (DataFrame (encode_grpc_web_trailers trailers)), mkResponseBody inner None None false)
        | ReadyFrame OtherFrame =>
            (ReadyError (invalid_grpc_web_body "unexpected upstream response frame for grpc-web translation"),
             mkResponseBody inner None (pb_fallback_trailers b) false)
        | ReadyError error =>
            (ReadyError error, mkResponseBody inner None (pb_fallback_trailers b) true)
        | ReadyEnd => response_finish inner (pb_fallback_trailers b)
        | Pending => (Pending, mkResponseBody inner None (pb_fallback_trailers b) false)
        end
  end.

(** Source: crates/rginx-http/src/proxy/grpc_web/body/response.rs:79-81 (GrpcWebResponseBody::is_end_stream) *)
Definition response_is_end_stream (b : GrpcWebResponseBody) : bool :=
  pb_inner_finished b && negb (is_some (pb_pending_frame b)).
End GrpcWeb.
