(* ===== verification/GrpcWebSafety.v ===== *)
(** * What a gRPC-Web client and server see of each other

    Theorems about [GrpcWeb.v]: whatever the chunking and the waits, text coding
    is the base64 of the whole body, the request body delivers whole frames in
    order, and a response translated downstream and read back gives the same
    messages and trailers. *)

From S2P Require Import Prelude RustStr External Body GrpcWeb.

(** ** Streams *)

Section Streams.
Context {HTTP : HttpApi}.
Notation FramePoll := (FramePoll BoxError).

(** The results of a body that delivers [content] and ends. *)
Definition stream (content : bytes) (p : list FramePoll) : Prop :=
  ∃ l k, p = l ++ replicate k ReadyEnd ∧ Forall flowing l ∧ delivered l = content.

Lemma stream_ends k : stream [] (replicate k ReadyEnd).
Proof. by exists [], k. Qed.

Lemma stream_cons p content ps : flowing p → stream content ps → stream (poll_bytes p ++ content) (p :: ps).
Proof.
  intros Hp (l & k & -> & Hl & Hd). exists (p :: l), k. split_and!; [done|by constructor|].
  by rewrite delivered_cons, Hd.
Qed.

Lemma stream_delivered content ps : stream content ps → delivered ps = content.
Proof. intros (l & k & -> & _ & <-). by rewrite delivered_app, delivered_ends, app_nil_r. Qed.

Lemma polls_S {E S} (poll : S → Body.FramePoll E * S) n s :
  polls poll (Datatypes.S n) s = (poll s).1 :: polls poll n (poll s).2.
Proof. cbn. by destruct (poll s). Qed.

(** A body that has ended keeps saying so. *)
Lemma polls_end {E S} (poll : S → Body.FramePoll E * S) n s :
  poll s = (ReadyEnd, s) → polls poll n s = replicate n ReadyEnd.
Proof. intros Hs. induction n as [|n IH]; [done|]. by rewrite polls_S, Hs; cbn; f_equal. Qed.

Lemma events_app (l k : list FramePoll) : events (l ++ k) = events l ++ events k.
Proof. apply filter_app. Qed.

Lemma events_ends k : events (replicate k (ReadyEnd (E := BoxError))) = replicate k ReadyEnd.
Proof. induction k as [|k IH]; [done|]. unfold events in *. cbn [replicate]. rewrite filter_cons_True by done. by rewrite IH. Qed.

Lemma events_cons (p : FramePoll) l : not_pending p → events (p :: l) = p :: events l.
Proof. intros Hp. unfold events. by rewrite filter_cons_True. Qed.

Lemma events_pending (l : list FramePoll) : events (Pending :: l) = events l.
Proof. unfold events. by rewrite filter_cons_False by tauto. Qed.
End Streams.

(** ** Text coding *)

Section Text.
Context {HTTP : HttpApi} {B64 : Base64Api} {Laws : Base64Laws B64}.
Notation FramePoll := (FramePoll BoxError).

Lemma base64_app_multiple k a b :
  length a = (3 * k)%nat → base64_encode (a ++ b) = base64_encode a ++ base64_encode b.
Proof.
  revert a. induction k as [|k IH]; intros a Hl.
  - destruct a; [|done]. by rewrite base64_nil.
  - rewrite <-(take_drop 3 a), <-app_assoc.
    rewrite !(base64_app (take 3 a)) by (rewrite length_take; lia).
    rewrite IH by (rewrite length_drop; lia). by rewrite app_assoc.
Qed.

(** A multiple of [m], and less than [m] left. *)
Lemma complete_len (m : nat) (l : bytes) :
  (0 < m)%nat → let k := (length l / m * m)%nat in
  length (take k l) = (m * (length l / m))%nat ∧ (length (drop k l) < m)%nat.
Proof.
  intros Hm k. pose proof (Nat.div_mod_eq (length l) m). pose proof (Nat.mod_upper_bound (length l) m).
  rewrite length_take, length_drop. unfold k. lia.
Qed.

Lemma complete_none (m : nat) (l : bytes) :
  (0 < m)%nat → (length l / m * m =? 0)%nat = true → (length l < m)%nat.
Proof. intros Hm Hz. apply Nat.eqb_eq in Hz. apply Nat.div_small_iff; nia. Qed.

Definition encoder (l : list FramePoll) (k : nat) (carry : bytes) : GrpcWebTextEncodeBody :=
  mkTextEncode (l ++ replicate k ReadyEnd) None carry false.

Lemma text_encode_stream l k carry n :
  Forall flowing l → (length carry < 3)%nat → (length l < n)%nat →
  stream (base64_encode (carry ++ delivered l)) (polls text_encode_poll_frame n (encoder l k carry)).
Proof.
  intros Hl. revert carry n. induction Hl as [|p l Hp Hl IH]; intros carry n Hc Hn; destruct n as [|n]; [lia| |cbn in Hn; lia|].
  - assert (He : text_encode_poll_frame (encoder [] k carry) =
                 text_encode_finish (drop 1 (replicate k ReadyEnd)) carry) by (by destruct k).
    rewrite polls_S, He. unfold delivered. cbn [map concat]. rewrite app_nil_r. unfold text_encode_finish.
    destruct carry as [|b carry]; cbn [flush_grpc_web_text_chunk fst snd].
    + rewrite base64_nil, polls_end by done. apply (stream_ends (S n)).
    + rewrite polls_end by done.
      pose proof (stream_cons (ReadyFrame (DataFrame (base64_encode (b :: carry)))) [] _ I (stream_ends n)) as H.
      cbn [poll_bytes] in H. by rewrite app_nil_r in H.
  - cbn in Hn. destruct p as [| |[data| |]|]; try done.
    + rewrite polls_S. cbn [fst snd]. apply (stream_cons Pending); [done|]. apply IH; [done|lia].
    + rewrite delivered_cons, app_assoc. cbn [poll_bytes].
      destruct (complete_len 3 (carry ++ data)) as [Ht Hd]; [lia|].
      destruct (length (carry ++ data) / 3 * 3 =? 0)%nat eqn:Hz.
      * assert (Hs : polls text_encode_poll_frame (S n) (encoder (ReadyFrame (DataFrame data) :: l) k carry) =
                     polls text_encode_poll_frame (S n) (encoder l k (carry ++ data))).
        { rewrite !polls_S. unfold encoder, text_encode_poll_frame. cbn [te_pending_data te_inner_finished te_inner te_carryover app text_encode_loop].
          unfold encode_grpc_web_text_chunk. by rewrite Hz. }
        rewrite Hs. apply IH; [apply complete_none; [lia|exact Hz]|lia].
      * rewrite polls_S. unfold encoder at 1 2, text_encode_poll_frame.
        cbn [te_pending_data te_inner_finished te_inner te_carryover app text_encode_loop].
        unfold encode_grpc_web_text_chunk. rewrite Hz. cbn [fst snd].
        set (c := carry ++ data) in *. set (j := (length c / 3 * 3)%nat) in *.
        assert (base64_encode (c ++ delivered l) =
                base64_encode_no_pad (take j c) ++ base64_encode (drop j c ++ delivered l)) as ->.
        { rewrite (base64_no_pad _ _ Ht), <-(base64_app_multiple _ _ _ Ht), app_assoc. by rewrite take_drop. }
        apply (stream_cons (ReadyFrame (DataFrame _))); [done|]. apply IH; [exact Hd|lia].
Qed.

(** Decoding the whole text at once. *)
Definition decode_text (text : bytes) : result BoxError bytes :=
  if (length text mod 4 =? 0)%nat then decode_quanta text
  else Err (invalid_grpc_web_body "incomplete grpc-web-text base64 body").

Lemma decode_quanta_app k a b :
  length a = (4 * k)%nat →
  decode_quanta (a ++ b) = let? x := decode_quanta a in let? y := decode_quanta b in Ok (x ++ y).
Proof.
  revert a. induction k as [|k IH]; intros a Hl.
  - destruct a; [|done]. cbn. by destruct (decode_quanta b).
  - destruct a as [|c1 [|c2 [|c3 [|c4 a]]]]; cbn [length] in Hl; try lia.
    cbn [app decode_quanta]. rewrite IH by lia.
    destruct (base64_decode _) as [chunk|]; [|done]. cbn [ok_or rbind].
    destruct (decode_quanta a) as [x|]; [|done]. cbn [rbind].
    destruct (decode_quanta b) as [y|]; [|done]. cbn [rbind]. by rewrite app_assoc.
Qed.

Lemma decode_text_app k a b :
  length a = (4 * k)%nat →
  decode_text (a ++ b) = match decode_quanta a with
    | Err e => if (length b mod 4 =? 0)%nat then Err e else decode_text b
    | Ok x => rmap (app x) (decode_text b)
    end.
Proof.
  intros Hl. unfold decode_text. rewrite length_app, Hl, Nat.add_comm, Nat.mul_comm, Nat.Div0.mod_add.
  rewrite (decode_quanta_app k) by done.
  destruct (decode_quanta a) as [x|e]; cbn [rbind];
    by destruct (length b mod 4 =? 0)%nat.
Qed.

Definition decoder (l : list FramePoll) (k : nat) (carry : bytes) : GrpcWebTextDecodeBody :=
  mkTextDecode (l ++ replicate k ReadyEnd) None None carry false.

Lemma strip_app a b : strip_whitespace (a ++ b) = strip_whitespace a ++ strip_whitespace b.
Proof. apply filter_app. Qed.

(** What is reported when the text is not the base64 of a body. *)
Definition decoded_as (r : result BoxError bytes) (p : list FramePoll) : Prop :=
  match r with Ok d => stream d p | Err _ => Exists is_error p end.

Lemma decoded_cons r p ps : flowing p → decoded_as r ps → decoded_as (rmap (app (poll_bytes p)) r) (p :: ps).
Proof. intros Hp. destruct r; cbn; [by apply stream_cons|]. intros. by apply Exists_cons_tl. Qed.

Lemma text_decode_decoded l k carry n :
  Forall flowing l → (length carry < 4)%nat → (length l < n)%nat →
  decoded_as (decode_text (carry ++ strip_whitespace (delivered l)))
    (polls text_decode_poll_frame n (decoder l k carry)).
Proof.
  intros Hl. revert carry n. induction Hl as [|p l Hp Hl IH]; intros carry n Hc Hn; destruct n as [|n]; [lia| |cbn in Hn; lia|].
  - assert (He : text_decode_poll_frame (decoder [] k carry) =
                 text_decode_finish (drop 1 (replicate k ReadyEnd)) carry) by (by destruct k).
    rewrite polls_S, He. unfold delivered, text_decode_finish. cbn [map concat strip_whitespace filter list_filter].
    rewrite app_nil_r. destruct carry as [|b carry].
    + cbn. rewrite polls_end by done. apply (stream_ends (S n)).
    + assert (Hm : (length (b :: carry) mod 4 =? 0)%nat = false).
      { apply Nat.eqb_neq. rewrite Nat.mod_small by done. done. }
      unfold decode_text, decode_grpc_web_text_final. rewrite Hm. cbn [negb fst]. by apply Exists_cons_hd.
  - cbn in Hn. destruct p as [| |[data| |]|]; try done.
    + rewrite polls_S. cbn [fst snd]. rewrite delivered_cons. cbn [poll_bytes app].
      pose proof (decoded_cons (decode_text (carry ++ strip_whitespace (delivered l))) Pending _ I
                    (IH carry n Hc ltac:(lia))) as H.
      by destruct (decode_text _).
    + rewrite delivered_cons, strip_app, app_assoc. cbn [poll_bytes].
      set (c := carry ++ strip_whitespace data).
      destruct (complete_len 4 c) as [Ht Hd]; [lia|].
      assert (Hstep : text_decode_poll_frame (decoder (ReadyFrame (DataFrame data) :: l) k carry) =
        match decode_grpc_web_text_chunk carry data with
        | (Ok (Some decoded), carryover) => (ReadyFrame (DataFrame decoded), decoder l k carryover)
        | (Ok None, carryover) => text_decode_poll_frame (decoder l k carryover)
        | (Err error, carryover) => (ReadyError error, decoder l k carryover)
        end) by done.
      unfold decode_grpc_web_text_chunk in Hstep. fold c in Hstep.
      destruct (length c / 4 * 4 =? 0)%nat eqn:Hz.
      * rewrite polls_S, Hstep, <-polls_S. apply IH; [apply complete_none; [lia|exact Hz]|lia].
      * set (j := (length c / 4 * 4)%nat) in *.
        assert (c ++ strip_whitespace (delivered l) = take j c ++ drop j c ++ strip_whitespace (delivered l)) as ->
          by (by rewrite app_assoc, take_drop).
        rewrite (decode_text_app _ _ _ Ht).
        destruct (decode_quanta (take _ c)) as [x|e]; cbn [rmap] in Hstep.
        -- destruct x as [|b x]; cbn [non_empty] in Hstep.
           ++ rewrite polls_S, Hstep, <-polls_S.
              pose proof (IH _ (S n) Hd ltac:(lia)) as H. by destruct (decode_text _).
           ++ rewrite polls_S, Hstep. cbn [fst snd].
              apply (decoded_cons _ (ReadyFrame (DataFrame (b :: x)))); [done|]. apply IH; [exact Hd|lia].
        -- rewrite polls_S, Hstep. cbn [fst snd].
           destruct (length _ mod 4 =? 0)%nat eqn:Hm; [by apply Exists_cons_hd|].
           unfold decode_text. rewrite Hm. by apply Exists_cons_hd.
Qed.

(** Decoding undoes encoding. *)
Lemma decode_encode data : Forall is_u8 data → decode_text (base64_encode data) = Ok data.
Proof.
  remember (length data) as n eqn:Hn. revert data Hn.
  induction n as [n IH] using lt_wf_ind. intros data -> Hu.
  destruct (decide (length data ≤ 3)%nat) as [Hs|Hs].
  - destruct data as [|b data]; [by rewrite base64_nil|].
    assert (H4 : length (base64_encode (b :: data)) = 4%nat) by (apply base64_group; cbn in *; lia).
    unfold decode_text. rewrite H4. cbn [Nat.modulo Nat.divmod Nat.eqb fst snd Nat.sub].
    pose proof (base64_decode_group (b :: data) ltac:(cbn in *; lia) Hu) as Hd.
    destruct (base64_encode (b :: data)) as [|c1 [|c2 [|c3 [|c4 [|]]]]]; cbn [length] in H4; try lia.
    cbn [decode_quanta]. rewrite Hd. cbn. by rewrite app_nil_r.
  - assert (H3 : length (take 3 data) = 3%nat) by (rewrite length_take; lia).
    rewrite <-(take_drop 3 data), base64_app by done.
    assert (Hu' := Hu). rewrite <-(take_drop 3 data), Forall_app in Hu'. destruct Hu' as [Hu1 Hu2].
    assert (H4 : length (base64_encode (take 3 data)) = (4 * 1)%nat) by (apply base64_group; lia).
    rewrite (decode_text_app 1) by done.
    pose proof (IH 3%nat ltac:(lia) (take 3 data) ltac:(lia) Hu1) as H1.
    unfold decode_text in H1. rewrite H4 in H1. cbn in H1. rewrite H1.
    rewrite (IH (length (drop 3 data))); [done|rewrite length_drop; lia|done|done].
Qed.

Lemma strip_encoded data : Forall is_u8 data → strip_whitespace (base64_encode data) = base64_encode data.
Proof.
  intros Hu. pose proof (base64_graphic data Hu) as Hg. induction Hg as [|b l Hb _ IH]; [done|].
  unfold strip_whitespace in *. rewrite filter_cons_True; [by rewrite IH|].
  unfold u8_is_ascii_whitespace. rewrite !orb_false_iff. split_and!; apply Z.eqb_neq; lia.
Qed.
End Text.

(** ** Request frames *)

Section Frames.
Context {HTTP : HttpApi}.
Notation FramePoll := (FramePoll BoxError).

(** A message frame: flags without the trailer bit, the length, the message. *)
Definition frame (flags : Z) (payload : bytes) : bytes := flags :: u32_to_be (len payload) ++ payload.

Definition message_frame (f : bytes) : Prop :=
  ∃ flags payload, f = frame flags payload ∧ Z.land flags 128 = 0 ∧ len payload < 2 ^ 32.

Lemma frame_len flags payload : length (frame flags payload) = (5 + length payload)%nat.
Proof. done. Qed.

(** The header of a frame, once read. *)
Lemma decode_frame_step flags payload buffer finished rest more :
  len payload < 2 ^ 32 → buffer ++ more = frame flags payload ++ rest → buffer ≠ [] →
  decode_grpc_web_request_frame buffer finished false =
    if (length buffer <? 5)%nat then
      (if finished then Err (invalid_grpc_web_body "incomplete grpc-web request frame header") else Ok None, buffer)
    else if (length buffer <? 5 + length payload)%nat then
      (if finished then Err (invalid_grpc_web_body "incomplete grpc-web request frame payload") else Ok None, buffer)
    else
      (if negb (Z.land flags 128 =? 0)
       then rmap (λ t, Some (ParsedTrailers t)) (decode_grpc_web_trailer_block payload)
       else Ok (Some (ParsedData (frame flags payload))),
       drop (5 + length payload) buffer).
Proof.
  intros Hl Hb Hne. destruct buffer as [|b0 [|b1 [|b2 [|b3 [|b4 buffer]]]]]; try done;
    [by destruct finished..|].
  unfold frame, u32_to_be in Hb. cbn [app] in Hb. injection Hb as -> H1 H2 H3 H4 Hb.
  assert (Hlen : u32_from_be b1 b2 b3 b4 = len payload).
  { apply u32_be_roundtrip; [unfold is_u32, len in *; lia|]. unfold u32_to_be. by rewrite <-H1, <-H2, <-H3, <-H4. }
  unfold decode_grpc_web_request_frame. rewrite Hlen.
  assert (Hsat : sat_add64 5 (len payload) = 5 + len payload).
  { unfold sat_add64, u64_max, len in *. lia. }
  rewrite Hsat. set (all := flags :: _ :: _ :: _ :: _ :: buffer).
  assert (Hcut : (Z.of_nat (length all) <? 5 + len payload) =
                 (length buffer <? length payload)%nat).
  { unfold len, all. cbn [length]. destruct (Nat.ltb_spec (length buffer) (length payload)); [apply Z.ltb_lt|apply Z.ltb_ge]; lia. }
  rewrite Hcut. change (length all <? 5)%nat with false.
  change (length all <? 5 + length payload)%nat with (length buffer <? length payload)%nat.
  destruct (Nat.ltb_spec (length buffer) (length payload)) as [Hs|Hs].
  { by destruct finished. }
  assert (Hto : Z.to_nat (5 + len payload) = (5 + length payload)%nat) by (unfold len; lia).
  rewrite Hto. unfold all. cbn [Nat.add take drop].
  assert (Hp : take (length payload) buffer = payload).
  { rewrite <-(take_app_le buffer more) by done. rewrite Hb. by rewrite take_app_length. }
  rewrite Hp. unfold frame, u32_to_be. rewrite <-H1, <-H2, <-H3, <-H4. cbn [app].
  by destruct (negb (Z.land flags 128 =? 0)).
Qed.

Definition reader (l : list FramePoll) (k : nat) (buffer : bytes) (saw : bool) : GrpcWebRequestBody :=
  mkRequestBody (l ++ replicate k ReadyEnd) false None None None buffer saw.

(** A turn that finds no whole frame waits or takes the next data. *)
Lemma request_more p l k buffer n saw :
  flowing p → request_frame buffer false saw None = (None, buffer, saw, None) →
  (saw = true → poll_bytes p = []) →
  events (polls request_poll_frame (S n) (reader (p :: l) k buffer saw)) =
  match p with
  | Pending => events (polls request_poll_frame n (reader l k buffer saw))
  | _ => events (polls request_poll_frame (S n) (reader l k (buffer ++ poll_bytes p) saw))
  end.
Proof.
  intros Hp Hf Hsaw. destruct p as [| |[data| |]|]; try done.
  - rewrite polls_S. unfold reader at 1 2, request_poll_frame.
    cbn [rb_pending_data rb_pending_trailers rb_inner_finished rb_inner rb_buffer rb_saw_grpc_web_trailers
         rb_inner_trailers app request_loop]. rewrite Hf. cbn [fst snd]. by rewrite events_pending.
  - assert (Hs : request_poll_frame (reader (ReadyFrame (DataFrame data) :: l) k buffer saw) =
                 request_poll_frame (reader l k (buffer ++ data) saw)); [|by rewrite !polls_S, Hs].
    unfold reader, request_poll_frame.
    cbn [rb_pending_data rb_pending_trailers rb_inner_finished rb_inner rb_buffer rb_saw_grpc_web_trailers
         rb_inner_trailers app request_loop]. rewrite Hf.
    cbn [poll_bytes] in Hsaw. destruct saw; [rewrite (Hsaw eq_refl)|]; done.
Qed.

Lemma request_found l k buffer n p buffer' saw saw' :
  not_pending p → request_frame buffer false saw None = (Some p, buffer', saw', None) →
  events (polls request_poll_frame (S n) (reader l k buffer saw)) =
  p :: events (polls request_poll_frame n (reader l k buffer' saw')).
Proof.
  intros Hp Hf. rewrite polls_S. unfold reader at 1 2, request_poll_frame.
  cbn [rb_pending_data rb_pending_trailers rb_inner_finished rb_inner rb_buffer rb_saw_grpc_web_trailers
       rb_inner_trailers].
  assert (Hl : request_loop (l ++ replicate k ReadyEnd) buffer saw None = (p, reader l k buffer' saw')).
  { destruct (l ++ replicate k ReadyEnd) as [|q inner] eqn:Hi; unfold reader; rewrite Hi; cbn [request_loop];
      by rewrite Hf. }
  rewrite Hl. cbn [fst snd]. by rewrite events_cons.
Qed.

(** The message frames come out whole and in order. *)
Lemma request_frames slack frames l k buffer n tail :
  Forall message_frame frames → Forall flowing l → buffer ++ delivered l = concat frames ++ tail →
  (length l + length frames + slack < n)%nat →
  ∃ l' buffer' n', Forall flowing l' ∧ buffer' ++ delivered l' = tail ∧ (length l' + slack < n')%nat ∧
    events (polls request_poll_frame n (reader l k buffer false)) =
    map (λ f, ReadyFrame (DataFrame f)) frames ++
    events (polls request_poll_frame n' (reader l' k buffer' false)).
Proof.
  intros Hfr. revert l buffer n. induction Hfr as [|f frames Hf Hfr IH]; intros l buffer n Hl Hb Hn.
  { exists l, buffer, n. cbn in *. split_and!; [done|done|lia|done]. }
  destruct Hf as (flags & payload & -> & Hflags & Hlen). cbn [concat map app length] in Hb, Hn |- *.
  rewrite <-app_assoc in Hb. revert buffer n Hb Hn.
  induction Hl as [|p l Hp Hl IHl]; intros buffer n Hb Hn; (destruct n as [|n]; [lia|]).
  - unfold delivered in Hb. cbn [map concat] in Hb. rewrite app_nil_r in Hb.
    assert (Hstep := decode_frame_step flags payload buffer false (concat frames ++ tail) [] Hlen).
    rewrite app_nil_r in Hstep. specialize (Hstep Hb).
    assert (Hlong : (5 + length payload ≤ length buffer)%nat) by (rewrite Hb, length_app, frame_len; lia).
    specialize (Hstep ltac:(destruct buffer; cbn in *; [lia|done])).
    rewrite (proj2 (Nat.ltb_ge (length buffer) 5)), (proj2 (Nat.ltb_ge (length buffer) (5 + length payload))), Hflags
      in Hstep by lia. cbn [Z.eqb negb] in Hstep.
    destruct (IH [] (drop (5 + length payload) buffer) n) as (l' & buffer' & n' & Hl' & Hb' & Hn' & He);
      [done| |cbn in *; lia|].
    { unfold delivered. cbn [map concat]. rewrite app_nil_r, Hb. by rewrite <-(frame_len flags), drop_app_length. }
    exists l', buffer', n'. split_and!; [done..|].
    rewrite (request_found _ _ _ _ (ReadyFrame (DataFrame (frame flags payload))) (drop (5 + length payload) buffer) _ false);
      [by rewrite He|done|]. unfold request_frame. by rewrite Hstep.
  - destruct (decide (5 + length payload ≤ length buffer)%nat) as [Hlong|Hshort].
    + assert (Hstep := decode_frame_step flags payload buffer false (concat frames ++ tail) _ Hlen Hb).
      specialize (Hstep ltac:(destruct buffer; cbn in *; [lia|done])).
      rewrite (proj2 (Nat.ltb_ge (length buffer) 5)), (proj2 (Nat.ltb_ge (length buffer) (5 + length payload))), Hflags
        in Hstep by lia. cbn [Z.eqb negb] in Hstep.
      destruct (IH (p :: l) (drop (5 + length payload) buffer) n) as (l' & buffer' & n' & Hl' & Hb' & Hn' & He);
        [by constructor| |cbn in *; lia|].
      { rewrite <-drop_app_le by lia. rewrite Hb. by rewrite <-(frame_len flags), drop_app_length. }
      exists l', buffer', n'. split_and!; [done..|].
      rewrite (request_found _ _ _ _ (ReadyFrame (DataFrame (frame flags payload))) (drop (5 + length payload) buffer) _ false);
        [by rewrite He|done|]. unfold request_frame. by rewrite Hstep.
    + assert (Hnone : request_frame buffer false false None = (None, buffer, false, None)).
      { destruct (decide (buffer = [])) as [->|Hne]; [done|].
        unfold request_frame. rewrite (decode_frame_step flags payload buffer false _ _ Hlen Hb Hne).
        destruct (length buffer <? 5)%nat; [done|]. by rewrite (proj2 (Nat.ltb_lt _ _)) by lia. }
      rewrite request_more by done. cbn [length] in Hn. rewrite delivered_cons in Hb.
      destruct p as [| |[data| |]|]; try done.
      * apply IHl; [exact Hb|lia].
      * apply IHl; [by rewrite <-app_assoc|lia].
Qed.

(** The end of the stream, or the frame that is left. *)
Lemma request_end l k n saw :
  Forall flowing l → delivered l = [] → (length l < n)%nat →
  ∃ j, events (polls request_poll_frame n (reader l k [] saw)) = replicate (S j) ReadyEnd.
Proof.
  intros Hl. revert n. induction Hl as [|p l Hp Hl IH]; intros n Hd Hn; (destruct n as [|n]; [cbn in Hn; lia|]).
  - exists n. rewrite polls_S.
    assert (He : request_poll_frame (reader [] k [] saw) =
                 (ReadyEnd, mkRequestBody (drop 1 (replicate k ReadyEnd)) true None None None [] saw)) by (by destruct k).
    rewrite He. cbn [fst snd]. rewrite polls_end by done. apply (events_ends (S n)).
  - rewrite delivered_cons in Hd. apply app_eq_nil in Hd as [Hd Hd']. cbn in Hn.
    rewrite request_more by done. rewrite Hd. destruct p as [| |[data| |]|]; try done; apply IH; (done || lia).
Qed.

(** A turn that finds a part of a frame only. *)
Lemma part_not_found flags payload buffer more :
  len payload < 2 ^ 32 → buffer ++ more = frame flags payload → more ≠ [] →
  request_frame buffer false false None = (None, buffer, false, None).
Proof.
  intros Hlen Hb Hm. destruct (decide (buffer = [])) as [->|Hne]; [done|].
  unfold request_frame. rewrite (decode_frame_step flags payload buffer false [] more Hlen) by (by rewrite ?app_nil_r).
  destruct (length buffer <? 5)%nat; [done|].
  assert (length buffer < 5 + length payload)%nat as Hs%Nat.ltb_lt.
  { rewrite <-(frame_len flags), <-Hb, length_app. destruct more; [done|cbn; lia]. }
  by rewrite Hs.
Qed.

Lemma request_trailers l k buffer n flags payload t :
  Forall flowing l → buffer ++ delivered l = frame flags payload → len payload < 2 ^ 32 →
  Z.land flags 128 ≠ 0 → decode_grpc_web_trailer_block payload = Ok t → hm_is_empty t = false →
  (length l + 1 < n)%nat →
  ∃ j, events (polls request_poll_frame n (reader l k buffer false)) =
       ReadyFrame (TrailersFrame t) :: replicate (S j) ReadyEnd.
Proof.
  intros Hl Hb Hlen Hflags Ht Hne. revert buffer n Hb.
  assert (Hwhole : ∀ l buffer n, Forall flowing l → buffer = frame flags payload → delivered l = [] →
    (length l + 1 < n)%nat → ∃ j, events (polls request_poll_frame n (reader l k buffer false)) =
       ReadyFrame (TrailersFrame t) :: replicate (S j) ReadyEnd).
  { clear l Hl. intros l buffer n Hl Hb Hd Hn. destruct n as [|n]; [lia|].
    destruct (request_end l k n true Hl Hd) as [j Hj]; [lia|]. exists j. rewrite <-Hj.
    apply request_found; [done|]. unfold request_frame.
    rewrite (decode_frame_step flags payload buffer false [] []) by (rewrite ?app_nil_r; subst; done).
    assert (Hl5 : length buffer = (5 + length payload)%nat) by (by rewrite Hb).
    rewrite (proj2 (Nat.ltb_ge _ 5)), (proj2 (Nat.ltb_ge _ (5 + length payload))) by lia.
    rewrite (proj2 (Z.eqb_neq _ 0) Hflags), Ht. cbn [negb rmap]. rewrite Hne.
    rewrite drop_ge by lia. done. }
  induction Hl as [|p l Hp Hl IH]; intros buffer n Hb Hn.
  - apply Hwhole; [done| |done|done]. unfold delivered in Hb. cbn [map concat] in Hb. by rewrite app_nil_r in Hb.
  - destruct (decide (delivered (p :: l) = [])) as [Hd|Hd].
    + apply Hwhole; [by constructor| |done|done]. by rewrite Hd, app_nil_r in Hb.
    + destruct n as [|n]; [lia|]. cbn [length] in Hn.
      rewrite request_more; [|done|by eapply part_not_found|done].
      rewrite delivered_cons, app_assoc in Hb.
      destruct p as [| |[data| |]|]; try done; (apply IH; [|lia]); [by rewrite app_nil_r in Hb|done].
Qed.

Lemma request_truncated l k buffer n flags payload more :
  Forall flowing l → len payload < 2 ^ 32 → (buffer ++ delivered l) ++ more = frame flags payload →
  buffer ++ delivered l ≠ [] → more ≠ [] → (length l < n)%nat →
  ∃ e j, events (polls request_poll_frame n (reader l k buffer false)) = replicate (S j) (ReadyError e).
Proof.
  intros Hl Hlen. revert buffer n. induction Hl as [|p l Hp Hl IH]; intros buffer n Hb Hne Hm Hn;
    (destruct n as [|n]; [cbn in Hn; lia|]).
  - unfold delivered in Hb, Hne. cbn [map concat] in Hb, Hne. rewrite app_nil_r in Hb, Hne.
    assert (Hshort : (length buffer < 5 + length payload)%nat).
    { rewrite <-(frame_len flags), <-Hb, length_app. destruct more; [done|cbn; lia]. }
    assert (∃ e, decode_grpc_web_request_frame buffer true false = (Err e, buffer)) as [e He].
    { rewrite (decode_frame_step flags payload buffer true [] more Hlen) by (by rewrite ?app_nil_r).
      destruct (length buffer <? 5)%nat; [by eexists|]. rewrite (proj2 (Nat.ltb_lt _ _) Hshort). by eexists. }
    exists e, n.
    set (s := mkRequestBody (drop 1 (replicate k ReadyEnd)) true None None None buffer false).
    assert (H1 : request_poll_frame (reader [] k buffer false) = (ReadyError e, s)).
    { unfold reader, request_poll_frame. cbn [rb_pending_data rb_pending_trailers rb_inner_finished rb_inner
        rb_buffer rb_saw_grpc_web_trailers rb_inner_trailers app].
      destruct k; cbn [replicate request_loop]; rewrite (part_not_found flags payload buffer more) by done;
        unfold request_finish, request_frame; by rewrite He. }
    assert (H2 : request_poll_frame s = (ReadyError e, s)).
    { unfold s, request_poll_frame, request_finish, request_frame.
      cbn [rb_pending_data rb_pending_trailers rb_inner_finished rb_inner rb_buffer rb_saw_grpc_web_trailers
           rb_inner_trailers]. by rewrite He. }
    rewrite polls_S, H1. cbn [fst snd replicate]. rewrite events_cons by done. f_equal.
    clear Hn. induction n as [|n IHn]; [done|]. rewrite polls_S, H2. cbn [fst snd replicate].
    rewrite events_cons by done. by f_equal.
  - rewrite request_more; [|done| |done].
    2:{ apply (part_not_found flags payload buffer (delivered (p :: l) ++ more)); [done|by rewrite app_assoc|].
        intros Hnil%app_eq_nil. by destruct Hnil. }
    rewrite delivered_cons, app_assoc in Hb, Hne. cbn [length] in Hn.
    destruct p as [| |[data| |]|]; try done; (apply IH; try done; try lia);
      [by rewrite app_nil_r in Hb|by rewrite app_nil_r in Hne].
Qed.
End Frames.

(** ** Trailer blocks *)

Section Trailers.
Context {HTTP : HttpApi} {Laws : HttpLaws HTTP}.

Definition name_byte_ok (c : ascii) : bool := negb (ascii_eqb c ":"%char) && in_range 33 126 (byte_of c).

(** Trailers a gRPC server sends: names and values of visible characters, the
    values without spaces around them. *)
Definition trailer_ok (field : string * HeaderValue) : Prop :=
  header_name_parse field.1 = Some field.1 ∧ field.1 ≠ EmptyString ∧
  str_all name_byte_ok field.1 = true ∧
  str_all value_char_ok (hv_as_bytes field.2) = true ∧
  trim (hv_as_bytes field.2) = hv_as_bytes field.2.

Definition trailer_line (field : string * HeaderValue) : bytes :=
  bytes_of_string field.1 ++ [58; 32] ++ bytes_of_string (hv_as_bytes field.2) ++ [13].

Lemma split_lines_app a b : Forall (λ c, c ≠ 10) a → split_lines (a ++ 10 :: b) = a :: split_lines b.
Proof. induction 1 as [|c a Hc _ IH]; [done|]. cbn. rewrite (proj2 (Z.eqb_neq c 10) Hc), IH. done. Qed.

Lemma strip_cr_snoc a : strip_cr (a ++ [13]) = a.
Proof.
  induction a as [|c a IH]; [done|]. cbn [app strip_cr].
  destruct (a ++ [13]) as [|d r] eqn:Ha; [by destruct a|]. by rewrite IH.
Qed.

Lemma split_colon_app a b : Forall (λ c, c ≠ 58) a → split_colon (a ++ 58 :: b) = Some (a, b).
Proof. induction 1 as [|c a Hc _ IH]; [done|]. cbn. by rewrite (proj2 (Z.eqb_neq c 58) Hc), IH. Qed.

Lemma bytes_all (p : ascii → bool) (P : Z → Prop) s :
  (∀ c, p c = true → P (byte_of c)) → str_all p s = true → Forall P (bytes_of_string s).
Proof.
  intros Hp. induction s as [|c s IH]; [constructor|]. cbn. intros [Hc Hs]%andb_true_iff.
  constructor; [by apply Hp|by apply IH].
Qed.

Lemma utf8_ascii l : Forall (λ b, b < 128) l → utf8_valid l = true.
Proof. induction 1 as [|b l Hb _ IH]; [done|]. cbn. by rewrite (proj2 (Z.ltb_lt b 128) Hb). Qed.

Lemma name_bytes s : str_all name_byte_ok s = true → Forall (λ c, c ≠ 10 ∧ c ≠ 58 ∧ c < 128) (bytes_of_string s).
Proof.
  apply bytes_all. intros c [Hc Hr]%andb_true_iff. unfold in_range in Hr. boolify. split_and!; [lia| |lia].
  intros H58. apply bool_decide_eq_false in Hc. apply Hc. rewrite <-(byte_ascii_of c), H58. done.
Qed.

Lemma value_bytes s : str_all value_char_ok s = true → Forall (λ c, c ≠ 10 ∧ c < 128) (bytes_of_string s).
Proof.
  apply bytes_all. intros c. unfold value_char_ok, in_range. intros [Hr|Hr]%orb_true_iff; boolify; lia.
Qed.

Lemma trim_space s : trim (String " "%char s) = trim s.
Proof. done. Qed.

(** One line appends its field. *)
Lemma decode_trailer_line_ok field m :
  trailer_ok field →
  ∃ v, hv_as_bytes v = hv_as_bytes field.2 ∧
    decode_trailer_line m (trailer_line field) = Ok (hm_append field.1 v m).
Proof.
  intros (Hn & Hne & Hname & Hv & Ht). destruct field as [name value]. cbn [fst snd] in *.
  destruct (hv_from_str_visible _ Hv) as (v & Hfrom & _). exists v.
  split; [by eapply hv_from_str_bytes|]. unfold decode_trailer_line, trailer_line. cbn [fst snd].
  change (bytes_of_string name ++ [58; 32] ++ bytes_of_string (hv_as_bytes value) ++ [13]) with
    (bytes_of_string name ++ (58 :: 32 :: bytes_of_string (hv_as_bytes value)) ++ [13]).
  rewrite app_assoc, strip_cr_snoc.
  destruct (bytes_of_string name ++ 58 :: 32 :: bytes_of_string (hv_as_bytes value)) as [|b l] eqn:Hl.
  { by destruct (bytes_of_string name). }
  rewrite <-Hl, split_colon_app by (eapply Forall_impl; [by apply name_bytes|naive_solver]).
  cbn [ok_or rbind]. rewrite string_bytes, Hn. cbn [ok_or rbind].
  rewrite utf8_ascii.
  2:{ constructor; [done|]. eapply Forall_impl; [by apply value_bytes|naive_solver]. }
  cbn [negb]. change (string_of_bytes (32 :: bytes_of_string (hv_as_bytes value))) with
    (String " "%char (string_of_bytes (bytes_of_string (hv_as_bytes value)))).
  by rewrite trim_space, string_bytes, Ht, Hfrom.
Qed.

Definition block (fields : list (string * HeaderValue)) : bytes :=
  concat (map (λ '(name, value), bytes_of_string name ++ [58; 32] ++
                 bytes_of_string (hv_as_bytes value) ++ [13; 10]) fields).

Lemma block_cons field fields : block (field :: fields) = trailer_line field ++ 10 :: block fields.
Proof. destruct field as [name value]. unfold block, trailer_line. cbn [map concat fst snd]. by rewrite <-!app_assoc. Qed.

Lemma trailer_line_no_newline field : trailer_ok field → Forall (λ c, c ≠ 10) (trailer_line field).
Proof.
  intros (_ & _ & Hn & Hv & _). unfold trailer_line. rewrite !Forall_app. split_and!.
  - eapply Forall_impl; [by apply name_bytes|naive_solver].
  - repeat constructor; lia.
  - eapply Forall_impl; [by apply value_bytes|naive_solver].
  - repeat constructor; lia.
Qed.

(** The fields of a list of the given name, as text. *)
Definition field_values (name : string) (fields : list (string * HeaderValue)) : list string :=
  map hv_as_bytes (omap (λ '(n, v), if decide (n = name) then Some v else None) fields).

Definition same_fields (a b : HeaderMap) : Prop :=
  ∀ name, map hv_as_bytes (hm_get_all a name) = map hv_as_bytes (hm_get_all b name).

Lemma decode_block fields m :
  Forall trailer_ok fields →
  ∃ m', foldl (λ trailers line, let? trailers := trailers in decode_trailer_line trailers line)
          (Ok m) (split_lines (block fields)) = Ok m' ∧
    ∀ name, map hv_as_bytes (hm_get_all m' name) =
            map hv_as_bytes (hm_get_all m name) ++ field_values name fields.
Proof.
  intros Hf. revert m. induction Hf as [|field fields Hok Hf IH]; intros m.
  - exists m. split; [done|]. intros name. by rewrite app_nil_r.
  - rewrite block_cons, split_lines_app by by apply trailer_line_no_newline.
    destruct (decode_trailer_line_ok field m Hok) as (v & Hv & Hd). cbn [foldl rbind]. rewrite Hd.
    destruct (IH (hm_append field.1 v m)) as (m' & -> & Hm'). exists m'. split; [done|].
    intros name. rewrite Hm'. destruct field as [n value]. cbn [fst snd] in *. unfold field_values. cbn.
    destruct (decide (n = name)) as [->|Hne].
    + rewrite hm_get_all_append_eq, map_app, <-app_assoc. cbn. by rewrite Hv.
    + by rewrite hm_get_all_append_ne.
Qed.

Lemma decode_encoded_block t :
  Forall trailer_ok (hm_iter t) →
  ∃ t', decode_grpc_web_trailer_block (block (hm_iter t)) = Ok t' ∧ same_fields t' t.
Proof.
  intros Hok. destruct (decode_block (hm_iter t) hm_new Hok) as (t' & Hd & Hf). exists t'. split; [done|].
  intros name. rewrite Hf, hm_get_all_new, (hm_get_all_iter t). done.
Qed.

Lemma same_fields_nonempty a b : same_fields a b → hm_is_empty b = false → hm_is_empty a = false.
Proof.
  unfold hm_is_empty. intros Hs. destruct (hm_iter b) as [|[n v] l] eqn:Hb; [done|]. intros _.
  destruct (hm_iter a) eqn:Ha; [|done]. specialize (Hs n).
  rewrite !hm_get_all_iter, Ha, Hb in Hs. cbn in Hs. by rewrite decide_True in Hs.
Qed.

Lemma encode_trailers_frame t :
  len (block (hm_iter t)) < 2 ^ 32 → encode_grpc_web_trailers t = frame 128 (block (hm_iter t)).
Proof.
  intros Hl. unfold encode_grpc_web_trailers, frame. fold (block (hm_iter t)).
  unfold wrap32. rewrite Z.mod_small; [done|]. pose proof (len_nonneg (block (hm_iter t))). lia.
Qed.
End Trailers.

(** ** Responses *)

Section Response.
Context {HTTP : HttpApi}.
Notation FramePoll := (FramePoll BoxError).

Lemma response_stream l t rest k fallback n :
  Forall flowing l → (length l + 1 < n)%nat →
  rest = ReadyFrame (TrailersFrame t) :: replicate k ReadyEnd →
  stream (delivered l ++ encode_grpc_web_trailers t)
    (polls response_poll_frame n (response_body_new (l ++ rest) fallback)).
Proof.
  intros Hl Hn ->. revert n Hn. induction Hl as [|p l Hp Hl IH]; intros n Hn; (destruct n as [|n]; [lia|]).
  - destruct n as [|n]; [cbn in Hn; lia|].
    assert (He : response_poll_frame (mkResponseBody (replicate k ReadyEnd) None None false) =
                 (ReadyEnd, mkResponseBody (drop 1 (replicate k ReadyEnd)) None None true)) by (by destruct k).
    assert (Hp : polls response_poll_frame (S (S n))
                   (response_body_new (ReadyFrame (TrailersFrame t) :: replicate k ReadyEnd) fallback) =
                 ReadyFrame (DataFrame (encode_grpc_web_trailers t)) :: replicate (S n) ReadyEnd).
    { rewrite polls_S. cbn [response_poll_frame response_body_new pb_pending_frame pb_inner_finished pb_inner
        next_poll fst snd]. by rewrite polls_S, He; cbn [fst snd]; rewrite polls_end. }
    cbn [app]. rewrite Hp. change (delivered [] ++ encode_grpc_web_trailers t) with (encode_grpc_web_trailers t).
    pose proof (stream_cons (ReadyFrame (DataFrame (encode_grpc_web_trailers t))) [] _ I (stream_ends (S n))) as H.
    cbn [poll_bytes] in H. by rewrite app_nil_r in H.
  - cbn in Hn. rewrite delivered_cons, <-app_assoc, polls_S. destruct p as [| |[data| |]|]; try done; cbn [fst snd].
    + apply (stream_cons Pending); [done|]. apply IH. lia.
    + apply (stream_cons (ReadyFrame (DataFrame data))); [done|]. apply IH. lia.
Qed.
End Response.

(** ** There and back *)

Section RoundTrip.
Context {HTTP : HttpApi} {Laws : HttpLaws HTTP} {B64 : Base64Api} {B64Laws : Base64Laws B64}.
Notation FramePoll := (FramePoll BoxError).

Lemma polls_length {E S} (poll : S → Body.FramePoll E * S) n s : length (polls poll n s) = n.
Proof. revert s. induction n as [|n IH]; intros s; [done|]. rewrite polls_S. cbn. by rewrite IH. Qed.

Lemma u32_to_be_u8 z : Forall is_u8 (u32_to_be z).
Proof.
  unfold u32_to_be, is_u8. repeat constructor; rewrite (land_ones_mod _ 8) by lia; apply Z.mod_pos_bound; lia.
Qed.

Lemma block_u8 fields : Forall is_u8 (block fields).
Proof.
  induction fields as [|[name value] fields IH]; [constructor|]. unfold block in *. cbn [map concat].
  rewrite !Forall_app. split_and!; try apply bytes_of_string_u8; try done; repeat constructor; unfold is_u8; lia.
Qed.

(** What the request body makes of whole message frames and a trailer frame. *)
Definition reads_as (messages : list bytes) (t : HeaderMap) (p : list FramePoll) : Prop :=
  ∃ t' j, same_fields t' t ∧
    events p = map (λ f, ReadyFrame (DataFrame f)) messages ++
               ReadyFrame (TrailersFrame t') :: replicate (S j) ReadyEnd.

Lemma read_back messages t wire n :
  Forall message_frame messages → Forall trailer_ok (hm_iter t) → hm_is_empty t = false →
  len (block (hm_iter t)) < 2 ^ 32 → stream (concat messages ++ encode_grpc_web_trailers t) wire →
  (length wire + length messages + 1 < n)%nat →
  reads_as messages t (polls request_poll_frame n (request_body_new wire)).
Proof.
  intros Hm Ht Hne Hlen (l & k & -> & Hl & Hd) Hn. rewrite length_app in Hn.
  rewrite encode_trailers_frame in Hd by done.
  destruct (decode_encoded_block t Ht) as (t' & Ht' & Hsame).
  exists t'.
  destruct (request_frames 1 messages l k [] n (frame 128 (block (hm_iter t))) Hm Hl)
    as (l' & buffer' & n' & Hl' & Hb' & Hn' & He); [by rewrite app_nil_l|lia|].
  destruct (request_trailers l' k buffer' n' 128 (block (hm_iter t)) t' Hl' Hb' Hlen) as [j Hj];
    [done|done|by eapply same_fields_nonempty|done|].
  exists j. split; [done|]. change (request_body_new (l ++ replicate k ReadyEnd)) with (reader l k [] false).
  by rewrite He, Hj.
Qed.
(** What a response is on the wire, binary and as text. *)
Lemma response_wire messages t upstream k fallback n1 n2 :
  Forall is_u8 (concat messages) → len (block (hm_iter t)) < 2 ^ 32 →
  Forall flowing upstream → delivered upstream = concat messages →
  (length upstream + 1 < n1)%nat → (n1 < n2)%nat →
  let content := concat messages ++ encode_grpc_web_trailers t in
  let response := polls response_poll_frame n1
    (response_body_new (upstream ++ ReadyFrame (TrailersFrame t) :: replicate k ReadyEnd) fallback) in
  Forall is_u8 content ∧ stream content response ∧
  delivered (polls text_encode_poll_frame n2 (text_encode_new response)) = base64_encode content.
Proof.
  intros Hu Hlen Hup Hd Hn1 Hn2 content response.
  assert (Hr : stream content response) by (unfold content, response; rewrite <-Hd; by eapply response_stream).
  split_and!; [|done|].
  - unfold content. rewrite encode_trailers_frame by done. unfold frame. rewrite Forall_app, Forall_cons, Forall_app.
    split_and!; [done|by unfold is_u8|apply u32_to_be_u8|apply block_u8].
  - destruct Hr as (l & j & Hl & Hflow & Hc). rewrite <-Hc, Hl.
    apply stream_delivered, (text_encode_stream l j []); [done|cbn; lia|].
    assert (length response = n1) as Hlr by apply polls_length. rewrite Hl, length_app in Hlr. lia.
Qed.
End RoundTrip.

(** C14.  A gRPC-Web response says what the upstream said.  The upstream's
    messages, in any chunks and with any waits, and its trailers are translated
    into a binary body, or further into base64 text; read back by a gRPC-Web
    reader from any other chunks (and, for text, with any white space between
    them) they are the same messages, each whole and in order, followed by the
    same trailers, and then the end: no error, nothing more and nothing less. *)
Theorem grpc_web_round_trip {HTTP : HttpApi} {Laws : HttpLaws HTTP} {B64 : Base64Api} {B64Laws : Base64Laws B64}
    (messages : list bytes) (t : HeaderMap) (upstream : list (FramePoll BoxError)) (k : nat)
    (fallback : option HeaderMap) (n1 n2 : nat) :
  Forall message_frame messages → Forall is_u8 (concat messages) →
  Forall trailer_ok (hm_iter t) → hm_is_empty t = false → len (block (hm_iter t)) < 2 ^ 32 →
  Forall flowing upstream → delivered upstream = concat messages →
  (length upstream + 1 < n1)%nat → (n1 < n2)%nat →
  let response := polls response_poll_frame n1
    (response_body_new (upstream ++ ReadyFrame (TrailersFrame t) :: replicate k ReadyEnd) fallback) in
  let text := polls text_encode_poll_frame n2 (text_encode_new response) in
  (∀ wire n, Forall flowing wire → delivered wire = delivered response →
     (length wire + length messages + 1 < n)%nat →
     reads_as messages t (polls request_poll_frame n (request_body_new wire))) ∧
  (∀ wire m n, Forall flowing wire → strip_whitespace (delivered wire) = delivered text →
     (length wire < m)%nat → (m + length messages + 1 < n)%nat →
     reads_as messages t (polls request_poll_frame n
       (request_body_new (polls text_decode_poll_frame m (text_decode_new wire))))).
Proof.
  intros Hm Hu Ht Hne Hlen Hup Hd Hn1 Hn2 response text.
  destruct (response_wire messages t upstream k fallback n1 n2 Hu Hlen Hup Hd Hn1 Hn2) as (Hu8 & Hr & Htext).
  fold response in Hr, Htext. fold text in Htext. split.
  - intros wire n Hw Hdw Hn. apply read_back; try done. exists wire, 0%nat.
    rewrite app_nil_r. split_and!; [done..|]. by rewrite Hdw, (stream_delivered _ _ Hr).
  - intros wire m n Hw Hdw Hm' Hn.
    apply read_back; try done; [|by rewrite polls_length].
    pose proof (text_decode_decoded wire 0 [] m Hw ltac:(cbn; lia) Hm') as Hdec.
    cbn [app] in Hdec. rewrite Hdw, Htext, decode_encode in Hdec by done.
    unfold decoder in Hdec. by rewrite app_nil_r in Hdec.
Qed.

(** C15.  Decoding a text body piece by piece is decoding it as a whole: for any
    chunks and waits the body delivers exactly the bytes of the base64 text
    without its white space, and then ends, when the whole text decodes, and
    reports an error when it does not. *)
Theorem text_decoding_is_chunk_independent {HTTP : HttpApi} {B64 : Base64Api} {B64Laws : Base64Laws B64}
    (wire : list (FramePoll BoxError)) (n : nat) :
  Forall flowing wire → (length wire < n)%nat →
  let p := polls text_decode_poll_frame n (text_decode_new wire) in
  match decode_text (strip_whitespace (delivered wire)) with
  | Ok data => stream data p
  | Err _ => Exists is_error p
  end.
Proof.
  intros Hw Hn. pose proof (text_decode_decoded wire 0 [] n Hw ltac:(cbn; lia) Hn) as Hdec.
  unfold decoder in Hdec. by rewrite app_nil_r in Hdec.
Qed.

(** C16.  A request that breaks off inside a frame is an error: the messages
    before it are delivered whole and in order, and then every poll reports the
    error; the reader never sees the end of the body or a part of a message. *)
Theorem truncated_request_is_an_error {HTTP : HttpApi} (messages : list bytes) (flags : Z)
    (payload part more : bytes) (wire : list (FramePoll BoxError)) (n : nat) :
  Forall message_frame messages → len payload < 2 ^ 32 →
  part ++ more = frame flags payload → part ≠ [] → more ≠ [] →
  Forall flowing wire → delivered wire = concat messages ++ part →
  (length wire + length messages < n)%nat →
  ∃ e j, events (polls request_poll_frame n (request_body_new wire)) =
    map (λ f, ReadyFrame (DataFrame f)) messages ++ replicate (S j) (ReadyError e).
Proof.
  intros Hm Hlen Hcut Hpart Hmore Hw Hd Hn.
  destruct (request_frames 0 messages wire 0 [] n part Hm Hw) as (l & b & n' & Hl & Hb & Hn' & He);
    [done|lia|].
  destruct (request_truncated l 0 b n' flags payload more Hl Hlen) as (e & j & Hj);
    [by rewrite Hb|by rewrite Hb|done|lia|].
  exists e, j. rewrite <-Hj, <-He. unfold reader. by rewrite app_nil_r.
Qed.

(** ** A concrete response *)

Definition sample_message : bytes := frame 0 [1; 2; 3].
Definition sample_trailers : @HeaderMap RefHttp.api := [("grpc-status", "0"); ("grpc-message", "all good")]%string.
Definition sample_upstream_body : list (FramePoll (HTTP := RefHttp.api) BoxError) :=
  [ReadyFrame (DataFrame (take 3 sample_message)); Pending; ReadyFrame (DataFrame (drop 3 sample_message))].
Definition sample_response : list (FramePoll (HTTP := RefHttp.api) BoxError) :=
  polls response_poll_frame 5
    (response_body_new (sample_upstream_body ++ ReadyFrame (TrailersFrame sample_trailers) :: replicate 0 ReadyEnd) None).
Definition sample_text : bytes :=
  delivered (polls (text_encode_poll_frame (B64 := RefBase64.api)) 6 (text_encode_new sample_response)).

(** The text in two chunks with a line break between them. *)
Definition sample_wire : list (FramePoll (HTTP := RefHttp.api) BoxError) :=
  [ReadyFrame (DataFrame (take 7 sample_text ++ [13; 10])); ReadyFrame (DataFrame (drop 7 sample_text))].

Lemma sample_wire_text : strip_whitespace (delivered sample_wire) = sample_text.
Proof. by vm_compute. Qed.

Lemma sample_trailers_ok : Forall trailer_ok (hm_iter sample_trailers).
Proof. repeat constructor; by vm_compute. Qed.

Lemma sample_message_ok : Forall message_frame [sample_message].
Proof. repeat constructor. exists 0, [1; 2; 3]. by vm_compute. Qed.

Theorem grpc_web_round_trip_witness :
  reads_as [sample_message] sample_trailers
    (polls request_poll_frame 10 (request_body_new
      (polls (text_decode_poll_frame (B64 := RefBase64.api)) 4 (text_decode_new sample_wire)))).
Proof.
  destruct (@grpc_web_round_trip RefHttp.api RefHttp.laws RefBase64.api RefBase64.laws
    [sample_message] sample_trailers sample_upstream_body 0 None 5 6) as [_ Htext].
  - exact sample_message_ok.
  - repeat constructor; discriminate.
  - exact sample_trailers_ok.
  - reflexivity.
  - vm_compute. reflexivity.
  - repeat constructor.
  - reflexivity.
  - simpl. lia.
  - lia.
  - apply Htext; [repeat constructor|exact sample_wire_text|simpl; lia|simpl; lia].
Defined.

Theorem text_decoding_is_chunk_independent_witness :
  stream (delivered sample_response)
    (polls (text_decode_poll_frame (B64 := RefBase64.api)) 4 (text_decode_new sample_wire)).
Proof.
  pose proof (@text_decoding_is_chunk_independent RefHttp.api RefBase64.api RefBase64.laws sample_wire 4
    ltac:(repeat constructor) ltac:(simpl; lia)) as H.
  cbv zeta in H. rewrite sample_wire_text in H.
  assert (decode_text (B64 := RefBase64.api) sample_text = Ok (delivered sample_response)) as Hd by (vm_compute; reflexivity).
  rewrite Hd in H. exact H.
Defined.

Theorem truncated_request_is_an_error_witness :
  ∃ e j, events (polls (E := BoxError) request_poll_frame 4
      (request_body_new (HTTP := RefHttp.api) [ReadyFrame (DataFrame (sample_message ++ take 6 sample_message))])) =
    ReadyFrame (DataFrame sample_message) :: replicate (S j) (ReadyError e).
Proof.
  apply (@truncated_request_is_an_error RefHttp.api [sample_message] 0 [1; 2; 3] (take 6 sample_message)
           (drop 6 sample_message)).
  - exact sample_message_ok.
  - vm_compute. reflexivity.
  - reflexivity.
  - discriminate.
  - discriminate.
  - repeat constructor.
  - reflexivity.
  - simpl. lia.
Defined.
