(* ===== verification/Resolver.v ===== *)
(** * Resolving upstream peers

    Models [crates/rginx-http/src/proxy/resolver.rs], [proxy/resolver/endpoint.rs]
    and [proxy/resolver/runtime.rs]: the DNS cache of an upstream and the
    endpoints made from a peer's addresses.  The DNS library's answer to a
    lookup is an argument; instants and durations are in milliseconds. *)

From S2P Require Import Prelude RustStr External Upstream.

Section Resolver.
Context {URI : UriApi}.

(** Source: crates/rginx-http/src/proxy/resolver.rs:16-30 (ResolvedUpstreamPeer) *)
Record ResolvedUpstreamPeer : Type := mkResolved {
  res_url : string;
  res_logical_peer_url : string;
  res_endpoint_key : string;
  res_display_url : string;
  res_scheme : string;
  res_upstream_authority : string;
  res_dial_authority : string;
  res_socket_addr : SocketAddr;
  res_server_name : string;
  res_weight : Z;
  res_backup : bool;
  res_max_conns : option Z;
}.

(** Source: crates/rginx-http/src/proxy/resolver.rs:54-60 (CacheEntry) *)
Record CacheEntry : Type := mkCacheEntry {
  ce_addresses : list IpAddr;
  ce_valid_until : Z;
  ce_stale_until : Z;
  ce_negative : bool;
  ce_last_error : option string;
}.

(** Source: crates/rginx-http/src/proxy/resolver.rs:63-72 (PeerAddressing) *)
Record PeerAddressing : Type := mkAddressing {
  ad_host : string;
  ad_port : Z;
  ad_scheme : string;
  ad_authority : string;
  ad_logical_peer_url : string;
  ad_weight : Z;
  ad_backup : bool;
  ad_max_conns : option Z;
}.

(** Source: crates/rginx-http/src/proxy/resolver.rs:75-85 (UpstreamResolver) *)
Record UpstreamResolver : Type := mkResolver {
  dr_policy : UpstreamDnsPolicy;
  dr_cache : gmap string CacheEntry;
  dr_resolve_requests_total : Z;
  dr_cache_hits_total : Z;
  dr_cache_misses_total : Z;
  dr_refreshes_total : Z;
  dr_resolve_errors_total : Z;
  dr_stale_answers_total : Z;
}.

(** Source: crates/rginx-http/src/proxy/resolver/runtime.rs:15-28 (UpstreamResolver::new) *)
Definition resolver_new (policy : UpstreamDnsPolicy) : UpstreamResolver :=
  mkResolver policy ∅ 0 0 0 0 0 0.

(** ** Endpoints *)

(** Source: crates/rginx-http/src/proxy/resolver/endpoint.rs:51-70 (parse_peer_addressing) *)
Definition parse_peer_addressing (peer : UpstreamPeer) : option PeerAddressing :=
  uri ← uri_parse (peer_url peer);
  host ← uri_host uri;
  let port := default (if str_eqb (peer_scheme peer) "https" then 443 else 80) (uri_port uri) in
  Some (mkAddressing host port (peer_scheme peer) (peer_authority peer) (peer_url peer)
          (peer_weight peer) (peer_backup peer) (peer_max_conns peer)).

(** Source: crates/rginx-http/src/proxy/resolver/endpoint.rs:95-100 (socket_addr_authority) *)
Definition socket_addr_authority (addr : SocketAddr) : string :=
  match sock_ip addr with
  | V4 _ => socket_to_string addr
  | V6 _ => "[" +:+ ip_to_string (sock_ip addr) +:+ "]:" +:+ dec (sock_port addr)
  end.

(** Source: crates/rginx-http/src/proxy/resolver/endpoint.rs:72-93 (build_endpoint) *)
Definition build_endpoint (addressing : PeerAddressing) (ip : IpAddr) : ResolvedUpstreamPeer :=
  let dial_authority := socket_addr_authority (mkSocketAddr ip (ad_port addressing)) in
  let endpoint_key :=
    if str_eqb (ad_authority addressing) dial_authority then ad_logical_peer_url addressing
    else ad_logical_peer_url addressing +:+ "|" +:+ dial_authority in
  mkResolved (ad_logical_peer_url addressing) (ad_logical_peer_url addressing) endpoint_key
    (ad_scheme addressing +:+ "://" +:+ dial_authority) (ad_scheme addressing)
    (ad_authority addressing) dial_authority (mkSocketAddr ip (ad_port addressing))
    (ad_host addressing) (ad_weight addressing) (ad_backup addressing) (ad_max_conns addressing).

(** Source: crates/rginx-http/src/proxy/resolver/endpoint.rs:102-108 (clamp_ttl) *)
Definition clamp_ttl (value min max : Z) : Z := Z.min (Z.max value min) max.

(** Source: crates/rginx-http/src/proxy/resolver/endpoint.rs:110-116 (refresh_due) *)
Definition refresh_due (now valid_until refresh_before_expiry : Z) : bool :=
  (valid_until <=? now) || (valid_until <=? now + refresh_before_expiry).

Definition bool_cmp (a b : bool) : comparison :=
  match a, b with false, true => Lt | true, false => Gt | _, _ => Eq end.

Definition address_cmp (first : IpAddr → bool) (a b : IpAddr) : comparison :=
  then_cmp (bool_cmp (first a) (first b)) (ip_cmp a b).

(** Source: crates/rginx-http/src/proxy/resolver/endpoint.rs:118-130 (order_addresses) *)
Definition order_addresses (addresses : list IpAddr) (policy : UpstreamDnsPolicy) : list IpAddr :=
  if dns_prefer_ipv4 policy then sort_by (address_cmp is_ipv6) addresses
  else if dns_prefer_ipv6 policy then sort_by (address_cmp is_ipv4) addresses
  else sort_by ip_cmp addresses.

(** ** The cache *)

Definition with_cache (f : gmap string CacheEntry → gmap string CacheEntry)
    (r : UpstreamResolver) : UpstreamResolver :=
  mkResolver (dr_policy r) (f (dr_cache r)) (dr_resolve_requests_total r)
    (dr_cache_hits_total r) (dr_cache_misses_total r) (dr_refreshes_total r)
    (dr_resolve_errors_total r) (dr_stale_answers_total r).

(** Add to the counters: requests, hits, misses, refreshes, errors, stale. *)
Definition count (requests hits misses refreshes errors stale : Z) (r : UpstreamResolver)
    : UpstreamResolver :=
  mkResolver (dr_policy r) (dr_cache r) (wrap64 (dr_resolve_requests_total r + requests))
    (wrap64 (dr_cache_hits_total r + hits)) (wrap64 (dr_cache_misses_total r + misses))
    (wrap64 (dr_refreshes_total r + refreshes)) (wrap64 (dr_resolve_errors_total r + errors))
    (wrap64 (dr_stale_answers_total r + stale)).

(** Source: crates/rginx-http/src/proxy/resolver/runtime.rs:144-162 (UpstreamResolver::store_negative_and_fail) *)
Definition store_negative_and_fail (host message : string) (now : Z) (r : UpstreamResolver)
    : result string (list IpAddr) * UpstreamResolver :=
  let until := now + dns_negative_ttl (dr_policy r) in
  (Err ("failed to resolve upstream hostname `" +:+ host +:+ "`: " +:+ message),
   with_cache <[host := mkCacheEntry [] until until true (Some message)]> (count 0 0 0 0 1 0 r)).

(** The DNS library's answer: the addresses and the instant until which they
    are valid.  They are sorted and made distinct, the validity becomes a time
    to live. *)
Definition DnsAnswer : Type := result string (list IpAddr * Z).

(** Source: crates/rginx-http/src/proxy/resolver/runtime.rs:164-175 (UpstreamResolver::lookup_host) *)
Definition lookup_host (host : string) (now : Z) (answer : DnsAnswer) (r : UpstreamResolver)
    : result string (list IpAddr * Z) :=
  match answer with
  | Err error => Err ("dns lookup failed for `" +:+ host +:+ "`: " +:+ error)
  | Ok (addresses, valid_until) =>
      Ok (dedup (sort_by ip_cmp addresses),
          if now <=? valid_until then valid_until - now else dns_max_ttl (dr_policy r))
  end.

(** [now] is the instant at which the host is asked for, [later] the one after
    the lookup. *)
(** Source: crates/rginx-http/src/proxy/resolver/runtime.rs:91-142 (UpstreamResolver::resolve_host) *)
Definition resolve_host (host : string) (now later : Z) (answer : DnsAnswer)
    (r : UpstreamResolver) : result string (list IpAddr) * UpstreamResolver :=
  let r := count 1 0 0 0 0 0 r in
  let usable (e : CacheEntry) :=
    negb (ce_negative e) && match ce_addresses e with [] => false | _ => true end in
  let hit :=
    match dr_cache r !! host with
    | Some e =>
        if usable e &&
           negb (refresh_due now (ce_valid_until e) (dns_refresh_before_expiry (dr_policy r)))
        then Some (ce_addresses e) else None
    | None => None
    end in
  match hit with
  | Some addresses => (Ok (order_addresses addresses (dr_policy r)), count 0 1 0 0 0 0 r)
  | None =>
      let r := count 0 0 1 1 0 0 r in
      match lookup_host host later answer r with
      | Ok ([], _) => store_negative_and_fail host "dns lookup returned no addresses" later r
      | Ok (addresses, ttl) =>
          let ttl := clamp_ttl ttl (dns_min_ttl (dr_policy r)) (dns_max_ttl (dr_policy r)) in
          let addresses := order_addresses addresses (dr_policy r) in
          (Ok addresses,
           with_cache <[host := mkCacheEntry addresses (now + ttl)
                                  (now + ttl + dns_stale_if_error (dr_policy r)) false None]> r)
      | Err error =>
          match dr_cache r !! host with
          | Some e =>
              if usable e && (now <=? ce_stale_until e) then
                (Ok (order_addresses (ce_addresses e) (dr_policy r)),
                 with_cache <[host := mkCacheEntry (ce_addresses e) (ce_valid_until e)
                                        (ce_stale_until e) (ce_negative e) (Some error)]>
                   (count 0 0 0 0 0 1 r))
              else store_negative_and_fail host error later r
          | None => store_negative_and_fail host error later r
          end
      end
  end.

(** Source: crates/rginx-http/src/proxy/resolver/runtime.rs:30-41 (UpstreamResolver::resolve_peer) *)
Definition resolve_peer (peer : UpstreamPeer) (now later : Z) (answer : DnsAnswer)
    (r : UpstreamResolver) : result string (list ResolvedUpstreamPeer) * UpstreamResolver :=
  match parse_peer_addressing peer with
  | None => (Err "failed to parse upstream peer url", r)
  | Some addressing =>
      match ip_from_str (ad_host addressing) with
      | Some ip => (Ok [build_endpoint addressing ip], r)
      | None =>
          match resolve_host (ad_host addressing) now later answer r with
          | (Ok addresses, r) => (Ok (map (build_endpoint addressing) addresses), r)
          | (Err error, r) => (Err error, r)
          end
      end
  end.

(** Source: crates/rginx-http/src/proxy/resolver/runtime.rs:43-62 (UpstreamResolver::cached_peer_endpoints) *)
Definition cached_peer_endpoints (peer : UpstreamPeer) (now : Z) (r : UpstreamResolver)
    : result string (list ResolvedUpstreamPeer) :=
  match parse_peer_addressing peer with
  | None => Err "failed to parse upstream peer url"
  | Some addressing =>
      match ip_from_str (ad_host addressing) with
      | Some ip => Ok [build_endpoint addressing ip]
      | None =>
          match dr_cache r !! ad_host addressing with
          | None => Ok []
          | Some e =>
              if ce_negative e || match ce_addresses e with [] => true | _ => false end ||
                 (ce_stale_until e <? now)
              then Ok []
              else Ok (map (build_endpoint addressing) (ce_addresses e))
          end
      end
  end.

(** Source: crates/rginx-http/src/proxy/resolver.rs:33-40 (UpstreamResolverCacheEntrySnapshot) *)
Record CacheEntrySnapshot : Type := mkEntrySnapshot {
  ces_hostname : string;
  ces_addresses : list string;
  ces_negative : bool;
  ces_valid_for_ms : option Z;
  ces_stale_for_ms : option Z;
  ces_last_error : option string;
}.

(** [until.checked_duration_since(now).map(duration_to_ms)]. *)
Definition remaining_ms (until now : Z) : option Z :=
  if now <=? until then Some (Z.min (until - now) u64_max) else None.

(** The counters of the snapshot are those of the resolver. *)
(** Source: crates/rginx-http/src/proxy/resolver/runtime.rs:64-89 (UpstreamResolver::snapshot) *)
Definition snapshot_entries (now : Z) (r : UpstreamResolver) : list CacheEntrySnapshot :=
  sort_by (λ a b, str_cmp (ces_hostname a) (ces_hostname b))
    (map (λ '(hostname, e),
            mkEntrySnapshot hostname (map ip_to_string (ce_addresses e)) (ce_negative e)
              (remaining_ms (ce_valid_until e) now) (remaining_ms (ce_stale_until e) now)
              (ce_last_error e))
         (map_to_list (dr_cache r))).
End Resolver.

(** ** Ordering addresses *)

Lemma octets_cmp_antisym a b : octets_cmp a b = CompOpp (octets_cmp b a).
Proof.
  revert b. induction a as [|x a IH]; intros [|y b]; simpl; try done.
  rewrite Z.compare_antisym, IH. by destruct (y ?= x).
Qed.

Lemma octets_cmp_eq a b : octets_cmp a b = Eq → a = b.
Proof.
  revert b. induction a as [|x a IH]; intros [|y b]; simpl; try done.
  unfold then_cmp. destruct (x ?= y) eqn:Hxy; try done. apply Z.compare_eq in Hxy.
  intros ?%IH. by subst.
Qed.

Lemma octets_cmp_trans a b c : octets_cmp a b ≠ Gt → octets_cmp b c ≠ Gt → octets_cmp a c ≠ Gt.
Proof.
  revert b c. induction a as [|x a IH]; intros [|y b] [|z c]; simpl; try done.
  unfold then_cmp. intros H1 H2.
  destruct (Z.compare_spec x y), (Z.compare_spec y z), (Z.compare_spec x z); subst; try done; try lia.
  by eapply IH.
Qed.

Lemma ip_cmp_antisym a b : ip_cmp a b = CompOpp (ip_cmp b a).
Proof. destruct a, b; simpl; try done; apply octets_cmp_antisym. Qed.

Lemma ip_cmp_eq a b : ip_cmp a b = Eq → a = b.
Proof. destruct a, b; simpl; try done; by intros ->%octets_cmp_eq. Qed.

Lemma ip_cmp_trans a b c : ip_cmp a b ≠ Gt → ip_cmp b c ≠ Gt → ip_cmp a c ≠ Gt.
Proof. destruct a, b, c; simpl; try done; apply octets_cmp_trans. Qed.

(** The addresses of an answer, each once. *)
Definition distinct (addresses answer : list IpAddr) : Prop :=
  addresses ≠ [] ∧ NoDup addresses ∧ ∀ ip, ip ∈ addresses ↔ ip ∈ answer.

Lemma dedup_sorted_distinct l :
  dedup (sort_by ip_cmp l) ≠ [] → distinct (dedup (sort_by ip_cmp l)) l.
Proof.
  intros Hne. split_and!; [done| |].
  - apply (dedup_sorted_NoDup ip_cmp); [apply ip_cmp_antisym|apply ip_cmp_eq|apply ip_cmp_trans|].
    apply sort_by_sorted; [apply ip_cmp_antisym|apply ip_cmp_trans].
  - intros ip. by rewrite elem_of_dedup, sort_by_perm.
Qed.

Lemma order_addresses_perm l policy : order_addresses l policy ≡ₚ l.
Proof. unfold order_addresses. repeat case_match; apply sort_by_perm. Qed.

Lemma distinct_order l k policy : distinct l k → distinct (order_addresses l policy) k.
Proof.
  intros (Hne & Hnd & Hin). split_and!; [|by rewrite order_addresses_perm|].
  - intros Hnil. pose proof (order_addresses_perm l policy) as Hp. rewrite Hnil in Hp.
    by apply Permutation_nil_l in Hp.
  - intros ip. by rewrite order_addresses_perm.
Qed.

(** ** Runs of the resolver *)

Record DnsCall : Type := mkCall {
  call_host : string;
  call_now : Z;
  call_later : Z;
  call_answer : DnsAnswer;
}.

Definition ask (c : DnsCall) (r : UpstreamResolver) : result string (list IpAddr) * UpstreamResolver :=
  resolve_host (call_host c) (call_now c) (call_later c) (call_answer c) r.

Definition run_calls (calls : list DnsCall) (r : UpstreamResolver) : UpstreamResolver :=
  foldl (λ r c, (ask c r).2) r calls.

(** How long the answer to a call may be used: what is left of its validity
    once the lookup is over, but no shorter than the policy's minimum and no
    longer than its maximum. *)
Definition lifetime (policy : UpstreamDnsPolicy) (c : DnsCall) (valid_until : Z) : Z :=
  let left := if call_later c <=? valid_until then valid_until - call_later c else dns_max_ttl policy in
  Z.min (dns_max_ttl policy) (Z.max (dns_min_ttl policy) left).

(** One of the calls asked for [host], and the DNS answered with these
    addresses, which may be used until [until]. *)
Definition answered (policy : UpstreamDnsPolicy) (calls : list DnsCall) (host : string)
    (addresses : list IpAddr) (until : Z) : Prop :=
  ∃ c answer valid, c ∈ calls ∧ call_host c = host ∧ call_answer c = Ok (answer, valid) ∧
    distinct addresses answer ∧ until = call_now c + lifetime policy c valid.

(** What the cache holds comes from the answers, and may be used as long. *)
Definition cache_from (policy : UpstreamDnsPolicy) (calls : list DnsCall) (r : UpstreamResolver)
    : Prop :=
  dr_policy r = policy ∧
  ∀ host e, dr_cache r !! host = Some e → ce_negative e = false →
    answered policy calls host (ce_addresses e) (ce_valid_until e) ∧
    ce_stale_until e = ce_valid_until e + dns_stale_if_error policy.

Lemma answered_mono policy calls calls' host l until :
  calls ⊆ calls' → answered policy calls host l until → answered policy calls' host l until.
Proof. intros Hs (c & a & v & Hin & ?). exists c, a, v. split; [by apply Hs|done]. Qed.

Lemma answered_order policy calls host l until :
  answered policy calls host l until → answered policy calls host (order_addresses l policy) until.
Proof.
  intros (c & a & v & Hin & Hh & Ha & Hd & Hu). exists c, a, v.
  split_and!; [done..|by apply distinct_order|done].
Qed.

Lemma cache_from_mono policy calls calls' r :
  calls ⊆ calls' → cache_from policy calls r → cache_from policy calls' r.
Proof.
  intros Hs [Hp Hc]. split; [done|]. intros host e He Hn.
  destruct (Hc _ _ He Hn). split; [by eapply answered_mono|done].
Qed.

Lemma cache_from_insert policy calls r r' host e :
  cache_from policy calls r → dr_policy r' = policy → dr_cache r' = <[host := e]> (dr_cache r) →
  (ce_negative e = false →
    answered policy calls host (ce_addresses e) (ce_valid_until e) ∧
    ce_stale_until e = ce_valid_until e + dns_stale_if_error policy) →
  cache_from policy calls r'.
Proof.
  intros [Hp Hc] Hp' Hcache He. split; [done|]. rewrite Hcache. intros host' e'.
  intros [[<- <-]|[_ He']]%lookup_insert_Some; [by apply He|by apply Hc].
Qed.

(** Where the addresses of an answer come from, and for how long: from the lookup
    of this very call; from an earlier one whose lifetime is not over, nor so
    close to its end that it is to be refreshed; or, as the lookup of this call
    failed, from an earlier one that may still be used stale. *)
Definition vouched (policy : UpstreamDnsPolicy) (calls : list DnsCall) (c : DnsCall) (addresses : list IpAddr) : Prop :=
  (∃ answer valid, call_answer c = Ok (answer, valid) ∧ distinct addresses answer) ∨
  (∃ until, answered policy calls (call_host c) addresses until ∧
     call_now c < until ∧ call_now c + dns_refresh_before_expiry policy < until) ∨
  (∃ until error, call_answer c = Err error ∧ answered policy calls (call_host c) addresses until ∧
     call_now c ≤ until + dns_stale_if_error policy).

(** The answer to one call, and the cache after it. *)
Lemma ask_spec policy calls r c :
  cache_from policy calls r →
  match (ask c r).1 with
  | Ok addresses => vouched policy calls c addresses
  | Err _ => ∀ answer valid, call_answer c = Ok (answer, valid) → answer = []
  end ∧ cache_from policy (calls ++ [c]) (ask c r).2.
Proof.
  intros Hr. assert (cache_from policy (calls ++ [c]) r) as Hr' by (eapply cache_from_mono; [|exact Hr]; set_solver).
  destruct Hr as [Hp Hc]. unfold ask, resolve_host. set (r1 := count 1 0 0 0 0 0 r).
  destruct (match dr_cache r1 !! call_host c with Some _ => _ | None => _ end) as [hit|] eqn:Hhit.
  { split; [|done]. cbn in Hhit |- *. destruct (dr_cache r !! call_host c) as [e|] eqn:He; [|done].
    destruct (negb (ce_negative e) && _ && _) eqn:Hu; [|done]. injection Hhit as <-.
    rewrite !andb_true_iff, !negb_true_iff in Hu. destruct Hu as [[Hn _] Hd].
    right; left. exists (ce_valid_until e). destruct (Hc _ _ He Hn) as [Ha _]. split; [rewrite Hp; by apply answered_order|].
    unfold refresh_due in Hd. rewrite Hp in Hd. boolify. lia. }
  clear Hhit. set (r2 := count 0 0 1 1 0 0 r1).
  assert (Hr2 : cache_from policy (calls ++ [c]) r2) by done.
  assert (dr_policy r2 = policy) as Hp2 by done. assert (Hcache : dr_cache r2 = dr_cache r) by done.
  assert (Hneg : ∀ message, cache_from policy (calls ++ [c]) (store_negative_and_fail (call_host c) message (call_later c) r2).2).
  { intros message. by eapply (cache_from_insert policy _ r2). }
  rewrite Hp2. clearbody r2. destruct (call_answer c) as [[answer valid]|error] eqn:Ha; cbn [lookup_host]; [|].
  2:{ destruct (dr_cache r2 !! call_host c) as [e|] eqn:He; [|done].
    destruct (negb (ce_negative e) && _ && _) eqn:Hu; [|done].
    rewrite !andb_true_iff, !negb_true_iff in Hu. destruct Hu as [[Hn _] Hd]. boolify.
    destruct (proj2 Hr2 _ _ He Hn) as [Hv' Hst']. rewrite Hcache in He. destruct (Hc _ _ He Hn) as [Hv Hst]. split.
    + right; right. exists (ce_valid_until e), error. split_and!; [done|by apply answered_order|lia].
    + eapply (cache_from_insert policy _ r2); [done..|]. by intros _. }
  destruct (dedup (sort_by ip_cmp answer)) as [|ip l] eqn:Hl.
  { split; [|done]. cbn. intros answer' valid' [= <- <-]. destruct answer as [|ip answer]; [done|].
    exfalso. eapply (not_elem_of_nil ip). rewrite <-Hl, elem_of_dedup, sort_by_perm. by left. }
  assert (Hd : distinct (order_addresses (ip :: l) policy) answer).
  { apply distinct_order. rewrite <-Hl. apply dedup_sorted_distinct. by rewrite Hl. }
  cbn [fst snd]. split; [left; by exists answer, valid|].
  eapply (cache_from_insert policy _ r2); [done..|]. intros _. cbn. split; [|done]. exists c, answer, valid.
  split_and!; [set_solver|done..|]. unfold clamp_ttl, lifetime. rewrite Hp2. lia.
Qed.

Lemma run_calls_cache policy calls : cache_from policy calls (run_calls calls (resolver_new policy)).
Proof.
  induction calls as [|c calls IH] using rev_ind.
  - split; [done|]. intros host e He. cbn in He. by rewrite lookup_empty in He.
  - unfold run_calls in *. rewrite foldl_app. cbn [foldl]. by apply ask_spec.
Qed.

(** The configured order. *)
Definition order_cmp (policy : UpstreamDnsPolicy) : IpAddr → IpAddr → comparison :=
  if dns_prefer_ipv4 policy then address_cmp is_ipv6
  else if dns_prefer_ipv6 policy then address_cmp is_ipv4
  else ip_cmp.

Lemma address_cmp_antisym first a b : address_cmp first a b = CompOpp (address_cmp first b a).
Proof.
  unfold address_cmp, then_cmp. rewrite ip_cmp_antisym.
  by destruct (first a), (first b).
Qed.

Lemma address_cmp_trans first a b c :
  address_cmp first a b ≠ Gt → address_cmp first b c ≠ Gt → address_cmp first a c ≠ Gt.
Proof.
  unfold address_cmp, then_cmp.
  destruct (first a), (first b), (first c); simpl; try done; apply ip_cmp_trans.
Qed.

Lemma order_addresses_sorted l policy : sorted_by (order_cmp policy) (order_addresses l policy).
Proof.
  unfold order_addresses, order_cmp.
  repeat case_match; apply sort_by_sorted;
    first [apply address_cmp_antisym|apply address_cmp_trans|apply ip_cmp_antisym|apply ip_cmp_trans].
Qed.

Lemma ask_ordered c r l :
  (ask c r).1 = Ok l → ∃ k, l = order_addresses k (dr_policy r).
Proof.
  unfold ask, resolve_host, store_negative_and_fail.
  destruct (match dr_cache _ !! call_host c with Some _ => _ | None => _ end).
  { cbn. intros [= <-]. by eexists. }
  destruct (lookup_host _ _ _ _) as [[[|ip addresses] ttl]|error]; cbn.
  - done.
  - intros [= <-]. by exists (ip :: addresses).
  - destruct (dr_cache r !! call_host c) as [e|]; [|done].
    destruct (_ && (call_now c <=? ce_stale_until e)); [|done]. intros [= <-]. by eexists.
Qed.

(** C13.  The addresses a host resolves to are live: whatever was asked before,
    an answer lists, each once, in the configured order and never none, exactly
    the addresses that the DNS gave for that host, either now, or in an earlier
    call whose lifetime (what was left of the records' validity, within the
    policy's bounds) is not over nor due to be refreshed, or, when the lookup of
    this call failed, is over for no longer than the stale-if-error window.
    Resolving fails only when the lookup of that very call failed or was empty:
    an error is never answered from the cache. *)
Theorem dns_answers_are_live (policy : UpstreamDnsPolicy) (calls : list DnsCall) (c : DnsCall) :
  match (ask c (run_calls calls (resolver_new policy))).1 with
  | Ok addresses => sorted_by (order_cmp policy) addresses ∧ vouched policy calls c addresses
  | Err _ => ∀ answer valid, call_answer c = Ok (answer, valid) → answer = []
  end.
Proof.
  pose proof (run_calls_cache policy calls) as Hc. set (r := run_calls calls (resolver_new policy)) in *.
  pose proof (proj1 (ask_spec policy calls r c Hc)) as Ha.
  destruct (ask c r).1 as [addresses|error] eqn:He; [|done]. split; [|done].
  apply ask_ordered in He as [k ->]. destruct Hc as [-> _]. apply order_addresses_sorted.
Qed.

(** ** A concrete resolver *)

Definition sample_dns : UpstreamDnsPolicy := dns_policy_default.
Definition v4 (a b c d : Z) : IpAddr := V4 [a; b; c; d].

Definition first_call : DnsCall :=
  mkCall "db.local" 0 0 (Ok ([v4 10 0 0 2; v4 10 0 0 1; v4 10 0 0 2], 20000)).
Definition failed_call (now : Z) : DnsCall := mkCall "db.local" now now (Err "timeout"%string).

(** Cached, then stale while the DNS fails, then an error. *)
Example dns_sequence :
  (ask (failed_call 9000) (run_calls [first_call] (resolver_new sample_dns))).1 =
    Ok [v4 10 0 0 1; v4 10 0 0 2] ∧
  (ask (failed_call 80000) (run_calls [first_call] (resolver_new sample_dns))).1 =
    Ok [v4 10 0 0 1; v4 10 0 0 2] ∧
  is_ok (ask (failed_call 80001) (run_calls [first_call] (resolver_new sample_dns))).1 = false.
Proof. by vm_compute. Qed.

(** A failed lookup is recorded for [negative_ttl] (30 s), yet the next request
    asks the DNS again: the negative entry is never an answer. *)
Example negative_entries_are_not_used :
  let r := run_calls [failed_call 0] (resolver_new sample_dns) in
  dr_cache r !! "db.local"%string = Some (mkCacheEntry [] 30000 30000 true
    (Some "dns lookup failed for `db.local`: timeout"%string)) ∧
  (ask (mkCall "db.local" 1 1 (Ok ([v4 10 0 0 1], 20000))) r).1 = Ok [v4 10 0 0 1].
Proof. by vm_compute. Qed.

Lemma stale_answer :
  (ask (failed_call 80000) (run_calls [first_call] (resolver_new sample_dns))).1 =
    Ok [v4 10 0 0 1; v4 10 0 0 2].
Proof. by vm_compute. Qed.

(** The answer of the first call is used stale, 60 s after its 20 s are over. *)
Lemma dns_answers_are_live_witness :
  vouched sample_dns [first_call] (failed_call 80000) [v4 10 0 0 1; v4 10 0 0 2].
Proof. pose proof (dns_answers_are_live sample_dns [first_call] (failed_call 80000)) as H. rewrite stale_answer in H. apply H. Defined.
