(* ===== verification/RequestHeaders.v ===== *)
(** * The headers sent upstream and back downstream

    Models [crates/rginx-http/src/proxy/common.rs] (hop-by-hop headers,
    forwarding headers, upgrades and header overrides) and the modes of
    [proxy/grpc_web/mod.rs]. *)

From S2P Require Import Prelude RustStr External Upstream Template ProxyHeader Resolver ClientIp.

(** Source: crates/rginx-http/src/proxy/grpc_web/mod.rs:24-27 (GrpcWebEncoding) *)
Inductive GrpcWebEncoding : Type := EncodingBinary | EncodingText.

(** The HTTP versions told apart. *)
Inductive HttpVersion : Type := Http10 | Http11 | Http2 | Http3.

#[export] Instance HttpVersion_eq_dec : EqDecision HttpVersion.
Proof. solve_decision. Defined.

#[export] Instance UpstreamProtocol_eq_dec : EqDecision UpstreamProtocol.
Proof. solve_decision. Defined.

Section Headers.
Context {HTTP : HttpApi}.

(** Source: crates/rginx-http/src/proxy/grpc_web/mod.rs:17-21 (GrpcWebMode) *)
Record GrpcWebMode : Type := mkGrpcWebMode {
  gw_downstream_content_type : HeaderValue;
  gw_upstream_content_type : HeaderValue;
  gw_encoding : GrpcWebEncoding;
}.

(** Source: crates/rginx-http/src/proxy/grpc_web/mod.rs:30-32 (GrpcWebMode::is_text) *)
Definition mode_is_text (m : GrpcWebMode) : bool :=
  match gw_encoding m with EncodingText => true | EncodingBinary => false end.

(** [content_type.splitn(2, ';')], trimmed. *)
(** Source: crates/rginx-http/src/proxy/common.rs:34-39 (split_content_type) *)
Definition split_content_type (content_type : string) : string * string :=
  match split_once ";"%char content_type with
  | Some (mime, params) => (trim mime, trim params)
  | None => (trim content_type, EmptyString)
  end.

(** ** Hop-by-hop headers *)

(** Source: crates/rginx-http/src/proxy/common.rs:274-280 (connection_header_contains_token) *)
Definition connection_header_contains_token (headers : HeaderMap) (token : string) : bool :=
  existsb (λ value,
    match hv_to_str value with
    | Some value => existsb (λ item, eq_ignore_ascii_case (trim item) token) (split ","%char value)
    | None => false
    end) (hm_get_all headers "connection").

(** Source: crates/rginx-http/src/proxy/common.rs:270-272 (extract_upgrade_protocol) *)
Definition extract_upgrade_protocol (headers : HeaderMap) : option HeaderValue :=
  if connection_header_contains_token headers "upgrade" then hm_get headers "upgrade" else None.

(** Source: crates/rginx-http/src/proxy/common.rs:262-264 (is_upgrade_request) *)
Definition is_upgrade_request (version : HttpVersion) (headers : HeaderMap) : bool :=
  bool_decide (version = Http11) && is_some (extract_upgrade_protocol headers).

(** Source: crates/rginx-http/src/proxy/common.rs:266-268 (is_upgrade_response) *)
Definition is_upgrade_response (status : Z) (headers : HeaderMap) : bool :=
  (status =? 101) && hm_contains_key headers "upgrade".

(** The names the [Connection] headers list. *)
Definition connection_names (headers : HeaderMap) : list string :=
  flat_map (λ value,
    match hv_to_str value with
    | Some value =>
        omap (λ item, let trimmed := trim item in
                      if str_is_empty trimmed then None else header_name_parse trimmed)
          (split ","%char value)
    | None => []
    end) (hm_get_all headers "connection").

Definition hop_by_hop : list string :=
  ["connection"; "proxy-authenticate"; "proxy-authorization"; "te"; "trailer"; "transfer-encoding"; "upgrade"]%string.

Definition remove_all (keep : string → bool) (names : list string) (headers : HeaderMap) : HeaderMap :=
  foldl (λ headers name, if keep name then headers else hm_remove name headers) headers names.

(** Source: crates/rginx-http/src/proxy/common.rs:218-260 (remove_hop_by_hop_headers) *)
Definition remove_hop_by_hop_headers (headers : HeaderMap) (preserve_upgrade : bool) : HeaderMap :=
  let extra_headers := connection_names headers in
  let headers := remove_all (λ name, preserve_upgrade && str_eqb name "upgrade") extra_headers headers in
  let headers :=
    remove_all (λ name, preserve_upgrade && (str_eqb name "connection" || str_eqb name "upgrade"))
      hop_by_hop headers in
  hm_remove "proxy-connection" (hm_remove "keep-alive" headers).

(** [TE] is kept when all it says is [trailers]. *)
Fixpoint te_tokens (tokens : list string) (saw_te : bool) : option bool :=
  match tokens with
  | [] => Some saw_te
  | token :: tokens =>
      if str_is_empty (trim token) then te_tokens tokens saw_te
      else if eq_ignore_ascii_case (trim token) "trailers" then te_tokens tokens true else None
  end.

Fixpoint te_values (values : list HeaderValue) (saw_te : bool) : option bool :=
  match values with
  | [] => Some saw_te
  | value :: values =>
      value ← hv_to_str value; saw_te ← te_tokens (split ","%char value) saw_te; te_values values saw_te
  end.

(** Source: crates/rginx-http/src/proxy/common.rs:191-206 (preserved_te_trailers_value) *)
Definition preserved_te_trailers_value (headers : HeaderMap) : option HeaderValue :=
  saw_te ← te_values (hm_get_all headers "te") false;
  if (saw_te : bool) then Some (hv_from_static "trailers") else None.

(** ** Requests *)

(** Source: crates/rginx-http/src/proxy/common.rs:121-124 (ProxyHeaderOverride) *)
Inductive ProxyHeaderOverride : Type :=
| OverrideSet (name : string) (value : HeaderValue)
| OverrideRemove (name : string).

Fixpoint render_overrides (context : ProxyHeaderRenderContext)
    (proxy_set_headers : list (string * ProxyHeaderValue))
    : result InvalidHeaderValue (list ProxyHeaderOverride) :=
  match proxy_set_headers with
  | [] => Ok []
  | (name, value) :: rest =>
      if removes_header value then
        let? overrides := render_overrides context rest in Ok (OverrideRemove name :: overrides)
      else
        let? value := render_proxy_header value context in
        let? overrides := render_overrides context rest in
        Ok match value with Some value => OverrideSet name value :: overrides | None => overrides end
  end.

(** Source: crates/rginx-http/src/proxy/common.rs:126-159 (render_proxy_header_overrides) *)
Definition render_proxy_header_overrides (original_headers : HeaderMap) (authority : string)
    (original_host : option HeaderValue) (client_address : ClientAddress) (forwarded_proto : string)
    (proxy_set_headers : list (string * ProxyHeaderValue))
    : result InvalidHeaderValue (list ProxyHeaderOverride) :=
  render_overrides
    (mkProxyHeaderRenderContext original_headers original_host authority (ca_client_ip client_address)
       (ca_peer_addr client_address) (ca_forwarded_for client_address) forwarded_proto)
    proxy_set_headers.

Definition apply_override (headers : HeaderMap) (o : ProxyHeaderOverride) : HeaderMap :=
  match o with
  | OverrideSet name value => hm_insert name value headers
  | OverrideRemove name => hm_remove name headers
  end.

Definition value_from_str (s : string) : result InvalidHeaderValue HeaderValue :=
  ok_or (hv_from_str s) mkInvalidHeaderValue.

Definition insert_some (name : string) (value : option HeaderValue) (headers : HeaderMap) : HeaderMap :=
  match value with Some value => hm_insert name value headers | None => headers end.

(** The forwarding headers. *)
Definition insert_forwarding (host proto forwarded_for : HeaderValue) (original_host : option HeaderValue)
    (headers : HeaderMap) : HeaderMap :=
  hm_insert "x-forwarded-for" forwarded_for
    (insert_some "x-forwarded-host" original_host
       (hm_insert "x-forwarded-proto" proto (hm_insert "host" host headers))).

(** What gRPC-Web changes, and [TE]. *)
Definition translate_headers (grpc_web_mode : option GrpcWebMode) (te_trailers : option HeaderValue)
    (headers : HeaderMap) : HeaderMap :=
  match grpc_web_mode with
  | Some mode =>
      let headers := hm_insert "content-type" (gw_upstream_content_type mode) headers in
      let headers := hm_remove "x-grpc-web" (hm_remove "content-length" headers) in
      if is_some (hm_get headers "te") then headers
      else hm_insert "te" (hv_from_static "trailers") headers
  | None =>
      if is_some (hm_get headers "te") then headers else insert_some "te" te_trailers headers
  end.

Definition insert_upgrade (upgrade_protocol : option HeaderValue) (headers : HeaderMap) : HeaderMap :=
  match upgrade_protocol with
  | Some protocol =>
      hm_insert "upgrade" protocol (hm_insert "connection" (hv_from_static "upgrade") headers)
  | None => headers
  end.

(** The headers are only used when there is no error, so their state at an
    error is left out. *)
(** Source: crates/rginx-http/src/proxy/common.rs:49-119 (sanitize_request_headers) *)
Definition sanitize_request_headers (headers : HeaderMap) (authority : string)
    (original_host : option HeaderValue) (client_address : ClientAddress) (forwarded_proto : string)
    (preserve_host : bool) (proxy_set_headers : list (string * ProxyHeaderValue))
    (grpc_web_mode : option GrpcWebMode) : result InvalidHeaderValue HeaderMap :=
  let? overrides :=
    render_proxy_header_overrides headers authority original_host client_address forwarded_proto
      proxy_set_headers in
  let upgrade_protocol := extract_upgrade_protocol headers in
  let te_trailers := preserved_te_trailers_value headers in
  let headers := remove_hop_by_hop_headers headers (is_some upgrade_protocol) in
  let? host :=
    if preserve_host then
      match original_host with Some host => Ok host | None => value_from_str authority end
    else value_from_str authority in
  let? proto := value_from_str forwarded_proto in
  let? forwarded_for := value_from_str (ca_forwarded_for client_address) in
  let headers := insert_forwarding host proto forwarded_for original_host headers in
  let headers := translate_headers grpc_web_mode te_trailers headers in
  let headers := insert_upgrade upgrade_protocol headers in
  Ok (foldl apply_override headers overrides).

(** Source: crates/rginx-http/src/proxy/common.rs:181-189 (may_use_authority_pseudo_header) *)
Definition may_use_authority_pseudo_header (peer : ResolvedUpstreamPeer) (protocol : UpstreamProtocol)
    : bool :=
  bool_decide (protocol = ProtoHttp2) || bool_decide (protocol = ProtoH2c) ||
  bool_decide (protocol = ProtoHttp3) ||
  (bool_decide (protocol = ProtoAuto) && str_eqb (res_scheme peer) "https").

(** Source: crates/rginx-http/src/proxy/common.rs:161-179 (remove_redundant_host_header_for_authority_pseudo_header) *)
Definition remove_redundant_host_header (headers : HeaderMap) (peer : ResolvedUpstreamPeer)
    (protocol : UpstreamProtocol) : HeaderMap :=
  if negb (may_use_authority_pseudo_header peer protocol) then headers
  else
    match hm_get headers "host" with
    | None => headers
    | Some host =>
        if eq_ignore_ascii_case (hv_as_bytes host) (res_upstream_authority peer)
        then hm_remove "host" headers else headers
    end.

(** Source: crates/rginx-http/src/proxy/common.rs:282-288 (upstream_request_version) *)
Definition upstream_request_version (protocol : UpstreamProtocol) : HttpVersion :=
  match protocol with
  | ProtoHttp3 => Http3
  | ProtoHttp2 | ProtoH2c => Http2
  | ProtoAuto | ProtoHttp1 => Http11
  end.

(** ** Responses *)

(** Source: crates/rginx-http/src/proxy/common.rs:208-216 (sanitize_response_headers) *)
Definition sanitize_response_headers (headers : HeaderMap) (preserve_upgrade : bool) : HeaderMap :=
  let upgrade_protocol := if preserve_upgrade then hm_get headers "upgrade" else None in
  insert_upgrade upgrade_protocol (remove_hop_by_hop_headers headers preserve_upgrade).
End Headers.

(** ** What each operation leaves of a header *)

Section HeaderFacts.
Context {HTTP : HttpApi} {Laws : HttpLaws HTTP}.

Lemma get_insert name v m name' :
  hm_get_all (hm_insert name v m) name' = if decide (name = name') then [v] else hm_get_all m name'.
Proof. case_decide; subst; [apply hm_get_all_insert_eq|by apply hm_get_all_insert_ne]. Qed.

Lemma get_remove name m name' :
  hm_get_all (hm_remove name m) name' = if decide (name = name') then [] else hm_get_all m name'.
Proof. case_decide; subst; [apply hm_get_all_remove_eq|by apply hm_get_all_remove_ne]. Qed.

Lemma get_insert_some name v m name' :
  hm_get_all (insert_some name v m) name' =
    match v with Some v => if decide (name = name') then [v] else hm_get_all m name' | None => hm_get_all m name' end.
Proof. destruct v; [apply get_insert|done]. Qed.

Lemma get_remove_all keep names m name :
  hm_get_all (remove_all keep names m) name =
    if decide (name ∈ names ∧ keep name = false) then [] else hm_get_all m name.
Proof.
  unfold remove_all. revert m. induction names as [|n names IH]; intros m; cbn [foldl].
  - rewrite decide_False; [done|]. intros [[]%elem_of_nil _].
  - rewrite IH. destruct (keep n) eqn:Hk.
    + assert (Hiff : name ∈ names ∧ keep name = false ↔ name ∈ n :: names ∧ keep name = false).
      { rewrite elem_of_cons. split; [tauto|]. intros [[->|Hin] Hf]; [congruence|done]. }
      do 2 case_decide; tauto.
    + rewrite get_remove.
      destruct (decide (n = name)) as [->|Hne].
      * rewrite (decide_True (P := name ∈ name :: names ∧ _)) by (rewrite elem_of_cons; tauto). by case_decide.
      * assert (Hiff : name ∈ names ∧ keep name = false ↔ name ∈ n :: names ∧ keep name = false).
        { rewrite elem_of_cons. split; [tauto|]. intros [[->|Hin] Hf]; [congruence|done]. }
        do 2 case_decide; tauto.
Qed.

Definition override_name (o : ProxyHeaderOverride) : string :=
  match o with OverrideSet name _ | OverrideRemove name => name end.

Lemma overrides_untouched os m name :
  name ∉ map override_name os → hm_get_all (foldl apply_override m os) name = hm_get_all m name.
Proof.
  revert m. induction os as [|o os IH]; intros m Hn; [done|]. cbn [map] in Hn.
  apply not_elem_of_cons in Hn as [Hne Hn]. cbn [foldl]. rewrite IH by done.
  destruct o as [n v|n]; cbn [apply_override override_name] in *; [rewrite get_insert|rewrite get_remove];
    by rewrite decide_False by congruence.
Qed.

(** Some configured header sets or removes [name]; one that renders to nothing
    does neither. *)
Definition overridden (context : ProxyHeaderRenderContext) (headers : list (string * ProxyHeaderValue)) (name : string) : Prop :=
  ∃ value, (name, value) ∈ headers ∧
    (removes_header value = true ∨ ∃ v, render_proxy_header value context = Ok (Some v)).

Lemma overridden_cons context n v headers name :
  overridden context headers name → overridden context ((n, v) :: headers) name.
Proof. intros (value & Hin & H). exists value. split; [by right|done]. Qed.

Lemma render_overrides_cons context n v headers os :
  render_overrides context ((n, v) :: headers) = Ok os →
  ∃ os', render_overrides context headers = Ok os' ∧
    (removes_header v = true ∧ os = OverrideRemove n :: os' ∨
     removes_header v = false ∧
       ((∃ w, render_proxy_header v context = Ok (Some w) ∧ os = OverrideSet n w :: os') ∨
        (render_proxy_header v context = Ok None ∧ os = os'))).
Proof.
  cbn [render_overrides]. destruct (removes_header v).
  - destruct (render_overrides context headers) as [os'|]; [|done]. cbn. intros [= <-]. exists os'. by split; [|left].
  - destruct (render_proxy_header v context) as [[w|]|]; [..|done]; cbn;
      (destruct (render_overrides context headers) as [os'|]; [|done]); cbn; intros [= <-]; exists os'; (split; [done|right]);
      (split; [done|]); [left; by exists w|by right].
Qed.

Lemma render_overrides_names context headers os name :
  render_overrides context headers = Ok os → name ∈ map override_name os → overridden context headers name.
Proof.
  revert os. induction headers as [|[n v] headers IH]; intros os; [by intros [= <-] []%elem_of_nil|].
  intros (os' & Hos & [[Hr ->]|[Hr [(w & Hw & ->)|[_ ->]]]])%render_overrides_cons Hin; [cbn in Hin..|].
  - apply elem_of_cons in Hin as [->|Hin]; [exists v; split; [by left|by left]|by eapply overridden_cons, IH].
  - apply elem_of_cons in Hin as [->|Hin]; [exists v; split; [by left|right; by exists w]|by eapply overridden_cons, IH].
  - by eapply overridden_cons, IH.
Qed.

(** The last override of a name decides. *)
Lemma render_overrides_last context before name value after os :
  render_overrides context (before ++ (name, value) :: after) = Ok os → ¬ overridden context after name →
  (removes_header value = true → ∃ a b, os = a ++ OverrideRemove name :: b ∧ name ∉ map override_name b) ∧
  (∀ v, removes_header value = false → render_proxy_header value context = Ok (Some v) →
     ∃ a b, os = a ++ OverrideSet name v :: b ∧ name ∉ map override_name b).
Proof.
  revert os. induction before as [|[n w] before IH]; intros os Hr Hn; cbn [app] in Hr;
    apply render_overrides_cons in Hr as (os' & Hos & Hr).
  - assert (name ∉ map override_name os') as Hn' by (intros Hin; by eapply Hn, render_overrides_names). split.
    + intros Hrm. rewrite Hrm in Hr. destruct Hr as [[_ ->]|[? _]]; [by exists [], os'|done].
    + intros v Hrm Hv. rewrite Hrm, Hv in Hr. destruct Hr as [[? _]|[_ [(v' & [= <-] & ->)|[? _]]]]; [done|by exists [], os'|done].
  - assert (∃ o, os = o ++ os') as [o ->].
    { destruct Hr as [[_ ->]|[_ [(v & _ & ->)|[_ ->]]]]; [by exists [OverrideRemove n]|by exists [OverrideSet n v]|by exists []]. }
    destruct (IH _ Hos Hn) as [H1 H2]. split.
    + intros Hrm. destruct (H1 Hrm) as (a & b & -> & Hb). exists (o ++ a), b. by rewrite app_assoc.
    + intros v Hrm Hv. destruct (H2 v Hrm Hv) as (a & b & -> & Hb). exists (o ++ a), b. by rewrite app_assoc.
Qed.

Lemma get_hop_by_hop headers preserve name :
  hm_get_all (remove_hop_by_hop_headers headers preserve) name =
    if decide (name = "proxy-connection"%string ∨ name = "keep-alive"%string ∨
               (name ∈ hop_by_hop ∧ ¬ (preserve = true ∧ (name = "connection"%string ∨ name = "upgrade"%string))) ∨
               (name ∈ connection_names headers ∧ ¬ (preserve = true ∧ name = "upgrade"%string)))
    then [] else hm_get_all headers name.
Proof.
  unfold remove_hop_by_hop_headers. rewrite !get_remove, !get_remove_all.
  assert (Hk : ∀ s, preserve && str_eqb name s = false ↔ ¬ (preserve = true ∧ name = s)).
  { intros s. rewrite andb_false_iff, str_eqb_false. destruct preserve; intuition congruence. }
  assert (Hk2 : preserve && (str_eqb name "connection" || str_eqb name "upgrade") = false ↔
    ¬ (preserve = true ∧ (name = "connection"%string ∨ name = "upgrade"%string))).
  { rewrite andb_false_iff, orb_false_iff, !str_eqb_false. destruct preserve; intuition congruence. }
  rewrite (decide_ext _ _ _ _ (and_iff_compat_l _ Hk2)), (decide_ext _ _ _ _ (and_iff_compat_l _ (Hk "upgrade"%string))).
  repeat case_decide; try done; exfalso; intuition congruence.
Qed.
End HeaderFacts.

Section Sanitized.
Context {HTTP : HttpApi} {Laws : HttpLaws HTTP}.

(** The names by what becomes of them. *)
Definition stripped_names : list string :=
  ["proxy-authenticate"; "proxy-authorization"; "trailer"; "transfer-encoding"; "keep-alive"; "proxy-connection"]%string.
Definition connection_state_names : list string := ["connection"; "upgrade"; "te"]%string.
Definition grpc_web_names : list string := ["content-type"; "content-length"; "x-grpc-web"]%string.

Lemma get_forwarding host proto for_ original m name :
  hm_get_all (insert_forwarding host proto for_ original m) name =
    if decide (name = "x-forwarded-for"%string) then [for_]
    else if decide (name = "x-forwarded-proto"%string) then [proto]
    else if decide (name = "host"%string) then [host]
    else if decide (name = "x-forwarded-host"%string) then
      match original with Some v => [v] | None => hm_get_all m name end
    else hm_get_all m name.
Proof.
  unfold insert_forwarding. rewrite get_insert, get_insert_some, !get_insert.
  repeat case_decide; subst; try done; destruct original; try done.
Qed.

(** [TE] was removed as hop-by-hop, so it is set anew. *)
Lemma get_translated mode te m name :
  hm_get_all m "te" = [] →
  hm_get_all (translate_headers mode te m) name =
    match mode with
    | Some mode =>
        if decide (name = "te"%string) then [hv_from_static "trailers"]
        else if decide (name = "content-type"%string) then [gw_upstream_content_type mode]
        else if decide (name = "content-length"%string ∨ name = "x-grpc-web"%string) then []
        else hm_get_all m name
    | None =>
        if decide (name = "te"%string) then match te with Some v => [v] | None => [] end else hm_get_all m name
    end.
Proof.
  intros Hte. unfold translate_headers, hm_get.
  destruct mode as [mode|].
  - assert (Hg : hm_get_all (hm_remove "x-grpc-web" (hm_remove "content-length"
        (hm_insert "content-type" (gw_upstream_content_type mode) m))) "te" = []) by
      (by rewrite !get_remove, get_insert, !decide_False).
    rewrite Hg. cbn [head is_some]. rewrite get_insert, !get_remove, get_insert.
    repeat case_decide; subst; try done; exfalso; destruct_or?; try congruence; tauto.
  - rewrite Hte. cbn [head is_some]. rewrite get_insert_some.
    destruct te; repeat case_decide; subst; congruence.
Qed.

Lemma get_upgrade upgrade m name :
  hm_get_all (insert_upgrade upgrade m) name =
    match upgrade with
    | Some p => if decide (name = "upgrade"%string) then [p]
                else if decide (name = "connection"%string) then [hv_from_static "upgrade"] else hm_get_all m name
    | None => hm_get_all m name
    end.
Proof. destruct upgrade; [|done]. cbn. rewrite !get_insert. by repeat case_decide; subst. Qed.

Lemma te_gone headers b host proto for_ original :
  hm_get_all (insert_forwarding host proto for_ original (remove_hop_by_hop_headers headers b)) "te" = [].
Proof.
  rewrite get_forwarding, !decide_False by done. rewrite get_hop_by_hop, decide_True; [done|].
  right. right. left. split; [by repeat constructor|]. intros [_ [|]]; done.
Qed.

Lemma sanitize_inv headers authority host client proto preserve set_headers mode out :
  sanitize_request_headers headers authority host client proto preserve set_headers mode = Ok out →
  ∃ os host_value proto_value for_value,
    render_proxy_header_overrides headers authority host client proto set_headers = Ok os ∧
    (if preserve then match host with Some h => host_value = h | None => hv_from_str authority = Some host_value end
     else hv_from_str authority = Some host_value) ∧
    hv_from_str proto = Some proto_value ∧ hv_from_str (ca_forwarded_for client) = Some for_value ∧
    out = foldl apply_override
      (insert_upgrade (extract_upgrade_protocol headers)
         (translate_headers mode (preserved_te_trailers_value headers)
            (insert_forwarding host_value proto_value for_value host
               (remove_hop_by_hop_headers headers (is_some (extract_upgrade_protocol headers)))))) os.
Proof.
  unfold sanitize_request_headers, value_from_str.
  destruct (render_proxy_header_overrides _ _ _ _ _ _) as [os|]; [|done]. cbn [rbind].
  assert (∀ (r : result InvalidHeaderValue HeaderValue) k, rbind r k = Ok out → ∃ v, r = Ok v ∧ k v = Ok out) as Hb.
  { by intros [v|] k; [intros H; exists v|]. }
  intros H. apply Hb in H as (hv & Hh & H). apply Hb in H as (pv & Hp & H). apply Hb in H as (fv & Hf & H).
  injection H as <-. exists os, hv, pv, fv.
  destruct (hv_from_str proto); [|done]. destruct (hv_from_str (ca_forwarded_for client)); [|done].
  cbn in Hp, Hf. simplify_eq. split_and!; try done.
  destruct preserve; [destruct host; [by simplify_eq|]|]; destruct (hv_from_str authority); cbn in Hh; by simplify_eq.
Qed.

(** The values of a header before the overrides. *)
Definition values_before (headers : HeaderMap) (host : option HeaderValue) (mode : option GrpcWebMode)
    (hv pv fv : HeaderValue) (name : string) : list HeaderValue :=
  let upgrade := extract_upgrade_protocol headers in
  if decide (name = "upgrade"%string) then match upgrade with Some p => [p] | None => [] end
  else if decide (name = "connection"%string) then if is_some upgrade then [hv_from_static "upgrade"] else []
  else if decide (name = "te"%string) then
    match mode, preserved_te_trailers_value headers with
    | Some _, _ => [hv_from_static "trailers"]
    | None, Some v => [v]
    | None, None => []
    end
  else if decide (name = "x-forwarded-for"%string) then [fv]
  else if decide (name = "x-forwarded-proto"%string) then [pv]
  else if decide (name = "host"%string) then [hv]
  else
    match mode, decide (name = "content-type"%string), decide (name ∈ ["content-length"; "x-grpc-web"]%string) with
    | Some m, left _, _ => [gw_upstream_content_type m]
    | Some _, _, left _ => []
    | _, _, _ =>
        match host, decide (name = "x-forwarded-host"%string) with
        | Some v, left _ => [v]
        | _, _ =>
            if decide (name ∈ stripped_names ∨ name ∈ connection_names headers) then []
            else hm_get_all headers name
        end
    end.

Lemma hop_names name :
  name ∈ hop_by_hop ∨ name = "proxy-connection"%string ∨ name = "keep-alive"%string ↔
  name ∈ stripped_names ∨ name ∈ connection_state_names.
Proof.
  unfold hop_by_hop, stripped_names, connection_state_names. rewrite !elem_of_cons, elem_of_nil. tauto.
Qed.

Lemma get_hop_other headers preserve name :
  name ∉ connection_state_names →
  hm_get_all (remove_hop_by_hop_headers headers preserve) name =
    if decide (name ∈ stripped_names ∨ name ∈ connection_names headers) then [] else hm_get_all headers name.
Proof.
  intros Hn. rewrite get_hop_by_hop. pose proof (hop_names name) as Hh.
  assert (name ≠ "upgrade"%string ∧ name ≠ "connection"%string) as [H1 H2].
  { split; intros ->; apply Hn; unfold connection_state_names; rewrite !elem_of_cons; tauto. }
  do 2 case_decide; tauto.
Qed.

Lemma get_before headers host mode hv pv fv name :
  hm_get_all
    (insert_upgrade (extract_upgrade_protocol headers)
       (translate_headers mode (preserved_te_trailers_value headers)
          (insert_forwarding hv pv fv host
             (remove_hop_by_hop_headers headers (is_some (extract_upgrade_protocol headers)))))) name =
  values_before headers host mode hv pv fv name.
Proof.
  rewrite get_upgrade, get_translated by apply te_gone. unfold values_before. cbv zeta.
  destruct (decide (name = "upgrade"%string)) as [->|H1].
  { destruct (extract_upgrade_protocol headers) as [p|]; [done|]. cbn [is_some].
    rewrite get_forwarding, get_hop_by_hop. by destruct mode. }
  destruct (decide (name = "connection"%string)) as [->|H2].
  { destruct (extract_upgrade_protocol headers) as [p|]; [done|]. cbn [is_some].
    rewrite get_forwarding, get_hop_by_hop. by destruct mode. }
  assert (Hm : ∀ l : list HeaderValue, match extract_upgrade_protocol headers with Some _ => l | None => l end = l)
    by (by destruct (extract_upgrade_protocol headers)).
  rewrite Hm. clear Hm.
  destruct (decide (name = "te"%string)) as [->|H3]; [by destruct mode|].
  rewrite get_forwarding, get_hop_other.
  2:{ unfold connection_state_names. rewrite !elem_of_cons, elem_of_nil. tauto. }
  assert (Hg : name = "content-length"%string ∨ name = "x-grpc-web"%string ↔
               name ∈ ["content-length"; "x-grpc-web"]%string).
  { rewrite !elem_of_cons, elem_of_nil. tauto. }
  destruct (decide (name = "x-forwarded-for"%string)) as [->|H4]; [by destruct mode|].
  destruct (decide (name = "x-forwarded-proto"%string)) as [->|H5]; [by destruct mode|].
  destruct (decide (name = "host"%string)) as [->|H6]; [by destruct mode|].
  destruct mode; [destruct (decide (name = "content-type"%string)); [done|]|];
    destruct host; repeat case_decide; tauto || congruence.
Qed.

Lemma preserved_te_is_trailers headers v :
  preserved_te_trailers_value headers = Some v → v = hv_from_static "trailers".
Proof. unfold preserved_te_trailers_value. destruct (te_values _ _) as [[|]|]; cbn; by intros; simplify_eq. Qed.

Lemma te_before headers host mode hv pv fv :
  values_before headers host mode hv pv fv "te" =
    if is_some mode || is_some (preserved_te_trailers_value headers) then [hv_from_static "trailers"] else [].
Proof.
  unfold values_before. cbn. destruct mode; [done|]. destruct (preserved_te_trailers_value headers) as [v|] eqn:Hte; [|done].
  by apply preserved_te_is_trailers in Hte as ->.
Qed.

(** The headers that are the proxy's own, whatever the client sent. *)
Definition own_names (host : option HeaderValue) (mode : option GrpcWebMode) : list string :=
  ["host"; "x-forwarded-proto"; "x-forwarded-for"]%string ++ connection_state_names ++
  (if is_some host then ["x-forwarded-host"%string] else []) ++ (if is_some mode then grpc_web_names else []).

Lemma other_before headers host mode hv pv fv name :
  name ∉ own_names host mode →
  values_before headers host mode hv pv fv name =
    if decide (name ∈ stripped_names ∨ name ∈ connection_names headers) then [] else hm_get_all headers name.
Proof.
  unfold own_names, connection_state_names. rewrite !not_elem_of_app, !not_elem_of_cons. intros (Hf & Hs & Hh & Hg).
  unfold values_before. rewrite !(decide_False (P := name = _)) by tauto.
  assert (∀ v, host = Some v → name ≠ "x-forwarded-host"%string) as Hhost by (intros v -> ->; set_solver).
  destruct mode as [m|].
  - cbn in Hg. unfold grpc_web_names in Hg. rewrite !not_elem_of_cons in Hg.
    rewrite (decide_False (P := name = _)) by tauto. rewrite (decide_False (P := name ∈ ["content-length"; _])) by set_solver.
    destruct host as [v|]; [rewrite (decide_False (P := name = _)) by (by eapply Hhost)|]; by repeat case_decide.
  - destruct host as [v|]; [rewrite (decide_False (P := name = _)) by (by eapply Hhost)|]; by repeat case_decide.
Qed.
End Sanitized.

(** C18.  What reaches the upstream.  Unless a configured override sets or
    removes it (and then the last one decides), every header is one of these.
    [Host], [X-Forwarded-For] and [X-Forwarded-Proto] are the proxy's own,
    whatever the client sent; [X-Forwarded-Host] is the client's [Host] if it sent
    one.  [Connection] and [Upgrade] are there for an upgrade that the client
    asked for, [TE] says [trailers] if the client said that and nothing else, or
    spoke gRPC-Web, whose content type is replaced and whose length and marker
    are dropped.  Of all other headers the hop-by-hop ones and those that the
    client's [Connection] names are gone, and the rest is passed on unchanged.
    (That includes an [X-Forwarded-Host] of a client without [Host]:
    [forwarded_host_is_spoofed].) *)
Theorem request_headers_are_sanitized {HTTP : HttpApi} {Laws : HttpLaws HTTP}
    (headers : HeaderMap) (authority : string) (host : option HeaderValue) (client : ClientAddress)
    (proto : string) (preserve : bool) (set_headers : list (string * ProxyHeaderValue))
    (mode : option GrpcWebMode) (out : HeaderMap) :
  sanitize_request_headers headers authority host client proto preserve set_headers mode = Ok out →
  let context := mkProxyHeaderRenderContext headers host authority (ca_client_ip client)
                   (ca_peer_addr client) (ca_forwarded_for client) proto in
  let upgrade := extract_upgrade_protocol headers in
  let is_set name values := ¬ overridden context set_headers name → hm_get_all out name = values in
  let is_text name text := ¬ overridden context set_headers name → map hv_as_bytes (hm_get_all out name) = [text] in
  is_text "host"%string (if preserve then match host with Some h => hv_as_bytes h | None => authority end else authority) ∧
  is_text "x-forwarded-for"%string (ca_forwarded_for client) ∧
  is_text "x-forwarded-proto"%string proto ∧
  (∀ h, host = Some h → is_set "x-forwarded-host"%string [h]) ∧
  is_set "connection"%string (if is_some upgrade then [hv_from_static "upgrade"] else []) ∧
  is_set "upgrade"%string (match upgrade with Some p => [p] | None => [] end) ∧
  is_set "te"%string
    (if is_some mode || is_some (preserved_te_trailers_value headers) then [hv_from_static "trailers"] else []) ∧
  (∀ m, mode = Some m →
     is_set "content-type"%string [gw_upstream_content_type m] ∧ is_set "content-length"%string [] ∧ is_set "x-grpc-web"%string []) ∧
  (∀ name, name ∉ own_names host mode →
     is_set name (if decide (name ∈ stripped_names ∨ name ∈ connection_names headers) then [] else hm_get_all headers name)) ∧
  (∀ before name value after, set_headers = before ++ (name, value) :: after → ¬ overridden context after name →
     (removes_header value = true → hm_get_all out name = []) ∧
     (∀ v, removes_header value = false → render_proxy_header value context = Ok (Some v) →
        hm_get_all out name = [v])).
Proof.
  intros Hs context upgrade is_set is_text.
  destruct (sanitize_inv _ _ _ _ _ _ _ _ _ Hs) as (os & hv & pv & fv & Hos & Hhost & Hproto & Hfor & Hout).
  assert (Hval : ∀ name, is_set name (values_before headers host mode hv pv fv name)).
  { intros name Hn. rewrite <-get_before, Hout. apply overrides_untouched. intros Hin.
    by eapply Hn, render_overrides_names. }
  assert (Htext : ∀ name v text, values_before headers host mode hv pv fv name = [v] → hv_from_str text = Some v → is_text name text).
  { intros name v text Hv Ht Hn. rewrite (Hval name Hn), Hv. cbn. by rewrite (hv_from_str_bytes _ _ Ht). }
  split_and!.
  - destruct preserve; [destruct host as [h|]|]; [|by eapply Htext..]. intros Hn. rewrite (Hval _ Hn). by subst hv.
  - by eapply Htext.
  - by eapply Htext.
  - intros h -> Hn. rewrite (Hval _ Hn). unfold values_before. by destruct mode.
  - exact (Hval "connection"%string).
  - exact (Hval "upgrade"%string).
  - intros Hn. by rewrite (Hval _ Hn), te_before.
  - intros m ->. split_and!; [exact (Hval "content-type"%string)|exact (Hval "content-length"%string)|exact (Hval "x-grpc-web"%string)].
  - intros name Hin Hn. rewrite (Hval name Hn). by apply other_before.
  - intros before name value after -> Hlast.
    destruct (render_overrides_last _ _ _ _ _ _ Hos Hlast) as [H1 H2]. split.
    + intros Hr. destruct (H1 Hr) as (a & b & -> & Hb). rewrite Hout, foldl_app. cbn [foldl].
      rewrite overrides_untouched by done. cbn [apply_override]. by rewrite get_remove, decide_True.
    + intros v Hr Hv. destruct (H2 v Hr Hv) as (a & b & -> & Hb). rewrite Hout, foldl_app. cbn [foldl].
      rewrite overrides_untouched by done. cbn [apply_override]. by rewrite get_insert, decide_True.
Qed.

(** ** A concrete request *)

Definition sample_client : ClientAddress :=
  mkClientAddress (mkSocketAddr (V4 [192; 0; 2; 7]) 5000) (V4 [192; 0; 2; 7]) "192.0.2.7" SocketPeer.
Definition client_headers : @HeaderMap RefHttp.api :=
  [("host", "shop.test"); ("connection", "close, X-Secret"); ("x-secret", "1"); ("te", "gzip");
   ("transfer-encoding", "chunked"); ("x-forwarded-for", "6.6.6.6"); ("accept", "*/*"); ("x-drop", "1")]%string.
Definition proxied_headers : @HeaderMap RefHttp.api :=
  [("accept", "*/*"); ("host", "10.0.0.9:80"); ("x-forwarded-proto", "https"); ("x-forwarded-host", "shop.test");
   ("x-forwarded-for", "192.0.2.7")]%string.

Lemma sanitized_sample :
  sanitize_request_headers client_headers "10.0.0.9:80" (Some "shop.test"%string) sample_client "https" false
    [("x-drop"%string, PhRemove)] None = Ok proxied_headers.
Proof. by vm_compute. Qed.

Theorem request_headers_are_sanitized_witness :
  hm_get_all proxied_headers "transfer-encoding" = [] ∧ hm_get_all proxied_headers "x-secret" = [] ∧
  map hv_as_bytes (hm_get_all proxied_headers "x-forwarded-for") = ["192.0.2.7"%string] ∧
  hm_get_all proxied_headers "x-forwarded-host" = ["shop.test"%string].
Proof.
  destruct (@request_headers_are_sanitized RefHttp.api RefHttp.laws client_headers "10.0.0.9:80"
    (Some "shop.test"%string) sample_client "https" false [("x-drop"%string, PhRemove)] None proxied_headers
    sanitized_sample) as (_ & Hfor & _ & Hhost & _ & _ & _ & _ & Hother & _).
  split; [|split; [|split]].
  - rewrite Hother; [by vm_compute|apply (bool_decide_unpack _); by vm_compute|].
    intros (v & [[= ? _]|[]%elem_of_nil]%elem_of_cons & _).
  - rewrite Hother; [by vm_compute|apply (bool_decide_unpack _); by vm_compute|].
    intros (v & [[= ? _]|[]%elem_of_nil]%elem_of_cons & _).
  - apply Hfor. intros (v & [[= ? _]|[]%elem_of_nil]%elem_of_cons & _).
  - apply Hhost; [done|]. intros (v & [[= ? _]|[]%elem_of_nil]%elem_of_cons & _).
Defined.

(** A client that sends no [Host] (over HTTP/2 the authority is enough) chooses
    the [X-Forwarded-Host] that the upstream sees. *)
Example forwarded_host_is_spoofed :
  match sanitize_request_headers ([("x-forwarded-host", "admin.test")]%string : @HeaderMap RefHttp.api) "10.0.0.9:80" None sample_client "https" false [] None with
  | Ok out => hm_get_all out "x-forwarded-host" = ["admin.test"%string]
  | Err _ => False
  end.
Proof. by vm_compute. Qed.
