(* ===== verification/Health.v ===== *)
(** * Peer health and peer selection

    Models [crates/rginx-http/src/proxy/health/registry] ([mod.rs], [policy.rs],
    [state.rs], [guards.rs], [selection.rs], [snapshot.rs]).

    The health of a peer is an object shared ([Arc]) by the logical peer, its
    resolved endpoints and the guards of its requests: the maps hold object
    identifiers, the objects live in a store.  Every call to the notifier is
    recorded.  Instants and durations are in milliseconds. *)

From S2P Require Import Prelude RustStr External Upstream Resolver.

(** ** Records *)

(** Source: crates/rginx-http/src/proxy/health/registry/mod.rs:24-28 (PeerHealthPolicy) *)
Record PeerHealthPolicy : Type := mkHealthPolicy {
  hp_unhealthy_after_failures : Z;
  hp_cooldown : Z;
  hp_active_health_enabled : bool;
}.

(** Source: crates/rginx-http/src/proxy/health/registry/mod.rs:31-34 (PeerFailureStatus) *)
Record PeerFailureStatus : Type := mkFailureStatus {
  pf_consecutive_failures : Z;
  pf_entered_cooldown : bool;
}.

(** Source: crates/rginx-http/src/proxy/health/registry/mod.rs:37-41 (PassiveHealthState) *)
Record PassiveHealthState : Type := mkPassive {
  ps_consecutive_failures : Z;
  ps_unhealthy_until : option Z;
  ps_pending_recovery : bool;
}.

(** Source: crates/rginx-http/src/proxy/health/registry/mod.rs:44-47 (ActiveHealthState) *)
Record ActiveHealthState : Type := mkActive {
  as_unhealthy : bool;
  as_consecutive_successes : Z;
}.

(** Source: crates/rginx-http/src/proxy/health/registry/mod.rs:50-54 (PeerHealthState) *)
Record PeerHealthState : Type := mkHealth {
  hs_passive : PassiveHealthState;
  hs_active : ActiveHealthState;
  hs_active_requests : Z;
}.

Definition passive_default : PassiveHealthState := mkPassive 0 None false.
Definition active_default : ActiveHealthState := mkActive false 0.
Definition health_default : PeerHealthState := mkHealth passive_default active_default 0.

#[export] Instance PeerHealthState_inhabited : Inhabited PeerHealthState :=
  populate health_default.

(** Source: crates/rginx-http/src/proxy/health/registry/mod.rs:57-61 (ActiveProbeStatus) *)
Record ActiveProbeStatus : Type := mkProbeStatus {
  ap_healthy : bool;
  ap_recovered : bool;
  ap_consecutive_successes : Z;
}.

(** Source: crates/rginx-http/src/proxy/health/registry/policy.rs:4-10 (PeerHealthPolicy::from_upstream) *)
Definition policy_from_upstream (u : Upstream) : PeerHealthPolicy :=
  mkHealthPolicy (up_unhealthy_after_failures u) (up_unhealthy_cooldown u)
    match up_active_health_check u with Some _ => true | None => false end.

(** ** One health object *)

(** [unhealthy_until.is_none_or(|until| until <= now)]. *)
Definition passive_available (s : PeerHealthState) (now : Z) : bool :=
  match ps_unhealthy_until (hs_passive s) with Some until => until <=? now | None => true end.

(** Source: crates/rginx-http/src/proxy/health/registry/state.rs:186-191 (PeerHealth::is_available) *)
Definition health_is_available (s : PeerHealthState) (now : Z) : bool :=
  passive_available s now && negb (as_unhealthy (hs_active s)).

(** Source: crates/rginx-http/src/proxy/health/registry/state.rs:193-198 (PeerHealth::record_success) *)
Definition health_record_success (s : PeerHealthState) : bool * PeerHealthState :=
  (ps_pending_recovery (hs_passive s),
   mkHealth passive_default (hs_active s) (hs_active_requests s)).

(** The counter is 32 bits wide and wraps in a release build. *)
(** Source: crates/rginx-http/src/proxy/health/registry/state.rs:200-224 (PeerHealth::record_failure) *)
Definition health_record_failure (policy : PeerHealthPolicy) (now : Z) (s : PeerHealthState)
    : PeerFailureStatus * PeerHealthState :=
  let p := hs_passive s in
  let p :=
    match ps_unhealthy_until p with
    | Some until => if until <=? now then mkPassive 0 None (ps_pending_recovery p) else p
    | None => p
    end in
  let already_in_cooldown :=
    match ps_unhealthy_until p with Some until => now <? until | None => false end in
  let consecutive_failures := wrap32 (ps_consecutive_failures p + 1) in
  let entered_cooldown :=
    negb already_in_cooldown && (hp_unhealthy_after_failures policy <=? consecutive_failures) in
  let p :=
    if entered_cooldown then mkPassive consecutive_failures (Some (now + hp_cooldown policy)) true
    else if already_in_cooldown
    then mkPassive consecutive_failures (Some (now + hp_cooldown policy)) (ps_pending_recovery p)
    else mkPassive consecutive_failures (ps_unhealthy_until p) (ps_pending_recovery p) in
  (mkFailureStatus consecutive_failures entered_cooldown,
   mkHealth p (hs_active s) (hs_active_requests s)).

(** Source: crates/rginx-http/src/proxy/health/registry/state.rs:226-240 (PeerHealth::record_active_success) *)
Definition health_record_active_success (healthy_successes_required : Z) (s : PeerHealthState)
    : ActiveProbeStatus * PeerHealthState :=
  if negb (as_unhealthy (hs_active s)) then (mkProbeStatus true false 0, s)
  else
    let consecutive_successes := wrap32 (as_consecutive_successes (hs_active s) + 1) in
    let recovered := healthy_successes_required <=? consecutive_successes in
    let active := if recovered then active_default else mkActive true consecutive_successes in
    (mkProbeStatus recovered recovered consecutive_successes,
     mkHealth (hs_passive s) active (hs_active_requests s)).

(** Source: crates/rginx-http/src/proxy/health/registry/state.rs:242-248 (PeerHealth::record_active_failure) *)
Definition health_record_active_failure (s : PeerHealthState) : bool * PeerHealthState :=
  (negb (as_unhealthy (hs_active s)),
   mkHealth (hs_passive s) (mkActive true 0) (hs_active_requests s)).

(** Source: crates/rginx-http/src/proxy/health/registry/state.rs:250-255 (PeerHealth::increment_active_requests) *)
Definition increment_active_requests (s : PeerHealthState) : bool * PeerHealthState :=
  (hs_active_requests s =? 0,
   mkHealth (hs_passive s) (hs_active s) (wrap64 (hs_active_requests s + 1))).

(** Source: crates/rginx-http/src/proxy/health/registry/state.rs:257-262 (PeerHealth::decrement_active_requests) *)
Definition decrement_active_requests (s : PeerHealthState) : bool * PeerHealthState :=
  let remaining := sat_sub (hs_active_requests s) 1 in
  ((0 <? hs_active_requests s) && (remaining =? 0),
   mkHealth (hs_passive s) (hs_active s) remaining).

(** ** The registry *)

Notation PeerHealthMap := (gmap string N).

(** Source: crates/rginx-http/src/proxy/health/registry/mod.rs:115-120 (PeerHealthRegistry) *)
Record PeerHealthRegistry : Type := mkRegistry {
  reg_policies : gmap string PeerHealthPolicy;
  reg_peers : gmap string PeerHealthMap;
  reg_endpoint_peers : gmap string PeerHealthMap;
  reg_notifier : bool;
  reg_health : gmap N PeerHealthState;
  reg_next : N;
  reg_notified : list string;
}.

Definition with_health (f : gmap N PeerHealthState → gmap N PeerHealthState)
    (r : PeerHealthRegistry) : PeerHealthRegistry :=
  mkRegistry (reg_policies r) (reg_peers r) (reg_endpoint_peers r) (reg_notifier r)
    (f (reg_health r)) (reg_next r) (reg_notified r).

(** Source: crates/rginx-http/src/proxy/health/registry/state.rs:178-182 (PeerHealthRegistry::notify_change) *)
Definition notify_change (upstream_name : string) (r : PeerHealthRegistry) : PeerHealthRegistry :=
  if reg_notifier r
  then mkRegistry (reg_policies r) (reg_peers r) (reg_endpoint_peers r) (reg_notifier r)
         (reg_health r) (reg_next r) (reg_notified r ++ [upstream_name])
  else r.

(** The peers of one upstream: one new object per peer, the last peer with a URL
    owns it. *)
Definition allocate_peers (peers : list UpstreamPeer) (health : gmap N PeerHealthState) (next : N)
    : PeerHealthMap * gmap N PeerHealthState * N :=
  foldl (λ '(m, health, next) peer,
           (<[peer_url peer := next]> m, <[next := health_default]> health, N.succ next))
    (∅, health, next) peers.

(** Source: crates/rginx-http/src/proxy/health/registry/state.rs:10-45 (PeerHealthRegistry::from_config_with_notifier) *)
Definition from_config_with_notifier (upstreams : gmap string Upstream) (notifier : bool)
    : PeerHealthRegistry :=
  let '(peers, health, next) :=
    foldl (λ '(peers, health, next) '(upstream_name, upstream),
             let '(m, health, next) := allocate_peers (up_peers upstream) health next in
             (<[upstream_name := m]> peers, health, next))
      (∅, ∅, 0%N) (map_to_list upstreams) in
  mkRegistry (policy_from_upstream <$> upstreams) peers ((λ _, ∅) <$> upstreams) notifier
    health next [].

(** Source: crates/rginx-http/src/proxy/health/registry/state.rs:135-144 (PeerHealthRegistry::get_logical_peer) *)
Definition get_logical_peer (r : PeerHealthRegistry) (upstream_name peer_url : string) : option N :=
  reg_peers r !! upstream_name ≫= λ upstream_peers, upstream_peers !! peer_url.

(** Source: crates/rginx-http/src/proxy/health/registry/state.rs:146-157 (PeerHealthRegistry::get_endpoint) *)
Definition get_endpoint (r : PeerHealthRegistry) (upstream_name peer_url : string) : option N :=
  reg_endpoint_peers r !! upstream_name ≫= λ upstream_peers, upstream_peers !! peer_url.

(** Source: crates/rginx-http/src/proxy/health/registry/state.rs:126-133 (PeerHealthRegistry::get_health) *)
Definition get_health (r : PeerHealthRegistry) (upstream_name peer_url : string) : option N :=
  match get_endpoint r upstream_name peer_url with
  | Some id => Some id
  | None => get_logical_peer r upstream_name peer_url
  end.

(** Source: crates/rginx-http/src/proxy/health/registry/state.rs:159-176 (PeerHealthRegistry::ensure_endpoint) *)
Definition ensure_endpoint (upstream_name endpoint_key logical_peer_url : string)
    (r : PeerHealthRegistry) : N * PeerHealthRegistry :=
  let upstream_endpoints := default ∅ (reg_endpoint_peers r !! upstream_name) in
  let endpoints id :=
    <[upstream_name := <[endpoint_key := id]> upstream_endpoints]> (reg_endpoint_peers r) in
  match upstream_endpoints !! endpoint_key with
  | Some id =>
      (id, mkRegistry (reg_policies r) (reg_peers r) (endpoints id) (reg_notifier r)
             (reg_health r) (reg_next r) (reg_notified r))
  | None =>
      match get_logical_peer r upstream_name logical_peer_url with
      | Some id =>
          (id, mkRegistry (reg_policies r) (reg_peers r) (endpoints id) (reg_notifier r)
                 (reg_health r) (reg_next r) (reg_notified r))
      | None =>
          let id := reg_next r in
          (id, mkRegistry (reg_policies r) (reg_peers r) (endpoints id) (reg_notifier r)
                 (<[id := health_default]> (reg_health r)) (N.succ id) (reg_notified r))
      end
  end.

(** Apply an operation to the object of a peer and notify. *)
Definition on_health {A} (upstream_name : string) (id : N)
    (f : PeerHealthState → A * PeerHealthState) (r : PeerHealthRegistry) : A * PeerHealthRegistry :=
  let '(a, s) := f (reg_health r !!! id) in
  (a, notify_change upstream_name (with_health <[id := s]> r)).

(** Source: crates/rginx-http/src/proxy/health/registry/state.rs:47-55 (PeerHealthRegistry::record_success) *)
Definition record_success (upstream_name peer_url : string) (r : PeerHealthRegistry)
    : bool * PeerHealthRegistry :=
  match get_health r upstream_name peer_url with
  | Some id => on_health upstream_name id health_record_success r
  | None => (false, r)
  end.

(** Source: crates/rginx-http/src/proxy/health/registry/state.rs:57-69 (PeerHealthRegistry::record_failure) *)
Definition record_failure (upstream_name peer_url : string) (now : Z) (r : PeerHealthRegistry)
    : PeerFailureStatus * PeerHealthRegistry :=
  match reg_policies r !! upstream_name with
  | None => (mkFailureStatus 0 false, r)
  | Some policy =>
      match get_health r upstream_name peer_url with
      | Some id => on_health upstream_name id (health_record_failure policy now) r
      | None => (mkFailureStatus 0 false, r)
      end
  end.

(** Source: crates/rginx-http/src/proxy/health/registry/state.rs:71-73 (PeerHealthRegistry::is_available) *)
Definition is_available (r : PeerHealthRegistry) (upstream_name peer_url : string) (now : Z) : bool :=
  match get_health r upstream_name peer_url with
  | Some id => health_is_available (reg_health r !!! id) now
  | None => true
  end.

(** Source: crates/rginx-http/src/proxy/health/registry/state.rs:75-92 (PeerHealthRegistry::record_active_success) *)
Definition record_active_success (upstream_name peer_url : string)
    (healthy_successes_required : Z) (r : PeerHealthRegistry)
    : ActiveProbeStatus * PeerHealthRegistry :=
  match get_health r upstream_name peer_url with
  | Some id => on_health upstream_name id (health_record_active_success healthy_successes_required) r
  | None => (mkProbeStatus true false 0, r)
  end.

(** Source: crates/rginx-http/src/proxy/health/registry/state.rs:94-100 (PeerHealthRegistry::record_active_failure) *)
Definition record_active_failure (upstream_name peer_url : string) (r : PeerHealthRegistry)
    : bool * PeerHealthRegistry :=
  match get_health r upstream_name peer_url with
  | Some id => on_health upstream_name id health_record_active_failure r
  | None => (false, r)
  end.

(** Source: crates/rginx-http/src/proxy/health/registry/state.rs:122-124 (PeerHealthRegistry::active_requests) *)
Definition active_requests (r : PeerHealthRegistry) (upstream_name peer_url : string) : Z :=
  match get_health r upstream_name peer_url with
  | Some id => hs_active_requests (reg_health r !!! id)
  | None => 0
  end.

(** ** Guards of running requests *)

(** Source: crates/rginx-http/src/proxy/health/registry/guards.rs:10-14 (ActivePeerGuard) *)
Record ActivePeerGuard : Type := mkPeerGuard {
  ag_peer : option N;
  ag_notifier : bool;
  ag_upstream_name : string;
}.

(** Source: crates/rginx-http/src/proxy/health/registry/state.rs:102-120 (PeerHealthRegistry::track_active_request) *)
Definition track_active_request (upstream_name peer_url : string) (r : PeerHealthRegistry)
    : ActivePeerGuard * PeerHealthRegistry :=
  let peer := get_health r upstream_name peer_url in
  let guard := mkPeerGuard peer (reg_notifier r) upstream_name in
  match peer with
  | None => (guard, r)
  | Some id =>
      let '(transitioned_from_idle, s) := increment_active_requests (reg_health r !!! id) in
      let r := with_health <[id := s]> r in
      (guard, if transitioned_from_idle then notify_change upstream_name r else r)
  end.

(** The guard's notifier is the registry's. *)
(** Source: crates/rginx-http/src/proxy/health/registry/guards.rs:17-24 (ActivePeerGuard::drop) *)
Definition drop_peer_guard (g : ActivePeerGuard) (r : PeerHealthRegistry) : PeerHealthRegistry :=
  match ag_peer g with
  | None => r
  | Some id =>
      let '(transitioned_to_idle, s) := decrement_active_requests (reg_health r !!! id) in
      let r := with_health <[id := s]> r in
      if transitioned_to_idle && ag_notifier g then notify_change (ag_upstream_name g) r else r
  end.

(** ** Selection *)

(** Source: crates/rginx-http/src/proxy/health/registry/mod.rs:122-125 (SelectedPeers) *)
Record SelectedPeers : Type := mkSelected {
  sel_peers : list ResolvedUpstreamPeer;
  sel_skipped_unhealthy : Z;
}.

(** Source: crates/rginx-http/src/proxy/health/registry/selection.rs:210-221 (PeerHealthRegistry::endpoint_is_selectable) *)
Definition endpoint_is_selectable (r : PeerHealthRegistry) (upstream_name : string)
    (endpoint : ResolvedUpstreamPeer) (active_requests : Z) (now : Z) : bool :=
  if negb (is_available r upstream_name (res_endpoint_key endpoint) now) then false
  else match res_max_conns endpoint with
       | Some max_conns => active_requests <? max_conns
       | None => true
       end.

(** Source: crates/rginx-http/src/proxy/health/registry/selection.rs:224-228 (merge_selected_peers) *)
Definition merge_selected_peers (primary secondary : SelectedPeers) : SelectedPeers :=
  mkSelected (sel_peers primary ++ sel_peers secondary)
    (sel_skipped_unhealthy primary + sel_skipped_unhealthy secondary).

(** Source: crates/rginx-http/src/proxy/health/registry/selection.rs:230-240 (projected_least_conn_load) *)
Definition projected_least_conn_load (left_active_requests left_weight right_active_requests
    right_weight : Z) : comparison :=
  let left_load := sat_add64 left_active_requests 1 * Z.max right_weight 1 in
  let right_load := sat_add64 right_active_requests 1 * Z.max left_weight 1 in
  left_load ?= right_load.

(** Make sure of the endpoint, then accept it (with its active requests and the
    order of its peer) or count it as skipped. *)
Definition consider_endpoint (upstream_name : string) (now : Z) (order : nat)
    (acc : list (Z * nat * ResolvedUpstreamPeer) * Z * PeerHealthRegistry)
    (endpoint : ResolvedUpstreamPeer)
    : list (Z * nat * ResolvedUpstreamPeer) * Z * PeerHealthRegistry :=
  let '(available, skipped, r) := acc in
  let r := (ensure_endpoint upstream_name (res_endpoint_key endpoint)
              (res_logical_peer_url endpoint) r).2 in
  let active := active_requests r upstream_name (res_logical_peer_url endpoint) in
  if endpoint_is_selectable r upstream_name endpoint active now
  then (available ++ [(active, order, endpoint)], skipped, r)
  else (available, skipped + 1, r).

Definition least_conn_cmp (a b : Z * nat * ResolvedUpstreamPeer) : comparison :=
  let '(active_a, order_a, ep_a) := a in
  let '(active_b, order_b, ep_b) := b in
  then_cmp (projected_least_conn_load active_a (res_weight ep_a) active_b (res_weight ep_b))
    (then_cmp (res_weight ep_b ?= res_weight ep_a)
       (then_cmp (Nat.compare order_a order_b)
          (str_cmp (res_dial_authority ep_a) (res_dial_authority ep_b)))).

Section Select.
(** What resolving a peer gives, [[]] when it fails; the instant of the
    selection. *)
Context (resolve : UpstreamPeer → list ResolvedUpstreamPeer) (now : Z).

(** Source: crates/rginx-http/src/proxy/health/registry/selection.rs:92-136 (PeerHealthRegistry::select_peers_by_least_conn_in_pool) *)
Definition select_peers_by_least_conn_in_pool (u : Upstream) (limit : nat) (backup : bool)
    (r : PeerHealthRegistry) : SelectedPeers * PeerHealthRegistry :=
  let '(available, skipped, r) :=
    foldl (λ acc '(order, peer),
             if Bool.eqb (peer_backup peer) backup
             then foldl (consider_endpoint (up_name u) now order) acc (resolve peer)
             else acc)
      ([], 0, r) (enumerate (up_peers u)) in
  let available := sort_by least_conn_cmp available in
  (mkSelected (map snd (take limit available)) skipped, r).

(** One peer of the ordered list: all its endpoints are made sure of, sorted by
    load, and the selectable ones are its batch. *)
Definition peer_batch (upstream_name : string)
    (acc : list (list ResolvedUpstreamPeer) * Z * PeerHealthRegistry) (peer : UpstreamPeer)
    : list (list ResolvedUpstreamPeer) * Z * PeerHealthRegistry :=
  let '(batches, skipped, r) := acc in
  let endpoints := resolve peer in
  let r := foldl (λ r endpoint, (ensure_endpoint upstream_name (res_endpoint_key endpoint)
                                   (res_logical_peer_url endpoint) r).2) r endpoints in
  let endpoints :=
    sort_by (λ a b, then_cmp
               (active_requests r upstream_name (res_logical_peer_url a) ?=
                active_requests r upstream_name (res_logical_peer_url b))
               (str_cmp (res_dial_authority a) (res_dial_authority b))) endpoints in
  let '(available, skipped, r) :=
    foldl (consider_endpoint upstream_name now 0) ([], skipped, r) endpoints in
  match available with
  | [] => (batches, skipped, r)
  | _ => (batches ++ [map snd available], skipped, r)
  end.

(** One round at [depth] over the batches: the selection, whether anything was
    added; it stops when the limit is reached. *)
Fixpoint select_round (limit depth : nat) (batches : list (list ResolvedUpstreamPeer))
    (selected : list ResolvedUpstreamPeer) (advanced : bool)
    : list ResolvedUpstreamPeer * bool :=
  match batches with
  | [] => (selected, advanced)
  | batch :: batches =>
      match batch !! depth with
      | Some endpoint =>
          let selected := selected ++ [endpoint] in
          if (length selected =? limit)%nat then (selected, true)
          else select_round limit depth batches selected true
      | None => select_round limit depth batches selected advanced
      end
  end.

(** [while selected.len() < limit]; every round but the last adds an endpoint,
    so [S limit] rounds are enough. *)
Fixpoint select_rounds (fuel limit depth : nat) (batches : list (list ResolvedUpstreamPeer))
    (selected : list ResolvedUpstreamPeer) : option (list ResolvedUpstreamPeer) :=
  if (length selected <? limit)%nat then
    match fuel with
    | O => None
    | S fuel =>
        let '(selected, advanced) := select_round limit depth batches selected false in
        if advanced then select_rounds fuel limit (S depth) batches selected else Some selected
    end
  else Some selected.

(** Source: crates/rginx-http/src/proxy/health/registry/selection.rs:138-208 (PeerHealthRegistry::select_available_peers) *)
Definition select_available_peers (upstream_name : string) (ordered : list UpstreamPeer)
    (limit : nat) (r : PeerHealthRegistry) : option SelectedPeers * PeerHealthRegistry :=
  if (limit =? 0)%nat then (Some (mkSelected [] 0), r)
  else
    let '(batches, skipped, r) := foldl (peer_batch upstream_name) ([], 0, r) ordered in
    ((λ selected, mkSelected selected skipped) <$> select_rounds (S limit) limit 0 batches [], r).

(** The pool's peers in the order of the load-balancing policy; the round-robin
    cursor advances. *)
(** Source: crates/rginx-http/src/proxy/health/registry/selection.rs:75-90 (PeerHealthRegistry::select_peers_in_pool) *)
Definition select_peers_in_pool (u : Upstream) (client_ip : IpAddr) (limit : nat) (backup : bool)
    (r : PeerHealthRegistry) : option SelectedPeers * Upstream * PeerHealthRegistry :=
  let '(ordered, u) :=
    if backup then backup_peers_for_client_ip u client_ip (length (up_peers u))
    else primary_peers_for_client_ip u client_ip (length (up_peers u)) in
  let '(selected, r) := select_available_peers (up_name u) ordered limit r in
  (selected, u, r).

(** Primaries first, then backups for what is missing. *)
(** Source: crates/rginx-http/src/proxy/health/registry/selection.rs:42-73 (PeerHealthRegistry::select_peers_by_least_conn) *)
Definition select_peers_by_least_conn (u : Upstream) (limit : nat) (r : PeerHealthRegistry)
    : SelectedPeers * PeerHealthRegistry :=
  if (limit =? 0)%nat then (mkSelected [] 0, r)
  else if negb (has_primary_peers u) then select_peers_by_least_conn_in_pool u limit true r
  else
    let '(primary, r) := select_peers_by_least_conn_in_pool u limit false r in
    if (length (sel_peers primary) =? 0)%nat then
      let '(secondary, r) := select_peers_by_least_conn_in_pool u limit true r in
      (merge_selected_peers primary secondary, r)
    else if (length (sel_peers primary) =? limit)%nat then (primary, r)
    else
      let '(secondary, r) :=
        select_peers_by_least_conn_in_pool u (limit - length (sel_peers primary)) true r in
      (merge_selected_peers primary secondary, r).

(** Source: crates/rginx-http/src/proxy/health/registry/selection.rs:4-40 (PeerHealthRegistry::select_peers) *)
Definition select_peers (u : Upstream) (client_ip : IpAddr) (limit : nat) (r : PeerHealthRegistry)
    : option SelectedPeers * Upstream * PeerHealthRegistry :=
  if bool_decide (up_load_balance u = LeastConn) then
    let '(selected, r) := select_peers_by_least_conn u limit r in (Some selected, u, r)
  else if negb (has_primary_peers u) then select_peers_in_pool u client_ip limit true r
  else
    let '(primary, u, r) := select_peers_in_pool u client_ip limit false r in
    if (limit =? 0)%nat then (Some (mkSelected [] 0), u, r)
    else
      match primary with
      | None => (None, u, r)
      | Some primary =>
          if (length (sel_peers primary) =? limit)%nat then (Some primary, u, r)
          else
            let remaining :=
              if (length (sel_peers primary) =? 0)%nat then limit
              else (limit - length (sel_peers primary))%nat in
            let '(secondary, u, r) := select_peers_in_pool u client_ip remaining true r in
            (merge_selected_peers primary <$> secondary, u, r)
      end.
End Select.

(** ** Snapshots *)

(** Source: crates/rginx-http/src/proxy/health/registry/mod.rs:72-83 (PeerHealthSnapshot) *)
Record PeerHealthSnapshot : Type := mkPeerSnapshot {
  sn_peer_url : string;
  sn_backup : bool;
  sn_weight : Z;
  sn_available : bool;
  sn_passive_consecutive_failures : Z;
  sn_passive_cooldown_remaining_ms : option Z;
  sn_passive_pending_recovery : bool;
  sn_active_unhealthy : bool;
  sn_active_consecutive_successes : Z;
  sn_active_requests : Z;
}.

(** The snapshot of an endpoint is that of a peer with the endpoint's identity. *)
(** Source: crates/rginx-http/src/proxy/health/registry/mod.rs:86-101 (ResolvedEndpointHealthSnapshot) *)
Record ResolvedEndpointHealthSnapshot : Type := mkEndpointSnapshot {
  es_endpoint_key : string;
  es_logical_peer_url : string;
  es_display_url : string;
  es_dial_addr : string;
  es_server_name : string;
  es_backup : bool;
  es_weight : Z;
  es_available : bool;
  es_passive_consecutive_failures : Z;
  es_passive_cooldown_remaining_ms : option Z;
  es_passive_pending_recovery : bool;
  es_active_unhealthy : bool;
  es_active_consecutive_successes : Z;
  es_active_requests : Z;
}.

(** Source: crates/rginx-http/src/proxy/health/registry/mod.rs:104-112 (UpstreamHealthSnapshot) *)
Record UpstreamHealthSnapshot : Type := mkUpstreamSnapshot {
  us_upstream_name : string;
  us_unhealthy_after_failures : Z;
  us_cooldown_ms : Z;
  us_active_health_enabled : bool;
  us_peers : list PeerHealthSnapshot;
  us_endpoints : list ResolvedEndpointHealthSnapshot;
}.

(** Source: crates/rginx-http/src/proxy/health/registry/snapshot.rs:61-83 (PeerHealth::snapshot) *)
Definition health_snapshot (s : PeerHealthState) (now : Z) (peer : UpstreamPeer)
    : PeerHealthSnapshot :=
  mkPeerSnapshot (peer_url peer) (peer_backup peer) (peer_weight peer) (health_is_available s now)
    (ps_consecutive_failures (hs_passive s))
    (ps_unhealthy_until (hs_passive s) ≫= λ until, remaining_ms until now)
    (ps_pending_recovery (hs_passive s)) (as_unhealthy (hs_active s))
    (as_consecutive_successes (hs_active s)) (hs_active_requests s).

(** Source: crates/rginx-http/src/proxy/health/registry/snapshot.rs:85-111 (PeerHealth::snapshot_endpoint) *)
Definition snapshot_endpoint (s : PeerHealthState) (now : Z) (e : ResolvedUpstreamPeer)
    : ResolvedEndpointHealthSnapshot :=
  mkEndpointSnapshot (res_endpoint_key e) (res_logical_peer_url e) (res_display_url e)
    (socket_to_string (res_socket_addr e)) (res_server_name e) (res_backup e) (res_weight e)
    (health_is_available s now) (ps_consecutive_failures (hs_passive s))
    (ps_unhealthy_until (hs_passive s) ≫= λ until, remaining_ms until now)
    (ps_pending_recovery (hs_passive s)) (as_unhealthy (hs_active s))
    (as_consecutive_successes (hs_active s)) (hs_active_requests s).

(** Source: crates/rginx-http/src/proxy/health/registry/snapshot.rs:114-127 (default_peer_snapshot) *)
Definition default_peer_snapshot (peer : UpstreamPeer) (available : bool) : PeerHealthSnapshot :=
  mkPeerSnapshot (peer_url peer) (peer_backup peer) (peer_weight peer) available 0 None false
    false 0 0.

(** Source: crates/rginx-http/src/proxy/health/registry/snapshot.rs:129-146 (default_endpoint_snapshot) *)
Definition default_endpoint_snapshot (e : ResolvedUpstreamPeer) : ResolvedEndpointHealthSnapshot :=
  mkEndpointSnapshot (res_endpoint_key e) (res_logical_peer_url e) (res_display_url e)
    (socket_to_string (res_socket_addr e)) (res_server_name e) (res_backup e) (res_weight e)
    true 0 None false false 0 0.

(** [iter().max()] of unsigned numbers. *)
Definition list_max (l : list Z) : option Z :=
  match l with [] => None | x :: l => Some (foldl Z.max x l) end.

(** [sum()] of 64-bit counters wraps in a release build. *)
(** Source: crates/rginx-http/src/proxy/health/registry/snapshot.rs:148-176 (aggregate_peer_snapshot) *)
Definition aggregate_peer_snapshot (peer : UpstreamPeer)
    (endpoints : list ResolvedEndpointHealthSnapshot) : PeerHealthSnapshot :=
  mkPeerSnapshot (peer_url peer) (peer_backup peer) (peer_weight peer)
    (existsb es_available endpoints)
    (default 0 (list_max (map es_passive_consecutive_failures endpoints)))
    (list_max (omap es_passive_cooldown_remaining_ms endpoints))
    (existsb es_passive_pending_recovery endpoints)
    (forallb es_active_unhealthy endpoints)
    (default 0 (list_max (map es_active_consecutive_successes endpoints)))
    (wrap64 (zsum (map es_active_requests endpoints))).

(** Source: crates/rginx-http/src/proxy/health/registry/snapshot.rs:178-184 (peer_is_hostname) *)
Definition peer_is_hostname `{UriApi} (peer : UpstreamPeer) : bool :=
  match uri_parse (peer_url peer) ≫= uri_host with
  | Some host => match ip_from_str host with Some _ => false | None => true end
  | None => false
  end.

(** The resolver's own snapshot is [Resolver.snapshot_entries]. *)
(** Source: crates/rginx-http/src/proxy/health/registry/snapshot.rs:6-57 (PeerHealthRegistry::snapshot_for_upstream) *)
Definition snapshot_for_upstream `{UriApi} (u : Upstream) (endpoints : list ResolvedUpstreamPeer)
    (now : Z) (r : PeerHealthRegistry) : UpstreamHealthSnapshot :=
  let policy := default (policy_from_upstream u) (reg_policies r !! up_name u) in
  let endpoint_snapshots :=
    map (λ endpoint,
           match get_health r (up_name u) (res_endpoint_key endpoint) with
           | Some id => snapshot_endpoint (reg_health r !!! id) now endpoint
           | None => default_endpoint_snapshot endpoint
           end) endpoints in
  let peer_snapshots :=
    map (λ peer,
           let peer_endpoints :=
             filter (λ e, es_logical_peer_url e = peer_url peer) endpoint_snapshots in
           match peer_endpoints with
           | _ :: _ => aggregate_peer_snapshot peer peer_endpoints
           | [] =>
               match get_logical_peer r (up_name u) (peer_url peer) with
               | Some id => health_snapshot (reg_health r !!! id) now peer
               | None => default_peer_snapshot peer (negb (peer_is_hostname peer))
               end
           end) (up_peers u) in
  mkUpstreamSnapshot (up_name u) (hp_unhealthy_after_failures policy)
    (Z.min (hp_cooldown policy) u64_max) (hp_active_health_enabled policy) peer_snapshots
    endpoint_snapshots.
