(* ===== verification/HealthSafety.v ===== *)
(** * When a peer is taken out, and how its requests are counted

    Theorems about [Health.v]: the passive cooldown and the active probe as
    functions of the history of a peer, and the request counters of the
    registry. *)

From S2P Require Import Prelude RustStr External Upstream Resolver Health.

(** ** The passive cooldown *)

(** The outcomes of the requests to one peer, the newest first. *)
Inductive PassiveEvent : Type := EvSuccess | EvFailure (at_ms : Z).

Section Passive.
Context (policy : PeerHealthPolicy).

Definition passive_step (e : PassiveEvent) (s : PeerHealthState) : PeerHealthState :=
  match e with
  | EvSuccess => (health_record_success s).2
  | EvFailure at_ms => (health_record_failure policy at_ms s).2
  end.

Definition passive_run (hist : list PassiveEvent) : PeerHealthState :=
  foldr passive_step health_default hist.

(** The times of the failures since the last success. *)
Fixpoint trailing (hist : list PassiveEvent) : list Z :=
  match hist with
  | EvFailure t :: hist => t :: trailing hist
  | _ => []
  end.

(** The clock does not go back. *)
Fixpoint timed (now : Z) (hist : list PassiveEvent) : Prop :=
  match hist with
  | [] => True
  | EvSuccess :: hist => timed now hist
  | EvFailure t :: hist => t ≤ now ∧ timed t hist
  end.

(** A cooldown was entered since the last success. *)
Fixpoint entered_since (hist : list PassiveEvent) : bool :=
  match hist with
  | EvFailure t :: hist =>
      pf_entered_cooldown (health_record_failure policy t (passive_run hist)).1 || entered_since hist
  | _ => false
  end.

(** [tr]: the failures since the last success, the last epoch of which (the
    ones after a cooldown ran out) is counted; [b]: a cooldown was entered. *)
Record passive_ok (tr : list Z) (b : bool) (s : PeerHealthState) (epoch rest : list Z) : Prop := {
  po_split : tr = epoch ++ rest;
  po_count : ps_consecutive_failures (hs_passive s) = Z.of_nat (length epoch);
  po_gap t t' : last epoch = Some t → head rest = Some t' → t' + hp_cooldown policy ≤ t;
  po_none : ps_unhealthy_until (hs_passive s) = None →
    Z.of_nat (length epoch) < hp_unhealthy_after_failures policy ∧ (epoch = [] → rest = []);
  po_some until : ps_unhealthy_until (hs_passive s) = Some until →
    hp_unhealthy_after_failures policy ≤ Z.of_nat (length epoch) ∧
    head epoch = Some (until - hp_cooldown policy);
  po_pending : ps_pending_recovery (hs_passive s) = b;
}.

Context (Hthreshold : 1 ≤ hp_unhealthy_after_failures policy < 2 ^ 32).
Context (Hcooldown : 0 < hp_cooldown policy).

(** A failure during a cooldown extends it; any other is counted, from zero when
    a cooldown has run out. *)
Definition in_cooldown (s : PeerHealthState) (now : Z) : bool := negb (passive_available s now).

Lemma record_failure_shape now s :
  let c := match ps_unhealthy_until (hs_passive s) with
           | Some until => if until <=? now then 0 else ps_consecutive_failures (hs_passive s)
           | None => ps_consecutive_failures (hs_passive s)
           end in
  let enters := negb (in_cooldown s now) && (hp_unhealthy_after_failures policy <=? wrap32 (c + 1)) in
  health_record_failure policy now s =
    (mkFailureStatus (wrap32 (c + 1)) enters,
     mkHealth (mkPassive (wrap32 (c + 1))
                 (if in_cooldown s now || enters then Some (now + hp_cooldown policy) else None)
                 (enters || ps_pending_recovery (hs_passive s)))
       (hs_active s) (hs_active_requests s)).
Proof.
  unfold health_record_failure, in_cooldown, passive_available.
  destruct s as [[c [until|] pending] a n]; cbn; [|by destruct (hp_unhealthy_after_failures policy <=? wrap32 (c + 1))].
  destruct (Z.leb_spec until now); cbn.
  - by destruct (hp_unhealthy_after_failures policy <=? wrap32 (0 + 1)).
  - by rewrite (proj2 (Z.ltb_lt now until)).
Qed.

Lemma wrap32_small n : 0 ≤ n < 2 ^ 32 → wrap32 n = n.
Proof. apply Z.mod_small. Qed.

Lemma passive_failure_ok tr b s epoch rest t :
  passive_ok tr b s epoch rest → Z.of_nat (length epoch) + 1 < 2 ^ 32 →
  ∃ epoch' rest', passive_ok (t :: tr)
    (pf_entered_cooldown (health_record_failure policy t s).1 || b)
    (health_record_failure policy t s).2 epoch' rest' ∧
    (length epoch' ≤ S (length epoch))%nat.
Proof.
  intros [-> Hc Hg Hn Hso Hp] Hlen. rewrite record_failure_shape. unfold in_cooldown, passive_available.
  destruct (ps_unhealthy_until (hs_passive s)) as [until|] eqn:Hu.
  - destruct (Hso _ eq_refl) as [Hth Hhd]. clear Hso Hn.
    destruct (Z.leb_spec until t) as [Hle|Hgt]; cbn [negb andb orb].
    + exists [t], (epoch ++ rest). rewrite (wrap32_small (0 + 1)) by lia. split; [|cbn; lia].
      split; cbn [hs_passive ps_consecutive_failures ps_unhealthy_until ps_pending_recovery fst snd
                  pf_entered_cooldown length head last].
      * done.
      * lia.
      * intros t0 t' [= <-] Hh. destruct epoch as [|x epoch]; [done|]. simplify_eq/=. lia.
      * case_match eqn:Hcase; [done|]. intros _. boolify. split; [lia|done].
      * intros u. case_match eqn:Hcase; [|done]. intros [= <-]. boolify. split; [lia|f_equal; lia].
      * by rewrite Hp.
    + exists (t :: epoch), rest. rewrite Hc, wrap32_small by lia. split; [|cbn; lia].
      split; cbn [hs_passive ps_consecutive_failures ps_unhealthy_until ps_pending_recovery fst snd
                  pf_entered_cooldown length head].
      * done.
      * lia.
      * intros t0 t' Hl Hh. destruct epoch as [|x epoch]; [done|]. by apply (Hg t0).
      * done.
      * intros u [= <-]. split; [lia|f_equal; lia].
      * done.
  - destruct (Hn eq_refl) as [Hth Hrest]. clear Hso Hn. cbn [negb andb orb].
    exists (t :: epoch), rest. rewrite Hc, wrap32_small by lia. split; [|cbn; lia].
    split; cbn [hs_passive ps_consecutive_failures ps_unhealthy_until ps_pending_recovery fst snd
                pf_entered_cooldown length head].
    + done.
    + lia.
    + intros t0 t' Hl Hh. destruct epoch as [|x epoch]; [by rewrite Hrest in Hh|]. by apply (Hg t0).
    + case_match eqn:Hcase; [done|]. intros _. boolify. split; [lia|done].
    + intros u. case_match eqn:Hcase; [|done]. intros [= <-]. boolify. split; [lia|f_equal; lia].
    + by rewrite Hp.
Qed.

Lemma passive_run_ok hist :
  Z.of_nat (length hist) < 2 ^ 32 →
  ∃ epoch rest, passive_ok (trailing hist) (entered_since hist) (passive_run hist) epoch rest ∧
    (length epoch ≤ length hist)%nat.
Proof.
  induction hist as [|[|t] hist IH]; intros Hlen.
  - exists [], []. split; [|done]. split; cbn; try done. intros _. split; [lia|done].
  - exists [], []. split; [|cbn; lia]. split; cbn; try done. intros _. split; [lia|done].
  - destruct IH as (epoch & rest & Hok & Hel); [cbn [length] in Hlen; lia|].
    destruct (passive_failure_ok _ _ _ _ _ t Hok) as (epoch' & rest' & Hok' & Hel').
    { cbn [length] in Hlen. lia. }
    exists epoch', rest'. split; [exact Hok'|]. cbn [length]. lia.
Qed.

(** The oldest of a run of failures that reaches back beyond the epoch is at
    least a cooldown older than the newest. *)
Lemma timed_last_le now hist ts rest t :
  timed now hist → trailing hist = ts ++ rest → t ∈ ts ++ rest → t ≤ now.
Proof.
  revert now ts rest. induction hist as [|[|t0] hist IH]; intros now ts rest Ht Htr Hin.
  - cbn in Htr. rewrite <-Htr in Hin. by apply not_elem_of_nil in Hin.
  - cbn in Htr. rewrite <-Htr in Hin. by apply not_elem_of_nil in Hin.
  - destruct Ht as [Hle Ht]. cbn in Htr. rewrite <-Htr in Hin.
    apply elem_of_cons in Hin as [->|Hin]; [done|].
    specialize (IH t0 [] (trailing hist) Ht eq_refl Hin). lia.
Qed.

Lemma trailing_sorted now hist : timed now hist → Sorted.StronglySorted (λ a b, b ≤ a) (trailing hist).
Proof.
  revert now. induction hist as [|[|t] hist IH]; intros now Ht; [constructor..|].
  destruct Ht as [_ Ht]. cbn. constructor; [by eapply IH|].
  apply Forall_forall. intros x Hx. by eapply (timed_last_le t hist [] (trailing hist)).
Qed.
End Passive.

Lemma sorted_last_le (a o : Z) l :
  Sorted.StronglySorted (λ a b, b ≤ a) (a :: l) → last (a :: l) = Some o → o ≤ a.
Proof.
  intros Hs Hl. inversion Hs as [|?? _ Hall]; subst.
  apply last_Some in Hl as [k Hk]. destruct k as [|z k]; simplify_eq/=; [done|].
  rewrite Forall_forall in Hall. apply Hall. set_solver.
Qed.

(** Enough failures within less than a cooldown: the epoch holds them all. *)
Lemma epoch_reaches policy tr b s epoch rest ts ts' newest oldest :
  passive_ok policy tr b s epoch rest → Sorted.StronglySorted (λ a b, b ≤ a) tr →
  tr = ts ++ ts' → head ts = Some newest → last ts = Some oldest →
  newest < oldest + hp_cooldown policy → ps_unhealthy_until (hs_passive s) = None →
  (length ts ≤ length epoch)%nat.
Proof.
  intros [Hsp _ Hg Hn _ _] Hsort Htr Hhd Hlast Hspread Hu.
  destruct (Hn Hu) as [_ Hrest]. apply Nat.le_ngt. intros Hlt.
  assert (∃ k, ts = epoch ++ k ∧ rest = k ++ ts') as (k & -> & ->).
  { rewrite Hsp in Htr. apply app_eq_inv in Htr as [(k & -> & ->)|(k & -> & ->)]; [|by exists k].
    rewrite length_app in Hlt. lia. }
  destruct k as [|t' k]; [rewrite app_nil_r in Hlt; lia|].
  destruct (last epoch) as [te|] eqn:Hte.
  2:{ apply last_None in Hte as ->. by specialize (Hrest eq_refl). }
  specialize (Hg _ _ eq_refl eq_refl).
  rewrite Hsp, app_assoc in Hsort. apply StronglySorted_app_1_l in Hsort.
  assert (oldest ≤ t').
  { apply StronglySorted_app_1_r in Hsort. rewrite last_app_cons in Hlast.
    by eapply sorted_last_le. }
  assert (te ≤ newest).
  { apply StronglySorted_app_1_l in Hsort. destruct epoch as [|x epoch]; [done|].
    injection Hhd as <-. by eapply sorted_last_le. }
  lia.
Qed.

(** C12.  Passive health follows the request history.  A peer is out only after
    [unhealthy_after_failures] failures in a row, the last less than a cooldown
    ago; and it is out when that many failures in a row came within less than a
    cooldown of each other, the last less than a cooldown ago.  A success brings
    it back at once and reports a recovery exactly when a cooldown was entered
    since the success before; a failure reports entering the cooldown exactly
    when it takes an available peer out. *)
Theorem passive_cooldown_follows_history (policy : PeerHealthPolicy) (hist : list PassiveEvent)
    (now : Z) :
  1 ≤ hp_unhealthy_after_failures policy < 2 ^ 32 → 0 < hp_cooldown policy →
  Z.of_nat (length hist) + 1 < 2 ^ 32 → timed now hist →
  let s := passive_run policy hist in
  let failed := health_record_failure policy now s in
  (passive_available s now = false →
     hp_unhealthy_after_failures policy ≤ Z.of_nat (length (trailing hist)) ∧
     ∃ t, head (trailing hist) = Some t ∧ now < t + hp_cooldown policy) ∧
  (∀ ts rest newest oldest, trailing hist = ts ++ rest →
     Z.of_nat (length ts) = hp_unhealthy_after_failures policy →
     head ts = Some newest → last ts = Some oldest →
     newest < oldest + hp_cooldown policy → now < newest + hp_cooldown policy →
     passive_available s now = false) ∧
  (passive_available (health_record_success s).2 now = true ∧
   (health_record_success s).1 = entered_since policy hist) ∧
  (pf_entered_cooldown failed.1 = true ↔
   passive_available s now = true ∧ passive_available failed.2 now = false).
Proof.
  intros Hth Hcd Hlen Htime s failed.
  destruct (passive_run_ok policy Hth hist) as (epoch & rest & Hok & Hel); [lia|].
  fold s in Hok. pose proof Hok as [Hsp Hc Hg Hn Hso Hp]. split_and!.
  - unfold passive_available. destruct (ps_unhealthy_until (hs_passive s)) as [until|]; [|done].
    intros Hlt. boolify. destruct (Hso _ eq_refl) as [Hge Hhd]. split.
    + rewrite Hsp, length_app. lia.
    + exists (until - hp_cooldown policy). rewrite Hsp. destruct epoch; [done|]. split; [done|lia].
  - intros ts rest' newest oldest Htr Hts Hhd Hlast Hspread Hnow.
    unfold passive_available. destruct (ps_unhealthy_until (hs_passive s)) as [until|] eqn:Hu.
    + destruct (Hso _ eq_refl) as [Hge Hhd']. apply Z.leb_gt.
      rewrite Htr in Hsp. destruct epoch as [|x epoch]; [done|].
      destruct ts as [|y ts]; [done|]. simplify_eq/=. lia.
    + exfalso. destruct (Hn eq_refl) as [Hlt _].
      pose proof (epoch_reaches _ _ _ _ _ _ _ _ _ _ Hok (trailing_sorted _ _ Htime) Htr Hhd Hlast Hspread Hu).
      lia.
  - done.
  - done.
  - unfold failed. rewrite record_failure_shape by done. cbn. unfold in_cooldown.
    rewrite negb_involutive. unfold passive_available at 3. cbn.
    destruct (passive_available s now); cbn; [|naive_solver].
    destruct (hp_unhealthy_after_failures policy <=? _); cbn; [|naive_solver].
    split; [|done]. intros _. split; [done|]. apply Z.leb_gt. lia.
Qed.

(** ** The active probe *)

(** The outcomes of the probes of one peer, the newest first. *)
Definition active_run (required : Z) (hist : list bool) (s : PeerHealthState) : PeerHealthState :=
  foldr (λ ok s, if (ok : bool) then (health_record_active_success required s).2
                 else (health_record_active_failure s).2) s hist.

Lemma active_successes required s k :
  1 ≤ required < 2 ^ 32 → as_unhealthy (hs_active s) = true → as_consecutive_successes (hs_active s) = 0 →
  hs_active (active_run required (replicate k true) s) =
    if Z.of_nat k <? required then mkActive true (Z.of_nat k) else active_default.
Proof.
  intros Hr Hu H0. induction k as [|k IH].
  - rewrite (proj2 (Z.ltb_lt (Z.of_nat 0) required)) by lia. cbn.
    destruct s as [p [u c] n]. by simplify_eq/=.
  - change (replicate (S k) true) with (true :: replicate k true). cbn [active_run foldr].
    fold (active_run required (replicate k true) s).
    set (s' := active_run required (replicate k true) s) in *. clearbody s'.
    unfold health_record_active_success.
    destruct (Z.ltb_spec (Z.of_nat k) required) as [Hk|Hk]; rewrite IH;
      cbn [as_unhealthy negb active_default as_consecutive_successes snd].
    + rewrite wrap32_small by lia. cbn [hs_active snd].
      destruct (Z.leb_spec required (Z.of_nat k + 1)), (Z.ltb_spec (Z.of_nat (S k)) required); try lia; [done|].
      f_equal. lia.
    + by rewrite IH, (proj2 (Z.ltb_ge (Z.of_nat (S k)) required)) by lia.
Qed.

Lemma probes_split (hist : list bool) :
  (∃ k, hist = replicate k true) ∨ ∃ k h, hist = replicate k true ++ false :: h.
Proof.
  induction hist as [|[|] hist IH]; [left; by exists 0%nat| |right; by exists 0%nat, hist].
  destruct IH as [[k ->]|(k & h & ->)]; [left; by exists (S k)|right; by exists (S k), h].
Qed.

Lemma replicate_true_app_inj j k (h h' : list bool) :
  replicate j true ++ false :: h = replicate k true ++ false :: h' → j = k.
Proof.
  revert k. induction j as [|j IH]; intros [|k]; cbn; try done. intros [= Heq]. by rewrite (IH k).
Qed.

(** The active probe takes a peer out at its first failed probe and brings
    it back with the last of [healthy_successes_required] successful probes in
    a row: a peer is out exactly when fewer than that many probes succeeded
    since its last failed one.  A probe reports a recovery exactly when it
    brings the peer back, and a failure reports a change exactly when it takes
    a healthy peer out. *)
Theorem active_probe_follows_history (required : Z) (hist : list bool) :
  1 ≤ required < 2 ^ 32 →
  let s := active_run required hist health_default in
  (as_unhealthy (hs_active s) = true ↔
     ∃ k h, hist = replicate k true ++ false :: h ∧ Z.of_nat k < required) ∧
  (let '(status, s') := health_record_active_success required s in
   ap_healthy status = negb (as_unhealthy (hs_active s')) ∧
   (ap_recovered status = true ↔
     as_unhealthy (hs_active s) = true ∧ as_unhealthy (hs_active s') = false)) ∧
  (health_record_active_failure s).1 = negb (as_unhealthy (hs_active s)).
Proof.
  intros Hr s. split_and!; [| |done].
  - destruct (probes_split hist) as [[k Hk]|(k & h & Hk)].
    + assert (s = health_default) as ->.
      { unfold s. rewrite Hk. clear. induction k as [|k IH]; [done|].
        change (replicate (S k) true) with (true :: replicate k true). cbn [active_run foldr].
        fold (active_run required (replicate k true) health_default). by rewrite IH. }
      split; [done|]. intros (j & h & Hj & _). exfalso. rewrite Hk in Hj. clear -Hj.
      revert j Hj. induction k as [|k IH]; intros [|j]; cbn; try done. intros [= H]. by apply (IH j).
    + unfold s, active_run. rewrite Hk, foldr_app. cbn [foldr].
      fold (active_run required h health_default).
      set (s0 := (health_record_active_failure (active_run required h health_default)).2).
      fold (active_run required (replicate k true) s0). rewrite active_successes by done.
      destruct (Z.ltb_spec (Z.of_nat k) required) as [Hlt|Hge]; cbn.
      * split; [|done]. intros _. by exists k, h.
      * split; [done|]. intros (j & h' & Hj & Hlt).
        apply replicate_true_app_inj in Hj. lia.
  - unfold health_record_active_success.
    destruct (as_unhealthy (hs_active s)) eqn:Hu; cbn; [|rewrite Hu; naive_solver].
    destruct (required <=? _); cbn; naive_solver.
Qed.

(** ** Counting requests *)

(** The registry and the guards of the requests under way. *)
Record RequestSystem : Type := mkRequests { rq_registry : PeerHealthRegistry; rq_guards : list ActivePeerGuard }.

Inductive request_step : RequestSystem → RequestSystem → Prop :=
| request_track s name key g r' :
    Z.of_nat (length (rq_guards s)) < u64_max →
    track_active_request name key (rq_registry s) = (g, r') →
    request_step s (mkRequests r' (g :: rq_guards s))
| request_drop s before g after :
    rq_guards s = before ++ g :: after →
    request_step s (mkRequests (drop_peer_guard g (rq_registry s)) (before ++ after))
| request_success s name key :
    request_step s (mkRequests (record_success name key (rq_registry s)).2 (rq_guards s))
| request_failure s name key now :
    request_step s (mkRequests (record_failure name key now (rq_registry s)).2 (rq_guards s))
| request_probe_success s name key required :
    request_step s (mkRequests (record_active_success name key required (rq_registry s)).2 (rq_guards s))
| request_probe_failure s name key :
    request_step s (mkRequests (record_active_failure name key (rq_registry s)).2 (rq_guards s))
| request_endpoint s name key logical :
    request_step s (mkRequests (ensure_endpoint name key logical (rq_registry s)).2 (rq_guards s)).

(** The requests under way to an object. *)
Definition guards_of (id : N) (guards : list ActivePeerGuard) : Z :=
  Z.of_nat (length (filter (λ g, ag_peer g = Some id) guards)).

Record registry_ok (s : RequestSystem) : Prop := {
  ro_health name key id : get_health (rq_registry s) name key = Some id → (id < reg_next (rq_registry s))%N;
  ro_logical name key id : get_logical_peer (rq_registry s) name key = Some id → (id < reg_next (rq_registry s))%N;
  ro_guards g id : g ∈ rq_guards s → ag_peer g = Some id → (id < reg_next (rq_registry s))%N;
  ro_count id : hs_active_requests (reg_health (rq_registry s) !!! id) = guards_of id (rq_guards s);
}.

Lemma guards_of_cons id g guards :
  guards_of id (g :: guards) = (if decide (ag_peer g = Some id) then 1 else 0) + guards_of id guards.
Proof. unfold guards_of. rewrite filter_cons. case_decide; cbn [length]; lia. Qed.

Lemma guards_of_middle id before g after :
  guards_of id (before ++ g :: after) = (if decide (ag_peer g = Some id) then 1 else 0) + guards_of id (before ++ after).
Proof.
  unfold guards_of. rewrite !filter_app, filter_cons, !length_app. case_decide; cbn [length]; lia.
Qed.

Lemma guards_of_none id guards :
  (∀ g, g ∈ guards → ag_peer g ≠ Some id) → guards_of id guards = 0.
Proof.
  induction guards as [|g guards IH]; intros Hn; [done|].
  rewrite guards_of_cons, decide_False, IH; [done|set_solver|apply Hn; by left].
Qed.

Lemma guards_of_le id guards : 0 ≤ guards_of id guards ≤ Z.of_nat (length guards).
Proof. unfold guards_of. pose proof (length_filter (λ g, ag_peer g = Some id) guards). lia. Qed.

(** What an update of one object leaves alone. *)
Lemma notify_frame name r :
  get_health (notify_change name r) = get_health r ∧ get_logical_peer (notify_change name r) = get_logical_peer r ∧
  reg_health (notify_change name r) = reg_health r ∧ reg_next (notify_change name r) = reg_next r.
Proof. unfold notify_change. by case_match. Qed.

Lemma total_insert (m : gmap N PeerHealthState) id s id' :
  <[id := s]> m !!! id' = if decide (id = id') then s else m !!! id'.
Proof.
  case_decide; subst; [by rewrite lookup_total_insert_eq|by rewrite lookup_total_insert_ne].
Qed.

Lemma update_ok s guards id st :
  registry_ok s → (∀ g id, g ∈ guards → ag_peer g = Some id → (id < reg_next (rq_registry s))%N) →
  hs_active_requests st = guards_of id guards →
  (∀ id', id ≠ id' → guards_of id' guards = guards_of id' (rq_guards s)) →
  registry_ok (mkRequests (with_health <[id := st]> (rq_registry s)) guards).
Proof.
  intros [Hh Hl Hg Hc] Hg' Hst Hother. split; cbn; [apply Hh|apply Hl|done|].
  intros id'. rewrite total_insert. case_decide; subst; [done|]. rewrite Hc. by rewrite Hother.
Qed.

Lemma notify_ok name s : registry_ok s → registry_ok (mkRequests (notify_change name (rq_registry s)) (rq_guards s)).
Proof.
  intros [Hh Hl Hg Hc]. destruct (notify_frame name (rq_registry s)) as (H1 & H2 & H3 & H4).
  split; cbn [rq_registry rq_guards]; rewrite ?H1, ?H2, ?H3, ?H4; done.
Qed.

(** An operation on a health object that keeps its counter. *)
Lemma on_health_ok {A} s name id (f : PeerHealthState → A * PeerHealthState) :
  registry_ok s → (∀ st, hs_active_requests (f st).2 = hs_active_requests st) →
  registry_ok (mkRequests (on_health name id f (rq_registry s)).2 (rq_guards s)).
Proof.
  intros Hok Hf. unfold on_health. specialize (Hf (reg_health (rq_registry s) !!! id)).
  destruct (f (reg_health (rq_registry s) !!! id)) as [a st]. cbn [snd] in *.
  apply (notify_ok name (mkRequests (with_health <[id := st]> (rq_registry s)) (rq_guards s))).
  apply update_ok; [done|apply Hok|rewrite Hf; apply Hok|done].
Qed.

Lemma failure_keeps_count policy now st :
  hs_active_requests (health_record_failure policy now st).2 = hs_active_requests st.
Proof. unfold health_record_failure. by repeat case_match. Qed.

Lemma probe_keeps_count required st :
  hs_active_requests (health_record_active_success required st).2 = hs_active_requests st.
Proof. unfold health_record_active_success. by repeat case_match. Qed.

Lemma track_ok s name key g r' :
  registry_ok s → Z.of_nat (length (rq_guards s)) < u64_max →
  track_active_request name key (rq_registry s) = (g, r') →
  registry_ok (mkRequests r' (g :: rq_guards s)).
Proof.
  intros Hok Hlen. unfold track_active_request.
  destruct (get_health (rq_registry s) name key) as [id|] eqn:Hid.
  - cbn [increment_active_requests]. intros [= <- <-].
    set (g := mkPeerGuard (Some id) _ name). set (st := mkHealth _ _ _).
    assert (registry_ok (mkRequests (with_health <[id := st]> (rq_registry s)) (g :: rq_guards s))) as Hok'.
    { apply update_ok; [done| | |].
      - intros g' id' [->|Hin]%elem_of_cons; [|by apply Hok]. cbn. intros [= <-]. by eapply (ro_health s Hok).
      - unfold st. cbn. rewrite (ro_count s Hok), guards_of_cons, decide_True by done.
        pose proof (guards_of_le id (rq_guards s)). rewrite wrap64_small; [lia|].
        unfold is_u64, u64_max in *. lia.
      - intros id' Hne. rewrite guards_of_cons, decide_False; [lia|]. cbn. congruence. }
    case_match; [|done]. by apply (notify_ok name (mkRequests _ (g :: rq_guards s))).
  - intros [= <- <-]. destruct Hok as [Hh Hl Hg Hc]. split; cbn; [done..| |].
    + intros g' id' [->|Hin]%elem_of_cons; [done|by apply Hg].
    + intros id'. rewrite guards_of_cons, decide_False by done. rewrite Hc. lia.
Qed.

Lemma drop_ok s before g after :
  registry_ok s → rq_guards s = before ++ g :: after →
  registry_ok (mkRequests (drop_peer_guard g (rq_registry s)) (before ++ after)).
Proof.
  intros Hok Hs. unfold drop_peer_guard.
  assert (Hsub : ∀ g', g' ∈ before ++ after → g' ∈ rq_guards s) by (rewrite Hs; set_solver).
  destruct (ag_peer g) as [id|] eqn:Hid.
  - cbn [decrement_active_requests]. set (st := mkHealth _ _ _).
    assert (registry_ok (mkRequests (with_health <[id := st]> (rq_registry s)) (before ++ after))) as Hok'.
    { apply update_ok; [done| | |].
      - intros g' id' Hin. by apply Hok, Hsub.
      - unfold st. cbn. rewrite (ro_count s Hok), Hs, guards_of_middle, decide_True by done.
        pose proof (guards_of_le id (before ++ after)). unfold sat_sub. lia.
      - intros id' Hne. rewrite Hs, guards_of_middle, decide_False; [lia|]. congruence. }
    case_match; [|done]. by apply (notify_ok _ (mkRequests _ (before ++ after))).
  - destruct Hok as [Hh Hl Hg Hc]. split; cbn; [done..| |].
    + intros g' id' Hin. by apply Hg, Hsub.
    + intros id'. rewrite Hc, Hs, guards_of_middle, decide_False by congruence. lia.
Qed.

Lemma ensure_get_endpoint name key logical r name' key' id :
  get_endpoint (ensure_endpoint name key logical r).2 name' key' = Some id →
  get_endpoint r name' key' = Some id ∨ (name' = name ∧ key' = key ∧ id = (ensure_endpoint name key logical r).1).
Proof.
  unfold ensure_endpoint, get_endpoint.
  destruct (default ∅ (reg_endpoint_peers r !! name) !! key) as [i|] eqn:Hi;
    [|destruct (get_logical_peer r name logical) as [i|]]; cbn;
    (destruct (decide (name' = name)) as [->|Hn];
      [rewrite lookup_insert_eq; cbn; intros [[<- <-]|[Hne Hk]]%lookup_insert_Some; [by right|left];
       by destruct (reg_endpoint_peers r !! name)
      |rewrite lookup_insert_ne by done; by left]).
Qed.

Lemma ensure_frame name key logical r :
  get_logical_peer (ensure_endpoint name key logical r).2 = get_logical_peer r ∧
  (reg_next r ≤ reg_next (ensure_endpoint name key logical r).2)%N ∧
  (∀ id, reg_health (ensure_endpoint name key logical r).2 !!! id =
         if decide (id = reg_next r ∧ (ensure_endpoint name key logical r).1 = id ∧
                    (reg_next r < reg_next (ensure_endpoint name key logical r).2)%N)
         then health_default else reg_health r !!! id) ∧
  ((ensure_endpoint name key logical r).1 = reg_next r ∧
     reg_next (ensure_endpoint name key logical r).2 = N.succ (reg_next r) ∨
   (get_endpoint r name key = Some (ensure_endpoint name key logical r).1 ∨
    get_logical_peer r name logical = Some (ensure_endpoint name key logical r).1) ∧
     reg_next (ensure_endpoint name key logical r).2 = reg_next r).
Proof.
  unfold ensure_endpoint, get_endpoint.
  destruct (default ∅ (reg_endpoint_peers r !! name) !! key) as [i|] eqn:Hi;
    [|destruct (get_logical_peer r name logical) as [i|] eqn:Hl]; cbn.
  - split_and!; [done|lia| |].
    + intros id. rewrite decide_False; [done|lia].
    + right. split; [|done]. left. by destruct (reg_endpoint_peers r !! name).
  - split_and!; [done|lia| |].
    + intros id. rewrite decide_False; [done|lia].
    + right. split; [by right|done].
  - split_and!; [done|lia| |by left].
    intros id. rewrite total_insert. repeat case_decide; try done; naive_solver lia.
Qed.

Lemma ensure_ok s name key logical :
  registry_ok s → registry_ok (mkRequests (ensure_endpoint name key logical (rq_registry s)).2 (rq_guards s)).
Proof.
  intros [Hh Hl Hg Hc].
  destruct (ensure_frame name key logical (rq_registry s)) as (Hlog & Hnext & Hheap & Hid).
  assert (Hend : ∀ n k id, get_endpoint (rq_registry s) n k = Some id → (id < reg_next (rq_registry s))%N).
  { intros n k id He. apply (Hh n k). unfold get_health. by rewrite He. }
  split; cbn [rq_registry rq_guards].
  - intros n k id. unfold get_health. destruct (get_endpoint (ensure_endpoint _ _ _ _).2 n k) as [i|] eqn:He.
    + intros [= <-]. apply ensure_get_endpoint in He as [He|(-> & -> & ->)]; [apply Hend in He; lia|].
      destruct Hid as [[-> ->]|[[He|He] ->]]; [lia|by eapply Hend|by eapply Hl].
    + rewrite Hlog. intros Hi%Hl. lia.
  - intros n k id. rewrite Hlog. intros Hi%Hl. lia.
  - intros g id Hin Hp. specialize (Hg _ _ Hin Hp). lia.
  - intros id. rewrite Hheap. destruct (decide (id = _ ∧ _)) as [Hd|_]; [|apply Hc]. cbn.
    rewrite guards_of_none; [done|]. intros g Hin Hp. specialize (Hg _ _ Hin Hp). lia.
Qed.

Lemma request_step_ok s s' : registry_ok s → request_step s s' → registry_ok s'.
Proof.
  intros Hok Hstep. destruct Hstep.
  - by eapply track_ok.
  - by apply drop_ok.
  - unfold record_success. case_match; [|by destruct s]. by apply on_health_ok.
  - unfold record_failure. case_match; [|by destruct s]. case_match; [|by destruct s].
    apply on_health_ok; [done|]. apply failure_keeps_count.
  - unfold record_active_success. case_match; [|by destruct s].
    apply on_health_ok; [done|]. apply probe_keeps_count.
  - unfold record_active_failure. case_match; [|by destruct s]. by apply on_health_ok.
  - by apply ensure_ok.
Qed.

(** A new registry: every object is fresh. *)
Definition fresh_health (m : gmap N PeerHealthState) : Prop := ∀ id, m !!! id = health_default.

Lemma fresh_insert m id : fresh_health m → fresh_health (<[id := health_default]> m).
Proof. intros Hm id'. rewrite total_insert. by case_decide. Qed.

Lemma allocate_peers_ok peers health next m health' next' :
  fresh_health health → allocate_peers peers health next = (m, health', next') →
  fresh_health health' ∧ (next ≤ next')%N ∧ ∀ k id, m !! k = Some id → (id < next')%N.
Proof.
  unfold allocate_peers. intros Hf.
  set (step := λ '(m, h, n) (p : UpstreamPeer), (<[peer_url p := n]> m, <[n := health_default]> h, N.succ n)).
  assert (Hgen : ∀ (m0 : PeerHealthMap) h0 n0,
    fresh_health h0 → (next ≤ n0)%N → (∀ k id, m0 !! k = Some id → (id < n0)%N) →
    foldl step (m0, h0, n0) peers = (m, health', next') →
    fresh_health health' ∧ (next ≤ next')%N ∧ ∀ k id, m !! k = Some id → (id < next')%N).
  { induction peers as [|p peers IH]; intros m0 h0 n0 Hf0 Hle Hm; cbn [foldl].
    - intros [= <- <- <-]. by split_and!.
    - apply IH; [by apply fresh_insert|lia|].
      intros k id [[<- <-]|[_ Hk]]%lookup_insert_Some; [lia|]. specialize (Hm _ _ Hk). lia. }
  apply Hgen; [done|lia|]. intros k id Hk. by rewrite lookup_empty in Hk.
Qed.

Lemma from_config_ok upstreams notifier :
  registry_ok (mkRequests (from_config_with_notifier upstreams notifier) []).
Proof.
  unfold from_config_with_notifier.
  set (step := λ '(peers, health, next) '(upstream_name, upstream), _).
  assert (Hgen : ∀ (l : list (string * Upstream)) (m0 : gmap string PeerHealthMap) h0 n0,
    fresh_health h0 → (∀ name peers k id, m0 !! name = Some peers → peers !! k = Some id → (id < n0)%N) →
    let '(m, h, n) := foldl step (m0, h0, n0) l in
    fresh_health h ∧ ∀ name peers k id, m !! name = Some peers → peers !! k = Some id → (id < n)%N).
  { induction l as [|[name u] l IH]; intros m0 h0 n0 Hf Hm; cbn [foldl]; [done|].
    unfold step at 2. destruct (allocate_peers (up_peers u) h0 n0) as [[m1 h1] n1] eqn:Ha.
    destruct (allocate_peers_ok _ _ _ _ _ _ Hf Ha) as (Hf1 & Hle & Hm1). apply IH; [done|].
    intros name' peers k id [[<- <-]|[_ Hn]]%lookup_insert_Some Hk; [by eapply Hm1|].
    specialize (Hm _ _ _ _ Hn Hk). lia. }
  specialize (Hgen (map_to_list upstreams) ∅ ∅ 0%N).
  destruct (foldl step _ (map_to_list upstreams)) as [[m h] n].
  destruct Hgen as [Hf Hm].
  { intros id. by rewrite lookup_total_empty. }
  { intros name peers k id Hn. by rewrite lookup_empty in Hn. }
  assert (Hlog : ∀ r name key id, reg_peers r = m → reg_next r = n →
    get_logical_peer r name key = Some id → (id < reg_next r)%N).
  { intros r name key id Hr <-. unfold get_logical_peer. rewrite Hr.
    destruct (m !! name) as [peers|] eqn:Hp; [|done]. cbn. rewrite <-Hr in Hp. subst. by eapply Hm. }
  split; cbn.
  - intros name key id. unfold get_health, get_endpoint. cbn. rewrite lookup_fmap.
    destruct (upstreams !! name); cbn; rewrite ?lookup_empty; by apply Hlog.
  - intros name key id. by apply Hlog.
  - intros g id Hin. by apply not_elem_of_nil in Hin.
  - intros id. by rewrite Hf.
Qed.

Lemma requests_reachable_ok upstreams notifier s :
  rtc request_step (mkRequests (from_config_with_notifier upstreams notifier) []) s → registry_ok s.
Proof.
  intros Hr. remember (mkRequests _ []) as s0 eqn:Hs.
  assert (registry_ok s0) as Hok by (subst; apply from_config_ok). clear Hs.
  induction Hr as [|s1 s2 s3 H12 _ IH]; [done|]. apply IH. by eapply request_step_ok.
Qed.

(** The request counter of a peer is exact: in every state the registry of
    a configuration can reach, the active requests reported under any of a
    peer's names are the guards alive for it, whatever endpoint they were
    taken under; with no guard alive it is zero, and dropping a guard takes
    exactly one off. *)
Theorem active_requests_count_guards (upstreams : gmap string Upstream) (notifier : bool)
    (s : RequestSystem) (name key : string) :
  rtc request_step (mkRequests (from_config_with_notifier upstreams notifier) []) s →
  active_requests (rq_registry s) name key =
    match get_health (rq_registry s) name key with
    | Some id => guards_of id (rq_guards s)
    | None => 0
    end ∧
  (rq_guards s = [] → active_requests (rq_registry s) name key = 0) ∧
  (∀ before g after id, rq_guards s = before ++ g :: after → ag_peer g = Some id →
     get_health (rq_registry s) name key = Some id →
     active_requests (drop_peer_guard g (rq_registry s)) name key =
       active_requests (rq_registry s) name key - 1 ∧ 0 < active_requests (rq_registry s) name key).
Proof.
  intros Hr. pose proof (requests_reachable_ok _ _ _ Hr) as Hok.
  assert (Hact : ∀ s, registry_ok s → active_requests (rq_registry s) name key =
    match get_health (rq_registry s) name key with
    | Some id => guards_of id (rq_guards s) | None => 0 end).
  { intros s0 H0. unfold active_requests. case_match; [|done]. apply H0. }
  split_and!.
  - by apply Hact.
  - intros Hnil. rewrite Hact by done. case_match; [|done]. by rewrite Hnil.
  - intros before g after id Hg Hp Hid.
    pose proof (Hact _ (drop_ok _ _ _ _ Hok Hg)) as Hd. cbn [rq_registry rq_guards] in Hd.
    rewrite Hact by done. rewrite Hid, Hd.
    assert (get_health (drop_peer_guard g (rq_registry s)) name key = Some id) as ->.
    { rewrite <-Hid. unfold drop_peer_guard. rewrite Hp. cbn.
      destruct (_ && ag_notifier g); [|done]. by rewrite (proj1 (notify_frame _ _)). }
    rewrite Hg, guards_of_middle, decide_True by done.
    pose proof (guards_of_le id (before ++ after)). lia.
Qed.

(** ** Concrete histories *)

Definition sample_policy : PeerHealthPolicy := mkHealthPolicy 2 1000 true.

Theorem passive_cooldown_follows_history_witness :
  passive_available (passive_run sample_policy [EvFailure 50; EvFailure 10; EvSuccess]) 900 = false.
Proof.
  destruct (passive_cooldown_follows_history sample_policy [EvFailure 50; EvFailure 10; EvSuccess] 900)
    as (_ & Hout & _); [cbn; lia|cbn; lia|cbn; lia|cbn; lia|].
  apply (Hout [50; 10] [] 50 10); cbn; (reflexivity || lia).
Defined.

Theorem active_probe_follows_history_witness :
  as_unhealthy (hs_active (active_run 2 [true; false; true] health_default)) = true.
Proof.
  destruct (active_probe_follows_history 2 [true; false; true]) as (Hout & _); [lia|].
  apply Hout. exists 1%nat, [true]. split; [reflexivity|cbn; lia].
Defined.

Definition sample_peer (url : string) (weight : Z) (backup : bool) : UpstreamPeer :=
  mkUpstreamPeer url "http" url weight backup (Some 10).

Definition sample_upstream (lb : UpstreamLoadBalance) : Upstream :=
  new_upstream "app" [sample_peer "http://a" 1 false; sample_peer "http://b" 1 false;
                      sample_peer "http://c" 1 true] NativeRoots
    {| set_protocol := ProtoAuto; set_load_balance := lb; set_dns := dns_policy_default;
       set_server_name := true; set_server_name_override := None; set_tls_versions := None;
       set_server_verify_depth := None; set_server_crl_path := None;
       set_client_identity := None; set_request_timeout := 30000;
       set_connect_timeout := 30000; set_write_timeout := 30000; set_idle_timeout := 30000;
       set_pool_idle_timeout := None; set_pool_max_idle_per_host := 32;
       set_tcp_keepalive := None; set_tcp_nodelay := true;
       set_http2_keep_alive_interval := None; set_http2_keep_alive_timeout := 20000;
       set_http2_keep_alive_while_idle := false;
       set_max_replayable_request_body_bytes := 65536; set_unhealthy_after_failures := 2;
       set_unhealthy_cooldown := 10000; set_active_health_check := None |}.

Definition sample_registry (lb : UpstreamLoadBalance) : PeerHealthRegistry :=
  from_config_with_notifier {["app" := sample_upstream lb]} true.

(** One request under way to an endpoint of the first peer. *)
Definition one_request : RequestSystem :=
  let r := (ensure_endpoint "app" "http://a|10.0.0.1" "http://a" (sample_registry RoundRobin)).2 in
  let '(g, r) := track_active_request "app" "http://a|10.0.0.1" r in
  mkRequests r [g].

Lemma one_request_reachable :
  rtc request_step (mkRequests (sample_registry RoundRobin) []) one_request.
Proof.
  eapply rtc_l; [apply (request_endpoint _ "app" "http://a|10.0.0.1" "http://a")|].
  eapply rtc_l; [|apply rtc_refl].
  unfold one_request. cbn [rq_registry rq_guards].
  destruct (track_active_request _ _ _) as [g r] eqn:Ht.
  eapply (request_track (mkRequests _ []) "app" "http://a|10.0.0.1"); [done|exact Ht].
Qed.

Lemma one_request_counted :
  get_health (rq_registry one_request) "app" "http://a" = Some 0%N ∧
  guards_of 0%N (rq_guards one_request) = 1.
Proof. by vm_compute. Qed.

(** Counted for the peer although taken under its endpoint's key. *)
Theorem active_requests_count_guards_witness :
  active_requests (rq_registry one_request) "app" "http://a" = 1.
Proof.
  destruct (active_requests_count_guards {["app" := sample_upstream RoundRobin]} true one_request
              "app" "http://a" one_request_reachable) as (H & _).
  rewrite (proj1 one_request_counted), (proj2 one_request_counted) in H. exact H.
Defined.
