(* ===== verification/HealthSelection.v ===== *)
(** * Which peers a request is offered

    Theorems about peer selection ([Health.v]): an endpoint shares the health of
    its peer, a selection is complete and respects health, [max_conns] and the
    primary/backup order, and least-connections takes the least loaded. *)

From S2P Require Import Prelude RustStr External Upstream Resolver Health HealthSafety.

(** ** Endpoint names *)

(** A key names a peer when it is its URL or its URL and an address. *)
Definition names (key url : string) : Prop := key = url ∨ ∃ d, key = url +:+ "|" +:+ d.

Definition plain (url : string) : Prop := contains_char "|" url = false.

Lemma contains_char_cut c a b : contains_char c (a +:+ String c b) = true.
Proof.
  rewrite contains_char_app. unfold contains_char at 2. cbn. rewrite ascii_eqb_refl. by rewrite orb_true_r.
Qed.

Lemma names_plain key url url' : plain url → plain url' → names key url → names key url' → url = url'.
Proof.
  unfold plain. intros Hp Hp' [->|[d ->]] [Heq|[d' Heq]]; [done| | |].
  - exfalso. rewrite Heq in Hp. change ("|" +:+ d') with (String "|"%char d') in Hp.
    by rewrite contains_char_cut in Hp.
  - exfalso. rewrite <-Heq in Hp'. change ("|" +:+ d) with (String "|"%char d) in Hp'.
    by rewrite contains_char_cut in Hp'.
  - change ("|" +:+ d) with (String "|"%char d) in Heq. change ("|" +:+ d') with (String "|"%char d') in Heq.
    by destruct (cut_inj "|"%char url url' d d' Hp Hp' Heq).
Qed.

(** The endpoints [resolve_peer] builds name their peer and carry its
    settings. *)
Definition endpoint_of (peer : UpstreamPeer) (e : ResolvedUpstreamPeer) : Prop :=
  res_logical_peer_url e = peer_url peer ∧ names (res_endpoint_key e) (peer_url peer) ∧
  res_weight e = peer_weight peer ∧ res_backup e = peer_backup peer ∧
  res_max_conns e = peer_max_conns peer.

Lemma resolve_peer_endpoint_of `{UriApi} peer now later answer r l r' e :
  resolve_peer peer now later answer r = (Ok l, r') → e ∈ l → endpoint_of peer e.
Proof.
  unfold resolve_peer, parse_peer_addressing.
  destruct (uri_parse (peer_url peer)) as [uri|]; [|done]. cbn [mbind option_bind].
  destruct (uri_host uri) as [host|]; [|done]. cbn [mbind option_bind ad_host].
  set (a := mkAddressing _ _ _ _ _ _ _ _).
  assert (Hb : ∀ ip, endpoint_of peer (build_endpoint a ip)).
  { intros ip. split_and!; try done. unfold build_endpoint, names. cbn.
    case_match; [by left|right; by eexists]. }
  destruct (ip_from_str host) as [ip|].
  - intros [= <- <-] ->%list_elem_of_singleton. apply Hb.
  - destruct (resolve_host _ _ _ _ _) as [[ips|error] r0]; [|done].
    intros [= <- <-] (ip & -> & _)%list_elem_of_fmap. apply Hb.
Qed.

(** ** Health is shared *)

Section Selection.
Context (resolve : UpstreamPeer → list ResolvedUpstreamPeer) (now : Z) (name : string)
  (peers : list UpstreamPeer).

(** The registry knows the peers of the upstream, and every endpoint it has
    seen shares the object of its peer. *)
Record shared_health (r : PeerHealthRegistry) : Prop := {
  sh_known p : p ∈ peers → is_Some (get_logical_peer r name (peer_url p));
  sh_endpoint key id : get_endpoint r name key = Some id →
    ∃ p, p ∈ peers ∧ names key (peer_url p) ∧ get_logical_peer r name (peer_url p) = Some id;
  sh_plain key : is_Some (get_logical_peer r name key) → plain key;
}.

Context (Hplain : ∀ p, p ∈ peers → plain (peer_url p)).
Context (Hresolve : ∀ p e, p ∈ peers → e ∈ resolve p → endpoint_of p e).

(** The health object of a peer. *)
Definition peer_state (r : PeerHealthRegistry) (url : string) : PeerHealthState :=
  match get_logical_peer r name url with Some id => reg_health r !!! id | None => health_default end.

Lemma plain_bar url d : ¬ plain (url +:+ "|" +:+ d).
Proof.
  unfold plain. change ("|" +:+ d) with (String "|"%char d). by rewrite contains_char_cut.
Qed.

(** Under any of its names a peer has its own health object, or none yet. *)
Lemma get_health_named r p key :
  shared_health r → p ∈ peers → names key (peer_url p) →
  get_health r name key = get_logical_peer r name (peer_url p) ∨
  (get_endpoint r name key = None ∧ key ≠ peer_url p).
Proof.
  intros Hs Hp Hn. unfold get_health. destruct (get_endpoint r name key) as [id|] eqn:Hg.
  - left. destruct (sh_endpoint r Hs _ _ Hg) as (p' & Hp' & Hn' & Hl).
    assert (peer_url p = peer_url p') as ->; [|done].
    eapply names_plain; [by apply Hplain|by apply Hplain|done..].
  - destruct (decide (key = peer_url p)) as [->|Hne]; [by left|by right].
Qed.

(** Two registries with the same peers and the same health. *)
Definition same_health (r r' : PeerHealthRegistry) : Prop :=
  reg_peers r' = reg_peers r ∧ reg_health r' = reg_health r ∧ reg_policies r' = reg_policies r.

#[export] Instance same_health_preorder : PreOrder same_health.
Proof. split; [done|]. intros r1 r2 r3 (?&?&?) (?&?&?). split_and!; congruence. Qed.

Lemma same_logical r r' url : same_health r r' → get_logical_peer r' name url = get_logical_peer r name url.
Proof. intros (Hp & _). unfold get_logical_peer. by rewrite Hp. Qed.

Lemma same_state r r' url : same_health r r' → peer_state r' url = peer_state r url.
Proof. intros Hs. unfold peer_state. rewrite (same_logical _ _ _ Hs). by destruct Hs as (_ & -> & _). Qed.

Lemma ensure_shared r p key :
  shared_health r → p ∈ peers → names key (peer_url p) →
  let r' := (ensure_endpoint name key (peer_url p) r).2 in
  shared_health r' ∧ same_health r r' ∧
  get_health r' name key = get_logical_peer r name (peer_url p).
Proof.
  intros Hs Hp Hn r'. destruct (sh_known r Hs p Hp) as [id Hid].
  assert (Hsame : same_health r r').
  { unfold r', ensure_endpoint. rewrite Hid. by case_match. }
  assert (Hget : get_endpoint r' name key = Some id).
  { unfold r', ensure_endpoint, get_endpoint. rewrite Hid.
    destruct (default ∅ (reg_endpoint_peers r !! name) !! key) as [i|] eqn:Hi; cbn;
      rewrite lookup_insert_eq; cbn; rewrite lookup_insert_eq; [|done].
    assert (get_endpoint r name key = Some i) as Hge.
    { unfold get_endpoint. by destruct (reg_endpoint_peers r !! name). }
    destruct (get_health_named r p key Hs Hp Hn) as [Hh|[Hh _]]; [|congruence].
    unfold get_health in Hh. rewrite Hge in Hh. congruence. }
  split_and!; [|done|].
  - split.
    + intros p' Hp'. rewrite (same_logical _ _ _ Hsame). by apply Hs.
    + intros key' id' Hk. destruct (ensure_get_endpoint _ _ _ _ _ _ _ Hk) as [Hold|(_ & -> & ->)].
      * destruct (sh_endpoint r Hs _ _ Hold) as (p' & ? & ? & ?). exists p'.
        by rewrite (same_logical _ _ _ Hsame).
      * exists p. rewrite (same_logical _ _ _ Hsame). split_and!; [done..|].
        change (get_endpoint r' name key = Some (ensure_endpoint name key (peer_url p) r).1) in Hk.
        congruence.
    + intros key'. rewrite (same_logical _ _ _ Hsame). apply Hs.
  - unfold get_health. by rewrite Hget.
Qed.

(** ** Considering endpoints *)

Definition load (r : PeerHealthRegistry) (e : ResolvedUpstreamPeer) : Z :=
  hs_active_requests (peer_state r (res_logical_peer_url e)).

(** The peer of the endpoint is available and below its connection limit. *)
Definition selectable (r : PeerHealthRegistry) (e : ResolvedUpstreamPeer) : Prop :=
  health_is_available (peer_state r (res_logical_peer_url e)) now = true ∧
  ∀ max_conns, res_max_conns e = Some max_conns → load r e < max_conns.

#[export] Instance selectable_dec r e : Decision (selectable r e).
Proof.
  unfold selectable. destruct (health_is_available _ now); [|right; naive_solver].
  destruct (res_max_conns e) as [m|]; [|left; naive_solver].
  destruct (decide (load r e < m)); [left|right]; naive_solver.
Defined.

Lemma same_selectable r r' e : same_health r r' → selectable r' e ↔ selectable r e.
Proof. intros Hs. unfold selectable, load. by rewrite (same_state _ _ _ Hs). Qed.

Lemma same_load r r' e : same_health r r' → load r' e = load r e.
Proof. intros Hs. unfold load. by rewrite (same_state _ _ _ Hs). Qed.

(** The endpoints of the upstream's peers. *)
Definition known_endpoint (e : ResolvedUpstreamPeer) : Prop := ∃ p, p ∈ peers ∧ endpoint_of p e.

Lemma consider_spec r order av sk e :
  shared_health r → known_endpoint e →
  ∃ r', shared_health r' ∧ same_health r r' ∧
    consider_endpoint name now order (av, sk, r) e =
      (av ++ (if decide (selectable r e) then [(load r e, order, e)] else []),
       sk + (if decide (selectable r e) then 0 else 1), r').
Proof.
  intros Hs (p & Hp & Hl & Hn & _). unfold consider_endpoint. rewrite Hl.
  destruct (ensure_shared r p (res_endpoint_key e) Hs Hp Hn) as (Hs' & Hsame & Hget).
  set (r' := (ensure_endpoint name (res_endpoint_key e) (peer_url p) r).2) in *.
  exists r'. split_and!; [done..|].
  assert (Hown : get_health r' name (peer_url p) = get_logical_peer r' name (peer_url p)).
  { destruct (get_health_named r' p (peer_url p) Hs' Hp) as [|[_ ?]]; [by left|done|done]. }
  assert (Hact : active_requests r' name (peer_url p) = load r e).
  { unfold active_requests. rewrite Hown, <-(same_load r r' e Hsame). unfold load, peer_state.
    rewrite Hl. by destruct (get_logical_peer r' name (peer_url p)). }
  assert (Hav : is_available r' name (res_endpoint_key e) now =
    health_is_available (peer_state r (peer_url p)) now).
  { unfold is_available. rewrite Hget, <-(same_state r r' _ Hsame). unfold peer_state.
    rewrite (same_logical _ _ _ Hsame). destruct (sh_known r Hs p Hp) as [id ->]. done. }
  rewrite Hact. unfold endpoint_is_selectable. rewrite Hav.
  assert (Hdec : (if negb (health_is_available (peer_state r (peer_url p)) now) then false
    else match res_max_conns e with Some m => load r e <? m | None => true end) = true ↔ selectable r e).
  { unfold selectable. rewrite Hl. destruct (health_is_available _ now); cbn; [|naive_solver].
    destruct (res_max_conns e) as [m|]; [rewrite Z.ltb_lt|]; naive_solver. }
  destruct (if negb _ then false else _).
  - destruct (decide (selectable r e)) as [|Hns]; [by rewrite Z.add_0_r|]. by destruct Hns; apply Hdec.
  - destruct (decide (selectable r e)) as [Hc|]; [by apply Hdec in Hc|by rewrite app_nil_r].
Qed.

Lemma consider_all_spec r order av sk l :
  shared_health r → Forall known_endpoint l →
  ∃ r', shared_health r' ∧ same_health r r' ∧
    foldl (consider_endpoint name now order) (av, sk, r) l =
      (av ++ map (λ e, (load r e, order, e)) (filter (selectable r) l),
       sk + Z.of_nat (length (filter (λ e, ¬ selectable r e) l)), r').
Proof.
  intros Hs Hl. revert r av sk Hs. induction Hl as [|e l He Hl IH]; intros r av sk Hs; cbn [foldl].
  - exists r. rewrite app_nil_r, Z.add_0_r. done.
  - destruct (consider_spec r order av sk e Hs He) as (r1 & Hs1 & H1 & ->).
    destruct (IH r1 (av ++ (if decide (selectable r e) then [(load r e, order, e)] else []))
      (sk + (if decide (selectable r e) then 0 else 1)) Hs1) as (r2 & Hs2 & H2 & ->).
    exists r2. split_and!; [done|by etrans|].
    rewrite !filter_cons.
    assert (filter (selectable r1) l = filter (selectable r) l) as ->.
    { apply list_filter_ext_in. intros e' _. by apply same_selectable. }
    assert (filter (λ e, ¬ selectable r1 e) l = filter (λ e, ¬ selectable r e) l) as ->.
    { apply list_filter_ext_in. intros e' _. by rewrite (same_selectable r r1). }
    assert (∀ k : list ResolvedUpstreamPeer, map (λ e, (load r1 e, order, e)) k = map (λ e, (load r e, order, e)) k) as Hm.
    { intros k. apply map_ext. intros e'. by rewrite (same_load r r1). }
    rewrite Hm. destruct (decide (selectable r e)) as [Hy|Hn].
    + rewrite decide_False by (by intros []). cbn [map length]. rewrite <-app_assoc. do 2 f_equal. lia.
    + rewrite decide_True by done. rewrite app_nil_r. cbn [length]. do 2 f_equal. lia.
Qed.

(** ** The batches of the ordered peers *)

Lemma ensure_all_shared r p l :
  shared_health r → p ∈ peers → Forall (endpoint_of p) l →
  let r' := foldl (λ r e, (ensure_endpoint name (res_endpoint_key e) (res_logical_peer_url e) r).2) r l in
  shared_health r' ∧ same_health r r'.
Proof.
  intros Hs Hp Hl. revert r Hs. induction Hl as [|e l (He & Hn & _) Hl IH]; intros r Hs; [done|].
  cbn [foldl]. rewrite He. destruct (ensure_shared r p (res_endpoint_key e) Hs Hp Hn) as (Hs' & H1 & _).
  destruct (IH _ Hs') as [Hs2 H2]. split; [done|by etrans].
Qed.

Definition batches_of (r : PeerHealthRegistry) (ps : list UpstreamPeer) : list ResolvedUpstreamPeer :=
  mjoin ((λ p, filter (selectable r) (resolve p)) <$> ps).

Definition skips_of (r : PeerHealthRegistry) (ps : list UpstreamPeer) : Z :=
  Z.of_nat (length (mjoin ((λ p, filter (λ e, ¬ selectable r e) (resolve p)) <$> ps))).

Lemma same_filter r r' (l : list ResolvedUpstreamPeer) : same_health r r' → filter (selectable r') l = filter (selectable r) l.
Proof. intros Hs. apply list_filter_ext_in. intros e _. by apply same_selectable. Qed.

Lemma same_filter_not r r' (l : list ResolvedUpstreamPeer) :
  same_health r r' → filter (λ e, ¬ selectable r' e) l = filter (λ e, ¬ selectable r e) l.
Proof. intros Hs. apply list_filter_ext_in. intros e _. by rewrite (same_selectable r r'). Qed.

Lemma same_batches r r' ps :
  same_health r r' → batches_of r' ps = batches_of r ps ∧ skips_of r' ps = skips_of r ps.
Proof.
  intros Hs. unfold batches_of, skips_of. split; f_equal; [|f_equal; f_equal]; apply list_fmap_ext;
    intros _ p _; [by apply same_filter|by apply same_filter_not].
Qed.

Lemma batches_cons r p ps : batches_of r (p :: ps) = filter (selectable r) (resolve p) ++ batches_of r ps.
Proof. done. Qed.

Lemma skips_cons r p ps :
  skips_of r (p :: ps) = Z.of_nat (length (filter (λ e, ¬ selectable r e) (resolve p))) + skips_of r ps.
Proof. unfold skips_of. cbn [fmap list_fmap mjoin list_join]. by rewrite length_app, Nat2Z.inj_add. Qed.

Lemma filter_perm_length (P : ResolvedUpstreamPeer → Prop) `{!∀ x, Decision (P x)} l k :
  l ≡ₚ k → length (filter P l) = length (filter P k).
Proof. intros Hp. by rewrite Hp. Qed.

Lemma peer_batch_spec r bs sk p :
  shared_health r → p ∈ peers →
  ∃ r' extra, shared_health r' ∧ same_health r r' ∧
    mjoin extra ≡ₚ filter (selectable r) (resolve p) ∧
    peer_batch resolve now name (bs, sk, r) p =
      (bs ++ extra, sk + Z.of_nat (length (filter (λ e, ¬ selectable r e) (resolve p))), r').
Proof.
  intros Hs Hp. unfold peer_batch.
  assert (Forall (endpoint_of p) (resolve p)) as Hep by (apply Forall_forall; intros e; by apply Hresolve).
  destruct (ensure_all_shared r p (resolve p) Hs Hp Hep) as [Hs1 H1].
  set (r1 := foldl _ r (resolve p)) in *.
  set (sorted := sort_by _ (resolve p)).
  assert (sorted ≡ₚ resolve p) as Hperm by apply sort_by_perm.
  assert (Forall known_endpoint sorted) as Hk.
  { rewrite Hperm. eapply Forall_impl; [exact Hep|]. intros e He. by exists p. }
  destruct (consider_all_spec r1 0 [] sk sorted Hs1 Hk) as (r2 & Hs2 & H2 & ->). cbn [app].
  rewrite (same_filter r r1), (same_filter_not r r1) by done.
  rewrite (filter_perm_length _ _ _ Hperm).
  assert (same_health r r2) as H02 by (by etrans).
  destruct (filter (selectable r) sorted) as [|e l] eqn:Hf; cbn [map].
  - exists r2, []. rewrite app_nil_r. split_and!; [done..| |done].
    cbn. rewrite <-Hperm, Hf. done.
  - exists r2, [e :: l]. split_and!; [done..| |].
    + cbn. by rewrite app_nil_r, <-Hf, Hperm.
    + cbn [map snd]. rewrite map_map. cbn. by rewrite map_id.
Qed.

Lemma ordered_spec r bs sk ordered :
  shared_health r → Forall (λ p, p ∈ peers) ordered →
  ∃ r' extra, shared_health r' ∧ same_health r r' ∧ mjoin extra ≡ₚ batches_of r ordered ∧
    foldl (peer_batch resolve now name) (bs, sk, r) ordered = (bs ++ extra, sk + skips_of r ordered, r').
Proof.
  intros Hs Ho. revert r bs sk Hs. induction Ho as [|p ordered Hp Ho IH]; intros r bs sk Hs; cbn [foldl].
  - exists r, []. rewrite app_nil_r. unfold skips_of. cbn. rewrite Z.add_0_r. done.
  - destruct (peer_batch_spec r bs sk p Hs Hp) as (r1 & e1 & Hs1 & H1 & Hj1 & ->).
    destruct (IH r1 (bs ++ e1) (sk + Z.of_nat (length (filter (λ e, ¬ selectable r e) (resolve p)))) Hs1) as (r2 & e2 & Hs2 & H2 & Hj2 & ->).
    exists r2, (e1 ++ e2). destruct (same_batches r r1 ordered H1) as [Hb Hsk].
    split_and!; [done|by etrans| |].
    + rewrite join_app, Hj1, Hj2, Hb, batches_cons. done.
    + rewrite Hsk, skips_cons, app_assoc. do 2 f_equal. lia.
Qed.
End Selection.

(** ** The rounds over the batches *)

Section Rounds.
Context (limit : nat) (batches : list (list ResolvedUpstreamPeer)).

Definition row (bs : list (list ResolvedUpstreamPeer)) (d : nat) : list ResolvedUpstreamPeer :=
  omap (λ b, b !! d) bs.

Lemma select_round_spec d bs selected advanced :
  (length selected < limit)%nat →
  select_round limit d bs selected advanced =
    (take limit (selected ++ row bs d), advanced || negb (bool_decide (row bs d = []))).
Proof.
  revert selected advanced. induction bs as [|b bs IH]; intros selected advanced Hlen.
  - cbn. rewrite app_nil_r, orb_false_r, take_ge; [done|lia].
  - cbn [select_round row omap list_omap]. destruct (b !! d) as [e|] eqn:He; [|by apply IH].
    fold (row bs d). destruct (Nat.eqb_spec (length (selected ++ [e])) limit) as [Heq|Hne].
    + rewrite bool_decide_false by done. rewrite orb_true_r.
      change (e :: row bs d) with ([e] ++ row bs d). rewrite app_assoc, take_app_le, take_ge by lia. done.
    + rewrite length_app in Hne. cbn in Hne.
      rewrite IH by (rewrite length_app; cbn; lia).
      rewrite <-app_assoc, (bool_decide_false (e :: row bs d = [])) by done. cbn. by rewrite orb_true_r.
Qed.

Lemma row_nil_after d d' bs : row bs d = [] → (d ≤ d')%nat → row bs d' = [].
Proof.
  intros Hr Hle. induction bs as [|b bs IH]; [done|]. cbn in *. fold (row bs d) in Hr. fold (row bs d').
  destruct (b !! d) eqn:Hb; [done|]. apply lookup_ge_None in Hb.
  assert (b !! d' = None) as -> by (apply lookup_ge_None; lia). by apply IH.
Qed.

(** The rounds pick the first [limit] endpoints, depth by depth. *)
Definition rows (d n : nat) : list ResolvedUpstreamPeer := mjoin (row batches <$> seq d n).

Lemma select_rounds_spec fuel d selected n :
  (limit - length selected < fuel)%nat → (∀ d', (d + n ≤ d')%nat → row batches d' = []) →
  (length selected ≤ limit)%nat →
  select_rounds fuel limit d batches selected = Some (take limit (selected ++ rows d n)).
Proof.
  revert d selected n. induction fuel as [|fuel IH]; intros d selected n Hfuel Hn Hlen; [lia|].
  cbn [select_rounds]. destruct (Nat.ltb_spec (length selected) limit) as [Hlt|Hge].
  2:{ rewrite take_app_le, take_ge by lia. done. }
  rewrite select_round_spec by done. cbn [orb].
  case_bool_decide as Hrow; cbn [negb].
  - rewrite Hrow, app_nil_r, take_ge by lia.
    assert (rows d n = []) as ->; [|by rewrite app_nil_r, take_ge by lia].
    unfold rows. assert (Forall (λ d', row batches d' = []) (seq d n)) as Hall.
    { apply Forall_forall. intros d' [Hd' _]%elem_of_seq. by eapply row_nil_after. }
    induction Hall as [|d' l Hd' _ IHl]; [done|]. cbn. by rewrite Hd'.
  - destruct n as [|n]; [exfalso; apply Hrow; apply Hn; lia|].
    rewrite (IH (S d) _ n).
    + f_equal. unfold rows. cbn [seq fmap list_fmap mjoin list_join].
      rewrite app_assoc. set (a := selected ++ row batches d).
      destruct (decide (length a ≤ limit)%nat).
      * by rewrite (take_ge a) by lia.
      * rewrite !take_app_le by (rewrite ?length_take; lia). by rewrite take_take, Nat.min_id.
    + rewrite length_take, length_app. destruct (row batches d); [done|cbn; lia].
    + intros d' Hd'. apply Hn. lia.
    + rewrite length_take. lia.
Qed.
End Rounds.

Lemma mjoin_app_perm {A} (f g : nat → list A) l :
  mjoin ((λ d, f d ++ g d) <$> l) ≡ₚ mjoin (f <$> l) ++ mjoin (g <$> l).
Proof.
  induction l as [|d l IH]; [done|]. cbn. rewrite IH, <-!app_assoc. apply Permutation_app_head.
  rewrite !app_assoc. apply Permutation_app_tail, Permutation_app_comm.
Qed.

Lemma column_join {A} (b : list A) n :
  (length b ≤ n)%nat → mjoin ((λ d, match b !! d with Some e => [e] | None => [] end) <$> seq 0 n) = b.
Proof.
  revert b. induction n as [|n IH]; intros b Hb; [by destruct b; cbn in *; [|lia]|].
  cbn [seq fmap list_fmap mjoin list_join]. rewrite <-seq_shift, <-list_fmap_compose.
  destruct b as [|e b].
  - cbn. specialize (IH [] ltac:(cbn; lia)). exact IH.
  - cbn [app lookup list_lookup]. f_equal. cbn in Hb. etrans; [|apply (IH b); lia].
    done.
Qed.

Lemma rows_perm bs n :
  Forall (λ b : list ResolvedUpstreamPeer, (length b ≤ n)%nat) bs → rows bs 0 n ≡ₚ mjoin bs.
Proof.
  intros Hall. unfold rows. induction Hall as [|b bs Hb Hall IH].
  - induction (seq 0 n); [done|]. done.
  - cbn [mjoin list_join]. rewrite <-IH.
    transitivity (mjoin ((λ d, match b !! d with Some e => [e] | None => [] end ++ row bs d) <$> seq 0 n)).
    { apply reflexive_eq. f_equal. apply list_fmap_ext. intros _ d _. cbn. by destruct (b !! d). }
    rewrite mjoin_app_perm. apply Permutation_app_tail, reflexive_eq. by apply column_join.
Qed.

(** Beyond the longest batch the rows are empty. *)
Lemma row_empty bs d : Forall (λ b : list ResolvedUpstreamPeer, (length b ≤ d)%nat) bs → row bs d = [].
Proof.
  induction 1 as [|b bs Hb _ IH]; [done|]. cbn. fold (row bs d).
  assert (b !! d = None) as -> by (apply lookup_ge_None; lia). done.
Qed.

Lemma batch_lengths (bs : list (list ResolvedUpstreamPeer)) :
  Forall (λ b, (length b ≤ length (mjoin bs))%nat) bs.
Proof.
  induction bs as [|b bs IH]; constructor; cbn [mjoin list_join]; rewrite length_app; [lia|].
  eapply Forall_impl; [exact IH|]. intros x Hx. etrans; [exact Hx|apply Nat.le_add_l].
Qed.

(** The selected endpoints are the first of some order of all batches. *)
Lemma select_rounds_perm limit bs :
  ∃ order, order ≡ₚ mjoin bs ∧ select_rounds (S limit) limit 0 bs [] = Some (take limit order).
Proof.
  exists (rows bs 0 (length (mjoin bs))). split; [apply rows_perm, batch_lengths|].
  rewrite (select_rounds_spec limit bs (S limit) 0 [] (length (mjoin bs))); [done|cbn; lia| |cbn; lia].
  intros d Hd. apply row_empty. eapply Forall_impl; [apply batch_lengths|]. cbn. lia.
Qed.

(** ** Whole selections *)

Section Pools.
Context (resolve : UpstreamPeer → list ResolvedUpstreamPeer) (now : Z) (name : string)
  (peers : list UpstreamPeer).
Context (Hplain : ∀ p, p ∈ peers → plain (peer_url p)).
Context (Hresolve : ∀ p e, p ∈ peers → e ∈ resolve p → endpoint_of p e).
Notation shared_health := (shared_health name peers).
Notation selectable := (selectable now name).
Notation load := (load name).

(** The selectable endpoints of the primaries ([false]) or the backups. *)
Definition pool (r : PeerHealthRegistry) (backup : bool) : list ResolvedUpstreamPeer :=
  batches_of resolve now name r (filter (λ p, peer_backup p = backup) peers).

(** A choice of as many of [l] as allowed. *)
Definition fills (limit : nat) (chosen l : list ResolvedUpstreamPeer) : Prop :=
  chosen ⊆+ l ∧ length chosen = Nat.min limit (length l).

Lemma fills_take limit order l : order ≡ₚ l → fills limit (take limit order) l.
Proof.
  intros Hp. split.
  - rewrite <-Hp. apply sublist_submseteq, sublist_take.
  - by rewrite length_take, Hp.
Qed.

Lemma mjoin_fmap_perm {A B} (f : A → list B) l k : l ≡ₚ k → mjoin (f <$> l) ≡ₚ mjoin (f <$> k).
Proof.
  induction 1 as [|x l k _ IH|x y l|l k m _ IH1 _ IH2]; cbn.
  - done.
  - by rewrite IH.
  - rewrite !app_assoc. apply Permutation_app_tail, Permutation_app_comm.
  - by rewrite IH1.
Qed.

Lemma select_available_spec r ordered limit b :
  shared_health r → ordered ≡ₚ filter (λ p, peer_backup p = b) peers →
  ∃ r' sel, shared_health r' ∧ same_health r r' ∧ fills limit (sel_peers sel) (pool r b) ∧
    select_available_peers resolve now name ordered limit r = (Some sel, r').
Proof.
  intros Hs Ho. unfold select_available_peers.
  destruct (Nat.eqb_spec limit 0) as [->|Hlimit].
  { exists r, (mkSelected [] 0). split_and!; [done|by repeat split| |done]. split; [apply submseteq_nil_l|done]. }
  assert (Forall (λ p, p ∈ peers) ordered) as Hin.
  { rewrite Ho. apply Forall_forall. by intros p [_ Hp]%list_elem_of_filter. }
  destruct (ordered_spec resolve now name peers Hplain Hresolve r [] 0 ordered Hs Hin)
    as (r' & bs & Hs' & Hsame & Hbs & ->). cbn [app].
  destruct (select_rounds_perm limit bs) as (order & Horder & ->).
  eexists r', _. split_and!; [done..| |done]. cbn.
  apply fills_take. rewrite Horder, Hbs. by apply mjoin_fmap_perm.
Qed.

(** One peer of the least-connections pool. *)
Lemma least_conn_collect r b l av sk :
  shared_health r → Forall (λ q : nat * UpstreamPeer, q.2 ∈ peers) l →
  ∃ r' extra sk', shared_health r' ∧ same_health r r' ∧
    foldl (λ acc '(order, peer),
       if Bool.eqb (peer_backup peer) b then foldl (consider_endpoint name now order) acc (resolve peer)
       else acc) (av, sk, r) l = (av ++ extra, sk', r') ∧
    map snd extra = batches_of resolve now name r (filter (λ p, peer_backup p = b) (map snd l)) ∧
    Forall (λ x, x.1.1 = load r x.2) extra.
Proof.
  intros Hs Hl. revert r av sk Hs. induction Hl as [|[order p] l Hp Hl IH]; intros r av sk Hs; cbn [foldl].
  { exists r, [], sk. rewrite app_nil_r. split_and!; [done|by repeat split|done|done|constructor]. }
  cbn [map snd]. rewrite filter_cons. destruct (Bool.eqb_spec (peer_backup p) b) as [Hb|Hb].
  - assert (Forall (known_endpoint peers) (resolve p)) as Hk.
    { apply Forall_forall. intros e He. exists p. split; [done|]. by apply Hresolve. }
    destruct (consider_all_spec now name peers Hplain r order av sk (resolve p) Hs Hk)
      as (r1 & Hs1 & H1 & ->).
    edestruct (IH r1) as (r2 & extra & sk2 & Hs2 & H2 & -> & Hex & Hload); [done|].
    exists r2, (map (λ e, (load r e, order, e)) (filter (selectable r) (resolve p)) ++ extra), sk2.
    split_and!; [done|by etrans|by rewrite app_assoc| |].
    + rewrite decide_True by done. rewrite map_app, map_map, Hex. cbn [snd]. rewrite map_id.
      rewrite (proj1 (same_batches resolve now name r r1 _ H1)). done.
    + apply Forall_app. split; [|].
      * apply Forall_map, Forall_forall. done.
      * eapply Forall_impl; [exact Hload|]. intros x ->. by apply same_load.
  - destruct (IH r av sk Hs) as (r1 & extra & sk1 & Hs1 & H1 & -> & Hex & Hload).
    exists r1, extra, sk1. by rewrite decide_False.
Qed.
End Pools.

(** ** Least connections *)

Definition least_load_cmp (a b : Z * nat * ResolvedUpstreamPeer) : comparison :=
  projected_least_conn_load a.1.1 (res_weight a.2) b.1.1 (res_weight b.2).

(** Loads are unsigned, and a weight of zero counts as one. *)
Lemma least_load_weak : weak_order (λ a b : Z * nat * ResolvedUpstreamPeer,
  projected_least_conn_load (Z.max a.1.1 0) (res_weight a.2) (Z.max b.1.1 0) (res_weight b.2)).
Proof.
  unfold projected_least_conn_load. split.
  - intros a b. by rewrite Z.compare_antisym.
  - intros a b c H1 H2. apply Z.compare_le_iff in H1, H2. apply Z.compare_le_iff.
    assert (0 < sat_add64 (Z.max b.1.1 0) 1) by (unfold sat_add64, u64_max; lia).
    set (la := sat_add64 (Z.max a.1.1 0) 1) in *. set (lb := sat_add64 (Z.max b.1.1 0) 1) in *.
    set (lc := sat_add64 (Z.max c.1.1 0) 1) in *.
    assert (0 < Z.max (res_weight a.2) 1) by lia. assert (0 < Z.max (res_weight b.2) 1) by lia.
    assert (0 < Z.max (res_weight c.2) 1) by lia.
    set (wa := Z.max (res_weight a.2) 1) in *. set (wb := Z.max (res_weight b.2) 1) in *.
    set (wc := Z.max (res_weight c.2) 1) in *.
    apply (Z.mul_le_mono_pos_r _ _ wb); [done|].
    pose proof (Z.mul_le_mono_nonneg_r _ _ wc ltac:(lia) H1).
    pose proof (Z.mul_le_mono_nonneg_r _ _ wa ltac:(lia) H2). lia.
Qed.

Lemma str_cmp_weak : weak_order str_cmp.
Proof. split; [apply str_cmp_antisym|apply str_cmp_le_trans]. Qed.

(** The whole order, on unsigned loads. *)
Lemma least_conn_weak : weak_order (λ a b : Z * nat * ResolvedUpstreamPeer,
  least_conn_cmp (Z.max a.1.1 0, a.1.2, a.2) (Z.max b.1.1 0, b.1.2, b.2)).
Proof.
  unfold least_conn_cmp. apply (weak_order_then _ _ least_load_weak).
  apply (weak_order_then (λ a b, res_weight b.2 ?= res_weight a.2)).
  { apply weak_order_flip. apply (weak_order_on (λ a : Z * nat * ResolvedUpstreamPeer, res_weight a.2)), weak_order_Z. }
  apply (weak_order_then (λ a b, Nat.compare a.1.2 b.1.2)).
  { apply (weak_order_on (λ a : Z * nat * ResolvedUpstreamPeer, a.1.2)), weak_order_nat. }
  apply (weak_order_on (λ a : Z * nat * ResolvedUpstreamPeer, res_dial_authority a.2)), str_cmp_weak.
Qed.

Lemma sort_by_ext {A} (c d : A → A → comparison) l :
  (∀ x y, x ∈ l → y ∈ l → c x y = d x y) → sort_by c l = sort_by d l.
Proof.
  induction l as [|x l IH]; intros Hcd; [done|].
  change (insert_by c x (sort_by c l) = insert_by d x (sort_by d l)).
  rewrite IH by (intros y z Hy Hz; apply Hcd; by right).
  assert (Hin : ∀ y, y ∈ sort_by d l → y ∈ l) by (intros y; by rewrite sort_by_perm).
  clear IH. revert Hin. generalize (sort_by d l) as k. induction k as [|y k IHk]; intros Hin; [done|]. cbn.
  rewrite Hcd; [|by left|right; apply Hin; by left].
  destruct (cmp_is_gt (d x y)); [|done]. f_equal. apply IHk. intros z Hz. apply Hin. by right.
Qed.

Lemma filter_no_primary u :
  has_primary_peers u = false → filter (λ p, peer_backup p = false) (up_peers u) = [].
Proof.
  unfold has_primary_peers. induction (up_peers u) as [|p l IH]; [done|]. cbn [existsb].
  rewrite filter_cons, orb_false_iff, negb_false_iff. intros [Hb Hl]. rewrite decide_False by congruence. by apply IH.
Qed.

Section Whole.
Context (resolve : UpstreamPeer → list ResolvedUpstreamPeer) (now : Z) (u : Upstream).
Context (Hplain : ∀ p, p ∈ up_peers u → plain (peer_url p)).
Context (Hresolve : ∀ p e, p ∈ up_peers u → e ∈ resolve p → endpoint_of p e).
Notation shared_health := (shared_health (up_name u) (up_peers u)).
Notation load := (load (up_name u)).
Notation pool := (pool resolve now (up_name u) (up_peers u)).

(** Counters are unsigned. *)
Definition counters_ok (r : PeerHealthRegistry) : Prop :=
  ∀ url, 0 ≤ hs_active_requests (peer_state (up_name u) r url).

Lemma same_counters r r' : same_health r r' → counters_ok r → counters_ok r'.
Proof. intros Hs Hc url. by rewrite (same_state _ r r'). Qed.

(** The least loaded endpoints of a pool: nothing chosen is more loaded, for its
    weight, than anything left out. *)
Definition least_loaded (r : PeerHealthRegistry) (chosen l : list ResolvedUpstreamPeer) : Prop :=
  ∃ rest, chosen ++ rest ≡ₚ l ∧ ∀ x y, x ∈ chosen → y ∈ rest →
    projected_least_conn_load (load r x) (res_weight x) (load r y) (res_weight y) ≠ Gt.

Lemma then_cmp_le c d : then_cmp c d ≠ Gt → c ≠ Gt.
Proof. by destruct c. Qed.

Lemma least_conn_pool_spec r limit b :
  shared_health r → counters_ok r →
  ∃ r' sel, shared_health r' ∧ same_health r r' ∧ fills limit (sel_peers sel) (pool r b) ∧
    least_loaded r (sel_peers sel) (pool r b) ∧
    select_peers_by_least_conn_in_pool resolve now u limit b r = (sel, r').
Proof.
  intros Hs Hc. unfold select_peers_by_least_conn_in_pool.
  assert (Forall (λ q : nat * UpstreamPeer, q.2 ∈ up_peers u) (enumerate (up_peers u))) as Hin.
  { apply Forall_forall. intros [i p] Hi%elem_of_enumerate. by eapply list_elem_of_lookup_2. }
  destruct (least_conn_collect resolve now (up_name u) (up_peers u) Hplain Hresolve r b _ [] 0 Hs Hin)
    as (r' & extra & sk & Hs' & Hsame & -> & Hex & Hload). cbn [app].
  eexists r', _. split_and!; [done..| | |done]; cbn [sel_peers].
  - assert (sort_by least_conn_cmp extra ≡ₚ extra) as Hp by apply sort_by_perm.
    rewrite <-firstn_map. apply fills_take. rewrite Hp, Hex.
    unfold pool, enumerate. by rewrite map_snd_enumerate.
  - exists (map snd (drop limit (sort_by least_conn_cmp extra))). split.
    + rewrite <-map_app, take_drop, sort_by_perm, Hex. unfold pool, enumerate. by rewrite map_snd_enumerate.
    + intros x y ([[ax ix] ex] & -> & Hx)%list_elem_of_fmap ([[ay iy] ey] & -> & Hy)%list_elem_of_fmap.
      set (cmp' := λ a b : Z * nat * ResolvedUpstreamPeer,
        least_conn_cmp (Z.max a.1.1 0, a.1.2, a.2) (Z.max b.1.1 0, b.1.2, b.2)).
      rewrite Forall_forall in Hload.
      assert (sort_by least_conn_cmp extra = sort_by cmp' extra) as Heq.
      { apply sort_by_ext. intros [[aa ia] ea] [[ab ib] eb] Ha Hb. apply Hload in Ha, Hb. cbn in Ha, Hb.
        unfold cmp'. cbn [fst snd]. subst. unfold HealthSelection.load.
        rewrite !Z.max_l by apply Hc. done. }
      rewrite Heq in Hx, Hy.
      pose proof (sort_by_take cmp' extra limit _ _ least_conn_weak Hx Hy) as Hle.
      assert (Hx' : (ax, ix, ex) ∈ extra).
      { rewrite <-(sort_by_perm cmp' extra). eapply elem_of_take in Hx as (i & Hi & _). by eapply list_elem_of_lookup_2. }
      assert (Hy' : (ay, iy, ey) ∈ extra).
      { rewrite <-(sort_by_perm cmp' extra), <-(take_drop limit). apply elem_of_app. by right. }
      apply Hload in Hx', Hy'. cbn in Hx', Hy'. subst.
      unfold cmp', least_conn_cmp in Hle. cbn [fst snd] in Hle. apply then_cmp_le in Hle.
      unfold HealthSelection.load in Hle. rewrite !Z.max_l in Hle by apply Hc. exact Hle.
Qed.

(** Primaries, then backups for what is missing. *)
Definition selection_of (limit : nat) (r : PeerHealthRegistry) (l : list ResolvedUpstreamPeer) : Prop :=
  ∃ prim back, l = prim ++ back ∧ fills limit prim (pool r false) ∧
    fills (limit - length prim) back (pool r true) ∧
    (up_load_balance u = LeastConn → least_loaded r prim (pool r false) ∧ least_loaded r back (pool r true)).

Lemma fills_zero l : fills 0 [] l.
Proof. split; [apply submseteq_nil_l|done]. Qed.

Lemma fills_nil limit : fills limit [] [].
Proof. split; [done|]. by rewrite Nat.min_0_r. Qed.

Lemma least_loaded_nil r l : least_loaded r [] l.
Proof. exists l. split; [done|]. intros x y Hx. by apply not_elem_of_nil in Hx. Qed.

Lemma no_primaries : has_primary_peers u = false → filter (λ p, peer_backup p = false) (up_peers u) = [].
Proof. apply filter_no_primary. Qed.

Lemma no_primary_pool r : has_primary_peers u = false → pool r false = [].
Proof. intros Hn. unfold HealthSelection.pool. by rewrite no_primaries. Qed.

Lemma same_pool r r' b : same_health r r' → pool r' b = pool r b.
Proof. intros Hs. by apply same_batches. Qed.

Lemma same_least_loaded r r' a l : same_health r r' → least_loaded r' a l → least_loaded r a l.
Proof.
  intros Hs (rest & Hp & Hl). exists rest. split; [done|]. intros x y Hx Hy.
  rewrite <-(same_load _ r r' x Hs), <-(same_load _ r r' y Hs). by apply Hl.
Qed.

Lemma least_conn_spec r limit :
  shared_health r → counters_ok r →
  ∃ sel r', select_peers_by_least_conn resolve now u limit r = (sel, r') ∧
    shared_health r' ∧ same_health r r' ∧ selection_of limit r (sel_peers sel).
Proof.
  intros Hs Hc. unfold select_peers_by_least_conn.
  destruct (Nat.eqb_spec limit 0) as [->|Hlimit].
  { eexists _, r. split_and!; [done..|by repeat split|]. exists [], [].
    split_and!; [done|apply fills_zero..|]. intros _. split; apply least_loaded_nil. }
  destruct (has_primary_peers u) eqn:Hprim; cbn [negb].
  2:{ destruct (least_conn_pool_spec r limit true Hs Hc) as (r1 & sel & Hs1 & H1 & Hf & Hl & ->).
      exists sel, r1. split_and!; [done..|]. exists [], (sel_peers sel). rewrite (no_primary_pool r Hprim).
      split_and!; [done|apply fills_nil|by rewrite Nat.sub_0_r|]. intros _. split; [apply least_loaded_nil|done]. }
  destruct (least_conn_pool_spec r limit false Hs Hc) as (r1 & sel & Hs1 & H1 & Hf & Hl & ->).
  assert (Hsecond : ∀ n, n = (limit - length (sel_peers sel))%nat →
    ∃ sel' r', (let '(secondary, r) := select_peers_by_least_conn_in_pool resolve now u n true r1 in
       (merge_selected_peers sel secondary, r)) = (sel', r') ∧
    shared_health r' ∧ same_health r r' ∧ selection_of limit r (sel_peers sel')).
  { intros n ->. destruct (least_conn_pool_spec r1 (limit - length (sel_peers sel)) true Hs1 (same_counters _ _ H1 Hc))
      as (r2 & sel2 & Hs2 & H2 & Hf2 & Hl2 & ->).
    eexists _, r2. split_and!; [done..|by etrans|]. rewrite (same_pool r r1) in Hf2, Hl2 by done.
    exists (sel_peers sel), (sel_peers sel2). split_and!; [done..|]. intros _.
    split; [done|]. by eapply same_least_loaded. }
  destruct (Nat.eqb_spec (length (sel_peers sel)) 0) as [H0|H0]; [apply Hsecond; lia|].
  destruct (Nat.eqb_spec (length (sel_peers sel)) limit) as [Hfull|Hfull]; [|by apply Hsecond].
  exists sel, r1. split_and!; [done..|]. exists (sel_peers sel), []. rewrite app_nil_r, Hfull, Nat.sub_diag.
  split_and!; [done..|apply fills_zero|]. intros _. split; [done|apply least_loaded_nil].
Qed.

Lemma in_pool_spec ip limit b r u0 :
  Forall (λ p, 0 < peer_weight p) (up_peers u) → up_peers u0 = up_peers u → up_name u0 = up_name u →
  shared_health r →
  ∃ sel u' r', select_peers_in_pool resolve now u0 ip limit b r = (Some sel, u', r') ∧
    shared_health r' ∧ same_health r r' ∧ fills limit (sel_peers sel) (pool r b) ∧
    up_peers u' = up_peers u ∧ up_name u' = up_name u.
Proof.
  intros Hw Hp Hn Hs. unfold select_peers_in_pool, backup_peers_for_client_ip, primary_peers_for_client_ip.
  pose proof (peers_for_client_perm u0 ip b ltac:(by rewrite Hp)) as Hperm.
  assert ((if b then peers_for_client_ip_in_pool u0 ip (length (up_peers u0)) true
           else peers_for_client_ip_in_pool u0 ip (length (up_peers u0)) false) =
          peers_for_client_ip_in_pool u0 ip (length (up_peers u0)) b) as -> by (by destruct b).
  destruct (peers_for_client_ip_in_pool u0 ip (length (up_peers u0)) b) as [ordered u'].
  destruct Hperm as (Hperm & Hp' & Hn'). rewrite Hn', Hn. rewrite Hp in Hperm.
  destruct (select_available_spec resolve now (up_name u) (up_peers u) Hplain Hresolve r ordered limit b Hs Hperm)
    as (r' & sel & Hs' & H1 & Hf & ->).
  exists sel, u', r'. split_and!; [done..|congruence|congruence].
Qed.

Lemma select_peers_spec ip limit r :
  Forall (λ p, 0 < peer_weight p) (up_peers u) → shared_health r → counters_ok r →
  ∃ sel u' r', select_peers resolve now u ip limit r = (Some sel, u', r') ∧
    shared_health r' ∧ same_health r r' ∧ selection_of limit r (sel_peers sel).
Proof.
  intros Hw Hs Hc. unfold select_peers. case_bool_decide as Hlb.
  { destruct (least_conn_spec r limit Hs Hc) as (sel & r' & -> & Hs' & H1 & Hsel). by exists sel, u, r'. }
  destruct (has_primary_peers u) eqn:Hprim; cbn [negb].
  2:{ destruct (in_pool_spec ip limit true r u Hw eq_refl eq_refl Hs) as (sel & u' & r' & -> & Hs' & H1 & Hf & _).
      exists sel, u', r'. split_and!; [done..|]. exists [], (sel_peers sel). rewrite (no_primary_pool r Hprim).
      split_and!; [done|apply fills_nil|by rewrite Nat.sub_0_r|done]. }
  destruct (in_pool_spec ip limit false r u Hw eq_refl eq_refl Hs) as (sel & u1 & r1 & -> & Hs1 & H1 & Hf & Hp1 & Hn1).
  destruct (Nat.eqb_spec limit 0) as [->|Hlimit].
  { eexists _, u1, r1. split_and!; [done..|]. exists [], []. by split_and!; [|apply fills_zero..|]. }
  destruct (Nat.eqb_spec (length (sel_peers sel)) limit) as [Hfull|Hfull].
  { exists sel, u1, r1. split_and!; [done..|]. exists (sel_peers sel), [].
    rewrite app_nil_r, Hfull, Nat.sub_diag. by split_and!; [| |apply fills_zero|]. }
  assert ((if (length (sel_peers sel) =? 0)%nat then limit else (limit - length (sel_peers sel))%nat) =
          (limit - length (sel_peers sel))%nat) as -> by (destruct (Nat.eqb_spec (length (sel_peers sel)) 0); lia).
  destruct (in_pool_spec ip (limit - length (sel_peers sel)) true r1 u1 Hw Hp1 Hn1 Hs1)
    as (sel2 & u2 & r2 & -> & Hs2 & H2 & Hf2 & _).
  eexists _, u2, r2. split_and!; [done..|by etrans|]. rewrite (same_pool r r1) in Hf2 by done.
  exists (sel_peers sel), (sel_peers sel2). by split_and!.
Qed.
End Whole.

(** ** A configured registry shares health *)

Lemma allocate_peers_keys peers health next k :
  is_Some ((allocate_peers peers health next).1.1 !! k) ↔ k ∈ map peer_url peers.
Proof.
  unfold allocate_peers. set (step := λ '(m, health, next) peer, _).
  assert (Hgen : ∀ (m0 : PeerHealthMap) h0 n0,
    is_Some ((foldl step (m0, h0, n0) peers).1.1 !! k) ↔ is_Some (m0 !! k) ∨ k ∈ map peer_url peers).
  { induction peers as [|p peers IH]; intros m0 h0 n0; cbn [foldl map]; [set_solver|].
    unfold step at 2. rewrite IH, lookup_insert_is_Some, elem_of_cons. destruct (decide (peer_url p = k)); naive_solver. }
  rewrite Hgen, lookup_empty. split; [intros [[]|]; done|by right].
Qed.

Lemma from_config_peers upstreams notifier name u :
  upstreams !! name = Some u →
  ∃ m, reg_peers (from_config_with_notifier upstreams notifier) !! name = Some m ∧
    ∀ k, is_Some (m !! k) ↔ k ∈ map peer_url (up_peers u).
Proof.
  unfold from_config_with_notifier. set (step := λ '(peers, health, next) '(upstream_name, upstream), _).
  intros Hu. apply elem_of_map_to_list in Hu. pose proof (NoDup_fst_map_to_list upstreams) as Hnd.
  assert (Hout : ∀ (l : list (string * Upstream)) (m0 : gmap string PeerHealthMap) h0 n0,
    name ∉ l.*1 → (foldl step (m0, h0, n0) l).1.1 !! name = m0 !! name).
  { induction l as [|[name' u'] l IH]; intros m0 h0 n0 Hn; [done|]. cbn [foldl]. unfold step at 2.
    destruct (allocate_peers (up_peers u') h0 n0) as [[m1 h1] n1]. cbn in Hn.
    rewrite IH, lookup_insert_ne by set_solver. done. }
  assert (Hgen : ∀ (l : list (string * Upstream)) (m0 : gmap string PeerHealthMap) h0 n0,
    NoDup l.*1 → (name, u) ∈ l →
    ∃ m, (foldl step (m0, h0, n0) l).1.1 !! name = Some m ∧ ∀ k, is_Some (m !! k) ↔ k ∈ map peer_url (up_peers u)).
  { induction l as [|[name' u'] l IH]; intros m0 h0 n0 Hl Hin; [by apply elem_of_nil in Hin|].
    apply NoDup_cons in Hl as [Hn Hl]. cbn [foldl]. unfold step at 2.
    pose proof (allocate_peers_keys (up_peers u') h0 n0) as Hk.
    destruct (allocate_peers (up_peers u') h0 n0) as [[m1 h1] n1].
    apply elem_of_cons in Hin as [[= <- <-]|Hin]; [|by apply IH].
    exists m1. cbn in Hn. by rewrite Hout, lookup_insert_eq. }
  specialize (Hgen (map_to_list upstreams) ∅ ∅ 0%N Hnd Hu).
  by destruct (foldl step _ (map_to_list upstreams)) as [[m h] n].
Qed.

Lemma from_config_shared upstreams notifier name u :
  upstreams !! name = Some u → (∀ p, p ∈ up_peers u → plain (peer_url p)) →
  shared_health name (up_peers u) (from_config_with_notifier upstreams notifier).
Proof.
  intros Hu Hp. destruct (from_config_peers upstreams notifier name u Hu) as (m & Hm & Hk).
  assert (Hl : ∀ key, get_logical_peer (from_config_with_notifier upstreams notifier) name key = m !! key).
  { intros key. unfold get_logical_peer. by rewrite Hm. }
  split.
  - intros p Hin. rewrite Hl, Hk. apply list_elem_of_fmap. by exists p.
  - intros key id. unfold get_endpoint, from_config_with_notifier.
    destruct (foldl _ _ (map_to_list upstreams)) as [[? ?] ?]. cbn. rewrite lookup_fmap, Hu. cbn. done.
  - intros key. rewrite Hl, Hk, list_elem_of_fmap. intros (p & -> & Hin). by apply Hp.
Qed.

Lemma from_config_counters upstreams notifier u :
  counters_ok u (from_config_with_notifier upstreams notifier).
Proof.
  intros url. unfold peer_state. destruct (get_logical_peer _ _ _) as [id|]; [|done].
  rewrite (ro_count _ (from_config_ok upstreams notifier)). by cbn.
Qed.

(** C11.  Selecting peers always completes and offers as many endpoints as it
    may: [min limit n] of the [n] selectable endpoints of the primaries and, for
    what is missing, as many of the backups' (selectable: the peer is available
    and below [max_conns]); nothing that is unavailable or full is offered, and
    with the least-connections policy nothing offered carries more projected
    load than an endpoint of its pool that was left out.  Selecting changes no
    health. *)
Theorem selection_fills_pools (resolve : UpstreamPeer → list ResolvedUpstreamPeer) (now : Z)
    (u : Upstream) (ip : IpAddr) (limit : nat) (r : PeerHealthRegistry) :
  (∀ p, p ∈ up_peers u → plain (peer_url p) ∧ 0 < peer_weight p) →
  (∀ p e, p ∈ up_peers u → e ∈ resolve p → endpoint_of p e) →
  shared_health (up_name u) (up_peers u) r → counters_ok u r →
  ∃ sel u' r', select_peers resolve now u ip limit r = (Some sel, u', r') ∧
    shared_health (up_name u) (up_peers u) r' ∧
    (∀ url, peer_state (up_name u) r' url = peer_state (up_name u) r url) ∧
    selection_of resolve now u limit r (sel_peers sel).
Proof.
  intros Hp He Hs Hc.
  assert (Forall (λ p, 0 < peer_weight p) (up_peers u)) as Hw.
  { apply Forall_forall. intros p Hin. by apply Hp. }
  destruct (select_peers_spec resolve now u (λ p Hin, proj1 (Hp p Hin)) He ip limit r Hw Hs Hc)
    as (sel & u' & r' & Hsel & Hs' & Hsame & Hof).
  exists sel, u', r'. split_and!; [done..| |done]. intros url. by apply same_state.
Qed.

(** ** A concrete selection *)

Definition sample_endpoint (p : UpstreamPeer) : ResolvedUpstreamPeer :=
  mkResolved (peer_url p) (peer_url p) (peer_url p +:+ "|" +:+ "10.0.0.1:80") (peer_url p) "http"
    (peer_authority p) (peer_authority p) (mkSocketAddr (V4 [10; 0; 0; 1]) 80) (peer_authority p)
    (peer_weight p) (peer_backup p) (peer_max_conns p).

Definition sample_resolve (p : UpstreamPeer) : list ResolvedUpstreamPeer := [sample_endpoint p].

Lemma sample_peers_plain lb p : p ∈ up_peers (sample_upstream lb) → plain (peer_url p) ∧ 0 < peer_weight p.
Proof. cbn. rewrite !elem_of_cons, elem_of_nil. intros [->|[->|[->|[]]]]; by vm_compute. Qed.

Lemma sample_resolve_endpoint p e : e ∈ sample_resolve p → endpoint_of p e.
Proof. intros ->%list_elem_of_singleton. unfold endpoint_of, names. cbn. split_and!; try done. right. by eexists. Qed.

(** Both primaries and, for the third endpoint wanted, the backup. *)
Theorem selection_fills_pools_witness :
  ∃ sel u' r', select_peers sample_resolve 0 (sample_upstream LeastConn) (V4 [1; 2; 3; 4]) 3
                 (sample_registry LeastConn) = (Some sel, u', r') ∧
    selection_of sample_resolve 0 (sample_upstream LeastConn) 3 (sample_registry LeastConn) (sel_peers sel).
Proof.
  destruct (selection_fills_pools sample_resolve 0 (sample_upstream LeastConn) (V4 [1; 2; 3; 4]) 3
              (sample_registry LeastConn)) as (sel & u' & r' & Hsel & _ & _ & Hof).
  - exact (sample_peers_plain LeastConn).
  - intros p e _. exact (sample_resolve_endpoint p e).
  - apply (from_config_shared {["app" := sample_upstream LeastConn]} true "app"); [apply lookup_singleton_eq|].
    intros p Hin. exact (proj1 (sample_peers_plain _ p Hin)).
  - exact (from_config_counters {["app" := sample_upstream LeastConn]} true (sample_upstream LeastConn)).
  - exists sel, u', r'. exact (conj Hsel Hof).
Defined.

(** One request under way to a peer with two resolved endpoints is reported
    twice by the peer's snapshot: the endpoints share the peer's counter and the
    snapshot adds them up. *)
Example snapshot_counts_a_request_per_endpoint :
  let first := sample_endpoint (sample_peer "http://a" 1 false) in
  let second := mkResolved (res_url first) (res_logical_peer_url first) "http://a|10.0.0.2:80"
                  (res_display_url first) "http" "http://a" "http://a" (res_socket_addr first) "http://a"
                  1 false (Some 10) in
  let r := (ensure_endpoint "app" (res_endpoint_key first) "http://a" (sample_registry RoundRobin)).2 in
  let r := (ensure_endpoint "app" (res_endpoint_key second) "http://a" r).2 in
  let '(g, r) := track_active_request "app" "http://a" r in
  active_requests r "app" "http://a" = 1 ∧
  sn_active_requests <$> head (us_peers (snapshot_for_upstream (H := RefUri.api)
    (sample_upstream RoundRobin) [first; second] 0 r)) = Some 2.
Proof. by vm_compute. Qed.
