(* ===== verification/CacheTypes.v ===== *)
(** * Response cache: data

    Models the data of [crates/rginx-http/src/cache/mod.rs], [cache/state.rs]
    and [cache/entry/metadata.rs].  Times are u64 milliseconds since the Unix
    epoch, sizes are u64; a [BTreeSet] is its strictly increasing list. *)

From S2P Require Import Prelude RustStr External CacheConfig.

(** ** Requests and statuses *)

(** The parts of an [http::Uri] the source reads. *)
Record Uri : Type := mkUri {
  uri_scheme : option string;
  uri_authority : option string;
  uri_path_and_query : option string;
}.

(** Source: crates/rginx-http/src/cache/mod.rs:119-127 (CacheStatus) *)
Inductive CacheStatus : Type :=
| StHit | StMiss | StBypass | StExpired | StStale | StUpdating | StRevalidated.

#[export] Instance CacheStatus_eq_dec : EqDecision CacheStatus.
Proof. solve_decision. Defined.

(** Source: crates/rginx-http/src/cache/mod.rs:186-196 (CacheStatus::as_header_value) *)
Definition as_header_value (s : CacheStatus) : string :=
  match s with
  | StHit => "HIT"
  | StMiss => "MISS"
  | StBypass => "BYPASS"
  | StExpired => "EXPIRED"
  | StStale => "STALE"
  | StUpdating => "UPDATING"
  | StRevalidated => "REVALIDATED"
  end.

(** ** Index entries *)

(** Source: crates/rginx-http/src/cache/state.rs:115-118 (CachedVaryHeaderValue) *)
Record CachedVaryHeaderValue : Type := mkVary {
  vary_name : string;
  vary_value : option string;
}.

#[export] Instance CachedVaryHeaderValue_eq_dec : EqDecision CachedVaryHeaderValue.
Proof. solve_decision. Defined.

(** Source: crates/rginx-http/src/cache/state.rs:67-71 (CacheIndexEntryKind) *)
Inductive CacheIndexEntryKind : Type := KindResponse | KindHitForPass.

#[export] Instance CacheIndexEntryKind_eq_dec : EqDecision CacheIndexEntryKind.
Proof. solve_decision. Defined.

(** Source: crates/rginx-http/src/cache/state.rs:47-63 (CacheIndexEntry) *)
Record CacheIndexEntry : Type := mkIndexEntry {
  ent_kind : CacheIndexEntryKind;
  ent_hash : string;
  ent_base_key : string;
  ent_stored_at_unix_ms : Z;
  ent_vary : list CachedVaryHeaderValue;
  ent_tags : list string;
  ent_body_size_bytes : Z;
  ent_expires_at_unix_ms : Z;
  ent_grace_until_unix_ms : option Z;
  ent_keep_until_unix_ms : option Z;
  ent_stale_if_error_until_unix_ms : option Z;
  ent_stale_while_revalidate_until_unix_ms : option Z;
  ent_requires_revalidation : bool;
  ent_must_revalidate : bool;
  ent_last_access_unix_ms : Z;
}.

#[export] Instance CacheIndexEntry_eq_dec : EqDecision CacheIndexEntry.
Proof. solve_decision. Defined.

(** Source: crates/rginx-http/src/cache/index.rs:101-103 (CacheIndexEntry::is_hit_for_pass) *)
Definition is_hit_for_pass (e : CacheIndexEntry) : bool :=
  match ent_kind e with KindHitForPass => true | KindResponse => false end.

(** Source: crates/rginx-http/src/cache/index.rs:105-121 (CacheIndexEntry::stable_eq) *)
Definition stable_eq (a b : CacheIndexEntry) : bool :=
  bool_decide (ent_kind a = ent_kind b) &&
  (ent_stored_at_unix_ms a =? ent_stored_at_unix_ms b) &&
  bool_decide (ent_grace_until_unix_ms a = ent_grace_until_unix_ms b) &&
  bool_decide (ent_keep_until_unix_ms a = ent_keep_until_unix_ms b) &&
  str_eqb (ent_hash a) (ent_hash b) &&
  str_eqb (ent_base_key a) (ent_base_key b) &&
  bool_decide (ent_vary a = ent_vary b) &&
  bool_decide (ent_tags a = ent_tags b) &&
  (ent_body_size_bytes a =? ent_body_size_bytes b) &&
  (ent_expires_at_unix_ms a =? ent_expires_at_unix_ms b) &&
  bool_decide (ent_stale_if_error_until_unix_ms a = ent_stale_if_error_until_unix_ms b) &&
  bool_decide (ent_stale_while_revalidate_until_unix_ms a =
               ent_stale_while_revalidate_until_unix_ms b) &&
  Bool.eqb (ent_requires_revalidation a) (ent_requires_revalidation b) &&
  Bool.eqb (ent_must_revalidate a) (ent_must_revalidate b).

(** ** The index *)

(** Source: crates/rginx-http/src/cache/state.rs:75-80 (CacheInvalidationSelector) *)
Inductive CacheInvalidationSelector : Type :=
| SelAll | SelExact (key : string) | SelPrefix (prefix : string) | SelTag (tag : string).

(** Source: crates/rginx-http/src/cache/state.rs:83-86 (CacheInvalidationRule) *)
Record CacheInvalidationRule : Type := mkRule {
  rule_selector : CacheInvalidationSelector;
  rule_created_at_unix_ms : Z;
}.

(** Source: crates/rginx-http/src/cache/state.rs:34-38 (CacheAccessScheduleEntry) *)
Record CacheAccessScheduleEntry : Type := mkSchedule {
  sch_last_access_unix_ms : Z;
  sch_ticket : Z;
  sch_key : string;
}.

#[export] Instance CacheAccessScheduleEntry_eq_dec : EqDecision CacheAccessScheduleEntry.
Proof. solve_decision. Defined.

(** Source: crates/rginx-http/src/cache/state.rs:41-44 (CacheAccessScheduleTicket) *)
Record CacheAccessScheduleTicket : Type := mkTicket {
  tk_last_access_unix_ms : Z;
  tk_ticket : Z;
}.

#[export] Instance CacheAccessScheduleTicket_eq_dec : EqDecision CacheAccessScheduleTicket.
Proof. solve_decision. Defined.

(** Source: crates/rginx-http/src/cache/state.rs:21-31 (CacheIndex) *)
Record CacheIndex : Type := mkIndex {
  idx_entries : gmap string CacheIndexEntry;
  idx_hash_ref_counts : gmap string Z;
  idx_variants : gmap string (list string);
  idx_admission_counts : gmap string Z;
  idx_invalidations : list CacheInvalidationRule;
  idx_current_size_bytes : Z;
  idx_maintenance_next_ticket : Z;
  idx_access_schedule : list CacheAccessScheduleEntry;
  idx_access_ticket_by_key : gmap string CacheAccessScheduleTicket;
}.

Definition empty_index : CacheIndex := mkIndex ∅ ∅ ∅ ∅ [] 0 0 [] ∅.

(** Field updates. *)
Definition with_entries (f : gmap string CacheIndexEntry → gmap string CacheIndexEntry)
    (i : CacheIndex) : CacheIndex :=
  mkIndex (f (idx_entries i)) (idx_hash_ref_counts i) (idx_variants i) (idx_admission_counts i)
    (idx_invalidations i) (idx_current_size_bytes i) (idx_maintenance_next_ticket i)
    (idx_access_schedule i) (idx_access_ticket_by_key i).
Definition with_hash_ref_counts (f : gmap string Z → gmap string Z) (i : CacheIndex) : CacheIndex :=
  mkIndex (idx_entries i) (f (idx_hash_ref_counts i)) (idx_variants i) (idx_admission_counts i)
    (idx_invalidations i) (idx_current_size_bytes i) (idx_maintenance_next_ticket i)
    (idx_access_schedule i) (idx_access_ticket_by_key i).
Definition with_variants (f : gmap string (list string) → gmap string (list string))
    (i : CacheIndex) : CacheIndex :=
  mkIndex (idx_entries i) (idx_hash_ref_counts i) (f (idx_variants i)) (idx_admission_counts i)
    (idx_invalidations i) (idx_current_size_bytes i) (idx_maintenance_next_ticket i)
    (idx_access_schedule i) (idx_access_ticket_by_key i).
Definition with_admission_counts (f : gmap string Z → gmap string Z) (i : CacheIndex) : CacheIndex :=
  mkIndex (idx_entries i) (idx_hash_ref_counts i) (idx_variants i) (f (idx_admission_counts i))
    (idx_invalidations i) (idx_current_size_bytes i) (idx_maintenance_next_ticket i)
    (idx_access_schedule i) (idx_access_ticket_by_key i).
Definition with_invalidations
    (f : list CacheInvalidationRule → list CacheInvalidationRule) (i : CacheIndex) : CacheIndex :=
  mkIndex (idx_entries i) (idx_hash_ref_counts i) (idx_variants i) (idx_admission_counts i)
    (f (idx_invalidations i)) (idx_current_size_bytes i) (idx_maintenance_next_ticket i)
    (idx_access_schedule i) (idx_access_ticket_by_key i).
Definition with_current_size (f : Z → Z) (i : CacheIndex) : CacheIndex :=
  mkIndex (idx_entries i) (idx_hash_ref_counts i) (idx_variants i) (idx_admission_counts i)
    (idx_invalidations i) (f (idx_current_size_bytes i)) (idx_maintenance_next_ticket i)
    (idx_access_schedule i) (idx_access_ticket_by_key i).
Definition with_schedule (next : Z → Z)
    (f : list CacheAccessScheduleEntry → list CacheAccessScheduleEntry)
    (g : gmap string CacheAccessScheduleTicket → gmap string CacheAccessScheduleTicket)
    (i : CacheIndex) : CacheIndex :=
  mkIndex (idx_entries i) (idx_hash_ref_counts i) (idx_variants i) (idx_admission_counts i)
    (idx_invalidations i) (idx_current_size_bytes i) (next (idx_maintenance_next_ticket i))
    (f (idx_access_schedule i)) (g (idx_access_ticket_by_key i)).

(** ** Stored metadata and the context of a store *)

Section Http.
Context {HTTP : HttpApi}.

(** Source: crates/rginx-http/src/cache/mod.rs:105-109 (CacheRequest) *)
Record CacheRequest : Type := mkCacheRequest {
  req_method : string;
  req_uri : Uri;
  req_headers : HeaderMap;
}.

(** Source: crates/rginx-http/src/cache/runtime/context.rs:17-19 (CacheRequest::request_uri) *)
Definition request_uri (r : CacheRequest) : string :=
  default "/"%string (uri_path_and_query (req_uri r)).

(** Source: crates/rginx-http/src/cache/runtime/context.rs:13-15 (CacheRequest::with_method) *)
Definition with_method (r : CacheRequest) (method : string) : CacheRequest :=
  mkCacheRequest method (req_uri r) (req_headers r).

(** Header values are kept as their bytes. *)
(** Source: crates/rginx-http/src/cache/entry/metadata.rs:66-69 (CachedHeader) *)
Record CachedHeader : Type := mkCachedHeader { ch_name : string; ch_value : string }.

(** Source: crates/rginx-http/src/cache/entry/metadata.rs:72-76 (CachedVaryHeader) *)
Record CachedVaryHeader : Type := mkCachedVary { cv_name : string; cv_value : option string }.

(** Source: crates/rginx-http/src/cache/entry/metadata.rs:4-32 (CacheMetadata) *)
Record CacheMetadata : Type := mkMetadata {
  md_key : string;
  md_base_key : string;
  md_vary : list CachedVaryHeader;
  md_tags : list string;
  md_status : Z;
  md_headers : list CachedHeader;
  md_stored_at_unix_ms : Z;
  md_expires_at_unix_ms : Z;
  md_kind : CacheIndexEntryKind;
  md_grace_until_unix_ms : option Z;
  md_keep_until_unix_ms : option Z;
  md_stale_if_error_until_unix_ms : option Z;
  md_stale_while_revalidate_until_unix_ms : option Z;
  md_requires_revalidation : bool;
  md_must_revalidate : bool;
  md_body_size_bytes : Z;
}.

(** Source: crates/rginx-http/src/cache/entry/metadata.rs:79-93 (CacheMetadataInput) *)
Record CacheMetadataInput : Type := mkMetadataInput {
  mi_kind : CacheIndexEntryKind;
  mi_base_key : string;
  mi_vary : list CachedVaryHeaderValue;
  mi_tags : list string;
  mi_stored_at_unix_ms : Z;
  mi_expires_at_unix_ms : Z;
  mi_grace_until_unix_ms : option Z;
  mi_keep_until_unix_ms : option Z;
  mi_stale_if_error_until_unix_ms : option Z;
  mi_stale_while_revalidate_until_unix_ms : option Z;
  mi_requires_revalidation : bool;
  mi_must_revalidate : bool;
  mi_body_size_bytes : Z;
}.

(** Source: crates/rginx-http/src/cache/state.rs:130-133 (CacheConditionalHeaders) *)
Record CacheConditionalHeaders : Type := mkConditional {
  if_none_match : option HeaderValue;
  if_modified_since : option HeaderValue;
}.

(** Source: crates/rginx-http/src/cache/state.rs:141-147 (PreparedCacheResponseHead) *)
Record PreparedCacheResponseHead : Type := mkPreparedHead {
  ph_hash : string;
  ph_metadata : CacheMetadata;
  ph_status : Z;
  ph_headers : HeaderMap;
  ph_conditional_headers : option CacheConditionalHeaders;
}.

(** The zone runtime the context points at is the state of [CacheIndex.v] and
    [CacheLookup.v]; the context keeps its configuration, and whether it holds
    a fill guard is the lock table's business. *)
(** Source: crates/rginx-http/src/cache/mod.rs:88-102 (CacheStoreContext) *)
Record CacheStoreContext : Type := mkStoreContext {
  sc_zone : CacheZone;
  sc_policy : RouteCachePolicy;
  sc_request : CacheRequest;
  sc_base_key : string;
  sc_key : string;
  sc_cache_status : CacheStatus;
  sc_store_response : bool;
  sc_cached_entry : option CacheIndexEntry;
  sc_cached_response_head : option PreparedCacheResponseHead;
  sc_revalidating : bool;
  sc_request_forces_revalidation : bool;
  sc_read_cached_body : bool;
}.

(** Source: crates/rginx-http/src/cache/state.rs:203-207 (CacheStaleReason) *)
Inductive CacheStaleReason : Type :=
| ReasonError | ReasonTimeout | ReasonStatus (status : Z).
End Http.

Arguments mkCacheRequest {HTTP}.
Arguments mkStoreContext {HTTP}.
