(* ===== verification/CacheRequest.v ===== *)
(** * Cache requests: keys, bypass, ranges and vary values

    Models [crates/rginx-http/src/cache/request.rs] and [cache/vary.rs]: which
    requests the cache may answer, the key they are filed under, the slice of
    a range request, and the normalised values of varying headers. *)

From S2P Require Import Prelude RustStr External Template CacheConfig CacheTypes.

(** ** Durations

    A [std::time::Duration] is its number of nanoseconds. *)
Definition duration_from_secs (s : Z) : Z := s * 10 ^ 9.

Section CacheRequest.
Context {HTTP : HttpApi}.

(** ** Directives *)

Definition comma : ascii := ","%char.

(** Source: crates/rginx-http/src/cache/policy/directives.rs:40-49 (cache_control_contains) *)
Definition cache_control_contains (headers : HeaderMap) (directives : list string) : bool :=
  existsb (λ value,
    existsb (λ directive,
      let name := trim (match split_once "="%char directive with
                        | Some (name, _) => name
                        | None => directive
                        end) in
      existsb (eq_ignore_ascii_case name) directives)
      (split comma value))
    (hm_get_all_str headers "cache-control").

(** ** Vary *)

(** Source: crates/rginx-http/src/cache/vary.rs:49-59 (normalized_accept_encoding) *)
Definition normalized_accept_encoding (headers : HeaderMap) : option string :=
  match mapM hv_to_str (hm_get_all headers "accept-encoding") with
  | None => None
  | Some values =>
      match List.filter non_empty (map trim (mjoin (map (split comma) values))) with
      | [] => None
      | tokens => Some (to_ascii_lowercase (str_join "," tokens))
      end
  end.

(** Source: crates/rginx-http/src/cache/vary.rs:28-47 (normalized_request_header_values) *)
Definition normalized_request_header_values (headers : HeaderMap) (name : string)
    : option string :=
  if str_eqb name "accept-encoding" then normalized_accept_encoding headers
  else match hm_get_all_str headers name with
       | [] => None
       | values => Some (str_join "," (map trim values))
       end.

(** Source: crates/rginx-http/src/cache/vary.rs:22-26 (matches_vary_headers) *)
Definition matches_vary_headers (request : CacheRequest) (vary : list CachedVaryHeaderValue)
    : bool :=
  forallb (λ header,
    bool_decide (normalized_request_header_values (req_headers request) (vary_name header) =
                 vary_value header)) vary.

(** ** Range requests *)

(** Source: crates/rginx-http/src/cache/request.rs:13-18 (CacheableRangeRequest) *)
Record CacheableRangeRequest : Type := mkRange {
  request_start : Z;
  request_end : Z;
  cache_start : Z;
  cache_end : Z;
}.

(** Source: crates/rginx-http/src/cache/request.rs:192-209 (parse_single_bounded_byte_range) *)
Definition parse_single_bounded_byte_range (value : string) : option CacheableRangeRequest :=
  value ← strip_prefix "bytes=" (trim value);
  let value := trim value in
  if contains_char comma value then None
  else
    '(start, end_) ← split_once "-"%char value;
    if str_is_empty (trim start) || str_is_empty (trim end_) then None
    else
      start ← parse_u64 (trim start);
      end_ ← parse_u64 (trim end_);
      if start <=? end_ then Some (mkRange start end_ start end_) else None.

(** A zero slice size divides by zero in the source; configuration validation
    ([crates/rginx-config/src/validate/cache.rs]) refuses it, and the lemmas
    below assume it positive. *)
(** Source: crates/rginx-http/src/cache/request.rs:211-225 (cacheable_range_request_for_policy) *)
Definition cacheable_range_request_for_policy (request : CacheableRangeRequest)
    (policy : RouteCachePolicy) : option CacheableRangeRequest :=
  match pol_slice_size_bytes policy with
  | None => Some request
  | Some slice_size =>
      let slice_start := CacheRequest.request_start request / slice_size * slice_size in
      let slice_end := sat_add64 slice_start (sat_sub slice_size 1) in
      if CacheRequest.request_end request <=? slice_end
      then Some (mkRange (CacheRequest.request_start request) (CacheRequest.request_end request)
                   slice_start slice_end)
      else None
  end.

(** Source: crates/rginx-http/src/cache/request.rs:228-230 (CacheableRangeRequest::upstream_header_value) *)
Definition upstream_header_value (r : CacheableRangeRequest) : string :=
  "bytes=" +:+ dec (cache_start r) +:+ "-" +:+ dec (cache_end r).

(** Source: crates/rginx-http/src/cache/request.rs:232-234 (CacheableRangeRequest::needs_downstream_trimming) *)
Definition needs_downstream_trimming (r : CacheableRangeRequest) : bool :=
  negb (request_start r =? cache_start r) || negb (request_end r =? cache_end r).

Definition get_or_head (method : string) : bool := str_eqb method GET || str_eqb method HEAD.

(** Source: crates/rginx-http/src/cache/request.rs:170-186 (cacheable_range_request_from_parts) *)
Definition cacheable_range_request_from_parts (method : string) (headers : HeaderMap)
    (policy : RouteCachePolicy) : option CacheableRangeRequest :=
  if negb (bool_decide (pol_range_requests policy = RangeCache)) || negb (get_or_head method)
  then None
  else match hm_get_all headers "range" with
       | [value] =>
           value ← hv_to_str value;
           range ← parse_single_bounded_byte_range value;
           cacheable_range_request_for_policy range policy
       | _ => None
       end.

(** Source: crates/rginx-http/src/cache/request.rs:188-190 (cache_key_method) *)
Definition cache_key_method (method : string) (policy : RouteCachePolicy) : string :=
  if str_eqb method HEAD && pol_convert_head policy then GET else method.

(** Source: crates/rginx-http/src/cache/request.rs:105-114 (cacheable_range_request) *)
Definition cacheable_range_request (request : CacheRequest) (policy : RouteCachePolicy)
    : option CacheableRangeRequest :=
  cacheable_range_request_from_parts (cache_key_method (req_method request) policy)
    (req_headers request) policy.

(** Source: crates/rginx-http/src/cache/request.rs:116-118 (upstream_cache_request_method) *)
Definition upstream_cache_request_method (method : string) (policy : RouteCachePolicy) : string :=
  cache_key_method method policy.

(** [HeaderValue::from_str(..).expect(..)]: [None] is the panic. *)
(** Source: crates/rginx-http/src/cache/request.rs:120-136 (apply_upstream_range_headers) *)
Definition apply_upstream_range_headers (method : string) (headers : HeaderMap)
    (policy : RouteCachePolicy) : option HeaderMap :=
  match cacheable_range_request_from_parts (cache_key_method method policy) headers policy with
  | None => Some headers
  | Some range =>
      value ← hv_from_str (upstream_header_value range);
      Some (hm_insert "range" value (hm_remove "range" headers))
  end.

(** Source: crates/rginx-http/src/cache/request.rs:138-168 (response_content_range_matches_request) *)
Definition response_content_range_matches_request (request : CacheRequest)
    (policy : RouteCachePolicy) (headers : HeaderMap) : bool :=
  match cacheable_range_request request policy with
  | None => false
  | Some expected =>
      default false (
        value ← hm_get headers "content-range";
        value ← hv_to_str value;
        value ← strip_prefix "bytes " (trim value);
        '(range, _total) ← split_once "/"%char value;
        '(start, end_) ← split_once "-"%char range;
        start ← parse_u64 (trim start);
        end_ ← parse_u64 (trim end_);
        Some ((start =? cache_start expected) && (request_end expected <=? end_) &&
              (end_ <=? cache_end expected)))
  end.

(** ** Bypass *)

(** [content_type.split(';').next().unwrap_or_default().trim().to_ascii_lowercase()]. *)
Definition mime_of (content_type : string) : string :=
  to_ascii_lowercase (trim (default EmptyString (head (split ";"%char content_type)))).

Definition mime_is_grpc (mime : string) : bool :=
  str_eqb mime "application/grpc" || starts_with "application/grpc+" mime ||
  starts_with "application/grpc-web" mime.

Definition has_grpc_content_type (headers : HeaderMap) : bool :=
  match hm_get_str headers "content-type" with
  | Some content_type => mime_is_grpc (mime_of content_type)
  | None => false
  end.

Definition predicate_context (request : CacheRequest) : CachePredicateRequestContext :=
  mkPredicateContext (req_method request) (CacheTypes.request_uri request) (req_headers request).

(** Source: crates/rginx-http/src/cache/request.rs:20-64 (cache_request_bypass) *)
Definition cache_request_bypass (request : CacheRequest) (policy : RouteCachePolicy) : bool :=
  let effective_method := cache_key_method (req_method request) policy in
  if negb (bool_decide (effective_method ∈ pol_methods policy)) then true
  else if negb (get_or_head (req_method request)) then true
  else if hm_contains_key (req_headers request) "authorization" then true
  else if cache_control_contains (req_headers request) ["no-store"%string] then true
  else if str_eqb (req_method request) GET && hm_contains_key (req_headers request) "if-range" &&
          hm_contains_key (req_headers request) "range" then true
  else if hm_contains_key (req_headers request) "range" &&
          negb (bool_decide (is_Some (cacheable_range_request request policy))) then true
  else
    has_grpc_content_type (req_headers request) ||
    match pol_cache_bypass policy with
    | Some predicate => matches_request (predicate_context request) predicate
    | None => false
    end.

(** ** Keys *)

(** Source: crates/rginx-http/src/cache/request.rs:66-103 (render_cache_key) *)
Definition render_cache_key (method : string) (uri : Uri) (headers : HeaderMap)
    (scheme : string) (policy : RouteCachePolicy) : string :=
  let cache_method := cache_key_method method policy in
  let uri_text := default "/"%string (uri_path_and_query uri) in
  let host :=
    match hm_get_str headers "host" with
    | Some value =>
        if negb (str_is_empty (trim value)) then value
        else default "-"%string (uri_authority uri)
    | None => default "-"%string (uri_authority uri)
    end in
  let rendered := render_key (pol_key policy)
    (mkKeyContext scheme host uri_text cache_method headers) in
  let rendered :=
    if negb (pol_convert_head policy) && negb (references_method (pol_key policy))
    then rendered +:+ "|cache-method:" +:+ cache_method else rendered in
  let rendered :=
    match normalized_accept_encoding headers with
    | Some accept_encoding => rendered +:+ "|ae:" +:+ accept_encoding
    | None => rendered
    end in
  match cacheable_range_request_from_parts cache_method headers policy with
  | Some range =>
      rendered +:+ "|range:" +:+ dec (cache_start range) +:+ "-" +:+ dec (cache_end range)
  | None => rendered
  end.
End CacheRequest.

Section Ranges.
Context {HTTP : HttpApi}.

(** ** Range slices *)

Lemma parse_single_bounded_spec value r :
  parse_single_bounded_byte_range value = Some r →
  is_u64 (request_start r) ∧ is_u64 (request_end r) ∧ request_start r ≤ request_end r ∧
  cache_start r = request_start r ∧ cache_end r = request_end r.
Proof.
  unfold parse_single_bounded_byte_range. intros Hp.
  destruct (strip_prefix _ _) as [v|]; [|done]. cbn [mbind option_bind] in Hp.
  destruct (contains_char _ _); [done|].
  destruct (split_once _ _) as [[a b]|]; [|done]. cbn [mbind option_bind] in Hp.
  destruct (_ || _); [done|].
  destruct (parse_u64 (trim a)) as [x|] eqn:Hx; [|done]. cbn [mbind option_bind] in Hp.
  destruct (parse_u64 (trim b)) as [y|] eqn:Hy; [|done]. cbn [mbind option_bind] in Hp.
  destruct (x <=? y) eqn:Hxy; [|done]. injection Hp as <-. boolify.
  apply parse_u64_bound in Hx, Hy. done.
Qed.

(** What a cacheable range promises: it covers the request, and with slices it
    is the aligned slice the request lies in. *)
Definition range_covers (r : CacheableRangeRequest) : Prop :=
  cache_start r ≤ request_start r ≤ request_end r ∧ request_end r ≤ cache_end r ∧
  0 ≤ cache_start r ∧ cache_end r ≤ u64_max.

Lemma range_for_policy_covers policy r r' :
  is_u64 (request_start r) → is_u64 (request_end r) → request_start r ≤ request_end r →
  cache_start r = request_start r → cache_end r = request_end r →
  (∀ n, pol_slice_size_bytes policy = Some n → 0 < n) →
  cacheable_range_request_for_policy r policy = Some r' →
  range_covers r' ∧ request_start r' = request_start r ∧ request_end r' = request_end r.
Proof.
  unfold cacheable_range_request_for_policy, range_covers, is_u64, u64_max.
  intros Hs He Hle Hcs Hce Hn Hr. destruct (pol_slice_size_bytes policy) as [n|].
  - specialize (Hn n eq_refl). destruct (_ <=? _) eqn:Hc; [|done]. injection Hr as <-.
    boolify. cbn. pose proof (Z.div_mod (request_start r) n ltac:(lia)).
    pose proof (Z.mod_pos_bound (request_start r) n Hn).
    pose proof (Z.div_pos (request_start r) n ltac:(lia) Hn).
    unfold sat_add64, sat_sub, u64_max in *. split_and!; try done; nia.
  - injection Hr as <-. split_and!; try done; lia.
Qed.

Lemma range_for_policy_slice policy n r r' :
  pol_slice_size_bytes policy = Some n →
  cacheable_range_request_for_policy r policy = Some r' →
  let slice_start := request_start r / n * n in
  let slice_end := sat_add64 slice_start (sat_sub n 1) in
  request_end r ≤ slice_end ∧
  r' = mkRange (request_start r) (request_end r) slice_start slice_end.
Proof.
  unfold cacheable_range_request_for_policy. intros ->.
  destruct (_ <=? _) eqn:Hc; [|done]. intros [= <-]. by boolify.
Qed.

Lemma range_from_parts_inv method headers policy r :
  cacheable_range_request_from_parts method headers policy = Some r →
  pol_range_requests policy = RangeCache ∧ get_or_head method = true ∧
  ∃ hv value r0, hm_get_all headers "range" = [hv] ∧ hv_to_str hv = Some value ∧
    parse_single_bounded_byte_range value = Some r0 ∧
    cacheable_range_request_for_policy r0 policy = Some r.
Proof.
  unfold cacheable_range_request_from_parts. intros Hr.
  destruct (negb _ || negb _) eqn:Hg; [done|]. boolify.
  match goal with H : bool_decide _ = true |- _ => apply bool_decide_eq_true in H end.
  destruct (hm_get_all headers "range") as [|hv [|]]; [done| |done].
  destruct (hv_to_str hv) as [value|] eqn:Hv; [|done]. cbn [mbind option_bind] in Hr.
  destruct (parse_single_bounded_byte_range value) as [r0|] eqn:Hp; [|done].
  split_and!; [done|done|]. by exists hv, value, r0.
Qed.

(** A range request the cache accepts is answered from a slice that
    contains it: the cached bytes cover the requested ones, and with slicing
    on they start at a multiple of the slice size, end at the last byte of
    that slice (clamped to u64), and are the same for every other accepted
    request that starts in the slice. *)
Theorem cacheable_range_covers_request (method method' : string) (headers headers' : HeaderMap)
    (policy : RouteCachePolicy) (r : CacheableRangeRequest) :
  (∀ n, pol_slice_size_bytes policy = Some n → 0 < n) →
  cacheable_range_request_from_parts method headers policy = Some r →
  range_covers r ∧
  ∀ n, pol_slice_size_bytes policy = Some n →
    (cache_start r) mod n = 0 ∧ cache_end r = Z.min (cache_start r + n - 1) u64_max ∧
    ∀ r', cacheable_range_request_from_parts method' headers' policy = Some r' →
      cache_start r ≤ request_start r' ≤ cache_end r →
      cache_start r' = cache_start r ∧ cache_end r' = cache_end r.
Proof.
  intros Hn Hr. apply range_from_parts_inv in Hr as (_ & _ & hv & value & r0 & _ & _ & Hp & Hr).
  destruct (parse_single_bounded_spec _ _ Hp) as (Hs & He & Hle & Hcs & Hce).
  destruct (range_for_policy_covers policy r0 r) as (Hcov & Hrs & Hre); try done.
  split; [done|]. intros n Hslice. specialize (Hn n Hslice).
  destruct (range_for_policy_slice _ _ _ _ Hslice Hr) as [Hle0 ->]. cbn in *.
  split_and!; [apply Z.mod_mul; lia|unfold sat_add64, sat_sub; lia|].
  intros r' Hr' Hin.
  apply range_from_parts_inv in Hr' as (_ & _ & hv' & value' & r0' & _ & _ & Hp' & Hr').
  destruct (parse_single_bounded_spec _ _ Hp') as (Hs' & He' & Hle' & _ & _).
  destruct (range_for_policy_slice _ _ _ _ Hslice Hr') as [Hle1 ->]. cbn in *.
  enough (request_start r0' / n = request_start r0 / n) as -> by done.
  unfold is_u64, u64_max, sat_add64, sat_sub in *. symmetry.
  apply (Z.div_unique_pos _ _ _ (request_start r0' - request_start r0 / n * n)); lia.
Qed.

(** ** The upstream request *)

Lemma upstream_header_value_visible r : str_all value_char_ok (upstream_header_value r) = true.
Proof.
  assert (∀ n, str_all value_char_ok (dec n) = true) as Hd.
  { intros n. eapply str_all_impl; [|apply dec_digits].
    unfold is_ascii_digit, value_char_ok, in_range. intros. boolify. lia. }
  unfold upstream_header_value. by rewrite !str_all_app, !Hd.
Qed.

Lemma upstream_header_value_parses r :
  is_u64 (cache_start r) → is_u64 (cache_end r) → cache_start r ≤ cache_end r →
  parse_single_bounded_byte_range (upstream_header_value r) =
  Some (mkRange (cache_start r) (cache_end r) (cache_start r) (cache_end r)).
Proof.
  intros Hs He Hle. unfold parse_single_bounded_byte_range, upstream_header_value.
  set (tail := dec (cache_start r) +:+ "-" +:+ dec (cache_end r)).
  assert (Hg : str_all is_graphic tail = true).
  { unfold tail. rewrite !str_all_app. by rewrite !(digits_graphic (dec _)) by apply dec_digits. }
  rewrite (trim_graphic ("bytes=" +:+ tail)) by (rewrite str_all_app, Hg; done).
  rewrite strip_prefix_app. cbn [mbind option_bind]. rewrite (trim_graphic tail) by done.
  assert (Hd : ∀ c n, is_ascii_digit c = false → contains_char c (dec n) = false).
  { intros. apply digits_no_char; [done|apply dec_digits]. }
  unfold tail. rewrite !contains_char_app, !Hd by done. cbn [orb].
  change (contains_char comma "-") with false. cbn iota.
  change ("-" +:+ dec (cache_end r)) with (String "-"%char (dec (cache_end r))).
  rewrite split_once_app by by apply Hd. cbn [mbind option_bind]. rewrite !trim_dec.
  assert (∀ n, str_is_empty (dec n) = false) as Hne.
  { intros n. pose proof (dec_nonempty n). by destruct (dec n). }
  rewrite !Hne. cbn [orb]. rewrite !parse_u64_dec by done. cbn [mbind option_bind].
  by rewrite (proj2 (Z.leb_le _ _)).
Qed.

(** Preparing an upstream request never panics, leaves every other header
    alone, and asks the upstream for exactly the slice the key was rendered
    with: its single [Range] header parses to the cached interval. *)
Theorem upstream_range_is_cached_slice `{!HttpLaws HTTP} (method : string) (headers : HeaderMap)
    (policy : RouteCachePolicy) :
  (∀ n, pol_slice_size_bytes policy = Some n → 0 < n) →
  ∃ headers', apply_upstream_range_headers method headers policy = Some headers' ∧
    (∀ name, name ≠ "range"%string → hm_get_all headers' name = hm_get_all headers name) ∧
    match cacheable_range_request_from_parts (cache_key_method method policy) headers policy with
    | None => headers' = headers
    | Some r => ∃ v value, hm_get_all headers' "range" = [v] ∧ hv_to_str v = Some value ∧
        parse_single_bounded_byte_range value =
        Some (mkRange (cache_start r) (cache_end r) (cache_start r) (cache_end r))
    end.
Proof.
  intros Hn. unfold apply_upstream_range_headers.
  destruct (cacheable_range_request_from_parts _ headers policy) as [r|] eqn:Hr;
    [|by exists headers].
  apply range_from_parts_inv in Hr as (_ & _ & hv & value & r0 & _ & _ & Hp & Hr).
  destruct (parse_single_bounded_spec _ _ Hp) as (Hs & He & Hle & Hcs & Hce).
  destruct (range_for_policy_covers policy r0 r) as ((Hc1 & Hc2 & Hc3 & Hc4) & _); try done.
  destruct (hv_from_str_visible _ (upstream_header_value_visible r)) as (v & -> & Hv).
  cbn [mbind option_bind]. eexists. split; [done|]. split.
  - intros name Hname. by rewrite hm_get_all_insert_ne, hm_get_all_remove_ne.
  - exists v, (upstream_header_value r). rewrite hm_get_all_insert_eq. split_and!; [done|done|].
    unfold u64_max in *. apply upstream_header_value_parses; unfold is_u64; lia.
Qed.
End Ranges.

(** ** Concrete requests *)

Definition sample_policy : RouteCachePolicy :=
  mkRouteCachePolicy "zone" [GET] [200] [] (mkCacheKeyTemplate "{uri}" [Variable_ KeyUri])
    None None None None None None [] false 0 0 1 [] RangeCache (Some 8) true.

Definition sample_headers : @HeaderMap RefHttp.api := [("range", "bytes=17-20")]%string.

Theorem cacheable_range_covers_request_witness :
  range_covers (mkRange 17 20 16 23).
Proof.
  apply (@cacheable_range_covers_request RefHttp.api GET GET sample_headers sample_headers
           sample_policy (mkRange 17 20 16 23)).
  - intros n [= <-]. lia.
  - vm_compute. reflexivity.
Defined.

Theorem upstream_range_is_cached_slice_witness :
  ∃ headers', apply_upstream_range_headers (HTTP := RefHttp.api) HEAD sample_headers sample_policy =
    Some headers'.
Proof.
  destruct (@upstream_range_is_cached_slice RefHttp.api RefHttp.laws HEAD sample_headers
              sample_policy) as (h & Hh & _).
  - intros n [= <-]. lia.
  - exists h. exact Hh.
Defined.

(** ** Keys of different resources *)

(** The default key template of [crates/rginx-config/src/compile/cache.rs]. *)
Definition default_key : CacheKeyTemplate :=
  mkCacheKeyTemplate "{scheme}:{host}:{uri}"
    [Variable_ KeyScheme; Literal ":"; Variable_ KeyHost; Literal ":"; Variable_ KeyUri].

Definition default_key_policy : RouteCachePolicy :=
  mkRouteCachePolicy "zone" [GET; HEAD] [200] [] default_key
    None None None None None None [] false 0 0 1 [] RangeBypass None true.

(** The suffixes are appended without escaping, and an [http::Uri] may hold
    [|]: with the default key, a request for [/x|ae:gzip] that accepts no
    encoding is filed under the key of a request for [/x] that accepts gzip,
    so each may be answered with the other's response. *)
Example render_cache_key_collision :
  render_cache_key (HTTP := RefHttp.api) GET (mkUri None None (Some "/x|ae:gzip"%string))
    [("host", "example.com")]%string "https" default_key_policy =
  render_cache_key (HTTP := RefHttp.api) GET (mkUri None None (Some "/x"%string))
    [("host", "example.com"); ("accept-encoding", "gzip")]%string "https" default_key_policy.
Proof. vm_compute. reflexivity. Qed.
