(* ===== verification/CachePolicy.v ===== *)
(** * Cache policy: freshness, storability and lifetimes

    Models [crates/rginx-http/src/cache/policy.rs], [cache/policy/directives.rs],
    [cache/store/helpers.rs], [cache/runtime/support.rs] and the decisions of
    [cache/runtime/context.rs]: what a response's headers say, which responses
    may be stored, the deadlines an entry is given, and when a stale entry may
    be served.  [now_ns] is the wall clock in nanoseconds since the Unix epoch,
    [now] the same in u64 milliseconds. *)

From S2P Require Import Prelude RustStr External Template CacheConfig CacheTypes CacheRequest.

Definition dquote : ascii := Ascii.ascii_of_nat 34.

(** [duration.as_millis().min(u64::MAX) as u64]. *)
(** Source: crates/rginx-http/src/cache/store.rs:126-128 (duration_to_ms) *)
Definition duration_to_ms (duration : Z) : Z := Z.min (duration / 10 ^ 6) u64_max.

Section Policy.
Context {HTTP : HttpApi} {DATE : HttpDateApi}.

(** ** Directives *)

(** The [name=value] pairs of every readable [Cache-Control] value, in order. *)
Definition cache_control_pairs (headers : HeaderMap) : list (string * string) :=
  omap (split_once "="%char)
    (map trim (mjoin (map (split comma) (hm_get_all_str headers "cache-control")))).

Definition directive_seconds (value : string) : option Z :=
  parse_u64 (trim_matches dquote (trim value)).

Definition named (name directive : string) : bool :=
  eq_ignore_ascii_case (trim name) directive.

Fixpoint max_age_loop (pairs : list (string * string)) (max_age : option Z) : option Z :=
  match pairs with
  | [] => max_age
  | (name, value) :: pairs =>
      if named name "s-maxage" || named name "max-age" then
        match directive_seconds value with
        | None => max_age_loop pairs max_age
        | Some seconds =>
            let duration := duration_from_secs seconds in
            if named name "s-maxage" then Some duration
            else max_age_loop pairs (match max_age with None => Some duration | _ => max_age end)
        end
      else max_age_loop pairs max_age
  end.

(** Source: crates/rginx-http/src/cache/policy/directives.rs:5-32 (cache_control_max_age) *)
Definition cache_control_max_age (headers : HeaderMap) : option Z :=
  max_age_loop (cache_control_pairs headers) None.

(** Source: crates/rginx-http/src/cache/policy/directives.rs:59-81 (cache_control_duration) *)
Definition cache_control_duration (headers : HeaderMap) (directive_name : string) : option Z :=
  find_map (λ '(name, value),
    if named name directive_name then duration_from_secs <$> directive_seconds value else None)
    (cache_control_pairs headers).

(** Source: crates/rginx-http/src/cache/policy/directives.rs:51-57 (pragma_contains) *)
Definition pragma_contains (headers : HeaderMap) (directive : string) : bool :=
  existsb (λ value, existsb (λ token, eq_ignore_ascii_case token directive)
                      (map trim (split comma value)))
    (hm_get_all_str headers "pragma").

(** [t.duration_since(SystemTime::now()).unwrap_or(Duration::ZERO)]. *)
Definition until (t now_ns : Z) : Z := Z.max (t - now_ns) 0.

(** Source: crates/rginx-http/src/cache/policy/directives.rs:34-38 (expires_ttl) *)
Definition expires_ttl (now_ns : Z) (headers : HeaderMap) : option Z :=
  expires ← hm_get headers "expires";
  expires ← hv_to_str expires;
  expires ← parse_http_date expires;
  Some (until expires now_ns).

(** [UNIX_EPOCH.checked_add]: a [SystemTime] counts its seconds in an i64. *)
Definition epoch_checked_add (seconds : Z) : option Z :=
  if seconds <=? 2 ^ 63 - 1 then Some (duration_from_secs seconds) else None.

(** Source: crates/rginx-http/src/cache/policy/directives.rs:83-94 (x_accel_expires_ttl) *)
Definition x_accel_expires_ttl (now_ns : Z) (headers : HeaderMap) : option Z :=
  value ← hm_get headers "x-accel-expires";
  value ← hv_to_str value;
  let value := trim value in
  if str_eqb value "0" then Some 0
  else match strip_prefix "@" value with
       | Some value =>
           seconds ← parse_u64 value;
           expires_at ← epoch_checked_add seconds;
           Some (until expires_at now_ns)
       | None => duration_from_secs <$> parse_u64 value
       end.

(** ** Freshness *)

(** Source: crates/rginx-http/src/cache/policy.rs:215-217 (ignores_header) *)
Definition ignores_header (context : CacheStoreContext) (header : CacheIgnoreHeader) : bool :=
  bool_decide (header ∈ pol_ignore_headers (sc_policy context)).

(** [(!ignores_header(context, h)).then(|| o).flatten()]. *)
Definition unless_ignored {A} (context : CacheStoreContext) (h : CacheIgnoreHeader)
    (o : option A) : option A :=
  if ignores_header context h then None else o.

(** [a.or_else(|| b)]. *)
Definition or_else {A} (a b : option A) : option A :=
  match a with Some _ => a | None => b end.

(** Source: crates/rginx-http/src/cache/policy.rs:156-182 (response_ttl) *)
Definition response_ttl (now_ns : Z) (context : CacheStoreContext) (status : Z)
    (headers : HeaderMap) : Z :=
  default (zone_default_ttl (sc_zone context))
    (or_else (unless_ignored context IgnoreXAccelExpires (x_accel_expires_ttl now_ns headers))
    (or_else (unless_ignored context IgnoreCacheControl (cache_control_max_age headers))
    (or_else (unless_ignored context IgnoreExpires (expires_ttl now_ns headers))
      (find_map (λ rule,
         if bool_decide (status ∈ rule_statuses rule) then Some (rule_ttl rule) else None)
         (pol_ttl_by_status (sc_policy context)))))).

(** Source: crates/rginx-http/src/cache/policy.rs:25-31 (ResponseFreshness) *)
Record ResponseFreshness : Type := mkFreshness {
  fr_ttl : Z;
  fr_stale_if_error : option Z;
  fr_stale_while_revalidate : option Z;
  fr_requires_revalidation : bool;
  fr_must_revalidate : bool;
}.

(** Source: crates/rginx-http/src/cache/policy.rs:103-122 (response_freshness) *)
Definition response_freshness (now_ns : Z) (context : CacheStoreContext) (status : Z)
    (headers : HeaderMap) : ResponseFreshness :=
  let honours := negb (ignores_header context IgnoreCacheControl) in
  mkFreshness
    (response_ttl now_ns context status headers)
    (or_else (unless_ignored context IgnoreCacheControl
                (cache_control_duration headers "stale-if-error"))
             (pol_stale_if_error (sc_policy context)))
    (unless_ignored context IgnoreCacheControl
       (cache_control_duration headers "stale-while-revalidate"))
    (honours && cache_control_contains headers ["no-cache"%string])
    (honours && cache_control_contains headers ["must-revalidate"; "proxy-revalidate"]%string).

(** Source: crates/rginx-http/src/cache/policy.rs:124-128 (request_requires_revalidation) *)
Definition request_requires_revalidation (headers : HeaderMap) : bool :=
  cache_control_contains headers ["no-cache"%string] ||
  bool_decide (cache_control_duration headers "max-age" = Some 0) ||
  pragma_contains headers "no-cache".

(** Source: crates/rginx-http/src/cache/policy.rs:134-145 (response_no_cache) *)
Definition response_no_cache (context : CacheStoreContext) (status : Z) : bool :=
  match pol_no_cache (sc_policy context) with
  | Some predicate => matches_response (predicate_context (sc_request context)) status predicate
  | None => false
  end.

(** ** Vary *)

Definition name_cmp (a b : string) : comparison := str_cmp a b.

(** The names one [Vary] value lists; [None] when it holds [*] or a name that
    is not a header name. *)
Fixpoint vary_tokens (tokens : list string) (names : list string) : option (list string) :=
  match tokens with
  | [] => Some names
  | token :: tokens =>
      if str_eqb token "*" then None
      else
        name ← header_name_parse token;
        vary_tokens tokens (if bool_decide (name ∈ names) then names else names ++ [name])
  end.

Fixpoint vary_values (values : list HeaderValue) (names : list string) : option (list string) :=
  match values with
  | [] => Some names
  | value :: values =>
      value ← hv_to_str value;
      names ← vary_tokens (List.filter non_empty (map trim (split comma value))) names;
      vary_values values names
  end.

(** Source: crates/rginx-http/src/cache/policy.rs:188-204 (vary_headers) *)
Definition vary_headers (headers : HeaderMap) : option (list string) :=
  sort_by name_cmp <$> vary_values (hm_get_all headers "vary") [].

(** Source: crates/rginx-http/src/cache/policy.rs:184-186 (vary_is_supported) *)
Definition vary_is_supported (context : CacheStoreContext) (headers : HeaderMap) : bool :=
  ignores_header context IgnoreVary || bool_decide (is_Some (vary_headers headers)).

(** ** Storability *)

(** Source: crates/rginx-http/src/cache/policy.rs:34-38 (ResponseBodySize) *)
Record ResponseBodySize : Type := mkBodySize {
  bs_exact : option Z;
  bs_lower : Z;
  bs_upper : option Z;
}.

(** Source: crates/rginx-http/src/cache/policy.rs:232-235 (ResponseBodySize::exact) *)
Definition body_size_exact (body_size_bytes : Z) : ResponseBodySize :=
  mkBodySize (Some body_size_bytes) body_size_bytes (Some body_size_bytes).

(** Source: crates/rginx-http/src/cache/policy.rs:206-213 (status_is_cacheable) *)
Definition status_is_cacheable (context : CacheStoreContext) (status : Z)
    (has_cacheable_request_range : bool) : bool :=
  bool_decide (status ∈ pol_statuses (sc_policy context)) ||
  ((status =? 206) && has_cacheable_request_range).

(** Source: crates/rginx-http/src/cache/policy.rs:219-224 (parse_content_length) *)
Definition parse_content_length (headers : HeaderMap) : option Z :=
  hm_get_str headers "content-length" ≫= parse_u64.

(** Source: crates/rginx-http/src/cache/policy.rs:147-154 (response_is_grpc) *)
Definition response_is_grpc (headers : HeaderMap) : bool :=
  match hm_get_str headers "content-type" with
  | Some content_type =>
      let mime := mime_of content_type in
      eq_ignore_ascii_case mime "application/grpc" || starts_with "application/grpc+" mime ||
      starts_with "application/grpc-web" mime
  | None => false
  end.

Definition exceeds (limit : Z) (o : option Z) : bool :=
  match o with Some n => limit <? n | None => false end.

(** Source: crates/rginx-http/src/cache/policy.rs:49-101 (response_is_storable_with_size) *)
Definition response_is_storable_with_size (context : CacheStoreContext) (status : Z)
    (headers : HeaderMap) (body_size : ResponseBodySize) : bool :=
  let max_entry_bytes := zone_max_entry_bytes (sc_zone context) in
  let has_range :=
    bool_decide (is_Some (cacheable_range_request (sc_request context) (sc_policy context))) in
  if negb (status_is_cacheable context status has_range) then false
  else if has_range && negb (status =? 206) then false
  else if (if status =? 206
           then negb has_range ||
                negb (response_content_range_matches_request (sc_request context)
                        (sc_policy context) headers)
           else hm_contains_key headers "content-range") then false
  else if negb (ignores_header context IgnoreSetCookie) && hm_contains_key headers "set-cookie"
       then false
  else if negb (vary_is_supported context headers) then false
  else if response_is_grpc headers then false
  else if negb (ignores_header context IgnoreCacheControl) &&
          cache_control_contains headers ["no-store"; "private"]%string then false
  else if exceeds max_entry_bytes (parse_content_length headers) then false
  else if exceeds max_entry_bytes (bs_exact body_size) then false
  else if (max_entry_bytes <? bs_lower body_size) || exceeds max_entry_bytes (bs_upper body_size)
       then false
  else true.
End Policy.

(** ** What may be stored *)

Section Storable.
Context {HTTP : HttpApi}.

(** The promises a stored response keeps, header by header. *)
Record storable_spec (context : CacheStoreContext) (status : Z) (headers : HeaderMap)
    (body_size : ResponseBodySize) : Prop := {
  spec_status :
    match cacheable_range_request (sc_request context) (sc_policy context) with
    | Some _ => status = 206 ∧
        response_content_range_matches_request (sc_request context) (sc_policy context) headers
        = true
    | None => status ≠ 206 ∧ status ∈ pol_statuses (sc_policy context) ∧
        hm_get_all headers "content-range" = []
    end;
  spec_set_cookie :
    IgnoreSetCookie ∈ pol_ignore_headers (sc_policy context) ∨
    hm_get_all headers "set-cookie" = [];
  spec_vary :
    IgnoreVary ∈ pol_ignore_headers (sc_policy context) ∨ is_Some (vary_headers headers);
  spec_cache_control :
    IgnoreCacheControl ∈ pol_ignore_headers (sc_policy context) ∨
    cache_control_contains headers ["no-store"; "private"]%string = false;
  spec_grpc : response_is_grpc headers = false;
  spec_size :
    let max := zone_max_entry_bytes (sc_zone context) in
    (∀ n, parse_content_length headers = Some n → n ≤ max) ∧
    (∀ n, bs_exact body_size = Some n → n ≤ max) ∧
    bs_lower body_size ≤ max ∧ (∀ n, bs_upper body_size = Some n → n ≤ max);
}.

Lemma exceeds_false limit o : exceeds limit o = false ↔ ∀ n, o = Some n → n ≤ limit.
Proof. destruct o as [n|]; simpl; [rewrite Z.ltb_ge|]; naive_solver. Qed.

Lemma contains_key_false headers name :
  hm_contains_key headers name = false ↔ hm_get_all headers name = [].
Proof. unfold hm_contains_key. by destruct (hm_get_all headers name). Qed.

Lemma if_false_true (b c : bool) : (if b then false else c) = true ↔ b = false ∧ c = true.
Proof. destruct b; naive_solver. Qed.

Lemma ignored_or (context : CacheStoreContext) h (b : bool) :
  negb (ignores_header context h) && b = false ↔
  h ∈ pol_ignore_headers (sc_policy context) ∨ b = false.
Proof. unfold ignores_header. case_bool_decide; destruct b; naive_solver. Qed.

(** A response is stored exactly when it may be: the status and the
    [Content-Range] are those of the request, no [Set-Cookie], no [no-store] or
    [private] and no unsupported [Vary] (unless the policy ignores that
    header), no gRPC payload, and no size above the zone's limit. *)
Theorem storable_iff_spec (context : CacheStoreContext) (status : Z) (headers : HeaderMap)
    (body_size : ResponseBodySize) :
  response_is_storable_with_size context status headers body_size = true ↔
  storable_spec context status headers body_size.
Proof.
  unfold response_is_storable_with_size. cbv zeta. rewrite !if_false_true.
  rewrite !ignored_or, !exceeds_false, contains_key_false, orb_false_iff, exceeds_false,
    Z.ltb_ge, !negb_false_iff.
  unfold vary_is_supported, ignores_header, status_is_cacheable.
  rewrite !orb_true_iff, !bool_decide_eq_true.
  assert (Hstatus : ∀ P : Prop,
    ((status ∈ pol_statuses (sc_policy context) ∨ (status =? 206) &&
      bool_decide (is_Some (cacheable_range_request (sc_request context) (sc_policy context)))
      = true) ∧
     bool_decide (is_Some (cacheable_range_request (sc_request context) (sc_policy context))) &&
      negb (status =? 206) = false ∧
     (if status =? 206 then
        negb (bool_decide (is_Some (cacheable_range_request (sc_request context)
                (sc_policy context)))) ||
        negb (response_content_range_matches_request (sc_request context)
                (sc_policy context) headers)
      else hm_contains_key headers "content-range") = false ∧ P) ↔
    match cacheable_range_request (sc_request context) (sc_policy context) with
    | Some _ => status = 206 ∧
        response_content_range_matches_request (sc_request context) (sc_policy context) headers
        = true
    | None => status ≠ 206 ∧ status ∈ pol_statuses (sc_policy context) ∧
        hm_get_all headers "content-range" = []
    end ∧ P).
  { intros P. destruct (cacheable_range_request _ _) as [r|]; case_bool_decide as Hr;
      [|by destruct Hr|by destruct Hr|]; destruct (Z.eqb_spec status 206); cbn [negb orb andb];
      rewrite ?contains_key_false, ?negb_false_iff; naive_solver. }
  rewrite Hstatus. split.
  - intros (H1 & H2 & H3 & H4 & H5 & H6 & H7 & (H8 & H9) & _). by constructor.
  - intros [H1 H2 H3 H4 H5 (H6 & H7 & H8 & H9)]. tauto.
Qed.
End Storable.
