(* ===== verification/CacheStore.v ===== *)
(** * Storing responses: keys, metadata, deadlines and stale service

    Models [crates/rginx-http/src/cache/store/helpers.rs],
    [cache/entry/signature.rs], [cache/entry/metadata.rs], the header side of
    [cache/entry/response.rs], [cache/runtime/support.rs] and
    [cache/runtime/context.rs]. *)

From S2P Require Import Prelude RustStr External Template CacheConfig CacheTypes CacheRequest CachePolicy.

(** ** Deadlines *)

(** Source: crates/rginx-http/src/cache/store/helpers.rs:63-70 (max_deadline) *)
Definition max_deadline (a b : option Z) : option Z :=
  match a, b with
  | Some a, Some b => Some (Z.max a b)
  | Some a, None => Some a
  | None, Some b => Some b
  | None, None => None
  end.

(** [duration.map(|d| at.saturating_add(duration_to_ms(d)))]. *)
Definition deadline_after (at_ms : Z) (duration : option Z) : option Z :=
  (λ d, sat_add64 at_ms (duration_to_ms d)) <$> duration.


(** Source: crates/rginx-http/src/cache/store/helpers.rs:12-61 (cache_metadata_input) *)
Definition cache_metadata_input (base_key : string) (vary : list CachedVaryHeaderValue)
    (tags : list string) (now : Z) (grace keep : option Z) (freshness : ResponseFreshness)
    (body_size_bytes : Z) : CacheMetadataInput :=
  let expires_at := sat_add64 now (duration_to_ms (fr_ttl freshness)) in
  let stale_if_error_until := deadline_after expires_at (fr_stale_if_error freshness) in
  let stale_while_revalidate_until :=
    deadline_after expires_at (fr_stale_while_revalidate freshness) in
  let grace_until :=
    max_deadline (deadline_after expires_at grace) stale_while_revalidate_until in
  let configured_keep_until := deadline_after expires_at keep in
  let keep_until := max_deadline configured_keep_until
                      (max_deadline grace_until stale_if_error_until) in
  let keep_until :=
    if is_some configured_keep_until || is_some grace_until || is_some stale_if_error_until
    then keep_until else None in
  mkMetadataInput KindResponse base_key vary tags now expires_at grace_until keep_until
    stale_if_error_until stale_while_revalidate_until
    (fr_requires_revalidation freshness) (fr_must_revalidate freshness) body_size_bytes.

(** Source: crates/rginx-http/src/cache/store/helpers.rs:114-120 (freshness_is_cacheable) *)
Definition freshness_is_cacheable (f : ResponseFreshness) : bool :=
  negb (fr_ttl f =? 0) || fr_requires_revalidation f || fr_must_revalidate f ||
  is_some (fr_stale_if_error f) || is_some (fr_stale_while_revalidate f).

(** ** Lifecycle *)

(** Source: crates/rginx-http/src/cache/runtime/support.rs:8-13 (CacheEntryLifecyclePhase) *)
Inductive CacheEntryLifecyclePhase : Type := Fresh | Grace | Keep | Dead.

#[export] Instance CacheEntryLifecyclePhase_eq_dec : EqDecision CacheEntryLifecyclePhase.
Proof. solve_decision. Defined.

Definition within (until : option Z) (now : Z) : bool :=
  match until with Some until => now <=? until | None => false end.

(** Source: crates/rginx-http/src/cache/runtime/support.rs:57-59 (stale_if_error_window_open) *)
Definition stale_if_error_window_open (entry : CacheIndexEntry) (now : Z) : bool :=
  within (ent_stale_if_error_until_unix_ms entry) now.

(** Source: crates/rginx-http/src/cache/runtime/support.rs:61-67 (stale_while_revalidate_window_open) *)
Definition stale_while_revalidate_window_open (entry : CacheIndexEntry) (now : Z) : bool :=
  within (ent_grace_until_unix_ms entry) now ||
  within (ent_stale_while_revalidate_until_unix_ms entry) now.

(** Source: crates/rginx-http/src/cache/runtime/support.rs:69-71 (keep_window_open) *)
Definition keep_window_open (entry : CacheIndexEntry) (now : Z) : bool :=
  match ent_keep_until_unix_ms entry with Some until => now <=? until | None => true end.

(** Source: crates/rginx-http/src/cache/runtime/support.rs:73-87 (lifecycle_phase) *)
Definition lifecycle_phase (entry : CacheIndexEntry) (now : Z) : CacheEntryLifecyclePhase :=
  if now <=? ent_expires_at_unix_ms entry then Fresh
  else if stale_while_revalidate_window_open entry now then Grace
  else if keep_window_open entry now then Keep
  else Dead.

(** Source: crates/rginx-http/src/cache/runtime/support.rs:89-113 (use_stale_matches_status) *)
Definition use_stale_matches_status (conditions : list CacheUseStaleCondition) (status : Z)
    : bool :=
  let has c := bool_decide (c ∈ conditions) in
  if status =? 403 then has UseStaleHttp403
  else if status =? 404 then has UseStaleHttp404
  else if status =? 429 then has UseStaleHttp429
  else if status =? 500 then has UseStaleHttp500
  else if status =? 502 then has UseStaleHttp502
  else if status =? 503 then has UseStaleHttp503
  else if status =? 504 then has UseStaleHttp504
  else false.

Definition is_server_error (status : Z) : bool := (500 <=? status) && (status <? 600).

(** Source: crates/rginx-http/src/cache/lookup/helpers.rs:36-49 (stale_allowed_for_entry) *)
Definition stale_allowed_for_entry (policy : RouteCachePolicy) (entry : CacheIndexEntry)
    (now : Z) (request_forces_revalidation : bool) : bool :=
  bool_decide (lifecycle_phase entry now = Grace) &&
  negb (is_hit_for_pass entry) &&
  negb request_forces_revalidation &&
  negb (ent_requires_revalidation entry) &&
  negb (ent_must_revalidate entry) &&
  (bool_decide (UseStaleUpdating ∈ pol_use_stale policy) ||
   within (ent_stale_while_revalidate_until_unix_ms entry) now).

Section Store.
Context {HTTP : HttpApi} {DATE : HttpDateApi} {SHA : Sha256Api}.

(** Source: crates/rginx-http/src/cache/runtime/context.rs:69-106 (CacheStoreContext::can_serve_stale) *)
Definition can_serve_stale (context : CacheStoreContext) (now : Z) (reason : CacheStaleReason)
    : bool :=
  match sc_cached_entry context with
  | None => false
  | Some entry =>
      if negb (is_some (sc_cached_response_head context)) then false
      else if is_hit_for_pass entry then false
      else if sc_request_forces_revalidation context || ent_requires_revalidation entry ||
              ent_must_revalidate entry then false
      else
        let phase := lifecycle_phase entry now in
        if bool_decide (phase = Dead) then false
        else
          let use_stale := pol_use_stale (sc_policy context) in
          let grace := bool_decide (phase = Grace) in
          match reason with
          | ReasonError =>
              (grace && bool_decide (UseStaleError ∈ use_stale)) ||
              stale_if_error_window_open entry now
          | ReasonTimeout =>
              (grace && bool_decide (UseStaleTimeout ∈ use_stale)) ||
              stale_if_error_window_open entry now
          | ReasonStatus status =>
              (grace && use_stale_matches_status use_stale status) ||
              (is_server_error status && stale_if_error_window_open entry now)
          end
  end.

(** Source: crates/rginx-http/src/cache/runtime/context.rs:65-67 (CacheStoreContext::should_refresh_from_not_modified) *)
Definition should_refresh_from_not_modified (context : CacheStoreContext) (status : Z) : bool :=
  is_some (sc_cached_entry context) && (status =? 304).

Definition insert_opt (name : string) (value : option HeaderValue) (headers : HeaderMap)
    : HeaderMap :=
  match value with Some value => hm_insert name value headers | None => headers end.

(** Source: crates/rginx-http/src/cache/runtime/context.rs:51-63 (CacheStoreContext::apply_conditional_request_headers) *)
Definition apply_conditional_request_headers (context : CacheStoreContext) (headers : HeaderMap)
    : HeaderMap :=
  match sc_cached_response_head context ≫= ph_conditional_headers with
  | None => headers
  | Some conditional_headers =>
      insert_opt "if-modified-since" (if_modified_since conditional_headers)
        (insert_opt "if-none-match" (if_none_match conditional_headers) headers)
  end.

(** Source: crates/rginx-http/src/cache/runtime/support.rs:46-55 (build_conditional_headers) *)
Definition build_conditional_headers (headers : HeaderMap) : option CacheConditionalHeaders :=
  let inm := hm_get_str headers "etag" ≫= hv_from_str in
  let ims := hm_get_str headers "last-modified" ≫= hv_from_str in
  if is_some inm || is_some ims then Some (mkConditional inm ims) else None.

(** ** Variant keys *)

Definition opt_str_cmp (a b : option string) : comparison :=
  match a, b with
  | None, None => Eq
  | None, Some _ => Lt
  | Some _, None => Gt
  | Some a, Some b => str_cmp a b
  end.

Definition vary_cmp (a b : CachedVaryHeaderValue) : comparison :=
  then_cmp (str_cmp (vary_name a) (vary_name b)) (opt_str_cmp (vary_value a) (vary_value b)).

(** Source: crates/rginx-http/src/cache/vary.rs:5-14 (canonical_vary_headers) *)
Definition canonical_vary_headers (vary : list CachedVaryHeaderValue)
    : list CachedVaryHeaderValue := sort_by vary_cmp vary.

(** Source: crates/rginx-http/src/cache/vary.rs:16-20 (sorted_vary_dimension_names) *)
Definition sorted_vary_dimension_names (vary : list CachedVaryHeaderValue) : list string :=
  sort_by str_cmp (map vary_name vary).

Definition hex_byte (b : Z) : string :=
  String (hex_digit (b / 16)) (String (hex_digit (b mod 16)) EmptyString).

(** Source: crates/rginx-http/src/cache/entry/signature.rs:38-46 (cache_bytes_hash) *)
Definition cache_bytes_hash (bytes : string) : string :=
  foldl (λ encoded byte, encoded +:+ hex_byte byte) EmptyString (sha256_digest bytes).

(** Source: crates/rginx-http/src/cache/entry/signature.rs:8-10 (cache_key_hash) *)
Definition cache_key_hash (key : string) : string := cache_bytes_hash key.

Definition nul : ascii := Ascii.ascii_of_nat 0.
Definition xff : ascii := Ascii.ascii_of_nat 255.

(** The bytes one varying header adds to the signature. *)
Definition vary_chunk (header : CachedVaryHeaderValue) : string :=
  vary_name header +:+ String nul (default EmptyString (vary_value header)) +:+
  String xff EmptyString.

Definition vary_signature (vary : list CachedVaryHeaderValue) : string :=
  foldl (λ signature header, signature +:+ vary_chunk header) EmptyString
    (canonical_vary_headers vary).

(** Source: crates/rginx-http/src/cache/entry/signature.rs:12-30 (cache_variant_key) *)
Definition cache_variant_key (base_key : string) (vary : list CachedVaryHeaderValue) : string :=
  match vary with
  | [] => base_key
  | _ => base_key +:+ "|vary:" +:+ cache_bytes_hash (vary_signature vary)
  end.

(** ** Tags *)

(** Source: crates/rginx-http/src/cache/invalidation.rs:12-15 (normalize_cache_tag) *)
Definition normalize_cache_tag (tag : string) : option string :=
  let tag := to_ascii_lowercase (trim tag) in
  if str_is_empty tag then None else Some tag.

(** Source: crates/rginx-http/src/cache/store/helpers.rs:173-196 (cache_tags) *)
Definition cache_tags (headers : HeaderMap) : list string :=
  dedup (sort_by str_cmp
    (omap normalize_cache_tag
      (mjoin (map (split_by (λ c, ascii_eqb c comma || is_ascii_whitespace c))
        (mjoin (map (hm_get_all_str headers)
           ["cache-tag"; "surrogate-key"; "x-cache-tag"]%string)))))).

(** ** The key of a response *)

(** Source: crates/rginx-http/src/cache/store/helpers.rs:72-95 (cache_vary_values) *)
Definition cache_vary_values (context : CacheStoreContext) (request : CacheRequest)
    (headers : HeaderMap) : list CachedVaryHeaderValue :=
  if ignores_header context IgnoreVary then []
  else sort_by vary_cmp
    (map (λ name, mkVary name (normalized_request_header_values (req_headers request) name))
       (default [] (vary_headers headers))).

(** Source: crates/rginx-http/src/cache/store/helpers.rs:97-112 (cache_final_key_for_response) *)
Definition cache_final_key_for_response (context : CacheStoreContext) (request : CacheRequest)
    (headers : HeaderMap) : string * list CachedVaryHeaderValue * list string :=
  let vary := cache_vary_values context request headers in
  let tags := cache_tags headers in
  let final_key :=
    if ignores_header context IgnoreVary || is_some (vary_headers headers)
    then cache_variant_key (sc_base_key context) vary
    else sc_base_key context in
  (final_key, vary, tags).

(** Source: crates/rginx-http/src/cache/store/helpers.rs:122-154 (should_remember_hit_for_pass) *)
Definition should_remember_hit_for_pass (context : CacheStoreContext) (headers : HeaderMap)
    : bool :=
  is_some (pol_pass_ttl (sc_policy context)) &&
  ((negb (ignores_header context IgnoreCacheControl) &&
    match hm_get_str headers "cache-control" with
    | Some value =>
        existsb (λ token, str_eqb token "no-store" || str_eqb token "private")
          (map trim (split comma (to_ascii_lowercase value)))
    | None => false
    end) ||
   (negb (ignores_header context IgnoreSetCookie) && hm_contains_key headers "set-cookie") ||
   (negb (ignores_header context IgnoreVary) && negb (is_some (vary_headers headers))) ||
   response_is_grpc headers).

(** ** Hit-for-pass markers *)

(** The entry [remember_hit_for_pass] stores and the one it replaces. *)
(** Source: crates/rginx-http/src/cache/store.rs:91-124 (remember_hit_for_pass) *)
Definition hit_for_pass_entry (context : CacheStoreContext) (headers : HeaderMap) (now : Z)
    : option (string * CacheIndexEntry * option (string * CacheIndexEntry)) :=
  match pol_pass_ttl (sc_policy context) with
  | None => None
  | Some pass_ttl =>
      let '(final_key, vary, tags) :=
        cache_final_key_for_response context (sc_request context) headers in
      let until := sat_add64 now (duration_to_ms pass_ttl) in
      Some (final_key,
            mkIndexEntry KindHitForPass (cache_key_hash ("pass:" +:+ final_key))
              (sc_base_key context) now vary tags 0 until None (Some until) None None
              false false now,
            (λ entry, (sc_key context, entry)) <$> sc_cached_entry context)
  end.

(** ** Headers that are stored *)

(** Source: crates/rginx-http/src/cache/store/helpers.rs:156-171 (merge_not_modified_headers) *)
Definition merge_not_modified_headers (cached not_modified : HeaderMap) : HeaderMap :=
  foldl (λ merged name,
    if str_eqb name "content-length" then merged
    else foldl (λ merged value, hm_append name value merged) (hm_remove name merged)
           (hm_get_all not_modified name))
    cached (hm_keys not_modified).

Definition connection_tokens (headers : HeaderMap) : list string :=
  omap header_name_parse
    (List.filter non_empty
      (map trim (mjoin (map (split comma) (hm_get_all_str headers "connection"))))).

Definition hop_by_hop : list string :=
  ["connection"; "proxy-authenticate"; "proxy-authorization"; "te"; "trailer";
   "transfer-encoding"; "upgrade"; "keep-alive"; "proxy-connection"]%string.

Definition remove_all (names : list string) (headers : HeaderMap) : HeaderMap :=
  foldl (λ headers name, hm_remove name headers) headers names.

(** Source: crates/rginx-http/src/cache/entry/response.rs:201-230 (remove_cache_hop_by_hop_headers) *)
Definition remove_cache_hop_by_hop_headers (headers : HeaderMap) : HeaderMap :=
  remove_all hop_by_hop (remove_all (connection_tokens headers) headers).

(** [HeaderValue::from_str(..).expect(..)]: [None] is the panic. *)
(** Source: crates/rginx-http/src/cache/entry/response.rs:106-127 (cached_headers) *)
Definition cached_headers (headers : HeaderMap) (body_size_bytes : Z)
    : option (list CachedHeader) :=
  let had_content_length := hm_contains_key headers "content-length" in
  let headers := remove_cache_hop_by_hop_headers headers in
  let headers := hm_remove "x-cache" headers in
  let headers := hm_remove "content-length" headers in
  headers ← (if had_content_length || (0 <? body_size_bytes)
             then value ← hv_from_str (dec body_size_bytes);
                  Some (hm_insert "content-length" value headers)
             else Some headers);
  Some (map (λ '(name, value), mkCachedHeader name (hv_as_bytes value)) (hm_iter headers)).

(** Source: crates/rginx-http/src/cache/entry/metadata.rs:95-126 (cache_metadata) *)
Definition cache_metadata (key : string) (status : Z) (headers : HeaderMap)
    (input : CacheMetadataInput) : option CacheMetadata :=
  stored ← cached_headers headers (mi_body_size_bytes input);
  Some (mkMetadata key (mi_base_key input)
    (map (λ header, mkCachedVary (vary_name header) (vary_value header)) (mi_vary input))
    (mi_tags input) status stored (mi_stored_at_unix_ms input) (mi_expires_at_unix_ms input)
    (mi_kind input) (mi_grace_until_unix_ms input) (mi_keep_until_unix_ms input)
    (mi_stale_if_error_until_unix_ms input) (mi_stale_while_revalidate_until_unix_ms input)
    (mi_requires_revalidation input) (mi_must_revalidate input) (mi_body_size_bytes input)).

(** Invalid names and values are [InvalidData] errors: [None]. *)
(** Source: crates/rginx-http/src/cache/entry/metadata.rs:170-180 (CacheMetadata::headers_map) *)
Definition headers_map (m : CacheMetadata) : option HeaderMap :=
  foldl (λ headers header,
    headers ← headers;
    name ← header_name_parse (ch_name header);
    value ← hv_from_bytes (ch_value header);
    Some (hm_append name value headers)) (Some hm_new) (md_headers m).

(** [StatusCode::from_u16] accepts 100 to 999. *)
Definition status_code_from_u16 (n : Z) : option Z :=
  if (100 <=? n) && (n <? 1000) then Some n else None.

(** Source: crates/rginx-http/src/cache/entry/metadata.rs:128-143 (prepare_cached_response_head) *)
Definition prepare_cached_response_head (hash : string) (metadata : CacheMetadata)
    : option PreparedCacheResponseHead :=
  headers ← headers_map metadata;
  status ← status_code_from_u16 (md_status metadata);
  Some (mkPreparedHead hash metadata status headers (build_conditional_headers headers)).
End Store.

(** ** Lifetimes *)

Definition phase_rank (p : CacheEntryLifecyclePhase) : Z :=
  match p with Fresh => 0 | Grace => 1 | Keep => 2 | Dead => 3 end.

(** The index entry the source builds from a metadata input: the same fields
    under the body's hash, last accessed when stored. *)
Definition entry_of_input (hash : string) (i : CacheMetadataInput) : CacheIndexEntry :=
  mkIndexEntry (mi_kind i) hash (mi_base_key i) (mi_stored_at_unix_ms i) (mi_vary i) (mi_tags i)
    (mi_body_size_bytes i) (mi_expires_at_unix_ms i) (mi_grace_until_unix_ms i)
    (mi_keep_until_unix_ms i) (mi_stale_if_error_until_unix_ms i)
    (mi_stale_while_revalidate_until_unix_ms i) (mi_requires_revalidation i)
    (mi_must_revalidate i) (mi_stored_at_unix_ms i).

(** [o ≤ p] for deadlines: every deadline [o] sets is at or before [p]'s. *)
Definition deadline_le (o p : option Z) : Prop :=
  ∀ t, o = Some t → ∃ t', p = Some t' ∧ t ≤ t'.

Lemma deadline_le_max_l a b : deadline_le a (max_deadline a b).
Proof. intros t ->. destruct b; simpl; eexists; split; [done|lia|done|lia]. Qed.

Lemma deadline_le_max_r a b : deadline_le b (max_deadline a b).
Proof. intros t ->. destruct a; simpl; eexists; split; [done|lia|done|lia]. Qed.

Lemma deadline_le_trans a b c : deadline_le a b → deadline_le b c → deadline_le a c.
Proof.
  intros H1 H2 t Ht. destruct (H1 t Ht) as (t' & Ht' & Hle).
  destruct (H2 t' Ht') as (t'' & -> & ?). eexists. split; [done|lia].
Qed.

Lemma duration_to_ms_nonneg d : 0 ≤ d → 0 ≤ duration_to_ms d.
Proof.
  intros. unfold duration_to_ms, u64_max. pose proof (Z.div_pos d (10 ^ 6) ltac:(lia) ltac:(lia)).
  lia.
Qed.

Lemma within_le a b now : deadline_le a b → within a now = true → within b now = true.
Proof.
  destruct a as [t|]; [|done]. intros H Hw. destruct (H t eq_refl) as (t' & -> & Hle).
  simpl in *. boolify. lia.
Qed.

Section Lifetimes.
Context (base_key : string) (vary : list CachedVaryHeaderValue) (tags : list string)
  (now : Z) (grace keep : option Z) (freshness : ResponseFreshness) (size : Z).

Notation input := (cache_metadata_input base_key vary tags now grace keep freshness size).

(** Every configured deadline is within the keep window. *)
Lemma input_keep_covers :
  deadline_le (mi_grace_until_unix_ms input) (mi_keep_until_unix_ms input) ∧
  deadline_le (mi_stale_if_error_until_unix_ms input) (mi_keep_until_unix_ms input) ∧
  deadline_le (mi_stale_while_revalidate_until_unix_ms input) (mi_grace_until_unix_ms input).
Proof using.
  unfold cache_metadata_input. cbn.
  set (cfg := deadline_after _ keep). set (g := max_deadline _ _). set (s := deadline_after _ _).
  split_and!; [| |apply deadline_le_max_r].
  - intros t Ht. rewrite Ht, orb_true_r. cbn [orb]. rewrite <-Ht.
    eapply deadline_le_trans; [apply (deadline_le_max_l g s)|apply deadline_le_max_r|done].
  - intros t Ht. rewrite Ht, orb_true_r. rewrite <-Ht.
    eapply deadline_le_trans; [apply (deadline_le_max_r g s)|apply deadline_le_max_r|done].
Qed.
End Lifetimes.

Lemma lifecycle_phase_mono e t t' :
  t ≤ t' → phase_rank (lifecycle_phase e t) ≤ phase_rank (lifecycle_phase e t').
Proof.
  intros Ht. unfold lifecycle_phase, stale_while_revalidate_window_open, keep_window_open, within.
  repeat (case_match; simpl in *; simplify_eq; boolify; try lia).
Qed.

(** Deadlines are consistent: for an entry stored at [now], the phase only
    moves Fresh, Grace, Keep, Dead as time passes, a response is fresh for at
    least its time to live, and while a [stale-if-error],
    [stale-while-revalidate] or grace window is open the entry is never Dead,
    so the Dead test cannot cut a promised window short. *)
Theorem entry_lifetimes_consistent (base_key hash : string) (vary : list CachedVaryHeaderValue)
    (tags : list string) (now : Z) (grace keep : option Z) (freshness : ResponseFreshness)
    (size : Z) :
  let e := entry_of_input hash
             (cache_metadata_input base_key vary tags now grace keep freshness size) in
  (∀ t t', t ≤ t' → phase_rank (lifecycle_phase e t) ≤ phase_rank (lifecycle_phase e t')) ∧
  (∀ t, t ≤ Z.min (now + duration_to_ms (fr_ttl freshness)) u64_max ↔
        lifecycle_phase e t = Fresh) ∧
  (∀ t, stale_if_error_window_open e t = true ∨ stale_while_revalidate_window_open e t = true →
        lifecycle_phase e t ≠ Dead).
Proof.
  intros e. split_and!.
  - intros t t'. apply lifecycle_phase_mono.
  - intros t. unfold lifecycle_phase, e, entry_of_input, cache_metadata_input. cbn.
    unfold sat_add64. destruct (t <=? _) eqn:Ht; boolify.
    + split; [done|]. intros _. done.
    + split; [lia|]. by repeat case_match.
  - intros t Hw. destruct (input_keep_covers base_key vary tags now grace keep freshness size)
      as (Hg & Hs & Hr).
    unfold lifecycle_phase. case_match; [done|]. destruct Hw as [Hw| ->]; [|done].
    case_match; [done|]. unfold stale_if_error_window_open in Hw. unfold keep_window_open.
    change (ent_stale_if_error_until_unix_ms e) with
      (mi_stale_if_error_until_unix_ms
         (cache_metadata_input base_key vary tags now grace keep freshness size)) in Hw.
    change (ent_keep_until_unix_ms e) with
      (mi_keep_until_unix_ms
         (cache_metadata_input base_key vary tags now grace keep freshness size)).
    apply (within_le _ _ _ Hs) in Hw. unfold within in Hw.
    destruct (mi_keep_until_unix_ms _); [|done]. by rewrite Hw.
Qed.

(** A stale response is only served under a promise: the entry is a real
    response that neither the client nor the origin asked to revalidate, it is
    not Dead, and either the policy lists the failure and the grace window is
    open, or the origin's [stale-if-error] window is open (for a status, only
    a server error). *)
Theorem stale_service_needs_promise `{HTTP : HttpApi} (context : CacheStoreContext) (now : Z)
    (reason : CacheStaleReason) :
  can_serve_stale context now reason = true ↔
  ∃ entry, sc_cached_entry context = Some entry ∧ is_Some (sc_cached_response_head context) ∧
    ent_kind entry = KindResponse ∧ sc_request_forces_revalidation context = false ∧
    ent_requires_revalidation entry = false ∧ ent_must_revalidate entry = false ∧
    lifecycle_phase entry now ≠ Dead ∧
    ((lifecycle_phase entry now = Grace ∧
      match reason with
      | ReasonError => UseStaleError ∈ pol_use_stale (sc_policy context)
      | ReasonTimeout => UseStaleTimeout ∈ pol_use_stale (sc_policy context)
      | ReasonStatus status =>
          use_stale_matches_status (pol_use_stale (sc_policy context)) status = true
      end) ∨
     (stale_if_error_window_open entry now = true ∧
      match reason with ReasonStatus status => 500 ≤ status < 600 | _ => True end)).
Proof.
  unfold can_serve_stale. destruct (sc_cached_entry context) as [entry|]; [|naive_solver].
  destruct (sc_cached_response_head context) as [head|]; cbn [is_some negb];
    [|split; [done|]; intros (? & _ & [? ?] & _); done].
  unfold is_hit_for_pass.
  destruct (ent_kind entry) eqn:Hkind;
    [|split; [done|]; intros (? & [= <-] & _ & ? & _); congruence].
  destruct (sc_request_forces_revalidation context) eqn:Hf,
    (ent_requires_revalidation entry) eqn:Hr, (ent_must_revalidate entry) eqn:Hm; cbn [orb];
    try (split; [done|]; intros (? & [= <-] & _ & _ & ? & ? & ? & _); congruence).
  case_bool_decide as Hd;
    [split; [done|]; intros (? & [= <-] & _ & _ & _ & _ & _ & ? & _); congruence|].
  unfold is_server_error.
  destruct reason as [| |status];
    rewrite orb_true_iff, ?andb_true_iff, ?bool_decide_eq_true, ?Z.leb_le, ?Z.ltb_lt;
    (split;
     [ intros H; exists entry; split_and!; try done; tauto
     | intros (? & [= <-] & _ & _ & _ & _ & _ & _ & H); tauto ]).
Qed.

(** ** Signatures *)

(** The dimensions of a [Vary] as the signature sees them: an absent value
    reads as the empty one. *)
Definition vary_dimension (h : CachedVaryHeaderValue) : string * string :=
  (vary_name h, default EmptyString (vary_value h)).

(** Header names hold no NUL, and text never holds the octet 255. *)
Definition vary_wf (h : CachedVaryHeaderValue) : Prop :=
  contains_char nul (vary_name h) = false ∧
  contains_char xff (default EmptyString (vary_value h)) = false.

Lemma vary_chunk_inj h1 h2 x y :
  vary_wf h1 → vary_wf h2 → vary_chunk h1 +:+ x = vary_chunk h2 +:+ y →
  vary_dimension h1 = vary_dimension h2 ∧ x = y.
Proof.
  intros [Hn1 Hv1] [Hn2 Hv2]. unfold vary_chunk, vary_dimension. rewrite !str_app_assoc.
  intros H. assert (∀ v r, String nul v +:+ r = String nul (v +:+ r)) as Hs by done.
  rewrite !Hs in H. apply cut_inj in H as [Hn H]; [|done..].
  assert (∀ r, String xff EmptyString +:+ r = String xff r) as Hx by done.
  rewrite ?str_app_assoc, ?Hx in H. apply cut_inj in H as [Hv H]; [|done..].
  by rewrite Hn, Hv.
Qed.

Lemma vary_chunks_inj l k :
  Forall vary_wf l → Forall vary_wf k →
  str_concat (map vary_chunk l) = str_concat (map vary_chunk k) →
  map vary_dimension l = map vary_dimension k.
Proof.
  intros Hl. revert k. induction Hl as [|h l Hh Hl IH]; intros k Hk He.
  - destruct Hk as [|h k Hh Hk]; [done|]. exfalso. simpl in He. unfold vary_chunk in He.
    by destruct (vary_name h).
  - destruct Hk as [|h' k Hh' Hk]; simpl in He.
    + exfalso. unfold vary_chunk in He. by destruct (vary_name h).
    + apply vary_chunk_inj in He as [Hd He]; [|done..]. simpl. rewrite Hd. f_equal. by apply IH.
Qed.

Lemma hex_digit_inj a b : 0 ≤ a < 16 → 0 ≤ b < 16 → hex_digit a = hex_digit b → a = b.
Proof.
  assert (∀ z, 0 ≤ z < 16 →
    N_of_ascii (hex_digit z) = Z.to_N (if z <? 10 then 48 + z else 87 + z)) as He.
  { intros z Hz. unfold hex_digit. apply N_ascii_embedding. destruct (z <? 10); lia. }
  intros Ha Hb H. apply (f_equal N_of_ascii) in H. rewrite !He in H by done.
  destruct (a <? 10) eqn:Ea, (b <? 10) eqn:Eb; boolify; lia.
Qed.

Lemma hex_bytes_inj l k :
  Forall is_u8 l → Forall is_u8 k →
  str_concat (map hex_byte l) = str_concat (map hex_byte k) → l = k.
Proof.
  intros Hl. revert k. induction Hl as [|a l Ha Hl IH]; intros k Hk He.
  - by destruct Hk.
  - destruct Hk as [|b k Hb Hk]; [done|]. simpl in He. injection He as H1 H2 He.
    unfold is_u8 in *.
    apply hex_digit_inj in H1; [|split; [apply Z.div_pos; lia|apply Z.div_lt_upper_bound; lia]..].
    apply hex_digit_inj in H2; [|apply Z.mod_pos_bound; lia..].
    pose proof (Z.div_mod a 16 ltac:(lia)). pose proof (Z.div_mod b 16 ltac:(lia)).
    f_equal; [lia|]. by apply IH.
Qed.

Lemma opt_str_cmp_spec :
  (∀ a b, opt_str_cmp a b = CompOpp (opt_str_cmp b a)) ∧
  (∀ a b, opt_str_cmp a b = Eq → a = b) ∧
  (∀ a b c, opt_str_cmp a b ≠ Gt → opt_str_cmp b c ≠ Gt → opt_str_cmp a c ≠ Gt).
Proof.
  split_and!.
  - intros [a|] [b|]; simpl; try done. apply str_cmp_antisym.
  - intros [a|] [b|]; simpl; try done. intros H%str_cmp_eq. by subst.
  - intros [a|] [b|] [c|]; simpl; try done. apply str_cmp_le_trans.
Qed.

Lemma vary_cmp_antisym a b : vary_cmp a b = CompOpp (vary_cmp b a).
Proof.
  unfold vary_cmp. rewrite str_cmp_antisym, (proj1 opt_str_cmp_spec).
  by destruct (str_cmp (vary_name b) (vary_name a)).
Qed.

Lemma vary_cmp_eq a b : vary_cmp a b = Eq → a = b.
Proof.
  unfold vary_cmp, then_cmp. destruct (str_cmp _ _) eqn:Hn; [|done..]. intros Hv.
  apply str_cmp_eq in Hn. apply opt_str_cmp_spec in Hv. destruct a, b; simpl in *. by subst.
Qed.

Lemma vary_cmp_trans a b c : vary_cmp a b ≠ Gt → vary_cmp b c ≠ Gt → vary_cmp a c ≠ Gt.
Proof.
  unfold vary_cmp, then_cmp. intros H1 H2.
  destruct (str_cmp (vary_name a) (vary_name b)) eqn:Hab; [| |done].
  - apply str_cmp_eq in Hab. rewrite Hab.
    destruct (str_cmp (vary_name b) (vary_name c)); [|done..].
    by eapply (proj2 (proj2 opt_str_cmp_spec)).
  - destruct (str_cmp (vary_name b) (vary_name c)) eqn:Hbc; [| |done].
    + apply str_cmp_eq in Hbc. rewrite <-Hbc, Hab. done.
    + destruct (str_cmp (vary_name a) (vary_name c)) eqn:Hac; [|done|].
      * apply str_cmp_eq in Hac. rewrite Hac, str_cmp_antisym, Hbc in Hab. done.
      * exfalso. eapply str_cmp_le_trans; [| |exact Hac]; [by rewrite Hab|by rewrite Hbc].
Qed.

Lemma canonical_vary_perm v1 v2 :
  v1 ≡ₚ v2 → canonical_vary_headers v1 = canonical_vary_headers v2.
Proof.
  apply sort_by_unique; [apply vary_cmp_antisym|apply vary_cmp_trans|apply vary_cmp_eq].
Qed.

Lemma vary_signature_concat v :
  vary_signature v = str_concat (map vary_chunk (canonical_vary_headers v)).
Proof. unfold vary_signature. by rewrite foldl_append. Qed.

Lemma vary_signature_inj v1 v2 :
  Forall vary_wf v1 → Forall vary_wf v2 → vary_signature v1 = vary_signature v2 →
  map vary_dimension v1 ≡ₚ map vary_dimension v2.
Proof.
  intros H1 H2. rewrite !vary_signature_concat. intros He.
  apply vary_chunks_inj in He.
  - rewrite <-(sort_by_perm vary_cmp v1), <-(sort_by_perm vary_cmp v2).
    unfold canonical_vary_headers in He. by rewrite He.
  - unfold canonical_vary_headers. by rewrite sort_by_perm.
  - unfold canonical_vary_headers. by rewrite sort_by_perm.
Qed.

(** Variant keys neither depend on the order a [Vary] lists its headers in
    nor mix variants up: the same dimensions in any order give the same key,
    and two variants of one base key share a key only if their dimensions are
    the same (an absent value counting as empty) or SHA-256 collides on their
    signatures. *)
Theorem variant_key_separates `{HTTP : HttpApi} `{SHA : Sha256Api} `{!Sha256Laws SHA}
    (base_key : string) (v1 v2 : list CachedVaryHeaderValue) :
  Forall vary_wf v1 → Forall vary_wf v2 → v1 ≠ [] → v2 ≠ [] →
  (v1 ≡ₚ v2 → cache_variant_key base_key v1 = cache_variant_key base_key v2) ∧
  (cache_variant_key base_key v1 = cache_variant_key base_key v2 →
   map vary_dimension v1 ≡ₚ map vary_dimension v2 ∨
   (vary_signature v1 ≠ vary_signature v2 ∧
    sha256_digest (vary_signature v1) = sha256_digest (vary_signature v2))).
Proof.
  intros H1 H2 Hn1 Hn2.
  assert (∀ v, v ≠ [] → cache_variant_key base_key v =
    base_key +:+ "|vary:" +:+ cache_bytes_hash (vary_signature v)) as Hk by by intros [].
  rewrite !Hk by done. split.
  - intros Hp. unfold vary_signature. by rewrite (canonical_vary_perm v1 v2).
  - intros He. apply str_app_inj_l in He. apply str_app_inj_l in He.
    unfold cache_bytes_hash in He. rewrite !foldl_append in He.
    apply str_app_inj_l, hex_bytes_inj in He; [|apply sha256_octets..].
    destruct (decide (vary_signature v1 = vary_signature v2)) as [Hs|Hs]; [left|by right].
    by apply vary_signature_inj.
Qed.

Theorem variant_key_separates_witness :
  cache_variant_key (SHA := RefSha256.api) "k"
    [mkVary "accept" (Some "a"); mkVary "x-y" None]%string =
  cache_variant_key (SHA := RefSha256.api) "k"
    [mkVary "x-y" None; mkVary "accept" (Some "a")]%string.
Proof.
  apply (@variant_key_separates RefHttp.api RefSha256.api RefSha256.laws "k"
    [mkVary "accept" (Some "a"); mkVary "x-y" None]%string
    [mkVary "x-y" None; mkVary "accept" (Some "a")]%string).
  - repeat constructor.
  - repeat constructor.
  - discriminate.
  - discriminate.
  - apply Permutation_swap.
Defined.
