(* ===== verification/ConfigCache.v ===== *)
(** * Configuration: cache zones and route cache policies

    Models [crates/rginx-config/src/model/cache.rs] (the raw data),
    [validate/cache.rs], [validate/cache/predicate.rs] and [compile/cache.rs]. *)

From S2P Require Import Prelude RustStr External ConfigBase ConfigUpstream CacheConfig CacheStore.

(** ** Data *)

(** Source: crates/rginx-config/src/model/cache.rs:4-29 (CacheZoneConfig) *)
Record CacheZoneConfig : Type := mkCacheZoneConfig {
  zc_name : string;
  zc_path : string;
  zc_max_size_bytes : option Z;
  zc_inactive_secs : option Z;
  zc_default_ttl_secs : option Z;
  zc_max_entry_bytes : option Z;
  zc_path_levels : option (list Z);
  zc_loader_batch_entries : option Z;
  zc_loader_sleep_millis : option Z;
  zc_manager_batch_entries : option Z;
  zc_manager_sleep_millis : option Z;
  zc_inactive_cleanup_interval_secs : option Z;
  zc_shared_index : option bool;
}.

(** Source: crates/rginx-config/src/model/cache.rs:75-78 (CacheStatusTtlConfig) *)
Record CacheStatusTtlConfig : Type := mkCacheStatusTtlConfig {
  sttl_statuses : list Z;
  sttl_ttl_secs : Z;
}.

(** Source: crates/rginx-config/src/model/cache.rs:81-94 (CachePredicateConfig) *)
Inductive CachePredicateConfig : Type :=
| AnyConfig (predicates : list CachePredicateConfig)
| AllConfig (predicates : list CachePredicateConfig)
| NotConfig (predicate : CachePredicateConfig)
| MethodConfig (method : string)
| HeaderExistsConfig (name : string)
| HeaderEqualsConfig (name value : string)
| QueryExistsConfig (name : string)
| QueryEqualsConfig (name value : string)
| CookieExistsConfig (name : string)
| CookieEqualsConfig (name value : string)
| StatusConfig (status : Z)
| StatusesConfig (statuses : list Z).

(** Source: crates/rginx-config/src/model/cache.rs:97-108 (CacheUseStaleConditionConfig) *)
Inductive CacheUseStaleConditionConfig : Type :=
| StaleErrorConfig | StaleTimeoutConfig | StaleUpdatingConfig
| StaleHttp403Config | StaleHttp404Config | StaleHttp429Config
| StaleHttp500Config | StaleHttp502Config | StaleHttp503Config | StaleHttp504Config.

(** Source: crates/rginx-config/src/model/cache.rs:111-117 (CacheIgnoreHeaderConfig) *)
Inductive CacheIgnoreHeaderConfig : Type :=
| IgnoreXAccelExpiresConfig | IgnoreExpiresConfig | IgnoreCacheControlConfig
| IgnoreSetCookieConfig | IgnoreVaryConfig.

(** Source: crates/rginx-config/src/model/cache.rs:120-123 (CacheRangeRequestPolicyConfig) *)
Inductive CacheRangeRequestPolicyConfig : Type := RangeBypassConfig | RangeCacheConfig.

(** Source: crates/rginx-config/src/model/cache.rs:32-72 (CacheRouteConfig) *)
Record CacheRouteConfig : Type := mkCacheRouteConfig {
  rc_zone : string;
  rc_methods : option (list string);
  rc_statuses : option (list Z);
  rc_ttl_secs_by_status : option (list CacheStatusTtlConfig);
  rc_key : option string;
  rc_cache_bypass : option CachePredicateConfig;
  rc_no_cache : option CachePredicateConfig;
  rc_stale_if_error_secs : option Z;
  rc_grace_secs : option Z;
  rc_keep_secs : option Z;
  rc_pass_ttl_secs : option Z;
  rc_use_stale : option (list CacheUseStaleConditionConfig);
  rc_background_update : option bool;
  rc_lock_timeout_secs : option Z;
  rc_lock_age_secs : option Z;
  rc_min_uses : option Z;
  rc_ignore_headers : option (list CacheIgnoreHeaderConfig);
  rc_range_requests : option CacheRangeRequestPolicyConfig;
  rc_slice_size_bytes : option Z;
  rc_convert_head : option bool;
}.

(** Source: crates/rginx-config/src/validate/cache/predicate.rs:84-87 (PredicateValidationMode) *)
Inductive PredicateValidationMode : Type := RequestOnly | RequestOrResponse.

(** Source: crates/rginx-config/src/compile/cache.rs:18-32 (DEFAULT_CACHE_INACTIVE_SECS and DEFAULT_CACHE_CONVERT_HEAD) *)
Definition DEFAULT_CACHE_INACTIVE_SECS : Z := 600.
Definition DEFAULT_CACHE_TTL_SECS : Z := 60.
Definition DEFAULT_CACHE_MAX_ENTRY_BYTES : Z := 10 * 1024 * 1024.
Definition DEFAULT_CACHE_KEY : string := "{scheme}:{host}:{uri}".
Definition DEFAULT_CACHE_LOCK_TIMEOUT_SECS : Z := 5.
Definition DEFAULT_CACHE_LOCK_AGE_SECS : Z := 5.
Definition DEFAULT_CACHE_PATH_LEVELS : list Z := [2].
Definition DEFAULT_CACHE_LOADER_BATCH_ENTRIES : Z := 100.
Definition DEFAULT_CACHE_LOADER_SLEEP_MILLIS : Z := 50.
Definition DEFAULT_CACHE_MANAGER_BATCH_ENTRIES : Z := 100.
Definition DEFAULT_CACHE_MANAGER_SLEEP_MILLIS : Z := 50.
Definition DEFAULT_CACHE_INACTIVE_CLEANUP_INTERVAL_SECS : Z := 60.
Definition DEFAULT_CACHE_MIN_USES : Z := 1.
Definition DEFAULT_CACHE_SHARED_INDEX : bool := true.
Definition DEFAULT_CACHE_CONVERT_HEAD : bool := true.

Section ConfigCache.
  Context {NET : IpNetApi} {RX : RegexApi} {API : ConfigApi NET RX} {HTTP : HttpApi}.

(** ** Validation *)

(** Source: crates/rginx-config/src/validate/cache.rs:258-263 (validate_positive_optional) *)
Definition validate_positive_optional (zone field : string) (value : option Z) : result Error () :=
  reject (is_zero value) fail["cache zone `"; zone; "` "; field; " must be greater than 0"].

Definition CACHE_KEY_HASH_HEX_LEN : Z := 64.

(** Source: crates/rginx-config/src/validate/cache.rs:199-222 (validate_path_levels) *)
Definition validate_path_levels (zone : string) (levels : list Z) : result Error () :=
  let? _ := reject (bool_decide (levels = []))
    fail["cache zone `"; zone; "` path_levels must not be empty when provided"] in
  let? total_level_len := try_fold (λ total level,
    let? _ := reject (level =? 0)
      fail["cache zone `"; zone; "` path_levels entries must be greater than 0"] in
    Ok (sat_add64 total level)) 0 levels in
  reject (CACHE_KEY_HASH_HEX_LEN <? total_level_len)
    fail["cache zone `"; zone; "` path_levels total length `"; dec total_level_len;
         "` exceeds cache hash length `"; dec CACHE_KEY_HASH_HEX_LEN; "`"].

Definition validate_cache_zone (zone : CacheZoneConfig) (names : gset string) : result Error (gset string) :=
  let name := trim (zc_name zone) in
  let? _ := reject (str_is_empty name) fail["cache_zones[].name must not be empty"] in
  let '(inserted, names) := hs_insert name names in
  let? _ := reject (negb inserted) fail["duplicate cache zone `"; name; "`"] in
  let? _ := reject (blank (zc_path zone)) fail["cache zone `"; name; "` path must not be empty"] in
  let? _ := validate_positive_optional name "max_size_bytes" (zc_max_size_bytes zone) in
  let? _ := validate_positive_optional name "inactive_secs" (zc_inactive_secs zone) in
  let? _ := validate_positive_optional name "default_ttl_secs" (zc_default_ttl_secs zone) in
  let? _ := validate_positive_optional name "max_entry_bytes" (zc_max_entry_bytes zone) in
  let? _ := validate_positive_optional name "loader_batch_entries" (zc_loader_batch_entries zone) in
  let? _ := validate_positive_optional name "loader_sleep_millis" (zc_loader_sleep_millis zone) in
  let? _ := validate_positive_optional name "manager_batch_entries" (zc_manager_batch_entries zone) in
  let? _ := validate_positive_optional name "manager_sleep_millis" (zc_manager_sleep_millis zone) in
  let? _ := validate_positive_optional name "inactive_cleanup_interval_secs" (zc_inactive_cleanup_interval_secs zone) in
  let? _ := match zc_path_levels zone with Some levels => validate_path_levels name levels | None => Ok tt end in
  let? _ := reject
    (match zc_max_size_bytes zone, zc_max_entry_bytes zone with
     | Some max_size, Some max_entry => max_size <? max_entry
     | _, _ => false
     end) fail["cache zone `"; name; "` max_entry_bytes must not exceed max_size_bytes"] in
  Ok names.

(** Source: crates/rginx-config/src/validate/cache.rs:11-51 (validate_cache_zones) *)
Definition validate_cache_zones (zones : list CacheZoneConfig) : result Error (gset string) :=
  try_fold (λ names zone, validate_cache_zone zone names) ∅ zones.

(** Source: crates/rginx-config/src/validate/cache.rs:242-256 (validate_statuses) *)
Definition validate_statuses (route_scope field : string) (statuses : list Z) : result Error () :=
  let? _ := reject (bool_decide (statuses = []))
    fail[route_scope; " "; field; " must not be empty when provided"] in
  for_each (λ status,
    reject (negb ((100 <=? status) && (status <=? 599)))
      fail[route_scope; " "; field; " status `"; dec status; "` must be between 100 and 599"]) statuses.

(** Source: crates/rginx-config/src/validate/cache.rs:224-240 (validate_status_ttl_rule) *)
Definition validate_status_ttl_rule (route_scope : string) (index : nat) (rule : CacheStatusTtlConfig)
    : result Error () :=
  let field := fmt["cache.ttl_secs_by_status["; dec (Z.of_nat index); "]"] in
  let? _ := reject (bool_decide (sttl_statuses rule = []))
    fail[route_scope; " "; field; ".statuses must not be empty"] in
  let? _ := validate_statuses route_scope fmt[field; ".statuses"] (sttl_statuses rule) in
  reject (sttl_ttl_secs rule =? 0) fail[route_scope; " "; field; ".ttl_secs must be greater than 0"].

(** Source: crates/rginx-config/src/validate/cache/predicate.rs:69-74 (validate_non_empty) *)
Definition validate_non_empty (route_scope field value part : string) : result Error () :=
  reject (blank value) fail[route_scope; " "; field; " "; part; " must not be empty"].

(** Source: crates/rginx-config/src/validate/cache/predicate.rs:76-81 (validate_header_name) *)
Definition validate_header_name (route_scope field name : string) : result Error () :=
  reject (negb (is_some (header_name_parse name)))
    fail[route_scope; " "; field; " header `"; name; "` is invalid: "; display_error "HeaderName" name].

Definition no_status_in_request (route_scope field : string) (mode : PredicateValidationMode) : result Error () :=
  reject (match mode with RequestOnly => true | RequestOrResponse => false end)
    fail[route_scope; " "; field; " cannot match response status"].

(** Source: crates/rginx-config/src/validate/cache/predicate.rs:6-67 (validate_cache_predicate) *)
Fixpoint validate_cache_predicate (route_scope field : string) (mode : PredicateValidationMode)
    (predicate : CachePredicateConfig) : result Error () :=
  match predicate with
  | AnyConfig predicates | AllConfig predicates =>
      let? _ := reject (match predicates with [] => true | _ => false end)
        fail[route_scope; " "; field; " composite predicates must not be empty"] in
      for_each (validate_cache_predicate route_scope field mode) predicates
  | NotConfig predicate => validate_cache_predicate route_scope field mode predicate
  | MethodConfig method =>
      reject (negb (is_some (parse_method (to_ascii_uppercase (trim method)))))
        fail[route_scope; " "; field; " method `"; method; "` is invalid: ";
             display_error "Method" (to_ascii_uppercase (trim method))]
  | HeaderExistsConfig name =>
      let? _ := validate_non_empty route_scope field name "name" in
      validate_header_name route_scope field name
  | QueryExistsConfig name | CookieExistsConfig name => validate_non_empty route_scope field name "name"
  | HeaderEqualsConfig name _ =>
      let? _ := validate_non_empty route_scope field name "name" in
      validate_header_name route_scope field name
  | QueryEqualsConfig name _ | CookieEqualsConfig name _ => validate_non_empty route_scope field name "name"
  | StatusConfig status =>
      let? _ := validate_statuses route_scope field [status] in
      no_status_in_request route_scope field mode
  | StatusesConfig statuses =>
      let? _ := validate_statuses route_scope field statuses in
      no_status_in_request route_scope field mode
  end.

(** Source: crates/rginx-core/src/config/cache/key_template.rs:109-126 (CacheKeyTemplateError) *)
Definition key_error_text (e : CacheKeyTemplateError) : string :=
  match e with
  | UnclosedVariable template => fmt["cache key template `"; template; "` has an unclosed variable"]
  | UnescapedClose template => fmt["cache key template `"; template; "` has an unescaped closing brace"]
  | EmptyVariable template => fmt["cache key template `"; template; "` has an empty variable"]
  | UnknownVariable name => fmt["cache key template variable `"; name; "` is not supported"]
  | InvalidRequestHeader name =>
      fmt["cache key template request header `"; name; "` is invalid: "; display_error "HeaderName" name]
  | EmptyVariableArgument name =>
      fmt["cache key template variable `"; name; "` requires a non-empty value"]
  end.

(** [result.map_err(f)]. *)
Definition map_err {E F A} (f : E → F) (m : result E A) : result F A :=
  match m with Ok a => Ok a | Err e => Err (f e) end.

(** One method of [cache.methods]; the state is [allows_get]. *)
Definition validate_method (route_scope : string) (allows_get : bool) (method : string) : result Error bool :=
  let other := to_ascii_uppercase (trim method) in
  if str_eqb other "GET" then Ok true
  else if str_eqb other "HEAD" then Ok allows_get
  else Err fail[route_scope; " cache method `"; other; "` is not supported by the MVP"].

(** Source: crates/rginx-config/src/validate/cache.rs:53-197 (validate_route_cache) *)
Definition validate_route_cache (route_scope : string) (cache : option CacheRouteConfig)
    (cache_zone_names : gset string) : result Error () :=
  match cache with
  | None => Ok tt
  | Some cache =>
      let zone := trim (rc_zone cache) in
      let? _ := reject (str_is_empty zone) fail[route_scope; " cache.zone must not be empty"] in
      let? _ := reject (negb (bool_decide (zone ∈ cache_zone_names)))
        fail[route_scope; " references undefined cache zone `"; zone; "`"] in
      let? _ := match rc_methods cache with
        | None => Ok tt
        | Some methods =>
            let? _ := reject (bool_decide (methods = []))
              fail[route_scope; " cache.methods must not be empty when provided"] in
            let? allows_get := try_fold (validate_method route_scope) false methods in
            reject (negb allows_get)
              fail[route_scope; " cache.methods must include GET so responses can populate the cache"]
        end in
      let? _ := match rc_statuses cache with
        | None => Ok tt
        | Some statuses => validate_statuses route_scope "cache.statuses" statuses
        end in
      let? _ := match rc_ttl_secs_by_status cache with
        | None => Ok tt
        | Some ttl_rules =>
            let? _ := reject (bool_decide (ttl_rules = []))
              fail[route_scope; " cache.ttl_secs_by_status must not be empty when provided"] in
            for_each (λ '(index, rule), validate_status_ttl_rule route_scope index rule) (enumerate ttl_rules)
        end in
      let? _ := match rc_key cache with
        | None => Ok tt
        | Some key =>
            let? _ := reject (blank key) fail[route_scope; " cache.key must not be empty"] in
            let? _ := map_err (λ error, fail[route_scope; " cache.key is invalid: "; key_error_text error])
              (parse_cache_key_template key) in
            Ok tt
        end in
      let? _ := match rc_cache_bypass cache with
        | None => Ok tt
        | Some p => validate_cache_predicate route_scope "cache.cache_bypass" RequestOnly p
        end in
      let? _ := match rc_no_cache cache with
        | None => Ok tt
        | Some p => validate_cache_predicate route_scope "cache.no_cache" RequestOrResponse p
        end in
      let positive (value : option Z) (field : string) : result Error () :=
        reject (is_zero value) fail[route_scope; " cache."; field; " must be greater than 0"] in
      let? _ := positive (rc_stale_if_error_secs cache) "stale_if_error_secs"%string in
      let? _ := positive (rc_grace_secs cache) "grace_secs"%string in
      let? _ := positive (rc_keep_secs cache) "keep_secs"%string in
      let? _ := positive (rc_pass_ttl_secs cache) "pass_ttl_secs"%string in
      let? _ := positive (rc_lock_timeout_secs cache) "lock_timeout_secs"%string in
      let? _ := positive (rc_lock_age_secs cache) "lock_age_secs"%string in
      let? _ := positive (rc_min_uses cache) "min_uses"%string in
      let? _ := reject (match rc_ignore_headers cache with Some [] => true | _ => false end)
        fail[route_scope; " cache.ignore_headers must not be empty when provided"] in
      let? _ := positive (rc_slice_size_bytes cache) "slice_size_bytes"%string in
      reject (is_some (rc_slice_size_bytes cache) &&
              negb (match rc_range_requests cache with Some RangeCacheConfig => true | _ => false end))
        fail[route_scope; " cache.slice_size_bytes requires cache.range_requests = Cache"]
  end.

(** ** Compilation *)

(** Source: crates/rginx-config/src/compile/cache.rs:277-280 (usize_from_u64) *)
Definition usize_from_u64 (value : Z) : result Error Z :=
  ok_or (usize_try_from value) fail["cache size `"; dec value; "` does not fit into usize"].

Definition compile_cache_zone (base_dir : string) (zone : CacheZoneConfig) : result Error (string * CacheZone) :=
  let name := trim (zc_name zone) in
  let path := resolve_path base_dir (zc_path zone) in
  let? max_size_bytes := transpose usize_from_u64 (zc_max_size_bytes zone) in
  let? default_max_entry_bytes := usize_from_u64 DEFAULT_CACHE_MAX_ENTRY_BYTES in
  let? max_entry_bytes :=
    match zc_max_entry_bytes zone with
    | Some value => usize_from_u64 value
    | None =>
        Ok (match max_size_bytes with
            | Some max_size => Z.min default_max_entry_bytes max_size
            | None => default_max_entry_bytes
            end)
    end in
  let? _ := reject (is_some_and (λ max_size_bytes, max_size_bytes <? max_entry_bytes) max_size_bytes)
    fail["cache zone `"; name; "` max_entry_bytes must not exceed max_size_bytes"] in
  let? loader_batch_entries :=
    usize_from_u64 (default DEFAULT_CACHE_LOADER_BATCH_ENTRIES (zc_loader_batch_entries zone)) in
  let? manager_batch_entries :=
    usize_from_u64 (default DEFAULT_CACHE_MANAGER_BATCH_ENTRIES (zc_manager_batch_entries zone)) in
  Ok (name, {|
    zone_name := name;
    zone_path := path;
    zone_max_size_bytes := max_size_bytes;
    zone_inactive := from_secs (default DEFAULT_CACHE_INACTIVE_SECS (zc_inactive_secs zone));
    zone_default_ttl := from_secs (default DEFAULT_CACHE_TTL_SECS (zc_default_ttl_secs zone));
    zone_max_entry_bytes := max_entry_bytes;
    zone_path_levels := default DEFAULT_CACHE_PATH_LEVELS (zc_path_levels zone);
    zone_loader_batch_entries := loader_batch_entries;
    zone_loader_sleep := default DEFAULT_CACHE_LOADER_SLEEP_MILLIS (zc_loader_sleep_millis zone);
    zone_manager_batch_entries := manager_batch_entries;
    zone_manager_sleep := default DEFAULT_CACHE_MANAGER_SLEEP_MILLIS (zc_manager_sleep_millis zone);
    zone_inactive_cleanup_interval :=
      from_secs (default DEFAULT_CACHE_INACTIVE_CLEANUP_INTERVAL_SECS (zc_inactive_cleanup_interval_secs zone));
    zone_shared_index := default DEFAULT_CACHE_SHARED_INDEX (zc_shared_index zone);
  |}).

(** [collect] into a map: a later zone of the same name replaces an earlier one. *)
(** Source: crates/rginx-config/src/compile/cache.rs:34-96 (compile_cache_zones) *)
Definition compile_cache_zones (zones : list CacheZoneConfig) (base_dir : string)
    : result Error (gmap string CacheZone) :=
  let? compiled := collect (compile_cache_zone base_dir) zones in
  Ok (foldl (λ m '(name, zone), <[name := zone]> m) ∅ compiled).

(** Source: crates/rginx-config/src/compile/cache.rs:282-290 (dedup_preserving_order) *)
Definition dedup_preserving_order {T} `{EqDecision T} (values : list T) : list T :=
  foldl (λ deduped value, if bool_decide (value ∈ deduped) then deduped else deduped ++ [value]) [] values.

(** Source: crates/rginx-config/src/compile/cache.rs:239-243 (compile_header_name) *)
Definition compile_header_name (scope header_name : string) : result Error string :=
  ok_or (header_name_parse header_name)
    fail[scope; " `"; header_name; "` is invalid: "; display_error "HeaderName" header_name].

Definition compile_status (status : Z) : result Error Z :=
  ok_or (status_code_from_u16 status) InvalidStatusCode.

(** Source: crates/rginx-config/src/compile/cache.rs:193-237 (compile_cache_predicate) *)
Fixpoint compile_cache_predicate (predicate : CachePredicateConfig) : result Error CachePredicate :=
  match predicate with
  | AnyConfig predicates => rmap PAny (collect compile_cache_predicate predicates)
  | AllConfig predicates => rmap PAll (collect compile_cache_predicate predicates)
  | NotConfig predicate => rmap PNot (compile_cache_predicate predicate)
  | MethodConfig method =>
      let normalized := to_ascii_uppercase (trim method) in
      rmap PMethod (ok_or (parse_method normalized)
        fail["invalid cache predicate method `"; method; "`: "; display_error "Method" normalized])
  | HeaderExistsConfig name => rmap PHeaderExists (compile_header_name "cache predicate header" name)
  | HeaderEqualsConfig name value =>
      rmap (λ name, PHeaderEquals name value) (compile_header_name "cache predicate header" name)
  | QueryExistsConfig name => Ok (PQueryExists name)
  | QueryEqualsConfig name value => Ok (PQueryEquals name value)
  | CookieExistsConfig name => Ok (PCookieExists name)
  | CookieEqualsConfig name value => Ok (PCookieEquals name value)
  | StatusConfig status => rmap (λ status, PStatus [status]) (compile_status status)
  | StatusesConfig statuses =>
      rmap (λ statuses, PStatus (dedup_preserving_order statuses)) (collect compile_status statuses)
  end.

(** Source: crates/rginx-config/src/compile/cache.rs:245-258 (compile_use_stale_condition) *)
Definition compile_use_stale_condition (condition : CacheUseStaleConditionConfig) : CacheUseStaleCondition :=
  match condition with
  | StaleErrorConfig => UseStaleError
  | StaleTimeoutConfig => UseStaleTimeout
  | StaleUpdatingConfig => UseStaleUpdating
  | StaleHttp403Config => UseStaleHttp403
  | StaleHttp404Config => UseStaleHttp404
  | StaleHttp429Config => UseStaleHttp429
  | StaleHttp500Config => UseStaleHttp500
  | StaleHttp502Config => UseStaleHttp502
  | StaleHttp503Config => UseStaleHttp503
  | StaleHttp504Config => UseStaleHttp504
  end.

(** Source: crates/rginx-config/src/compile/cache.rs:260-268 (compile_ignore_header) *)
Definition compile_ignore_header (header : CacheIgnoreHeaderConfig) : CacheIgnoreHeader :=
  match header with
  | IgnoreXAccelExpiresConfig => IgnoreXAccelExpires
  | IgnoreExpiresConfig => IgnoreExpires
  | IgnoreCacheControlConfig => IgnoreCacheControl
  | IgnoreSetCookieConfig => IgnoreSetCookie
  | IgnoreVaryConfig => IgnoreVary
  end.

(** Source: crates/rginx-config/src/compile/cache.rs:270-275 (compile_range_request_policy) *)
Definition compile_range_request_policy (policy : CacheRangeRequestPolicyConfig) : CacheRangeRequestPolicy :=
  match policy with RangeBypassConfig => RangeBypass | RangeCacheConfig => RangeCache end.

Definition compile_method (method : string) : result Error string :=
  let normalized := to_ascii_uppercase (trim method) in
  ok_or (parse_method normalized)
    fail["invalid cache method `"; method; "`: "; display_error "Method" normalized].

Definition compile_ttl_rule (rule : CacheStatusTtlConfig) : result Error CacheStatusTtlRule :=
  let? statuses := collect compile_status (sttl_statuses rule) in
  Ok (mkCacheStatusTtlRule (dedup_preserving_order statuses) (from_secs (sttl_ttl_secs rule))).

(** Source: crates/rginx-config/src/compile/cache.rs:98-191 (compile_route_cache) *)
Definition compile_route_cache (cache : option CacheRouteConfig) : result Error (option RouteCachePolicy) :=
  transpose (λ cache,
    let? methods := match rc_methods cache with
      | Some methods => collect compile_method methods
      | None => Ok [GET; HEAD]
      end in
    let methods := dedup_preserving_order methods in
    let? statuses := match rc_statuses cache with
      | Some statuses => collect compile_status statuses
      | None => Ok [200; 301; 302; 404]
      end in
    let statuses := dedup_preserving_order statuses in
    let? ttl_by_status := collect compile_ttl_rule (default [] (rc_ttl_secs_by_status cache)) in
    let? key := map_err (λ error, ConfigError (key_error_text error))
      (parse_cache_key_template (default DEFAULT_CACHE_KEY (rc_key cache))) in
    let? cache_bypass := transpose compile_cache_predicate (rc_cache_bypass cache) in
    let? no_cache := transpose compile_cache_predicate (rc_no_cache cache) in
    Ok {|
      pol_zone := trim (rc_zone cache);
      pol_methods := methods;
      pol_statuses := statuses;
      pol_ttl_by_status := ttl_by_status;
      pol_key := key;
      pol_cache_bypass := cache_bypass;
      pol_no_cache := no_cache;
      pol_stale_if_error := from_secs <$> rc_stale_if_error_secs cache;
      pol_grace := from_secs <$> rc_grace_secs cache;
      pol_keep := from_secs <$> rc_keep_secs cache;
      pol_pass_ttl := from_secs <$> rc_pass_ttl_secs cache;
      pol_use_stale :=
        dedup_preserving_order (map compile_use_stale_condition (default [] (rc_use_stale cache)));
      pol_background_update := default false (rc_background_update cache);
      pol_lock_timeout := from_secs (default DEFAULT_CACHE_LOCK_TIMEOUT_SECS (rc_lock_timeout_secs cache));
      pol_lock_age := from_secs (default DEFAULT_CACHE_LOCK_AGE_SECS (rc_lock_age_secs cache));
      pol_min_uses := default DEFAULT_CACHE_MIN_USES (rc_min_uses cache);
      pol_ignore_headers :=
        dedup_preserving_order (map compile_ignore_header (default [] (rc_ignore_headers cache)));
      pol_range_requests :=
        match rc_range_requests cache with
        | Some policy => compile_range_request_policy policy
        | None => RangeBypass
        end;
      pol_slice_size_bytes := rc_slice_size_bytes cache;
      pol_convert_head := default DEFAULT_CACHE_CONVERT_HEAD (rc_convert_head cache);
    |}) cache.
End ConfigCache.
