(* ===== verification/ConfigCacheSafety.v ===== *)
(** * Validated cache configuration

    A validated zone compiles to one whose entries fit into it and whose
    directory levels use up no more than a hash; a validated route policy always
    compiles, to one that stores into a configured zone, answers [GET], looks at
    the response only where it may, and has positive lifetimes, locks and
    slices. *)

From S2P Require Import Prelude RustStr External ConfigBase Upstream ConfigUpstream ConfigUpstreamSafety CacheConfig CacheStore ConfigCache.

(** ** Values kept once *)

Section Dedup.
  Context {T} `{EqDecision T}.

Let keep := λ (deduped : list T) value, if bool_decide (value ∈ deduped) then deduped else deduped ++ [value].

Lemma dedup_from (l acc : list T) :
  NoDup acc → NoDup (foldl keep acc l) ∧ ∀ x, x ∈ foldl keep acc l ↔ x ∈ acc ∨ x ∈ l.
Proof.
  revert acc. induction l as [|y l IH]; intros acc Hacc; cbn [foldl]; [split; [done|set_solver]|].
  assert (NoDup (keep acc y) ∧ ∀ x, x ∈ keep acc y ↔ x ∈ acc ∨ x = y) as [Hnd Hin].
  { unfold keep. case_bool_decide; [set_solver|]. split; [|set_solver].
    apply NoDup_app. split_and!; [done|set_solver|apply NoDup_singleton]. }
  destruct (IH _ Hnd) as [? H]. split; [done|]. intros x. rewrite H, Hin. set_solver.
Qed.

Lemma dedup_NoDup (l : list T) : NoDup (dedup_preserving_order l).
Proof. apply dedup_from. constructor. Qed.

Lemma elem_of_dedup_preserving (l : list T) x : x ∈ dedup_preserving_order l ↔ x ∈ l.
Proof. destruct (dedup_from l [] NoDup_nil_2) as [_ H]. etrans; [apply H|set_solver]. Qed.

Lemma Forall_dedup (P : T → Prop) l : Forall P l → Forall P (dedup_preserving_order l).
Proof. rewrite !Forall_forall. intros H x. rewrite elem_of_dedup_preserving. apply H. Qed.
End Dedup.

Section CacheTyping.
  Context {NET : IpNetApi} {RX : RegexApi} {API : ConfigApi NET RX} {HTTP : HttpApi}.

(** ** Zones *)

Definition zone_config_typed (z : CacheZoneConfig) : Prop :=
  Forall opt_u64 [zc_max_size_bytes z; zc_inactive_secs z; zc_default_ttl_secs z; zc_max_entry_bytes z;
                  zc_loader_batch_entries z; zc_loader_sleep_millis z; zc_manager_batch_entries z;
                  zc_manager_sleep_millis z; zc_inactive_cleanup_interval_secs z] ∧
  ∀ levels, zc_path_levels z = Some levels → Forall is_u8 levels.

Definition zone_typed (z : CacheZone) : Prop :=
  Forall (Z.lt 0) [zone_inactive z; zone_default_ttl z; zone_max_entry_bytes z; zone_loader_batch_entries z;
                   zone_loader_sleep z; zone_manager_batch_entries z; zone_manager_sleep z;
                   zone_inactive_cleanup_interval z] ∧
  (∀ max, zone_max_size_bytes z = Some max → zone_max_entry_bytes z ≤ max < 2 ^ 64) ∧
  zone_path_levels z ≠ [] ∧ Forall (Z.lt 0) (zone_path_levels z) ∧
  zsum (zone_path_levels z) ≤ CACHE_KEY_HASH_HEX_LEN.

Lemma levels_fold zone levels total total' :
  Forall is_u8 levels → 0 ≤ total ≤ u64_max →
  try_fold (λ total level,
    let? _ := reject (level =? 0)
      fail["cache zone `"; zone; "` path_levels entries must be greater than 0"] in
    Ok (sat_add64 total level)) total levels = Ok total' →
  Forall (Z.lt 0) levels ∧ total' = Z.min (total + zsum levels) u64_max.
Proof.
  intros Hty. revert total. induction Hty as [|l levels Hl Hty IH]; intros total Ht H; cbn in H.
  - simplify_eq. cbn. split; [constructor|lia].
  - apply rbind_ok in H as (t & H & H'). apply rbind_unit in H as [Hz%reject_ok%Z.eqb_neq [= <-]].
    unfold is_u8 in Hl.
    apply IH in H' as [Hpos ->]; [|unfold sat_add64, u64_max in *; lia].
    assert (0 ≤ zsum levels) by (apply zsum_nonneg; eapply Forall_impl; [exact Hpos|lia]).
    split; [constructor; [lia|done]|]. cbn. fold (zsum levels). unfold sat_add64, u64_max. lia.
Qed.

Lemma validate_path_levels_ok zone levels :
  Forall is_u8 levels → validate_path_levels zone levels = Ok tt →
  levels ≠ [] ∧ Forall (Z.lt 0) levels ∧ zsum levels ≤ CACHE_KEY_HASH_HEX_LEN.
Proof.
  intros Hty H. unfold validate_path_levels in H. passed H.
  apply bool_decide_eq_false in Hcheck. apply Z.ltb_ge in H.
  apply levels_fold in Hstep as [Hpos ->]; [|done|unfold u64_max; lia].
  split_and!; [done|done|]. unfold CACHE_KEY_HASH_HEX_LEN, u64_max in *. lia.
Qed.

(** What one zone's validation established. *)
Definition zone_valid (z : CacheZoneConfig) : Prop :=
  Forall (λ o, is_zero o = false)
    [zc_max_size_bytes z; zc_inactive_secs z; zc_default_ttl_secs z; zc_max_entry_bytes z;
     zc_loader_batch_entries z; zc_loader_sleep_millis z; zc_manager_batch_entries z;
     zc_manager_sleep_millis z; zc_inactive_cleanup_interval_secs z] ∧
  (∀ levels, zc_path_levels z = Some levels → validate_path_levels (trim (zc_name z)) levels = Ok tt) ∧
  (∀ max entry, zc_max_size_bytes z = Some max → zc_max_entry_bytes z = Some entry → entry ≤ max).

Lemma validate_cache_zone_ok z names names' :
  validate_cache_zone z names = Ok names' →
  zone_valid z ∧ str_is_empty (trim (zc_name z)) = false ∧ trim (zc_name z) ∉ names ∧
  names' = {[trim (zc_name z)]} ∪ names.
Proof.
  intros H. unfold validate_cache_zone in H. cbn [hs_insert] in H.
  unfold validate_positive_optional in H. passed H. injection H as <-.
  apply negb_false_iff, bool_decide_eq_true in Hcheck0.
  split_and!; [|done|done|done].
  split_and!; [by repeat (apply Forall_cons_2; [done|]); apply Forall_nil_2| |].
  - intros levels Hl. by rewrite Hl in Hstep.
  - intros max entry Hm He. rewrite Hm, He in Hcheck11. by apply Z.ltb_ge.
Qed.

Lemma usize_from_u64_ok v : is_u64 v → usize_from_u64 v = Ok v.
Proof. intros Hv. apply ok_or_ok. by apply (usize_default v None). Qed.

Lemma compile_cache_zone_total base_dir z :
  zone_config_typed z → zone_valid z →
  ∃ c, compile_cache_zone base_dir z = Ok (trim (zc_name z), c) ∧ zone_name c = trim (zc_name z) ∧
       zone_path c = resolve_path base_dir (zc_path z) ∧ zone_typed c.
Proof.
  intros [Hty Hlev] (Hz & Hlv & Hmax). rewrite !Forall_cons in Hz. rewrite !Forall_cons in Hty.
  destruct Hz as (Hz1 & Hz2 & Hz3 & Hz4 & Hz5 & Hz6 & Hz7 & Hz8 & Hz9 & _).
  destruct Hty as (Ht1 & Ht2 & Ht3 & Ht4 & Ht5 & Ht6 & Ht7 & Ht8 & Ht9 & _).
  assert (∀ levels, zc_path_levels z = Some levels →
    levels ≠ [] ∧ Forall (Z.lt 0) levels ∧ zsum levels ≤ CACHE_KEY_HASH_HEX_LEN) as levels_valid.
  { intros levels Hl. eapply validate_path_levels_ok; [by apply Hlev|by apply Hlv]. }
  assert (∀ o d, opt_u64 o → is_u64 d → usize_from_u64 (default d o) = Ok (default d o)) as Hdef.
  { intros o d Ho Hd. apply usize_from_u64_ok. destruct o; [by apply Ho|done]. }
  unfold compile_cache_zone.
  assert (transpose usize_from_u64 (zc_max_size_bytes z) = Ok (zc_max_size_bytes z)) as ->
    by by apply usize_transpose.
  rewrite (Hdef _ _ Ht5), (Hdef _ _ Ht7) by done. cbn [rbind].
  rewrite usize_from_u64_ok by done. cbn [rbind].
  set (max_entry := match zc_max_entry_bytes z with
    | Some value => value
    | None => match zc_max_size_bytes z with
              | Some max_size => Z.min DEFAULT_CACHE_MAX_ENTRY_BYTES max_size
              | None => DEFAULT_CACHE_MAX_ENTRY_BYTES
              end
    end).
  assert (match zc_max_entry_bytes z with
    | Some value => usize_from_u64 value
    | None => Ok (match zc_max_size_bytes z with
                  | Some max_size => Z.min DEFAULT_CACHE_MAX_ENTRY_BYTES max_size
                  | None => DEFAULT_CACHE_MAX_ENTRY_BYTES
                  end)
    end = Ok max_entry) as ->.
  { subst max_entry. destruct (zc_max_entry_bytes z) as [v|]; [|done]. by apply usize_from_u64_ok, Ht4. }
  assert (0 < max_entry ∧ ∀ max, zc_max_size_bytes z = Some max → max_entry ≤ max) as [Hpos Hle].
  { subst max_entry. split.
    - destruct (zc_max_entry_bytes z) as [v|]; [by apply (positive_default (Some v) 1)|].
      destruct (zc_max_size_bytes z) as [m|]; [|done].
      pose proof (positive_default (Some m) 1 Ht1 Hz1 ltac:(done)). unfold DEFAULT_CACHE_MAX_ENTRY_BYTES. cbn in *. lia.
    - intros max Hm. destruct (zc_max_entry_bytes z) as [v|] eqn:He; [by apply Hmax|]. rewrite Hm. lia. }
  cbn [rbind]. replace (is_some_and _ (zc_max_size_bytes z)) with false.
  2: { symmetry. apply is_some_and_false. intros max Hm. apply Z.ltb_ge. by apply Hle. }
  cbn [reject rbind]. eexists. split_and!; [done..|]. unfold zone_typed. cbn. split_and!.
  - repeat (apply Forall_cons_2; [first [done|by try apply from_secs_positive; apply positive_default]|]).
    apply Forall_nil_2.
  - intros max Hm. split; [by apply Hle|]. by apply Ht1.
  - by destruct (zc_path_levels z) as [levels|]; [apply (levels_valid levels)|].
  - destruct (zc_path_levels z) as [levels|]; [by apply (levels_valid levels)|by repeat constructor].
  - by destruct (zc_path_levels z) as [levels|]; [apply (levels_valid levels)|].
Qed.

Lemma validate_cache_zones_ok zones names :
  validate_cache_zones zones = Ok names →
  Forall zone_valid zones ∧ NoDup ((trim ∘ zc_name) <$> zones) ∧
  names = list_to_set ((trim ∘ zc_name) <$> zones).
Proof.
  unfold validate_cache_zones.
  assert (∀ s, try_fold (λ names zone, validate_cache_zone zone names) s zones = Ok names →
    Forall zone_valid zones ∧ NoDup ((trim ∘ zc_name) <$> zones) ∧
    (∀ z, z ∈ zones → trim (zc_name z) ∉ s) ∧
    names = list_to_set ((trim ∘ zc_name) <$> zones) ∪ s) as Hgen.
  { induction zones as [|z zones IH]; intros s H; cbn in H.
    - simplify_eq. split_and!; [constructor|constructor|set_solver|set_solver].
    - apply rbind_ok in H as (s1 & Hz & H). apply validate_cache_zone_ok in Hz as (Hv & _ & Hout & ->).
      apply IH in H as (Hall & Hnd & Hfresh & ->). split_and!.
      + by constructor.
      + rewrite fmap_cons. constructor; [|done]. intros (z' & Hz' & Hin)%list_elem_of_fmap.
        specialize (Hfresh z' Hin). cbn in Hz'. set_solver.
      + intros z' [->|Hin]%elem_of_cons; [done|]. specialize (Hfresh z' Hin). set_solver.
      + cbn. set_solver. }
  intros H. apply Hgen in H as (? & ? & _ & ->). split_and!; [done|done|]. by rewrite (right_id_L ∅ (∪)).
Qed.

Lemma insert_all (l : list (string * CacheZone)) (m : gmap string CacheZone) :
  NoDup (l.*1) → (∀ k, k ∈ l.*1 → m !! k = None) →
  foldl (λ m '(name, zone), <[name := zone]> m) m l = list_to_map l ∪ m.
Proof.
  revert m. induction l as [|[k z] l IH]; intros m Hnd Hout; cbn.
  - by rewrite (left_id_L ∅ (∪)).
  - apply NoDup_cons in Hnd as [Hk Hnd]. rewrite IH; [|done|].
    + rewrite <-insert_union_l, insert_union_r; [done|]. by apply not_elem_of_list_to_map_1.
    + intros k' Hin. apply lookup_insert_None. split; [apply Hout; set_solver|]. intros ->. by apply Hk.
Qed.

(** ** Predicates *)

Section PredicateInd.
  Context (P : CachePredicateConfig → Prop).
  Context (Hany : ∀ l, Forall P l → P (AnyConfig l)) (Hall : ∀ l, Forall P l → P (AllConfig l)).
  Context (Hnot : ∀ p, P p → P (NotConfig p)).
  Context (Hleaf : ∀ p, match p with AnyConfig _ | AllConfig _ | NotConfig _ => False | _ => True end → P p).

Fixpoint predicate_config_ind (p : CachePredicateConfig) : P p :=
  let all := fix all (l : list CachePredicateConfig) : Forall P l :=
    match l with
    | [] => Forall_nil_2 P
    | p :: l => Forall_cons_2 P p l (predicate_config_ind p) (all l)
    end in
  match p with
  | AnyConfig l => Hany l (all l)
  | AllConfig l => Hall l (all l)
  | NotConfig p => Hnot p (predicate_config_ind p)
  | p => Hleaf p I
  end.
End PredicateInd.

Definition status_in_range (status : Z) : Prop := 100 ≤ status ≤ 599.

(** Every status a predicate looks for is one a response can have. *)
Fixpoint predicate_typed (p : CachePredicate) : Prop :=
  match p with
  | PAny l | PAll l => foldr (λ q rest, predicate_typed q ∧ rest) True l ∧ l ≠ []
  | PNot q => predicate_typed q
  | PStatus statuses => Forall status_in_range statuses ∧ statuses ≠ []
  | _ => True
  end.

Lemma validate_statuses_ok scope field statuses :
  validate_statuses scope field statuses = Ok tt → Forall status_in_range statuses ∧ statuses ≠ [].
Proof.
  intros H. unfold validate_statuses in H. passed H. apply bool_decide_eq_false in Hcheck.
  apply for_each_ok in H. split; [|done]. eapply Forall_impl; [exact H|].
  intros status Hs. apply reject_ok in Hs. unfold status_in_range. lia.
Qed.

Lemma compile_statuses_ok statuses :
  Forall status_in_range statuses → collect compile_status statuses = Ok statuses.
Proof.
  intros H. apply collect_ok. induction H as [|s l Hs Hl IH]; constructor; [|done].
  unfold compile_status, status_code_from_u16, status_in_range in *.
  replace (100 <=? s) with true by lia. by replace (s <? 1000) with true by lia.
Qed.

Lemma dedup_typed statuses :
  Forall status_in_range statuses ∧ statuses ≠ [] →
  Forall status_in_range (dedup_preserving_order statuses) ∧ dedup_preserving_order statuses ≠ [].
Proof.
  intros [H Hne]. split; [by apply Forall_dedup|]. destruct statuses as [|x l]; [done|].
  intros Heq. assert (x ∈ dedup_preserving_order (x :: l)) as Hx by (apply elem_of_dedup_preserving; by left).
  rewrite Heq in Hx. by apply not_elem_of_nil in Hx.
Qed.

Definition compiles_well (mode : PredicateValidationMode) (p : CachePredicateConfig) : Prop :=
  ∃ q, compile_cache_predicate p = Ok q ∧ predicate_typed q ∧ (mode = RequestOnly → status_free q = true).

Lemma compile_composite mode l :
  Forall (compiles_well mode) l → l ≠ [] →
  ∃ qs, collect compile_cache_predicate l = Ok qs ∧ predicate_typed (PAny qs) ∧
        (mode = RequestOnly → forallb status_free qs = true).
Proof.
  intros H Hne. assert (∃ qs, collect compile_cache_predicate l = Ok qs ∧
    foldr (λ q rest, predicate_typed q ∧ rest) True qs ∧ length qs = length l ∧
    (mode = RequestOnly → forallb status_free qs = true)) as (qs & Hqs & Hty & Hlen & Hfree).
  { clear Hne. induction H as [|p l (q & Hq & Hqt & Hqf) Hl (qs & Hqs & Hty & Hlen & Hfree)]; [by exists []|].
    exists (q :: qs). cbn. rewrite Hq. cbn. rewrite Hqs, Hlen. split_and!; [done..|].
    intros Hm. by rewrite (Hqf Hm), (Hfree Hm). }
  exists qs. split_and!; [done|split; [done|by destruct qs, l]|done].
Qed.

Lemma validated_predicate_compiles scope field mode p :
  validate_cache_predicate scope field mode p = Ok tt → compiles_well mode p.
Proof.
  induction p as [l IH|l IH|p IH|p Hp] using predicate_config_ind; intros H; cbn [validate_cache_predicate] in H.
  1,2: passed H; apply for_each_ok in H;
    assert (Forall (compiles_well mode) l) as Hl
      by (rewrite Forall_forall in *; intros x Hx; apply IH, H; done);
    destruct (compile_composite mode l Hl) as (qs & Hqs & Hty & Hfree); [by destruct l|];
    eexists; cbn [compile_cache_predicate]; rewrite Hqs; by split_and!.
  - destruct (IH H) as (q & Hq & ? & ?). exists (PNot q). cbn. by rewrite Hq.
  - destruct p as [| | |method|name|name value|name|name value|name|name value|status|statuses]; try done;
      unfold compiles_well; cbn [validate_cache_predicate compile_cache_predicate] in *;
      unfold no_status_in_request, validate_non_empty, validate_header_name in H; passed H.
    + destruct (parse_method _) as [m|]; [|done]. by exists (PMethod m).
    + unfold compile_header_name. destruct (header_name_parse name) as [n|]; [|done]. by exists (PHeaderExists n).
    + unfold compile_header_name. destruct (header_name_parse name) as [n|]; [|done]. by exists (PHeaderEquals n value).
    + by eexists.
    + by eexists.
    + by eexists.
    + by eexists.
    + apply validate_statuses_ok in Hstep as [Hs _].
      pose proof (compile_statuses_ok [status] Hs) as Hc. cbn in Hc.
      destruct (compile_status status) as [s|]; [|done]. simplify_eq/=. exists (PStatus [status]).
      split_and!; [done|done|]. by intros ->.
    + apply validate_statuses_ok in Hstep. rewrite compile_statuses_ok by apply Hstep.
      eexists. split_and!; [done|by apply dedup_typed|]. by intros ->.
Qed.

(** ** Route policies *)

Definition route_cache_config_typed (c : CacheRouteConfig) : Prop :=
  Forall opt_u64 [rc_stale_if_error_secs c; rc_grace_secs c; rc_keep_secs c; rc_pass_ttl_secs c;
                  rc_lock_timeout_secs c; rc_lock_age_secs c; rc_min_uses c; rc_slice_size_bytes c] ∧
  Forall (λ r, is_u64 (sttl_ttl_secs r)) (default [] (rc_ttl_secs_by_status c)).

Definition rule_typed (r : CacheStatusTtlRule) : Prop :=
  Forall status_in_range (rule_statuses r) ∧ rule_statuses r ≠ [] ∧ 0 < rule_ttl r.

Definition policy_typed (zones : gset string) (p : RouteCachePolicy) : Prop :=
  pol_zone p ∈ zones ∧
  (GET ∈ pol_methods p ∧ NoDup (pol_methods p) ∧ ∀ m, m ∈ pol_methods p → m = GET ∨ m = HEAD) ∧
  (Forall status_in_range (pol_statuses p) ∧ NoDup (pol_statuses p) ∧ pol_statuses p ≠ []) ∧
  Forall rule_typed (pol_ttl_by_status p) ∧
  (∀ q, pol_cache_bypass p = Some q → status_free q = true ∧ predicate_typed q) ∧
  (∀ q, pol_no_cache p = Some q → predicate_typed q) ∧
  Forall positive [pol_stale_if_error p; pol_grace p; pol_keep p; pol_pass_ttl p; pol_slice_size_bytes p] ∧
  Forall (Z.lt 0) [pol_lock_timeout p; pol_lock_age p; pol_min_uses p] ∧
  NoDup (pol_use_stale p) ∧ NoDup (pol_ignore_headers p) ∧
  (pol_slice_size_bytes p ≠ None → pol_range_requests p = RangeCache).

Context (get_parses : parse_method GET = Some GET) (head_parses : parse_method HEAD = Some HEAD).

Lemma positive_given o : opt_u64 o → is_zero o = false → positive o.
Proof. intros Hty Hz v ->. by apply (positive_default (Some v) 1). Qed.

Lemma methods_compile scope methods seen seen' :
  try_fold (validate_method scope) seen methods = Ok seen' →
  ∃ compiled, collect compile_method methods = Ok compiled ∧
    (∀ m, m ∈ compiled → m = GET ∨ m = HEAD) ∧ (seen' = true → seen = true ∨ GET ∈ compiled).
Proof.
  revert seen. induction methods as [|m methods IH]; intros seen H; cbn in H.
  - simplify_eq. exists []. split_and!; [done|set_solver|auto].
  - apply rbind_ok in H as (seen1 & Hm & H). destruct (IH _ H) as (compiled & Hc & Hin & Hget).
    unfold validate_method in Hm. cbn [collect]. unfold compile_method at 1. unfold str_eqb in Hm.
    case_bool_decide as Hg; [|case_bool_decide as Hh; [|done]]; simplify_eq.
    + rewrite Hg. change "GET"%string with GET. rewrite get_parses. cbn. rewrite Hc.
      exists (GET :: compiled). split_and!; [done|set_solver|set_solver].
    + rewrite Hh. change "HEAD"%string with HEAD. rewrite head_parses. cbn. rewrite Hc.
      exists (HEAD :: compiled). split_and!; [done|set_solver|]. intros Hs. destruct (Hget Hs); [by left|right; set_solver].
Qed.

Lemma rules_compile scope (rules : list CacheStatusTtlConfig) n :
  Forall (λ r, is_u64 (sttl_ttl_secs r)) rules →
  for_each (λ '(index, rule), validate_status_ttl_rule scope index rule) (enumerate_from n rules) = Ok tt →
  ∃ compiled, collect compile_ttl_rule rules = Ok compiled ∧ Forall rule_typed compiled.
Proof.
  intros Hty. revert n. induction Hty as [|r rules Hr Hty IH]; intros n H; [exists []; by split|].
  cbn in H. apply rbind_unit in H as [H Hrest]. destruct (IH _ Hrest) as (compiled & Hc & Hall).
  unfold validate_status_ttl_rule in H. passed H. apply Z.eqb_neq in H.
  apply validate_statuses_ok in Hstep. cbn [collect]. unfold compile_ttl_rule at 1.
  rewrite compile_statuses_ok by apply Hstep. cbn [rbind]. rewrite Hc. eexists. split; [done|].
  constructor; [|done]. unfold rule_typed. cbn. destruct (dedup_typed _ Hstep).
  split_and!; [done|done|]. apply from_secs_positive. unfold is_u64 in Hr. lia.
Qed.

Lemma optional_predicate_compiles scope field mode o :
  match o with None => Ok tt | Some p => validate_cache_predicate scope field mode p end = Ok tt →
  ∃ q, transpose compile_cache_predicate o = Ok q ∧
    ∀ q', q = Some q' → predicate_typed q' ∧ (mode = RequestOnly → status_free q' = true).
Proof.
  intros H. destruct o as [p|]; [|by exists None].
  apply validated_predicate_compiles in H as (q & Hq & Hty & Hfree). exists (Some q). cbn. rewrite Hq.
  split; [done|]. intros q' [= <-]. done.
Qed.

Lemma default_key_parses : is_ok (parse_cache_key_template DEFAULT_CACHE_KEY) = true.
Proof. reflexivity. Qed.

Lemma key_compiles scope key :
  match key with
  | None => Ok tt
  | Some key =>
      let? _ := reject (blank key) fail[scope; " cache.key must not be empty"] in
      let? _ := map_err (λ error, fail[scope; " cache.key is invalid: "; key_error_text error])
        (parse_cache_key_template key) in
      Ok tt
  end = Ok tt →
  ∃ t, map_err (λ error, ConfigError (key_error_text error))
    (parse_cache_key_template (default DEFAULT_CACHE_KEY key)) = Ok t.
Proof.
  intros H. destruct key as [key|]; cbn [default from_option]; unfold id.
  - passed H. destruct (parse_cache_key_template key); [by eexists|done].
  - destruct (is_ok_true _ default_key_parses) as (t & ->). by eexists.
Qed.

Lemma route_cache_compiles scope cache zones :
  route_cache_config_typed cache → validate_route_cache scope (Some cache) zones = Ok tt →
  ∃ p, compile_route_cache (Some cache) = Ok (Some p) ∧ policy_typed zones p ∧ pol_zone p = trim (rc_zone cache).
Proof.
  intros [Hty Htr] H. unfold validate_route_cache in H. cbv zeta in H. passed H.
  rewrite !Forall_cons in Hty. destruct Hty as (? & ? & ? & ? & ? & ? & ? & ? & _).
  apply negb_false_iff, bool_decide_eq_true in Hcheck0 as Hzone.
  assert (∃ methods, match rc_methods cache with Some methods => collect compile_method methods | None => Ok [GET; HEAD] end
    = Ok methods ∧ GET ∈ methods ∧ ∀ m, m ∈ methods → m = GET ∨ m = HEAD) as (methods & Hm & Hget & Hmin).
  { destruct (rc_methods cache) as [l|]; [|exists [GET; HEAD]; split_and!; [done|set_solver|set_solver]].
    passed Hstep. apply negb_false_iff in Hstep. subst r.
    match goal with Hf : try_fold _ _ _ = Ok _ |- _ => apply methods_compile in Hf as (compiled & Hc & Hin & Hg) end.
    exists compiled.
    destruct (Hg eq_refl); [done|]. done. }
  assert (∃ statuses, match rc_statuses cache with Some s => collect compile_status s | None => Ok [200; 301; 302; 404] end
    = Ok statuses ∧ Forall status_in_range statuses ∧ statuses ≠ []) as (statuses & Hs & Hst).
  { destruct (rc_statuses cache) as [l|].
    - apply validate_statuses_ok in Hstep0. exists l. by rewrite compile_statuses_ok by apply Hstep0.
    - exists [200; 301; 302; 404]. split_and!; [done|repeat constructor; lia|done]. }
  assert (∃ rules, collect compile_ttl_rule (default [] (rc_ttl_secs_by_status cache)) = Ok rules ∧ Forall rule_typed rules)
    as (rules & Hr & Hrt).
  { destruct (rc_ttl_secs_by_status cache) as [l|]; [|by exists []]. passed Hstep1. by eapply rules_compile. }
  destruct (key_compiles scope (rc_key cache) Hstep2) as (key & Hk).
  destruct (optional_predicate_compiles _ _ _ _ Hstep3) as (bypass & Hb & Hbt).
  destruct (optional_predicate_compiles _ _ _ _ Hstep4) as (no_cache & Hn & Hnt).
  unfold compile_route_cache. cbn [transpose]. rewrite Hm. cbn [rbind]. rewrite Hs. cbn [rbind].
  rewrite Hr. cbn [rbind]. rewrite Hk. cbn [rbind]. rewrite Hb. cbn [rbind]. rewrite Hn. cbn [rbind rmap].
  eexists. split; [done|]. split; [|done]. unfold policy_typed. cbn.
  split; [done|]. split.
  { split_and!; [by apply elem_of_dedup_preserving|apply dedup_NoDup|]. intros m. rewrite elem_of_dedup_preserving. apply Hmin. }
  split.
  { destruct (dedup_typed _ Hst). split_and!; [done|apply dedup_NoDup|done]. }
  split; [done|]. split; [intros q Hq; destruct (Hbt q Hq) as [? Hf]; split; [by apply Hf|done]|].
  split; [intros q Hq; by destruct (Hnt q Hq)|]. split.
  { repeat (apply Forall_cons_2; [first [by apply positive_optional|by apply positive_given]|]). apply Forall_nil_2. }
  split.
  { repeat (apply Forall_cons_2; [try apply from_secs_positive; by apply positive_default|]). apply Forall_nil_2. }
  split; [apply dedup_NoDup|]. split; [apply dedup_NoDup|].
  intros Hslice. destruct (rc_slice_size_bytes cache); [|done].
  destruct (rc_range_requests cache) as [[]|]; done.
Qed.

End CacheTyping.

(** A validated list of cache zones always compiles, to exactly the zones
    it names: an entry never exceeds its zone, the directory levels are not
    empty and use up no more than the digits of a hash, every batch, sleep and
    lifetime is positive. *)
Theorem validated_cache_zones_compile (zones : list CacheZoneConfig) (base_dir : string)
    (names : gset string)
    (Hty : Forall zone_config_typed zones) (Hv : validate_cache_zones zones = Ok names) :
  ∃ m, compile_cache_zones zones base_dir = Ok m ∧ dom m = names ∧
       map_Forall (λ name z, zone_name z = name ∧ zone_typed z) m.
Proof.
  apply validate_cache_zones_ok in Hv as (Hvs & Hnd & ->).
  assert (∃ l, collect (compile_cache_zone base_dir) zones = Ok l ∧ l.*1 = (trim ∘ zc_name) <$> zones ∧
    Forall (λ p, zone_name p.2 = p.1 ∧ zone_typed p.2) l) as (l & Hl & Hnames & Hall).
  { clear Hnd. induction Hvs as [|z zones Hz Hvs IH]; [by exists []|].
    apply Forall_cons in Hty as [Hzt Hty]. destruct (IH Hty) as (l & Hl & Hn & Hall).
    destruct (compile_cache_zone_total base_dir z Hzt Hz) as (c & Hc & Hcn & _ & Hct).
    exists ((trim (zc_name z), c) :: l). cbn. rewrite Hc. cbn. rewrite Hl, Hn. split_and!; [done..|by constructor]. }
  unfold compile_cache_zones. rewrite Hl. cbn [rbind]. eexists. split; [done|].
  rewrite insert_all, (right_id_L ∅ (∪)); [|by rewrite Hnames|done]. split.
  - by rewrite dom_list_to_map_L, Hnames.
  - intros name z Hz%elem_of_list_to_map_2. by apply (proj1 (Forall_forall _ _) Hall) in Hz.
Qed.

(** A validated route cache always compiles, to a policy that stores into a
    configured zone, covers [GET] and at most [HEAD] besides, names only
    possible statuses, decides a bypass from the request alone, slices only
    cached ranges, and whose locks, lifetimes, slices and use counts are
    positive. *)
Theorem validated_route_cache_compiles {NET : IpNetApi} {RX : RegexApi} {API : ConfigApi NET RX} {HTTP : HttpApi}
    (scope : string) (cache : CacheRouteConfig) (zones : gset string)
    (get_parses : parse_method GET = Some GET) (head_parses : parse_method HEAD = Some HEAD)
    (Hty : route_cache_config_typed cache) (Hv : validate_route_cache scope (Some cache) zones = Ok tt) :
  ∃ policy, compile_route_cache (Some cache) = Ok (Some policy) ∧ policy_typed zones policy.
Proof.
  destruct (route_cache_compiles get_parses head_parses scope cache zones Hty Hv) as (p & Hp & Ht & _).
  by exists p.
Qed.

Module CacheSample.
Definition zones : list CacheZoneConfig :=
  [mkCacheZoneConfig " pages " "cache/pages" (Some 1000000) None (Some 30) None (Some [1; 2]) None None None None None None;
   mkCacheZoneConfig "media" "/srv/media" None (Some 3600) None (Some 50000000) None (Some 10) None None None None (Some false)].
Definition route : CacheRouteConfig :=
  mkCacheRouteConfig "pages" (Some ["get"; " HEAD "; "GET"]%string) (Some [200; 404; 200])
    (Some [mkCacheStatusTtlConfig [404] 5]) (Some "{host}{uri}:{header:accept}"%string)
    (Some (AnyConfig [CookieExistsConfig "session"; NotConfig (MethodConfig "get")]))
    (Some (AllConfig [StatusesConfig [500; 503]; QueryEqualsConfig "nocache" "1"]))
    (Some 60) None None None (Some [StaleErrorConfig; StaleUpdatingConfig; StaleErrorConfig]) (Some true)
    None (Some 7) (Some 2) (Some [IgnoreVaryConfig]) (Some RangeCacheConfig) (Some 65536) None.
End CacheSample.

Lemma sample_zones_typed : Forall zone_config_typed CacheSample.zones.
Proof.
  forall_list; split; forall_list; try (intros ? [= <-]; first [split; lia|forall_list; split; lia]); done.
Qed.

Lemma validated_cache_zones_compile_witness :
  ∃ m, compile_cache_zones CacheSample.zones "/etc/rginx" = Ok m ∧
       "pages"%string ∈ dom m ∧ map_Forall (λ name z, zone_name z = name ∧ zone_typed z) m.
Proof.
  destruct (is_ok_true (validate_cache_zones CacheSample.zones)) as (names & Hv); [by vm_compute|].
  assert ("pages"%string ∈ names) as Hin.
  { apply validate_cache_zones_ok in Hv as (_ & _ & ->). apply elem_of_list_to_set. by vm_compute; left. }
  destruct (validated_cache_zones_compile CacheSample.zones "/etc/rginx" names sample_zones_typed Hv)
    as (m & Hm & Hdom & Hall).
  exists m. rewrite Hdom. done.
Defined.

Lemma validated_route_cache_compiles_witness :
  ∃ policy, compile_route_cache (API := RefConfig.api) (HTTP := RefHttp.api) (Some CacheSample.route) = Ok (Some policy) ∧
    policy_typed {["pages"%string]} policy.
Proof.
  apply (validated_route_cache_compiles (API := RefConfig.api) (HTTP := RefHttp.api) "route" CacheSample.route
    {["pages"%string]} eq_refl eq_refl).
  - split; forall_list; try (intros ? [= <-]); split; cbn; lia.
  - by vm_compute.
Defined.
