(* ===== verification/ConfigRoute.v ===== *)
(** * Configuration: routes

    Models [crates/rginx-config/src/model/route.rs] (the raw data),
    [validate/route.rs], [validate/route/handler.rs] and [compile/route.rs].
    [proxy_set_headers] is a hash map: here it is the list of its entries in the
    order the map iterates over them, which nothing determines. *)

From S2P Require Import Prelude RustStr External ConfigBase Upstream ConfigUpstream CacheConfig ProxyHeader Route CacheStore ConfigCache.

(** ** Data *)

(** Source: crates/rginx-config/src/model/route.rs:8-13 (RouteBufferingPolicyConfig) *)
Inductive RouteBufferingPolicyConfig : Type :=
| BufferingAutoConfig | BufferingOnConfig | BufferingOffConfig.

(** Source: crates/rginx-config/src/model/route.rs:16-21 (RouteCompressionPolicyConfig) *)
Inductive RouteCompressionPolicyConfig : Type :=
| CompressionOffConfig | CompressionAutoConfig | CompressionForceConfig.

(** Source: crates/rginx-config/src/model/route.rs:58-67 (MatcherConfig) *)
Inductive MatcherConfig : Type :=
| ExactConfig (path : string)
| PreferredPrefixConfig (path : string)
| PrefixConfig (path : string)
| RegexConfig (pattern : string) (case_insensitive : bool).

(** Source: crates/rginx-config/src/model/route.rs:101-111 (ProxyHeaderDynamicValueConfig) *)
Inductive ProxyHeaderDynamicValueConfig : Type :=
| DynHost | DynScheme | DynClientIp | DynRemoteAddr | DynPeerAddr | DynForwardedFor
| DynRequestHeader (name : string)
| DynTemplate (template : string)
| DynRemove.

(** Source: crates/rginx-config/src/model/route.rs:95-98 (ProxyHeaderValueConfig) *)
Inductive ProxyHeaderValueConfig : Type :=
| DynamicConfig (value : ProxyHeaderDynamicValueConfig)
| StaticConfig (value : string).

(** Source: crates/rginx-config/src/model/route.rs:70-86 (HandlerConfig) *)
Inductive HandlerConfig : Type :=
| ProxyConfig (upstream : string) (preserve_host : option bool) (strip_prefix : option string)
    (proxy_set_headers : list (string * ProxyHeaderValueConfig))
| ReturnConfig (status : Z) (location : string) (body : option string).

(** Source: crates/rginx-config/src/model/route.rs:24-55 (LocationConfig) *)
Record LocationConfig : Type := mkLocationConfig {
  lc_matcher : MatcherConfig;
  lc_handler : HandlerConfig;
  lc_grpc_service : option string;
  lc_grpc_method : option string;
  lc_allow_cidrs : list string;
  lc_deny_cidrs : list string;
  lc_requests_per_sec : option Z;
  lc_burst : option Z;
  lc_allow_early_data : option bool;
  lc_request_buffering : option RouteBufferingPolicyConfig;
  lc_response_buffering : option RouteBufferingPolicyConfig;
  lc_compression : option RouteCompressionPolicyConfig;
  lc_compression_min_bytes : option Z;
  lc_compression_content_types : option (list string);
  lc_streaming_response_idle_timeout_secs : option Z;
  lc_cache : option CacheRouteConfig;
}.

Section ConfigRoute.
  Context {NET : IpNetApi} {RX : RegexApi} {API : ConfigApi NET RX} {HTTP : HttpApi}.

(** ** Validation *)

(** The text of a scope in front of a message. *)
Definition scoped (scope_label : option string) (message : string) : string :=
  match scope_label with Some label => fmt[label; " "; message] | None => message end.

(** Source: crates/rginx-config/src/validate/route.rs:235-239 (exact_route_key) *)
Definition exact_route_key (path : string) (grpc_service grpc_method : option string) : string :=
  let nul := String (Ascii.ascii_of_nat 0) EmptyString in
  fmt[path; nul; default EmptyString grpc_service; nul; default EmptyString grpc_method].

(** Source: crates/rginx-config/src/validate/route.rs:241-246 (route_scope) *)
Definition route_scope (scope_label : option string) (matcher_label : string) : string :=
  scoped scope_label fmt["route matcher `"; matcher_label; "`"].

(** Source: crates/rginx-config/src/validate/route.rs:111-120 (validate_cache_handler_compatibility) *)
Definition validate_cache_handler_compatibility (route_scope : string) (handler : HandlerConfig)
    (cache : option CacheRouteConfig) : result Error () :=
  reject (is_some cache && match handler with ProxyConfig _ _ _ _ => false | ReturnConfig _ _ _ => true end)
    fail[route_scope; " cache requires a Proxy handler"].

(** Source: crates/rginx-config/src/validate/route.rs:122-139 (validate_route_cidrs) *)
Definition validate_route_cidrs (route_matcher field : string) (cidrs : list string) : result Error () :=
  for_each (λ cidr,
    let normalized := trim cidr in
    let? _ := reject (str_is_empty normalized)
      fail["route matcher `"; route_matcher; "` "; field; " entries must not be empty"] in
    reject (negb (is_some (parse_ipnet normalized)))
      fail["route matcher `"; route_matcher; "` "; field; " entry `"; cidr; "` is invalid: ";
           display_error "IpNet" normalized]) cidrs.

(** Source: crates/rginx-config/src/validate/route.rs:141-159 (validate_route_rate_limit) *)
Definition validate_route_rate_limit (route_matcher : string) (requests_per_sec burst : option Z)
    : result Error () :=
  let? _ := reject (is_zero requests_per_sec)
    fail["route matcher `"; route_matcher; "` requests_per_sec must be greater than 0"] in
  reject (negb (is_some requests_per_sec) && is_some burst)
    fail["route matcher `"; route_matcher; "` burst requires requests_per_sec to be set"].

(** Source: crates/rginx-config/src/validate/route.rs:161-207 (validate_route_transport_policy) *)
Definition validate_route_transport_policy (route_matcher : string)
    (response_buffering : option RouteBufferingPolicyConfig)
    (compression : option RouteCompressionPolicyConfig) (compression_min_bytes : option Z)
    (compression_content_types : option (list string)) (streaming_response_idle_timeout_secs : option Z)
    : result Error () :=
  let? _ := reject (is_zero compression_min_bytes)
    fail["route matcher `"; route_matcher; "` compression_min_bytes must be greater than 0"] in
  let? _ := reject (is_zero streaming_response_idle_timeout_secs)
    fail["route matcher `"; route_matcher; "` streaming_response_idle_timeout_secs must be greater than 0"] in
  let? _ := reject
    (match compression, response_buffering with
     | Some CompressionForceConfig, Some BufferingOffConfig => true
     | _, _ => false
     end)
    fail["route matcher `"; route_matcher; "` compression=Force requires response_buffering to remain Auto or On"] in
  match compression_content_types with
  | None => Ok tt
  | Some content_types =>
      let? _ := reject (bool_decide (content_types = []))
        fail["route matcher `"; route_matcher; "` compression_content_types must not be empty when provided"] in
      for_each (λ content_type, reject (blank content_type)
        fail["route matcher `"; route_matcher; "` compression_content_types entries must not be empty"])
        content_types
  end.

Definition validate_grpc_part (route_scope what : string) (part : option string) : result Error () :=
  match part with
  | None => Ok tt
  | Some name =>
      let? _ := reject (blank name) fail[route_scope; " "; what; " must not be empty"] in
      reject (contains_char "/" name) fail[route_scope; " "; what; " must not contain `/`"]
  end.

(** Source: crates/rginx-config/src/validate/route.rs:209-233 (validate_grpc_route_match) *)
Definition validate_grpc_route_match (route_scope : string) (grpc_service grpc_method : option string)
    : result Error () :=
  let? _ := validate_grpc_part route_scope "grpc_service" grpc_service in
  validate_grpc_part route_scope "grpc_method" grpc_method.

(** Source: crates/rginx-core/src/config/route/proxy_header.rs:193-208 (ProxyHeaderTemplateError) *)
Definition template_error_text (e : ProxyHeaderTemplateError) : string :=
  match e with
  | PhUnclosedVariable template => fmt["proxy header template `"; template; "` has an unclosed variable"]
  | PhUnescapedClose template => fmt["proxy header template `"; template; "` has an unescaped closing brace"]
  | PhEmptyVariable template => fmt["proxy header template `"; template; "` has an empty variable"]
  | PhUnknownVariable name => fmt["proxy header template variable `"; name; "` is not supported"]
  | PhInvalidRequestHeader name =>
      fmt["proxy header template request header `"; name; "` is invalid: "; display_error "HeaderName" name]
  end.

(** Source: crates/rginx-config/src/validate/route/handler.rs:66-110 (validate_proxy_header_value) *)
Definition validate_proxy_header_value (route_scope name : string) (value : ProxyHeaderValueConfig)
    : result Error () :=
  match value with
  | StaticConfig value =>
      reject (negb (is_some (hv_from_str value)))
        fail[route_scope; " proxy_set_headers value for `"; name; "` is invalid: "; display_error "HeaderValue" value]
  | DynamicConfig (DynRequestHeader header_name) =>
      let? _ := reject (blank header_name)
        fail[route_scope; " proxy_set_headers RequestHeader source for `"; name; "` must not be empty"] in
      reject (negb (is_some (header_name_parse header_name)))
        fail[route_scope; " proxy_set_headers RequestHeader source `"; header_name; "` for `"; name;
             "` is invalid: "; display_error "HeaderName" header_name]
  | DynamicConfig (DynTemplate template) =>
      let? _ := map_err
        (λ error, fail[route_scope; " proxy_set_headers Template for `"; name; "` is invalid: "; template_error_text error])
        (parse_proxy_header_template template) in
      Ok tt
  | DynamicConfig _ => Ok tt
  end.

(** Source: crates/rginx-config/src/validate/route/handler.rs:7-64 (validate_handler) *)
Definition validate_handler (scope_label : option string) (route_scope : string) (handler : HandlerConfig)
    (upstream_names : gset string) : result Error () :=
  match handler with
  | ProxyConfig upstream _ strip_prefix proxy_set_headers =>
      let? _ := reject (blank upstream) fail["proxy upstream name must not be empty"] in
      let? _ := reject (negb (bool_decide (upstream ∈ upstream_names)))
        (ConfigError (scoped scope_label fmt["proxy upstream `"; upstream; "` is not defined"])) in
      let? _ := reject (is_some_and (λ prefix, negb (starts_with "/" prefix)) strip_prefix)
        fail[route_scope; " strip_prefix must start with `/`"] in
      for_each (λ '(name, value),
        let? _ := reject (blank name) fail[route_scope; " proxy_set_headers name must not be empty"] in
        let? _ := reject (negb (is_some (header_name_parse name)))
          fail[route_scope; " proxy_set_headers name `"; name; "` is invalid"] in
        validate_proxy_header_value route_scope name value)
        (sort_by (λ a b : string * ProxyHeaderValueConfig, str_cmp a.1 b.1) proxy_set_headers)
  | ReturnConfig status location _ =>
      let? _ := reject ((status <? 100) || (599 <? status))
        fail[route_scope; " return status must be between 100 and 599"] in
      reject ((300 <=? status) && (status <=? 399) && blank location)
        fail[route_scope; " return location must not be empty for redirect status "; dec status]
  end.

(** The matcher of a location, and the label its messages name it by. *)
Definition validate_matcher (scope_label : option string) (matcher : MatcherConfig) : result Error string :=
  match matcher with
  | ExactConfig path | PreferredPrefixConfig path | PrefixConfig path =>
      let? _ := reject (negb (starts_with "/" path))
        (ConfigError (scoped scope_label fmt["route matcher `"; path; "` must start with `/`"])) in
      Ok path
  | RegexConfig pattern case_insensitive =>
      let? _ := reject (blank pattern)
        (ConfigError (scoped scope_label "route regex matcher must not be empty")) in
      let? _ := reject (negb (is_some (build_regex pattern case_insensitive)))
        fail["route regex pattern `"; pattern; "` is invalid: "; display_error "Regex" pattern] in
      Ok pattern
  end.

Definition validate_location (scope_label : option string) (upstream_names cache_zone_names : gset string)
    (exact_routes : gset string) (location : LocationConfig) : result Error (gset string) :=
  let? matcher_label := validate_matcher scope_label (lc_matcher location) in
  let? exact_routes := match lc_matcher location with
    | ExactConfig path =>
        let '(inserted, exact_routes) :=
          hs_insert (exact_route_key path (lc_grpc_service location) (lc_grpc_method location)) exact_routes in
        let? _ := reject (negb inserted)
          (ConfigError (scoped scope_label
             fmt["duplicate exact route `"; path; "` with the same gRPC route constraints"])) in
        Ok exact_routes
    | _ => Ok exact_routes
    end in
  let? _ := validate_route_cidrs matcher_label "allow_cidrs" (lc_allow_cidrs location) in
  let? _ := validate_route_cidrs matcher_label "deny_cidrs" (lc_deny_cidrs location) in
  let? _ := validate_route_rate_limit matcher_label (lc_requests_per_sec location) (lc_burst location) in
  let? _ := validate_route_transport_policy matcher_label (lc_response_buffering location)
    (lc_compression location) (lc_compression_min_bytes location) (lc_compression_content_types location)
    (lc_streaming_response_idle_timeout_secs location) in
  let route_scope := route_scope scope_label matcher_label in
  let? _ := validate_grpc_route_match route_scope (lc_grpc_service location) (lc_grpc_method location) in
  let? _ := validate_handler scope_label route_scope (lc_handler location) upstream_names in
  let? _ := validate_cache_handler_compatibility route_scope (lc_handler location) (lc_cache location) in
  let? _ := validate_route_cache route_scope (lc_cache location) cache_zone_names in
  Ok exact_routes.

(** Source: crates/rginx-config/src/validate/route.rs:13-109 (validate_locations) *)
Definition validate_locations (scope_label : option string) (locations : list LocationConfig)
    (upstream_names cache_zone_names : gset string) : result Error () :=
  let? _ := try_fold (validate_location scope_label upstream_names cache_zone_names) ∅ locations in
  Ok tt.

(** ** Compilation *)

(** Source: crates/rginx-config/src/compile/route.rs:264-270 (compile_buffering_policy) *)
Definition compile_buffering_policy (policy : option RouteBufferingPolicyConfig) : RouteBufferingPolicy :=
  match default BufferingAutoConfig policy with
  | BufferingAutoConfig => BufferingAuto
  | BufferingOnConfig => BufferingOn
  | BufferingOffConfig => BufferingOff
  end.

(** Source: crates/rginx-config/src/compile/route.rs:272-280 (compile_compression_policy) *)
Definition compile_compression_policy (policy : option RouteCompressionPolicyConfig) : RouteCompressionPolicy :=
  match default CompressionAutoConfig policy with
  | CompressionOffConfig => CompressionOff
  | CompressionAutoConfig => CompressionAuto
  | CompressionForceConfig => CompressionForce
  end.

(** Source: crates/rginx-config/src/compile/route.rs:282-288 (compile_compression_content_types) *)
Definition compile_compression_content_types (content_types : option (list string)) : list string :=
  map (λ content_type, to_ascii_lowercase (trim content_type)) (default [] content_types).

(** Source: crates/rginx-config/src/compile/route.rs:244-262 (compile_cidrs) *)
Definition compile_cidrs (route_matcher field : string) (cidrs : list string) : result Error (list IpNet) :=
  collect (λ cidr,
    let normalized := trim cidr in
    let? _ := reject (str_is_empty normalized)
      fail["route matcher `"; route_matcher; "` "; field; " entries must not be empty"] in
    ok_or (parse_ipnet normalized)
      fail["route matcher `"; route_matcher; "` "; field; " entry `"; cidr; "` is invalid: ";
           display_error "IpNet" normalized]) cidrs.

Definition matcher_label (matcher : RouteMatcher) : string :=
  match matcher with
  | MExact path | MPreferredPrefix path | MPrefix path => path
  | MRegex regex => rx_pattern regex
  end.

(** Source: crates/rginx-config/src/compile/route.rs:203-219 (compile_route_access_control) *)
Definition compile_route_access_control (matcher : RouteMatcher) (allow deny : list string)
    : result Error RouteAccessControl :=
  let? allow := compile_cidrs (matcher_label matcher) "allow_cidrs" allow in
  let? deny := compile_cidrs (matcher_label matcher) "deny_cidrs" deny in
  Ok (mkRouteAccessControl allow deny).

(** Source: crates/rginx-config/src/compile/route.rs:221-242 (compile_route_rate_limit) *)
Definition compile_route_rate_limit (matcher : RouteMatcher) (requests_per_sec burst : option Z)
    : result Error (option RouteRateLimit) :=
  match requests_per_sec with
  | Some requests_per_sec => Ok (Some (mkRouteRateLimit requests_per_sec (default 0 burst)))
  | None =>
      let? _ := reject (is_some burst)
        fail["route matcher `"; matcher_label matcher; "` burst requires requests_per_sec to be set"] in
      Ok None
  end.

(** Source: crates/rginx-config/src/compile/route.rs:165-201 (compile_proxy_header_value) *)
Definition compile_proxy_header_value (name : string) (value : ProxyHeaderValueConfig)
    : result Error ProxyHeaderValue :=
  match value with
  | StaticConfig value =>
      rmap PhStatic (ok_or (hv_from_str value)
        fail["invalid header value for `"; name; "`: "; display_error "HeaderValue" value])
  | DynamicConfig DynHost => Ok PhHost
  | DynamicConfig DynScheme => Ok PhScheme
  | DynamicConfig DynClientIp => Ok PhClientIp
  | DynamicConfig DynRemoteAddr => Ok PhRemoteAddr
  | DynamicConfig DynPeerAddr => Ok PhPeerAddr
  | DynamicConfig DynForwardedFor => Ok PhForwardedFor
  | DynamicConfig (DynRequestHeader header_name) =>
      rmap PhRequestHeader (ok_or (header_name_parse header_name)
        fail["invalid request header source `"; header_name; "` for proxy header `"; name; "`: ";
             display_error "HeaderName" header_name])
  | DynamicConfig (DynTemplate template) =>
      rmap PhTemplate (map_err
        (λ error, fail["invalid template for proxy header `"; name; "`: "; template_error_text error])
        (parse_proxy_header_template template))
  | DynamicConfig DynRemove => Ok PhRemove
  end.

(** Source: crates/rginx-config/src/compile/route.rs:125-163 (compile_route_action) *)
Definition compile_route_action (handler : HandlerConfig) (upstreams : gmap string Upstream)
    (local_upstream_names : gmap string string) : result Error RouteAction :=
  match handler with
  | ProxyConfig upstream preserve_host strip_prefix proxy_set_headers =>
      let resolved_upstream := default upstream (local_upstream_names !! upstream) in
      let? compiled := ok_or (upstreams !! resolved_upstream)
        fail["proxy upstream `"; upstream; "` is not defined"] in
      let? proxy_set_headers := collect (λ '(name, value),
        let? header_name := ok_or (header_name_parse name)
          fail["invalid header name `"; name; "`: "; display_error "HeaderName" name] in
        let? header_value := compile_proxy_header_value name value in
        Ok (header_name, header_value)) proxy_set_headers in
      Ok (Proxy {|
        tgt_upstream_name := resolved_upstream;
        tgt_upstream := compiled;
        tgt_preserve_host := default false preserve_host;
        tgt_strip_prefix := match strip_prefix with Some EmptyString => None | _ => strip_prefix end;
        tgt_proxy_set_headers := proxy_set_headers;
      |})
  | ReturnConfig status location body =>
      let? status := compile_status status in
      Ok (Return_ (mkReturnAction status location body))
  end.

(** Source: crates/rginx-config/src/compile/route.rs:43-123 (compile_route) *)
Definition compile_route (location : LocationConfig) (route_index : nat) (upstreams : gmap string Upstream)
    (local_upstream_names : gmap string string) (vhost_id : string) : result Error Route :=
  let? matcher := match lc_matcher location with
    | ExactConfig path => Ok (MExact path)
    | PreferredPrefixConfig path => Ok (MPreferredPrefix path)
    | PrefixConfig path => Ok (MPrefix path)
    | RegexConfig pattern case_insensitive =>
        let? regex := ok_or (build_regex pattern case_insensitive)
          fail["route regex pattern `"; pattern; "` is invalid: "; display_error "Regex" pattern] in
        Ok (MRegex (mkRouteRegexMatcher pattern case_insensitive regex))
    end in
  let grpc_match :=
    if is_some (lc_grpc_service location) || is_some (lc_grpc_method location)
    then Some (mkGrpcRouteMatch (lc_grpc_service location) (lc_grpc_method location)) else None in
  let route_id := match grpc_match with
    | Some grpc_match =>
        fmt[vhost_id; "/routes["; dec (Z.of_nat route_index); "]|"; matcher_id_fragment matcher; "|";
            grpc_id_fragment grpc_match]
    | None => fmt[vhost_id; "/routes["; dec (Z.of_nat route_index); "]|"; matcher_id_fragment matcher]
    end in
  let? access_control := compile_route_access_control matcher (lc_allow_cidrs location) (lc_deny_cidrs location) in
  let? rate_limit := compile_route_rate_limit matcher (lc_requests_per_sec location) (lc_burst location) in
  let? action := compile_route_action (lc_handler location) upstreams local_upstream_names in
  let? compression_min_bytes := transpose (λ value, ok_or (usize_try_from value)
    fail["route `"; route_id; "` compression_min_bytes `"; dec value; "` does not fit into usize"])
    (lc_compression_min_bytes location) in
  let? cache := compile_route_cache (lc_cache location) in
  Ok {|
    route_id := route_id;
    route_matcher := matcher;
    route_grpc_match := grpc_match;
    route_action := action;
    route_access_control := access_control;
    route_rate_limit := rate_limit;
    route_allow_early_data := default false (lc_allow_early_data location);
    route_request_buffering := compile_buffering_policy (lc_request_buffering location);
    route_response_buffering := compile_buffering_policy (lc_response_buffering location);
    route_compression := compile_compression_policy (lc_compression location);
    route_compression_min_bytes := compression_min_bytes;
    route_compression_content_types := compile_compression_content_types (lc_compression_content_types location);
    route_streaming_response_idle_timeout := from_secs <$> lc_streaming_response_idle_timeout_secs location;
    route_cache := cache;
  |}.

(** Source: crates/rginx-config/src/compile/route.rs:26-41 (compile_routes_with_local) *)
Definition compile_routes_with_local (locations : list LocationConfig) (upstreams : gmap string Upstream)
    (local_upstream_names : gmap string string) (vhost_id : string) : result Error (list Route) :=
  collect (λ '(route_index, location),
    compile_route location route_index upstreams local_upstream_names vhost_id) (enumerate locations).

(** Source: crates/rginx-config/src/compile/route.rs:18-24 (compile_routes) *)
Definition compile_routes (locations : list LocationConfig) (upstreams : gmap string Upstream) (vhost_id : string)
    : result Error (list Route) :=
  compile_routes_with_local locations upstreams ∅ vhost_id.
End ConfigRoute.
