(* ===== verification/ConfigRouteSafety.v ===== *)
(** * Validated routes

    Validated locations always compile, whatever the crates' parsers are: what
    validation accepted, compilation parses again.  The routes they compile to
    resolve every upstream they name, and each has an identifier of its own. *)

From S2P Require Import Prelude RustStr External ConfigBase Upstream ConfigUpstream ConfigUpstreamSafety CacheConfig ProxyHeader Route CacheStore ConfigCache ConfigCacheSafety ConfigRoute.

Section RouteTyping.
  Context {NET : IpNetApi} {RX : RegexApi} {API : ConfigApi NET RX} {HTTP : HttpApi}.

Definition location_typed (l : LocationConfig) : Prop :=
  Forall opt_u32 [lc_requests_per_sec l; lc_burst l] ∧
  Forall opt_u64 [lc_compression_min_bytes l; lc_streaming_response_idle_timeout_secs l] ∧
  ∀ c, lc_cache l = Some c → route_cache_config_typed c.

(** ** What a route owes its location *)

Definition matcher_compiled (c : MatcherConfig) (m : RouteMatcher) : Prop :=
  match c, m with
  | ExactConfig path, MExact path' | PreferredPrefixConfig path, MPreferredPrefix path'
  | PrefixConfig path, MPrefix path' => path' = path ∧ starts_with "/" path = true
  | RegexConfig pattern ci, MRegex r =>
      rx_pattern r = pattern ∧ rx_case_insensitive r = ci ∧ build_regex pattern ci = Some (rx_regex r)
  | _, _ => False
  end.

Definition action_compiled (upstreams : gmap string Upstream) (local : gmap string string)
    (h : HandlerConfig) (a : RouteAction) : Prop :=
  match h, a with
  | ProxyConfig upstream _ _ headers, Proxy t =>
      tgt_upstream_name t = default upstream (local !! upstream) ∧
      upstreams !! tgt_upstream_name t = Some (tgt_upstream t) ∧
      (∀ p, tgt_strip_prefix t = Some p → starts_with "/" p = true) ∧
      Forall2 (λ raw compiled, header_name_parse raw.1 = Some compiled.1) headers (tgt_proxy_set_headers t)
  | ReturnConfig status location body, Return_ r =>
      r = mkReturnAction status location body ∧ 100 ≤ status ≤ 599
  | _, _ => False
  end.

Definition route_compiled (upstreams : gmap string Upstream) (local : gmap string string) (zones : gset string)
    (l : LocationConfig) (r : Route) : Prop :=
  matcher_compiled (lc_matcher l) (route_matcher r) ∧
  action_compiled upstreams local (lc_handler l) (route_action r) ∧
  (∀ limit, route_rate_limit r = Some limit → 0 < requests_per_sec limit < 2 ^ 32 ∧ 0 ≤ burst limit < 2 ^ 32) ∧
  Forall positive [route_compression_min_bytes r; route_streaming_response_idle_timeout r] ∧
  (∀ p, route_cache r = Some p → policy_typed zones p ∧ ∃ t, route_action r = Proxy t) ∧
  (route_cache r = None ↔ lc_cache l = None).

(** ** Step by step *)

Lemma validate_matcher_ok scope c label :
  validate_matcher scope c = Ok label →
  match c with
  | ExactConfig path | PreferredPrefixConfig path | PrefixConfig path => starts_with "/" path = true
  | RegexConfig pattern ci => ∃ regex, build_regex pattern ci = Some regex
  end.
Proof.
  intros H. destruct c as [path|path|path|pattern ci]; cbn in H; passed H;
    [by apply negb_false_iff in Hcheck..|].
  destruct (build_regex pattern ci); [by eexists|done].
Qed.

Lemma cidrs_compile matcher label label' field cidrs :
  validate_route_cidrs label field cidrs = Ok tt → ∃ nets, compile_cidrs matcher label' cidrs = Ok nets.
Proof.
  intros H%for_each_ok. apply collect_total. eapply Forall_impl; [exact H|]. intros cidr Hc.
  cbn beta zeta in *. passed Hc. rewrite Hcheck. cbn [reject rbind].
  destruct (parse_ipnet (trim cidr)); [by eexists|done].
Qed.

Lemma header_value_compiles scope name value :
  validate_proxy_header_value scope name value = Ok tt → ∃ v, compile_proxy_header_value name value = Ok v.
Proof.
  intros H. destruct value as [[]|value]; cbn in *; try (by eexists).
  - passed H. destruct (header_name_parse _); [by eexists|done].
  - passed H. destruct (parse_proxy_header_template _); [by eexists|done].
  - destruct (hv_from_str value); [by eexists|done].
Qed.

Lemma headers_compile scope (headers : list (string * ProxyHeaderValueConfig)) :
  Forall (λ x, (let '(name, value) := x in
    let? _ := reject (blank name) fail[scope; " proxy_set_headers name must not be empty"] in
    let? _ := reject (negb (is_some (header_name_parse name)))
      fail[scope; " proxy_set_headers name `"; name; "` is invalid"] in
    validate_proxy_header_value scope name value) = Ok tt) headers →
  ∃ compiled, collect (λ '(name, value),
      let? header_name := ok_or (header_name_parse name)
        fail["invalid header name `"; name; "`: "; display_error "HeaderName" name] in
      let? header_value := compile_proxy_header_value name value in
      Ok (header_name, header_value)) headers = Ok compiled ∧
    Forall2 (λ raw c, header_name_parse raw.1 = Some c.1) headers compiled.
Proof.
  induction 1 as [|[name value] headers H Hl (compiled & Hc & Hall)]; [by exists []|]. passed H.
  destruct (header_name_parse name) as [n|] eqn:Hn; [|done].
  destruct (header_value_compiles _ _ _ H) as (v & Hv). exists ((n, v) :: compiled).
  cbn [collect]. rewrite Hn. cbn [ok_or rbind]. rewrite Hv. cbn [rbind]. rewrite Hc. cbn [rbind].
  split; [done|]. by constructor.
Qed.

Lemma action_compiles scope label handler names upstreams local :
  validate_handler scope label handler names = Ok tt →
  (∀ n, n ∈ names → is_Some (upstreams !! default n (local !! n))) →
  ∃ a, compile_route_action handler upstreams local = Ok a ∧ action_compiled upstreams local handler a.
Proof.
  intros H Hres. destruct handler as [upstream preserve strip headers|status location body]; 
    cbn -[str_concat] in H |- *; passed H.
  - apply negb_false_iff, bool_decide_eq_true, Hres in Hcheck0 as (u & Hu).
    apply for_each_ok in H. rewrite sort_by_perm in H.
    apply headers_compile in H as (compiled & Hc & Hall).
    rewrite Hu. cbn [ok_or rbind]. rewrite Hc. cbn [rbind]. eexists. split; [done|]. cbn.
    split_and!; [done|done| |done].
    intros p Hp. assert (strip = Some p) as -> by (by destruct strip as [[]|]).
    by apply negb_false_iff in Hcheck1.
  - apply orb_false_iff in Hcheck as [Hlo%Z.ltb_ge Hhi%Z.ltb_ge].
    unfold compile_status, status_code_from_u16.
    rewrite (proj2 (Z.leb_le _ _)), (proj2 (Z.ltb_lt _ _)) by lia. cbn. eexists. split; [done|]. cbn. split; [done|lia].
Qed.

Lemma rate_limit_compiles label m rps burst_ :
  validate_route_rate_limit label rps burst_ = Ok tt → opt_u32 rps → opt_u32 burst_ →
  ∃ l, compile_route_rate_limit m rps burst_ = Ok l ∧
    ∀ limit, l = Some limit → 0 < requests_per_sec limit < 2 ^ 32 ∧ 0 ≤ burst limit < 2 ^ 32.
Proof.
  intros H Hr Hb. unfold validate_route_rate_limit in H. passed H. destruct rps as [r|]; cbn.
  - eexists. split; [done|]. intros limit [= <-]. cbn. specialize (Hr r eq_refl). unfold is_u32 in Hr.
    pose proof (proj1 (is_zero_false _) Hcheck r eq_refl). split; [lia|].
    destruct burst_ as [b|]; cbn; [by apply (Hb b)|lia].
  - destruct burst_; [done|]. eexists. done.
Qed.

(** ** One location *)

Context (get_parses : parse_method GET = Some GET) (head_parses : parse_method HEAD = Some HEAD).

Definition exact_key (l : LocationConfig) : option string :=
  match lc_matcher l with
  | ExactConfig path => Some (exact_route_key path (lc_grpc_service l) (lc_grpc_method l))
  | _ => None
  end.

Lemma validate_location_exact scope names zones exact l exact' :
  validate_location scope names zones exact l = Ok exact' →
  (∀ k, exact_key l = Some k → k ∉ exact) ∧
  exact' = match exact_key l with Some k => {[k]} ∪ exact | None => exact end.
Proof.
  intros H. unfold validate_location in H. unfold exact_key. destruct (lc_matcher l) as [path|path|path|pattern ci].
  2-4: cbn [rbind] in H; passed H; simplify_eq; split; done.
  cbn [hs_insert] in H. passed H. passed Hstep0. simplify_eq.
  apply negb_false_iff, bool_decide_eq_true in Hcheck. split; [|done]. by intros k [= <-].
Qed.

Lemma location_compiles scope names zones exact l exact' upstreams local id i :
  location_typed l → validate_location scope names zones exact l = Ok exact' →
  (∀ n, n ∈ names → is_Some (upstreams !! default n (local !! n))) →
  ∃ r, compile_route l i upstreams local id = Ok r ∧ route_compiled upstreams local zones l r ∧
    ∃ rest, route_id r = fmt[id; "/routes["; dec (Z.of_nat i); "]|"; rest].
Proof.
  intros (Ht32 & Ht64 & Htc) H Hres. unfold validate_location in H. passed H. clear Hstep0.
  rewrite !Forall_cons in Ht32. rewrite !Forall_cons in Ht64.
  destruct Ht32 as (Hrps & Hburst & _), Ht64 as (Hmin & Hidle & _).
  apply validate_matcher_ok in Hstep as Hm.
  assert (∃ m, match lc_matcher l with
    | ExactConfig path => Ok (MExact path)
    | PreferredPrefixConfig path => Ok (MPreferredPrefix path)
    | PrefixConfig path => Ok (MPrefix path)
    | RegexConfig pattern case_insensitive =>
        let? regex := ok_or (build_regex pattern case_insensitive)
          fail["route regex pattern `"; pattern; "` is invalid: "; display_error "Regex" pattern] in
        Ok (MRegex (mkRouteRegexMatcher pattern case_insensitive regex))
    end = Ok m ∧ matcher_compiled (lc_matcher l) m) as (m & Hmc & Hmatch).
  { destruct (lc_matcher l) as [| | |pattern ci]; [by eexists..|]. destruct Hm as (rx & Hrx).
    rewrite Hrx. by eexists. }
  destruct (cidrs_compile (matcher_label m) r "allow_cidrs" "allow_cidrs" (lc_allow_cidrs l) Hstep1) as (allow & Hallow).
  destruct (cidrs_compile (matcher_label m) r "deny_cidrs" "deny_cidrs" (lc_deny_cidrs l) Hstep2) as (deny & Hdeny).
  destruct (rate_limit_compiles r m _ _ Hstep3 Hrps Hburst) as (limit & Hlimit & Hlim).
  destruct (action_compiles _ _ _ _ _ _ Hstep6 Hres) as (a & Ha & Hact).
  assert (∃ c, compile_route_cache (lc_cache l) = Ok c ∧ (∀ p, c = Some p → policy_typed zones p) ∧
    (c = None ↔ lc_cache l = None)) as (c & Hc & Hcp & Hcn).
  { destruct (lc_cache l) as [cache|] eqn:E; [|by exists None].
    destruct (route_cache_compiles get_parses head_parses _ cache zones (Htc cache eq_refl) Hstep8) as (p & Hp & Hpt & _).
    exists (Some p). split_and!; [done|by intros ? [= <-]|done]. }
  unfold compile_route. rewrite Hmc. cbn [rbind]. unfold compile_route_access_control. rewrite Hallow. cbn [rbind].
  rewrite Hdeny. cbn [rbind]. rewrite Hlimit. cbn [rbind]. rewrite Ha. cbn [rbind].
  rewrite (proj2 (usize_transpose _ _ _ Hmin) eq_refl). cbn [rbind]. rewrite Hc. cbn [rbind].
  eexists. split; [done|]. split.
  - unfold route_compiled. cbn [route_matcher route_action route_rate_limit route_compression_min_bytes
      route_streaming_response_idle_timeout route_cache].
    unfold validate_route_transport_policy in Hstep4. passed Hstep4.
    unfold validate_cache_handler_compatibility in Hstep7. apply reject_ok in Hstep7.
    split_and!; [done|done|done| | |done].
    + repeat (apply Forall_cons_2; [first [by apply positive_given|by apply positive_optional]|]). apply Forall_nil_2.
    + intros p ->. split; [by apply Hcp|].
      destruct (lc_cache l); [|by discriminate (proj2 Hcn eq_refl)].
      destruct (lc_handler l), a; try done. by eexists.
  - cbn [route_id]. destruct (is_some _ || is_some _); [|by eexists].
    eexists (matcher_id_fragment m +:+ "|" +:+ grpc_id_fragment _). cbn.
    by rewrite !str_app_nil_r.
Qed.

(** ** All locations *)

Lemma locations_compile scope names zones locations upstreams local id n exact exact' :
  Forall location_typed locations →
  try_fold (validate_location scope names zones) exact locations = Ok exact' →
  (∀ u, u ∈ names → is_Some (upstreams !! default u (local !! u))) →
  ∃ routes, collect (λ '(route_index, location), compile_route location route_index upstreams local id)
      (enumerate_from n locations) = Ok routes ∧
    Forall2 (route_compiled upstreams local zones) locations routes ∧
    (∀ r, r ∈ routes → ∃ i rest, (n ≤ i)%nat ∧ route_id r = fmt[id; "/routes["; dec (Z.of_nat i); "]|"; rest]) ∧
    NoDup (route_id <$> routes) ∧
    NoDup (omap exact_key locations) ∧ (∀ k, k ∈ omap exact_key locations → k ∉ exact).
Proof.
  intros Hty. revert n exact. induction Hty as [|l locations Hl Hty IH]; intros n exact H Hres.
  { exists []. split_and!; [done|constructor|set_solver|constructor|constructor|set_solver]. }
  cbn [try_fold] in H. apply rbind_ok in H as (exact1 & Hv & H).
  destruct (IH (S n) exact1 H Hres) as (routes & Hr & Hall & Hids & Hnd & Hkeys & Hfresh).
  destruct (location_compiles _ _ _ _ _ _ upstreams local id n Hl Hv Hres) as (r & Hc & Hrc & rest & Hid).
  apply validate_location_exact in Hv as (Hnew & ->).
  exists (r :: routes). cbn [enumerate_from collect]. rewrite Hc. cbn [rbind]. rewrite Hr. cbn [rbind].
  split; [done|]. split; [by constructor|]. split; [|split; [|]].
  - intros r' [->|Hr']%elem_of_cons; [by exists n, rest|].
    destruct (Hids r' Hr') as (i & rest' & Hi & He). exists i, rest'. split; [lia|done].
  - rewrite fmap_cons. constructor; [|done]. intros (r' & Heq & Hr')%list_elem_of_fmap.
    destruct (Hids r' Hr') as (i & rest' & Hi & He). rewrite Hid, He in Heq. cbn in Heq.
    apply str_app_inj_l in Heq. apply (str_app_inj_l "/routes[") in Heq.
    apply (cut_inj "]") in Heq as [Hdec _]; [|apply digits_no_char; [done|apply dec_digits]..].
    apply dec_inj in Hdec; [lia..].
  - destruct (exact_key l) as [k|] eqn:Hk; cbn; rewrite Hk; [|done]. split.
    + constructor; [|done]. intros Hin. specialize (Hfresh k Hin). set_solver.
    + intros k' [->|Hin]%elem_of_cons; [by apply Hnew|]. specialize (Hfresh k' Hin). set_solver.
Qed.
End RouteTyping.

(** C25.  Validated locations always compile, provided every upstream name they
    were validated against resolves: no error of the compiler is left.  Route by
    route the matcher, the action and its upstream are the configured ones (a
    local upstream before a global one of the same name), limits and timeouts
    are positive, a cache stores into a configured zone and only behind a proxy;
    no two exact routes compete for the same path and gRPC method, and no two
    routes share an identifier. *)
Theorem validated_locations_compile {NET : IpNetApi} {RX : RegexApi} {API : ConfigApi NET RX} {HTTP : HttpApi}
    (scope : option string) (locations : list LocationConfig) (names zones : gset string)
    (upstreams : gmap string Upstream) (local : gmap string string) (vhost : string)
    (get_parses : parse_method GET = Some GET) (head_parses : parse_method HEAD = Some HEAD)
    (Hty : Forall location_typed locations)
    (Hv : validate_locations scope locations names zones = Ok tt)
    (Hres : ∀ n, n ∈ names → is_Some (upstreams !! default n (local !! n))) :
  ∃ routes, compile_routes_with_local locations upstreams local vhost = Ok routes ∧
    Forall2 (route_compiled upstreams local zones) locations routes ∧
    NoDup (route_id <$> routes) ∧ NoDup (omap exact_key locations).
Proof.
  unfold validate_locations in Hv. passed Hv.
  destruct (locations_compile get_parses head_parses _ _ _ _ upstreams local vhost 0 _ _ Hty Hstep Hres)
    as (routes & Hr & Hall & _ & Hnd & Hkeys & _).
  by exists routes.
Qed.

Module RouteSample.
Definition plain (matcher : MatcherConfig) (handler : HandlerConfig) : LocationConfig :=
  mkLocationConfig matcher handler None None [] [] None None None None None None None None None None.
Definition api : LocationConfig :=
  mkLocationConfig (ExactConfig "/api/v1")
    (ProxyConfig "api" (Some true) (Some "/api"%string)
       [("X-Real-Ip"%string, DynamicConfig DynClientIp);
        ("x-forwarded-host"%string, DynamicConfig (DynTemplate "{host}:{header:x-port}"));
        ("X-Edge"%string, StaticConfig "rginx")])
    (Some "pkg.Service"%string) None ["10.0.0.0/8"%string] ["10.1.0.0/16"%string] (Some 100) (Some 20)
    (Some true) (Some BufferingOnConfig) None (Some CompressionForceConfig) (Some 1024)
    (Some [" Text/HTML "]%string) (Some 30) (Some CacheSample.route).
Definition locations : list LocationConfig :=
  [api; plain (PrefixConfig "/") (ReturnConfig 301 "https://example.com/" None);
   plain (RegexConfig "^/static" true) (ProxyConfig "web" None None [])].
Definition upstream (name : string) : Upstream :=
  new_upstream name [] NativeRoots (mkUpstreamSettings ProtoAuto RoundRobin dns_policy_default true None None
    None None None 1 1 1 1 None 1 None false None 1 false 1 1 1 None).
(** [api] is an upstream of the virtual host's own, [web] a global one. *)
Definition local : gmap string string := {["api" := scoped_upstream_name "servers[0]" "api"]}%string.
Definition upstreams : gmap string Upstream :=
  {["api" := upstream "api"; "web" := upstream "web"; "servers[0]::api" := upstream "servers[0]::api"]}%string.
End RouteSample.

Lemma sample_locations_typed : Forall location_typed RouteSample.locations.
Proof.
  forall_list; split_and!; forall_list; try (intros ? [= <-]; try (split; lia)); try done.
  split; forall_list; try (intros ? [= <-]); split; cbn; lia.
Qed.

Lemma validated_locations_compile_witness :
  ∃ routes, compile_routes_with_local (API := RefConfig.api) (HTTP := RefHttp.api)
      RouteSample.locations RouteSample.upstreams RouteSample.local "servers[0]" = Ok routes ∧
    Forall2 (route_compiled (API := RefConfig.api) (HTTP := RefHttp.api) RouteSample.upstreams RouteSample.local {["pages"%string]}) RouteSample.locations routes.
Proof.
  destruct (validated_locations_compile (API := RefConfig.api) (HTTP := RefHttp.api) (Some "servers[0]"%string)
    RouteSample.locations {["api"; "web"]}%string {["pages"%string]} RouteSample.upstreams RouteSample.local "servers[0]"
    eq_refl eq_refl sample_locations_typed) as (routes & Hr & Hall & _).
  - by vm_compute.
  - intros n [->%elem_of_singleton| ->%elem_of_singleton]%elem_of_union; by eexists.
  - by exists routes.
Defined.
