(* ===== verification/ConfigServer.v ===== *)
(** * Configuration: listeners and TLS

    Models the raw data of [crates/rginx-config/src/model/server.rs],
    [model/listener.rs], [model/tls.rs], the listen directives of
    [crates/rginx-config/src/listen.rs], [validate/server.rs] with
    [validate/server/], and [compile/server/]: TLS settings, the fields servers
    share, HTTP/3, the legacy [server] block and explicit listeners.  Listeners
    made of servers[].listen are in ConfigFile.v.  A [HashSet] that only detects
    repetitions is the list of its elements; Unicode's lower case is a
    parameter. *)

From S2P Require Import Prelude RustStr External ConfigBase Upstream ConfigUpstream Tls AccessLog Listener.

(** ** Data *)

(** Source: crates/rginx-config/src/model/tls.rs:63-67 (OcspNonceModeConfig) *)
Inductive OcspNonceModeConfig : Type := NonceDisabledConfig | NoncePreferredConfig | NonceRequiredConfig.

(** Source: crates/rginx-config/src/model/tls.rs:70-73 (OcspResponderPolicyConfig) *)
Inductive OcspResponderPolicyConfig : Type := IssuerOnlyConfig | IssuerOrDelegatedConfig.

(** Source: crates/rginx-config/src/model/tls.rs:55-60 (OcspConfig) *)
Record RawOcspConfig : Type := mkRawOcspConfig {
  ocr_nonce : option OcspNonceModeConfig;
  ocr_responder_policy : option OcspResponderPolicyConfig;
}.

(** Source: crates/rginx-config/src/model/tls.rs:82-92 (TlsCipherSuiteConfig) *)
Inductive TlsCipherSuiteConfig : Type :=
| Tls13Aes256GcmSha384Config | Tls13Aes128GcmSha256Config | Tls13Chacha20Poly1305Sha256Config
| TlsEcdheEcdsaWithAes256GcmSha384Config | TlsEcdheEcdsaWithAes128GcmSha256Config
| TlsEcdheEcdsaWithChacha20Poly1305Sha256Config | TlsEcdheRsaWithAes256GcmSha384Config
| TlsEcdheRsaWithAes128GcmSha256Config | TlsEcdheRsaWithChacha20Poly1305Sha256Config.

(** Source: crates/rginx-config/src/model/tls.rs:95-103 (TlsKeyExchangeGroupConfig) *)
Inductive TlsKeyExchangeGroupConfig : Type :=
| X25519Config | Secp256r1Config | Secp384r1Config | X25519Mlkem768Config | Secp256r1Mlkem768Config
| Mlkem768Config | Mlkem1024Config.

#[export] Instance TlsCipherSuiteConfig_eq_dec : EqDecision TlsCipherSuiteConfig.
Proof. solve_decision. Defined.
#[export] Instance TlsKeyExchangeGroupConfig_eq_dec : EqDecision TlsKeyExchangeGroupConfig.
Proof. solve_decision. Defined.

(** Source: crates/rginx-config/src/model/tls.rs:106-109 (ServerClientAuthModeConfig) *)
Inductive ServerClientAuthModeConfig : Type := AuthOptionalConfig | AuthRequiredConfig.

(** Source: crates/rginx-config/src/model/tls.rs:112-119 (ServerClientAuthConfig) *)
Record ServerClientAuthConfig : Type := mkServerClientAuthConfig {
  cac_mode : ServerClientAuthModeConfig;
  cac_ca_cert_path : string;
  cac_verify_depth : option Z;
  cac_crl_path : option string;
}.

(** Source: crates/rginx-config/src/model/tls.rs:45-52 (ServerCertificateBundleConfig) *)
Record ServerCertificateBundleConfig : Type := mkCertificateBundleConfig {
  cbc_cert_path : string;
  cbc_key_path : string;
  cbc_ocsp_staple_path : option string;
  cbc_ocsp : option RawOcspConfig;
}.

(** Source: crates/rginx-config/src/model/tls.rs:5-32 (ServerTlsConfig) *)
Record ServerTlsConfig : Type := mkServerTlsConfig {
  stc_cert_path : string;
  stc_key_path : string;
  stc_additional_certificates : option (list ServerCertificateBundleConfig);
  stc_versions : option (list TlsVersionConfig);
  stc_cipher_suites : option (list TlsCipherSuiteConfig);
  stc_key_exchange_groups : option (list TlsKeyExchangeGroupConfig);
  stc_alpn_protocols : option (list string);
  stc_ocsp_staple_path : option string;
  stc_ocsp : option RawOcspConfig;
  stc_session_resumption : option bool;
  stc_session_tickets : option bool;
  stc_session_cache_size : option Z;
  stc_session_ticket_count : option Z;
  stc_client_auth : option ServerClientAuthConfig;
}.

(** Source: crates/rginx-config/src/model/listener.rs:6-27 (Http3Config) *)
Record Http3Config : Type := mkHttp3Config {
  h3c_listen : option string;
  h3c_advertise_alt_svc : option bool;
  h3c_alt_svc_max_age_secs : option Z;
  h3c_max_concurrent_streams : option Z;
  h3c_stream_buffer_size_bytes : option Z;
  h3c_active_connection_id_limit : option Z;
  h3c_retry : option bool;
  h3c_host_key_path : option string;
  h3c_gso : option bool;
  h3c_early_data : option bool;
}.

#[export] Instance Http3Config_eq_dec : EqDecision Http3Config.
Proof. solve_decision. Defined.

(** [Http3Config::default()]. *)
Definition http3_config_default : Http3Config :=
  mkHttp3Config None None None None None None None None None None.

(** Source: crates/rginx-config/src/model/listener.rs:30-63 (ListenerConfig) *)
Record ListenerConfig : Type := mkListenerConfig {
  lic_name : string;
  lic_listen : string;
  lic_server_header : option string;
  lic_proxy_protocol : option bool;
  lic_default_certificate : option string;
  lic_trusted_proxies : list string;
  lic_client_ip_header : option string;
  lic_keep_alive : option bool;
  lic_max_headers : option Z;
  lic_max_request_body_bytes : option Z;
  lic_max_connections : option Z;
  lic_header_read_timeout_secs : option Z;
  lic_request_body_read_timeout_secs : option Z;
  lic_response_write_timeout_secs : option Z;
  lic_access_log_format : option string;
  lic_tls : option ServerTlsConfig;
  lic_http3 : option Http3Config;
}.

(** Source: crates/rginx-config/src/model/server.rs:6-24 (ServerConfig) *)
Record ServerConfig : Type := mkServerConfig {
  svc_listen : option string;
  svc_server_header : option string;
  svc_proxy_protocol : option bool;
  svc_default_certificate : option string;
  svc_server_names : list string;
  svc_trusted_proxies : list string;
  svc_client_ip_header : option string;
  svc_keep_alive : option bool;
  svc_max_headers : option Z;
  svc_max_request_body_bytes : option Z;
  svc_max_connections : option Z;
  svc_header_read_timeout_secs : option Z;
  svc_request_body_read_timeout_secs : option Z;
  svc_response_write_timeout_secs : option Z;
  svc_access_log_format : option string;
  svc_tls : option ServerTlsConfig;
  svc_http3 : option Http3Config;
}.

(** ** [str::split_whitespace] *)

Definition flush_token (token : string) (tokens : list string) : list string :=
  if str_is_empty token then tokens else token :: tokens.

(** [token] is the token that is being read. *)
Fixpoint split_whitespace_from (token s : string) : list string :=
  match s with
  | EmptyString => flush_token token []
  | String a r1 =>
      if is_ascii_ws_byte (byte_of a) then flush_token token (split_whitespace_from EmptyString r1)
      else match r1 with
           | EmptyString => flush_token (snoc token a) []
           | String b r2 =>
               if ws2 (byte_of a) (byte_of b) then flush_token token (split_whitespace_from EmptyString r2)
               else match r2 with
                    | EmptyString => split_whitespace_from (snoc token a) r1
                    | String c r3 =>
                        if ws3 (byte_of a) (byte_of b) (byte_of c)
                        then flush_token token (split_whitespace_from EmptyString r3)
                        else split_whitespace_from (snoc token a) r1
                    end
           end
  end.
Definition split_whitespace : string → list string := split_whitespace_from EmptyString.

Example whitespace_split :
  split_whitespace "  443 ssl  http2 " = ["443"; "ssl"; "http2"]%string ∧ split_whitespace "  " = [].
Proof. by vm_compute. Qed.

Section ConfigServer.
  Context {NET : IpNetApi} {RX : RegexApi} {API : ConfigApi NET RX} {HTTP : HttpApi}.
  (** [str::to_lowercase]. *)
  Context (to_lowercase : string → string).

(** ** Listen directives of virtual hosts *)

(** Source: crates/rginx-config/src/listen.rs:6-12 (ParsedVhostListen) *)
Record ParsedVhostListen : Type := mkParsedVhostListen {
  pvl_addr : SocketAddr;
  pvl_ssl : bool;
  pvl_http2 : bool;
  pvl_http3 : bool;
  pvl_proxy_protocol : bool;
}.

(** Source: crates/rginx-config/src/listen.rs:77-81 (parse_port) *)
Definition parse_port (owner_label value : string) : result Error Z :=
  ok_or (parse_u16 value) fail[owner_label; " listen port `"; value; "` is invalid: "; display_error "u16" value].

(** Source: crates/rginx-config/src/listen.rs:61-75 (parse_listen_addr) *)
Definition parse_listen_addr (owner_label value : string) : result Error SocketAddr :=
  if str_all is_ascii_digit value then
    let? port := parse_port owner_label value in
    Ok (mkSocketAddr (V4 [0; 0; 0; 0]) port)
  else
    let normalized :=
      match strip_prefix "*:" value with Some port => fmt["0.0.0.0:"; port] | None => value end in
    ok_or (socket_from_str normalized) fail[owner_label; " listen `"; value; "` is invalid: "; addr_error].

(** One option of a listen directive. *)
Definition parse_listen_option (owner_label : string) (parsed : ParsedVhostListen) (token : string)
    : result Error ParsedVhostListen :=
  let '(mkParsedVhostListen addr ssl http2 http3 proxy_protocol) := parsed in
  let is_option name := str_eqb (to_ascii_lowercase token) name in
  if is_option "ssl"%string then Ok (mkParsedVhostListen addr true http2 http3 proxy_protocol)
  else if is_option "http2"%string then Ok (mkParsedVhostListen addr ssl true http3 proxy_protocol)
  else if is_option "http3"%string then Ok (mkParsedVhostListen addr true http2 true proxy_protocol)
  else if is_option "quic"%string then Ok (mkParsedVhostListen addr true http2 true proxy_protocol)
  else if is_option "proxy_protocol"%string then Ok (mkParsedVhostListen addr ssl http2 http3 true)
  else if is_option "default_server"%string || is_option "reuseport"%string
  then Err fail[owner_label; " listen option `"; token; "` is not supported yet"]
  else Err fail[owner_label; " listen option `"; token; "` is not supported"].

(** Source: crates/rginx-config/src/listen.rs:14-59 (parse_vhost_listen) *)
Definition parse_vhost_listen (owner_label raw : string) : result Error ParsedVhostListen :=
  match split_whitespace raw with
  | [] => Err fail[owner_label; " listen must not be empty"]
  | addr_token :: tokens =>
      let? addr := parse_listen_addr owner_label addr_token in
      let? parsed := try_fold (parse_listen_option owner_label)
        (mkParsedVhostListen addr false false false false) tokens in
      let? _ := reject (pvl_http2 parsed && negb (pvl_ssl parsed))
        fail[owner_label; " listen http2 requires ssl"] in
      Ok parsed
  end.

(** ** Server names *)

(** Source: crates/rginx-config/src/validate/server/names.rs:45-59 (has_unsupported_wildcard) *)
Definition has_unsupported_wildcard (name : string) : bool :=
  if negb (contains_char "*" name) then false
  else
    match strip_prefix "*." name, strip_suffix ".*" name with
    | Some suffix, _ => str_is_empty suffix || contains_char "*" suffix
    | None, Some prefix => str_is_empty prefix || contains_char "*" prefix
    | None, None => true
    end.

Definition validate_server_name (owner_label : string) (all_server_names : gset string) (name : string)
    : result Error (gset string) :=
  let normalized := to_lowercase (trim name) in
  let? _ := reject (str_is_empty normalized) fail[owner_label; " server_name must not be empty"] in
  let? _ := reject (str_eqb normalized "." || ends_with "." normalized)
    fail[owner_label; " server_name `"; name; "` must not end with a bare `.`"] in
  let? _ := reject (has_unsupported_wildcard normalized)
    fail[owner_label; " server_name `"; name;
         "` uses unsupported wildcard syntax; supported forms are exact names, `.example.com`, leading `*.` wildcards, and trailing `.*` wildcards"] in
  let? _ := reject (contains_char "/" normalized)
    fail[owner_label; " server_name `"; name; "` should not contain path separator"] in
  let '(inserted, all_server_names) := hs_insert normalized all_server_names in
  let? _ := reject (negb inserted) fail["duplicate server_name `"; name; "` across server and servers"] in
  Ok all_server_names.

(** Source: crates/rginx-config/src/validate/server/names.rs:6-43 (validate_server_names) *)
Definition validate_server_names (owner_label : string) (server_names : list string)
    (all_server_names : gset string) : result Error (gset string) :=
  try_fold (validate_server_name owner_label) all_server_names server_names.

(** ** Trusted proxies *)

(** Source: crates/rginx-config/src/validate/server/proxies.rs:22-37 (normalize_trusted_proxy) *)
Definition normalize_trusted_proxy (value : string) : option string :=
  let trimmed := trim value in
  if str_is_empty trimmed then None
  else if contains_char "/" trimmed then Some trimmed
  else
    ip ← ip_from_str trimmed;
    Some (match ip with V4 _ => fmt[trimmed; "/32"] | V6 _ => fmt[trimmed; "/128"] end).

(** Source: crates/rginx-config/src/validate/server/proxies.rs:7-19 (validate_trusted_proxy_with_owner) *)
Definition validate_trusted_proxy_with_owner (owner_label value : string) : result Error () :=
  let? normalized := ok_or (normalize_trusted_proxy value)
    fail[owner_label; " trusted_proxies entry `"; value; "` must be a valid IP address or CIDR"] in
  let? _ := ok_or (parse_ipnet normalized)
    fail[owner_label; " trusted_proxies entry `"; value; "` is invalid: "; display_error "IpNet" normalized] in
  Ok tt.

(** ** TLS *)

(** Source: crates/rginx-config/src/validate/server/tls.rs:168-191 (validate_certificate_bundle) *)
Definition validate_certificate_bundle (owner_label : string) (bundle : ServerCertificateBundleConfig)
    : result Error () :=
  let? _ := reject (blank (cbc_cert_path bundle))
    fail[owner_label; " TLS additional certificate path must not be empty"] in
  let? _ := reject (blank (cbc_key_path bundle))
    fail[owner_label; " TLS additional private key path must not be empty"] in
  reject (is_some_and blank (cbc_ocsp_staple_path bundle))
    fail[owner_label; " TLS additional OCSP staple path must not be empty"].

(** Source: crates/rginx-config/src/validate/server/tls.rs:11-43 (validate_tls_identity_fields) *)
Definition validate_tls_identity_fields (owner_label cert_path key_path : string)
    (additional_certificates : option (list ServerCertificateBundleConfig)) (ocsp_staple_path : option string)
    : result Error () :=
  let? _ := reject (blank cert_path) fail[owner_label; " TLS certificate path must not be empty"] in
  let? _ := reject (blank key_path) fail[owner_label; " TLS private key path must not be empty"] in
  let? _ := reject (is_some_and blank ocsp_staple_path)
    fail[owner_label; " TLS OCSP staple path must not be empty"] in
  match additional_certificates with
  | None => Ok tt
  | Some additional_certificates =>
      let? _ := reject (match additional_certificates with [] => true | _ => false end)
        fail[owner_label; " TLS additional_certificates must not be empty"] in
      for_each (validate_certificate_bundle owner_label) additional_certificates
  end.

(** A list that must neither be empty nor repeat an element. *)
Definition validate_distinct {A} `{EqDecision A} (owner_label what : string) (values : option (list A))
    : result Error () :=
  match values with
  | None => Ok tt
  | Some values =>
      let? _ := reject (bool_decide (values = [])) fail[owner_label; " TLS "; what; " must not be empty"] in
      reject (negb (bool_decide (NoDup values)))
        fail[owner_label; " TLS "; what; " must not contain duplicates"]
  end.

(** Source: crates/rginx-config/src/validate/server/tls.rs:46-68 (validate_tls_versions) *)
Definition validate_tls_versions (owner_label : string) (versions : option (list TlsVersionConfig))
    : result Error () :=
  validate_distinct owner_label "versions" versions.

(** Source: crates/rginx-config/src/validate/server/tls.rs:194-208 (cipher_suite_supports_version) *)
Definition cipher_suite_supports_version (suite : TlsCipherSuiteConfig) (version : TlsVersionConfig) : bool :=
  match suite with
  | Tls13Aes256GcmSha384Config | Tls13Aes128GcmSha256Config | Tls13Chacha20Poly1305Sha256Config =>
      bool_decide (version = Tls13Config)
  | _ => bool_decide (version = Tls12Config)
  end.

(** Source: crates/rginx-config/src/validate/server/tls.rs:71-104 (validate_tls_cipher_suites) *)
Definition validate_tls_cipher_suites (owner_label : string)
    (cipher_suites : option (list TlsCipherSuiteConfig)) (versions : option (list TlsVersionConfig))
    : result Error () :=
  let? _ := validate_distinct owner_label "cipher_suites" cipher_suites in
  match cipher_suites, versions with
  | Some cipher_suites, Some versions =>
      reject (negb (existsb (λ suite, existsb (cipher_suite_supports_version suite) versions) cipher_suites))
        fail[owner_label; " TLS cipher_suites do not support any configured TLS versions"]
  | _, _ => Ok tt
  end.

(** Source: crates/rginx-config/src/validate/server/tls.rs:107-131 (validate_tls_key_exchange_groups) *)
Definition validate_tls_key_exchange_groups (owner_label : string)
    (key_exchange_groups : option (list TlsKeyExchangeGroupConfig)) : result Error () :=
  validate_distinct owner_label "key_exchange_groups" key_exchange_groups.

(** Source: crates/rginx-config/src/validate/server/tls.rs:134-165 (validate_alpn_protocols) *)
Definition validate_alpn_protocols (owner_label : string) (alpn_protocols : option (list string))
    : result Error () :=
  match alpn_protocols with
  | None => Ok tt
  | Some alpn_protocols =>
      let? _ := reject (bool_decide (alpn_protocols = []))
        fail[owner_label; " TLS ALPN protocol list must not be empty"] in
      let? _ := try_fold (λ seen protocol,
        let normalized := trim protocol in
        let? _ := reject (str_is_empty normalized)
          fail[owner_label; " TLS ALPN protocol entries must not be empty"] in
        let '(inserted, seen) := hs_insert (to_ascii_lowercase normalized) seen in
        let? _ := reject (negb inserted)
          fail[owner_label; " TLS ALPN protocol list must not contain duplicates"] in
        Ok seen) ∅ alpn_protocols in
      Ok tt
  end.

(** [option == Some(value)] on booleans. *)
Definition given (value : bool) (o : option bool) : bool := is_some_and (Bool.eqb value) o.

(** Source: crates/rginx-config/src/validate/server/http3.rs:6-103 (validate_http3) *)
Definition validate_http3 (owner_label : string) (http3 : Http3Config) (tls : option ServerTlsConfig)
    : result Error () :=
  match tls with
  | None => Err fail[owner_label; " http3 requires tls to be configured on the same listener"]
  | Some tls =>
      let? _ := reject (is_some_and blank (h3c_listen http3))
        fail[owner_label; " http3 listen must not be empty when provided"] in
      let? _ := reject (is_zero (h3c_alt_svc_max_age_secs http3))
        fail[owner_label; " http3 alt_svc_max_age_secs must be greater than 0"] in
      let? _ := reject (is_zero (h3c_max_concurrent_streams http3))
        fail[owner_label; " http3 max_concurrent_streams must be greater than 0"] in
      let? _ := reject (is_zero (h3c_stream_buffer_size_bytes http3))
        fail[owner_label; " http3 stream_buffer_size_bytes must be greater than 0"] in
      let? _ := reject (is_some_and (λ value, value <? 2) (h3c_active_connection_id_limit http3))
        fail[owner_label; " http3 active_connection_id_limit must be greater than or equal to 2"] in
      let? _ := reject (is_some_and (λ limit, negb ((limit =? 2) || (limit =? 5))) (h3c_active_connection_id_limit http3))
        fail[owner_label; " http3 active_connection_id_limit currently supports only 2 or 5 with the active QUIC stack"] in
      let? _ := reject (is_some_and blank (h3c_host_key_path http3))
        fail[owner_label; " http3 host_key_path must not be empty"] in
      let? _ := reject (given true (h3c_retry http3) && negb (is_some (h3c_host_key_path http3)))
        fail[owner_label; " http3 retry requires host_key_path to be configured"] in
      let? _ := reject (is_some_and (λ versions, negb (bool_decide (Tls13Config ∈ versions))) (stc_versions tls))
        fail[owner_label; " http3 requires TLS1.3 to remain enabled on the same listener"] in
      let early_data := given true (h3c_early_data http3) in
      let? _ := reject (early_data && given false (stc_session_resumption tls))
        fail[owner_label; " http3 early_data requires tls session_resumption to remain enabled"] in
      let? _ := reject (early_data && is_zero (stc_session_cache_size tls))
        fail[owner_label; " http3 early_data requires tls session_cache_size to remain greater than 0"] in
      let? _ := reject (early_data && given true (stc_session_tickets tls))
        fail[owner_label; " http3 early_data requires tls session_tickets to remain disabled so stateful resumption is used"] in
      reject (is_some_and (Z.eqb 5) (h3c_active_connection_id_limit http3) && negb (is_some (h3c_host_key_path http3)))
        fail[owner_label; " http3 active_connection_id_limit=5 requires host_key_path to be configured"]
  end.

(** ** Listeners *)

(** Source: crates/rginx-config/src/validate/server/listener/base.rs:36-54 (ListenerLikeRef) *)
Record ListenerLikeRef : Type := mkListenerLikeRef {
  llr_owner_label : string;
  llr_listen : option string;
  llr_server_header : option string;
  llr_proxy_protocol : option bool;
  llr_default_certificate : option string;
  llr_trusted_proxies : list string;
  llr_client_ip_header : option string;
  llr_max_headers : option Z;
  llr_max_request_body_bytes : option Z;
  llr_max_connections : option Z;
  llr_header_read_timeout_secs : option Z;
  llr_request_body_read_timeout_secs : option Z;
  llr_response_write_timeout_secs : option Z;
  llr_access_log_format : option string;
  llr_tls : option ServerTlsConfig;
  llr_http3 : option Http3Config;
  llr_require_listen : bool;
}.

(** Source: crates/rginx-config/src/validate/server/listener/base.rs:266-277 (validate_server_header) *)
Definition validate_server_header (owner_label server_header : string) : result Error () :=
  let value := trim server_header in
  let? _ := reject (str_is_empty value) fail[owner_label; " server_header must not be empty"] in
  reject (negb (is_some (hv_from_str value)))
    fail[owner_label; " server_header `"; server_header; "` is invalid: "; display_error "HeaderValue" value].

(** The sessions and client certificates of a listener's TLS settings. *)
Definition validate_tls_sessions (owner_label : string) (tls : ServerTlsConfig) : result Error () :=
  let no_resumption := given false (stc_session_resumption tls) in
  let? _ := reject (no_resumption && given true (stc_session_tickets tls))
    fail[owner_label; " TLS session_tickets requires session_resumption to remain enabled"] in
  let? _ := reject (no_resumption && is_some (stc_session_cache_size tls))
    fail[owner_label; " TLS session_cache_size cannot be set when session_resumption is disabled"] in
  let? _ := reject (no_resumption && is_some (stc_session_ticket_count tls))
    fail[owner_label; " TLS session_ticket_count cannot be set when session_resumption is disabled"] in
  let? _ := reject (given false (stc_session_tickets tls) && is_some (stc_session_ticket_count tls))
    fail[owner_label; " TLS session_ticket_count cannot be set when session_tickets is disabled"] in
  let? _ := reject (is_zero (stc_session_ticket_count tls))
    fail[owner_label; " TLS session_ticket_count must be greater than 0"] in
  match stc_client_auth tls with
  | None => Ok tt
  | Some client_auth =>
      let? _ := reject (blank (cac_ca_cert_path client_auth))
        fail[owner_label; " TLS client auth CA path must not be empty"] in
      let? _ := reject (is_zero (cac_verify_depth client_auth))
        fail[owner_label; " TLS client auth verify_depth must be greater than 0"] in
      reject (is_some_and blank (cac_crl_path client_auth))
        fail[owner_label; " TLS client auth CRL path must not be empty"]
  end.

(** Source: crates/rginx-config/src/validate/server/listener/base.rs:56-246 (validate_listener_like) *)
Definition validate_listener_like (config : ListenerLikeRef) : result Error () :=
  let owner := llr_owner_label config in
  let? _ := reject (llr_require_listen config && blank (default EmptyString (llr_listen config)))
    fail[owner; " listen must not be empty"] in
  let? _ :=
    match llr_server_header config with
    | Some server_header => validate_server_header owner server_header
    | None => Ok tt
    end in
  let? _ := reject (is_some_and blank (llr_default_certificate config))
    fail[owner; " default_certificate must not be empty"] in
  let? _ := for_each (validate_trusted_proxy_with_owner owner) (llr_trusted_proxies config) in
  let? _ :=
    match llr_client_ip_header config with
    | Some client_ip_header =>
        let normalized := trim client_ip_header in
        let? _ := reject (str_is_empty normalized) fail[owner; " client_ip_header must not be empty"] in
        reject (negb (is_some (header_name_parse normalized)))
          fail[owner; " client_ip_header `"; client_ip_header; "` is invalid: "; display_error "HeaderName" normalized]
    | None => Ok tt
    end in
  let? _ := for_each (λ '(field, value),
    reject (is_zero value) fail[owner; " "; field; " must be greater than 0"])
    [("max_headers"%string, llr_max_headers config);
     ("max_request_body_bytes"%string, llr_max_request_body_bytes config);
     ("max_connections"%string, llr_max_connections config);
     ("header_read_timeout_secs"%string, llr_header_read_timeout_secs config);
     ("request_body_read_timeout_secs"%string, llr_request_body_read_timeout_secs config);
     ("response_write_timeout_secs"%string, llr_response_write_timeout_secs config)] in
  let? _ := reject (is_some_and blank (llr_access_log_format config))
    fail[owner; " access_log_format must not be empty"] in
  let? _ :=
    match llr_http3 config with
    | Some http3 => validate_http3 owner http3 (llr_tls config)
    | None => Ok tt
    end in
  match llr_tls config with
  | None => Ok tt
  | Some tls =>
      let? _ := validate_tls_identity_fields owner (stc_cert_path tls) (stc_key_path tls)
        (stc_additional_certificates tls) (stc_ocsp_staple_path tls) in
      let? _ := validate_tls_versions owner (stc_versions tls) in
      let? _ := validate_tls_cipher_suites owner (stc_cipher_suites tls) (stc_versions tls) in
      let? _ := validate_tls_key_exchange_groups owner (stc_key_exchange_groups tls) in
      let? _ := validate_alpn_protocols owner (stc_alpn_protocols tls) in
      validate_tls_sessions owner tls
  end.

(** Source: crates/rginx-config/src/validate/server/listener/base.rs:13-31 (validate_server, the reference it builds) *)
Definition server_like (server : ServerConfig) : ListenerLikeRef := {|
  llr_owner_label := "server";
  llr_listen := svc_listen server;
  llr_server_header := svc_server_header server;
  llr_proxy_protocol := svc_proxy_protocol server;
  llr_default_certificate := svc_default_certificate server;
  llr_trusted_proxies := svc_trusted_proxies server;
  llr_client_ip_header := svc_client_ip_header server;
  llr_max_headers := svc_max_headers server;
  llr_max_request_body_bytes := svc_max_request_body_bytes server;
  llr_max_connections := svc_max_connections server;
  llr_header_read_timeout_secs := svc_header_read_timeout_secs server;
  llr_request_body_read_timeout_secs := svc_request_body_read_timeout_secs server;
  llr_response_write_timeout_secs := svc_response_write_timeout_secs server;
  llr_access_log_format := svc_access_log_format server;
  llr_tls := svc_tls server;
  llr_http3 := svc_http3 server;
  llr_require_listen := false;
|}.

(** Source: crates/rginx-config/src/validate/server/listener/base.rs:12-34 (validate_server) *)
Definition validate_server (server : ServerConfig) : result Error () :=
  validate_listener_like (server_like server).

(** Source: crates/rginx-config/src/validate/server/listener/base.rs:248-264 (legacy_server_listener_fields) *)
Definition legacy_server_listener_fields (server : ServerConfig) : bool :=
  is_some (svc_listen server)
  || negb (bool_decide (svc_trusted_proxies server = []))
  || is_some (svc_client_ip_header server)
  || is_some (svc_keep_alive server)
  || is_some (svc_default_certificate server)
  || is_some (svc_max_headers server)
  || is_some (svc_max_request_body_bytes server)
  || is_some (svc_max_connections server)
  || is_some (svc_header_read_timeout_secs server)
  || is_some (svc_request_body_read_timeout_secs server)
  || is_some (svc_response_write_timeout_secs server)
  || is_some (svc_access_log_format server)
  || is_some (svc_tls server)
  || is_some (svc_http3 server).

(** Source: crates/rginx-config/src/validate/server/listener/listeners.rs:61-79 (validate_listeners, the reference it builds) *)
Definition listener_like (owner : string) (listener : ListenerConfig) : ListenerLikeRef := {|
  llr_owner_label := owner;
  llr_listen := Some (lic_listen listener);
  llr_server_header := lic_server_header listener;
  llr_proxy_protocol := lic_proxy_protocol listener;
  llr_default_certificate := lic_default_certificate listener;
  llr_trusted_proxies := lic_trusted_proxies listener;
  llr_client_ip_header := lic_client_ip_header listener;
  llr_max_headers := lic_max_headers listener;
  llr_max_request_body_bytes := lic_max_request_body_bytes listener;
  llr_max_connections := lic_max_connections listener;
  llr_header_read_timeout_secs := lic_header_read_timeout_secs listener;
  llr_request_body_read_timeout_secs := lic_request_body_read_timeout_secs listener;
  llr_response_write_timeout_secs := lic_response_write_timeout_secs listener;
  llr_access_log_format := lic_access_log_format listener;
  llr_tls := lic_tls listener;
  llr_http3 := lic_http3 listener;
  llr_require_listen := true;
|}.

(** [HashSet<(ListenerTransportKind, SocketAddr)>::insert]. *)
Definition bind_insert (bind : ListenerTransportKind * SocketAddr) (binds : list (ListenerTransportKind * SocketAddr))
    : bool * list (ListenerTransportKind * SocketAddr) :=
  if decide (bind ∈ binds) then (false, binds) else (true, bind :: binds).

Record ListenerNames : Type := mkListenerNames {
  all_listener_names : gset string;
  all_listener_bindings : list (ListenerTransportKind * SocketAddr);
}.

(** Source: crates/rginx-config/src/validate/server/listener/listeners.rs:48-106 (validate_listeners, one listener) *)
Definition validate_listener (seen : ListenerNames) (entry : nat * ListenerConfig) : result Error ListenerNames :=
  let '(index, listener) := entry in
  let owner := fmt["listeners["; dec (Z.of_nat index); "]"] in
  let normalized_name := to_ascii_lowercase (trim (lic_name listener)) in
  let? _ := reject (str_is_empty normalized_name) fail[owner; " name must not be empty"] in
  let '(inserted, names) := hs_insert normalized_name (all_listener_names seen) in
  let? _ := reject (negb inserted) fail["duplicate listener name `"; lic_name listener; "` across listeners"] in
  let? _ := validate_listener_like (listener_like owner listener) in
  let? tcp_listen_addr := ok_or (socket_from_str (lic_listen listener))
    fail[owner; " listen `"; lic_listen listener; "` is invalid: "; addr_error] in
  let '(inserted, bindings) := bind_insert (Tcp, tcp_listen_addr) (all_listener_bindings seen) in
  let? _ := reject (negb inserted)
    fail["duplicate tcp listener bind `"; socket_to_string tcp_listen_addr; "` across listeners"] in
  match lic_http3 listener with
  | None => Ok (mkListenerNames names bindings)
  | Some http3 =>
      let? udp_listen_addr :=
        match h3c_listen http3 with
        | Some listen => ok_or (socket_from_str listen)
            fail[owner; " http3 listen `"; listen; "` is invalid: "; addr_error]
        | None => Ok tcp_listen_addr
        end in
      let '(inserted, bindings) := bind_insert (Udp, udp_listen_addr) bindings in
      let? _ := reject (negb inserted)
        fail["duplicate udp listener bind `"; socket_to_string udp_listen_addr; "` across listeners"] in
      Ok (mkListenerNames names bindings)
  end.

(** Source: crates/rginx-config/src/validate/server/listener/listeners.rs:119-128 (validate_server_fields_for_vhost_listen) *)
Definition validate_server_fields_for_vhost_listen (server : ServerConfig) : result Error () :=
  reject (is_some (svc_listen server) || is_some (svc_proxy_protocol server) || is_some (svc_http3 server))
    fail["server listen, proxy_protocol, and http3 cannot be used together with servers[].listen; use servers[].listen for bindings and keep server.tls/default_certificate only as global TLS defaults"].

End ConfigServer.

(** * Compilation *)

(** ** Paths

    [PathBuf]s are equal when their components are: repeated and trailing
    separators and inner [.] components do not count. *)

Definition drop_current (parts : list string) : list string := filter (λ part, part ≠ ("." : string)) parts.

Definition path_components (path : string) : bool * list string :=
  let parts := filter (λ part, part ≠ EmptyString) (split "/" path) in
  if starts_with "/" path then (true, drop_current parts)
  else
    match parts with
    | part :: parts => (false, part :: drop_current parts)
    | [] => (false, [])
    end.

Definition same_path (a b : string) : bool := bool_decide (path_components a = path_components b).

(** [HashSet<(PathBuf, PathBuf)>::contains]. *)
Definition pairs_contain (pairs : list (string * string)) (cert_path key_path : string) : bool :=
  existsb (λ pair, same_path pair.1 cert_path && same_path pair.2 key_path) pairs.

Example paths_are_equal :
  same_path "/etc//rginx/./a.pem" "/etc/rginx/a.pem/" = true ∧ same_path "./a" "a" = false ∧ same_path "/a" "a" = false.
Proof. by vm_compute. Qed.

Section CompileServer.
  Context {NET : IpNetApi} {RX : RegexApi} {API : ConfigApi NET RX} {HTTP : HttpApi}.
  Context (to_lowercase : string → string).

(** ** TLS *)

(** Source: crates/rginx-config/src/compile/server/tls/policy.rs:5-17 (compile_tls_versions) *)
Definition compile_tls_versions (versions : option (list TlsVersionConfig)) : option (list TlsVersion) :=
  map (λ version, match version with Tls12Config => Tls12 | Tls13Config => Tls13 end) <$> versions.

Definition compile_cipher_suite (suite : TlsCipherSuiteConfig) : TlsCipherSuite :=
  match suite with
  | Tls13Aes256GcmSha384Config => Tls13Aes256GcmSha384
  | Tls13Aes128GcmSha256Config => Tls13Aes128GcmSha256
  | Tls13Chacha20Poly1305Sha256Config => Tls13Chacha20Poly1305Sha256
  | TlsEcdheEcdsaWithAes256GcmSha384Config => TlsEcdheEcdsaWithAes256GcmSha384
  | TlsEcdheEcdsaWithAes128GcmSha256Config => TlsEcdheEcdsaWithAes128GcmSha256
  | TlsEcdheEcdsaWithChacha20Poly1305Sha256Config => TlsEcdheEcdsaWithChacha20Poly1305Sha256
  | TlsEcdheRsaWithAes256GcmSha384Config => TlsEcdheRsaWithAes256GcmSha384
  | TlsEcdheRsaWithAes128GcmSha256Config => TlsEcdheRsaWithAes128GcmSha256
  | TlsEcdheRsaWithChacha20Poly1305Sha256Config => TlsEcdheRsaWithChacha20Poly1305Sha256
  end.

(** Source: crates/rginx-config/src/compile/server/tls/policy.rs:19-52 (compile_tls_cipher_suites) *)
Definition compile_tls_cipher_suites (cipher_suites : option (list TlsCipherSuiteConfig))
    : option (list TlsCipherSuite) :=
  map compile_cipher_suite <$> cipher_suites.

Definition compile_key_exchange_group (group : TlsKeyExchangeGroupConfig) : TlsKeyExchangeGroup :=
  match group with
  | X25519Config => X25519
  | Secp256r1Config => Secp256r1
  | Secp384r1Config => Secp384r1
  | X25519Mlkem768Config => X25519Mlkem768
  | Secp256r1Mlkem768Config => Secp256r1Mlkem768
  | Mlkem768Config => Mlkem768
  | Mlkem1024Config => Mlkem1024
  end.

(** Source: crates/rginx-config/src/compile/server/tls/policy.rs:54-73 (compile_tls_key_exchange_groups) *)
Definition compile_tls_key_exchange_groups (groups : option (list TlsKeyExchangeGroupConfig))
    : option (list TlsKeyExchangeGroup) :=
  map compile_key_exchange_group <$> groups.

(** Source: crates/rginx-config/src/compile/server/tls/policy.rs:75-79 (compile_alpn_protocols) *)
Definition compile_alpn_protocols (alpn_protocols : option (list string)) : option (list string) :=
  map trim <$> alpn_protocols.

(** [value.map(usize::try_from).transpose()], with the message of the field. *)
Definition compile_usize (what : string) (value : option Z) : result Error (option Z) :=
  transpose (λ value, ok_or (usize_try_from value) fail[what; " `"; dec value; "` exceeds platform limits"]) value.

(** Source: crates/rginx-config/src/compile/server/tls/policy.rs:81-91 (compile_session_cache_size) *)
Definition compile_session_cache_size : option Z → result Error (option Z) :=
  compile_usize "server TLS session_cache_size".

(** Source: crates/rginx-config/src/compile/server/tls/policy.rs:93-105 (compile_session_ticket_count) *)
Definition compile_session_ticket_count : option Z → result Error (option Z) :=
  compile_usize "server TLS session_ticket_count".

(** Source: crates/rginx-config/src/compile/server/tls/identity.rs:153-177 (compile_ocsp_config) *)
Definition compile_ocsp_config (ocsp : option RawOcspConfig) : OcspConfig :=
  match ocsp with
  | None => ocsp_default
  | Some ocsp => {|
      ocsp_nonce := match ocr_nonce ocsp with
        | None | Some NonceDisabledConfig => NonceDisabled
        | Some NoncePreferredConfig => NoncePreferred
        | Some NonceRequiredConfig => NonceRequired
        end;
      ocsp_responder_policy := match ocr_responder_policy ocsp with
        | Some IssuerOnlyConfig => IssuerOnly
        | None | Some IssuerOrDelegatedConfig => IssuerOrDelegated
        end |}
  end.

(** A resolved path, at which there is a file unless it may be missing. *)
Definition identity_file (base_dir path : string) (allow_missing : bool) (label what : string)
    : result Error string :=
  let resolved := resolve_path base_dir path in
  let? _ := reject (negb allow_missing && negb (path_is_file resolved))
    fail[label; what; " file `"; resolved; "` does not exist or is not a file"] in
  Ok resolved.

(** Source: crates/rginx-config/src/compile/server/tls/identity.rs:132-151 (compile_ocsp_staple_path) *)
Definition compile_ocsp_staple_path (base_dir : string) (path : option string) (label : string)
    (allow_missing_path : bool) : result Error (option string) :=
  transpose (λ path, identity_file base_dir path allow_missing_path label " OCSP staple") path.

(** Source: crates/rginx-config/src/compile/server/tls/identity.rs:104-130 (compile_certificate_bundle) *)
Definition compile_certificate_bundle (base_dir : string) (bundle : ServerCertificateBundleConfig) (label : string)
    : result Error ServerCertificateBundle :=
  let? cert_path := identity_file base_dir (cbc_cert_path bundle) false label "" in
  let? key_path := identity_file base_dir (cbc_key_path bundle) false label " private key" in
  let? ocsp_staple_path := compile_ocsp_staple_path base_dir (cbc_ocsp_staple_path bundle) label false in
  Ok (mkCertificateBundle cert_path key_path ocsp_staple_path (compile_ocsp_config (cbc_ocsp bundle))).

(** Source: crates/rginx-config/src/compile/server/tls/identity.rs:13-19 (CompiledCertificateMaterial) *)
Record CompiledCertificateMaterial : Type := mkCertificateMaterial {
  ccm_cert_path : string;
  ccm_key_path : string;
  ccm_additional_certificates : list ServerCertificateBundle;
  ccm_ocsp_staple_path : option string;
  ccm_ocsp : OcspConfig;
}.

(** Source: crates/rginx-config/src/compile/server/tls/identity.rs:21-65 (compile_certificate_material) *)
Definition compile_certificate_material (base_dir cert_path key_path : string)
    (additional_certificates : option (list ServerCertificateBundleConfig)) (ocsp_staple_path : option string)
    (ocsp : option RawOcspConfig) (label : string) (allow_missing_identity : bool)
    : result Error CompiledCertificateMaterial :=
  let? cert_path := identity_file base_dir cert_path allow_missing_identity label " certificate" in
  let? key_path := identity_file base_dir key_path allow_missing_identity label " private key" in
  let? ocsp_staple_path := compile_ocsp_staple_path base_dir ocsp_staple_path label allow_missing_identity in
  let? additional_certificates := collect (λ bundle,
    compile_certificate_bundle base_dir bundle fmt[label; " additional certificate"])
    (default [] additional_certificates) in
  Ok (mkCertificateMaterial cert_path key_path additional_certificates ocsp_staple_path (compile_ocsp_config ocsp)).

(** Source: crates/rginx-config/src/compile/server/tls/identity.rs:67-102 (compile_client_auth_policy) *)
Definition compile_client_auth_policy (base_dir : string) (client_auth : ServerClientAuthConfig)
    : result Error ServerClientAuthPolicy :=
  let? ca_cert_path := identity_file base_dir (cac_ca_cert_path client_auth) false "server TLS client auth" " CA" in
  let? crl_path := transpose (λ path, identity_file base_dir path false "server TLS client auth" " CRL")
    (cac_crl_path client_auth) in
  Ok {| sca_mode := match cac_mode client_auth with AuthOptionalConfig => AuthOptional | AuthRequiredConfig => AuthRequired end;
        sca_ca_cert_path := ca_cert_path;
        sca_verify_depth := cac_verify_depth client_auth;
        sca_crl_path := crl_path |}.

(** Source: crates/rginx-config/src/compile/server/tls.rs:16-73 (compile_server_tls) *)
Definition compile_server_tls (tls : option ServerTlsConfig) (base_dir : string) (allow_missing_identity : bool)
    : result Error (option ServerTls) :=
  match tls with
  | None => Ok None
  | Some tls =>
      let? identity := compile_certificate_material base_dir (stc_cert_path tls) (stc_key_path tls)
        (stc_additional_certificates tls) (stc_ocsp_staple_path tls) (stc_ocsp tls)
        "server TLS" allow_missing_identity in
      let? client_auth := transpose (compile_client_auth_policy base_dir) (stc_client_auth tls) in
      let? session_cache_size := compile_session_cache_size (stc_session_cache_size tls) in
      let? session_ticket_count := compile_session_ticket_count (stc_session_ticket_count tls) in
      Ok (Some {|
        stl_cert_path := ccm_cert_path identity;
        stl_key_path := ccm_key_path identity;
        stl_additional_certificates := ccm_additional_certificates identity;
        stl_versions := compile_tls_versions (stc_versions tls);
        stl_cipher_suites := compile_tls_cipher_suites (stc_cipher_suites tls);
        stl_key_exchange_groups := compile_tls_key_exchange_groups (stc_key_exchange_groups tls);
        stl_alpn_protocols := compile_alpn_protocols (stc_alpn_protocols tls);
        stl_ocsp_staple_path := ccm_ocsp_staple_path identity;
        stl_ocsp := ccm_ocsp identity;
        stl_session_resumption := stc_session_resumption tls;
        stl_session_tickets := stc_session_tickets tls;
        stl_session_cache_size := session_cache_size;
        stl_session_ticket_count := session_ticket_count;
        stl_client_auth := client_auth |})
  end.

(** ** The fields servers share *)

(** Source: crates/rginx-config/src/compile/server/fields.rs:18-34 (ServerFieldConfig) *)
Record ServerFieldConfig : Type := mkServerFieldConfig {
  sfc_listen : string;
  sfc_server_header : option string;
  sfc_default_certificate : option string;
  sfc_trusted_proxies : list string;
  sfc_client_ip_header : option string;
  sfc_keep_alive : option bool;
  sfc_max_headers : option Z;
  sfc_max_request_body_bytes : option Z;
  sfc_max_connections : option Z;
  sfc_header_read_timeout_secs : option Z;
  sfc_request_body_read_timeout_secs : option Z;
  sfc_response_write_timeout_secs : option Z;
  sfc_access_log_format : option string;
  sfc_tls : option ServerTlsConfig;
  sfc_allow_missing_tls_identity : bool;
}.

(** Source: crates/rginx-config/src/compile/server/fields.rs:13-16 (CompiledServerFields) *)
Record CompiledServerFields : Type := mkServerFields {
  csf_server : Server;
  csf_server_tls : option ServerTls;
}.

(** Source: crates/rginx-config/src/compile/server/fields.rs:80-90 (compile_client_ip_header) *)
Definition compile_client_ip_header (value : option string) : result Error (option string) :=
  transpose (λ value, ok_or (header_name_parse (trim value))
    fail["validated server client_ip_header `"; value; "` failed to compile: "; display_error "HeaderName" (trim value)])
    value.

(** Source: crates/rginx-config/src/compile/server/fields.rs:92-97 (compile_server_header) *)
Definition compile_server_header (server_header : option string) : result Error HeaderValue :=
  let value := trim (default "rginx"%string server_header) in
  ok_or (hv_from_str value) fail["server_header `"; value; "` is invalid: "; display_error "HeaderValue" value].

(** Source: crates/rginx-config/src/compile/server/fields.rs:99-101 (compile_default_certificate) *)
Definition compile_default_certificate (default_certificate : option string) : option string :=
  (λ name, to_lowercase (trim name)) <$> default_certificate.

(** Source: crates/rginx-config/src/compile/server/fields.rs:103-111 (compile_max_headers) *)
Definition compile_max_headers : option Z → result Error (option Z) := compile_usize "server max_headers".

(** Source: crates/rginx-config/src/compile/server/fields.rs:113-123 (compile_max_request_body_bytes) *)
Definition compile_max_request_body_bytes : option Z → result Error (option Z) :=
  compile_usize "server max_request_body_bytes".

(** Source: crates/rginx-config/src/compile/server/fields.rs:125-133 (compile_max_connections) *)
Definition compile_max_connections : option Z → result Error (option Z) := compile_usize "server max_connections".

(** Source: crates/rginx-config/src/compile/server/fields.rs:135-137 (compile_access_log_format) *)
Definition compile_access_log_format (access_log_format : option string) : result Error (option AccessLogFormat) :=
  transpose parse_access_log_format access_log_format.

(** The source's [normalize_trusted_proxy] is the one validation has. *)
(** Source: crates/rginx-config/src/compile/server/fields.rs:139-154 (compile_trusted_proxies) *)
Definition compile_trusted_proxies (values : list string) : result Error (list IpNet) :=
  collect (λ value,
    let? normalized := ok_or (normalize_trusted_proxy value)
      fail["server trusted_proxies entry `"; value; "` must be a valid IP address or CIDR"] in
    ok_or (parse_ipnet normalized)
      fail["server trusted_proxies entry `"; value; "` is invalid: "; display_error "IpNet" normalized]) values.

(** Source: crates/rginx-config/src/compile/server/fields.rs:36-78 (compile_server_fields) *)
Definition compile_server_fields (config : ServerFieldConfig) (base_dir : string)
    : result Error CompiledServerFields :=
  let? server_tls := compile_server_tls (sfc_tls config) base_dir (sfc_allow_missing_tls_identity config) in
  let? listen_addr := ok_or (socket_from_str (sfc_listen config)) (AddrParse addr_error) in
  let? server_header := compile_server_header (sfc_server_header config) in
  let? trusted_proxies := compile_trusted_proxies (sfc_trusted_proxies config) in
  let? client_ip_header := compile_client_ip_header (sfc_client_ip_header config) in
  let? max_headers := compile_max_headers (sfc_max_headers config) in
  let? max_request_body_bytes := compile_max_request_body_bytes (sfc_max_request_body_bytes config) in
  let? max_connections := compile_max_connections (sfc_max_connections config) in
  let? access_log_format := compile_access_log_format (sfc_access_log_format config) in
  Ok {| csf_server := {|
          srv_listen_addr := listen_addr;
          srv_server_header := server_header;
          srv_default_certificate := compile_default_certificate (sfc_default_certificate config);
          srv_trusted_proxies := trusted_proxies;
          srv_client_ip_header := client_ip_header;
          srv_keep_alive := default true (sfc_keep_alive config);
          srv_max_headers := max_headers;
          srv_max_request_body_bytes := max_request_body_bytes;
          srv_max_connections := max_connections;
          srv_header_read_timeout := from_secs <$> sfc_header_read_timeout_secs config;
          srv_request_body_read_timeout := from_secs <$> sfc_request_body_read_timeout_secs config;
          srv_response_write_timeout := from_secs <$> sfc_response_write_timeout_secs config;
          srv_access_log_format := access_log_format;
          srv_tls := server_tls |};
        csf_server_tls := server_tls |}.

(** ** HTTP/3 *)

(** Source: crates/rginx-config/src/compile/server/http3.rs:8-12 (DEFAULT_HTTP3_MAX_CONCURRENT_STREAMS and DEFAULT_HTTP3_GSO) *)
Definition DEFAULT_HTTP3_MAX_CONCURRENT_STREAMS : Z := 128.
Definition DEFAULT_HTTP3_STREAM_BUFFER_SIZE_BYTES : Z := 64 * 1024.
Definition DEFAULT_HTTP3_ACTIVE_CONNECTION_ID_LIMIT : Z := 2.
Definition DEFAULT_HTTP3_RETRY : bool := false.
Definition DEFAULT_HTTP3_GSO : bool := false.

(** Source: crates/rginx-config/src/compile/server/http3.rs:61-64 (compile_http3_usize) *)
Definition compile_http3_usize (raw : Z) (field : string) : result Error Z :=
  ok_or (usize_try_from raw) fail["server http3 "; field; " `"; dec raw; "` exceeds platform limits"].

(** Source: crates/rginx-config/src/compile/server/http3.rs:14-59 (compile_http3) *)
Definition compile_http3 (http3 : option Http3Config) (tcp_listen_addr : SocketAddr) (tls_enabled : bool)
    (base_dir : string) : result Error (option ListenerHttp3) :=
  match http3 with
  | None => Ok None
  | Some http3 =>
      let? _ := reject (negb tls_enabled) fail["http3 requires tls to be configured on the same listener"] in
      let? listen_addr :=
        match h3c_listen http3 with
        | Some listen => ok_or (socket_from_str listen) (AddrParse addr_error)
        | None => Ok tcp_listen_addr
        end in
      let? max_concurrent_streams := compile_http3_usize
        (default DEFAULT_HTTP3_MAX_CONCURRENT_STREAMS (h3c_max_concurrent_streams http3)) "max_concurrent_streams" in
      let? stream_buffer_size := compile_http3_usize
        (default DEFAULT_HTTP3_STREAM_BUFFER_SIZE_BYTES (h3c_stream_buffer_size_bytes http3)) "stream_buffer_size_bytes" in
      Ok (Some {|
        h3_listen_addr := listen_addr;
        h3_advertise_alt_svc := default true (h3c_advertise_alt_svc http3);
        h3_alt_svc_max_age := from_secs (default 86400 (h3c_alt_svc_max_age_secs http3));
        h3_max_concurrent_streams := max_concurrent_streams;
        h3_stream_buffer_size := stream_buffer_size;
        h3_active_connection_id_limit :=
          default DEFAULT_HTTP3_ACTIVE_CONNECTION_ID_LIMIT (h3c_active_connection_id_limit http3);
        h3_retry := default DEFAULT_HTTP3_RETRY (h3c_retry http3);
        h3_host_key_path := resolve_path base_dir <$> h3c_host_key_path http3;
        h3_gso := default DEFAULT_HTTP3_GSO (h3c_gso http3);
        h3_early_data_enabled := default false (h3c_early_data http3) |})
  end.

(** ** Listeners *)

(** Source: crates/rginx-config/src/compile/server/listener_managed_identity.rs:4-13 (tls_identity_is_managed) *)
Definition tls_identity_is_managed (tls : ServerTlsConfig) (base_dir : string)
    (managed_identity_pairs : list (string * string)) : bool :=
  pairs_contain managed_identity_pairs
    (resolve_path base_dir (stc_cert_path tls)) (resolve_path base_dir (stc_key_path tls)).

Definition allow_missing (allowed : bool) (tls : option ServerTlsConfig) (base_dir : string)
    (pairs : list (string * string)) : bool :=
  allowed && is_some_and (λ tls, tls_identity_is_managed tls base_dir pairs) tls.

(** Source: crates/rginx-config/src/compile/server.rs:28-31 (CompiledServer) *)
Record CompiledServer : Type := mkCompiledServer {
  cs_listener : Listener;
  cs_server_names : list string;
}.

(** A listener, from its compiled fields. *)
Definition make_listener (id name : string) (fields : CompiledServerFields) (tls_enabled : bool)
    (proxy_protocol : bool) (http3 : option ListenerHttp3) : Listener := {|
  lst_id := id;
  lst_name := name;
  lst_server := csf_server fields;
  lst_tls_termination_enabled := tls_enabled;
  lst_proxy_protocol_enabled := proxy_protocol;
  lst_http3 := http3;
|}.

(** [None] is the panic of the [expect]: there is nothing to listen on. *)
(** Source: crates/rginx-config/src/compile/server/listener.rs:14-84 (compile_legacy_server) *)
Definition compile_legacy_server (server : ServerConfig) (base_dir : string)
    (any_vhost_tls allow_missing_managed_tls_identity : bool) (managed_identity_pairs : list (string * string))
    : option (result Error CompiledServer) :=
  listen ← svc_listen server;
  Some (
    let? compiled := compile_server_fields {|
      sfc_listen := listen;
      sfc_server_header := svc_server_header server;
      sfc_default_certificate := svc_default_certificate server;
      sfc_trusted_proxies := svc_trusted_proxies server;
      sfc_client_ip_header := svc_client_ip_header server;
      sfc_keep_alive := svc_keep_alive server;
      sfc_max_headers := svc_max_headers server;
      sfc_max_request_body_bytes := svc_max_request_body_bytes server;
      sfc_max_connections := svc_max_connections server;
      sfc_header_read_timeout_secs := svc_header_read_timeout_secs server;
      sfc_request_body_read_timeout_secs := svc_request_body_read_timeout_secs server;
      sfc_response_write_timeout_secs := svc_response_write_timeout_secs server;
      sfc_access_log_format := svc_access_log_format server;
      sfc_tls := svc_tls server;
      sfc_allow_missing_tls_identity :=
        allow_missing allow_missing_managed_tls_identity (svc_tls server) base_dir managed_identity_pairs |}
      base_dir in
    let tls_enabled := is_some (csf_server_tls compiled) || any_vhost_tls in
    let? http3 := compile_http3 (svc_http3 server) (srv_listen_addr (csf_server compiled)) tls_enabled base_dir in
    Ok (mkCompiledServer
          (make_listener "default" "default" compiled tls_enabled (default false (svc_proxy_protocol server)) http3)
          (svc_server_names server))).

(** Source: crates/rginx-config/src/compile/server/listener.rs:281-283 (explicit_listener_id) *)
Definition explicit_listener_id (name : string) : string := fmt["listener:"; to_ascii_lowercase (trim name)].

(** Source: crates/rginx-config/src/compile/server/listener.rs:86-157 (compile_listeners) *)
Definition compile_listener (default_server_header : option string) (base_dir : string)
    (allow_missing_managed_tls_identity : bool) (managed_identity_pairs : list (string * string))
    (listener : ListenerConfig) : result Error Listener :=
  let? compiled := compile_server_fields {|
    sfc_listen := lic_listen listener;
    sfc_server_header := match lic_server_header listener with Some header => Some header | None => default_server_header end;
    sfc_default_certificate := lic_default_certificate listener;
    sfc_trusted_proxies := lic_trusted_proxies listener;
    sfc_client_ip_header := lic_client_ip_header listener;
    sfc_keep_alive := lic_keep_alive listener;
    sfc_max_headers := lic_max_headers listener;
    sfc_max_request_body_bytes := lic_max_request_body_bytes listener;
    sfc_max_connections := lic_max_connections listener;
    sfc_header_read_timeout_secs := lic_header_read_timeout_secs listener;
    sfc_request_body_read_timeout_secs := lic_request_body_read_timeout_secs listener;
    sfc_response_write_timeout_secs := lic_response_write_timeout_secs listener;
    sfc_access_log_format := lic_access_log_format listener;
    sfc_tls := lic_tls listener;
    sfc_allow_missing_tls_identity :=
      allow_missing allow_missing_managed_tls_identity (lic_tls listener) base_dir managed_identity_pairs |}
    base_dir in
  let tls_enabled := is_some (csf_server_tls compiled) in
  let? http3 := compile_http3 (lic_http3 listener) (srv_listen_addr (csf_server compiled)) tls_enabled base_dir in
  Ok (make_listener (explicit_listener_id (lic_name listener)) (lic_name listener) compiled tls_enabled
        (default false (lic_proxy_protocol listener)) http3).

(** Source: crates/rginx-config/src/compile/server/listener.rs:86-157 (compile_listeners) *)
Definition compile_listeners (listeners : list ListenerConfig) (default_server_header : option string)
    (base_dir : string) (allow_missing_managed_tls_identity : bool) (managed_identity_pairs : list (string * string))
    : result Error (list Listener) :=
  collect (compile_listener default_server_header base_dir allow_missing_managed_tls_identity managed_identity_pairs)
    listeners.
End CompileServer.
