(* ===== verification/ConfigFile.v ===== *)
(** * Configuration: virtual hosts, ACME, and a configuration as a whole

    Models [crates/rginx-config/src/model.rs], [model/vhost.rs],
    [model/acme.rs], [model/runtime.rs]; [validate.rs] with
    [validate/server/listener/listeners.rs], [validate/vhost.rs],
    [validate/acme.rs], [validate/runtime.rs]; and [compile/mod.rs] with
    [compile/server/listener.rs] (listeners made of servers[].listen),
    [compile/vhost.rs], [compile/acme.rs], [compile/runtime.rs]. *)

From S2P Require Import Prelude RustStr External ConfigBase ServerName Upstream ConfigUpstream Tls AccessLog CacheConfig ProxyHeader Route CacheStore ConfigCache ConfigRoute Listener ConfigServer.

(** ** Data *)

(** Source: crates/rginx-config/src/model/acme.rs:24-26 (AcmeChallengeConfig) *)
Inductive AcmeChallengeConfig : Type := Http01Config.

(** Source: crates/rginx-config/src/model/acme.rs:4-13 (AcmeConfig) *)
Record AcmeConfig : Type := mkAcmeConfig {
  amc_directory_url : string;
  amc_contacts : list string;
  amc_state_dir : string;
  amc_renew_before_days : option Z;
  amc_poll_interval_secs : option Z;
}.

(** Source: crates/rginx-config/src/model/acme.rs:16-21 (VirtualHostAcmeConfig) *)
Record VirtualHostAcmeConfig : Type := mkVirtualHostAcmeConfig {
  vac_domains : list string;
  vac_challenge : option AcmeChallengeConfig;
}.

(** Source: crates/rginx-config/src/model/tls.rs:35-42 (VirtualHostTlsConfig) *)
Record VirtualHostTlsConfig : Type := mkVirtualHostTlsConfig {
  vtc_cert_path : string;
  vtc_key_path : string;
  vtc_additional_certificates : option (list ServerCertificateBundleConfig);
  vtc_ocsp_staple_path : option string;
  vtc_ocsp : option RawOcspConfig;
  vtc_acme : option VirtualHostAcmeConfig;
}.

(** Source: crates/rginx-config/src/model/vhost.rs:6-19 (VirtualHostConfig) *)
Record VirtualHostConfig : Type := mkVirtualHostConfig {
  vhc_listen : list string;
  vhc_server_names : list string;
  vhc_upstreams : list UpstreamConfig;
  vhc_locations : list LocationConfig;
  vhc_tls : option VirtualHostTlsConfig;
  vhc_http3 : option Http3Config;
}.

(** Source: crates/rginx-config/src/model/runtime.rs:4-10 (RuntimeConfig) *)
Record RuntimeConfig : Type := mkRuntimeConfig {
  rnc_shutdown_timeout_secs : Z;
  rnc_worker_threads : option Z;
  rnc_accept_workers : option Z;
}.

(** Source: crates/rginx-config/src/model.rs:37-52 (Config) *)
Record Config : Type := mkConfig {
  cnf_runtime : RuntimeConfig;
  cnf_acme : option AcmeConfig;
  cnf_listeners : list ListenerConfig;
  cnf_cache_zones : list CacheZoneConfig;
  cnf_server : ServerConfig;
  cnf_upstreams : list UpstreamConfig;
  cnf_locations : list LocationConfig;
  cnf_servers : list VirtualHostConfig;
}.

(** [vhosts.iter().any(|vhost| !vhost.listen.is_empty())] *)
Definition any_vhost_listen (vhosts : list VirtualHostConfig) : bool :=
  existsb (λ vhost, negb (bool_decide (vhc_listen vhost = []))) vhosts.

(** Every listen directive with the indices its messages name it by. *)
Definition vhost_listens (vhosts : list VirtualHostConfig) : list (nat * nat * VirtualHostConfig * string) :=
  enumerate vhosts ≫= λ '(vhost_index, vhost),
    map (λ '(listen_index, listen), (vhost_index, listen_index, vhost, listen)) (enumerate (vhc_listen vhost)).

Definition listen_owner (vhost_index listen_index : nat) : string :=
  fmt["servers["; dec (Z.of_nat vhost_index); "].listen["; dec (Z.of_nat listen_index); "]"].

(** ** A map of addresses *)

Definition find_addr {A} (addr : SocketAddr) (m : list (SocketAddr * A)) : option A :=
  snd <$> List.find (λ x, bool_decide (x.1 = addr)) m.

(** [entry.insert] on an address that is there. *)
Definition replace_addr {A} (addr : SocketAddr) (a : A) (m : list (SocketAddr * A)) : list (SocketAddr * A) :=
  map (λ x, if decide (x.1 = addr) then (addr, a) else x) m.

(** [Ord] of [SocketAddr]. *)
Definition sock_cmp (a b : SocketAddr) : comparison :=
  then_cmp (ip_cmp (sock_ip a) (sock_ip b)) (sock_port a ?= sock_port b).

Section ConfigFile.
  Context {NET : IpNetApi} {RX : RegexApi} {API : ConfigApi NET RX} {HTTP : HttpApi}.
  Context (to_lowercase : string → string).

(** ** Validation *)

(** Source: crates/rginx-config/src/validate/runtime.rs:5-21 (validate_runtime) *)
Definition validate_runtime (runtime : RuntimeConfig) : result Error () :=
  let? _ := reject (rnc_shutdown_timeout_secs runtime =? 0)
    fail["runtime.shutdown_timeout_secs must be greater than 0"] in
  let? _ := reject (is_zero (rnc_worker_threads runtime)) fail["runtime.worker_threads must be greater than 0"] in
  reject (is_zero (rnc_accept_workers runtime)) fail["runtime.accept_workers must be greater than 0"].

(** What a listen directive asks of the listener of its address; the first
    names of its hosts are for compilation. *)
(** Source: crates/rginx-config/src/compile/server/listener.rs:285-290 (VhostListenerBinding) *)
Record VhostListenerBinding : Type := mkVhostListenerBinding {
  vlb_ssl : bool;
  vlb_http3 : option Http3Config;
  vlb_proxy_protocol : bool;
  vlb_default_certificate : option string;
}.

(** Source: crates/rginx-config/src/compile/server/listener.rs:255-279 (validate_vhost_listener_merge) *)
Definition validate_vhost_listener_merge (listen_addr : SocketAddr) (binding : VhostListenerBinding)
    (ssl proxy_protocol : bool) (http3 : option Http3Config) : result Error () :=
  let addr := socket_to_string listen_addr in
  let? _ := reject (negb (Bool.eqb (vlb_ssl binding) ssl))
    fail["servers[].listen `"; addr; "` mixes ssl and non-ssl bindings"] in
  let? _ := reject (negb (Bool.eqb (vlb_proxy_protocol binding) proxy_protocol))
    fail["servers[].listen `"; addr; "` mixes proxy_protocol and non-proxy_protocol bindings"] in
  reject (negb (bool_decide (vlb_http3 binding = http3)))
    fail["servers[].listen `"; addr; "` must use consistent http3 settings across vhosts"].

(** The HTTP/3 settings a listen directive of a host asks for. *)
Definition listen_http3 (parsed : ParsedVhostListen) (vhost : VirtualHostConfig) : option Http3Config :=
  if pvl_http3 parsed then Some (default http3_config_default (vhc_http3 vhost)) else None.

(** Its record of a binding is compilation's, without a default certificate. *)
(** Source: crates/rginx-config/src/validate/server/listener/listeners.rs:137-179 (validate_vhost_listener_bindings) *)
Definition validate_vhost_listener_bindings (vhosts : list VirtualHostConfig) : result Error () :=
  let? _ := try_fold (λ bindings '(vhost_index, listen_index, vhost, listen),
    let? parsed := parse_vhost_listen (listen_owner vhost_index listen_index) listen in
    let http3 := listen_http3 parsed vhost in
    match find_addr (pvl_addr parsed) bindings with
    | Some existing =>
        let? _ := validate_vhost_listener_merge (pvl_addr parsed) existing (pvl_ssl parsed)
          (pvl_proxy_protocol parsed) http3 in
        Ok bindings
    | None =>
        Ok (bindings ++ [(pvl_addr parsed,
              mkVhostListenerBinding (pvl_ssl parsed) http3 (pvl_proxy_protocol parsed) None)])
    end) [] (vhost_listens vhosts) in
  Ok tt.

(** Source: crates/rginx-config/src/validate/server/listener/listeners.rs:10-117 (validate_listeners) *)
Definition validate_listeners (listeners : list ListenerConfig) (server : ServerConfig)
    (vhosts : list VirtualHostConfig) : result Error () :=
  if any_vhost_listen vhosts then
    let? _ := reject (negb (bool_decide (listeners = [])))
      fail["servers[].listen cannot be used together with top-level listeners"] in
    let? _ := validate_server_fields_for_vhost_listen server in
    validate_vhost_listener_bindings vhosts
  else if bool_decide (listeners = []) then
    reject (match svc_listen server with Some listen => str_is_empty listen | None => true end)
      fail["at least one listen must be configured in server.listen, listeners, or servers[].listen"]
  else
    let? _ := reject (legacy_server_listener_fields server)
      fail["server legacy listener fields cannot be used together with listeners"] in
    let? _ := try_fold validate_listener (mkListenerNames ∅ []) (enumerate listeners) in
    reject (existsb (λ vhost, is_some (vhc_tls vhost)) vhosts && negb (existsb (λ l, is_some (lic_tls l)) listeners))
      fail["vhost TLS requires at least one listener with tls to be configured"].

(** Source: crates/rginx-config/src/validate/vhost.rs:104-121 (server_tls_policy_from_vhost_tls) *)
Definition server_tls_policy_from_vhost_tls (tls : VirtualHostTlsConfig) : ServerTlsConfig := {|
  stc_cert_path := vtc_cert_path tls;
  stc_key_path := vtc_key_path tls;
  stc_additional_certificates := vtc_additional_certificates tls;
  stc_versions := None;
  stc_cipher_suites := None;
  stc_key_exchange_groups := None;
  stc_alpn_protocols := None;
  stc_ocsp_staple_path := vtc_ocsp_staple_path tls;
  stc_ocsp := vtc_ocsp tls;
  stc_session_resumption := None;
  stc_session_tickets := None;
  stc_session_cache_size := None;
  stc_session_ticket_count := None;
  stc_client_auth := None;
|}.

(** Source: crates/rginx-config/src/validate/vhost.rs:62-102 (validate_vhost_listens) *)
Definition validate_vhost_listens (vhost_label : string) (vhost : VirtualHostConfig) (require_vhost_listen : bool)
    (server_tls_defaults : option ServerTlsConfig) : result Error () :=
  let? _ := reject (require_vhost_listen && bool_decide (vhc_listen vhost = []))
    fail[vhost_label; " must define at least one listen when servers[].listen is used; once any vhost uses servers[].listen, every vhost must declare listen explicitly"] in
  let? (has_ssl_listen, has_http3_listen) := try_fold (λ '(has_ssl, has_http3) '(index, listen),
    let? parsed := parse_vhost_listen fmt[vhost_label; ".listen["; dec (Z.of_nat index); "]"] listen in
    Ok (has_ssl || pvl_ssl parsed, has_http3 || pvl_http3 parsed)) (false, false) (enumerate (vhc_listen vhost)) in
  let? _ := reject (has_ssl_listen && negb (is_some (vhc_tls vhost))) fail[vhost_label; " ssl listen requires tls"] in
  let? _ := reject (require_vhost_listen && is_some (vhc_tls vhost) && negb has_ssl_listen)
    fail[vhost_label; " TLS requires an ssl listen"] in
  let? _ := reject (is_some (vhc_http3 vhost) && negb has_http3_listen)
    fail[vhost_label; " http3 requires an http3 listen"] in
  match vhc_http3 vhost with
  | None => Ok tt
  | Some http3 =>
      let tls_policy :=
        match server_tls_defaults with
        | Some tls => Some tls
        | None => server_tls_policy_from_vhost_tls <$> vhc_tls vhost
        end in
      validate_http3 fmt[vhost_label; ".http3"] http3 tls_policy
  end.

Definition validate_virtual_host (global_upstream_names : gset string) (require_vhost_listen : bool)
    (server_tls_defaults : option ServerTlsConfig) (cache_zone_names all_server_names : gset string)
    (entry : nat * VirtualHostConfig) : result Error (gset string) :=
  let '(idx, vhost) := entry in
  let vhost_label := fmt["servers["; dec (Z.of_nat idx); "]"] in
  let? _ := validate_vhost_listens vhost_label vhost require_vhost_listen server_tls_defaults in
  let? _ := reject (bool_decide (vhc_server_names vhost = []) && is_some (vhc_tls vhost))
    fail[vhost_label; " TLS requires at least one server_name"] in
  let? _ := reject (bool_decide (vhc_server_names vhost = []))
    fail[vhost_label; " must define at least one server_name"] in
  let? all_server_names := validate_server_names to_lowercase vhost_label (vhc_server_names vhost) all_server_names in
  let? _ := reject (bool_decide (length (vhc_locations vhost) = 0%nat))
    fail[vhost_label; " must have at least one location"] in
  let? _ :=
    match vhc_tls vhost with
    | Some tls => validate_tls_identity_fields vhost_label (vtc_cert_path tls) (vtc_key_path tls)
        (vtc_additional_certificates tls) (vtc_ocsp_staple_path tls)
    | None => Ok tt
    end in
  let? local_upstream_names := validate_upstreams (vhc_upstreams vhost) in
  let visible_upstream_names := global_upstream_names ∪ local_upstream_names in
  let? _ := validate_locations (Some vhost_label) (vhc_locations vhost) visible_upstream_names cache_zone_names in
  Ok all_server_names.

(** Source: crates/rginx-config/src/validate/vhost.rs:7-60 (validate_virtual_hosts) *)
Definition validate_virtual_hosts (vhosts : list VirtualHostConfig) (global_upstream_names all_server_names : gset string)
    (require_vhost_listen : bool) (server_tls_defaults : option ServerTlsConfig) (cache_zone_names : gset string)
    : result Error (gset string) :=
  try_fold (validate_virtual_host global_upstream_names require_vhost_listen server_tls_defaults cache_zone_names)
    all_server_names (enumerate vhosts).

(** *** ACME *)

(** Source: crates/rginx-config/src/validate/acme.rs:40-64 (validate_global_acme) *)
Definition validate_global_acme (acme : AcmeConfig) : result Error () :=
  let? _ := reject (blank (amc_directory_url acme)) fail["acme.directory_url must not be empty"] in
  let? _ := reject (blank (amc_state_dir acme)) fail["acme.state_dir must not be empty"] in
  let? _ := for_each (λ '(index, contact),
    reject (blank contact) fail["acme.contacts["; dec (Z.of_nat index); "] must not be empty"])
    (enumerate (amc_contacts acme)) in
  let? _ := reject (is_zero (amc_renew_before_days acme)) fail["acme.renew_before_days must be greater than 0"] in
  reject (is_zero (amc_poll_interval_secs acme)) fail["acme.poll_interval_secs must be greater than 0"].

(** Source: crates/rginx-config/src/validate/acme.rs:115-143 (normalize_unique_domains) *)
Definition normalize_unique_domains (values : list string) (owner_label : string) (reject_wildcards : bool)
    : result Error (gset string) :=
  try_fold (λ normalized '(index, value),
    let owner := fmt[owner_label; "["; dec (Z.of_nat index); "]"] in
    let value := trim value in
    let? _ := reject (str_is_empty value) fail[owner; " must not be empty"] in
    let? _ := reject (reject_wildcards && contains_char "*" value)
      fail[owner; " wildcard `"; value; "` is not supported by ACME phase 1"] in
    let '(inserted, normalized) := hs_insert (to_ascii_lowercase value) normalized in
    let? _ := reject (negb inserted) fail[owner; " duplicates another ACME domain entry"] in
    Ok normalized) ∅ (enumerate values).

(** There is one kind of challenge: its check never fails. *)
(** Source: crates/rginx-config/src/validate/acme.rs:66-113 (validate_vhost_acme) *)
Definition validate_vhost_acme (owner_label : string) (vhost : VirtualHostConfig) (tls : VirtualHostTlsConfig)
    (acme : VirtualHostAcmeConfig) (global_acme : option AcmeConfig) : result Error () :=
  let? _ := reject (negb (is_some global_acme)) fail[owner_label; " TLS ACME requires top-level acme configuration"] in
  let? _ := reject (match vtc_additional_certificates tls with Some (_ :: _) => true | _ => false end)
    fail[owner_label; " TLS ACME does not support additional_certificates in phase 1"] in
  let? _ := reject (bool_decide (vac_domains acme = [])) fail[owner_label; " TLS ACME domains must not be empty"] in
  let? normalized_server_names :=
    normalize_unique_domains (vhc_server_names vhost) fmt[owner_label; " server_names"] true in
  let? normalized_domains := normalize_unique_domains (vac_domains acme) fmt[owner_label; " TLS ACME domains"] true in
  reject (negb (bool_decide (normalized_domains = normalized_server_names)))
    fail[owner_label; " TLS ACME domains must match server_names exactly in phase 1"].

(** The first listen directive that satisfies [p], in the order the source
    parses them. *)
Fixpoint any_vhost_listen_is (p : ParsedVhostListen → bool) (listens : list (nat * nat * VirtualHostConfig * string))
    : result Error bool :=
  match listens with
  | [] => Ok false
  | (vhost_index, listen_index, _, listen) :: listens =>
      let? parsed := parse_vhost_listen (listen_owner vhost_index listen_index) listen in
      if p parsed then Ok true else any_vhost_listen_is p listens
  end.

Fixpoint any_plain_listener_on_80 (listeners : list (nat * ListenerConfig)) : result Error bool :=
  match listeners with
  | [] => Ok false
  | (listener_index, listener) :: listeners =>
      if is_some (lic_tls listener) then any_plain_listener_on_80 listeners
      else
        let? listen_addr := ok_or (socket_from_str (lic_listen listener))
          fail["listeners["; dec (Z.of_nat listener_index); "].listen `"; lic_listen listener; "` is invalid: "; addr_error] in
        if sock_port listen_addr =? 80 then Ok true else any_plain_listener_on_80 listeners
  end.

(** Source: crates/rginx-config/src/validate/acme.rs:145-182 (has_http01_listener) *)
Definition has_http01_listener (config : Config) : result Error bool :=
  if any_vhost_listen (cnf_servers config) then
    any_vhost_listen_is (λ parsed, (sock_port (pvl_addr parsed) =? 80) && negb (pvl_ssl parsed))
      (vhost_listens (cnf_servers config))
  else any_plain_listener_on_80 (enumerate (cnf_listeners config)).

(** Source: crates/rginx-config/src/validate/acme.rs:184-221 (validate_managed_acme_http3_compatibility) *)
Definition validate_managed_acme_http3_compatibility (config : Config) (managed_vhost_indexes : list nat)
    : result Error () :=
  if bool_decide (managed_vhost_indexes = []) then Ok tt
  else if any_vhost_listen (cnf_servers config) then
    for_each (λ '(vhost_index, listen_index, _, listen),
      let owner := listen_owner vhost_index listen_index in
      let? parsed := parse_vhost_listen owner listen in
      reject (pvl_ssl parsed && pvl_http3 parsed)
        fail[owner; " ACME-managed TLS does not support http3 hot certificate rotation yet"])
      (filter (λ listen, listen.1.1.1 ∈ managed_vhost_indexes) (vhost_listens (cnf_servers config)))
  else
    match find_first (λ '(_, listener), is_some (lic_tls listener) && is_some (lic_http3 listener))
            (enumerate (cnf_listeners config)) with
    | Some (listener_index, _) =>
        Err fail["listeners["; dec (Z.of_nat listener_index);
                 "] enables http3, which is not supported together with ACME-managed certificates yet"]
    | None => Ok tt
    end.

(** Source: crates/rginx-config/src/validate/acme.rs:9-38 (validate_acme) *)
Definition validate_acme (config : Config) : result Error () :=
  let? _ := match cnf_acme config with Some acme => validate_global_acme acme | None => Ok tt end in
  let? managed_vhost_indexes := try_fold (λ indexes '(index, vhost),
    match vhc_tls vhost with
    | None => Ok indexes
    | Some tls =>
        match vtc_acme tls with
        | None => Ok indexes
        | Some acme =>
            let? _ := validate_vhost_acme fmt["servers["; dec (Z.of_nat index); "]"] vhost tls acme (cnf_acme config) in
            Ok (indexes ++ [index])
        end
    end) [] (enumerate (cnf_servers config)) in
  let? _ :=
    if bool_decide (managed_vhost_indexes = []) then Ok tt
    else
      let? plain := has_http01_listener config in
      reject (negb plain) fail["ACME HTTP-01 requires at least one plain HTTP listener bound to port 80"] in
  validate_managed_acme_http3_compatibility config managed_vhost_indexes.

(** *** The whole configuration *)

(** Source: crates/rginx-config/src/validate.rs:86-88 (route_uses_forced_request_buffering) *)
Definition route_uses_forced_request_buffering (location : LocationConfig) : bool :=
  match lc_request_buffering location with Some BufferingOnConfig => true | _ => false end.

(** Source: crates/rginx-config/src/validate.rs:47-84 (validate_request_buffering_limits) *)
Definition validate_request_buffering_limits (config : Config) : result Error () :=
  let any_request_buffering_on := existsb route_uses_forced_request_buffering
    (cnf_locations config ++ (cnf_servers config ≫= vhc_locations)) in
  if negb any_request_buffering_on then Ok tt
  else if bool_decide (length (cnf_listeners config) = 0%nat) then
    reject (negb (is_some (svc_max_request_body_bytes (cnf_server config))))
      fail["request_buffering=On requires server.max_request_body_bytes when listeners are generated from server.listen or servers[].listen"]
  else
    let missing_limits := map (λ listener, trim (lic_name listener))
      (filter (λ listener, lic_max_request_body_bytes listener = None) (cnf_listeners config)) in
    reject (negb (bool_decide (missing_limits = [])))
      fail["request_buffering=On requires max_request_body_bytes on every explicit listener; missing for: ";
           str_join ", " missing_limits].

(** Source: crates/rginx-config/src/validate.rs:17-45 (validate) *)
Definition validate (config : Config) : result Error () :=
  let? _ := validate_runtime (cnf_runtime config) in
  let? _ := reject (bool_decide (length (cnf_locations config) = 0%nat) && bool_decide (length (cnf_servers config) = 0%nat))
    fail["at least one location or virtual host must be configured"] in
  let? _ := validate_server (cnf_server config) in
  let? _ := validate_listeners (cnf_listeners config) (cnf_server config) (cnf_servers config) in
  let? cache_zone_names := validate_cache_zones (cnf_cache_zones config) in
  let? upstream_names := validate_upstreams (cnf_upstreams config) in
  let? _ := validate_locations None (cnf_locations config) upstream_names cache_zone_names in
  let? all_server_names := validate_server_names to_lowercase "server" (svc_server_names (cnf_server config)) ∅ in
  let? _ := validate_virtual_hosts (cnf_servers config) upstream_names all_server_names
    (any_vhost_listen (cnf_servers config)) (svc_tls (cnf_server config)) cache_zone_names in
  let? _ := validate_acme config in
  validate_request_buffering_limits config.

(** ** Compilation *)

(** Source: crates/rginx-config/src/compile/runtime.rs:17-25 (compile_runtime_worker_threads) *)
Definition compile_runtime_worker_threads : option Z → result Error (option Z) :=
  compile_usize "runtime worker_threads".

(** Source: crates/rginx-config/src/compile/runtime.rs:27-36 (compile_runtime_accept_workers) *)
Definition compile_runtime_accept_workers (accept_workers : option Z) : result Error Z :=
  rmap (default 1) (compile_usize "runtime accept_workers" accept_workers).

(** Source: crates/rginx-config/src/compile/runtime.rs:7-15 (compile_runtime_settings) *)
Definition compile_runtime_settings (runtime : RuntimeConfig) : result Error RuntimeSettings :=
  let? worker_threads := compile_runtime_worker_threads (rnc_worker_threads runtime) in
  let? accept_workers := compile_runtime_accept_workers (rnc_accept_workers runtime) in
  Ok (mkRuntimeSettings (from_secs (rnc_shutdown_timeout_secs runtime)) worker_threads accept_workers).

(** Source: crates/rginx-config/src/compile/acme.rs:8-9 (DEFAULT_ACME_RENEW_BEFORE_DAYS and DEFAULT_ACME_POLL_INTERVAL_SECS) *)
Definition DEFAULT_ACME_RENEW_BEFORE_DAYS : Z := 30.
Definition DEFAULT_ACME_POLL_INTERVAL_SECS : Z := 3600.

(** The product of days and seconds wraps around, as it does in a release build. *)
(** Source: crates/rginx-config/src/compile/acme.rs:11-26 (compile_global_acme) *)
Definition compile_global_acme (acme : option AcmeConfig) (base_dir : string) : option AcmeSettings :=
  (λ acme, {|
    acme_directory_url := trim (amc_directory_url acme);
    acme_contacts := map trim (amc_contacts acme);
    acme_state_dir := resolve_path base_dir (amc_state_dir acme);
    acme_renew_before :=
      from_secs (wrapping_mul64 (default DEFAULT_ACME_RENEW_BEFORE_DAYS (amc_renew_before_days acme)) 86400);
    acme_poll_interval := from_secs (default DEFAULT_ACME_POLL_INTERVAL_SECS (amc_poll_interval_secs acme));
  |}) <$> acme.

(** Source: crates/rginx-config/src/compile/acme.rs:28-50 (compile_managed_certificate_spec) *)
Definition compile_managed_certificate_spec (scope : string) (tls : VirtualHostTls)
    (acme : option VirtualHostAcmeConfig) : option ManagedCertificateSpec :=
  (λ acme, {|
    mcs_scope := scope;
    mcs_domains := map (λ domain, to_ascii_lowercase (trim domain)) (vac_domains acme);
    mcs_cert_path := vht_cert_path tls;
    mcs_key_path := vht_key_path tls;
    mcs_challenge := match default Http01Config (vac_challenge acme) with Http01Config => Http01 end;
  |}) <$> acme.

(** *** Listeners made of listen directives *)

(** Source: crates/rginx-config/src/compile/server/listener.rs:292-294 (vhost_listener_id) *)
Definition vhost_listener_id (listen_addr : SocketAddr) : string :=
  fmt["vhost-listen:"; socket_to_string listen_addr].

(** Source: crates/rginx-config/src/compile/server/listener.rs:296-298 (vhost_listener_name) *)
Definition vhost_listener_name (listen_addr : SocketAddr) : string := fmt["vhost:"; socket_to_string listen_addr].

(** Source: crates/rginx-config/src/compile/server/listener.rs:166-200 (compile_vhost_listeners, the bindings) *)
Definition collect_vhost_bindings (vhosts : list VirtualHostConfig)
    : result Error (list (SocketAddr * VhostListenerBinding)) :=
  try_fold (λ bindings '(vhost_index, listen_index, vhost, listen),
    let? parsed := parse_vhost_listen (listen_owner vhost_index listen_index) listen in
    let http3 := listen_http3 parsed vhost in
    let default_certificate := if pvl_ssl parsed then head (vhc_server_names vhost) else None in
    match find_addr (pvl_addr parsed) bindings with
    | None =>
        Ok (bindings ++ [(pvl_addr parsed,
              mkVhostListenerBinding (pvl_ssl parsed) http3 (pvl_proxy_protocol parsed) default_certificate)])
    | Some binding =>
        let? _ := validate_vhost_listener_merge (pvl_addr parsed) binding (pvl_ssl parsed)
          (pvl_proxy_protocol parsed) http3 in
        let certificate := match vlb_default_certificate binding with
          | Some certificate => Some certificate
          | None => default_certificate
          end in
        Ok (replace_addr (pvl_addr parsed)
              (mkVhostListenerBinding (vlb_ssl binding) (vlb_http3 binding) (vlb_proxy_protocol binding) certificate)
              bindings)
    end) [] (vhost_listens vhosts).

(** Source: crates/rginx-config/src/compile/server/listener.rs:202-252 (compile_vhost_listeners, one binding) *)
Definition compile_vhost_listener (server_defaults : ServerConfig) (base_dir : string)
    (allow_missing_managed_tls_identity : bool) (managed_identity_pairs : list (string * string))
    (entry : SocketAddr * VhostListenerBinding) : result Error Listener :=
  let '(listen_addr, binding) := entry in
  let tls := if vlb_ssl binding then svc_tls server_defaults else None in
  let default_certificate :=
    if vlb_ssl binding then
      match svc_default_certificate server_defaults with
      | Some certificate => Some certificate
      | None => if is_some (svc_tls server_defaults) then None else vlb_default_certificate binding
      end
    else None in
  let? compiled := compile_server_fields to_lowercase {|
    sfc_listen := socket_to_string listen_addr;
    sfc_server_header := svc_server_header server_defaults;
    sfc_default_certificate := default_certificate;
    sfc_trusted_proxies := svc_trusted_proxies server_defaults;
    sfc_client_ip_header := svc_client_ip_header server_defaults;
    sfc_keep_alive := svc_keep_alive server_defaults;
    sfc_max_headers := svc_max_headers server_defaults;
    sfc_max_request_body_bytes := svc_max_request_body_bytes server_defaults;
    sfc_max_connections := svc_max_connections server_defaults;
    sfc_header_read_timeout_secs := svc_header_read_timeout_secs server_defaults;
    sfc_request_body_read_timeout_secs := svc_request_body_read_timeout_secs server_defaults;
    sfc_response_write_timeout_secs := svc_response_write_timeout_secs server_defaults;
    sfc_access_log_format := svc_access_log_format server_defaults;
    sfc_tls := tls;
    sfc_allow_missing_tls_identity := allow_missing allow_missing_managed_tls_identity
      (svc_tls server_defaults) base_dir managed_identity_pairs |} base_dir in
  let? http3 := compile_http3 (vlb_http3 binding) (srv_listen_addr (csf_server compiled)) (vlb_ssl binding) base_dir in
  Ok (make_listener (vhost_listener_id listen_addr) (vhost_listener_name listen_addr) compiled (vlb_ssl binding)
        (vlb_proxy_protocol binding) http3).

(** A [BTreeMap] gives its entries in the order of their addresses. *)
(** Source: crates/rginx-config/src/compile/server/listener.rs:159-253 (compile_vhost_listeners) *)
Definition compile_vhost_listeners (vhosts : list VirtualHostConfig) (server_defaults : ServerConfig)
    (base_dir : string) (allow_missing_managed_tls_identity : bool) (managed_identity_pairs : list (string * string))
    : result Error (list Listener) :=
  let? bindings := collect_vhost_bindings vhosts in
  collect (compile_vhost_listener server_defaults base_dir allow_missing_managed_tls_identity managed_identity_pairs)
    (sort_by (λ a b : SocketAddr * VhostListenerBinding, sock_cmp a.1 b.1) bindings).

(** *** Virtual hosts *)

(** Source: crates/rginx-config/src/compile/server/tls.rs:75-110 (compile_virtual_host_tls) *)
Definition compile_virtual_host_tls (tls : option VirtualHostTlsConfig) (base_dir : string)
    (allow_missing_identity : bool) : result Error (option VirtualHostTls) :=
  transpose (λ tls,
    let? identity := compile_certificate_material base_dir (vtc_cert_path tls) (vtc_key_path tls)
      (vtc_additional_certificates tls) (vtc_ocsp_staple_path tls) (vtc_ocsp tls)
      "vhost TLS" allow_missing_identity in
    Ok (mkVhostTls (ccm_cert_path identity) (ccm_key_path identity) (ccm_additional_certificates identity)
          (ccm_ocsp_staple_path identity) (ccm_ocsp identity))) tls.

(** Source: crates/rginx-config/src/compile/vhost.rs:72-81 (tls_identity_is_managed) *)
Definition vhost_tls_identity_is_managed (tls : VirtualHostTlsConfig) (base_dir : string)
    (managed_identity_pairs : list (string * string)) : bool :=
  pairs_contain managed_identity_pairs
    (resolve_path base_dir (vtc_cert_path tls)) (resolve_path base_dir (vtc_key_path tls)).

(** Source: crates/rginx-config/src/compile/vhost.rs:11-15 (CompiledVirtualHost) *)
Record CompiledVirtualHost : Type := mkCompiledVirtualHost {
  cvh_vhost : VirtualHost;
  cvh_upstreams : gmap string Upstream;
  cvh_managed_certificate : option ManagedCertificateSpec;
}.

(** Source: crates/rginx-config/src/compile/vhost.rs:17-70 (compile_virtual_host) *)
Definition compile_virtual_host (vhost_id : string) (config : VirtualHostConfig) (upstreams : gmap string Upstream)
    (base_dir : string) (allow_missing_managed_tls_identity : bool) (managed_identity_pairs : list (string * string))
    : result Error CompiledVirtualHost :=
  let acme := vhc_tls config ≫= vtc_acme in
  let allow_missing_tls_identity := allow_missing_managed_tls_identity &&
    is_some_and (λ tls, vhost_tls_identity_is_managed tls base_dir managed_identity_pairs) (vhc_tls config) in
  let local_upstream_names := foldl (λ m upstream,
    <[uc_name upstream := scoped_upstream_name vhost_id (uc_name upstream)]> m) (∅ : gmap string string)
    (vhc_upstreams config) in
  let? local_upstreams := compile_scoped_upstreams (vhc_upstreams config) base_dir vhost_id in
  let visible_upstreams := local_upstreams ∪ upstreams in
  let? routes := compile_routes_with_local (vhc_locations config) visible_upstreams local_upstream_names vhost_id in
  let? tls := compile_virtual_host_tls (vhc_tls config) base_dir allow_missing_tls_identity in
  let managed_certificate := tls ≫= λ tls, compile_managed_certificate_spec vhost_id tls acme in
  Ok (mkCompiledVirtualHost (mkVirtualHost vhost_id (vhc_server_names config) routes tls)
        local_upstreams managed_certificate).

(** *** The whole configuration *)

(** Source: crates/rginx-config/src/compile/mod.rs:154-169 (collect_managed_identity_pairs) *)
Definition collect_managed_identity_pairs (raw_servers : list VirtualHostConfig) (base_dir : string)
    : list (string * string) :=
  omap (λ vhost,
    tls ← vhc_tls vhost;
    _ ← vtc_acme tls;
    Some (resolve_path base_dir (vtc_cert_path tls), resolve_path base_dir (vtc_key_path tls))) raw_servers.

(** The listeners and the names of the default virtual host; [None] is the panic
    of [compile_legacy_server]. *)
(** Source: crates/rginx-config/src/compile/mod.rs:77-108 (compile_with_base_and_options, the listeners) *)
Definition compile_config_listeners (config : Config) (base_dir : string) (allow_missing_managed_tls_identity : bool)
    (managed_identity_pairs : list (string * string)) : option (result Error (list Listener * list string)) :=
  let server := cnf_server config in
  let any_vhost_tls := existsb (λ vhost, is_some (vhc_tls vhost)) (cnf_servers config) in
  if any_vhost_listen (cnf_servers config) then
    Some (rmap (λ listeners, (listeners, svc_server_names server))
      (compile_vhost_listeners (cnf_servers config) server base_dir
         allow_missing_managed_tls_identity managed_identity_pairs))
  else if bool_decide (length (cnf_listeners config) = 0%nat) then
    rmap (λ compiled, ([cs_listener compiled], cs_server_names compiled)) <$>
      compile_legacy_server to_lowercase server base_dir any_vhost_tls
        allow_missing_managed_tls_identity managed_identity_pairs
  else
    Some (rmap (λ listeners, (listeners, svc_server_names server))
      (compile_listeners to_lowercase (cnf_listeners config) (svc_server_header server) base_dir
         allow_missing_managed_tls_identity managed_identity_pairs)).

(** Source: crates/rginx-config/src/compile/mod.rs:37-37 (DEFAULT_VHOST_ID) *)
Definition DEFAULT_VHOST_ID : string := "server".

(** Source: crates/rginx-config/src/compile/mod.rs:109-152 (compile_with_base_and_options, upstreams and hosts) *)
Definition compile_hosts (config : Config) (base_dir : string) (allow_missing_managed_tls_identity : bool)
    (managed_identity_pairs : list (string * string)) (runtime : RuntimeSettings) (acme : option AcmeSettings)
    (cache_zones : gmap string CacheZone) (listeners : list Listener) (default_server_names : list string)
    : result Error ConfigSnapshot :=
  let? upstreams := compile_upstreams (cnf_upstreams config) base_dir in
  let? routes := compile_routes (cnf_locations config) upstreams DEFAULT_VHOST_ID in
  let default_vhost := mkVirtualHost DEFAULT_VHOST_ID default_server_names routes None in
  let? compiled_vhosts := collect (λ '(index, vhost_config),
    compile_virtual_host fmt["servers["; dec (Z.of_nat index); "]"] vhost_config upstreams base_dir
      allow_missing_managed_tls_identity managed_identity_pairs) (enumerate (cnf_servers config)) in
  Ok {|
    cfg_runtime := runtime;
    cfg_acme := acme;
    cfg_managed_certificates := omap cvh_managed_certificate compiled_vhosts;
    cfg_listeners := listeners;
    cfg_default_vhost := default_vhost;
    cfg_vhosts := map cvh_vhost compiled_vhosts;
    cfg_cache_zones := cache_zones;
    cfg_upstreams := foldl (λ upstreams compiled, cvh_upstreams compiled ∪ upstreams) upstreams compiled_vhosts;
  |}.

(** Goes on after a success with a step that may panic. *)
Definition and_then {E A B} (m : result E A) (k : A → option (result E B)) : option (result E B) :=
  match m with Ok a => k a | Err e => Some (Err e) end.

(** Source: crates/rginx-config/src/compile/mod.rs:55-152 (compile_with_base_and_options) *)
Definition compile_with_base_and_options (raw : Config) (base_dir : string) (allow_missing_managed_tls_identity : bool)
    : option (result Error ConfigSnapshot) :=
  and_then (validate raw) (λ _,
  let managed_identity_pairs := collect_managed_identity_pairs (cnf_servers raw) base_dir in
  and_then (compile_runtime_settings (cnf_runtime raw)) (λ runtime,
  let acme := compile_global_acme (cnf_acme raw) base_dir in
  and_then (compile_cache_zones (cnf_cache_zones raw) base_dir) (λ cache_zones,
  compiled ← compile_config_listeners raw base_dir allow_missing_managed_tls_identity managed_identity_pairs;
  Some (
    let? (listeners, default_server_names) := compiled in
    compile_hosts raw base_dir allow_missing_managed_tls_identity managed_identity_pairs
      runtime acme cache_zones listeners default_server_names)))).

(** Source: crates/rginx-config/src/compile/mod.rs:51-53 (compile_with_base) *)
Definition compile_with_base (raw : Config) (base_dir : string) : option (result Error ConfigSnapshot) :=
  compile_with_base_and_options raw base_dir false.

(** Source: crates/rginx-config/src/compile/mod.rs:47-49 (compile) *)
Definition compile (raw : Config) : option (result Error ConfigSnapshot) := compile_with_base raw ".".
End ConfigFile.
