(* ===== verification/ConfigFileSafety.v ===== *)
(** * What a configuration compiles to

    Compilation never panics, and its listeners are what the rest of the server
    takes them for: named once, bound once, HTTP/3 only behind TLS.  So are its
    zones, upstreams and routes: typed, under their own names, and what a route
    names is in the snapshot.  What a validated configuration can still be
    refused for is stated: files that are not there, access log formats, and the
    addresses that only compilation reads. *)

From S2P Require Import Prelude RustStr External ConfigBase Addresses ServerName Upstream ConfigUpstream ConfigUpstreamSafety Tls AccessLog CacheConfig ProxyHeader Route CacheStore ConfigCache ConfigCacheSafety ConfigRoute ConfigRouteSafety Listener ConfigServer ConfigFile.

Section ListenerFacts.
  Context {NET : IpNetApi} {RX : RegexApi} {API : ConfigApi NET RX} {HTTP : HttpApi}.
  Context (to_lowercase : string → string).

(** The sockets of a compiled listener. *)
Definition sockets (l : Listener) : list (ListenerTransportKind * SocketAddr) :=
  map (λ b, (lb_kind b, lb_listen_addr b)) (transport_bindings l).

Definition listen_addr_of (l : Listener) : SocketAddr := srv_listen_addr (lst_server l).

(** The sockets an explicit listener asks for, once its addresses are parsed. *)
Definition configured_sockets (l : ListenerConfig) : option (list (ListenerTransportKind * SocketAddr)) :=
  tcp ← socket_from_str (lic_listen l);
  match lic_http3 l with
  | None => Some [(Tcp, tcp)]
  | Some http3 =>
      udp ← match h3c_listen http3 with Some listen => socket_from_str listen | None => Some tcp end;
      Some [(Tcp, tcp); (Udp, udp)]
  end.

Definition normalized_name (l : ListenerConfig) : string := to_ascii_lowercase (trim (lic_name l)).

(** ** Compiled fields *)

Lemma server_fields_compiled config base_dir fields :
  compile_server_fields to_lowercase config base_dir = Ok fields →
  socket_from_str (sfc_listen config) = Some (srv_listen_addr (csf_server fields)) ∧
  is_some (csf_server_tls fields) = is_some (sfc_tls config).
Proof.
  unfold compile_server_fields. intros H. passed H. simplify_eq. simpl.
  apply ok_or_ok in Hstep0. split; [done|]. unfold compile_server_tls in Hstep.
  destruct (sfc_tls config); [|by simplify_eq]. passed Hstep. by simplify_eq.
Qed.

Lemma http3_compiled http3 tcp tls_enabled base_dir r :
  compile_http3 http3 tcp tls_enabled base_dir = Ok r →
  match http3, r with
  | None, None => True
  | Some h, Some c => tls_enabled = true ∧
      match h3c_listen h with Some listen => socket_from_str listen | None => Some tcp end = Some (h3_listen_addr c)
  | _, _ => False
  end.
Proof.
  unfold compile_http3. destruct http3 as [h|]; [|by intros [= <-]]. intros H. passed H. simplify_eq. simpl.
  apply negb_false_iff in Hcheck. split; [done|]. destruct (h3c_listen h); [by apply ok_or_ok in Hstep|by simplify_eq].
Qed.

Lemma listener_compiled default_header base_dir allow pairs l c :
  compile_listener to_lowercase default_header base_dir allow pairs l = Ok c →
  lst_id c = explicit_listener_id (lic_name l) ∧ configured_sockets l = Some (sockets c) ∧
  (lst_http3 c ≠ None → lst_tls_termination_enabled c = true).
Proof.
  unfold compile_listener. intros H. passed H. simplify_eq.
  apply server_fields_compiled in Hstep as [Ha _]. apply http3_compiled in Hstep0. cbn [sfc_listen] in Ha.
  split; [done|]. unfold configured_sockets. rewrite Ha. cbn [mbind option_bind make_listener lst_http3 sockets].
  destruct (lic_http3 l) as [h|], r0 as [c|]; try done. destruct Hstep0 as [Htls Hu]. rewrite Hu. done.
Qed.

Lemma legacy_compiled server base_dir vhost_tls allow pairs c :
  compile_legacy_server to_lowercase server base_dir vhost_tls allow pairs = Some (Ok c) →
  lst_http3 (cs_listener c) ≠ None → lst_tls_termination_enabled (cs_listener c) = true.
Proof.
  unfold compile_legacy_server. destruct (svc_listen server) as [listen|]; cbn [mbind option_bind]; [|done].
  intros [= H] Hh. passed H. simplify_eq. apply http3_compiled in Hstep0. simpl in *.
  destruct (svc_http3 server), r0; try done. tauto.
Qed.

(** ** Explicit listeners *)

Lemma bind_inserted b binds binds' : bind_insert b binds = (true, binds') ↔ b ∉ binds ∧ binds' = b :: binds.
Proof. unfold bind_insert. case_decide; naive_solver. Qed.

Lemma validate_listener_ok seen i l seen' :
  validate_listener seen (i, l) = Ok seen' →
  normalized_name l ∉ all_listener_names seen ∧
  all_listener_names seen' = {[normalized_name l]} ∪ all_listener_names seen ∧
  ∃ binds, configured_sockets l = Some binds ∧ NoDup binds ∧
    (∀ b, b ∈ binds → b ∉ all_listener_bindings seen) ∧
    (∀ b, b ∈ all_listener_bindings seen' ↔ b ∈ binds ∨ b ∈ all_listener_bindings seen).
Proof.
  unfold validate_listener. cbn [hs_insert]. fold (normalized_name l). intros H. passed H.
  apply negb_false_iff, bool_decide_eq_true in Hcheck0. apply ok_or_ok in Hstep0.
  destruct (bind_insert (Tcp, r) _) as [inserted binds] eqn:Hb. passed H. apply negb_false_iff in Hcheck1 as ->.
  apply bind_inserted in Hb as [Htcp ->]. split; [done|].
  unfold configured_sockets. rewrite Hstep0. cbn [mbind option_bind].
  destruct (lic_http3 l) as [http3|].
  - passed H. destruct (bind_insert (Udp, r0) _) as [inserted' binds'] eqn:Hb'. passed H.
    apply negb_false_iff in Hcheck1 as ->. apply bind_inserted in Hb' as [Hudp ->]. simplify_eq. split; [done|].
    assert (match h3c_listen http3 with Some listen => socket_from_str listen | None => Some r end = Some r0) as ->.
    { destruct (h3c_listen http3); [by apply ok_or_ok in Hstep1|by simplify_eq]. }
    exists [(Tcp, r); (Udp, r0)]. simpl. split_and!; [done| |set_solver|set_solver].
    repeat constructor; set_solver.
  - simplify_eq. split; [done|]. exists [(Tcp, r)]. simpl. split_and!; [done| |set_solver|set_solver]. apply NoDup_singleton.
Qed.

Lemma validated_listeners_distinct n listeners seen seen' :
  try_fold validate_listener seen (enumerate_from n listeners) = Ok seen' →
  NoDup (normalized_name <$> listeners) ∧ (∀ l, l ∈ listeners → normalized_name l ∉ all_listener_names seen) ∧
  ∃ binds, Forall2 (λ l b, configured_sockets l = Some b) listeners binds ∧ NoDup (mjoin binds) ∧
    ∀ b, b ∈ mjoin binds → b ∉ all_listener_bindings seen.
Proof.
  revert n seen. induction listeners as [|l listeners IH]; intros n seen.
  - intros _. split_and!; [constructor|set_solver|]. exists []. split_and!; [constructor|constructor|set_solver].
  - cbn [enumerate_from try_fold]. intros (s & Hl & H)%rbind_ok.
    apply validate_listener_ok in Hl as (Hn & Hnames & binds & Hb & Hnd & Hfresh & Hall).
    destruct (IH _ _ H) as (Hnd' & Hout & rest & Hrest & Hndr & Hoff). rewrite fmap_cons.
    split; [|split].
    + constructor; [|done]. intros (k & Hk & Hin)%list_elem_of_fmap. specialize (Hout k Hin). set_solver.
    + intros k [->|Hk]%elem_of_cons; [done|]. specialize (Hout k Hk). set_solver.
    + exists (binds :: rest). cbn [mjoin list_join]. split; [by constructor|]. split.
      * apply NoDup_app. split_and!; [done| |done]. intros b Hin Hin'. apply (Hoff b Hin'). apply Hall. by left.
      * intros b [Hin|Hin]%elem_of_app; [by apply Hfresh|]. intros Hs. apply (Hoff b Hin). apply Hall. by right.
Qed.

Lemma explicit_listeners_distinct listeners seen default_header base_dir allow pairs compiled :
  try_fold validate_listener (mkListenerNames ∅ []) (enumerate listeners) = Ok seen →
  compile_listeners to_lowercase listeners default_header base_dir allow pairs = Ok compiled →
  NoDup (map lst_id compiled) ∧ NoDup (mjoin (map sockets compiled)) ∧ length compiled = length listeners ∧
  ∀ l, l ∈ compiled → lst_http3 l ≠ None → lst_tls_termination_enabled l = true.
Proof.
  intros (Hnames & _ & binds & Hb & Hnd & _)%validated_listeners_distinct Hc%collect_ok.
  assert (Hall : Forall2 (λ l c, lst_id c = explicit_listener_id (lic_name l) ∧ configured_sockets l = Some (sockets c) ∧
    (lst_http3 c ≠ None → lst_tls_termination_enabled c = true)) listeners compiled).
  { eapply Forall2_impl; [exact Hc|]. intros l c. apply listener_compiled. }
  clear Hc. split_and!.
  - assert (map lst_id compiled = map (λ n, "listener:" +:+ n) (normalized_name <$> listeners)) as ->.
    { clear -Hall. induction Hall as [|l c ls cs (Hid & _) _ IH]; [done|]. cbn [map fmap list_fmap]. rewrite IH, Hid.
      f_equal. unfold explicit_listener_id, normalized_name. cbn [str_concat foldr]. by rewrite str_app_nil_r. }
    assert (Inj (=) (=) (λ n, "listener:" +:+ n)) by (intros a b; apply str_app_inj_l).
    by apply (NoDup_fmap_2 (λ n, "listener:" +:+ n)).
  - assert (map sockets compiled = binds) as ->; [|done].
    clear -Hall Hb. revert binds Hb. induction Hall as [|l c ls cs (_ & Hs & _) _ IH]; intros binds Hb;
      inversion Hb; simplify_eq/=; [done|]. rewrite (IH _ ltac:(done)). congruence.
  - symmetry. by eapply Forall2_length.
  - intros c Hin. apply list_elem_of_lookup in Hin as [i Hi].
    destruct (Forall2_lookup_r _ _ _ _ _ Hall Hi) as (l & _ & _ & _ & H). done.
Qed.

(** ** Listeners of listen directives *)

Lemma find_addr_None {A} addr (m : list (SocketAddr * A)) : find_addr addr m = None ↔ addr ∉ m.*1.
Proof.
  unfold find_addr. destruct (List.find _ m) as [[a x]|] eqn:Hf; simpl.
  - split; [done|]. apply find_some in Hf as [Hin Ha]. apply bool_decide_eq_true in Ha. simpl in Ha. subst.
    intros H. destruct H. apply list_elem_of_fmap. exists (addr, x). split; [done|]. by apply list_elem_of_In.
  - split; [|done]. intros _ ([a x] & -> & Hin)%list_elem_of_fmap. apply list_elem_of_In in Hin.
    pose proof (find_none _ _ Hf _ Hin) as H. apply bool_decide_eq_false in H. done.
Qed.

Lemma replace_addr_keys {A} addr (a : A) m : (replace_addr addr a m).*1 = m.*1.
Proof.
  unfold replace_addr. induction m as [|[k x] m IH]; [done|]. cbn [map fmap list_fmap]. f_equal; [|exact IH].
  case_decide; simplify_eq/=; done.
Qed.

Lemma listen_addr_wf owner value addr : parse_listen_addr owner value = Ok addr → sock_wf addr.
Proof.
  unfold parse_listen_addr. destruct (str_all _ value).
  - intros H. passed H. simplify_eq. unfold parse_port in Hstep. apply ok_or_ok in Hstep.
    unfold parse_u16 in Hstep. apply parse_uint_bound in Hstep; [|unfold u16_max; lia].
    split; [split; [|done]|]; [|unfold is_u16, u16_max in *; simpl; lia]. repeat constructor; lia.
  - intros H%ok_or_ok. by apply socket_from_str_wf in H.
Qed.

Lemma listen_options_addr owner parsed tokens parsed' :
  try_fold (parse_listen_option owner) parsed tokens = Ok parsed' →
  pvl_addr parsed' = pvl_addr parsed ∧
  ((pvl_http3 parsed = true → pvl_ssl parsed = true) → pvl_http3 parsed' = true → pvl_ssl parsed' = true).
Proof.
  revert parsed. induction tokens as [|token tokens IH]; intros parsed; simpl; [by intros [= <-]|].
  intros (p & Hp & H)%rbind_ok. apply IH in H as [-> Hs]. unfold parse_listen_option in Hp. destruct parsed.
  repeat match type of Hp with context [if ?b then _ else _] => destruct b end; simplify_eq/=; (split; [done|tauto]).
Qed.

Lemma vhost_listen_parsed owner raw parsed :
  parse_vhost_listen owner raw = Ok parsed →
  sock_wf (pvl_addr parsed) ∧ (pvl_http3 parsed = true → pvl_ssl parsed = true).
Proof.
  unfold parse_vhost_listen. destruct (split_whitespace raw) as [|addr_token tokens]; [done|].
  intros H. passed H. simplify_eq. apply listen_options_addr in Hstep0 as [-> Hs]. simpl in *.
  split; [by eapply listen_addr_wf|]. by apply Hs.
Qed.

Definition bindings_ok (bindings : list (SocketAddr * VhostListenerBinding)) : Prop :=
  NoDup bindings.*1 ∧ Forall sock_wf bindings.*1.

Lemma collected_bindings_ok vhosts bindings :
  collect_vhost_bindings vhosts = Ok bindings →
  bindings_ok bindings ∧ (vhost_listens vhosts ≠ [] → bindings ≠ []).
Proof.
  unfold collect_vhost_bindings. generalize (vhost_listens vhosts) as listens. intros listens.
  match goal with |- context [try_fold ?f _ _] => set (add := f) end.
  assert (Hgo : ∀ b, bindings_ok b → try_fold add b listens = Ok bindings →
    bindings_ok bindings ∧ (b ≠ [] ∨ listens ≠ [] → bindings ≠ [])); cycle 1.
  { intros H. apply Hgo in H as [H1 H2]; [split; [done|]; tauto|]. split; constructor. }
  induction listens as [|[[[vi li] vhost] listen] listens IH]; intros b Hb; cbn [try_fold]; [intros [= <-]; tauto|].
  intros (b' & Hstep & H)%rbind_ok.
  assert (bindings_ok b' ∧ b' ≠ []) as [Hb' Hne]; [|destruct (IH _ Hb' H); tauto].
  clear IH H. cbn beta iota zeta delta [add] in Hstep. passed Hstep. apply vhost_listen_parsed in Hstep0 as [Hwf _].
  destruct (find_addr (pvl_addr r) b) as [binding|] eqn:Hf.
  - passed Hstep. simplify_eq. unfold bindings_ok. rewrite replace_addr_keys. split; [done|].
    intros Hnil. apply (f_equal length) in Hnil. unfold replace_addr in Hnil. rewrite length_map in Hnil.
    apply nil_length_inv in Hnil as ->. done.
  - simplify_eq. destruct Hb as [Hnd Hall]. unfold bindings_ok. rewrite fmap_app, NoDup_app, Forall_app. simpl.
    apply find_addr_None in Hf. split; [|by destruct b]. split_and!; [done| |apply NoDup_singleton|done|by constructor].
    intros a Ha Hin%list_elem_of_singleton. by subst.
Qed.

Lemma vhost_listener_compiled server base_dir allow pairs addr binding c :
  sock_wf addr → compile_vhost_listener to_lowercase server base_dir allow pairs (addr, binding) = Ok c →
  lst_id c = vhost_listener_id addr ∧ listen_addr_of c = addr ∧
  (lst_http3 c ≠ None → lst_tls_termination_enabled c = true).
Proof.
  unfold compile_vhost_listener. intros Hwf H. passed H. simplify_eq. split; [done|].
  apply server_fields_compiled in Hstep as [Ha _]. cbn [sfc_listen] in Ha. rewrite socket_round_trip in Ha by done.
  split; [unfold listen_addr_of; simpl; congruence|]. apply http3_compiled in Hstep0. simpl.
  destruct (vlb_http3 binding), r0; try done. tauto.
Qed.

Lemma vhost_listeners_distinct vhosts server base_dir allow pairs compiled :
  compile_vhost_listeners to_lowercase vhosts server base_dir allow pairs = Ok compiled →
  NoDup (map lst_id compiled) ∧ NoDup (map listen_addr_of compiled) ∧ (vhost_listens vhosts ≠ [] → compiled ≠ []) ∧
  ∀ l, l ∈ compiled → lst_http3 l ≠ None → lst_tls_termination_enabled l = true.
Proof.
  unfold compile_vhost_listeners. intros (bindings & Hb & Hc%collect_ok)%rbind_ok.
  apply collected_bindings_ok in Hb as [[Hnd Hwf] Hne].
  set (sorted := sort_by _ bindings) in Hc. assert (Hp : sorted ≡ₚ bindings) by apply sort_by_perm. clearbody sorted.
  rewrite <-Hp in Hnd, Hwf.
  assert (Hall : Forall2 (λ b c, sock_wf b.1 ∧ lst_id c = vhost_listener_id b.1 ∧ listen_addr_of c = b.1 ∧
    (lst_http3 c ≠ None → lst_tls_termination_enabled c = true)) sorted compiled).
  { clear -Hc Hwf. induction Hc as [|[a b] c bs cs Hc _ IH]; [constructor|]. apply Forall_cons in Hwf as [Ha Hwf].
    constructor; [|by apply IH]. split; [done|]. by eapply vhost_listener_compiled. }
  assert (Haddrs : map listen_addr_of compiled = sorted.*1).
  { clear -Hall. induction Hall as [|b c bs cs (_ & _ & Ha & _) _ IH]; [done|]. simpl. by rewrite Ha, IH. }
  assert (Hids : map lst_id compiled = map vhost_listener_id sorted.*1).
  { clear -Hall. induction Hall as [|b c bs cs (_ & Hi & _) _ IH]; [done|]. simpl. by rewrite Hi, IH. }
  split_and!.
  - rewrite Hids. apply (NoDup_fmap_2_strong vhost_listener_id); [|done].
    intros a b Ha Hb' Heq. rewrite Forall_forall in Hwf. apply socket_to_string_inj; [by apply Hwf..|].
    unfold vhost_listener_id in Heq. cbn [str_concat foldr] in Heq. rewrite !str_app_nil_r in Heq. by apply str_app_inj_l in Heq.
  - by rewrite Haddrs.
  - intros Hl ->. apply Forall2_nil_inv_r in Hall as ->. apply Permutation_nil in Hp. by apply Hne.
  - intros c Hin. apply list_elem_of_lookup in Hin as [i Hi].
    destruct (Forall2_lookup_r _ _ _ _ _ Hall Hi) as (l & _ & _ & _ & _ & H). done.
Qed.

(** ** The listeners of a configuration *)

Lemma any_listen_listens vhosts : any_vhost_listen vhosts = true → vhost_listens vhosts ≠ [].
Proof.
  unfold any_vhost_listen, vhost_listens. change (enumerate vhosts) with (enumerate_from 0 vhosts). generalize 0%nat. induction vhosts as [|v vhosts IH]; intros n; simpl; [done|].
  destruct (vhc_listen v) as [|l ls]; [|done]. simpl. apply IH.
Qed.

(** What a compilation that succeeds went through. *)
Lemma compile_success raw base_dir allow config :
  compile_with_base_and_options to_lowercase raw base_dir allow = Some (Ok config) →
  let pairs := collect_managed_identity_pairs (cnf_servers raw) base_dir in
  validate to_lowercase raw = Ok tt ∧
  ∃ names, compile_config_listeners to_lowercase raw base_dir allow pairs = Some (Ok (cfg_listeners config, names)).
Proof.
  unfold compile_with_base_and_options. set (pairs := collect_managed_identity_pairs _ _). simpl.
  destruct (validate to_lowercase raw) as [[]|]; cbn [and_then]; [|done].
  destruct (compile_runtime_settings _); cbn [and_then]; [|done].
  destruct (compile_cache_zones _ _); cbn [and_then]; [|done].
  destruct (compile_config_listeners _ _ _ _ _) as [[[ls names]|]|]; cbn [mbind option_bind rbind]; [|done..].
  intros [= H]. split; [done|]. exists names. unfold compile_hosts in H. passed H. by simplify_eq.
Qed.

Lemma validate_passed raw :
  validate to_lowercase raw = Ok tt →
  ∃ zones names all_names,
    validate_runtime (cnf_runtime raw) = Ok tt ∧
    validate_server (cnf_server raw) = Ok tt ∧
    validate_listeners (cnf_listeners raw) (cnf_server raw) (cnf_servers raw) = Ok tt ∧
    validate_cache_zones (cnf_cache_zones raw) = Ok zones ∧
    validate_upstreams (cnf_upstreams raw) = Ok names ∧
    validate_locations None (cnf_locations raw) names zones = Ok tt ∧
    is_ok (validate_virtual_hosts to_lowercase (cnf_servers raw) names all_names
      (any_vhost_listen (cnf_servers raw)) (svc_tls (cnf_server raw)) zones) = true.
Proof.
  unfold validate. intros H. passed H. exists r, r0, r1. split_and!; try done. by rewrite Hstep6.
Qed.

Lemma nil_length {A} (l : list A) : bool_decide (length l = 0%nat) = true ↔ l = [].
Proof. rewrite bool_decide_eq_true. by destruct l. Qed.

(** The three ways a configuration says where to listen. *)
Lemma listeners_validated raw :
  validate_listeners (cnf_listeners raw) (cnf_server raw) (cnf_servers raw) = Ok tt →
  (any_vhost_listen (cnf_servers raw) = true ∧ cnf_listeners raw = [] ∧
     validate_vhost_listener_bindings (cnf_servers raw) = Ok tt) ∨
  (any_vhost_listen (cnf_servers raw) = false ∧ cnf_listeners raw = [] ∧
     ∃ listen, svc_listen (cnf_server raw) = Some listen ∧ listen ≠ EmptyString) ∨
  (any_vhost_listen (cnf_servers raw) = false ∧ cnf_listeners raw ≠ [] ∧
     ∃ seen, try_fold validate_listener (mkListenerNames ∅ []) (enumerate (cnf_listeners raw)) = Ok seen).
Proof.
  unfold validate_listeners. destruct (any_vhost_listen _).
  - intros H. passed H. apply negb_false_iff, bool_decide_eq_true in Hcheck. by left.
  - case_bool_decide as Hnil.
    + intros H%reject_ok. right; left. destruct (svc_listen _) as [listen|]; [|done]. split_and!; [done..|].
      exists listen. split; [done|]. by intros ->.
    + intros H. passed H. right; right. split_and!; [done..|]. by exists r.
Qed.

Lemma compile_never_panics raw base_dir allow : compile_with_base_and_options to_lowercase raw base_dir allow ≠ None.
Proof.
  unfold compile_with_base_and_options. set (pairs := collect_managed_identity_pairs _ _). clearbody pairs.
  destruct (validate to_lowercase raw) as [[]|] eqn:Hv; cbn [and_then]; [|done].
  destruct (compile_runtime_settings _); cbn [and_then]; [|done].
  destruct (compile_cache_zones _ _); cbn [and_then]; [|done].
  apply validate_passed in Hv as (? & ? & ? & _ & _ & Hl & _). apply listeners_validated in Hl.
  unfold compile_config_listeners. destruct (any_vhost_listen _); [done|].
  destruct (bool_decide (length _ = _)) eqn:Hnil; [|done]. apply nil_length in Hnil.
  destruct Hl as [(? & _)|[(_ & _ & listen & Hs & _)|(_ & ? & _)]]; [done| |done].
  unfold compile_legacy_server. by rewrite Hs.
Qed.
End ListenerFacts.

(** C38.  Compiling a configuration never panics, and the listeners of a
    configuration that compiles are what the runtime takes them for: there is
    at least one, no two share an identifier (which is how worker groups,
    counters and reloads know them) and no two bind the same TCP address; HTTP/3
    is only served where TLS is terminated.  Where listeners are not made of
    servers[].listen, no two sockets of any kind are bound twice. *)
Theorem compiled_listeners_are_distinct {NET : IpNetApi} {RX : RegexApi} {API : ConfigApi NET RX} {HTTP : HttpApi}
    (to_lowercase : string → string) (raw : Config) (base_dir : string) (allow_missing : bool) :
  compile_with_base_and_options to_lowercase raw base_dir allow_missing ≠ None ∧
  ∀ config, compile_with_base_and_options to_lowercase raw base_dir allow_missing = Some (Ok config) →
    cfg_listeners config ≠ [] ∧
    NoDup (map lst_id (cfg_listeners config)) ∧
    NoDup (map listen_addr_of (cfg_listeners config)) ∧
    (∀ l, l ∈ cfg_listeners config → lst_http3 l ≠ None → lst_tls_termination_enabled l = true) ∧
    (any_vhost_listen (cnf_servers raw) = false → NoDup (mjoin (map sockets (cfg_listeners config)))).
Proof.
  split; [apply compile_never_panics|]. intros config H. apply compile_success in H as (Hv & names & Hc).
  apply validate_passed in Hv as (? & ? & ? & _ & _ & Hl & _). apply listeners_validated in Hl.
  unfold compile_config_listeners in Hc. destruct (any_vhost_listen _) eqn:Hany.
  - injection Hc as Hc. apply rmap_ok in Hc as (ls & Hc & [= -> ->]).
    apply vhost_listeners_distinct in Hc as (Hid & Ha & Hne & Hh).
    split_and!; [by apply Hne, any_listen_listens|done..].
  - destruct (bool_decide (length _ = _)) eqn:Hnil.
    + destruct (compile_legacy_server _ _ _ _ _ _) as [[compiled|]|] eqn:Hleg; simplify_eq/=.
      pose proof (legacy_compiled _ _ _ _ _ _ _ Hleg) as Hh. rewrite <-Hc. clear Hc. simpl.
      split_and!; [done|apply NoDup_singleton..| |].
      * by intros l ->%list_elem_of_singleton.
      * intros _. rewrite app_nil_r. unfold sockets, transport_bindings.
        destruct (lst_http3 _); simpl; [|apply NoDup_singleton]. repeat constructor; set_solver.
    + destruct Hl as [(? & _)|[(_ & He & _)|(_ & Hne & seen & Hs)]]; [done|rewrite He in Hnil; done|].
      injection Hc as Hc. apply rmap_ok in Hc as (ls & Hc & [= -> ->]).
      destruct (explicit_listeners_distinct _ _ _ _ _ _ _ _ Hs Hc) as (Hid & Hsock & Hlen & Hh).
      split_and!; [| done| |done|done].
      * intros ->. by destruct (cnf_listeners raw).
      * clear -Hsock. induction ls as [|l ls IH]; [constructor|]. cbn [map mjoin list_join] in *.
        apply NoDup_app in Hsock as (_ & Hoff & Hrest). constructor; [|by apply IH].
        intros (k & Hk & Hin)%list_elem_of_fmap. apply (Hoff (Tcp, listen_addr_of l)).
        -- unfold sockets, transport_bindings. simpl. by left.
        -- rewrite Hk. apply list_elem_of_join. exists (sockets k). split; [by left|]. by apply list_elem_of_fmap_2.
Qed.

(** Two explicit listeners, the second one with TLS and HTTP/3, and a virtual
    host with an upstream of its own; every file is there. *)
Module FileSample.
#[export] Instance files : ConfigApi RefIpNet.api RefRegex.api := {|
  parse_uri := parse_uri (ConfigApi := RefConfig.api);
  path_and_query_ok := path_and_query_ok (ConfigApi := RefConfig.api);
  parse_method := parse_method (ConfigApi := RefConfig.api);
  tls_server_name_ok := tls_server_name_ok (ConfigApi := RefConfig.api);
  parse_ipnet := parse_ipnet (ConfigApi := RefConfig.api);
  build_regex := build_regex (ConfigApi := RefConfig.api);
  path_is_file _ := true;
  display_error := display_error (ConfigApi := RefConfig.api);
|}.
Definition tls : ServerTlsConfig :=
  mkServerTlsConfig "tls/cert.pem" "tls/key.pem" None (Some [Tls13Config; Tls12Config]) None None
    (Some ["h2"; " http/1.1"]%string) None None None (Some true) (Some 256) (Some 2)
    (Some (mkServerClientAuthConfig AuthOptionalConfig "tls/ca.pem" (Some 2) None)).
Definition http3 (listen : option string) : Http3Config :=
  mkHttp3Config listen None (Some 3600) None None (Some 5) (Some true) (Some "quic.key"%string) None None.
Definition listener (name listen : string) (tls : option ServerTlsConfig) (h3 : option Http3Config) : ListenerConfig :=
  mkListenerConfig name listen None (Some true) None ["10.0.0.0/8"]%string (Some "x-real-ip"%string) None
    (Some 100) (Some 1048576) (Some 4096) (Some 10) None None (Some "$remote_addr $status"%string) tls h3.
Definition server (max_body : option Z) (tls : option ServerTlsConfig) : ServerConfig :=
  mkServerConfig None (Some "edge"%string) None None ["www.example.org"]%string [] None None None max_body None None None None None tls None.
Definition vhost (names : list string) (listen : list string) (h3 : option Http3Config) : VirtualHostConfig :=
  mkVirtualHostConfig listen names [Sample.plain "api" [mkUpstreamPeerConfig "http://10.1.0.1" 1 false None]]
    RouteSample.locations (Some (mkVirtualHostTlsConfig "a.pem" "a.key" None None None None)) h3.
Definition config (listeners : list ListenerConfig) (server : ServerConfig) (vhosts : list VirtualHostConfig) : Config :=
  mkConfig (mkRuntimeConfig 30 (Some 4) None) None listeners CacheSample.zones server Sample.upstreams
    [RouteSample.plain (PrefixConfig "/") (ReturnConfig 301 "https://example.com/" None)] vhosts.
Definition explicit : Config :=
  config [listener "HTTP" "0.0.0.0:80" None None; listener "https" "[::]:443" (Some tls) (Some (http3 None))]
    (server None None) [vhost ["*.example.com"]%string [] None].
Definition compiled (raw : Config) : option (result Error ConfigSnapshot) :=
  compile_with_base_and_options (API := files) (HTTP := RefHttp.api) to_ascii_lowercase raw "/etc/rginx" false.
End FileSample.

Definition compiles {A} (o : option (result Error A)) : bool :=
  match o with Some (Ok _) => true | _ => false end.

Lemma compiles_true {A} (o : option (result Error A)) : compiles o = true → ∃ config, o = Some (Ok config).
Proof. destruct o as [[config|]|]; [by exists config|done..]. Qed.

Lemma compiled_listeners_are_distinct_witness :
  ∃ config, FileSample.compiled FileSample.explicit = Some (Ok config) ∧
    NoDup (map lst_id (cfg_listeners config)) ∧ NoDup (mjoin (map sockets (cfg_listeners config))).
Proof.
  destruct (compiles_true (FileSample.compiled FileSample.explicit)) as (config & Hc); [by vm_compute|].
  exists config. split; [exact Hc|].
  destruct (proj2 (compiled_listeners_are_distinct (API := FileSample.files) (HTTP := RefHttp.api)
    to_ascii_lowercase FileSample.explicit "/etc/rginx" false) config Hc) as (_ & Hid & _ & _ & Hs).
  split; [exact Hid|apply Hs; by vm_compute].
Defined.

(** What servers[].listen allows: the HTTP/3 settings of two hosts name one
    UDP address, and both listeners are compiled to bind it. *)
Definition vhost_udp_clash : Config :=
  FileSample.config [] (FileSample.server (Some 65536) None)
    [FileSample.vhost ["a.example.com"]%string ["443 http3"]%string (Some (FileSample.http3 (Some "0.0.0.0:8443"%string)));
     FileSample.vhost ["b.example.com"]%string ["444 http3"]%string (Some (FileSample.http3 (Some "0.0.0.0:8443"%string)))].

Example vhost_http3_addresses_clash :
  match FileSample.compiled vhost_udp_clash with
  | Some (Ok config) =>
      bool_decide (mjoin (map sockets (cfg_listeners config)) =
        [(Tcp, mkSocketAddr (V4 [0; 0; 0; 0]) 443); (Udp, mkSocketAddr (V4 [0; 0; 0; 0]) 8443);
         (Tcp, mkSocketAddr (V4 [0; 0; 0; 0]) 444); (Udp, mkSocketAddr (V4 [0; 0; 0; 0]) 8443)])
  | _ => false
  end = true.
Proof. by vm_compute. Qed.

(** A certificate that is to be renewed 2^64 days ahead of time, almost: the
    seconds wrap around to less than a day. *)
Example renewal_wraps_around :
  acme_renew_before <$> compile_global_acme (Some (mkAcmeConfig "https://acme.example/dir" [] "acme" (Some 213503982334602) None)) "/etc" =
  Some (from_secs 61184).
Proof. by vm_compute. Qed.

(** ** Upstreams and hosts *)

Section HostFacts.
  Context {NET : IpNetApi} {RX : RegexApi} {API : ConfigApi NET RX} {HTTP : HttpApi}.
  Context (to_lowercase : string → string).
  Context (grpc_path : path_and_query_ok DEFAULT_GRPC_HEALTH_CHECK_PATH = true).
  Context (get_parses : parse_method GET = Some GET) (head_parses : parse_method HEAD = Some HEAD).

Definition vhost_config_typed (v : VirtualHostConfig) : Prop :=
  Forall upstream_config_typed (vhc_upstreams v) ∧ Forall location_typed (vhc_locations v).

(** Deserialized integers fit their types. *)
Definition config_typed (raw : Config) : Prop :=
  Forall upstream_config_typed (cnf_upstreams raw) ∧ Forall location_typed (cnf_locations raw) ∧
  Forall zone_config_typed (cnf_cache_zones raw) ∧ Forall vhost_config_typed (cnf_servers raw).

Definition vhost_scope (index : nat) : string := fmt["servers["; dec (Z.of_nat index); "]"].

(** No global upstream has the name of one that belongs to a virtual host. *)
Definition names_kept_apart (raw : Config) : Prop :=
  ∀ u index name, u ∈ cnf_upstreams raw → uc_name u ≠ scoped_upstream_name (vhost_scope index) name.

Definition hosts (c : ConfigSnapshot) : list VirtualHost := cfg_default_vhost c :: cfg_vhosts c.

(** What a route names is in the snapshot. *)
Definition route_resolved (c : ConfigSnapshot) (r : Route) : Prop :=
  (∀ t, route_action r = Proxy t → cfg_upstreams c !! tgt_upstream_name t = Some (tgt_upstream t)) ∧
  (∀ p, route_cache r = Some p → is_Some (cfg_cache_zones c !! pol_zone p) ∧ ∃ t, route_action r = Proxy t).

Definition named_and_typed (name : string) (u : Upstream) : Prop := up_name u = name ∧ upstream_typed u.

(** *** One virtual host *)

Lemma local_names (scope : string) (upstreams : list UpstreamConfig) (m : gmap string string) n :
  foldl (λ m upstream, <[uc_name upstream := scoped_upstream_name scope (uc_name upstream)]> m) m upstreams !! n =
  if decide (n ∈ uc_name <$> upstreams) then Some (scoped_upstream_name scope n) else m !! n.
Proof.
  revert m. induction upstreams as [|u upstreams IH]; intros m; cbn [foldl]; [by rewrite decide_False by set_solver|].
  rewrite IH. rewrite fmap_cons. case_decide; [by rewrite decide_True by set_solver|].
  destruct (decide (n = uc_name u)) as [->|].
  - rewrite lookup_insert_eq, decide_True by set_solver. done.
  - rewrite lookup_insert_ne, decide_False by set_solver. done.
Qed.

(** The routes of a host compile as soon as its upstreams do. *)
Lemma host_routes scope vhost label gnames lnames zones upstreams base_dir locals :
  vhost_config_typed vhost → validate_upstreams (vhc_upstreams vhost) = Ok lnames →
  validate_locations label (vhc_locations vhost) (gnames ∪ lnames) zones = Ok tt → dom upstreams = gnames →
  compile_scoped_upstreams (vhc_upstreams vhost) base_dir scope = Ok locals →
  dom locals = set_map (scoped_upstream_name scope) lnames ∧ map_Forall named_and_typed locals ∧
  let local := foldl (λ m upstream, <[uc_name upstream := scoped_upstream_name scope (uc_name upstream)]> m)
    (∅ : gmap string string) (vhc_upstreams vhost) in
  ∃ routes, compile_routes_with_local (vhc_locations vhost) (locals ∪ upstreams) local scope = Ok routes ∧
    Forall2 (route_compiled (locals ∪ upstreams) local zones) (vhc_locations vhost) routes ∧
    NoDup (route_id <$> routes) ∧ ∀ r, r ∈ routes → ∃ rest, route_id r = fmt[scope; "/routes["; rest].
Proof.
  intros [Hut Hlt] Hvu (exact & Hexact & _)%rbind_ok Hdom Hc.
  destruct (compiled_upstreams_are_typed _ _ _ _ _ grpc_path Hut Hvu Hc) as [Hdl Htyped].
  split_and!; [done..|]. set (local := foldl _ _ _). apply validate_upstreams_ok in Hvu as (_ & _ & Hnames).
  assert (Hvis : ∀ n, n ∈ gnames ∪ lnames → is_Some ((locals ∪ upstreams) !! default n (local !! n))).
  { intros n Hn. apply elem_of_dom. unfold local. rewrite dom_union, Hdl, Hdom, local_names, Hnames.
    destruct (decide (n ∈ uc_name <$> vhc_upstreams vhost)) as [Hin|Hin]; [|rewrite lookup_empty; cbn; set_solver].
    apply elem_of_union_l, elem_of_map. exists n. split; [done|set_solver]. }
  destruct (locations_compile get_parses head_parses _ _ _ _ (locals ∪ upstreams) local scope 0 _ _ Hlt Hexact Hvis)
    as (routes & Hr & Hall & Hids & Hnd & _ & _).
  exists routes. split_and!; [done..|]. intros q Hin. destruct (Hids q Hin) as (i & rest & _ & He).
  exists (dec (Z.of_nat i) +:+ "]|" +:+ rest). rewrite He. cbn. by rewrite !str_app_nil_r.
Qed.

Lemma host_validated idx vhost gnames tls_defaults req zones seen seen' :
  validate_virtual_host to_lowercase gnames req tls_defaults zones seen (idx, vhost) = Ok seen' →
  ∃ label lnames, validate_upstreams (vhc_upstreams vhost) = Ok lnames ∧
    validate_locations label (vhc_locations vhost) (gnames ∪ lnames) zones = Ok tt.
Proof. intros Hv. unfold validate_virtual_host in Hv. passed Hv. by eexists _, _. Qed.

Lemma host_compiled scope idx vhost gnames tls_defaults req zones seen seen' upstreams base_dir allow pairs c :
  validate_virtual_host to_lowercase gnames req tls_defaults zones seen (idx, vhost) = Ok seen' →
  vhost_config_typed vhost →
  compile_virtual_host scope vhost upstreams base_dir allow pairs = Ok c → dom upstreams = gnames →
  map_Forall named_and_typed (cvh_upstreams c) ∧
  (∀ n, n ∈ dom (cvh_upstreams c) → ∃ name, n = scoped_upstream_name scope name) ∧
  (∃ local, Forall2 (route_compiled (cvh_upstreams c ∪ upstreams) local zones) (vhc_locations vhost) (vhost_routes (cvh_vhost c))) ∧
  vhost_id (cvh_vhost c) = scope ∧ vhost_server_names (cvh_vhost c) = vhc_server_names vhost ∧
  NoDup (route_id <$> vhost_routes (cvh_vhost c)) ∧
  ∀ r, r ∈ vhost_routes (cvh_vhost c) → ∃ rest, route_id r = fmt[scope; "/routes["; rest].
Proof.
  intros (label & lnames & Hvu & Hvl)%host_validated Hty Hc Hdom.
  unfold compile_virtual_host in Hc. passed Hc. simplify_eq. cbn [cvh_upstreams cvh_vhost vhost_id vhost_server_names vhost_routes].
  destruct (host_routes _ _ _ _ _ _ _ _ _ Hty Hvu Hvl eq_refl Hstep) as (Hdl & Htyped & routes & Hr & Hall & Hnd & Hids).
  rewrite Hr in Hstep0. simplify_eq. split_and!; [done| |by eexists|done..].
  intros n Hn. rewrite Hdl in Hn. apply elem_of_map in Hn as (name & -> & _). by exists name.
Qed.

(** *** All hosts *)

Lemma vhost_scope_inj i j a b :
  scoped_upstream_name (vhost_scope i) a = scoped_upstream_name (vhost_scope j) b → i = j.
Proof.
  unfold scoped_upstream_name, vhost_scope. cbn [str_concat foldr]. rewrite !str_app_assoc. intros H%str_app_inj_l.
  apply (cut_inj "]") in H as [H _]; [|apply digits_no_char; [done|apply dec_digits]..].
  apply dec_inj in H; lia.
Qed.

Local Notation join_all := (foldl (λ upstreams compiled, cvh_upstreams compiled ∪ upstreams)).

Lemma join_all_typed (l : list CompiledVirtualHost) (m : gmap string Upstream) :
  map_Forall named_and_typed m → Forall (λ c, map_Forall named_and_typed (cvh_upstreams c)) l →
  map_Forall named_and_typed (join_all m l).
Proof. intros Hm Hl. revert m Hm. induction Hl as [|c l Hc _ IH]; intros m Hm; simpl; [done|]. apply IH. by apply map_Forall_union_2. Qed.

Lemma join_all_outside (l : list CompiledVirtualHost) (m : gmap string Upstream) n :
  Forall (λ c, cvh_upstreams c !! n = None) l → join_all m l !! n = m !! n.
Proof.
  intros Hl. revert m. induction Hl as [|c l Hc _ IH]; intros m; simpl; [done|]. rewrite IH.
  by rewrite lookup_union_r.
Qed.

(** The hosts' upstreams are named after their hosts, by their indices. *)
Definition scoped_from (n : nat) (l : list CompiledVirtualHost) : Prop :=
  ∀ i c, l !! i = Some c → ∀ k, k ∈ dom (cvh_upstreams c) → ∃ name, k = scoped_upstream_name (vhost_scope (n + i)) name.

Lemma scoped_cons n c l : scoped_from n (c :: l) → scoped_from (S n) l.
Proof. intros H i d Hi k Hk. destruct (H (S i) d Hi k Hk) as (name & ->). exists name. by rewrite Nat.add_succ_r. Qed.

Lemma join_all_local n (l : list CompiledVirtualHost) (m : gmap string Upstream) c k u :
  scoped_from n l → c ∈ l → cvh_upstreams c !! k = Some u → join_all m l !! k = Some u.
Proof.
  revert n m. induction l as [|d l IH]; intros n m Hs; [by intros ?%not_elem_of_nil|].
  intros [->|Hin]%elem_of_cons Hu; simpl; [|by eapply IH; [eapply scoped_cons| |]].
  rewrite join_all_outside; [by rewrite (lookup_union_Some_l _ _ _ _ Hu)|].
  apply Forall_forall. intros d' Hd. apply not_elem_of_dom. intros Hk.
  apply list_elem_of_lookup in Hd as [i Hi].
  destruct (Hs 0%nat d eq_refl k) as (a & Ha); [by apply elem_of_dom|].
  destruct (Hs (S i) d' Hi k Hk) as (b & Hb). rewrite Ha in Hb. apply vhost_scope_inj in Hb. lia.
Qed.

(** What a compiled host is, the visible upstreams being its own and [upstreams]. *)
Definition host_ok (zones : gset string) (upstreams : gmap string Upstream) (index : nat) (raw : VirtualHostConfig)
    (c : CompiledVirtualHost) : Prop :=
  map_Forall named_and_typed (cvh_upstreams c) ∧
  (∀ k, k ∈ dom (cvh_upstreams c) → ∃ name, k = scoped_upstream_name (vhost_scope index) name) ∧
  (∃ local, Forall2 (route_compiled (cvh_upstreams c ∪ upstreams) local zones) (vhc_locations raw) (vhost_routes (cvh_vhost c))) ∧
  vhost_server_names (cvh_vhost c) = vhc_server_names raw ∧
  NoDup (route_id <$> vhost_routes (cvh_vhost c)) ∧
  ∀ r, r ∈ vhost_routes (cvh_vhost c) → ∃ rest, route_id r = fmt[vhost_scope index; "/routes["; rest].

Lemma hosts_compiled n vhosts gnames req tls_defaults zones seen seen' upstreams base_dir allow pairs cs :
  try_fold (validate_virtual_host to_lowercase gnames req tls_defaults zones) seen (enumerate_from n vhosts) = Ok seen' →
  Forall vhost_config_typed vhosts → dom upstreams = gnames →
  collect (λ '(index, vhost_config), compile_virtual_host (vhost_scope index) vhost_config upstreams base_dir allow pairs)
    (enumerate_from n vhosts) = Ok cs →
  length cs = length vhosts ∧
  ∀ i raw c, vhosts !! i = Some raw → cs !! i = Some c → host_ok zones upstreams (n + i) raw c.
Proof.
  intros Hv Hty Hdom Hc. revert n seen cs Hv Hc. induction Hty as [|v vhosts Hvt Hty IH]; intros n seen cs; cbn [enumerate_from try_fold collect].
  { intros _ [= <-]. done. }
  intros (s & Hv & Hrest)%rbind_ok (c & Hc & H)%rbind_ok. passed H. simplify_eq.
  destruct (IH _ _ _ Hrest Hstep) as [Hlen Hall]. split; [simpl; by rewrite Hlen|].
  intros [|i] raw c' Hraw Hc'; [|rewrite Nat.add_succ_r; by apply (Hall i)]. simplify_eq/=.
  destruct (host_compiled _ _ _ _ _ _ _ _ _ _ _ _ _ _ Hv Hvt Hc eq_refl) as (H1 & H2 & H3 & _ & H5 & H6 & H7).
  rewrite Nat.add_0_r. by split_and!.
Qed.

(** *** Route identifiers *)

Definition host_key (i : nat) : string := match i with O => DEFAULT_VHOST_ID | S i => vhost_scope i end.

Lemma host_key_no_slash i : contains_char "/" (host_key i) = false.
Proof.
  destruct i as [|i]; [done|]. cbn [host_key]. unfold vhost_scope. cbn [str_concat foldr].
  rewrite !contains_char_app, (digits_no_char "/" (dec (Z.of_nat i))); [done|done|apply dec_digits].
Qed.

Lemma host_key_inj i j a b : fmt[host_key i; "/routes["; a] = fmt[host_key j; "/routes["; b] → i = j.
Proof.
  cbn [str_concat foldr]. intros H.
  apply (cut_inj "/") in H as [H _]; [|apply host_key_no_slash..].
  destruct i as [|i], j as [|j]; [done|by vm_compute in H..|]. cbn [host_key] in H.
  f_equal. apply (vhost_scope_inj i j "" ""). unfold scoped_upstream_name. by rewrite H.
Qed.

Lemma NoDup_tagged {A B} (f : A → list B) (tagged : nat → B → Prop) (l : list A) n :
  (∀ i j x, tagged i x → tagged j x → i = j) →
  (∀ i a, l !! i = Some a → NoDup (f a) ∧ ∀ x, x ∈ f a → tagged (n + i)%nat x) →
  NoDup (l ≫= f).
Proof.
  intros Hinj. revert n. induction l as [|a l IH]; intros n Hl; [constructor|]. cbn [mbind list_bind].
  apply NoDup_app. destruct (Hl 0%nat a eq_refl) as [Hnd Ha]. split_and!; [done| |].
  - intros x Hx (b & Hxb & [i Hi]%list_elem_of_lookup)%list_elem_of_bind.
    destruct (Hl (S i) b Hi) as [_ Hb]. pose proof (Hinj _ _ _ (Ha x Hx) (Hb x Hxb)). lia.
  - apply (IH (S n)). intros i b Hi. rewrite Nat.add_succ_comm. by apply (Hl (S i)).
Qed.

Definition host_route_ids (v : VirtualHost) : list string := route_id <$> vhost_routes v.

(** *** The snapshot *)

Lemma compile_hosts_success raw base_dir allow config :
  compile_with_base_and_options to_lowercase raw base_dir allow = Some (Ok config) →
  validate to_lowercase raw = Ok tt ∧
  ∃ pairs runtime acme zones listeners names,
    compile_cache_zones (cnf_cache_zones raw) base_dir = Ok zones ∧
    names = svc_server_names (cnf_server raw) ∧
    compile_hosts raw base_dir allow pairs runtime acme zones listeners names = Ok config.
Proof.
  unfold compile_with_base_and_options. set (pairs := collect_managed_identity_pairs _ _). simpl.
  destruct (validate to_lowercase raw) as [[]|]; cbn [and_then]; [|done].
  destruct (compile_runtime_settings _) as [runtime|]; cbn [and_then]; [|done].
  destruct (compile_cache_zones _ _) as [zones|]; cbn [and_then]; [|done].
  destruct (compile_config_listeners _ _ _ _ _) as [[[ls names]|]|] eqn:Hl; cbn [mbind option_bind rbind]; [|done..].
  intros [= H]. split; [done|]. eexists _, _, _, _, _, names. split_and!; [done| |exact H].
  unfold compile_config_listeners in Hl. destruct (any_vhost_listen _).
  { injection Hl as Hl. by apply rmap_ok in Hl as (? & _ & [= _ ->]). }
  destruct (bool_decide _); [|injection Hl as Hl; by apply rmap_ok in Hl as (? & _ & [= _ ->])].
  unfold compile_legacy_server in Hl. destruct (svc_listen _); [|done]. cbn [mbind option_bind fmap option_fmap option_map] in Hl.
  injection Hl as Hl. apply rmap_ok in Hl as (cs & Hcs & [= _ ->]). passed Hcs. by simplify_eq.
Qed.

Lemma default_host_compiled locations gnames zones upstreams routes :
  Forall location_typed locations → validate_locations None locations gnames zones = Ok tt → dom upstreams = gnames →
  compile_routes locations upstreams DEFAULT_VHOST_ID = Ok routes →
  Forall2 (route_compiled upstreams ∅ zones) locations routes ∧ NoDup (route_id <$> routes) ∧
  ∀ r, r ∈ routes → ∃ rest, route_id r = fmt[DEFAULT_VHOST_ID; "/routes["; rest].
Proof.
  intros Hty (exact & Hv & _)%rbind_ok Hdom Hc.
  assert (Hvis : ∀ n, n ∈ gnames → is_Some (upstreams !! default n ((∅ : gmap string string) !! n))).
  { intros n Hn. rewrite lookup_empty. apply elem_of_dom. by rewrite Hdom. }
  destruct (locations_compile get_parses head_parses _ _ _ _ upstreams ∅ DEFAULT_VHOST_ID 0 _ _ Hty Hv Hvis)
    as (routes' & Hr & Hall & Hids & Hnd & _ & _).
  unfold compile_routes, compile_routes_with_local, enumerate in Hc. rewrite Hc in Hr. simplify_eq.
  split_and!; [done..|]. intros r Hin. destruct (Hids r Hin) as (i & rest & _ & He).
  exists (dec (Z.of_nat i) +:+ "]|" +:+ rest). rewrite He. cbn. by rewrite !str_app_nil_r.
Qed.

(** The upstreams a host sees are those of the snapshot. *)
Lemma visible_in_snapshot raw (ups : gmap string Upstream) (cs : list CompiledVirtualHost) :
  names_kept_apart raw → dom ups = list_to_set (uc_name <$> cnf_upstreams raw) → scoped_from 0 cs →
  (∀ k u, ups !! k = Some u → join_all ups cs !! k = Some u) ∧
  ∀ c k u, c ∈ cs → (cvh_upstreams c ∪ ups) !! k = Some u → join_all ups cs !! k = Some u.
Proof.
  intros Hapart Hdom Hs.
  assert (Hglobal : ∀ k u, ups !! k = Some u → join_all ups cs !! k = Some u).
  { intros k u Hk. rewrite join_all_outside; [done|]. apply Forall_forall. intros c [i Hi]%list_elem_of_lookup.
    apply not_elem_of_dom. intros Hin. destruct (Hs i c Hi k Hin) as (name & ->).
    apply elem_of_dom_2 in Hk. rewrite Hdom in Hk.
    apply elem_of_list_to_set, list_elem_of_fmap in Hk as (x & Hx & Hxin). by eapply Hapart. }
  split; [done|]. intros c k u Hc [Hk|[_ Hk]]%lookup_union_Some_raw; [by eapply join_all_local|by apply Hglobal].
Qed.

Lemma route_compiled_resolved visible local zones l r c :
  route_compiled visible local zones l r →
  (∀ k u, visible !! k = Some u → cfg_upstreams c !! k = Some u) → zones = dom (cfg_cache_zones c) →
  route_resolved c r.
Proof.
  intros (_ & Ha & _ & _ & Hc & _) Hu ->. split.
  - intros t Ht. unfold action_compiled in Ha. rewrite Ht in Ha.
    destruct (lc_handler l); [|done]. destruct Ha as (_ & Ha & _). by apply Hu.
  - intros p Hp. destruct (Hc p Hp) as ((Hz & _) & t & Ht). split; [by apply elem_of_dom|by exists t].
Qed.

Lemma routes_resolved visible local zones locations v c :
  Forall2 (route_compiled visible local zones) locations (vhost_routes v) →
  (∀ k u, visible !! k = Some u → cfg_upstreams c !! k = Some u) → zones = dom (cfg_cache_zones c) →
  ∀ r, r ∈ vhost_routes v → route_resolved c r.
Proof.
  intros Hall Hu Hz r [i Hi]%list_elem_of_lookup.
  destruct (Forall2_lookup_r _ _ _ _ _ Hall Hi) as (l & _ & H). by eapply route_compiled_resolved.
Qed.
End HostFacts.

(** C39.  The snapshot a configuration compiles to is what the rest of the
    server takes it for: every cache zone and every upstream, global or of a
    virtual host, is there under its own name with positive sizes, weights,
    timeouts and thresholds; whatever host it belongs to, a route that forwards
    names an upstream of the snapshot and holds that same upstream, a route that
    caches stores into a zone of the snapshot and forwards; no two routes of any
    hosts share an identifier (which is how they are counted and rate limited);
    the hosts are those configured, in their order.  No global upstream may be
    named as those of virtual hosts are. *)
Theorem compiled_snapshot_is_typed {NET : IpNetApi} {RX : RegexApi} {API : ConfigApi NET RX} {HTTP : HttpApi}
    (to_lowercase : string → string) (raw : Config) (base_dir : string) (allow_missing : bool) (config : ConfigSnapshot)
    (grpc_path : path_and_query_ok DEFAULT_GRPC_HEALTH_CHECK_PATH = true)
    (get_parses : parse_method GET = Some GET) (head_parses : parse_method HEAD = Some HEAD)
    (Hty : config_typed raw) (Hapart : names_kept_apart raw)
    (Hc : compile_with_base_and_options to_lowercase raw base_dir allow_missing = Some (Ok config)) :
  map_Forall (λ name z, zone_name z = name ∧ zone_typed z) (cfg_cache_zones config) ∧
  map_Forall (λ name u, up_name u = name ∧ upstream_typed u) (cfg_upstreams config) ∧
  (∀ host r, host ∈ hosts config → r ∈ vhost_routes host → route_resolved config r) ∧
  NoDup (hosts config ≫= host_route_ids) ∧
  vhost_server_names <$> hosts config = svc_server_names (cnf_server raw) :: (vhc_server_names <$> cnf_servers raw).
Proof.
  destruct Hty as (Hut & Hlt & Hzt & Hvt).
  apply compile_hosts_success in Hc as (Hv & pairs & runtime & acme & zones & listeners & names & Hz & Hc).
  apply validate_passed in Hv as (znames & unames & snames & _ & _ & _ & Hvz & Hvu & Hvl & Hvv).
  destruct (validated_cache_zones_compile _ base_dir _ Hzt Hvz) as (zones' & Hz' & Hzd & Hzok).
  rewrite Hz in Hz'. injection Hz' as <-.
  apply is_ok_true in Hvv as (snames' & Hvv).
  destruct Hc as [-> Hc]. unfold compile_hosts in Hc. passed Hc. rename r into ups, r0 into routes, r1 into cs.
  destruct (compiled_upstreams_are_typed _ _ _ _ _ grpc_path Hut Hvu Hstep) as [Hdom Htyped].
  assert (Hups : dom ups = unames) by (rewrite Hdom; set_solver). clear Hdom.
  destruct (hosts_compiled to_lowercase grpc_path get_parses head_parses _ _ _ _ _ _ _ _ _ _ _ _ _ Hvv Hvt Hups Hstep1) as [Hlen Hall].
  assert (Hhost : ∀ i c, cs !! i = Some c → ∃ v, cnf_servers raw !! i = Some v ∧ host_ok znames ups i v c).
  { intros i c Hi. destruct (lookup_lt_is_Some_2 (cnf_servers raw) i) as [v Hvi].
    { rewrite <-Hlen. by eapply lookup_lt_Some. } exists v. split; [done|]. by apply (Hall i). }
  assert (Hscoped : scoped_from 0 cs).
  { intros i c Hi. destruct (Hhost i c Hi) as (v & _ & _ & Hk & _). exact Hk. }
  pose proof Hvu as (_ & _ & Hnames)%validate_upstreams_ok.
  destruct (visible_in_snapshot raw ups cs Hapart ltac:(congruence) Hscoped) as [Hglobal Hlocal].
  destruct (default_host_compiled get_parses head_parses _ _ _ _ _ Hlt Hvl Hups Hstep0) as (Hroutes & Hnd & Hids).
  injection Hc as <-. cbn [cfg_cache_zones cfg_upstreams hosts cfg_default_vhost cfg_vhosts]. split_and!.
  - exact Hzok.
  - apply join_all_typed; [exact Htyped|]. apply Forall_forall. intros c [i Hi]%list_elem_of_lookup.
    destruct (Hhost i c Hi) as (v & _ & Hk & _). exact Hk.
  - intros host r [->|Hin]%elem_of_cons Hr.
    + by apply (routes_resolved ups ∅ znames (cnf_locations raw) (mkVirtualHost "" [] routes None)); [exact Hroutes|exact Hglobal| |exact Hr].
    + apply list_elem_of_fmap in Hin as (c & -> & Hin). pose proof Hin as [i Hi]%list_elem_of_lookup.
      destruct (Hhost i c Hi) as (v & _ & _ & _ & (local & Hl) & _).
      eapply routes_resolved; [exact Hl| |done|exact Hr]. intros k u. by apply Hlocal.
  - apply (NoDup_tagged _ (λ i x, ∃ rest, x = fmt[host_key i; "/routes["; rest]) _ 0).
    { intros i j x (a & ->) (b & H). by eapply host_key_inj. }
    intros [|i] v Hv; simplify_eq/=.
    + split; [exact Hnd|]. intros x (r & -> & Hr)%list_elem_of_fmap. by apply Hids.
    + apply list_lookup_fmap_Some in Hv as (c & -> & Hi). destruct (Hhost i c Hi) as (v & _ & _ & _ & _ & _ & Hn & Hi').
      split; [exact Hn|]. intros x (r & -> & Hr)%list_elem_of_fmap. by apply Hi'.
  - simpl. f_equal. change (vhost_server_names <$> (cvh_vhost <$> cs) = vhc_server_names <$> cnf_servers raw). apply list_eq. intros i. rewrite !list_lookup_fmap.
    destruct (cs !! i) as [c|] eqn:Hi; simpl.
    + destruct (Hhost i c Hi) as (v & -> & _ & _ & _ & Hn & _). simpl. by rewrite Hn.
    + apply lookup_ge_None in Hi. rewrite Hlen in Hi. by apply lookup_ge_None in Hi as ->.
Qed.

Lemma sample_config_typed : config_typed FileSample.explicit.
Proof.
  split_and!; [exact sample_upstreams_typed| |exact sample_zones_typed|].
  - forall_list. split_and!; forall_list; by intros ? [=].
  - forall_list. split; [|exact sample_locations_typed]. forall_list. split_and!; forall_list; try by intros ? [=].
    split; [by cbn|by intros ? [=]].
Qed.

Lemma sample_names_kept_apart : names_kept_apart FileSample.explicit.
Proof. intros u i name [->|[->|[]%elem_of_nil]%elem_of_cons]%elem_of_cons; discriminate. Qed.

Lemma compiled_snapshot_is_typed_witness :
  ∃ config, FileSample.compiled FileSample.explicit = Some (Ok config) ∧
    map_Forall (λ name u, up_name u = name ∧ upstream_typed (API := FileSample.files) u) (cfg_upstreams config) ∧
    NoDup (hosts config ≫= host_route_ids).
Proof.
  destruct (compiles_true (FileSample.compiled FileSample.explicit)) as (config & Hc); [by vm_compute|].
  exists config. split; [exact Hc|].
  destruct (compiled_snapshot_is_typed (API := FileSample.files) (HTTP := RefHttp.api) to_ascii_lowercase
    FileSample.explicit "/etc/rginx" false config eq_refl eq_refl eq_refl sample_config_typed sample_names_kept_apart Hc)
    as (_ & Hu & _ & Hids & _).
  by split.
Defined.

(** A global upstream with the name of a virtual host's: its route holds the one
    upstream, the snapshot has the other under its name. *)
Definition shadowing : Config :=
  let scoped := "servers[0]::api"%string in
  let global := Sample.plain scoped [mkUpstreamPeerConfig "http://10.9.9.9" 1 false None] in
  let c := FileSample.explicit in
  mkConfig (cnf_runtime c) None (cnf_listeners c) (cnf_cache_zones c) (cnf_server c) (global :: cnf_upstreams c)
    [RouteSample.plain (PrefixConfig "/") (ProxyConfig scoped None None [])] (cnf_servers c).

Example global_upstream_is_shadowed :
  match FileSample.compiled shadowing with
  | Some (Ok config) =>
      match vhost_routes (cfg_default_vhost config) with
      | [r] =>
          match route_action r with
          | Proxy t => Some (tgt_upstream_name t, map peer_url (up_peers (tgt_upstream t)),
              map peer_url ∘ up_peers <$> cfg_upstreams config !! tgt_upstream_name t)
          | _ => None
          end
      | _ => None
      end
  | _ => None
  end = Some ("servers[0]::api", ["http://10.9.9.9"], Some ["http://10.1.0.1"])%string.
Proof. by vm_compute. Qed.

(** ** What compilation is left to refuse *)

Definition succeeds {E A} (m : result E A) : Prop := ∃ a, m = Ok a.

Lemma succeeds_ok {E A} (a : A) : succeeds (Ok (E := E) a) ↔ True.
Proof. split; [done|]. by exists a. Qed.

Lemma succeeds_bind {E A B} (m : result E A) (k : A → result E B) (P : Prop) :
  (∀ a, m = Ok a → succeeds (k a) ↔ P) → succeeds (rbind m k) ↔ succeeds m ∧ P.
Proof.
  intros Hk. unfold succeeds at 1 2. setoid_rewrite rbind_ok. split.
  - intros (b & a & Ha & Hb). split; [by exists a|]. apply (Hk a Ha). by exists b.
  - intros ((a & Ha) & HP). apply (Hk a Ha) in HP as (b & Hb). by exists b, a.
Qed.

Lemma succeeds_collect {E A B} (f : A → result E B) l : succeeds (collect f l) ↔ Forall (λ x, succeeds (f x)) l.
Proof.
  split; [|apply collect_total]. intros (ys & Hys%collect_ok).
  induction Hys as [|x y xs ys Hxy _ IH]; [constructor|]. constructor; [by exists y|done].
Qed.

Lemma succeeds_transpose {E A B} (f : A → result E B) o : succeeds (transpose f o) ↔ ∀ a, o = Some a → succeeds (f a).
Proof.
  unfold succeeds. destruct o as [a|]; simpl; [|split; [done|by eexists]]. split.
  - intros (r & H) x [= <-]. destruct (f a) as [b|]; [by exists b|done].
  - intros H. destruct (H a eq_refl) as (b & ->). by eexists.
Qed.

Lemma succeeds_ok_or {E A} (o : option A) (e : E) : succeeds (ok_or o e) ↔ is_Some o.
Proof. unfold succeeds. setoid_rewrite ok_or_ok. done. Qed.

Lemma succeeds_reject {E} b (e : E) : succeeds (reject b e) ↔ b = false.
Proof. destruct b; split; try done; [by intros []|by exists tt]. Qed.

Lemma succeeds_rmap {E A B} (f : A → B) (m : result E A) : succeeds (rmap f m) ↔ succeeds m.
Proof. unfold succeeds. destruct m; simpl; naive_solver. Qed.

(** A chain of steps succeeds when each of them does. *)
Ltac succeeds_rec :=
  lazymatch goal with
  | |- succeeds (rbind _ _) ↔ _ => eapply succeeds_bind; intros ? _; succeeds_rec
  | |- succeeds (Ok _) ↔ _ => apply succeeds_ok
  | |- _ => reflexivity
  end.
Ltac succeeds_steps := cbv zeta; etransitivity; [succeeds_rec|].

Section Deployment.
  Context {NET : IpNetApi} {RX : RegexApi} {API : ConfigApi NET RX} {HTTP : HttpApi}.
  Context (to_lowercase : string → string).
  Context (rginx_header : is_Some (hv_from_str "rginx")).

(** *** TLS files *)

Definition identity_deployable (base_dir : string) (missing : bool) (cert key : string)
    (additional : option (list ServerCertificateBundleConfig)) (staple : option string) : Prop :=
  (missing = false → Forall (file_there base_dir) [Some cert; Some key; staple]) ∧
  Forall (λ b, Forall (file_there base_dir) [Some (cbc_cert_path b); Some (cbc_key_path b); cbc_ocsp_staple_path b])
    (default [] additional).

Definition tls_deployable (base_dir : string) (missing : bool) (t : ServerTlsConfig) : Prop :=
  identity_deployable base_dir missing (stc_cert_path t) (stc_key_path t) (stc_additional_certificates t) (stc_ocsp_staple_path t) ∧
  ∀ a, stc_client_auth t = Some a → Forall (file_there base_dir) [Some (cac_ca_cert_path a); cac_crl_path a].

Lemma identity_file_total base_dir path missing label what :
  succeeds (identity_file base_dir path missing label what) ↔ (missing = false → file_there base_dir (Some path)).
Proof.
  unfold identity_file. succeeds_steps. rewrite succeeds_reject.
  unfold file_there. destruct missing; simpl; [naive_solver|]. rewrite negb_false_iff. naive_solver.
Qed.

Lemma staple_total base_dir path label missing :
  succeeds (compile_ocsp_staple_path base_dir path label missing) ↔ (missing = false → file_there base_dir path).
Proof.
  unfold compile_ocsp_staple_path. rewrite succeeds_transpose. setoid_rewrite identity_file_total.
  unfold file_there. naive_solver.
Qed.

Lemma bundle_total base_dir b label :
  succeeds (compile_certificate_bundle base_dir b label) ↔
  Forall (file_there base_dir) [Some (cbc_cert_path b); Some (cbc_key_path b); cbc_ocsp_staple_path b].
Proof.
  unfold compile_certificate_bundle. succeeds_steps. rewrite !identity_file_total, staple_total, !Forall_cons, Forall_nil.
  naive_solver.
Qed.

Lemma material_total base_dir cert key additional staple ocsp label missing :
  succeeds (compile_certificate_material base_dir cert key additional staple ocsp label missing) ↔
  identity_deployable base_dir missing cert key additional staple.
Proof.
  unfold compile_certificate_material, identity_deployable. succeeds_steps.
  rewrite !identity_file_total, staple_total, succeeds_collect, !Forall_cons, Forall_nil.
  setoid_rewrite bundle_total. naive_solver.
Qed.

Lemma client_auth_total base_dir a :
  succeeds (compile_client_auth_policy base_dir a) ↔ Forall (file_there base_dir) [Some (cac_ca_cert_path a); cac_crl_path a].
Proof.
  unfold compile_client_auth_policy. succeeds_steps.
  rewrite succeeds_transpose, identity_file_total, !Forall_cons, Forall_nil. setoid_rewrite identity_file_total.
  unfold file_there. naive_solver.
Qed.

(** *** Numbers *)

Lemma usize_total what o : opt_u64 o → succeeds (compile_usize what o).
Proof.
  intros Ho. apply succeeds_transpose. intros v Hv. apply succeeds_ok_or. specialize (Ho v Hv).
  unfold usize_try_from. unfold is_u64, u64_max in *. exists v. by rewrite (proj2 (Z.leb_le _ _)) by lia.
Qed.

Definition tls_numbers (t : option ServerTlsConfig) : list (option Z) :=
  match t with Some t => [stc_session_cache_size t; stc_session_ticket_count t] | None => [] end.

Definition http3_numbers (h : option Http3Config) : list (option Z) :=
  match h with Some h => [h3c_max_concurrent_streams h; h3c_stream_buffer_size_bytes h] | None => [] end.

Lemma server_tls_total tls base_dir missing :
  Forall opt_u64 (tls_numbers tls) →
  succeeds (compile_server_tls tls base_dir missing) ↔ ∀ t, tls = Some t → tls_deployable base_dir missing t.
Proof.
  intros Hn. unfold compile_server_tls, tls_deployable. destruct tls as [t|]; [|rewrite succeeds_ok; naive_solver].
  cbn [tls_numbers] in Hn. rewrite !Forall_cons in Hn. destruct Hn as (Hs & Ht & _).
  succeeds_steps. rewrite material_total, succeeds_transpose. setoid_rewrite client_auth_total.
  pose proof (usize_total "server TLS session_cache_size" _ Hs). pose proof (usize_total "server TLS session_ticket_count" _ Ht).
  unfold compile_session_cache_size, compile_session_ticket_count. split; [intros (? & ? & _) ? [= <-]; done|].
  intros H'. destruct (H' t eq_refl). done.
Qed.

(** *** The fields of a server *)

Definition fields_valid (c : ServerFieldConfig) : Prop :=
  (∀ h, sfc_server_header c = Some h → is_Some (hv_from_str (trim h))) ∧
  Forall (λ v, ∃ n, normalize_trusted_proxy v = Some n ∧ is_Some (parse_ipnet n)) (sfc_trusted_proxies c) ∧
  (∀ h, sfc_client_ip_header c = Some h → is_Some (header_name_parse (trim h))) ∧
  Forall opt_u64 [sfc_max_headers c; sfc_max_request_body_bytes c; sfc_max_connections c] ∧
  Forall opt_u64 (tls_numbers (sfc_tls c)).

Definition log_format_ok (format : option string) : Prop := ∀ f, format = Some f → succeeds (parse_access_log_format f).

Lemma server_fields_total c base_dir :
  fields_valid c →
  succeeds (compile_server_fields to_lowercase c base_dir) ↔
  is_Some (socket_from_str (sfc_listen c)) ∧ log_format_ok (sfc_access_log_format c) ∧
  ∀ t, sfc_tls c = Some t → tls_deployable base_dir (sfc_allow_missing_tls_identity c) t.
Proof.
  intros (Hh & Hp & Hc & Hn & Ht). rewrite !Forall_cons in Hn. destruct Hn as (Hn1 & Hn2 & Hn3 & _).
  unfold compile_server_fields. succeeds_steps. rewrite server_tls_total by done.
  unfold compile_access_log_format. rewrite succeeds_transpose, succeeds_ok_or. fold (log_format_ok (sfc_access_log_format c)).
  split; [tauto|]. intros (H1 & H2 & H3). split_and!; [done|done| | | |by apply usize_total..|done|done].
  - unfold compile_server_header. apply succeeds_ok_or. destruct (sfc_server_header c) as [h|]; [by apply Hh|exact rginx_header].
  - apply succeeds_collect. eapply Forall_impl; [exact Hp|]. intros v (n & Hv & Hv'). rewrite Hv. by apply succeeds_ok_or.
  - apply succeeds_transpose. intros h Hh'. by apply succeeds_ok_or, Hc.
Qed.

Definition http3_address_ok (h : Http3Config) : Prop := ∀ listen, h3c_listen h = Some listen → is_Some (socket_from_str listen).

Lemma http3_total h tcp base_dir tls_enabled :
  Forall opt_u64 (http3_numbers h) → (h ≠ None → tls_enabled = true) →
  succeeds (compile_http3 h tcp tls_enabled base_dir) ↔ ∀ c, h = Some c → http3_address_ok c.
Proof.
  intros Hn Htls. destruct h as [c|]; [|unfold compile_http3; rewrite succeeds_ok; naive_solver].
  rewrite Htls by done. unfold compile_http3. cbn [negb reject rbind]. cbn [http3_numbers] in Hn. rewrite !Forall_cons in Hn.
  destruct Hn as (Hn1 & Hn2 & _).
  assert (∀ d o what, is_u64 d → opt_u64 o → succeeds (compile_http3_usize (default d o) what)) as Hu.
  { intros d o what Hd Ho. apply succeeds_ok_or. assert (is_u64 (default d o)) as Hv by (destruct o; [by apply Ho|done]).
    unfold usize_try_from. unfold is_u64, u64_max in *. eexists. by rewrite (proj2 (Z.leb_le _ _)) by lia. }
  etransitivity; [succeeds_rec|]. split.
  - intros [H _] c' [= <-] listen Hl. rewrite Hl in H. by apply succeeds_ok_or in H.
  - intros H. split_and!; [|by apply Hu..|done].
    destruct (h3c_listen c) as [listen|] eqn:Hl; [by apply succeeds_ok_or, (H c eq_refl)|by eexists].
Qed.

(** *** Explicit listeners and the server block *)

Lemma like_validated l :
  validate_listener_like l = Ok tt →
  (∀ h, llr_server_header l = Some h → is_Some (hv_from_str (trim h))) ∧
  Forall (λ v, ∃ n, normalize_trusted_proxy v = Some n ∧ is_Some (parse_ipnet n)) (llr_trusted_proxies l) ∧
  (∀ h, llr_client_ip_header l = Some h → is_Some (header_name_parse (trim h))) ∧
  (llr_http3 l ≠ None → llr_tls l ≠ None).
Proof.
  intros H. unfold validate_listener_like in H. passed H. split_and!.
  - intros h Hh. rewrite Hh in Hstep. unfold validate_server_header in Hstep. passed Hstep.
    destruct (hv_from_str (trim h)); [by eexists|done].
  - apply for_each_ok in Hstep0. eapply Forall_impl; [exact Hstep0|]. intros v Hv.
    apply rbind_ok in Hv as (n & Hn%ok_or_ok & Hv). apply rbind_ok in Hv as (net & Hnet%ok_or_ok & _).
    exists n. split; [done|by eexists].
  - intros h Hh. rewrite Hh in Hstep1. passed Hstep1. destruct (header_name_parse (trim h)); [by eexists|done].
  - intros Hh Ht. rewrite Ht in Hstep3. by destruct (llr_http3 l).
Qed.

Definition listener_numbers (l : ListenerConfig) : list (option Z) :=
  [lic_max_headers l; lic_max_request_body_bytes l; lic_max_connections l] ++ tls_numbers (lic_tls l) ++ http3_numbers (lic_http3 l).

Definition server_numbers (s : ServerConfig) : list (option Z) :=
  [svc_max_headers s; svc_max_request_body_bytes s; svc_max_connections s] ++ tls_numbers (svc_tls s) ++ http3_numbers (svc_http3 s).

Definition files_deployable (base_dir : string) (allow : bool) (pairs : list (string * string)) (tls : option ServerTlsConfig) : Prop :=
  ∀ t, tls = Some t → tls_deployable base_dir (allow_missing allow tls base_dir pairs) t.

Definition listener_deployable (base_dir : string) (allow : bool) (pairs : list (string * string)) (l : ListenerConfig) : Prop :=
  log_format_ok (lic_access_log_format l) ∧ files_deployable base_dir allow pairs (lic_tls l).

Lemma listener_total default_header base_dir allow pairs owner l :
  validate_listener_like (listener_like owner l) = Ok tt → is_Some (configured_sockets l) →
  (∀ h, default_header = Some h → is_Some (hv_from_str (trim h))) → Forall opt_u64 (listener_numbers l) →
  succeeds (compile_listener to_lowercase default_header base_dir allow pairs l) ↔ listener_deployable base_dir allow pairs l.
Proof.
  intros (Hh & Hp & Hc & Htls)%like_validated [sockets Hs] Hd Hn. simpl in *.
  unfold listener_numbers in Hn. rewrite !Forall_app in Hn. destruct Hn as (Hn1 & Hn2 & Hn3).
  unfold configured_sockets in Hs. apply bind_Some in Hs as (tcp & Htcp & Hs).
  assert (∀ c, lic_http3 l = Some c → http3_address_ok c) as Haddr.
  { intros c Hc' listen Hl. rewrite Hc' in Hs. apply bind_Some in Hs as (udp & Hudp & _). rewrite Hl in Hudp. by eexists. }
  unfold compile_listener. rewrite (succeeds_bind _ _ True).
  - rewrite server_fields_total.
    + simpl. unfold listener_deployable. split; [tauto|]. intros [H1 H2]. split_and!; [by eexists|done..].
    + split_and!; try done. simpl. intros h. destruct (lic_server_header l); [|apply Hd]. intros [= <-]. by apply Hh.
  - intros fields Hf. apply server_fields_compiled in Hf as [_ Ht]. cbv zeta. split; [done|intros _].
    apply (succeeds_bind _ _ True); [intros; apply succeeds_ok|]. split; [|done]. apply http3_total; [done| |done].
    intros Hne. rewrite Ht. simpl. specialize (Htls Hne). by destruct (lic_tls l).
Qed.

Definition legacy_deployable (base_dir : string) (allow : bool) (pairs : list (string * string)) (s : ServerConfig) : Prop :=
  (∀ listen, svc_listen s = Some listen → is_Some (socket_from_str listen)) ∧
  log_format_ok (svc_access_log_format s) ∧ files_deployable base_dir allow pairs (svc_tls s) ∧
  ∀ h, svc_http3 s = Some h → http3_address_ok h.

Lemma legacy_total base_dir vhost_tls allow pairs s listen :
  validate_server s = Ok tt → svc_listen s = Some listen → Forall opt_u64 (server_numbers s) →
  (∃ c, compile_legacy_server to_lowercase s base_dir vhost_tls allow pairs = Some (Ok c)) ↔
  legacy_deployable base_dir allow pairs s.
Proof.
  intros (Hh & Hp & Hc & Htls)%like_validated Hs Hn. simpl in *.
  unfold server_numbers in Hn. rewrite !Forall_app in Hn. destruct Hn as (Hn1 & Hn2 & Hn3).
  unfold compile_legacy_server. rewrite Hs. cbn [mbind option_bind].
  match goal with |- (∃ c, Some ?m = Some (Ok c)) ↔ _ => transitivity (succeeds m) end; [by split; intros (c & H); exists c; congruence|].
  rewrite (succeeds_bind _ _ (∀ h, svc_http3 s = Some h → http3_address_ok h)).
  - rewrite server_fields_total by by split_and!. simpl. unfold legacy_deployable. rewrite Hs. split.
    + intros ((H1 & H2 & H3) & H4). split_and!; [by intros ? [= <-]|done..].
    + intros (H1 & H2 & H3 & H4). split_and!; [by apply H1|done..].
  - intros fields Hf. apply server_fields_compiled in Hf as [_ Ht]. cbv zeta.
    rewrite (succeeds_bind _ _ True) by (intros; apply succeeds_ok). rewrite http3_total; [tauto|done|].
    intros Hne. rewrite Ht. simpl. specialize (Htls Hne). by destruct (svc_tls s).
Qed.

(** *** Listen directives *)

Definition binding_key (b : VhostListenerBinding) : bool * option Http3Config * bool :=
  (vlb_ssl b, vlb_http3 b, vlb_proxy_protocol b).
Definition erase (m : list (SocketAddr * VhostListenerBinding)) : list (SocketAddr * (bool * option Http3Config * bool)) :=
  map (λ x, (x.1, binding_key x.2)) m.

Lemma find_erased addr m : find_addr addr (erase m) = binding_key <$> find_addr addr m.
Proof.
  unfold find_addr. induction m as [|[a b] m IH]; [done|]. cbn [erase map List.find fst snd].
  case_bool_decide; [done|exact IH].
Qed.

Lemma erase_replace addr b b' m :
  NoDup m.*1 → find_addr addr m = Some b → binding_key b' = binding_key b → erase (replace_addr addr b' m) = erase m.
Proof.
  intros Hnd Hf Hk. induction m as [|[a x] m IH]; [done|]. cbn [fmap list_fmap map fst] in Hnd. apply NoDup_cons in Hnd as [Ha Hnd].
  unfold find_addr in Hf. cbn [List.find fst snd] in Hf. cbn [replace_addr map erase fst snd]. case_bool_decide as Heq.
  - cbn in Hf. injection Hf as ->. subst a. rewrite decide_True by done. cbn [fst snd]. rewrite Hk. f_equal.
    clear IH Hnd. induction m as [|[a' x'] m IH]; [done|]. cbn [map fst snd]. rewrite decide_False.
    + cbn [fst snd]. f_equal. apply IH. set_solver.
    + intros ->. apply Ha. cbn. by left.
  - rewrite decide_False by done. f_equal. by apply IH.
Qed.

(** A listen directive that was read: its address, and what it asks for. *)
Definition directive (listens : list (nat * nat * VirtualHostConfig * string)) (addr : SocketAddr) (ssl : bool)
    (http3 : option Http3Config) : Prop :=
  ∃ vi li vhost listen parsed, (vi, li, vhost, listen) ∈ listens ∧ parse_vhost_listen (listen_owner vi li) listen = Ok parsed ∧
    pvl_addr parsed = addr ∧ pvl_ssl parsed = ssl ∧ listen_http3 parsed vhost = http3.

Definition bindings_asked (listens : list (nat * nat * VirtualHostConfig * string)) (m : list (SocketAddr * VhostListenerBinding)) : Prop :=
  ∀ addr ssl http3, directive listens addr ssl http3 ↔ ∃ proxy, (addr, (ssl, http3, proxy)) ∈ erase m.

Lemma directive_snoc listens vi li vhost listen parsed addr ssl http3 :
  parse_vhost_listen (listen_owner vi li) listen = Ok parsed →
  directive (listens ++ [(vi, li, vhost, listen)]) addr ssl http3 ↔
  directive listens addr ssl http3 ∨ pvl_addr parsed = addr ∧ pvl_ssl parsed = ssl ∧ listen_http3 parsed vhost = http3.
Proof.
  intros Hp. unfold directive. split.
  - intros (a & b & v & l & p & [Hin|Hin%list_elem_of_singleton]%elem_of_app & Hpp & H).
    + left. by exists a, b, v, l, p.
    + injection Hin as -> -> -> ->. rewrite Hp in Hpp. injection Hpp as <-. by right.
  - intros [(a & b & v & l & p & Hin & H)|H].
    + exists a, b, v, l, p. split; [apply elem_of_app; by left|done].
    + exists vi, li, vhost, listen, parsed. split; [apply elem_of_app; right; by left|done].
Qed.

Lemma merge_ok addr b ssl proxy http3 :
  validate_vhost_listener_merge addr b ssl proxy http3 = Ok tt ↔ binding_key b = (ssl, http3, proxy).
Proof.
  unfold validate_vhost_listener_merge, binding_key. rewrite !rbind_unit, !reject_ok, !negb_false_iff, bool_decide_eq_true.
  rewrite !Bool.eqb_true_iff. split; [by intros (-> & -> & ->)|by intros [= -> -> ->]].
Qed.

Lemma find_addr_In {A} addr (m : list (SocketAddr * A)) a : find_addr addr m = Some a → (addr, a) ∈ m.
Proof.
  unfold find_addr. destruct (List.find _ m) as [[k x]|] eqn:Hf; [|done]. intros [= <-].
  apply find_some in Hf as [Hin Hk]. apply bool_decide_eq_true in Hk. simpl in Hk. subst. by apply list_elem_of_In.
Qed.

(** A directive that names an address again as it was named before. *)
Lemma asked_again listens vi li vhost listen parsed m b :
  parse_vhost_listen (listen_owner vi li) listen = Ok parsed → bindings_asked listens m →
  find_addr (pvl_addr parsed) m = Some b →
  binding_key b = (pvl_ssl parsed, listen_http3 parsed vhost, pvl_proxy_protocol parsed) →
  bindings_asked (listens ++ [(vi, li, vhost, listen)]) m.
Proof.
  intros Hp Hm Hf%find_addr_In Hk addr ssl http3. rewrite (directive_snoc _ _ _ _ _ _ _ _ _ Hp), (Hm addr ssl http3).
  split; [|by left]. intros [H|(<- & <- & <-)]; [done|]. exists (pvl_proxy_protocol parsed). rewrite <-Hk.
  by apply (list_elem_of_fmap_2 (λ x : SocketAddr * VhostListenerBinding, (x.1, binding_key x.2)) _ _ Hf).
Qed.

(** One that names an address for the first time. *)
Lemma asked_first listens vi li vhost listen parsed m name :
  parse_vhost_listen (listen_owner vi li) listen = Ok parsed → bindings_asked listens m →
  bindings_asked (listens ++ [(vi, li, vhost, listen)])
    (m ++ [(pvl_addr parsed, mkVhostListenerBinding (pvl_ssl parsed) (listen_http3 parsed vhost) (pvl_proxy_protocol parsed) name)]).
Proof.
  intros Hp Hm addr ssl http3. rewrite (directive_snoc _ _ _ _ _ _ _ _ _ Hp), (Hm addr ssl http3).
  unfold erase. rewrite map_app. setoid_rewrite elem_of_app. cbn [map binding_key vlb_ssl vlb_http3 vlb_proxy_protocol fst snd].
  setoid_rewrite list_elem_of_singleton. split.
  - intros [(p & H)|(<- & <- & <-)]; [exists p; by left|]. eexists. by right.
  - intros (p & [H|H]); [left; by exists p|]. injection H as -> -> -> _. by right.
Qed.

Lemma asked_erased listens m m' : erase m = erase m' → bindings_asked listens m → bindings_asked listens m'.
Proof. unfold bindings_asked. by intros ->. Qed.

(** Compilation accepts the directives that validation accepted. *)
Lemma bindings_collected vhosts :
  validate_vhost_listener_bindings vhosts = Ok tt →
  ∃ bindings, collect_vhost_bindings vhosts = Ok bindings ∧ bindings_asked (vhost_listens vhosts) bindings.
Proof.
  unfold validate_vhost_listener_bindings, collect_vhost_bindings. intros (bv' & Hv & _)%rbind_ok.
  revert Hv. generalize (vhost_listens vhosts) as listens. intros listens.
  match goal with |- try_fold ?f _ _ = _ → ∃ b, try_fold ?g _ _ = _ ∧ _ => set (add_v := f); set (add_c := g) end.
  assert (Hgo : ∀ listens before bv bc, try_fold add_v bv listens = Ok bv' → erase bc = erase bv → NoDup bc.*1 →
    bindings_asked before bc → ∃ bc', try_fold add_c bc listens = Ok bc' ∧ bindings_asked (before ++ listens) bc'); cycle 1.
  { intros H. destruct (Hgo listens [] [] [] H) as (bc & Hc & Hb); [done|constructor| |by exists bc].
    intros addr ssl http3. split; [by intros (? & ? & ? & ? & ? & ?%not_elem_of_nil & _)|by intros (? & ?%not_elem_of_nil)]. }
  clear listens. induction listens as [|[[[vi li] vhost] listen] listens IH]; intros before bv bc Hv He Hnd Hb.
  { exists bc. by rewrite app_nil_r. }
  cbn [try_fold] in Hv |- *. apply rbind_ok in Hv as (bv1 & Hstep & Hv).
  assert (∃ bc1, add_c bc (vi, li, vhost, listen) = Ok bc1 ∧ erase bc1 = erase bv1 ∧ NoDup bc1.*1 ∧
    bindings_asked (before ++ [(vi, li, vhost, listen)]) bc1) as (bc1 & Hc1 & He1 & Hnd1 & Hb1).
  2: { destruct (IH (before ++ [(vi, li, vhost, listen)]) bv1 bc1 Hv He1 Hnd1 Hb1) as (bc' & Hc' & Hb').
       exists bc'. rewrite Hc1. cbn [rbind]. split; [done|]. by rewrite <-app_assoc in Hb'. }
  clear IH Hv. unfold add_v in Hstep. unfold add_c. apply rbind_ok in Hstep as (parsed & Hp & Hstep). rewrite Hp. cbn [rbind].
  pose proof (find_erased (pvl_addr parsed) bc) as Hfc. rewrite He, find_erased in Hfc. cbv zeta in Hstep |- *.
  destruct (find_addr (pvl_addr parsed) bc) as [b|] eqn:Hf, (find_addr (pvl_addr parsed) bv) as [b0|] eqn:Hf0; try done.
  - apply rbind_unit in Hstep as [Hm%merge_ok Hbv1]. injection Hbv1 as <-. injection Hfc as Hk1 Hk2 Hk3.
    assert (binding_key b = (pvl_ssl parsed, listen_http3 parsed vhost, pvl_proxy_protocol parsed)) as Hk.
    { rewrite <-Hm. unfold binding_key. congruence. }
    rewrite (proj2 (merge_ok _ _ _ _ _) Hk). cbn [rbind]. eexists. split; [done|].
    rewrite replace_addr_keys. rewrite erase_replace with (b := b) by done. split_and!; [done..|].
    eapply asked_erased; [symmetry; by apply erase_replace with (b := b)|]. by eapply asked_again.
  - injection Hstep as <-. eexists. split; [done|].
    split_and!; [unfold erase; rewrite !map_app; fold (erase bc) (erase bv); by rewrite He| |by apply asked_first].
    rewrite fmap_app, NoDup_app. split_and!; [done| |apply NoDup_singleton].
    apply find_addr_None in Hf. by intros a Ha ->%list_elem_of_singleton.
Qed.

Lemma vhost_listener_total server base_dir allow pairs addr binding :
  validate_server server = Ok tt → sock_wf addr → Forall opt_u64 (server_numbers server) →
  Forall opt_u64 (http3_numbers (vlb_http3 binding)) → (vlb_http3 binding ≠ None → vlb_ssl binding = true) →
  succeeds (compile_vhost_listener to_lowercase server base_dir allow pairs (addr, binding)) ↔
  log_format_ok (svc_access_log_format server) ∧
  (vlb_ssl binding = true → files_deployable base_dir allow pairs (svc_tls server)) ∧
  ∀ c, vlb_http3 binding = Some c → http3_address_ok c.
Proof.
  intros (Hh & Hp & Hc & _)%like_validated Hwf Hn Hn3 Hssl. simpl in *.
  unfold server_numbers in Hn. rewrite !Forall_app in Hn. destruct Hn as (Hn1 & Hn2 & _).
  unfold compile_vhost_listener. rewrite (succeeds_bind _ _ (∀ c, vlb_http3 binding = Some c → http3_address_ok c)).
  - rewrite server_fields_total.
    + cbn [sfc_listen sfc_access_log_format sfc_tls sfc_allow_missing_tls_identity].
      rewrite (socket_round_trip addr Hwf). unfold files_deployable.
      split.
      * intros ((_ & H1 & H2) & H3). split_and!; [done| |done]. by destruct (vlb_ssl binding).
      * intros (H1 & H2 & H3). split_and!; [by eexists|done| |done]. destruct (vlb_ssl binding); [by apply H2|done].
    + unfold fields_valid. cbn. split_and!; try done. destruct (vlb_ssl binding); [done|constructor].
  - intros fields _. cbv zeta. rewrite (succeeds_bind _ _ True) by (intros; apply succeeds_ok).
    rewrite http3_total by done. tauto.
Qed.

Definition directives_deployable (base_dir : string) (allow : bool) (pairs : list (string * string)) (server : ServerConfig)
    (vhosts : list VirtualHostConfig) : Prop :=
  log_format_ok (svc_access_log_format server) ∧
  ∀ addr ssl http3, directive (vhost_listens vhosts) addr ssl http3 →
    (ssl = true → files_deployable base_dir allow pairs (svc_tls server)) ∧
    ∀ c, http3 = Some c → http3_address_ok c.

Lemma directive_facts vhosts addr ssl http3 :
  directive (vhost_listens vhosts) addr ssl http3 → (∀ v, v ∈ vhosts → Forall opt_u64 (http3_numbers (vhc_http3 v))) →
  (http3 ≠ None → ssl = true) ∧ Forall opt_u64 (http3_numbers http3).
Proof.
  intros (vi & li & vhost & listen & parsed & Hin & Hp & _ & <- & <-) Hn.
  apply (vhost_listen_parsed to_lowercase) in Hp as [_ Hp]. unfold listen_http3. split; [by destruct (pvl_http3 parsed); [intros _; apply Hp|]|].
  unfold vhost_listens in Hin. apply list_elem_of_bind in Hin as ([i v] & Hin & Hi).
  apply list_elem_of_fmap in Hin as ([j l] & Heq & _). injection Heq as _ _ -> _.
  apply elem_of_enumerate in Hi. specialize (Hn v (list_elem_of_lookup_2 _ _ _ Hi)).
  destruct (pvl_http3 parsed); [|constructor]. destruct (vhc_http3 v); [done|]. cbn. forall_list; by intros ? [=].
Qed.

Lemma directives_total vhosts server base_dir allow pairs :
  validate_server server = Ok tt → validate_vhost_listener_bindings vhosts = Ok tt → any_vhost_listen vhosts = true →
  Forall opt_u64 (server_numbers server) → (∀ v, v ∈ vhosts → Forall opt_u64 (http3_numbers (vhc_http3 v))) →
  succeeds (compile_vhost_listeners to_lowercase vhosts server base_dir allow pairs) ↔
  directives_deployable base_dir allow pairs server vhosts.
Proof.
  intros Hs (bindings & Hb & Hask)%bindings_collected Hany Hn Hn3. unfold compile_vhost_listeners. rewrite Hb. cbn [rbind].
  apply (collected_bindings_ok to_lowercase) in Hb as [[_ Hwf] Hne]. specialize (Hne (any_listen_listens _ Hany)).
  rewrite succeeds_collect, sort_by_perm, Forall_forall. rewrite Forall_forall in Hwf.
  assert (Hentry : ∀ addr b, (addr, b) ∈ bindings → directive (vhost_listens vhosts) addr (vlb_ssl b) (vlb_http3 b)).
  { intros addr b Hin. apply Hask. exists (vlb_proxy_protocol b).
    by apply (list_elem_of_fmap_2 (λ x : SocketAddr * VhostListenerBinding, (x.1, binding_key x.2)) _ _ Hin). }
  assert (Htotal : ∀ addr b, (addr, b) ∈ bindings →
    succeeds (compile_vhost_listener to_lowercase server base_dir allow pairs (addr, b)) ↔
    log_format_ok (svc_access_log_format server) ∧ (vlb_ssl b = true → files_deployable base_dir allow pairs (svc_tls server)) ∧
    ∀ c, vlb_http3 b = Some c → http3_address_ok c).
  { intros addr b Hin. destruct (directive_facts _ _ _ _ (Hentry addr b Hin) Hn3) as [H1 H2].
    apply vhost_listener_total; try done. apply Hwf. by apply (list_elem_of_fmap_2 fst _ _ Hin). }
  split.
  - intros Hall. split.
    + destruct bindings as [|[addr b] bindings]; [done|]. apply (Htotal addr b); [by left|apply Hall; by left].
    + intros addr ssl http3 Hd. apply Hask in Hd as (p & Hin). apply list_elem_of_fmap in Hin as ([a b] & Heq & Hin).
      injection Heq as -> -> -> ->. apply (Htotal a b Hin). by apply Hall.
  - intros [Hlog Hd] [addr b] Hin. apply Htotal; [done|]. split; [done|]. by apply Hentry, Hd in Hin.
Qed.

(** *** The listeners of a configuration *)

Definition numbers_typed (raw : Config) : Prop :=
  Forall opt_u64 [rnc_worker_threads (cnf_runtime raw); rnc_accept_workers (cnf_runtime raw)] ∧
  Forall opt_u64 (server_numbers (cnf_server raw)) ∧
  (∀ l, l ∈ cnf_listeners raw → Forall opt_u64 (listener_numbers l)) ∧
  ∀ v, v ∈ cnf_servers raw → Forall opt_u64 (http3_numbers (vhc_http3 v)).

(** The listen directives of virtual hosts come first, then explicit listeners,
    then the server block. *)
Definition listeners_deployable (raw : Config) (base_dir : string) (allow : bool) (pairs : list (string * string)) : Prop :=
  if any_vhost_listen (cnf_servers raw) then directives_deployable base_dir allow pairs (cnf_server raw) (cnf_servers raw)
  else
    match cnf_listeners raw with
    | [] => legacy_deployable base_dir allow pairs (cnf_server raw)
    | listeners => Forall (listener_deployable base_dir allow pairs) listeners
    end.

Lemma validated_each n listeners seen seen' :
  try_fold validate_listener seen (enumerate_from n listeners) = Ok seen' →
  Forall (λ l, is_Some (configured_sockets l) ∧ ∃ owner, validate_listener_like (listener_like owner l) = Ok tt) listeners.
Proof.
  revert n seen. induction listeners as [|l listeners IH]; intros n seen; cbn [enumerate_from try_fold]; [constructor|].
  intros (s & Hl & H)%rbind_ok. constructor; [|by eapply IH].
  pose proof Hl as (_ & _ & binds & Hb & _)%validate_listener_ok. split; [by eexists|].
  unfold validate_listener in Hl. cbn [hs_insert] in Hl. apply rbind_ok in Hl as (? & _ & Hl). apply rbind_ok in Hl as (? & _ & Hl).
  apply rbind_ok in Hl as ([] & Hlike & _). by eexists.
Qed.

Lemma listeners_total raw base_dir allow pairs :
  validate_server (cnf_server raw) = Ok tt →
  validate_listeners (cnf_listeners raw) (cnf_server raw) (cnf_servers raw) = Ok tt → numbers_typed raw →
  (∃ r, compile_config_listeners to_lowercase raw base_dir allow pairs = Some (Ok r)) ↔
  listeners_deployable raw base_dir allow pairs.
Proof.
  intros Hs Hl (_ & Hn & Hnl & Hnv). unfold listeners_deployable, compile_config_listeners.
  apply listeners_validated in Hl as [(Hany & _ & Hb)|[(Hany & He & listen & Hlisten & _)|(Hany & Hne & seen & Hseen)]]; rewrite Hany.
  - rewrite <-(directives_total _ _ _ _ _ Hs Hb Hany Hn Hnv), <-(succeeds_rmap (λ listeners, (listeners, svc_server_names (cnf_server raw)))).
    by split; intros (r & H); exists r; congruence.
  - rewrite He. cbn [length]. rewrite bool_decide_true by done.
    rewrite <-(legacy_total _ (existsb (λ vhost, is_some (vhc_tls vhost)) (cnf_servers raw)) _ _ _ _ Hs Hlisten Hn).
    destruct (compile_legacy_server _ _ _ _ _ _) as [[c|]|]; cbn; split; intros (r & H); simplify_eq; by eexists.
  - destruct (bool_decide (length (cnf_listeners raw) = 0%nat)) eqn:Hnil; [by apply nil_length in Hnil|].
    assert (listeners_deployable raw base_dir allow pairs ↔ Forall (listener_deployable base_dir allow pairs) (cnf_listeners raw)) as Hd.
    { unfold listeners_deployable. rewrite Hany. by destruct (cnf_listeners raw). }
    unfold listeners_deployable in Hd. rewrite Hany in Hd. rewrite Hd.
    transitivity (succeeds (compile_listeners to_lowercase (cnf_listeners raw) (svc_server_header (cnf_server raw)) base_dir allow pairs)).
    { rewrite <-(succeeds_rmap (λ listeners, (listeners, svc_server_names (cnf_server raw)))).
      by split; intros (r & H); exists r; congruence. }
    unfold compile_listeners. rewrite succeeds_collect. apply validated_each in Hseen.
    rewrite !Forall_forall. rewrite Forall_forall in Hseen. pose proof Hs as (Hh & _)%like_validated. simpl in Hh.
    split; intros H l Hin; destruct (Hseen l Hin) as (Hsock & owner & Hlike); specialize (H l Hin);
      by apply (listener_total _ _ _ _ owner l Hlike Hsock Hh (Hnl l Hin)) in H.
Qed.

(** *** Hosts *)

Context (grpc_path : path_and_query_ok DEFAULT_GRPC_HEALTH_CHECK_PATH = true).
Context (get_parses : parse_method GET = Some GET) (head_parses : parse_method HEAD = Some HEAD).

Definition vhost_deployable (base_dir : string) (allow : bool) (pairs : list (string * string)) (v : VirtualHostConfig) : Prop :=
  Forall (deployable base_dir) (vhc_upstreams v) ∧
  ∀ t, vhc_tls v = Some t →
    identity_deployable base_dir (allow && vhost_tls_identity_is_managed t base_dir pairs)
      (vtc_cert_path t) (vtc_key_path t) (vtc_additional_certificates t) (vtc_ocsp_staple_path t).

Lemma host_total scope idx vhost gnames tls_defaults req zones seen seen' upstreams base_dir allow pairs :
  validate_virtual_host to_lowercase gnames req tls_defaults zones seen (idx, vhost) = Ok seen' →
  vhost_config_typed vhost → dom upstreams = gnames →
  succeeds (compile_virtual_host scope vhost upstreams base_dir allow pairs) ↔ vhost_deployable base_dir allow pairs vhost.
Proof.
  intros (label & lnames & Hvu & Hvl)%host_validated Hty Hdom. unfold compile_virtual_host, vhost_deployable. cbv zeta.
  rewrite <-(validated_upstreams_compile base_dir (scoped_upstream_name scope) _ _ grpc_path (proj1 Hty) Hvu _).
  apply succeeds_bind. intros locals Hc.
  destruct (host_routes to_lowercase grpc_path get_parses head_parses _ _ _ _ _ _ upstreams _ _ Hty Hvu Hvl Hdom Hc) as (_ & _ & routes & Hr & _).
  rewrite Hr. cbn [rbind]. etransitivity; [succeeds_rec|]. unfold compile_virtual_host_tls. rewrite succeeds_transpose.
  split; [intros [H _]|intros H; split; [|done]]; intros t Ht; specialize (H t Ht).
  - rewrite Ht in H. cbn [is_some_and] in H. apply succeeds_bind with (P := True) in H as [H _]; [by apply material_total in H|].
    intros. apply succeeds_ok.
  - rewrite Ht. cbn [is_some_and]. apply succeeds_bind with (P := True); [intros; apply succeeds_ok|]. split; [|done].
    by apply material_total.
Qed.

Lemma hosts_total n vhosts gnames req tls_defaults zones seen seen' upstreams base_dir allow pairs :
  try_fold (validate_virtual_host to_lowercase gnames req tls_defaults zones) seen (enumerate_from n vhosts) = Ok seen' →
  Forall vhost_config_typed vhosts → dom upstreams = gnames →
  succeeds (collect (λ '(index, vhost_config), compile_virtual_host (vhost_scope index) vhost_config upstreams base_dir allow pairs)
    (enumerate_from n vhosts)) ↔ Forall (vhost_deployable base_dir allow pairs) vhosts.
Proof.
  intros Hv Hty Hdom. rewrite succeeds_collect. revert n seen Hv.
  induction Hty as [|v vhosts Hvt _ IH]; intros n seen; cbn [enumerate_from try_fold]; [by intros _; split; constructor|].
  intros (s & Hv & Hrest)%rbind_ok. rewrite !Forall_cons, (IH _ _ Hrest).
  by rewrite (host_total _ _ _ _ _ _ _ _ _ _ _ _ _ Hv Hvt Hdom).
Qed.

(** *** The whole *)

Definition config_deployable (raw : Config) (base_dir : string) (allow : bool) : Prop :=
  let pairs := collect_managed_identity_pairs (cnf_servers raw) base_dir in
  listeners_deployable raw base_dir allow pairs ∧
  Forall (deployable base_dir) (cnf_upstreams raw) ∧
  Forall (vhost_deployable base_dir allow pairs) (cnf_servers raw).

Lemma compile_hosts_total raw base_dir allow pairs runtime acme zones listeners names :
  validate to_lowercase raw = Ok tt → config_typed raw →
  succeeds (compile_hosts raw base_dir allow pairs runtime acme zones listeners names) ↔
  Forall (deployable base_dir) (cnf_upstreams raw) ∧ Forall (vhost_deployable base_dir allow pairs) (cnf_servers raw).
Proof.
  intros (znames & unames & snames & _ & _ & _ & _ & Hvu & Hvl & (snames' & Hvv)%is_ok_true)%validate_passed (Hut & Hlt & _ & Hvt).
  unfold compile_hosts. rewrite <-(validated_upstreams_compile base_dir (λ name, name) _ _ grpc_path Hut Hvu ltac:(by intros a b)).
  apply succeeds_bind. intros ups Hc.
  destruct (compiled_upstreams_are_typed _ _ _ _ _ grpc_path Hut Hvu Hc) as [Hdom _].
  assert (Hups : dom ups = unames) by (rewrite Hdom; set_solver).
  assert (∃ routes, compile_routes (cnf_locations raw) ups DEFAULT_VHOST_ID = Ok routes) as (routes & Hr).
  { apply rbind_ok in Hvl as (exact & Hexact & _).
    destruct (locations_compile get_parses head_parses _ _ _ _ ups ∅ DEFAULT_VHOST_ID 0 _ _ Hlt Hexact) as (routes & Hr & _); [|by exists routes].
    intros u Hu. rewrite lookup_empty. apply elem_of_dom. by rewrite Hups. }
  rewrite Hr. cbn [rbind]. cbv zeta.
  etransitivity; [succeeds_rec|]. rewrite (hosts_total _ _ _ _ _ _ _ _ _ _ _ _ Hvv Hvt Hups). tauto.
Qed.
End Deployment.

(** C40.  A validated configuration compiles if and only if it can be deployed,
    and what that takes is stated: the certificates, keys, staples and CRLs that
    listeners, virtual hosts and upstreams name are there (those that ACME
    manages may be missing where that is allowed); access log formats parse; the
    addresses that validation does not read (that of the [server] block and those
    of HTTP/3 outside explicit listeners) are addresses; and of every upstream,
    global or of a virtual host, each peer's URL is one of http or https with an
    authority and neither a path nor a query, the server name it is to be known
    by, if any, is a name for TLS, and its least DNS lifetime is at most its
    greatest, defaults included.  Everything else that compilation checks again
    cannot fail, the numbers of the file being of the types of their fields. *)
Theorem validated_configuration_compiles {NET : IpNetApi} {RX : RegexApi} {API : ConfigApi NET RX} {HTTP : HttpApi}
    (to_lowercase : string → string) (raw : Config) (base_dir : string) (allow_missing : bool)
    (rginx_header : is_Some (hv_from_str "rginx"))
    (grpc_path : path_and_query_ok DEFAULT_GRPC_HEALTH_CHECK_PATH = true)
    (get_parses : parse_method GET = Some GET) (head_parses : parse_method HEAD = Some HEAD)
    (Hty : config_typed raw) (Hnum : numbers_typed raw) (Hv : validate to_lowercase raw = Ok tt) :
  (∃ config, compile_with_base_and_options to_lowercase raw base_dir allow_missing = Some (Ok config)) ↔
  config_deployable raw base_dir allow_missing.
Proof.
  unfold compile_with_base_and_options, config_deployable. rewrite Hv. cbn [and_then]. cbv zeta.
  set (pairs := collect_managed_identity_pairs _ _). pose proof Hnum as (Hn & _). rewrite !Forall_cons in Hn. destruct Hn as (Hw & Ha & _).
  assert (succeeds (compile_runtime_settings (cnf_runtime raw))) as (runtime & ->).
  { destruct (usize_total "runtime worker_threads" _ Hw) as (w & Hw'), (usize_total "runtime accept_workers" _ Ha) as (a & Ha').
    unfold compile_runtime_settings, compile_runtime_worker_threads, compile_runtime_accept_workers.
    rewrite Hw'. cbn [rbind]. rewrite Ha'. by eexists. }
  cbn [and_then]. pose proof Hv as (znames & _ & _ & _ & Hs & Hl & Hz & _)%validate_passed.
  destruct (validated_cache_zones_compile _ base_dir _ (proj1 (proj2 (proj2 Hty))) Hz) as (zones & -> & _). cbn [and_then].
  set (acme := compile_global_acme _ _). clearbody acme.
  rewrite <-(listeners_total to_lowercase rginx_header _ base_dir allow_missing pairs Hs Hl Hnum).
  destruct (compile_config_listeners _ _ _ _ _) as [[[listeners names]|e]|] eqn:Hcl; cbn [mbind option_bind rbind].
  - rewrite <-(compile_hosts_total to_lowercase rginx_header grpc_path get_parses head_parses raw base_dir allow_missing pairs runtime acme zones listeners names Hv Hty).
    split.
    + intros (config & [= H]). split; [by eexists|by exists config].
    + intros [_ (config & H)]. exists config. by rewrite H.
  - split; [by intros (config & [=])|by intros [(r & [=]) _]].
  - split; [by intros (config & [=])|by intros [(r & [=]) _]].
Qed.

(** The listen address of the [server] block is read by compilation alone. *)
Definition unread_address : Config :=
  let s := FileSample.server None None in
  FileSample.config [] (mkServerConfig (Some "localhost:80") (svc_server_header s) None None (svc_server_names s) [] None None None
    None None None None None None None None) [].

Lemma sample_numbers_typed : numbers_typed FileSample.explicit ∧ numbers_typed unread_address.
Proof.
  split; unfold numbers_typed; rewrite <-!Forall_forall; split_and!; forall_list;
    first [done | by intros ? [= <-] | forall_list; first [done | by intros ? [= <-]]].
Qed.

Lemma unread_address_typed : config_typed unread_address.
Proof. destruct sample_config_typed as (Hu & Hl & Hz & _). split_and!; [done..|constructor]. Qed.

Lemma validated_configuration_compiles_witness :
  config_deployable (API := FileSample.files) FileSample.explicit "/etc/rginx" false ∧
  ¬ config_deployable (API := FileSample.files) unread_address "/etc/rginx" false.
Proof.
  split.
  - apply (validated_configuration_compiles (API := FileSample.files) (HTTP := RefHttp.api) to_ascii_lowercase
      FileSample.explicit "/etc/rginx" false ltac:(by eexists) eq_refl eq_refl eq_refl sample_config_typed
      (proj1 sample_numbers_typed)); [by vm_compute|].
    apply compiles_true. by vm_compute.
  - intros H. apply (validated_configuration_compiles (API := FileSample.files) (HTTP := RefHttp.api) to_ascii_lowercase
      unread_address "/etc/rginx" false ltac:(by eexists) eq_refl eq_refl eq_refl unread_address_typed
      (proj2 sample_numbers_typed)) in H; [|by vm_compute].
    destruct H as (config & Hc).
    assert (compiles (FileSample.compiled unread_address) = false) as Hno by by vm_compute.
    unfold FileSample.compiled in Hno. by rewrite Hc in Hno.
Defined.
