(* ===== verification/CacheRange.v ===== *)
(** * Trimming cached slices to the requested range

    Models [crates/rginx-http/src/cache/entry/response.rs] (the trim plan) and
    [cache/store/range.rs] (the body that applies it, one poll at a time). *)

From S2P Require Import Prelude RustStr External Body Template CacheConfig CacheTypes CacheRequest CacheStore.

(** ** The plan *)

(** Source: crates/rginx-http/src/cache/entry/response.rs:10-14 (CachedContentRange) *)
Record CachedContentRange : Type := mkContentRange {
  ccr_start : Z;
  ccr_end : Z;
  ccr_total : option Z;
}.

Section Plan.
Context {HTTP : HttpApi}.

(** Source: crates/rginx-http/src/cache/entry/response.rs:17-21 (DownstreamRangeTrimPlan) *)
Record DownstreamRangeTrimPlan : Type := mkTrimPlan {
  plan_headers : HeaderMap;
  plan_skip_bytes : Z;
  plan_emit_bytes : Z;
}.

(** Every failure is an [InvalidData] error. *)
(** Source: crates/rginx-http/src/cache/entry/response.rs:129-174 (parse_cached_content_range) *)
Definition parse_cached_content_range (headers : HeaderMap) : option CachedContentRange :=
  value ← hm_get headers "content-range";
  value ← hv_to_str value;
  value ← strip_prefix "bytes " (trim value);
  '(range, total) ← split_once "/"%char value;
  '(start, end_) ← split_once "-"%char range;
  start ← parse_u64 (trim start);
  end_ ← parse_u64 (trim end_);
  if str_eqb (trim total) "*" then Some (mkContentRange start end_ None)
  else total ← parse_u64 (trim total); Some (mkContentRange start end_ (Some total)).

(** Source: crates/rginx-http/src/cache/entry/response.rs:176-199 (update_downstream_range_headers) *)
Definition update_downstream_range_headers (headers : HeaderMap) (response_start response_end : Z)
    (total : option Z) (response_len : Z) : option HeaderMap :=
  len ← hv_from_str (dec response_len);
  let headers := hm_insert "content-length" len headers in
  range ← hv_from_str ("bytes " +:+ dec response_start +:+ "-" +:+ dec response_end +:+ "/" +:+
                       match total with Some value => dec value | None => "*"%string end);
  Some (hm_insert "content-range" range headers).

(** [usize] has 64 bits, so the [usize::try_from] conversions do not fail. *)
(** Source: crates/rginx-http/src/cache/entry/response.rs:46-104 (downstream_range_trim_plan) *)
Definition downstream_range_trim_plan (status : Z) (headers : HeaderMap) (request : CacheRequest)
    (policy : RouteCachePolicy) : option (option DownstreamRangeTrimPlan) :=
  match cacheable_range_request request policy with
  | None => Some None
  | Some request_range =>
      if negb (needs_downstream_trimming request_range) then Some None
      else if negb (status =? 206) ||
              negb (response_content_range_matches_request request policy headers)
      then Some None
      else
        cached_range ← parse_cached_content_range headers;
        if negb (ccr_start cached_range =? cache_start request_range) then None
        else
          let response_end := Z.min (request_end request_range) (ccr_end cached_range) in
          if (request_start request_range <? ccr_start cached_range) ||
             (response_end <? request_start request_range) then None
          else
            let skip_bytes := request_start request_range - ccr_start cached_range in
            let emit_bytes := response_end - request_start request_range + 1 in
            trimmed_headers ← update_downstream_range_headers headers
              (request_start request_range) response_end (ccr_total cached_range) emit_bytes;
            Some (Some (mkTrimPlan trimmed_headers skip_bytes emit_bytes))
  end.
End Plan.

(** ** The body *)

Section TrimBody.
Context {HTTP : HttpApi} {E : Type} (truncated_range_error : E).

(** Source: crates/rginx-http/src/cache/store/range.rs:11-17 (DownstreamRangeTrimBody) *)
Record DownstreamRangeTrimBody : Type := mkTrimBody {
  inner : list (FramePoll E);
  skip_bytes : Z;
  emit_bytes : Z;
  done_ : bool;
}.

(** Source: crates/rginx-http/src/cache/store/range.rs:21-23 (DownstreamRangeTrimBody::new) *)
Definition trim_body_new (inner : list (FramePoll E)) (plan : DownstreamRangeTrimPlan)
    : DownstreamRangeTrimBody :=
  mkTrimBody inner (plan_skip_bytes plan) (plan_emit_bytes plan) false.

(** The loop of one poll; each turn takes one result of the inner body. *)
(** Source: crates/rginx-http/src/cache/store/range.rs:34-100 (DownstreamRangeTrimBody::poll_frame) *)
Fixpoint trim_loop (inner : list (FramePoll E)) (skip emit : Z) (done : bool)
    : FramePoll E * DownstreamRangeTrimBody :=
  match inner with
  | [] =>
      if (0 <? skip) || (0 <? emit)
      then (ReadyError truncated_range_error, mkTrimBody [] skip emit true)
      else (ReadyEnd, mkTrimBody [] skip emit true)
  | ReadyFrame (DataFrame data) :: inner =>
      if len data <=? skip then trim_loop inner (skip - len data) emit done
      else
        let data := drop (Z.to_nat skip) data in
        let skip := 0 in
        if emit =? 0 then trim_loop inner skip emit done
        else
          let data := take (Z.to_nat emit) data in
          let emit := emit - len data in
          let done := if emit =? 0 then true else done in
          match data with
          | [] => trim_loop inner skip emit done
          | _ => (ReadyFrame (DataFrame data), mkTrimBody inner skip emit done)
          end
  | ReadyFrame (TrailersFrame trailers) :: inner =>
      if (0 <? skip) || (0 <? emit)
      then (ReadyError truncated_range_error, mkTrimBody inner skip emit true)
      else (ReadyFrame (TrailersFrame trailers), mkTrimBody inner skip emit true)
  | ReadyFrame OtherFrame :: inner => (ReadyFrame OtherFrame, mkTrimBody inner skip emit done)
  | ReadyError e :: inner => (ReadyError e, mkTrimBody inner skip emit true)
  | ReadyEnd :: inner =>
      if (0 <? skip) || (0 <? emit)
      then (ReadyError truncated_range_error, mkTrimBody inner skip emit true)
      else (ReadyEnd, mkTrimBody inner skip emit true)
  | Pending :: inner => (Pending, mkTrimBody inner skip emit done)
  end.

(** Source: crates/rginx-http/src/cache/store/range.rs:34-100 (DownstreamRangeTrimBody::poll_frame) *)
Definition trim_poll_frame (b : DownstreamRangeTrimBody) : FramePoll E * DownstreamRangeTrimBody :=
  if done_ b then (ReadyEnd, b)
  else if emit_bytes b =? 0 then (ReadyEnd, mkTrimBody (inner b) (skip_bytes b) (emit_bytes b) true)
  else trim_loop (inner b) (skip_bytes b) (emit_bytes b) (done_ b).

(** The results of the first [n] polls. *)
Fixpoint trim_polls (n : nat) (b : DownstreamRangeTrimBody) : list (FramePoll E) :=
  match n with
  | O => []
  | S n => let '(p, b) := trim_poll_frame b in p :: trim_polls n b
  end.
End TrimBody.

(** ** What the trimmed body delivers *)

Section Delivered.
Context {HTTP : HttpApi} {E : Type} (eof : E).

Notation body inner skip emit := (mkTrimBody (E := E) inner skip emit false).

Lemma done_polls n inner skip emit :
  trim_polls eof n (mkTrimBody (E := E) inner skip emit true) = replicate n ReadyEnd.
Proof. induction n as [|n IH]; [done|]. simpl. by rewrite IH. Qed.

Lemma polls_skip n data inner skip emit :
  0 < emit → len data ≤ skip →
  trim_polls eof (S n) (body (ReadyFrame (DataFrame data) :: inner) skip emit) =
  trim_polls eof (S n) (body inner (skip - len data) emit).
Proof.
  intros He Hs. cbn [trim_polls trim_poll_frame]. unfold trim_poll_frame. cbn [done_ emit_bytes].
  rewrite !(proj2 (Z.eqb_neq emit 0)) by lia. cbn.
  by rewrite (proj2 (Z.leb_le _ _)).
Qed.

Lemma polls_emit n data inner skip emit :
  0 ≤ skip → 0 < emit → skip < len data →
  let out := take (Z.to_nat emit) (drop (Z.to_nat skip) data) in
  trim_polls eof (S n) (body (ReadyFrame (DataFrame data) :: inner) skip emit) =
  ReadyFrame (DataFrame out) ::
  trim_polls eof n (mkTrimBody inner 0 (emit - len out) (emit - len out =? 0)).
Proof.
  intros Hs He Hd out. cbn [trim_polls]. unfold trim_poll_frame. cbn [done_ emit_bytes].
  rewrite (proj2 (Z.eqb_neq emit 0)) by lia. cbn.
  rewrite (proj2 (Z.leb_gt _ _)) by done. rewrite (proj2 (Z.eqb_neq emit 0)) by lia.
  fold out. destruct out as [|b out'] eqn:Ho.
  - exfalso. apply (f_equal length) in Ho. unfold out in Ho. unfold len in Hd.
    rewrite length_take, length_drop in Ho. simpl in Ho. lia.
  - by destruct (_ =? 0).
Qed.

Lemma trim_polls_deliver inner skip emit n :
  Forall flowing inner → 0 ≤ skip → 0 < emit → (length inner < n)%nat →
  (skip + emit ≤ len (delivered inner) →
   delivered (trim_polls eof n (body inner skip emit)) =
     take (Z.to_nat emit) (drop (Z.to_nat skip) (delivered inner)) ∧
   Forall (λ p, ¬ is_error p) (trim_polls eof n (body inner skip emit))) ∧
  (len (delivered inner) < skip + emit →
   ReadyError eof ∈ trim_polls eof n (body inner skip emit)).
Proof.
  intros Hf. revert skip emit n. induction Hf as [|p inner Hp Hf IH]; intros skip emit n Hs He Hn.
  - destruct n as [|n]; [simpl in Hn; lia|].
    assert (Hz : (emit =? 0) = false) by lia.
    assert (Hpos : (0 <? skip) || (0 <? emit) = true) by (apply orb_true_iff; right; lia).
    split; [unfold delivered, len; simpl; lia|]. intros _.
    cbn [trim_polls]. unfold trim_poll_frame. cbn [done_ emit_bytes]. rewrite Hz. cbn.
    rewrite Hpos. left.
  - destruct n as [|n]; [simpl in Hn; lia|]. simpl in Hn.
    rewrite delivered_cons. destruct p as [| |[data| |]|]; try done.
    + (* pending *)
      assert (Hst : trim_polls eof (S n) (body (Pending :: inner) skip emit) =
                    Pending :: trim_polls eof n (body inner skip emit)).
      { cbn [trim_polls]. unfold trim_poll_frame. cbn [done_ emit_bytes].
        by rewrite (proj2 (Z.eqb_neq emit 0)) by lia. }
      rewrite Hst. destruct (IH skip emit n) as [Ha Hb]; [done..|lia|].
      cbn [poll_bytes app]. split.
      * intros Hle. destruct (Ha Hle) as [Hd Hall]. rewrite delivered_cons, Hd.
        split; [done|]. constructor; [simpl; tauto|done].
      * intros Hlt. right. by apply Hb.
    + cbn [poll_bytes]. rewrite len_app. assert (0 ≤ len data) by (unfold len; lia).
      destruct (decide (len data ≤ skip)) as [Hsk|Hsk].
      * rewrite polls_skip by done.
        destruct (IH (skip - len data) emit (S n)) as [Ha Hb]; [lia|done|lia|].
        split; [|intros; apply Hb; lia]. intros Hle. destruct Ha as [Hd Hall]; [lia|].
        split; [|done]. rewrite Hd. f_equal. rewrite drop_app_ge by (unfold len in *; lia).
        f_equal. unfold len. lia.
      * rewrite polls_emit by lia.
        set (out := take (Z.to_nat emit) (drop (Z.to_nat skip) data)).
        assert (Hdrop : drop (Z.to_nat skip) (data ++ delivered inner) =
                        drop (Z.to_nat skip) data ++ delivered inner).
        { apply drop_app_le. unfold len in *. lia. }
        assert (Hlen : len (drop (Z.to_nat skip) data) = len data - skip).
        { unfold len in *. rewrite length_drop. lia. }
        destruct (decide (emit ≤ len data - skip)) as [Hem|Hem].
        -- assert (len out = emit) as ->.
           { unfold out, len in *. rewrite length_take. lia. }
           rewrite Z.sub_diag. cbn [Z.eqb]. rewrite done_polls.
           split; [|assert (0 ≤ len (delivered inner)) by (unfold len; lia); lia].
           intros _. rewrite delivered_cons, delivered_ends, app_nil_r, Hdrop.
           rewrite take_app_le by (unfold len in *; lia). split; [done|].
           constructor; [simpl; tauto|]. apply Forall_replicate. simpl. tauto.
        -- assert (Hout : out = drop (Z.to_nat skip) data).
           { unfold out. apply take_ge. unfold len in *. lia. }
           rewrite Hout, Hlen. rewrite (proj2 (Z.eqb_neq _ 0)) by lia.
           destruct (IH 0 (emit - (len data - skip)) n) as [Ha Hb]; [lia|lia|lia|].
           split; [|intros; right; apply Hb; lia].
           intros Hle. destruct Ha as [Hd Hall]; [lia|].
           rewrite delivered_cons, Hd, Hdrop. cbn [poll_bytes]. split.
           ++ rewrite take_app_ge by (unfold len in *; lia). f_equal.
              rewrite drop_0. f_equal. unfold len in *. lia.
           ++ constructor; [simpl; tauto|done].
Qed.
End Delivered.

(** ** The plan and the body together *)

(** Bytes [first] to [last], both included, of a resource. *)
Definition byte_range (resource : bytes) (first last : Z) : bytes :=
  take (Z.to_nat (last - first + 1)) (drop (Z.to_nat first) resource).

Lemma byte_range_sub resource a b c d :
  0 ≤ a → a ≤ c → d ≤ b → c ≤ d →
  take (Z.to_nat (d - c + 1)) (drop (Z.to_nat (c - a)) (byte_range resource a b)) =
  byte_range resource c d.
Proof.
  intros Ha Hc Hd Hcd. unfold byte_range.
  rewrite take_drop_commute, take_take, Nat.min_l by lia.
  rewrite <-take_drop_commute, drop_drop. do 2 f_equal. lia.
Qed.

Lemma byte_range_len resource a b :
  0 ≤ a → a ≤ b → b < len resource → len (byte_range resource a b) = b - a + 1.
Proof.
  intros. unfold byte_range, len in *. rewrite length_take, length_drop. lia.
Qed.

Lemma trim_plan_inv `{HTTP : HttpApi} status headers request policy plan :
  downstream_range_trim_plan status headers request policy = Some (Some plan) →
  ∃ r c, cacheable_range_request request policy = Some r ∧
    parse_cached_content_range headers = Some c ∧ status = 206 ∧
    ccr_start c = cache_start r ∧ ccr_start c ≤ request_start r ∧
    request_start r ≤ Z.min (request_end r) (ccr_end c) ∧
    plan_skip_bytes plan = request_start r - ccr_start c ∧
    plan_emit_bytes plan = Z.min (request_end r) (ccr_end c) - request_start r + 1.
Proof.
  unfold downstream_range_trim_plan. intros Hp.
  destruct (cacheable_range_request request policy) as [r|]; [|done].
  destruct (negb (needs_downstream_trimming r)); [done|].
  destruct (negb (status =? 206) || _) eqn:Hs; [done|].
  destruct (parse_cached_content_range headers) as [c|]; [|done]. cbn [mbind option_bind] in Hp.
  destruct (negb (ccr_start c =? cache_start r)) eqn:Hc; [done|].
  destruct ((request_start r <? ccr_start c) || _) eqn:Hb; [done|]. cbv zeta in Hp.
  destruct (update_downstream_range_headers _ _ _ _ _); [|done]. injection Hp as <-.
  boolify. exists r, c. cbn. split_and!; try done; lia.
Qed.

(** C7.  A range request answered from a cached slice gets its own bytes: for
    any resource, any chunking of the slice and any interleaving of waits, a
    trim plan makes the body deliver exactly the requested interval (cut at
    the end of the slice), without an error; a body that ends before the
    interval is complete is reported as an error, never silently short. *)
Theorem trimmed_body_is_requested_range `{HTTP : HttpApi} {E : Type} (eof : E)
    (resource : bytes) (status : Z) (headers : HeaderMap) (request : CacheRequest)
    (policy : RouteCachePolicy) (plan : DownstreamRangeTrimPlan) (inner : list (FramePoll E))
    (n : nat) (r : CacheableRangeRequest) (c : CachedContentRange) :
  downstream_range_trim_plan status headers request policy = Some (Some plan) →
  cacheable_range_request request policy = Some r →
  parse_cached_content_range headers = Some c →
  0 ≤ ccr_start c → ccr_end c < len resource →
  Forall flowing inner → (length inner < n)%nat →
  let polls := trim_polls eof n (trim_body_new inner plan) in
  (delivered inner = byte_range resource (ccr_start c) (ccr_end c) →
   delivered polls =
     byte_range resource (request_start r) (Z.min (request_end r) (ccr_end c)) ∧
   Forall (λ p, ¬ is_error p) polls) ∧
  (len (delivered inner) <
     Z.min (request_end r) (ccr_end c) - ccr_start c + 1 → ReadyError eof ∈ polls).
Proof.
  intros Hp Hr Hc H0 Hlen Hf Hn polls.
  apply trim_plan_inv in Hp as (r' & c' & Hr' & Hc' & _ & Hstart & Hle1 & Hle2 & Hskip & Hemit).
  rewrite Hr in Hr'. rewrite Hc in Hc'. injection Hr' as <-. injection Hc' as <-.
  unfold polls, trim_body_new. rewrite Hskip, Hemit.
  set (e := Z.min (request_end r) (ccr_end c)) in *.
  destruct (trim_polls_deliver eof inner (request_start r - ccr_start c)
              (e - request_start r + 1) n) as [Ha Hb]; [done|lia|lia|done|].
  split; [|intros; apply Hb; lia].
  intros Hd. rewrite Hd in Ha. rewrite byte_range_len in Ha by lia.
  destruct Ha as [Ha Hall]; [lia|]. split; [|done].
  rewrite Ha. apply byte_range_sub; lia.
Qed.

Definition slice_headers : @HeaderMap RefHttp.api :=
  [("content-range", "bytes 16-23/40")]%string.
Definition trimmed_headers : @HeaderMap RefHttp.api :=
  [("content-length", "4"); ("content-range", "bytes 17-20/40")]%string.

Theorem trimmed_body_is_requested_range_witness :
  delivered (trim_polls 0 4
    (trim_body_new (HTTP := RefHttp.api)
      [ReadyFrame (DataFrame [16; 17]); Pending;
       ReadyFrame (DataFrame [18; 19; 20; 21; 22; 23])]
      (mkTrimPlan trimmed_headers 1 4))) = [17; 18; 19; 20].
Proof.
  destruct (@trimmed_body_is_requested_range RefHttp.api Z 0
    (map Z.of_nat (seq 0 40)) 206 slice_headers
    (mkCacheRequest GET (mkUri None None None) sample_headers) sample_policy
    (mkTrimPlan trimmed_headers 1 4)
    [ReadyFrame (DataFrame [16; 17]); Pending;
       ReadyFrame (DataFrame [18; 19; 20; 21; 22; 23])] 4
    (mkRange 17 20 16 23) (mkContentRange 16 23 (Some 40))) as [H _].
  - vm_compute. reflexivity.
  - vm_compute. reflexivity.
  - vm_compute. reflexivity.
  - done.
  - vm_compute. reflexivity.
  - repeat constructor.
  - simpl. lia.
  - destruct H as [H _]; [vm_compute; reflexivity|]. vm_compute in H. vm_compute. exact H.
Defined.
