(* ===== verification/CacheIndex.v ===== *)
(** * The cache index

    Models [crates/rginx-http/src/cache/index.rs], [cache/invalidation.rs],
    [cache/store/maintenance/] and the index side of [cache/shared.rs] and
    [cache/shared/delta.rs]: the entries of a zone, the counters and the access
    schedule kept beside them, and every operation that changes them.  Each
    operation runs under the zone's locks, so it is one function from state to
    state; the operations it publishes to the shared index are returned. *)

From S2P Require Import Prelude RustStr External CacheConfig CacheTypes CacheRequest CachePolicy CacheStore.

(** ** Access schedule: a [BTreeSet] as its increasing list *)

Definition sch_cmp (a b : CacheAccessScheduleEntry) : comparison :=
  then_cmp (sch_last_access_unix_ms a ?= sch_last_access_unix_ms b)
    (then_cmp (sch_ticket a ?= sch_ticket b) (str_cmp (sch_key a) (sch_key b))).

Fixpoint bt_insert (x : CacheAccessScheduleEntry) (l : list CacheAccessScheduleEntry)
    : list CacheAccessScheduleEntry :=
  match l with
  | [] => [x]
  | y :: l' =>
      match sch_cmp x y with
      | Lt => x :: l
      | Eq => l
      | Gt => y :: bt_insert x l'
      end
  end.

Definition bt_remove (x : CacheAccessScheduleEntry) (l : list CacheAccessScheduleEntry)
    : list CacheAccessScheduleEntry := filter (λ y, y ≠ x) l.

(** Source: crates/rginx-http/src/cache/index.rs:88-97 (CacheIndex::unschedule_entry_access) *)
Definition unschedule_entry_access (key : string) (i : CacheIndex) : CacheIndex :=
  match idx_access_ticket_by_key i !! key with
  | None => i
  | Some t =>
      with_schedule id
        (bt_remove (mkSchedule (tk_last_access_unix_ms t) (tk_ticket t) key)) (delete key) i
  end.

(** Source: crates/rginx-http/src/cache/index.rs:75-86 (CacheIndex::schedule_entry_access) *)
Definition schedule_entry_access (key : string) (last_access_unix_ms : Z) (i : CacheIndex)
    : CacheIndex :=
  let i := unschedule_entry_access key i in
  let ticket := idx_maintenance_next_ticket i in
  with_schedule (λ next, sat_add64 next 1)
    (bt_insert (mkSchedule last_access_unix_ms ticket key))
    <[key := mkTicket last_access_unix_ms ticket]> i.

(** Source: crates/rginx-http/src/cache/index.rs:45-49 (CacheIndex::reschedule_entry_access) *)
Definition reschedule_entry_access (key : string) (last_access_unix_ms : Z) (i : CacheIndex)
    : CacheIndex :=
  match idx_entries i !! key with
  | Some _ => schedule_entry_access key last_access_unix_ms i
  | None => i
  end.

(** Source: crates/rginx-http/src/cache/index.rs:51-53 (CacheIndex::oldest_scheduled_access_unix_ms) *)
Definition oldest_scheduled_access_unix_ms (i : CacheIndex) : option Z :=
  sch_last_access_unix_ms <$> head (idx_access_schedule i).

(** Source: crates/rginx-http/src/cache/index.rs:55-59 (CacheIndex::pop_oldest_scheduled_entry) *)
Definition pop_oldest_scheduled_entry (i : CacheIndex) : option (string * Z * CacheIndex) :=
  match idx_access_schedule i with
  | [] => None
  | scheduled :: _ =>
      Some (sch_key scheduled, sch_last_access_unix_ms scheduled,
            with_schedule id tail (delete (sch_key scheduled)) i)
  end.

(** ** Hash references *)

(** Source: crates/rginx-http/src/cache/index.rs:61-63 (CacheIndex::increment_hash_ref) *)
Definition increment_hash_ref (hash : string) (i : CacheIndex) : CacheIndex :=
  with_hash_ref_counts (λ m, <[hash := default 0 (m !! hash) + 1]> m) i.

(** Source: crates/rginx-http/src/cache/index.rs:65-73 (CacheIndex::decrement_hash_ref) *)
Definition decrement_hash_ref (hash : string) (i : CacheIndex) : CacheIndex :=
  with_hash_ref_counts (λ m,
    match m !! hash with
    | None => m
    | Some count =>
        let count := sat_sub count 1 in
        if count =? 0 then delete hash m else <[hash := count]> m
    end) i.

(** Source: crates/rginx-http/src/cache/index.rs:26-28 (CacheIndex::hash_is_referenced) *)
Definition hash_is_referenced (hash : string) (i : CacheIndex) : bool :=
  0 <? default 0 (idx_hash_ref_counts i !! hash).

(** ** Entries *)

(** Source: crates/rginx-http/src/cache/index.rs:4-17 (CacheIndex::insert_entry) *)
Definition insert_entry (key : string) (entry : CacheIndexEntry) (i : CacheIndex)
    : option CacheIndexEntry * CacheIndex :=
  let existing := idx_entries i !! key in
  let i := with_entries <[key := entry]> i in
  let i := match existing with
           | Some existing => decrement_hash_ref (ent_hash existing) i
           | None => i
           end in
  let i := increment_hash_ref (ent_hash entry) i in
  (existing, schedule_entry_access key (ent_last_access_unix_ms entry) i).

(** Source: crates/rginx-http/src/cache/index.rs:19-24 (CacheIndex::remove_entry) *)
Definition remove_entry (key : string) (i : CacheIndex) : option (CacheIndexEntry * CacheIndex) :=
  match idx_entries i !! key with
  | None => None
  | Some removed =>
      Some (removed,
            unschedule_entry_access key
              (decrement_hash_ref (ent_hash removed) (with_entries (delete key) i)))
  end.

(** Source: crates/rginx-http/src/cache/store/maintenance/index_state.rs:182-191 (add_variant_key) *)
Definition add_variant_key (base_key key : string) (m : gmap string (list string))
    : gmap string (list string) :=
  let keys := default [] (m !! base_key) in
  <[base_key := if bool_decide (key ∈ keys) then keys else keys ++ [key]]> m.

(** Source: crates/rginx-http/src/cache/store/maintenance/index_state.rs:193-205 (remove_variant_key) *)
Definition remove_variant_key (base_key key : string) (m : gmap string (list string))
    : gmap string (list string) :=
  match m !! base_key with
  | None => m
  | Some keys =>
      match filter (λ candidate, candidate ≠ key) keys with
      | [] => delete base_key m
      | keys => <[base_key := keys]> m
      end
  end.

(** ** Invalidation *)

(** Source: crates/rginx-http/src/cache/invalidation.rs:3-10 (invalidation_scope) *)
Definition invalidation_scope (selector : CacheInvalidationSelector) : string :=
  match selector with
  | SelAll => "all"
  | SelExact key => "key:" +:+ key
  | SelPrefix prefix => "prefix:" +:+ prefix
  | SelTag tag => "tag:" +:+ tag
  end.

(** Source: crates/rginx-http/src/cache/invalidation.rs:34-45 (selector_matches_entry) *)
Definition selector_matches_entry (selector : CacheInvalidationSelector) (key : string)
    (entry : CacheIndexEntry) : bool :=
  match selector with
  | SelAll => true
  | SelExact expected => str_eqb key expected
  | SelPrefix prefix => starts_with prefix key
  | SelTag tag => bool_decide (tag ∈ ent_tags entry)
  end.

(** Source: crates/rginx-http/src/cache/invalidation.rs:25-32 (invalidation_rule_matches_entry) *)
Definition invalidation_rule_matches_entry (rule : CacheInvalidationRule) (key : string)
    (entry : CacheIndexEntry) : bool :=
  (ent_stored_at_unix_ms entry <? rule_created_at_unix_ms rule) &&
  selector_matches_entry (rule_selector rule) key entry.

(** Source: crates/rginx-http/src/cache/invalidation.rs:17-23 (entry_is_logically_invalid) *)
Definition entry_is_logically_invalid (index : CacheIndex) (key : string)
    (entry : CacheIndexEntry) : bool :=
  existsb (λ rule, invalidation_rule_matches_entry rule key entry) (idx_invalidations index).

(** ** The zone *)

Section Zone.
Context {HTTP : HttpApi}.

(** Source: crates/rginx-http/src/cache/state.rs:135-139 (CacheEntryHotState) *)
Record CacheEntryHotState : Type := mkHot {
  hot_last_access_unix_ms : Z;
  hot_shared_touch_published_unix_ms : Z;
  hot_response_head : option PreparedCacheResponseHead;
}.

(** The counters of [CacheZoneStats], by name. *)
(** Source: crates/rginx-http/src/cache/state.rs:89-103 (CacheZoneStats) *)
Inductive CacheStat : Type :=
| hit_total | miss_total | bypass_total | expired_total | stale_total | updating_total
| revalidated_total | write_success_total | write_error_total | eviction_total | purge_total
| invalidation_total | inactive_cleanup_total.

(** The part of [CacheZoneRuntime] the index operations read and write; the
    fill locks are in [CacheLookup.v], and the shared store is the list of
    published operations. *)
(** Source: crates/rginx-http/src/cache/state.rs:3-18 (CacheZoneRuntime) *)
Record CacheZoneRuntime : Type := mkZoneRuntime {
  zr_config : CacheZone;
  zr_index : CacheIndex;
  zr_hot_entries : gmap string CacheEntryHotState;
  zr_last_inactive_cleanup_unix_ms : Z;
  zr_stats : CacheStat → Z;
}.

#[export] Instance CacheStat_eq_dec : EqDecision CacheStat.
Proof. solve_decision. Defined.

Definition with_index (f : CacheIndex → CacheIndex) (z : CacheZoneRuntime) : CacheZoneRuntime :=
  mkZoneRuntime (zr_config z) (f (zr_index z)) (zr_hot_entries z)
    (zr_last_inactive_cleanup_unix_ms z) (zr_stats z).
Definition with_hot (f : gmap string CacheEntryHotState → gmap string CacheEntryHotState)
    (z : CacheZoneRuntime) : CacheZoneRuntime :=
  mkZoneRuntime (zr_config z) (zr_index z) (f (zr_hot_entries z))
    (zr_last_inactive_cleanup_unix_ms z) (zr_stats z).

(** [fetch_add] wraps around. *)
(** Source: crates/rginx-http/src/cache/runtime/zone.rs:214-216 (CacheZoneRuntime::record_counter) *)
Definition record_counter (c : CacheStat) (value : Z) (z : CacheZoneRuntime) : CacheZoneRuntime :=
  mkZoneRuntime (zr_config z) (zr_index z) (zr_hot_entries z)
    (zr_last_inactive_cleanup_unix_ms z)
    (λ c', if decide (c = c') then wrap64 (zr_stats z c + value) else zr_stats z c').

(** [record_evictions], [record_purge], [record_invalidation] and
    [record_inactive_cleanup] count only positive numbers. *)
(** Source: crates/rginx-http/src/cache/runtime/zone.rs:166-188 (record_evictions, and its siblings) *)
Definition record_positive (c : CacheStat) (count : Z) (z : CacheZoneRuntime) : CacheZoneRuntime :=
  if 0 <? count then record_counter c count z else z.

Definition fresh_hot : CacheEntryHotState := mkHot 0 0 None.

(** Source: crates/rginx-http/src/cache/runtime/zone.rs:60-77 (CacheZoneRuntime::hot_entry_for_key) *)
Definition hot_entry_for_key (key : string) (z : CacheZoneRuntime)
    : CacheEntryHotState * CacheZoneRuntime :=
  match zr_hot_entries z !! key with
  | Some entry => (entry, z)
  | None => (fresh_hot, with_hot <[key := fresh_hot]> z)
  end.

(** Source: crates/rginx-http/src/cache/runtime/zone.rs:79-81 (CacheZoneRuntime::record_entry_access) *)
Definition record_entry_access (key : string) (now : Z) (z : CacheZoneRuntime)
    : CacheZoneRuntime :=
  let '(h, z) := hot_entry_for_key key z in
  with_hot <[key := mkHot (Z.max (hot_last_access_unix_ms h) now)
                      (hot_shared_touch_published_unix_ms h) (hot_response_head h)]> z.

Definition SHARED_ACCESS_TOUCH_PUBLISH_INTERVAL_MS : Z := 1000.

(** Without a concurrent writer the compare-exchange succeeds at once. *)
(** Source: crates/rginx-http/src/cache/runtime/zone.rs:83-100 (CacheZoneRuntime::should_publish_shared_entry_access) *)
Definition should_publish_shared_entry_access (key : string) (now : Z) (z : CacheZoneRuntime)
    : bool * CacheZoneRuntime :=
  let '(h, z) := hot_entry_for_key key z in
  let last_published := hot_shared_touch_published_unix_ms h in
  if negb (last_published =? 0) &&
     (sat_sub now last_published <? SHARED_ACCESS_TOUCH_PUBLISH_INTERVAL_MS)
  then (false, z)
  else (true, with_hot <[key := mkHot (hot_last_access_unix_ms h) now (hot_response_head h)]> z).

(** Source: crates/rginx-http/src/cache/runtime/zone.rs:102-110 (CacheZoneRuntime::effective_last_access_unix_ms) *)
Definition effective_last_access_unix_ms (hot : gmap string CacheEntryHotState) (key : string)
    (entry : CacheIndexEntry) : Z :=
  match hot !! key with
  | Some h => Z.max (hot_last_access_unix_ms h) (ent_last_access_unix_ms entry)
  | None => ent_last_access_unix_ms entry
  end.

(** Source: crates/rginx-http/src/cache/runtime/zone.rs:112-124 (CacheZoneRuntime::prepared_response_head) *)
Definition prepared_response_head (key expected_hash : string) (z : CacheZoneRuntime)
    : option PreparedCacheResponseHead :=
  h ← zr_hot_entries z !! key;
  head ← hot_response_head h;
  if str_eqb (ph_hash head) expected_hash then Some head else None.

(** Source: crates/rginx-http/src/cache/runtime/zone.rs:126-144 (CacheZoneRuntime::store_prepared_response_head) *)
Definition store_prepared_response_head (key : string) (last_access_unix_ms : Z)
    (response_head : PreparedCacheResponseHead) (z : CacheZoneRuntime) : CacheZoneRuntime :=
  let still_current :=
    match idx_entries (zr_index z) !! key with
    | Some entry => str_eqb (ent_hash entry) (ph_hash response_head)
    | None => false
    end in
  if negb still_current then z
  else
    let '(h, z) := hot_entry_for_key key z in
    with_hot <[key := mkHot (Z.max (hot_last_access_unix_ms h) last_access_unix_ms)
                        (hot_shared_touch_published_unix_ms h) (Some response_head)]> z.

(** Source: crates/rginx-http/src/cache/runtime/zone.rs:146-148 (CacheZoneRuntime::remove_hot_entry) *)
Definition remove_hot_entry (key : string) : CacheZoneRuntime → CacheZoneRuntime :=
  with_hot (delete key).

Definition remove_hot_entries (keys : list string) (z : CacheZoneRuntime) : CacheZoneRuntime :=
  foldl (λ z key, remove_hot_entry key z) z keys.
End Zone.

(** ** Operations published to the shared index *)

(** Source: crates/rginx-http/src/cache/shared.rs:42-50 (SharedIndexOperation) *)
Inductive SharedIndexOperation : Type :=
| UpsertEntry (key : string) (entry : CacheIndexEntry)
| RemoveEntry (key : string)
| TouchEntry (key : string) (last_access_unix_ms : Z)
| SetAdmissionCount (key : string) (uses : Z)
| RemoveAdmissionCount (key : string)
| AddInvalidation (rule : CacheInvalidationRule)
| ClearInvalidations.

Definition removal_operations (key : string) : list SharedIndexOperation :=
  [RemoveEntry key; RemoveAdmissionCount key].
