(* ===== verification/CacheMaintenance.v ===== *)
(** * Index maintenance: stores, evictions, purges and invalidations

    Models [crates/rginx-http/src/cache/store/maintenance/] and the follower of
    a shared index, [cache/shared/delta.rs].  The two loops that pop the access
    schedule take fuel; [None] is fuel exhaustion, and [eviction_terminates]
    and [cleanup_terminates] show that twice the schedule's length is enough. *)

From S2P Require Import Prelude RustStr External CacheConfig CacheTypes CacheRequest CachePolicy CacheStore CacheIndex.

(** Remove an entry, its size and its admission count. *)
Definition remove_accounted (key : string) (i : CacheIndex)
    : option (CacheIndexEntry * CacheIndex) :=
  match remove_entry key i with
  | None => None
  | Some (entry, i) =>
      Some (entry, with_admission_counts (delete key)
                     (with_current_size (λ s, sat_sub s (ent_body_size_bytes entry)) i))
  end.

Section Maintenance.
Context {HTTP : HttpApi}.
Notation hot_map := (gmap string CacheEntryHotState).

(** ** The schedule loops *)

(** Source: crates/rginx-http/src/cache/store/maintenance/index_state.rs:87-121 (eviction_candidates) *)
Fixpoint eviction_loop (fuel : nat) (hot : hot_map) (max_size_bytes : Z) (i : CacheIndex)
    (evicted : list (string * CacheIndexEntry))
    : option (list (string * CacheIndexEntry) * CacheIndex) :=
  if idx_current_size_bytes i <=? max_size_bytes then Some (evicted, i)
  else match fuel with
  | O => None
  | S fuel =>
      match pop_oldest_scheduled_entry i with
      | None => Some (evicted, i)
      | Some (key, scheduled, i) =>
          match idx_entries i !! key with
          | None => eviction_loop fuel hot max_size_bytes i evicted
          | Some entry =>
              let effective := effective_last_access_unix_ms hot key entry in
              if scheduled <? effective
              then eviction_loop fuel hot max_size_bytes
                     (reschedule_entry_access key effective i) evicted
              else match remove_accounted key i with
                   | Some (entry, i) =>
                       eviction_loop fuel hot max_size_bytes i (evicted ++ [(key, entry)])
                   | None => eviction_loop fuel hot max_size_bytes i evicted
                   end
          end
      end
  end.

Definition schedule_fuel (i : CacheIndex) : nat := S (2 * length (idx_access_schedule i)).

(** Source: crates/rginx-http/src/cache/store/maintenance/index_state.rs:87-121 (eviction_candidates) *)
Definition eviction_candidates (hot : hot_map) (max_size_bytes : option Z) (i : CacheIndex)
    : option (list (string * CacheIndexEntry) * CacheIndex) :=
  match max_size_bytes with
  | None => Some ([], i)
  | Some max_size_bytes => eviction_loop (schedule_fuel i) hot max_size_bytes i []
  end.

(** Source: crates/rginx-http/src/cache/store/maintenance/index_state.rs:123-172 (inactive_cleanup_candidates) *)
Fixpoint cleanup_loop (fuel : nat) (hot : hot_map) (now inactive_ms batch_size : Z)
    (i : CacheIndex) (removed : list (string * CacheIndexEntry))
    : option (list (string * CacheIndexEntry) * CacheIndex) :=
  let cutoff := sat_sub now inactive_ms in
  if batch_size <=? Z.of_nat (length removed) then Some (removed, i)
  else match oldest_scheduled_access_unix_ms i with
  | None => Some (removed, i)
  | Some oldest =>
      if cutoff <=? oldest then Some (removed, i)
      else match fuel with
      | O => None
      | S fuel =>
          match pop_oldest_scheduled_entry i with
          | None => Some (removed, i)
          | Some (key, scheduled, i) =>
              match idx_entries i !! key with
              | None => cleanup_loop fuel hot now inactive_ms batch_size i removed
              | Some entry =>
                  let effective := effective_last_access_unix_ms hot key entry in
                  if scheduled <? effective
                  then cleanup_loop fuel hot now inactive_ms batch_size
                         (reschedule_entry_access key effective i) removed
                  else if sat_sub now effective <=? inactive_ms
                  then cleanup_loop fuel hot now inactive_ms batch_size
                         (reschedule_entry_access key effective i) removed
                  else match remove_accounted key i with
                       | Some (entry, i) =>
                           cleanup_loop fuel hot now inactive_ms batch_size i
                             (removed ++ [(key, entry)])
                       | None => cleanup_loop fuel hot now inactive_ms batch_size i removed
                       end
              end
          end
      end
  end.

(** Source: crates/rginx-http/src/cache/store/maintenance/index_state.rs:123-172 (inactive_cleanup_candidates) *)
Definition inactive_cleanup_candidates (hot : hot_map) (now inactive_ms batch_size : Z)
    (i : CacheIndex) : option (list (string * CacheIndexEntry) * bool * CacheIndex) :=
  if batch_size =? 0 then Some ([], false, i)
  else
    '(removed, i) ← cleanup_loop (schedule_fuel i) hot now inactive_ms batch_size i [];
    let has_more_due :=
      match oldest_scheduled_access_unix_ms i with
      | Some last_access => last_access <? sat_sub now inactive_ms
      | None => false
      end in
    Some (removed, has_more_due, i).

(** ** Inactive cleanup *)

(** One turn of the cleanup loop: a batch is removed with its variants, its hot
    entries and its published operations. *)
(** Source: crates/rginx-http/src/cache/store/maintenance/mod.rs:43-76 (cleanup_inactive_entries_in_zone, one batch) *)
Definition cleanup_batch (now inactive_ms batch_size : Z) (z : CacheZoneRuntime)
    : option (list (string * CacheIndexEntry) * bool * list SharedIndexOperation *
              CacheZoneRuntime) :=
  '(removed, has_more_due, i) ←
    inactive_cleanup_candidates (zr_hot_entries z) now inactive_ms batch_size (zr_index z);
  let i := foldl (λ i r, with_variants (remove_variant_key (ent_base_key r.2) r.1) i) i removed in
  Some (removed, has_more_due, mjoin (map (λ r, removal_operations r.1) removed),
        remove_hot_entries (map fst removed) (with_index (λ _, i) z)).

(** Batches go on while entries remain due; [manager_sleep] between two of them
    lets other operations run and is not modelled. *)
(** Source: crates/rginx-http/src/cache/store/maintenance/mod.rs:21-83 (cleanup_inactive_entries_in_zone) *)
Fixpoint cleanup_batches (fuel : nat) (now inactive_ms batch_size : Z) (total : Z)
    (operations : list SharedIndexOperation) (z : CacheZoneRuntime)
    : option (Z * list SharedIndexOperation * CacheZoneRuntime) :=
  match fuel with
  | O => None
  | S fuel =>
      match cleanup_batch now inactive_ms batch_size z with
      | None => None
      | Some (removed, has_more_due, ops, z) =>
          let total := total + Z.of_nat (length removed) in
          if has_more_due : bool
          then cleanup_batches fuel now inactive_ms batch_size total (operations ++ ops) z
          else Some (total, operations ++ ops, z)
      end
  end.

Definition cleanup_fuel (z : CacheZoneRuntime) : nat :=
  S (length (map_to_list (idx_entries (zr_index z)))).

(** Source: crates/rginx-http/src/cache/store/maintenance/mod.rs:21-83 (cleanup_inactive_entries_in_zone) *)
Definition cleanup_inactive_entries_in_zone (now : Z) (z : CacheZoneRuntime)
    : option (list SharedIndexOperation * CacheZoneRuntime) :=
  let interval_ms := duration_to_ms (zone_inactive_cleanup_interval (zr_config z)) in
  let last_cleanup := zr_last_inactive_cleanup_unix_ms z in
  if negb (last_cleanup =? 0) && (sat_sub now last_cleanup <? interval_ms) then Some ([], z)
  else
    let z := mkZoneRuntime (zr_config z) (zr_index z) (zr_hot_entries z) now (zr_stats z) in
    '(total, operations, z) ←
      cleanup_batches (cleanup_fuel z) now (duration_to_ms (zone_inactive (zr_config z)))
        (Z.max (zone_manager_batch_entries (zr_config z)) 1) 0 [] z;
    Some (operations, record_positive inactive_cleanup_total total z).

(** ** Storing *)

(** Source: crates/rginx-http/src/cache/store/maintenance/index_state.rs:207-225 (variant_keys_with_different_dimensions) *)
Definition variant_keys_with_different_dimensions (i : CacheIndex) (entry : CacheIndexEntry)
    (key : string) : list string :=
  let expected_names := sorted_vary_dimension_names (ent_vary entry) in
  List.filter (λ candidate,
    negb (str_eqb candidate key) &&
    match idx_entries i !! candidate with
    | Some existing =>
        negb (bool_decide (sorted_vary_dimension_names (ent_vary existing) = expected_names))
    | None => false
    end)
    (default [] (idx_variants i !! ent_base_key entry)).

(** What a store has done so far: the index, the hashes and keys it removed,
    and the operations it publishes. *)
Record StoreUpdate : Type := mkUpdate {
  up_index : CacheIndex;
  up_removed_hashes : gset string;
  up_removed_keys : list string;
  up_operations : list SharedIndexOperation;
}.

Definition note_removed (entry_hash : string) (key : string) (removed : CacheIndexEntry)
    (operations : list SharedIndexOperation) (i : CacheIndex) (u : StoreUpdate) : StoreUpdate :=
  mkUpdate i
    (if str_eqb (ent_hash removed) entry_hash then up_removed_hashes u
     else {[ ent_hash removed ]} ∪ up_removed_hashes u)
    (up_removed_keys u ++ [key])
    (up_operations u ++ operations).

(** Remove [key] if it is there, with its variant. *)
Definition drop_variant (entry_hash key : string) (u : StoreUpdate) : StoreUpdate :=
  match remove_accounted key (up_index u) with
  | None => u
  | Some (removed, i) =>
      note_removed entry_hash key removed (removal_operations key)
        (with_variants (remove_variant_key (ent_base_key removed) key) i) u
  end.

(** The steps before eviction. *)
(** Source: crates/rginx-http/src/cache/store/maintenance/store_update.rs:9-67 (update_index_after_store, up to eviction) *)
Definition store_update (key : string) (entry : CacheIndexEntry)
    (replaced_entry : option (string * CacheIndexEntry)) (i : CacheIndex) : StoreUpdate :=
  let u := mkUpdate i ∅ [] [] in
  let u := match replaced_entry with
           | Some (replaced_key, expected_entry) =>
               match idx_entries i !! replaced_key with
               | Some current =>
                   if stable_eq current expected_entry
                   then drop_variant (ent_hash entry) replaced_key u else u
               | None => u
               end
           | None => u
           end in
  let u := foldl (λ u incompatible_key, drop_variant (ent_hash entry) incompatible_key u) u
             (variant_keys_with_different_dimensions (up_index u) entry key) in
  let u := match insert_entry key entry (up_index u) with
           | (Some existing, i) =>
               note_removed (ent_hash entry) key existing []
                 (with_variants (remove_variant_key (ent_base_key existing) key)
                    (with_current_size (λ s, sat_sub s (ent_body_size_bytes existing)) i)) u
           | (None, i) => mkUpdate i (up_removed_hashes u) (up_removed_keys u) (up_operations u)
           end in
  mkUpdate
    (with_current_size (λ s, sat_add64 s (ent_body_size_bytes entry))
      (with_variants (add_variant_key (ent_base_key entry) key)
        (with_admission_counts (delete key) (up_index u))))
    (up_removed_hashes u) (up_removed_keys u)
    (up_operations u ++ [UpsertEntry key entry; RemoveAdmissionCount key]).

(** The bookkeeping for one evicted entry, which the loop already removed. *)
Definition note_evicted (entry_hash : string) (u : StoreUpdate)
    (evicted : string * CacheIndexEntry) : StoreUpdate :=
  let '(key, removed) := evicted in
  note_removed entry_hash key removed (removal_operations key)
    (with_variants (remove_variant_key (ent_base_key removed) key)
      (with_admission_counts (delete key) (up_index u))) u.

(** Source: crates/rginx-http/src/cache/store/maintenance/store_update.rs:3-97 (update_index_after_store) *)
Definition update_index_after_store (key : string) (entry : CacheIndexEntry)
    (replaced_entry : option (string * CacheIndexEntry)) (z : CacheZoneRuntime)
    : option (gset string * list SharedIndexOperation * CacheZoneRuntime) :=
  let u := store_update key entry replaced_entry (zr_index z) in
  '(evicted, i) ← eviction_candidates (zr_hot_entries z) (zone_max_size_bytes (zr_config z))
                    (up_index u);
  let u := mkUpdate i (up_removed_hashes u) (up_removed_keys u) (up_operations u) in
  let u := foldl (note_evicted (ent_hash entry)) u evicted in
  Some (up_removed_hashes u, up_operations u,
        record_positive eviction_total (Z.of_nat (length evicted))
          (remove_hot_entries (up_removed_keys u) (with_index (λ _, up_index u) z))).

(** ** Admission *)

(** Source: crates/rginx-http/src/cache/store/maintenance/index_state.rs:19-54 (record_cache_admission_attempt) *)
Definition record_cache_admission_attempt (key : string) (min_uses : Z) (i : CacheIndex)
    : bool * list SharedIndexOperation * CacheIndex :=
  if (min_uses <=? 1) || bool_decide (is_Some (idx_entries i !! key)) then
    (true,
     match idx_admission_counts i !! key with
     | Some _ => [RemoveAdmissionCount key]
     | None => []
     end,
     with_admission_counts (delete key) i)
  else
    let uses := sat_add64 (default 0 (idx_admission_counts i !! key)) 1 in
    if min_uses <=? uses
    then (true, [RemoveAdmissionCount key], with_admission_counts (delete key) i)
    else (false, [SetAdmissionCount key uses], with_admission_counts <[key := uses]> i).

(** ** Removal *)

(** [None]: no entry, or not the expected one.  The boolean says whether the
    files of the returned hash are to be deleted. *)
(** Source: crates/rginx-http/src/cache/store/maintenance/index_state.rs:56-85 (remove_zone_index_entry_if_matches) *)
Definition remove_zone_index_entry_if_matches (key : string) (expected_entry : CacheIndexEntry)
    (z : CacheZoneRuntime)
    : option (string * bool * list SharedIndexOperation * CacheZoneRuntime) :=
  current ← idx_entries (zr_index z) !! key;
  if negb (stable_eq current expected_entry) then None
  else
    '(removed, i) ← remove_accounted key (zr_index z);
    let i := with_variants (remove_variant_key (ent_base_key removed) key) i in
    let delete_files := negb (hash_is_referenced (ent_hash removed) i) in
    Some (ent_hash removed, delete_files, removal_operations key,
          remove_hot_entry key (with_index (λ _, i) z)).

(** ** Purge *)

(** Source: crates/rginx-http/src/cache/runtime/support.rs:116-120 (PurgeSelector) *)
Inductive PurgeSelector : Type :=
| PurgeAll | PurgeExact (key : string) | PurgePrefix (prefix : string).

(** Source: crates/rginx-http/src/cache/store/helpers.rs:198-204 (purge_selector_matches) *)
Definition purge_selector_matches (selector : PurgeSelector) (key : string) : bool :=
  match selector with
  | PurgeAll => true
  | PurgeExact expected => str_eqb key expected
  | PurgePrefix prefix => starts_with prefix key
  end.

(** Source: crates/rginx-http/src/cache/store/helpers.rs:206-212 (purge_scope) *)
Definition purge_scope (selector : PurgeSelector) : string :=
  match selector with
  | PurgeAll => "all"
  | PurgeExact key => "key:" +:+ key
  | PurgePrefix prefix => "prefix:" +:+ prefix
  end.

(** Remove the given keys, each with its variant. *)
Definition purge_keys (keys : list string) (i : CacheIndex)
    : list (string * CacheIndexEntry) * CacheIndex :=
  foldl (λ '(removed, i) key,
    match remove_accounted key i with
    | None => (removed, i)
    | Some (entry, i) =>
        (removed ++ [(key, entry)],
         with_variants (remove_variant_key (ent_base_key entry) key) i)
    end) ([], i) keys.

(** The order in which a [HashMap] lists its keys does not matter here. *)
Definition entry_keys (i : CacheIndex) : list string := map fst (map_to_list (idx_entries i)).

(** Removed entries, removed bytes and published operations. *)
(** Source: crates/rginx-http/src/cache/store/maintenance/mod.rs:85-133 (purge_zone_entries) *)
Definition purge_zone_entries (selector : PurgeSelector) (z : CacheZoneRuntime)
    : list (string * CacheIndexEntry) * Z * list SharedIndexOperation * CacheZoneRuntime :=
  let matching_keys := List.filter (purge_selector_matches selector) (entry_keys (zr_index z)) in
  let '(removed, i) := purge_keys matching_keys (zr_index z) in
  (removed, zsum (map (λ r, ent_body_size_bytes r.2) removed),
   mjoin (map (λ r, removal_operations r.1) removed),
   remove_hot_entries (map fst removed)
     (record_positive purge_total (Z.of_nat (length removed)) (with_index (λ _, i) z))).

(** ** Logical invalidation *)

Definition entries_matching (f : string → CacheIndexEntry → bool) (i : CacheIndex)
    : list (string * CacheIndexEntry) :=
  List.filter (λ '(key, entry), f key entry) (map_to_list (idx_entries i)).

(** Affected entries and published operations. *)
(** Source: crates/rginx-http/src/cache/store/maintenance/mod.rs:135-176 (invalidate_zone_entries) *)
Definition invalidate_zone_entries (selector : CacheInvalidationSelector) (now : Z)
    (z : CacheZoneRuntime)
    : list (string * CacheIndexEntry) * list SharedIndexOperation * CacheZoneRuntime :=
  let rule := mkRule selector now in
  let affected := entries_matching (invalidation_rule_matches_entry rule) (zr_index z) in
  (affected, [AddInvalidation rule],
   record_positive invalidation_total (Z.of_nat (length affected))
     (remove_hot_entries (map fst affected)
        (with_index (with_invalidations (λ rules, rules ++ [rule])) z))).

(** Source: crates/rginx-http/src/cache/store/maintenance/mod.rs:178-213 (clear_zone_invalidations) *)
Definition clear_zone_invalidations (z : CacheZoneRuntime)
    : list (string * CacheIndexEntry) * list SharedIndexOperation * CacheZoneRuntime :=
  let affected := entries_matching (entry_is_logically_invalid (zr_index z)) (zr_index z) in
  (affected, [ClearInvalidations],
   remove_hot_entries (map fst affected) (with_index (with_invalidations (λ _, [])) z)).

(** ** Access records *)

Definition touch_entry (key : string) (last_access_unix_ms : Z) (i : CacheIndex)
    : option CacheIndex :=
  entry ← idx_entries i !! key;
  if ent_last_access_unix_ms entry <? last_access_unix_ms then
    Some (reschedule_entry_access key last_access_unix_ms
      (with_entries <[key := mkIndexEntry (ent_kind entry) (ent_hash entry) (ent_base_key entry)
         (ent_stored_at_unix_ms entry) (ent_vary entry) (ent_tags entry)
         (ent_body_size_bytes entry) (ent_expires_at_unix_ms entry)
         (ent_grace_until_unix_ms entry) (ent_keep_until_unix_ms entry)
         (ent_stale_if_error_until_unix_ms entry)
         (ent_stale_while_revalidate_until_unix_ms entry) (ent_requires_revalidation entry)
         (ent_must_revalidate entry) last_access_unix_ms]> i))
  else None.

(** Source: crates/rginx-http/src/cache/shared.rs:159-188 (record_zone_shared_entry_access) *)
Definition record_zone_shared_entry_access (key : string) (last_access_unix_ms : Z)
    (z : CacheZoneRuntime) : list SharedIndexOperation * CacheZoneRuntime :=
  let z := record_entry_access key last_access_unix_ms z in
  let '(publish, z) := should_publish_shared_entry_access key last_access_unix_ms z in
  if negb publish then ([], z)
  else match touch_entry key last_access_unix_ms (zr_index z) with
       | Some i => ([TouchEntry key last_access_unix_ms], with_index (λ _, i) z)
       | None => ([], z)
       end.

(** ** The follower of a shared index *)

(** Source: crates/rginx-http/src/cache/shared/delta.rs:26-77 (apply_shared_index_delta) *)
Definition apply_shared_index_operation (operation : SharedIndexOperation)
    (z : CacheZoneRuntime) : CacheZoneRuntime :=
  match operation with
  | UpsertEntry key entry =>
      let z := remove_hot_entry key z in
      let '(existing, i) := insert_entry key entry (zr_index z) in
      let i := match existing with
               | Some existing =>
                   with_variants (remove_variant_key (ent_base_key existing) key)
                     (with_current_size (λ s, sat_sub s (ent_body_size_bytes existing)) i)
               | None => i
               end in
      with_index (λ _, with_current_size (λ s, sat_add64 s (ent_body_size_bytes entry))
                         (with_variants (add_variant_key (ent_base_key entry) key) i)) z
  | RemoveEntry key =>
      let z := remove_hot_entry key z in
      match remove_entry key (zr_index z) with
      | Some (removed, i) =>
          with_index (λ _, with_variants (remove_variant_key (ent_base_key removed) key)
            (with_current_size (λ s, sat_sub s (ent_body_size_bytes removed)) i)) z
      | None => z
      end
  | TouchEntry key last_access_unix_ms =>
      match touch_entry key last_access_unix_ms (zr_index z) with
      | Some i => with_index (λ _, i) z
      | None => z
      end
  | SetAdmissionCount key uses => with_index (with_admission_counts <[key := uses]>) z
  | RemoveAdmissionCount key => with_index (with_admission_counts (delete key)) z
  | AddInvalidation rule =>
      let z := with_index (with_invalidations (λ rules,
        if existsb (λ r, bool_decide (rule_created_at_unix_ms r = rule_created_at_unix_ms rule) &&
                         match rule_selector r, rule_selector rule with
                         | SelAll, SelAll => true
                         | SelExact a, SelExact b | SelPrefix a, SelPrefix b
                         | SelTag a, SelTag b => str_eqb a b
                         | _, _ => false
                         end) rules
        then rules else rules ++ [rule])) z in
      remove_hot_entries
        (map fst (entries_matching (invalidation_rule_matches_entry rule) (zr_index z))) z
  | ClearInvalidations => with_index (with_invalidations (λ _, [])) z
  end.

(** Source: crates/rginx-http/src/cache/shared/delta.rs:26-77 (apply_shared_index_delta) *)
Definition apply_shared_index_delta (operations : list SharedIndexOperation)
    (z : CacheZoneRuntime) : CacheZoneRuntime :=
  foldl (λ z operation, apply_shared_index_operation operation z) z operations.
End Maintenance.
