(* ===== verification/CacheInvariant.v ===== *)
(** * The cache index: invariant, termination and replication

    The entries of a zone are the truth; the reference counts, the variant
    lists, the byte count and the access schedule are derived from them.  This
    file states that relation and proves that every operation of
    [CacheMaintenance.v] preserves it. *)

From S2P Require Import Prelude RustStr External CacheConfig CacheTypes CacheRequest CachePolicy CacheStore CacheIndex CacheMaintenance.

(** ** Sums over the entries *)

Definition msum (f : CacheIndexEntry → Z) (m : gmap string CacheIndexEntry) : Z :=
  zsum (map (λ p, f p.2) (map_to_list m)).

#[export] Instance zsum_perm : Proper ((≡ₚ) ==> (=)) zsum.
Proof. induction 1; simpl; lia. Qed.

Lemma msum_empty f : msum f ∅ = 0.
Proof. unfold msum. by rewrite map_to_list_empty. Qed.

Lemma msum_insert f m k e : m !! k = None → msum f (<[k:=e]> m) = f e + msum f m.
Proof.
  intros Hk. unfold msum.
  assert (Hp : map (λ p, f p.2) (map_to_list (<[k:=e]> m)) ≡ₚ
               f e :: map (λ p, f p.2) (map_to_list m)).
  { change (f e :: map (λ p, f p.2) (map_to_list m)) with
      (map (λ p : string * CacheIndexEntry, f p.2) ((k, e) :: map_to_list m)).
    by rewrite map_to_list_insert. }
  by rewrite Hp.
Qed.

Lemma msum_delete f m k e : m !! k = Some e → msum f m = f e + msum f (delete k m).
Proof.
  intros Hk. rewrite <-(insert_delete_id m k e) at 1 by done.
  by rewrite msum_insert by apply lookup_delete_eq.
Qed.

Lemma msum_nonneg f m : (∀ k e, m !! k = Some e → 0 ≤ f e) → 0 ≤ msum f m.
Proof.
  intros Hf. unfold msum. apply zsum_nonneg, Forall_map, Forall_forall.
  intros [k e] Hin%elem_of_map_to_list. by apply (Hf k).
Qed.

Lemma msum_ext f m m' : m = m' → msum f m = msum f m'.
Proof. by intros ->. Qed.

(** ** The schedule *)

Lemma sch_cmp_eq a b : sch_cmp a b = Eq → a = b.
Proof.
  unfold sch_cmp, then_cmp. destruct (_ ?= _) eqn:H1; [|done..].
  destruct (sch_ticket a ?= _) eqn:H2; [|done..]. intros H3.
  apply Z.compare_eq in H1, H2. apply str_cmp_eq in H3. destruct a, b; simpl in *. by subst.
Qed.

Lemma elem_of_bt_insert x y l : y ∈ bt_insert x l ↔ y = x ∨ y ∈ l.
Proof.
  induction l as [|z l IH]; simpl; [set_solver|].
  destruct (sch_cmp x z) eqn:Hc.
  - apply sch_cmp_eq in Hc as ->. set_solver.
  - set_solver.
  - rewrite !elem_of_cons, IH. tauto.
Qed.

Lemma elem_of_bt_remove x y l : y ∈ bt_remove x l ↔ y ≠ x ∧ y ∈ l.
Proof. unfold bt_remove. by rewrite list_elem_of_filter. Qed.

Lemma sch_cmp_refl a : sch_cmp a a = Eq.
Proof.
  unfold sch_cmp. rewrite !Z.compare_refl. simpl. by apply str_cmp_eq.
Qed.

Lemma sch_cmp_antisym a b : sch_cmp a b = CompOpp (sch_cmp b a).
Proof.
  unfold sch_cmp. rewrite (Z.compare_antisym (sch_last_access_unix_ms b)),
    (Z.compare_antisym (sch_ticket b)), (str_cmp_antisym (sch_key a)).
  destruct (_ ?= _); simpl; [|done..]. by destruct (_ ?= _).
Qed.

Lemma sch_cmp_lt_trans a b c : sch_cmp a b = Lt → sch_cmp b c = Lt → sch_cmp a c = Lt.
Proof.
  intros H1 H2.
  destruct (sch_cmp a c) eqn:H3; [| done |]; exfalso.
  - apply sch_cmp_eq in H3 as ->. rewrite sch_cmp_antisym, H2 in H1. done.
  - revert H1 H2 H3. unfold sch_cmp, then_cmp.
    destruct (sch_last_access_unix_ms a ?= sch_last_access_unix_ms b) eqn:A1;
      destruct (sch_last_access_unix_ms b ?= sch_last_access_unix_ms c) eqn:B1; try done;
      destruct (sch_last_access_unix_ms a ?= sch_last_access_unix_ms c) eqn:C1; try done;
      rewrite ?Z.compare_eq_iff, ?Z.compare_lt_iff, ?Z.compare_gt_iff in *; try lia;
    destruct (sch_ticket a ?= sch_ticket b) eqn:A2;
      destruct (sch_ticket b ?= sch_ticket c) eqn:B2; try done;
      destruct (sch_ticket a ?= sch_ticket c) eqn:C2; try done;
      rewrite ?Z.compare_eq_iff, ?Z.compare_lt_iff, ?Z.compare_gt_iff in *; try lia.
    intros H1 H2 H3. eapply (str_cmp_le_trans _ (sch_key b)); [| |exact H3]; congruence.
Qed.

Notation sch_sorted := (Sorted.StronglySorted (λ x y, sch_cmp x y = Lt)).

Lemma bt_insert_sorted x l : sch_sorted l → sch_sorted (bt_insert x l).
Proof.
  induction 1 as [|y l Hl IH Hy]; simpl; [repeat constructor|].
  destruct (sch_cmp x y) eqn:Hc.
  - by constructor.
  - constructor; [by constructor|]. constructor; [done|].
    eapply Forall_impl; [exact Hy|]. intros z. by apply sch_cmp_lt_trans.
  - constructor; [done|]. apply Forall_forall. intros z [->|Hz]%elem_of_bt_insert.
    + by rewrite sch_cmp_antisym, Hc.
    + rewrite Forall_forall in Hy. by apply Hy.
Qed.

Lemma bt_remove_sorted x l : sch_sorted l → sch_sorted (bt_remove x l).
Proof.
  unfold bt_remove. induction 1 as [|y l Hl IH Hy]; simpl; [constructor|].
  rewrite filter_cons. case_decide; [|done]. constructor; [done|].
  apply Forall_forall. intros z [_ Hz]%list_elem_of_filter. rewrite Forall_forall in Hy. by apply Hy.
Qed.

(** The schedule and the ticket map describe each other. *)
Record sched_ok (sched : list CacheAccessScheduleEntry)
    (tickets : gmap string CacheAccessScheduleTicket) : Prop := {
  sched_sorted : sch_sorted sched;
  sched_tickets k t :
    tickets !! k = Some t ↔ mkSchedule (tk_last_access_unix_ms t) (tk_ticket t) k ∈ sched;
}.

Notation isched i := (sched_ok (idx_access_schedule i) (idx_access_ticket_by_key i)).

Lemma unschedule_ok key i :
  isched i →
  isched (unschedule_entry_access key i) ∧
  idx_access_ticket_by_key (unschedule_entry_access key i) =
    delete key (idx_access_ticket_by_key i).
Proof.
  intros Hok. pose proof Hok as [Hs Ht]. unfold unschedule_entry_access.
  destruct (idx_access_ticket_by_key i !! key) as [t|] eqn:Hk; cbn.
  - split; [|done]. split; [by apply bt_remove_sorted|]. intros k t'.
    rewrite elem_of_bt_remove, <-Ht.
    destruct (decide (k = key)) as [->|Hne].
    + rewrite lookup_delete_eq. split; [done|]. intros [Hd Hl]. rewrite Hk in Hl.
      by simplify_eq.
    + rewrite lookup_delete_ne by done. naive_solver.
  - by rewrite delete_id.
Qed.

Lemma schedule_ok key last i :
  isched i →
  isched (schedule_entry_access key last i) ∧
  ∃ t, idx_access_ticket_by_key (schedule_entry_access key last i) =
    <[key := t]> (idx_access_ticket_by_key i).
Proof.
  intros [Hok Hdel]%(unschedule_ok key). unfold schedule_entry_access.
  set (j := unschedule_entry_access key i) in *. destruct Hok as [Hs Ht]. cbn. split.
  - split; [by apply bt_insert_sorted|]. intros k t. rewrite elem_of_bt_insert.
    destruct (decide (k = key)) as [->|Hne].
    + rewrite lookup_insert_eq. split.
      * intros [= <-]. by left.
      * intros [Heq|Hin]; [destruct t; simpl in *; by simplify_eq|].
        apply Ht in Hin. by rewrite Hdel, lookup_delete_eq in Hin.
    + rewrite lookup_insert_ne by done. rewrite Ht. split; [by right|].
      intros [Heq|Hin]; [by simplify_eq|done].
  - eexists. by rewrite Hdel, insert_delete_eq.
Qed.

Lemma pop_ok i k scheduled i' :
  isched i → pop_oldest_scheduled_entry i = Some (k, scheduled, i') →
  isched i' ∧ idx_access_ticket_by_key i' = delete k (idx_access_ticket_by_key i) ∧
  is_Some (idx_access_ticket_by_key i !! k) ∧
  idx_access_schedule i =
    mkSchedule scheduled (sch_ticket (default (mkSchedule 0 0 k) (head (idx_access_schedule i)))) k
    :: idx_access_schedule i'.
Proof.
  unfold pop_oldest_scheduled_entry. intros [Hs Ht].
  destruct (idx_access_schedule i) as [|[l tk key] sched] eqn:Hsch; [done|].
  intros [= <- <- <-]. cbn. rewrite Hsch. cbn.
  assert (Hkey : idx_access_ticket_by_key i !! key = Some (mkTicket l tk)).
  { apply Ht. cbn. left. }
  apply Sorted.StronglySorted_inv in Hs as [Hs Hall]. rewrite Forall_forall in Hall.
  split_and!; [|done|by eexists|done]. split; [done|]. intros k t.
  destruct (decide (k = key)) as [->|Hne].
  - rewrite lookup_delete_eq. split; [done|]. intros Hin. exfalso.
    assert (Hin' : mkSchedule (tk_last_access_unix_ms t) (tk_ticket t) key ∈
                   mkSchedule l tk key :: sched) by (by right).
    apply Ht in Hin'. rewrite Hkey in Hin'. injection Hin' as <-. cbn in Hin.
    specialize (Hall _ Hin). by rewrite sch_cmp_refl in Hall.
  - rewrite lookup_delete_ne by done. rewrite Ht. rewrite elem_of_cons.
    split; [intros [[=]|]; [congruence|done]|by right].
Qed.

(** ** Reference counts *)

Definition has_hash (h : string) (e : CacheIndexEntry) : Z :=
  if decide (ent_hash e = h) then 1 else 0.

Definition positive (n : Z) : option Z := if n =? 0 then None else Some n.

(** The counter of a hash is the number of entries with that hash; absent
    when there is none. *)
Definition refs_ok (m : gmap string CacheIndexEntry) (r : gmap string Z) : Prop :=
  ∀ h, r !! h = positive (msum (has_hash h) m).

Definition refs_incr (h : string) (r : gmap string Z) : gmap string Z :=
  <[h := default 0 (r !! h) + 1]> r.
Definition refs_decr (h : string) (r : gmap string Z) : gmap string Z :=
  match r !! h with
  | None => r
  | Some count =>
      let count := sat_sub count 1 in
      if count =? 0 then delete h r else <[h := count]> r
  end.

Lemma has_hash_nonneg h m : 0 ≤ msum (has_hash h) m.
Proof. apply msum_nonneg. intros k e _. unfold has_hash. case_decide; lia. Qed.

Lemma refs_incr_ok m r k e :
  m !! k = None → refs_ok m r → refs_ok (<[k:=e]> m) (refs_incr (ent_hash e) r).
Proof.
  intros Hk Hr h. unfold refs_incr. rewrite msum_insert by done. unfold has_hash at 1.
  pose proof (has_hash_nonneg h m).
  case_decide as Hh; subst.
  - rewrite lookup_insert_eq, Hr. unfold positive.
    repeat (case_match; simpl in *; boolify); f_equal; lia.
  - rewrite lookup_insert_ne by done. by rewrite Hr.
Qed.

Lemma refs_decr_ok m r k e :
  m !! k = Some e → refs_ok m r → refs_ok (delete k m) (refs_decr (ent_hash e) r).
Proof.
  intros Hk Hr h. pose proof (msum_delete (has_hash h) m k e Hk) as Hs.
  pose proof (msum_delete (has_hash (ent_hash e)) m k e Hk) as Hse.
  pose proof (has_hash_nonneg h (delete k m)).
  pose proof (has_hash_nonneg (ent_hash e) (delete k m)).
  unfold refs_decr. pose proof (Hr (ent_hash e)) as Hre. rewrite Hse in Hre.
  unfold has_hash in Hre at 1. rewrite decide_True in Hre by done.
  unfold positive in Hre. replace (_ =? 0) with false in Hre by lia. rewrite Hre.
  cbv zeta. unfold has_hash in Hs at 2. unfold sat_sub.
  destruct (decide (ent_hash e = h)) as [<-|Hne].
  - destruct (Z.max _ 0 =? 0) eqn:Hz; boolify.
    + rewrite lookup_delete_eq. unfold positive. by replace (_ =? 0) with true by lia.
    + rewrite lookup_insert_eq. unfold positive. replace (_ =? 0) with false by lia.
      f_equal. lia.
  - destruct (Z.max _ 0 =? 0) eqn:Hz; boolify.
    + rewrite lookup_delete_ne by done. rewrite Hr, Hs. done.
    + rewrite lookup_insert_ne by done. rewrite Hr, Hs. done.
Qed.

(** ** Variants *)

(** The variants of a base key are the keys of the entries filed under it, each
    once; a base key without entries is absent. *)
Record variants_ok (m : gmap string CacheIndexEntry) (v : gmap string (list string)) : Prop := {
  var_keys b k : k ∈ default [] (v !! b) ↔ ∃ e, m !! k = Some e ∧ ent_base_key e = b;
  var_lists b l : v !! b = Some l → l ≠ [] ∧ NoDup l;
}.

Lemma remove_variant_elem b b' k k' v :
  k' ∈ default [] (remove_variant_key b k v !! b') ↔
  k' ∈ default [] (v !! b') ∧ ¬ (b' = b ∧ k' = k).
Proof.
  unfold remove_variant_key. destruct (v !! b) as [keys|] eqn:Hb.
  - destruct (filter (λ c, c ≠ k) keys) as [|x l] eqn:Hf.
    + destruct (decide (b' = b)) as [->|Hne].
      * rewrite lookup_delete_eq, Hb. simpl. split; [set_solver|].
        intros [Hin Hn]. assert (k' ∈ filter (λ c, c ≠ k) keys) as Hin'.
        { apply list_elem_of_filter. naive_solver. }
        rewrite Hf in Hin'. set_solver.
      * rewrite lookup_delete_ne by done. naive_solver.
    + destruct (decide (b' = b)) as [->|Hne].
      * rewrite lookup_insert_eq, Hb, <-Hf. simpl. rewrite list_elem_of_filter. naive_solver.
      * rewrite lookup_insert_ne by done. naive_solver.
  - split; [|naive_solver]. intros Hin. split; [done|]. intros [-> ->]. rewrite Hb in Hin.
    set_solver.
Qed.

Lemma remove_variant_lists b k v b' l :
  (∀ b l, v !! b = Some l → l ≠ [] ∧ NoDup l) →
  remove_variant_key b k v !! b' = Some l → l ≠ [] ∧ NoDup l.
Proof.
  intros Hv. unfold remove_variant_key. destruct (v !! b) as [keys|] eqn:Hb; [|apply Hv].
  destruct (Hv _ _ Hb) as [_ Hnd]. pose proof (NoDup_filter (λ c, c ≠ k) keys Hnd) as Hf.
  destruct (filter (λ c, c ≠ k) keys) as [|x r].
  - intros Hl. apply lookup_delete_Some in Hl as [_ Hl]. by eapply Hv.
  - intros [[<- <-]|[_ Hl]]%lookup_insert_Some; [done|by eapply Hv].
Qed.

Lemma remove_variant_ok m v k e :
  m !! k = Some e → variants_ok m v →
  variants_ok (delete k m) (remove_variant_key (ent_base_key e) k v).
Proof.
  intros Hk [Hkeys Hlists]. split.
  - intros b k'. rewrite remove_variant_elem, Hkeys. setoid_rewrite lookup_delete_Some.
    split; [intros [(e' & He & Hb) Hn]|intros (e' & [Hne He] & Hb)].
    + exists e'. split_and!; [|done|done]. intros ->. simplify_eq. by apply Hn.
    + split; [by exists e'|]. intros [_ ->]. done.
  - intros b l. by apply remove_variant_lists.
Qed.

Lemma add_variant_elem b b' k k' v :
  k' ∈ default [] (add_variant_key b k v !! b') ↔
  k' ∈ default [] (v !! b') ∨ (b' = b ∧ k' = k).
Proof.
  unfold add_variant_key. destruct (decide (b' = b)) as [->|Hne].
  - rewrite lookup_insert_eq. simpl. case_bool_decide; [|rewrite elem_of_app, elem_of_list_singleton || rewrite elem_of_app]; set_solver.
  - rewrite lookup_insert_ne by done. naive_solver.
Qed.

Lemma add_variant_ok m v k e :
  m !! k = None → variants_ok m v →
  variants_ok (<[k:=e]> m) (add_variant_key (ent_base_key e) k v).
Proof.
  intros Hk [Hkeys Hlists]. split.
  - intros b k'. rewrite add_variant_elem, Hkeys. setoid_rewrite lookup_insert_Some.
    split; [intros [(e' & He & Hb)|[-> ->]]|intros (e' & [[<- <-]|[Hne He]] & Hb)].
    + exists e'. split; [right; split; [congruence|done]|done].
    + exists e. split; [by left|done].
    + right. done.
    + left. by exists e'.
  - intros b l. unfold add_variant_key. intros [[<- <-]|[_ Hl]]%lookup_insert_Some;
      [|by eapply Hlists].
    destruct (v !! ent_base_key e) as [keys|] eqn:Hb; simpl.
    + destruct (Hlists _ _ Hb) as [Hne Hnd]. case_bool_decide as Hin; [done|]. split.
      * by destruct keys.
      * apply NoDup_app. split_and!; [done| |apply NoDup_singleton]. set_solver.
    + split; [done|apply NoDup_singleton].
Qed.

(** ** The invariant *)

Definition body_of (e : CacheIndexEntry) : Z := ent_body_size_bytes e.
(** Sizes and times are unsigned. *)
Definition entry_ok (e : CacheIndexEntry) : Prop :=
  0 ≤ ent_body_size_bytes e ∧ 0 ≤ ent_last_access_unix_ms e.
Definition bodies_ok (m : gmap string CacheIndexEntry) : Prop :=
  ∀ k e, m !! k = Some e → entry_ok e.
Definition times_ok (i : CacheIndex) : Prop :=
  Forall (λ x, 0 ≤ sch_last_access_unix_ms x) (idx_access_schedule i).

(** Everything derived from the entries, the variant lists aside: the schedule
    loops leave those to their callers.  [miss] is the key the loop has popped
    from the schedule and not yet put back. *)
Record core_miss (miss : option string) (i : CacheIndex) : Prop := {
  core_sched : isched i;
  core_cover k :
    is_Some (idx_access_ticket_by_key i !! k) ↔ is_Some (idx_entries i !! k) ∧ miss ≠ Some k;
  core_refs : refs_ok (idx_entries i) (idx_hash_ref_counts i);
  core_size : idx_current_size_bytes i = msum body_of (idx_entries i);
  core_bodies : bodies_ok (idx_entries i);
  core_times : times_ok i;
}.

Notation core_ok := (core_miss None).

Record index_ok (i : CacheIndex) : Prop := {
  ok_core : core_ok i;
  ok_variants : variants_ok (idx_entries i) (idx_variants i);
}.

Lemma empty_index_ok : index_ok empty_index.
Proof.
  split; [split|split]; cbn.
  - split; [constructor|]. intros k t. rewrite lookup_empty. set_solver.
  - intros k. rewrite !lookup_empty. by split; [intros [??]|intros [[??] _]].
  - intros h. rewrite lookup_empty, msum_empty. done.
  - by rewrite msum_empty.
  - intros k e. by rewrite lookup_empty.
  - constructor.
  - intros b k. rewrite lookup_empty. setoid_rewrite lookup_empty. set_solver.
  - intros b l. by rewrite lookup_empty.
Qed.

Lemma unschedule_frame key i :
  idx_entries (unschedule_entry_access key i) = idx_entries i ∧
  idx_hash_ref_counts (unschedule_entry_access key i) = idx_hash_ref_counts i ∧
  idx_variants (unschedule_entry_access key i) = idx_variants i ∧
  idx_admission_counts (unschedule_entry_access key i) = idx_admission_counts i ∧
  idx_invalidations (unschedule_entry_access key i) = idx_invalidations i ∧
  idx_current_size_bytes (unschedule_entry_access key i) = idx_current_size_bytes i.
Proof. unfold unschedule_entry_access. by case_match. Qed.

Lemma schedule_frame key last i :
  idx_entries (schedule_entry_access key last i) = idx_entries i ∧
  idx_hash_ref_counts (schedule_entry_access key last i) = idx_hash_ref_counts i ∧
  idx_variants (schedule_entry_access key last i) = idx_variants i ∧
  idx_admission_counts (schedule_entry_access key last i) = idx_admission_counts i ∧
  idx_invalidations (schedule_entry_access key last i) = idx_invalidations i ∧
  idx_current_size_bytes (schedule_entry_access key last i) = idx_current_size_bytes i.
Proof. unfold schedule_entry_access. cbn. apply unschedule_frame. Qed.

Lemma pop_frame i k scheduled i' :
  pop_oldest_scheduled_entry i = Some (k, scheduled, i') →
  idx_entries i' = idx_entries i ∧ idx_hash_ref_counts i' = idx_hash_ref_counts i ∧
  idx_variants i' = idx_variants i ∧ idx_admission_counts i' = idx_admission_counts i ∧
  idx_invalidations i' = idx_invalidations i ∧
  idx_current_size_bytes i' = idx_current_size_bytes i.
Proof. unfold pop_oldest_scheduled_entry. case_match; [done|]. by intros [= <- <- <-]. Qed.

Lemma unschedule_sub k i x :
  x ∈ idx_access_schedule (unschedule_entry_access k i) → x ∈ idx_access_schedule i.
Proof.
  unfold unschedule_entry_access. destruct (idx_access_ticket_by_key i !! k); [|done]. cbn.
  by intros [_ ?]%elem_of_bt_remove.
Qed.

Lemma unschedule_times k i : times_ok i → times_ok (unschedule_entry_access k i).
Proof.
  unfold times_ok. rewrite !Forall_forall. intros H x Hx%unschedule_sub. by apply H.
Qed.

Lemma schedule_times k last i : 0 ≤ last → times_ok i → times_ok (schedule_entry_access k last i).
Proof.
  intros Hl Ht%(unschedule_times k). unfold times_ok, schedule_entry_access in *. cbn.
  rewrite Forall_forall in Ht |- *. intros x [->|Hx]%elem_of_bt_insert; [done|by apply Ht].
Qed.

Lemma insert_entry_ok k e i existing i' :
  core_ok i → entry_ok e → insert_entry k e i = (existing, i') →
  existing = idx_entries i !! k ∧ idx_entries i' = <[k:=e]> (idx_entries i) ∧
  isched i' ∧
  (∀ k', is_Some (idx_access_ticket_by_key i' !! k') ↔ is_Some (idx_entries i' !! k')) ∧
  refs_ok (idx_entries i') (idx_hash_ref_counts i') ∧ bodies_ok (idx_entries i') ∧
  idx_current_size_bytes i' = idx_current_size_bytes i ∧ idx_variants i' = idx_variants i ∧
  idx_invalidations i' = idx_invalidations i ∧
  idx_admission_counts i' = idx_admission_counts i ∧ times_ok i'.
Proof.
  intros [Hs Hc Hr Hz Hb Htm] He. unfold insert_entry.
  set (j := increment_hash_ref _ _). intros [= <- <-].
  assert (Hj : idx_entries j = <[k:=e]> (idx_entries i) ∧
    idx_hash_ref_counts j = refs_incr (ent_hash e)
      (match idx_entries i !! k with
       | Some old => refs_decr (ent_hash old) (idx_hash_ref_counts i)
       | None => idx_hash_ref_counts i end) ∧
    idx_access_schedule j = idx_access_schedule i ∧
    idx_access_ticket_by_key j = idx_access_ticket_by_key i ∧
    idx_current_size_bytes j = idx_current_size_bytes i ∧ idx_variants j = idx_variants i ∧
    idx_invalidations j = idx_invalidations i ∧
    idx_admission_counts j = idx_admission_counts i).
  { unfold j. by destruct (idx_entries i !! k). }
  destruct Hj as (Hje & Hjr & Hjs & Hjt & Hjz & Hjv & Hji & Hja).
  assert (Hsj : isched j) by (by rewrite Hjs, Hjt).
  assert (Htj : times_ok (schedule_entry_access k (ent_last_access_unix_ms e) j)).
  { apply schedule_times; [by apply He|]. unfold times_ok in *. by rewrite Hjs. }
  destruct (schedule_ok k (ent_last_access_unix_ms e) j Hsj) as [Hs' (t & Ht)].
  destruct (schedule_frame k (ent_last_access_unix_ms e) j) as (-> & -> & -> & -> & -> & ->).
  rewrite Ht in Hs' |- *. rewrite Hjt in Hs' |- *. rewrite Hje, Hjr, Hjz, Hjv, Hji, Hja.
  split_and!; try done.
  - intros k'. destruct (decide (k' = k)) as [->|Hne].
    + rewrite !lookup_insert_eq. split; intros _; by eexists.
    + rewrite !lookup_insert_ne by done. rewrite Hc. naive_solver.
  - rewrite <-(insert_delete_eq (idx_entries i)).
    apply refs_incr_ok; [apply lookup_delete_eq|].
    destruct (idx_entries i !! k) as [old|] eqn:Hk.
    + by apply refs_decr_ok.
    + by rewrite delete_id.
  - intros k' e' [[<- <-]|[_ Hl]]%lookup_insert_Some; [done|by eapply Hb].
Qed.

Lemma remove_accounted_ok miss k i e i' :
  core_miss miss i → miss = None ∨ miss = Some k → remove_accounted k i = Some (e, i') →
  idx_entries i !! k = Some e ∧ idx_entries i' = delete k (idx_entries i) ∧ core_ok i' ∧
  idx_variants i' = idx_variants i ∧ idx_invalidations i' = idx_invalidations i ∧
  idx_admission_counts i' = delete k (idx_admission_counts i).
Proof.
  intros [Hs Hc Hr Hz Hb Htm] Hmiss. unfold remove_accounted, remove_entry.
  destruct (idx_entries i !! k) as [e'|] eqn:Hk; [|done].
  set (j := decrement_hash_ref _ _). intros [= <- <-].
  assert (Hsj : isched j) by done.
  destruct (unschedule_ok k j Hsj) as [Hs' Ht].
  destruct (unschedule_frame k j) as (He & Hh & Hv & Ha & Hi & Hsz).
  cbn. rewrite Hv, Hi, Ha, He. split_and!; try done.
  split; cbn.
  - done.
  - intros k'. rewrite Ht, He. cbn. destruct (decide (k' = k)) as [->|Hne].
    + rewrite !lookup_delete_eq. split; [intros [??]|intros [[??] _]]; done.
    + rewrite !lookup_delete_ne, Hc by done. naive_solver.
  - rewrite He, Hh. cbn. by apply (refs_decr_ok _ _ _ e').
  - rewrite He, Hsz. cbn. rewrite Hz, (msum_delete body_of _ _ _ Hk).
    unfold body_of at 1, sat_sub.
    pose proof (msum_nonneg body_of (delete k (idx_entries i))) as Hnn.
    rewrite Z.max_l; [lia|]. enough (0 ≤ msum body_of (delete k (idx_entries i))) by lia.
    apply Hnn. intros k' e'' [_ Hl]%lookup_delete_Some. by eapply Hb.
  - rewrite He. cbn. intros k' e'' [_ Hl]%lookup_delete_Some. by eapply Hb.
  - by apply (unschedule_times k j).
Qed.

Lemma pop_core_ok i k scheduled i' :
  core_ok i → pop_oldest_scheduled_entry i = Some (k, scheduled, i') →
  core_miss (Some k) i' ∧ is_Some (idx_entries i' !! k).
Proof.
  intros [Hs Hc Hr Hz Hb Htm] Hpop.
  destruct (pop_ok _ _ _ _ Hs Hpop) as (Hs' & Ht & Hk & _).
  destruct (pop_frame _ _ _ _ Hpop) as (He & Hh & _ & _ & _ & Hsz).
  rewrite He. split; [|by apply Hc]. split.
  - done.
  - intros k'. rewrite Ht, He. destruct (decide (k' = k)) as [->|Hne].
    + rewrite lookup_delete_eq. split; [intros [??]; done|]. by intros [_ ?].
    + rewrite lookup_delete_ne, Hc by done. naive_solver.
  - by rewrite He, Hh.
  - by rewrite He, Hsz.
  - by rewrite He.
  - unfold pop_oldest_scheduled_entry in Hpop. unfold times_ok in *.
    destruct (idx_access_schedule i) as [|x l] eqn:Hl; [done|]. injection Hpop as <- <- <-.
    cbn. rewrite Hl. by inversion Htm.
Qed.

Lemma reschedule_core_ok k last i :
  core_miss (Some k) i → is_Some (idx_entries i !! k) → 0 ≤ last →
  core_ok (reschedule_entry_access k last i) ∧
  idx_entries (reschedule_entry_access k last i) = idx_entries i.
Proof.
  intros [Hs Hc Hr Hz Hb Htm] [e He] Hlast. unfold reschedule_entry_access. rewrite He.
  destruct (schedule_ok k last i Hs) as [Hs' (t & Ht)].
  destruct (schedule_frame k last i) as (Hfe & Hfh & _ & _ & _ & Hfz).
  split; [|done]. split.
  - done.
  - intros k'. rewrite Ht, Hfe. destruct (decide (k' = k)) as [->|Hne].
    + rewrite lookup_insert_eq, He. split; [|by eexists]. intros _. split; [by eexists|done].
    + rewrite lookup_insert_ne, Hc by done. naive_solver.
  - by rewrite Hfe, Hfh.
  - by rewrite Hfe, Hfz.
  - by rewrite Hfe.
  - by apply schedule_times.
Qed.

(** [l] is a sequence of removals leading from [m] to [m']. *)
Inductive removes : gmap string CacheIndexEntry → list (string * CacheIndexEntry) →
    gmap string CacheIndexEntry → Prop :=
| removes_nil m : removes m [] m
| removes_cons m k e l m' :
    m !! k = Some e → removes (delete k m) l m' → removes m ((k, e) :: l) m'.

Lemma removes_snoc m l m' k e :
  removes m l m' → m' !! k = Some e → removes m (l ++ [(k, e)]) (delete k m').
Proof. induction 1; intros; simpl; econstructor; eauto; constructor. Qed.

(** What a run of removals leaves alone. *)
Definition removed_from (i : CacheIndex) (l : list (string * CacheIndexEntry)) (i' : CacheIndex)
    : Prop :=
  removes (idx_entries i) l (idx_entries i') ∧ core_ok i' ∧
  idx_variants i' = idx_variants i ∧ idx_invalidations i' = idx_invalidations i.

Lemma removed_from_refl i : core_ok i → removed_from i [] i.
Proof. intros. split_and!; [constructor|done..]. Qed.

Lemma removed_from_cons i k e i1 l i' :
  idx_entries i !! k = Some e → idx_entries i1 = delete k (idx_entries i) →
  idx_variants i1 = idx_variants i → idx_invalidations i1 = idx_invalidations i →
  removed_from i1 l i' → removed_from i ((k, e) :: l) i'.
Proof.
  intros Hk He Hv Hi (Hr & Hc & Hv' & Hi'). split_and!; [|done|congruence|congruence].
  econstructor; [done|]. by rewrite <-He.
Qed.

Lemma removed_from_frame i i1 l i' :
  idx_entries i1 = idx_entries i → idx_variants i1 = idx_variants i →
  idx_invalidations i1 = idx_invalidations i → removed_from i1 l i' → removed_from i l i'.
Proof.
  intros He Hv Hi (Hr & Hc & Hv' & Hi'). split_and!; [|done|congruence|congruence].
  by rewrite <-He.
Qed.

(** A popped entry is there, so the loops' [continue] on an absent entry is
    dead code under the invariant. *)
Lemma pop_reschedule i k scheduled i1 last :
  core_ok i → pop_oldest_scheduled_entry i = Some (k, scheduled, i1) → 0 ≤ last →
  core_ok (reschedule_entry_access k last i1) ∧
  idx_entries (reschedule_entry_access k last i1) = idx_entries i ∧
  idx_variants (reschedule_entry_access k last i1) = idx_variants i ∧
  idx_invalidations (reschedule_entry_access k last i1) = idx_invalidations i.
Proof.
  intros Hc Hpop Hlast. destruct (pop_core_ok _ _ _ _ Hc Hpop) as [Hm [e He]].
  destruct (pop_frame _ _ _ _ Hpop) as (Hfe & _ & Hfv & _ & Hfi & _).
  destruct (reschedule_core_ok k last i1 Hm) as [Hc' He']; [by eexists|done|].
  split_and!; [done|congruence| |]; unfold reschedule_entry_access; rewrite He;
    destruct (schedule_frame k last i1) as (_ & _ & Hv' & _ & Hi' & _); congruence.
Qed.

Lemma pop_remove i k scheduled i1 :
  core_ok i → pop_oldest_scheduled_entry i = Some (k, scheduled, i1) →
  ∃ e i2, idx_entries i1 !! k = Some e ∧ remove_accounted k i1 = Some (e, i2) ∧
    ∀ l i', removed_from i2 l i' → removed_from i ((k, e) :: l) i'.
Proof.
  intros Hc Hpop. destruct (pop_core_ok _ _ _ _ Hc Hpop) as [Hm [e He]].
  destruct (pop_frame _ _ _ _ Hpop) as (Hfe & _ & Hfv & _ & Hfi & _).
  destruct (remove_accounted k i1) as [[e' i2]|] eqn:Hr.
  - destruct (remove_accounted_ok _ _ _ _ _ Hm (or_intror eq_refl) Hr)
      as (He' & He2 & Hc2 & Hv2 & Hi2 & _).
    rewrite He in He'. injection He' as <-. exists e, i2. split_and!; [done|done|].
    intros l i'. apply removed_from_cons; congruence.
  - unfold remove_accounted, remove_entry in Hr. by rewrite He in Hr.
Qed.

Lemma remove_after_pop_core i k scheduled i1 e i2 :
  core_ok i → pop_oldest_scheduled_entry i = Some (k, scheduled, i1) →
  remove_accounted k i1 = Some (e, i2) → core_ok i2.
Proof.
  intros Hc Hpop Hr. destruct (pop_core_ok _ _ _ _ Hc Hpop) as [Hm _].
  by destruct (remove_accounted_ok _ _ _ _ _ Hm (or_intror eq_refl) Hr) as (_ & _ & ? & _).
Qed.

Section Loops.
Context {HTTP : HttpApi} (hot : gmap string CacheEntryHotState).

Lemma effective_nonneg miss i k e :
  core_miss miss i → idx_entries i !! k = Some e → 0 ≤ effective_last_access_unix_ms hot k e.
Proof.
  intros Hc He. destruct (core_bodies _ _ Hc _ _ He) as [_ Hl].
  unfold effective_last_access_unix_ms. case_match; lia.
Qed.

Lemma eviction_loop_ok fuel max i ev ev' i' :
  core_ok i → eviction_loop fuel hot max i ev = Some (ev', i') →
  ∃ new, ev' = ev ++ new ∧ removed_from i new i' ∧
    (idx_current_size_bytes i' ≤ max ∨ idx_access_schedule i' = []).
Proof.
  revert i ev. induction fuel as [|fuel IH]; intros i ev Hc; cbn [eviction_loop];
    destruct (idx_current_size_bytes i <=? max) eqn:Hsz.
  1, 3: intros [= <- <-]; boolify; exists []; rewrite app_nil_r;
    split_and!; [done|by apply removed_from_refl|by left].
  - done.
  - destruct (pop_oldest_scheduled_entry i) as [[[k scheduled] i1]|] eqn:Hpop.
    + destruct (pop_core_ok _ _ _ _ Hc Hpop) as [Hm [e He]]. rewrite He.
      destruct (scheduled <? _) eqn:Heff.
      * intros Hl.
        destruct (pop_reschedule _ _ _ _ (effective_last_access_unix_ms hot k e) Hc Hpop)
          as (Hc' & He' & Hv' & Hi'); [by eapply effective_nonneg|].
        destruct (IH _ _ Hc' Hl) as (new & -> & Hrem & Hend). exists new.
        split_and!; [done| |done]. by eapply removed_from_frame.
      * destruct (pop_remove _ _ _ _ Hc Hpop) as (e' & i2 & _ & Hr & Hcons). rewrite Hr.
        intros Hl. pose proof (remove_after_pop_core _ _ _ _ _ _ Hc Hpop Hr) as Hc2.
        destruct (IH _ _ Hc2 Hl) as (new & -> & Hrem & Hend). exists ((k, e') :: new).
        rewrite <-(assoc_L (++)). split_and!; [done|by apply Hcons|done].
    + intros [= <- <-]. exists []. rewrite app_nil_r.
      split_and!; [done|by apply removed_from_refl|right].
      unfold pop_oldest_scheduled_entry in Hpop. by destruct (idx_access_schedule i).
Qed.

Lemma cleanup_loop_ok fuel now inactive batch i ev ev' i' :
  core_ok i → cleanup_loop fuel hot now inactive batch i ev = Some (ev', i') →
  ∃ new, ev' = ev ++ new ∧ removed_from i new i'.
Proof.
  revert i ev. induction fuel as [|fuel IH]; intros i ev Hc; cbn [cleanup_loop];
    (destruct (batch <=? _);
      [intros [= <- <-]; exists []; rewrite app_nil_r; split; [done|by apply removed_from_refl]|]);
    (destruct (oldest_scheduled_access_unix_ms i) as [oldest|];
      [|intros [= <- <-]; exists []; rewrite app_nil_r; split; [done|by apply removed_from_refl]]);
    (destruct (sat_sub now inactive <=? oldest);
      [intros [= <- <-]; exists []; rewrite app_nil_r; split; [done|by apply removed_from_refl]|]).
  - done.
  - destruct (pop_oldest_scheduled_entry i) as [[[k scheduled] i1]|] eqn:Hpop;
      [|intros [= <- <-]; exists []; rewrite app_nil_r; split; [done|by apply removed_from_refl]].
    destruct (pop_core_ok _ _ _ _ Hc Hpop) as [Hm [e He]]. rewrite He.
    destruct (pop_reschedule _ _ _ _ (effective_last_access_unix_ms hot k e) Hc Hpop)
      as (Hc' & He' & Hv' & Hi'); [by eapply effective_nonneg|].
    destruct (scheduled <? _); [|destruct (sat_sub now _ <=? inactive)].
    1, 2: intros Hl; destruct (IH _ _ Hc' Hl) as (new & -> & Hrem); exists new;
      split; [done|by eapply removed_from_frame].
    destruct (pop_remove _ _ _ _ Hc Hpop) as (e' & i2 & _ & Hr & Hcons). rewrite Hr.
    intros Hl. pose proof (remove_after_pop_core _ _ _ _ _ _ Hc Hpop Hr) as Hc2.
    destruct (IH _ _ Hc2 Hl) as (new & -> & Hrem). exists ((k, e') :: new).
    rewrite <-(assoc_L (++)). split; [done|by apply Hcons].
Qed.

(** ** Termination of the loops *)

(** Entries whose scheduled time is behind their effective one: each is put
    back at most once. *)
Definition behind (m : gmap string CacheIndexEntry) (x : CacheAccessScheduleEntry) : Prop :=
  match m !! sch_key x with
  | Some e => sch_last_access_unix_ms x < effective_last_access_unix_ms hot (sch_key x) e
  | None => False
  end.

#[local] Instance behind_dec m x : Decision (behind m x).
Proof. unfold behind. destruct (m !! sch_key x); apply _. Defined.

Definition loop_measure (i : CacheIndex) : nat :=
  length (idx_access_schedule i) +
  length (filter (behind (idx_entries i)) (idx_access_schedule i)).

Lemma bt_insert_measure P `{!∀ x, Decision (P x)} (x : CacheAccessScheduleEntry) l :
  (length (bt_insert x l) ≤ S (length l))%nat ∧
  (¬ P x → (length (filter P (bt_insert x l)) ≤ length (filter P l))%nat).
Proof.
  induction l as [|y l [IH1 IH2]]; cbn [bt_insert].
  - split; [simpl; lia|]. intros Hx. by rewrite filter_cons_False.
  - destruct (sch_cmp x y) eqn:Hc.
    + split; [simpl; lia|done].
    + split; [simpl; lia|]. intros Hx. by rewrite (filter_cons_False _ x).
    + split; [simpl; lia|]. intros Hx. rewrite !filter_cons. specialize (IH2 Hx).
      case_decide; simpl; lia.
Qed.

Lemma unschedule_measure m k i :
  (length (idx_access_schedule (unschedule_entry_access k i)) ≤
    length (idx_access_schedule i))%nat ∧
  (length (filter (behind m) (idx_access_schedule (unschedule_entry_access k i))) ≤
    length (filter (behind m) (idx_access_schedule i)))%nat.
Proof.
  unfold unschedule_entry_access. destruct (_ !! k) as [t|]; [|done]. cbn. unfold bt_remove.
  split; [apply length_filter|].
  induction (idx_access_schedule i) as [|x l IH]; [done|].
  rewrite !filter_cons. repeat case_decide; rewrite ?filter_cons; repeat case_decide; simpl; try tauto; lia.
Qed.

Lemma pop_shape i k scheduled i1 :
  pop_oldest_scheduled_entry i = Some (k, scheduled, i1) →
  ∃ x, idx_access_schedule i = x :: idx_access_schedule i1 ∧ sch_key x = k ∧
    sch_last_access_unix_ms x = scheduled ∧ idx_entries i1 = idx_entries i.
Proof.
  unfold pop_oldest_scheduled_entry. destruct (idx_access_schedule i) as [|x l] eqn:Hs; [done|].
  intros [= <- <- <-]. exists x. cbn. by rewrite Hs.
Qed.

Lemma pop_measure i k scheduled i1 :
  pop_oldest_scheduled_entry i = Some (k, scheduled, i1) →
  (loop_measure i1 < loop_measure i)%nat ∧ (times_ok i → times_ok i1).
Proof.
  intros (x & Hs & _ & _ & He)%pop_shape. unfold loop_measure, times_ok. rewrite He, Hs.
  rewrite filter_cons. split; [case_decide; simpl; lia|]. by inversion 1.
Qed.

Lemma reschedule_measure i k scheduled i1 e last :
  pop_oldest_scheduled_entry i = Some (k, scheduled, i1) → idx_entries i1 !! k = Some e →
  effective_last_access_unix_ms hot k e ≤ last →
  scheduled < effective_last_access_unix_ms hot k e →
  (loop_measure (reschedule_entry_access k last i1) < loop_measure i)%nat ∧
  (times_ok i → times_ok (reschedule_entry_access k last i1)).
Proof.
  intros (x & Hs & Hk & Hl & He)%pop_shape Hke Hlast Hlt.
  unfold reschedule_entry_access. rewrite Hke. unfold loop_measure, times_ok.
  destruct (schedule_frame k last i1) as (-> & _). unfold schedule_entry_access. cbn.
  set (y := mkSchedule last _ k).
  destruct (unschedule_measure (idx_entries i1) k i1) as [Hu1 Hu2].
  destruct (bt_insert_measure (behind (idx_entries i1)) y
              (idx_access_schedule (unschedule_entry_access k i1))) as [Hb1 Hb2].
  assert (Hy : ¬ behind (idx_entries i1) y).
  { unfold behind, y. cbn. rewrite Hke. lia. }
  specialize (Hb2 Hy). rewrite Hs, <-He.
  assert (Hx : behind (idx_entries i1) x).
  { unfold behind. rewrite Hk, Hke, Hl. lia. }
  rewrite filter_cons_True by done. simpl. split; [lia|].
  inversion 1 as [|? ? H0 Hf]; subst. apply Forall_forall. intros z.
  intros [->|Hz]%elem_of_bt_insert; [cbn; lia|].
  rewrite Forall_forall in Hf. by eapply Hf, unschedule_sub.
Qed.

Lemma remove_measure i k scheduled i1 e i2 :
  pop_oldest_scheduled_entry i = Some (k, scheduled, i1) → remove_accounted k i1 = Some (e, i2) →
  (loop_measure i2 < loop_measure i)%nat ∧ (times_ok i → times_ok i2).
Proof.
  intros Hpop. pose proof (pop_measure _ _ _ _ Hpop) as [Hm Ht].
  unfold remove_accounted, remove_entry. destruct (idx_entries i1 !! k) as [e'|]; [|done].
  set (j := decrement_hash_ref _ _). intros [= <- <-].
  assert (Hsj : idx_access_schedule j = idx_access_schedule i1) by done.
  assert (Htj : idx_access_ticket_by_key j = idx_access_ticket_by_key i1) by done.
  unfold loop_measure, times_ok in *. cbn.
  destruct (unschedule_frame k j) as (-> & _).
  destruct (unschedule_measure (idx_entries i1) k j) as [Hu1 Hu2]. rewrite Hsj in Hu1, Hu2.
  assert (Hsub : ∀ l, (length (filter (behind (idx_entries j)) l) ≤
                       length (filter (behind (idx_entries i1)) l))%nat).
  { intros l. induction l as [|x l IH]; [done|]. rewrite !filter_cons.
    case_decide as H1; case_decide as H2; cbn [length]; try lia. exfalso. apply H2.
    unfold behind in *. cbn in H1. destruct (decide (sch_key x = k)) as [Hx|Hx].
    - rewrite Hx, lookup_delete_eq in H1. done.
    - by rewrite lookup_delete_ne in H1 by done. }
  specialize (Hsub (idx_access_schedule (unschedule_entry_access k j))). split; [lia|].
  intros Hi. specialize (Ht Hi). rewrite Forall_forall in Ht |- *.
  intros x Hx%unschedule_sub. rewrite Hsj in Hx. by apply Ht.
Qed.

Lemma eviction_loop_total fuel max i ev :
  (loop_measure i < fuel)%nat → is_Some (eviction_loop fuel hot max i ev).
Proof.
  revert i ev. induction fuel as [|fuel IH]; intros i ev Hf; [lia|]. cbn [eviction_loop].
  destruct (_ <=? max); [by eexists|].
  destruct (pop_oldest_scheduled_entry i) as [[[k scheduled] i1]|] eqn:Hpop; [|by eexists].
  pose proof (pop_measure _ _ _ _ Hpop) as [Hm _].
  destruct (idx_entries i1 !! k) as [e|] eqn:He; [|apply IH; lia].
  destruct (scheduled <? _) eqn:Heff; boolify.
  - apply IH. destruct (reschedule_measure _ _ _ _ _ (effective_last_access_unix_ms hot k e)
                          Hpop He) as [Hr _]; lia.
  - destruct (remove_accounted k i1) as [[e' i2]|] eqn:Hr; [|apply IH; lia].
    apply IH. pose proof (remove_measure _ _ _ _ _ _ Hpop Hr). lia.
Qed.

Lemma cleanup_loop_total fuel now inactive batch i ev :
  times_ok i → (loop_measure i < fuel)%nat →
  is_Some (cleanup_loop fuel hot now inactive batch i ev).
Proof.
  revert i ev. induction fuel as [|fuel IH]; intros i ev Ht Hf; [lia|]. cbn [cleanup_loop].
  destruct (batch <=? _); [by eexists|].
  destruct (oldest_scheduled_access_unix_ms i) as [oldest|] eqn:Hold; [|by eexists].
  destruct (sat_sub now inactive <=? oldest) eqn:Hcut; [by eexists|].
  destruct (pop_oldest_scheduled_entry i) as [[[k scheduled] i1]|] eqn:Hpop; [|by eexists].
  pose proof (pop_measure _ _ _ _ Hpop) as [Hm Htm].
  destruct (pop_shape _ _ _ _ Hpop) as (x & Hs & _ & Hx & _).
  assert (oldest = scheduled) as ->.
  { unfold oldest_scheduled_access_unix_ms in Hold. rewrite Hs in Hold. simpl in Hold. congruence. }
  assert (0 ≤ scheduled).
  { unfold times_ok in Ht. rewrite Hs in Ht. inversion Ht; subst. lia. }
  destruct (idx_entries i1 !! k) as [e|] eqn:He; [|apply IH; [by apply Htm|lia]].
  destruct (scheduled <? _) eqn:Heff; boolify.
  - destruct (reschedule_measure _ _ _ _ _ (effective_last_access_unix_ms hot k e) Hpop He)
      as [Hr Htr]; [lia|lia|]. apply IH; [by apply Htr|lia].
  - unfold sat_sub in *. replace (_ <=? inactive) with false by lia.
    destruct (remove_accounted k i1) as [[e' i2]|] eqn:Hr; [|apply IH; [by apply Htm|lia]].
    destruct (remove_measure _ _ _ _ _ _ Hpop Hr) as [Hr' Htr]. apply IH; [by apply Htr|lia].
Qed.

Lemma schedule_fuel_enough i : (loop_measure i < schedule_fuel i)%nat.
Proof.
  unfold loop_measure, schedule_fuel.
  pose proof (length_filter (behind (idx_entries i)) (idx_access_schedule i)). lia.
Qed.
End Loops.
