(* ===== verification/CacheSafety.v ===== *)
(** * The cache index: reachable states

    Every operation of [CacheMaintenance.v] preserves the invariant of
    [CacheInvariant.v]; the operations, as steps, only reach states that
    satisfy it. *)

From S2P Require Import Prelude RustStr External CacheConfig CacheTypes CacheRequest CachePolicy CacheStore CacheIndex CacheMaintenance CacheInvariant.

(** ** Framing *)

Lemma core_ok_ext i j :
  idx_entries j = idx_entries i → idx_hash_ref_counts j = idx_hash_ref_counts i →
  idx_access_schedule j = idx_access_schedule i →
  idx_access_ticket_by_key j = idx_access_ticket_by_key i →
  idx_current_size_bytes j = idx_current_size_bytes i → core_ok i → core_ok j.
Proof.
  intros He Hh Hs Ht Hz [H1 H2 H3 H4 H5 H6].
  split; unfold times_ok in *; rewrite ?He, ?Hh, ?Hs, ?Ht, ?Hz; try done.
Qed.

Lemma index_ok_ext i j :
  idx_entries j = idx_entries i → idx_hash_ref_counts j = idx_hash_ref_counts i →
  idx_access_schedule j = idx_access_schedule i →
  idx_access_ticket_by_key j = idx_access_ticket_by_key i →
  idx_current_size_bytes j = idx_current_size_bytes i → idx_variants j = idx_variants i →
  index_ok i → index_ok j.
Proof.
  intros He Hh Hs Ht Hz Hv [Hc Hvo]. split; [by eapply core_ok_ext|]. by rewrite He, Hv.
Qed.

(** Replace an entry by one that differs only in its access time. *)
Lemma msum_replace f m k e e' :
  m !! k = Some e → f e' = f e → msum f (<[k:=e']> m) = msum f m.
Proof.
  intros Hk Hf. rewrite <-insert_delete_eq, msum_insert by apply lookup_delete_eq.
  by rewrite (msum_delete f m k e Hk), Hf.
Qed.

(** ** Removing an entry with its variant *)

Definition remove_variant_entry (k : string) (e : CacheIndexEntry) : CacheIndex → CacheIndex :=
  with_variants (remove_variant_key (ent_base_key e) k).

Lemma remove_accounted_index_ok k i e i' :
  index_ok i → remove_accounted k i = Some (e, i') →
  index_ok (remove_variant_entry k e i') ∧ idx_entries i !! k = Some e ∧
  idx_entries i' = delete k (idx_entries i) ∧
  idx_invalidations i' = idx_invalidations i.
Proof.
  intros [Hc Hv] Hr.
  destruct (remove_accounted_ok None _ _ _ _ Hc (or_introl eq_refl) Hr)
    as (He & He' & Hc' & Hv' & Hi' & _).
  split_and!; [|done|done|done]. split; [by eapply core_ok_ext; [..|exact Hc']|].
  cbn. rewrite He', Hv'. by apply remove_variant_ok.
Qed.

Lemma remove_accounted_None k i : remove_accounted k i = None ↔ idx_entries i !! k = None.
Proof. unfold remove_accounted, remove_entry. by destruct (idx_entries i !! k). Qed.

Lemma drop_variant_ok h k u :
  index_ok (up_index u) →
  index_ok (up_index (drop_variant h k u)) ∧
  idx_entries (up_index (drop_variant h k u)) = delete k (idx_entries (up_index u)).
Proof.
  intros Hok. unfold drop_variant. destruct (remove_accounted k (up_index u)) as [[e i']|] eqn:Hr.
  - destruct (remove_accounted_index_ok _ _ _ _ Hok Hr) as (Hok' & _ & He & _). done.
  - apply remove_accounted_None in Hr. by rewrite delete_id.
Qed.

Lemma drop_variants_ok h ks u :
  index_ok (up_index u) →
  let u' := foldl (λ u k, drop_variant h k u) u ks in
  index_ok (up_index u') ∧
  ∀ k, idx_entries (up_index u') !! k =
       (if bool_decide (k ∈ ks) then None else idx_entries (up_index u) !! k).
Proof.
  revert u. induction ks as [|k0 ks IH]; intros u Hok; cbn [foldl].
  - split; [done|]. intros k. by rewrite bool_decide_false by set_solver.
  - destruct (drop_variant_ok h k0 u Hok) as [Hok' He].
    destruct (IH _ Hok') as [Hok'' Hl]. split; [done|]. intros k. rewrite Hl, He.
    destruct (decide (k = k0)) as [->|Hne].
    + rewrite lookup_delete_eq, (bool_decide_true (k0 ∈ k0 :: ks)) by set_solver.
      by case_bool_decide.
    + rewrite lookup_delete_ne by done. case_bool_decide; case_bool_decide; set_solver.
Qed.

(** ** Storing *)

(** Inserting under accounting: the replaced entry's variant and size go, the
    new entry's come. *)
Definition insert_accounted (k : string) (e : CacheIndexEntry) (i : CacheIndex) : CacheIndex :=
  let '(existing, i) := insert_entry k e i in
  let i := match existing with
           | Some existing =>
               remove_variant_entry k existing
                 (with_current_size (λ s, sat_sub s (ent_body_size_bytes existing)) i)
           | None => i
           end in
  with_current_size (λ s, sat_add64 s (ent_body_size_bytes e))
    (with_variants (add_variant_key (ent_base_key e) k) i).

Definition fits (e : CacheIndexEntry) (i : CacheIndex) : Prop :=
  entry_ok e ∧ msum body_of (idx_entries i) + ent_body_size_bytes e ≤ u64_max.

Lemma insert_accounted_ok k e i :
  index_ok i → fits e i →
  index_ok (insert_accounted k e i) ∧
  idx_entries (insert_accounted k e i) = <[k:=e]> (idx_entries i).
Proof.
  intros [Hc Hv] [He Hfit]. unfold insert_accounted.
  destruct (insert_entry k e i) as [existing i'] eqn:Hins.
  destruct (insert_entry_ok _ _ _ _ _ Hc He Hins)
    as (-> & Hent & Hs & Hcov & Hr & Hb & Hz & Hvar & _ & _ & Ht).
  assert (Hnn : ∀ m, bodies_ok m → 0 ≤ msum body_of m).
  { intros m Hm. apply msum_nonneg. intros k' e' Hk'. by apply (Hm k'). }
  destruct Hc as [Hcs Hcc Hcr Hcz Hcb Hct].
  assert (Hsize : msum body_of (<[k:=e]> (idx_entries i)) =
    ent_body_size_bytes e + msum body_of (delete k (idx_entries i))).
  { rewrite <-insert_delete_eq, msum_insert by apply lookup_delete_eq. done. }
  assert (Hbd : bodies_ok (delete k (idx_entries i))).
  { intros k' e' [_ Hl]%lookup_delete_Some. by eapply Hcb. }
  specialize (Hnn _ Hbd).
  destruct (idx_entries i !! k) as [old|] eqn:Hk; cbn.
  - split; [|done]. pose proof (msum_delete body_of _ _ _ Hk) as Hd. split.
    + split; cbn; try done.
      * intros k'. rewrite Hcov. naive_solver.
      * destruct He as [He1 _], (Hcb _ _ Hk) as [Ho1 _]. rewrite Hent, Hz, Hcz, Hsize.
        change (body_of old) with (ent_body_size_bytes old) in Hd.
        rewrite Hd in Hfit |- *. unfold sat_add64, sat_sub. lia.
    + cbn. rewrite Hent, Hvar, <-insert_delete_eq. apply add_variant_ok; [apply lookup_delete_eq|].
      by apply remove_variant_ok.
  - split; [|done]. split.
    + split; cbn; try done.
      * intros k'. rewrite Hcov. naive_solver.
      * destruct He as [He1 _]. rewrite Hent, Hz, Hcz, Hsize, delete_id by done.
        unfold sat_add64. lia.
    + cbn. rewrite Hent, Hvar. by apply add_variant_ok.
Qed.

Lemma msum_submap f m m' :
  m' ⊆ m → (∀ k e, m !! k = Some e → 0 ≤ f e) → msum f m' ≤ msum f m.
Proof.
  revert m'. induction m as [|k e m Hk IH] using map_ind; intros m' Hsub Hf.
  - assert (m' = ∅) as ->; [|done]. apply map_empty. intros k.
    destruct (m' !! k) as [e|] eqn:Hk; [|done].
    pose proof (lookup_weaken _ _ _ _ Hk Hsub) as He. by rewrite lookup_empty in He.
  - rewrite msum_insert by done. pose proof (Hf k e (lookup_insert_eq _ _ _)) as Hfe.
    assert (Hf' : ∀ k' e', m !! k' = Some e' → 0 ≤ f e').
    { intros k' e' Hk'. apply (Hf k'). rewrite lookup_insert_ne; [done|]. naive_solver. }
    assert (Hd : delete k m' ⊆ m).
    { rewrite <-(delete_insert_id m k e) by done. by apply delete_mono. }
    specialize (IH _ Hd Hf'). destruct (m' !! k) as [e'|] eqn:Hk'.
    + assert (e' = e) as ->.
      { eapply lookup_weaken in Hk'; [|exact Hsub]. rewrite lookup_insert_eq in Hk'. congruence. }
      rewrite (msum_delete f m' k e Hk'). lia.
    + rewrite delete_id in IH by done. lia.
Qed.

Lemma fits_submap e i j :
  fits e i → bodies_ok (idx_entries i) → idx_entries j ⊆ idx_entries i → fits e j.
Proof.
  intros [He Hf] Hb Hsub. split; [done|].
  pose proof (msum_submap body_of _ _ Hsub). unfold body_of in *.
  specialize (H (λ k e Hk, proj1 (Hb k e Hk))). lia.
Qed.

(** The state before the insertion of [store_update]. *)
Definition store_removals (key : string) (entry : CacheIndexEntry)
    (replaced_entry : option (string * CacheIndexEntry)) (i : CacheIndex) : StoreUpdate :=
  let u := mkUpdate i ∅ [] [] in
  let u := match replaced_entry with
           | Some (replaced_key, expected_entry) =>
               match idx_entries i !! replaced_key with
               | Some current =>
                   if stable_eq current expected_entry
                   then drop_variant (ent_hash entry) replaced_key u else u
               | None => u
               end
           | None => u
           end in
  foldl (λ u incompatible_key, drop_variant (ent_hash entry) incompatible_key u) u
    (variant_keys_with_different_dimensions (up_index u) entry key).

Lemma store_removals_ok key entry replaced i :
  index_ok i →
  index_ok (up_index (store_removals key entry replaced i)) ∧
  idx_entries (up_index (store_removals key entry replaced i)) ⊆ idx_entries i.
Proof.
  intros Hok. unfold store_removals.
  set (u1 := match replaced with Some _ => _ | None => _ end).
  assert (H1 : index_ok (up_index u1) ∧ idx_entries (up_index u1) ⊆ idx_entries i).
  { unfold u1. destruct replaced as [[rk expected]|]; [|done].
    destruct (idx_entries i !! rk) as [cur|]; [|done]. destruct (stable_eq cur expected); [|done].
    destruct (drop_variant_ok (ent_hash entry) rk (mkUpdate i ∅ [] []) Hok) as [Ho He].
    split; [done|]. rewrite He. apply delete_subseteq. }
  destruct H1 as [Ho1 Hs1].
  destruct (drop_variants_ok (ent_hash entry)
    (variant_keys_with_different_dimensions (up_index u1) entry key) u1 Ho1) as [Ho2 Hl].
  split; [done|]. etrans; [|exact Hs1]. apply map_subseteq_spec. intros k e. rewrite Hl.
  by case_bool_decide.
Qed.

Lemma store_update_index key entry replaced i :
  idx_entries (up_index (store_update key entry replaced i)) =
    idx_entries (insert_accounted key entry (up_index (store_removals key entry replaced i))) ∧
  (index_ok (insert_accounted key entry (up_index (store_removals key entry replaced i))) →
   index_ok (up_index (store_update key entry replaced i))).
Proof.
  unfold store_update, insert_accounted. fold (store_removals key entry replaced i).
  destruct (insert_entry key entry _) as [[existing|] i'] eqn:Hins; cbn; split; try done.
  - intros Hok. by eapply index_ok_ext; [..|exact Hok].
  - intros Hok. by eapply index_ok_ext; [..|exact Hok].
Qed.

Lemma store_update_ok key entry replaced i :
  index_ok i → fits entry i →
  index_ok (up_index (store_update key entry replaced i)) ∧
  idx_entries (up_index (store_update key entry replaced i)) !! key = Some entry ∧
  ∀ k e, idx_entries (up_index (store_update key entry replaced i)) !! k = Some e →
         k = key ∧ e = entry ∨ idx_entries i !! k = Some e.
Proof.
  intros Hok Hfit. destruct (store_removals_ok key entry replaced i Hok) as [Ho1 Hsub].
  destruct (insert_accounted_ok key entry _ Ho1) as [Ho2 He].
  { eapply fits_submap; [done|apply Hok|done]. }
  destruct (store_update_index key entry replaced i) as [Heq Himp].
  rewrite Heq, He. split_and!; [by apply Himp|apply lookup_insert_eq|].
  intros k e [[<- <-]|[_ Hl]]%lookup_insert_Some; [by left|right].
  by eapply lookup_weaken.
Qed.

(** ** Evicted entries lose their variants *)

Lemma note_evicted_ok h l m u :
  core_ok (up_index u) → removes m l (idx_entries (up_index u)) →
  variants_ok m (idx_variants (up_index u)) →
  index_ok (up_index (foldl (note_evicted h) u l)) ∧
  idx_entries (up_index (foldl (note_evicted h) u l)) = idx_entries (up_index u) ∧
  idx_current_size_bytes (up_index (foldl (note_evicted h) u l)) =
    idx_current_size_bytes (up_index u).
Proof.
  revert m u. induction l as [|[k e] l IH]; intros m u Hc Hr Hv; inversion Hr; subst; cbn [foldl].
  - done.
  - set (u1 := note_evicted h u (k, e)).
    assert (Hu1 : idx_entries (up_index u1) = idx_entries (up_index u)) by done.
    assert (Hz1 : idx_current_size_bytes (up_index u1) = idx_current_size_bytes (up_index u))
      by done.
    rewrite <-Hu1, <-Hz1. apply (IH (delete k m)).
    + by eapply core_ok_ext; [..|exact Hc].
    + by rewrite Hu1.
    + cbn. by apply remove_variant_ok.
Qed.

(** When a batch leaves something due, it was full. *)
Lemma cleanup_loop_more {HTTP : HttpApi} fuel hot now inactive batch i ev ev' i' :
  0 < batch → cleanup_loop fuel hot now inactive batch i ev = Some (ev', i') →
  match oldest_scheduled_access_unix_ms i' with
  | Some last_access => last_access <? sat_sub now inactive
  | None => false
  end = true → ev' ≠ [].
Proof.
  intros Hb. revert i ev. induction fuel as [|fuel IH]; intros i ev; cbn [cleanup_loop];
    (destruct (batch <=? _) eqn:Hbatch;
      [intros [= <- <-] _ ->; simpl in Hbatch; boolify; lia|]);
    (destruct (oldest_scheduled_access_unix_ms i) as [oldest|] eqn:Hold;
      [|intros [= <- <-]; by rewrite Hold]);
    (destruct (sat_sub now inactive <=? oldest) eqn:Hcut;
      [intros [= <- <-]; rewrite Hold; intros; boolify; lia|]).
  - done.
  - destruct (pop_oldest_scheduled_entry i) as [[[k scheduled] i1]|] eqn:Hpop.
    + repeat case_match; apply IH.
    + unfold pop_oldest_scheduled_entry in Hpop. unfold oldest_scheduled_access_unix_ms in Hold.
      by destruct (idx_access_schedule i).
Qed.

Section Zone.
Context {HTTP : HttpApi}.

Lemma record_positive_index c n z : zr_index (record_positive c n z) = zr_index z.
Proof. unfold record_positive. by case_match. Qed.

Lemma record_positive_config c n z : zr_config (record_positive c n z) = zr_config z.
Proof. unfold record_positive. by case_match. Qed.

Lemma remove_hot_entries_index ks z :
  zr_index (remove_hot_entries ks z) = zr_index z ∧
  zr_config (remove_hot_entries ks z) = zr_config z.
Proof.
  unfold remove_hot_entries. revert z. induction ks as [|k ks IH]; intros z; [done|].
  simpl. destruct (IH (remove_hot_entry k z)) as [-> ->]. done.
Qed.

Lemma update_index_after_store_ok key entry replaced z :
  index_ok (zr_index z) → fits entry (zr_index z) →
  ∃ hashes ops z', update_index_after_store key entry replaced z = Some (hashes, ops, z') ∧
    index_ok (zr_index z') ∧ zr_config z' = zr_config z ∧
    (∀ k e, idx_entries (zr_index z') !! k = Some e →
            k = key ∧ e = entry ∨ idx_entries (zr_index z) !! k = Some e) ∧
    (∀ max, zone_max_size_bytes (zr_config z) = Some max → 0 ≤ max →
            msum body_of (idx_entries (zr_index z')) ≤ max).
Proof.
  intros Hok Hfit. unfold update_index_after_store.
  destruct (store_update_ok key entry replaced (zr_index z) Hok Hfit) as (Ho & Hkey & Hold).
  set (u := store_update key entry replaced (zr_index z)) in *.
  assert (Hloop : ∃ evicted i, eviction_candidates (zr_hot_entries z)
      (zone_max_size_bytes (zr_config z)) (up_index u) = Some (evicted, i) ∧
      removed_from (up_index u) evicted i ∧
      (∀ max, zone_max_size_bytes (zr_config z) = Some max →
         idx_current_size_bytes i ≤ max ∨ idx_access_schedule i = [])).
  { unfold eviction_candidates. destruct (zone_max_size_bytes (zr_config z)) as [max|].
    - destruct (eviction_loop_total (zr_hot_entries z) (schedule_fuel (up_index u)) max
                  (up_index u) [] (schedule_fuel_enough _ _)) as [[ev i] Hev].
      destruct (eviction_loop_ok _ _ _ _ _ _ _ (ok_core _ Ho) Hev) as (new & -> & Hrem & Hend).
      exists new, i. split_and!; [done|done|]. by intros max' [= <-].
    - exists [], (up_index u). split_and!; [done|by apply removed_from_refl, Ho|done]. }
  destruct Hloop as (evicted & i & -> & (Hrem & Hcore & Hvar & _) & Hmax).
  cbn [mbind option_bind]. do 3 eexists. split; [done|].
  rewrite record_positive_index, record_positive_config.
  destruct (remove_hot_entries_index
    (up_removed_keys (foldl (note_evicted (ent_hash entry))
       (mkUpdate i (up_removed_hashes u) (up_removed_keys u) (up_operations u)) evicted))
    (with_index (λ _, up_index (foldl (note_evicted (ent_hash entry))
       (mkUpdate i (up_removed_hashes u) (up_removed_keys u) (up_operations u)) evicted)) z))
    as [-> ->]. cbn [zr_index with_index zr_config].
  destruct (note_evicted_ok (ent_hash entry) evicted (idx_entries (up_index u))
    (mkUpdate i (up_removed_hashes u) (up_removed_keys u) (up_operations u)))
    as (Hok' & Hent & Hsize); [done|done|cbn; rewrite Hvar; apply Ho|].
  assert (Hsub : idx_entries i ⊆ idx_entries (up_index u)).
  { clear -Hrem. induction Hrem as [|m k e l m' Hk _ IH]; [done|].
    etrans; [exact IH|apply delete_subseteq]. }
  split_and!; [done|done| |].
  - intros k e. rewrite Hent. cbn. intros Hk. apply Hold. by eapply lookup_weaken.
  - intros max Hm Hpos. rewrite <-(core_size _ _ (ok_core _ Hok')), Hsize. cbn.
    destruct (Hmax _ Hm) as [?|Hnil]; [done|].
    rewrite (core_size _ _ Hcore).
    assert (Hempty : idx_entries i = ∅).
    { apply map_empty. intros k. destruct (idx_entries i !! k) as [e|] eqn:Hk; [|done]. exfalso.
      destruct (proj2 (core_cover _ _ Hcore k)) as [t Ht]; [by rewrite Hk|].
      apply (sched_tickets _ _ (core_sched _ _ Hcore)) in Ht. rewrite Hnil in Ht. by apply not_elem_of_nil in Ht. }
    by rewrite Hempty, msum_empty.
Qed.

(** ** The other operations *)

Lemma admission_ok key min_uses i :
  index_ok i → index_ok (record_cache_admission_attempt key min_uses i).2.
Proof.
  intros Hok. unfold record_cache_admission_attempt.
  repeat case_match; by eapply index_ok_ext; [..|exact Hok].
Qed.

Lemma remove_if_matches_ok key expected z hash del ops z' :
  index_ok (zr_index z) →
  remove_zone_index_entry_if_matches key expected z = Some (hash, del, ops, z') →
  index_ok (zr_index z') ∧
  idx_entries (zr_index z') = delete key (idx_entries (zr_index z)) ∧
  (del = true ↔ ∀ k e, idx_entries (zr_index z') !! k = Some e → ent_hash e ≠ hash).
Proof.
  intros Hok. unfold remove_zone_index_entry_if_matches.
  destruct (idx_entries (zr_index z) !! key) as [cur|] eqn:Hk; [|done]. cbn [mbind option_bind].
  destruct (negb (stable_eq cur expected)); [done|].
  destruct (remove_accounted key (zr_index z)) as [[e i]|] eqn:Hr; [|done].
  cbn [mbind option_bind]. intros [= <- <- <- <-].
  destruct (remove_accounted_index_ok _ _ _ _ Hok Hr) as (Hok' & He & He' & _).
  split_and!; [done|done|]. cbn. rewrite negb_true_iff. unfold hash_is_referenced.
  pose proof (core_refs _ _ (ok_core _ Hok') (ent_hash e)) as Href. cbn in Href |- *.
  rewrite Href. unfold positive.
  assert (Hz : msum (has_hash (ent_hash e)) (idx_entries i) = 0 ↔
               ∀ k e0, idx_entries i !! k = Some e0 → ent_hash e0 ≠ ent_hash e).
  { split.
    - intros H0 k e0 Hk0 Heq. rewrite (msum_delete _ _ _ _ Hk0) in H0.
      pose proof (has_hash_nonneg (ent_hash e) (delete k (idx_entries i))).
      unfold has_hash at 1 in H0. rewrite decide_True in H0 by done. lia.
    - intros Hall. unfold msum. clear -Hall.
      assert (Hf : Forall (λ p, has_hash (ent_hash e) p.2 = 0) (map_to_list (idx_entries i))).
      { apply Forall_forall. intros [k e0] Hin%elem_of_map_to_list. unfold has_hash. cbn.
        by rewrite decide_False by (by eapply Hall). }
      induction Hf as [|p l Hp Hl IH]; [done|]. cbn [map zsum foldr]. rewrite Hp.
      change (0 + zsum (map (λ p, has_hash (ent_hash e) p.2) l) = 0). lia. }
  rewrite <-Hz. pose proof (has_hash_nonneg (ent_hash e) (idx_entries i)).
  destruct (Z.eqb_spec (msum (has_hash (ent_hash e)) (idx_entries i)) 0) as [H0|H0]; cbn.
  - done.
  - split; [|done]. intros Hlt. boolify. lia.
Qed.

Lemma purge_keys_ok ks i removed0 :
  index_ok i →
  let r := foldl (λ '(removed, i) key,
    match remove_accounted key i with
    | None => (removed, i)
    | Some (entry, i) =>
        (removed ++ [(key, entry)],
         with_variants (remove_variant_key (ent_base_key entry) key) i)
    end) (removed0, i) ks in
  index_ok r.2 ∧ idx_invalidations r.2 = idx_invalidations i ∧
  (∀ k, idx_entries r.2 !! k = if bool_decide (k ∈ ks) then None else idx_entries i !! k).
Proof.
  revert i removed0. induction ks as [|k0 ks IH]; intros i removed0 Hok; cbn [foldl].
  - split_and!; [done|done|]. intros k. by rewrite bool_decide_false by set_solver.
  - destruct (remove_accounted k0 i) as [[e i']|] eqn:Hr.
    + destruct (remove_accounted_index_ok _ _ _ _ Hok Hr) as (Hok' & He & He' & Hinv).
      destruct (IH _ (removed0 ++ [(k0, e)]) Hok') as (H1 & H2 & H3).
      split_and!; [done|by etrans; [exact H2|]|]. intros k. etrans; [apply H3|]. cbn. rewrite He'.
      destruct (decide (k = k0)) as [->|Hne].
      * rewrite lookup_delete_eq, (bool_decide_true (k0 ∈ k0 :: ks)) by set_solver.
        by case_bool_decide.
      * rewrite lookup_delete_ne by done. case_bool_decide; case_bool_decide; set_solver.
    + destruct (IH i removed0 Hok) as (H1 & H2 & H3). split_and!; [done|done|].
      intros k. rewrite H3. apply remove_accounted_None in Hr.
      destruct (decide (k = k0)) as [->|Hne].
      * rewrite (bool_decide_true (k0 ∈ k0 :: ks)) by set_solver. rewrite Hr.
        by case_bool_decide.
      * case_bool_decide; case_bool_decide; set_solver.
Qed.

Lemma purge_zone_ok selector z :
  index_ok (zr_index z) →
  let z' := (purge_zone_entries selector z).2 in
  index_ok (zr_index z') ∧
  ∀ k, idx_entries (zr_index z') !! k =
       if purge_selector_matches selector k then None else idx_entries (zr_index z) !! k.
Proof.
  intros Hok. unfold purge_zone_entries, purge_keys.
  destruct (purge_keys_ok (List.filter (purge_selector_matches selector) (entry_keys (zr_index z)))
              (zr_index z) [] Hok) as (H1 & _ & H3).
  destruct (foldl _ _ _) as [removed i]. cbn [fst snd] in *.
  match goal with |- context [remove_hot_entries ?l ?z] =>
    destruct (remove_hot_entries_index l z) as [-> _] end.
  rewrite record_positive_index. cbn. split; [done|]. intros k. rewrite H3.
  destruct (purge_selector_matches selector k) eqn:Hm.
  - destruct (idx_entries (zr_index z) !! k) as [e|] eqn:Hk; [|by case_bool_decide].
    rewrite bool_decide_true; [done|]. apply list_elem_of_In, filter_In. split; [|done].
    apply (in_map fst _ (k, e)), list_elem_of_In. by apply elem_of_map_to_list.
  - rewrite bool_decide_false; [done|]. intros Hin%list_elem_of_In.
    apply filter_In in Hin as [_ Hin]. congruence.
Qed.

Lemma touch_ok key last i i' :
  index_ok i → 0 ≤ last → touch_entry key last i = Some i' →
  index_ok i' ∧ dom (idx_entries i') = dom (idx_entries i) ∧
  msum body_of (idx_entries i') = msum body_of (idx_entries i).
Proof.
  intros [Hc Hv] Hlast. unfold touch_entry.
  destruct (idx_entries i !! key) as [e|] eqn:Hk; [|done]. cbn [mbind option_bind].
  destruct (ent_last_access_unix_ms e <? last); [|done]. intros [= <-].
  set (e' := mkIndexEntry _ _ _ _ _ _ _ _ _ _ _ _ _ _ _).
  unfold reschedule_entry_access. cbn [with_entries idx_entries]. rewrite lookup_insert_eq.
  set (j := with_entries <[key:=e']> i).
  destruct (schedule_frame key last j) as (Hfe & Hfh & Hfv & _ & _ & Hfz).
  destruct Hc as [Hcs Hcc Hcr Hcz Hcb Hct].
  assert (Hsj : isched j) by done.
  destruct (schedule_ok key last j Hsj) as [Hs' (t & Ht)].
  split; [split; [split|]|].
  - done.
  - intros k. rewrite Ht, Hfe. cbn. destruct (decide (k = key)) as [->|Hne].
    + rewrite !lookup_insert_eq. split; [|by eexists]. intros _. split; [by eexists|done].
    + rewrite !lookup_insert_ne by done. apply Hcc.
  - rewrite Hfe, Hfh. cbn. intros h. rewrite (msum_replace _ _ _ e) by done. apply Hcr.
  - rewrite Hfe, Hfz. cbn. by rewrite (msum_replace _ _ _ e).
  - rewrite Hfe. change (idx_entries j) with (<[key:=e']> (idx_entries i)).
    intros k x [[<- <-]|[_ Hl]]%lookup_insert_Some; [|by eapply Hcb].
    split; [apply (Hcb _ _ Hk)|done].
  - by apply schedule_times.
  - rewrite Hfe, Hfv. cbn. destruct Hv as [Hkeys Hlists]. split; [|done].
    intros b k. rewrite Hkeys. destruct (decide (k = key)) as [->|Hne].
    + rewrite lookup_insert_eq, Hk. split; intros (x & [= <-] & <-); by eexists.
    + by rewrite lookup_insert_ne.
  - rewrite Hfe. cbn. split; [|by rewrite (msum_replace _ _ _ e)].
    rewrite dom_insert_L. apply elem_of_dom_2 in Hk. set_solver.
Qed.

Lemma foldl_evicted_variants l i m :
  core_ok i → removes m l (idx_entries i) → variants_ok m (idx_variants i) →
  index_ok (foldl (λ i r, with_variants (remove_variant_key (ent_base_key r.2) r.1) i) i l) ∧
  idx_entries (foldl (λ i r, with_variants (remove_variant_key (ent_base_key r.2) r.1) i) i l)
  = idx_entries i.
Proof.
  revert i m. induction l as [|[k e] l IH]; intros i m Hc Hr Hv; inversion Hr; subst; cbn [foldl].
  - done.
  - set (i1 := with_variants _ i).
    change (idx_entries i) with (idx_entries i1). apply (IH i1 (delete k m)).
    + by eapply core_ok_ext; [..|exact Hc].
    + done.
    + cbn. by apply remove_variant_ok.
Qed.

Lemma removes_length m l m' :
  removes m l m' → (length (map_to_list m) = length l + length (map_to_list m'))%nat.
Proof.
  induction 1 as [|m k e l m' Hk _ IH]; [done|]. cbn [length].
  rewrite <-(insert_delete_id m k e Hk), map_to_list_insert by apply lookup_delete_eq.
  cbn [length]. lia.
Qed.

Lemma removes_sub m l m' : removes m l m' → m' ⊆ m.
Proof.
  induction 1 as [|m k e l m' Hk _ IH]; [done|]. etrans; [exact IH|apply delete_subseteq].
Qed.

Lemma cleanup_batch_ok now inactive batch z :
  index_ok (zr_index z) → 0 < batch →
  ∃ removed more ops z', cleanup_batch now inactive batch z = Some (removed, more, ops, z') ∧
    index_ok (zr_index z') ∧ zr_config z' = zr_config z ∧
    removes (idx_entries (zr_index z)) removed (idx_entries (zr_index z')) ∧
    (more = true → removed ≠ []).
Proof.
  intros Hok Hbatch. unfold cleanup_batch, inactive_cleanup_candidates.
  rewrite (proj2 (Z.eqb_neq batch 0)) by lia.
  destruct (cleanup_loop_total (zr_hot_entries z) (schedule_fuel (zr_index z)) now inactive batch
              (zr_index z) [] (core_times _ _ (ok_core _ Hok)) (schedule_fuel_enough _ _))
    as [[removed i] Hl].
  rewrite Hl. cbn [mbind option_bind]. do 4 eexists. split; [done|].
  pose proof (cleanup_loop_more _ _ _ _ _ _ _ _ _ Hbatch Hl) as Hmore.
  destruct (cleanup_loop_ok _ _ _ _ _ _ _ _ _ (ok_core _ Hok) Hl)
    as (new & -> & (Hrem & Hcore & Hvar & _)).
  change ([] ++ new) with new in *.
  match goal with |- context [remove_hot_entries ?l ?z] =>
    destruct (remove_hot_entries_index l z) as [-> ->] end.
  cbn [zr_index with_index zr_config].
  destruct (foldl_evicted_variants new i (idx_entries (zr_index z))) as [Ho He];
    [done|done|rewrite Hvar; apply Hok|].
  rewrite He. split_and!; [done|done|done|]. intros Hm. by apply Hmore.
Qed.

Lemma cleanup_batches_ok fuel now inactive batch total ops z :
  index_ok (zr_index z) → 0 < batch →
  (length (map_to_list (idx_entries (zr_index z))) < fuel)%nat →
  ∃ total' ops' z', cleanup_batches fuel now inactive batch total ops z = Some (total', ops', z') ∧
    index_ok (zr_index z') ∧ idx_entries (zr_index z') ⊆ idx_entries (zr_index z).
Proof.
  intros Hok Hb. revert total ops z Hok. induction fuel as [|fuel IH]; intros total ops z Hok Hf;
    [lia|]. cbn [cleanup_batches].
  destruct (cleanup_batch_ok now inactive batch z Hok Hb)
    as (removed & more & bops & z1 & -> & Hok1 & _ & Hrem & Hmore).
  pose proof (removes_sub _ _ _ Hrem) as Hsub. destruct more; [|by do 3 eexists].
  pose proof (removes_length _ _ _ Hrem) as Hlen. specialize (Hmore eq_refl).
  assert (length removed ≠ 0%nat) by (by destruct removed).
  destruct (IH (total + Z.of_nat (length removed)) (ops ++ bops) z1 Hok1)
    as (t' & o' & z' & Hz' & Hok' & Hsub'); [lia|].
  exists t', o', z'. split_and!; [done|done|]. by etrans.
Qed.

Lemma cleanup_ok now z :
  index_ok (zr_index z) →
  ∃ ops z', cleanup_inactive_entries_in_zone now z = Some (ops, z') ∧ index_ok (zr_index z') ∧
    idx_entries (zr_index z') ⊆ idx_entries (zr_index z).
Proof.
  intros Hok. unfold cleanup_inactive_entries_in_zone. cbv zeta.
  destruct (negb _ && _); [exists [], z; by split_and!|]. set (z1 := mkZoneRuntime _ _ _ _ _).
  destruct (cleanup_batches_ok (cleanup_fuel z1) now (duration_to_ms (zone_inactive (zr_config z1)))
    (Z.max (zone_manager_batch_entries (zr_config z1)) 1) 0 [] z1)
    as (t' & o' & z' & -> & Hok' & Hsub); [done|lia|unfold cleanup_fuel; lia|].
  cbn [mbind option_bind]. do 2 eexists. rewrite record_positive_index. done.
Qed.

Lemma access_ok key now z :
  index_ok (zr_index z) → 0 ≤ now →
  index_ok (zr_index (record_zone_shared_entry_access key now z).2).
Proof.
  intros Hok Hnow. unfold record_zone_shared_entry_access.
  set (z1 := record_entry_access key now z).
  assert (H1 : zr_index z1 = zr_index z).
  { unfold z1, record_entry_access, hot_entry_for_key.
    by destruct (zr_hot_entries z !! key). }
  destruct (should_publish_shared_entry_access key now z1) as [publish z2] eqn:Hp.
  assert (H2 : zr_index z2 = zr_index z).
  { revert Hp. unfold should_publish_shared_entry_access, hot_entry_for_key. rewrite <-H1.
    destruct (zr_hot_entries z1 !! key); case_match; intros; simplify_eq/=; done. }
  destruct publish; cbn [negb snd]; [|by rewrite H2].
  destruct (touch_entry key now (zr_index z2)) as [i|] eqn:Ht; cbn; [|by rewrite H2].
  rewrite H2 in Ht. by destruct (touch_ok _ _ _ _ Hok Hnow Ht).
Qed.

(** An operation received from the shared index fits the local one. *)
Definition operation_fits (op : SharedIndexOperation) (i : CacheIndex) : Prop :=
  match op with
  | UpsertEntry _ entry => fits entry i
  | TouchEntry _ last => 0 ≤ last
  | _ => True
  end.

Lemma apply_operation_ok op z :
  index_ok (zr_index z) → operation_fits op (zr_index z) →
  index_ok (zr_index (apply_shared_index_operation op z)).
Proof.
  intros Hok Hfit. destruct op as [key entry|key|key last|key uses|key|rule|]; cbn.
  - exact (proj1 (insert_accounted_ok key entry (zr_index z) Hok Hfit)).
  - pose proof (remove_accounted_index_ok key (zr_index z)) as H. unfold remove_accounted in H.
    destruct (remove_entry key (zr_index z)) as [[removed i]|]; cbn; [|done].
    destruct (H _ _ Hok eq_refl) as [H' _]. by eapply index_ok_ext; [..|exact H'].
  - destruct (touch_entry key last (zr_index z)) as [i|] eqn:Ht; [|done].
    by destruct (touch_ok _ _ _ _ Hok Hfit Ht).
  - by eapply index_ok_ext; [..|exact Hok].
  - by eapply index_ok_ext; [..|exact Hok].
  - match goal with |- context [remove_hot_entries ?l ?z] =>
      destruct (remove_hot_entries_index l z) as [-> _] end.
    by eapply index_ok_ext; [..|exact Hok].
  - by eapply index_ok_ext; [..|exact Hok].
Qed.

(** ** Steps *)

(** One operation on a zone.  A stored entry has unsigned fields, and the
    stored bytes stay below 2^64 (the invariant would otherwise only hold up
    to the saturation of [current_size_bytes]). *)
Inductive zone_step : CacheZoneRuntime → CacheZoneRuntime → Prop :=
| step_store z key entry replaced hashes ops z' :
    fits entry (zr_index z) →
    update_index_after_store key entry replaced z = Some (hashes, ops, z') → zone_step z z'
| step_admission z key min_uses :
    zone_step z (with_index (λ i, (record_cache_admission_attempt key min_uses i).2) z)
| step_remove z key expected hash del ops z' :
    remove_zone_index_entry_if_matches key expected z = Some (hash, del, ops, z') →
    zone_step z z'
| step_purge z selector : zone_step z (purge_zone_entries selector z).2
| step_invalidate z selector now : zone_step z (invalidate_zone_entries selector now z).2
| step_clear z : zone_step z (clear_zone_invalidations z).2
| step_access z key now :
    0 ≤ now → zone_step z (record_zone_shared_entry_access key now z).2
| step_head z key last head : zone_step z (store_prepared_response_head key last head z)
| step_cleanup z now ops z' :
    cleanup_inactive_entries_in_zone now z = Some (ops, z') → zone_step z z'
| step_delta z op :
    operation_fits op (zr_index z) → zone_step z (apply_shared_index_operation op z).

Definition initial_zone (config : CacheZone) : CacheZoneRuntime :=
  mkZoneRuntime config empty_index ∅ 0 (λ _, 0).

Lemma zone_step_ok z z' : zone_step z z' → index_ok (zr_index z) → index_ok (zr_index z').
Proof.
  intros Hstep Hok.
  destruct Hstep as [z key entry replaced hashes ops z' Hfit Hu|z key min_uses|
    z key expected hash del ops z' Hr|z selector|z selector now|z|z key now Hnow|
    z key last head|z now ops z' Hc|z op Hfit].
  - destruct (update_index_after_store_ok key entry replaced z Hok Hfit)
      as (h & o & z1 & Hu' & Hok' & _). rewrite Hu in Hu'. by injection Hu' as <- <- <-.
  - by apply admission_ok.
  - by destruct (remove_if_matches_ok _ _ _ _ _ _ _ Hok Hr).
  - by destruct (purge_zone_ok selector z Hok).
  - unfold invalidate_zone_entries. cbn. rewrite record_positive_index.
    match goal with |- context [remove_hot_entries ?l ?z] =>
      destruct (remove_hot_entries_index l z) as [-> _] end.
    by eapply index_ok_ext; [..|exact Hok].
  - unfold clear_zone_invalidations. cbn.
    match goal with |- context [remove_hot_entries ?l ?z] =>
      destruct (remove_hot_entries_index l z) as [-> _] end.
    by eapply index_ok_ext; [..|exact Hok].
  - by apply access_ok.
  - unfold store_prepared_response_head, hot_entry_for_key. case_match; [done|].
    by destruct (zr_hot_entries z !! key).
  - destruct (cleanup_ok now z Hok) as (o & z1 & Hc' & Hok' & _). rewrite Hc in Hc'.
    by injection Hc' as <- <-.
  - by apply apply_operation_ok.
Qed.

Lemma reachable_ok config z : rtc zone_step (initial_zone config) z → index_ok (zr_index z).
Proof.
  intros Hr. remember (initial_zone config) as z0 eqn:Hz.
  assert (index_ok (zr_index z0)) as Hok by (subst; apply empty_index_ok). clear Hz.
  induction Hr as [|z1 z2 z3 H12 _ IH]; [done|]. apply IH. by eapply zone_step_ok.
Qed.

(** C4.  In every state a zone can reach, through any sequence of stores,
    evictions, admissions, removals, purges, invalidations, accesses, cleanups
    and operations received from the shared index, the derived data agree with
    the entries: each file hash is counted once per entry that uses it, each
    key is listed exactly once under its base key, the byte count is the sum
    of the bodies, and every entry is scheduled for cleanup exactly once. *)
Theorem cache_index_consistent (config : CacheZone) (z : CacheZoneRuntime) :
  rtc zone_step (initial_zone config) z →
  let i := zr_index z in
  (∀ h, idx_hash_ref_counts i !! h = positive (msum (has_hash h) (idx_entries i))) ∧
  (∀ b k, k ∈ default [] (idx_variants i !! b) ↔
          ∃ e, idx_entries i !! k = Some e ∧ ent_base_key e = b) ∧
  (∀ b l, idx_variants i !! b = Some l → l ≠ [] ∧ NoDup l) ∧
  idx_current_size_bytes i = msum body_of (idx_entries i) ∧
  (∀ k t, idx_access_ticket_by_key i !! k = Some t ↔
     mkSchedule (tk_last_access_unix_ms t) (tk_ticket t) k ∈ idx_access_schedule i) ∧
  (∀ k, is_Some (idx_access_ticket_by_key i !! k) ↔ is_Some (idx_entries i !! k)).
Proof.
  intros Hr i. destruct (reachable_ok _ _ Hr) as [[Hs Hc Hrefs Hz Hb Ht] [Hk Hl]].
  split_and!; [exact Hrefs|exact Hk|exact Hl|exact Hz|apply Hs|].
  intros k. unfold i. rewrite Hc. naive_solver.
Qed.

(** C5.  Storing completes and respects the zone's limit: from any reachable
    state the eviction loop ends within its fuel, afterwards the bodies fit in
    [max_size_bytes], and nothing but the stored entry was added. *)
Theorem store_completes_within_limit (config : CacheZone) (z : CacheZoneRuntime) (key : string)
    (entry : CacheIndexEntry) (replaced : option (string * CacheIndexEntry)) :
  rtc zone_step (initial_zone config) z → fits entry (zr_index z) →
  ∃ hashes ops z', update_index_after_store key entry replaced z = Some (hashes, ops, z') ∧
    (∀ max, zone_max_size_bytes (zr_config z) = Some max → 0 ≤ max →
            msum body_of (idx_entries (zr_index z')) ≤ max) ∧
    (∀ k e, idx_entries (zr_index z') !! k = Some e →
            k = key ∧ e = entry ∨ idx_entries (zr_index z) !! k = Some e).
Proof.
  intros Hr Hfit.
  destruct (update_index_after_store_ok key entry replaced z (reachable_ok _ _ Hr) Hfit)
    as (h & o & z' & Hu & _ & _ & Hold & Hmax).
  by exists h, o, z'.
Qed.

(** Inactive cleanup terminates: from any reachable state its batches end
    within their fuel and only remove entries. *)
Theorem cleanup_terminates (config : CacheZone) (z : CacheZoneRuntime) (now : Z) :
  rtc zone_step (initial_zone config) z →
  ∃ ops z', cleanup_inactive_entries_in_zone now z = Some (ops, z') ∧
    idx_entries (zr_index z') ⊆ idx_entries (zr_index z).
Proof.
  intros Hr. destruct (cleanup_ok now z (reachable_ok _ _ Hr)) as (o & z' & Hc & _ & Hsub).
  by exists o, z'.
Qed.

(** C6.  Body files are deleted exactly when no entry needs them: removing an
    entry asks for the deletion of its hash's files if and only if no
    remaining entry has that hash. *)
Theorem files_deleted_iff_unreferenced (config : CacheZone) (z z' : CacheZoneRuntime)
    (key hash : string) (expected : CacheIndexEntry) (delete_files : bool)
    (ops : list SharedIndexOperation) :
  rtc zone_step (initial_zone config) z →
  remove_zone_index_entry_if_matches key expected z = Some (hash, delete_files, ops, z') →
  idx_entries (zr_index z') = delete key (idx_entries (zr_index z)) ∧
  (delete_files = true ↔ ∀ k e, idx_entries (zr_index z') !! k = Some e → ent_hash e ≠ hash).
Proof.
  intros Hr Hrem.
  by destruct (remove_if_matches_ok _ _ _ _ _ _ _ (reachable_ok _ _ Hr) Hrem) as (_ & ? & ?).
Qed.
End Zone.

(** ** A concrete zone *)

Definition sample_zone_config : CacheZone :=
  mkCacheZone "zone" "/var/cache" (Some 100) (600 * 10 ^ 9) 0 64 [2%Z] 0 0 10 0 (10 ^ 9) false.
Definition sample_entry : CacheIndexEntry :=
  mkIndexEntry KindResponse "h1" "/x" 5 [] [] 40 10 None None None None false false 5.

#[local] Existing Instance RefHttp.api.

Definition stored_zone : CacheZoneRuntime :=
  match update_index_after_store "/x" sample_entry None (initial_zone sample_zone_config) with
  | Some (_, _, z) => z
  | None => initial_zone sample_zone_config
  end.

Lemma sample_fits : fits sample_entry (zr_index (initial_zone sample_zone_config)).
Proof. split; [split; cbn; lia|]. vm_compute. congruence. Qed.

Lemma stored_zone_reachable : rtc zone_step (initial_zone sample_zone_config) stored_zone.
Proof.
  destruct (update_index_after_store_ok "/x" sample_entry None (initial_zone sample_zone_config)
    empty_index_ok sample_fits) as (h & o & z' & Hu & _).
  apply rtc_once. unfold stored_zone. rewrite Hu. by eapply step_store; [apply sample_fits|].
Qed.

Theorem cache_index_consistent_witness :
  idx_current_size_bytes (zr_index stored_zone) = msum body_of (idx_entries (zr_index stored_zone)).
Proof.
  apply (cache_index_consistent sample_zone_config stored_zone). apply stored_zone_reachable.
Defined.

Theorem store_completes_within_limit_witness :
  ∃ hashes ops z',
    update_index_after_store "/x" sample_entry None (initial_zone sample_zone_config) =
      Some (hashes, ops, z') ∧ msum body_of (idx_entries (zr_index z')) ≤ 100.
Proof.
  destruct (store_completes_within_limit sample_zone_config (initial_zone sample_zone_config)
    "/x" sample_entry None (rtc_refl _ _) sample_fits) as (h & o & z' & Hu & Hmax & _).
  exists h, o, z'. split; [exact Hu|]. apply Hmax; [reflexivity|lia].
Defined.

Theorem cleanup_terminates_witness :
  ∃ ops z', cleanup_inactive_entries_in_zone 1000000 stored_zone = Some (ops, z') ∧
    idx_entries (zr_index z') ⊆ idx_entries (zr_index stored_zone).
Proof.
  apply (cleanup_terminates sample_zone_config stored_zone 1000000 stored_zone_reachable).
Defined.

Lemma sample_remove :
  ∃ ops z', remove_zone_index_entry_if_matches "/x" sample_entry stored_zone =
    Some ("h1"%string, true, ops, z').
Proof. eexists _, _. vm_compute. reflexivity. Qed.

Theorem files_deleted_iff_unreferenced_witness :
  ∃ z' : CacheZoneRuntime,
    ∀ k e, idx_entries (zr_index z') !! k = Some e → ent_hash e ≠ "h1"%string.
Proof.
  destruct sample_remove as (o & z' & Hr). exists z'.
  apply (files_deleted_iff_unreferenced sample_zone_config stored_zone z' "/x" "h1"
    sample_entry true o stored_zone_reachable Hr). reflexivity.
Defined.
