(* ===== verification/CacheLookup.v ===== *)
(** * Looking a request up: fill locks and the lookup decision

    Models [crates/rginx-http/src/cache/runtime/fill_lock.rs],
    [cache/lookup.rs], [cache/lookup/helpers.rs], [cache/manager.rs] and the flags
    of [CacheFillReadState] ([cache/fill/local.rs]).

    A read state is shared ([Arc]) by the lock table, the fill that writes it
    and the readers, so the table holds its identifier and the states live in a
    store of their own.  A [Notify] is identified by the generation of the lock
    it was made for.  What the other processes do (the shared-memory store, the
    lock and state files) reaches [fill_lock_decision] as the outcomes of the
    calls that ask for it. *)

From S2P Require Import Prelude RustStr External Template CacheConfig CacheTypes CacheRequest CachePolicy CacheStore CacheIndex CacheMaintenance.

Section FillLocks.
Context {HTTP : HttpApi}.

(** ** The state of a running fill *)

(** The files and the notification handle are the fill's identity. *)
(** Source: crates/rginx-http/src/cache/fill/local.rs:21-33 (CacheFillReadState) *)
Record CacheFillReadState : Type := mkReadState {
  rs_status : Z;
  rs_headers : HeaderMap;
  rs_bytes_written : Z;
  rs_finished : bool;
  rs_upstream_completed : bool;
  rs_trailers : option HeaderMap;
  rs_error : option string;
}.

(** Source: crates/rginx-http/src/cache/fill/local.rs:36-68 (CacheFillReadState::new) *)
Definition read_state_new (status : Z) (headers : HeaderMap) : CacheFillReadState :=
  mkReadState status headers 0 false false None None.

(** Source: crates/rginx-http/src/cache/fill/local.rs:70-78 (CacheFillReadState::record_bytes_written) *)
Definition record_bytes_written (body_size_bytes : Z) (s : CacheFillReadState)
    : CacheFillReadState :=
  mkReadState (rs_status s) (rs_headers s) body_size_bytes (rs_finished s)
    (rs_upstream_completed s) (rs_trailers s) (rs_error s).

(** Source: crates/rginx-http/src/cache/fill/local.rs:80-89 (CacheFillReadState::finish) *)
Definition finish (trailers : option HeaderMap) (s : CacheFillReadState) : CacheFillReadState :=
  mkReadState (rs_status s) (rs_headers s) (rs_bytes_written s) true
    (rs_upstream_completed s) trailers (rs_error s).

(** Source: crates/rginx-http/src/cache/fill/local.rs:91-100 (CacheFillReadState::fail) *)
Definition fail (error : string) (s : CacheFillReadState) : CacheFillReadState :=
  mkReadState (rs_status s) (rs_headers s) (rs_bytes_written s) (rs_finished s)
    (rs_upstream_completed s) (rs_trailers s) (Some error).

(** Source: crates/rginx-http/src/cache/fill/local.rs:106-114 (CacheFillReadState::mark_upstream_complete) *)
Definition mark_upstream_complete (s : CacheFillReadState) : CacheFillReadState :=
  mkReadState (rs_status s) (rs_headers s) (rs_bytes_written s) (rs_finished s)
    true (rs_trailers s) (rs_error s).

(** Source: crates/rginx-http/src/cache/fill/local.rs:116-118 (CacheFillReadState::can_serve) *)
Definition can_serve (s : CacheFillReadState) : bool := negb (is_some (rs_error s)).

(** Source: crates/rginx-http/src/cache/fill/local.rs:102-104 (CacheFillReadState::can_share) *)
Definition can_share (s : CacheFillReadState) : bool :=
  can_serve s && negb (rs_upstream_completed s).

(** ** The table of fill locks *)

(** Source: crates/rginx-http/src/cache/state.rs:121-127 (CacheFillLockState) *)
Record CacheFillLockState : Type := mkFillLock {
  fl_notify : Z;
  fl_acquired_at_unix_ms : Z;
  fl_generation : Z;
  fl_share_fingerprint : string;
  fl_reader_state : option N;
}.

(** What other processes hold: the handle of a shared fill and the state of a
    fill run elsewhere are opaque here. *)
Context {ExternalHandle ExternalRead : Type}.

(** Source: crates/rginx-http/src/cache/state.rs:105-112 (CacheFillGuard) *)
Record CacheFillGuard : Type := mkGuard {
  g_key : string;
  g_generation : Z;
  g_notify : Z;
  g_external_lock_path : option string;
  g_external_state : option ExternalHandle;
}.

(** Source: crates/rginx-http/src/cache/state.rs:194-200 (FillLockDecision) *)
Inductive FillLockDecision : Type :=
| Acquired (guard : CacheFillGuard)
| ReadLocal (state : N)
| ReadExternal (state : ExternalRead)
| WaitLocal (waiter : Z)
| WaitExternal (key : string).

(** [fill_locks] and [fill_lock_generation] of the zone, with the shared read
    states. *)
(** Source: crates/rginx-http/src/cache/state.rs:3-18 (CacheZoneRuntime) *)
Record FillLocks : Type := mkFillLocks {
  fls_locks : gmap string CacheFillLockState;
  fls_generation : Z;
  fls_read_states : gmap N CacheFillReadState;
}.

(** The outcomes of the calls to the shared coordination, for this key: whether
    the zone has a shared index and a store with shared fill locks; the handle
    the store gives ([None]: busy), the state it loads; the lock file taken
    ([None]: somebody holds it), the handle made for it and the state files
    read. *)
Record SharedOutcomes : Type := mkShared {
  so_shared_index : bool;
  so_memory_store : bool;
  so_create_memory : result string (option ExternalHandle);
  so_load_memory : option ExternalRead;
  so_lock_file : option string;
  so_create_file : result string ExternalHandle;
  so_load_file : option ExternalRead;
}.

(** The part of [fill_lock_decision] that asks the other processes: a decision
    to return, or the lock path and the handle of the guard. *)
(** Source: crates/rginx-http/src/cache/runtime/fill_lock.rs:34-101 (fill_lock_decision, external part) *)
Definition external_fill (key : string) (shared : SharedOutcomes)
    : FillLockDecision + (option string * option ExternalHandle) :=
  if so_shared_index shared then
    if so_memory_store shared then
      match so_create_memory shared with
      | Ok (Some state) => inr (None, Some state)
      | Ok None =>
          match so_load_memory shared with
          | Some state => inl (ReadExternal state)
          | None => inl (WaitExternal key)
          end
      | Err _ => inr (None, None)
      end
    else
      match so_lock_file shared with
      | Some lock_path =>
          match so_create_file shared with
          | Ok state => inr (Some lock_path, Some state)
          | Err _ => inr (None, None)
          end
      | None =>
          match so_load_file shared with
          | Some state => inl (ReadExternal state)
          | None => inl (WaitExternal key)
          end
      end
  else inr (None, None).

(** [reader_state.filter(|state| state.can_share())]. *)
Definition sharable_state (t : FillLocks) (lock : CacheFillLockState) : option N :=
  fl_reader_state lock ≫= λ id,
    fls_read_states t !! id ≫= λ s, if can_share s then Some id else None.

(** Taking the lock: the next generation, a lock without a read state, the
    guard. *)
(** Source: crates/rginx-http/src/cache/runtime/fill_lock.rs:102-123 (fill_lock_decision, taking the lock) *)
Definition acquire_fill_lock (key : string) (now : Z) (share_fingerprint : option string)
    (external : option string * option ExternalHandle) (t : FillLocks)
    : FillLockDecision * FillLocks :=
  let generation := wrap64 (wrap64 (fls_generation t) + 1) in
  (Acquired (mkGuard key generation generation external.1 external.2),
   mkFillLocks
     (<[key := mkFillLock generation now generation (default EmptyString share_fingerprint) None]>
        (fls_locks t))
     generation (fls_read_states t)).

(** No usable lock of this process. *)
Definition contend_fill_lock (key : string) (now : Z) (share_fingerprint : option string)
    (shared : SharedOutcomes) (t : FillLocks) : FillLockDecision * FillLocks :=
  match external_fill key shared with
  | inl decision => (decision, t)
  | inr external => acquire_fill_lock key now share_fingerprint external t
  end.

(** [lock_age] is in nanoseconds; [as u64] wraps. *)
(** Source: crates/rginx-http/src/cache/runtime/fill_lock.rs:14-126 (CacheZoneRuntime::fill_lock_decision) *)
Definition fill_lock_decision (key : string) (now lock_age : Z)
    (share_fingerprint : option string) (shared : SharedOutcomes) (t : FillLocks)
    : FillLockDecision * FillLocks :=
  match fls_locks t !! key with
  | Some lock =>
      if sat_sub now (fl_acquired_at_unix_ms lock) <=? wrap64 (lock_age / 10 ^ 6) then
        if match share_fingerprint with
           | Some fingerprint => str_eqb (fl_share_fingerprint lock) fingerprint
           | None => true
           end
        then match sharable_state t lock with
             | Some state => (ReadLocal state, t)
             | None => (WaitLocal (fl_notify lock), t)
             end
        else (WaitLocal (fl_notify lock), t)
      else contend_fill_lock key now share_fingerprint shared t
  | None => contend_fill_lock key now share_fingerprint shared t
  end.

(** The state is attached only to the lock of the fill's own generation; the
    waiters of that lock are woken. *)
(** Source: crates/rginx-http/src/cache/runtime/fill_lock.rs:226-241 (CacheZoneRuntime::attach_fill_read_state) *)
Definition attach_fill_read_state (key : string) (generation : Z) (id : N)
    (state : CacheFillReadState) (t : FillLocks) : option (Z * FillLocks) :=
  match fls_locks t !! key with
  | None => None
  | Some lock =>
      if fl_generation lock =? generation
      then Some (fl_notify lock,
             mkFillLocks
               (<[key := mkFillLock (fl_notify lock) (fl_acquired_at_unix_ms lock)
                           (fl_generation lock) (fl_share_fingerprint lock) (Some id)]>
                  (fls_locks t))
               (fls_generation t) (<[id := state]> (fls_read_states t)))
      else None
  end.

(** Dropping a guard: the lock is removed when it is still this guard's, the
    shared handle is released or the lock file removed, the waiters are
    woken. *)
Inductive ReleaseExternal : Type :=
| ReleaseHandle (handle : ExternalHandle)
| RemoveLockFile (path : string)
| ReleaseNothing.

(** Source: crates/rginx-http/src/cache/runtime/fill_lock.rs:269-282 (CacheFillGuard::drop) *)
Definition drop_guard (g : CacheFillGuard) (t : FillLocks) : FillLocks * ReleaseExternal * Z :=
  let locks :=
    match fls_locks t !! g_key g with
    | Some lock =>
        if fl_generation lock =? g_generation g then delete (g_key g) (fls_locks t)
        else fls_locks t
    | None => fls_locks t
    end in
  let released :=
    match g_external_state g, g_external_lock_path g with
    | Some handle, _ => ReleaseHandle handle
    | None, Some path => RemoveLockFile path
    | None, None => ReleaseNothing
    end in
  (mkFillLocks locks (fls_generation t) (fls_read_states t), released, g_notify g).

(** The fill updates its own read state in place. *)
Definition update_read_state (id : N) (f : CacheFillReadState → CacheFillReadState)
    (t : FillLocks) : FillLocks :=
  mkFillLocks (fls_locks t) (fls_generation t) (alter f id (fls_read_states t)).

(** ** The lookup decision *)

(** Source: crates/rginx-http/src/cache/lookup/helpers.rs:9-34 (matching_variant_key) *)
Definition matching_variant_key (index : CacheIndex) (base_key : string) (request : CacheRequest)
    : option string :=
  let matches key :=
    match idx_entries index !! key with
    | Some entry => matches_vary_headers request (ent_vary entry)
    | None => false
    end in
  if negb (is_some (idx_variants index !! base_key)) && matches base_key
  then Some base_key
  else find_first matches (default [] (idx_variants index !! base_key)).

Definition header_cmp (a b : string * string) : comparison :=
  then_cmp (str_cmp a.1 b.1) (str_cmp a.2 b.2).

Definition hex_of_bytes (s : string) : string :=
  str_concat (map (λ c, hex_byte (byte_of c)) (String.list_ascii_of_string s)).

Definition newline : string := String (Ascii.ascii_of_nat 10) EmptyString.

(** Source: crates/rginx-http/src/cache/lookup/helpers.rs:51-70 (fill_share_fingerprint) *)
Definition fill_share_fingerprint (request : CacheRequest) : string :=
  let headers :=
    sort_by header_cmp
      (map (A := string * HeaderValue) (λ '(name, value), (to_ascii_lowercase name, hv_as_bytes value))
         (filter (λ p, p.1 ≠ "range"%string) (hm_iter (req_headers request)))) in
  foldl (λ fingerprint '(name, value),
           fingerprint +:+ name +:+ "=" +:+ hex_of_bytes value +:+ newline)
    ("method=" +:+ req_method request +:+ newline) headers.

(** Source: crates/rginx-http/src/cache/state.rs:189-192 (LookupWait) *)
Inductive LookupWait : Type := Local (waiter : Z) | External (key : string).

(** Source: crates/rginx-http/src/cache/state.rs:149-187 (LookupDecision) *)
Inductive LookupDecision : Type :=
| Bypass (status : CacheStatus)
| DropEntry (key : string) (entry : CacheIndexEntry)
| FreshHit (key : string) (entry : CacheIndexEntry)
| Stale (key : string) (entry : CacheIndexEntry) (status : CacheStatus)
| BackgroundUpdate (key : string) (cached_entry : CacheIndexEntry) (fill_guard : CacheFillGuard)
| MissDecision (key base_key : string) (cached_entry : option CacheIndexEntry)
    (fill_guard : option CacheFillGuard) (cache_status : CacheStatus)
| ReadWhileFillLocal (state : N)
| ReadWhileFillExternal (state : ExternalRead)
| Wait (strategy : LookupWait).

(** The outcomes of the shared coordination depend on the key asked for. *)
(** Source: crates/rginx-http/src/cache/lookup.rs:10-172 (CacheManager::lookup_decision) *)
Definition lookup_decision (zone : CacheZoneRuntime) (locks : FillLocks) (request : CacheRequest)
    (base_key : string) (now : Z) (request_forces_revalidation : bool)
    (policy : RouteCachePolicy) (shared : string → SharedOutcomes)
    : LookupDecision * CacheZoneRuntime * FillLocks :=
  let index := zr_index zone in
  let matching : option (string * CacheIndexEntry * bool) :=
    matching_variant_key index base_key request ≫= λ key,
      (λ entry, (key, entry, entry_is_logically_invalid index key entry)) <$>
        (idx_entries index !! key) in
  match matching with
  | Some (key, entry, invalidated) =>
      if invalidated then (DropEntry key entry, zone, locks) else
      let phase := lifecycle_phase entry now in
      if is_hit_for_pass entry then
        (if bool_decide (phase = Dead) then DropEntry key entry else Bypass StBypass, zone, locks)
      else if bool_decide (phase = Dead) then (DropEntry key entry, zone, locks)
      else
        let zone := record_entry_access key now zone in
        if bool_decide (phase = Fresh) && negb (ent_requires_revalidation entry) &&
           negb request_forces_revalidation
        then (FreshHit key entry, zone, locks)
        else
          let expired := ent_expires_at_unix_ms entry <? now in
          let stale_allowed :=
            expired && stale_allowed_for_entry policy entry now request_forces_revalidation in
          let '(decision, locks) :=
            fill_lock_decision key now (pol_lock_age policy) None (shared key) locks in
          (match decision with
           | Acquired guard =>
               if stale_allowed && pol_background_update policy
               then BackgroundUpdate key entry guard
               else MissDecision key (ent_base_key entry) (Some entry) (Some guard)
                      (if expired then StExpired else StRevalidated)
           | ReadLocal state =>
               if stale_allowed then Stale key entry StUpdating else ReadWhileFillLocal state
           | ReadExternal state =>
               if stale_allowed then Stale key entry StUpdating else ReadWhileFillExternal state
           | WaitLocal waiter =>
               if stale_allowed then Stale key entry StUpdating else Wait (Local waiter)
           | WaitExternal external_key =>
               if stale_allowed then Stale key entry StUpdating else Wait (External external_key)
           end, zone, locks)
  | None =>
      let '(decision, locks) :=
        fill_lock_decision base_key now (pol_lock_age policy)
          (Some (fill_share_fingerprint request)) (shared base_key) locks in
      (match decision with
       | Acquired guard => MissDecision base_key base_key None (Some guard) StMiss
       | ReadLocal state => ReadWhileFillLocal state
       | ReadExternal state => ReadWhileFillExternal state
       | WaitLocal waiter => Wait (Local waiter)
       | WaitExternal external_key => Wait (External external_key)
       end, zone, locks)
  end.

(** ** Reading the stored head *)

(** The metadata read from the file of the entry, or [None]. *)
(** Source: crates/rginx-http/src/cache/entry.rs:122-162 (load_cached_response_head and load_cached_response_head_locked) *)
Definition load_cached_response_head (key : string) (entry : CacheIndexEntry)
    (metadata : option CacheMetadata) (z : CacheZoneRuntime)
    : option PreparedCacheResponseHead * CacheZoneRuntime :=
  if is_hit_for_pass entry then (None, z)
  else
    match prepared_response_head key (ent_hash entry) z with
    | Some head => (Some head, z)
    | None =>
        match metadata with
        | None => (None, z)
        | Some metadata =>
            if negb (str_eqb (md_key metadata) key) then (None, z)
            else
              match prepare_cached_response_head (ent_hash entry) metadata with
              | None => (None, z)
              | Some head =>
                  (Some head, store_prepared_response_head key (ent_last_access_unix_ms entry) head z)
              end
        end
    end.

(** The I/O lock and the files of the hash are outside the model; the boolean is
    the source's result. *)
(** Source: crates/rginx-http/src/cache/runtime/support.rs:15-28 (remove_cache_entry_if_matches) *)
Definition remove_cache_entry_if_matches (key : string) (expected_entry : CacheIndexEntry)
    (z : CacheZoneRuntime) : bool * CacheZoneRuntime :=
  match remove_zone_index_entry_if_matches key expected_entry z with
  | None => (false, z)
  | Some (_, _, _, z) => (true, z)
  end.

(** ** The lookup loop *)

(** What one turn of the loop observes: the clock at the decision and at the
    access record, the metadata file of the entry, whether the body file could
    be read and trimmed to the request, whether the wait ended before its
    timeout, whether the in-flight response could be built, and the effect of
    [sync_zone_shared_index_if_needed]. *)
Record LookupIo : Type := mkIo {
  io_now : Z;
  io_access_now : Z;
  io_metadata : option CacheMetadata;
  io_body_ok : bool;
  io_released : bool;
  io_inflight_ok : bool;
  io_sync : CacheZoneRuntime → CacheZoneRuntime;
}.

(** A response is known by where its head and body come from and the status of
    its [x-cache] header. *)
Inductive ResponseSource : Type :=
| FromEntry (key : string) (entry : CacheIndexEntry) (head : PreparedCacheResponseHead)
| FromFill (state : N)
| FromExternalFill (state : ExternalRead).

(** The guard travels in the context of the store. *)
(** Source: crates/rginx-http/src/cache/mod.rs:111-116 (CacheLookup) *)
Inductive CacheLookup : Type :=
| LookupHit (response : ResponseSource) (status : CacheStatus)
| LookupMiss (context : CacheStoreContext) (guard : option CacheFillGuard)
| LookupUpdating (response : ResponseSource) (context : CacheStoreContext)
    (guard : CacheFillGuard)
| LookupBypass (status : CacheStatus).

(** [None]: the entry was removed because it could not be read. *)
(** Source: crates/rginx-http/src/cache/lookup.rs:196-254 (CacheManager::stale_response_from_entry) *)
Definition stale_response_from_entry (key : string) (entry : CacheIndexEntry)
    (status : CacheStatus) (io : LookupIo) (z : CacheZoneRuntime)
    : option ResponseSource * CacheZoneRuntime :=
  match load_cached_response_head key entry (io_metadata io) z with
  | (None, z) => (None, (remove_cache_entry_if_matches key entry z).2)
  | (Some head, z) =>
      if negb (io_body_ok io) then (None, (remove_cache_entry_if_matches key entry z).2)
      else
        let z := (record_zone_shared_entry_access key (io_access_now io) z).2 in
        (Some (FromEntry key entry head),
         if bool_decide (status = StUpdating) then record_counter updating_total 1 z
         else record_counter stale_total 1 z)
  end.

(** Source: crates/rginx-http/src/cache/lookup.rs:174-194 (CacheManager::load_lookup_response_head) *)
Definition load_lookup_response_head (key : string) (entry : CacheIndexEntry) (io : LookupIo)
    (z : CacheZoneRuntime) : option PreparedCacheResponseHead * CacheZoneRuntime :=
  match load_cached_response_head key entry (io_metadata io) z with
  | (Some head, z) => (Some head, z)
  | (None, z) => (None, (remove_cache_entry_if_matches key entry z).2)
  end.

(** One turn of the loop; [None] goes round again. *)
(** Source: crates/rginx-http/src/cache/manager.rs:8-280 (CacheManager::lookup) *)
Definition lookup_turn (request : CacheRequest) (base_key : string)
    (policy : RouteCachePolicy) (io : LookupIo) (shared : string → SharedOutcomes)
    (zone : CacheZoneRuntime) (locks : FillLocks)
    : option CacheLookup * CacheZoneRuntime * FillLocks :=
  let request_forces_revalidation := request_requires_revalidation (req_headers request) in
  let read_cached_body := negb (str_eqb (req_method request) HEAD) in
  let context request base_key key cache_status store_response cached_entry head revalidating :=
    mkStoreContext (zr_config zone) policy request base_key key cache_status store_response
      cached_entry head revalidating request_forces_revalidation read_cached_body in
  let '(decision, zone, locks) :=
    lookup_decision zone locks request base_key (io_now io) request_forces_revalidation policy
      shared in
  match decision with
  | Bypass status => (Some (LookupBypass status), record_counter bypass_total 1 zone, locks)
  | DropEntry key entry => (None, (remove_cache_entry_if_matches key entry zone).2, locks)
  | FreshHit key entry =>
      match load_cached_response_head key entry (io_metadata io) zone with
      | (Some head, zone) =>
          if io_body_ok io then
            let zone := (record_zone_shared_entry_access key (io_access_now io) zone).2 in
            (Some (LookupHit (FromEntry key entry head) StHit), record_counter hit_total 1 zone,
             locks)
          else (None, (remove_cache_entry_if_matches key entry zone).2, locks)
      | (None, zone) => (None, (remove_cache_entry_if_matches key entry zone).2, locks)
      end
  | Stale key entry status =>
      match stale_response_from_entry key entry status io zone with
      | (Some response, zone) => (Some (LookupHit response status), zone, locks)
      | (None, zone) => (None, zone, locks)
      end
  | Wait _ =>
      if io_released io then (None, io_sync io zone, locks)
      else
        (Some (LookupMiss (context request base_key base_key StBypass false None None false) None),
         record_counter bypass_total 1 zone, locks)
  | BackgroundUpdate key cached_entry guard =>
      match load_lookup_response_head key cached_entry io zone with
      | (None, zone) => (None, zone, (drop_guard guard locks).1.1)
      | (Some head, zone) =>
          let zone := record_counter expired_total 1 zone in
          match stale_response_from_entry key cached_entry StUpdating io zone with
          | (None, zone) => (None, zone, (drop_guard guard locks).1.1)
          | (Some response, zone) =>
              (Some (LookupUpdating response
                 (context (with_method request GET) (ent_base_key cached_entry) key StUpdating true
                    (Some cached_entry) (Some head) true) guard), zone, locks)
          end
      end
  | MissDecision key context_base_key cached_entry guard cache_status =>
      let loaded :=
        match cached_entry with
        | None => (Some None, zone)
        | Some entry =>
            let '(head, zone) := load_lookup_response_head key entry io zone in
            (Some <$> head, zone)
        end in
      match loaded with
      | (None, zone) =>
          (None, zone,
           match guard with Some guard => (drop_guard guard locks).1.1 | None => locks end)
      | (Some head, zone) =>
          let zone :=
            if bool_decide (cache_status = StMiss) then record_counter miss_total 1 zone
            else if bool_decide (cache_status = StExpired) then record_counter expired_total 1 zone
            else zone in
          (Some (LookupMiss
             (context request context_base_key key cache_status
                (str_eqb (req_method request) GET ||
                 (str_eqb (req_method request) HEAD && pol_convert_head policy))
                cached_entry head (bool_decide (cache_status = StRevalidated))) guard),
           zone, locks)
      end
  | ReadWhileFillLocal state =>
      if io_inflight_ok io
      then (Some (LookupHit (FromFill state) StMiss), record_counter miss_total 1 zone, locks)
      else (None, zone, locks)
  | ReadWhileFillExternal state =>
      if io_inflight_ok io
      then (Some (LookupHit (FromExternalFill state) StMiss), record_counter miss_total 1 zone,
            locks)
      else (None, zone, locks)
  end.

(** The whole lookup over the observations of its successive turns: the zone of
    the policy, the bypass rules, the shared index, the key, the loop.  [None]:
    the observations ran out before an answer. *)
Fixpoint lookup_loop (request : CacheRequest) (base_key : string) (policy : RouteCachePolicy)
    (turns : list (LookupIo * (string → SharedOutcomes))) (zone : CacheZoneRuntime)
    (locks : FillLocks) : option CacheLookup * CacheZoneRuntime * FillLocks :=
  match turns with
  | [] => (None, zone, locks)
  | (io, shared) :: turns =>
      match lookup_turn request base_key policy io shared zone locks with
      | (None, zone, locks) => lookup_loop request base_key policy turns zone locks
      | answer => answer
      end
  end.

(** Source: crates/rginx-http/src/cache/manager.rs:8-280 (CacheManager::lookup) *)
Definition lookup (zones : gmap string (CacheZoneRuntime * FillLocks)) (request : CacheRequest)
    (downstream_scheme : string) (policy : RouteCachePolicy)
    (sync : CacheZoneRuntime → CacheZoneRuntime)
    (turns : list (LookupIo * (string → SharedOutcomes)))
    : option CacheLookup * gmap string (CacheZoneRuntime * FillLocks) :=
  match zones !! pol_zone policy with
  | None => (Some (LookupBypass StBypass), zones)
  | Some (zone, locks) =>
      if cache_request_bypass request policy then
        (Some (LookupBypass StBypass),
         <[pol_zone policy := (record_counter bypass_total 1 zone, locks)]> zones)
      else
        let zone := sync zone in
        let base_key :=
          render_cache_key (req_method request) (req_uri request) (req_headers request)
            downstream_scheme policy in
        let '(answer, zone, locks) := lookup_loop request base_key policy turns zone locks in
        (answer, <[pol_zone policy := (zone, locks)]> zones)
  end.

End FillLocks.
