(* ===== verification/CacheLookupSafety.v ===== *)
(** * What a lookup may serve, and who may fill

    Theorems about [CacheLookup.v]: the entry a lookup serves is indexed,
    matches the request and is within its lifetime; the lookup loop answers;
    the fill locks exclude concurrent fills of a key and never leak. *)

From S2P Require Import Prelude RustStr External CacheConfig CacheTypes CacheRequest CachePolicy CacheStore CacheIndex CacheMaintenance CacheInvariant CacheSafety CacheLookup.

Section Serving.
Context {HTTP : HttpApi} {SHA : Sha256Api} {DATE : HttpDateApi}.
Context {ExternalHandle ExternalRead : Type}.
Implicit Types (z : CacheZoneRuntime) (t : FillLocks (HTTP := HTTP)).
Notation SharedOutcomes := (SharedOutcomes (ExternalHandle := ExternalHandle) (ExternalRead := ExternalRead)).

(** ** Matching *)

Lemma matching_variant_Some index base request k :
  matching_variant_key index base request = Some k →
  ∃ e, idx_entries index !! k = Some e ∧ matches_vary_headers request (ent_vary e) = true ∧
       (k = base ∨ k ∈ default [] (idx_variants index !! base)).
Proof.
  unfold matching_variant_key. case_match eqn:Hb.
  - intros [= <-]. boolify. case_match; [|done]. naive_solver.
  - intros (l1 & l2 & Hl & Hk & _)%find_first_Some. case_match; [|done].
    eexists. split_and!; [done..|]. right. rewrite Hl. set_solver.
Qed.

(** ** The decision *)

(** What a decision may rest on: the entry [e] filed under [k] is the one the
    request is answered from or the one to refresh. *)
Definition candidate (i : CacheIndex) (base : string) (request : CacheRequest) (k : string)
    (e : CacheIndexEntry) : Prop :=
  idx_entries i !! k = Some e ∧ matches_vary_headers request (ent_vary e) = true ∧
  (k = base ∨ k ∈ default [] (idx_variants i !! base)).

Lemma lookup_decision_entry z t request base now forces policy (shared : string → SharedOutcomes) d z' t' :
  lookup_decision z t request base now forces policy shared = (d, z', t') →
  zr_index z' = zr_index z.
Proof.
  unfold lookup_decision, record_entry_access, hot_entry_for_key.
  intros H. repeat (case_match; simplify_eq/=; try done).
Qed.

(** The entry a decision answers the request from. *)
Definition served (d : LookupDecision (ExternalHandle := ExternalHandle) (ExternalRead := ExternalRead))
    : option (string * CacheIndexEntry) :=
  match d with
  | FreshHit k e => Some (k, e)
  | Stale k e _ => Some (k, e)
  | BackgroundUpdate k e _ => Some (k, e)
  | _ => None
  end.

Definition fresh_hit (d : LookupDecision (ExternalHandle := ExternalHandle) (ExternalRead := ExternalRead)) : bool :=
  match d with FreshHit _ _ => true | _ => false end.

(** An entry that needs no revalidation for this request. *)
Definition fresh_for (e : CacheIndexEntry) (now : Z) (forces : bool) : Prop :=
  now ≤ ent_expires_at_unix_ms e ∧ ent_requires_revalidation e = false ∧ forces = false.

(** An expired entry whose origin or whose policy promises stale service while
    it is refreshed. *)
Definition stale_for (policy : RouteCachePolicy) (e : CacheIndexEntry) (now : Z) (forces : bool)
    : Prop :=
  ent_expires_at_unix_ms e < now ∧ ent_requires_revalidation e = false ∧
  ent_must_revalidate e = false ∧ forces = false ∧
  (within (ent_stale_while_revalidate_until_unix_ms e) now = true ∨
   UseStaleUpdating ∈ pol_use_stale policy ∧ within (ent_grace_until_unix_ms e) now = true).

Lemma lifecycle_Fresh e now : lifecycle_phase e now = Fresh ↔ now ≤ ent_expires_at_unix_ms e.
Proof.
  unfold lifecycle_phase. destruct (Z.leb_spec now (ent_expires_at_unix_ms e)); [done|].
  split; [|lia]. by repeat case_match.
Qed.

Lemma lifecycle_Grace e now :
  lifecycle_phase e now = Grace →
  ent_expires_at_unix_ms e < now ∧
  (within (ent_grace_until_unix_ms e) now = true ∨
   within (ent_stale_while_revalidate_until_unix_ms e) now = true).
Proof.
  unfold lifecycle_phase, stale_while_revalidate_window_open.
  destruct (Z.leb_spec now (ent_expires_at_unix_ms e)); [done|].
  case_match eqn:Hg; [|by case_match]. apply orb_true_iff in Hg. done.
Qed.

Lemma stale_allowed_stale_for policy e now forces :
  stale_allowed_for_entry policy e now forces = true → stale_for policy e now forces.
Proof.
  unfold stale_allowed_for_entry, stale_for. intros H.
  rewrite !andb_true_iff, orb_true_iff, !bool_decide_eq_true, !negb_true_iff in H.
  destruct H as (((((Hg & _) & Hf) & Hr) & Hm) & Hu). apply lifecycle_Grace in Hg as [He Hw].
  split_and!; [done..|]. naive_solver.
Qed.

Lemma decision_served z t request base now forces policy (shared : string → SharedOutcomes) d z' t' k e :
  lookup_decision z t request base now forces policy shared = (d, z', t') →
  served d = Some (k, e) →
  candidate (zr_index z) base request k e ∧
  entry_is_logically_invalid (zr_index z) k e = false ∧ is_hit_for_pass e = false ∧
  if fresh_hit d then fresh_for e now forces else stale_for policy e now forces.
Proof.
  unfold lookup_decision. intros Hd Hs.
  destruct (matching_variant_key (zr_index z) base request) as [k0|] eqn:Hm; cbn in Hd.
  2:{ destruct (fill_lock_decision _ _ _ _ _ _) as [d0 t0]. destruct d0; by simplify_eq/=. }
  destruct (matching_variant_Some _ _ _ _ Hm) as (e0 & He0 & Hv & Hin). rewrite He0 in Hd. cbn in Hd.
  assert (candidate (zr_index z) base request k0 e0) as Hc by done.
  destruct (entry_is_logically_invalid (zr_index z) k0 e0) eqn:Hi; [by simplify_eq/=|].
  destruct (is_hit_for_pass e0) eqn:Hh; [by case_bool_decide; simplify_eq/=|].
  destruct (bool_decide (lifecycle_phase e0 now = Dead)); [by simplify_eq/=|].
  destruct (bool_decide (lifecycle_phase e0 now = Fresh) && _ && _) eqn:Hf.
  { simplify_eq/=. boolify. case_bool_decide as Hp; [|done]. apply lifecycle_Fresh in Hp. done. }
  destruct (fill_lock_decision _ _ _ _ _ _) as [d0 t0].
  destruct (_ && stale_allowed_for_entry policy e0 now forces) eqn:Hst.
  - apply andb_true_iff in Hst as [_ Hst%stale_allowed_stale_for].
    destruct d0; cbn in Hd; [destruct (pol_background_update policy)|..]; by simplify_eq/=.
  - destruct d0; by simplify_eq/=.
Qed.

Lemma decision_fresh z t request base now forces policy (shared : string → SharedOutcomes) k e :
  matching_variant_key (zr_index z) base request = Some k →
  idx_entries (zr_index z) !! k = Some e →
  entry_is_logically_invalid (zr_index z) k e = false → is_hit_for_pass e = false →
  fresh_for e now forces →
  (lookup_decision z t request base now forces policy shared).1.1 = FreshHit k e.
Proof.
  intros Hm He Hi Hh (Hexp%lifecycle_Fresh & Hr & Hf). unfold lookup_decision.
  rewrite Hm. cbn. rewrite He. cbn. rewrite Hi, Hh, Hexp, Hr, Hf. done.
Qed.

End Serving.

(** C8.  A lookup answers only from an entry that is in the index, filed under
    the request's key or one of its variants, selected by the request's Vary
    headers, not invalidated and a real response; as a fresh hit exactly when
    it has not expired and neither the entry nor the request asks for
    revalidation, and while it is being refreshed only when it has expired,
    need not be revalidated, and the origin's stale-while-revalidate or the
    policy's grace promises it.  Deciding changes nothing in the index. *)
Theorem lookup_serves_live_entries `{HTTP : HttpApi} {ExternalHandle ExternalRead : Type}
    (config : CacheZone) (z z' : CacheZoneRuntime) (t t' : FillLocks) (request : CacheRequest)
    (base : string) (now : Z) (forces : bool) (policy : RouteCachePolicy)
    (shared : string → SharedOutcomes (ExternalHandle := ExternalHandle) (ExternalRead := ExternalRead))
    (d : LookupDecision) :
  rtc zone_step (initial_zone config) z →
  lookup_decision z t request base now forces policy shared = (d, z', t') →
  zr_index z' = zr_index z ∧
  (∀ k e, served d = Some (k, e) →
     idx_entries (zr_index z) !! k = Some e ∧ (k = base ∨ ent_base_key e = base) ∧
     matches_vary_headers request (ent_vary e) = true ∧
     entry_is_logically_invalid (zr_index z) k e = false ∧ ent_kind e = KindResponse ∧
     if fresh_hit d then fresh_for e now forces else stale_for policy e now forces) ∧
  (∀ k e, matching_variant_key (zr_index z) base request = Some k →
     idx_entries (zr_index z) !! k = Some e → entry_is_logically_invalid (zr_index z) k e = false →
     ent_kind e = KindResponse → fresh_for e now forces → d = FreshHit k e).
Proof.
  intros Hr Hd. split_and!.
  - by eapply lookup_decision_entry.
  - intros k e Hs. destruct (decision_served _ _ _ _ _ _ _ _ _ _ _ _ _ Hd Hs)
      as ((He & Hv & Hin) & Hi & Hh & Hf).
    split_and!; [done| |done..| |done].
    + destruct Hin as [->|Hin]; [by left|right].
      destruct (reachable_ok _ _ Hr) as [_ [Hkeys _]].
      apply Hkeys in Hin as (e' & He' & Hb). by simplify_eq.
    + unfold is_hit_for_pass in Hh. by destruct (ent_kind e).
  - intros k e Hm He Hi Hk Hf.
    assert (is_hit_for_pass e = false) as Hh by (unfold is_hit_for_pass; by rewrite Hk).
    pose proof (decision_fresh z t request base now forces policy shared k e Hm He Hi Hh Hf) as Heq.
    by rewrite Hd in Heq.
Qed.


(** ** Fill locks *)

Section Fill.
Context {HTTP : HttpApi} {ExternalHandle ExternalRead : Type}.
Notation SharedOutcomes := (SharedOutcomes (ExternalHandle := ExternalHandle) (ExternalRead := ExternalRead)).
Notation CacheFillGuard := (CacheFillGuard (ExternalHandle := ExternalHandle)).
Notation FillLockDecision := (FillLockDecision (ExternalHandle := ExternalHandle) (ExternalRead := ExternalRead)).

(** The lock table of a zone, the guards alive with the time they were given,
    and the clock. *)
Record FillSystem : Type := mkFillSystem {
  fs_clock : Z;
  fs_table : FillLocks;
  fs_guards : list (CacheFillGuard * Z);
}.

Definition granted (d : FillLockDecision) (now : Z) : list (CacheFillGuard * Z) :=
  match d with Acquired g => [(g, now)] | _ => [] end.

(** The steps of the tasks that share the zone: a request for a lock by a route
    whose lock age is at least [age], attaching and updating a read state,
    dropping a guard.  The clock does not go back, and the 64-bit generation
    has not wrapped. *)
Inductive fill_step (age : Z) : FillSystem → FillSystem → Prop :=
| fill_request s key now lock_age fingerprint (shared : SharedOutcomes) d t' :
    fs_clock s ≤ now → age ≤ wrap64 (lock_age / 10 ^ 6) →
    fls_generation (fs_table s) < u64_max →
    fill_lock_decision key now lock_age fingerprint shared (fs_table s) = (d, t') →
    fill_step age s (mkFillSystem now t' (granted d now ++ fs_guards s))
| fill_attach s key generation id state waiter t' :
    attach_fill_read_state key generation id state (fs_table s) = Some (waiter, t') →
    fill_step age s (mkFillSystem (fs_clock s) t' (fs_guards s))
| fill_update s id f :
    fill_step age s (mkFillSystem (fs_clock s) (update_read_state id f (fs_table s)) (fs_guards s))
| fill_drop s before g a after :
    fs_guards s = before ++ (g, a) :: after →
    fill_step age s (mkFillSystem (fs_clock s) (drop_guard g (fs_table s)).1.1 (before ++ after)).

Definition initial_fills (clock : Z) : FillSystem := mkFillSystem clock (mkFillLocks ∅ 0 ∅) [].

(** A lock is the one of a live guard. *)
Definition lock_of (g : CacheFillGuard) (a : Z) (l : CacheFillLockState) : Prop :=
  fl_generation l = g_generation g ∧ fl_acquired_at_unix_ms l = a ∧ fl_notify l = g_notify g.

Definition gens (s : FillSystem) : list Z := map (λ p, g_generation p.1) (fs_guards s).

Record fills_ok (age : Z) (s : FillSystem) : Prop := {
  fo_gen : 0 ≤ fls_generation (fs_table s) ≤ u64_max;
  fo_bound g a : (g, a) ∈ fs_guards s → g_generation g ≤ fls_generation (fs_table s) ∧ a ≤ fs_clock s;
  fo_nodup : NoDup (gens s);
  fo_owner key l : fls_locks (fs_table s) !! key = Some l →
    ∃ g a, (g, a) ∈ fs_guards s ∧ g_key g = key ∧ lock_of g a l;
  fo_held g a : (g, a) ∈ fs_guards s →
    (∃ l, fls_locks (fs_table s) !! g_key g = Some l ∧ lock_of g a l) ∨ a + age < fs_clock s;
  fo_apart g1 a1 g2 a2 : (g1, a1) ∈ fs_guards s → (g2, a2) ∈ fs_guards s →
    g_key g1 = g_key g2 → g_generation g1 < g_generation g2 → a1 + age < a2;
}.

Lemma gens_inj s g1 a1 g2 a2 :
  NoDup (gens s) → (g1, a1) ∈ fs_guards s → (g2, a2) ∈ fs_guards s →
  g_generation g1 = g_generation g2 → (g1, a1) = (g2, a2).
Proof.
  unfold gens. intros Hnd H1 H2 Heq.
  apply list_elem_of_lookup in H1 as [i Hi]. apply list_elem_of_lookup in H2 as [j Hj].
  assert (i = j) as ->; [|congruence].
  eapply (NoDup_lookup _ i j (g_generation g1) Hnd); rewrite list_lookup_fmap, ?Hi, ?Hj; cbn; congruence.
Qed.

(** A request either leaves the table alone or takes a lock that is free or
    too old. *)
Definition lock_taken (key : string) (now lock_age : Z) (t : FillLocks) (d : FillLockDecision)
    (t' : FillLocks) : Prop :=
  (t' = t ∧ granted d now = []) ∨
  (∃ g l, granted d now = [(g, now)] ∧ g_key g = key ∧ lock_of g now l ∧
     g_generation g = wrap64 (wrap64 (fls_generation t) + 1) ∧
     t' = mkFillLocks (<[key := l]> (fls_locks t)) (g_generation g) (fls_read_states t) ∧
     ∀ l0, fls_locks t !! key = Some l0 →
       wrap64 (lock_age / 10 ^ 6) < sat_sub now (fl_acquired_at_unix_ms l0)).

Lemma contend_cases key now lock_age fingerprint (shared : SharedOutcomes) t d t' :
  (∀ l0, fls_locks t !! key = Some l0 →
     wrap64 (lock_age / 10 ^ 6) < sat_sub now (fl_acquired_at_unix_ms l0)) →
  contend_fill_lock key now fingerprint shared t = (d, t') → lock_taken key now lock_age t d t'.
Proof.
  intros Hold. unfold contend_fill_lock. destruct (external_fill key shared) as [decision|e] eqn:He.
  - intros [= <- <-]. left. split; [done|]. revert He. unfold external_fill.
    repeat case_match; by intros [= <-].
  - intros [= <- <-]. right.
    exists (mkGuard key (wrap64 (wrap64 (fls_generation t) + 1))
              (wrap64 (wrap64 (fls_generation t) + 1)) e.1 e.2),
      (mkFillLock (wrap64 (wrap64 (fls_generation t) + 1)) now
         (wrap64 (wrap64 (fls_generation t) + 1)) (default EmptyString fingerprint) None).
    by split_and!.
Qed.

Lemma fill_lock_decision_cases key now lock_age fingerprint (shared : SharedOutcomes) t d t' :
  fill_lock_decision key now lock_age fingerprint shared t = (d, t') →
  lock_taken key now lock_age t d t'.
Proof.
  unfold fill_lock_decision.
  destruct (fls_locks t !! key) as [lock|] eqn:Hl; [|by apply contend_cases; rewrite Hl].
  destruct (Z.leb_spec (sat_sub now (fl_acquired_at_unix_ms lock)) (wrap64 (lock_age / 10 ^ 6))).
  - destruct (match fingerprint with Some _ => _ | None => _ end);
      [destruct (sharable_state t lock)|]; intros [= <- <-]; by left.
  - apply contend_cases. intros l0. rewrite Hl. intros [= <-]. lia.
Qed.

Lemma fill_request_ok age s key now lock_age fingerprint (shared : SharedOutcomes) d t' :
  0 ≤ age → fills_ok age s →
  fs_clock s ≤ now → age ≤ wrap64 (lock_age / 10 ^ 6) →
  fls_generation (fs_table s) < u64_max →
  fill_lock_decision key now lock_age fingerprint shared (fs_table s) = (d, t') →
  fills_ok age (mkFillSystem now t' (granted d now ++ fs_guards s)).
Proof.
  intros Hage [Hgen Hb Hnd Hown Hheld Hap] Hnow Hla Hlt Hd.
  destruct (fill_lock_decision_cases _ _ _ _ _ _ _ _ Hd)
    as [[-> Hg]|(g & l & Hg & Hk & Hl & Hn & -> & Hold)]; rewrite Hg.
  { split; cbn; [done| |done|done| |done].
    - intros g a Hin%Hb. lia.
    - intros g a Hin. destruct (Hheld g a Hin); [by left|right; lia]. }
  assert (g_generation g = fls_generation (fs_table s) + 1) as Hnew.
  { unfold u64_max in *. rewrite Hn, (wrap64_small (fls_generation (fs_table s))), wrap64_small;
      unfold is_u64; lia. }
  assert (Hdisp : ∀ g1 a1, (g1, a1) ∈ fs_guards s → g_key g1 = key → a1 + age < now).
  { intros g1 a1 Hin Hkey. destruct (Hheld _ _ Hin) as [(l1 & Hl1 & _ & Ha & _)|]; [|lia].
    rewrite Hkey in Hl1. specialize (Hold _ Hl1). rewrite Ha in Hold. unfold sat_sub in Hold. lia. }
  split; cbn.
  - lia.
  - intros g1 a1 [[= -> ->]|Hin]%elem_of_cons; [lia|]. apply Hb in Hin. lia.
  - constructor; [|done]. intros ((g1, a1) & Heq & Hin)%list_elem_of_fmap. apply Hb in Hin.
    cbn in Heq. lia.
  - intros key1 l1 [[<- <-]|[_ Hl1]]%lookup_insert_Some.
    + exists g, now. split_and!; [by left|done|done].
    + destruct (Hown _ _ Hl1) as (g1 & a1 & Hin & ?). exists g1, a1. split; [by right|done].
  - intros g1 a1 [[= -> ->]|Hin]%elem_of_cons.
    + left. exists l. rewrite Hk. by rewrite lookup_insert_eq.
    + destruct (decide (g_key g1 = key)) as [Hkey|Hne]; [right; by eapply Hdisp|].
      destruct (Hheld _ _ Hin) as [(l1 & Hl1 & Hlo)|]; [left|right; lia].
      exists l1. by rewrite lookup_insert_ne.
  - intros g1 a1 g2 a2 [[= -> ->]|H1]%elem_of_cons [[= -> ->]|H2]%elem_of_cons Hkey Hlt2;
      [lia|apply Hb in H2; lia| |by eapply Hap].
    eapply Hdisp; [done|congruence].
Qed.

Lemma fill_drop_ok age s before g a after :
  fills_ok age s → fs_guards s = before ++ (g, a) :: after →
  fills_ok age (mkFillSystem (fs_clock s) (drop_guard g (fs_table s)).1.1 (before ++ after)).
Proof.
  intros [Hgen Hb Hnd Hown Hheld Hap] Hs.
  assert (Hsub : ∀ p, p ∈ before ++ after → p ∈ fs_guards s) by (rewrite Hs; set_solver).
  assert (Hother : ∀ g1 a1, (g1, a1) ∈ before ++ after → g_generation g1 ≠ g_generation g).
  { intros g1 a1 Hin Heq. unfold gens in Hnd. rewrite Hs, map_app in Hnd. cbn in Hnd.
    rewrite <-Permutation_middle in Hnd. apply NoDup_cons in Hnd as [Hni _]. apply Hni.
    rewrite <-map_app, <-Heq. apply list_elem_of_fmap. by exists (g1, a1). }
  assert (Hlocks : ∀ key l, fls_locks (drop_guard g (fs_table s)).1.1 !! key = Some l ↔
            fls_locks (fs_table s) !! key = Some l ∧ fl_generation l ≠ g_generation g).
  { intros key l. cbn.
    assert (Hne : ∀ key l, fls_locks (fs_table s) !! key = Some l →
      fl_generation l = g_generation g → key = g_key g).
    { intros k1 l1 Hl1 Hge. destruct (Hown _ _ Hl1) as (g1 & a1 & Hin & Hk & Hge1 & _).
      rewrite Hge in Hge1. assert ((g1, a1) = (g, a)) as [= -> ->]; [|done].
      eapply gens_inj; [done..| |done]. rewrite Hs. set_solver. }
    destruct (fls_locks (fs_table s) !! g_key g) as [l0|] eqn:Hl0.
    - destruct (Z.eqb_spec (fl_generation l0) (g_generation g)).
      + rewrite lookup_delete_Some. split; [|naive_solver].
        intros [Hk Hl]. split; [done|]. intros Hg. apply Hk. symmetry. by eapply Hne.
      + split; [|naive_solver]. intros Hl. split; [done|]. intros Hg.
        pose proof (Hne _ _ Hl Hg) as ->. naive_solver.
    - split; [|naive_solver]. intros Hl. split; [done|]. intros Hg.
      pose proof (Hne _ _ Hl Hg) as ->. naive_solver. }
  split; cbn [fs_table fs_clock fs_guards].
  - done.
  - intros g1 a1 Hin. by apply Hb, Hsub.
  - unfold gens in *. cbn [fs_guards]. rewrite Hs, !map_app in Hnd. cbn in Hnd.
    rewrite <-Permutation_middle in Hnd. apply NoDup_cons in Hnd as [_ Hnd].
    by rewrite map_app.
  - intros key l [Hl Hne]%Hlocks. destruct (Hown _ _ Hl) as (g1 & a1 & Hin & Hk & Hlo).
    exists g1, a1. split_and!; [|done|done]. rewrite Hs in Hin. destruct Hlo as [Hge _].
    apply elem_of_app in Hin as [?|[[= -> ->]|?]%elem_of_cons]; [set_solver|congruence|set_solver].
  - intros g1 a1 Hin. destruct (Hheld _ _ (Hsub _ Hin)) as [(l & Hl & Hlo)|]; [left|by right].
    exists l. split; [|done]. apply Hlocks. split; [done|]. destruct Hlo as [-> _]. by eapply Hother.
  - intros g1 a1 g2 a2 H1 H2. by apply Hap; apply Hsub.
Qed.

Lemma fill_attach_ok age s key generation id state waiter t' :
  fills_ok age s →
  attach_fill_read_state key generation id state (fs_table s) = Some (waiter, t') →
  fills_ok age (mkFillSystem (fs_clock s) t' (fs_guards s)).
Proof.
  intros [Hgen Hb Hnd Hown Hheld Hap]. unfold attach_fill_read_state.
  destruct (fls_locks (fs_table s) !! key) as [lock|] eqn:Hl; [|done].
  case_match; [|done]. intros [= <- <-].
  split; cbn [fs_table fs_clock fs_guards fls_locks fls_generation]; [done..| | |done].
  - intros k l [[<- <-]|[_ Hl1]]%lookup_insert_Some; [exact (Hown _ _ Hl)|by apply Hown].
  - intros g a Hin. destruct (Hheld _ _ Hin) as [(l & Hl1 & Hlo)|]; [left|by right].
    destruct (decide (g_key g = key)) as [Hk|]; [|exists l; by rewrite lookup_insert_ne].
    rewrite Hk in Hl1 |- *. rewrite lookup_insert_eq. eexists. split; [done|].
    replace lock with l by congruence. exact Hlo.
Qed.

Lemma fill_step_ok age s s' : 0 ≤ age → fills_ok age s → fill_step age s s' → fills_ok age s'.
Proof.
  intros Hage Hok Hstep. destruct Hstep.
  - by eapply fill_request_ok.
  - by eapply fill_attach_ok.
  - destruct Hok. by split.
  - by eapply fill_drop_ok.
Qed.

Lemma fills_reachable_ok age clock s :
  0 ≤ age → rtc (fill_step age) (initial_fills clock) s → fills_ok age s.
Proof.
  intros Hage Hr. remember (initial_fills clock) as s0 eqn:Hs.
  assert (fills_ok age s0) as Hok.
  { subst. split; cbn; [unfold u64_max; lia|set_solver|constructor|intros ?? Hl; by rewrite lookup_empty in Hl|set_solver|set_solver]. }
  clear Hs. induction Hr as [|s1 s2 s3 H12 _ IH]; [done|]. apply IH. by eapply fill_step_ok.
Qed.
End Fill.

(** C9.  Fills of one key exclude each other: at any time, of two live guards
    of a key the later was given more than the lock age after the earlier, so
    a second fill starts only when the first is overdue.  No lock outlives its
    guards, a waiter is woken by the drop of a live guard, and dropping an
    overdue guard never releases the lock of the fill that replaced it. *)
Theorem fills_exclude_each_other `{HTTP : HttpApi} {ExternalHandle ExternalRead : Type}
    (age clock : Z) (s : FillSystem (ExternalHandle := ExternalHandle)) :
  0 ≤ age → rtc (fill_step (ExternalRead := ExternalRead) age) (initial_fills clock) s →
  (∀ g1 a1 g2 a2, (g1, a1) ∈ fs_guards s → (g2, a2) ∈ fs_guards s →
     g_key g1 = g_key g2 → (g1, a1) ≠ (g2, a2) → age < Z.abs (a1 - a2)) ∧
  (∀ key l, fls_locks (fs_table s) !! key = Some l →
     ∃ g a, (g, a) ∈ fs_guards s ∧ g_key g = key ∧ g_generation g = fl_generation l ∧
            g_notify g = fl_notify l) ∧
  (∀ g a key l, (g, a) ∈ fs_guards s → fls_locks (fs_table s) !! key = Some l →
     fl_generation l ≠ g_generation g →
     fls_locks (drop_guard g (fs_table s)).1.1 !! key = Some l) ∧
  (∀ g a, (g, a) ∈ fs_guards s → fs_clock s ≤ a + age →
     is_Some (fls_locks (fs_table s) !! g_key g)).
Proof.
  intros Hage Hr. destruct (fills_reachable_ok _ _ _ Hage Hr) as [Hgen Hb Hnd Hown Hheld Hap].
  split_and!.
  - intros g1 a1 g2 a2 H1 H2 Hk Hne.
    destruct (Z.lt_trichotomy (g_generation g1) (g_generation g2)) as [Hlt|[Heq|Hlt]].
    + specialize (Hap _ _ _ _ H1 H2 Hk Hlt). lia.
    + by destruct Hne; eapply gens_inj.
    + specialize (Hap _ _ _ _ H2 H1 (eq_sym Hk) Hlt). lia.
  - intros key l Hl. destruct (Hown _ _ Hl) as (g & a & Hin & Hk & Hg & _ & Hn).
    exists g, a. by split_and!.
  - intros g a key l Hin Hl Hne. cbn. destruct (fls_locks (fs_table s) !! g_key g) as [l0|] eqn:H0; [|done].
    case_match; [|done]. boolify. rewrite lookup_delete_ne; [done|]. intros Heq. congruence.
  - intros g a Hin Hc. destruct (Hheld _ _ Hin) as [(l & -> & _)|]; [done|lia].
Qed.

(** ** The loop *)

Section Loop.
Context {HTTP : HttpApi} {SHA : Sha256Api} {DATE : HttpDateApi}.
Context {ExternalHandle ExternalRead : Type}.
Notation SharedOutcomes := (SharedOutcomes (ExternalHandle := ExternalHandle) (ExternalRead := ExternalRead)).
Notation CacheLookup := (CacheLookup (ExternalHandle := ExternalHandle) (ExternalRead := ExternalRead)).
Notation entries z := (idx_entries (zr_index z)).

Lemma stable_eq_refl e : stable_eq e e = true.
Proof.
  unfold stable_eq. rewrite !Z.eqb_refl, !str_eqb_refl, !Bool.eqb_reflx, !bool_decide_true by done.
  done.
Qed.

Lemma remove_matching_entry k e z :
  entries z !! k = Some e → entries (remove_cache_entry_if_matches k e z).2 = delete k (entries z).
Proof.
  intros He. unfold remove_cache_entry_if_matches, remove_zone_index_entry_if_matches.
  rewrite He. cbn. rewrite stable_eq_refl. cbn.
  unfold remove_accounted, remove_entry. rewrite He. cbn.
  destruct (unschedule_frame k (decrement_hash_ref (ent_hash e)
    (with_entries (delete k) (zr_index z)))) as (-> & _).
  unfold decrement_hash_ref. cbn. by repeat case_match.
Qed.

Lemma load_head_index k e md z :
  zr_index (load_cached_response_head k e md z).2 = zr_index z.
Proof.
  unfold load_cached_response_head, store_prepared_response_head, hot_entry_for_key.
  by repeat (case_match; simplify_eq/=).
Qed.
(** The entry a decision names, and the guard it carries. *)
Definition named (d : LookupDecision (ExternalHandle := ExternalHandle) (ExternalRead := ExternalRead))
    : option (string * CacheIndexEntry) :=
  match d with
  | DropEntry k e => Some (k, e)
  | MissDecision k _ (Some e) _ _ => Some (k, e)
  | d => served d
  end.

Definition carried (d : LookupDecision (ExternalHandle := ExternalHandle) (ExternalRead := ExternalRead))
    : option (CacheFillGuard (ExternalHandle := ExternalHandle)) :=
  match d with
  | BackgroundUpdate _ _ g => Some g
  | MissDecision _ _ _ g _ => g
  | _ => None
  end.

(** The guard an answer carries. *)
Definition answer_guard (a : CacheLookup) : option (CacheFillGuard (ExternalHandle := ExternalHandle)) :=
  match a with
  | LookupMiss _ g => g
  | LookupUpdating _ _ g => Some g
  | _ => None
  end.

(** The locks after a step are those before it, and the one of the guard. *)
Definition locks_grow (t t' : FillLocks) (guard : option (CacheFillGuard (ExternalHandle := ExternalHandle)))
    : Prop :=
  ∀ k l, fls_locks t' !! k = Some l →
    fls_locks t !! k = Some l ∨
    ∃ g, guard = Some g ∧ g_key g = k ∧ g_generation g = fl_generation l.

Lemma fill_decision_locks key now lock_age fingerprint (shared : SharedOutcomes) t d t' :
  fill_lock_decision key now lock_age fingerprint shared t = (d, t') →
  locks_grow t t' (match d with Acquired g => Some g | _ => None end).
Proof.
  intros [[-> _]|(g & l & Hg & Hk & (Hl & _) & _ & -> & _)]%fill_lock_decision_cases k0 l0; [by left|].
  destruct d; simplify_eq/=. intros [[<- <-]|[_ H]]%lookup_insert_Some; [right|by left].
  by exists g.
Qed.

Lemma decision_facts z t request base now forces policy (shared : string → SharedOutcomes) d z' t' :
  lookup_decision z t request base now forces policy shared = (d, z', t') →
  (∀ k e, named d = Some (k, e) → entries z !! k = Some e) ∧ locks_grow t t' (carried d).
Proof.
  unfold lookup_decision. intros Hd.
  assert (locks_grow t t None) as Hrefl by (intros ???; by left).
  destruct (matching_variant_key (zr_index z) base request) as [k0|] eqn:Hm; cbn in Hd.
  2:{ destruct (fill_lock_decision _ _ _ _ _ _) as [d0 t0] eqn:Hf.
      apply fill_decision_locks in Hf. destruct d0; by simplify_eq/=. }
  destruct (entries z !! k0) as [e0|] eqn:He0; cbn in Hd.
  2:{ destruct (fill_lock_decision _ _ _ _ _ _) as [d0 t0] eqn:Hf.
      apply fill_decision_locks in Hf. destruct d0; by simplify_eq/=. }
  destruct (entry_is_logically_invalid (zr_index z) k0 e0); [naive_solver|].
  destruct (is_hit_for_pass e0).
  { destruct (bool_decide (lifecycle_phase e0 now = Dead)); naive_solver. }
  destruct (bool_decide (lifecycle_phase e0 now = Dead)); [naive_solver|].
  destruct (bool_decide (lifecycle_phase e0 now = Fresh) && _ && _); [naive_solver|].
  destruct (fill_lock_decision _ _ _ _ _ _) as [d0 t0] eqn:Hf.
  apply fill_decision_locks in Hf.
  destruct d0; (destruct (_ && stale_allowed_for_entry policy e0 now forces));
    try destruct (pol_background_update policy); naive_solver.
Qed.

Lemma dropped_locks g t t' : locks_grow t t' (Some g) → locks_grow t (drop_guard g t').1.1 None.
Proof.
  intros Hg k l. cbn. destruct (fls_locks t' !! g_key g) as [l0|] eqn:H0.
  - case_match; boolify.
    + intros [Hk Hl]%lookup_delete_Some. destruct (Hg _ _ Hl) as [|(g' & [= <-] & ? & _)]; [by left|done].
    + intros Hl. destruct (Hg _ _ Hl) as [|(g' & [= <-] & <- & ?)]; [by left|]. congruence.
  - intros Hl. destruct (Hg _ _ Hl) as [|(g' & [= <-] & <- & _)]; [by left|]. congruence.
Qed.

Lemma delete_smaller k e (m : gmap string CacheIndexEntry) :
  m !! k = Some e → (size (delete k m) < size m)%nat.
Proof. intros Hk. pose proof (map_size_ne_0_lookup_2 m k (mk_is_Some _ _ Hk)). rewrite map_size_delete, Hk. lia. Qed.

Lemma load_none_smaller k e md z z0 :
  entries z !! k = Some e → zr_index z0 = zr_index z →
  (size (entries (remove_cache_entry_if_matches k e
     (load_cached_response_head k e md z0).2).2) < size (entries z))%nat.
Proof.
  intros He H0. rewrite remove_matching_entry; rewrite load_head_index, H0; [|done].
  by eapply delete_smaller.
Qed.

Lemma stale_none_smaller k e st io z z1 z0 :
  entries z !! k = Some e → zr_index z0 = zr_index z →
  stale_response_from_entry (ExternalRead := ExternalRead) k e st io z0 = (None, z1) →
  (size (entries z1) < size (entries z))%nat.
Proof.
  intros He H0. unfold stale_response_from_entry.
  pose proof (load_none_smaller k e (io_metadata io) z z0 He H0) as Hs.
  destruct (load_cached_response_head k e (io_metadata io) z0) as [[head|] z2]; cbn in Hs.
  - case_match; [|done]. by intros [= <-].
  - by intros [= <-].
Qed.

(** A turn that goes round again without waiting has removed an entry; no turn
    keeps a lock its answer does not carry. *)
Lemma lookup_turn_facts request base policy io (shared : string → SharedOutcomes) z t a z' t' :
  lookup_turn request base policy io shared z t = (a, z', t') →
  locks_grow t t' (a ≫= answer_guard) ∧
  (a = None → io_released io = false → io_inflight_ok io = true →
   (size (entries z') < size (entries z))%nat).
Proof.
  unfold lookup_turn. intros Hturn.
  destruct (lookup_decision z t request base _ _ policy shared) as [[d z0] t0] eqn:Hd.
  pose proof (lookup_decision_entry _ _ _ _ _ _ _ _ _ _ _ Hd) as Hz.
  destruct (decision_facts _ _ _ _ _ _ _ _ _ _ _ Hd) as [Hn Hg].
  assert (Hload : ∀ k e, named d = Some (k, e) →
    (size (entries (remove_cache_entry_if_matches k e
       (load_cached_response_head k e (io_metadata io) z0).2).2) < size (entries z))%nat).
  { intros k e Hk. apply load_none_smaller; [by apply Hn|done]. }
  destruct d as [st|k e|k e|k e st|k e g|k b ce g st|st|st|w]; cbn [carried named served] in *.
  - by simplify_eq/=.
  - simplify_eq/=. split; [done|intros _ _ _]. pose proof (Hn _ _ eq_refl) as He.
    rewrite remove_matching_entry; rewrite Hz; [|done]. by eapply delete_smaller.
  - specialize (Hload _ _ eq_refl).
    destruct (load_cached_response_head k e (io_metadata io) z0) as [[head|] z1]; cbn in Hload;
      [destruct (io_body_ok io)|]; by simplify_eq/=.
  - pose proof (λ z1, stale_none_smaller k e st io z z1 z0 (Hn _ _ eq_refl) Hz) as Hs.
    destruct (stale_response_from_entry k e st io z0) as [[r|] z1]; simplify_eq/=; [done|].
    split; [done|]. intros _ _ _. by apply Hs.
  - specialize (Hload _ _ eq_refl). unfold load_lookup_response_head in Hturn.
    pose proof (load_head_index k e (io_metadata io) z0) as Hi.
    destruct (load_cached_response_head k e (io_metadata io) z0) as [[head|] z1]; cbn in Hload, Hi.
    2:{ simplify_eq/=. split; [by apply dropped_locks|done]. }
    pose proof (λ z2, stale_none_smaller k e StUpdating io z z2 (record_counter expired_total 1 z1)
      (Hn _ _ eq_refl) (eq_trans Hi Hz)) as Hs.
    destruct (stale_response_from_entry k e StUpdating io _) as [[r|] z2]; simplify_eq/=; [done|].
    split; [by apply dropped_locks|]. intros _ _ _. by apply Hs.
  - destruct ce as [e|]; [|simplify_eq/=; done].
    specialize (Hload _ _ eq_refl). unfold load_lookup_response_head in Hturn.
    destruct (load_cached_response_head k e (io_metadata io) z0) as [[head|] z1]; simplify_eq/=; [done|].
    split; [destruct g; [by apply dropped_locks|done]|done].
  - destruct (io_inflight_ok io); simplify_eq/=; [done|]. split; [done|]. congruence.
  - destruct (io_inflight_ok io); simplify_eq/=; [done|]. split; [done|]. congruence.
  - destruct (io_released io); simplify_eq/=; [|done]. split; [done|]. congruence.
Qed.

Lemma locks_grow_trans t t1 t' guard : locks_grow t t1 None → locks_grow t1 t' guard → locks_grow t t' guard.
Proof.
  intros H1 H2 k l [Hl|]%H2; [|by right]. destruct (H1 _ _ Hl) as [|(g & [=] & _)]. by left.
Qed.

End Loop.

(** C10.  A lookup answers: when no wait is cut short by a release and no
    in-flight response fails, it needs at most one turn more than there are
    entries in the index, since a turn that goes round again has removed one.
    And it leaks no lock: a fill lock it leaves behind was held before or
    belongs to the guard in its answer. *)
Theorem lookup_answers `{HTTP : HttpApi} `{SHA : Sha256Api} `{DATE : HttpDateApi}
    {ExternalHandle ExternalRead : Type} (request : CacheRequest) (base : string)
    (policy : RouteCachePolicy)
    (turns : list (LookupIo * (string →
       SharedOutcomes (ExternalHandle := ExternalHandle) (ExternalRead := ExternalRead))))
    (z z' : CacheZoneRuntime) (t t' : FillLocks) (a : option CacheLookup) :
  lookup_loop request base policy turns z t = (a, z', t') →
  (Forall (λ p, io_released p.1 = false ∧ io_inflight_ok p.1 = true) turns →
   (size (idx_entries (zr_index z)) < length turns)%nat → is_Some a) ∧
  locks_grow t t' (a ≫= answer_guard).
Proof.
  revert z t. induction turns as [|[io shared] turns IH]; intros z t; cbn [lookup_loop].
  - intros [= <- <- <-]. split; [cbn; lia|]. intros k l Hl. by left.
  - destruct (lookup_turn request base policy io shared z t) as [[[a0|] z0] t0] eqn:Hturn;
      destruct (lookup_turn_facts _ _ _ _ _ _ _ _ _ _ Hturn) as [Hg Hsmall].
    + intros [= <- <- <-]. by split.
    + intros Hl. destruct (IH _ _ Hl) as [Ha Hg']. split; [|by eapply locks_grow_trans].
      intros [[Hr Hi] Hall]%Forall_cons Hlen. apply Ha; [done|].
      specialize (Hsmall eq_refl Hr Hi). cbn in Hlen. lia.
Qed.

(** ** Concrete lookups *)

#[local] Existing Instance RefHttp.api.
#[local] Existing Instance RefSha256.api.
#[local] Existing Instance RefHttpDate.api.

Definition no_sharing : SharedOutcomes (ExternalHandle := unit) (ExternalRead := unit) :=
  mkShared false false (Ok None) None None (Err EmptyString) None.
Definition no_locks : FillLocks := mkFillLocks ∅ 0 ∅.
Definition get_x : CacheRequest := mkCacheRequest GET (mkUri None None (Some "/x"%string)) hm_new.

Definition decided : LookupDecision * CacheZoneRuntime * FillLocks :=
  lookup_decision stored_zone no_locks get_x "/x" 7 false sample_policy (λ _, no_sharing).

Lemma decided_fresh : decided.1.1 = FreshHit "/x" sample_entry.
Proof. by vm_compute. Qed.

Theorem lookup_serves_live_entries_witness :
  idx_entries (zr_index stored_zone) !! "/x"%string = Some sample_entry ∧ fresh_for sample_entry 7 false.
Proof.
  destruct (lookup_serves_live_entries sample_zone_config stored_zone decided.1.2 no_locks decided.2
    get_x "/x" 7 false sample_policy (λ _, no_sharing) decided.1.1 stored_zone_reachable)
    as (_ & Hserved & _).
  { unfold decided. by destruct (lookup_decision _ _ _ _ _ _ _ _) as [[??] ?]. }
  rewrite decided_fresh in Hserved. destruct (Hserved _ _ eq_refl) as (? & _ & _ & _ & _ & ?).
  by split.
Defined.

(** Two requests of one key: the first is granted the lock, the second waits. *)
Definition first_fill : FillLockDecision * FillLocks :=
  fill_lock_decision "/x" 100 (5 * 10 ^ 9) None no_sharing no_locks.
Definition one_fill : FillSystem (ExternalHandle := unit) :=
  mkFillSystem 100 first_fill.2 (granted first_fill.1 100 ++ []).

Example second_fill_waits :
  (fill_lock_decision "/x" 5100 (5 * 10 ^ 9) None no_sharing first_fill.2).1 = WaitLocal 1.
Proof. by vm_compute. Qed.

Lemma one_fill_reachable : rtc (fill_step (ExternalRead := unit) 5000) (initial_fills 100) one_fill.
Proof.
  apply rtc_once. refine (fill_request 5000 (initial_fills 100) "/x" 100 (5 * 10 ^ 9) None no_sharing
    first_fill.1 first_fill.2 _ _ _ _); [cbn; lia|vm_compute; congruence|vm_compute; congruence|].
  unfold first_fill. cbn [fs_table initial_fills]. unfold no_locks.
  by destruct (fill_lock_decision _ _ _ _ _ _).
Qed.

Theorem fills_exclude_each_other_witness :
  is_Some (fls_locks (fs_table one_fill) !! "/x"%string).
Proof.
  destruct (fills_exclude_each_other 5000 100 one_fill ltac:(lia) one_fill_reachable)
    as (_ & _ & _ & Hheld).
  apply (Hheld (mkGuard "/x" 1 1 None None) 100); [|cbn; lia].
  unfold one_fill. cbn [fs_guards]. left.
Defined.

(** The stored body cannot be read: the entry is removed and the next turn
    misses. *)
Definition bad_turn : LookupIo := mkIo 7 7 None false false true id.
Definition two_turns : option (CacheLookup (ExternalHandle := unit) (ExternalRead := unit)) *
    CacheZoneRuntime * FillLocks :=
  lookup_loop get_x "/x" sample_policy [(bad_turn, λ _, no_sharing); (bad_turn, λ _, no_sharing)]
    stored_zone no_locks.

Lemma stored_zone_size : size (idx_entries (zr_index stored_zone)) = 1%nat.
Proof. by vm_compute. Qed.

Theorem lookup_answers_witness : is_Some two_turns.1.1.
Proof.
  apply (lookup_answers get_x "/x" sample_policy
    [(bad_turn, λ _, no_sharing); (bad_turn, λ _, no_sharing)] stored_zone two_turns.1.2
    no_locks two_turns.2 two_turns.1.1).
  - unfold two_turns. by destruct (lookup_loop _ _ _ _ _ _) as [[??] ?].
  - by repeat constructor.
  - rewrite stored_zone_size. cbn. lia.
Defined.
