(* ===== verification/HttpResponse.v ===== *)
(** * Responses the proxy makes itself

    Models [crates/rginx-http/src/handler/response.rs], [handler/grpc/metadata.rs]
    (which gRPC protocol a request speaks, which service and method it calls),
    [handler/grpc/error.rs] (errors as gRPC responses), and the errors of
    [proxy/forward/error.rs].  A body is the polls it will give (Body.v). *)

From S2P Require Import Prelude RustStr External Body RequestHeaders GrpcWeb.

(** ** gRPC requests *)

(** Source: crates/rginx-http/src/handler/grpc/error.rs:12-20 (GrpcStatusCode) *)
Inductive GrpcStatusCode : Type :=
| GrpcCancelled | GrpcInvalidArgument | GrpcDeadlineExceeded | GrpcPermissionDenied | GrpcResourceExhausted
| GrpcUnimplemented | GrpcUnavailable.

(** Source: crates/rginx-http/src/handler/grpc/error.rs:23-33 (GrpcStatusCode::as_str) *)
Definition grpc_status_as_str (status : GrpcStatusCode) : string :=
  match status with
  | GrpcCancelled => "1"
  | GrpcInvalidArgument => "3"
  | GrpcDeadlineExceeded => "4"
  | GrpcPermissionDenied => "7"
  | GrpcResourceExhausted => "8"
  | GrpcUnimplemented => "12"
  | GrpcUnavailable => "14"
  end.

(** Source: crates/rginx-http/src/handler/grpc/metadata.rs:5-9 (GrpcRequestMetadata) *)
Record GrpcRequestMetadata : Type := mkGrpcMetadata {
  gm_protocol : string;
  gm_service : string;
  gm_method : string;
}.

(** Source: crates/rginx-http/src/handler/grpc/metadata.rs:36-43 (grpc_service_method) *)
Definition grpc_service_method (path : string) : option (string * string) :=
  path ← strip_prefix "/" path;
  '(service, method) ← split_once "/"%char path;
  if str_is_empty service || str_is_empty method || contains_str "/" method then None else Some (service, method).

Section Responses.
Context {HTTP : HttpApi} {B64 : Base64Api}.
Notation FramePoll := (FramePoll BoxError).

(** Source: crates/rginx-http/src/handler/dispatch/response.rs:81-86 (header_value) *)
Definition header_value (headers : HeaderMap) (name : string) : option string := trim <$> hm_get_str headers name.

(** Source: crates/rginx-http/src/handler/grpc/metadata.rs:21-34 (grpc_protocol) *)
Definition grpc_protocol (headers : HeaderMap) : option string :=
  content_type ← header_value headers "content-type";
  let '(mime, _) := split_content_type content_type in
  let mime := to_ascii_lowercase mime in
  if starts_with "application/grpc-web-text" mime then Some "grpc-web-text"%string
  else if starts_with "application/grpc-web" mime then Some "grpc-web"%string
  else if starts_with "application/grpc" mime then Some "grpc"%string
  else None.

(** Source: crates/rginx-http/src/handler/grpc/metadata.rs:11-19 (grpc_request_metadata) *)
Definition grpc_request_metadata (headers : HeaderMap) (request_path : string) : option GrpcRequestMetadata :=
  protocol ← grpc_protocol headers;
  '(service, method) ← grpc_service_method request_path;
  Some (mkGrpcMetadata protocol service method).

(** ** Responses *)

(** Source: crates/rginx-http/src/handler/access_log.rs:9-14 (UpstreamAccessLog) *)
Record UpstreamAccessLog : Type := mkUpstreamLog {
  ul_upstream_name : string;
  ul_upstream_addr : string;
  ul_upstream_status : Z;
  ul_upstream_response_time_ms : Z;
}.

(** [Response<HttpBody>]; of the extensions only the upstream's access log is
    read. *)
(** Source: crates/rginx-http/src/handler/response.rs:12-12 (HttpResponse) *)
Record HttpResponse : Type := mkResponse {
  rsp_status : Z;
  rsp_headers : HeaderMap;
  rsp_body : list FramePoll;
  rsp_upstream : option UpstreamAccessLog;
}.

(** [Full]: one frame if it has any bytes. *)
(** Source: crates/rginx-http/src/handler/response.rs:44-48 (full_body) *)
Definition full_body (body : bytes) : list FramePoll :=
  match body with [] => [] | _ => [ReadyFrame (DataFrame body)] end.

(** [Response::builder().header(name, text)]: the builder parses the text; a
    text that is no header value makes [body] fail, which the source expects
    not to happen. *)
Definition builder_header (name text : string) (headers : HeaderMap) : HeaderMap :=
  match hv_from_str text with Some value => hm_append name value headers | None => headers end.

(** Source: crates/rginx-http/src/handler/response.rs:30-42 (text_response) *)
Definition text_response (status : Z) (content_type body : string) : HttpResponse :=
  mkResponse status
    (builder_header "content-length" (dec (Z.of_nat (String.length body)))
       (builder_header "content-type" content_type hm_new))
    (full_body (bytes_of_string body)) None.

Definition text_plain : string := "text/plain; charset=utf-8".

Definition newline : string := String (ascii_of_N 10) EmptyString.

(** Source: crates/rginx-http/src/handler/response.rs:14-16 (forbidden_response) *)
Definition forbidden_response : HttpResponse := text_response 403 text_plain ("forbidden" +:+ newline).

(** Source: crates/rginx-http/src/handler/response.rs:18-24 (too_many_requests_response) *)
Definition too_many_requests_response : HttpResponse :=
  text_response 429 text_plain ("hold your horses! too many requests" +:+ newline).

(** Source: crates/rginx-http/src/handler/response.rs:26-28 (too_early_response) *)
Definition too_early_response : HttpResponse := text_response 425 text_plain ("too early" +:+ newline).

(** ** Errors as gRPC responses *)

(** Source: crates/rginx-http/src/handler/grpc/error.rs:37-40 (GrpcResponseFormat) *)
Inductive GrpcResponseFormat : Type :=
| FormatGrpc (content_type : HeaderValue)
| FormatGrpcWeb (content_type : HeaderValue) (is_text : bool).

(** Source: crates/rginx-http/src/handler/grpc/error.rs:51-59 (grpc_response_format) *)
Definition grpc_response_format (headers : HeaderMap) : option GrpcResponseFormat :=
  content_type ← hm_get headers "content-type";
  protocol ← grpc_protocol headers;
  if str_eqb protocol "grpc" then Some (FormatGrpc content_type)
  else if str_eqb protocol "grpc-web" then Some (FormatGrpcWeb content_type false)
  else if str_eqb protocol "grpc-web-text" then Some (FormatGrpcWeb content_type true)
  else None.

Definition upper_hex (z : Z) : ascii := byte_ascii (if z <? 10 then 48 + z else 55 + z).

Definition encode_grpc_byte (byte : Z) : string :=
  if in_range 32 126 byte && negb (byte =? 37) then String (byte_ascii byte) EmptyString
  else String "%" (String (upper_hex (Z.shiftr byte 4)) (String (upper_hex (Z.land byte 15)) EmptyString)).

(** Source: crates/rginx-http/src/handler/grpc/error.rs:109-123 (encode_grpc_message) *)
Definition encode_grpc_message (message : string) : string :=
  foldr (λ byte encoded, encode_grpc_byte byte +:+ encoded) EmptyString (bytes_of_string (trim message)).

(** Source: crates/rginx-http/src/handler/grpc/error.rs:104-107 (grpc_message_value) *)
Definition grpc_message_value (message : string) : option HeaderValue :=
  let message := encode_grpc_message message in
  if str_is_empty message then None else hv_from_bytes message.

(** The frame of [encode_grpc_web_trailers] (GrpcWeb.v), written here again by
    the source. *)
(** Source: crates/rginx-http/src/handler/grpc/error.rs:125-140 (encode_grpc_web_error_body) *)
Definition encode_grpc_web_error_body (trailers : HeaderMap) (is_text : bool) : bytes :=
  let trailer_block :=
    concat (map (λ '(name, value), bytes_of_string name ++ [58; 32] ++
                   bytes_of_string (hv_as_bytes value) ++ [13; 10]) (hm_iter trailers)) in
  let encoded := [128] ++ u32_to_be (wrap32 (len trailer_block)) ++ trailer_block in
  if is_text then base64_encode encoded else encoded.

Definition append_opt (name : string) (value : option HeaderValue) (headers : HeaderMap) : HeaderMap :=
  match value with Some value => hm_append name value headers | None => headers end.

(** Source: crates/rginx-http/src/handler/grpc/error.rs:61-102 (build_grpc_error_response) *)
Definition build_grpc_error_response (format : GrpcResponseFormat) (grpc_status : GrpcStatusCode) (message : string)
    : HttpResponse :=
  let grpc_status_value := hv_from_static (grpc_status_as_str grpc_status) in
  let grpc_message_value := grpc_message_value message in
  let response (content_type : HeaderValue) (body : bytes) : HttpResponse :=
    mkResponse 200
      (append_opt "grpc-message" grpc_message_value
         (hm_append "grpc-status" grpc_status_value
            (builder_header "content-length" (dec (len body)) (hm_append "content-type" content_type hm_new))))
      (full_body body) None in
  match format with
  | FormatGrpc content_type => response content_type []
  | FormatGrpcWeb content_type is_text =>
      let trailers := hm_insert "grpc-status" grpc_status_value hm_new in
      let trailers := match grpc_message_value with
                      | Some message => hm_insert "grpc-message" message trailers
                      | None => trailers
                      end in
      response content_type (encode_grpc_web_error_body trailers is_text)
  end.

(** Source: crates/rginx-http/src/handler/grpc/error.rs:42-49 (grpc_error_response) *)
Definition grpc_error_response (request_headers : HeaderMap) (grpc_status : GrpcStatusCode) (message : string)
    : option HttpResponse :=
  format ← grpc_response_format request_headers;
  Some (build_grpc_error_response format grpc_status message).

(** An error in the client's protocol. *)
Definition error_response (request_headers : HeaderMap) (grpc_status : GrpcStatusCode) (status : Z) (message : string)
    : HttpResponse :=
  default (text_response status text_plain message) (grpc_error_response request_headers grpc_status message).

(** Source: crates/rginx-http/src/proxy/forward/error.rs:73-83 (gateway_timeout) *)
Definition gateway_timeout (request_headers : HeaderMap) (message : string) : HttpResponse :=
  error_response request_headers GrpcDeadlineExceeded 504 message.

(** Source: crates/rginx-http/src/proxy/forward/error.rs:89-99 (bad_gateway) *)
Definition bad_gateway (request_headers : HeaderMap) (message : string) : HttpResponse :=
  error_response request_headers GrpcUnavailable 502 message.

(** Source: crates/rginx-http/src/proxy/forward/error.rs:101-110 (payload_too_large) *)
Definition payload_too_large (request_headers : HeaderMap) (message : string) : HttpResponse :=
  error_response request_headers GrpcResourceExhausted 413 message.

(** Source: crates/rginx-http/src/proxy/forward/error.rs:112-122 (bad_request) *)
Definition bad_request (request_headers : HeaderMap) (message : string) : HttpResponse :=
  error_response request_headers GrpcInvalidArgument 400 message.

(** Source: crates/rginx-http/src/proxy/forward/error.rs:124-134 (unsupported_media_type) *)
Definition unsupported_media_type (request_headers : HeaderMap) (message : string) : HttpResponse :=
  error_response request_headers GrpcInvalidArgument 415 message.

(** ** What a gRPC client reads *)

(** The client's side of the gRPC protocol: [grpc-message] is percent-encoded. *)
Definition hex_value (c : ascii) : option Z :=
  let b := byte_of c in
  if in_range 48 57 b then Some (b - 48) else if in_range 65 70 b then Some (b - 55) else None.

Fixpoint percent_decode (s : string) : option bytes :=
  match s with
  | EmptyString => Some []
  | String c s =>
      if ascii_eqb c "%" then
        match s with
        | String h (String l s) =>
            h ← hex_value h; l ← hex_value l; rest ← percent_decode s; Some (h * 16 + l :: rest)
        | _ => None
        end
      else rest ← percent_decode s; Some (byte_of c :: rest)
  end.

Definition grpc_byte_ok (b : Z) : bool :=
  match percent_decode (encode_grpc_byte b) with
  | Some [c] => (c =? b) && str_all value_char_ok (encode_grpc_byte b) &&
                match encode_grpc_byte b with
                | String c EmptyString => negb (ascii_eqb c "%")
                | String c (String h (String l EmptyString)) =>
                    ascii_eqb c "%" && is_some (hex_value h) && is_some (hex_value l)
                | _ => false
                end
  | _ => false
  end.

Lemma grpc_bytes_ok : forallb (λ n, grpc_byte_ok (Z.of_nat n)) (seq 0 256) = true.
Proof. vm_compute. reflexivity. Qed.

Lemma grpc_byte_is_ok b : is_u8 b → grpc_byte_ok b = true.
Proof.
  intros Hb. pose proof grpc_bytes_ok as H. rewrite forallb_forall in H. unfold is_u8 in Hb.
  specialize (H (Z.to_nat b)). rewrite Z2Nat.id in H by lia. apply H, in_seq. lia.
Qed.

Lemma percent_decode_cons c s :
  percent_decode (String c s) =
  if ascii_eqb c "%" then
    match s with
    | String h (String l s) =>
        h ← hex_value h; l ← hex_value l; rest ← percent_decode s; Some (h * 16 + l :: rest)
    | _ => None
    end
  else rest ← percent_decode s; Some (byte_of c :: rest).
Proof. done. Qed.

Lemma percent_decode_app b s rest :
  is_u8 b → percent_decode s = Some rest → percent_decode (encode_grpc_byte b +:+ s) = Some (b :: rest).
Proof.
  intros Hb%grpc_byte_is_ok Hs. unfold grpc_byte_ok in Hb. destruct (encode_grpc_byte b) as [|c [|h [|l [|]]]]; try done.
  - rewrite percent_decode_cons in Hb. change (String c EmptyString +:+ s) with (String c s). rewrite percent_decode_cons.
    destruct (ascii_eqb c "%"); [done|]. simpl in Hb. boolify. rewrite Hs. simpl. congruence.
  - destruct (percent_decode (String c _)) as [[|? []]|]; simpl in Hb; by rewrite ?andb_false_r in Hb.
  - rewrite percent_decode_cons in Hb. change (String c (String h (String l EmptyString)) +:+ s) with (String c (String h (String l s))).
    rewrite percent_decode_cons. destruct (ascii_eqb c "%"); [|by destruct (percent_decode (String h (String l EmptyString))) as [[|? []]|]; simpl in Hb; rewrite ?andb_false_r in Hb].
    destruct (hex_value h) as [x|]; [|done]. destruct (hex_value l) as [y|]; [|done]. simpl in *. boolify. rewrite Hs.
    simpl. congruence.
  - destruct (percent_decode (String c _)) as [[|? []]|]; simpl in Hb; by rewrite ?andb_false_r in Hb.
Qed.

(** The message always can be sent, and a client that decodes it reads the
    proxy's text. *)
Lemma grpc_message_decodes message :
  percent_decode (encode_grpc_message message) = Some (bytes_of_string (trim message)) ∧
  str_all value_char_ok (encode_grpc_message message) = true.
Proof.
  unfold encode_grpc_message. pose proof (bytes_of_string_u8 (trim message)) as H.
  induction H as [|b l Hb _ [IH Hv]]; [done|]. simpl. split; [by apply percent_decode_app|].
  rewrite str_all_app, Hv, andb_true_r. apply grpc_byte_is_ok in Hb. unfold grpc_byte_ok in Hb.
  destruct (percent_decode (encode_grpc_byte b)) as [[|c []]|]; try done. by boolify.
Qed.
End Responses.
