(* ===== verification/GrpcObservability.v ===== *)
(** * What is logged of a gRPC response

    Models [crates/rginx-http/src/handler/grpc/observability.rs] and
    [grpc_web.rs]: the status and the message a gRPC response carries are read
    off its headers, its trailers or, for gRPC-Web, its body while it is sent, and
    recorded once, when the response ends or is dropped.

    The inner body is known by what each poll of it gives and whether it is then
    at its end; an error of the parser is only logged, its text is left out. *)

From S2P Require Import Prelude RustStr External Body GrpcWeb GrpcWebSafety RequestHeaders HttpResponse.

Section Observability.
Context {HTTP : HttpApi} {B64 : Base64Api}.
Notation FramePoll := (FramePoll BoxError).

(** Source: crates/rginx-http/src/handler/grpc/observability.rs:18-24 (GrpcObservability) *)
Record GrpcObservability : Type := mkObservability {
  go_protocol : string;
  go_service : string;
  go_method : string;
  go_status : option string;
  go_message : option string;
}.

(** Source: crates/rginx-http/src/handler/grpc/observability.rs:43-54 (GrpcObservability::update_from_headers) *)
Definition update_from_headers (headers : HeaderMap) (grpc : GrpcObservability) : GrpcObservability :=
  mkObservability (go_protocol grpc) (go_service grpc) (go_method grpc)
    (match header_value headers "grpc-status" with Some status => Some status | None => go_status grpc end)
    (match header_value headers "grpc-message" with Some message => Some message | None => go_message grpc end).

(** Source: crates/rginx-http/src/handler/grpc/observability.rs:26-40 (grpc_observability) *)
Definition grpc_observability (metadata : option GrpcRequestMetadata) (response_headers : HeaderMap)
    : option GrpcObservability :=
  metadata ← metadata;
  Some (update_from_headers response_headers
          (mkObservability (gm_protocol metadata) (gm_service metadata) (gm_method metadata) None None)).

(** ** Frames *)

(** Source: crates/rginx-http/src/handler/grpc/grpc_web.rs:122-125 (ParsedGrpcWebObservabilityFrame) *)
Inductive ParsedGrpcWebObservabilityFrame : Type :=
| ObservedData
| ObservedTrailers (trailers : HeaderMap).

Definition invalid_grpc_observability (message : string) : BoxError := InvalidDataError message.

(** The same lines as in the codec (GrpcWeb.v). *)
(** Source: crates/rginx-http/src/handler/grpc/grpc_web.rs:167-196 (decode_grpc_web_trailer_block_for_observability) *)
Definition decode_grpc_web_trailer_block_for_observability (payload : bytes) : result BoxError HeaderMap :=
  foldl (λ trailers line, let? trailers := trailers in decode_trailer_line trailers line)
    (Ok hm_new) (split_lines payload).

(** Source: crates/rginx-http/src/handler/grpc/grpc_web.rs:127-165 (decode_grpc_web_observability_frame) *)
Definition decode_grpc_web_observability_frame (buffer : bytes) (inner_finished saw_grpc_web_trailers : bool)
    : result BoxError (option ParsedGrpcWebObservabilityFrame) * bytes :=
  match buffer with
  | [] => (Ok None, buffer)
  | _ =>
      if saw_grpc_web_trailers
      then (Err (invalid_grpc_observability "grpc-web response trailer frame must be terminal"), buffer)
      else match buffer with
      | flags :: b1 :: b2 :: b3 :: b4 :: _ =>
          let len := u32_from_be b1 b2 b3 b4 in
          let frame_len := sat_add64 5 len in
          if Z.of_nat (length buffer) <? frame_len then
            if inner_finished
            then (Err (invalid_grpc_observability "incomplete grpc-web response frame payload"), buffer)
            else (Ok None, buffer)
          else
            let frame := take (Z.to_nat frame_len) buffer in
            let buffer := drop (Z.to_nat frame_len) buffer in
            if negb (Z.land flags 128 =? 0) then
              (rmap (λ t, Some (ObservedTrailers t)) (decode_grpc_web_trailer_block_for_observability (drop 5 frame)),
               buffer)
            else (Ok (Some ObservedData), buffer)
      | _ =>
          if inner_finished
          then (Err (invalid_grpc_observability "incomplete grpc-web response frame header"), buffer)
          else (Ok None, buffer)
      end
  end.

(** The same lines as in the codec, but for the texts of their errors. *)
(** Source: crates/rginx-http/src/handler/grpc/grpc_web.rs:198-225 (decode_grpc_web_text_observability_chunk) *)
Definition decode_grpc_web_text_observability_chunk (carryover data : bytes)
    : result BoxError (option bytes) * bytes :=
  let carryover := carryover ++ strip_whitespace data in
  let complete_len := (length carryover / 4 * 4)%nat in
  if (complete_len =? 0)%nat then (Ok None, carryover)
  else (rmap non_empty (decode_quanta (take complete_len carryover)), drop complete_len carryover).

(** Source: crates/rginx-http/src/handler/grpc/grpc_web.rs:227-250 (decode_grpc_web_text_observability_final) *)
Definition decode_grpc_web_text_observability_final (carryover : bytes) : result BoxError (option bytes) * bytes :=
  match carryover with
  | [] => (Ok None, carryover)
  | _ =>
      if negb (length carryover mod 4 =? 0)%nat
      then (Err (invalid_grpc_observability "incomplete grpc-web-text base64 response body"), carryover)
      else (rmap non_empty (decode_quanta carryover), [])
  end.

(** ** The parser *)

(** Source: crates/rginx-http/src/handler/grpc/grpc_web.rs:11-17 (GrpcWebObservabilityParser) *)
Record GrpcWebObservabilityParser : Type := mkParser {
  gp_is_text : bool;
  gp_encoded_carryover : bytes;
  gp_buffer : bytes;
  gp_saw_trailers : bool;
  gp_disabled : bool;
}.

(** Source: crates/rginx-http/src/handler/grpc/grpc_web.rs:20-26 (GrpcWebObservabilityParser::for_protocol) *)
Definition for_protocol (protocol : string) : option GrpcWebObservabilityParser :=
  if str_eqb protocol "grpc-web" then Some (mkParser false [] [] false false)
  else if str_eqb protocol "grpc-web-text" then Some (mkParser true [] [] false false)
  else None.

(** What the loop leaves: the buffer, whether a trailer frame was seen, what was
    observed, and the result. A frame takes five bytes at least, so the length
    of the buffer is fuel enough ([observe_loop_enough]). *)
Fixpoint observe_loop (fuel : nat) (inner_finished : bool) (buffer : bytes) (saw : bool) (grpc : GrpcObservability)
    : bytes * bool * GrpcObservability * result BoxError () :=
  match fuel with
  | O => (buffer, saw, grpc, Ok tt)
  | S fuel =>
      match decode_grpc_web_observability_frame buffer inner_finished saw with
      | (Err error, buffer) => (buffer, saw, grpc, Err error)
      | (Ok None, buffer) => (buffer, saw, grpc, Ok tt)
      | (Ok (Some ObservedData), buffer) => observe_loop fuel inner_finished buffer saw grpc
      | (Ok (Some (ObservedTrailers trailers)), buffer) =>
          observe_loop fuel inner_finished buffer true (update_from_headers trailers grpc)
      end
  end.

(** Source: crates/rginx-http/src/handler/grpc/grpc_web.rs:91-119 (GrpcWebObservabilityParser::observe_binary_chunk) *)
Definition observe_binary_chunk (p : GrpcWebObservabilityParser) (data : bytes) (inner_finished : bool)
    (grpc : GrpcObservability) : result BoxError () * GrpcWebObservabilityParser * GrpcObservability :=
  let buffer := gp_buffer p ++ data in
  let '(buffer, saw, grpc, result) := observe_loop (length buffer) inner_finished buffer (gp_saw_trailers p) grpc in
  (result, mkParser (gp_is_text p) (gp_encoded_carryover p) buffer saw (gp_disabled p), grpc).

Definition with_carryover (carryover : bytes) (p : GrpcWebObservabilityParser) : GrpcWebObservabilityParser :=
  mkParser (gp_is_text p) carryover (gp_buffer p) (gp_saw_trailers p) (gp_disabled p).

(** An error switches the parser off. *)
Definition disable_on_error (r : result BoxError () * GrpcWebObservabilityParser * GrpcObservability)
    : GrpcWebObservabilityParser * GrpcObservability :=
  let '(result, p, grpc) := r in
  match result with
  | Ok _ => (p, grpc)
  | Err _ => (mkParser (gp_is_text p) (gp_encoded_carryover p) (gp_buffer p) (gp_saw_trailers p) true, grpc)
  end.

(** Source: crates/rginx-http/src/handler/grpc/grpc_web.rs:28-57 (GrpcWebObservabilityParser::observe_chunk) *)
Definition observe_chunk (p : GrpcWebObservabilityParser) (data : bytes) (grpc : GrpcObservability)
    : GrpcWebObservabilityParser * GrpcObservability :=
  if gp_disabled p then (p, grpc)
  else
    disable_on_error
      (if gp_is_text p then
         let '(decoded, carryover) := decode_grpc_web_text_observability_chunk (gp_encoded_carryover p) data in
         let p := with_carryover carryover p in
         match decoded with
         | Ok (Some decoded) => observe_binary_chunk p decoded false grpc
         | Ok None => (Ok tt, p, grpc)
         | Err error => (Err error, p, grpc)
         end
       else observe_binary_chunk p data false grpc).

(** Source: crates/rginx-http/src/handler/grpc/grpc_web.rs:59-89 (GrpcWebObservabilityParser::finish) *)
Definition parser_finish (p : GrpcWebObservabilityParser) (grpc : GrpcObservability)
    : GrpcWebObservabilityParser * GrpcObservability :=
  if gp_disabled p then (p, grpc)
  else
    disable_on_error
      (if gp_is_text p then
         let '(decoded, carryover) := decode_grpc_web_text_observability_final (gp_encoded_carryover p) in
         let p := with_carryover carryover p in
         match decoded with
         | Ok (Some decoded) => observe_binary_chunk p decoded true grpc
         | Ok None => observe_binary_chunk p [] true grpc
         | Err error => (Err error, p, grpc)
         end
       else observe_binary_chunk p [] true grpc).

(** ** The body *)

(** The finalizer's flag, and what it recorded: the status goes to the
    statistics, all of it to the access log. *)
(** Source: crates/rginx-http/src/handler/grpc/observability.rs:99-105 (GrpcAccessLogBody) *)
Record GrpcAccessLogBody : Type := mkAccessLogBody {
  al_finalized : bool;
  al_recorded : list GrpcObservability;
  al_grpc : GrpcObservability;
  al_grpc_web : option GrpcWebObservabilityParser;
  al_stream_completed : bool;
}.

(** Source: crates/rginx-http/src/handler/grpc/observability.rs:108-111 (GrpcAccessLogBody::new) *)
Definition access_log_body_new (grpc : GrpcObservability) : GrpcAccessLogBody :=
  mkAccessLogBody false [] grpc (for_protocol (go_protocol grpc)) false.

(** Source: crates/rginx-http/src/handler/grpc/observability.rs:81-96 (GrpcResponseFinalizer::finalize) *)
Definition finalize_grpc (b : GrpcAccessLogBody) : GrpcAccessLogBody :=
  if al_finalized b then b
  else mkAccessLogBody true (al_recorded b ++ [al_grpc b]) (al_grpc b) (al_grpc_web b) (al_stream_completed b).

Definition with_parsed (r : GrpcWebObservabilityParser * GrpcObservability) (b : GrpcAccessLogBody) : GrpcAccessLogBody :=
  mkAccessLogBody (al_finalized b) (al_recorded b) (snd r) (Some (fst r)) (al_stream_completed b).

Definition with_grpc (grpc : GrpcObservability) (b : GrpcAccessLogBody) : GrpcAccessLogBody :=
  mkAccessLogBody (al_finalized b) (al_recorded b) grpc (al_grpc_web b) (al_stream_completed b).

(** Source: crates/rginx-http/src/handler/grpc/observability.rs:113-123 (GrpcAccessLogBody::observe_frame) *)
Definition observe_frame (frame : BodyFrame) (b : GrpcAccessLogBody) : GrpcAccessLogBody :=
  match frame with
  | TrailersFrame trailers => with_grpc (update_from_headers trailers (al_grpc b)) b
  | DataFrame data =>
      match al_grpc_web b with
      | Some parser => with_parsed (observe_chunk parser data (al_grpc b)) b
      | None => b
      end
  | OtherFrame => b
  end.

(** Source: crates/rginx-http/src/handler/grpc/observability.rs:125-130 (GrpcAccessLogBody::finish) *)
Definition body_finish (b : GrpcAccessLogBody) : GrpcAccessLogBody :=
  finalize_grpc match al_grpc_web b with
                | Some parser => with_parsed (parser_finish parser (al_grpc b)) b
                | None => b
                end.

Definition completed (b : GrpcAccessLogBody) : GrpcAccessLogBody :=
  mkAccessLogBody (al_finalized b) (al_recorded b) (al_grpc b) (al_grpc_web b) true.

(** [ended]: what [is_end_stream] of the inner body says after the poll. The
    result of the poll is the inner body's. *)
(** Source: crates/rginx-http/src/handler/grpc/observability.rs:155-181 (GrpcAccessLogBody::poll_frame) *)
Definition access_log_poll (b : GrpcAccessLogBody) (poll : FramePoll * bool) : GrpcAccessLogBody :=
  let '(answer, ended) := poll in
  match answer with
  | ReadyFrame frame =>
      let is_trailers := match frame with TrailersFrame _ => true | _ => false end in
      let b := observe_frame frame b in
      if is_trailers || ended then body_finish (completed b) else b
  | ReadyError _ | ReadyEnd => body_finish (completed b)
  | Pending => b
  end.

(** Source: crates/rginx-http/src/handler/grpc/observability.rs:132-141 (GrpcAccessLogBody::mark_cancelled_if_dropped_early) *)
Definition mark_cancelled_if_dropped_early (b : GrpcAccessLogBody) : GrpcAccessLogBody :=
  if al_stream_completed b || is_some (go_status (al_grpc b)) then b
  else
    let grpc := al_grpc b in
    with_grpc (mkObservability (go_protocol grpc) (go_service grpc) (go_method grpc)
                 (Some (grpc_status_as_str GrpcCancelled))
                 (match go_message grpc with Some message => Some message | None => Some "downstream cancelled"%string end)) b.

(** Source: crates/rginx-http/src/handler/grpc/observability.rs:145-148 (GrpcAccessLogBody::drop) *)
Definition access_log_drop (b : GrpcAccessLogBody) : GrpcAccessLogBody :=
  body_finish (mark_cancelled_if_dropped_early b).

(** A response whose body is polled and then dropped. *)
Definition access_log_run (grpc : GrpcObservability) (polls : list (FramePoll * bool)) : list GrpcObservability :=
  al_recorded (access_log_drop (foldl access_log_poll (access_log_body_new grpc) polls)).

(** ** Reading frames in pieces *)

Lemma decode_extend buffer more finished saw r rest :
  decode_grpc_web_observability_frame buffer false saw = (r, rest) → (∀ x, r = Ok x → is_Some x) →
  decode_grpc_web_observability_frame (buffer ++ more) finished saw = (r, rest ++ more).
Proof.
  unfold decode_grpc_web_observability_frame. destruct buffer as [|f buffer]; [intros [= <- <-] H; by destruct (H _ eq_refl)|].
  destruct saw; [by intros [= <- <-]|].
  destruct buffer as [|b1 [|b2 [|b3 [|b4 buffer]]]];
    try (intros [= <- <-] H; by destruct (H _ eq_refl)). cbn [app].
  set (n := sat_add64 5 (u32_from_be b1 b2 b3 b4)). set (all := f :: b1 :: b2 :: b3 :: b4 :: buffer).
  change (f :: b1 :: b2 :: b3 :: b4 :: buffer ++ more) with (all ++ more).
  destruct (Z.of_nat (length all) <? n) eqn:Hn; [intros [= <- <-] H; by destruct (H _ eq_refl)|]. apply Z.ltb_ge in Hn.
  rewrite (proj2 (Z.ltb_ge (Z.of_nat (length (all ++ more))) n)) by (rewrite length_app; lia).
  rewrite take_app_le, drop_app_le by lia. destruct (negb _); by intros [= <- <-].
Qed.

Lemma u32_from_be_nonneg b1 b2 b3 b4 : is_u8 b1 → is_u8 b2 → is_u8 b3 → is_u8 b4 → 0 ≤ u32_from_be b1 b2 b3 b4.
Proof. intros. unfold u32_from_be, is_u8 in *. rewrite !Z.lor_nonneg, !Z.shiftl_nonneg. lia. Qed.

Lemma decode_shrinks buffer finished saw x rest :
  Forall is_u8 buffer → decode_grpc_web_observability_frame buffer finished saw = (Ok (Some x), rest) →
  (length rest < length buffer)%nat ∧ Forall is_u8 rest.
Proof.
  intros Hu. unfold decode_grpc_web_observability_frame. destruct buffer as [|f buffer]; [done|]. destruct saw; [done|].
  destruct buffer as [|b1 [|b2 [|b3 [|b4 buffer]]]]; try by destruct finished.
  set (n := sat_add64 5 (u32_from_be b1 b2 b3 b4)). set (all := f :: b1 :: b2 :: b3 :: b4 :: buffer).
  assert (0 < n) as Hpos.
  { rewrite !Forall_cons in Hu. destruct Hu as (_ & H1 & H2 & H3 & H4 & _).
    pose proof (u32_from_be_nonneg b1 b2 b3 b4 H1 H2 H3 H4). unfold n, sat_add64, u64_max. lia. }
  destruct (_ <? n) eqn:Hn; [by destruct finished|]. apply Z.ltb_ge in Hn.
  assert ((length (drop (Z.to_nat n) all) < length all)%nat ∧ Forall is_u8 (drop (Z.to_nat n) all)) as H.
  { split; [rewrite length_drop; simpl; lia|by apply Forall_drop]. }
  destruct (negb _); [destruct (decode_grpc_web_trailer_block_for_observability _)|]; by intros [= <- <-].
Qed.

(** More fuel than bytes changes nothing. *)
Lemma observe_loop_enough fuel finished buffer saw grpc :
  Forall is_u8 buffer → (length buffer ≤ fuel)%nat →
  observe_loop fuel finished buffer saw grpc = observe_loop (length buffer) finished buffer saw grpc.
Proof.
  intros Hu Hf. remember (length buffer) as n eqn:Hn. revert fuel buffer saw grpc Hu Hn Hf.
  induction n as [n IH] using lt_wf_ind. intros fuel buffer saw grpc Hu Hn Hf.
  destruct n as [|n]; [destruct buffer; [|done]; by destruct fuel|]. destruct fuel as [|fuel]; [lia|]. simpl.
  destruct (decode_grpc_web_observability_frame buffer finished saw) as [[[x|]|e] rest] eqn:Hd; try done.
  destruct (decode_shrinks _ _ _ _ _ Hu Hd) as [Hl Hr].
  assert (∀ s g, observe_loop fuel finished rest s g = observe_loop n finished rest s g) as Heq.
  { intros s g. rewrite (IH (length rest) ltac:(lia) fuel), (IH (length rest) ltac:(lia) n); done || lia. }
  destruct x; apply Heq.
Qed.

Definition observe_all (finished : bool) (content : bytes) (grpc : GrpcObservability)
    : bytes * bool * GrpcObservability * result BoxError () :=
  observe_loop (length content) finished content false grpc.

(** The loop takes up where it stopped. *)
Lemma observe_loop_extend fuel finished buffer more saw grpc buffer' saw' grpc' :
  Forall is_u8 (buffer ++ more) → (length buffer ≤ fuel)%nat →
  observe_loop fuel false buffer saw grpc = (buffer', saw', grpc', Ok tt) →
  Forall is_u8 buffer' ∧
  observe_loop (length (buffer ++ more)) finished (buffer ++ more) saw grpc =
  observe_loop (length (buffer' ++ more)) finished (buffer' ++ more) saw' grpc'.
Proof.
  revert buffer saw grpc. induction fuel as [|fuel IH]; intros buffer saw grpc Hu Hf.
  { destruct buffer; [|simpl in Hf; lia]. intros [= <- <- <-]. done. }
  cbn [observe_loop]. destruct (decode_grpc_web_observability_frame buffer false saw) as [[[x|]|e] rest] eqn:Hd; try done.
  - assert (Forall is_u8 buffer) as Hub by (by apply Forall_app in Hu as [? _]).
    assert (Forall is_u8 more) as Hum by (by apply Forall_app in Hu as [_ ?]).
    destruct (decode_shrinks _ _ _ _ _ Hub Hd) as [Hl Hr].
    assert (Forall is_u8 (rest ++ more)) as Hurm by (by apply Forall_app).
    apply (decode_extend _ more finished) in Hd; [|intros ? [= <-]; by eexists].
    assert (∃ n, length (buffer ++ more) = S n ∧ (length (rest ++ more) ≤ n)%nat) as (n & Hn & Hle).
    { exists (pred (length (buffer ++ more))). rewrite !length_app. lia. }
    assert (∀ s g, observe_loop n finished (rest ++ more) s g =
              observe_loop (length (rest ++ more)) finished (rest ++ more) s g) as Hfuel
      by (intros s g; by apply observe_loop_enough).
    rewrite Hn. cbn [observe_loop]. rewrite Hd.
    destruct x; intros Hloop; rewrite Hfuel; apply (IH rest); done || lia.
  - intros [= <- <- <-]. assert (rest = buffer) as ->.
    { unfold decode_grpc_web_observability_frame in Hd. destruct buffer as [|f buffer]; [by injection Hd|]. destruct saw; [done|].
      destruct buffer as [|b1 [|b2 [|b3 [|b4 buffer]]]]; try by injection Hd.
      destruct (_ <? _) in Hd; [by injection Hd|]. destruct (negb _) in Hd; [|done].
      by destruct (decode_grpc_web_trailer_block_for_observability _) in Hd. }
    split; [by apply Forall_app in Hu as [? _]|done].
Qed.

(** An error stays. *)
Lemma observe_loop_error fuel finished buffer more saw grpc buffer' saw' grpc' e :
  Forall is_u8 (buffer ++ more) → (length buffer ≤ fuel)%nat →
  observe_loop fuel false buffer saw grpc = (buffer', saw', grpc', Err e) →
  ∃ buffer'', observe_loop (length (buffer ++ more)) finished (buffer ++ more) saw grpc = (buffer'', saw', grpc', Err e).
Proof.
  revert buffer saw grpc. induction fuel as [|fuel IH]; intros buffer saw grpc Hu Hf; [done|].
  cbn [observe_loop]. destruct (decode_grpc_web_observability_frame buffer false saw) as [[[x|]|e'] rest] eqn:Hd; try done.
  - assert (Forall is_u8 buffer) as Hub by (by apply Forall_app in Hu as [? _]).
    destruct (decode_shrinks _ _ _ _ _ Hub Hd) as [Hl Hr].
    assert (Forall is_u8 (rest ++ more)) as Hurm by (apply Forall_app in Hu as [_ ?]; by apply Forall_app).
    apply (decode_extend _ more finished) in Hd; [|intros ? [= <-]; by eexists].
    assert (∃ n, length (buffer ++ more) = S n ∧ (length (rest ++ more) ≤ n)%nat) as (n & Hn & Hle).
    { exists (pred (length (buffer ++ more))). rewrite !length_app. lia. }
    rewrite Hn. cbn [observe_loop]. rewrite Hd.
    destruct x; intros Hloop; rewrite observe_loop_enough by done; apply (IH rest); done || lia.
  - intros [= <- <- <- <-]. destruct buffer as [|b buffer]; [done|]. apply (decode_extend _ more finished) in Hd; [|done].
    cbn [length app observe_loop]. change (b :: buffer ++ more) with ((b :: buffer) ++ more).
    rewrite Hd. by eexists.
Qed.

(** ** Observing a body *)

(** What a parser has made of the bytes [content] it was given. *)
Definition parser_at (text : bool) (carry content : bytes) (start : GrpcObservability)
    (p : GrpcWebObservabilityParser) (grpc : GrpcObservability) : Prop :=
  ∃ buffer saw, observe_all false content start = (buffer, saw, grpc, Ok tt) ∧ p = mkParser text carry buffer saw false.

(** The content is read without an error, as far as it goes. *)
Definition observable (content : bytes) (start : GrpcObservability) : Prop :=
  Forall is_u8 content ∧ (observe_all false content start).2 = Ok tt.

Lemma observable_prefix a b start : observable (a ++ b) start → observable a start.
Proof.
  intros [Hu Ho]. split; [by apply Forall_app in Hu as [? _]|]. unfold observe_all in *.
  destruct (observe_loop (length a) false a false start) as [[[buffer saw] grpc] [[]|e]] eqn:Ha; [done|].
  destruct (observe_loop_error _ false _ b _ _ _ _ _ _ Hu (le_n _) Ha) as (b' & Hb). by rewrite Hb in Ho.
Qed.

Lemma observe_binary_at text carry content more start p grpc finished :
  Forall is_u8 (content ++ more) → parser_at text carry content start p grpc →
  ∃ buffer saw grpc' r, observe_all finished (content ++ more) start = (buffer, saw, grpc', r) ∧
    observe_binary_chunk p more finished grpc = (r, mkParser text carry buffer saw false, grpc').
Proof.
  intros Hu (buffer & saw & Ha & ->). unfold observe_all in *.
  destruct (observe_loop_extend _ finished _ more _ _ _ _ _ Hu (le_n _) Ha) as [_ Hx].
  unfold observe_binary_chunk. cbn [gp_buffer gp_saw_trailers gp_is_text gp_encoded_carryover gp_disabled]. rewrite Hx.
  destruct (observe_loop (length (buffer ++ more)) finished (buffer ++ more) saw grpc) as [[[b s] g] r]. by exists b, s, g, r.
Qed.

Lemma observe_more_at text carry content more start p grpc :
  observable (content ++ more) start → parser_at text carry content start p grpc →
  ∃ p' grpc', observe_binary_chunk p more false grpc = (Ok tt, p', grpc') ∧
    parser_at text carry (content ++ more) start p' grpc'.
Proof.
  intros [Hu Ho] Hp. destruct (observe_binary_at _ _ _ more _ _ _ false Hu Hp) as (b & s & g & r & Ha & Hc).
  rewrite Ha in Ho. simpl in Ho. subst r. eexists _, _. split; [exact Hc|]. by exists b, s.
Qed.

(** One poll of a body that flows, as the parser sees it. *)
Definition observe_poll (r : GrpcWebObservabilityParser * GrpcObservability) (poll : FramePoll)
    : GrpcWebObservabilityParser * GrpcObservability :=
  match poll with ReadyFrame (DataFrame data) => observe_chunk (fst r) data (snd r) | _ => r end.

Lemma observe_binary_body wire start :
  observable (delivered wire) start →
  parser_at false [] (delivered wire) start
    (foldl observe_poll (mkParser false [] [] false false, start) wire).1
    (foldl observe_poll (mkParser false [] [] false false, start) wire).2.
Proof.
  induction wire as [|poll wire IH] using rev_ind; intros Ho; [by exists [], false|].
  rewrite foldl_app. rewrite delivered_app in *. pose proof (IH (observable_prefix _ _ _ Ho)) as Hp.
  destruct (foldl observe_poll _ wire) as [p grpc]. cbn [foldl fst snd] in *.
  destruct poll as [| |[data| |]|]; unfold delivered in *; cbn [map concat poll_bytes] in *; rewrite ?app_nil_r in *;
    try (rewrite app_nil_r in Hp); try exact Hp.
  destruct (observe_more_at _ _ _ _ _ _ _ Ho Hp) as (p' & grpc' & Hc & Hp'). cbn [observe_poll fst snd].
  unfold observe_chunk. destruct Hp as (b & s & _ & ->). cbn [gp_disabled gp_is_text]. rewrite Hc. exact Hp'.
Qed.

(** As text: the whole quanta are decoded, the rest is carried over. *)
Definition whole (text : bytes) : nat := (length text / 4 * 4)%nat.

Lemma whole_app text more :
  ∃ k, take (whole (text ++ more)) (text ++ more) =
       take (whole text) text ++ take (whole (drop (whole text) text ++ more)) (drop (whole text) text ++ more) ∧
  drop (whole (text ++ more)) (text ++ more) =
       drop (whole (drop (whole text) text ++ more)) (drop (whole text) text ++ more) ∧
  length (take (whole text) text) = (4 * k)%nat.
Proof.
  exists (length text / 4)%nat. destruct (complete_len 4 text ltac:(lia)) as [Ht Hd]. fold (whole text) in Ht, Hd.
  assert (whole (text ++ more) = whole text + whole (drop (whole text) text ++ more))%nat as Hw.
  { unfold whole at 1 3. rewrite !length_app. rewrite length_drop in *.
    assert (whole text ≤ length text)%nat as Hle by (unfold whole; pose proof (Nat.div_mod_eq (length text) 4); lia).
    replace (length text + length more)%nat with (length text - whole text + length more + length text / 4 * 4)%nat by (unfold whole in *; lia).
    rewrite Nat.div_add by lia. unfold whole. lia. }
  assert (text ++ more = take (whole text) text ++ (drop (whole text) text ++ more)) as Heq
    by (by rewrite app_assoc, take_drop).
  assert (length (take (whole text) text) = whole text) as Hl by (rewrite Ht; unfold whole; lia).
  split_and!; [| |done]; rewrite Hw; rewrite Heq at 1.
  - by rewrite take_app, Hl, firstn_all2, Nat.add_comm, Nat.add_sub by lia.
  - by rewrite drop_app, Hl, drop_ge, Nat.add_comm, Nat.add_sub by lia.
Qed.

Lemma observe_text_body wire start content :
  decode_quanta (take (whole (strip_whitespace (delivered wire))) (strip_whitespace (delivered wire))) = Ok content →
  observable content start →
  parser_at true (drop (whole (strip_whitespace (delivered wire))) (strip_whitespace (delivered wire))) content start
    (foldl observe_poll (mkParser true [] [] false false, start) wire).1
    (foldl observe_poll (mkParser true [] [] false false, start) wire).2.
Proof.
  revert content. induction wire as [|poll wire IH] using rev_ind; intros content Hd Ho.
  { injection Hd as <-. by exists [], false. }
  rewrite foldl_app. rewrite delivered_app, strip_app in *. set (text := strip_whitespace (delivered wire)) in *.
  destruct poll as [| |[data| |]|];
    try (change (strip_whitespace (delivered [_])) with ([] : bytes) in *; rewrite app_nil_r in *; exact (IH content Hd Ho)).
  assert (delivered [ReadyFrame (E := BoxError) (DataFrame data)] = data) as Hdata by (unfold delivered; simpl; apply app_nil_r).
  rewrite Hdata in *. clear Hdata. set (more := strip_whitespace data) in *.
  destruct (whole_app text more) as (k & Htake & Hdrop & Hlen). rewrite Htake in Hd. rewrite Hdrop.
  rewrite (decode_quanta_app k) in Hd by done.
  destruct (decode_quanta (take (whole text) text)) as [before|] eqn:Hbefore; [|done]. cbn [rbind] in Hd.
  destruct (decode_quanta (take (whole (drop (whole text) text ++ more)) _)) as [now|] eqn:Hnow; [|done]. injection Hd as <-.
  pose proof (IH before eq_refl (observable_prefix _ _ _ Ho)) as Hp. destruct (foldl observe_poll _ wire) as [p grpc].
  cbn [foldl fst snd observe_poll] in *. unfold observe_chunk. pose proof Hp as (b & s & Hb & ->).
  cbn [gp_disabled gp_is_text gp_encoded_carryover]. unfold decode_grpc_web_text_observability_chunk. fold more.
  fold (whole (drop (whole text) text ++ more)).
  set (carry := drop (whole text) text ++ more) in *.
  assert (∀ c, parser_at true c before start (mkParser true c b s false) grpc) as Hp' by (intros c; by exists b, s).
  destruct (whole carry =? 0)%nat eqn:Hz.
  { apply Nat.eqb_eq in Hz. rewrite Hz in *. injection Hnow as <-. rewrite app_nil_r. apply Hp'. }
  rewrite Hnow. cbn [rmap]. unfold with_carryover. cbn [gp_is_text gp_buffer gp_saw_trailers gp_disabled].
  destruct now as [|x now]; [rewrite app_nil_r; apply Hp'|]. cbn [non_empty].
  destruct (observe_more_at _ _ _ _ _ _ _ Ho (Hp' (drop (whole carry) carry))) as (p' & grpc' & Hc & Hpp).
  rewrite Hc. exact Hpp.
Qed.

(** ** Whole responses *)

Definition observed_frame (frame : ParsedGrpcWebRequestFrame) : ParsedGrpcWebObservabilityFrame :=
  match frame with ParsedData _ => ObservedData | ParsedTrailers trailers => ObservedTrailers trailers end.

(** Responses are framed as requests are. *)
Lemma observed_as_decoded buffer finished saw x rest :
  decode_grpc_web_request_frame buffer finished saw = (Ok x, rest) →
  decode_grpc_web_observability_frame buffer finished saw = (Ok (observed_frame <$> x), rest).
Proof.
  unfold decode_grpc_web_request_frame, decode_grpc_web_observability_frame.
  destruct buffer as [|f buffer]; [by intros [= <- <-]|]. destruct saw; [done|].
  destruct buffer as [|b1 [|b2 [|b3 [|b4 buffer]]]]; try by (destruct finished; [done|intros [= <- <-]]).
  destruct (_ <? _); [by destruct finished; [done|intros [= <- <-]]|]. destruct (negb _); [|by intros [= <- <-]].
  unfold decode_grpc_web_trailer_block_for_observability. fold (decode_grpc_web_trailer_block (drop 5 (take
    (Z.to_nat (sat_add64 5 (u32_from_be b1 b2 b3 b4))) (f :: b1 :: b2 :: b3 :: b4 :: buffer)))).
  destruct (decode_grpc_web_trailer_block _); [by intros [= <- <-]|done].
Qed.

Lemma observe_one_frame flags payload rest finished :
  len payload < 2 ^ 32 →
  decode_grpc_web_request_frame (frame flags payload ++ rest) finished false =
    (if negb (Z.land flags 128 =? 0)
     then rmap (λ t, Some (ParsedTrailers t)) (decode_grpc_web_trailer_block payload)
     else Ok (Some (ParsedData (frame flags payload))), rest).
Proof.
  intros Hl. rewrite (decode_frame_step flags payload _ finished rest []); [|done|by rewrite app_nil_r|done].
  rewrite length_app, frame_len.
  rewrite (proj2 (Nat.ltb_ge _ 5)), (proj2 (Nat.ltb_ge _ (5 + length payload))) by lia.
  by rewrite drop_app_length' by (by rewrite frame_len).
Qed.

Lemma observe_messages messages tail fuel finished grpc :
  Forall message_frame messages →
  observe_loop (length messages + fuel) finished (concat messages ++ tail) false grpc =
  observe_loop fuel finished tail false grpc.
Proof.
  induction 1 as [|message messages (flags & payload & -> & Hf & Hl) _ IH]; [done|].
  cbn [length Nat.add observe_loop concat]. rewrite <-app_assoc.
  erewrite observed_as_decoded by (rewrite observe_one_frame by done; rewrite Hf; reflexivity).
  cbn [fmap option_fmap option_map observed_frame]. exact IH.
Qed.

Lemma messages_shorter (messages : list bytes) : Forall message_frame messages → (length messages ≤ length (concat messages))%nat.
Proof.
  induction 1 as [|message messages (flags & payload & -> & _) _ IH]; [done|]. cbn [length concat].
  rewrite length_app, frame_len. lia.
Qed.

(** What an encoded response says is read off it, at any moment of its end. *)
Lemma observe_response messages t t' finished grpc :
  Forall message_frame messages → len (block (hm_iter t)) < 2 ^ 32 →
  decode_grpc_web_trailer_block (block (hm_iter t)) = Ok t' →
  Forall is_u8 (concat messages ++ encode_grpc_web_trailers t) →
  observe_all finished (concat messages ++ encode_grpc_web_trailers t) grpc = ([], true, update_from_headers t' grpc, Ok tt).
Proof.
  intros Hm Hl Ht Hu. unfold observe_all. rewrite encode_trailers_frame in * by done.
  set (tail := frame 128 (block (hm_iter t))) in *.
  rewrite <-(observe_loop_enough (length messages + S (length (concat messages ++ tail)))) by (done || lia).
  rewrite observe_messages by done. cbn [observe_loop]. rewrite <-(app_nil_r tail).
  erewrite observed_as_decoded by (unfold tail; rewrite observe_one_frame by done; cbn [negb Z.land Z.eqb]; rewrite Ht; reflexivity).
  cbn [fmap option_fmap option_map observed_frame].
  destruct (length (concat messages ++ tail ++ [])) as [|n] eqn:Hn; [|done].
  rewrite !length_app in Hn. unfold tail in Hn. rewrite frame_len in Hn. lia.
Qed.

Section Values.
Context {Laws : HttpLaws HTTP}.

Lemma header_of_same t t' name :
  same_fields t' t → Forall trailer_ok (hm_iter t) → header_value t' name = hv_as_bytes <$> hm_get t name.
Proof.
  intros Hs Ht. specialize (Hs name). unfold header_value, hm_get_str, hm_get.
  assert (Forall (λ v, str_all value_char_ok (hv_as_bytes v) = true ∧ trim (hv_as_bytes v) = hv_as_bytes v) (hm_get_all t name)) as Hv.
  { rewrite hm_get_all_iter. apply Forall_forall. intros v ([n w] & Hin & Hw)%list_elem_of_omap. case_decide; [|done].
    simplify_eq. rewrite Forall_forall in Ht. by destruct (Ht _ Hin) as (_ & _ & _ & H1 & H2). }
  destruct (hm_get_all t' name) as [|v' l'], (hm_get_all t name) as [|v l]; try done.
  injection Hs as Hb _. apply Forall_cons in Hv as [[H1 H2] _]. cbn [head mbind option_bind fmap option_fmap option_map].
  rewrite hv_to_str_visible by (by rewrite Hb). cbn. by rewrite Hb, H2.
Qed.

(** What is to be logged of a response with the trailers [t]. *)
Definition reported (t : HeaderMap) (grpc : GrpcObservability) : GrpcObservability :=
  let or_before (name : string) (before : option string) :=
    match hv_as_bytes <$> hm_get t name with Some value => Some value | None => before end in
  mkObservability (go_protocol grpc) (go_service grpc) (go_method grpc)
    (or_before "grpc-status"%string (go_status grpc)) (or_before "grpc-message"%string (go_message grpc)).

Lemma update_reported t t' grpc :
  same_fields t' t → Forall trailer_ok (hm_iter t) → update_from_headers t' grpc = reported t grpc.
Proof.
  intros Hs Ht. unfold update_from_headers, reported. by rewrite !(header_of_same t t' _ Hs Ht).
Qed.
End Values.

(** *** Recorded once *)

(** The polls that end a response. *)
Definition completes (poll : FramePoll * bool) : bool :=
  match poll.1 with
  | ReadyFrame (TrailersFrame _) | ReadyError _ | ReadyEnd => true
  | ReadyFrame _ => poll.2
  | Pending => false
  end.

Definition recorded_with (g : GrpcObservability) (b : GrpcAccessLogBody) : Prop :=
  al_finalized b = true ∧ al_recorded b = [g].
Definition unrecorded (b : GrpcAccessLogBody) : Prop :=
  al_finalized b = false ∧ al_recorded b = [] ∧ al_stream_completed b = false.

Lemma finalize_recorded g b : recorded_with g b → recorded_with g (finalize_grpc b).
Proof. intros [Hf Hr]. unfold finalize_grpc. by rewrite Hf. Qed.

Lemma finish_recorded g b : recorded_with g b → recorded_with g (body_finish b).
Proof. intros Hb. unfold body_finish. apply finalize_recorded. by destruct (al_grpc_web b). Qed.

Lemma observe_recorded g f b : recorded_with g b → recorded_with g (observe_frame f b).
Proof. intros Hb. destruct f; [|done..]. simpl. by destruct (al_grpc_web b). Qed.

Lemma poll_recorded g b poll : recorded_with g b → recorded_with g (access_log_poll b poll).
Proof.
  intros Hb. destruct poll as [[| |f|e] ended]; simpl; [done|by apply finish_recorded| |by apply finish_recorded].
  apply (observe_recorded g f) in Hb. destruct (_ || _); [by apply finish_recorded|done].
Qed.

Lemma drop_recorded g b : recorded_with g b → recorded_with g (access_log_drop b).
Proof.
  intros Hb. unfold access_log_drop, mark_cancelled_if_dropped_early. apply finish_recorded. by destruct (_ || _).
Qed.

Lemma polls_recorded g b polls : recorded_with g b → recorded_with g (foldl access_log_poll b polls).
Proof. revert b. induction polls as [|p polls IH]; intros b Hb; [done|]. by apply IH, poll_recorded. Qed.

Lemma observe_unrecorded f b : unrecorded b → unrecorded (observe_frame f b).
Proof. intros Hb. destruct f; [|done..]. simpl. by destruct (al_grpc_web b). Qed.

Lemma poll_unrecorded b poll : unrecorded b → completes poll = false → unrecorded (access_log_poll b poll).
Proof.
  intros Hb. destruct poll as [[| |f|e] ended]; try done. apply (observe_unrecorded f) in Hb.
  unfold completes, access_log_poll. destruct f; cbn [fst snd]; [intros ->|done|intros ->]; done.
Qed.

Lemma polls_unrecorded b polls : unrecorded b → Forall (λ p, completes p = false) polls → unrecorded (foldl access_log_poll b polls).
Proof. intros Hb Hp. revert b Hb. induction Hp as [|p polls Hp _ IH]; intros b Hb; [done|]. by apply IH, poll_unrecorded. Qed.

Lemma finish_unrecorded b : al_finalized b = false → al_recorded b = [] → ∃ g, recorded_with g (body_finish b).
Proof.
  intros Hf Hr. unfold body_finish, finalize_grpc. destruct (al_grpc_web b); simpl; rewrite Hf, Hr; by eexists.
Qed.

Lemma poll_completes b poll : unrecorded b → completes poll = true → ∃ g, recorded_with g (access_log_poll b poll).
Proof.
  intros Hb. unfold completes, access_log_poll. destruct poll as [[| |f|e] ended]; cbn [fst snd]; [done| | |];
    try (intros _; by apply finish_unrecorded; destruct Hb as (? & ? & ?)).
  intros Hc. assert (match f with TrailersFrame _ => true | _ => false end || ended = true) as -> by (by destruct f).
  apply (observe_unrecorded f) in Hb as (? & ? & ?). by apply finish_unrecorded.
Qed.

Lemma split_at_completion polls :
  Forall (λ p, completes p = false) polls ∨
  ∃ before p after, polls = before ++ p :: after ∧ Forall (λ p, completes p = false) before ∧ completes p = true.
Proof.
  induction polls as [|p polls [IH|(before & q & after & -> & Hb & Hq)]]; [by left| |].
  - destruct (completes p) eqn:Hp; [right; by exists [], p, polls|left; by constructor].
  - right. destruct (completes p) eqn:Hp; [by exists [], p, (before ++ q :: after)|].
    exists (p :: before), q, after. split_and!; [done|by constructor|done].
Qed.

Lemma run_records grpc polls : ∃ g, access_log_run grpc polls = [g].
Proof.
  unfold access_log_run. assert (unrecorded (access_log_body_new grpc)) as H0 by done.
  destruct (split_at_completion polls) as [Hp|(before & p & after & -> & Hb & Hp)].
  - apply (polls_unrecorded _ _ H0) in Hp as (Hf & Hr & _). set (b := foldl _ _ _) in *.
    destruct (finish_unrecorded (mark_cancelled_if_dropped_early b)) as (g & _ & Hg).
    1,2: unfold mark_cancelled_if_dropped_early; by destruct (_ || _).
    by exists g.
  - rewrite foldl_app. apply (polls_unrecorded _ _ H0) in Hb. destruct (poll_completes _ _ Hb Hp) as (g & Hg).
    exists g. cbn [foldl]. apply (polls_recorded _ _ after), drop_recorded in Hg. by destruct Hg.
Qed.

(** *** A status, once there, stays *)

Lemma update_has_status headers grpc : is_Some (go_status grpc) → is_Some (go_status (update_from_headers headers grpc)).
Proof. intros H. simpl. by destruct (header_value headers _). Qed.

Lemma loop_has_status fuel finished buffer saw grpc :
  is_Some (go_status grpc) → is_Some (go_status (observe_loop fuel finished buffer saw grpc).1.2).
Proof.
  revert buffer saw grpc. induction fuel as [|fuel IH]; intros buffer saw grpc H; [done|]. simpl.
  destruct (decode_grpc_web_observability_frame _ _ _) as [[[[|t]|]|] rest]; try done; apply IH; [done|by apply update_has_status].
Qed.

Lemma binary_has_status p data finished grpc :
  is_Some (go_status grpc) → is_Some (go_status (observe_binary_chunk p data finished grpc).2).
Proof.
  intros H. unfold observe_binary_chunk. set (buffer := gp_buffer p ++ data).
  pose proof (loop_has_status (length buffer) finished buffer (gp_saw_trailers p) grpc H) as Hl.
  by destruct (observe_loop _ _ _ _ _) as [[[b s] g] r].
Qed.

Lemma disable_snd r : (disable_on_error r).2 = r.2.
Proof. by destruct r as [[[] p] g]. Qed.

Lemma finish_has_status p grpc : is_Some (go_status grpc) → is_Some (go_status (parser_finish p grpc).2).
Proof.
  intros H. unfold parser_finish. destruct (gp_disabled p); [done|]. rewrite disable_snd.
  destruct (gp_is_text p); [|by apply binary_has_status].
  destruct (decode_grpc_web_text_observability_final _) as [[[decoded|]|] carry]; [by apply binary_has_status..|done].
Qed.

(** A response that is dropped before its end has a status all the same. *)
Lemma dropped_has_status b g :
  unrecorded b → al_recorded (access_log_drop b) = [g] → is_Some (go_status g).
Proof.
  intros (Hf & Hr & Hs) Hg. unfold access_log_drop, mark_cancelled_if_dropped_early in Hg. rewrite Hs in Hg. cbn [orb] in Hg.
  set (b' := if is_some _ then _ else _) in Hg.
  assert (is_Some (go_status (al_grpc b')) ∧ al_finalized b' = false ∧ al_recorded b' = []) as (H1 & H2 & H3).
  { unfold b'. destruct (go_status (al_grpc b)) as [status|] eqn:Hst; simpl; [by rewrite Hst|by split_and!]. }
  unfold body_finish, finalize_grpc in Hg. destruct (al_grpc_web b') as [p|]; simpl in Hg; rewrite H2, H3 in Hg; injection Hg as <-.
  - by apply finish_has_status.
  - done.
Qed.

(** *** What is recorded of a response *)

Lemma run_to_end grpc b before p after g :
  foldl access_log_poll (access_log_body_new grpc) before = b →
  recorded_with g (access_log_poll b p) → access_log_run grpc (before ++ p :: after) = [g].
Proof.
  intros <- Hg. unfold access_log_run. rewrite foldl_app. cbn [foldl].
  apply (polls_recorded _ _ after), drop_recorded in Hg. by destruct Hg.
Qed.

(** A body that flows, as the parser sees it. *)
Lemma body_flows wire finalized recorded grpc parser :
  Forall flowing wire →
  foldl access_log_poll (mkAccessLogBody finalized recorded grpc (Some parser) false) (map (λ p, (p, false)) wire) =
  mkAccessLogBody finalized recorded (foldl observe_poll (parser, grpc) wire).2
    (Some (foldl observe_poll (parser, grpc) wire).1) false.
Proof.
  intros Hw. revert grpc parser. induction Hw as [|p wire Hp Hw IH]; intros grpc parser; [done|].
  cbn [map foldl]. destruct p as [| |[data| |]|]; try done; [apply IH|].
  cbn [access_log_poll orb observe_frame al_grpc_web al_grpc observe_poll fst snd]. unfold with_parsed.
  cbn [al_recorded al_finalized al_stream_completed]. rewrite IH. by destruct (observe_chunk parser data grpc).
Qed.

Lemma end_of_parser text content start p grpc g' :
  parser_at text [] content start p grpc → Forall is_u8 content →
  observe_all true content start = ([], true, g', Ok tt) →
  (parser_finish p grpc).2 = g'.
Proof.
  intros Hp Hu He. destruct (observe_binary_at text [] content [] start p grpc true) as (b & s & g & r & Ha & Hc);
    [by rewrite app_nil_r|done|]. rewrite app_nil_r, He in Ha. injection Ha as <- <- <- <-.
  destruct Hp as (b & s & _ & ->). unfold parser_finish. cbn [gp_disabled gp_is_text gp_encoded_carryover].
  rewrite disable_snd. destruct text; [|by rewrite Hc].
  cbn [decode_grpc_web_text_observability_final]. unfold with_carryover. cbn [gp_is_text gp_buffer gp_saw_trailers gp_disabled].
  by rewrite Hc.
Qed.

Lemma web_response_recorded text wire grpc content g' after :
  for_protocol (go_protocol grpc) = Some (mkParser text [] [] false false) →
  Forall flowing wire → Forall is_u8 content →
  (let '(p, g) := foldl observe_poll (mkParser text [] [] false false, grpc) wire in parser_at text [] content grpc p g) →
  observe_all true content grpc = ([], true, g', Ok tt) →
  access_log_run grpc (map (λ p, (p, false)) wire ++ (ReadyEnd, true) :: after) = [g'].
Proof.
  intros Hproto Hw Hu Hp He. eapply run_to_end; [unfold access_log_body_new; rewrite Hproto; by apply body_flows|].
  destruct (foldl observe_poll _ wire) as [p g]. cbn [fst snd].
  split; [done|]. change ([(parser_finish p g).2] = [g']). f_equal. by eapply end_of_parser.
Qed.

(** C34.  What a gRPC call comes to is recorded exactly once, whatever its
    response's body does and whenever it is dropped: a response dropped before
    its end is recorded as cancelled unless a status was seen.  The status and
    the message that are recorded are those of the trailers the upstream sent,
    also when they were translated to gRPC-Web, binary or text, and passed on in
    any chunks. *)
Theorem grpc_outcome_is_recorded_once {Laws : HttpLaws HTTP} {B64Laws : Base64Laws B64}
    (grpc : GrpcObservability) (messages : list bytes) (t : HeaderMap) (upstream : list FramePoll) (k : nat)
    (fallback : option HeaderMap) (n1 n2 : nat)
    (Hm : Forall message_frame messages) (Hu : Forall is_u8 (concat messages))
    (Ht : Forall trailer_ok (hm_iter t)) (Hlen : len (block (hm_iter t)) < 2 ^ 32)
    (Hup : Forall flowing upstream) (Hd : delivered upstream = concat messages)
    (Hn1 : (length upstream + 1 < n1)%nat) (Hn2 : (n1 < n2)%nat) :
  let response := polls response_poll_frame n1
    (response_body_new (upstream ++ ReadyFrame (TrailersFrame t) :: replicate k ReadyEnd) fallback) in
  let text := polls text_encode_poll_frame n2 (text_encode_new response) in
  (∀ polls, ∃ g, access_log_run grpc polls = [g] ∧
     (Forall (λ p, completes p = false) polls → is_Some (go_status g))) ∧
  (for_protocol (go_protocol grpc) = None → ∀ ended after,
     access_log_run grpc (map (λ p, (p, false)) upstream ++ (ReadyFrame (TrailersFrame t), ended) :: after) =
     [reported t grpc]) ∧
  (go_protocol grpc = "grpc-web"%string → ∀ wire after,
     Forall flowing wire → delivered wire = delivered response →
     access_log_run grpc (map (λ p, (p, false)) wire ++ (ReadyEnd, true) :: after) = [reported t grpc]) ∧
  (go_protocol grpc = "grpc-web-text"%string → ∀ wire after,
     Forall flowing wire → strip_whitespace (delivered wire) = delivered text →
     access_log_run grpc (map (λ p, (p, false)) wire ++ (ReadyEnd, true) :: after) = [reported t grpc]).
Proof.
  intros response text. destruct (response_wire messages t upstream k fallback n1 n2 Hu Hlen Hup Hd Hn1 Hn2) as (Hu8 & Hr & Htext).
  fold response in Hr, Htext. fold text in Htext. set (content := concat messages ++ encode_grpc_web_trailers t) in *.
  destruct (decode_encoded_block t Ht) as (t' & Ht' & Hsame).
  assert (∀ finished, observe_all finished content grpc = ([], true, reported t grpc, Ok tt)) as Hall.
  { intros finished. rewrite <-(update_reported t t' grpc Hsame Ht). by apply observe_response. }
  assert (observable content grpc) as Hobs by (split; [done|by rewrite Hall]).
  split_and!.
  - intros polls'. destruct (run_records grpc polls') as [g Hg]. exists g. split; [done|]. intros Hp.
    apply (dropped_has_status (foldl access_log_poll (access_log_body_new grpc) polls')); [|done]. by apply polls_unrecorded.
  - intros Hproto ended after. eapply run_to_end; [done|].
    assert (foldl access_log_poll (access_log_body_new grpc) (map (λ p, (p, false)) upstream) = access_log_body_new grpc) as ->.
    { unfold access_log_body_new. rewrite Hproto. clear -Hup. induction Hup as [|p l Hp _ IH]; [done|].
      cbn [map foldl]. by destruct p as [| |[]|]. }
    unfold access_log_body_new. rewrite Hproto. rewrite <-(update_reported t t grpc); [done|by intros name|done].
  - intros Hproto wire after Hw Hwire. eapply (web_response_recorded false); [by rewrite Hproto|done|exact Hu8| |apply Hall].
    rewrite (stream_delivered _ _ Hr) in Hwire. pose proof (observe_binary_body wire grpc) as Hb. rewrite Hwire in Hb.
    specialize (Hb Hobs). by destruct (foldl observe_poll _ wire).
  - intros Hproto wire after Hw Hwire. eapply (web_response_recorded true); [by rewrite Hproto|done|exact Hu8| |apply Hall].
    pose proof (observe_text_body wire grpc content) as Hb. rewrite Hwire, Htext in Hb.
    assert (decode_text (base64_encode content) = Ok content) as Hdec by (by apply decode_encode). unfold decode_text in Hdec.
    destruct (length (base64_encode content) mod 4 =? 0)%nat eqn:Hmod; [|done]. apply Nat.eqb_eq in Hmod.
    assert (whole (base64_encode content) = length (base64_encode content)) as Hwhole.
    { unfold whole. pose proof (Nat.div_mod_eq (length (base64_encode content)) 4). lia. }
    rewrite Hwhole, firstn_all, skipn_all in Hb. specialize (Hb Hdec Hobs). by destruct (foldl observe_poll _ wire).
Qed.
End Observability.

Definition sample_call : GrpcObservability := mkObservability "grpc-web-text" "shop.Cart" "Add" None None.

Theorem grpc_outcome_is_recorded_once_witness :
  access_log_run (HTTP := RefHttp.api) (B64 := RefBase64.api) sample_call
    (map (λ p, (p, false)) sample_wire ++ [(ReadyEnd, true)]) =
  [mkObservability "grpc-web-text" "shop.Cart" "Add" (Some "0"%string) (Some "all good"%string)].
Proof.
  destruct (grpc_outcome_is_recorded_once (HTTP := RefHttp.api) (B64 := RefBase64.api) (Laws := RefHttp.laws)
    (B64Laws := RefBase64.laws) sample_call [sample_message] sample_trailers sample_upstream_body 0 None 5 6)
    as (_ & _ & _ & Htext).
  - exact sample_message_ok.
  - repeat constructor; discriminate.
  - exact sample_trailers_ok.
  - reflexivity.
  - repeat constructor.
  - reflexivity.
  - simpl. lia.
  - lia.
  - rewrite (Htext eq_refl sample_wire []); [reflexivity|repeat constructor|exact sample_wire_text].
Defined.

(** Without a poll, as a server does with a body that says it is empty, the call
    is recorded as cancelled. *)
Example unpolled_body_is_cancelled :
  map go_status (access_log_run (HTTP := RefHttp.api) (B64 := RefBase64.api)
    (mkObservability "grpc" "shop.Cart" "Add" None None) []) = [Some "1"%string].
Proof. reflexivity. Qed.
