(* ===== verification/Compression.v ===== *)
(** * Compressed responses

    Models [crates/rginx-http/src/compression]: which coding a client prefers
    ([accept_encoding.rs]), which responses are compressed ([content_type.rs],
    [options.rs]) and what becomes of them ([mod.rs]).  The encoders of the
    [brotli] and [flate2] crates are a parameter. *)

From S2P Require Import Prelude RustStr MachineFloat External ServerName Upstream Tls Template CacheConfig ProxyHeader Route RequestTarget Body HttpResponse.

(** Source: crates/rginx-http/src/compression/accept_encoding.rs:5-8 (ContentCoding) *)
Inductive ContentCoding : Type := Brotli | Gzip.

(** Source: crates/rginx-http/src/compression/accept_encoding.rs:11-16 (ContentCoding::header_value) *)
Definition coding_header_value (coding : ContentCoding) : string :=
  match coding with Brotli => "br" | Gzip => "gzip" end.

(** ** What the client prefers *)

Notation quality := SpecFloat.spec_float.

Record AcceptedEncodings : Type := mkAccepted {
  ae_brotli : option quality;
  ae_gzip : option quality;
  ae_wildcard : option quality;
}.

Definition updated_slot (slot : option quality) (q : quality) : option quality :=
  Some (match slot with Some current => float_max current q | None => q end).

(** Source: crates/rginx-http/src/compression/accept_encoding.rs:61-76 (AcceptedEncodings::record) *)
Definition record_encoding (accepted : AcceptedEncodings) (item : string * quality) : AcceptedEncodings :=
  let '(coding, q) := item in
  if eq_ignore_ascii_case coding "br" then
    mkAccepted (updated_slot (ae_brotli accepted) q) (ae_gzip accepted) (ae_wildcard accepted)
  else if eq_ignore_ascii_case coding "gzip" then
    mkAccepted (ae_brotli accepted) (updated_slot (ae_gzip accepted) q) (ae_wildcard accepted)
  else if str_eqb coding "*" then
    mkAccepted (ae_brotli accepted) (ae_gzip accepted) (updated_slot (ae_wildcard accepted) q)
  else accepted.

Definition no_quality : quality := SpecFloat.S754_zero false.

(** Source: crates/rginx-http/src/compression/accept_encoding.rs:78-83 (AcceptedEncodings::quality_for) *)
Definition quality_for (accepted : AcceptedEncodings) (coding : ContentCoding) : quality :=
  let named := match coding with Brotli => ae_brotli accepted | Gzip => ae_gzip accepted end in
  default no_quality (match named with Some q => Some q | None => ae_wildcard accepted end).

(** The parameters of an item, in turn: one that is no number drops the item. *)
Fixpoint item_quality (parts : list string) (q : quality) : option quality :=
  match parts with
  | [] => Some q
  | part :: parts =>
      match split_once "="%char (trim part) with
      | Some (name, value) =>
          if eq_ignore_ascii_case (trim name) "q" then
            q ← parse_float f32 (trim value); item_quality parts q
          else item_quality parts q
      | None => item_quality parts q
      end
  end.

(** Source: crates/rginx-http/src/compression/accept_encoding.rs:110-128 (parse_accept_encoding_item) *)
Definition parse_accept_encoding_item (item : string) : option (string * quality) :=
  match split ";"%char item with
  | [] => None
  | coding :: parts =>
      let coding := trim coding in
      if str_is_empty coding then None
      else q ← item_quality parts (float_of_Z f32 1); Some (coding, q)
  end.

(** [q > 0.0]. *)
Definition acceptable (q : quality) : bool := float_lt no_quality q.

(** ** Lists in header values *)

Lemma value_char_cases c : value_char_ok c = true → is_ascii_ws_byte (byte_of c) = true ∨ is_graphic c = true.
Proof. unfold value_char_ok, is_ascii_ws_byte, is_graphic, in_range. intros. boolify. destruct (decide (byte_of c = 9)), (decide (byte_of c = 32)); [left|left|left|right]; lia. Qed.

Lemma trim_start_value s : str_all value_char_ok s = true → trim_start s = EmptyString ∨ ∃ a r, trim_start s = String a r ∧ is_graphic a = true.
Proof.
  induction s as [|a s IH]; [by left|]. intros [Ha Hs]%andb_true_iff.
  destruct (is_ascii_ws_byte (byte_of a)) eqn:Hw; [cbn [trim_start]; rewrite Hw; by apply IH|].
  destruct (value_char_cases a Ha) as [|Hg]; [congruence|]. right. exists a, s. by rewrite trim_start_graphic.
Qed.

Lemma trim_start_rev_value q a :
  str_all value_char_ok q = true → is_graphic a = true →
  ∃ q' b r, trim_start_rev (q +:+ String a EmptyString) = q' +:+ String a EmptyString ∧
            q' +:+ String a EmptyString = String b r ∧ is_graphic b = true.
Proof.
  intros Hq Ha. induction q as [|c q IH].
  - exists EmptyString, a, EmptyString. change (EmptyString +:+ String a EmptyString) with (String a EmptyString).
    by rewrite trim_start_rev_graphic.
  - apply andb_true_iff in Hq as [Hc Hq]. change (String c q +:+ String a EmptyString) with (String c (q +:+ String a EmptyString)).
    destruct (is_ascii_ws_byte (byte_of c)) eqn:Hw; [rewrite trim_start_rev_cons, Hw; by apply IH|].
    destruct (value_char_cases c Hc) as [|Hg]; [congruence|]. exists (String c q), c, (q +:+ String a EmptyString).
    by rewrite trim_start_rev_graphic.
Qed.

Lemma trim_value s : str_all value_char_ok s = true → trim (trim s) = trim s.
Proof.
  intros Hs. destruct (trim_start_value s Hs) as [He|(a & r & Hr & Ha)].
  { unfold trim at 2 3, trim_end. by rewrite He. }
  pose proof (trim_start_all value_char_ok _ s (le_n _) Hs) as Hall. rewrite Hr in Hall. apply andb_true_iff in Hall as [_ Hall].
  destruct (trim_start_rev_value (String.rev r) a) as (q & b & x & H1 & H2 & Hb); [by rewrite str_all_rev|done|].
  assert (trim s = String.rev (q +:+ String a EmptyString)) as Ht.
  { unfold trim, trim_end. rewrite Hr. change (String a r) with (String a EmptyString +:+ r). rewrite str_rev_app.
    change (String.rev (String a EmptyString)) with (String a EmptyString). by rewrite H1. }
  apply (trim_between a (String.rev q) (String.rev x) b); [|rewrite Ht, H2|done|done].
  - rewrite Ht, str_rev_app. done.
  - change (String b x) with (String b EmptyString +:+ x). by rewrite str_rev_app.
Qed.

(** An item of a list: no comma, no spaces around it. *)
Definition list_item (w : string) : Prop :=
  contains_char ","%char w = false ∧ trim w = w ∧ str_is_empty w = false ∧ str_all value_char_ok w = true.

Lemma no_char_all c s : contains_char c s = false ↔ str_all (λ a, negb (ascii_eqb a c)) s = true.
Proof.
  unfold contains_char. induction s as [|a s IH]; [done|]. cbn. destruct (ascii_eqb a c); [done|]. cbn.
  rewrite <-IH. by destruct (split_once c s) as [[]|].
Qed.

Lemma split_all p c s : str_all p s = true → Forall (λ w, str_all p w = true) (split c s).
Proof.
  induction s as [|a s IH]; [by repeat constructor|]. cbn [str_all split]. intros [Ha Hs]%andb_true_iff. specialize (IH Hs).
  destruct (ascii_eqb a c); [by constructor|]. pose proof (split_nonempty c s).
  destruct (split c s) as [|w ws]; [done|].
  inversion_clear IH as [|?? Hw Hws]. constructor; [|done]. cbn [str_all]. by rewrite Ha, Hw.
Qed.

(** The items of a list, as [merge_vary_header] reads them. *)
Definition items_of (values : list string) : list string :=
  List.filter (λ item, negb (str_is_empty item)) (map trim (flat_map (split ","%char) values)).

Lemma items_of_values values :
  Forall (λ s, str_all value_char_ok s = true) values → Forall list_item (items_of values).
Proof.
  intros Hv. apply Forall_forall. intros w. unfold items_of. rewrite list_elem_of_In, filter_In, in_map_iff.
  intros [(x & <- & (v & Hin & Hx)%in_flat_map) Hne]. apply negb_true_iff in Hne. apply list_elem_of_In in Hin, Hx.
  rewrite Forall_forall in Hv. specialize (Hv v Hin). pose proof (split_all _ ","%char v Hv) as Hall.
  rewrite Forall_forall in Hall. specialize (Hall x Hx). pose proof (split_pieces ","%char v) as Hp.
  rewrite Forall_forall in Hp. specialize (Hp x Hx). cbn in Hp.
  split_and!; [|by apply trim_value|done|by apply trim_all]. apply no_char_all, trim_all. by apply no_char_all.
Qed.

Lemma split_space c s w ws : c ≠ " "%char → split c s = w :: ws → split c (String " "%char s) = String " "%char w :: ws.
Proof. intros Hc Hs. cbn [split]. destruct (ascii_eqb " "%char c) eqn:He; [by apply ascii_eqb_true in He|]. by rewrite Hs. Qed.

Lemma items_of_join values : Forall list_item values → values ≠ [] → items_of [str_join ", " values] = values.
Proof.
  intros Hv Hne. unfold items_of. cbn [flat_map]. rewrite app_nil_r. destruct values as [|w ws]; [done|]. clear Hne.
  apply Forall_cons in Hv as [Hw Hws]. revert w Hw. induction ws as [|x ws IH]; intros w (Hc & Ht & He & _).
  { cbn [str_join]. rewrite split_none by done. cbn. by rewrite Ht, He. }
  apply Forall_cons in Hws as [Hx Hws]. change (str_join ", " (w :: x :: ws)) with (w +:+ String "," (String " " (str_join ", " (x :: ws)))).
  rewrite split_app by done. specialize (IH Hws x Hx). destruct (split "," (str_join ", " (x :: ws))) as [|y ys] eqn:Hs; [by destruct (split_nonempty "," (str_join ", " (x :: ws)))|].
  rewrite (split_space ","%char _ _ _ ltac:(done) Hs). cbn [map List.filter] in *. rewrite Ht, He. cbn [negb]. f_equal. exact IH.
Qed.


Section Compression.
Context {RX : RegexApi} {NET : IpNetApi}.
Context {HTTP : HttpApi}.
Notation FramePoll := (FramePoll BoxError).

(** Source: crates/rginx-http/src/compression/accept_encoding.rs:52-108 (preferred_response_encoding) *)
Definition preferred_response_encoding (headers : HeaderMap) : option ContentCoding :=
  let items := omap parse_accept_encoding_item (flat_map (split ","%char) (hm_get_all_str headers "accept-encoding")) in
  let accepted := foldl record_encoding (mkAccepted None None None) items in
  let brotli_q := quality_for accepted Brotli in
  let gzip_q := quality_for accepted Gzip in
  match acceptable brotli_q, acceptable gzip_q with
  | false, false => None
  | true, false => Some Brotli
  | false, true => Some Gzip
  | true, true => if float_ge brotli_q gzip_q then Some Brotli else Some Gzip
  end.

(** The names a [Vary] lists, each once; [None] at a [*]. *)
Fixpoint vary_values (items : list string) (values : list string) : option (list string) :=
  match items with
  | [] => Some values
  | item :: items =>
      if str_eqb item "*" then None
      else if existsb (λ existing, eq_ignore_ascii_case existing item) values then vary_values items values
      else vary_values items (values ++ [item])
  end.

(** Source: crates/rginx-http/src/compression/accept_encoding.rs:23-50 (merge_vary_header) *)
Definition merge_vary_header (headers : HeaderMap) (token : string) : HeaderMap :=
  let items := List.filter (λ item, negb (str_is_empty item))
                 (map trim (flat_map (split ","%char) (hm_get_all_str headers "vary"))) in
  match vary_values items [] with
  | None => hm_insert "vary" (hv_from_static "*") headers
  | Some values =>
      let values := if existsb (λ existing, eq_ignore_ascii_case existing token) values then values
                    else values ++ [token] in
      match hv_from_str (str_join ", " values) with
      | Some value => hm_insert "vary" value headers
      | None => hm_append "vary" (hv_from_static "Accept-Encoding") headers
      end
  end.

(** ** What is compressed *)

Definition MIN_COMPRESSIBLE_RESPONSE_BYTES : Z := 256.
Definition MAX_COMPRESSIBLE_RESPONSE_BYTES : Z := 1024 * 1024.

(** Source: crates/rginx-http/src/compression/options.rs:8-13 (ResponseCompressionOptions) *)
Record ResponseCompressionOptions : Type := mkCompressionOptions {
  co_response_buffering : RouteBufferingPolicy;
  co_compression : RouteCompressionPolicy;
  co_compression_min_bytes : option Z;
  co_compression_content_types : list string;
}.

(** Source: crates/rginx-http/src/compression/options.rs:16-23 (ResponseCompressionOptions::default) *)
Definition default_compression : ResponseCompressionOptions :=
  mkCompressionOptions BufferingAuto CompressionAuto None [].

(** Source: crates/rginx-http/src/compression/options.rs:27-34 (ResponseCompressionOptions::for_route) *)
Definition compression_for_route (route : Route) : ResponseCompressionOptions :=
  mkCompressionOptions (route_response_buffering route) (route_compression route) (route_compression_min_bytes route)
    (route_compression_content_types route).

(** Source: crates/rginx-http/src/compression/options.rs:36-43 (ResponseCompressionOptions::min_bytes) *)
Definition min_bytes (options : ResponseCompressionOptions) : Z :=
  match co_compression options with
  | CompressionForce => default 1 (co_compression_min_bytes options)
  | CompressionAuto | CompressionOff => default MIN_COMPRESSIBLE_RESPONSE_BYTES (co_compression_min_bytes options)
  end.

(** Source: crates/rginx-http/src/compression/options.rs:45-48 (ResponseCompressionOptions::response_compression_disabled) *)
Definition response_compression_disabled (options : ResponseCompressionOptions) : bool :=
  match co_compression options, co_response_buffering options with
  | CompressionOff, _ | _, BufferingOff => true
  | _, _ => false
  end.

(** Source: crates/rginx-http/src/compression/content_type.rs:44-55 (is_compressible_mime) *)
Definition is_compressible_mime (mime : string) : bool :=
  starts_with "text/" mime ||
  existsb (str_eqb mime)
    ["application/json"; "application/problem+json"; "application/javascript"; "application/xml";
     "application/xhtml+xml"; "image/svg+xml"]%string.

(** Source: crates/rginx-http/src/compression/content_type.rs:32-42 (content_type_is_eligible) *)
Definition content_type_is_eligible (content_type : string) (options : ResponseCompressionOptions) : bool :=
  let mime := trim (default content_type (head (split ";"%char content_type))) in
  match co_compression_content_types options with
  | [] => is_compressible_mime mime
  | candidates => existsb (λ candidate, eq_ignore_ascii_case (trim candidate) mime) candidates
  end.

(** Source: crates/rginx-http/src/compression/content_type.rs:6-30 (response_is_eligible) *)
Definition response_is_eligible (headers : HeaderMap) (status : Z) (options : ResponseCompressionOptions) : bool :=
  if ((100 <=? status) && (status <? 200)) || (status =? 204) || (status =? 304) then false
  else if (status =? 206) || hm_contains_key headers "content-range" || hm_contains_key headers "content-encoding" then false
  else match hm_get_str headers "content-type" with
       | Some content_type => content_type_is_eligible content_type options
       | None => false
       end.

(** Source: crates/rginx-http/src/compression/mod.rs:106-111 (parse_content_length) *)
Definition parse_content_length (headers : HeaderMap) : option Z :=
  value ← hm_get_str headers "content-length"; parse_u64 value.

(** [exact]: what [size_hint().exact()] of the body says. *)
(** Source: crates/rginx-http/src/compression/mod.rs:93-104 (compression_candidate_length) *)
Definition compression_candidate_length (headers : HeaderMap) (exact : option Z) (options : ResponseCompressionOptions)
    : option Z :=
  match parse_content_length headers with
  | Some length => Some length
  | None => match co_response_buffering options with BufferingOn => exact | _ => None end
  end.

(** Source: crates/rginx-http/src/compression/mod.rs:120-123 (clear_compression_headers) *)
Definition clear_compression_headers (headers : HeaderMap) : HeaderMap :=
  hm_remove "content-length" (hm_remove "content-encoding" headers).

(** The decimal text is always a header value. *)
(** Source: crates/rginx-http/src/compression/mod.rs:125-131 (set_content_length) *)
Definition set_content_length (length : Z) (headers : HeaderMap) : HeaderMap :=
  match hv_from_str (dec length) with Some value => hm_insert "content-length" value headers | None => headers end.

Definition with_parts (status : Z) (headers : HeaderMap) (body : list FramePoll) (response : HttpResponse) : HttpResponse :=
  mkResponse status headers body (rsp_upstream response).

(** Source: crates/rginx-http/src/compression/mod.rs:113-118 (buffered_response) *)
Definition buffered_response (response : HttpResponse) (body : bytes) : HttpResponse :=
  with_parts (rsp_status response) (set_content_length (len body) (clear_compression_headers (rsp_headers response)))
    (full_body body) response.

(** [body.collect().await], then [to_bytes]: trailers are dropped. *)
Fixpoint collect_bytes (body : list FramePoll) : result BoxError bytes :=
  match body with
  | [] | ReadyEnd :: _ => Ok []
  | Pending :: body | ReadyFrame (TrailersFrame _) :: body | ReadyFrame OtherFrame :: body => collect_bytes body
  | ReadyFrame (DataFrame data) :: body => let? rest := collect_bytes body in Ok (data ++ rest)
  | ReadyError error :: _ => Err error
  end.

Section Encode.
(** [compress_bytes]; [None]: the encoder failed. *)
Context (compress_bytes : ContentCoding → bytes → option bytes).

(** The coding of a response that is collected to be coded. *)
Definition collected_for (method : string) (request_headers : HeaderMap) (options : ResponseCompressionOptions)
    (exact : option Z) (response : HttpResponse) : option ContentCoding :=
  if response_compression_disabled options then None
  else
    content_coding ← preferred_response_encoding request_headers;
    if str_eqb method "HEAD" then None
    else if negb (response_is_eligible (rsp_headers response) (rsp_status response) options) then None
    else
      content_length ← compression_candidate_length (rsp_headers response) exact options;
      if (MAX_COMPRESSIBLE_RESPONSE_BYTES <? content_length) || (content_length <? min_bytes options) then None
      else Some content_coding.

(** Source: crates/rginx-http/src/compression/mod.rs:24-91 (maybe_encode_response) *)
Definition maybe_encode_response (method : string) (request_headers : HeaderMap) (options : ResponseCompressionOptions)
    (exact : option Z) (response : HttpResponse) : HttpResponse :=
  match collected_for method request_headers options exact response with
  | None => response
  | Some content_coding =>
      match collect_bytes (rsp_body response) with
      | Err _ =>
          with_parts 500
            (set_content_length 0 (hm_remove "accept-ranges" (clear_compression_headers (rsp_headers response))))
            (full_body []) response
      | Ok collected =>
          match compress_bytes content_coding collected with
          | Some compressed =>
              if len compressed <? len collected then
                let headers := clear_compression_headers (rsp_headers response) in
                let headers := hm_insert "content-encoding" (hv_from_static (coding_header_value content_coding)) headers in
                let headers := merge_vary_header headers "Accept-Encoding" in
                let headers := set_content_length (len compressed) headers in
                with_parts (rsp_status response) (hm_remove "accept-ranges" headers) (full_body compressed) response
              else buffered_response response collected
          | None => buffered_response response collected
          end
      end
  end.
End Encode.

(** ** What a client reads *)

Section Read.
Context {Laws : HttpLaws HTTP}.
Context (compress_bytes decompress : ContentCoding → bytes → option bytes).

(** A decoder reads what the encoder wrote. *)
Hypothesis decompress_compressed :
  ∀ coding data coded, compress_bytes coding data = Some coded → decompress coding coded = Some data.

Lemma collect_full data : collect_bytes (full_body data) = Ok data.
Proof. destruct data; [done|]. simpl. by rewrite app_nil_r. Qed.

Lemma dec_value n : ∃ v, hv_from_str (dec n) = Some v ∧ hv_to_str v = Some (dec n).
Proof.
  apply hv_from_str_visible. pose proof (dec_digits n) as H. revert H. induction (dec n) as [|c s IH]; [done|].
  simpl. intros [Hc Hs]%andb_prop. rewrite IH by done. unfold is_ascii_digit, value_char_ok, in_range in *. boolify.
  rewrite andb_true_r. apply orb_true_iff. left. apply andb_true_iff. split; apply Z.leb_le; lia.
Qed.

Lemma set_length_spec n headers :
  ∃ v, hv_to_str v = Some (dec n) ∧ set_content_length n headers = hm_insert "content-length" v headers.
Proof. unfold set_content_length. destruct (dec_value n) as (v & -> & Hv). by exists v. Qed.

Lemma merge_vary_other headers token name :
  name ≠ "vary"%string → hm_get_all (merge_vary_header headers token) name = hm_get_all headers name.
Proof.
  intros Hn. unfold merge_vary_header. destruct (vary_values _ _) as [values|]; [|by apply hm_get_all_insert_ne].
  destruct (hv_from_str _); [by apply hm_get_all_insert_ne|by apply hm_get_all_append_ne].
Qed.

(** The coding was asked for: it or the wildcard has a positive quality. *)
Lemma preferred_is_acceptable headers coding :
  preferred_response_encoding headers = Some coding →
  acceptable (quality_for (foldl record_encoding (mkAccepted None None None)
    (omap parse_accept_encoding_item (flat_map (split ","%char) (hm_get_all_str headers "accept-encoding")))) coding) = true.
Proof.
  unfold preferred_response_encoding. set (accepted := foldl _ _ _).
  destruct (acceptable (quality_for accepted Brotli)) eqn:Hb, (acceptable (quality_for accepted Gzip)) eqn:Hg; try done;
    try (by intros [= <-]). destruct (float_ge _ _); by intros [= <-].
Qed.

(** *** Vary *)

(** What the [Vary] of a response lists. *)
Definition vary_items (headers : HeaderMap) : list string := items_of (hm_get_all_str headers "vary").

(** A cache tells requests apart by the header [name]. *)
Definition varies_on (headers : HeaderMap) (name : string) : Prop :=
  ∃ item, item ∈ vary_items headers ∧ (item = "*"%string ∨ eq_ignore_ascii_case item name = true).

Lemma vary_items_ok headers : Forall list_item (vary_items headers).
Proof.
  apply items_of_values, Forall_forall. intros s. unfold hm_get_all_str. rewrite list_elem_of_omap.
  intros (v & _ & Hs). by eapply hv_to_str_inv.
Qed.

Lemma vary_values_spec items values result :
  vary_values items values = Some result →
  (∀ w, w ∈ result → w ∈ values ∨ w ∈ items) ∧ (∀ w, w ∈ values → w ∈ result) ∧
  ∀ w, w ∈ items → w ≠ "*"%string ∧ ∃ w', w' ∈ result ∧ eq_ignore_ascii_case w' w = true.
Proof.
  revert values. induction items as [|item items IH]; intros values; cbn [vary_values]; [intros [= <-]; set_solver|].
  destruct (str_eqb item "*") eqn:Hstar; [done|]. apply str_eqb_false in Hstar.
  destruct (existsb _ values) eqn:He; intros (H1 & H2 & H3)%IH; split_and!.
  - set_solver.
  - done.
  - intros w [->|Hw]%elem_of_cons; [|by apply H3]. split; [done|].
    apply existsb_exists in He as (w' & Hin & Heq). exists w'. split; [by apply H2, list_elem_of_In|done].
  - set_solver.
  - set_solver.
  - intros w [->|Hw]%elem_of_cons; [|by apply H3]. split; [done|]. exists item. split; [set_solver|]. unfold eq_ignore_ascii_case. apply str_eqb_refl.
Qed.

Lemma varies_on_value headers w name :
  vary_items headers = [w] ∨ w ∈ vary_items headers → w = "*"%string ∨ eq_ignore_ascii_case w name = true → varies_on headers name.
Proof. intros [Hi|Hi] Hw; exists w; (split; [|done]); [rewrite Hi|]; set_solver. Qed.

Lemma join_visible ws : Forall (λ w, str_all value_char_ok w = true) ws → str_all value_char_ok (str_join ", " ws) = true.
Proof.
  induction 1 as [|w ws Hw _ IH]; [done|]. destruct ws as [|x ws]; [done|].
  change (str_join ", " (w :: x :: ws)) with (w +:+ (", " +:+ str_join ", " (x :: ws))).
  by rewrite !str_all_app, Hw, IH.
Qed.

(** [Vary] keeps what it lists and gets the token. *)
Lemma merge_vary_spec headers (token : string) :
  list_item token →
  varies_on (merge_vary_header headers token) token ∧
  ∀ name, varies_on headers name → varies_on (merge_vary_header headers token) name.
Proof.
  intros Htoken. pose proof (vary_items_ok headers) as Hitems. unfold merge_vary_header, varies_on at 2.
  change (List.filter _ _) with (vary_items headers).
  destruct (vary_values (vary_items headers) []) as [values|] eqn:Hv.
  2: { assert (∀ name, varies_on (hm_insert "vary" (hv_from_static "*") headers) name) as Hall; [|by split; intros; apply Hall].
       intros name. exists "*"%string. split; [|by left]. unfold vary_items, hm_get_all_str. rewrite hm_get_all_insert_eq. cbn [omap list_omap].
       rewrite hv_from_static_visible by done. by left. }
  apply vary_values_spec in Hv as (H1 & _ & H3). set (merged := if existsb _ values then values else values ++ [token]).
  assert (Forall list_item values) as Hvalues.
  { apply Forall_forall. intros w Hw. rewrite Forall_forall in Hitems. destruct (H1 w Hw); [set_solver|by apply Hitems]. }
  assert (Forall list_item merged ∧ (∀ w, w ∈ values → w ∈ merged) ∧ ∃ w, w ∈ merged ∧ eq_ignore_ascii_case w token = true)
    as (Hm & Hsub & w & Hw & Heq).
  { unfold merged. destruct (existsb _ values) eqn:He.
    - split_and!; [done|done|]. apply existsb_exists in He as (w & Hin & Heq). exists w. split; [by apply list_elem_of_In|done].
    - split_and!; [apply Forall_app; split; [done|by apply Forall_singleton]|set_solver|]. exists token. split; [set_solver|apply str_eqb_refl]. }
  clearbody merged. destruct (hv_from_str_visible (str_join ", " merged)) as (v & -> & Hval).
  { apply join_visible. eapply Forall_impl; [exact Hm|]. by intros ? (_ & _ & _ & ?). }
  assert (vary_items (hm_insert "vary" v headers) = merged) as Hback.
  { unfold vary_items, hm_get_all_str. rewrite hm_get_all_insert_eq. cbn [omap list_omap]. rewrite Hval.
    apply items_of_join; [done|]. intros ->. by apply elem_of_nil in Hw. }
  unfold varies_on. rewrite Hback. split; [by exists w; auto|]. intros name (item & Hin & Hn).
  destruct (H3 item Hin) as (Hstar & w' & Hw' & Hww'). exists w'. split; [by apply Hsub|right].
  destruct Hn as [|Hn]; [done|]. unfold eq_ignore_ascii_case in *. apply str_eqb_true in Hww', Hn. rewrite Hww', Hn. apply str_eqb_refl.
Qed.

(** How a response is read: by its coding, if compression gave it one. *)
Definition reads (coding : option ContentCoding) (body : list FramePoll) (data : bytes) : Prop :=
  ∃ coded, collect_bytes body = Ok coded ∧
    match coding with Some coding => decompress coding coded = Some data | None => coded = data end.

(** What the headers of a response say of it, and leave unsaid. *)
Definition says_length (headers : HeaderMap) (n : Z) : Prop :=
  ∃ v, hm_get_all headers "content-length" = [v] ∧ hv_to_str v = Some (dec n).
Definition same_headers_but (names : list string) (headers headers' : HeaderMap) : Prop :=
  ∀ name, name ∉ names → hm_get_all headers' name = hm_get_all headers name.

(** What a response may become. *)
Definition reads_the_same (method : string) (request_headers : HeaderMap) (response encoded : HttpResponse) : Prop :=
  match collect_bytes (rsp_body response) with
  | Ok data =>
      rsp_status encoded = rsp_status response ∧
      ∃ coding, reads coding (rsp_body encoded) data ∧
        match coding with
        | None =>
            encoded = response ∨
            hm_get_all (rsp_headers encoded) "content-encoding" = [] ∧ says_length (rsp_headers encoded) (len data) ∧
            same_headers_but ["content-encoding"; "content-length"]%string (rsp_headers response) (rsp_headers encoded)
        | Some coding =>
            preferred_response_encoding request_headers = Some coding ∧
            hm_get_all (rsp_headers encoded) "content-encoding" = [hv_from_static (coding_header_value coding)] ∧
            (∃ coded, collect_bytes (rsp_body encoded) = Ok coded ∧ len coded < len data ∧
               says_length (rsp_headers encoded) (len coded)) ∧
            varies_on (rsp_headers encoded) "Accept-Encoding" ∧
            (∀ name, varies_on (rsp_headers response) name → varies_on (rsp_headers encoded) name) ∧
            hm_get_all (rsp_headers encoded) "accept-ranges" = [] ∧
            same_headers_but ["content-encoding"; "content-length"; "vary"; "accept-ranges"]%string
              (rsp_headers response) (rsp_headers encoded) ∧
            hm_get_all (rsp_headers response) "content-encoding" = [] ∧ rsp_status response ≠ 206 ∧
            method ≠ "HEAD"%string
        end
  | Err _ =>
      encoded = response ∨
      rsp_status encoded = 500 ∧ collect_bytes (rsp_body encoded) = Ok [] ∧ says_length (rsp_headers encoded) 0
  end.

Lemma unchanged_reads_the_same method request_headers response :
  reads_the_same method request_headers response response.
Proof.
  unfold reads_the_same. destruct (collect_bytes (rsp_body response)) as [data|e] eqn:Hd; [|by left]. split; [done|].
  exists None. split; [by exists data|by left].
Qed.

Lemma length_said n headers : says_length (set_content_length n headers) n.
Proof. destruct (set_length_spec n headers) as (v & Hv & ->). exists v. by rewrite hm_get_all_insert_eq. Qed.

Lemma set_length_other n headers name :
  name ≠ "content-length"%string → hm_get_all (set_content_length n headers) name = hm_get_all headers name.
Proof. intros Hn. destruct (set_length_spec n headers) as (v & _ & ->). by apply hm_get_all_insert_ne. Qed.

Lemma cleared_other headers name :
  name ∉ ["content-encoding"; "content-length"]%string →
  hm_get_all (clear_compression_headers headers) name = hm_get_all headers name.
Proof.
  intros Hn. unfold clear_compression_headers. rewrite hm_get_all_remove_ne by set_solver.
  apply hm_get_all_remove_ne. set_solver.
Qed.

Lemma cleared_encoding headers : hm_get_all (clear_compression_headers headers) "content-encoding" = [].
Proof. unfold clear_compression_headers. by rewrite hm_get_all_remove_ne, hm_get_all_remove_eq. Qed.

Lemma buffered_reads_the_same method request_headers response data :
  collect_bytes (rsp_body response) = Ok data →
  reads_the_same method request_headers response (buffered_response response data).
Proof.
  intros Hd. unfold reads_the_same. rewrite Hd. split; [done|]. exists None. split; [exists data; split; [apply collect_full|done]|].
  right. unfold buffered_response. cbn [with_parts rsp_headers]. split_and!.
  - by rewrite set_length_other, cleared_encoding.
  - apply length_said.
  - intros name Hn. rewrite set_length_other by set_solver. by apply cleared_other.
Qed.

(** The headers of a coded response. *)
Definition coded_headers (coding : ContentCoding) (n : Z) (headers : HeaderMap) : HeaderMap :=
  hm_remove "accept-ranges" (set_content_length n
    (merge_vary_header (hm_insert "content-encoding" (hv_from_static (coding_header_value coding))
       (clear_compression_headers headers)) "Accept-Encoding")).

Lemma coded_vary coding n headers name :
  varies_on (coded_headers coding n headers) name ↔
  varies_on (merge_vary_header (hm_insert "content-encoding" (hv_from_static (coding_header_value coding))
       (clear_compression_headers headers)) "Accept-Encoding") name.
Proof.
  unfold varies_on, vary_items, hm_get_all_str, coded_headers.
  by rewrite hm_get_all_remove_ne, set_length_other.
Qed.

Lemma coded_varies coding n headers :
  varies_on (coded_headers coding n headers) "Accept-Encoding" ∧
  ∀ name, varies_on headers name → varies_on (coded_headers coding n headers) name.
Proof.
  set (h := hm_insert "content-encoding" (hv_from_static (coding_header_value coding)) (clear_compression_headers headers)).
  destruct (merge_vary_spec h "Accept-Encoding") as [H1 H2]; [by split_and!|]. split; [by apply coded_vary|].
  intros name Hn. apply coded_vary, H2. revert Hn. unfold varies_on, vary_items, hm_get_all_str, h.
  rewrite hm_get_all_insert_ne, cleared_other; [done|set_solver|done].
Qed.

Lemma coded_encoding coding n headers :
  hm_get_all (coded_headers coding n headers) "content-encoding" = [hv_from_static (coding_header_value coding)].
Proof.
  unfold coded_headers. rewrite hm_get_all_remove_ne, set_length_other, merge_vary_other by done. apply hm_get_all_insert_eq.
Qed.

Lemma coded_length coding n headers : says_length (coded_headers coding n headers) n.
Proof.
  unfold coded_headers, says_length. rewrite hm_get_all_remove_ne by done. apply length_said.
Qed.

Lemma coded_other coding n headers :
  same_headers_but ["content-encoding"; "content-length"; "vary"; "accept-ranges"]%string headers (coded_headers coding n headers).
Proof.
  intros name Hn. unfold coded_headers.
  rewrite hm_get_all_remove_ne, set_length_other, merge_vary_other, hm_get_all_insert_ne, cleared_other;
    [done|set_solver..].
Qed.

Lemma not_contained headers name : hm_contains_key headers name = false → hm_get_all headers name = [].
Proof. unfold hm_contains_key. by destruct (hm_get_all headers name). Qed.

Lemma collected_spec method request_headers options exact response coding :
  collected_for method request_headers options exact response = Some coding →
  preferred_response_encoding request_headers = Some coding ∧ str_eqb method "HEAD" = false ∧
  response_is_eligible (rsp_headers response) (rsp_status response) options = true.
Proof.
  unfold collected_for. destruct (response_compression_disabled options); [done|].
  destruct (preferred_response_encoding request_headers) as [c|]; [|done]. cbn [mbind option_bind].
  destruct (str_eqb method "HEAD"); [done|]. destruct (response_is_eligible _ _ _); [|done]. cbn [negb].
  destruct (compression_candidate_length _ _ _) as [length|]; [|done]. cbn [mbind option_bind].
  destruct (_ || _); [done|]. by intros [= ->].
Qed.

(** C33.  Compression changes how a response is written and not what it says.  A
    response that can be collected keeps its status and is passed on as it is,
    or with the length of its own body for a length and no coding, or in a coding
    the client asked for, from which a decoder reads the same bytes; the coded
    response says so, is shorter than the original, says its length, lists
    Accept-Encoding in Vary and all that was listed there before, offers no
    ranges, and was neither coded nor partial before, nor the answer to a HEAD.
    No other header changes.  A response that fails while it is collected becomes
    an empty error that says its length. *)
Theorem compressed_response_reads_the_same (method : string) (request_headers : HeaderMap)
    (options : ResponseCompressionOptions) (exact : option Z) (response : HttpResponse) :
  reads_the_same method request_headers response
    (maybe_encode_response compress_bytes method request_headers options exact response).
Proof.
  unfold maybe_encode_response. destruct (collected_for _ _ _ _ _) as [coding|] eqn:Hcoll; [|apply unchanged_reads_the_same].
  apply collected_spec in Hcoll as (Hcoding & Hhead & Heligible).
  destruct (collect_bytes (rsp_body response)) as [data|e] eqn:Hd.
  2: { unfold reads_the_same. rewrite Hd. right. split_and!; [done|done|apply length_said]. }
  destruct (compress_bytes coding data) as [coded|] eqn:Hc; [|by apply buffered_reads_the_same].
  destruct (len coded <? len data) eqn:Hlen; [|by apply buffered_reads_the_same].
  unfold reads_the_same. rewrite Hd. split; [done|]. exists (Some coding). cbn [with_parts rsp_body rsp_headers].
  fold (coded_headers coding (len coded) (rsp_headers response)).
  split; [exists coded; split; [apply collect_full|by eapply decompress_compressed]|]. split; [done|].
  unfold response_is_eligible in Heligible.
  destruct (_ || (rsp_status response =? 304)); [done|].
  destruct ((rsp_status response =? 206) || _ || _) eqn:Hp in Heligible; [done|].
  apply orb_false_iff in Hp as [[H206 _]%orb_false_iff Henc]. split_and!.
  - apply coded_encoding.
  - exists coded. split_and!; [apply collect_full|by apply Z.ltb_lt|apply coded_length].
  - exact (proj1 (coded_varies _ _ _)).
  - exact (proj2 (coded_varies _ _ _)).
  - apply hm_get_all_remove_eq.
  - apply coded_other.
  - by apply not_contained.
  - by apply Z.eqb_neq.
  - intros ->. done.
Qed.
End Read.
End Compression.

(** ** A concrete response *)

(** Runs of one byte, as a byte and their length: an encoder for the samples. *)
Definition toy_compress (coding : ContentCoding) (data : bytes) : option bytes :=
  match data with
  | b :: _ => if forallb (Z.eqb b) data then Some [b; len data] else None
  | [] => None
  end.
Definition toy_decompress (coding : ContentCoding) (coded : bytes) : option bytes :=
  match coded with [b; n] => Some (replicate (Z.to_nat n) b) | _ => None end.

Lemma toy_reads coding data coded : toy_compress coding data = Some coded → toy_decompress coding coded = Some data.
Proof.
  unfold toy_compress. destruct data as [|b data]; [done|]. destruct (forallb (Z.eqb b) (b :: data)) eqn:Hall; [|done].
  intros [= <-]. unfold toy_decompress, len. rewrite Nat2Z.id. f_equal. apply replicate_as_elem_of.
  split; [done|]. intros x Hx%list_elem_of_In. rewrite forallb_forall in Hall.
  by apply Hall, Z.eqb_eq in Hx.
Qed.

Definition plain_headers : @HeaderMap RefHttp.api := [("content-type", "text/html"); ("content-length", "300")]%string.
Definition plain_response : HttpResponse (HTTP := RefHttp.api) :=
  mkResponse 200 plain_headers [ReadyFrame (DataFrame (replicate 100 65)); Pending; ReadyFrame (DataFrame (replicate 200 65))] None.
Definition gzip_only : @HeaderMap RefHttp.api := [("accept-encoding", "br;q=0, gzip;q=0.5")]%string.

Theorem compressed_response_reads_the_same_witness :
  reads_the_same (HTTP := RefHttp.api) toy_decompress "GET" gzip_only plain_response
    (maybe_encode_response toy_compress "GET" gzip_only default_compression None plain_response).
Proof.
  apply (compressed_response_reads_the_same (HTTP := RefHttp.api) (Laws := RefHttp.laws) toy_compress toy_decompress toy_reads).
Defined.

Example gzip_is_chosen :
  (λ r, (collect_bytes (rsp_body r), hm_get_all (rsp_headers r) "content-encoding"%string,
         hm_get_all (rsp_headers r) "vary"%string, hm_get_all (rsp_headers r) "content-length"%string))
    (maybe_encode_response (HTTP := RefHttp.api) toy_compress "GET" gzip_only default_compression None plain_response) =
  (Ok [65; 300], ["gzip"%string], ["Accept-Encoding"%string], ["2"%string]).
Proof. vm_compute. reflexivity. Qed.

(** A quality that is no number drops the coding. *)
Example odd_qualities :
  map (λ v, preferred_response_encoding (HTTP := RefHttp.api) [("accept-encoding"%string, v)])
    ["br;q=1, gzip;q=0.9"; "br;q=x, gzip;q=0.1"; "*;q=0.1, br;q=0"; "gzip;q=nan"; "br;q=0.00000000001"]%string =
  [Some Brotli; Some Gzip; Some Gzip; None; Some Brotli].
Proof. vm_compute. reflexivity. Qed.
