(* ===== verification/RequestBody.v ===== *)
(** * The body of a request on its way upstream

    Models [crates/rginx-http/src/proxy/request_body]: the guards around the
    client's body, when it is collected for replay and when it is streamed
    ([prepare.rs]), the body that is replayed ([replay.rs]), the task that relays
    a streamed body ([streaming.rs]) and the errors ([model.rs], [limits.rs]).

    A client's body is the polls it will give, the instants at which they happen
    and its size hint.  Errors are those of Body.v, which have no source chain of
    their own. *)

From S2P Require Import Prelude RustStr External Body BodyLimits Upstream Template CacheConfig ProxyHeader Route RequestTarget Resolver ClientIp RequestHeaders GrpcWeb.

(** Source: crates/rginx-http/src/proxy/request_body/replay.rs:48-53 (is_idempotent_method) *)
Definition is_idempotent_method (method : string) : bool :=
  existsb (str_eqb method) ["GET"; "HEAD"; "PUT"; "DELETE"; "OPTIONS"; "TRACE"]%string.

(** Source: crates/rginx-http/src/proxy/request_body/limits.rs:1-15 (request_body_limit_error) *)
Definition request_body_limit_error (error : BoxError) : option Z :=
  match error with RequestBodyLimitError limit => Some limit | _ => None end.

(** Source: crates/rginx-http/src/proxy/request_body/model.rs:26-29 (PrepareRequestError) *)
Inductive PrepareRequestError : Type :=
| PayloadTooLarge (max_request_body_bytes : Z)
| OtherPrepareError (error : BoxError).

(** Source: crates/rginx-http/src/proxy/request_body/model.rs:36-42 (PrepareRequestError::boxed) *)
Definition prepare_error_boxed (error : BoxError) : PrepareRequestError :=
  match request_body_limit_error error with
  | Some limit => PayloadTooLarge limit
  | None => OtherPrepareError error
  end.

Section RequestBody.
Context {HTTP : HttpApi} {B64 : Base64Api}.
Notation FramePoll := (FramePoll BoxError).

(** Source: crates/rginx-http/src/proxy/request_body/model.rs:12-15 (PreparedRequestBody) *)
Inductive PreparedRequestBody : Type :=
| Replayable (body : bytes) (trailers : option HeaderMap)
| Streaming (body : option (list FramePoll)).

(** The client's body. *)
Record DownstreamBody : Type := mkDownstream {
  db_polls : list FramePoll;
  db_clock : list Z;
  db_size_hint : Z * option Z;
}.

(** [HttpBody] behind its guards: the polls, the size hint and
    [is_end_stream()]. *)
Record GuardedBody : Type := mkGuarded {
  gb_polls : list FramePoll;
  gb_size_hint : Z * option Z;
  gb_is_end_stream : bool;
}.

(** The translating bodies have the default hint. *)
(** Source: crates/rginx-http/src/proxy/request_body/prepare.rs:216-238 (downstream_request_body) *)
Definition downstream_request_body (body : DownstreamBody) (body_timeout : Z) (label : string)
    (grpc_web_mode : option GrpcWebMode) (max_request_body_bytes : option Z) : GuardedBody :=
  let n := length (db_clock body) in
  let idle_body := idle_new (db_polls body) body_timeout label in
  let idle := timed_polls idle_poll_frame (db_clock body) idle_body in
  let body :=
    match grpc_web_mode with
    | Some mode =>
        let inner := if mode_is_text mode then polls text_decode_poll_frame n (text_decode_new idle) else idle in
        let body := request_body_new inner in
        mkGuarded (polls request_poll_frame n body) (0, None) (request_is_end_stream body)
    | None => mkGuarded idle (db_size_hint body) (idle_is_end_stream idle_body)
    end in
  match max_request_body_bytes with
  | Some max_request_body_bytes =>
      let limited := max_bytes_new (gb_polls body) max_request_body_bytes in
      mkGuarded (polls max_bytes_poll_frame n limited) (max_bytes_size_hint (gb_size_hint body) limited)
        (max_bytes_is_end_stream (gb_is_end_stream body) limited)
  | None => body
  end.

(** [while let Some(frame) = body.frame().await]: the body and the trailers
    collected so far. *)
(** Source: crates/rginx-http/src/proxy/request_body/prepare.rs:185-214 (collect_request_body) *)
Fixpoint collect_request_body (body : list FramePoll) (collected : bytes) (trailers : option HeaderMap)
    : result PrepareRequestError (bytes * option HeaderMap) :=
  match body with
  | [] | ReadyEnd :: _ => Ok (collected, trailers)
  | Pending :: body | ReadyFrame OtherFrame :: body => collect_request_body body collected trailers
  | ReadyFrame (DataFrame data) :: body => collect_request_body body (collected ++ data) trailers
  | ReadyFrame (TrailersFrame frame_trailers) :: body =>
      collect_request_body body collected
        (Some match trailers with
              | Some existing => append_header_map existing frame_trailers
              | None => frame_trailers
              end)
  | ReadyError error :: _ => Err (prepare_error_boxed error)
  end.

(** Source: crates/rginx-http/src/proxy/request_body/prepare.rs:11-20 (PrepareRequestBodyConfig) *)
Record PrepareRequestBodyConfig : Type := mkPrepareConfig {
  pc_upstream_name : string;
  pc_method : string;
  pc_headers : HeaderMap;
  pc_body_timeout : Z;
  pc_max_replayable_request_body_bytes : Z;
  pc_max_request_body_bytes : option Z;
  pc_request_buffering : RouteBufferingPolicy;
  pc_grpc_web_mode : option GrpcWebMode;
}.

Definition guarded_body (body : DownstreamBody) (config : PrepareRequestBodyConfig) : GuardedBody :=
  downstream_request_body body (pc_body_timeout config)
    ("upstream `" +:+ pc_upstream_name config +:+ "` request body") (pc_grpc_web_mode config)
    (pc_max_request_body_bytes config).

Definition collect_for_replay (body : GuardedBody) : result PrepareRequestError PreparedRequestBody :=
  rmap (λ '(body, trailers), Replayable body trailers) (collect_request_body (gb_polls body) [] None).

(** Source: crates/rginx-http/src/proxy/request_body/prepare.rs:128-183 (prepare_request_body) *)
Definition prepare_request_body (body : DownstreamBody) (config : PrepareRequestBodyConfig)
    : result PrepareRequestError PreparedRequestBody :=
  let preserves_trailers := is_some (preserved_te_trailers_value (pc_headers config)) in
  let? _ := match pc_max_request_body_bytes config with
            | Some limit => reject (limit <? fst (db_size_hint body)) (PayloadTooLarge limit)
            | None => Ok tt
            end in
  let body := guarded_body body config in
  if gb_is_end_stream body then
    Ok match pc_request_buffering config with
       | BufferingOff => Streaming (Some (gb_polls body))
       | BufferingOn | BufferingAuto => Replayable [] None
       end
  else if is_some (pc_grpc_web_mode config) then collect_for_replay body
  else
    match pc_request_buffering config with
    | BufferingOff => Ok (Streaming (Some (gb_polls body)))
    | BufferingOn => if preserves_trailers then Ok (Streaming (Some (gb_polls body))) else collect_for_replay body
    | BufferingAuto =>
        if negb preserves_trailers && is_idempotent_method (pc_method config) &&
           match snd (gb_size_hint body) with
           | Some upper => upper <=? pc_max_replayable_request_body_bytes config
           | None => false
           end
        then collect_for_replay body
        else Ok (Streaming (Some (gb_polls body)))
    end.
End RequestBody.

Section Sending.
Context {HTTP : HttpApi} {B64 : Base64Api}.
Notation FramePoll := (FramePoll BoxError).

(** ** The body that is replayed *)

(** Source: crates/rginx-http/src/proxy/request_body/replay.rs:3-6 (ReplayableRequestBody) *)
Record ReplayableRequestBody : Type := mkReplayable {
  rq_body : option bytes;
  rq_trailers : option HeaderMap;
}.

(** Source: crates/rginx-http/src/proxy/request_body/replay.rs:9-11 (ReplayableRequestBody::new) *)
Definition replayable_new (body : bytes) (trailers : option HeaderMap) : ReplayableRequestBody :=
  mkReplayable (Some body) trailers.

(** Source: crates/rginx-http/src/proxy/request_body/replay.rs:18-35 (ReplayableRequestBody::poll_frame) *)
Definition replayable_poll_frame (b : ReplayableRequestBody) : FramePoll * ReplayableRequestBody :=
  match rq_body b with
  | Some ((_ :: _) as body) => (ReadyFrame (DataFrame body), mkReplayable None (rq_trailers b))
  | _ =>
      match rq_trailers b with
      | Some trailers => (ReadyFrame (TrailersFrame trailers), mkReplayable None None)
      | None => (ReadyEnd, mkReplayable None None)
      end
  end.

(** Source: crates/rginx-http/src/proxy/request_body/replay.rs:37-39 (ReplayableRequestBody::is_end_stream) *)
Definition replayable_is_end_stream (b : ReplayableRequestBody) : bool :=
  match rq_body b with Some (_ :: _) => false | _ => true end && negb (is_some (rq_trailers b)).

(** Source: crates/rginx-http/src/proxy/request_body/replay.rs:41-45 (ReplayableRequestBody::size_hint) *)
Definition replayable_size_hint (b : ReplayableRequestBody) : Z := match rq_body b with Some body => len body | None => 0 end.

(** ** The relay *)

(** [io::Error::new(kind, text)] and [io::Error::other(text)]: the errors of
    Body.v are their own copies. *)
(** Source: crates/rginx-http/src/proxy/request_body/streaming.rs:85-95 (clone_box_error) *)
Definition clone_box_error (error : BoxError) : BoxError :=
  match request_body_limit_error error with
  | Some limit => RequestBodyLimitError limit
  | None => error
  end.

(** The relay task: what it sends, whoever still receives it, and how it ends.
    Waiting for the body and for room in the channel is not told apart. *)
(** Source: crates/rginx-http/src/proxy/request_body/streaming.rs:55-83 (relay_streaming_request_body) *)
Fixpoint relay_streaming_request_body (body : list FramePoll) : list FramePoll * result BoxError () :=
  match body with
  | [] | ReadyEnd :: _ => ([], Ok tt)
  | Pending :: body => relay_streaming_request_body body
  | ReadyFrame (TrailersFrame trailers) :: _ => ([ReadyFrame (TrailersFrame trailers)], Ok tt)
  | ReadyFrame frame :: body =>
      let '(sent, result) := relay_streaming_request_body body in (ReadyFrame frame :: sent, result)
  | ReadyError error :: _ => ([ReadyError (clone_box_error error)], Err (clone_box_error error))
  end.

(** Source: crates/rginx-http/src/proxy/request_body/streaming.rs:4-7 (RelayedRequestBody) *)
Record RelayedRequestBody : Type := mkRelayed {
  ry_receiver : list FramePoll;
  ry_done : bool;
}.

(** Source: crates/rginx-http/src/proxy/request_body/streaming.rs:10-12 (RelayedRequestBody::new) *)
Definition relayed_new (receiver : list FramePoll) : RelayedRequestBody := mkRelayed receiver false.

(** The receiver's polls: [ReadyEnd] once the sender is gone. *)
(** Source: crates/rginx-http/src/proxy/request_body/streaming.rs:19-44 (RelayedRequestBody::poll_frame) *)
Definition relayed_poll_frame (b : RelayedRequestBody) : FramePoll * RelayedRequestBody :=
  if ry_done b then (ReadyEnd, b)
  else
    let '(p, receiver) := next_poll (ry_receiver b) in
    match p with
    | ReadyFrame frame =>
        (ReadyFrame frame,
         mkRelayed receiver match frame with TrailersFrame _ => true | _ => false end)
    | ReadyError error => (ReadyError error, mkRelayed receiver true)
    | ReadyEnd => (ReadyEnd, mkRelayed receiver true)
    | Pending => (Pending, mkRelayed receiver false)
    end.

(** ** What is sent *)

(** Polls by a client that stops at the end. *)
Fixpoint received (l : list FramePoll) : list FramePoll :=
  match l with
  | [] | ReadyEnd :: _ => []
  | p :: l => if terminal p then [p] else p :: received l
  end.

(** An upstream that polls the relayed body sees the client's frames, in order,
    up to the first error or the trailers; only the waits may differ. *)
Lemma relay_sends body :
  (relay_streaming_request_body body).1 =
  map (λ p, match p with ReadyError e => ReadyError (clone_box_error e) | _ => p end) (events (received body)).
Proof.
  induction body as [|p body IH]; [done|]. destruct p as [| |[d|t|]|e]; try done; unfold events in *; simpl;
    rewrite ?filter_cons; simpl; try done.
  all: destruct (relay_streaming_request_body body) as [sent r]; simpl in *; by rewrite IH.
Qed.

Lemma relay_result body :
  (relay_streaming_request_body body).2 = Ok tt ∨
  ∃ error, (relay_streaming_request_body body).2 = Err (clone_box_error error) ∧ ReadyError error ∈ body.
Proof.
  induction body as [|p body IH]; [by left|]. destruct p as [| |[d|t|]|e]; simpl; try (by left); try (right; eexists; split; [done|by left]).
  - destruct IH as [IH|(e & He & Hin)]; [by left|right; exists e; split; [done|by right]].
  - destruct (relay_streaming_request_body body) as [sent r]; simpl in *.
    destruct IH as [IH|(e & He & Hin)]; [by left|right; exists e; split; [done|by right]].
  - destruct (relay_streaming_request_body body) as [sent r]; simpl in *.
    destruct IH as [IH|(e & He & Hin)]; [by left|right; exists e; split; [done|by right]].
Qed.

(** What is replayed is what was collected. *)
Lemma replayed_body body trailers n :
  (2 ≤ n)%nat →
  received (polls replayable_poll_frame n (replayable_new body trailers)) =
  match body with [] => [] | _ => [ReadyFrame (DataFrame body)] end ++
  match trailers with Some t => [ReadyFrame (TrailersFrame t)] | None => [] end.
Proof.
  destruct n as [|[|n]]; [lia|lia|]. intros _. by destruct body, trailers.
Qed.

Lemma collect_delivers polls0 collected trailers body trailers' :
  collect_request_body polls0 collected trailers = Ok (body, trailers') →
  ∃ k, body = collected ++ delivered (take k polls0) ∧ Forall (λ p, ¬ is_error p) (take k polls0).
Proof.
  revert collected trailers. induction polls0 as [|p l IH]; intros collected trailers; simpl.
  { intros [= -> ->]. exists 0%nat. by rewrite app_nil_r. }
  destruct p as [| |[d|t|]|e]; try done.
  - intros (k & -> & Hk)%IH. exists (S k). split; [done|]. by constructor; [intros []|].
  - intros [= -> ->]. exists 0%nat. by rewrite app_nil_r.
  - intros (k & -> & Hk)%IH. exists (S k). simpl. rewrite delivered_cons, app_assoc. split; [done|]. by constructor; [intros []|].
  - intros (k & -> & Hk)%IH. exists (S k). split; [done|]. by constructor; [intros []|].
  - intros (k & -> & Hk)%IH. exists (S k). split; [done|]. by constructor; [intros []|].
Qed.

Lemma delivered_prefix (l : list FramePoll) k : len (delivered (take k l)) ≤ len (delivered l).
Proof. rewrite <-(take_drop k l) at 2. rewrite delivered_app, len_app. pose proof (len_nonneg (delivered (drop k l))). lia. Qed.
End Sending.

(** ** The request for a peer *)

Section Build.
Context {HTTP : HttpApi} {B64 : Base64Api} {URI : UriApi}.
(** [Uri::builder()]: whether a scheme, an authority and a path make a URI. *)
Context (uri_builds : string → string → string → bool).
Notation FramePoll := (FramePoll BoxError).

(** The client's request; of its URI the path and the query are read. *)
Record DownstreamRequest : Type := mkRequest {
  dr_method : string;
  dr_version : HttpVersion;
  dr_path : string;
  dr_query : option string;
  dr_headers : HeaderMap;
  dr_body : DownstreamBody;
}.

(** Source: crates/rginx-http/src/proxy/request_body/model.rs:3-10 (PreparedProxyRequest) *)
Record PreparedProxyRequest : Type := mkPrepared {
  ppr_method : string;
  ppr_uri : string * option string;
  ppr_headers : HeaderMap;
  ppr_body : PreparedRequestBody;
  ppr_peer_failover_enabled : bool;
  ppr_wait_for_streaming_body : bool;
}.

(** Source: crates/rginx-http/src/proxy/request_body/prepare.rs:23-58 (PreparedProxyRequest::from_request) *)
Definition from_request (request : DownstreamRequest) (upstream_name : string)
    (request_body_read_timeout : option Z) (write_timeout max_replayable_request_body_bytes : Z)
    (max_request_body_bytes : option Z) (request_buffering : RouteBufferingPolicy)
    (grpc_web_mode : option GrpcWebMode) : result PrepareRequestError PreparedProxyRequest :=
  let body_timeout := default write_timeout request_body_read_timeout in
  let? prepared_body := prepare_request_body (dr_body request)
      (mkPrepareConfig upstream_name (dr_method request) (dr_headers request) body_timeout
         max_replayable_request_body_bytes max_request_body_bytes request_buffering grpc_web_mode) in
  Ok (mkPrepared (dr_method request) (dr_path request, dr_query request) (dr_headers request) prepared_body
        match request_buffering with BufferingOff => false | _ => true end (is_some max_request_body_bytes)).

(** Source: crates/rginx-http/src/proxy/request_body/prepare.rs:60-64 (PreparedProxyRequest::can_failover) *)
Definition can_failover (request : PreparedProxyRequest) : bool :=
  ppr_peer_failover_enabled request && is_idempotent_method (ppr_method request) &&
  match ppr_body request with Replayable _ _ => true | Streaming _ => false end.

(** Source: crates/rginx-http/src/proxy/request_body/replay.rs:55-61 (can_retry_peer_request) *)
Definition can_retry_peer_request (prepared_request : PreparedProxyRequest) (peer_count attempt_index : nat) : bool :=
  can_failover prepared_request && (attempt_index + 1 <? peer_count)%nat.

(** The completion is the result the relay task will send. *)
(** Source: crates/rginx-http/src/proxy/request_body/model.rs:17-20 (BuiltUpstreamRequest) *)
Record BuiltUpstreamRequest : Type := mkBuilt {
  bu_method : string;
  bu_version : HttpVersion;
  bu_uri : string * string * string;
  bu_headers : HeaderMap;
  bu_body : list FramePoll;
  bu_body_completion : option (result BoxError ());
}.

Inductive BuildError : Type := UriBuildError | HeaderBuildError | BodyGoneError.

(** The polls of a replayed body, to its end. *)
Definition replayed (body : bytes) (trailers : option HeaderMap) : list FramePoll :=
  polls replayable_poll_frame 3 (replayable_new body trailers).

(** A body that is relayed is known by what the relay sends; when the upstream
    polls it, it sees these frames, and waits in between (RelayedRequestBody). *)
(** Source: crates/rginx-http/src/proxy/request_body/prepare.rs:66-125 (PreparedProxyRequest::build_for_peer) *)
Definition build_for_peer (peer : ResolvedUpstreamPeer) (target : ProxyTarget) (client_address : ClientAddress)
    (forwarded_proto : string) (grpc_web_mode : option GrpcWebMode) (request : PreparedProxyRequest)
    : result BuildError (BuiltUpstreamRequest * PreparedProxyRequest) :=
  let original_host := hm_get (ppr_headers request) "host" in
  let '(path, query) := ppr_uri request in
  let path_and_query := proxy_path_and_query path query (tgt_strip_prefix target) in
  let? _ := reject (negb (uri_builds (res_scheme peer) (res_upstream_authority peer) path_and_query)) UriBuildError in
  let? headers :=
    match sanitize_request_headers (ppr_headers request) (res_upstream_authority peer) original_host client_address
            forwarded_proto (tgt_preserve_host target) (tgt_proxy_set_headers target) grpc_web_mode with
    | Ok headers => Ok headers
    | Err _ => Err HeaderBuildError
    end in
  let protocol := up_protocol (tgt_upstream target) in
  let headers := remove_redundant_host_header headers peer protocol in
  let? sent :=
    match ppr_body request with
    | Replayable body trailers => Ok (replayed body trailers, None, ppr_body request)
    | Streaming None => Err BodyGoneError
    | Streaming (Some body) =>
        Ok (if ppr_wait_for_streaming_body request
            then let '(sent, completion) := relay_streaming_request_body body in
                 (sent, Some completion, Streaming None)
            else (body, None, Streaming None))
    end in
  let '(body, body_completion, rest) := sent in
  Ok (mkBuilt (ppr_method request) (upstream_request_version protocol)
        (res_scheme peer, res_upstream_authority peer, path_and_query) headers body body_completion,
      mkPrepared (ppr_method request) (ppr_uri request) (ppr_headers request) rest
        (ppr_peer_failover_enabled request) (ppr_wait_for_streaming_body request)).
End Build.

(** ** Limits *)

Section Limits.
Context {HTTP : HttpApi} {B64 : Base64Api}.
Notation FramePoll := (FramePoll BoxError).

(** The size limit bounds what any body delivers through it. *)
Lemma max_bytes_delivered n inner limit read done :
  0 ≤ read ≤ limit →
  read + len (delivered (polls max_bytes_poll_frame n (mkMaxBytes inner limit read done))) ≤ limit.
Proof.
  revert inner read done. induction n as [|n IH]; intros inner read done Hread; [simpl; unfold len; simpl; lia|].
  cbn [polls]. unfold max_bytes_poll_frame at 1. cbn [mb_done mb_inner mb_max_request_body_bytes mb_bytes_read].
  destruct done; [rewrite delivered_cons; by apply IH|]. destruct (next_poll inner) as [p inner'].
  destruct p as [| |[d|t|]|e]; try (rewrite delivered_cons; by apply IH).
  destruct (_ <? _) eqn:Hd; rewrite delivered_cons; [by apply IH|]. apply Z.ltb_ge in Hd. unfold sat_sub in Hd.
  specialize (IH inner' (read + len d) false). pose proof (len_nonneg d). cbn [poll_bytes]. rewrite len_app. lia.
Qed.

Lemma limited_body_delivers body timeout label mode limit k :
  0 ≤ limit →
  len (delivered (take k (gb_polls (downstream_request_body body timeout label mode (Some limit))))) ≤ limit.
Proof.
  intros Hl. etransitivity; [apply delivered_prefix|]. unfold downstream_request_body. simpl.
  apply (max_bytes_delivered _ _ limit 0 false). lia.
Qed.

(** The idle timeout and the size limit, as the source nests them. *)
Definition request_cut (timeout : Z) (label : string) (limit : option Z) (clock : list Z) (stream : list FramePoll)
    (k : nat) (r : FramePoll) : Prop :=
  stalled timeout clock stream k ∧ r = ReadyError (TimedOutError (stall_message label timeout)) ∨
  ∃ limit', limit = Some limit' ∧ over limit' stream k ∧ r = ReadyError (RequestBodyLimitError limit').

Lemma over_take limit stream stream' k :
  take (S k) stream = take (S k) stream' → over limit stream k ↔ over limit stream' k.
Proof.
  intros H. unfold over. assert (stream !! k = stream' !! k) as ->; [|by rewrite H].
  rewrite <-(lookup_take_lt stream (S k)), <-(lookup_take_lt stream' (S k)) by lia. by rewrite H.
Qed.

Lemma stalled_not_over timeout clock stream k limit : stalled timeout clock stream k → ¬ over limit stream k.
Proof. intros (j & s & t & _ & _ & _ & _ & Hk & _) (d & Hd & _). congruence. Qed.

Lemma plain_request_body_cuts body timeout label limit :
  monotone (db_clock body) → (∀ l, limit = Some l → 0 ≤ l) →
  let stream := fused (length (db_clock body)) (db_polls body) in
  cuts (request_cut timeout label limit (db_clock body) stream) stream
    (gb_polls (downstream_request_body body timeout label None limit)).
Proof.
  intros Hm Hlim stream. set (clock := db_clock body) in *.
  pose proof (idle_timeout_cuts clock (db_polls body) timeout label Hm) as Hidle. fold stream in Hidle.
  unfold downstream_request_body. simpl. fold clock. set (idle := timed_polls _ _ _) in *.
  destruct limit as [limit|]; simpl; [|eapply cuts_ext; [|exact Hidle]; intros k r _ _; unfold request_cut; naive_solver].
  assert (length idle = length clock) as Hlen by apply length_timed_polls.
  assert (settled idle) as Hset by (unfold idle; rewrite idle_is_guard; apply guard_settled).
  pose proof (max_bytes_cuts (length clock) idle limit (Hlim _ eq_refl)) as Hmax.
  rewrite <-Hlen, fused_settled, Hlen in Hmax by done.
  eapply cuts_ext; [|eapply (cuts_compose _ _ (λ k r, over limit stream k ∧ r = ReadyError (RequestBodyLimitError limit)));
                     [exact Hidle|exact Hmax|..]].
  - intros k r _ _. unfold request_cut. split.
    + intros [[Hs ->]|[_ [Ho ->]]]; [by left|]. right. by exists limit.
    + intros [[Hs ->]|(l & [= <-] & Ho & ->)]; [by left|]. right. split; [|done]. intros r' [Hs _].
      by eapply stalled_not_over.
  - intros k r Ht. pose proof (over_take limit idle stream k Ht) as Ho. simpl. tauto.
  - intros k r r' Hk [_ ->] [(d & Hd & _) _]. congruence.
  - intros k r Hk [(d & Hd & _) _]. congruence.
Qed.
End Limits.

(** ** What reaches a peer *)

Section Sent.
Context {HTTP : HttpApi} {B64 : Base64Api} {URI : UriApi} (uri_builds : string → string → string → bool).
Notation FramePoll := (FramePoll BoxError).

Lemma relayed_bytes (l : list FramePoll) n :
  ∃ k, delivered (take n (relay_streaming_request_body l).1) = delivered (take k l).
Proof.
  revert n. induction l as [|p l IH]; intros n; [exists 0%nat; by destruct n|]. destruct n as [|n]; [by exists 0%nat|].
  destruct p as [| |[d|t|]|e]; simpl.
  - destruct (IH (S n)) as [k Hk]. by exists (S k).
  - by exists 0%nat.
  - destruct (relay_streaming_request_body l) as [sent r]; simpl in *. destruct (IH n) as [k Hk]. exists (S k). simpl.
    by rewrite !delivered_cons, Hk.
  - exists 1%nat. simpl. by destruct n.
  - destruct (relay_streaming_request_body l) as [sent r]; simpl in *. destruct (IH n) as [k Hk]. by exists (S k).
  - exists 1%nat. simpl. by destruct n.
Qed.

(** What a reader gets of a body: the polls up to its end or its first error, of
    these the bytes, the trailers and the error. *)
Fixpoint upto_end (l : list FramePoll) : list FramePoll :=
  match l with
  | [] | ReadyEnd :: _ => []
  | ReadyError e :: _ => [ReadyError e]
  | p :: l => p :: upto_end l
  end.
Definition body_bytes (l : list FramePoll) : bytes := delivered (upto_end l).
Definition body_trailers (l : list FramePoll) : list HeaderMap :=
  omap (λ p, match p with ReadyFrame (TrailersFrame t) => Some t | _ => None end) (upto_end l).
Definition body_error (l : list FramePoll) : option BoxError :=
  head (omap (λ p, match p with ReadyError e => Some e | _ => None end) (upto_end l)).

(** Trailers that come in several frames are one map. *)
Definition add_trailers (existing : option HeaderMap) (trailers : HeaderMap) : option HeaderMap :=
  Some match existing with Some existing => append_header_map existing trailers | None => trailers end.
Definition merged (trailers : list HeaderMap) : option HeaderMap := foldl add_trailers None trailers.

Record same_body (sent guarded : list FramePoll) : Prop := {
  sb_bytes : body_bytes sent = body_bytes guarded;
  sb_trailers : merged (body_trailers sent) = merged (body_trailers guarded);
  sb_error : body_error sent = body_error guarded;
}.

Lemma collected_reads l collected trailers body trailers' :
  collect_request_body l collected trailers = Ok (body, trailers') →
  body = collected ++ body_bytes l ∧ trailers' = foldl add_trailers trailers (body_trailers l) ∧ body_error l = None.
Proof.
  revert collected trailers. unfold body_bytes, body_trailers, body_error.
  induction l as [|p l IH]; intros collected trailers; cbn [collect_request_body upto_end].
  { intros [= <- <-]. by rewrite app_nil_r. }
  destruct p as [| |[d|t|]|e]; cbn [upto_end omap list_omap foldl head]; [..|done].
  - intros H%IH. exact H.
  - intros [= <- <-]. by rewrite app_nil_r.
  - intros (-> & H)%IH. split; [|exact H]. by rewrite delivered_cons, app_assoc.
  - intros H%IH. exact H.
  - intros H%IH. exact H.
Qed.

Lemma replayed_reads b t :
  body_bytes (replayed b t) = b ∧ merged (body_trailers (replayed b t)) = t ∧ body_error (replayed b t) = None.
Proof.
  unfold body_bytes, body_trailers, body_error, merged. destruct b as [|x b], t as [t|]; cbn; try done.
  all: unfold delivered; cbn; by rewrite app_nil_r.
Qed.

(** The relay stops at the trailers, and nothing follows them. *)
Lemma relayed_reads l : settled l → same_body (relay_streaming_request_body l).1 l.
Proof.
  assert (Hcons : ∀ p l' l, match p with ReadyFrame (DataFrame _) | ReadyFrame OtherFrame => True | _ => False end →
    body_bytes l' = body_bytes l → body_trailers l' = body_trailers l → body_error l' = body_error l →
    body_bytes (p :: l') = body_bytes (p :: l) ∧ body_trailers (p :: l') = body_trailers (p :: l) ∧ body_error (p :: l') = body_error (p :: l)).
  { unfold body_bytes, body_trailers, body_error.
    intros p l' l0 Hp H1 H2 H3. destruct p as [| |[d|t|]|e]; try done; cbn [upto_end omap list_omap];
      by rewrite ?delivered_cons, ?H1, ?H2, ?H3. }
  intros Hs. enough (body_bytes (relay_streaming_request_body l).1 = body_bytes l ∧
    body_trailers (relay_streaming_request_body l).1 = body_trailers l ∧
    body_error (relay_streaming_request_body l).1 = body_error l) as (H1 & H2 & H3) by (split; congruence).
  induction l as [|p l IH]; [done|]. apply settled_cons in Hs as [Hl Hp]. specialize (IH Hl) as (H1 & H2 & H3).
  destruct p as [| |[d|t|]|e]; cbn [relay_streaming_request_body]; try done.
  - destruct (relay_streaming_request_body l) as [sent r]. cbn [fst] in *. by apply Hcons.
  - rewrite (Hp eq_refl). by destruct (length l).
  - destruct (relay_streaming_request_body l) as [sent r]. cbn [fst] in *. by apply Hcons.
  - by destruct e.
Qed.

(** A body that was just wrapped has not ended. *)
Lemma guarded_not_ended body timeout label mode limit :
  gb_is_end_stream (downstream_request_body body timeout label mode limit) = false.
Proof. by destruct mode, limit. Qed.

Lemma prepared_body_sent body config prepared :
  prepare_request_body body config = Ok prepared →
  match prepared with
  | Replayable b t =>
      collect_request_body (gb_polls (guarded_body body config)) [] None = Ok (b, t)
  | Streaming (Some l) => l = gb_polls (guarded_body body config)
  | Streaming None => False
  end.
Proof.
  unfold prepare_request_body. destruct (match pc_max_request_body_bytes config with Some _ => _ | None => _ end); [|done].
  cbn [rbind]. unfold guarded_body at 1. rewrite guarded_not_ended. set (g := guarded_body body config).
  assert (∀ prepared, collect_for_replay g = Ok prepared →
    match prepared with Replayable b t => collect_request_body (gb_polls g) [] None = Ok (b, t) | Streaming (Some l) => l = gb_polls g
    | Streaming None => False end) as Hcollect.
  { intros p. unfold collect_for_replay. destruct (collect_request_body _ _ _) as [[b t]|] eqn:Hc; [|done]. by intros [= <-]. }
  destruct (is_some (pc_grpc_web_mode config)); [apply Hcollect|].
  destruct (pc_request_buffering config); [destruct (_ && _)|destruct (is_some _)|];
    try apply Hcollect; by intros [= <-].
Qed.

Lemma replayed_bytes b t n : delivered (take n (replayed b t)) = b ∨ delivered (take n (replayed b t)) = [].
Proof.
  destruct n as [|n]; [by right|]. left. destruct b as [|x b], t as [t|], n as [|[|[|n]]]; unfold delivered; cbn; by rewrite ?app_nil_r, ?take_nil.
Qed.

Lemma built_body peer target client_address proto mode prepared built rest :
  build_for_peer uri_builds peer target client_address proto mode prepared = Ok (built, rest) →
  match ppr_body prepared with
  | Replayable b t => bu_body built = replayed b t ∧ ppr_body rest = ppr_body prepared
  | Streaming (Some l) =>
      bu_body built = (if ppr_wait_for_streaming_body prepared then (relay_streaming_request_body l).1 else l) ∧
      ppr_body rest = Streaming None
  | Streaming None => False
  end.
Proof.
  unfold build_for_peer. destruct (ppr_uri prepared) as [path query]. destruct (negb _); [done|]. cbn [reject rbind].
  destruct (sanitize_request_headers _ _ _ _ _ _ _ _); [|done]. cbn [rbind].
  destruct (ppr_body prepared) as [b t|[l|]]; cbn [rbind]; [by intros [= <- <-]| |done].
  destruct (ppr_wait_for_streaming_body prepared); [destruct (relay_streaming_request_body l)|]; cbn [rbind]; by intros [= <- <-].
Qed.

(** The body of a gRPC-Web request before the size limit: cut by the idle
    timeout, decoded and translated. *)
Definition translated_body (n : nat) (mode : GrpcWebMode) (idle : list FramePoll) : list FramePoll :=
  polls request_poll_frame n
    (request_body_new (if mode_is_text mode then polls text_decode_poll_frame n (text_decode_new idle) else idle)).

Lemma translated_request_body_cuts body timeout label mode limit :
  monotone (db_clock body) → (∀ l, limit = Some l → 0 ≤ l) →
  let n := length (db_clock body) in
  let stream := fused n (db_polls body) in
  let guarded := gb_polls (downstream_request_body body timeout label (Some mode) limit) in
  ∃ idle,
    cuts (λ k r, stalled timeout (db_clock body) stream k ∧ r = ReadyError (TimedOutError (stall_message label timeout))) stream idle ∧
    match limit with
    | None => guarded = translated_body n mode idle
    | Some l =>
        let translated := fused n (translated_body n mode idle) in
        cuts (λ k r, over l translated k ∧ r = ReadyError (RequestBodyLimitError l)) translated guarded
    end.
Proof.
  intros Hm Hlim n stream guarded. exists (timed_polls idle_poll_frame (db_clock body) (idle_new (db_polls body) timeout label)).
  split; [by apply idle_timeout_cuts|]. unfold guarded, downstream_request_body, translated_body. cbv zeta.
  destruct limit as [l|]; [|done]. apply max_bytes_cuts. by apply Hlim.
Qed.

Lemma limited_body_settled body timeout label mode limit :
  settled (gb_polls (downstream_request_body body timeout label mode (Some limit))).
Proof.
  unfold downstream_request_body. cbv zeta. cbn [gb_polls]. rewrite (max_bytes_is_guard (db_clock body)). apply guard_settled.
Qed.

(** C28.  What a peer is sent as the body of a request is the client's body
    behind its guards, all of it and nothing else, whether it was collected for
    replay, is relayed, or is streamed: the same bytes, the same trailers and the
    same error.  Its bytes never exceed the configured limit, and the guarded
    body is the client's own until it stalls for the idle timeout or passes the
    limit; a gRPC-Web body is translated in between, cut by a stall before that
    and by the limit after it.  A request that may fail over sends the next peer
    the same body again. *)
Theorem upstream_body_is_the_guarded_body (request : DownstreamRequest) (upstream_name proto : string)
    (read_timeout limit : option Z) (write_timeout max_replayable : Z) (buffering : RouteBufferingPolicy)
    (mode : option GrpcWebMode) (peer : ResolvedUpstreamPeer) (target : ProxyTarget) (client_address : ClientAddress)
    (prepared rest : PreparedProxyRequest) (built : BuiltUpstreamRequest)
    (Hprepared : from_request request upstream_name read_timeout write_timeout max_replayable limit buffering mode =
                 Ok prepared)
    (Hbuilt : build_for_peer uri_builds peer target client_address proto mode prepared = Ok (built, rest))
    (Hclock : monotone (db_clock (dr_body request)))
    (Hlimit : ∀ l, limit = Some l → 0 ≤ l) :
  let timeout := default write_timeout read_timeout in
  let label := ("upstream `" +:+ upstream_name +:+ "` request body")%string in
  let guarded := gb_polls (downstream_request_body (dr_body request) timeout label mode limit) in
  let n := length (db_clock (dr_body request)) in
  let stream := fused n (db_polls (dr_body request)) in
  same_body (bu_body built) guarded ∧
  (∀ l k, limit = Some l → len (delivered (take k (bu_body built))) ≤ l) ∧
  match mode with
  | None => cuts (request_cut timeout label limit (db_clock (dr_body request)) stream) stream guarded
  | Some mode =>
      ∃ idle,
        cuts (λ k r, stalled timeout (db_clock (dr_body request)) stream k ∧
                     r = ReadyError (TimedOutError (stall_message label timeout))) stream idle ∧
        match limit with
        | None => guarded = translated_body n mode idle
        | Some l =>
            let translated := fused n (translated_body n mode idle) in
            cuts (λ k r, over l translated k ∧ r = ReadyError (RequestBodyLimitError l)) translated guarded
        end
  end ∧
  (can_failover prepared = true → ∀ peer' built' rest',
     build_for_peer uri_builds peer' target client_address proto mode rest = Ok (built', rest') →
     bu_body built' = bu_body built).
Proof.
  intros timeout label guarded n stream. unfold from_request in Hprepared.
  destruct (prepare_request_body _ _) as [body|] eqn:Hp; [|done]. injection Hprepared as <-.
  apply prepared_body_sent in Hp. fold timeout in Hp. unfold guarded_body in Hp. simpl in Hp. fold label guarded in Hp.
  apply built_body in Hbuilt. simpl in Hbuilt. split; [|split; [|split]].
  - destruct body as [b t|[l|]]; [|subst l|done]; destruct Hbuilt as [-> _].
    + apply collected_reads in Hp as (-> & -> & He). destruct (replayed_reads (body_bytes guarded) (merged (body_trailers guarded))) as (H1 & H2 & H3).
      split; [exact H1|exact H2|etransitivity; [exact H3|done]].
    + destruct limit as [l|]; [|by split]. apply relayed_reads, limited_body_settled.
  - intros l k ->. pose proof (limited_body_delivers (dr_body request) timeout label mode l) as Hle. fold guarded in Hle.
    specialize (Hlimit l eq_refl). destruct body as [b t|[g|]]; [|subst g|done]; destruct Hbuilt as [-> _].
    + apply collect_delivers in Hp as (j & -> & _). cbn [app].
      destruct (replayed_bytes (delivered (take j guarded)) t k) as [->| ->]; [by apply Hle|done].
    + destruct (relayed_bytes guarded k) as [j Hj]. cbn [is_some]. rewrite Hj. by apply Hle.
  - destruct mode as [mode|]; [by apply translated_request_body_cuts|by apply plain_request_body_cuts].
  - intros Hfail peer' built' rest' Hb'. unfold can_failover in Hfail. simpl in Hfail.
    destruct body as [b t|]; [|by rewrite andb_false_r in Hfail]. destruct Hbuilt as [-> Hrest]. apply built_body in Hb'.
    rewrite Hrest in Hb'. by destruct Hb' as [-> _].
Qed.
End Sent.

(** ** Concrete requests *)

Definition sample_upload : @DownstreamBody RefHttp.api :=
  mkDownstream [ReadyFrame (DataFrame [1; 2; 3]); Pending; ReadyFrame (DataFrame [4; 5]); ReadyEnd] [0; 10; 20; 30; 40]
    (0, Some 5).
Definition shop_headers : @HeaderMap RefHttp.api := [("host", "shop.test")]%string.
Definition sample_put : @DownstreamRequest RefHttp.api :=
  mkRequest "PUT" Http11 "/api/file" (Some "v=1"%string) shop_headers sample_upload.
Definition sample_resolved : ResolvedUpstreamPeer :=
  mkResolved "http://a" "http://a" "http://a|10.0.0.1:80" "http://a" "http" "a:80" "10.0.0.1:80"
    (mkSocketAddr (V4 [10; 0; 0; 1]) 80) "a" 1 false None.
Definition sample_target : @ProxyTarget RefHttp.api :=
  mkProxyTarget "backend" demo_upstream false (Some "/api"%string) [].
Definition sample_prepared : @PreparedProxyRequest RefHttp.api :=
  mkPrepared "PUT" ("/api/file"%string, Some "v=1"%string) shop_headers (Replayable [1; 2; 3; 4; 5] None) true true.

Lemma sample_prepares :
  from_request (B64 := RefBase64.api) sample_put "backend" None 30000 65536 (Some 8) BufferingAuto None = Ok sample_prepared.
Proof. vm_cast_no_check (eq_refl (Ok sample_prepared : result PrepareRequestError _)). Qed.

Definition built_headers : @HeaderMap RefHttp.api :=
  [("host", "a:80"); ("x-forwarded-proto", "http"); ("x-forwarded-host", "shop.test"); ("x-forwarded-for", "192.0.2.7")]%string.
Definition sample_built : @BuiltUpstreamRequest RefHttp.api :=
  mkBuilt "PUT" Http11 ("http", "a:80", "/file?v=1")%string
    built_headers
    (replayed [1; 2; 3; 4; 5] None) None.

Lemma sample_builds :
  build_for_peer (λ _ _ _, true) sample_resolved sample_target sample_client "http" None sample_prepared =
  Ok (sample_built, sample_prepared).
Proof. vm_cast_no_check (eq_refl (Ok (sample_built, sample_prepared) : result BuildError _)). Qed.

Lemma upstream_body_is_the_guarded_body_witness :
  delivered (bu_body sample_built) = [1; 2; 3; 4; 5] ∧
  (∀ l n, Some 8 = Some l → len (delivered (take n (bu_body sample_built))) ≤ l).
Proof.
  split; [reflexivity|].
  apply (upstream_body_is_the_guarded_body (B64 := RefBase64.api) (λ _ _ _, true) sample_put "backend" "http" None (Some 8)
    30000 65536 BufferingAuto None sample_resolved sample_target sample_client sample_prepared sample_prepared sample_built
    sample_prepares sample_builds).
  - intros [|[|[|[|[|j]]]]] [|[|[|[|[|k]]]]] s t Hjk Hs Ht; simpl in *; simplify_eq; lia.
  - intros l [= <-]. lia.
Defined.

(** The limit is outside the gRPC-Web decoder, which keeps a frame until it is
    whole: what has been buffered is not bounded by it. *)
Example grpc_web_frame_passes_the_limit :
  let header : bytes := [0; 0; 0; 4; 0] in
  let chunk : bytes := replicate 100 7 in
  let body := mkDownstream (HTTP := RefHttp.api)
    [ReadyFrame (DataFrame header); ReadyFrame (DataFrame chunk); Pending; ReadyFrame (DataFrame chunk); Pending]
    [0; 1; 2; 3; 4] (0, None) in
  let mode := mkGrpcWebMode (HTTP := RefHttp.api) "application/grpc-web"%string "application/grpc"%string EncodingBinary in
  take 2 (gb_polls (downstream_request_body (B64 := RefBase64.api) body 30000 "body" (Some mode) (Some 8))) =
    [Pending; Pending] ∧
  length (rb_buffer (request_poll_frame (request_body_new (take 3 (db_polls body)))).2) = 105%nat.
Proof.
  intros header chunk body mode. split.
  - vm_cast_no_check (eq_refl ([Pending; Pending] : list (@FramePoll RefHttp.api BoxError))).
  - vm_cast_no_check (eq_refl 105%nat).
Qed.
