(* ===== verification/ForwardRequest.v ===== *)
(** * Preparing a request for forwarding

    Models [crates/rginx-http/src/proxy/forward/grpc.rs] (gRPC-Web modes and gRPC
    timeouts), [forward/error.rs] and [proxy/error_mapping.rs] (what an error
    says about who is to blame) and [forward/setup.rs] (everything that happens
    to a request before its first attempt).

    Request timeouts are in nanoseconds; those of an [Upstream] are in
    milliseconds. *)

From S2P Require Import Prelude RustStr External ConfigBase AccessLog ServerName Upstream Tls Template CacheConfig ProxyHeader Route Listener Stats StatsRecord RequestTarget Resolver ClientIp RequestHeaders GrpcWeb Body BodyLimits Health HttpResponse RequestBody.

(** ** Errors *)

(** One link of an error's source chain: what [downcast_ref] and [Display] show
    of it. *)
Record ErrorNode : Type := mkNode {
  en_invalid_io : bool;
  en_limit : option Z;
  en_text : string;
}.

Definition limit_text (limit : Z) : string :=
  "request body exceeded configured limit of " +:+ dec limit +:+ " bytes".

(** The errors of Body.v; any other one is taken not to be an [io::Error] of
    kind [InvalidData] or [InvalidInput]. *)
Definition box_error_node (error : BoxError) : ErrorNode :=
  match error with
  | InvalidDataError message => mkNode true None message
  | RequestBodyLimitError limit => mkNode false (Some limit) (limit_text limit)
  | TimedOutError message => mkNode false None message
  | OtherError message => mkNode false None message
  end.

Definition prepare_error_text (error : PrepareRequestError) : string :=
  match error with
  | PayloadTooLarge limit => limit_text limit
  | OtherPrepareError error => en_text (box_error_node error)
  end.

Definition prepare_error_chain (error : PrepareRequestError) : list ErrorNode :=
  mkNode false None (prepare_error_text error) ::
  match error with OtherPrepareError error => [box_error_node error] | PayloadTooLarge _ => [] end.

(** [Error::Server(text)], which has no source: the errors of a client, with
    their own chain written into the text. *)
Definition server_error_text (text : string) : string := "server error: " +:+ text.
Definition server_error_chain (text : string) : list ErrorNode := [mkNode false None (server_error_text text)].

(** Source: crates/rginx-http/src/proxy/forward/error.rs:7-30 (invalid_downstream_request_body_error) *)
Fixpoint invalid_downstream_request_body_error (chain : list ErrorNode) : bool :=
  match chain with
  | [] => false
  | candidate :: chain =>
      let message := en_text candidate in
      if en_invalid_io candidate then true
      else if contains_str "grpc-web" message && (contains_str "invalid" message || contains_str "incomplete" message)
      then true
      else invalid_downstream_request_body_error chain
  end.

(** [message.find(p)] and what follows it; what precedes it. *)
Fixpoint after_first (p s : string) : option string :=
  match strip_prefix p s with
  | Some rest => Some rest
  | None => match s with String _ s => after_first p s | EmptyString => None end
  end.

Fixpoint before_first (p s : string) : option string :=
  if starts_with p s then Some EmptyString
  else match s with String c s => (λ rest, String c rest) <$> before_first p s | EmptyString => None end.

(** Source: crates/rginx-http/src/proxy/forward/error.rs:49-57 (parse_request_body_limit_message) *)
Definition parse_request_body_limit_message (message : string) : option Z :=
  rest ← after_first "request body exceeded configured limit of " message;
  value ← before_first " bytes" rest;
  parse_u64 value.

(** Source: crates/rginx-http/src/proxy/forward/error.rs:32-47 (downstream_request_body_limit) *)
Fixpoint downstream_request_body_limit (chain : list ErrorNode) : option Z :=
  match chain with
  | [] => None
  | candidate :: chain =>
      match en_limit candidate with
      | Some limit => Some limit
      | None =>
          match parse_request_body_limit_message (en_text candidate) with
          | Some limit => Some limit
          | None => downstream_request_body_limit chain
          end
      end
  end.

(** Source: crates/rginx-http/src/proxy/error_mapping.rs:3-9 (upstream_tls_verify_label) *)
Definition upstream_tls_verify_label (tls : UpstreamTls) : string :=
  match tls with
  | NativeRoots => "native_roots"
  | CustomCa _ => "custom_ca"
  | Insecure => "insecure"
  end.

(** Source: crates/rginx-http/src/proxy/error_mapping.rs:11-30 (classify_upstream_tls_failure) *)
Definition classify_upstream_tls_failure (error : string) : string :=
  let error := to_ascii_lowercase error in
  if contains_str "unknown ca" error || contains_str "unknown issuer" error then "unknown_ca"
  else if contains_str "revoked" error then "certificate_revoked"
  else if contains_str "verify_depth" error || contains_str "exceeds configured verify_depth" error
  then "verify_depth_exceeded"
  else if contains_str "certificate verify failed" error || contains_str "invalid certificate" error ||
          contains_str "bad certificate" error || contains_str "not valid for name" error
  then "bad_certificate"
  else "-".

(** Whole milliseconds. *)
Definition as_millis (nanos : Z) : Z := nanos / 1000000.
Definition nanos (millis : Z) : Z := millis * 1000000.

(** Source: crates/rginx-http/src/proxy/forward/error.rs:85-87 (grpc_timeout_message) *)
Definition grpc_timeout_message (upstream_name : string) (timeout : Z) : string :=
  "upstream `" +:+ upstream_name +:+ "` timed out after " +:+ dec (as_millis timeout) +:+ " ms".

(** ** gRPC *)

Definition GRPC_CONTENT_TYPE_PREFIX : string := "application/grpc".
Definition GRPC_WEB_CONTENT_TYPE_PREFIX : string := "application/grpc-web".
Definition GRPC_WEB_TEXT_CONTENT_TYPE_PREFIX : string := "application/grpc-web-text".
Definition MAX_GRPC_TIMEOUT_DIGITS : Z := 8.
Definition MAX_FAILOVER_ATTEMPTS : nat := 2.

(** Source: crates/rginx-http/src/proxy/forward/grpc.rs:51-53 (matches_grpc_web_mime) *)
Definition matches_grpc_web_mime (mime prefix : string) : bool :=
  str_eqb mime prefix ||
  match strip_prefix prefix mime with Some suffix => starts_with "+" suffix | None => false end.

(** Source: crates/rginx-http/src/proxy/forward/grpc.rs:127-137 (grpc_timeout_duration) *)
Definition grpc_timeout_duration (amount : Z) (unit : string) : option Z :=
  let checked_mul (a b : Z) : option Z := if a * b <=? u64_max then Some (a * b) else None in
  let secs (a : Z) : Z := a * 1000000000 in
  if str_eqb unit "H" then secs <$> checked_mul amount 3600
  else if str_eqb unit "M" then secs <$> checked_mul amount 60
  else if str_eqb unit "S" then Some (secs amount)
  else if str_eqb unit "m" then Some (nanos amount)
  else if str_eqb unit "u" then Some (amount * 1000)
  else if str_eqb unit "n" then Some amount
  else None.

(** [value.split_at(value.len() - 1)]. *)
Definition split_last (value : string) : string * string :=
  (String.substring 0 (String.length value - 1) value,
   String.substring (String.length value - 1) 1 value).

Section Requests.
Context {HTTP : HttpApi} {B64 : Base64Api}.

(** [normalized_mime.replacen(prefix, ..., 1)]: the mime type starts with it. *)
(** Source: crates/rginx-http/src/proxy/forward/grpc.rs:4-49 (detect_grpc_web_mode) *)
Definition detect_grpc_web_mode (headers : HeaderMap) : result string (option GrpcWebMode) :=
  match hm_get headers "content-type" with
  | None => Ok None
  | Some content_type =>
      match hv_to_str content_type with
      | None => Ok None
      | Some content_type_str =>
          let '(mime, params) := split_content_type content_type_str in
          let normalized_mime := to_ascii_lowercase mime in
          let is_grpc_web_binary := matches_grpc_web_mime normalized_mime GRPC_WEB_CONTENT_TYPE_PREFIX in
          let is_grpc_web_text := matches_grpc_web_mime normalized_mime GRPC_WEB_TEXT_CONTENT_TYPE_PREFIX in
          if negb is_grpc_web_binary && negb is_grpc_web_text then Ok None
          else
            let prefix := if is_grpc_web_text then GRPC_WEB_TEXT_CONTENT_TYPE_PREFIX else GRPC_WEB_CONTENT_TYPE_PREFIX in
            let upstream_mime :=
              default normalized_mime ((λ rest, GRPC_CONTENT_TYPE_PREFIX +:+ rest) <$> strip_prefix prefix normalized_mime) in
            let upstream_content_type :=
              if str_is_empty params then upstream_mime else upstream_mime +:+ "; " +:+ params in
            let? upstream_content_type :=
              ok_or (hv_from_str upstream_content_type) "invalid grpc-web content-type"%string in
            Ok (Some (mkGrpcWebMode content_type upstream_content_type
                        (if is_grpc_web_text then EncodingText else EncodingBinary)))
      end
  end.

(** Source: crates/rginx-http/src/proxy/forward/grpc.rs:55-64 (grpc_protocol_request) *)
Definition grpc_protocol_request (headers : HeaderMap) : bool :=
  match hm_get_str headers "content-type" with
  | None => false
  | Some content_type =>
      starts_with GRPC_CONTENT_TYPE_PREFIX (to_ascii_lowercase (fst (split_content_type content_type)))
  end.

Definition grpc_timeout_error (message : string) : string := "invalid grpc-timeout header: " +:+ message.
Definition grpc_timeout_format : string :=
  grpc_timeout_error "expected 1-8 ASCII digits followed by H/M/S/m/u/n".

(** Source: crates/rginx-http/src/proxy/forward/grpc.rs:89-125 (parse_grpc_timeout) *)
Definition parse_grpc_timeout (headers : HeaderMap) : result string (option Z) :=
  if negb (grpc_protocol_request headers) then Ok None
  else
    match hm_get headers "grpc-timeout" with
    | None => Ok None
    | Some timeout =>
        let? value := ok_or (hv_to_str timeout) (grpc_timeout_error "expected ASCII") in
        let value := trim value in
        let? _ := reject (str_len value <? 2) grpc_timeout_format in
        let '(amount, unit) := split_last value in
        let? _ := reject (str_is_empty amount || (MAX_GRPC_TIMEOUT_DIGITS <? str_len amount) ||
                          negb (str_all is_ascii_digit amount)) grpc_timeout_format in
        let? amount := ok_or (parse_u64 amount) (grpc_timeout_error "timeout value is out of range") in
        let? duration := ok_or (grpc_timeout_duration amount unit) grpc_timeout_format in
        Ok (Some duration)
    end.

(** Source: crates/rginx-http/src/proxy/forward/grpc.rs:81-87 (effective_upstream_request_timeout) *)
Definition effective_upstream_request_timeout (headers : HeaderMap) (upstream_timeout : Z) : result string Z :=
  let? grpc_timeout := parse_grpc_timeout headers in
  Ok match grpc_timeout with Some timeout => Z.min timeout upstream_timeout | None => upstream_timeout end.

(** Source: crates/rginx-http/src/proxy/forward/response.rs:8-12 (GrpcResponseDeadline) *)
Record GrpcResponseDeadline : Type := mkResponseDeadline {
  rd_deadline : Z;
  rd_timeout : Z;
  rd_timeout_message : string;
}.

(** Source: crates/rginx-http/src/proxy/forward/grpc.rs:66-79 (grpc_response_deadline) *)
Definition grpc_response_deadline (request_headers : HeaderMap) (upstream_name : string)
    (upstream_request_timeout now : Z) : option GrpcResponseDeadline :=
  if grpc_protocol_request request_headers
  then Some (mkResponseDeadline (now + upstream_request_timeout) upstream_request_timeout
               (grpc_timeout_message upstream_name upstream_request_timeout))
  else None.
End Requests.
