(* ===== verification/Forward.v ===== *)
(** * Forwarding a request

    Models [crates/rginx-http/src/proxy/forward]: what the cache contributes
    ([cache.rs], [attempt/cache_lookup.rs]), the set-up ([setup.rs]), the
    attempts on one peer after the other ([attempt/primary.rs], [streaming.rs],
    [failure.rs]), the response that is built from an upstream's ([response.rs],
    [success.rs]) and the background refresh ([attempt/background.rs]).

    [ForwardCacheBackend] is the source's trait; a backend has a state of its
    own.  The statistics, the peers' health and the upstream's cursor are the
    shared state ([ForwardState]).  What an attempt meets is its environment
    ([AttemptIo]): the instants at which it starts and ends, and what the client
    answers before the request timeout, if it does.  Instants are in
    nanoseconds; logging is left out. *)

From S2P Require Import Prelude RustStr External ConfigBase AccessLog ServerName Upstream Tls Template CacheConfig ProxyHeader Route Listener Stats StatsRecord RequestTarget Resolver ClientIp RequestHeaders GrpcWeb Body BodyLimits Health HttpResponse RequestBody ForwardRequest CacheTypes CacheRequest CachePolicy CacheStore.

Definition as_secs (nanos : Z) : Z := nanos / 1000000000.
(** A timer of the runtime is due at the next whole millisecond. *)
Definition timer_millis (nanos : Z) : Z := (nanos + 999999) / 1000000.

Section Forward.
Context {HTTP : HttpApi} {B64 : Base64Api} {URI : UriApi} {DATE : HttpDateApi} {SHA : Sha256Api}.
Context (uri_builds : string → string → string → bool).
Notation FramePoll := (FramePoll BoxError).

(** ** The cache, as forwarding sees it *)

(** Source: crates/rginx-http/src/cache/mod.rs:111-116 (CacheLookup) *)
Inductive BackendLookup : Type :=
| BackendHit (response : HttpResponse)
| BackendMiss (context : CacheStoreContext)
| BackendUpdating (response : HttpResponse) (context : CacheStoreContext)
| BackendBypass (status : CacheStatus).

(** The operations of the trait, and [CacheStoreContext::serve_stale], which
    reads the body file of the entry. *)
(** Source: crates/rginx-http/src/proxy/forward/cache.rs:5-26 (ForwardCacheBackend) *)
Class ForwardCacheBackend : Type := {
  Cache : Type;
  cb_lookup : CacheRequest → string → RouteCachePolicy → Cache → BackendLookup * Cache;
  cb_record_bypass_for_zone : string → Cache → Cache;
  cb_store_response : CacheStoreContext → HttpResponse → Cache → HttpResponse * Cache;
  cb_complete_not_modified : CacheStoreContext → HttpResponse → Cache → result string HttpResponse * Cache;
  cb_serve_stale : CacheStoreContext → CacheStatus → Cache → option HttpResponse * Cache;
}.
Context {BACKEND : ForwardCacheBackend}.

(** Source: crates/rginx-http/src/proxy/forward/cache.rs:60-63 (ForwardCacheContext) *)
Record ForwardCacheContext : Type := mkCacheContext {
  fcc_store : option CacheStoreContext;
  fcc_status : option CacheStatus;
}.

(** Source: crates/rginx-http/src/proxy/forward/cache.rs:65-69 (ForwardCacheLookup) *)
Inductive ForwardCacheLookup : Type :=
| ForwardHit (response : HttpResponse)
| ForwardUpdating (response : HttpResponse) (context : ForwardCacheContext)
| ForwardProceed (context : ForwardCacheContext).

(** Source: crates/rginx-http/src/proxy/forward/cache.rs:71-116 (lookup_forward_cache) *)
Definition lookup_forward_cache (request : CacheRequest) (downstream_scheme : string)
    (response_buffering : RouteBufferingPolicy) (policy : option RouteCachePolicy) (cache : Cache)
    : ForwardCacheLookup * Cache :=
  match policy with
  | None => (ForwardProceed (mkCacheContext None None), cache)
  | Some policy =>
      match response_buffering with
      | BufferingOff =>
          (ForwardProceed (mkCacheContext None (Some StBypass)), cb_record_bypass_for_zone (pol_zone policy) cache)
      | _ =>
          let '(found, cache) := cb_lookup request downstream_scheme policy cache in
          (match found with
           | BackendHit response => ForwardHit response
           | BackendUpdating response context =>
               ForwardUpdating response (mkCacheContext (Some context) (Some (sc_cache_status context)))
           | BackendMiss context =>
               ForwardProceed (mkCacheContext (Some context) (Some (sc_cache_status context)))
           | BackendBypass status => ForwardProceed (mkCacheContext None (Some status))
           end, cache)
      end
  end.

(** Source: crates/rginx-http/src/cache/runtime.rs:14-17 (with_cache_status) *)
Definition with_cache_status (response : HttpResponse) (status : CacheStatus) : HttpResponse :=
  mkResponse (rsp_status response)
    (hm_insert "x-cache" (hv_from_static (as_header_value status)) (rsp_headers response))
    (rsp_body response) (rsp_upstream response).

(** Source: crates/rginx-http/src/proxy/forward/cache.rs:119-125 (ForwardCacheContext::mark_response) *)
Definition mark_response (cache : ForwardCacheContext) (response : HttpResponse) : HttpResponse :=
  match fcc_status cache with Some status => with_cache_status response status | None => response end.

(** The context that prepares the upstream request. *)
Definition preparing_store (cache : ForwardCacheContext) : option CacheStoreContext :=
  store ← fcc_store cache; if sc_store_response store then Some store else None.

(** Source: crates/rginx-http/src/proxy/forward/cache.rs:127-133 (ForwardCacheContext::apply_upstream_request_method) *)
Definition forward_request_method (cache : ForwardCacheContext) (method : string) : string :=
  match preparing_store cache with
  | Some store => upstream_cache_request_method (req_method (sc_request store)) (sc_policy store)
  | None => method
  end.

(** [None]: [apply_upstream_range_headers] panics (it does not, CacheRequest.v). *)
(** Source: crates/rginx-http/src/proxy/forward/cache.rs:135-141 (ForwardCacheContext::apply_upstream_request_headers) *)
Definition forward_upstream_headers (cache : ForwardCacheContext) (headers : HeaderMap) : option HeaderMap :=
  match preparing_store cache with
  | Some store => apply_upstream_range_headers (req_method (sc_request store)) headers (sc_policy store)
  | None => Some headers
  end.

(** Source: crates/rginx-http/src/proxy/forward/cache.rs:143-149 (ForwardCacheContext::apply_conditional_request_headers) *)
Definition forward_conditional_headers (cache : ForwardCacheContext) (headers : HeaderMap) : HeaderMap :=
  match preparing_store cache with
  | Some store => apply_conditional_request_headers store headers
  | None => headers
  end.

(** [now] is the wall clock, in milliseconds. *)
(** Source: crates/rginx-http/src/proxy/forward/cache.rs:151-161 (ForwardCacheContext::serve_stale_for_reason) *)
Definition serve_stale_for_reason (context : ForwardCacheContext) (now : Z) (reason : CacheStaleReason)
    (status : CacheStatus) (cache : Cache) : option HttpResponse * Cache :=
  match fcc_store context with
  | None => (None, cache)
  | Some store => if can_serve_stale store now reason then cb_serve_stale store status cache else (None, cache)
  end.

(** ** The shared state *)

Record ForwardState : Type := mkForward {
  fw_stats : StatsState;
  fw_health : PeerHealthRegistry;
  fw_upstream : Upstream;
  fw_cache : Cache;
  fw_upgraded : list ActivePeerGuard;
}.

Definition with_stats (f : StatsState → StatsState) (s : ForwardState) : ForwardState :=
  mkForward (f (fw_stats s)) (fw_health s) (fw_upstream s) (fw_cache s) (fw_upgraded s).
Definition with_registry (f : PeerHealthRegistry → PeerHealthRegistry) (s : ForwardState) : ForwardState :=
  mkForward (fw_stats s) (f (fw_health s)) (fw_upstream s) (fw_cache s) (fw_upgraded s).
Definition with_cache_state (cache : Cache) (s : ForwardState) : ForwardState :=
  mkForward (fw_stats s) (fw_health s) (fw_upstream s) cache (fw_upgraded s).
Definition with_selection (upstream : Upstream) (health : PeerHealthRegistry) (s : ForwardState) : ForwardState :=
  mkForward (fw_stats s) health upstream (fw_cache s) (fw_upgraded s).
(** The connection slot and the peer's guard go to the task that copies. *)
Definition with_upgraded (guard : ActivePeerGuard) (s : ForwardState) : ForwardState :=
  mkForward (fw_stats s) (fw_health s) (fw_upstream s) (fw_cache s) (guard :: fw_upgraded s).

(** ** Set-up *)

(** Source: crates/rginx-http/src/proxy/forward/types.rs:4-11 (DownstreamRequestOptions) *)
Record DownstreamRequestOptions : Type := mkOptions {
  do_request_body_read_timeout : option Z;
  do_max_request_body_bytes : option Z;
  do_request_buffering : RouteBufferingPolicy;
  do_response_buffering : RouteBufferingPolicy;
  do_streaming_response_idle_timeout : option Z;
  do_cache : option RouteCachePolicy;
}.

(** Source: crates/rginx-http/src/proxy/forward/types.rs:14-19 (DownstreamRequestContext) *)
Record DownstreamRequestContext : Type := mkDownstreamContext {
  dc_listener_id : string;
  dc_downstream_proto : string;
  dc_request_id : string;
  dc_options : DownstreamRequestOptions;
}.

(** The client is known by whether [for_upstream] has one; [OnUpgrade] by its
    presence. *)
(** Source: crates/rginx-http/src/proxy/forward/setup.rs:4-13 (PreparedForwardRequest) *)
Record PreparedForwardRequest : Type := mkPreparedForward {
  pf_request_headers : HeaderMap;
  pf_response_idle_timeout : Z;
  pf_grpc_web_mode : option GrpcWebMode;
  pf_upstream_request_timeout : Z;
  pf_downstream_upgrade : bool;
  pf_prepared_request : PreparedProxyRequest;
  pf_peers : list ResolvedUpstreamPeer;
}.

(** What the set-up meets: the instant, whether the upstream's client could be
    built, and the endpoints of a peer. *)
Record SetupIo : Type := mkSetupIo {
  si_now : Z;
  si_client : bool;
  si_resolve : UpstreamPeer → list ResolvedUpstreamPeer;
}.

Definition newline : string := String (ascii_of_N 10) EmptyString.

(** Source: crates/rginx-http/src/proxy/forward/setup.rs:15-160 (prepare_forward_request) *)
Definition prepare_forward_request (io : SetupIo) (request : DownstreamRequest) (target : ProxyTarget)
    (client_address : ClientAddress) (downstream : DownstreamRequestContext) (s : ForwardState)
    : result HttpResponse PreparedForwardRequest * ForwardState :=
  let name := tgt_upstream_name target in
  let upstream := tgt_upstream target in
  let options := dc_options downstream in
  let request_headers := dr_headers request in
  let response_idle_timeout := default (up_idle_timeout upstream) (do_streaming_response_idle_timeout options) in
  let secs := as_secs (si_now io) in
  let s := with_stats (record_upstream_request name secs) s in
  let bad_gateway_with (message : string) (s : ForwardState) :=
    (Err (bad_gateway request_headers (message +:+ newline)) : result HttpResponse PreparedForwardRequest,
     with_stats (record_upstream_bad_gateway_response name secs) s) in
  match detect_grpc_web_mode (dr_headers request) with
  | Err message =>
      (Err (unsupported_media_type request_headers (message +:+ newline)),
       with_stats (record_upstream_unsupported_media_type_response name) s)
  | Ok grpc_web_mode =>
  match effective_upstream_request_timeout request_headers (nanos (up_request_timeout upstream)) with
  | Err message =>
      (Err (bad_request request_headers (message +:+ newline)),
       with_stats (record_upstream_bad_request_response name) s)
  | Ok upstream_request_timeout =>
  if negb (si_client io) then
    bad_gateway_with ("upstream `" +:+ name +:+ "` TLS client is unavailable") s
  else
  let downstream_upgrade := is_upgrade_request (dr_version request) (dr_headers request) in
  if downstream_upgrade && bool_decide (up_protocol upstream = ProtoHttp3) then
    bad_gateway_with ("upstream `" +:+ name +:+ "` does not support upgrade over http3") s
  else
  match from_request request name (do_request_body_read_timeout options) (up_write_timeout upstream)
          (up_max_replayable_request_body_bytes upstream) (do_max_request_body_bytes options)
          (do_request_buffering options) grpc_web_mode with
  | Err (PayloadTooLarge limit) =>
      (Err (payload_too_large request_headers
              ("request body exceeds server.max_request_body_bytes (" +:+ dec limit +:+ " bytes)" +:+ newline)),
       with_stats (record_upstream_payload_too_large_response name) s)
  | Err error =>
      if invalid_downstream_request_body_error (prepare_error_chain error) then
        (Err (bad_request request_headers
                ("invalid downstream request body: " +:+ prepare_error_text error +:+ newline)),
         with_stats (record_upstream_bad_request_response name) s)
      else bad_gateway_with ("failed to prepare upstream request for `" +:+ name +:+ "`") s
  | Ok prepared_request =>
  let '(selected, cursor, health) :=
    select_peers (si_resolve io) (as_millis (si_now io)) (fw_upstream s) (ca_client_ip client_address)
      (if can_failover prepared_request then MAX_FAILOVER_ATTEMPTS else 1)%nat (fw_health s) in
  let s := with_selection cursor health s in
  match from_option sel_peers [] selected with
  | [] =>
      let s := with_stats (record_upstream_no_healthy_peers name) s in
      bad_gateway_with ("upstream `" +:+ name +:+ "` has no healthy peers available") s
  | peers =>
      (Ok (mkPreparedForward request_headers response_idle_timeout grpc_web_mode upstream_request_timeout
             downstream_upgrade prepared_request peers), s)
  end end end end.

(** ** Responses *)

(** What the client answers: the body's polls happen at the instants of the
    clock, in milliseconds. *)
Record UpstreamResponse : Type := mkUpstreamResponse {
  ur_status : Z;
  ur_headers : HeaderMap;
  ur_body : list FramePoll;
  ur_clock : list Z;
}.

(** Source: crates/rginx-http/src/proxy/forward/response.rs:66-93 (wrap_stream_timeout_pipeline) *)
Definition wrap_stream_timeout_pipeline (body : list FramePoll) (clock : list Z) (idle_timeout : Z) (label : string)
    (deadline : option GrpcResponseDeadline) : list FramePoll :=
  let body := timed_polls idle_poll_frame clock (idle_new body idle_timeout label) in
  match deadline with
  | Some deadline =>
      timed_polls deadline_poll_frame clock
        (deadline_new body (timer_millis (rd_deadline deadline)) (rd_timeout_message deadline))
  | None => body
  end.

(** The peer's guard goes with the body ([ActivePeerBody]), whose polls are
    those of the body it holds; a response to an upgrade has none.  [None] is the
    panic of [active_peer.expect(..)]. *)
(** Source: crates/rginx-http/src/proxy/forward/response.rs:14-64 (build_downstream_response) *)
Definition build_downstream_response (response : UpstreamResponse) (upstream_name peer_url : string)
    (idle_timeout : Z) (deadline : option GrpcResponseDeadline) (grpc_web_mode : option GrpcWebMode)
    (active_peer : option ActivePeerGuard) (upstream_access_log : option UpstreamAccessLog) : option HttpResponse :=
  let preserve_upgrade :=
    negb (is_some grpc_web_mode) && is_upgrade_response (ur_status response) (ur_headers response) in
  let headers := sanitize_response_headers (ur_headers response) preserve_upgrade in
  let label := "upstream `" +:+ upstream_name +:+ "` response body from `" +:+ peer_url +:+ "`" in
  let n := length (ur_clock response) in
  let wrapped := wrap_stream_timeout_pipeline (ur_body response) (ur_clock response) idle_timeout label deadline in
  '(headers, body) ←
    (if preserve_upgrade then Some (headers, full_body [])
    else
      _ ← active_peer;
      Some match grpc_web_mode with
      | Some mode =>
          let '(fallback_trailers, headers) := extract_grpc_initial_trailers headers in
          let headers := hm_insert "content-type" (gw_downstream_content_type mode) headers in
          let headers := hm_remove "content-length" headers in
          let body := polls response_poll_frame n (response_body_new wrapped fallback_trailers) in
          (headers, if mode_is_text mode then polls text_encode_poll_frame n (text_encode_new body) else body)
      | None => (headers, wrapped)
      end);
  Some (mkResponse (ur_status response) headers body upstream_access_log).

(** Source: crates/rginx-http/src/proxy/forward/success.rs:116-129 (apply_cache_store) *)
Definition apply_cache_store (cache_store : option CacheStoreContext) (cache_status : option CacheStatus)
    (response : HttpResponse) (cache : Cache) : HttpResponse * Cache :=
  match cache_store with
  | Some cache_store => cb_store_response cache_store response cache
  | None =>
      (match cache_status with Some status => with_cache_status response status | None => response end, cache)
  end.

(** The response of the upstream, before the cache has seen it, without the
    pipeline of an [HttpResponse]: what [complete_not_modified] is given. *)
Definition raw_response (response : UpstreamResponse) : HttpResponse :=
  mkResponse (ur_status response) (ur_headers response) (ur_body response) None.

(** Source: crates/rginx-http/src/proxy/forward/success.rs:3-17 (UpstreamSuccessContext) *)
Record UpstreamSuccessContext : Type := mkSuccessContext {
  us_downstream_upgrade : bool;
  us_listener_id : string;
  us_target : ProxyTarget;
  us_peer : ResolvedUpstreamPeer;
  us_active_peer : ActivePeerGuard;
  us_response_idle_timeout : Z;
  us_grpc_response_deadline : option GrpcResponseDeadline;
  us_grpc_web_mode : option GrpcWebMode;
  us_cache_store : option CacheStoreContext;
  us_cache_status : option CacheStatus;
  us_upstream_response_time_ms : Z;
}.

(** A guard that is dropped when the function returns. *)
Definition drop_guard (guard : ActivePeerGuard) (s : ForwardState) : ForwardState :=
  with_registry (drop_peer_guard guard) s.

Definition upstream_log (context : UpstreamSuccessContext) (response : UpstreamResponse) : UpstreamAccessLog :=
  mkUpstreamLog (tgt_upstream_name (us_target context)) (res_display_url (us_peer context)) (ur_status response)
    (us_upstream_response_time_ms context).

(** The context whose stored response a 304 refreshes. *)
Definition refreshing_store (context : UpstreamSuccessContext) (response : UpstreamResponse) : option CacheStoreContext :=
  store ← us_cache_store context;
  if should_refresh_from_not_modified store (ur_status response) then Some store else None.

(** The cached response that is served in place of the upstream's. *)
Definition stale_instead (context : UpstreamSuccessContext) (response : UpstreamResponse) (now : Z) (cache : Cache)
    : option HttpResponse * Cache :=
  match us_cache_store context with
  | Some store =>
      if can_serve_stale store now (ReasonStatus (ur_status response))
      then cb_serve_stale store StStale cache else (None, cache)
  | None => (None, cache)
  end.

(** The response, and the guard that its body holds; [None] is a panic. *)
(** Source: crates/rginx-http/src/proxy/forward/success.rs:19-114 (finalize_upstream_success) *)
Definition finalize_upstream_success (response : UpstreamResponse) (context : UpstreamSuccessContext) (now : Z)
    (s : ForwardState) : option (HttpResponse * option ActivePeerGuard * ForwardState) :=
  let deliver (store : option CacheStoreContext) (guard : option ActivePeerGuard) (s : ForwardState) :=
    downstream ←
      build_downstream_response response (tgt_upstream_name (us_target context)) (res_display_url (us_peer context))
        (us_response_idle_timeout context) (us_grpc_response_deadline context) (us_grpc_web_mode context) guard
        (Some (upstream_log context response));
    let '(downstream, cache) := apply_cache_store store (us_cache_status context) downstream (fw_cache s) in
    Some (downstream, guard, with_cache_state cache s) in
  match refreshing_store context response with
  | Some store =>
      let '(refreshed, cache) := cb_complete_not_modified store (raw_response response) (fw_cache s) in
      Some (match refreshed with
            | Ok response => response
            | Err error =>
                text_response 502 text_plain
                  ("failed to refresh cached response from upstream 304: " +:+ error +:+ newline)
            end, None, drop_guard (us_active_peer context) (with_cache_state cache s))
  | None =>
      match stale_instead context response now (fw_cache s) with
      | (Some stale, cache) => Some (stale, None, drop_guard (us_active_peer context) (with_cache_state cache s))
      | (None, cache) =>
          let s := with_cache_state cache s in
          if us_downstream_upgrade context && is_upgrade_response (ur_status response) (ur_headers response)
          then deliver None None (with_upgraded (us_active_peer context) s)
          else deliver (us_cache_store context) (Some (us_active_peer context)) s
      end
  end.

(** ** Attempts *)

(** Source: crates/rginx-http/src/proxy/forward/failure.rs:3-28 (failed_to_build_request_response) *)
Definition failed_to_build_request_response (request_headers : HeaderMap) (name : string) (now : Z)
    (cache : ForwardCacheContext) (s : ForwardState) : HttpResponse * ForwardState :=
  (mark_response cache (bad_gateway request_headers ("failed to build upstream request for `" +:+ name +:+ "`" +:+ newline)),
   with_stats (record_upstream_bad_gateway_response name (as_secs now)) s).

(** Source: crates/rginx-http/src/proxy/forward/failure.rs:30-41 (upstream_unavailable_response) *)
Definition upstream_unavailable_response (request_headers : HeaderMap) (name : string) (now : Z)
    (cache : ForwardCacheContext) (s : ForwardState) : HttpResponse * ForwardState :=
  (mark_response cache (bad_gateway request_headers ("upstream `" +:+ name +:+ "` is unavailable" +:+ newline)),
   with_stats (record_upstream_bad_gateway_response name (as_secs now)) s).

Definition too_large_message (limit : Z) : string :=
  "request body exceeds server.max_request_body_bytes (" +:+ dec limit +:+ " bytes)" +:+ newline.

(** What became of a streamed body: nothing is awaited without a completion;
    the channel is closed if the relay task is gone. *)
Inductive Completion : Type :=
| NoCompletion | CompletionClosed | Completed (result : result BoxError ()).

(** Source: crates/rginx-http/src/proxy/forward/streaming.rs:3-81 (finalize_streaming_request_body) *)
Definition finalize_streaming_request_body (body_completion : Completion) (request_headers : HeaderMap)
    (name : string) (now : Z) (s : ForwardState) : result HttpResponse () * ForwardState :=
  match body_completion with
  | NoCompletion | Completed (Ok _) => (Ok tt, s)
  | CompletionClosed =>
      (Err (bad_gateway request_headers
              ("failed to finalize streamed request body for upstream `" +:+ name +:+ "`" +:+ newline)), s)
  | Completed (Err error) =>
      match downstream_request_body_limit [box_error_node error] with
      | Some limit =>
          (Err (payload_too_large request_headers (too_large_message limit)),
           with_stats (record_upstream_payload_too_large_response name) s)
      | None =>
          if invalid_downstream_request_body_error [box_error_node error] then
            (Err (bad_request request_headers
                    ("invalid downstream request body: " +:+ en_text (box_error_node error) +:+ newline)),
             with_stats (record_upstream_bad_request_response name) s)
          else
            (Err (bad_gateway request_headers ("upstream `" +:+ name +:+ "` is unavailable" +:+ newline)),
             with_stats (record_upstream_bad_gateway_response name (as_secs now)) s)
      end
  end.

(** What the client answers within the request timeout. *)
Inductive AttemptOutcome : Type :=
| Answered (response : UpstreamResponse)
| ClientFailed (text : string)
| TimedOut.

(** [at_relay_lost]: the relay task ended without a result. *)
Record AttemptIo : Type := mkAttempt {
  at_start : Z;
  at_end : Z;
  at_outcome : AttemptOutcome;
  at_relay_lost : bool;
}.

Definition completion_of (io : AttemptIo) (built : BuiltUpstreamRequest) : Completion :=
  match bu_body_completion built with
  | None => NoCompletion
  | Some result => if at_relay_lost io then CompletionClosed else Completed result
  end.

(** What stays the same between the attempts of a request. *)
Record AttemptContext : Type := mkAttemptContext {
  ac_listener_id : string;
  ac_target : ProxyTarget;
  ac_client_address : ClientAddress;
  ac_downstream_proto : string;
  ac_request_headers : HeaderMap;
  ac_response_idle_timeout : Z;
  ac_grpc_web_mode : option GrpcWebMode;
  ac_upstream_request_timeout : Z;
  ac_downstream_upgrade : bool;
  ac_peer_count : nat;
  ac_cache : ForwardCacheContext;
}.

Definition ac_name (c : AttemptContext) : string := tgt_upstream_name (ac_target c).

(** The peer's failure, in the statistics and in its health. *)
Definition record_peer_failed (c : AttemptContext) (peer : ResolvedUpstreamPeer) (io : AttemptIo) (s : ForwardState)
    : ForwardState :=
  with_registry (λ r, (record_failure (ac_name c) (res_endpoint_key peer) (as_millis (at_end io)) r).2) s.

Definition record_client_failure (c : AttemptContext) (peer : ResolvedUpstreamPeer) (text : string) (s : ForwardState)
    : ForwardState :=
  with_stats (record_upstream_peer_failure_class (ac_name c) (classify_upstream_tls_failure (server_error_text text)))
    (with_stats (record_upstream_peer_failure (ac_name c) (res_logical_peer_url peer)) s).

(** The attempt starts: it is counted and the peer has one more active request. *)
Definition start_attempt (c : AttemptContext) (peer : ResolvedUpstreamPeer) (io : AttemptIo) (s : ForwardState)
    : ActivePeerGuard * ForwardState :=
  let s := with_stats (record_upstream_peer_attempt (ac_name c) (res_logical_peer_url peer) (as_secs (at_start io))) s in
  let '(guard, health) := track_active_request (ac_name c) (res_endpoint_key peer) (fw_health s) in
  (guard, with_registry (λ _, health) s).

(** A failed attempt that is followed by another one; its guard is dropped at
    the end of the turn. *)
Definition retry_after (c : AttemptContext) (peer : ResolvedUpstreamPeer) (io : AttemptIo) (guard : ActivePeerGuard)
    (s : ForwardState) : ForwardState :=
  let s := match at_outcome io with
           | ClientFailed text => record_client_failure c peer text s
           | _ => with_stats (record_upstream_peer_timeout (ac_name c) (res_logical_peer_url peer)) s
           end in
  drop_guard guard
    (record_peer_failed c peer io (with_stats (record_upstream_failover (ac_name c) (as_secs (at_end io))) s)).

(** The last attempt failed: a stale response, or an error. *)
Definition stale_or (c : AttemptContext) (reason : CacheStaleReason) (io : AttemptIo) (guard : ActivePeerGuard)
    (otherwise : ForwardState → HttpResponse * ForwardState) (s : ForwardState)
    : HttpResponse * option ActivePeerGuard * ForwardState :=
  let '(stale, cache) := serve_stale_for_reason (ac_cache c) (as_millis (at_end io)) reason StStale (fw_cache s) in
  let s := with_cache_state cache s in
  match stale with
  | Some stale => (stale, None, drop_guard guard s)
  | None => let '(response, s) := otherwise s in (response, None, drop_guard guard s)
  end.

Definition last_failure (c : AttemptContext) (peer : ResolvedUpstreamPeer) (io : AttemptIo) (guard : ActivePeerGuard)
    (text : string) (s : ForwardState) : HttpResponse * option ActivePeerGuard * ForwardState :=
  match downstream_request_body_limit (server_error_chain text) with
  | Some limit =>
      (mark_response (ac_cache c) (payload_too_large (ac_request_headers c) (too_large_message limit)), None,
       drop_guard guard (with_stats (record_upstream_payload_too_large_response (ac_name c)) s))
  | None =>
      if invalid_downstream_request_body_error (server_error_chain text) then
        (mark_response (ac_cache c)
           (bad_request (ac_request_headers c)
              ("invalid downstream request body: " +:+ server_error_text text +:+ newline)), None,
         drop_guard guard (with_stats (record_upstream_bad_request_response (ac_name c)) s))
      else
        let s := record_peer_failed c peer io (record_client_failure c peer text s) in
        stale_or c ReasonError io guard (λ s,
          (mark_response (ac_cache c)
             (bad_gateway (ac_request_headers c) ("upstream `" +:+ ac_name c +:+ "` is unavailable" +:+ newline)),
           with_stats (record_upstream_bad_gateway_response (ac_name c) (as_secs (at_end io))) s)) s
  end.

Definition last_timeout (c : AttemptContext) (peer : ResolvedUpstreamPeer) (io : AttemptIo) (guard : ActivePeerGuard)
    (s : ForwardState) : HttpResponse * option ActivePeerGuard * ForwardState :=
  let s := with_stats (record_upstream_peer_timeout (ac_name c) (res_logical_peer_url peer)) s in
  let s := record_peer_failed c peer io s in
  stale_or c ReasonTimeout io guard (λ s,
    (mark_response (ac_cache c)
       (gateway_timeout (ac_request_headers c)
          (grpc_timeout_message (ac_name c) (ac_upstream_request_timeout c) +:+ newline)),
     with_stats (record_upstream_gateway_timeout_response (ac_name c) (as_secs (at_end io))) s)) s.

Definition success_context (c : AttemptContext) (peer : ResolvedUpstreamPeer) (io : AttemptIo) (guard : ActivePeerGuard)
    : UpstreamSuccessContext :=
  mkSuccessContext (ac_downstream_upgrade c) (ac_listener_id c) (ac_target c) peer guard (ac_response_idle_timeout c)
    (grpc_response_deadline (ac_request_headers c) (ac_name c) (ac_upstream_request_timeout c) (at_start io))
    (ac_grpc_web_mode c) (fcc_store (ac_cache c)) (fcc_status (ac_cache c)) (as_millis (at_end io - at_start io)).

Definition answered (c : AttemptContext) (peer : ResolvedUpstreamPeer) (io : AttemptIo) (guard : ActivePeerGuard)
    (built : BuiltUpstreamRequest) (response : UpstreamResponse) (s : ForwardState)
    : option (HttpResponse * option ActivePeerGuard * ForwardState) :=
  match finalize_streaming_request_body (completion_of io built) (ac_request_headers c) (ac_name c) (at_end io) s with
  | (Err response, s) => Some (mark_response (ac_cache c) response, None, drop_guard guard s)
  | (Ok _, s) =>
      let s := with_stats (record_upstream_peer_success (ac_name c) (res_logical_peer_url peer)) s in
      let s := with_stats (record_upstream_completed_response (ac_name c) (as_secs (at_end io))) s in
      let s := with_registry (λ r, (record_success (ac_name c) (res_endpoint_key peer) r).2) s in
      finalize_upstream_success response (success_context c peer io guard) (as_millis (at_end io)) s
  end.

(** The attempts on the peers from [attempt_index] on; [ios] is what each of
    them meets. *)
(** Source: crates/rginx-http/src/proxy/forward/attempt/primary.rs:3-300 (forward_request) *)
Fixpoint forward_attempts (c : AttemptContext) (ios : nat → AttemptIo) (attempt_index : nat)
    (peers : list ResolvedUpstreamPeer) (prepared_request : PreparedProxyRequest) (s : ForwardState)
    : option (HttpResponse * option ActivePeerGuard * ForwardState) :=
  match peers with
  | [] =>
      let '(response, s) :=
        upstream_unavailable_response (ac_request_headers c) (ac_name c) (at_end (ios attempt_index)) (ac_cache c) s in
      Some (response, None, s)
  | peer :: peers =>
      let io := ios attempt_index in
      match build_for_peer uri_builds peer (ac_target c) (ac_client_address c) (ac_downstream_proto c)
              (ac_grpc_web_mode c) prepared_request with
      | Err _ =>
          let '(response, s) :=
            failed_to_build_request_response (ac_request_headers c) (ac_name c) (at_start io) (ac_cache c) s in
          Some (response, None, s)
      | Ok (built, prepared_request) =>
          let '(guard, s) := start_attempt c peer io s in
          let retry := can_retry_peer_request prepared_request (ac_peer_count c) attempt_index in
          match at_outcome io with
          | Answered response => answered c peer io guard built response s
          | ClientFailed text =>
              if retry then forward_attempts c ios (S attempt_index) peers prepared_request (retry_after c peer io guard s)
              else Some (last_failure c peer io guard text s)
          | TimedOut =>
              if retry then forward_attempts c ios (S attempt_index) peers prepared_request (retry_after c peer io guard s)
              else Some (last_timeout c peer io guard s)
          end
      end
  end.

(** ** The whole request *)

Record ForwardIo : Type := mkForwardIo {
  fi_setup : SetupIo;
  fi_attempts : nat → AttemptIo;
}.

(** The response, the guard its body holds, and the context of a background
    refresh that was spawned. *)
Record Forwarded : Type := mkForwarded {
  fd_response : HttpResponse;
  fd_guard : option ActivePeerGuard;
  fd_background : option CacheStoreContext;
}.

(** Source: crates/rginx-http/src/proxy/forward/attempt/cache_lookup.rs:3-39 (resolve_forward_cache) *)
Definition resolve_forward_cache (downstream : DownstreamRequestContext) (request : CacheRequest) (cache : Cache)
    : result (HttpResponse * option CacheStoreContext) ForwardCacheContext * Cache :=
  let '(found, cache) :=
    lookup_forward_cache request (dc_downstream_proto downstream) (do_response_buffering (dc_options downstream))
      (do_cache (dc_options downstream)) cache in
  (match found with
   | ForwardHit response => Err (response, None)
   | ForwardUpdating response context => Err (response, fcc_store context)
   | ForwardProceed context => Ok context
   end, cache).

Definition with_request (method : string) (headers : HeaderMap) (r : DownstreamRequest) : DownstreamRequest :=
  mkRequest method (dr_version r) (dr_path r) (dr_query r) headers (dr_body r).

Definition attempt_context (target : ProxyTarget) (client_address : ClientAddress) (downstream : DownstreamRequestContext)
    (prepared : PreparedForwardRequest) (cache : ForwardCacheContext) : AttemptContext :=
  mkAttemptContext (dc_listener_id downstream) target client_address (dc_downstream_proto downstream)
    (pf_request_headers prepared) (pf_response_idle_timeout prepared) (pf_grpc_web_mode prepared)
    (pf_upstream_request_timeout prepared) (pf_downstream_upgrade prepared) (length (pf_peers prepared)) cache.

(** The URI is the request's own; [None] is a panic. *)
(** Source: crates/rginx-http/src/proxy/forward/attempt/primary.rs:3-300 (forward_request) *)
Definition forward_request (io : ForwardIo) (uri : Uri) (request : DownstreamRequest) (target : ProxyTarget)
    (client_address : ClientAddress) (downstream : DownstreamRequestContext) (s : ForwardState)
    : option (Forwarded * ForwardState) :=
  let cache_request := mkCacheRequest (dr_method request) uri (dr_headers request) in
  let '(resolved, cache_state) := resolve_forward_cache downstream cache_request (fw_cache s) in
  let s := with_cache_state cache_state s in
  match resolved with
  | Err (response, background) => Some (mkForwarded response None background, s)
  | Ok cache =>
      let method := forward_request_method cache (dr_method request) in
      headers ← forward_upstream_headers cache (dr_headers request);
      let request := with_request method (forward_conditional_headers cache headers) request in
      match prepare_forward_request (fi_setup io) request target client_address downstream s with
      | (Err response, s) => Some (mkForwarded (mark_response cache response) None None, s)
      | (Ok prepared, s) =>
          '(response, guard, s) ←
            forward_attempts (attempt_context target client_address downstream prepared cache) (fi_attempts io) 0
              (pf_peers prepared) (pf_prepared_request prepared) s;
          Some (mkForwarded response guard None, s)
      end
  end.

(** ** The background refresh *)

(** [None]: the request cannot be built, or the range header. *)
(** Source: crates/rginx-http/src/cache/runtime/context.rs:35-45 (CacheStoreContext::build_background_request) *)
Definition build_background_request (store : CacheStoreContext) (path : string) (query : option string)
    : option DownstreamRequest :=
  let request := sc_request store in
  headers ← apply_upstream_range_headers (req_method request) (req_headers request) (sc_policy store);
  Some (mkRequest (upstream_cache_request_method (req_method request) (sc_policy store)) Http11 path query headers
          (mkDownstream (full_body []) [] (0, Some 0))).

(** The guard is dropped when the refresh is over: its response is drained. *)
Definition background_answered (c : AttemptContext) (store : CacheStoreContext) (peer : ResolvedUpstreamPeer)
    (io : AttemptIo) (guard : ActivePeerGuard) (built : BuiltUpstreamRequest) (response : UpstreamResponse)
    (s : ForwardState) : option ForwardState :=
  match finalize_streaming_request_body (completion_of io built) (ac_request_headers c) (ac_name c) (at_end io) s with
  | (Err _, s) => Some (drop_guard guard s)
  | (Ok _, s) =>
      let s := with_stats (record_upstream_peer_success (ac_name c) (res_logical_peer_url peer)) s in
      let s := with_stats (record_upstream_completed_response (ac_name c) (as_secs (at_end io))) s in
      let s := with_registry (λ r, (record_success (ac_name c) (res_endpoint_key peer) r).2) s in
      if should_refresh_from_not_modified store (ur_status response) then
        let '(_, cache) := cb_complete_not_modified store (raw_response response) (fw_cache s) in
        Some (drop_guard guard (with_cache_state cache s))
      else
        downstream ←
          build_downstream_response response (ac_name c) (res_display_url peer) (ac_response_idle_timeout c)
            (grpc_response_deadline (ac_request_headers c) (ac_name c) (ac_upstream_request_timeout c) (at_start io))
            (ac_grpc_web_mode c) (Some guard)
            (Some (mkUpstreamLog (ac_name c) (res_display_url peer) (ur_status response) 0));
        let '(_, cache) := cb_store_response store downstream (fw_cache s) in
        Some (drop_guard guard (with_cache_state cache s))
  end.

(** A failure that is not retried is recorded, and that is all. *)
Definition background_failed (c : AttemptContext) (peer : ResolvedUpstreamPeer) (io : AttemptIo) (guard : ActivePeerGuard)
    (s : ForwardState) : ForwardState :=
  let s := match at_outcome io with
           | ClientFailed text => record_client_failure c peer text s
           | _ => with_stats (record_upstream_peer_timeout (ac_name c) (res_logical_peer_url peer)) s
           end in
  drop_guard guard (record_peer_failed c peer io s).

(** Source: crates/rginx-http/src/proxy/forward/attempt/background.rs:50-249 (run_background_cache_refresh_with_backend) *)
Fixpoint background_attempts (c : AttemptContext) (store : CacheStoreContext) (ios : nat → AttemptIo)
    (attempt_index : nat) (peers : list ResolvedUpstreamPeer) (prepared_request : PreparedProxyRequest)
    (s : ForwardState) : option ForwardState :=
  match peers with
  | [] => Some s
  | peer :: peers =>
      let io := ios attempt_index in
      match build_for_peer uri_builds peer (ac_target c) (ac_client_address c) (ac_downstream_proto c)
              (ac_grpc_web_mode c) prepared_request with
      | Err _ => Some s
      | Ok (built, prepared_request) =>
          let '(guard, s) := start_attempt c peer io s in
          let retry := can_retry_peer_request prepared_request (ac_peer_count c) attempt_index in
          match at_outcome io with
          | Answered response => background_answered c store peer io guard built response s
          | _ =>
              if retry
              then background_attempts c store ios (S attempt_index) peers prepared_request (retry_after c peer io guard s)
              else Some (background_failed c peer io guard s)
          end
      end
  end.

(** Source: crates/rginx-http/src/proxy/forward/attempt/background.rs:50-249 (run_background_cache_refresh_with_backend) *)
Definition run_background_cache_refresh (io : ForwardIo) (path : string) (query : option string)
    (store : CacheStoreContext) (target : ProxyTarget) (client_address : ClientAddress)
    (downstream : DownstreamRequestContext) (s : ForwardState) : option ForwardState :=
  request ← build_background_request store path query;
  let request := with_request (dr_method request) (apply_conditional_request_headers store (dr_headers request)) request in
  match prepare_forward_request (fi_setup io) request target client_address downstream s with
  | (Err _, s) => Some s
  | (Ok prepared, s) =>
      background_attempts
        (attempt_context target client_address downstream prepared (mkCacheContext (Some store) None)) store
        (fi_attempts io) 0 (pf_peers prepared) (pf_prepared_request prepared) s
  end.
End Forward.
