(* ===== verification/ForwardSafety.v ===== *)
(** * What forwarding does to its peers and its clients

    Every attempt of a request is counted and its peer's health told of it; the
    guards of running requests are exactly those of the responses still being
    sent; the response is the upstream's until a timeout cuts it. *)

From S2P Require Import Prelude RustStr External ConfigBase AccessLog ServerName Upstream Tls Template CacheConfig ProxyHeader Route Listener Stats StatsRecord StatsDelta RequestTarget Resolver ClientIp RequestHeaders GrpcWeb Body BodyLimits Health HealthSafety HealthSelection HttpResponse RequestBody ForwardRequest CacheTypes CacheRequest CachePolicy CacheStore Forward.

(** ** Selecting peers *)

(** The registry changes by making sure of endpoints; the requests under way
    stay the same. *)
Definition endpoint_steps (r r' : PeerHealthRegistry) : Prop :=
  ∀ guards, rtc request_step (mkRequests r guards) (mkRequests r' guards).

Lemma endpoint_steps_refl r : endpoint_steps r r.
Proof. intros guards. apply rtc_refl. Qed.
Lemma endpoint_steps_trans a b c : endpoint_steps a b → endpoint_steps b c → endpoint_steps a c.
Proof. intros H1 H2 guards. etransitivity; [apply H1|apply H2]. Qed.
Lemma ensure_endpoint_steps name key logical r : endpoint_steps r (ensure_endpoint name key logical r).2.
Proof. intros guards. apply rtc_once. apply (request_endpoint (mkRequests r guards)). Qed.

Lemma ensured_steps name l r :
  endpoint_steps r
    (foldl (λ r e, (ensure_endpoint name (res_endpoint_key e) (res_logical_peer_url e) r).2) r l).
Proof.
  revert r. induction l as [|e l IH]; intros r; [apply endpoint_steps_refl|]. simpl.
  eapply endpoint_steps_trans; [apply ensure_endpoint_steps|apply IH].
Qed.

Lemma considered_steps name now order l acc :
  endpoint_steps acc.2 (foldl (consider_endpoint name now order) acc l).2.
Proof.
  revert acc. induction l as [|e l IH]; intros [[available skipped] r]; [apply endpoint_steps_refl|].
  cbn [foldl]. eapply endpoint_steps_trans; [|apply IH]. unfold consider_endpoint. simpl.
  case_match; apply ensure_endpoint_steps.
Qed.

Section Selection.
Context (resolve : UpstreamPeer → list ResolvedUpstreamPeer) (now : Z).

Lemma batch_steps name ordered acc : endpoint_steps acc.2 (foldl (peer_batch resolve now name) acc ordered).2.
Proof.
  revert acc. induction ordered as [|p ordered IH]; intros [[batches skipped] r]; [apply endpoint_steps_refl|].
  cbn [foldl]. eapply endpoint_steps_trans; [|apply IH]. unfold peer_batch. simpl.
  destruct (foldl (consider_endpoint name now 0) _ _) as [[available skipped'] r'] eqn:Hc.
  eapply endpoint_steps_trans; [apply ensured_steps|].
  assert (r' = (available, skipped', r').2) as -> by done. rewrite <-Hc. 
  destruct available; apply (considered_steps name now 0 _ ([], skipped, _)).
Qed.

Lemma select_round_length limit depth batches selected advanced :
  (length selected < limit)%nat → (length (select_round limit depth batches selected advanced).1 ≤ limit)%nat.
Proof.
  revert selected advanced. induction batches as [|b batches IH]; intros selected advanced Hl; [simpl; lia|]. simpl.
  destruct (b !! depth) as [e|]; [|by apply IH]. destruct (length (selected ++ [e]) =? limit)%nat eqn:He; rewrite length_app in *; simpl in *.
  - apply Nat.eqb_eq in He. rewrite length_app. simpl. lia.
  - apply Nat.eqb_neq in He. apply IH. rewrite length_app. simpl. lia.
Qed.

Lemma select_rounds_length fuel limit depth batches selected sel :
  (length selected ≤ limit)%nat → select_rounds fuel limit depth batches selected = Some sel → (length sel ≤ limit)%nat.
Proof.
  revert depth selected. induction fuel as [|fuel IH]; intros depth selected Hl; simpl;
    destruct (length selected <? limit)%nat eqn:Hlt; try done; try (by intros [= <-]).
  apply Nat.ltb_lt in Hlt. pose proof (select_round_length limit depth batches selected false Hlt) as Hr.
  destruct (select_round _ _ _ _ _) as [selected' advanced]. destruct advanced; [by apply IH|by intros [= <-]].
Qed.

(** At most [limit] peers, whatever the policy. *)
Definition selects_within (limit : nat) (r : PeerHealthRegistry) (selected : option SelectedPeers)
    (r' : PeerHealthRegistry) : Prop :=
  endpoint_steps r r' ∧ ∀ sel, selected = Some sel → (length (sel_peers sel) ≤ limit)%nat.

Lemma available_within name ordered limit r :
  selects_within limit r (select_available_peers resolve now name ordered limit r).1
    (select_available_peers resolve now name ordered limit r).2.
Proof.
  unfold select_available_peers. destruct (limit =? 0)%nat; [split; [apply endpoint_steps_refl|intros ? [= <-]; simpl; lia]|].
  pose proof (batch_steps name ordered ([], 0, r)) as Hb. destruct (foldl _ _ _) as [[batches skipped] r'] eqn:Hf.
  split; [done|]. simpl. intros sel. intros (l & Hs & ->)%fmap_Some. simpl.
  eapply (select_rounds_length (S limit) limit 0 batches []); [|exact Hs]. simpl. lia.
Qed.

Lemma pool_within u ip limit backup r :
  selects_within limit r (select_peers_in_pool resolve now u ip limit backup r).1.1
    (select_peers_in_pool resolve now u ip limit backup r).2.
Proof.
  unfold select_peers_in_pool. destruct (if backup then _ else _) as [ordered u'].
  pose proof (available_within (up_name u') ordered limit r) as H. destruct (select_available_peers _ _ _ _ _ _). done.
Qed.

Lemma least_conn_pool_within u limit backup r :
  selects_within limit r (Some (select_peers_by_least_conn_in_pool resolve now u limit backup r).1)
    (select_peers_by_least_conn_in_pool resolve now u limit backup r).2.
Proof.
  unfold select_peers_by_least_conn_in_pool. destruct (foldl _ _ _) as [[available skipped] r'] eqn:Hf. split.
  - assert (r' = (available, skipped, r').2) as -> by done. rewrite <-Hf. simpl. clear Hf.
    generalize (enumerate (up_peers u)). intros l. change r with (([] : list (Z * nat * ResolvedUpstreamPeer), 0, r).2) at 1.
    generalize (([] : list (Z * nat * ResolvedUpstreamPeer), 0, r)). clear.
    induction l as [|[order p] l IH]; intros acc; [apply endpoint_steps_refl|]. cbn [foldl].
    destruct (Bool.eqb _ _); [|apply IH]. eapply endpoint_steps_trans; [apply considered_steps|apply IH].
  - intros sel [= <-]. simpl. rewrite length_map, length_take. lia.
Qed.

Lemma selects_within_merge limit r r1 r2 a b :
  selects_within limit r (Some a) r1 →
  selects_within (if (length (sel_peers a) =? 0)%nat then limit else limit - length (sel_peers a)) r1 b r2 →
  selects_within limit r (merge_selected_peers a <$> b) r2.
Proof.
  intros [Ha Hla] [Hb Hlb]. split; [by eapply endpoint_steps_trans|]. specialize (Hla a eq_refl).
  intros sel. destruct b as [b|]; [|done]. specialize (Hlb b eq_refl). intros [= <-]. simpl. rewrite length_app.
  destruct (Nat.eqb_spec (length (sel_peers a)) 0); lia.
Qed.

Lemma least_conn_within u limit r :
  selects_within limit r (Some (select_peers_by_least_conn resolve now u limit r).1)
    (select_peers_by_least_conn resolve now u limit r).2.
Proof.
  unfold select_peers_by_least_conn.
  destruct (limit =? 0)%nat; [split; [apply endpoint_steps_refl|intros ? [= <-]; simpl; lia]|].
  destruct (negb _); [apply least_conn_pool_within|].
  pose proof (least_conn_pool_within u limit false r) as Hp.
  destruct (select_peers_by_least_conn_in_pool _ _ _ _ false _) as [primary r1]. cbn [fst snd] in Hp.
  pose proof (selects_within_merge limit r r1) as Hm.
  destruct (length (sel_peers primary) =? 0)%nat eqn:He; [|destruct (_ =? limit)%nat; [done|]];
    match goal with |- context [select_peers_by_least_conn_in_pool _ _ u ?n true r1] =>
      pose proof (least_conn_pool_within u n true r1) as Hs;
      destruct (select_peers_by_least_conn_in_pool _ _ u n true r1) as [secondary r2] end;
    apply (Hm r2 primary (Some secondary) Hp); by rewrite He.
Qed.

Lemma select_peers_within u ip limit r :
  selects_within limit r (select_peers resolve now u ip limit r).1.1 (select_peers resolve now u ip limit r).2.
Proof.
  unfold select_peers. case_bool_decide.
  { pose proof (least_conn_within u limit r) as H0. by destruct (select_peers_by_least_conn _ _ _ _ _). }
  destruct (negb _); [apply pool_within|].
  pose proof (pool_within u ip limit false r) as Hp.
  destruct (select_peers_in_pool _ _ _ _ _ false _) as [[primary u1] r1]. cbn [fst snd] in Hp.
  destruct (limit =? 0)%nat; [split; [apply Hp|intros ? [= <-]; simpl; lia]|].
  destruct primary as [primary|]; [|by split; [apply Hp|]]. destruct (_ =? limit)%nat; [done|].
  match goal with |- context [select_peers_in_pool _ _ u1 _ ?n true r1] =>
    pose proof (pool_within u1 ip n true r1) as Hs; destruct (select_peers_in_pool _ _ u1 _ n true r1) as [[secondary u2] r2] end.
  cbn [fst snd] in *. by eapply selects_within_merge.
Qed.
End Selection.

(** ** What a request does to the shared state *)

Section Requests.
Context {HTTP : HttpApi} {B64 : Base64Api} {URI : UriApi} {DATE : HttpDateApi} {SHA : Sha256Api}.
Context (uri_builds : string → string → string → bool).
Context {BACKEND : ForwardCacheBackend}.

(** Recorded [events] of the upstream [name]; the guards it holds went from
    [held] to [held'], those of upgraded connections included, and [gained] is
    new of these. Other requests hold [others]. *)
Record runs (name : string) (events : list UpstreamEvent) (held held' gained : list ActivePeerGuard)
    (s s' : ForwardState) : Prop := {
  rn_stats : fw_stats s' = stats_run (map (OfUpstream name) events) (fw_stats s);
  rn_upgraded : fw_upgraded s' = gained ++ fw_upgraded s;
  rn_steps others :
    Z.of_nat (length others) + 1 < u64_max →
    rtc request_step (mkRequests (fw_health s) (held ++ others)) (mkRequests (fw_health s') (held' ++ others));
}.

Lemma runs_trans name e1 e2 h1 h2 h3 g1 g2 s1 s2 s3 :
  runs name e1 h1 h2 g1 s1 s2 → runs name e2 h2 h3 g2 s2 s3 → runs name (e1 ++ e2) h1 h3 (g2 ++ g1) s1 s3.
Proof.
  intros [Hs1 Hu1 Hr1] [Hs2 Hu2 Hr2]. split.
  - rewrite map_app. unfold stats_run in *. by rewrite foldl_app, <-Hs1.
  - by rewrite Hu2, Hu1, app_assoc.
  - intros others Ho. etransitivity; [by apply Hr1|by apply Hr2].
Qed.

(** The usual step gains nothing. *)
Lemma runs_step name e1 e2 h1 h2 h3 g s1 s2 s3 :
  runs name e1 h1 h2 [] s1 s2 → runs name e2 h2 h3 g s2 s3 → runs name (e1 ++ e2) h1 h3 g s1 s3.
Proof. intros H1 H2. rewrite <-(app_nil_r g). by eapply runs_trans. Qed.

Lemma runs_refl name h s : runs name [] h h [] s s.
Proof. split; [done|done|]. intros. apply rtc_refl. Qed.

Lemma runs_event name e h s : runs name [e] h h [] s (with_stats (upstream_step name e) s).
Proof. split; [done|done|]. intros. apply rtc_refl. Qed.

Lemma runs_cache name h cache s : runs name [] h h [] s (with_cache_state cache s).
Proof. split; [done|done|]. intros. apply rtc_refl. Qed.

Lemma runs_success name h key s : runs name [] h h [] s (with_registry (λ r, (record_success name key r).2) s).
Proof.
  split; [done|done|]. intros others _. apply rtc_once. apply (request_success (mkRequests (fw_health s) (h ++ others))).
Qed.

Lemma runs_failure name h key now s :
  runs name [] h h [] s (with_registry (λ r, (record_failure name key now r).2) s).
Proof.
  split; [done|done|]. intros others _. apply rtc_once. apply (request_failure (mkRequests (fw_health s) (h ++ others))).
Qed.

Lemma runs_drop name g s : runs name [] [g] [] [] s (drop_guard g s).
Proof.
  split; [done|done|]. intros others _. apply rtc_once.
  by apply (request_drop (mkRequests (fw_health s) ([g] ++ others)) []).
Qed.

(** A peer's guard goes to the task that copies an upgraded connection. *)
Lemma runs_upgraded name g s : runs name [] [g] [g] [g] s (with_upgraded g s).
Proof. split; [done|done|]. intros. apply rtc_refl. Qed.

Lemma runs_selection name h u r s : endpoint_steps (fw_health s) r → runs name [] h h [] s (with_selection u r s).
Proof. intros H. split; [done|done|]. intros others _. apply H. Qed.

Lemma runs_start c peer io s guard s' :
  start_attempt c peer io s = (guard, s') →
  runs (ac_name c) [UPeerAttempt (res_logical_peer_url peer) (as_secs (at_start io))] [] [guard] [] s s'.
Proof.
  unfold start_attempt. destruct (track_active_request _ _ _) as [g health] eqn:Ht. intros [= <- <-].
  split; [done|done|]. intros others Ho. apply rtc_once.
  apply (request_track (mkRequests (fw_health s) others) (ac_name c) (res_endpoint_key peer)); [simpl; lia|done].
Qed.

(** ** What is recorded of the attempts *)

(** [guard] is that of the peer, in the registry as the request leaves it. *)
Definition peer_guard (name : string) (peer : ResolvedUpstreamPeer) (guard : ActivePeerGuard) (s : ForwardState) : Prop :=
  ag_upstream_name guard = name ∧ ag_peer guard = get_health (fw_health s) name (res_endpoint_key peer).

Lemma same_keys name peer guard s s' :
  get_health (fw_health s') = get_health (fw_health s) → peer_guard name peer guard s → peer_guard name peer guard s'.
Proof. intros Hk [H1 H2]. split; [done|]. by rewrite Hk. Qed.

Lemma success_keys name key r : get_health (record_success name key r).2 = get_health r.
Proof.
  unfold record_success. destruct (get_health r name key) as [id|]; [|done]. unfold on_health.
  cbn [health_record_success snd]. match goal with |- context [with_health <[id := ?st]> r] =>
    by destruct (notify_frame name (with_health <[id := st]> r)) as [-> _] end.
Qed.

Lemma start_guard c peer io s guard s' : start_attempt c peer io s = (guard, s') → peer_guard (ac_name c) peer guard s'.
Proof.
  unfold start_attempt, track_active_request. cbn [with_stats fw_health].
  destruct (get_health (fw_health s) _ _) as [id|] eqn:Hid; [|by intros [= <- <-]].
  destruct (increment_active_requests _) as [idle st]. intros [= <- <-]. split; [done|]. cbn [with_registry fw_health ag_peer].
  destruct idle; [destruct (notify_frame (ac_name c) (with_health <[id := st]> (fw_health s))) as [-> _]|]; by rewrite <-Hid.
Qed.

(** A failed attempt. *)
Inductive failed_attempt (io : AttemptIo) (url : string) : list UpstreamEvent → Prop :=
| failed_client text :
    at_outcome io = ClientFailed text →
    failed_attempt io url [UPeerFailure url; UFailureClass (classify_upstream_tls_failure (server_error_text text))]
| failed_timeout : at_outcome io = TimedOut → failed_attempt io url [UPeerTimeout url].

(** The response, the guard that its body holds, and the state: how a request ends. *)
Notation Outcome := (HttpResponse * option ActivePeerGuard * ForwardState)%type.

Section Attempts.
(** Whether the client asked for an upgrade, what the cache may store, and the
    upstream's name. *)
Context (upgrade : bool) (store : option CacheStoreContext) (name : string).

Definition switches (r : UpstreamResponse) : bool := upgrade && is_upgrade_response (ur_status r) (ur_headers r).

(** The cache serves what it has instead of what the upstream answered. *)
Definition replaced (r : UpstreamResponse) (now : Z) : Prop :=
  ∃ cached, store = Some cached ∧
    (should_refresh_from_not_modified cached (ur_status r) = true ∨
     can_serve_stale cached now (ReasonStatus (ur_status r)) = true).

(** The last attempt, what it holds when it is over, and the guards that a
    tunnel has got from it: the upstream answered, and its response is sent,
    or becomes a tunnel, or the cache replaces it; the client's own request
    was at fault (or its relay); or the peer failed, and an error says so
    unless a stale response is served. *)
Inductive last_attempt (peer : ResolvedUpstreamPeer) (io : AttemptIo)
  : list UpstreamEvent → Outcome → list ActivePeerGuard → Prop :=
| last_sent r response guard s :
    at_outcome io = Answered r → switches r = false → peer_guard name peer guard s →
    last_attempt peer io [UPeerSuccess (res_logical_peer_url peer); UCompleted (as_secs (at_end io))] (response, Some guard, s) []
| last_switched r response guard s :
    at_outcome io = Answered r → switches r = true → peer_guard name peer guard s → rsp_status response = ur_status r →
    last_attempt peer io [UPeerSuccess (res_logical_peer_url peer); UCompleted (as_secs (at_end io))] (response, None, s) [guard]
| last_replaced r response s :
    at_outcome io = Answered r → replaced r (as_millis (at_end io)) →
    last_attempt peer io [UPeerSuccess (res_logical_peer_url peer); UCompleted (as_secs (at_end io))] (response, None, s) []
| last_too_large response s :
    at_outcome io ≠ TimedOut → last_attempt peer io [UPayloadTooLarge] (response, None, s) []
| last_invalid response s :
    at_outcome io ≠ TimedOut → last_attempt peer io [UBadRequest] (response, None, s) []
| last_relay_failed r response s :
    at_outcome io = Answered r → last_attempt peer io [UBadGateway (as_secs (at_end io))] (response, None, s) []
| last_relay_lost r response s :
    at_outcome io = Answered r → at_relay_lost io = true → last_attempt peer io [] (response, None, s) []
| last_stale failed response s :
    failed_attempt io (res_logical_peer_url peer) failed → last_attempt peer io failed (response, None, s) []
| last_unavailable failed text response s :
    at_outcome io = ClientFailed text → failed_attempt io (res_logical_peer_url peer) failed →
    last_attempt peer io (failed ++ [UBadGateway (as_secs (at_end io))]) (response, None, s) []
| last_timed_out failed response s :
    at_outcome io = TimedOut → failed_attempt io (res_logical_peer_url peer) failed →
    last_attempt peer io (failed ++ [UGatewayTimeout (as_secs (at_end io))]) (response, None, s) [].

(** The attempts from the [i]-th one on, which are on [peers]. *)
Inductive attempts_recorded (ios : nat → AttemptIo)
  : nat → list ResolvedUpstreamPeer → list UpstreamEvent → Outcome → list ActivePeerGuard → Prop :=
| recorded_unbuilt i peers now response s : attempts_recorded ios i peers [UBadGateway now] (response, None, s) []
| recorded_last i peer peers last result gained :
    last_attempt peer (ios i) last result gained →
    attempts_recorded ios i (peer :: peers)
      (UPeerAttempt (res_logical_peer_url peer) (as_secs (at_start (ios i))) :: last) result gained
| recorded_again i peer peers failed rest result gained :
    failed_attempt (ios i) (res_logical_peer_url peer) failed → attempts_recorded ios (S i) peers rest result gained →
    attempts_recorded ios i (peer :: peers)
      (UPeerAttempt (res_logical_peer_url peer) (as_secs (at_start (ios i))) :: failed ++ UFailover (as_secs (at_end (ios i))) :: rest)
      result gained.
End Attempts.

(** Guards of a finished request. *)
Definition guards_left (guard : option ActivePeerGuard) (gained : list ActivePeerGuard) : list ActivePeerGuard :=
  option_list guard ++ gained.

Notation Ending := (list UpstreamEvent → Outcome → list ActivePeerGuard → Prop).

Definition ends_run (name : string) (P : Ending) (held : list ActivePeerGuard) (s : ForwardState) (result : Outcome) : Prop :=
  ∃ events gained, P events result gained ∧ (length (guards_left result.1.2 gained) ≤ 1)%nat ∧
    runs name events held (guards_left result.1.2 gained) gained s result.2.

Lemma ends_after name (P Q : Ending) e h1 h2 s1 s2 result :
  runs name e h1 h2 [] s1 s2 → ends_run name P h2 s2 result →
  (∀ rest gained, P rest result gained → Q (e ++ rest) result gained) → ends_run name Q h1 s1 result.
Proof.
  intros H1 (rest & gained & HP & Hl & H2) HQ. exists (e ++ rest), gained. split_and!; [by apply HQ|done|]. by eapply runs_step.
Qed.

(** Nothing is held. *)
Definition over (P : Ending) (events : list UpstreamEvent) : Prop := ∀ response s, P events (response, None, s) [].

Lemma ends_dropped name (P : Ending) events guard response s s' :
  over P events → runs name events [guard] [guard] [] s s' → ends_run name P [guard] s (response, None, drop_guard guard s').
Proof.
  intros HP H. exists events, []. split_and!; [apply HP|simpl; lia|]. rewrite <-(app_nil_r events).
  eapply runs_step; [done|apply runs_drop].
Qed.

Lemma ends_refused name (P : Ending) events response s s' :
  over P events → runs name events [] [] [] s s' → ends_run name P [] s (response, None, s').
Proof. intros HP H. exists events, []. split_and!; [apply HP|simpl; lia|done]. Qed.

Lemma runs_client_failure c peer text h s :
  runs (ac_name c) [UPeerFailure (res_logical_peer_url peer);
                    UFailureClass (classify_upstream_tls_failure (server_error_text text))] h h [] s
    (record_client_failure c peer text s).
Proof. eapply (runs_step _ [_] [_]); [apply (runs_event _ (UPeerFailure _))|apply (runs_event _ (UFailureClass _))]. Qed.

Lemma runs_peer_failed c peer io h s : runs (ac_name c) [] h h [] s (record_peer_failed c peer io s).
Proof. apply runs_failure. Qed.

(** A retry is a failed attempt and a failover. *)
Lemma retry_run c peer io guard s :
  (∀ r, at_outcome io ≠ Answered r) →
  ∃ failed, failed_attempt io (res_logical_peer_url peer) failed ∧
    runs (ac_name c) (failed ++ [UFailover (as_secs (at_end io))]) [guard] [] [] s (retry_after c peer io guard s).
Proof.
  intros Hno. unfold retry_after.
  assert (∃ failed, failed_attempt io (res_logical_peer_url peer) failed ∧
    runs (ac_name c) failed [guard] [guard] [] s
      match at_outcome io with
      | ClientFailed text => record_client_failure c peer text s
      | _ => with_stats (record_upstream_peer_timeout (ac_name c) (res_logical_peer_url peer)) s
      end) as (failed & Hf & Hr).
  { destruct (at_outcome io) as [r|text|] eqn:Ho; [by destruct (Hno r)| |]; eexists.
    - split; [by apply (failed_client _ _ text)|]. apply runs_client_failure.
    - split; [by apply failed_timeout|]. apply (runs_event _ (UPeerTimeout _)). }
  exists failed. split; [done|]. eapply runs_step; [exact Hr|]. rewrite <-(app_nil_r [UFailover _]).
  eapply runs_step; [apply (runs_event _ (UFailover _))|]. rewrite <-(app_nil_l []) at 1.
  eapply (runs_step _ [] []); [apply runs_peer_failed|apply runs_drop].
Qed.

(** A stale response, or what is said otherwise. *)
Lemma stale_or_run c (P : Ending) reason io guard otherwise s response s' :
  over P [] → otherwise (with_cache_state (serve_stale_for_reason (ac_cache c) (as_millis (at_end io)) reason StStale (fw_cache s)).2 s)
         = (response, s') →
  (∃ e, over P [e] ∧ runs (ac_name c) [e] [guard] [guard] []
                  (with_cache_state (serve_stale_for_reason (ac_cache c) (as_millis (at_end io)) reason StStale (fw_cache s)).2 s) s') →
  ends_run (ac_name c) P [guard] s (stale_or c reason io guard otherwise s).
Proof.
  intros H0 Ho (e & He & Hr). unfold stale_or. destruct (serve_stale_for_reason _ _ _ _ _) as [[stale|] cache]; cbn [snd] in *.
  - apply (ends_dropped _ _ []); [done|apply runs_cache].
  - rewrite Ho. apply (ends_dropped _ _ ([] ++ [e])); [done|]. eapply runs_step; [apply runs_cache|done].
Qed.

(** The end of a last attempt. *)
Definition attempt_ends (c : AttemptContext) (peer : ResolvedUpstreamPeer) (io : AttemptIo) : Ending :=
  last_attempt (ac_downstream_upgrade c) (fcc_store (ac_cache c)) (ac_name c) peer io.

Lemma last_timeout_run c peer io guard s :
  at_outcome io = TimedOut → ends_run (ac_name c) (attempt_ends c peer io) [guard] s (last_timeout c peer io guard s).
Proof.
  intros Ho. unfold last_timeout. pose proof (failed_timeout io (res_logical_peer_url peer) Ho) as Hf.
  eapply (ends_after _ (λ rest, attempt_ends c peer io (UPeerTimeout (res_logical_peer_url peer) :: rest)) _
            ([UPeerTimeout (res_logical_peer_url peer)] ++ []));
    [eapply runs_step; [apply (runs_event _ (UPeerTimeout _))|apply runs_peer_failed]| |done].
  eapply stale_or_run; [intros r s'; by apply last_stale|done|].
  eexists. split; [intros r s'; by apply (last_timed_out _ _ _ _ _ _ r s' Ho Hf)|]. apply (runs_event _ (UGatewayTimeout _)).
Qed.

Lemma last_failure_run c peer io guard text s :
  at_outcome io = ClientFailed text →
  ends_run (ac_name c) (attempt_ends c peer io) [guard] s (last_failure c peer io guard text s).
Proof.
  intros Ho. unfold last_failure. assert (at_outcome io ≠ TimedOut) as Hno by congruence.
  destruct (downstream_request_body_limit _).
  { apply (ends_dropped _ _ [UPayloadTooLarge]); [by intros r s'; apply last_too_large|apply (runs_event _ UPayloadTooLarge)]. }
  destruct (invalid_downstream_request_body_error _).
  { apply (ends_dropped _ _ [UBadRequest]); [by intros r s'; apply last_invalid|apply (runs_event _ UBadRequest)]. }
  pose proof (failed_client io (res_logical_peer_url peer) text Ho) as Hf.
  match type of Hf with failed_attempt _ _ ?e =>
    eapply (ends_after _ (λ rest, attempt_ends c peer io (e ++ rest)) _ (e ++ []));
      [eapply runs_step; [apply runs_client_failure|apply runs_peer_failed]| |done] end.
  eapply stale_or_run; [intros r s'; by apply last_stale|done|].
  eexists. split; [intros r s'; by apply (last_unavailable _ _ _ _ _ _ _ r s' Ho Hf)|]. apply (runs_event _ (UBadGateway _)).
Qed.

(** The response of an answered request: the cache replaces it and the guard
    is given back, or it is sent with the guard, or it is an upgrade, whose
    guard goes to the tunnel. *)
Inductive sent (response : UpstreamResponse) (context : UpstreamSuccessContext) (now : Z) (s : ForwardState)
  : list UpstreamEvent → Outcome → list ActivePeerGuard → Prop :=
| sent_replaced answer s' :
    replaced (us_cache_store context) response now → sent response context now s [] (answer, None, s') []
| sent_switched answer s' :
    switches (us_downstream_upgrade context) response = true → rsp_status answer = ur_status response →
    get_health (fw_health s') = get_health (fw_health s) →
    sent response context now s [] (answer, None, s') [us_active_peer context]
| sent_body answer s' :
    switches (us_downstream_upgrade context) response = false → get_health (fw_health s') = get_health (fw_health s) →
    sent response context now s [] (answer, Some (us_active_peer context), s') [].

Lemma refreshes_replaced response context store now :
  refreshing_store context response = Some store → replaced (us_cache_store context) response now.
Proof.
  unfold refreshing_store. destruct (us_cache_store context) as [cached|]; [|done]. cbn [mbind option_bind].
  destruct (should_refresh_from_not_modified _ _) eqn:Hr; [|done]. intros _. exists cached. auto.
Qed.

Lemma stale_replaced response context now cache stale cache' :
  stale_instead context response now cache = (Some stale, cache') → replaced (us_cache_store context) response now.
Proof.
  unfold stale_instead. destruct (us_cache_store context) as [cached|]; [|done].
  destruct (can_serve_stale _ _ _) eqn:Hs; [|done]. intros _. exists cached. auto.
Qed.

Lemma built_status response name peer_url idle_timeout deadline mode guard log downstream :
  build_downstream_response response name peer_url idle_timeout deadline mode guard log = Some downstream →
  rsp_status downstream = ur_status response.
Proof.
  unfold build_downstream_response. destruct (negb _ && _); cbn [mbind option_bind]; [by intros [= <-]|].
  destruct guard; [|done]. destruct mode; cbn [mbind option_bind]; [destruct (extract_grpc_initial_trailers _)|]; by intros [= <-].
Qed.

Lemma success_run name response context now s result :
  finalize_upstream_success response context now s = Some result →
  ends_run name (sent response context now s) [us_active_peer context] s result.
Proof.
  unfold finalize_upstream_success. destruct (refreshing_store _ _) as [store|] eqn:Href.
  { destruct (cb_complete_not_modified _ _ _) as [refreshed cache]. intros [= <-].
    apply (ends_dropped _ _ []); [intros r s'; apply sent_replaced; by eapply refreshes_replaced|apply runs_cache]. }
  destruct (stale_instead _ _ _ _) as [[stale|] cache] eqn:Hstale.
  { intros [= <-]. apply (ends_dropped _ _ []); [intros r s'; apply sent_replaced; by eapply stale_replaced|apply runs_cache]. }
  destruct (us_downstream_upgrade context && _) eqn:Hup;
    (destruct (build_downstream_response _ _ _ _ _ _ _ _) as [downstream|] eqn:Hb; [|done]); apply built_status in Hb;
    cbn [mbind option_bind].
  - cbn [apply_cache_store]. intros [= <-]. exists [], [us_active_peer context]. split_and!; [|simpl; lia|].
    + apply sent_switched; [exact Hup|by destruct (us_cache_status context)|done].
    + eapply (runs_step _ [] []); [apply (runs_cache _ _ cache)|]. eapply (runs_trans _ [] [] _ _ _ _ []); [apply runs_upgraded|apply runs_cache].
  - destruct (apply_cache_store _ _ _ _) as [r cache']. intros [= <-]. exists [], []. split_and!; [|simpl; lia|].
    + by apply sent_body.
    + eapply (runs_step _ [] []); [apply (runs_cache _ _ cache)|apply runs_cache].
Qed.

Lemma finalize_body_run c peer io built headers h s response s' r :
  at_outcome io = Answered r →
  finalize_streaming_request_body (completion_of io built) headers (ac_name c) (at_end io) s = (Err response, s') →
  ∃ events, over (attempt_ends c peer io) events ∧ runs (ac_name c) events h h [] s s'.
Proof.
  intros Ho. unfold finalize_streaming_request_body, completion_of. assert (at_outcome io ≠ TimedOut) as Hno by congruence.
  destruct (bu_body_completion built) as [result|]; [|done]. destruct (at_relay_lost io) eqn:Hlost.
  { intros [= _ <-]. exists []. split; [intros ? ?; by eapply last_relay_lost|apply runs_refl]. }
  destruct result as [[]|error]; [done|].
  destruct (downstream_request_body_limit _); [|destruct (invalid_downstream_request_body_error _)]; intros [= _ <-].
  - exists [UPayloadTooLarge]. split; [intros ? ?; by apply last_too_large|apply (runs_event _ UPayloadTooLarge)].
  - exists [UBadRequest]. split; [intros ? ?; by apply last_invalid|apply (runs_event _ UBadRequest)].
  - eexists [UBadGateway _]. split; [intros ? ?; by eapply last_relay_failed|apply (runs_event _ (UBadGateway _))].
Qed.

Lemma finalize_body_quiet completion headers name now s s' u :
  finalize_streaming_request_body completion headers name now s = (Ok u, s') → s' = s.
Proof.
  unfold finalize_streaming_request_body. destruct completion as [| |[|error]]; try done; try by intros [= _ <-].
  destruct (downstream_request_body_limit _); [|destruct (invalid_downstream_request_body_error _)]; done.
Qed.

Lemma answered_run c peer io guard built response s result :
  at_outcome io = Answered response → peer_guard (ac_name c) peer guard s →
  answered c peer io guard built response s = Some result →
  ends_run (ac_name c) (attempt_ends c peer io) [guard] s result.
Proof.
  intros Ho Hguard. unfold answered. destruct (finalize_streaming_request_body _ _ _ _ _) as [[[]|error] s1] eqn:Hf.
  - apply finalize_body_quiet in Hf as ->. intros Hs%(success_run (ac_name c)).
    set (url := res_logical_peer_url peer) in *. set (now := as_secs (at_end io)) in *.
    eapply (ends_after _ _ _ ([UPeerSuccess url] ++ [UCompleted now] ++ [])); [|exact Hs|].
    + eapply runs_step; [apply (runs_event _ (UPeerSuccess _))|]. eapply runs_step; [apply (runs_event _ (UCompleted _))|].
      apply runs_success.
    + intros rest gained Hsent. assert (∀ s', get_health (fw_health s') = get_health (record_success (ac_name c) (res_endpoint_key peer) (fw_health s)).2 →
        peer_guard (ac_name c) peer guard s') as Hkeys.
      { intros s' Hk. eapply same_keys; [|exact Hguard]. by rewrite Hk, success_keys. }
      destruct Hsent as [answer s' Hr|answer s' Hup Hst Hk|answer s' Hup Hk].
      * by eapply last_replaced.
      * eapply last_switched; [done|done|by apply Hkeys|done].
      * eapply last_sent; [done|done|by apply Hkeys].
  - intros [= <-]. eapply finalize_body_run in Hf as (events & Hl & Hr); [|done]. by apply (ends_dropped _ _ events).
Qed.

Lemma attempts_run c ios attempt_index peers prepared_request s result :
  forward_attempts uri_builds c ios attempt_index peers prepared_request s = Some result →
  ends_run (ac_name c)
    (attempts_recorded (ac_downstream_upgrade c) (fcc_store (ac_cache c)) (ac_name c) ios attempt_index peers) [] s result.
Proof.
  revert attempt_index prepared_request s. induction peers as [|peer peers IH]; intros attempt_index prepared_request s.
  { intros [= <-]. eapply ends_refused; [intros ? ?; apply recorded_unbuilt|apply (runs_event _ (UBadGateway _))]. }
  cbn [forward_attempts]. destruct (build_for_peer _ _ _ _ _ _ _) as [[built prepared]|error].
  2: { intros [= <-]. eapply ends_refused; [intros ? ?; apply recorded_unbuilt|apply (runs_event _ (UBadGateway _))]. }
  destruct (start_attempt _ _ _ _) as [guard s1] eqn:Hstart. pose proof (start_guard _ _ _ _ _ _ Hstart) as Hguard. apply runs_start in Hstart.
  set (Ends := attempts_recorded _ _ _ _ attempt_index (peer :: peers)).
  assert (∀ r, ends_run (ac_name c) (attempt_ends c peer (ios attempt_index)) [guard] s1 r → ends_run (ac_name c) Ends [] s r) as Hlast.
  { intros r Hr. eapply ends_after; [exact Hstart|exact Hr|]. intros rest gained. apply recorded_last. }
  assert ((∀ r, at_outcome (ios attempt_index) ≠ Answered r) →
    forward_attempts uri_builds c ios (S attempt_index) peers prepared (retry_after c peer (ios attempt_index) guard s1) = Some result →
    ends_run (ac_name c) Ends [] s result) as Hagain.
  { intros Hno Hr%IH. destruct (retry_run c peer (ios attempt_index) guard s1 Hno) as (failed & Hf & Hretry).
    eapply ends_after; [eapply runs_step; [exact Hstart|exact Hretry]|exact Hr|]. intros rest gained Hrest.
    rewrite <-!app_assoc. by apply recorded_again. }
  destruct (at_outcome (ios attempt_index)) as [response|text|] eqn:Ho.
  - intros Ha. by apply Hlast, (answered_run _ _ (ios attempt_index) guard built response s1).
  - destruct (can_retry_peer_request _ _ _); [by apply Hagain|]. intros [= <-]. by apply Hlast, last_failure_run.
  - destruct (can_retry_peer_request _ _ _); [by apply Hagain|]. intros [= <-]. by apply Hlast, last_timeout_run.
Qed.

(** ** The whole request *)

(** What the cache may replace or store: the context of a lookup that missed. *)
Definition stores (downstream : DownstreamRequestContext) (request : CacheRequest) (cache : Cache)
    (store : option CacheStoreContext) : Prop :=
  ∀ cached, store = Some cached →
    ∃ policy, do_cache (dc_options downstream) = Some policy ∧
      do_response_buffering (dc_options downstream) ≠ BufferingOff ∧
      (cb_lookup request (dc_downstream_proto downstream) policy cache).1 = BackendMiss cached.

(** What a request records: nothing if the cache answers; the request and its
    refusal; or the request and its attempts. *)
Inductive request_recorded (upgrade : bool) (stored : option CacheStoreContext → Prop) (name : string) (ios : nat → AttemptIo)
  : list UpstreamEvent → Outcome → list ActivePeerGuard → Prop :=
| recorded_cached response s : request_recorded upgrade stored name ios [] (response, None, s) []
| recorded_refused now refusal response s :
    (∃ later, refusal = [UBadGateway later]) ∨ refusal = [UBadRequest] ∨ refusal = [UPayloadTooLarge] ∨
    refusal = [UUnsupportedMediaType] ∨ (∃ later, refusal = [UNoHealthyPeers; UBadGateway later]) →
    request_recorded upgrade stored name ios (URequest now :: refusal) (response, None, s) []
| recorded_attempts now store peers events result gained :
    (length peers ≤ MAX_FAILOVER_ATTEMPTS)%nat → stored store →
    attempts_recorded upgrade store name ios 0 peers events result gained →
    request_recorded upgrade stored name ios (URequest now :: events) result gained.

(** Refused before an attempt. *)
Definition refused_with (events : list UpstreamEvent) : Prop :=
  ∀ upgrade stored name ios, over (request_recorded upgrade stored name ios) events.

Lemma refused_run name now e s s1 :
  runs name [URequest now] [] [] [] s s1 →
  (∃ later, e = UBadGateway later) ∨ e = UBadRequest ∨ e = UPayloadTooLarge ∨ e = UUnsupportedMediaType →
  ∃ events, refused_with events ∧ runs name events [] [] [] s (with_stats (upstream_step name e) s1).
Proof.
  intros H1 He. exists ([URequest now] ++ [e]). split; [|eapply runs_step; [exact H1|apply runs_event]].
  intros upgrade stored name' ios response s'. apply recorded_refused. destruct He as [(later & ->)|[->|[-> | ->]]]; eauto 6.
Qed.

Lemma prepare_run io request target addr downstream s prepared s' :
  prepare_forward_request io request target addr downstream s = (prepared, s') →
  match prepared with
  | Ok prepared =>
      runs (tgt_upstream_name target) [URequest (as_secs (si_now io))] [] [] [] s s' ∧
      (length (pf_peers prepared) ≤ MAX_FAILOVER_ATTEMPTS)%nat
  | Err _ => ∃ events, refused_with events ∧ runs (tgt_upstream_name target) events [] [] [] s s'
  end.
Proof.
  unfold prepare_forward_request. set (name := tgt_upstream_name target). set (now := as_secs (si_now io)).
  set (s1 := with_stats (record_upstream_request name now) s).
  assert (runs name [URequest now] [] [] [] s s1) as H1 by apply (runs_event name (URequest now)).
  destruct (detect_grpc_web_mode _) as [mode|message];
    [|intros [= <- <-]; apply (refused_run name now UUnsupportedMediaType); auto].
  destruct (effective_upstream_request_timeout _ _) as [timeout|message];
    [|intros [= <- <-]; apply (refused_run name now UBadRequest); auto].
  destruct (negb (si_client io)); [intros [= <- <-]; apply (refused_run name now (UBadGateway now)); eauto|].
  destruct (is_upgrade_request _ _ && _); [intros [= <- <-]; apply (refused_run name now (UBadGateway now)); eauto|].
  destruct (from_request _ _ _ _ _ _ _ _) as [prepared_request|[limit|error]].
  2: intros [= <- <-]; apply (refused_run name now UPayloadTooLarge); auto.
  2: { destruct (invalid_downstream_request_body_error _); intros [= <- <-];
         [apply (refused_run name now UBadRequest)|apply (refused_run name now (UBadGateway now))]; eauto. }
  destruct (select_peers _ _ _ _ _ _) as [[selected cursor] health] eqn:Hsel.
  match type of Hsel with select_peers ?resolve ?at_ ?u ?ip ?limit ?r = _ =>
    pose proof (select_peers_within resolve at_ u ip limit r) as [Hsteps Hwithin]; rewrite Hsel in Hsteps, Hwithin end.
  cbn [fst snd] in *.
  assert (runs name [URequest now] [] [] [] s (with_selection cursor health s1)) as H2.
  { rewrite <-(app_nil_r [URequest now]). eapply runs_step; [exact H1|by apply runs_selection]. }
  destruct (from_option sel_peers [] selected) as [|peer peers] eqn:Hpeers; intros [= <- <-].
  - exists ([URequest now] ++ [UNoHealthyPeers] ++ [UBadGateway now]). split; [intros ? ? ? ? ? ?; apply recorded_refused; eauto 8|].
    eapply runs_step; [exact H2|]. eapply runs_step; [apply (runs_event name UNoHealthyPeers)|].
    apply (runs_event name (UBadGateway now)).
  - split; [done|]. simpl pf_peers. destruct selected as [sel|]; [|done]. specialize (Hwithin sel eq_refl). simpl in Hpeers.
    rewrite Hpeers in Hwithin. etransitivity; [exact Hwithin|]. destruct (can_failover _); unfold MAX_FAILOVER_ATTEMPTS; lia.
Qed.

(** The names of the headers that the cache sets in a request. *)
Definition cache_names : list string := ["range"; "if-none-match"; "if-modified-since"]%string.

Lemma range_headers_keep `{!HttpLaws HTTP} method headers policy headers' name :
  apply_upstream_range_headers method headers policy = Some headers' → name ∉ cache_names →
  hm_get_all headers' name = hm_get_all headers name.
Proof.
  intros H Hn. unfold apply_upstream_range_headers in H.
  destruct (cacheable_range_request_from_parts _ _ _); [|by injection H as <-].
  destruct (hv_from_str _); [|done]. cbn [mbind option_bind] in H. injection H as <-.
  assert ("range"%string ≠ name) by (unfold cache_names in Hn; set_solver).
  by rewrite hm_get_all_insert_ne, hm_get_all_remove_ne.
Qed.

Lemma conditional_headers_keep `{!HttpLaws HTTP} store headers name :
  name ∉ cache_names → hm_get_all (apply_conditional_request_headers store headers) name = hm_get_all headers name.
Proof.
  intros Hn. unfold apply_conditional_request_headers, insert_opt.
  assert ("if-modified-since"%string ≠ name ∧ "if-none-match"%string ≠ name) as [] by (unfold cache_names in Hn; set_solver).
  repeat case_match; rewrite ?hm_get_all_insert_ne; done.
Qed.

Lemma forward_headers_keep `{!HttpLaws HTTP} cache headers headers' name :
  forward_upstream_headers cache headers = Some headers' → name ∉ cache_names →
  hm_get_all (forward_conditional_headers cache headers') name = hm_get_all headers name.
Proof.
  unfold forward_upstream_headers, forward_conditional_headers. destruct (preparing_store cache) as [store|]; [|by intros [= <-]].
  intros H Hn. rewrite conditional_headers_keep by done. by eapply range_headers_keep.
Qed.

Lemma prepared_modes io request target addr downstream s prepared s' :
  prepare_forward_request io request target addr downstream s = (Ok prepared, s') →
  pf_downstream_upgrade prepared = is_upgrade_request (dr_version request) (dr_headers request) ∧
  detect_grpc_web_mode (dr_headers request) = Ok (pf_grpc_web_mode prepared).
Proof.
  unfold prepare_forward_request. destruct (detect_grpc_web_mode _); [|done].
  destruct (effective_upstream_request_timeout _ _); [|done]. destruct (negb _); [done|]. destruct (_ && bool_decide _); [done|].
  destruct (from_request _ _ _ _ _ _ _ _) as [|[]]; [|done|by destruct (invalid_downstream_request_body_error _)].
  destruct (select_peers _ _ _ _ _ _) as [[selected cursor] health].
  destruct (from_option sel_peers [] selected); by intros [= <- _].
Qed.

(** The client's own headers decide. *)
Lemma modes_of_client `{!HttpLaws HTTP} io request target addr downstream s prepared s' cache method headers :
  forward_upstream_headers cache (dr_headers request) = Some headers →
  prepare_forward_request io (with_request method (forward_conditional_headers cache headers) request) target addr downstream s
    = (Ok prepared, s') →
  pf_downstream_upgrade prepared = is_upgrade_request (dr_version request) (dr_headers request) ∧
  detect_grpc_web_mode (dr_headers request) = Ok (pf_grpc_web_mode prepared).
Proof.
  intros Hh Hp. apply prepared_modes in Hp as [-> Hmode]. cbn [with_request dr_version dr_headers] in *.
  pose proof (λ name, forward_headers_keep cache _ _ name Hh) as Hkeep.
  split.
  - unfold is_upgrade_request, extract_upgrade_protocol, connection_header_contains_token, hm_get.
    rewrite !Hkeep; [done|unfold cache_names; set_solver..].
  - rewrite <-Hmode. unfold detect_grpc_web_mode, hm_get. rewrite Hkeep; [done|unfold cache_names; set_solver].
Qed.

Lemma resolved_stores downstream request cache context cache' :
  resolve_forward_cache downstream request cache = (Ok context, cache') → stores downstream request cache (fcc_store context).
Proof.
  unfold resolve_forward_cache, lookup_forward_cache, stores.
  destruct (do_cache (dc_options downstream)) as [policy|]; [|by intros [= <- _] ?].
  destruct (do_response_buffering (dc_options downstream)); try (by intros [= <- _] ?);
    (destruct (cb_lookup _ _ _ _) as [[r|c|r c|status] c'] eqn:Hl; try done; intros [= <- _] cached [= <-]; exists policy;
     by rewrite Hl).
Qed.

(** The events of a request of [request] and what it holds in the end. *)
Definition forward_ends (io : ForwardIo) (uri : Uri) (request : DownstreamRequest) (target : ProxyTarget)
    (downstream : DownstreamRequestContext) (s : ForwardState) : Ending :=
  request_recorded (is_upgrade_request (dr_version request) (dr_headers request))
    (stores downstream (mkCacheRequest (dr_method request) uri (dr_headers request)) (fw_cache s))
    (tgt_upstream_name target) (fi_attempts io).

Lemma forward_run `{!HttpLaws HTTP} io uri request target addr downstream s fd s' :
  forward_request uri_builds io uri request target addr downstream s = Some (fd, s') →
  ends_run (tgt_upstream_name target) (forward_ends io uri request target downstream s) [] s (fd_response fd, fd_guard fd, s').
Proof.
  unfold forward_request. destruct (resolve_forward_cache _ _ _) as [resolved cache_state] eqn:Hresolved.
  set (s1 := with_cache_state cache_state s).
  assert (runs (tgt_upstream_name target) [] [] [] [] s s1) as H1 by apply runs_cache.
  destruct resolved as [cache|[response background]].
  2: { intros [= <- <-]. eapply ends_refused; [intros ? ?; apply recorded_cached|done]. }
  apply resolved_stores in Hresolved.
  destruct (forward_upstream_headers _ _) as [headers|] eqn:Hh; [|done]. cbn [mbind option_bind].
  destruct (prepare_forward_request _ _ _ _ _ _) as [[prepared|response] s2] eqn:Hp.
  - destruct (modes_of_client _ _ _ _ _ _ _ _ _ _ _ Hh Hp) as [Hup _].
    apply prepare_run in Hp as [H2 Hn]. destruct (forward_attempts _ _ _ _ _ _ _) as [[[response guard] s3]|] eqn:Ha; [|done].
    intros [= <- <-]. apply attempts_run in Ha. eapply ends_after; [exact (runs_step _ [] _ _ _ _ _ _ _ _ H1 H2)|exact Ha|].
    cbn [attempt_context ac_downstream_upgrade ac_cache fcc_store]. rewrite Hup. intros rest gained. by apply recorded_attempts.
  - apply prepare_run in Hp as (events & He & Hr). intros [= <- <-]. cbn [fd_response fd_guard].
    apply (ends_refused _ _ ([] ++ events)); [by intros r s'; apply He|]. by eapply runs_step.
Qed.

(** *** Panics *)

Lemma built_response response name peer_url idle_timeout deadline mode guard log :
  (mode = None ∧ is_upgrade_response (ur_status response) (ur_headers response) = true) ∨ is_some guard = true →
  is_Some (build_downstream_response response name peer_url idle_timeout deadline mode guard log).
Proof.
  unfold build_downstream_response. intros [[-> ->]|Hg]; [by eexists|]. destruct guard as [guard|]; [|done].
  destruct (negb _ && _); [by eexists|]. cbn [mbind option_bind].
  destruct mode; [|by eexists]. destruct (extract_grpc_initial_trailers _). by eexists.
Qed.

Lemma success_panics response context now s :
  finalize_upstream_success response context now s = None →
  switches (us_downstream_upgrade context) response = true ∧ us_grpc_web_mode context ≠ None.
Proof.
  unfold finalize_upstream_success, switches.
  destruct (refreshing_store _ _); [by destruct (cb_complete_not_modified _ _ _)|].
  destruct (stale_instead _ _ _ _) as [[] cache]; [done|].
  destruct (us_downstream_upgrade context && _) eqn:Hup.
  - intros Hnone. split; [done|]. intros Hmode. apply andb_true_iff in Hup as [_ Hup]. rewrite Hmode in Hnone.
    match type of Hnone with context [build_downstream_response ?a ?b ?c ?d ?e ?f ?g ?h] =>
      destruct (built_response a b c d e f g h) as [r Hr]; [by left|]; rewrite Hr in Hnone end. done.
  - match goal with |- context [build_downstream_response ?a ?b ?c ?d ?e ?f (Some ?g) ?h] =>
      destruct (built_response a b c d e f (Some g) h) as [r ->]; [by right|] end.
    cbn [mbind option_bind]. by destruct (apply_cache_store _ _ _ _).
Qed.

Lemma attempts_panic c ios attempt_index peers prepared_request s :
  forward_attempts uri_builds c ios attempt_index peers prepared_request s = None →
  ac_grpc_web_mode c ≠ None ∧
  ∃ i r, (i < attempt_index + length peers)%nat ∧ at_outcome (ios i) = Answered r ∧ switches (ac_downstream_upgrade c) r = true.
Proof.
  revert attempt_index prepared_request s. induction peers as [|peer peers IH]; intros i p s; [done|].
  cbn [forward_attempts length]. destruct (build_for_peer _ _ _ _ _ _ _) as [[built prepared]|]; [|done].
  destruct (start_attempt _ _ _ _) as [guard s1].
  assert (∀ p' s', forward_attempts uri_builds c ios (S i) peers p' s' = None → ac_grpc_web_mode c ≠ None ∧
    ∃ j r, (j < i + S (length peers))%nat ∧ at_outcome (ios j) = Answered r ∧ switches (ac_downstream_upgrade c) r = true) as Hagain.
  { intros p' s' (Hm & j & r & Hj & Hr)%IH. split; [done|]. exists j, r. split; [lia|done]. }
  destruct (at_outcome (ios i)) as [r|text|] eqn:Ho.
  - unfold answered. destruct (finalize_streaming_request_body _ _ _ _ _) as [[] s2]; [|done].
    intros [Hs Hm]%success_panics. split; [done|]. exists i, r. split; [lia|done].
  - destruct (can_retry_peer_request _ _ _); [apply Hagain|done].
  - destruct (can_retry_peer_request _ _ _); [apply Hagain|done].
Qed.

(** A route's slices are not empty, as its configuration was checked. *)
Definition slices_ok (store : CacheStoreContext) : Prop :=
  ∀ n, pol_slice_size_bytes (sc_policy store) = Some n → 0 < n.

Lemma forward_headers_answer `{!HttpLaws HTTP} cache headers :
  (∀ store, fcc_store cache = Some store → slices_ok store) → is_Some (forward_upstream_headers cache headers).
Proof.
  intros Hs. unfold forward_upstream_headers, preparing_store. destruct (fcc_store cache) as [store|]; [|by eexists].
  cbn [mbind option_bind]. destruct (sc_store_response store); [|by eexists].
  edestruct (upstream_range_is_cached_slice (req_method (sc_request store)) headers (sc_policy store)) as (h & -> & _);
    [by apply Hs|by eexists].
Qed.

(** What a request relies on: the slices of a route are not empty. *)
Definition cache_slices_ok : Prop :=
  ∀ request scheme policy cache store,
    ((cb_lookup request scheme policy cache).1 = BackendMiss store ∨
     (∃ r, (cb_lookup request scheme policy cache).1 = BackendUpdating r store)) → slices_ok store.

Lemma resolved_slices downstream request cache context cache' :
  cache_slices_ok → resolve_forward_cache downstream request cache = (Ok context, cache') →
  ∀ store, fcc_store context = Some store → slices_ok store.
Proof.
  intros Hok Hr store Hs. destruct (resolved_stores _ _ _ _ _ Hr store Hs) as (policy & _ & _ & Hl).
  eapply (Hok request (dc_downstream_proto downstream) policy cache). by left.
Qed.

(** A gRPC-Web client asks for an upgrade over HTTP/1.1 and a peer grants it. *)
Record grpc_web_upgrade (request : DownstreamRequest) (ios : nat → AttemptIo) : Prop := {
  gwu_asked : is_upgrade_request (dr_version request) (dr_headers request) = true;
  gwu_client : ∃ mode, detect_grpc_web_mode (dr_headers request) = Ok (Some mode);
  gwu_granted : ∃ i r, (i < MAX_FAILOVER_ATTEMPTS)%nat ∧ at_outcome (ios i) = Answered r ∧
                       is_upgrade_response (ur_status r) (ur_headers r) = true;
}.

(** Nothing else panics. *)
Lemma forward_panics `{!HttpLaws HTTP} io uri request target addr downstream s :
  cache_slices_ok → forward_request uri_builds io uri request target addr downstream s = None →
  grpc_web_upgrade request (fi_attempts io).
Proof.
  intros Hslices. unfold forward_request.
  destruct (resolve_forward_cache _ _ _) as [[cache|[response background]] cache_state] eqn:Hr; [|done].
  destruct (forward_headers_answer cache (dr_headers request) (resolved_slices _ _ _ _ _ Hslices Hr)) as [headers Hh].
  rewrite Hh. cbn [mbind option_bind].
  destruct (prepare_forward_request _ _ _ _ _ _) as [[prepared|response] s2] eqn:Hp; [|done].
  destruct (modes_of_client _ _ _ _ _ _ _ _ _ _ _ Hh Hp) as [Hup Hmode]. apply prepare_run in Hp as [_ Hn].
  destruct (forward_attempts _ _ _ _ _ _ _) as [[[response guard] s3]|] eqn:Ha; [done|]. intros _.
  apply attempts_panic in Ha as (Hm & i & r & Hi & Ho & [Hu Hs]%andb_true_iff).
  cbn [attempt_context ac_downstream_upgrade ac_grpc_web_mode] in *. split.
  - by rewrite <-Hup.
  - destruct (pf_grpc_web_mode prepared) as [mode|]; [by eexists|done].
  - exists i, r. split; [lia|done].
Qed.

(** ** What is counted *)

Definition is_attempt (e : UpstreamEvent) : Prop := match e with UPeerAttempt _ _ => True | _ => False end.
Definition is_success (e : UpstreamEvent) : Prop := match e with UPeerSuccess _ => True | _ => False end.
Definition is_peer_failure (e : UpstreamEvent) : Prop :=
  match e with UPeerFailure _ | UPeerTimeout _ => True | _ => False end.
Definition is_timeout (e : UpstreamEvent) : Prop := match e with UPeerTimeout _ => True | _ => False end.
Definition is_failover (e : UpstreamEvent) : Prop := match e with UFailover _ => True | _ => False end.
Definition is_completed (e : UpstreamEvent) : Prop := match e with UCompleted _ => True | _ => False end.
Definition is_refusal (e : UpstreamEvent) : Prop :=
  match e with
  | UBadGateway _ | UGatewayTimeout _ | UBadRequest | UPayloadTooLarge | UUnsupportedMediaType => True
  | _ => False
  end.
#[export] Instance is_attempt_dec e : Decision (is_attempt e).
Proof. destruct e; apply _. Defined.
#[export] Instance is_success_dec e : Decision (is_success e).
Proof. destruct e; apply _. Defined.
#[export] Instance is_peer_failure_dec e : Decision (is_peer_failure e).
Proof. destruct e; apply _. Defined.
#[export] Instance is_timeout_dec e : Decision (is_timeout e).
Proof. destruct e; apply _. Defined.
#[export] Instance is_failover_dec e : Decision (is_failover e).
Proof. destruct e; apply _. Defined.
#[export] Instance is_completed_dec e : Decision (is_completed e).
Proof. destruct e; apply _. Defined.
#[export] Instance is_refusal_dec e : Decision (is_refusal e).
Proof. destruct e; apply _. Defined.

Definition count (P : UpstreamEvent → Prop) `{∀ e, Decision (P e)} (events : list UpstreamEvent) : nat :=
  length (filter P events).

Lemma count_app P `{∀ e, Decision (P e)} a b : count P (a ++ b) = (count P a + count P b)%nat.
Proof. unfold count. by rewrite filter_app, length_app. Qed.
Lemma count_cons P `{∀ e, Decision (P e)} e events : count P (e :: events) = ((if decide (P e) then 1 else 0) + count P events)%nat.
Proof. unfold count. rewrite filter_cons. by destruct (decide (P e)). Qed.


Definition timed_out (io : AttemptIo) : bool := match at_outcome io with TimedOut => true | _ => false end.

Lemma not_timed_out io : at_outcome io ≠ TimedOut → timed_out io = false.
Proof. unfold timed_out. by destruct (at_outcome io). Qed.

(** How many of the [n] attempts from the [i]-th one on time out. *)
Definition timeouts (ios : nat → AttemptIo) (i n : nat) : nat :=
  length (List.filter (λ k, timed_out (ios k)) (seq i n)).

Lemma timeouts_succ ios i n :
  timeouts ios i (S n) = ((if timed_out (ios i) then 1 else 0) + timeouts ios (S i) n)%nat.
Proof. unfold timeouts. cbn [seq List.filter]. by destruct (timed_out (ios i)). Qed.

(** The client's own request was at fault, or its relay, and no peer. *)
Definition no_peer_at_fault (io : AttemptIo) (events : list UpstreamEvent) : Prop :=
  at_outcome io ≠ TimedOut ∧
  (UPayloadTooLarge ∈ events ∨ UBadRequest ∈ events ∨
   ∃ r, at_outcome io = Answered r ∧ (at_relay_lost io = true ∨ ∃ later, UBadGateway later ∈ events)).

Lemma no_peer_at_fault_mono io events events' :
  events ⊆ events' → no_peer_at_fault io events → no_peer_at_fault io events'.
Proof.
  intros Hsub [H0 [H|[H|(r & Hr & [H|(later & H)])]]]; (split; [done|]); [left; auto|right; left; auto|right; right..].
  - exists r. auto.
  - exists r. eauto.
Qed.

(** Of a request that could make [n] attempts, from the [i]-th one on. *)
Record accounted (ios : nat → AttemptIo) (i n : nat) (events : list UpstreamEvent) : Prop := {
  acc_attempts : (count is_attempt events ≤ n)%nat;
  acc_ended : (count is_attempt events = count is_success events + count is_peer_failure events)%nat ∨
              (count is_attempt events = S (count is_peer_failure events))%nat ∧ count is_success events = 0%nat ∧
              no_peer_at_fault (ios (i + count is_peer_failure events)%nat) events;
  acc_answered : count is_success events = 0%nat ∨
                 count is_success events = 1%nat ∧ ∃ r, at_outcome (ios (i + count is_peer_failure events)%nat) = Answered r;
  acc_timeouts : count is_timeout events = timeouts ios i (count is_attempt events);
  acc_failovers : (count is_failover events ≤ count is_peer_failure events)%nat;
  acc_again : (count is_attempt events ≤ count is_failover events + 1)%nat;
  acc_completed : count is_completed events = count is_success events;
  acc_answer : (count is_completed events + count is_refusal events ≤ 1)%nat;
}.

Lemma failed_counts io url failed : failed_attempt io url failed →
  count is_attempt failed = 0%nat ∧ count is_success failed = 0%nat ∧ count is_peer_failure failed = 1%nat ∧
  count is_failover failed = 0%nat ∧ count is_completed failed = 0%nat ∧ count is_refusal failed = 0%nat ∧
  count is_timeout failed = (if timed_out io then 1 else 0)%nat.
Proof. intros [text Ho|Ho]; unfold timed_out; by rewrite Ho. Qed.

Lemma last_accounted upgrade store name peer ios i n last result gained :
  last_attempt upgrade store name peer (ios i) last result gained →
  accounted ios i (S n) (UPeerAttempt (res_logical_peer_url peer) (as_secs (at_start (ios i))) :: last).
Proof.
  assert (∀ r, at_outcome (ios i) = Answered r →
    accounted ios i (S n) [UPeerAttempt (res_logical_peer_url peer) (as_secs (at_start (ios i)));
                           UPeerSuccess (res_logical_peer_url peer); UCompleted (as_secs (at_end (ios i)))]) as Hok.
  { intros r Ho. split; unfold count; simpl; try lia.
    - right. split; [done|]. rewrite Nat.add_0_r. by exists r.
    - rewrite timeouts_succ, not_timed_out; [done|congruence]. }
  assert (∀ refusal, at_outcome (ios i) ≠ TimedOut → count is_attempt refusal = 0%nat → count is_success refusal = 0%nat →
    count is_peer_failure refusal = 0%nat → count is_failover refusal = 0%nat → count is_completed refusal = 0%nat →
    count is_timeout refusal = 0%nat → (count is_refusal refusal ≤ 1)%nat → no_peer_at_fault (ios i) refusal →
    accounted ios i (S n) (UPeerAttempt (res_logical_peer_url peer) (as_secs (at_start (ios i))) :: refusal)) as Hrefused.
  { intros refusal Ho H1 H2 H3 H4 H5 H6 H7 Hf. split; rewrite ?count_cons, ?H1, ?H2, ?H3, ?H4, ?H5, ?H6; simpl; try lia.
    - right. split_and!; [done|done|]. rewrite Nat.add_0_r. eapply no_peer_at_fault_mono; [|exact Hf]. set_solver.
    - by rewrite timeouts_succ, not_timed_out. }
  assert (∀ failed refusal, failed_attempt (ios i) (res_logical_peer_url peer) failed →
    refusal = [] ∨ refusal = [UBadGateway (as_secs (at_end (ios i)))] ∨ refusal = [UGatewayTimeout (as_secs (at_end (ios i)))] →
    accounted ios i (S n) (UPeerAttempt (res_logical_peer_url peer) (as_secs (at_start (ios i))) :: failed ++ refusal)) as Hfailed.
  { intros failed refusal (H1 & H2 & H3 & H4 & H5 & H6 & H7)%failed_counts Hr.
    assert (∃ m, (m ≤ 1)%nat ∧ count is_refusal refusal = m) as (m & Hm & H8) by (destruct Hr as [->|[-> | ->]]; [exists 0%nat|exists 1%nat..]; unfold count; simpl; lia).
    assert (count is_attempt refusal = 0%nat ∧ count is_success refusal = 0%nat ∧ count is_peer_failure refusal = 0%nat ∧
            count is_failover refusal = 0%nat ∧ count is_completed refusal = 0%nat ∧ count is_timeout refusal = 0%nat)
      as (R1 & R2 & R3 & R4 & R5 & R6) by (destruct Hr as [->|[-> | ->]]; unfold count; simpl; lia).
    split; rewrite ?count_cons, ?count_app, ?H1, ?H2, ?H3, ?H4, ?H5, ?H6, ?H7, ?H8, ?R1, ?R2, ?R3, ?R4, ?R5, ?R6; simpl; try lia.
    rewrite timeouts_succ. cbn. lia. }
  destruct 1 as [r ?? ? Ho|r ??? Ho|r ?? Ho|?? Ho|?? Ho|r ?? Ho|r ?? Ho Hl|failed ?? Hf|failed text ?? Ho Hf|failed ?? Ho Hf];
    try (by eapply Hok).
  - apply Hrefused; try done. split; [done|]. left. set_solver.
  - apply Hrefused; try done. split; [done|]. right. left. set_solver.
  - apply Hrefused; try done; [congruence|]. split; [congruence|]. right. right. exists r. split; [done|]. right. exists (as_secs (at_end (ios i))). set_solver.
  - apply Hrefused; try done; [congruence|unfold count; simpl; lia|]. split; [congruence|]. right. right. exists r. auto.
  - rewrite <-(app_nil_r failed). apply Hfailed; auto.
  - apply Hfailed; auto.
  - apply Hfailed; auto.
Qed.

Lemma attempts_accounted upgrade store name ios i peers events result gained :
  attempts_recorded upgrade store name ios i peers events result gained → accounted ios i (length peers) events.
Proof.
  induction 1 as [i peers now|i peer peers last result gained Hl|i peer peers failed rest result gained Hf _ [A1 A2 A3 A4 A5 A6 A7 A8]].
  - split; unfold count; simpl; try lia. done.
  - by eapply last_accounted.
  - pose proof (failed_counts _ _ _ Hf) as (H1 & H2 & H3 & H4 & H5 & H6 & H7).
    split; rewrite ?count_cons, ?count_app, ?count_cons, ?H1, ?H2, ?H3, ?H4, ?H5, ?H6, ?H7; simpl; try lia.
    + destruct A2 as [A2|(A2 & A2' & A2'')]; [left; lia|right]. split_and!; [lia|lia|]. rewrite <-Nat.add_succ_comm.
      eapply no_peer_at_fault_mono; [|exact A2'']. set_solver.
    + destruct A3 as [A3|(A3 & r & Ho)]; [by left|right]. split; [done|]. rewrite <-Nat.add_succ_comm. by exists r.
    + rewrite timeouts_succ. cbn. lia.
Qed.

Lemma request_accounted upgrade stored name ios events result gained :
  request_recorded upgrade stored name ios events result gained → accounted ios 0 MAX_FAILOVER_ATTEMPTS events.
Proof.
  intros [|now refusal ?? Hr|now store peers rest ?? Hn _ Hr].
  - split; unfold count; simpl; try lia. done.
  - destruct Hr as [(later & ->)|[->|[->|[->|(later & ->)]]]]; split; unfold count; simpl; try lia; done.
  - apply attempts_accounted in Hr as [A1 A2 A3 A4 A5 A6 A7 A8]. split; rewrite ?count_cons; simpl; try lia; try done.
    destruct A2 as [A2|(A2 & A2' & A2'')]; [by left|right]. split_and!; [done|done|].
    eapply no_peer_at_fault_mono; [|exact A2'']. set_solver.
Qed.

Lemma last_no_request upgrade store name peer io events result gained now :
  last_attempt upgrade store name peer io events result gained → URequest now ∉ events.
Proof.
  destruct 1 as [| | | | | | |failed ?? Hf|failed text ?? _ Hf|failed ?? _ Hf]; try set_solver; destruct Hf; set_solver.
Qed.

Lemma attempts_no_request upgrade store name ios i peers events result gained now :
  attempts_recorded upgrade store name ios i peers events result gained → URequest now ∉ events.
Proof.
  induction 1 as [|i peer peers last result gained Hl|i peer peers failed rest result gained Hf _ IH]; [set_solver| |].
  - pose proof (last_no_request _ _ _ _ _ _ _ _ now Hl). set_solver.
  - destruct Hf; set_solver.
Qed.

Lemma counted_once upgrade stored name ios events result gained :
  request_recorded upgrade stored name ios events result gained →
  events = [] ∨ ∃ now rest, events = URequest now :: rest ∧ (∀ later, URequest later ∉ rest).
Proof.
  intros [|now refusal ?? Hr|now store peers rest ?? _ _ Hr]; [by left|right; eexists _, _; (split; [done|])..].
  - destruct Hr as [(later & ->)|[->|[->|[->|(later & ->)]]]]; set_solver.
  - intros later. by eapply attempts_no_request.
Qed.

(** What a request holds when it has been answered: nothing, unless an attempt
    completed; then nothing if the cache replaces the upstream's response; or
    else the guard of the peer that answered, which a tunnel has got if the
    client asked for an upgrade and the peer granted it, and the response's
    body otherwise. *)
Inductive holding (upgrade : bool) (stored : option CacheStoreContext → Prop) (name : string) (ios : nat → AttemptIo)
  : list UpstreamEvent → Outcome → list ActivePeerGuard → Prop :=
| holds_nothing events response s :
    count is_completed events = 0%nat → holding upgrade stored name ios events (response, None, s) []
| holds_replaced i r store events response s :
    count is_completed events = 1%nat → at_outcome (ios i) = Answered r →
    stored store → replaced store r (as_millis (at_end (ios i))) →
    holding upgrade stored name ios events (response, None, s) []
| holds_body i r peer guard events response s :
    count is_completed events = 1%nat → at_outcome (ios i) = Answered r → switches upgrade r = false →
    UPeerSuccess (res_logical_peer_url peer) ∈ events → peer_guard name peer guard s →
    holding upgrade stored name ios events (response, Some guard, s) []
| holds_tunnel i r peer guard events response s :
    count is_completed events = 1%nat → at_outcome (ios i) = Answered r → switches upgrade r = true →
    UPeerSuccess (res_logical_peer_url peer) ∈ events → peer_guard name peer guard s → rsp_status response = ur_status r →
    holding upgrade stored name ios events (response, None, s) [guard].

Lemma attempts_holding upgrade stored store name ios i peers events result gained before :
  stored store → attempts_recorded upgrade store name ios i peers events result gained →
  count is_completed before = 0%nat → holding upgrade stored name ios (before ++ events) result gained.
Proof.
  intros Hstored H. revert before. induction H as [i peers now r s|i peer peers last result gained Hl|i peer peers failed rest result gained Hf _ IH];
    intros before Hb.
  - apply holds_nothing. by rewrite count_app, Hb.
  - rewrite cons_middle, app_assoc. set (before' := before ++ _).
    assert (count is_completed before' = 0%nat) as Hb' by (unfold before'; by rewrite count_app, Hb). clearbody before'.
    assert (∀ l, failed_attempt (ios i) (res_logical_peer_url peer) l → count is_completed l = 0%nat) as Hfailed
      by (intros l (_ & _ & _ & _ & Hl' & _)%failed_counts; done).
    destruct Hl as [r ??? Ho Hsw Hg|r ??? Ho Hsw Hg Hst|r ?? Ho Hr|?? _|?? _|r ?? _|r ?? _ _|failed ?? Hf|failed text ?? _ Hf|failed ?? _ Hf];
      try (apply holds_nothing; rewrite !count_app, Hb', ?(Hfailed _ Hf); done).
    + apply (holds_body _ _ _ _ i r peer guard); [by rewrite count_app, Hb'|done|done|set_solver|done].
    + apply (holds_tunnel _ _ _ _ i r peer guard); [by rewrite count_app, Hb'|done|done|set_solver|done|done].
    + eapply holds_replaced; [by rewrite count_app, Hb'|done|done|done].
  - apply failed_counts in Hf as (_ & _ & _ & _ & Hf & _).
    match goal with |- holding _ _ _ _ (before ++ ?attempt :: failed ++ ?failover :: rest) _ _ =>
      replace (before ++ attempt :: failed ++ failover :: rest) with ((before ++ [attempt] ++ failed ++ [failover]) ++ rest)
        by (rewrite <-!app_assoc; done) end.
    apply IH. by rewrite !count_app, Hb, Hf.
Qed.

Lemma request_holding upgrade stored name ios events result gained :
  request_recorded upgrade stored name ios events result gained → holding upgrade stored name ios events result gained.
Proof.
  intros [|now refusal ?? Hr|now store peers rest ?? _ Hs Hr].
  - by apply holds_nothing.
  - apply holds_nothing. by destruct Hr as [(later & ->)|[->|[->|[->|(later & ->)]]]].
  - by apply (attempts_holding _ _ store _ _ 0 peers _ _ _ [URequest now]).
Qed.

(** ** The theorems *)



(** What the client of a plain response may see of its own timers. *)
Definition response_cut (timeout : Z) (label : string) (deadline : option GrpcResponseDeadline) (clock : list Z)
    (stream : list (FramePoll BoxError)) (k : nat) (r : FramePoll BoxError) : Prop :=
  stalled timeout clock stream k ∧ r = ReadyError (TimedOutError (stall_message label timeout)) ∨
  ¬ stalled timeout clock stream k ∧
  ∃ d, deadline = Some d ∧ past (timer_millis (rd_deadline d)) clock stream k ∧
       r = ReadyFrame (TrailersFrame (grpc_deadline_exceeded_trailers (rd_timeout_message d))).

Lemma pipeline_cuts body clock timeout label deadline :
  monotone clock →
  cuts (response_cut timeout label deadline clock (fused (length clock) body)) (fused (length clock) body)
    (wrap_stream_timeout_pipeline body clock timeout label deadline).
Proof.
  intros Hm. pose proof (idle_timeout_cuts clock body timeout label Hm) as Hi. cbn zeta in Hi. unfold wrap_stream_timeout_pipeline.
  set (stream := fused (length clock) body) in *.
  set (mid := timed_polls idle_poll_frame clock (idle_new body timeout label)) in *.
  destruct deadline as [d|]; [|eapply cuts_ext; [|exact Hi]; unfold response_cut; intros k r _ _; split; [auto|];
    intros [H|[_ (d & [=] & _)]]; exact H].
  assert (settled mid) as Hset by (unfold mid; rewrite idle_is_guard; apply guard_settled).
  assert (length mid = length clock) as Hlen by (unfold mid; apply length_timed_polls).
  pose proof (deadline_cuts clock mid (timer_millis (rd_deadline d)) (rd_timeout_message d)) as Hd. cbn zeta in Hd.
  assert (fused (length clock) mid = mid) as Hmid by (rewrite <-Hlen; by apply fused_settled). rewrite Hmid in Hd.
  eapply cuts_ext; [|eapply (cuts_compose _ _ (λ k r, past (timer_millis (rd_deadline d)) clock stream k ∧
    r = ReadyFrame (TrailersFrame (grpc_deadline_exceeded_trailers (rd_timeout_message d)))) _ _ _ Hi Hd)].
  - intros k r _ _. unfold response_cut. split.
    + intros [H|[Hn [Hp ->]]]; [by left|right]. split; [intros Hs; by apply (Hn (ReadyError (TimedOutError (stall_message label timeout))))|]. by exists d.
    + intros [H|[Hn (d' & [= <-] & Hp & ->)]]; [by left|right]. split; [by intros r' [? _]|done].
  - intros k r Htake. unfold past. assert (mid !! k = stream !! k) as ->; [|done].
    rewrite <-(lookup_take_lt mid (S k) k), Htake, lookup_take_lt by lia. done.
  - intros k r r' Hk [_ ->] [(t & _ & _ & Hp) _]. rewrite Hk in Hp. done.
  - intros k r Hk [(t & _ & _ & Hp) _]. by rewrite Hk in Hp.
Qed.

(** A client that is neither a gRPC-Web client nor served by the cache
    receives the upstream's response: its status, its headers without those
    that belong to a hop, and its body until it stalls for the idle timeout or
    a gRPC deadline passes; nothing else of the shared state changes, and the
    peer is held until the body is done. *)
Theorem response_is_the_upstreams (response : UpstreamResponse) (context : UpstreamSuccessContext) (now : Z)
    (s : ForwardState)
    (Hcache : us_cache_store context = None)
    (Hmode : us_grpc_web_mode context = None)
    (Hswitch : is_upgrade_response (ur_status response) (ur_headers response) = false)
    (Hclock : monotone (ur_clock response)) :
  let label := ("upstream `" +:+ tgt_upstream_name (us_target context) +:+ "` response body from `" +:+
                res_display_url (us_peer context) +:+ "`")%string in
  let stream := fused (length (ur_clock response)) (ur_body response) in
  ∃ delivered, finalize_upstream_success response context now s = Some (delivered, Some (us_active_peer context), s) ∧
    rsp_status delivered = ur_status response ∧
    rsp_headers delivered =
      match us_cache_status context with
      | Some status => hm_insert "x-cache" (hv_from_static (as_header_value status))
                         (sanitize_response_headers (ur_headers response) false)
      | None => sanitize_response_headers (ur_headers response) false
      end ∧
    cuts (response_cut (us_response_idle_timeout context) label (us_grpc_response_deadline context) (ur_clock response) stream)
      stream (rsp_body delivered).
Proof.
  intros label stream. unfold finalize_upstream_success, refreshing_store, stale_instead.
  rewrite Hcache. cbn [mbind option_bind]. rewrite Hswitch, andb_false_r.
  unfold build_downstream_response. rewrite Hmode, Hswitch. cbn [is_some negb andb mbind option_bind apply_cache_store].
  eexists. split; [by destruct s|]. pose proof (pipeline_cuts (ur_body response) (ur_clock response)
    (us_response_idle_timeout context) label (us_grpc_response_deadline context) Hclock) as Hc.
  destruct (us_cache_status context); split_and!; try done; exact Hc.
Qed.
End Requests.

(** ** Concrete requests *)

(** No cache. *)
Module NoCache.
#[export] Instance backend : ForwardCacheBackend (HTTP := RefHttp.api) := {|
  Cache := unit;
  cb_lookup _ _ _ cache := (BackendBypass StBypass, cache);
  cb_record_bypass_for_zone _ cache := cache;
  cb_store_response _ response cache := (response, cache);
  cb_complete_not_modified _ response cache := (Ok response, cache);
  cb_serve_stale _ _ cache := (None, cache);
|}.
End NoCache.
#[local] Existing Instance NoCache.backend.
#[local] Existing Instance RefSha256.api.
#[local] Existing Instance RefHttpDate.api.
#[local] Existing Instance RefBase64.api.
#[local] Existing Instance RefUri.api.

Definition sample_stats : StatsState :=
  mkStats zeroes empty_traffic (mkTrafficVersions ∅ ∅ ∅)
    (build_upstream_stats_map {["app" := sample_upstream RoundRobin]} None) ∅ ∅ ∅ 0 (λ _, 0).
Definition sample_state : ForwardState (HTTP := RefHttp.api) :=
  mkForward sample_stats (sample_registry RoundRobin) (sample_upstream RoundRobin) (tt : Cache (ForwardCacheBackend := NoCache.backend)) [].
Definition sample_options : DownstreamRequestOptions :=
  mkOptions None (Some 1024) BufferingAuto BufferingAuto None None.
Definition sample_downstream : DownstreamRequestContext :=
  mkDownstreamContext "l" "http" "id" sample_options.
Definition app_target : ProxyTarget (HTTP := RefHttp.api) := mkProxyTarget "app" (sample_upstream RoundRobin) false None [].
Definition app_headers : @HeaderMap RefHttp.api := [("server", "app"); ("connection", "close")]%string.
Definition sample_response : UpstreamResponse (HTTP := RefHttp.api) :=
  mkUpstreamResponse 200 app_headers [ReadyFrame (DataFrame [111; 107]); ReadyEnd] [0; 1; 2].

(** The first peer does not answer in time, the second one does. *)
Definition second_answers (i : nat) : AttemptIo (HTTP := RefHttp.api) :=
  mkAttempt 0 1000000 (if (i =? 0)%nat then TimedOut else Answered sample_response) false.
Definition failover_io : ForwardIo (HTTP := RefHttp.api) := mkForwardIo (mkSetupIo 0 true sample_resolve) second_answers.

Definition upstream_counts (s : StatsState) (name : string) (counters : list UpstreamCounter) : list Z :=
  match st_upstreams s !! name with Some entry => map (use_counters entry) counters | None => [] end.

Definition failover_run :=
  forward_request (λ _ _ _, true) failover_io (mkUri None None (Some "/api/file?v=1"%string)) sample_put app_target sample_client
    sample_downstream sample_state.

Example failover_is_counted :
  (λ '(f, s), (rsp_status (fd_response f), is_some (fd_guard f),
               upstream_counts (fw_stats s) "app"
                 [UpstreamRequests; PeerAttempts; PeerTimeouts; Failovers; PeerSuccesses; CompletedResponses])) <$> failover_run =
  Some (200, true, [1; 2; 1; 1; 1; 1]).
Proof. vm_compute. reflexivity. Qed.
(** An upgrade: the tunnel has got the peer's guard, if the client is a plain
    one.  One that a gRPC-Web client asked for has no guard to give to its
    translated body. *)
Definition upgrade_headers : @HeaderMap RefHttp.api := [("connection", "upgrade"); ("upgrade", "websocket")]%string.
Definition switching (i : nat) : AttemptIo (HTTP := RefHttp.api) :=
  mkAttempt 0 1000000
    (Answered (mkUpstreamResponse 101 ([("upgrade", "websocket")]%string : @HeaderMap RefHttp.api) [] [])) false.
Definition upgrade_run (headers : @HeaderMap RefHttp.api) :=
  forward_request (λ _ _ _, true) (mkForwardIo (mkSetupIo 0 true sample_resolve) switching)
    (mkUri None None (Some "/api/file"%string))
    (mkRequest (HTTP := RefHttp.api) "GET" Http11 "/api/file" None headers (mkDownstream [] [] (0, Some 0)))
    app_target sample_client sample_downstream sample_state.

Example tunnel_holds_its_peer :
  (λ '(f, s), (rsp_status (fd_response f), fd_guard f, fw_upgraded s)) <$> upgrade_run upgrade_headers =
  Some (101, None, [mkPeerGuard (Some 0%N) true "app"]).
Proof. vm_compute. reflexivity. Qed.

Example grpc_web_upgrade_panics :
  is_some (upgrade_run (upgrade_headers ++ [("content-type", "application/grpc-web")]%string)) = false.
Proof. vm_compute. reflexivity. Qed.

Lemma no_slices : cache_slices_ok (BACKEND := NoCache.backend).
Proof. by intros request scheme policy cache store [[=]|[r [=]]]. Qed.




Definition sample_success : UpstreamSuccessContext (HTTP := RefHttp.api) :=
  mkSuccessContext false "l" app_target sample_resolved (mkPeerGuard None true "app") 30000 None None None None 1.

Theorem response_is_the_upstreams_witness :
  ∃ delivered, finalize_upstream_success sample_response sample_success 0 sample_state =
      Some (delivered, Some (mkPeerGuard None true "app"), sample_state) ∧
    rsp_status delivered = 200 ∧ hm_get_all (rsp_headers delivered) "connection" = [].
Proof.
  destruct (response_is_the_upstreams sample_response sample_success 0 sample_state) as (d & H1 & H2 & H3 & _).
  - reflexivity.
  - reflexivity.
  - vm_compute. reflexivity.
  - intros [|[|[|j]]] [|[|[|k]]] s t Hjk Hs Ht; simpl in *; simplify_eq; lia.
  - exists d. split; [exact H1|]. split; [exact H2|]. rewrite H3. vm_compute. reflexivity.
Defined.

(** A client that stops sending its body is not told apart from a peer that
    fails: the peer's failure is counted and its health told of it. *)
Example stalled_upload_blames_the_peer :
  let text := stall_message "upstream `app` request body" 30000 in
  let io := mkAttempt 0 1000000 (ClientFailed text : AttemptOutcome (HTTP := RefHttp.api)) false in
  let c := mkAttemptContext "l" app_target sample_client "http" shop_headers 30000 None 30000000000 false 1
             (mkCacheContext None None) in
  let peer := sample_endpoint (sample_peer "http://a" 1 false) in
  let known := with_registry (λ r, (ensure_endpoint "app" (res_endpoint_key peer) "http://a" r).2) sample_state in
  let '(guard, s) := start_attempt c peer io known in
  let s := (last_failure c peer io guard text s).2 in
  (upstream_counts (fw_stats s) "app" [PeerFailures; BadGatewayResponses],
   ps_consecutive_failures (hs_passive (reg_health (fw_health s) !!! 0%N))) = ([1; 1], 1).
Proof. vm_compute. reflexivity. Qed.
