(* ===== verification/SharedMemory.v ===== *)
(** * Shared memory segments

    Models [crates/rginx-http/src/cache/shared/memory.rs]: named POSIX shared
    memory objects with a header and a payload, which the processes of one
    cache zone (or of one shared rate limiter) attach to.  The kernel's table
    of objects is a map by name; a call that can fail takes the fault it is
    given.  Every use of a segment runs under a file lock and unmaps it before
    the lock is released, so a segment is its object in the table. *)

From S2P Require Import Prelude RustStr External Body.

(** ** [io::Error]: its kind; the messages are left out *)

Inductive ErrorKind : Type := NotFound | InvalidInput | InvalidData | OutOfMemory | Unsupported | OtherError.

#[export] Instance ErrorKind_eq_dec : EqDecision ErrorKind.
Proof. solve_decision. Defined.

Definition io_result (A : Type) : Type := result ErrorKind A.

(** ** Header and configuration *)

Definition SHM_MAGIC : Z := 0x4d4853584e494752.
Definition SHM_ABI_VERSION : Z := 1.
Definition DEFAULT_HASH_BUCKET_COUNT : Z := 1024.
Definition DEFAULT_OPERATION_RING_CAPACITY : Z := 4096.
Definition SHM_NAME_PREFIX : string := "/rginx-cache-".

(** Source: crates/rginx-http/src/cache/shared/memory.rs:18-33 (SharedMemoryHeader) *)
Record SharedMemoryHeader : Type := mkHeader {
  hd_magic : Z;
  hd_abi_version : Z;
  hd_header_len : Z;
  hd_zone_name_hash : Z;
  hd_capacity_bytes : Z;
  hd_generation : Z;
  hd_store_epoch : Z;
  hd_operation_seq : Z;
  hd_entry_count : Z;
  hd_current_size_bytes : Z;
  hd_hash_bucket_count : Z;
  hd_operation_ring_capacity : Z;
  hd_allocator_free_head : Z;
  hd_flags : Z;
}.

(** [size_of::<SharedMemoryHeader>()] under [repr(C)]: two u32 and twelve u64. *)
Definition header_size : Z := 2 * 4 + 12 * 8.

Definition zero_header : SharedMemoryHeader := mkHeader 0 0 0 0 0 0 0 0 0 0 0 0 0 0.

(** Source: crates/rginx-http/src/cache/shared/memory.rs:36-43 (SharedMemorySegmentConfig) *)
Record SharedMemorySegmentConfig : Type := mkSegmentConfig {
  cfg_name : string;
  cfg_zone_name_hash : Z;
  cfg_capacity_bytes : Z;
  cfg_hash_bucket_count : Z;
  cfg_operation_ring_capacity : Z;
  cfg_flags : Z;
}.

(** FNV-1a, 64 bits. *)
(** Source: crates/rginx-http/src/cache/shared/memory.rs:403-410 (stable_hash) *)
Definition stable_hash (bytes : list Z) : Z :=
  foldl (λ hash byte, wrapping_mul64 (Z.lxor hash byte) 0x100000001b3) 0xcbf29ce484222325 bytes.

(** [format!("{:016x}")]. *)
Fixpoint hex_digits (n : nat) (z : Z) : string :=
  match n with
  | O => EmptyString
  | S n => String (hex_digit (Z.land (Z.shiftr z (4 * Z.of_nat n)) 15)) (hex_digits n z)
  end.

(** Source: crates/rginx-http/src/cache/shared/memory.rs:56-65 (SharedMemorySegmentConfig::new) *)
Definition segment_config_new (name : string) (zone_name_hash capacity_bytes : Z)
    : SharedMemorySegmentConfig :=
  mkSegmentConfig name zone_name_hash capacity_bytes DEFAULT_HASH_BUCKET_COUNT
    DEFAULT_OPERATION_RING_CAPACITY 0.

(** Source: crates/rginx-http/src/cache/shared/memory.rs:51-54 (SharedMemorySegmentConfig::for_identity) *)
Definition for_identity (identity : string) (capacity_bytes : Z) : SharedMemorySegmentConfig :=
  let zone_name_hash := stable_hash (bytes_of_string identity) in
  segment_config_new (SHM_NAME_PREFIX +:+ hex_digits 16 zone_name_hash) zone_name_hash capacity_bytes.

(** Source: crates/rginx-http/src/cache/shared/memory.rs:72-75 (SharedMemorySegmentConfig::with_operation_ring_capacity) *)
Definition with_operation_ring_capacity (c : SharedMemorySegmentConfig) (capacity : Z)
    : SharedMemorySegmentConfig :=
  mkSegmentConfig (cfg_name c) (cfg_zone_name_hash c) (cfg_capacity_bytes c) (cfg_hash_bucket_count c)
    capacity (cfg_flags c).

(** Source: crates/rginx-http/src/cache/shared/memory.rs:77-90 (SharedMemorySegmentConfig::shm_name) *)
Definition shm_name (c : SharedMemorySegmentConfig) : io_result string :=
  if negb (starts_with "/" (cfg_name c)) then Err InvalidInput
  else if contains_char (ascii_of_N 0) (cfg_name c) then Err InvalidInput
  else Ok (cfg_name c).

(** Source: crates/rginx-http/src/cache/shared/memory.rs:92-106 (SharedMemorySegmentConfig::validate_capacity) *)
Definition validate_capacity (c : SharedMemorySegmentConfig) : io_result unit :=
  if cfg_capacity_bytes c <? header_size then Err InvalidInput
  else if 2 ^ 63 - 1 <? cfg_capacity_bytes c then Err InvalidInput
  else Ok tt.

(** Nanoseconds since the epoch, which start the incarnations of a store. *)
(** Source: crates/rginx-http/src/cache/shared/memory.rs:394-401 (current_store_epoch) *)
Definition current_store_epoch (now_nanos : Z) : Z := Z.max (Z.min now_nanos u64_max) 1.

(** Source: crates/rginx-http/src/cache/shared/memory.rs:108-132 (SharedMemorySegmentConfig::initial_header) *)
Definition initial_header (c : SharedMemorySegmentConfig) (now_nanos : Z) : SharedMemoryHeader :=
  mkHeader SHM_MAGIC SHM_ABI_VERSION header_size (cfg_zone_name_hash c) (cfg_capacity_bytes c) 1
    (current_store_epoch now_nanos) 0 0 0 (cfg_hash_bucket_count c) (cfg_operation_ring_capacity c) 0
    (cfg_flags c).

(** Source: crates/rginx-http/src/cache/shared/memory.rs:273-326 (SharedMemorySegment::validate_header) *)
Definition validate_header (header : SharedMemoryHeader) (c : SharedMemorySegmentConfig) : io_result unit :=
  if negb (hd_magic header =? SHM_MAGIC) then Err InvalidData
  else if negb (hd_abi_version header =? SHM_ABI_VERSION) then Err InvalidData
  else if negb (hd_header_len header =? header_size) then Err InvalidData
  else if negb (hd_zone_name_hash header =? cfg_zone_name_hash c) then Err InvalidData
  else if negb (hd_capacity_bytes header =? cfg_capacity_bytes c) then Err InvalidData
  else if negb (hd_hash_bucket_count header =? cfg_hash_bucket_count c) then Err InvalidData
  else if negb (hd_operation_ring_capacity header =? cfg_operation_ring_capacity c) then Err InvalidData
  else if negb (hd_flags header =? cfg_flags c) then Err InvalidData
  else Ok tt.

(** ** Segments *)

(** A shared memory object: its size and its bytes, the first of which are read
    as the header. *)
Record SharedObject : Type := mkObject {
  obj_size : Z;
  obj_header : SharedMemoryHeader;
  obj_payload : list Z;
}.

Definition empty_object : SharedObject := mkObject 0 zero_header [].

Definition set_header (header : SharedMemoryHeader) (o : SharedObject) : SharedObject :=
  mkObject (obj_size o) header (obj_payload o).

Definition payload_capacity_of (capacity_bytes : Z) : Z := sat_sub capacity_bytes header_size.

(** [ftruncate]: bytes beyond the old end are zero. *)
Definition resize_object (size : Z) (o : SharedObject) : SharedObject :=
  let n := Z.to_nat (payload_capacity_of size) in
  mkObject size (obj_header o) (take n (obj_payload o ++ replicate n 0)).

(** What the kernel answers: a fault where a call fails. *)
Record OsFaults : Type := mkOs {
  os_open : option ErrorKind;
  os_truncate : option ErrorKind;
  os_stat : option ErrorKind;
  os_map : option ErrorKind;
  os_unlink : option ErrorKind;
}.

Definition no_faults : OsFaults := mkOs None None None None None.

Definition fault (f : option ErrorKind) : io_result unit :=
  match f with Some kind => Err kind | None => Ok tt end.

Notation ShmTable := (gmap string SharedObject).

(** An object that cannot be resized or mapped is left behind. *)
(** Source: crates/rginx-http/src/cache/shared/memory.rs:147-165 (SharedMemorySegment::create_or_reset) *)
Definition create_or_reset (os : OsFaults) (now_nanos : Z) (c : SharedMemorySegmentConfig) (t : ShmTable)
    : io_result SharedObject * ShmTable :=
  match validate_capacity c, shm_name c with
  | Err e, _ => (Err e, t)
  | Ok _, Err e => (Err e, t)
  | Ok _, Ok name =>
      match os_open os with
      | Some e => (Err e, t)
      | None =>
          let o := default empty_object (t !! name) in
          let t := <[name := o]> t in
          match os_truncate os with
          | Some e => (Err e, t)
          | None =>
              let o := resize_object (cfg_capacity_bytes c) o in
              let t := <[name := o]> t in
              match os_map os with
              | Some e => (Err e, t)
              | None =>
                  let o := mkObject (obj_size o) (initial_header c now_nanos)
                             (replicate (Z.to_nat (payload_capacity_of (cfg_capacity_bytes c))) 0) in
                  (Ok o, <[name := o]> t)
              end
          end
      end
  end.

(** Source: crates/rginx-http/src/cache/shared/memory.rs:167-200 (SharedMemorySegment::attach) *)
Definition attach (os : OsFaults) (c : SharedMemorySegmentConfig) (t : ShmTable) : io_result SharedObject :=
  let? _ := validate_capacity c in
  let? name := shm_name c in
  let? _ := fault (os_open os) in
  let? o := ok_or (t !! name) NotFound in
  let? _ := fault (os_stat os) in
  if negb (obj_size o =? cfg_capacity_bytes c) then Err InvalidData
  else
    let? _ := fault (os_map os) in
    let? _ := validate_header (obj_header o) c in
    Ok o.

(** Source: crates/rginx-http/src/cache/shared/memory.rs:202-210 (SharedMemorySegment::unlink) *)
Definition unlink (os : OsFaults) (c : SharedMemorySegmentConfig) (t : ShmTable) : io_result unit * ShmTable :=
  match shm_name c with
  | Err e => (Err e, t)
  | Ok name =>
      match os_unlink os with
      | Some NotFound => (Ok tt, t)
      | Some e => (Err e, t)
      | None => (Ok tt, delete name t)
      end
  end.

(** Source: crates/rginx-http/src/cache/shared/memory.rs:216-218 (SharedMemorySegment::payload_capacity) *)
Definition payload_capacity (o : SharedObject) : Z := payload_capacity_of (obj_size o).

(** Source: crates/rginx-http/src/cache/shared/memory.rs:328-343 (SharedMemorySegment::validate_payload_range) *)
Definition validate_payload_range (o : SharedObject) (offset len : Z) : io_result unit :=
  if u64_max <? offset + len then Err InvalidInput
  else if payload_capacity o <? offset + len then Err InvalidInput
  else Ok tt.

(** Source: crates/rginx-http/src/cache/shared/memory.rs:220-230 (SharedMemorySegment::write_payload) *)
Definition write_payload (offset : Z) (bytes : list Z) (o : SharedObject) : io_result SharedObject :=
  let len := Z.of_nat (length bytes) in
  let? _ := validate_payload_range o offset len in
  Ok (mkObject (obj_size o) (obj_header o)
        (take (Z.to_nat offset) (obj_payload o) ++ bytes ++
         drop (Z.to_nat offset + length bytes) (obj_payload o))).

(** Source: crates/rginx-http/src/cache/shared/memory.rs:232-239 (SharedMemorySegment::read_payload) *)
Definition read_payload (offset len : Z) (o : SharedObject) : io_result (list Z) :=
  let? _ := validate_payload_range o offset len in
  Ok (take (Z.to_nat len) (drop (Z.to_nat offset) (obj_payload o))).

(** ** Facts *)

(** An object of a segment: its payload fills it. *)
Definition object_ok (o : SharedObject) : Prop :=
  header_size ≤ obj_size o ≤ 2 ^ 63 - 1 ∧ length (obj_payload o) = Z.to_nat (payload_capacity o).

Lemma set_header_ok header o : object_ok o → object_ok (set_header header o).
Proof. done. Qed.

Lemma write_payload_ok offset bytes o o' :
  object_ok o → 0 ≤ offset → write_payload offset bytes o = Ok o' →
  object_ok o' ∧ obj_size o' = obj_size o ∧ obj_header o' = obj_header o.
Proof.
  intros [Hs Hl] Ho. unfold write_payload, validate_payload_range.
  destruct (u64_max <? _) eqn:H1; [done|]. destruct (payload_capacity o <? _) eqn:H2; [done|]. cbn.
  intros [= <-]. split; [|done]. split; [done|]. cbn. rewrite !length_app, length_take, length_drop.
  unfold payload_capacity in *. cbn in *. lia.
Qed.

Lemma write_payload_total offset bytes o :
  object_ok o → 0 ≤ offset → offset + Z.of_nat (length bytes) ≤ payload_capacity o →
  ∃ o', write_payload offset bytes o = Ok o'.
Proof.
  intros [Hs Hl] Ho Hc. unfold write_payload, validate_payload_range.
  assert (payload_capacity o ≤ u64_max) by (unfold payload_capacity, payload_capacity_of, sat_sub, u64_max, header_size in *; lia).
  rewrite !(proj2 (Z.ltb_ge _ _)) by lia. by eexists.
Qed.

(** What is read back after a write: the bytes written. *)
Lemma read_write_payload offset bytes o o' :
  object_ok o → 0 ≤ offset → write_payload offset bytes o = Ok o' →
  read_payload offset (Z.of_nat (length bytes)) o' = Ok bytes.
Proof.
  intros Hok Ho Hw. destruct (write_payload_ok _ _ _ _ Hok Ho Hw) as (_ & Hsz & _). destruct Hok as [Hs Hl].
  revert Hw. unfold write_payload, read_payload, validate_payload_range, payload_capacity. rewrite Hsz.
  destruct (u64_max <? _) eqn:H1; [done|]. destruct (payload_capacity_of (obj_size o) <? _) eqn:H2; [done|]. cbn.
  intros [= <-]. clear Hsz. cbn. unfold payload_capacity in Hl. apply Z.ltb_ge in H2.
  rewrite drop_app_length' by (rewrite length_take; lia).
  rewrite Nat2Z.id. by rewrite take_app_length.
Qed.

(** A write does not touch what lies before it. *)
Lemma read_before_write offset bytes pos len o o' :
  object_ok o → 0 ≤ pos → 0 ≤ len → pos + len ≤ offset → write_payload offset bytes o = Ok o' →
  read_payload pos len o' = read_payload pos len o.
Proof.
  intros Hok Hp Hl Hle Hw.
  destruct (write_payload_ok offset bytes o o' Hok ltac:(lia) Hw) as (_ & Hsz & _). destruct Hok as [Hs Hlen].
  revert Hw. unfold write_payload, read_payload, validate_payload_range, payload_capacity. rewrite Hsz.
  destruct (u64_max <? offset + _) eqn:H1; [done|].
  destruct (payload_capacity_of (obj_size o) <? offset + _) eqn:H2; [done|]. cbn. intros [= <-]. clear Hsz. cbn.
  apply Z.ltb_ge in H2. unfold payload_capacity in Hlen.
  destruct (u64_max <? pos + len); [done|]. destruct (_ <? pos + len); [done|]. cbn. f_equal.
  rewrite drop_app_le by (rewrite length_take; lia). rewrite take_app_le by (rewrite length_drop, length_take; lia).
  rewrite skipn_firstn_comm, take_take. f_equal. lia.
Qed.

(** Creating gives an object that attaches, under any header its users wrote. *)
Lemma create_ok os now c t o t' :
  create_or_reset os now c t = (Ok o, t') →
  validate_capacity c = Ok tt ∧ shm_name c = Ok (cfg_name c) ∧ object_ok o ∧
  obj_size o = cfg_capacity_bytes c ∧ obj_header o = initial_header c now ∧
  obj_payload o = replicate (Z.to_nat (payload_capacity_of (cfg_capacity_bytes c))) 0 ∧
  t' = <[cfg_name c := o]> t.
Proof.
  unfold create_or_reset.
  assert (Hname : ∀ n, shm_name c = Ok n → n = cfg_name c).
  { intros n. unfold shm_name. destruct (negb _); [done|]. destruct (contains_char _ _); [done|]. by intros [= <-]. }
  destruct (validate_capacity c) as [[]|] eqn:Hv; [|done]. destruct (shm_name c) as [name|] eqn:Hn; [|done].
  rewrite (Hname _ eq_refl). destruct (os_open os); [done|]. destruct (os_truncate os); [done|].
  destruct (os_map os); [done|]. cbv zeta. intros [= <- <-]. cbn.
  split_and!; try done; [|by rewrite !insert_insert_eq].
  - revert Hv. unfold validate_capacity. destruct (_ <? header_size) eqn:H1; [done|].
    destruct (_ <? cfg_capacity_bytes c) eqn:H2; [done|]. intros _. split; [cbn; lia|].
    cbn. by rewrite length_replicate.
Qed.

Lemma initial_header_valid c now : validate_header (initial_header c now) c = Ok tt.
Proof. unfold validate_header. cbn. by rewrite !Z.eqb_refl. Qed.

Example sample_segment_name :
  cfg_name (for_identity "zone:/var/cache" 4096) = "/rginx-cache-271dd5c88ff52320"%string.
Proof. vm_compute. reflexivity. Qed.
