(* ===== verification/SharedIndex.v ===== *)
(** * The shared cache index

    Models [crates/rginx-http/src/cache/shared/index_file/] (the document the
    processes of a zone keep in shared memory, its change ring and its fill
    locks), [cache/shared.rs] and [cache/shared/bootstrap.rs] (how a process
    follows it).  Each operation of the store runs under the file lock of the
    zone, so it is one function of the shared state. *)

From S2P Require Import Prelude RustStr External Body CacheConfig CacheTypes CacheRequest CachePolicy CacheStore CacheIndex CacheMaintenance SharedMemory.

(** ** Records on the wire *)

(** Source: crates/rginx-http/src/cache/shared/index_file/codec.rs:40-44 (SharedVaryHeader) *)
Record SharedVaryHeader : Type := mkSharedVary { sv_name : string; sv_value : option string }.

(** Source: crates/rginx-http/src/cache/shared/index_file/codec.rs:12-37 (SharedIndexEntryRecord) *)
Record SharedIndexEntryRecord : Type := mkEntryRecord {
  sr_kind : CacheIndexEntryKind;
  sr_hash : string;
  sr_base_key : string;
  sr_stored_at_unix_ms : Z;
  sr_vary : list SharedVaryHeader;
  sr_tags : list string;
  sr_body_size_bytes : Z;
  sr_expires_at_unix_ms : Z;
  sr_grace_until_unix_ms : option Z;
  sr_keep_until_unix_ms : option Z;
  sr_stale_if_error_until_unix_ms : option Z;
  sr_stale_while_revalidate_until_unix_ms : option Z;
  sr_requires_revalidation : option bool;
  sr_must_revalidate : bool;
  sr_last_access_unix_ms : Z;
}.

(** Source: crates/rginx-http/src/cache/shared/index_file/memory_backend/document.rs:33-42 (SharedMemoryChangeRecord) *)
Record SharedMemoryChangeRecord : Type := mkChange {
  chg_seq : Z;
  chg_generation : Z;
  chg_op_kind : Z;
  chg_key : string;
  chg_entry_json : option bytes;
  chg_uses : option Z;
  chg_last_access_unix_ms : option Z;
}.

(** Source: crates/rginx-http/src/cache/shared/index_file/memory_backend/document.rs:45-55 (SharedMemoryFillLockRecord) *)
Record SharedMemoryFillLockRecord : Type := mkFillRecord {
  flr_key_hash : string;
  flr_owner_pid : Z;
  flr_owner_generation : Z;
  flr_nonce : string;
  flr_acquired_at_unix_ms : Z;
  flr_updated_at_unix_ms : Z;
  flr_released : bool;
  flr_state_json : bytes;
}.

(** Source: crates/rginx-http/src/cache/shared/index_file/memory_backend/document.rs:15-30 (SharedMemoryIndexDocument) *)
Record SharedMemoryIndexDocument : Type := mkDocument {
  doc_version : Z;
  doc_generation : Z;
  doc_store_epoch : Z;
  doc_last_change_seq : Z;
  doc_rebuild_total : Z;
  doc_stale_fill_lock_cleanup_total : Z;
  doc_entries : gmap string bytes;
  doc_admission_counts : gmap string Z;
  doc_invalidations : list bytes;
  doc_fill_locks : gmap string SharedMemoryFillLockRecord;
  doc_changes : list SharedMemoryChangeRecord;
}.

(** Source: crates/rginx-http/src/cache/shared/index_file/memory_backend/document.rs:58-72 (SharedMemoryIndexDocument::empty) *)
Definition empty_document (store_epoch : Z) : SharedMemoryIndexDocument :=
  mkDocument 1 0 store_epoch 0 0 0 ∅ ∅ [] ∅ [].

Definition PAYLOAD_LEN_BYTES : Z := 8.

(** [serde_json]: each type written and read back. *)
Class SerdeJson : Type := {
  entry_to_vec : SharedIndexEntryRecord → option bytes;
  entry_from_slice : bytes → option SharedIndexEntryRecord;
  rule_to_vec : CacheInvalidationRule → option bytes;
  rule_from_slice : bytes → option CacheInvalidationRule;
  document_to_vec : SharedMemoryIndexDocument → option bytes;
  document_from_slice : bytes → option SharedMemoryIndexDocument;
}.

Class SerdeJsonLaws (api : SerdeJson) : Prop := {
  entry_json r : ∃ b, entry_to_vec r = Some b ∧ entry_from_slice b = Some r;
  rule_json r : ∃ b, rule_to_vec r = Some b ∧ rule_from_slice b = Some r;
  document_json d b : document_to_vec d = Some b → document_from_slice b = Some d ∧ b ≠ [];
}.

(** A [BTreeMap] in the order of its keys. *)
Definition btree_list {A} (m : gmap string A) : list (string * A) :=
  sort_by (λ a b, str_cmp a.1 b.1) (map_to_list m).

(** [iter().map(f).collect::<Result<Vec<_>, _>>()]. *)
Fixpoint collect_results {E A B} (f : A → result E B) (l : list A) : result E (list B) :=
  match l with
  | [] => Ok []
  | a :: l => let? b := f a in let? l := collect_results f l in Ok (b :: l)
  end.

(** Source: crates/rginx-http/src/cache/shared/index_file/mod.rs:100-105 (LoadedSharedIndex) *)
Record LoadedSharedIndex : Type := mkLoaded {
  ld_index : CacheIndex;
  ld_generation : Z;
  ld_store_epoch : Z;
  ld_last_change_seq : Z;
}.

(** Source: crates/rginx-http/src/cache/shared/index_file/mod.rs:107-112 (LoadedSharedIndexChanges) *)
Record LoadedSharedIndexChanges : Type := mkChanges {
  lc_generation : Z;
  lc_store_epoch : Z;
  lc_last_change_seq : Z;
  lc_operations : list SharedIndexOperation;
}.

(** Source: crates/rginx-http/src/cache/shared/index_file/mod.rs:114-118 (AppliedSharedIndexOperations) *)
Record AppliedSharedIndexOperations : Type := mkApplied {
  ap_generation : Z;
  ap_store_epoch : Z;
  ap_last_change_seq : Z;
}.

(** Source: crates/rginx-http/src/cache/shared/index_file/mod.rs:120-123 (SharedIndexSyncState) *)
Record SharedIndexSyncState : Type := mkSyncState { ss_generation : Z; ss_store_epoch : Z }.

(** Source: crates/rginx-http/src/cache/shared/index_file/mod.rs:140-143 (SharedFillLockSnapshot) *)
Record SharedFillLockSnapshot : Type := mkFillSnapshot { fs_nonce : string; fs_state_json : bytes }.

(** Source: crates/rginx-http/src/cache/shared/index_file/mod.rs:145-148 (SharedFillLockAcquire) *)
Inductive SharedFillLockAcquire : Type := FillAcquired | FillBusy.

(** Source: crates/rginx-http/src/cache/shared/index_file/mod.rs:150-154 (SharedFillLockStatus) *)
Inductive SharedFillLockStatus : Type := FillMissing | FillFresh | FillStale.

(** Source: crates/rginx-http/src/cache/shared/index_file/mod.rs:126-138 (SharedIndexMetrics) *)
Record SharedIndexMetrics : Type := mkMetrics {
  shm_capacity_bytes : Z;
  shm_used_bytes : Z;
  entry_count : Z;
  current_size_bytes : Z;
  operation_ring_capacity : Z;
  operation_ring_used : Z;
  lock_contention_total : Z;
  full_reload_total : Z;
  rebuild_total : Z;
  stale_fill_lock_cleanup_total : Z;
  capacity_rejection_total : Z;
}.

Section SharedIndex.
Context {HTTP : HttpApi} {SHA : Sha256Api} {JSON : SerdeJson}.

(** ** Entries and rules *)

Definition invalid_data {A} (o : option A) : io_result A := ok_or o InvalidData.

(** Source: crates/rginx-http/src/cache/shared/index_file/codec.rs:107-133 (serialize_entry_record) *)
Definition serialize_entry_record (entry : CacheIndexEntry) : io_result bytes :=
  invalid_data (entry_to_vec (mkEntryRecord (ent_kind entry) (ent_hash entry) (ent_base_key entry)
    (ent_stored_at_unix_ms entry)
    (map (λ header, mkSharedVary (vary_name header) (vary_value header)) (ent_vary entry))
    (ent_tags entry) (ent_body_size_bytes entry) (ent_expires_at_unix_ms entry)
    (ent_grace_until_unix_ms entry) (ent_keep_until_unix_ms entry)
    (ent_stale_if_error_until_unix_ms entry) (ent_stale_while_revalidate_until_unix_ms entry)
    (Some (ent_requires_revalidation entry)) (ent_must_revalidate entry)
    (ent_last_access_unix_ms entry))).

(** Source: crates/rginx-http/src/cache/shared/index_file/codec.rs:141-173 (cache_index_entry_from_record) *)
Definition cache_index_entry_from_record (record : SharedIndexEntryRecord) : io_result CacheIndexEntry :=
  let? vary :=
    collect_results (λ header,
      let? name := invalid_data (header_name_parse (sv_name header)) in
      Ok (mkVary name (sv_value header))) (sr_vary record) in
  Ok (mkIndexEntry (sr_kind record) (sr_hash record) (sr_base_key record) (sr_stored_at_unix_ms record)
        vary (sr_tags record) (sr_body_size_bytes record) (sr_expires_at_unix_ms record)
        (sr_grace_until_unix_ms record) (sr_keep_until_unix_ms record)
        (sr_stale_if_error_until_unix_ms record) (sr_stale_while_revalidate_until_unix_ms record)
        (default (sr_must_revalidate record) (sr_requires_revalidation record))
        (sr_must_revalidate record) (sr_last_access_unix_ms record)).

(** Source: crates/rginx-http/src/cache/shared/index_file/codec.rs:135-139 (deserialize_entry_record) *)
Definition deserialize_entry_record (entry_json : bytes) : io_result CacheIndexEntry :=
  let? record := invalid_data (entry_from_slice entry_json) in cache_index_entry_from_record record.

(** Source: crates/rginx-http/src/cache/shared/index_file/codec.rs:229-231 (serialize_invalidation_rule) *)
Definition serialize_invalidation_rule (rule : CacheInvalidationRule) : io_result bytes :=
  invalid_data (rule_to_vec rule).

(** Source: crates/rginx-http/src/cache/shared/index_file/codec.rs:233-235 (deserialize_invalidation_rule) *)
Definition deserialize_invalidation_rule (b : bytes) : io_result CacheInvalidationRule :=
  invalid_data (rule_from_slice b).

(** ** The document *)

Definition with_doc_entries (f : gmap string bytes → gmap string bytes) (d : SharedMemoryIndexDocument)
    : SharedMemoryIndexDocument :=
  mkDocument (doc_version d) (doc_generation d) (doc_store_epoch d) (doc_last_change_seq d)
    (doc_rebuild_total d) (doc_stale_fill_lock_cleanup_total d) (f (doc_entries d))
    (doc_admission_counts d) (doc_invalidations d) (doc_fill_locks d) (doc_changes d).
Definition with_doc_admissions (f : gmap string Z → gmap string Z) (d : SharedMemoryIndexDocument)
    : SharedMemoryIndexDocument :=
  mkDocument (doc_version d) (doc_generation d) (doc_store_epoch d) (doc_last_change_seq d)
    (doc_rebuild_total d) (doc_stale_fill_lock_cleanup_total d) (doc_entries d)
    (f (doc_admission_counts d)) (doc_invalidations d) (doc_fill_locks d) (doc_changes d).
Definition with_doc_invalidations (f : list bytes → list bytes) (d : SharedMemoryIndexDocument)
    : SharedMemoryIndexDocument :=
  mkDocument (doc_version d) (doc_generation d) (doc_store_epoch d) (doc_last_change_seq d)
    (doc_rebuild_total d) (doc_stale_fill_lock_cleanup_total d) (doc_entries d)
    (doc_admission_counts d) (f (doc_invalidations d)) (doc_fill_locks d) (doc_changes d).
Definition with_doc_locks (cleanups : Z → Z)
    (f : gmap string SharedMemoryFillLockRecord → gmap string SharedMemoryFillLockRecord)
    (d : SharedMemoryIndexDocument) : SharedMemoryIndexDocument :=
  mkDocument (doc_version d) (doc_generation d) (doc_store_epoch d) (doc_last_change_seq d)
    (doc_rebuild_total d) (cleanups (doc_stale_fill_lock_cleanup_total d)) (doc_entries d)
    (doc_admission_counts d) (doc_invalidations d) (f (doc_fill_locks d)) (doc_changes d).
Definition with_doc_changes (generation seq : Z)
    (f : list SharedMemoryChangeRecord → list SharedMemoryChangeRecord) (d : SharedMemoryIndexDocument)
    : SharedMemoryIndexDocument :=
  mkDocument (doc_version d) generation (doc_store_epoch d) seq
    (doc_rebuild_total d) (doc_stale_fill_lock_cleanup_total d) (doc_entries d)
    (doc_admission_counts d) (doc_invalidations d) (doc_fill_locks d) (f (doc_changes d)).

Definition with_last_access (last_access_unix_ms : Z) (entry : CacheIndexEntry) : CacheIndexEntry :=
  mkIndexEntry (ent_kind entry) (ent_hash entry) (ent_base_key entry) (ent_stored_at_unix_ms entry)
    (ent_vary entry) (ent_tags entry) (ent_body_size_bytes entry) (ent_expires_at_unix_ms entry)
    (ent_grace_until_unix_ms entry) (ent_keep_until_unix_ms entry)
    (ent_stale_if_error_until_unix_ms entry) (ent_stale_while_revalidate_until_unix_ms entry)
    (ent_requires_revalidation entry) (ent_must_revalidate entry) last_access_unix_ms.

(** Source: crates/rginx-http/src/cache/shared/index_file/memory_backend/changes.rs:18-53 (apply_operation_to_document) *)
Definition apply_operation_to_document (document : SharedMemoryIndexDocument)
    (operation : SharedIndexOperation) : io_result SharedMemoryIndexDocument :=
  match operation with
  | UpsertEntry key entry =>
      let? json := serialize_entry_record entry in Ok (with_doc_entries <[key := json]> document)
  | RemoveEntry key => Ok (with_doc_entries (delete key) document)
  | TouchEntry key last_access_unix_ms =>
      match doc_entries document !! key with
      | None => Ok document
      | Some entry_json =>
          let? entry := deserialize_entry_record entry_json in
          if ent_last_access_unix_ms entry <? last_access_unix_ms then
            let? json := serialize_entry_record (with_last_access last_access_unix_ms entry) in
            Ok (with_doc_entries <[key := json]> document)
          else Ok document
      end
  | SetAdmissionCount key uses => Ok (with_doc_admissions <[key := uses]> document)
  | RemoveAdmissionCount key => Ok (with_doc_admissions (delete key) document)
  | AddInvalidation rule =>
      let? json := serialize_invalidation_rule rule in
      Ok (with_doc_invalidations (λ rules, rules ++ [json]) document)
  | ClearInvalidations => Ok (with_doc_invalidations (λ _, []) document)
  end.

Definition CHANGE_OP_UPSERT_ENTRY : Z := 1.
Definition CHANGE_OP_REMOVE_ENTRY : Z := 2.
Definition CHANGE_OP_SET_ADMISSION_COUNT : Z := 3.
Definition CHANGE_OP_REMOVE_ADMISSION_COUNT : Z := 4.
Definition CHANGE_OP_ADD_INVALIDATION : Z := 5.
Definition CHANGE_OP_CLEAR_INVALIDATIONS : Z := 6.
Definition CHANGE_OP_TOUCH_ENTRY : Z := 7.

(** Source: crates/rginx-http/src/cache/shared/index_file/memory_backend/changes.rs:55-127 (change_record_from_operation) *)
Definition change_record_from_operation (seq generation : Z) (operation : SharedIndexOperation)
    : io_result SharedMemoryChangeRecord :=
  match operation with
  | UpsertEntry key entry =>
      let? json := serialize_entry_record entry in
      Ok (mkChange seq generation CHANGE_OP_UPSERT_ENTRY key (Some json) None None)
  | RemoveEntry key => Ok (mkChange seq generation CHANGE_OP_REMOVE_ENTRY key None None None)
  | TouchEntry key last_access_unix_ms =>
      Ok (mkChange seq generation CHANGE_OP_TOUCH_ENTRY key None None (Some last_access_unix_ms))
  | SetAdmissionCount key uses =>
      Ok (mkChange seq generation CHANGE_OP_SET_ADMISSION_COUNT key None (Some uses) None)
  | RemoveAdmissionCount key =>
      Ok (mkChange seq generation CHANGE_OP_REMOVE_ADMISSION_COUNT key None None None)
  | AddInvalidation rule =>
      let? json := serialize_invalidation_rule rule in
      Ok (mkChange seq generation CHANGE_OP_ADD_INVALIDATION EmptyString (Some json) None None)
  | ClearInvalidations =>
      Ok (mkChange seq generation CHANGE_OP_CLEAR_INVALIDATIONS EmptyString None None None)
  end.

(** Source: crates/rginx-http/src/cache/shared/index_file/memory_backend/changes.rs:149-191 (operation_from_change_record) *)
Definition operation_from_change_record (record : SharedMemoryChangeRecord)
    : io_result SharedIndexOperation :=
  let kind := chg_op_kind record in
  if kind =? CHANGE_OP_UPSERT_ENTRY then
    let? json := invalid_data (chg_entry_json record) in
    let? entry := deserialize_entry_record json in
    Ok (UpsertEntry (chg_key record) entry)
  else if kind =? CHANGE_OP_REMOVE_ENTRY then Ok (RemoveEntry (chg_key record))
  else if kind =? CHANGE_OP_TOUCH_ENTRY then
    let? last := invalid_data (chg_last_access_unix_ms record) in
    Ok (TouchEntry (chg_key record) last)
  else if kind =? CHANGE_OP_SET_ADMISSION_COUNT then
    let? uses := invalid_data (chg_uses record) in
    Ok (SetAdmissionCount (chg_key record) uses)
  else if kind =? CHANGE_OP_REMOVE_ADMISSION_COUNT then Ok (RemoveAdmissionCount (chg_key record))
  else if kind =? CHANGE_OP_ADD_INVALIDATION then
    let? json := invalid_data (chg_entry_json record) in
    let? rule := deserialize_invalidation_rule json in
    Ok (AddInvalidation rule)
  else if kind =? CHANGE_OP_CLEAR_INVALIDATIONS then Ok ClearInvalidations
  else Err InvalidData.

(** An empty answer tells a reader that fell behind the ring to reload. *)
(** Source: crates/rginx-http/src/cache/shared/index_file/memory_backend/changes.rs:129-147 (operations_since) *)
Definition operations_since (document : SharedMemoryIndexDocument) (after_seq : Z)
    : io_result (list SharedIndexOperation) :=
  match doc_changes document with
  | [] => Ok []
  | first_change :: _ =>
      if after_seq <? sat_sub (chg_seq first_change) 1 then Ok []
      else
        collect_results operation_from_change_record
          (List.filter (λ change, after_seq <? chg_seq change) (doc_changes document))
  end.

(** Source: crates/rginx-http/src/cache/shared/index_file/memory_backend/changes.rs:193-205 (trim_change_ring) *)
Definition trim_change_ring (operation_ring_capacity : Z) (changes : list SharedMemoryChangeRecord)
    : list SharedMemoryChangeRecord :=
  if operation_ring_capacity =? 0 then []
  else
    let length := Z.of_nat (length changes) in
    if operation_ring_capacity <? length
    then drop (Z.to_nat (length - operation_ring_capacity)) changes else changes.

Definition load_entry (index : CacheIndex) (key : string) (entry : CacheIndexEntry) : CacheIndex :=
  let '(existing, index) := insert_entry key entry index in
  let index := match existing with
               | Some existing =>
                   with_variants (remove_variant_key (ent_base_key existing) key)
                     (with_current_size (λ s, sat_sub s (ent_body_size_bytes existing)) index)
               | None => index
               end in
  with_variants (add_variant_key (ent_base_key entry) key)
    (with_current_size (λ s, sat_add64 s (ent_body_size_bytes entry)) index).

Fixpoint load_entries (entries : list (string * bytes)) (index : CacheIndex) : io_result CacheIndex :=
  match entries with
  | [] => Ok index
  | (key, entry_json) :: entries =>
      let? entry := deserialize_entry_record entry_json in
      load_entries entries (load_entry index key entry)
  end.

(** Source: crates/rginx-http/src/cache/shared/index_file/memory_backend/document.rs:75-102 (loaded_index_from_document) *)
Definition loaded_index_from_document (document : SharedMemoryIndexDocument) : io_result LoadedSharedIndex :=
  let? index := load_entries (btree_list (doc_entries document)) empty_index in
  let? invalidations := collect_results deserialize_invalidation_rule (doc_invalidations document) in
  Ok (mkLoaded
        (with_invalidations (λ _, invalidations)
           (with_admission_counts (λ _, doc_admission_counts document) index))
        (doc_generation document) (doc_store_epoch document) (doc_last_change_seq document)).

(** Source: crates/rginx-http/src/cache/shared/index_file/memory_backend/document.rs:104-110 (entries_from_index) *)
Definition entries_from_index (index : CacheIndex) : io_result (gmap string bytes) :=
  let? entries :=
    collect_results (λ '(key, entry), let? json := serialize_entry_record entry in Ok (key, json))
      (map_to_list (idx_entries index)) in
  Ok (list_to_map entries).

(** Source: crates/rginx-http/src/cache/shared/index_file/memory_backend/document.rs:112-119 (document_current_size_bytes) *)
Definition document_current_size_bytes (document : SharedMemoryIndexDocument) : io_result Z :=
  foldl (λ bytes '(_, entry_json),
    let? bytes := bytes in
    let? entry := deserialize_entry_record entry_json in
    Ok (sat_add64 bytes (ent_body_size_bytes entry))) (Ok 0) (btree_list (doc_entries document)).

(** ** The store *)

(** Source: crates/rginx-http/src/cache/shared/index_file/memory_backend.rs:33-41 (MemorySharedIndexStore) *)
Record MemorySharedIndexStore : Type := mkStore {
  st_segment_config : SharedMemorySegmentConfig;
  st_operation_ring_capacity : Z;
}.

(** What a store operation reads and changes: the shared memory objects and its
    process' counters. *)
Record ShmState : Type := mkShmState {
  sm_objects : ShmTable;
  sm_lock_contention_total : Z;
  sm_full_reload_total : Z;
  sm_capacity_rejection_total : Z;
}.

(** How the file lock is taken: at once, after waiting, or not at all. *)
Inductive LockOutcome : Type :=
| LockFree | LockContended | LockFailed (e : ErrorKind) | LockContendedFailed (e : ErrorKind).

Record Env : Type := mkEnv { env_os : OsFaults; env_lock : LockOutcome; env_now_nanos : Z }.

(** Operations that can fail and keep what they did before the failure. *)
Definition Shm (A : Type) : Type := ShmState → io_result A * ShmState.
Definition shm_bind {A B} (m : Shm A) (k : A → Shm B) : Shm B :=
  λ s, match m s with (Ok a, s) => k a s | (Err e, s) => (Err e, s) end.
Definition shm_lift {A} (r : io_result A) : Shm A := λ s, (r, s).
Notation "'let!' x := m 'in' k" := (shm_bind m (λ x, k))
  (at level 200, x pattern, m at level 100, k at level 200).

Definition set_object (name : string) (o : SharedObject) (s : ShmState) : ShmState :=
  mkShmState (<[name := o]> (sm_objects s)) (sm_lock_contention_total s) (sm_full_reload_total s)
    (sm_capacity_rejection_total s).
Definition set_objects (t : ShmTable) (s : ShmState) : ShmState :=
  mkShmState t (sm_lock_contention_total s) (sm_full_reload_total s) (sm_capacity_rejection_total s).

(** Source: crates/rginx-http/src/cache/shared/index_file/memory_backend.rs:75-101 (MemorySharedIndexStore::lock) *)
Definition lock (env : Env) : Shm unit := λ s,
  let contended := mkShmState (sm_objects s) (wrap64 (sm_lock_contention_total s + 1))
                     (sm_full_reload_total s) (sm_capacity_rejection_total s) in
  match env_lock env with
  | LockFree => (Ok tt, s)
  | LockContended => (Ok tt, contended)
  | LockFailed e => (Err e, s)
  | LockContendedFailed e => (Err e, contended)
  end.

Fixpoint le_bytes (n : nat) (z : Z) : bytes :=
  match n with O => [] | S n => z mod 256 :: le_bytes n (z / 256) end.
Definition le_value (b : bytes) : Z := foldr (λ byte z, byte + 256 * z) 0 b.

(** Source: crates/rginx-http/src/cache/shared/index_file/memory_backend.rs:127-170 (MemorySharedIndexStore::read_document) *)
Definition read_document (segment : SharedObject) : io_result SharedMemoryIndexDocument :=
  if payload_capacity segment <? PAYLOAD_LEN_BYTES then Err InvalidData
  else
    let? len_bytes := read_payload 0 PAYLOAD_LEN_BYTES segment in
    let len := le_value len_bytes in
    if len =? 0 then Ok (empty_document (hd_store_epoch (obj_header segment)))
    else if sat_sub (payload_capacity segment) PAYLOAD_LEN_BYTES <? len then Err InvalidData
    else
      let? b := read_payload PAYLOAD_LEN_BYTES len segment in
      let? document := invalid_data (document_from_slice b) in
      if negb (doc_version document =? 1) then Err InvalidData else Ok document.

(** The payload is written before the size of the entries is computed, which
    can fail; the header then keeps its old values. *)
(** Source: crates/rginx-http/src/cache/shared/index_file/memory_backend.rs:172-203 (MemorySharedIndexStore::write_document) *)
Definition write_document (name : string) (segment : SharedObject) (document : SharedMemoryIndexDocument)
    : Shm unit := λ s,
  match document_to_vec document with
  | None => (Err InvalidData, s)
  | Some b =>
      if sat_sub (payload_capacity segment) PAYLOAD_LEN_BYTES <? len b then
        (Err OutOfMemory,
         mkShmState (sm_objects s) (sm_lock_contention_total s) (sm_full_reload_total s)
           (wrap64 (sm_capacity_rejection_total s + 1)))
      else
        match write_payload 0 (le_bytes 8 (len b)) segment with
        | Err e => (Err e, s)
        | Ok segment =>
            let s := set_object name segment s in
            match write_payload PAYLOAD_LEN_BYTES b segment with
            | Err e => (Err e, s)
            | Ok segment =>
                let s := set_object name segment s in
                match document_current_size_bytes document with
                | Err e => (Err e, s)
                | Ok current_size_bytes =>
                    let h := obj_header segment in
                    (Ok tt, set_object name (set_header
                       (mkHeader (hd_magic h) (hd_abi_version h) (hd_header_len h) (hd_zone_name_hash h)
                          (hd_capacity_bytes h) (doc_generation document) (doc_store_epoch document)
                          (doc_last_change_seq document) (Z.of_nat (size (doc_entries document)))
                          current_size_bytes (hd_hash_bucket_count h) (hd_operation_ring_capacity h)
                          (hd_allocator_free_head h) (hd_flags h)) segment) s)
                end
            end
        end
  end.

Definition create_segment (env : Env) (st : MemorySharedIndexStore) : Shm SharedObject :=
  let c := st_segment_config st in
  let! segment := λ s,
    let '(r, t) := create_or_reset (env_os env) (env_now_nanos env) c (sm_objects s) in
    (r, set_objects t s) in
  let! _ := write_document (cfg_name c) segment (empty_document (hd_store_epoch (obj_header segment))) in
  λ s, (ok_or (sm_objects s !! cfg_name c) NotFound, s).

(** A segment that does not attach is replaced by an empty one. *)
(** Source: crates/rginx-http/src/cache/shared/index_file/memory_backend.rs:103-125 (MemorySharedIndexStore::open_or_create_segment) *)
Definition open_or_create_segment (env : Env) (st : MemorySharedIndexStore) : Shm SharedObject := λ s,
  let c := st_segment_config st in
  match attach (env_os env) c (sm_objects s) with
  | Ok segment => (Ok segment, s)
  | Err NotFound => create_segment env st s
  | Err InvalidData => create_segment env st (set_objects (unlink (env_os env) c (sm_objects s)).2 s)
  | Err e => (Err e, s)
  end.

(** Source: crates/rginx-http/src/cache/shared/index_file/memory_backend.rs:65-73 (MemorySharedIndexStore::with_document_lock) *)
Definition with_document_lock {A} (env : Env) (st : MemorySharedIndexStore)
    (operation : SharedObject → SharedMemoryIndexDocument → Shm A) : Shm A :=
  let! _ := lock env in
  let! segment := open_or_create_segment env st in
  let! document := shm_lift (read_document segment) in
  operation segment document.

Definition write_back (st : MemorySharedIndexStore) (segment : SharedObject)
    (document : SharedMemoryIndexDocument) : Shm unit :=
  write_document (cfg_name (st_segment_config st)) segment document.

(** Source: crates/rginx-http/src/cache/shared/index_file/memory_backend.rs:215-220 (MemorySharedIndexStore::load) *)
Definition load (env : Env) (st : MemorySharedIndexStore) : Shm LoadedSharedIndex :=
  let! loaded := with_document_lock env st (λ _ document, shm_lift (loaded_index_from_document document)) in
  λ s, (Ok loaded, mkShmState (sm_objects s) (sm_lock_contention_total s)
                     (wrap64 (sm_full_reload_total s + 1)) (sm_capacity_rejection_total s)).

(** Source: crates/rginx-http/src/cache/shared/index_file/memory_backend.rs:222-229 (MemorySharedIndexStore::sync_state) *)
Definition sync_state (env : Env) (st : MemorySharedIndexStore) : Shm SharedIndexSyncState :=
  with_document_lock env st (λ _ document,
    shm_lift (Ok (mkSyncState (doc_generation document) (doc_store_epoch document)))).

(** Source: crates/rginx-http/src/cache/shared/index_file/memory_backend.rs:231-241 (MemorySharedIndexStore::load_changes_since) *)
Definition load_changes_since (env : Env) (st : MemorySharedIndexStore) (after_seq : Z)
    : Shm LoadedSharedIndexChanges :=
  with_document_lock env st (λ _ document, shm_lift (
    let? operations := operations_since document after_seq in
    Ok (mkChanges (doc_generation document) (doc_store_epoch document) (doc_last_change_seq document)
          operations))).

(** Source: crates/rginx-http/src/cache/shared/index_file/memory_backend.rs:243-270 (MemorySharedIndexStore::recreate) *)
Definition recreate (env : Env) (st : MemorySharedIndexStore) (index : CacheIndex) (generation : Z)
    : Shm AppliedSharedIndexOperations :=
  let! _ := lock env in
  let! segment := open_or_create_segment env st in
  let previous_rebuild_total :=
    match read_document segment with Ok document => doc_rebuild_total document | Err _ => 0 end in
  let! entries := shm_lift (entries_from_index index) in
  let! invalidations := shm_lift (collect_results serialize_invalidation_rule (idx_invalidations index)) in
  let document :=
    mkDocument 1 generation (hd_store_epoch (obj_header segment)) 0 (sat_add64 previous_rebuild_total 1) 0
      entries (idx_admission_counts index) invalidations ∅ [] in
  let! _ := write_back st segment document in
  shm_lift (Ok (mkApplied (doc_generation document) (doc_store_epoch document) (doc_last_change_seq document))).

(** The document after a batch: its generation is one more, each operation is
    applied and recorded. *)
Fixpoint apply_operations_loop (operations : list SharedIndexOperation) (d : SharedMemoryIndexDocument)
    : io_result SharedMemoryIndexDocument :=
  match operations with
  | [] => Ok d
  | operation :: operations =>
      let? d := apply_operation_to_document d operation in
      let seq := sat_add64 (doc_last_change_seq d) 1 in
      let? change := change_record_from_operation seq (doc_generation d) operation in
      apply_operations_loop operations
        (with_doc_changes (doc_generation d) seq (λ changes, changes ++ [change]) d)
  end.

Definition apply_batch (ring : Z) (operations : list SharedIndexOperation) (d : SharedMemoryIndexDocument)
    : io_result SharedMemoryIndexDocument :=
  let generation := sat_add64 (doc_generation d) 1 in
  let? d := apply_operations_loop operations
              (with_doc_changes generation (doc_last_change_seq d) id d) in
  Ok (with_doc_changes (doc_generation d) (doc_last_change_seq d) (trim_change_ring ring) d).

(** Source: crates/rginx-http/src/cache/shared/index_file/memory_backend.rs:272-297 (MemorySharedIndexStore::apply_operations) *)
Definition apply_operations (env : Env) (st : MemorySharedIndexStore)
    (operations : list SharedIndexOperation) : Shm AppliedSharedIndexOperations :=
  with_document_lock env st (λ segment document,
    let! document :=
      match operations with
      | [] => shm_lift (Ok document)
      | _ =>
          let! document := shm_lift (apply_batch (st_operation_ring_capacity st) operations document) in
          let! _ := write_back st segment document in
          shm_lift (Ok document)
      end in
    shm_lift (Ok (mkApplied (doc_generation document) (doc_store_epoch document)
                    (doc_last_change_seq document)))).

(** ** Fill locks *)

(** Source: crates/rginx-http/src/cache/shared/index_file/memory_backend.rs:299-336 (MemorySharedIndexStore::try_acquire_fill_lock) *)
Definition try_acquire_fill_lock (env : Env) (st : MemorySharedIndexStore) (pid : Z) (key : string)
    (now_unix_ms lock_age_ms : Z) (nonce : string) (state_json : bytes) : Shm SharedFillLockAcquire :=
  with_document_lock env st (λ segment document,
    let acquire (document : SharedMemoryIndexDocument) : Shm SharedFillLockAcquire :=
      let record := mkFillRecord (cache_key_hash key) pid (doc_generation document) nonce now_unix_ms
                      now_unix_ms false state_json in
      let! _ := write_back st segment (with_doc_locks id (λ m, <[key := record]> (delete key m)) document) in
      shm_lift (Ok FillAcquired) in
    match doc_fill_locks document !! key with
    | Some record =>
        if negb (flr_released record) then
          if sat_sub now_unix_ms (flr_updated_at_unix_ms record) <=? lock_age_ms
          then shm_lift (Ok FillBusy)
          else acquire (with_doc_locks (λ n, sat_add64 n 1) id document)
        else acquire document
    | None => acquire document
    end).

(** Source: crates/rginx-http/src/cache/shared/index_file/memory_backend.rs:338-345 (MemorySharedIndexStore::load_fill_lock) *)
Definition load_fill_lock (env : Env) (st : MemorySharedIndexStore) (key : string)
    : Shm (option SharedFillLockSnapshot) :=
  with_document_lock env st (λ _ document,
    shm_lift (Ok ((λ record, mkFillSnapshot (flr_nonce record) (flr_state_json record)) <$>
                    doc_fill_locks document !! key))).

Definition update_record (updated_at_unix_ms : Z) (state_json : bytes) (r : SharedMemoryFillLockRecord)
    : SharedMemoryFillLockRecord :=
  mkFillRecord (flr_key_hash r) (flr_owner_pid r) (flr_owner_generation r) (flr_nonce r)
    (flr_acquired_at_unix_ms r) updated_at_unix_ms (flr_released r) state_json.
Definition release_record (r : SharedMemoryFillLockRecord) : SharedMemoryFillLockRecord :=
  mkFillRecord (flr_key_hash r) (flr_owner_pid r) (flr_owner_generation r) (flr_nonce r)
    (flr_acquired_at_unix_ms r) (flr_updated_at_unix_ms r) true (flr_state_json r).

(** Source: crates/rginx-http/src/cache/shared/index_file/memory_backend.rs:347-368 (MemorySharedIndexStore::update_fill_lock) *)
Definition update_fill_lock (env : Env) (st : MemorySharedIndexStore) (key nonce : string)
    (updated_at_unix_ms : Z) (state_json : bytes) : Shm unit :=
  with_document_lock env st (λ segment document,
    match doc_fill_locks document !! key with
    | None => shm_lift (Err NotFound)
    | Some record =>
        if negb (str_eqb (flr_nonce record) nonce) then shm_lift (Err NotFound)
        else write_back st segment
               (with_doc_locks id <[key := update_record updated_at_unix_ms state_json record]> document)
    end).

(** Source: crates/rginx-http/src/cache/shared/index_file/memory_backend.rs:370-381 (MemorySharedIndexStore::release_fill_lock) *)
Definition release_fill_lock (env : Env) (st : MemorySharedIndexStore) (key nonce : string) : Shm unit :=
  with_document_lock env st (λ segment document,
    match doc_fill_locks document !! key with
    | None => shm_lift (Ok tt)
    | Some record =>
        if negb (str_eqb (flr_nonce record) nonce) then shm_lift (Ok tt)
        else write_back st segment (with_doc_locks id <[key := release_record record]> document)
    end).

(** Source: crates/rginx-http/src/cache/shared/index_file/memory_backend.rs:383-401 (MemorySharedIndexStore::fill_lock_status) *)
Definition fill_lock_status (env : Env) (st : MemorySharedIndexStore) (key : string)
    (now_unix_ms lock_age_ms : Z) : Shm SharedFillLockStatus :=
  with_document_lock env st (λ _ document, shm_lift (Ok
    match doc_fill_locks document !! key with
    | None => FillMissing
    | Some record =>
        if flr_released record then FillMissing
        else if lock_age_ms <? sat_sub now_unix_ms (flr_updated_at_unix_ms record) then FillStale
        else FillFresh
    end)).

(** Source: crates/rginx-http/src/cache/shared/index_file/memory_backend.rs:403-427 (MemorySharedIndexStore::clear_stale_fill_lock) *)
Definition clear_stale_fill_lock (env : Env) (st : MemorySharedIndexStore) (key : string)
    (now_unix_ms lock_age_ms : Z) : Shm bool :=
  with_document_lock env st (λ segment document,
    match doc_fill_locks document !! key with
    | None => shm_lift (Ok false)
    | Some record =>
        if flr_released record then
          let! _ := write_back st segment (with_doc_locks id (delete key) document) in
          shm_lift (Ok false)
        else if sat_sub now_unix_ms (flr_updated_at_unix_ms record) <=? lock_age_ms
        then shm_lift (Ok false)
        else
          let! _ := write_back st segment (with_doc_locks (λ n, sat_add64 n 1) (delete key) document) in
          shm_lift (Ok true)
    end).

(** Source: crates/rginx-http/src/cache/shared/index_file/memory_backend.rs:429-451 (MemorySharedIndexStore::metrics) *)
Definition metrics (env : Env) (st : MemorySharedIndexStore) : Shm SharedIndexMetrics :=
  with_document_lock env st (λ segment document,
    let! b := shm_lift (invalid_data (document_to_vec document)) in
    λ s,
    let header := obj_header segment in
    let used_bytes := sat_add64 (sat_add64 (len b) PAYLOAD_LEN_BYTES) (hd_header_len header) in
    (Ok (mkMetrics (hd_capacity_bytes header) used_bytes (hd_entry_count header)
           (hd_current_size_bytes header) (hd_operation_ring_capacity header)
           (Z.of_nat (length (doc_changes document))) (sm_lock_contention_total s)
           (sm_full_reload_total s) (doc_rebuild_total document)
           (doc_stale_fill_lock_cleanup_total document) (sm_capacity_rejection_total s)), s)).

(** ** Following the store *)

(** The cursors of a zone beside its index. *)
(** Source: crates/rginx-http/src/cache/state.rs:3-18 (CacheZoneRuntime) *)
Record Replica : Type := mkReplica {
  rp_zone : CacheZoneRuntime;
  rp_generation : Z;
  rp_store_epoch : Z;
  rp_change_seq : Z;
}.

Definition clear_hot_entries : CacheZoneRuntime → CacheZoneRuntime := with_hot (λ _, ∅).

(** [loaded]: the answer of [load_shared_index_from_disk]. *)
(** Source: crates/rginx-http/src/cache/shared/delta.rs:3-24 (reload_zone_shared_index) *)
Definition reload_zone_shared_index (loaded : io_result LoadedSharedIndex) (r : Replica) : Replica :=
  match loaded with
  | Err _ => r
  | Ok loaded =>
      mkReplica (clear_hot_entries (with_index (λ _, ld_index loaded) (rp_zone r)))
        (ld_generation loaded) (ld_store_epoch loaded) (ld_last_change_seq loaded)
  end.

(** Nothing new for the replica. *)
Definition up_to_date (r : Replica) (shared_state : SharedIndexSyncState) : bool :=
  (ss_store_epoch shared_state =? rp_store_epoch r) && (ss_generation shared_state <=? rp_generation r).

(** The store is asked up to four times, and other processes may change it in
    between: the answers are arguments, [changes_since] for the cursor of the
    replica.  The tasks of one process take turns under [shared_index_sync_lock]
    from the second question on. *)
(** Source: crates/rginx-http/src/cache/shared.rs:52-130 (sync_zone_shared_index_if_needed) *)
Definition sync_zone_shared_index_if_needed (first second : io_result SharedIndexSyncState)
    (changes_since : Z → io_result LoadedSharedIndexChanges) (loaded : io_result LoadedSharedIndex)
    (r : Replica) : Replica :=
  match first with
  | Err _ => r
  | Ok shared_state =>
      if up_to_date r shared_state then r
      else
        match second with
        | Err _ => r
        | Ok shared_state =>
            if up_to_date r shared_state then r
            else if negb (ss_store_epoch shared_state =? rp_store_epoch r)
            then reload_zone_shared_index loaded r
            else
              match changes_since (rp_change_seq r) with
              | Err _ => reload_zone_shared_index loaded r
              | Ok delta =>
                  if (lc_store_epoch delta =? rp_store_epoch r) && (rp_generation r <? lc_generation delta) &&
                     (rp_change_seq r <=? lc_last_change_seq delta) &&
                     negb match lc_operations delta with [] => true | _ => false end
                  then mkReplica (apply_shared_index_delta (lc_operations delta) (rp_zone r))
                         (lc_generation delta) (lc_store_epoch delta) (lc_last_change_seq delta)
                  else reload_zone_shared_index loaded r
              end
        end
  end.

(** [applied]: the answer of [apply_shared_index_operations]. *)
(** Source: crates/rginx-http/src/cache/shared.rs:132-157 (apply_zone_shared_index_operations_locked) *)
Definition apply_zone_shared_index_operations_locked (operations : list SharedIndexOperation)
    (applied : io_result AppliedSharedIndexOperations) (r : Replica) : Replica :=
  match operations with
  | [] => r
  | _ =>
      match applied with
      | Ok applied =>
          mkReplica (rp_zone r) (ap_generation applied) (ap_store_epoch applied) (ap_last_change_seq applied)
      | Err _ => r
      end
  end.

(** ** Starting *)

(** Source: crates/rginx-http/src/cache/shared/index_file/codec.rs:56-80 (LegacySharedIndexEntry) *)
Record LegacySharedIndexEntry : Type := mkLegacyEntry { le_key : string; le_record : SharedIndexEntryRecord }.

(** Source: crates/rginx-http/src/cache/shared/index_file/codec.rs:47-53 (LegacySharedIndexFile) *)
Record LegacySharedIndexFile : Type := mkLegacyFile {
  lf_version : Z;
  lf_generation : Z;
  lf_entries : list LegacySharedIndexEntry;
  lf_admission_counts : list (string * Z);
}.

(** Headers that do not parse are left out, and every entry is a response. *)
Definition legacy_entry (record : SharedIndexEntryRecord) : CacheIndexEntry :=
  mkIndexEntry KindResponse (sr_hash record) (sr_base_key record) (sr_stored_at_unix_ms record)
    (omap (λ header, name ← header_name_parse (sv_name header); Some (mkVary name (sv_value header)))
       (sr_vary record))
    (sr_tags record) (sr_body_size_bytes record) (sr_expires_at_unix_ms record)
    (sr_grace_until_unix_ms record) (sr_keep_until_unix_ms record)
    (sr_stale_if_error_until_unix_ms record) (sr_stale_while_revalidate_until_unix_ms record)
    (default (sr_must_revalidate record) (sr_requires_revalidation record))
    (sr_must_revalidate record) (sr_last_access_unix_ms record).

(** Source: crates/rginx-http/src/cache/shared/index_file/codec.rs:175-227 (index_from_legacy_shared_file) *)
Definition index_from_legacy_shared_file (file : LegacySharedIndexFile) : LoadedSharedIndex :=
  let index :=
    foldl (λ index entry, load_entry index (le_key entry) (legacy_entry (le_record entry)))
      empty_index (lf_entries file) in
  let index :=
    foldl (λ index '(key, uses), with_admission_counts <[key := uses]> index) index
      (lf_admission_counts file) in
  mkLoaded index (lf_generation file) 1 0.

Definition SHARED_INDEX_SCHEMA_VERSION : Z := 2.

(** [parsed]: what [serde_json] makes of the file. *)
(** Source: crates/rginx-http/src/cache/shared/index_file/codec.rs:88-105 (load_legacy_shared_index_bytes) *)
Definition load_legacy_shared_index_bytes (parsed : option LegacySharedIndexFile)
    : io_result LoadedSharedIndex :=
  let? file := invalid_data parsed in
  if negb (lf_version file =? SHARED_INDEX_SCHEMA_VERSION) then Err InvalidData
  else Ok (index_from_legacy_shared_file file).

(** Source: crates/rginx-http/src/cache/shared/bootstrap.rs:83-88 (shared_index_loaded) *)
Definition shared_index_loaded (index : CacheIndex) (generation : Z) : bool :=
  (0 <? generation) || bool_decide (idx_entries index ≠ ∅) || bool_decide (idx_admission_counts index ≠ ∅) ||
  negb match idx_invalidations index with [] => true | _ => false end.

(** The legacy file ([None]: there is none) and the index read from the cache
    files; the legacy file is deleted once its index is in the store. *)
(** Source: crates/rginx-http/src/cache/shared/bootstrap.rs:41-73 (bootstrap_shared_index_from_cache_files) *)
Definition bootstrap_from_cache_files (env : Env) (st : MemorySharedIndexStore)
    (legacy : io_result (option LoadedSharedIndex)) (from_disk : io_result CacheIndex)
    : Shm (CacheIndex * Z * Z * Z) :=
  let rebuild index generation : Shm (CacheIndex * Z * Z * Z) :=
    let! rebuilt := recreate env st index generation in
    shm_lift (Ok (index, ap_generation rebuilt, ap_store_epoch rebuilt, ap_last_change_seq rebuilt)) in
  match legacy with
  | Ok (Some legacy) => rebuild (ld_index legacy) (Z.max (ld_generation legacy) 1)
  | _ => let! index := shm_lift from_disk in rebuild index 1
  end.

(** Source: crates/rginx-http/src/cache/shared/bootstrap.rs:13-39 (bootstrap_shared_index_with_store) *)
Definition bootstrap_with_store (load_env env : Env) (st : MemorySharedIndexStore)
    (legacy : io_result (option LoadedSharedIndex)) (from_disk : io_result CacheIndex)
    : Shm (CacheIndex * Z * Z * Z) := λ s,
  match load load_env st s with
  | (Ok loaded, s) =>
      if shared_index_loaded (ld_index loaded) (ld_generation loaded)
      then (Ok (ld_index loaded, ld_generation loaded, ld_store_epoch loaded, ld_last_change_seq loaded), s)
      else bootstrap_from_cache_files env st legacy from_disk s
  | (Err _, s) => bootstrap_from_cache_files env st legacy from_disk s
  end.
End SharedIndex.
