(* ===== verification/SharedJson.v ===== *)
(** * A reference instance of [serde_json]

    The shared index relies on its records being read back as they were
    written.  This instance writes fields one after the other, lists and
    strings behind their length; it shows that the laws can hold and lets
    examples run. *)

From S2P Require Import Prelude RustStr External Body CacheConfig CacheTypes CacheRequest CachePolicy CacheStore CacheIndex CacheMaintenance SharedMemory SharedIndex.

(** A reader takes its value off the front and leaves the rest. *)
Class Serial (A : Type) : Type := {
  put : A → bytes;
  take_off : bytes → option (A * bytes);
  take_put a rest : take_off (put a ++ rest) = Some (a, rest);
}.

#[export] Instance serial_Z : Serial Z.
Proof.
  refine {| put z := [z]; take_off b := match b with z :: b => Some (z, b) | [] => None end |}. done.
Defined.

(** Through an injection. *)
Definition serial_via {A B} `{Serial B} (f : A → B) (g : B → A) (gf : ∀ a, g (f a) = a) : Serial A.
Proof.
  refine {| put a := put (f a); take_off b := match take_off b with Some (b, rest) => Some (g b, rest) | None => None end |}.
  intros a rest. by rewrite take_put, gf.
Defined.

#[export] Instance serial_prod {A B} `{Serial A, Serial B} : Serial (A * B).
Proof.
  refine {| put p := put p.1 ++ put p.2;
            take_off b := '(a, b) ← take_off b; '(b', b) ← take_off b; Some ((a, b'), b) |}.
  intros [a b] rest. rewrite <-app_assoc, take_put. cbn. by rewrite take_put.
Defined.

#[export] Instance serial_bool : Serial bool.
Proof. refine (serial_via (λ b, if (b : bool) then 1 else 0) (λ z, z =? 1) _). by intros []. Defined.

Fixpoint take_many {A} `{Serial A} (n : nat) (b : bytes) : option (list A * bytes) :=
  match n with
  | O => Some ([], b)
  | S n => '(a, b) ← take_off b; '(l, b) ← take_many n b; Some (a :: l, b)
  end.

Fixpoint put_many {A} `{Serial A} (l : list A) : bytes :=
  match l with [] => [] | a :: l => put a ++ put_many l end.

Lemma take_put_many {A} `{Serial A} (l : list A) rest :
  take_many (length l) (put_many l ++ rest) = Some (l, rest).
Proof.
  induction l as [|a l IH]; [done|]. cbn [length take_many put_many]. rewrite <-app_assoc, take_put. cbn.
  by rewrite IH.
Qed.

#[export] Instance serial_list {A} `{Serial A} : Serial (list A).
Proof.
  refine {| put l := Z.of_nat (length l) :: put_many l;
            take_off b := match b with n :: b => take_many (Z.to_nat n) b | [] => None end |}.
  intros l rest. cbn. rewrite Nat2Z.id. apply take_put_many.
Defined.

#[export] Instance serial_option {A} `{Serial A} : Serial (option A).
Proof.
  refine (serial_via (B := list A) (λ o, match o with Some a => [a] | None => [] end) head _). by intros [].
Defined.

#[export] Instance serial_string : Serial string.
Proof. refine (serial_via bytes_of_string string_of_bytes string_bytes). Defined.

#[export] Instance serial_gmap {A} `{Serial A} : Serial (gmap string A).
Proof. refine (serial_via (B := list (string * A)) map_to_list list_to_map _). apply list_to_map_to_list. Defined.

(** ** The records *)

#[export] Instance serial_vary : Serial SharedVaryHeader.
Proof. refine (serial_via (B := string * option string) (λ h, (sv_name h, sv_value h)) (λ '(n, v), mkSharedVary n v) _). by intros []. Defined.

#[export] Instance serial_entry : Serial SharedIndexEntryRecord.
Proof.
  refine (serial_via (B := bool * string * string * Z * list SharedVaryHeader *
      (list string * Z * Z * option Z * option Z) * (option Z * option Z * option bool * bool * Z))
    (λ r, (match sr_kind r with KindResponse => true | KindHitForPass => false end,
      sr_hash r, sr_base_key r, sr_stored_at_unix_ms r, sr_vary r,
      (sr_tags r, sr_body_size_bytes r, sr_expires_at_unix_ms r, sr_grace_until_unix_ms r, sr_keep_until_unix_ms r),
      (sr_stale_if_error_until_unix_ms r, sr_stale_while_revalidate_until_unix_ms r, sr_requires_revalidation r,
       sr_must_revalidate r, sr_last_access_unix_ms r)))
    (λ '(a, b, c, d, e, (f, g, h, i, j), (k, l, m, n, o)),
       mkEntryRecord (if (a : bool) then KindResponse else KindHitForPass) b c d e f g h i j k l m n o) _).
  by intros [[] ? ? ? ? ? ? ? ? ? ? ? ? ? ?].
Defined.

#[export] Instance serial_rule : Serial CacheInvalidationRule.
Proof.
  refine (serial_via (B := Z * string * Z) (λ r, (match rule_selector r with
      | SelAll => (0, EmptyString) | SelExact k => (1, k) | SelPrefix p => (2, p) | SelTag t => (3, t)
      end, rule_created_at_unix_ms r))
    (λ '((kind, s), t), mkRule (if kind =? 0 then SelAll else if kind =? 1 then SelExact s
                                else if kind =? 2 then SelPrefix s else SelTag s) t) _).
  by intros [[] ?].
Defined.

#[export] Instance serial_change : Serial SharedMemoryChangeRecord.
Proof.
  refine (serial_via (B := Z * Z * Z * string * (option bytes * option Z * option Z))
    (λ r, (chg_seq r, chg_generation r, chg_op_kind r, chg_key r, (chg_entry_json r, chg_uses r,
      chg_last_access_unix_ms r))) (λ '(a, b, c, d, (e, f, g)), mkChange a b c d e f g) _). by intros [].
Defined.

#[export] Instance serial_fill_lock : Serial SharedMemoryFillLockRecord.
Proof.
  refine (serial_via (B := string * Z * Z * string * (Z * Z * bool * bytes))
    (λ r, (flr_key_hash r, flr_owner_pid r, flr_owner_generation r, flr_nonce r,
      (flr_acquired_at_unix_ms r, flr_updated_at_unix_ms r, flr_released r, flr_state_json r)))
    (λ '(a, b, c, d, (e, f, g, h)), mkFillRecord a b c d e f g h) _). by intros [].
Defined.

#[export] Instance serial_document : Serial SharedMemoryIndexDocument.
Proof.
  refine (serial_via (B := Z * Z * Z * Z * (Z * Z * gmap string bytes * gmap string Z) *
      (list bytes * gmap string SharedMemoryFillLockRecord * list SharedMemoryChangeRecord))
    (λ d, (doc_version d, doc_generation d, doc_store_epoch d, doc_last_change_seq d,
      (doc_rebuild_total d, doc_stale_fill_lock_cleanup_total d, doc_entries d, doc_admission_counts d),
      (doc_invalidations d, doc_fill_locks d, doc_changes d)))
    (λ '(a, b, c, d, (e, f, g, h), (i, j, k)), mkDocument a b c d e f g h i j k) _). by intros [].
Defined.

Module RefJson.
Definition write {A} `{Serial A} (a : A) : option bytes := Some (put a).
Definition read {A} `{Serial A} (b : bytes) : option A := fst <$> take_off b.

Lemma read_put {A} `{Serial A} (a : A) : read (put a) = Some a.
Proof. unfold read. rewrite <-(app_nil_r (put a)), take_put. done. Qed.

#[export] Instance api : SerdeJson := {|
  entry_to_vec := write; entry_from_slice := read;
  rule_to_vec := write; rule_from_slice := read;
  document_to_vec := write; document_from_slice := read;
|}.

#[export] Instance laws : SerdeJsonLaws api.
Proof.
  split.
  - intros r. eexists. split; [done|apply read_put].
  - intros r. eexists. split; [done|apply read_put].
  - intros d b Hb. assert (b = put d) as -> by (by injection Hb). split; [exact (read_put d)|done].
Qed.
End RefJson.
