(* ===== verification/SharedIndexView.v ===== *)
(** * What a replica of a cache index shows

    The abstract state behind the replicas of a zone is its entries, its
    admission counts and its set of invalidation rules; everything else in an
    index is derived from them or local to a process.  This file states what a
    published operation means on that state, and proves that the index
    operations publish what they do and that replaying a publication does what
    it means. *)

From S2P Require Import Prelude RustStr External Body CacheConfig CacheTypes CacheRequest CachePolicy CacheStore CacheIndex CacheMaintenance CacheInvariant CacheSafety SharedMemory SharedIndex.

Record View : Type := mkView {
  vw_entries : gmap string CacheIndexEntry;
  vw_admissions : gmap string Z;
  vw_rules : list CacheInvalidationRule;
}.

(** Rules are a set: views are compared up to order and repetition. *)
#[export] Instance view_equiv : Equiv View := λ a b,
  vw_entries a = vw_entries b ∧ vw_admissions a = vw_admissions b ∧ ∀ r, r ∈ vw_rules a ↔ r ∈ vw_rules b.

#[export] Instance view_equivalence : Equivalence (≡@{View}).
Proof.
  split.
  - by intros [? ? ?].
  - intros a b (He & Ha & Hr). split_and!; [done|done|]. intros r. by rewrite Hr.
  - intros a b c (He & Ha & Hr) (He' & Ha' & Hr'). split_and!; [congruence..|]. intros r. by rewrite Hr.
Qed.

Definition touched (last_access_unix_ms : Z) (e : CacheIndexEntry) : CacheIndexEntry :=
  if ent_last_access_unix_ms e <? last_access_unix_ms then with_last_access last_access_unix_ms e else e.

(** The meaning of a published operation. *)
Definition apply_view (v : View) (op : SharedIndexOperation) : View :=
  match op with
  | UpsertEntry key entry => mkView (<[key := entry]> (vw_entries v)) (vw_admissions v) (vw_rules v)
  | RemoveEntry key => mkView (delete key (vw_entries v)) (vw_admissions v) (vw_rules v)
  | TouchEntry key last => mkView (alter (touched last) key (vw_entries v)) (vw_admissions v) (vw_rules v)
  | SetAdmissionCount key uses => mkView (vw_entries v) (<[key := uses]> (vw_admissions v)) (vw_rules v)
  | RemoveAdmissionCount key => mkView (vw_entries v) (delete key (vw_admissions v)) (vw_rules v)
  | AddInvalidation rule => mkView (vw_entries v) (vw_admissions v) (vw_rules v ++ [rule])
  | ClearInvalidations => mkView (vw_entries v) (vw_admissions v) []
  end.

Definition replay (v : View) (ops : list SharedIndexOperation) : View := foldl apply_view v ops.

#[export] Instance apply_view_proper : Proper ((≡@{View}) ==> (=) ==> (≡)) apply_view.
Proof.
  intros a b (He & Ha & Hr) op _ <-. destruct op; cbn; split_and!; cbn; try congruence; try done.
  intros r. by rewrite !elem_of_app, Hr.
Qed.

#[export] Instance replay_proper : Proper ((≡@{View}) ==> (=) ==> (≡)) replay.
Proof.
  intros a b Hab ops _ <-. revert a b Hab. induction ops as [|op ops IH]; intros a b Hab; [done|].
  unfold replay. cbn [foldl]. apply IH. by rewrite Hab.
Qed.

Lemma replay_app v ops ops' : replay v (ops ++ ops') = replay (replay v ops) ops'.
Proof. apply foldl_app. Qed.

Lemma replay_cons v op ops : replay v (op :: ops) = replay (apply_view v op) ops.
Proof. done. Qed.

(** What an index shows. *)
Definition view_of (i : CacheIndex) : View :=
  mkView (idx_entries i) (idx_admission_counts i) (idx_invalidations i).

(** ** The derived data do not show *)

Lemma view_unschedule key i : view_of (unschedule_entry_access key i) = view_of i.
Proof. unfold unschedule_entry_access. by destruct (_ !! key). Qed.

Lemma view_schedule key last i : view_of (schedule_entry_access key last i) = view_of i.
Proof. unfold schedule_entry_access. exact (view_unschedule key i). Qed.

Lemma view_reschedule key last i : view_of (reschedule_entry_access key last i) = view_of i.
Proof. unfold reschedule_entry_access. destruct (_ !! key); [apply view_schedule|done]. Qed.

Lemma view_pop i key scheduled i' :
  pop_oldest_scheduled_entry i = Some (key, scheduled, i') → view_of i' = view_of i.
Proof. unfold pop_oldest_scheduled_entry. destruct (idx_access_schedule i); [done|]. by intros [= _ _ <-]. Qed.

Lemma view_insert_entry key entry i :
  view_of (insert_entry key entry i).2 = apply_view (view_of i) (UpsertEntry key entry).
Proof. unfold insert_entry. cbn [snd]. rewrite view_schedule. by destruct (idx_entries i !! key). Qed.

Lemma view_remove_entry key i removed i' :
  remove_entry key i = Some (removed, i') → view_of i' = apply_view (view_of i) (RemoveEntry key).
Proof.
  unfold remove_entry. destruct (idx_entries i !! key); [|done]. intros [= _ <-]. by rewrite view_unschedule.
Qed.

Lemma view_remove_accounted key i removed i' :
  remove_accounted key i = Some (removed, i') → view_of i' = replay (view_of i) (removal_operations key).
Proof.
  unfold remove_accounted. destruct (remove_entry key i) as [[e j]|] eqn:Hr; [|done]. intros [= _ <-].
  apply view_remove_entry in Hr. change (apply_view (view_of j) (RemoveAdmissionCount key) =
    replay (view_of i) (removal_operations key)). by rewrite Hr.
Qed.

(** Removing again what is gone changes nothing. *)
Lemma replay_removal_twice v key :
  replay (replay v (removal_operations key)) (removal_operations key) = replay v (removal_operations key).
Proof. unfold replay. cbn. by rewrite !delete_delete_eq. Qed.

Lemma touch_alter key last i :
  match touch_entry key last i with Some i' => view_of i' | None => view_of i end =
    apply_view (view_of i) (TouchEntry key last).
Proof.
  unfold touch_entry, apply_view, touched. cbn. destruct (idx_entries i !! key) as [e|] eqn:Hk; cbn.
  - destruct (_ <? last) eqn:Hlt.
    + rewrite view_reschedule. unfold view_of. cbn. f_equal. apply map_eq. intros k.
      destruct (decide (k = key)) as [->|Hne].
      * by rewrite lookup_insert_eq, lookup_alter_eq, Hk; cbn; rewrite Hlt.
      * by rewrite lookup_insert_ne, lookup_alter_ne.
    + unfold view_of. f_equal. apply map_eq. intros k. destruct (decide (k = key)) as [->|Hne].
      * rewrite lookup_alter_eq, Hk. cbn. by rewrite Hlt.
      * by rewrite lookup_alter_ne.
  - unfold view_of. f_equal. apply map_eq. intros k. destruct (decide (k = key)) as [->|Hne].
    + by rewrite lookup_alter_eq, Hk.
    + by rewrite lookup_alter_ne.
Qed.

(** ** Replaying a delta *)

Section Views.
Context {HTTP : HttpApi}.

Lemma same_rule_spec (r rule : CacheInvalidationRule) :
  bool_decide (rule_created_at_unix_ms r = rule_created_at_unix_ms rule) &&
  match rule_selector r, rule_selector rule with
  | SelAll, SelAll => true
  | SelExact a, SelExact b | SelPrefix a, SelPrefix b | SelTag a, SelTag b => str_eqb a b
  | _, _ => false
  end = true ↔ r = rule.
Proof.
  destruct r as [s t], rule as [s' t']. cbn. rewrite andb_true_iff, bool_decide_eq_true. split.
  - intros [-> Hs]. f_equal. destruct s, s'; try done; apply str_eqb_true in Hs; by subst.
  - intros [= -> ->]. split; [done|]. destruct s'; [done|apply str_eqb_refl..].
Qed.

(** Applying an operation received from the store does what it means. *)
Lemma delta_refines op z :
  view_of (zr_index (apply_shared_index_operation op z)) ≡ apply_view (view_of (zr_index z)) op.
Proof.
  destruct op as [key entry|key|key last|key uses|key|rule|]; cbn [apply_shared_index_operation].
  - pose proof (view_insert_entry key entry (zr_index (remove_hot_entry key z))) as Hv.
    destruct (insert_entry key entry _) as [existing i] eqn:Hi. cbn [snd] in Hv.
    change (view_of (zr_index (remove_hot_entry key z))) with (view_of (zr_index z)) in Hv.
    rewrite <-Hv. by destruct existing.
  - change (zr_index (remove_hot_entry key z)) with (zr_index z).
    destruct (remove_entry key (zr_index z)) as [[e i]|] eqn:Hr.
    + by rewrite <-(view_remove_entry _ _ _ _ Hr).
    + unfold remove_entry in Hr. destruct (idx_entries (zr_index z) !! key) eqn:Hk; [done|].
      unfold apply_view, view_of. cbn. by rewrite delete_id.
  - rewrite <-touch_alter. by destruct (touch_entry key last (zr_index z)).
  - done.
  - done.
  - rewrite (proj1 (remove_hot_entries_index _ _)). cbn. split_and!; [done|done|]. cbn. intros r.
    destruct (existsb _ _) eqn:He.
    + apply existsb_exists in He as (r' & Hin & Hr'%same_rule_spec). subst r'.
      apply list_elem_of_In in Hin. rewrite elem_of_app. split; [by left|]. by intros [?| ->%list_elem_of_singleton].
    + done.
  - done.
Qed.

Lemma deltas_refine ops z :
  view_of (zr_index (apply_shared_index_delta ops z)) ≡ replay (view_of (zr_index z)) ops.
Proof.
  revert z. induction ops as [|op ops IH]; intros z; [done|].
  unfold apply_shared_index_delta. cbn [foldl]. rewrite replay_cons.
  etrans; [apply IH|]. by rewrite delta_refines.
Qed.

(** ** Publishing *)

Definition removals (keys : list string) : list SharedIndexOperation := mjoin (map removal_operations keys).

Lemma removals_app ks ks' : removals (ks ++ ks') = removals ks ++ removals ks'.
Proof. unfold removals. by rewrite map_app, join_app. Qed.

Lemma removals_pairs (l : list (string * CacheIndexEntry)) :
  mjoin (map (λ r, removal_operations r.1) l) = removals (map fst l).
Proof. unfold removals. by rewrite map_map. Qed.

Lemma replay_removals_snoc v ks k :
  replay v (removals (ks ++ [k])) = replay (replay v (removals ks)) (removal_operations k).
Proof. by rewrite removals_app, replay_app. Qed.

(** Removed in any order, each twice or more: the same. *)
Lemma replay_removals_lookup v ks :
  let w := replay v (removals ks) in
  (∀ k, vw_entries w !! k = if bool_decide (k ∈ ks) then None else vw_entries v !! k) ∧
  (∀ k, vw_admissions w !! k = if bool_decide (k ∈ ks) then None else vw_admissions v !! k) ∧
  vw_rules w = vw_rules v.
Proof.
  cbn zeta. revert v. induction ks as [|k0 ks IH]; intros v.
  - unfold removals. cbn. by split_and!; [intros k; rewrite bool_decide_false by set_solver..|].
  - change (replay v (removals (k0 :: ks))) with (replay (replay v (removal_operations k0)) (removals ks)).
    destruct (IH (replay v (removal_operations k0))) as (He & Ha & Hr).
    split_and!; [| |by rewrite Hr]; intros k; [rewrite He|rewrite Ha]; unfold replay; cbn;
      (destruct (decide (k = k0)) as [->|Hne];
       [rewrite lookup_delete_eq, (bool_decide_true (k0 ∈ k0 :: ks)) by set_solver; by case_bool_decide|]);
      rewrite lookup_delete_ne by done; case_bool_decide; case_bool_decide; set_solver.
Qed.

Lemma replay_removals_ext v ks ks' :
  (∀ k, k ∈ ks ↔ k ∈ ks') → replay v (removals ks) = replay v (removals ks').
Proof.
  intros Hk. destruct (replay_removals_lookup v ks) as (He & Ha & Hr).
  destruct (replay_removals_lookup v ks') as (He' & Ha' & Hr').
  destruct (replay v (removals ks)) as [e a r], (replay v (removals ks')) as [e' a' r'].
  cbn in *. f_equal; [| |congruence]; apply map_eq; intros k; [rewrite He, He'|rewrite Ha, Ha'];
    by rewrite (bool_decide_ext _ _ (Hk k)).
Qed.

(** Removing once more keys already removed. *)
Lemma replay_removals_again v ks ks' :
  (∀ k, k ∈ ks' → k ∈ ks) → replay (replay v (removals ks)) (removals ks') = replay v (removals ks).
Proof.
  intros Hk. rewrite <-replay_app, <-removals_app. apply replay_removals_ext. intros k. rewrite elem_of_app.
  naive_solver.
Qed.

Lemma view_eviction_loop fuel hot max i ev ev' i' :
  eviction_loop fuel hot max i ev = Some (ev', i') →
  ∃ new, ev' = ev ++ new ∧ view_of i' = replay (view_of i) (removals (map fst new)).
Proof.
  revert i ev. induction fuel as [|fuel IH]; intros i ev; cbn [eviction_loop].
  { destruct (_ <=? max); [|done]. intros [= <- <-]. exists []. by rewrite app_nil_r. }
  destruct (_ <=? max); [intros [= <- <-]; exists []; by rewrite app_nil_r|].
  destruct (pop_oldest_scheduled_entry i) as [[[key scheduled] j]|] eqn:Hp.
  2:{ intros [= <- <-]. exists []. by rewrite app_nil_r. }
  rewrite <-(view_pop _ _ _ _ Hp). destruct (idx_entries j !! key) as [entry|]; [|apply IH].
  destruct (scheduled <? _); [rewrite <-(view_reschedule key (effective_last_access_unix_ms hot key entry) j); apply IH|].
  destruct (remove_accounted key j) as [[e j']|] eqn:Hr; [|apply IH].
  intros (new & -> & Hv)%IH. exists ((key, e) :: new). rewrite <-app_assoc. split; [done|].
  by rewrite Hv, (view_remove_accounted _ _ _ _ Hr).
Qed.

Lemma view_cleanup_loop fuel hot now inactive batch i ev ev' i' :
  cleanup_loop fuel hot now inactive batch i ev = Some (ev', i') →
  ∃ new, ev' = ev ++ new ∧ view_of i' = replay (view_of i) (removals (map fst new)).
Proof.
  assert (Hnil : ∀ (ev : list (string * CacheIndexEntry)) i, ∃ new, ev = ev ++ new ∧
    view_of i = replay (view_of i) (removals (map fst new))) by (intros; exists []; by rewrite app_nil_r).
  revert i ev. induction fuel as [|fuel IH]; intros i ev; cbn [cleanup_loop];
    (destruct (batch <=? _); [intros [= <- <-]; apply Hnil|]);
    (destruct (oldest_scheduled_access_unix_ms i) as [oldest|]; [|intros [= <- <-]; apply Hnil]);
    (destruct (_ <=? oldest); [intros [= <- <-]; apply Hnil|]); [done|].
  destruct (pop_oldest_scheduled_entry i) as [[[key scheduled] j]|] eqn:Hp; [|intros [= <- <-]; apply Hnil].
  rewrite <-(view_pop _ _ _ _ Hp). destruct (idx_entries j !! key) as [entry|]; [|apply IH].
  destruct (scheduled <? _); [rewrite <-(view_reschedule key (effective_last_access_unix_ms hot key entry) j); apply IH|].
  destruct (_ <=? inactive); [rewrite <-(view_reschedule key (effective_last_access_unix_ms hot key entry) j); apply IH|].
  destruct (remove_accounted key j) as [[e j']|] eqn:Hr; [|apply IH].
  intros (new & -> & Hv)%IH. exists ((key, e) :: new). rewrite <-app_assoc. split; [done|].
  by rewrite Hv, (view_remove_accounted _ _ _ _ Hr).
Qed.

(** What a store has published so far describes what it has done. *)
Definition describes (v : View) (u : StoreUpdate) : Prop := view_of (up_index u) = replay v (up_operations u).

Lemma drop_variant_describes v h key u : describes v u → describes v (drop_variant h key u).
Proof.
  unfold describes, drop_variant. intros Hu. destruct (remove_accounted key (up_index u)) as [[e i]|] eqn:Hr; [|done].
  cbn. rewrite replay_app, <-Hu. by rewrite <-(view_remove_accounted _ _ _ _ Hr).
Qed.

Lemma drop_variants_describe v h keys u :
  describes v u → describes v (foldl (λ u k, drop_variant h k u) u keys).
Proof. revert u. induction keys as [|k keys IH]; intros u Hu; [done|]. cbn. by apply IH, drop_variant_describes. Qed.

Lemma store_update_describes key entry replaced i : describes (view_of i) (store_update key entry replaced i).
Proof.
  unfold store_update. fold (store_removals key entry replaced i).
  assert (Hu : describes (view_of i) (store_removals key entry replaced i)).
  { unfold store_removals. apply drop_variants_describe.
    destruct replaced as [[rk expected]|]; [|done]. destruct (idx_entries i !! rk) as [cur|]; [|done].
    destruct (stable_eq cur expected); [|done]. by apply drop_variant_describes. }
  pose proof (view_insert_entry key entry (up_index (store_removals key entry replaced i))) as Hv.
  rewrite Hu in Hv. unfold describes.
  destruct (insert_entry key entry _) as [[existing|] j] eqn:Hi; cbn [snd] in Hv; cbn [up_index up_operations note_removed];
    rewrite ?app_nil_r, replay_app, replay_cons, <-Hv; done.
Qed.

(** Forgetting the evicted entries changes nothing: the loop removed them. *)
Lemma note_evicted_describes v h (l : list (string * CacheIndexEntry)) keys u w :
  w = replay v (removals keys) → (∀ k, k ∈ map fst l → k ∈ keys) → view_of (up_index u) = w →
  view_of (up_index (foldl (note_evicted h) u l)) = w ∧
  up_operations (foldl (note_evicted h) u l) = up_operations u ++ removals (map fst l).
Proof.
  intros Hw. revert u. induction l as [|[k e] l IH]; intros u Hin Hu; cbn [foldl].
  - by rewrite app_nil_r.
  - destruct (IH (note_evicted h u (k, e))) as [Hv Ho].
    + intros k' Hk'. apply Hin. cbn. set_solver.
    + change (apply_view (view_of (up_index u)) (RemoveAdmissionCount k) = w). rewrite Hu, Hw.
      destruct (replay_removals_lookup v keys) as (_ & Ha & _).
      destruct (replay v (removals keys)) as [we wa wr]. cbn in *. f_equal. apply delete_id.
      rewrite Ha, bool_decide_true; [done|]. apply Hin. set_solver.
    + split; [done|]. rewrite Ho. cbn. by rewrite <-app_assoc.
Qed.

Lemma store_describes key entry replaced z hashes ops z' :
  update_index_after_store key entry replaced z = Some (hashes, ops, z') →
  view_of (zr_index z') = replay (view_of (zr_index z)) ops.
Proof.
  unfold update_index_after_store.
  pose proof (store_update_describes key entry replaced (zr_index z)) as Hu.
  set (u := store_update key entry replaced (zr_index z)) in *. clearbody u.
  destruct (eviction_candidates _ _ _) as [[evicted i]|] eqn:He; [|done]. cbn [mbind option_bind].
  intros [= _ <- <-]. rewrite record_positive_index, (proj1 (remove_hot_entries_index _ _)).
  cbn [zr_index with_index].
  assert (Hi : view_of i = replay (view_of (up_index u)) (removals (map fst evicted))).
  { unfold eviction_candidates in He. destruct (zone_max_size_bytes _); [|by injection He as <- <-].
    destruct (view_eviction_loop _ _ _ _ _ _ _ He) as (new & -> & Hv). done. }
  destruct (note_evicted_describes (view_of (up_index u)) (ent_hash entry) evicted (map fst evicted)
    (mkUpdate i (up_removed_hashes u) (up_removed_keys u) (up_operations u)) _ eq_refl) as [Hv Ho]; [done|done|].
  rewrite Hv, Ho. cbn. by rewrite replay_app, <-Hu.
Qed.

Lemma variants_do_not_show (l : list (string * CacheIndexEntry)) i :
  view_of (foldl (λ i r, with_variants (remove_variant_key (ent_base_key r.2) r.1) i) i l) = view_of i.
Proof. revert i. induction l as [|r l IH]; intros i; [done|]. cbn. by rewrite IH. Qed.

Lemma cleanup_batch_describes now inactive batch z removed more ops z' :
  cleanup_batch now inactive batch z = Some (removed, more, ops, z') →
  view_of (zr_index z') = replay (view_of (zr_index z)) ops.
Proof.
  unfold cleanup_batch, inactive_cleanup_candidates.
  destruct (batch =? 0); cbn [mbind option_bind].
  { intros [= <- _ <- <-]. done. }
  destruct (cleanup_loop _ _ _ _ _ _ _) as [[l i]|] eqn:Hl; [|done]. cbn [mbind option_bind].
  intros [= <- _ <- <-]. rewrite (proj1 (remove_hot_entries_index _ _)). cbn [zr_index with_index].
  rewrite variants_do_not_show, removals_pairs. by destruct (view_cleanup_loop _ _ _ _ _ _ _ _ _ Hl) as (new & -> & ->).
Qed.

Lemma cleanup_batches_describe fuel now inactive batch total v ops z total' ops' z' :
  cleanup_batches fuel now inactive batch total ops z = Some (total', ops', z') →
  view_of (zr_index z) = replay v ops → view_of (zr_index z') = replay v ops'.
Proof.
  revert total ops z. induction fuel as [|fuel IH]; intros total ops z; cbn [cleanup_batches]; [done|].
  destruct (cleanup_batch now inactive batch z) as [[[[removed more] o] z1]|] eqn:Hb; [|done].
  pose proof (cleanup_batch_describes _ _ _ _ _ _ _ _ Hb) as Hv. intros Hrest Hz.
  assert (Hz1 : view_of (zr_index z1) = replay v (ops ++ o)) by (by rewrite replay_app, Hv, Hz).
  destruct more; [by eapply IH|]. by injection Hrest as <- <- <-.
Qed.

Lemma purge_keys_describe keys removed i removed' i' :
  foldl (λ '(removed, i) key,
    match remove_accounted key i with
    | None => (removed, i)
    | Some (entry, i) =>
        (removed ++ [(key, entry)], with_variants (remove_variant_key (ent_base_key entry) key) i)
    end) (removed, i) keys = (removed', i') →
  ∃ new, removed' = removed ++ new ∧ view_of i' = replay (view_of i) (removals (map fst new)).
Proof.
  revert removed i. induction keys as [|k keys IH]; intros removed i; cbn [foldl].
  - intros [= <- <-]. exists []. by rewrite app_nil_r.
  - destruct (remove_accounted k i) as [[e j]|] eqn:Hr; [|apply IH].
    intros (new & -> & Hv)%IH. exists ((k, e) :: new). rewrite <-app_assoc. split; [done|].
    rewrite Hv. change (view_of (with_variants (remove_variant_key (ent_base_key e) k) j)) with (view_of j).
    by rewrite (view_remove_accounted _ _ _ _ Hr).
Qed.

(** Each operation of the index with what it publishes. *)
Inductive publishes : CacheZoneRuntime → list SharedIndexOperation → CacheZoneRuntime → Prop :=
| pub_store z key entry replaced hashes ops z' :
    update_index_after_store key entry replaced z = Some (hashes, ops, z') → publishes z ops z'
| pub_admission z key min_uses admitted ops i :
    record_cache_admission_attempt key min_uses (zr_index z) = (admitted, ops, i) →
    publishes z ops (with_index (λ _, i) z)
| pub_remove z key expected hash del ops z' :
    remove_zone_index_entry_if_matches key expected z = Some (hash, del, ops, z') → publishes z ops z'
| pub_purge z selector removed bytes ops z' :
    purge_zone_entries selector z = (removed, bytes, ops, z') → publishes z ops z'
| pub_invalidate z selector now affected ops z' :
    invalidate_zone_entries selector now z = (affected, ops, z') → publishes z ops z'
| pub_clear z affected ops z' : clear_zone_invalidations z = (affected, ops, z') → publishes z ops z'
| pub_access z key now ops z' : record_zone_shared_entry_access key now z = (ops, z') → publishes z ops z'
| pub_cleanup z now ops z' : cleanup_inactive_entries_in_zone now z = Some (ops, z') → publishes z ops z'.

Lemma admission_describes key min_uses i admitted ops i' :
  record_cache_admission_attempt key min_uses i = (admitted, ops, i') → view_of i' = replay (view_of i) ops.
Proof.
  unfold record_cache_admission_attempt. destruct (_ || _).
  - intros [= _ <- <-]. unfold view_of. cbn. destruct (idx_admission_counts i !! key) eqn:Hk; [done|].
    cbn. by rewrite delete_id.
  - destruct (_ <=? _); by intros [= _ <- <-].
Qed.

Lemma access_describes key now z ops z' :
  record_zone_shared_entry_access key now z = (ops, z') →
  view_of (zr_index z') = replay (view_of (zr_index z)) ops.
Proof.
  unfold record_zone_shared_entry_access.
  assert (Hi1 : zr_index (record_entry_access key now z) = zr_index z).
  { unfold record_entry_access, hot_entry_for_key. by destruct (zr_hot_entries z !! key). }
  set (z1 := record_entry_access key now z) in *.
  assert (Hi2 : zr_index (should_publish_shared_entry_access key now z1).2 = zr_index z).
  { rewrite <-Hi1. unfold should_publish_shared_entry_access, hot_entry_for_key.
    destruct (zr_hot_entries z1 !! key); by destruct (_ && _). }
  destruct (should_publish_shared_entry_access key now z1) as [publish z2]. cbn [snd] in Hi2.
  destruct (negb publish); [intros [= <- <-]; by rewrite Hi2|].
  pose proof (touch_alter key now (zr_index z2)) as Ht. rewrite <-Hi2.
  destruct (touch_entry key now (zr_index z2)) as [i|]; intros [= <- <-]; [exact Ht|done].
Qed.
End Views.

(** The operations an index change publishes are exactly what it did to the
    entries, the admission counts and the invalidation rules: replaying them
    gives the same view, whatever was stored, evicted, admitted, removed,
    purged, invalidated, touched or cleaned up.  And a process that applies
    them to its own index, from the same view, shows the same view. *)
Theorem published_operations_describe_change {HTTP : HttpApi} (z z' follower : CacheZoneRuntime)
    (ops : list SharedIndexOperation) :
  publishes z ops z' →
  view_of (zr_index z') = replay (view_of (zr_index z)) ops ∧
  (view_of (zr_index follower) ≡ view_of (zr_index z) →
   view_of (zr_index (apply_shared_index_delta ops follower)) ≡ view_of (zr_index z')).
Proof.
  intros Hp. assert (Hv : view_of (zr_index z') = replay (view_of (zr_index z)) ops).
  { destruct Hp as [z key entry replaced hashes ops z' H|z key min_uses admitted ops i H|
      z key expected hash del ops z' H|z selector removed bytes ops z' H|z selector now affected ops z' H|
      z affected ops z' H|z key now ops z' H|z now ops z' H].
    - by eapply store_describes.
    - by eapply admission_describes.
    - unfold remove_zone_index_entry_if_matches in H. destruct (_ !! key); [|done]. cbn [mbind option_bind] in H.
      destruct (negb _); [done|]. destruct (remove_accounted key (zr_index z)) as [[e i]|] eqn:Hr; [|done].
      cbn [mbind option_bind] in H. injection H as <- <- <- <-. exact (view_remove_accounted _ _ _ _ Hr).
    - unfold purge_zone_entries in H. destruct (purge_keys _ _) as [l i] eqn:Hk.
      injection H as <- <- <- <-. rewrite (proj1 (remove_hot_entries_index _ _)), record_positive_index.
      cbn [zr_index with_index]. rewrite removals_pairs. by destruct (purge_keys_describe _ _ _ _ _ Hk) as (new & -> & ->).
    - unfold invalidate_zone_entries in H. injection H as <- <- <-.
      by rewrite record_positive_index, (proj1 (remove_hot_entries_index _ _)).
    - unfold clear_zone_invalidations in H. injection H as <- <- <-.
      by rewrite (proj1 (remove_hot_entries_index _ _)).
    - by eapply access_describes.
    - unfold cleanup_inactive_entries_in_zone in H. destruct (_ && _); [by injection H as <- <-|].
      destruct (cleanup_batches _ _ _ _ _ _ _) as [[[total o] z1]|] eqn:Hb; [|done]. cbn [mbind option_bind] in H.
      injection H as <- <-. rewrite record_positive_index. by apply (cleanup_batches_describe _ _ _ _ _ _ _ _ _ _ _ Hb). }
  split; [done|]. intros Hf. etrans; [apply deltas_refine|]. by rewrite Hf, Hv.
Qed.

(** ** A concrete publication *)

#[local] Existing Instance RefHttp.api.

Lemma stored_zone_publishes :
  publishes (initial_zone sample_zone_config) [UpsertEntry "/x" sample_entry; RemoveAdmissionCount "/x"] stored_zone.
Proof. eapply (pub_store _ "/x" sample_entry None ∅). vm_compute. reflexivity. Qed.

Theorem published_operations_describe_change_witness :
  view_of (zr_index (apply_shared_index_delta [UpsertEntry "/x" sample_entry; RemoveAdmissionCount "/x"]
    (initial_zone sample_zone_config))) ≡ view_of (zr_index stored_zone).
Proof. by apply (published_operations_describe_change _ _ _ _ stored_zone_publishes). Defined.
