(* ===== verification/SharedIndexStore.v ===== *)
(** * The store of a shared index: what its document holds

    The document round-trips through shared memory; a batch of operations moves
    its view along and extends its history, of which the change ring keeps the
    end; loading it gives an index that shows it. *)

From S2P Require Import Prelude RustStr External Body CacheConfig CacheTypes CacheRequest CachePolicy CacheStore CacheIndex CacheMaintenance CacheInvariant CacheSafety SharedMemory SharedIndex SharedIndexView.

(** ** Lengths in little endian *)

Lemma le_bytes_length n z : length (le_bytes n z) = n.
Proof. revert z. induction n as [|n IH]; intros z; [done|]. cbn. by rewrite IH. Qed.

Lemma le_value_bytes n z : 0 ≤ z < 256 ^ Z.of_nat n → le_value (le_bytes n z) = z.
Proof.
  revert z. induction n as [|n IH]; intros z Hz.
  - cbn in Hz |- *. lia.
  - rewrite Nat2Z.inj_succ, Z.pow_succ_r in Hz by lia.
    change (le_value (le_bytes (S n) z)) with (z mod 256 + 256 * le_value (le_bytes n (z / 256))).
    rewrite IH; [pose proof (Z.div_mod z 256); lia|].
    split; [apply Z.div_pos; lia|apply Z.div_lt_upper_bound; lia].
Qed.

(** A body behind its length is read back as it was written. *)
Lemma framed_write b segment :
  object_ok segment → 0 < len b → 8 + len b ≤ payload_capacity segment →
  ∃ s1 s2, write_payload 0 (le_bytes 8 (len b)) segment = Ok s1 ∧ write_payload 8 b s1 = Ok s2 ∧ object_ok s2 ∧
    obj_size s2 = obj_size segment ∧ obj_header s2 = obj_header segment ∧
    read_payload 0 8 s2 = Ok (le_bytes 8 (len b)) ∧ le_value (le_bytes 8 (len b)) = len b ∧ read_payload 8 (len b) s2 = Ok b.
Proof.
  intros Hok Hpos Hfit.
  assert (payload_capacity segment ≤ 2 ^ 63 - 1).
  { destruct Hok as [Hs _]. unfold payload_capacity, payload_capacity_of, sat_sub, header_size in *. lia. }
  destruct (write_payload_total 0 (le_bytes 8 (len b)) segment) as [s1 Hw1]; [done|lia|rewrite le_bytes_length; lia|].
  destruct (write_payload_ok 0 _ _ _ Hok (Z.le_refl 0) Hw1) as (Hok1 & Hz1 & Hh1).
  destruct (write_payload_total 8 b s1) as [s2 Hw2]; [done|lia|unfold payload_capacity in *; rewrite Hz1; unfold len in *; lia|].
  destruct (write_payload_ok 8 _ _ _ Hok1 ltac:(lia) Hw2) as (Hok2 & Hz2 & Hh2).
  exists s1, s2. split_and!; try done; [congruence|congruence| | |].
  - rewrite (read_before_write 8 b 0 8 s1 s2) by done.
    pose proof (read_write_payload 0 _ _ _ Hok (Z.le_refl 0) Hw1) as H1. by rewrite le_bytes_length in H1.
  - apply le_value_bytes. cbn. unfold len in *. lia.
  - apply (read_write_payload 8 b s1 s2 Hok1 ltac:(lia) Hw2).
Qed.

Lemma collect_results_ok {E A B} (f : A → result E B) (g : A → B) l :
  (∀ a, a ∈ l → f a = Ok (g a)) → collect_results f l = Ok (map g l).
Proof.
  induction l as [|a l IH]; intros Hf; [done|]. cbn. rewrite Hf by set_solver. cbn.
  rewrite IH by (intros; apply Hf; set_solver). done.
Qed.

Lemma collect_results_app {E A B} (f : A → result E B) l k bs cs :
  collect_results f l = Ok bs → collect_results f k = Ok cs → collect_results f (l ++ k) = Ok (bs ++ cs).
Proof.
  revert bs. induction l as [|a l IH]; intros bs; cbn.
  - by intros [= <-].
  - destruct (f a) as [b|]; [|done]. cbn. destruct (collect_results f l) as [bs'|]; [|done]. cbn.
    intros [= <-] Hk. by rewrite (IH _ eq_refl Hk).
Qed.

Section Store.
Context {HTTP : HttpApi} {SHA : Sha256Api} {JSON : SerdeJson} {Laws : SerdeJsonLaws JSON}.

(** ** Entries *)

(** The [HeaderName]s of an entry. *)
Definition entry_wf (e : CacheIndexEntry) : Prop :=
  Forall (λ h, header_name_parse (vary_name h) = Some (vary_name h)) (ent_vary e).

Definition op_wf (op : SharedIndexOperation) : Prop :=
  match op with UpsertEntry _ entry => entry_wf entry | _ => True end.

Lemma entry_round_trip e : entry_wf e → ∃ b, serialize_entry_record e = Ok b ∧ deserialize_entry_record b = Ok e.
Proof.
  intros Hwf. unfold serialize_entry_record, deserialize_entry_record.
  match goal with |- context [entry_to_vec ?r] => destruct (entry_json r) as (b & Hb & Hr) end.
  exists b. rewrite Hb. split; [done|]. rewrite Hr. cbn. unfold cache_index_entry_from_record. cbn.
  assert (Hv : collect_results (λ header,
      let? name := invalid_data (header_name_parse (sv_name header)) in Ok (mkVary name (sv_value header)))
      (map (λ header, mkSharedVary (vary_name header) (vary_value header)) (ent_vary e)) = Ok (ent_vary e)).
  { clear -Hwf. unfold entry_wf in Hwf. induction Hwf as [|h l Hh Hl IH]; [done|]. cbn. rewrite Hh. cbn. rewrite IH. cbn.
    by destruct h. }
  rewrite Hv. cbn. by destruct e.
Qed.

Lemma rule_round_trip r : ∃ b, serialize_invalidation_rule r = Ok b ∧ deserialize_invalidation_rule b = Ok r.
Proof.
  destruct (rule_json r) as (b & Hb & Hr). exists b. unfold serialize_invalidation_rule, deserialize_invalidation_rule.
  by rewrite Hb, Hr.
Qed.

Lemma touched_wf last e : entry_wf e → entry_wf (touched last e).
Proof. unfold touched. by case_match. Qed.

(** ** What a document shows *)

Record doc_shows (d : SharedMemoryIndexDocument) (v : View) : Prop := {
  ds_entries k :
    option_Forall2 (λ json e, deserialize_entry_record json = Ok e ∧ entry_wf e)
      (doc_entries d !! k) (vw_entries v !! k);
  ds_admissions : doc_admission_counts d = vw_admissions v;
  ds_rules : collect_results deserialize_invalidation_rule (doc_invalidations d) = Ok (vw_rules v);
}.

Lemma doc_shows_ext d d' v :
  doc_entries d' = doc_entries d → doc_admission_counts d' = doc_admission_counts d →
  doc_invalidations d' = doc_invalidations d → doc_shows d v → doc_shows d' v.
Proof. intros He Ha Hi [H1 H2 H3]. split; rewrite ?He, ?Ha, ?Hi; done. Qed.

Lemma shows_insert d v key json e :
  doc_shows d v → deserialize_entry_record json = Ok e → entry_wf e →
  doc_shows (with_doc_entries <[key := json]> d) (mkView (<[key := e]> (vw_entries v)) (vw_admissions v) (vw_rules v)).
Proof.
  intros [He Ha Hr] Hj Hwf. split; [|done|done]. intros k. cbn. destruct (decide (k = key)) as [->|Hne].
  - rewrite !lookup_insert_eq. by constructor.
  - rewrite !lookup_insert_ne by done. apply He.
Qed.

(** An operation on the document does what it means. *)
Lemma apply_operation_shows d v op :
  doc_shows d v → op_wf op →
  ∃ d', apply_operation_to_document d op = Ok d' ∧ doc_shows d' (apply_view v op) ∧
    doc_changes d' = doc_changes d ∧ doc_generation d' = doc_generation d ∧
    doc_last_change_seq d' = doc_last_change_seq d ∧ doc_store_epoch d' = doc_store_epoch d ∧
    doc_version d' = doc_version d ∧ doc_fill_locks d' = doc_fill_locks d.
Proof.
  intros Hs Hwf. destruct op as [key entry|key|key last|key uses|key|rule|]; cbn [apply_operation_to_document].
  - destruct (entry_round_trip entry Hwf) as (b & -> & Hb). cbn [rbind]. eexists. split; [done|].
    split; [|done]. by apply shows_insert.
  - eexists. split; [done|]. split; [|done]. destruct Hs as [He Ha Hr]. split; [|done|done]. intros k. cbn.
    destruct (decide (k = key)) as [->|Hne]; [rewrite !lookup_delete_eq; constructor|].
    rewrite !lookup_delete_ne by done. apply He.
  - pose proof (ds_entries _ _ Hs key) as Hk. inversion Hk as [json e [Hj Hew] Hd Hv|Hd Hv].
    + rewrite Hj. cbn [rbind].
      assert (Halter : mkView (alter (touched last) key (vw_entries v)) (vw_admissions v) (vw_rules v) =
        mkView (<[key := touched last e]> (vw_entries v)) (vw_admissions v) (vw_rules v)).
      { f_equal. apply map_eq. intros k. destruct (decide (k = key)) as [->|Hne].
        - by rewrite lookup_alter_eq, <-Hv, lookup_insert_eq.
        - by rewrite lookup_alter_ne, lookup_insert_ne. }
      cbn [apply_view]. rewrite Halter. unfold touched. destruct (_ <? last) eqn:Hlt.
      * destruct (entry_round_trip (with_last_access last e)) as (b & -> & Hb); [done|]. cbn [rbind].
        eexists. split; [done|]. split; [|done]. by apply shows_insert.
      * exists d. split; [done|]. split; [|done]. rewrite insert_id by done. destruct Hs. by split.
    + exists d. split; [done|]. split; [|done]. destruct Hs as [He Ha Hr]. split; [|done|done]. intros k. cbn.
      destruct (decide (k = key)) as [->|Hne]; [|rewrite lookup_alter_ne by done; apply He].
      rewrite lookup_alter_eq, <-Hd, <-Hv. constructor.
  - eexists. split; [done|]. split; [|done]. destruct Hs as [He Ha Hr]. split; cbn; [done|by rewrite Ha|done].
  - eexists. split; [done|]. split; [|done]. destruct Hs as [He Ha Hr]. split; cbn; [done|by rewrite Ha|done].
  - destruct (rule_round_trip rule) as (b & -> & Hb). cbn [rbind]. eexists. split; [done|]. split; [|done].
    destruct Hs as [He Ha Hr]. split; [done|done|]. cbn. apply collect_results_app; [done|]. cbn. by rewrite Hb.
  - eexists. split; [done|]. split; [|done]. destruct Hs as [He Ha Hr]. by split.
Qed.

(** A change record is read back as its operation. *)
Lemma change_round_trip seq generation op :
  op_wf op →
  ∃ c, change_record_from_operation seq generation op = Ok c ∧ chg_seq c = seq ∧
       operation_from_change_record c = Ok op.
Proof.
  intros Hwf. destruct op as [key entry|key|key last|key uses|key|rule|]; cbn [change_record_from_operation].
  2-5,7: by eexists.
  - destruct (entry_round_trip entry Hwf) as (b & -> & Hb). cbn [rbind]. eexists. split_and!; [done|done|].
    unfold operation_from_change_record. cbn. by rewrite Hb.
  - destruct (rule_round_trip rule) as (b & -> & Hb). cbn [rbind]. eexists. split_and!; [done|done|].
    unfold operation_from_change_record. cbn. by rewrite Hb.
Qed.

(** ** The change ring *)

(** [changes] are the operations published after the first [n]. *)
Inductive ring_ok : Z → list SharedIndexOperation → list SharedMemoryChangeRecord → Prop :=
| ring_nil n : ring_ok n [] []
| ring_cons n op ops c cs :
    chg_seq c = n + 1 → operation_from_change_record c = Ok op → ring_ok (n + 1) ops cs →
    ring_ok n (op :: ops) (c :: cs).

Lemma ring_length n ops cs : ring_ok n ops cs → length ops = length cs.
Proof. induction 1; cbn; congruence. Qed.

Lemma ring_snoc n ops cs op c :
  ring_ok n ops cs → chg_seq c = n + Z.of_nat (length ops) + 1 → operation_from_change_record c = Ok op →
  ring_ok n (ops ++ [op]) (cs ++ [c]).
Proof.
  induction 1 as [n|n op' ops c' cs Hs Ho Hr IH]; cbn [app length]; intros Hc Hop.
  - constructor; [cbn in Hc; lia|done|constructor].
  - constructor; [done|done|]. apply IH; [lia|done].
Qed.

(** Dropping from the front forgets the oldest. *)
Lemma ring_drop n ops cs j :
  ring_ok n ops cs →
  ∃ old rest, ops = old ++ rest ∧ ring_ok (n + Z.of_nat (length old)) rest (drop j cs).
Proof.
  intros Hr. revert j. induction Hr as [n|n op ops c cs Hs Ho Hr IH]; intros j.
  - exists [], []. rewrite drop_nil. split; [done|constructor].
  - destruct j as [|j].
    + exists [], (op :: ops). split; [done|]. cbn [length]. rewrite Z.add_0_r. by constructor.
    + destruct (IH j) as (old & rest & -> & Hrest). exists (op :: old), rest. split; [done|]. cbn [drop length].
      by replace (n + Z.of_nat (S (length old))) with (n + 1 + Z.of_nat (length old)) by lia.
Qed.

(** What lies after a cursor in the ring. *)
Lemma ring_since n ops cs after :
  ring_ok n ops cs → n ≤ after →
  collect_results operation_from_change_record (List.filter (λ c, after <? chg_seq c) cs) =
    Ok (drop (Z.to_nat (after - n)) ops).
Proof.
  intros Hr. revert after. induction Hr as [n|n op ops c cs Hs Ho Hr IH]; intros after Ha.
  - by rewrite drop_nil.
  - cbn [List.filter]. rewrite Hs. destruct (after <? n + 1) eqn:Hlt.
    + apply Z.ltb_lt in Hlt. replace after with n by lia. rewrite Z.sub_diag. cbn [collect_results drop]. rewrite Ho.
      cbn [rbind]. assert (Hall : List.filter (λ c, n <? chg_seq c) cs = cs).
      { assert (Hge : ∀ m, n < m + 1 → ring_ok m ops cs → List.filter (λ c, n <? chg_seq c) cs = cs).
        { clear. intros m Hm Hr. induction Hr as [|m op1 ops c1 cs Hs Ho Hr IH]; [done|]. cbn [List.filter].
          rewrite Hs, (proj2 (Z.ltb_lt _ _)) by lia. by rewrite IH by lia. }
        apply (Hge (n + 1)); [lia|done]. }
      rewrite Hall. assert (Hc : collect_results operation_from_change_record cs = Ok ops).
      { clear -Hr. induction Hr as [|m op1 ops c1 cs Hs Ho Hr IH]; [done|]. cbn. by rewrite Ho, IH. }
      by rewrite Hc.
    + apply Z.ltb_ge in Hlt. rewrite IH by lia.
      by replace (Z.to_nat (after - n)) with (S (Z.to_nat (after - (n + 1)))) by lia.
Qed.

(** ** Histories *)

(** The document shows what its history makes of the view it started from. *)
Record history_ok (base : View) (d : SharedMemoryIndexDocument) (history : list SharedIndexOperation) : Prop := {
  ho_version : doc_version d = 1;
  ho_shows : doc_shows d (replay base history);
  ho_seq : doc_last_change_seq d = Z.of_nat (length history);
  ho_ring : ∃ old recent, history = old ++ recent ∧ ring_ok (Z.of_nat (length old)) recent (doc_changes d);
}.

(** A reader gets everything after its cursor, or nothing when the ring has
    moved on. *)
Lemma operations_since_spec base d history after :
  history_ok base d history → 0 ≤ after →
  ∃ ops, operations_since d after = Ok ops ∧ (ops = [] ∨ ops = drop (Z.to_nat after) history).
Proof.
  intros [_ _ _ (old & recent & Hh & Hr)] Ha. unfold operations_since.
  destruct (doc_changes d) as [|c cs]; [exists []; split; [done|by left]|].
  pose proof Hr as Hr'. inversion Hr' as [|n op ops c' cs' Hs Ho Hrest]. subst.
  rewrite Hs. destruct (after <? sat_sub _ 1) eqn:Hlt; [exists []; split; [done|by left]|].
  apply Z.ltb_ge in Hlt. assert (Hge : Z.of_nat (length old) ≤ after) by (unfold sat_sub in Hlt; lia).
  rewrite (ring_since _ _ _ _ Hr Hge). eexists. split; [done|]. right.
  rewrite drop_app_ge by lia. f_equal. lia.
Qed.

Lemma apply_loop_seq ops d d' :
  apply_operations_loop ops d = Ok d' → doc_last_change_seq d ≤ u64_max →
  doc_last_change_seq d ≤ doc_last_change_seq d'.
Proof.
  revert d. induction ops as [|op ops IH]; intros d; cbn [apply_operations_loop]; [by intros [= <-]|].
  destruct (apply_operation_to_document d op) as [d1|] eqn:Ha; [|done]. cbn [rbind].
  assert (Hq : doc_last_change_seq d1 = doc_last_change_seq d).
  { destruct op; cbn in Ha; unfold rbind in Ha; repeat case_match; by simplify_eq. }
  destruct (change_record_from_operation _ _ op); [|done]. cbn [rbind]. intros H Hle.
  apply IH in H; cbn in *; unfold sat_add64 in *; lia.
Qed.

Lemma apply_loop_history base d history ops d' :
  history_ok base d history → Forall op_wf ops → apply_operations_loop ops d = Ok d' →
  doc_last_change_seq d' < u64_max →
  history_ok base d' (history ++ ops) ∧ doc_generation d' = doc_generation d ∧
  doc_store_epoch d' = doc_store_epoch d ∧ doc_fill_locks d' = doc_fill_locks d.
Proof.
  revert d history. induction ops as [|op ops IH]; intros d history Hh Hwf; cbn [apply_operations_loop].
  { intros [= <-] _. by rewrite app_nil_r. }
  apply Forall_cons in Hwf as [Hop Hwf]. destruct Hh as [Hver Hsh Hseq (old & recent & Hold & Hring)].
  destruct (apply_operation_shows _ _ _ Hsh Hop) as (d1 & -> & Hs1 & Hc1 & Hg1 & Hq1 & He1 & Hv1 & Hf1). cbn [rbind].
  destruct (change_round_trip (sat_add64 (doc_last_change_seq d1) 1) (doc_generation d1) op Hop)
    as (c & -> & Hcs & Hco). cbn [rbind].
  intros Hloop Hlt.
  pose proof (apply_loop_seq _ _ _ Hloop) as Hm. cbn in Hm. specialize (Hm ltac:(unfold sat_add64; lia)).
  rewrite Hq1, Hseq in *.
  assert (Hsat : sat_add64 (Z.of_nat (length history)) 1 = Z.of_nat (length history) + 1).
  { unfold sat_add64 in *. lia. }
  assert (Hh1 : history_ok base (with_doc_changes (doc_generation d1)
      (sat_add64 (Z.of_nat (length history)) 1) (λ changes, changes ++ [c]) d1) (history ++ [op])).
  { split; cbn.
    + by rewrite Hv1.
    + rewrite replay_app. by eapply doc_shows_ext; [..|exact Hs1].
    + rewrite length_app. cbn. rewrite Hsat. lia.
    + exists old, (recent ++ [op]). rewrite Hold, <-app_assoc. split; [done|]. rewrite Hc1.
      apply ring_snoc; [done| |done]. rewrite Hcs, Hsat, Hold, length_app. lia. }
  destruct (IH _ _ Hh1 Hwf Hloop Hlt) as (Hh' & Hg' & He' & Hf').
  rewrite <-app_assoc in Hh'. cbn in Hg', He', Hf'. split_and!; [done|congruence..].
Qed.

(** A batch extends the history and steps the generation. *)
Lemma apply_batch_history base d history ring ops d' :
  history_ok base d history → Forall op_wf ops → apply_batch ring ops d = Ok d' →
  doc_last_change_seq d' < u64_max → doc_generation d' < u64_max →
  history_ok base d' (history ++ ops) ∧ doc_generation d' = doc_generation d + 1 ∧
  doc_store_epoch d' = doc_store_epoch d ∧ doc_fill_locks d' = doc_fill_locks d.
Proof.
  intros Hh Hwf. unfold apply_batch.
  destruct (apply_operations_loop _ _) as [d1|] eqn:Hl; [|done]. cbn [rbind]. intros [= <-]. cbn. intros Hq Hg.
  assert (Hh0 : history_ok base (with_doc_changes (sat_add64 (doc_generation d) 1) (doc_last_change_seq d) id d) history).
  { destruct Hh as [Hver Hsh Hseq Hring]. split; cbn; [done| |done|done]. by eapply doc_shows_ext; [..|exact Hsh]. }
  destruct (apply_loop_history _ _ _ _ _ Hh0 Hwf Hl Hq) as (Hh1 & Hg1 & He1 & Hf1). cbn in Hg1, He1, Hf1.
  rewrite Hg1 in *. split_and!; [|unfold sat_add64 in *; lia|done|done].
  destruct Hh1 as [Hver Hsh Hseq (old & recent & Hold & Hr)]. split; cbn; [done| |done|].
  - by eapply doc_shows_ext; [..|exact Hsh].
  - unfold trim_change_ring. destruct (ring =? 0).
    + exists (old ++ recent), []. rewrite app_nil_r. split; [done|constructor].
    + destruct (ring <? _); [|by exists old, recent].
      destruct (ring_drop _ _ _ (Z.to_nat (Z.of_nat (length (doc_changes d1)) - ring)) Hr) as (old' & rest & -> & Hrest).
      exists (old ++ old'), rest. rewrite <-app_assoc. split; [done|]. by rewrite length_app, Nat2Z.inj_add.
Qed.

Lemma apply_loop_shows ops d v d' :
  doc_shows d v → Forall op_wf ops → apply_operations_loop ops d = Ok d' →
  doc_shows d' (replay v ops) ∧ doc_version d' = doc_version d.
Proof.
  revert d v. induction ops as [|op ops IH]; intros d v Hs Hwf; cbn [apply_operations_loop]; [by intros [= <-]|].
  apply Forall_cons in Hwf as [Hop Hwf].
  destruct (apply_operation_shows _ _ _ Hs Hop) as (d1 & -> & Hs1 & _ & _ & _ & _ & Hv1 & _). cbn [rbind].
  destruct (change_record_from_operation _ _ op) as [c|]; [|done]. cbn [rbind]. intros Hl.
  match type of Hl with apply_operations_loop _ ?d2 = _ =>
    assert (Hs2 : doc_shows d2 (apply_view v op)) by by eapply doc_shows_ext; [..|exact Hs1] end.
  destruct (IH _ _ Hs2 Hwf Hl) as [Hs' Hv']. split; [done|]. rewrite Hv'. exact Hv1.
Qed.

Lemma apply_batch_shows ring ops d v d' :
  doc_shows d v → Forall op_wf ops → apply_batch ring ops d = Ok d' →
  doc_shows d' (replay v ops) ∧ doc_version d' = doc_version d.
Proof.
  intros Hs Hwf. unfold apply_batch. destruct (apply_operations_loop _ _) as [d1|] eqn:Hl; [|done]. cbn [rbind].
  intros [= <-]. match type of Hl with apply_operations_loop _ ?d2 = _ =>
    assert (Hs2 : doc_shows d2 v) by by eapply doc_shows_ext; [..|exact Hs] end.
  destruct (apply_loop_shows _ _ _ _ Hs2 Hwf Hl) as [Hs' Hv']. split; [by eapply doc_shows_ext; [..|exact Hs']|exact Hv'].
Qed.

(** ** Loading *)

Lemma view_load_entry i key e : view_of (load_entry i key e) = apply_view (view_of i) (UpsertEntry key e).
Proof.
  unfold load_entry. pose proof (view_insert_entry key e i) as Hv.
  destruct (insert_entry key e i) as [existing j]. cbn [snd] in Hv. rewrite <-Hv. by destruct existing.
Qed.

Lemma load_entries_lookup l i :
  NoDup l.*1 → (∀ k json, (k, json) ∈ l → ∃ e, deserialize_entry_record json = Ok e) →
  ∃ i', load_entries l i = Ok i' ∧
    (∀ k json e, (k, json) ∈ l → deserialize_entry_record json = Ok e → idx_entries i' !! k = Some e) ∧
    (∀ k, k ∉ l.*1 → idx_entries i' !! k = idx_entries i !! k).
Proof.
  revert i. induction l as [|[k json] l IH]; intros i Hnd Hall; cbn [load_entries].
  - exists i. split_and!; [done| |done]. by intros k json e Hin%elem_of_nil.
  - change (NoDup (k :: l.*1)) in Hnd. apply NoDup_cons in Hnd as [Hk Hnd]. destruct (Hall k json) as [e He]; [set_solver|]. rewrite He. cbn [rbind].
    destruct (IH (load_entry i k e)) as (i' & Hl & Hin & Hout); [done|intros k' json' Hin'; apply (Hall k' json'); rewrite elem_of_cons; by right|].
    assert (Hent : idx_entries (load_entry i k e) = <[k := e]> (idx_entries i)).
    { exact (f_equal vw_entries (view_load_entry i k e)). }
    exists i'. split_and!; [done| |].
    + intros k' json' e' [Heq|Hin']%elem_of_cons He'; [|by eapply Hin]. simplify_eq.
      rewrite Hout by done. rewrite Hent, lookup_insert_eq. congruence.
    + intros k' Hk'. change (k' ∉ k :: l.*1) in Hk'. apply not_elem_of_cons in Hk' as [Hne Hk'].
      rewrite Hout by done. by rewrite Hent, lookup_insert_ne.
Qed.

(** Loading a document gives an index that shows it. *)
Lemma loaded_shows d v :
  doc_shows d v →
  ∃ l, loaded_index_from_document d = Ok l ∧ view_of (ld_index l) = v ∧
    ld_generation l = doc_generation d ∧ ld_store_epoch l = doc_store_epoch d ∧
    ld_last_change_seq l = doc_last_change_seq d.
Proof.
  intros [He Ha Hr]. unfold loaded_index_from_document.
  assert (Hperm : btree_list (doc_entries d) ≡ₚ map_to_list (doc_entries d)) by apply sort_by_perm.
  destruct (load_entries_lookup (btree_list (doc_entries d)) empty_index) as (i & -> & Hin & Hout).
  - rewrite Hperm. apply NoDup_fst_map_to_list.
  - intros k json Hk. rewrite Hperm in Hk. apply elem_of_map_to_list in Hk. specialize (He k). rewrite Hk in He.
    inversion He as [? e [Hj _]|]. by exists e.
  - rewrite Hr. cbn [rbind]. eexists. split; [done|]. split; [|done].
    destruct v as [ve va vr]. unfold view_of. cbn in *. f_equal; [|done]. apply map_eq. intros k. specialize (He k).
    inversion He as [json e [Hj _] Hd Hv|Hd Hv].
    + apply (Hin _ json); [|done]. rewrite Hperm. by apply elem_of_map_to_list.
    + rewrite Hout; [apply lookup_empty|]. rewrite Hperm. intros ([k' json] & Hk' & Hin')%list_elem_of_fmap.
      cbn in Hk'. subst k'. apply elem_of_map_to_list in Hin'. congruence.
Qed.

Lemma document_size_ok d v : doc_shows d v → ∃ n, document_current_size_bytes d = Ok n.
Proof.
  intros [He _ _]. unfold document_current_size_bytes.
  assert (Hall : ∀ k json, (k, json) ∈ btree_list (doc_entries d) → ∃ e, deserialize_entry_record json = Ok e).
  { intros k json Hk. unfold btree_list in Hk. rewrite (sort_by_perm _ _) in Hk. apply elem_of_map_to_list in Hk.
    specialize (He k). rewrite Hk in He. inversion He as [? e [Hj _]|]. by exists e. }
  revert Hall. generalize 0 (btree_list (doc_entries d)). intros n l. revert n.
  induction l as [|[k json] l IH]; intros n Hall; [by exists n|]. cbn [foldl rbind].
  destruct (Hall k json) as [e ->]; [set_solver|]. cbn [rbind]. apply IH. intros k' json' Hin'. apply (Hall k' json'). rewrite elem_of_cons. by right.
Qed.

(** ** Memory *)

(** The segment of the store is in order and holds the document. *)
Definition holds (st : MemorySharedIndexStore) (s : ShmState) (d : SharedMemoryIndexDocument) : Prop :=
  ∃ segment, attach no_faults (st_segment_config st) (sm_objects s) = Ok segment ∧ object_ok segment ∧
             read_document segment = Ok d.

(** Calls that the kernel does not fail. *)
Definition env_ok (env : Env) : Prop :=
  env_os env = no_faults ∧ (env_lock env = LockFree ∨ env_lock env = LockContended).

Lemma attach_inv c t o :
  attach no_faults c t = Ok o →
  validate_capacity c = Ok tt ∧ shm_name c = Ok (cfg_name c) ∧ t !! cfg_name c = Some o ∧
  obj_size o = cfg_capacity_bytes c ∧ validate_header (obj_header o) c = Ok tt.
Proof.
  unfold attach. destruct (validate_capacity c) as [[]|]; [|done]. cbn [rbind].
  destruct (shm_name c) as [name|] eqn:Hn; [|done]. cbn [rbind fault no_faults os_open os_stat os_map].
  assert (name = cfg_name c) as ->.
  { revert Hn. unfold shm_name. destruct (negb _); [done|]. destruct (contains_char _ _); [done|]. by intros [= <-]. }
  destruct (t !! cfg_name c) as [o'|]; [|done]. cbn [ok_or rbind].
  destruct (negb _) eqn:Hs; [done|]. apply negb_false_iff, Z.eqb_eq in Hs.
  destruct (validate_header _ c) as [[]|] eqn:Hv; [|done]. cbn [rbind]. intros [= <-]. done.
Qed.

Lemma attach_intro c t o :
  validate_capacity c = Ok tt → shm_name c = Ok (cfg_name c) → t !! cfg_name c = Some o →
  obj_size o = cfg_capacity_bytes c → validate_header (obj_header o) c = Ok tt → attach no_faults c t = Ok o.
Proof.
  intros Hv Hn Ho Hs Hh. unfold attach. rewrite Hv, Hn. cbn. rewrite Ho. cbn.
  rewrite Hs, Z.eqb_refl. cbn. by rewrite Hh.
Qed.

(** An operation under the lock works on the document that is held. *)
Lemma with_lock_holds {A} env st s d (f : SharedObject → SharedMemoryIndexDocument → Shm A) :
  env_ok env → holds st s d →
  ∃ segment s', sm_objects s' = sm_objects s ∧
    attach no_faults (st_segment_config st) (sm_objects s) = Ok segment ∧ object_ok segment ∧
    read_document segment = Ok d ∧ with_document_lock env st f s = f segment d s'.
Proof.
  intros [Hos Hlock] (segment & Ha & Hok & Hr). unfold with_document_lock, shm_bind, lock.
  destruct Hlock as [-> | ->]; unfold open_or_create_segment; cbn [sm_objects]; rewrite Hos, Ha; cbn;
    unfold shm_lift; rewrite Hr; exists segment; eexists; (split_and!; [..|reflexivity]; done).
Qed.

(** Writing a document that shows something either puts it in place or, when it
    cannot be written or is too long, leaves the memory as it was. *)
Lemma write_back_holds st s segment d v :
  attach no_faults (st_segment_config st) (sm_objects s) = Ok segment → object_ok segment →
  doc_version d = 1 → doc_shows d v →
  ∃ r s', write_back st segment d s = (r, s') ∧
    match r with Ok _ => holds st s' d | Err e => (e = InvalidData ∨ e = OutOfMemory) ∧ sm_objects s' = sm_objects s end.
Proof.
  intros Ha Hok Hver Hsh. destruct (attach_inv _ _ _ Ha) as (Hcap & Hname & Hl & Hsize & Hhdr).
  unfold write_back, write_document. destruct (document_to_vec d) as [b|] eqn:Hb.
  2:{ do 2 eexists. split; [done|]. by split; [left|]. }
  destruct (document_json _ _ Hb) as [Hback Hne].
  destruct (sat_sub (payload_capacity segment) PAYLOAD_LEN_BYTES <? len b) eqn:Hfit.
  { do 2 eexists. split; [done|]. by split; [right|]. }
  apply Z.ltb_ge in Hfit.
  assert (Hpc : PAYLOAD_LEN_BYTES + len b ≤ payload_capacity segment ∧ payload_capacity segment ≤ 2 ^ 63 - 1 ∧ 0 < len b).
  { clear -Hok Hfit Hne. destruct Hok as [Hs _]. unfold PAYLOAD_LEN_BYTES, payload_capacity, payload_capacity_of, len, header_size in *. unfold sat_sub in *.
    assert (0 < Z.of_nat (length b)) by (destruct b; [done|]; cbn [length]; lia). lia. }
  destruct Hpc as (Hpc & Hmax & Hpos). unfold PAYLOAD_LEN_BYTES in *.
  destruct (framed_write b segment Hok Hpos Hpc) as (s1 & s2 & -> & -> & Hok2 & Hz2 & Hh2 & Hlen & Hval & Hbody).
  destruct (document_size_ok d v Hsh) as [n ->].
  do 2 eexists. split; [done|]. unfold holds. cbn [sm_objects set_object].
  set (o := set_header _ s2). exists o. split_and!.
  - apply attach_intro; [done|done|apply lookup_insert_eq| |].
    + unfold o. cbn. congruence.
    + rewrite <-Hhdr. unfold o, validate_header. cbn. by rewrite Hh2.
  - exact Hok2.
  - unfold read_document.
    assert (Hpc2 : payload_capacity o = payload_capacity segment) by (unfold o, payload_capacity; cbn; congruence).
    rewrite Hpc2. unfold PAYLOAD_LEN_BYTES. rewrite (proj2 (Z.ltb_ge _ _)) by lia.
    change (read_payload 0 8 o) with (read_payload 0 8 s2). rewrite Hlen. cbn [rbind]. rewrite Hval.
    rewrite (proj2 (Z.eqb_neq _ _)) by lia. rewrite (proj2 (Z.ltb_ge _ _)) by (unfold sat_sub; lia).
    change (read_payload 8 (len b) o) with (read_payload 8 (len b) s2).
    rewrite Hbody. cbn [rbind]. rewrite Hback. cbn [invalid_data ok_or rbind]. by rewrite Hver.
Qed.
End Store.
