(* ===== verification/RateLimit.v ===== *)
(** * Rate limiting

    Models [crates/rginx-http/src/rate_limit]: the token buckets of one process
    ([local.rs]), the ones that the processes of one configuration share through
    a document in shared memory ([shared/*.rs]) and what is asked of a request
    ([mod.rs]).  Tokens are [f64] (MachineFloat.v).

    The hasher that picks a shard and the JSON of the shared document are
    parameters; a local instant is its nanoseconds. *)

From Stdlib Require Import Floats.SpecFloat.
From S2P Require Import Prelude RustStr MachineFloat External ServerName Upstream Tls Template CacheConfig ProxyHeader Route Body CacheTypes CacheRequest CachePolicy CacheStore CacheIndex CacheMaintenance SharedMemory SharedIndex SharedIndexStore.

#[export] Instance RouteRateLimit_eq_dec : EqDecision RouteRateLimit.
Proof. solve_decision. Defined.

Definition one : spec_float := float_of_Z f64 1.

(** [burst + 1] of a [u32], in a build without overflow checks. *)
(** Source: crates/rginx-http/src/rate_limit/local.rs:153-155 (bucket_capacity) *)
Definition bucket_capacity (policy : RouteRateLimit) : spec_float := float_of_Z f64 (wrap32 (burst policy + 1)).

(** ** Buckets of one process *)

(** Source: crates/rginx-http/src/rate_limit/local.rs:42-46 (TokenBucket) *)
Record TokenBucket : Type := mkBucket {
  tb_policy : RouteRateLimit;
  tb_tokens : spec_float;
  tb_last_refill : Z;
}.

(** Source: crates/rginx-http/src/rate_limit/local.rs:113-115 (TokenBucket::new) *)
Definition bucket_new (policy : RouteRateLimit) (now : Z) : TokenBucket := mkBucket policy (bucket_capacity policy) now.

(** [now.duration_since(earlier).as_secs_f64()]: zero if [earlier] is later. *)
Definition secs_since (now earlier : Z) : spec_float :=
  let elapsed := Z.max (now - earlier) 0 in
  float_add f64 (float_of_Z f64 (elapsed / 1000000000))
    (float_div f64 (float_of_Z f64 (elapsed mod 1000000000)) (float_of_Z f64 1000000000)).

(** Source: crates/rginx-http/src/rate_limit/local.rs:144-150 (TokenBucket::refill) *)
Definition refill (now : Z) (b : TokenBucket) : TokenBucket :=
  let replenished :=
    float_add f64 (tb_tokens b)
      (float_mul f64 (secs_since now (tb_last_refill b)) (float_of_Z f64 (requests_per_sec (tb_policy b)))) in
  mkBucket (tb_policy b) (float_min replenished (bucket_capacity (tb_policy b))) now.

(** Source: crates/rginx-http/src/rate_limit/local.rs:134-142 (TokenBucket::reconfigure) *)
Definition reconfigure (policy : RouteRateLimit) (now : Z) (b : TokenBucket) : TokenBucket :=
  if bool_decide (tb_policy b = policy) then b
  else
    let b := refill now b in
    mkBucket policy (float_min (tb_tokens b) (bucket_capacity policy)) (tb_last_refill b).

(** Source: crates/rginx-http/src/rate_limit/local.rs:117-127 (TokenBucket::try_acquire) *)
Definition try_acquire (policy : RouteRateLimit) (now : Z) (b : TokenBucket) : bool * TokenBucket :=
  let b := refill now (reconfigure policy now b) in
  if float_lt (tb_tokens b) one then (false, b)
  else (true, mkBucket (tb_policy b) (float_sub f64 (tb_tokens b) one) (tb_last_refill b)).

(** Source: crates/rginx-http/src/rate_limit/local.rs:129-132 (TokenBucket::is_evictable) *)
Definition is_evictable (now : Z) (b : TokenBucket) : bool * TokenBucket :=
  let b := refill now b in
  (float_ge (tb_tokens b) (bucket_capacity (tb_policy b)), b).

(** Source: crates/rginx-http/src/rate_limit/local.rs:36-39 (BucketKey) *)
Record BucketKey : Type := mkBucketKey { bk_route : string; bk_client_ip : IpAddr }.
#[export] Instance BucketKey_eq_dec : EqDecision BucketKey.
Proof. solve_decision. Defined.
#[export] Instance IpAddr_countable : Countable IpAddr.
Proof.
  refine (inj_countable' (λ a, match a with V4 o => inl o | V6 o => inr o end)
            (λ s, match s with inl o => V4 o | inr o => V6 o end) _). by intros [].
Defined.
#[export] Instance BucketKey_countable : Countable BucketKey.
Proof. refine (inj_countable' (λ k, (bk_route k, bk_client_ip k)) (λ p, mkBucketKey p.1 p.2) _). by intros []. Defined.

(** Source: crates/rginx-http/src/rate_limit/local.rs:30-33 (ShardState) *)
Record ShardState : Type := mkShard {
  sh_buckets : gmap BucketKey TokenBucket;
  sh_next_cleanup_at : Z;
}.

(** Source: crates/rginx-http/src/rate_limit/local.rs:16-20 (LocalRateLimitersInner) *)
Record LocalRateLimiters : Type := mkLocal {
  lr_shard_mask : Z;
  lr_cleanup_interval : Z;
  lr_shards : list ShardState;
}.

(** [shard_count.max(1).next_power_of_two()]. *)
Definition next_power_of_two (n : Z) : Z := 2 ^ Z.log2_up n.

Definition MIN_SHARD_COUNT : Z := 4.
Definition MAX_SHARD_COUNT : Z := 64.
Definition SHARD_CLEANUP_INTERVAL : Z := 30000000000.

(** Source: crates/rginx-http/src/rate_limit/local.rs:78-90 (LocalRateLimiters::with_config) *)
Definition with_config (shard_count cleanup_interval now : Z) : LocalRateLimiters :=
  let shard_count := next_power_of_two (Z.max shard_count 1) in
  mkLocal (shard_count - 1) cleanup_interval (replicate (Z.to_nat shard_count) (mkShard ∅ (now + cleanup_interval))).

(** Source: crates/rginx-http/src/rate_limit/local.rs:166-171 (default_shard_count) *)
Definition default_shard_count (available_parallelism : option Z) : Z :=
  let count := match available_parallelism with Some n => next_power_of_two n | None => MIN_SHARD_COUNT end in
  Z.max MIN_SHARD_COUNT (Z.min count MAX_SHARD_COUNT).

(** [retain] refills every bucket it looks at. *)
(** Source: crates/rginx-http/src/rate_limit/local.rs:157-164 (maybe_cleanup_buckets) *)
Definition maybe_cleanup_buckets (now cleanup_interval : Z) (s : ShardState) : ShardState :=
  if now <? sh_next_cleanup_at s then s
  else
    mkShard (omap (λ b, let '(evictable, b) := is_evictable now b in if evictable then None else Some b) (sh_buckets s))
      (now + cleanup_interval).

Section Local.
(** The low bits of the hash of a key. *)
Context (hash : BucketKey → Z).

(** Source: crates/rginx-http/src/rate_limit/local.rs:98-103 (LocalRateLimitersInner::shard_index) *)
Definition shard_index (l : LocalRateLimiters) (key : BucketKey) : nat := Z.to_nat (Z.land (hash key) (lr_shard_mask l)).

(** The checks of one key and its shard. *)
Definition check_shard (key : BucketKey) (policy : RouteRateLimit) (now cleanup_interval : Z) (s : ShardState)
    : bool * ShardState :=
  let s := maybe_cleanup_buckets now cleanup_interval s in
  let bucket := default (bucket_new policy now) (sh_buckets s !! key) in
  let '(allowed, bucket) := try_acquire policy now bucket in
  (allowed, mkShard (<[key := bucket]> (sh_buckets s)) (sh_next_cleanup_at s)).

(** [None]: an index past the shards. *)
(** Source: crates/rginx-http/src/rate_limit/local.rs:59-76 (LocalRateLimiters::check_at) *)
Definition local_check_at (route : string) (client_ip : IpAddr) (policy : RouteRateLimit) (now : Z)
    (l : LocalRateLimiters) : option (bool * LocalRateLimiters) :=
  let key := mkBucketKey route client_ip in
  shard ← lr_shards l !! shard_index l key;
  let '(allowed, shard) := check_shard key policy now (lr_cleanup_interval l) shard in
  Some (allowed, mkLocal (lr_shard_mask l) (lr_cleanup_interval l) (<[shard_index l key := shard]> (lr_shards l))).
End Local.

(** ** Buckets shared by processes *)

(** Source: crates/rginx-http/src/rate_limit/shared/bucket.rs:7-13 (SharedTokenBucket) *)
Record SharedTokenBucket : Type := mkSharedBucket {
  sb_requests_per_sec : Z;
  sb_burst : Z;
  sb_tokens : spec_float;
  sb_last_refill_unix_ms : Z;
  sb_last_seen_unix_ms : Z;
}.

Definition sb_policy (b : SharedTokenBucket) : RouteRateLimit := mkRouteRateLimit (sb_requests_per_sec b) (sb_burst b).

(** Source: crates/rginx-http/src/rate_limit/shared/bucket.rs:16-24 (SharedTokenBucket::new) *)
Definition shared_bucket_new (policy : RouteRateLimit) (now : Z) : SharedTokenBucket :=
  mkSharedBucket (requests_per_sec policy) (burst policy) (bucket_capacity policy) now now.

(** The clock is the wall clock: a step back gives nothing, and what follows it
    is counted again. *)
(** Source: crates/rginx-http/src/rate_limit/shared/bucket.rs:55-62 (SharedTokenBucket::refill) *)
Definition shared_refill (now : Z) (b : SharedTokenBucket) : SharedTokenBucket :=
  let elapsed_ms := sat_sub now (sb_last_refill_unix_ms b) in
  let replenished :=
    float_add f64 (sb_tokens b)
      (float_mul f64 (float_div f64 (float_of_Z f64 elapsed_ms) (float_of_Z f64 1000))
         (float_of_Z f64 (sb_requests_per_sec b))) in
  mkSharedBucket (sb_requests_per_sec b) (sb_burst b) (float_min replenished (bucket_capacity (sb_policy b))) now
    (sb_last_seen_unix_ms b).

(** Source: crates/rginx-http/src/rate_limit/shared/bucket.rs:44-53 (SharedTokenBucket::reconfigure) *)
Definition shared_reconfigure (policy : RouteRateLimit) (now : Z) (b : SharedTokenBucket) : SharedTokenBucket :=
  if bool_decide (sb_policy b = policy) then b
  else
    let b := shared_refill now b in
    mkSharedBucket (requests_per_sec policy) (burst policy) (float_min (sb_tokens b) (bucket_capacity policy))
      (sb_last_refill_unix_ms b) (sb_last_seen_unix_ms b).

(** Source: crates/rginx-http/src/rate_limit/shared/bucket.rs:26-37 (SharedTokenBucket::try_acquire) *)
Definition shared_try_acquire (policy : RouteRateLimit) (now : Z) (b : SharedTokenBucket) : bool * SharedTokenBucket :=
  let b := shared_refill now (shared_reconfigure policy now b) in
  let spend (tokens : spec_float) :=
    mkSharedBucket (sb_requests_per_sec b) (sb_burst b) tokens (sb_last_refill_unix_ms b) now in
  if float_lt (sb_tokens b) one then (false, spend (sb_tokens b))
  else (true, spend (float_sub f64 (sb_tokens b) one)).

(** Source: crates/rginx-http/src/rate_limit/shared/bucket.rs:39-42 (SharedTokenBucket::is_evictable) *)
Definition shared_is_evictable (now : Z) (b : SharedTokenBucket) : bool * SharedTokenBucket :=
  let b := shared_refill now b in
  (float_ge (sb_tokens b) (bucket_capacity (sb_policy b)), b).

Definition CLEANUP_INTERVAL_MS : Z := 30000.
Definition DOCUMENT_LEN_BYTES : Z := 8.
Definition DOCUMENT_VERSION : Z := 1.

(** Source: crates/rginx-http/src/rate_limit/shared/document.rs:17-23 (SharedRateLimitDocument) *)
Record SharedRateLimitDocument : Type := mkRateDocument {
  rd_version : Z;
  rd_next_cleanup_unix_ms : Z;
  rd_buckets : gmap string SharedTokenBucket;
}.

(** Source: crates/rginx-http/src/rate_limit/shared/document.rs:26-28 (SharedRateLimitDocument::default) *)
Definition default_document : SharedRateLimitDocument := mkRateDocument DOCUMENT_VERSION 0 ∅.

(** Source: crates/rginx-http/src/rate_limit/shared/bucket.rs:65-75 (maybe_cleanup_document) *)
Definition maybe_cleanup_document (now : Z) (d : SharedRateLimitDocument) : SharedRateLimitDocument :=
  if now <? rd_next_cleanup_unix_ms d then d
  else
    mkRateDocument (rd_version d) (sat_add64 now CLEANUP_INTERVAL_MS)
      (omap (λ b, let '(evictable, b) := shared_is_evictable now b in if evictable then None else Some b) (rd_buckets d)).

(** Source: crates/rginx-http/src/rate_limit/shared/document.rs:105-107 (bucket_key) *)
Definition bucket_key (route : string) (client_ip : IpAddr) : string :=
  route +:+ String (ascii_of_N 0) (ip_to_string client_ip).

(** What a check does to the document. *)
Definition check_document (route : string) (client_ip : IpAddr) (policy : RouteRateLimit) (now : Z)
    (d : SharedRateLimitDocument) : bool * SharedRateLimitDocument :=
  let d := maybe_cleanup_document now d in
  let key := bucket_key route client_ip in
  let bucket := default (shared_bucket_new policy now) (rd_buckets d !! key) in
  let '(allowed, bucket) := shared_try_acquire policy now bucket in
  (allowed, mkRateDocument (rd_version d) (rd_next_cleanup_unix_ms d) (<[key := bucket]> (rd_buckets d))).

(** [serde_json] on the document. *)
Class RateDocumentJson : Type := {
  rate_document_to_vec : SharedRateLimitDocument → bytes;
  rate_document_from_slice : bytes → option SharedRateLimitDocument;
}.

(** The numbers of a Rust value; and JSON has no infinities and no NaN. *)
Definition is_finite (f : spec_float) : bool :=
  match f with S754_zero _ | S754_finite _ _ _ => valid_binary 53 1024 f | S754_infinity _ | S754_nan => false end.
Definition finite_bucket (b : SharedTokenBucket) : Prop :=
  (is_u32 (sb_requests_per_sec b) ∧ is_u32 (sb_burst b) ∧ is_u64 (sb_last_refill_unix_ms b) ∧ is_u64 (sb_last_seen_unix_ms b)) ∧
  is_finite (sb_tokens b) = true.
Definition finite_document (d : SharedRateLimitDocument) : Prop :=
  (is_u32 (rd_version d) ∧ is_u64 (rd_next_cleanup_unix_ms d)) ∧ map_Forall (λ _ b, finite_bucket b) (rd_buckets d).
#[export] Instance finite_bucket_dec b : Decision (finite_bucket b).
Proof. unfold finite_bucket, is_u32, is_u64. apply _. Defined.
#[export] Instance finite_document_dec d : Decision (finite_document d).
Proof. apply and_dec; [unfold is_u32, is_u64; apply _|]. apply map_Forall_dec. intros key b. apply _. Defined.

(** A bucket that has been written and read back: its integers are the same,
    while its number of tokens need not be, in its last digits. *)
Record bucket_reread (b b' : SharedTokenBucket) : Prop := {
  br_requests : sb_requests_per_sec b' = sb_requests_per_sec b;
  br_burst : sb_burst b' = sb_burst b;
  br_refill : sb_last_refill_unix_ms b' = sb_last_refill_unix_ms b;
  br_seen : sb_last_seen_unix_ms b' = sb_last_seen_unix_ms b;
  br_tokens : is_finite (sb_tokens b') = true;
}.
Record document_reread (d d' : SharedRateLimitDocument) : Prop := {
  dr_document_version : rd_version d' = rd_version d;
  dr_cleanup : rd_next_cleanup_unix_ms d' = rd_next_cleanup_unix_ms d;
  dr_buckets key : option_Forall2 bucket_reread (rd_buckets d !! key) (rd_buckets d' !! key);
}.

(** What is written is a JSON object, which is read back if its numbers are
    those of the Rust types and finite. *)
Class RateDocumentLaws (J : RateDocumentJson) : Prop := {
  rate_document_read_back d :
    finite_document d → ∃ d', rate_document_from_slice (rate_document_to_vec d) = Some d' ∧ document_reread d d';
  rate_document_nonempty d : rate_document_to_vec d ≠ [];
}.

Section Shared.
Context {J : RateDocumentJson}.

(** Source: crates/rginx-http/src/rate_limit/shared/document.rs:31-71 (read_document) *)
Definition read_rate_document (segment : SharedObject) : io_result SharedRateLimitDocument :=
  if payload_capacity segment <? DOCUMENT_LEN_BYTES then Err InvalidData
  else
    let? len_bytes := read_payload 0 DOCUMENT_LEN_BYTES segment in
    let len := le_value len_bytes in
    if len =? 0 then Ok default_document
    else if sat_sub (payload_capacity segment) DOCUMENT_LEN_BYTES <? len then Err InvalidData
    else
      let? b := read_payload DOCUMENT_LEN_BYTES len segment in
      let? document := ok_or (rate_document_from_slice b) InvalidData in
      if negb (rd_version document =? DOCUMENT_VERSION) then Err InvalidData else Ok document.

(** Source: crates/rginx-http/src/rate_limit/shared/document.rs:73-95 (write_document) *)
Definition write_rate_document (name : string) (segment : SharedObject) (document : SharedRateLimitDocument)
    (t : ShmTable) : io_result () * ShmTable :=
  let b := rate_document_to_vec document in
  if sat_sub (payload_capacity segment) DOCUMENT_LEN_BYTES <? len b then (Err OutOfMemory, t)
  else
    match write_payload 0 (le_bytes 8 (len b)) segment with
    | Err e => (Err e, t)
    | Ok segment =>
        let t := <[name := segment]> t in
        match write_payload DOCUMENT_LEN_BYTES b segment with
        | Err e => (Err e, t)
        | Ok segment => (Ok tt, <[name := segment]> t)
        end
    end.

(** What the kernel answers to one check: to the lock, to [attach] and to
    [create_or_reset] and [unlink]. *)
Record RateEnv : Type := mkRateEnv {
  re_lock : option ErrorKind;
  re_attach : OsFaults;
  re_create : OsFaults;
  re_now_nanos : Z;
}.

Definition create_default (env : RateEnv) (c : SharedMemorySegmentConfig) (name : string) (t : ShmTable)
    : io_result SharedObject * ShmTable :=
  match create_or_reset (re_create env) (re_now_nanos env) c t with
  | (Err e, t) => (Err e, t)
  | (Ok segment, t) =>
      match write_rate_document name segment default_document t with
      | (Err e, t) => (Err e, t)
      | (Ok _, t) => (ok_or (t !! name) NotFound, t)
      end
  end.

(** A failure to unlink is not looked at. *)
(** Source: crates/rginx-http/src/rate_limit/shared/mod.rs:90-106 (SharedRateLimitStore::open_or_create_segment) *)
Definition open_or_create_segment (env : RateEnv) (c : SharedMemorySegmentConfig) (name : string) (t : ShmTable)
    : io_result SharedObject * ShmTable :=
  match attach (re_attach env) c t with
  | Ok segment => (Ok segment, t)
  | Err NotFound => create_default env c name t
  | Err InvalidData => create_default env c name (unlink (re_create env) c t).2
  | Err e => (Err e, t)
  end.

(** Under the file lock; the number of contended locks is left out. *)
(** Source: crates/rginx-http/src/rate_limit/shared/mod.rs:58-78 (SharedRateLimitStore::check_at) *)
Definition shared_check_at (env : RateEnv) (c : SharedMemorySegmentConfig) (route : string) (client_ip : IpAddr)
    (policy : RouteRateLimit) (now : Z) (t : ShmTable) : io_result bool * ShmTable :=
  match re_lock env, shm_name c with
  | Some e, _ => (Err e, t)
  | None, Err e => (Err e, t)
  | None, Ok name =>
      match open_or_create_segment env c name t with
      | (Err e, t) => (Err e, t)
      | (Ok segment, t) =>
          match read_rate_document segment with
          | Err e => (Err e, t)
          | Ok document =>
              let '(allowed, document) := check_document route client_ip policy now document in
              match write_rate_document name segment document t with
              | (Err e, t) => (Err e, t)
              | (Ok _, t) => (Ok allowed, t)
              end
          end
      end
  end.

(** What guards a route: the shared store, if the process has one; a failure of
    it denies the request. *)
Inductive RateLimiters : Type :=
| LocalOnly (l : LocalRateLimiters)
| WithShared (c : SharedMemorySegmentConfig) (t : ShmTable).

(** The instants of a check: the process's and the wall clock's. *)
Record CheckAt : Type := mkCheckAt { ck_now : Z; ck_now_unix_ms : Z; ck_env : RateEnv }.

(** [None]: a panic of the local limiters. *)
(** Source: crates/rginx-http/src/rate_limit/mod.rs:54-73 (RateLimiters::check) *)
Definition rate_limit_check (hash : BucketKey → Z) (at_ : CheckAt) (route : string) (client_ip : IpAddr)
    (policy : option RouteRateLimit) (limiters : RateLimiters) : option (bool * RateLimiters) :=
  match policy with
  | None => Some (true, limiters)
  | Some policy =>
      match limiters with
      | WithShared c t =>
          let '(answer, t) := shared_check_at (ck_env at_) c route client_ip policy (ck_now_unix_ms at_) t in
          Some (match answer with Ok allowed => allowed | Err _ => false end, WithShared c t)
      | LocalOnly l =>
          '(allowed, l) ← local_check_at hash route client_ip policy (ck_now at_) l;
          Some (allowed, LocalOnly l)
      end
  end.
End Shared.


(** ** The burst *)

Lemma float_min_capacity a z :
  0 ≤ z < 2 ^ 53 → float_lt (float_of_Z f64 z) (float_min a (float_of_Z f64 z)) = false.
Proof.
  intros Hz. pose proof (float_lt_exact z z Hz Hz) as Hrefl. rewrite Z.ltb_irrefl in Hrefl.
  unfold float_min. destruct a as [s|s| |s m e] eqn:Ha; [| |done|]; rewrite <-Ha in *;
    (destruct (float_of_Z f64 z) as [s'|s'| |s' m' e'] eqn:Hf; [| |by destruct a|]); rewrite <-Hf in *;
    by destruct (float_lt (float_of_Z f64 z) a) eqn:?.
Qed.

(** No bucket holds more than its capacity after it is refilled. *)
Lemma refill_capacity now b :
  0 ≤ burst (tb_policy b) < 2 ^ 32 → float_lt (bucket_capacity (tb_policy b)) (tb_tokens (refill now b)) = false.
Proof. intros Hb. apply float_min_capacity. unfold wrap32. pose proof (Z.mod_pos_bound (burst (tb_policy b) + 1) (2 ^ 32) ltac:(lia)). lia. Qed.

Record rate_ok (policy : RouteRateLimit) : Prop := {
  rate_burst : 0 ≤ burst policy < 2 ^ 32 - 1;
  rate_per_sec : 0 ≤ requests_per_sec policy < 2 ^ 32;
}.

Lemma capacity_exact policy : rate_ok policy → bucket_capacity policy = float_of_Z f64 (burst policy + 1).
Proof. intros [Hb _]. unfold bucket_capacity, wrap32. f_equal. apply Z.mod_small. lia. Qed.

Lemma float_add_zero z : 0 ≤ z < 2 ^ 53 → float_add f64 (float_of_Z f64 z) (S754_zero false) = float_of_Z f64 z.
Proof. intros Hz. rewrite float_of_Z_exact by done. by destruct z. Qed.

Lemma no_time_no_tokens now rate : 0 ≤ rate < 2 ^ 53 → float_mul f64 (secs_since now now) (float_of_Z f64 rate) = S754_zero false.
Proof.
  intros Hr. unfold secs_since. replace (Z.max (now - now) 0) with 0 by lia.
  rewrite (float_of_Z_exact rate Hr). by destruct rate.
Qed.

Definition holding (policy : RouteRateLimit) (now z : Z) : TokenBucket := mkBucket policy (float_of_Z f64 z) now.

Lemma refill_at_once policy now z :
  rate_ok policy → 0 ≤ z ≤ burst policy + 1 → refill now (holding policy now z) = holding policy now z.
Proof.
  intros Hok Hz. pose proof (rate_burst _ Hok). pose proof (rate_per_sec _ Hok). unfold refill, holding. cbn [tb_policy tb_tokens tb_last_refill].
  rewrite no_time_no_tokens, float_add_zero, capacity_exact, float_min_exact by (done || lia). by replace (Z.min z (burst policy + 1)) with z by lia.
Qed.

Lemma try_acquire_at_once policy now z :
  rate_ok policy → 0 ≤ z ≤ burst policy + 1 →
  try_acquire policy now (holding policy now z) = (0 <? z, holding policy now (Z.max (z - 1) 0)).
Proof.
  intros Hok Hz. pose proof (rate_burst _ Hok). unfold try_acquire, reconfigure. rewrite bool_decide_eq_true_2 by done.
  rewrite refill_at_once by done. unfold holding, one. cbn [tb_tokens tb_policy tb_last_refill].
  rewrite float_lt_exact by lia. destruct (Z.ltb_spec z 1), (Z.ltb_spec 0 z); try lia.
  - do 3 f_equal. lia.
  - rewrite float_sub_one by lia. do 3 f_equal. lia.
Qed.

Lemma evictable_at_once policy now z :
  rate_ok policy → 0 ≤ z ≤ burst policy + 1 →
  is_evictable now (holding policy now z) = (z =? burst policy + 1, holding policy now z).
Proof.
  intros Hok Hz. pose proof (rate_burst _ Hok). unfold is_evictable. rewrite refill_at_once by done. f_equal.
  unfold holding. cbn [tb_tokens tb_policy]. rewrite capacity_exact by done. unfold float_ge. rewrite float_le_exact by lia.
  destruct (Z.leb_spec (burst policy + 1) z), (Z.eqb_spec z (burst policy + 1)); lia || done.
Qed.

Section Burst.
Context (hash : BucketKey → Z) (route : string) (client_ip : IpAddr) (policy : RouteRateLimit) (now : Z).
Notation key := (mkBucketKey route client_ip).

(** The bucket of the key, or the one that a check would make. *)
Definition bucket_of (s : ShardState) : TokenBucket := default (bucket_new policy now) (sh_buckets s !! key).

Lemma cleanup_at_once interval s z :
  rate_ok policy → 0 ≤ z ≤ burst policy + 1 → bucket_of s = holding policy now z →
  bucket_of (maybe_cleanup_buckets now interval s) = holding policy now z.
Proof.
  intros Hok Hz. unfold bucket_of, maybe_cleanup_buckets. destruct (now <? sh_next_cleanup_at s); [done|].
  cbn [sh_buckets]. rewrite lookup_omap. destruct (sh_buckets s !! key) as [b|]; [|done].
  cbn [default from_option id mbind option_bind]. unfold id. intros ->. rewrite evictable_at_once by done. destruct (Z.eqb_spec z (burst policy + 1)) as [->|]; [|done].
  cbn. unfold bucket_new, holding. by rewrite capacity_exact.
Qed.

Lemma check_shard_at_once interval s z :
  rate_ok policy → 0 ≤ z ≤ burst policy + 1 → bucket_of s = holding policy now z →
  ∃ s', check_shard key policy now interval s = (0 <? z, s') ∧ bucket_of s' = holding policy now (Z.max (z - 1) 0).
Proof.
  intros Hok Hz Hs. pose proof (cleanup_at_once interval s z Hok Hz Hs) as Hc. unfold check_shard, bucket_of in *.
  rewrite Hc, try_acquire_at_once by done. eexists. split; [done|]. cbn [sh_buckets]. by rewrite lookup_insert_eq.
Qed.

Record limiters_ok (l : LocalRateLimiters) : Prop := {
  mask_low : ∃ k, 0 ≤ k ∧ lr_shard_mask l = 2 ^ k - 1;
  mask_shards : Z.of_nat (length (lr_shards l)) = lr_shard_mask l + 1;
}.

Lemma with_config_ok shard_count interval at_ : 0 ≤ shard_count → limiters_ok (with_config shard_count interval at_).
Proof.
  intros Hc. pose proof (Z.log2_up_nonneg (Z.max shard_count 1)) as Hl.
  pose proof (Z.pow_pos_nonneg 2 (Z.log2_up (Z.max shard_count 1)) ltac:(lia) Hl). split; cbn.
  - by eexists.
  - rewrite length_replicate. unfold next_power_of_two. lia.
Qed.

(** The index of a key is one of a shard. *)
Lemma shard_of_key l : limiters_ok l → ∃ s, lr_shards l !! shard_index hash l key = Some s.
Proof.
  intros [(k & Hk & Hm) Hs]. apply lookup_lt_is_Some. unfold shard_index. rewrite Hm in *.
  replace (2 ^ k - 1) with (Z.ones k) in * by (rewrite Z.ones_equiv; lia).
  rewrite Z.land_ones by done. pose proof (Z.mod_pos_bound (hash key) (2 ^ k) ltac:(by apply Z.pow_pos_nonneg)).
  rewrite Z.ones_equiv in Hs. lia.
Qed.

Definition tokens_left (l : LocalRateLimiters) (z : Z) : Prop :=
  limiters_ok l ∧ ∃ s, lr_shards l !! shard_index hash l key = Some s ∧ bucket_of s = holding policy now z.

Lemma local_check_at_once l z :
  rate_ok policy → 0 ≤ z ≤ burst policy + 1 → tokens_left l z →
  ∃ l', local_check_at hash route client_ip policy now l = Some (0 <? z, l') ∧ tokens_left l' (Z.max (z - 1) 0).
Proof.
  intros Hok Hz (Hl & s & Hs & Hb). unfold local_check_at. rewrite Hs. cbn.
  destruct (check_shard_at_once (lr_cleanup_interval l) s z Hok Hz Hb) as (s' & -> & Hs').
  eexists. split; [done|]. split.
  - destruct Hl as [Hk Hn]. split; cbn; [done|]. by rewrite length_insert.
  - exists s'. split; [|done]. cbn. apply list_lookup_insert_eq. by eapply lookup_lt_Some.
Qed.

(** [n] checks of the key, one after the other. *)
Fixpoint local_checks (n : nat) (l : LocalRateLimiters) : option (list bool * LocalRateLimiters) :=
  match n with
  | O => Some ([], l)
  | S n =>
      '(allowed, l) ← local_check_at hash route client_ip policy now l;
      '(answers, l) ← local_checks n l;
      Some (allowed :: answers, l)
  end.

Lemma local_checks_at_once n : ∀ l z,
  rate_ok policy → 0 ≤ z ≤ burst policy + 1 → tokens_left l z →
  ∃ l', local_checks n l = Some (map (λ i, Z.of_nat i <? z) (seq 0 n), l').
Proof.
  induction n as [|n IH]; intros l z Hok Hz Hl; [by eexists|]. cbn [local_checks].
  destruct (local_check_at_once l z Hok Hz Hl) as (l1 & -> & Hl1). cbn.
  destruct (IH l1 (Z.max (z - 1) 0) Hok ltac:(lia) Hl1) as (l2 & ->). exists l2. cbn [mbind option_bind]. do 3 f_equal.
  rewrite <-seq_shift, map_map. apply map_ext. intros i. destruct (Z.ltb_spec (Z.of_nat i) (Z.max (z - 1) 0)), (Z.ltb_spec (Z.of_nat (S i)) z); lia || done.
Qed.

(** C32.  A client that no bucket is kept for has exactly its burst and one more
    request let through at one instant, whatever the shards, the hash and the
    cleanups: of [n] checks in a row, the first [burst + 1] are granted and all
    others are denied.  A burst of [u32::MAX] is left out, where [burst + 1]
    wraps to zero and every request is denied. *)
Theorem burst_is_granted_at_once l n :
  rate_ok policy → limiters_ok l →
  (∀ s, lr_shards l !! shard_index hash l key = Some s → sh_buckets s !! key = None) →
  ∃ l', local_checks n l = Some (map (λ i, Z.of_nat i <? burst policy + 1) (seq 0 n), l').
Proof.
  intros Hok Hl Hfresh. pose proof (rate_burst _ Hok). apply local_checks_at_once; [done|lia|]. split; [done|].
  destruct (shard_of_key l Hl) as (s & Hs). exists s. split; [done|]. unfold bucket_of. rewrite (Hfresh s Hs). cbn.
  unfold bucket_new, holding. by rewrite capacity_exact.
Qed.
End Burst.

Lemma burst_is_granted_at_once_witness :
  ∃ l', local_checks (λ _, 5) "/api" (V4 [10; 0; 0; 1]) (mkRouteRateLimit 10 2) 0 4 (with_config 4 SHARD_CLEANUP_INTERVAL 0)
        = Some ([true; true; true; false], l').
Proof.
  apply (burst_is_granted_at_once (λ _, 5) "/api" (V4 [10; 0; 0; 1]) (mkRouteRateLimit 10 2) 0
           (with_config 4 SHARD_CLEANUP_INTERVAL 0) 4).
  - split; cbn; lia.
  - by apply with_config_ok.
  - intros s. vm_compute. by intros [= <-].
Defined.

(** With the largest burst nothing is let through. *)
Example largest_burst_denies_all :
  fst <$> local_checks (λ _, 5) "/api" (V4 [10; 0; 0; 1]) (mkRouteRateLimit 10 u32_max) 0 2 (with_config 4 SHARD_CLEANUP_INTERVAL 0)
  = Some [false; false].
Proof. vm_compute. reflexivity. Qed.

(** ** Sharing *)

Lemma cleanup_version now d : rd_version (maybe_cleanup_document now d) = rd_version d.
Proof. unfold maybe_cleanup_document. by destruct (now <? rd_next_cleanup_unix_ms d). Qed.

Lemma check_document_version route ip policy now d allowed d' :
  check_document route ip policy now d = (allowed, d') → rd_version d' = rd_version d.
Proof.
  unfold check_document. destruct (shared_try_acquire _ _ _) as [a b]. intros [= _ <-]. apply cleanup_version.
Qed.

Section Sharing.
Context {J : RateDocumentJson} {Laws : RateDocumentLaws J}.
Context (c : SharedMemorySegmentConfig).

(** The segment is in order and holds the document. *)
Definition holds_document (t : ShmTable) (d : SharedRateLimitDocument) : Prop :=
  ∃ segment, attach no_faults c t = Ok segment ∧ object_ok segment ∧ read_rate_document segment = Ok d.

(** The document that a process finds: the one held, or a fresh one. *)
Definition finds_document (t : ShmTable) (d : SharedRateLimitDocument) : Prop :=
  holds_document t d ∨ (t !! cfg_name c = None ∧ d = default_document).

(** The document as it is read back. *)
Definition reread (d : SharedRateLimitDocument) : SharedRateLimitDocument :=
  default d (rate_document_from_slice (rate_document_to_vec d)).

Lemma reread_spec d :
  finite_document d → rate_document_from_slice (rate_document_to_vec d) = Some (reread d) ∧ document_reread d (reread d).
Proof. intros (d' & Hd & Hr)%rate_document_read_back. unfold reread. by rewrite Hd. Qed.

Lemma default_finite : finite_document default_document.
Proof. split; [done|]. by intros key b. Qed.

Lemma reread_default : reread default_document = default_document.
Proof.
  destruct (reread_spec default_document) as [_ [Hv Hn Hb]]; [apply default_finite|].
  destruct (reread default_document) as [v n b]. cbn in *. subst. unfold default_document. f_equal.
  apply map_eq. intros key. specialize (Hb key). rewrite lookup_empty in *. by inversion Hb.
Qed.

(** Room for the document behind its length. *)
Definition fits (d : SharedRateLimitDocument) : Prop :=
  DOCUMENT_LEN_BYTES + len (rate_document_to_vec d) ≤ payload_capacity_of (cfg_capacity_bytes c).

(** What may be written. *)
Definition storable (d : SharedRateLimitDocument) : Prop := fits d ∧ finite_document d.
#[export] Instance storable_dec d : Decision (storable d).
Proof. apply and_dec; unfold fits; apply _. Defined.

Definition config_ok : Prop := validate_capacity c = Ok tt ∧ shm_name c = Ok (cfg_name c).

Lemma write_holds t segment d :
  config_ok → object_ok segment → obj_size segment = cfg_capacity_bytes c → validate_header (obj_header segment) c = Ok tt →
  rd_version d = DOCUMENT_VERSION → storable d →
  ∃ t' segment', write_rate_document (cfg_name c) segment d t = (Ok tt, t') ∧ t' !! cfg_name c = Some segment' ∧
    object_ok segment' ∧ attach no_faults c t' = Ok segment' ∧ read_rate_document segment' = Ok (reread d).
Proof.
  intros [Hcap Hname] Hok Hsize Hhdr Hver [Hfit Hfin]. destruct (reread_spec d Hfin) as [Hback [Hver' _ _]]. unfold fits, DOCUMENT_LEN_BYTES in Hfit.
  assert (0 < len (rate_document_to_vec d)) as Hpos.
  { pose proof (rate_document_nonempty d). unfold len. destruct (rate_document_to_vec d); [done|cbn; lia]. }
  assert (payload_capacity segment = payload_capacity_of (cfg_capacity_bytes c)) as Hpc by (unfold payload_capacity; congruence).
  destruct (framed_write (rate_document_to_vec d) segment Hok Hpos ltac:(lia))
    as (s1 & s2 & Hw1 & Hw2 & Hok2 & Hz2 & Hh2 & Hlen & Hval & Hbody).
  unfold write_rate_document, DOCUMENT_LEN_BYTES. rewrite Hw1, Hw2, (proj2 (Z.ltb_ge _ _)) by (unfold sat_sub; lia).
  eexists _, s2. split_and!; [done|apply lookup_insert_eq|done| |].
  - apply attach_intro; [done|done|apply lookup_insert_eq|congruence|congruence].
  - assert (payload_capacity s2 = payload_capacity segment) as Hpc2 by (unfold payload_capacity; congruence).
    unfold read_rate_document, DOCUMENT_LEN_BYTES. rewrite Hpc2, (proj2 (Z.ltb_ge _ _)) by lia.
    rewrite Hlen. cbn [rbind]. rewrite Hval, (proj2 (Z.eqb_neq _ _)), (proj2 (Z.ltb_ge _ _)) by (unfold sat_sub; lia).
    rewrite Hbody. cbn [rbind]. rewrite Hback. cbn [ok_or rbind]. by rewrite Hver', Hver.
Qed.

(** One check of a request, by any of the processes. *)
Record RateCheck : Type := mkRateCheck { rc_route : string; rc_ip : IpAddr; rc_policy : RouteRateLimit; rc_now : Z; rc_nanos : Z }.

Definition shared_check (k : RateCheck) (t : ShmTable) : io_result bool * ShmTable :=
  shared_check_at (mkRateEnv None no_faults no_faults (rc_nanos k)) c (rc_route k) (rc_ip k) (rc_policy k) (rc_now k) t.

Definition document_check (k : RateCheck) (d : SharedRateLimitDocument) : bool * SharedRateLimitDocument :=
  check_document (rc_route k) (rc_ip k) (rc_policy k) (rc_now k) d.

Lemma attach_absent t : config_ok → t !! cfg_name c = None → attach no_faults c t = Err NotFound.
Proof. intros [Hcap Hname] Ht. unfold attach. rewrite Hcap, Hname. cbn. by rewrite Ht. Qed.

(** Opening gives the document that is found. *)
Lemma open_finds env t d :
  config_ok → re_attach env = no_faults → re_create env = no_faults → finds_document t d → storable default_document →
  ∃ segment t', open_or_create_segment env c (cfg_name c) t = (Ok segment, t') ∧ attach no_faults c t' = Ok segment ∧
    object_ok segment ∧ read_rate_document segment = Ok d.
Proof.
  intros Hc Ha Hr Hf Hd. unfold open_or_create_segment. rewrite Ha.
  destruct Hf as [(segment & Hs & Hok & Hread)|[Hnone ->]].
  { rewrite Hs. by exists segment, t. }
  rewrite attach_absent by done. unfold create_default. rewrite Hr.
  destruct (create_or_reset no_faults (re_now_nanos env) c t) as [r t1] eqn:Hcr.
  destruct r as [segment|e].
  2:{ exfalso. revert Hcr. unfold create_or_reset. destruct Hc as [-> ->]. cbn. done. }
  destruct (create_ok _ _ _ _ _ _ Hcr) as (_ & _ & Hok & Hsize & Hhdr & _ & ->).
  destruct (write_holds (<[cfg_name c := segment]> t) segment default_document Hc Hok Hsize)
    as (t' & segment' & -> & Hl & Hok' & Ha' & Hread); [by rewrite Hhdr, initial_header_valid|done|done|].
  rewrite reread_default in Hread. rewrite Hl. by exists segment', t'.
Qed.

Lemma shared_check_step k t d :
  config_ok → finds_document t d → rd_version d = DOCUMENT_VERSION → fits default_document →
  storable (document_check k d).2 →
  ∃ t', shared_check k t = (Ok (document_check k d).1, t') ∧ holds_document t' (reread (document_check k d).2).
Proof.
  intros Hc Hf Hver Hdef Hfit. unfold shared_check, shared_check_at. cbn [re_lock]. destruct Hc as [Hcap Hname] eqn:He.
  rewrite Hname. clear He.
  destruct (open_finds (mkRateEnv None no_faults no_faults (rc_nanos k)) t d (conj Hcap Hname) eq_refl eq_refl Hf (conj Hdef default_finite))
    as (segment & t1 & -> & Ha & Hok & ->).
  destruct (document_check k d) as [allowed d'] eqn:Hk. cbn [fst snd] in *. unfold document_check in Hk. rewrite Hk.
  destruct (attach_inv _ _ _ Ha) as (_ & _ & _ & Hsize & Hhdr).
  destruct (write_holds t1 segment d' (conj Hcap Hname) Hok Hsize Hhdr) as (t2 & s2 & -> & Hl & Hok2 & Ha2 & Hread).
  { by rewrite (check_document_version _ _ _ _ _ _ _ Hk). }
  { done. }
  exists t2. split; [done|]. by exists s2.
Qed.

Fixpoint shared_checks (l : list RateCheck) (t : ShmTable) : list (io_result bool) * ShmTable :=
  match l with
  | [] => ([], t)
  | k :: l => let '(answer, t) := shared_check k t in let '(answers, t) := shared_checks l t in (answer :: answers, t)
  end.

(** One process with one document that it writes and reads back after every
    check; and the documents that are written. *)
Fixpoint document_checks (l : list RateCheck) (d : SharedRateLimitDocument) : list bool * SharedRateLimitDocument :=
  match l with
  | [] => ([], d)
  | k :: l =>
      let '(answer, d) := document_check k d in
      let '(answers, d) := document_checks l (reread d) in (answer :: answers, d)
  end.

Fixpoint documents_written (l : list RateCheck) (d : SharedRateLimitDocument) : list SharedRateLimitDocument :=
  match l with
  | [] => []
  | k :: l => let d := (document_check k d).2 in d :: documents_written l (reread d)
  end.

(** One process with its document in memory. *)
Fixpoint memory_checks (l : list RateCheck) (d : SharedRateLimitDocument) : list bool * SharedRateLimitDocument :=
  match l with
  | [] => ([], d)
  | k :: l => let '(answer, d) := document_check k d in let '(answers, d) := memory_checks l d in (answer :: answers, d)
  end.

Lemma exact_checks l d :
  Forall (λ d, reread d = d) (documents_written l d) → document_checks l d = memory_checks l d.
Proof.
  revert d. induction l as [|k l IH]; intros d; [done|]. cbn [documents_written document_checks memory_checks].
  destruct (document_check k d) as [answer d']. cbn [snd]. intros [Hd Hl]%Forall_cons. rewrite Hd in *. by rewrite IH.
Qed.

(** C31.  The processes that share a rate limit answer as one process with one
    document would: whatever the order in which they take the lock, the answers
    of their checks are those of the checks run one after the other on the
    document that is found (a fresh one where there is no segment yet), which is
    written and read back after each, and what is left in shared memory is the
    document that this leaves; where reading back loses no digit, the answers are
    those of a process that keeps the document in its memory.  This is as long as
    the operating system refuses nothing, the document found has the current
    version, and every document on the way fits the segment and has the numbers
    of its Rust types, those of tokens finite, which is what JSON can hold. *)
Theorem shared_checks_refine_document l t d :
  config_ok → finds_document t d → rd_version d = DOCUMENT_VERSION → fits default_document →
  Forall storable (documents_written l d) →
  ∃ t', shared_checks l t = (Ok <$> (document_checks l d).1, t') ∧ finds_document t' (document_checks l d).2 ∧
        (Forall (λ d, reread d = d) (documents_written l d) → document_checks l d = memory_checks l d).
Proof.
  intros Hc Hf Hver Hdef Hall.
  cut (∃ t', shared_checks l t = (Ok <$> (document_checks l d).1, t') ∧ finds_document t' (document_checks l d).2).
  { intros (t' & H1 & H2). exists t'. split_and!; [done|done|apply exact_checks]. }
  revert t d Hf Hver Hall. induction l as [|k l IH]; intros t d Hf Hver Hfit; [by exists t|].
  cbn [documents_written] in Hfit. apply Forall_cons in Hfit as [Hfit0 Hfit].
  destruct (shared_check_step k t d Hc Hf Hver Hdef Hfit0) as (t1 & Hk & Hheld).
  cbn [shared_checks document_checks]. rewrite Hk.
  destruct (document_check k d) as [allowed d1] eqn:Hd. cbn [fst snd] in *.
  destruct (IH t1 (reread d1)) as (t2 & -> & Hf2); [by left| |done|].
  - destruct (reread_spec d1 (proj2 Hfit0)) as [_ [Hv _ _]]. rewrite Hv.
    unfold document_check in Hd. by rewrite (check_document_version _ _ _ _ _ _ _ Hd).
  - destruct (document_checks l (reread d1)) as [answers d2]. exists t2. done.
Qed.
End Sharing.

(** ** A document format *)

Module RefRateJson.
#[local] Instance spec_float_eq_dec : EqDecision spec_float.
Proof. solve_decision. Defined.
#[local] Instance spec_float_countable : Countable spec_float.
Proof.
  refine (inj_countable' (λ f, match f with
    | S754_zero s => inl (inl s) | S754_infinity s => inl (inr s) | S754_nan => inr (inl ()) | S754_finite s m e => inr (inr (s, m, e)) end)
    (λ x, match x with
    | inl (inl s) => S754_zero s | inl (inr s) => S754_infinity s | inr (inl _) => S754_nan | inr (inr (s, m, e)) => S754_finite s m e end) _).
  by intros [].
Defined.

#[local] Instance bucket_eq_dec : EqDecision SharedTokenBucket.
Proof. solve_decision. Defined.
#[local] Instance bucket_countable : Countable SharedTokenBucket.
Proof.
  refine (inj_countable' (λ b, (sb_requests_per_sec b, sb_burst b, sb_tokens b, sb_last_refill_unix_ms b, sb_last_seen_unix_ms b))
            (λ '(r, b, t, f, s), mkSharedBucket r b t f s) _). by intros [].
Defined.

#[local] Instance document_eq_dec : EqDecision SharedRateLimitDocument.
Proof. solve_decision. Defined.
#[local] Instance document_countable : Countable SharedRateLimitDocument.
Proof.
  refine (inj_countable' (λ d, (rd_version d, rd_next_cleanup_unix_ms d, map_to_list (rd_buckets d)))
            (λ '(v, n, l), mkRateDocument v n (list_to_map l)) _). intros [v n b]. cbn. by rewrite list_to_map_to_list.
Defined.

(** A number in binary, the lowest digit first. *)
Fixpoint to_bits (p : positive) : bytes :=
  match p with xH => [1] | xO p => 0 :: to_bits p | xI p => 1 :: to_bits p end.

Fixpoint of_bits (b : bytes) : option positive :=
  match b with
  | [] => None
  | [1] => Some xH
  | 0 :: b => xO <$> of_bits b
  | 1 :: b => xI <$> of_bits b
  | _ => None
  end.

Lemma of_to_bits p : of_bits (to_bits p) = Some p.
Proof.
  induction p as [p IH|p IH|]; [| |done]; cbn [to_bits]; [|by cbn; rewrite IH].
  destruct (to_bits p) eqn:Hb; [done|]. cbn in *. by rewrite IH.
Qed.

Definition api : RateDocumentJson := {|
  rate_document_to_vec d := to_bits (encode d);
  rate_document_from_slice b := of_bits b ≫= decode;
|}.

Lemma laws : RateDocumentLaws api.
Proof.
  split; intros d; cbn; [|by destruct (encode d)]. intros Hfin. exists d. split; [by rewrite of_to_bits; cbn; rewrite decode_encode|].
  split; [done..|]. intros key. destruct (rd_buckets d !! key) as [b|] eqn:Hb; constructor. split; try done. by apply (proj2 Hfin key).
Qed.
End RefRateJson.

Definition sample_segment : SharedMemorySegmentConfig := segment_config_new "/rginx-cache-rate" 7 65536.
Definition sample_check (ip : list Z) (now : Z) : RateCheck := mkRateCheck "/api" (V4 ip) (mkRouteRateLimit 1 0) now 1.

(** Two clients of two processes: the second request of the first is denied
    until its bucket has refilled. *)
Lemma shared_checks_refine_document_witness :
  ∃ t', shared_checks (J := RefRateJson.api) sample_segment
          [sample_check [10; 0; 0; 1] 0; sample_check [10; 0; 0; 1] 10; sample_check [10; 0; 0; 2] 20; sample_check [10; 0; 0; 1] 1500] ∅
        = ([Ok true; Ok false; Ok true; Ok true], t').
Proof.
  destruct (shared_checks_refine_document (J := RefRateJson.api) (Laws := RefRateJson.laws) sample_segment
    [sample_check [10; 0; 0; 1] 0; sample_check [10; 0; 0; 1] 10; sample_check [10; 0; 0; 2] 20; sample_check [10; 0; 0; 1] 1500] ∅
    default_document) as (t' & Ht & _).
  - split; vm_compute; done.
  - by right.
  - done.
  - vm_compute. done.
  - match goal with |- ?P => apply (bool_decide_unpack P) end. vm_compute. done.
  - exists t'. rewrite Ht. f_equal.
Defined.
