(* ===== verification/Handler.v ===== *)
(** * Handling a request

    Models [crates/rginx-http/src/handler/dispatch/*.rs] and
    [handler/access_log.rs]: a request finds its listener, its client's address,
    its virtual host and its route ([select.rs]), is let through or refused
    ([authorize.rs], [route.rs]), is answered by the upstream or by the route
    itself, and its response is finished ([response.rs], [date.rs]), counted and
    logged.  Challenges of ACME are answered before ([acme.rs]).

    The components are those of the other files; the state is what they share.
    A request runs without interruption, and its environment ([HandlerIo]) gives
    the instants, the upstream's side and what an encoder's body says of its
    length.  [None] is a panic. *)

From S2P Require Import Prelude RustStr External ConfigBase AccessLog ServerName Upstream Tls Template CacheConfig ProxyHeader Route Listener Stats StatsRecord StatsSafety StatsDelta Router RequestTarget ClientIp RequestHeaders GrpcWeb Body BodyLimits Health HttpResponse GrpcObservability Compression RequestBody ForwardRequest CacheTypes CacheRequest CachePolicy CacheStore Forward SharedMemory MachineFloat RateLimit.

Section Handler.
Context {HTTP : HttpApi} {B64 : Base64Api} {URI : UriApi} {DATE : HttpDateApi} {SHA : Sha256Api} {RX : RegexApi}
        {NET : IpNetApi} {J : RateDocumentJson} {BACKEND : ForwardCacheBackend}.
(** [Uri::builder], the hash of the local rate limits, [StatusCode::canonical_reason],
    [httpdate::fmt_http_date] and the encoders. *)
Context (uri_builds : string → string → string → bool) (hash : BucketKey → Z) (canonical_reason : Z → option string)
        (fmt_http_date : Z → string) (compress_bytes : ContentCoding → bytes → option bytes).
Notation FramePoll := (FramePoll BoxError).

(** ** The access log *)

(** Source: crates/rginx-http/src/handler/access_log.rs:16-37 (AccessLogContext) *)
Record AccessLogContext : Type := mkLogContext {
  lc_request_id : string;
  lc_method : string;
  lc_host : string;
  lc_path : string;
  lc_request_version : HttpVersion;
  lc_user_agent : option string;
  lc_referer : option string;
  lc_client_address : ClientAddress;
  lc_vhost : string;
  lc_route : string;
  lc_status : Z;
  lc_elapsed_ms : Z;
  lc_downstream_scheme : string;
  lc_tls_version : option string;
  lc_tls_alpn : option string;
  lc_body_bytes_sent : option Z;
  lc_tls_client_identity : option TlsClientIdentity;
  lc_cache_status : option string;
  lc_upstream : option UpstreamAccessLog;
}.

(** Source: crates/rginx-http/src/handler/dispatch/response.rs:70-79 (http_version_label) *)
Definition http_version_label (version : HttpVersion) : string :=
  match version with Http10 => "HTTP/1.0" | Http11 => "HTTP/1.1" | Http2 => "HTTP/2.0" | Http3 => "HTTP/3.0" end.

Definition joined (values : list string) : option string :=
  match List.filter (λ value, negb (str_is_empty value)) values with
  | [] => None
  | values => Some (str_join "," values)
  end.

(** Source: crates/rginx-http/src/handler/access_log.rs:232-244 (joined_tls_client_san_dns_names) *)
Definition joined_tls_client_san_dns_names (identity : option TlsClientIdentity) : option string :=
  joined (from_option tci_san_dns_names [] identity).

(** Source: crates/rginx-http/src/handler/access_log.rs:246-258 (joined_tls_client_chain_subjects) *)
Definition joined_tls_client_chain_subjects (identity : option TlsClientIdentity) : option string :=
  joined (from_option tci_chain_subjects [] identity).

(** Source: crates/rginx-http/src/handler/access_log.rs:168-230 (render_access_log_line) *)
Definition render_access_log_line (format : AccessLogFormat) (c : AccessLogContext) (grpc : option GrpcObservability)
    : string :=
  let identity := lc_tls_client_identity c in
  let version := http_version_label (lc_request_version c) in
  render_access_log format {|
    lv_request_id := lc_request_id c;
    lv_remote_addr := ip_to_string (ca_client_ip (lc_client_address c));
    lv_peer_addr := socket_to_string (ca_peer_addr (lc_client_address c));
    lv_method := lc_method c;
    lv_host := lc_host c;
    lv_path := lc_path c;
    lv_request := lc_method c +:+ " " +:+ lc_path c +:+ " " +:+ version;
    lv_status := lc_status c;
    lv_body_bytes_sent := lc_body_bytes_sent c;
    lv_elapsed_ms := lc_elapsed_ms c;
    lv_client_ip_source := client_ip_source_as_str (ca_source (lc_client_address c));
    lv_vhost := lc_vhost c;
    lv_route := lc_route c;
    lv_scheme := lc_downstream_scheme c;
    lv_http_version := version;
    lv_tls_version := lc_tls_version c;
    lv_tls_alpn := lc_tls_alpn c;
    lv_user_agent := lc_user_agent c;
    lv_referer := lc_referer c;
    lv_tls_client_authenticated := is_some identity;
    lv_tls_client_subject := identity ≫= tci_subject;
    lv_tls_client_issuer := identity ≫= tci_issuer;
    lv_tls_client_serial := identity ≫= tci_serial_number;
    lv_tls_client_san_dns_names := joined_tls_client_san_dns_names identity;
    lv_tls_client_chain_length := tci_chain_length <$> identity;
    lv_tls_client_chain_subjects := joined_tls_client_chain_subjects identity;
    lv_grpc_protocol := go_protocol <$> grpc;
    lv_grpc_service := go_service <$> grpc;
    lv_grpc_method := go_method <$> grpc;
    lv_grpc_status := grpc ≫= go_status;
    lv_grpc_message := grpc ≫= go_message;
    lv_cache_status := lc_cache_status c;
    lv_upstream_name := ul_upstream_name <$> lc_upstream c;
    lv_upstream_addr := ul_upstream_addr <$> lc_upstream c;
    lv_upstream_status := ul_upstream_status <$> lc_upstream c;
    lv_upstream_response_time_ms := ul_upstream_response_time_ms <$> lc_upstream c;
  |}.

Definition dash (value : option string) : string := default "-"%string value.

(** The fields of the event without a format, as text. *)
Definition access_log_fields (c : AccessLogContext) (grpc : option GrpcObservability) : list (string * string) :=
  let identity := lc_tls_client_identity c in
  [("request_id", lc_request_id c); ("method", lc_method c); ("host", lc_host c); ("path", lc_path c);
   ("client_ip", ip_to_string (ca_client_ip (lc_client_address c)));
   ("client_ip_source", client_ip_source_as_str (ca_source (lc_client_address c)));
   ("peer_addr", socket_to_string (ca_peer_addr (lc_client_address c)));
   ("vhost", lc_vhost c); ("route", lc_route c); ("status", dec (lc_status c));
   ("grpc_protocol", dash (go_protocol <$> grpc)); ("grpc_service", dash (go_service <$> grpc));
   ("grpc_method", dash (go_method <$> grpc)); ("grpc_status", dash (grpc ≫= go_status));
   ("grpc_message", dash (grpc ≫= go_message));
   ("tls_version", dash (lc_tls_version c)); ("tls_alpn", dash (lc_tls_alpn c));
   ("tls_client_authenticated", if is_some identity then "true" else "false");
   ("tls_client_subject", dash (identity ≫= tci_subject)); ("tls_client_issuer", dash (identity ≫= tci_issuer));
   ("tls_client_serial", dash (identity ≫= tci_serial_number));
   ("cache_status", dash (lc_cache_status c));
   ("upstream_name", dash (ul_upstream_name <$> lc_upstream c)); ("upstream_addr", dash (ul_upstream_addr <$> lc_upstream c));
   ("upstream_status", dash (dec ∘ ul_upstream_status <$> lc_upstream c));
   ("upstream_response_time_ms", dash (dec ∘ ul_upstream_response_time_ms <$> lc_upstream c));
   ("tls_client_san_dns_names", dash (joined_tls_client_san_dns_names identity));
   ("tls_client_chain_length", dec (from_option tci_chain_length 0 identity));
   ("tls_client_chain_subjects", dash (joined_tls_client_chain_subjects identity));
   ("elapsed_ms", dec (lc_elapsed_ms c))]%string.

(** A line of the configured format, or the fields. *)
Inductive AccessEvent : Type :=
| AccessLine (line : string)
| AccessFields (fields : list (string * string)).

(** Source: crates/rginx-http/src/handler/access_log.rs:92-166 (log_access_event) *)
Definition log_access_event (format : option AccessLogFormat) (c : AccessLogContext) (grpc : option GrpcObservability)
    : AccessEvent :=
  match format with
  | Some format => AccessLine (render_access_log_line format c grpc)
  | None => AccessFields (access_log_fields c grpc)
  end.

(** ** Where a request goes *)

(** Source: crates/rginx-http/src/handler/dispatch/select.rs:9-15 (request_host) *)
Definition request_host (headers : HeaderMap) (authority : option string) : string :=
  default EmptyString match hm_get_str headers "host" with Some host => Some host | None => authority end.

(** Source: crates/rginx-http/src/handler/dispatch/select.rs:17-24 (select_vhost_for_request) *)
Definition select_vhost_for_request (config : ConfigSnapshot) (headers : HeaderMap) (authority : option string)
    : VirtualHost :=
  select_vhost (cfg_vhosts config) (cfg_default_vhost config) (request_host headers authority).

(** Source: crates/rginx-http/src/handler/dispatch/select.rs:26-36 (route_match_context) *)
Definition route_match_context (request_path : string) (grpc_request : option GrpcRequestMetadata) : RouteMatchContext :=
  mkRouteMatchContext request_path
    ((λ metadata, mkGrpcRequestMatch (gm_service metadata) (gm_method metadata)) <$> grpc_request).

Definition ACME_HTTP01_PREFIX : string := "/.well-known/acme-challenge/".

(** Source: crates/rginx-http/src/handler/dispatch/acme.rs:5-12 (http01_response) *)
Definition http01_response (challenges : gmap string string) (request_path : string) : option string :=
  token ← strip_prefix ACME_HTTP01_PREFIX request_path;
  if str_is_empty token || contains_char "/"%char token then None else challenges !! token.

(** ** Finishing a response *)

(** The [Date] header of a second is made once. [None]: the text is no header
    value. *)
(** Source: crates/rginx-http/src/handler/dispatch/date.rs:14-22 (current_http_date) *)
Definition current_http_date (unix_epoch_seconds : Z) (cached : option (Z * HeaderValue))
    : option (HeaderValue * option (Z * HeaderValue)) :=
  let make :=
    value ← hv_from_str (fmt_http_date unix_epoch_seconds); Some (value, Some (unix_epoch_seconds, value)) in
  match cached with
  | Some (second, value) => if second =? unix_epoch_seconds then Some (value, cached) else make
  | None => make
  end.

(** Source: crates/rginx-http/src/handler/dispatch/response.rs:55-68 (response_body_bytes_sent) *)
Definition response_body_bytes_sent (method : string) (response : HttpResponse) : option Z :=
  if str_eqb method "HEAD" then Some 0 else hm_get_str (rsp_headers response) "content-length" ≫= parse_u64.

(** Source: crates/rginx-http/src/handler/dispatch/response.rs:88-91 (strip_response_body) *)
Definition strip_response_body (response : HttpResponse) : HttpResponse :=
  mkResponse (rsp_status response) (rsp_headers response) (full_body []) (rsp_upstream response).

(** Source: crates/rginx-http/src/handler/dispatch/response.rs:93-109 (alt_svc_header_value) *)
Definition alt_svc_header_value (listener : Listener) (request_version : HttpVersion) : option HeaderValue :=
  if bool_decide (request_version = Http3) || negb (lst_tls_termination_enabled listener) then None
  else
    http3 ← lst_http3 listener;
    if negb (h3_advertise_alt_svc http3) then None
    else
      let quote := String (ascii_of_N 34) EmptyString in
      hv_from_str ("h3=" +:+ quote +:+ ":" +:+ dec (sock_port (h3_listen_addr http3)) +:+ quote +:+ "; ma=" +:+
                   dec (h3_alt_svc_max_age http3 / 1000)).

(** The body of the response that came in is dropped when it was collected or
    stripped. *)
(** Source: crates/rginx-http/src/handler/dispatch/response.rs:11-16 (FinalizedDownstreamResponse) *)
Record FinalizedDownstreamResponse : Type := mkFinalized {
  fz_response : HttpResponse;
  fz_body_bytes_sent : option Z;
  fz_grpc : option GrpcObservability;
  fz_body_dropped : bool;
}.

Definition map_headers (f : HeaderMap → HeaderMap) (response : HttpResponse) : HttpResponse :=
  mkResponse (rsp_status response) (f (rsp_headers response)) (rsp_body response) (rsp_upstream response).

(** [exact]: what the body's [size_hint] says; [now]: the second of the clock. *)
(** Source: crates/rginx-http/src/handler/dispatch/response.rs:18-53 (finalize_downstream_response) *)
Definition finalize_downstream_response (method : string) (request_headers : HeaderMap) (options : ResponseCompressionOptions)
    (request_id_header : HeaderValue) (exact : option Z) (now : Z) (response : HttpResponse)
    (grpc_request : option GrpcRequestMetadata) (alt_svc_header : option HeaderValue) (server_header : HeaderValue)
    (cached_date : option (Z * HeaderValue)) : option (FinalizedDownstreamResponse * option (Z * HeaderValue)) :=
  let grpc := grpc_observability grpc_request (rsp_headers response) in
  let head := str_eqb method "HEAD" in
  let encodes := negb (is_some grpc) && negb head in
  let dropped := head || (encodes && is_some (collected_for method request_headers options exact response)) in
  let response := if encodes then maybe_encode_response compress_bytes method request_headers options exact response
                  else response in
  let response := if head then strip_response_body response else response in
  let response := match alt_svc_header with
                  | Some value => map_headers (hm_insert "alt-svc" value) response
                  | None => response
                  end in
  '(response, cached_date) ←
    (if hm_contains_key (rsp_headers response) "date" then Some (response, cached_date)
     else '(value, cached_date) ← current_http_date now cached_date;
          Some (map_headers (hm_insert "date" value) response, cached_date));
  let response := map_headers (hm_insert "server" server_header) response in
  let response := map_headers (hm_insert "x-request-id" request_id_header) response in
  Some (mkFinalized response (response_body_bytes_sent method response) grpc dropped, cached_date).

(** ** Refusals, and responses of a route *)

(** Source: crates/rginx-http/src/handler/dispatch/authorize.rs:11-30 (authorize_route) *)
Definition authorize_route (request_headers : HeaderMap) (route : Route) (client_address : ClientAddress)
    : option HttpResponse :=
  if allows (route_access_control route) (ca_client_ip client_address) then None
  else Some (default forbidden_response (grpc_error_response request_headers GrpcPermissionDenied "forbidden")).

(** Source: crates/rginx-http/src/handler/dispatch/route.rs:11-18 (early_data_rejection_response) *)
Definition early_data_rejection_response (request_headers : HeaderMap) : HttpResponse :=
  default too_early_response
    (grpc_error_response request_headers GrpcUnavailable "early data rejected for non-replay-safe route").

(** The outer [None] is a panic of the limiters. *)
(** Source: crates/rginx-http/src/handler/dispatch/authorize.rs:32-61 (enforce_rate_limit) *)
Definition enforce_rate_limit (at_ : CheckAt) (request_headers : HeaderMap) (limiters : RateLimit.RateLimiters) (route : Route)
    (route_metric_label : string) (client_address : ClientAddress) : option (option HttpResponse * RateLimiters) :=
  let refusal := default too_many_requests_response
                   (grpc_error_response request_headers GrpcResourceExhausted "too many requests") in
  '((allowed, limiters) : bool * RateLimit.RateLimiters) ←
    rate_limit_check hash at_ route_metric_label (ca_client_ip client_address) (route_rate_limit route) limiters;
  Some (if allowed then None else Some refusal, limiters).

Definition is_redirection (status : Z) : bool := (300 <=? status) && (status <? 400).

(** The arm of a route that returns. *)
(** Source: crates/rginx-http/src/handler/dispatch/route.rs:20-79 (build_route_response) *)
Definition return_response (action : ReturnAction) : HttpResponse :=
  let body :=
    match ret_body action with
    | Some body => body
    | None =>
        match canonical_reason (ret_status action) with
        | Some reason => reason +:+ newline
        | None => if is_redirection (ret_status action) then "Redirect" +:+ newline else dec (ret_status action) +:+ newline
        end
    end in
  let headers := builder_header "content-length" (dec (Z.of_nat (String.length body)))
                   (builder_header "content-type" text_plain hm_new) in
  let headers :=
    if is_redirection (ret_status action) && negb (str_is_empty (ret_location action)) then
      match hv_from_str (ret_location action) with
      | Some location => hm_append "location" location headers
      | None => headers
      end
    else headers in
  mkResponse (ret_status action) headers (full_body (bytes_of_string body)) None.

(** ** The state *)

(** What requests share: the active configuration, the listeners retired by
    reloads, the ACME challenges, the limiters, the statistics, the peers'
    health, the upstreams with their cursors, the cache, the connections that
    were upgraded, the [Date] header, and the log. *)
Record HandlerState : Type := mkHandler {
  hd_config : ConfigSnapshot;
  hd_retired_listeners : gmap string Listener;
  hd_acme_challenges : gmap string string;
  hd_limiters : RateLimiters;
  hd_stats : StatsState;
  hd_health : PeerHealthRegistry;
  hd_upstreams : gmap string Upstream;
  hd_cache : Cache;
  hd_upgraded : list ActivePeerGuard;
  hd_date : option (Z * HeaderValue);
  hd_log : list AccessEvent;
}.

Definition on_stats (f : StatsState → StatsState) (s : HandlerState) : HandlerState :=
  mkHandler (hd_config s) (hd_retired_listeners s) (hd_acme_challenges s) (hd_limiters s) (f (hd_stats s)) (hd_health s)
    (hd_upstreams s) (hd_cache s) (hd_upgraded s) (hd_date s) (hd_log s).

Definition with_limiters (limiters : RateLimiters) (s : HandlerState) : HandlerState :=
  mkHandler (hd_config s) (hd_retired_listeners s) (hd_acme_challenges s) limiters (hd_stats s) (hd_health s)
    (hd_upstreams s) (hd_cache s) (hd_upgraded s) (hd_date s) (hd_log s).

Definition with_date (date : option (Z * HeaderValue)) (s : HandlerState) : HandlerState :=
  mkHandler (hd_config s) (hd_retired_listeners s) (hd_acme_challenges s) (hd_limiters s) (hd_stats s) (hd_health s)
    (hd_upstreams s) (hd_cache s) (hd_upgraded s) date (hd_log s).

Definition logged (event : AccessEvent) (s : HandlerState) : HandlerState :=
  mkHandler (hd_config s) (hd_retired_listeners s) (hd_acme_challenges s) (hd_limiters s) (hd_stats s) (hd_health s)
    (hd_upstreams s) (hd_cache s) (hd_upgraded s) (hd_date s) (hd_log s ++ [event]).

(** What forwarding to a target works on. *)
Definition forward_state (target : ProxyTarget) (s : HandlerState) : ForwardState :=
  mkForward (hd_stats s) (hd_health s) (default (tgt_upstream target) (hd_upstreams s !! tgt_upstream_name target))
    (hd_cache s) (hd_upgraded s).

Definition forwarded_state (target : ProxyTarget) (f : ForwardState) (s : HandlerState) : HandlerState :=
  mkHandler (hd_config s) (hd_retired_listeners s) (hd_acme_challenges s) (hd_limiters s) (fw_stats f) (fw_health f)
    (<[tgt_upstream_name target := fw_upstream f]> (hd_upstreams s)) (fw_cache f) (fw_upgraded f) (hd_date s) (hd_log s).

Definition release_guard (guard : option ActivePeerGuard) (s : HandlerState) : HandlerState :=
  match guard with
  | Some guard =>
      mkHandler (hd_config s) (hd_retired_listeners s) (hd_acme_challenges s) (hd_limiters s) (hd_stats s)
        (drop_peer_guard guard (hd_health s)) (hd_upstreams s) (hd_cache s) (hd_upgraded s) (hd_date s) (hd_log s)
  | None => s
  end.

(** The environment of a request: [uuid::Uuid::now_v7], the seconds of the
    clock when the request comes in and when its response is finished, the
    milliseconds in between. *)
Record HandlerIo : Type := mkHandlerIo {
  hi_request_id : string;
  hi_start_secs : Z;
  hi_end_secs : Z;
  hi_elapsed_ms : Z;
  hi_rate : CheckAt;
  hi_forward : ForwardIo;
  hi_exact : option Z;
}.

(** A gRPC call whose response is still to be sent. *)
Record GrpcCall : Type := mkGrpcCall {
  gc_grpc : GrpcObservability;
  gc_format : option AccessLogFormat;
  gc_context : AccessLogContext;
  gc_listener_id : string;
  gc_vhost_id : string;
  gc_route_id : option string;
}.

(** The response, the guard its body holds, a refresh that was spawned, and the
    call its body records. *)
Record Answered : Type := mkAnswered {
  an_response : HttpResponse;
  an_guard : option ActivePeerGuard;
  an_background : option CacheStoreContext;
  an_call : option GrpcCall;
}.

(** ** Handling *)

(** Source: crates/rginx-http/src/state/snapshot_bus.rs:20-30 (SharedState::current_listener) *)
Definition current_listener (s : HandlerState) (listener_id : string) : option Listener :=
  match config_listener (hd_config s) listener_id with
  | Some listener => Some listener
  | None => hd_retired_listeners s !! listener_id
  end.

(** The header the request brings, if it says anything. *)
Definition given_request_id (headers : HeaderMap) : option string :=
  request_id ← header_value headers "x-request-id"; if str_is_empty request_id then None else Some request_id.

Definition with_request_headers (headers : HeaderMap) (request : DownstreamRequest) : DownstreamRequest :=
  mkRequest (dr_method request) (dr_version request) (dr_path request) (dr_query request) headers (dr_body request).

(** The options of the listener and the route. *)
Definition downstream_context (listener_id : string) (listener : Listener) (route : Route) (request_id : string)
    : DownstreamRequestContext :=
  mkDownstreamContext listener_id (if lst_tls_termination_enabled listener then "https" else "http") request_id
    (mkOptions (srv_request_body_read_timeout (lst_server listener)) (srv_max_request_body_bytes (lst_server listener))
       (route_request_buffering route) (route_response_buffering route) (route_streaming_response_idle_timeout route)
       (route_cache route)).

(** Source: crates/rginx-http/src/handler/dispatch/route.rs:20-79 (build_route_response) *)
Definition build_route_response (io : HandlerIo) (uri : Uri) (request : DownstreamRequest) (listener_id : string)
    (listener : Listener) (route : Route) (client_address : ClientAddress) (request_id : string) (s : HandlerState)
    : option (Forwarded * HandlerState) :=
  match route_action route with
  | Proxy target =>
      '((forwarded, f) : Forwarded * ForwardState) ←
        forward_request uri_builds (hi_forward io) uri request target client_address
          (downstream_context listener_id listener route request_id) (forward_state target s);
      Some (forwarded, forwarded_state target f s)
  | Return_ action => Some (mkForwarded (return_response action) None None, s)
  end.

Definition unmatched_response (request_headers : HeaderMap) : HttpResponse :=
  default (text_response 404 text_plain ("route not found" +:+ newline))
    (grpc_error_response request_headers GrpcUnimplemented "route not found").

Definition refused (response : HttpResponse) : Forwarded := mkForwarded response None None.

(** The response of the route that was selected, or of none. *)
Definition dispatch (io : HandlerIo) (listener_id : string) (uri : Uri) (request_headers : HeaderMap)
    (request : DownstreamRequest) (listener : Listener) (early_data : bool) (client_address : ClientAddress)
    (request_id : string) (selected_route : option Route) (s : HandlerState) : option (Forwarded * HandlerState) :=
  match selected_route with
  | None => Some (refused (unmatched_response request_headers), s)
  | Some route =>
      if early_data && negb (route_allow_early_data route) then
        Some (refused (early_data_rejection_response request_headers),
              on_stats (record_http3_early_data_rejected_request listener_id) s)
      else
        match authorize_route request_headers route client_address with
        | Some response => Some (refused response, on_stats (record_route_access_denied (route_id route)) s)
        | None =>
            '((refusal, limiters) : option HttpResponse * RateLimiters) ←
              enforce_rate_limit (hi_rate io) request_headers (hd_limiters s) route (route_id route) client_address;
            let s := with_limiters limiters s in
            match refusal with
            | Some response => Some (refused response, on_stats (record_route_rate_limited (route_id route)) s)
            | None =>
                let s := if early_data then on_stats (record_http3_early_data_accepted_request listener_id) s else s in
                build_route_response io uri request listener_id listener route client_address request_id s
            end
        end
  end.

(** What the request is counted as when it comes in. *)
Definition record_request (io : HandlerIo) (listener_id vhost_id : string) (route : option string) (listener : Listener)
    (authenticated : bool) (grpc_request : option GrpcRequestMetadata) (s : StatsState) : StatsState :=
  let s := record_downstream_request listener_id vhost_id route (hi_start_secs io) s in
  let s := if is_some (srv_tls (lst_server listener) ≫= stl_client_auth)
           then record_mtls_request listener_id authenticated s else s in
  match grpc_request with
  | Some grpc_request => record_grpc_request listener_id vhost_id route (gm_protocol grpc_request) (hi_start_secs io) s
  | None => s
  end.

(** [path_and_query] and the authority are those of [uri]. *)
(** Source: crates/rginx-http/src/handler/dispatch/mod.rs:58-298 (handle) *)
Definition handle (io : HandlerIo) (uri : Uri) (request : DownstreamRequest) (connection : ConnectionPeerAddrs)
    (listener_id : string) (s : HandlerState) : option (Answered * HandlerState) :=
  listener ← current_listener s listener_id;
  let server := lst_server listener in
  let method := dr_method request in
  let request_headers := dr_headers request in
  let request_id := default (hi_request_id io) (given_request_id request_headers) in
  request_id_header ← hv_from_str request_id;
  let headers := hm_insert "x-request-id" request_id_header request_headers in
  let request := with_request_headers headers request in
  let request_path := nt_path (normalize_request_target (dr_path request) (dr_query request)) in
  let grpc_request := grpc_request_metadata request_headers request_path in
  let alt_svc_header := alt_svc_header_value listener (dr_version request) in
  let client_address := resolve_client_address (srv_trusted_proxies server) (srv_client_ip_header server) headers connection in
  let finalize options response s :=
    finalize_downstream_response method request_headers options request_id_header (hi_exact io) (hi_end_secs io) response
      grpc_request alt_svc_header (srv_server_header server) (hd_date s) in
  match http01_response (hd_acme_challenges s) request_path with
  | Some challenge_response =>
      '((finalized, date) : FinalizedDownstreamResponse * option (Z * HeaderValue)) ←
        finalize default_compression (text_response 200 text_plain challenge_response) s;
      Some (mkAnswered (fz_response finalized) None None None, with_date date s)
  | None =>
      let vhost := select_vhost_for_request (hd_config s) headers (uri_authority uri) in
      let selected_route := select_route_in_vhost_with_context vhost (route_match_context request_path grpc_request) in
      let selected_route_id := route_id <$> selected_route in
      let options := default default_compression (compression_for_route <$> selected_route) in
      let s := on_stats (record_request io listener_id (vhost_id vhost) selected_route_id listener
                           (is_some (cp_tls_client_identity connection)) grpc_request) s in
      '((forwarded, s) : Forwarded * HandlerState) ←
        dispatch io listener_id uri request_headers request listener (cp_early_data connection) client_address request_id
          selected_route s;
      '((finalized, date) : FinalizedDownstreamResponse * option (Z * HeaderValue)) ←
        finalize options (fd_response forwarded) s;
      let s := with_date date s in
      let response := fz_response finalized in
      let guard := if fz_body_dropped finalized then None else fd_guard forwarded in
      let s := if fz_body_dropped finalized then release_guard (fd_guard forwarded) s else s in
      let s := on_stats (record_downstream_response listener_id (vhost_id vhost) selected_route_id (rsp_status response)
                           (hi_end_secs io)) s in
      let context := mkLogContext request_id method (request_host request_headers (uri_authority uri))
                       (raw_request_target (uri_path_and_query uri) (dr_path request)) (dr_version request)
                       (header_value request_headers "user-agent") (header_value request_headers "referer") client_address
                       (vhost_id vhost) (default "__unmatched__"%string selected_route_id) (rsp_status response)
                       (hi_elapsed_ms io) (if lst_tls_termination_enabled listener then "https" else "http")
                       (cp_tls_version connection) (cp_tls_alpn connection) (fz_body_bytes_sent finalized)
                       (cp_tls_client_identity connection) (hm_get_str (rsp_headers response) "x-cache")
                       (rsp_upstream response) in
      match fz_grpc finalized with
      | Some grpc =>
          Some (mkAnswered response guard (fd_background forwarded)
                  (Some (mkGrpcCall grpc (srv_access_log_format server) context listener_id (vhost_id vhost) selected_route_id)), s)
      | None =>
          Some (mkAnswered response guard (fd_background forwarded) None,
                logged (log_access_event (srv_access_log_format server) context None) s)
      end
  end.

(** One record of a call that its body reports. *)
Definition record_call (call : GrpcCall) (s : HandlerState) (grpc : GrpcObservability) : HandlerState :=
  logged (log_access_event (gc_format call) (gc_context call) (Some grpc))
    (on_stats (record_grpc_status (gc_listener_id call) (gc_vhost_id call) (gc_route_id call) (go_status grpc)) s).

(** The response is sent: its body is polled and then dropped. *)
Definition send_response (answered : Answered) (polls : list (FramePoll * bool)) (s : HandlerState) : HandlerState :=
  let s := release_guard (an_guard answered) s in
  match an_call answered with
  | Some call => foldl (record_call call) s (access_log_run (gc_grpc call) polls)
  | None => s
  end.
End Handler.
