(* ===== verification/HandlerSafety.v ===== *)
(** * What handling a request comes to

    The properties of Handler.v: every request is answered, counted and logged
    once, by whatever way it goes, and a client that is not let through leaves
    no trace behind the proxy. *)

From S2P Require Import Prelude RustStr External ConfigBase AccessLog ServerName Upstream Tls Template CacheConfig ProxyHeader Route Listener Stats StatsRecord StatsSafety StatsDelta Router RequestTarget ClientIp RequestHeaders GrpcWeb Body BodyLimits Health HealthSafety HealthSelection HttpResponse GrpcObservability Compression RequestBody ForwardRequest CacheTypes CacheRequest CachePolicy CacheStore Forward ForwardSafety SharedMemory MachineFloat RateLimit Handler.

Section HandlerSafety.
Context {HTTP : HttpApi} {B64 : Base64Api} {URI : UriApi} {DATE : HttpDateApi} {SHA : Sha256Api} {RX : RegexApi}
        {NET : IpNetApi} {J : RateDocumentJson} {BACKEND : ForwardCacheBackend} {Laws : HttpLaws HTTP}.
Context (uri_builds : string → string → string → bool) (hash : BucketKey → Z) (canonical_reason : Z → option string)
        (fmt_http_date : Z → string) (compress_bytes : ContentCoding → bytes → option bytes).
Notation FramePoll := (FramePoll BoxError).
Notation finalize_downstream_response := (finalize_downstream_response fmt_http_date compress_bytes).
Notation dispatch := (dispatch uri_builds hash canonical_reason).
Notation handle := (handle uri_builds hash canonical_reason fmt_http_date compress_bytes).

(** ** Finishing *)

(** What every response carries. *)
Record dressed (method : string) (request_id server : HeaderValue) (response : HttpResponse) : Prop := {
  dressed_id : hm_get_all (rsp_headers response) "x-request-id" = [request_id];
  dressed_server : hm_get_all (rsp_headers response) "server" = [server];
  dressed_date : hm_contains_key (rsp_headers response) "date" = true;
  dressed_head : method = "HEAD"%string → rsp_body response = [];
}.

Lemma contains_insert name value headers : hm_contains_key (hm_insert name value headers) name = true.
Proof. unfold hm_contains_key. by rewrite hm_get_all_insert_eq. Qed.

Lemma contains_insert_ne name name' value headers :
  name ≠ name' → hm_contains_key (hm_insert name value headers) name' = hm_contains_key headers name'.
Proof. intros Hne. unfold hm_contains_key. by rewrite hm_get_all_insert_ne. Qed.

Lemma current_date_total now cached :
  str_all value_char_ok (fmt_http_date now) = true → ∃ value cached', current_http_date fmt_http_date now cached = Some (value, cached').
Proof.
  intros Hd. destruct (hv_from_str_visible _ Hd) as (v & Hv & _). unfold current_http_date. rewrite Hv.
  destruct cached as [[second value]|]; [destruct (second =? now)|]; by do 2 eexists.
Qed.

Lemma finalize_spec method request_headers options request_id exact now response grpc_request alt_svc server cached :
  str_all value_char_ok (fmt_http_date now) = true →
  ∃ finalized cached',
    finalize_downstream_response method request_headers options request_id exact now response grpc_request alt_svc server cached
    = Some (finalized, cached') ∧
    fz_grpc finalized = grpc_observability grpc_request (rsp_headers response) ∧
    dressed method request_id server (fz_response finalized).
Proof.
  intros Hd. unfold Handler.finalize_downstream_response.
  match goal with |- context [if str_eqb method "HEAD" then strip_response_body ?r else _] => generalize r; intros encoded end.
  set (r1 := if str_eqb method "HEAD" then _ else _).
  assert (method = "HEAD"%string → rsp_body r1 = []) as Hbody by (unfold r1; intros ->; by rewrite str_eqb_refl).
  set (r2 := match alt_svc with Some _ => _ | None => _ end).
  assert (rsp_body r2 = rsp_body r1) as Hbody2 by (unfold r2; by destruct alt_svc). rewrite <-Hbody2 in Hbody.
  clearbody r1 r2. clear r1 Hbody2.
  destruct (hm_contains_key (rsp_headers r2) "date") eqn:Hdate.
  - cbn [mbind option_bind]. do 2 eexists. split; [done|]. split; [done|]. split; cbn [fz_response map_headers rsp_headers rsp_body].
    + apply hm_get_all_insert_eq.
    + rewrite hm_get_all_insert_ne by done. apply hm_get_all_insert_eq.
    + by rewrite !contains_insert_ne by done.
    + done.
  - destruct (current_date_total now cached Hd) as (value & cached' & ->). cbn [mbind option_bind].
    do 2 eexists. split; [done|]. split; [done|]. split; cbn [fz_response map_headers rsp_headers rsp_body].
    + apply hm_get_all_insert_eq.
    + rewrite hm_get_all_insert_ne by done. apply hm_get_all_insert_eq.
    + rewrite !contains_insert_ne by done. apply contains_insert.
    + done.
Qed.

(** ** Verdicts *)

Definition early_event (listener_id : string) (early_data : bool) : list StatsEvent :=
  if early_data then [OfListener listener_id (EarlyDataRequest true)] else [].

(** What becomes of a request that the limiters let through or not: the events
    that are counted for it, and whether it reached an upstream. *)
Inductive verdict (ios : nat → AttemptIo) (listener_id : string) (early_data : bool) (client_ip : IpAddr) (granted : Route → bool)
  : option Route → list StatsEvent → bool → Prop :=
| unmatched : verdict ios listener_id early_data client_ip granted None [] false
| too_early route :
    early_data = true → route_allow_early_data route = false →
    verdict ios listener_id early_data client_ip granted (Some route) [OfListener listener_id (EarlyDataRequest false)] false
| denied route :
    (early_data = true → route_allow_early_data route = true) → allows (route_access_control route) client_ip = false →
    verdict ios listener_id early_data client_ip granted (Some route) [AccessDenied (route_id route)] false
| limited route :
    (early_data = true → route_allow_early_data route = true) → allows (route_access_control route) client_ip = true →
    granted route = false →
    verdict ios listener_id early_data client_ip granted (Some route) [RateLimited (route_id route)] false
| returned route action :
    (early_data = true → route_allow_early_data route = true) → allows (route_access_control route) client_ip = true →
    granted route = true → route_action route = Return_ action →
    verdict ios listener_id early_data client_ip granted (Some route) (early_event listener_id early_data) false
| proxied route target events :
    (early_data = true → route_allow_early_data route = true) → allows (route_access_control route) client_ip = true →
    granted route = true → route_action route = Proxy target → accounted ios 0 MAX_FAILOVER_ATTEMPTS events →
    verdict ios listener_id early_data client_ip granted (Some route)
      (early_event listener_id early_data ++ map (OfUpstream (tgt_upstream_name target)) events) true.

(** A request in time, let through to a route with an upstream, reaches it. *)
Lemma proxied_reaches ios listener_id client_ip granted route target events reached :
  verdict ios listener_id false client_ip granted (Some route) events reached →
  allows (route_access_control route) client_ip = true → granted route = true → route_action route = Proxy target →
  reached = true.
Proof. inversion 1; congruence. Qed.

(** The limiters' answer. *)
Definition grants (io : HandlerIo) (s : HandlerState) (client_ip : IpAddr) (route : Route) : bool :=
  match rate_limit_check hash (hi_rate io) (route_id route) client_ip (route_rate_limit route) (hd_limiters s) with
  | Some (allowed, _) => allowed
  | None => false
  end.

(** What lies behind the proxy. *)
Definition upstream_side (s : HandlerState) : PeerHealthRegistry * gmap string Upstream * Cache * list ActivePeerGuard :=
  (hd_health s, hd_upstreams s, hd_cache s, hd_upgraded s).

(** The limiters of a process are in order. *)
Definition limiters_in_order (s : HandlerState) : Prop :=
  match hd_limiters s with LocalOnly l => limiters_ok l | WithShared _ _ => True end.

Lemma rate_limit_answers at_ route ip policy limiters :
  match limiters with LocalOnly l => limiters_ok l | WithShared _ _ => True end →
  ∃ allowed limiters', rate_limit_check hash at_ route ip policy limiters = Some (allowed, limiters').
Proof.
  intros Hok. unfold rate_limit_check. destruct policy as [policy|]; [|by do 2 eexists].
  destruct limiters as [l|c t].
  - unfold local_check_at. destruct (shard_of_key hash route ip l Hok) as (shard & ->). cbn [mbind option_bind].
    destruct (check_shard _ _ _ _ _) as [allowed shard']. by do 2 eexists.
  - destruct (shared_check_at _ _ _ _ _ _ _) as [answer t']. by do 2 eexists.
Qed.

(** What dispatching leaves alone. *)
Record kept (s s' : HandlerState) : Prop := {
  kept_log : hd_log s' = hd_log s;
  kept_date : hd_date s' = hd_date s;
  kept_challenges : hd_acme_challenges s' = hd_acme_challenges s;
}.

(** Dispatching answers, or panics as forwarding does. *)
Lemma dispatch_spec io listener_id uri request_headers request listener early_data client request_id route s :
  limiters_in_order s → cache_slices_ok →
  match dispatch io listener_id uri request_headers request listener early_data client request_id route s with
  | Some (forwarded, s') =>
      ∃ events reached,
        verdict (fi_attempts (hi_forward io)) listener_id early_data (ca_client_ip client) (grants io s (ca_client_ip client))
          route events reached ∧
        hd_stats s' = stats_run events (hd_stats s) ∧ kept s s' ∧
        (reached = false → upstream_side s' = upstream_side s ∧ fd_guard forwarded = None)
  | None =>
      grpc_web_upgrade request (fi_attempts (hi_forward io)) ∧
      ∃ route' target, route = Some route' ∧ route_action route' = Proxy target
  end.
Proof.
  intros Hlim Hslices. unfold Handler.dispatch. destruct route as [route|].
  2: { do 2 eexists. split; [constructor|done]. }
  destruct (early_data && negb (route_allow_early_data route)) eqn:Hearly.
  { apply andb_true_iff in Hearly as [He Ha%negb_true_iff]. do 2 eexists. split; [by apply too_early|done]. }
  assert (early_data = true → route_allow_early_data route = true) as He by (intros ->; by apply negb_false_iff in Hearly).
  unfold authorize_route. destruct (allows (route_access_control route) (ca_client_ip client)) eqn:Hallows.
  2: { do 2 eexists. split; [by apply denied|done]. }
  unfold enforce_rate_limit.
  destruct (rate_limit_answers (hi_rate io) (route_id route) (ca_client_ip client) (route_rate_limit route) (hd_limiters s) Hlim)
    as (allowed & limiters & Hcheck). rewrite Hcheck. cbn [mbind option_bind].
  assert (grants io s (ca_client_ip client) route = allowed) as Hgrants by (unfold grants; by rewrite Hcheck).
  destruct allowed.
  2: { do 2 eexists. split; [by apply limited|done]. }
  set (s1 := if early_data then _ else _).
  assert (hd_stats s1 = stats_run (early_event listener_id early_data) (hd_stats s)) as Hs1 by (unfold s1; by destruct early_data).
  assert (kept s s1 ∧ upstream_side s1 = upstream_side s) as [Hkept Hside] by (unfold s1; by destruct early_data).
  clearbody s1. unfold build_route_response. destruct (route_action route) as [target|action] eqn:Haction.
  2: { do 2 eexists. split; [by eapply returned|done]. }
  destruct (forward_request _ _ _ _ _ _ _ _) as [[fd f]|] eqn:Hf; cbn [mbind option_bind].
  2: { split; [by eapply forward_panics|]. by exists route, target. }
  destruct (forward_run _ _ _ _ _ _ _ _ _ _ Hf) as (events & gained & Hev & _ & [Hs _ _]). cbn [fst snd] in Hs.
  do 2 eexists. split; [eapply proxied; try done; by eapply request_accounted|]. split; [|split; [|done]].
  - cbn [forwarded_state hd_stats]. rewrite Hs. cbn [forward_state fw_stats]. rewrite Hs1. unfold stats_run. by rewrite foldl_app.
  - destruct Hkept. by split.
Qed.

(** ** The request *)

Lemma given_id_valid headers request_id : given_request_id headers = Some request_id → str_all value_char_ok request_id = true.
Proof.
  unfold given_request_id, header_value. destruct (hm_get_str headers "x-request-id") as [text|] eqn:Hg; [|done].
  cbn. destruct (str_is_empty _); [done|]. intros [= <-]. apply trim_all.
  unfold hm_get_str in Hg. destruct (hm_get headers _) as [v|]; [|done]. by apply hv_to_str_inv in Hg.
Qed.

Lemma host_of_insert value headers authority :
  request_host (hm_insert "x-request-id" value headers) authority = request_host headers authority.
Proof. unfold request_host, hm_get_str, hm_get. by rewrite hm_get_all_insert_ne. Qed.

(** What is counted when a request comes in. *)
Definition incoming (io : HandlerIo) (listener_id vhost_id : string) (route : option string) (listener : Listener)
    (authenticated : bool) (grpc_request : option GrpcRequestMetadata) : list StatsEvent :=
  StatsDelta.DownstreamRequest listener_id vhost_id route (hi_start_secs io) ::
  (if is_some (srv_tls (lst_server listener) ≫= stl_client_auth) then [OfListener listener_id (MtlsRequest authenticated)] else []) ++
  match grpc_request with
  | Some grpc_request => [GrpcRequest listener_id vhost_id route (gm_protocol grpc_request) (hi_start_secs io)]
  | None => []
  end.

Lemma record_request_run io listener_id vhost_id route listener authenticated grpc_request s :
  record_request io listener_id vhost_id route listener authenticated grpc_request s =
  stats_run (incoming io listener_id vhost_id route listener authenticated grpc_request) s.
Proof. unfold record_request, incoming. by destruct (is_some _), grpc_request. Qed.

Lemma release_keeps guard s :
  hd_stats (release_guard guard s) = hd_stats s ∧ hd_log (release_guard guard s) = hd_log s.
Proof. by destruct guard. Qed.

(** The end of [handle]: the body that came in may be dropped, the date is kept
    and the response counted. *)
Lemma settled_spec record (dropped : bool) guard date s :
  let settled := on_stats record (if dropped then release_guard guard (with_date date s) else with_date date s) in
  hd_stats settled = record (hd_stats s) ∧ hd_log settled = hd_log s ∧
  (guard = None → upstream_side settled = upstream_side s).
Proof.
  destruct dropped; [|done]. cbn [on_stats hd_stats hd_log]. destruct (release_keeps guard (with_date date s)) as [-> ->].
  split_and!; [done|done|]. by intros ->.
Qed.

(** The body of the response ends, and the call, if there is one, is recorded. *)
Lemma send_response_spec answered polls s :
  ∃ statuses events,
    hd_stats (send_response answered polls s) = stats_run statuses (hd_stats s) ∧
    hd_log (send_response answered polls s) = hd_log s ++ events ∧
    match an_call answered with
    | Some call =>
        length events = 1%nat ∧
        ∃ status, statuses = [GrpcStatus (gc_listener_id call) (gc_vhost_id call) (gc_route_id call) status]
    | None => events = [] ∧ statuses = []
    end.
Proof.
  unfold send_response. destruct (release_keeps (an_guard answered) s) as [Hs Hl]. destruct (an_call answered) as [call|].
  - destruct (run_records (gc_grpc call) polls) as (g & ->). cbn [foldl].
    exists [GrpcStatus (gc_listener_id call) (gc_vhost_id call) (gc_route_id call) (go_status g)],
      [log_access_event (gc_format call) (gc_context call) (Some g)].
    unfold record_call. cbn [logged on_stats hd_stats hd_log]. rewrite Hs, Hl. split_and!; [done|done|done|by eexists].
  - exists [], []. rewrite Hs, Hl, app_nil_r. done.
Qed.

(** What the environment is relied on for: the identifier it makes and the date
    are header values, the limiters are in order, and slices of the cache can be
    asked for. *)
Record environment_ok (io : HandlerIo) (s : HandlerState) : Prop := {
  env_request_id : str_all value_char_ok (hi_request_id io) = true;
  env_date : str_all value_char_ok (fmt_http_date (hi_end_secs io)) = true;
  env_limiters : limiters_in_order s;
  env_slices : cache_slices_ok;
}.

(** The identifier that is put into a request makes no difference to it. *)
Lemma grpc_web_upgrade_of request value ios :
  grpc_web_upgrade (with_request_headers (hm_insert "x-request-id" value (dr_headers request)) request) ios →
  grpc_web_upgrade request ios.
Proof.
  intros [Hu [mode Hm] Hg]. split; [|exists mode|done].
  - revert Hu. unfold is_upgrade_request, extract_upgrade_protocol, connection_header_contains_token, hm_get.
    cbn [with_request_headers dr_version dr_headers]. by rewrite !hm_get_all_insert_ne.
  - revert Hm. unfold detect_grpc_web_mode, hm_get. cbn [with_request_headers dr_headers]. by rewrite hm_get_all_insert_ne.
Qed.

(** C35.  Every request of a listener that is there, or was retired by a reload,
    is answered, whatever way it goes, unless it panics: that takes a request to
    a route with an upstream, a gRPC-Web client that asks for an upgrade over
    HTTP/1.1, and a peer that grants it.  The response carries the request's
    identifier (the client's own if it gave one), the listener's Server header
    and a date, and no body if the method is HEAD.  An ACME challenge is neither
    counted nor logged; any other request is counted once when it comes in and
    once when its response is ready, and in between under what became of it: a
    refusal (too early, denied or limited) by one event, what forwarding did by
    the upstream's events, early data that was let through by one event; nothing
    more is counted of a request that no route matches, or that its route answers
    itself.  It is logged exactly once, a gRPC call when its response's body ends
    or is dropped, with one status.  A request that does not reach an upstream
    leaves the peers, the cursors, the cache and the upgraded connections as they
    were. *)
Theorem requests_are_answered_and_recorded (io : HandlerIo) (uri : Uri) (request : DownstreamRequest)
    (connection : ConnectionPeerAddrs) (listener_id : string) (listener : Listener) (s : HandlerState)
    (Hlistener : current_listener s listener_id = Some listener) (Henv : environment_ok io s) :
  let server := lst_server listener in
  let path := nt_path (normalize_request_target (dr_path request) (dr_query request)) in
  let grpc_request := grpc_request_metadata (dr_headers request) path in
  let vhost := select_vhost_for_request (hd_config s) (dr_headers request) (uri_authority uri) in
  let route := select_route_in_vhost_with_context vhost (route_match_context path grpc_request) in
  ∃ request_id,
    hv_to_str request_id = Some (default (hi_request_id io) (given_request_id (dr_headers request))) ∧
    match handle io uri request connection listener_id s with
    | None =>
        grpc_web_upgrade request (fi_attempts (hi_forward io)) ∧
        ∃ route' target, route = Some route' ∧ route_action route' = Proxy target
    | Some (answered, s') =>
        dressed (dr_method request) request_id (srv_server_header server) (an_response answered) ∧
        match http01_response (hd_acme_challenges s) path with
        | Some _ =>
            hd_stats s' = hd_stats s ∧ hd_log s' = hd_log s ∧ upstream_side s' = upstream_side s ∧
            an_call answered = None ∧ an_guard answered = None
        | None =>
            ∃ events reached,
              let client := ca_client_ip (resolve_client_address (srv_trusted_proxies server) (srv_client_ip_header server)
                                            (hm_insert "x-request-id" request_id (dr_headers request)) connection) in
              verdict (fi_attempts (hi_forward io)) listener_id (cp_early_data connection) client (grants io s client) route
                events reached ∧
              (reached = false → upstream_side s' = upstream_side s) ∧
              hd_stats s' =
                stats_run (incoming io listener_id (vhost_id vhost) (route_id <$> route) listener
                             (is_some (cp_tls_client_identity connection)) grpc_request ++ events ++
                           [DownstreamResponded listener_id (vhost_id vhost) (route_id <$> route)
                              (rsp_status (an_response answered)) (hi_end_secs io)]) (hd_stats s) ∧
              (is_some (an_call answered) = is_some grpc_request) ∧
              ∀ polls, ∃ event statuses,
                hd_log (send_response answered polls s') = hd_log s ++ [event] ∧
                hd_stats (send_response answered polls s') = stats_run statuses (hd_stats s') ∧
                match grpc_request with
                | Some _ => ∃ status, statuses = [GrpcStatus listener_id (vhost_id vhost) (route_id <$> route) status]
                | None => statuses = []
                end
        end
    end.
Proof.
  intros server path grpc_request vhost route. destruct Henv as [Hid Hdate Hlim Hslices].
  unfold Handler.handle. rewrite Hlistener. cbn [mbind option_bind]. cbv zeta.
  set (id := default (hi_request_id io) (given_request_id (dr_headers request))).
  assert (str_all value_char_ok id = true) as Hok.
  { unfold id. destruct (given_request_id _) as [given|] eqn:Hg; [by eapply given_id_valid|done]. }
  destruct (hv_from_str_visible _ Hok) as (idh & -> & Hidh). cbn [mbind option_bind]. exists idh. split; [done|].
  cbn [with_request_headers dr_path dr_query dr_version dr_method]. fold path. fold grpc_request. fold server.
  destruct (http01_response (hd_acme_challenges s) path) as [challenge|] eqn:Hc.
  - destruct (finalize_spec (dr_method request) (dr_headers request) default_compression idh (hi_exact io) (hi_end_secs io)
                (text_response 200 text_plain challenge) grpc_request (alt_svc_header_value listener (dr_version request))
                (srv_server_header server) (hd_date s) Hdate) as (finalized & date & -> & _ & Hdressed).
    cbn [mbind option_bind]. done.
  - assert (select_vhost_for_request (hd_config s) (hm_insert "x-request-id" idh (dr_headers request)) (uri_authority uri) = vhost)
      as -> by (unfold vhost, select_vhost_for_request; by rewrite host_of_insert).
    fold route. set (client := resolve_client_address _ _ _ _).
    match goal with |- context [dispatch _ _ _ ?h ?r ?l ?e ?c ?i ?rt ?s1] =>
      pose proof (dispatch_spec io listener_id uri h r l e c i rt s1 Hlim Hslices) as Hspec;
      destruct (dispatch io listener_id uri h r l e c i rt s1) as [[forwarded s2]|] end.
    2: { destruct Hspec as [Hg Hrt]. cbn [mbind option_bind]. split; [|exact Hrt]. by eapply grpc_web_upgrade_of. }
    destruct Hspec as (events & reached & Hverdict & Hstats & [Hlog Hd2 _] & Hreached).
    cbn [mbind option_bind].
    match goal with |- context [finalize_downstream_response ?m ?h ?o ?i ?e ?n ?r ?g ?a ?v ?d] =>
      destruct (finalize_spec m h o i e n r g a v d Hdate) as (finalized & date & -> & Hgrpc & Hdressed) end.
    cbn [mbind option_bind]. rewrite Hgrpc. cbn [on_stats hd_stats hd_log] in Hstats, Hlog. rewrite record_request_run in Hstats.
    match goal with |- context [on_stats ?f ?s3] => set (s4 := on_stats f s3) end.
    destruct (settled_spec (record_downstream_response listener_id (vhost_id vhost) (route_id <$> route)
                (rsp_status (fz_response finalized)) (hi_end_secs io)) (fz_body_dropped finalized) (fd_guard forwarded) date s2)
      as (Hsettled & Hlog4 & Hside4). fold s4 in Hsettled, Hlog4, Hside4. rewrite Hlog in Hlog4.
    assert (hd_stats s4 = stats_run (incoming io listener_id (vhost_id vhost) (route_id <$> route) listener
               (is_some (cp_tls_client_identity connection)) grpc_request ++ events ++
               [DownstreamResponded listener_id (vhost_id vhost) (route_id <$> route)
                  (rsp_status (fz_response finalized)) (hi_end_secs io)]) (hd_stats s)) as Hstats4.
    { rewrite Hsettled, Hstats. unfold stats_run. by rewrite !foldl_app. }
    assert (reached = false → upstream_side s4 = upstream_side s) as Hside.
    { intros Hr. destruct (Hreached Hr) as [Hs Hguard]. by rewrite (Hside4 Hguard), Hs. }
    clearbody s4. destruct grpc_request as [metadata|] eqn:Hg; cbn [grpc_observability mbind option_bind].
    + split; [done|]. exists events, reached. split_and!; try done.
      intros polls. match goal with |- context [send_response ?a polls s4] =>
        destruct (send_response_spec a polls s4) as (statuses & logs & -> & -> & Hcall) end.
      cbn [an_call] in Hcall. destruct Hcall as [Hlen [status ->]]. destruct logs as [|event [|]]; try done.
      rewrite Hlog4. eexists _, _. split; [done|]. split; [done|]. by exists status.
    + split; [done|]. exists events, reached. split_and!; try done.
      intros polls. match goal with |- context [send_response ?a polls ?s5] =>
        destruct (send_response_spec a polls s5) as (statuses & logs & -> & -> & Hcall) end.
      cbn [an_call] in Hcall. destruct Hcall as [-> ->]. cbn [logged hd_log hd_stats]. rewrite Hlog4, app_nil_r.
      by eexists _, [].
Qed.
End HandlerSafety.

(** ** Concrete requests *)

#[local] Existing Instance NoCache.backend.
#[local] Existing Instance RefSha256.api.
#[local] Existing Instance RefHttpDate.api.
#[local] Existing Instance RefBase64.api.
#[local] Existing Instance RefUri.api.
#[local] Existing Instance RefRateJson.api.
#[local] Existing Instance RefHttp.api.
#[local] Existing Instance RefRegex.api.
#[local] Existing Instance RefIpNet.api.

Definition plain_route (id path : string) (action : RouteAction) (denied : list IpNet) (limit : option RouteRateLimit) : Route :=
  mkRoute id (MPrefix path) None action (mkRouteAccessControl [] denied) limit false BufferingAuto BufferingAuto
    CompressionAuto None [] None None.

(** [/api] goes to the upstream, one request at a time; [/private] is closed. *)
Definition sample_vhost : VirtualHost :=
  mkVirtualHost "server" []
    [plain_route "server/routes[0]" "/api" (Proxy app_target) [] (Some (mkRouteRateLimit 1 0));
     plain_route "server/routes[1]" "/private" (Return_ (mkReturnAction 200 EmptyString None)) [([0; 0; 0; 0], 0)] None] None.

Definition sample_server : Server :=
  mkServer (mkSocketAddr (V4 [0; 0; 0; 0]) 80) default_server_header None [] None true None None None None None None None None.
Definition sample_listener : Listener := mkListener "default" "default" sample_server false false None.
Definition sample_config : ConfigSnapshot :=
  mkSnapshot (mkRuntimeSettings 10000 None 1) None [] [sample_listener] sample_vhost [] ∅ {["app" := sample_upstream RoundRobin]}.

Definition sample_handler : HandlerState :=
  mkHandler sample_config ∅ {["token" := "secret"]} (LocalOnly (with_config 4 SHARD_CLEANUP_INTERVAL 0)) (build_stats sample_config)
    (sample_registry RoundRobin) {["app" := sample_upstream RoundRobin]} (tt : Cache (ForwardCacheBackend := NoCache.backend)) [] None [].

Definition sample_io : HandlerIo :=
  mkHandlerIo "018f" 0 0 1 (mkCheckAt 0 0 (mkRateEnv None no_faults no_faults 0)) failover_io None.
Definition sample_connection : ConnectionPeerAddrs :=
  mkConnectionPeer (mkSocketAddr (V4 [10; 0; 0; 9]) 5000) None None None None false.

Definition sample_get (path : string) (headers : @HeaderMap RefHttp.api) : DownstreamRequest :=
  mkRequest "GET" Http11 path None headers (mkDownstream [] [] (0, Some 0)).
Definition sample_handle (path : string) (headers : @HeaderMap RefHttp.api) : HandlerState → option (Answered * HandlerState) :=
  handle (λ _ _ _, true) (λ _, 5) (λ _, None) (λ _, "Thu, 01 Jan 1970 00:00:00 GMT") (λ _ _, None) sample_io
    (mkUri None None (Some path)) (sample_get path headers) sample_connection "default".

Definition status_and_log (r : option (Answered * HandlerState)) : option (Z * nat) :=
  (λ '(answered, s), (rsp_status (an_response answered), length (hd_log s))) <$> r.

(** The second request comes too soon; a closed route; a challenge; nothing there. *)
Example sample_statuses :
  (status_and_log (sample_handle "/api/file" [] sample_handler),
   status_and_log ('(_, s) ← sample_handle "/api/file" [] sample_handler; sample_handle "/api/file" [] s),
   map (λ path, status_and_log (sample_handle path [] sample_handler))
     ["/private/x"; "/.well-known/acme-challenge/token"; "/else"]%string) =
  (Some (200, 1%nat), Some (429, 2%nat), [Some (403, 1%nat); Some (200, 0%nat); Some (404, 1%nat)]).
Proof. vm_compute. reflexivity. Qed.

Lemma requests_are_answered_and_recorded_witness :
  ∃ request_id answered s' events,
    sample_handle "/api/file" [("x-request-id", " abc ")]%string sample_handler = Some (answered, s') ∧
    hv_to_str request_id = Some "abc"%string ∧
    dressed "GET" request_id default_server_header (an_response answered) ∧
    verdict second_answers "default" false (V4 [10; 0; 0; 9]) (grants (λ _, 5) sample_io sample_handler (V4 [10; 0; 0; 9]))
      (head (vhost_routes sample_vhost)) events true ∧
    ∀ polls, ∃ event, hd_log (send_response answered polls s') = [event].
Proof.
  destruct (requests_are_answered_and_recorded (Laws := RefHttp.laws) (λ _ _ _, true) (λ _, 5) (λ _, None)
    (λ _, "Thu, 01 Jan 1970 00:00:00 GMT"%string) (λ _ _, None) sample_io (mkUri None None (Some "/api/file"%string))
    (sample_get "/api/file" [("x-request-id", " abc ")]%string) sample_connection "default" sample_listener sample_handler)
    as (request_id & Hid & Hrest).
  - reflexivity.
  - split.
    + vm_compute. reflexivity.
    + vm_compute. reflexivity.
    + unfold limiters_in_order. cbn [sample_handler hd_limiters]. apply with_config_ok. lia.
    + exact no_slices.
  - assert (is_some (sample_handle "/api/file" [("x-request-id", " abc ")]%string sample_handler) = true) as Hsome
      by (vm_compute; reflexivity).
    revert Hrest Hsome. unfold sample_handle. destruct (handle _ _ _ _ _ _ _ _ _ _ _) as [[answered s']|]; [|done].
    intros [Hd Hrest] _. destruct Hrest as (events & reached & Hv & Hr & _ & _ & Hlog). exists request_id, answered, s', events.
    split; [reflexivity|]. split; [exact Hid|]. split; [exact Hd|]. split.
    + match type of Hv with verdict _ _ _ ?ip ?granted ?route _ _ =>
        assert (route = Some (plain_route "server/routes[0]" "/api" (Proxy app_target) [] (Some (mkRouteRateLimit 1 0)))) as Hroute
          by (vm_compute; reflexivity);
        assert (ip = V4 [10; 0; 0; 9]) as Hip by (vm_compute; reflexivity) end.
      rewrite Hroute, Hip in Hv.
      assert (reached = true) as -> by (eapply (proxied_reaches _ _ _ _ _ _ _ _ Hv); vm_compute; reflexivity). exact Hv.
    + intros polls. destruct (Hlog polls) as (event & statuses & H & _). by exists event.
Defined.
