(* ===== verification/SharedIndexSafety.v ===== *)
(** * Replication and leases of a shared index

    Steps of the store by any process, and what they keep: a replica that
    synchronises shows the document of that moment, however the steps of other
    processes fall between its questions; and a fill lock taken in the store is
    a lease. *)

From S2P Require Import Prelude RustStr External Body CacheConfig CacheTypes CacheRequest CachePolicy CacheStore CacheIndex CacheMaintenance CacheInvariant CacheSafety SharedMemory SharedIndex SharedJson SharedIndexView SharedIndexStore.

Section Replication.
Context {HTTP : HttpApi} {SHA : Sha256Api} {JSON : SerdeJson} {Laws : SerdeJsonLaws JSON}.
Context (st : MemorySharedIndexStore).

(** ** What the operations of the store do to the document *)

(** The document apart from its fill locks. *)
Definition same_index (d d' : SharedMemoryIndexDocument) : Prop :=
  d' = with_doc_locks (λ _, doc_stale_fill_lock_cleanup_total d') (λ _, doc_fill_locks d') d.

Lemma same_index_refl d : same_index d d.
Proof. by destruct d. Qed.

Lemma same_index_locks n f d : same_index d (with_doc_locks n f d).
Proof. done. Qed.

Lemma same_index_history base d d' history :
  same_index d d' → history_ok base d history → history_ok base d' history.
Proof.
  unfold same_index. intros -> [Hv Hs Hq Hr]. split; cbn; [done| |done|done]. by eapply doc_shows_ext; [..|exact Hs].
Qed.

Lemma holds_ext s s' d : sm_objects s' = sm_objects s → holds st s d → holds st s' d.
Proof. intros Ho (seg & H). exists seg. by rewrite Ho. Qed.

(** An operation that may write a document with other fill locks. *)
Definition fill_operation {A} (f : SharedObject → SharedMemoryIndexDocument → Shm A) : Prop :=
  ∀ segment d s,
    (∃ r, f segment d s = (r, s)) ∨
    (∃ n g k, f segment d s = shm_bind (write_back st segment (with_doc_locks n g d)) k s ∧
              ∀ s, ∃ r, k tt s = (r, s)).

Lemma fill_operation_holds {A} env f base d history s (r : io_result A) s' :
  fill_operation f → env_ok env → holds st s d → history_ok base d history →
  with_document_lock env st f s = (r, s') → ∃ d', holds st s' d' ∧ same_index d d'.
Proof.
  intros Hf He Hh Hhist Hrun.
  destruct (with_lock_holds env st s d f He Hh) as (seg & s1 & Ho & Ha & Hok & Hr & Hw).
  rewrite Hw in Hrun. assert (Hh1 : holds st s1 d) by by eapply holds_ext.
  destruct (Hf seg d s1) as [[r1 Hf1]|(n & g & k & Hf1 & Hk)]; rewrite Hf1 in Hrun.
  - injection Hrun as <- <-. exists d. split; [done|apply same_index_refl].
  - pose proof (same_index_history _ _ _ _ (same_index_locks n g d) Hhist) as Hd'.
    rewrite <-Ho in Ha. destruct (write_back_holds st s1 seg (with_doc_locks n g d) (replay base history) Ha Hok)
      as (w & s2 & Hwr & Hres); [apply Hd'|apply Hd'|].
    unfold shm_bind in Hrun. rewrite Hwr in Hrun. destruct w as [[]|e].
    + destruct (Hk s2) as [r2 Hk2]. rewrite Hk2 in Hrun. injection Hrun as _ <-. by eexists.
    + injection Hrun as _ <-. destruct Hres as [_ Hobj]. exists d. split; [by eapply holds_ext|apply same_index_refl].
Qed.

Lemma write_back_bind segment d s :
  write_back st segment d s = shm_bind (write_back st segment d) (λ _, shm_lift (Ok tt)) s.
Proof. unfold shm_bind. by destruct (write_back st segment d s) as [[[]|] ?]. Qed.

(** Batches. *)
Lemma apply_operations_holds env base d history ops s r s' :
  env_ok env → holds st s d → history_ok base d history → Forall op_wf ops → ops ≠ [] →
  apply_operations env st ops s = (r, s') →
  (∀ a, r = Ok a → ap_generation a < u64_max ∧ ap_last_change_seq a < u64_max) →
  match r with
  | Ok a => ∃ d', holds st s' d' ∧ history_ok base d' (history ++ ops) ∧
      doc_generation d' = doc_generation d + 1 ∧ doc_store_epoch d' = doc_store_epoch d ∧
      doc_fill_locks d' = doc_fill_locks d ∧
      a = mkApplied (doc_generation d') (doc_store_epoch d') (doc_last_change_seq d')
  | Err _ => holds st s' d
  end.
Proof.
  intros He Hh Hhist Hwf Hne Hrun Hmax. unfold apply_operations in Hrun.
  match type of Hrun with with_document_lock _ _ ?f _ = _ =>
    destruct (with_lock_holds env st s d f He Hh) as (seg & s1 & Ho & Ha & Hok & Hr & Hw) end.
  rewrite Hw in Hrun. destruct ops as [|op ops]; [done|].
  assert (Hh1 : holds st s1 d) by by eapply holds_ext.
  unfold shm_bind, shm_lift in Hrun.
  destruct (apply_batch _ (op :: ops) d) as [d'|] eqn:Hb; [|by injection Hrun as <- <-].
  destruct (apply_batch_shows _ _ _ _ _ (ho_shows _ _ _ Hhist) Hwf Hb) as [Hsh Hver].
  rewrite (ho_version _ _ _ Hhist) in Hver. rewrite <-Ho in Ha.
  destruct (write_back_holds st s1 seg d' _ Ha Hok Hver Hsh) as (w & s2 & Hwr & Hres). rewrite Hwr in Hrun.
  destruct w as [[]|e]; injection Hrun as <- <-.
  - destruct (Hmax _ eq_refl) as [Hg Hq]. cbn in Hg, Hq.
    destruct (apply_batch_history _ _ _ _ _ _ Hhist Hwf Hb Hq Hg) as (Hh' & Hg' & He' & Hf').
    by exists d'.
  - destruct Hres as [_ Hobj]. by eapply holds_ext.
Qed.

(** ** Steps *)

(** A step of any process: a batch, a fill lock operation, or a read.  The
    state carries the operations published since the store was created; the
    64-bit counters have not run out. *)
Inductive store_step : ShmState * list SharedIndexOperation → ShmState * list SharedIndexOperation → Prop :=
| step_apply env ops s history r s' :
    env_ok env → Forall op_wf ops → ops ≠ [] → apply_operations env st ops s = (r, s') →
    (∀ a, r = Ok a → ap_generation a < u64_max ∧ ap_last_change_seq a < u64_max) →
    store_step (s, history) (s', if is_ok r then history ++ ops else history)
| step_acquire env pid key now age nonce json s history r s' :
    env_ok env → try_acquire_fill_lock env st pid key now age nonce json s = (r, s') →
    store_step (s, history) (s', history)
| step_update env key nonce now json s history r s' :
    env_ok env → update_fill_lock env st key nonce now json s = (r, s') → store_step (s, history) (s', history)
| step_release env key nonce s history r s' :
    env_ok env → release_fill_lock env st key nonce s = (r, s') → store_step (s, history) (s', history)
| step_clear env key now age s history r s' :
    env_ok env → clear_stale_fill_lock env st key now age s = (r, s') → store_step (s, history) (s', history)
| step_load env s history r s' :
    env_ok env → load env st s = (r, s') → store_step (s, history) (s', history).

(** The store is in order: it holds a document with this history. *)
Definition store_at (base : View) (c : ShmState * list SharedIndexOperation)
    (d : SharedMemoryIndexDocument) : Prop :=
  holds st c.1 d ∧ history_ok base d c.2.

(** How documents move: forward, in one incarnation of the store. *)
Definition forward (d d' : SharedMemoryIndexDocument) (more : list SharedIndexOperation) : Prop :=
  doc_store_epoch d' = doc_store_epoch d ∧ doc_generation d ≤ doc_generation d' ∧
  (doc_generation d' = doc_generation d → more = []) ∧ doc_version d' = doc_version d.

Lemma store_step_forward base c c' d :
  store_step c c' → store_at base c d →
  ∃ d' more, store_at base c' d' ∧ c'.2 = c.2 ++ more ∧ forward d d' more.
Proof.
  assert (Hfill : ∀ {A} env (f : SharedObject → SharedMemoryIndexDocument → Shm A) s history r s',
    fill_operation f → env_ok env → with_document_lock env st f s = (r, s') → store_at base (s, history) d →
    ∃ d' more, store_at base (s', history) d' ∧ history = history ++ more ∧ forward d d' more).
  { intros A env f s history r s' Hf He Hrun [Hh Hhist].
    destruct (fill_operation_holds env f base d history s r s' Hf He Hh Hhist Hrun) as (d' & Hh' & Hsame).
    exists d', []. rewrite app_nil_r. split_and!; [split; [done|by eapply same_index_history]|done|].
    unfold same_index in Hsame. rewrite Hsame. by split_and!. }
  intros Hstep Hat. destruct Hstep as [env ops s history r s' He Hwf Hne Hrun Hmax|env pid key now age nonce json s history r s' He Hrun|
    env key nonce now json s history r s' He Hrun|env key nonce s history r s' He Hrun|
    env key now age s history r s' He Hrun|env s history r s' He Hrun].
  - destruct Hat as [Hh Hhist]. cbn in Hh, Hhist.
    pose proof (apply_operations_holds _ _ _ _ _ _ _ _ He Hh Hhist Hwf Hne Hrun Hmax) as Hres.
    destruct r as [a|e]; cbn [is_ok].
    + destruct Hres as (d' & Hh' & Hhist' & Hg & Hep & _ & _). exists d', ops. split_and!; [done|done|].
      split_and!; [done|lia|lia|]. by rewrite (ho_version _ _ _ Hhist), (ho_version _ _ _ Hhist').
    + exists d, []. rewrite app_nil_r. split_and!; [done|done|by split_and!].
  - eapply Hfill; [|exact He|exact Hrun|exact Hat]. intros seg d0 s0. cbn. case_match; [case_match|].
    + case_match; [left; by eexists|]. right. exists (λ n, sat_add64 n 1). do 2 eexists. split; [reflexivity|]. intros. by eexists.
    + right. eexists _, _, _. split; [reflexivity|]. intros. by eexists.
    + right. eexists _, _, _. split; [reflexivity|]. intros. by eexists.
  - eapply Hfill; [|exact He|exact Hrun|exact Hat]. intros seg d0 s0. cbn. repeat case_match; [left; by eexists| |left; by eexists].
    right. do 3 eexists. split; [apply write_back_bind|]. intros. by eexists.
  - eapply Hfill; [|exact He|exact Hrun|exact Hat]. intros seg d0 s0. cbn. repeat case_match; [left; by eexists| |left; by eexists].
    right. do 3 eexists. split; [apply write_back_bind|]. intros. by eexists.
  - eapply Hfill; [|exact He|exact Hrun|exact Hat]. intros seg d0 s0. cbn. repeat case_match; try (left; by eexists).
    + right. eexists _, _, _. split; [reflexivity|]. intros. by eexists.
    + right. eexists _, _, _. split; [reflexivity|]. intros. by eexists.
  - unfold load, shm_bind in Hrun.
    destruct (with_document_lock env st (λ _ document, shm_lift (loaded_index_from_document document)) s) as [r1 s1] eqn:Hw.
    destruct (Hfill _ env _ s history r1 s1 (λ seg d0 s0, or_introl (ex_intro _ _ eq_refl)) He Hw Hat) as (d' & more & Hat' & Hm & Hfw).
    exists d', more. split_and!; [|done|done]. destruct Hat' as [Hh' Hhist']. split; [|done].
    destruct r1; injection Hrun as <- <-; [by eapply holds_ext; [|exact Hh']|done].
Qed.

Lemma forward_refl d : forward d d [].
Proof. by split_and!. Qed.

Lemma store_steps_forward base c c' d :
  rtc store_step c c' → store_at base c d →
  ∃ d' more, store_at base c' d' ∧ c'.2 = c.2 ++ more ∧ forward d d' more.
Proof.
  intros Hsteps. revert d. induction Hsteps as [c|c1 c2 c3 H12 _ IH]; intros d Hat.
  - exists d, []. rewrite app_nil_r. split_and!; [done|done|apply forward_refl].
  - destruct (store_step_forward _ _ _ _ H12 Hat) as (d2 & more & Hat2 & Hm & Hf).
    destruct (IH _ Hat2) as (d3 & more' & Hat3 & Hm' & Hf'). exists d3, (more ++ more').
    split_and!; [done|by rewrite Hm', Hm, app_assoc|]. destruct Hf as (? & ? & Hf1 & ?), Hf' as (? & ? & Hf2 & ?).
    split_and!; [congruence|lia| |congruence]. intros Heq. rewrite Hf1, Hf2 by lia. done.
Qed.

Lemma holds_functional s d d' : holds st s d → holds st s d' → d = d'.
Proof. intros (seg & Ha & _ & Hr) (seg' & Ha' & _ & Hr'). rewrite Ha in Ha'. injection Ha' as <-. congruence. Qed.

(** ** Questions to the store *)

Lemma sync_state_holds env s d :
  env_ok env → holds st s d →
  (sync_state env st s).1 = Ok (mkSyncState (doc_generation d) (doc_store_epoch d)).
Proof.
  intros He Hh. unfold sync_state.
  match goal with |- context [with_document_lock _ _ ?f _] =>
    destruct (with_lock_holds env st s d f He Hh) as (seg & s1 & _ & _ & _ & _ & ->) end. done.
Qed.

Lemma load_changes_holds env s d after :
  env_ok env → holds st s d →
  (load_changes_since env st after s).1 =
    let? operations := operations_since d after in
    Ok (mkChanges (doc_generation d) (doc_store_epoch d) (doc_last_change_seq d) operations).
Proof.
  intros He Hh. unfold load_changes_since.
  match goal with |- context [with_document_lock _ _ ?f _] =>
    destruct (with_lock_holds env st s d f He Hh) as (seg & s1 & _ & _ & _ & _ & ->) end. done.
Qed.

Lemma load_holds env s d v :
  env_ok env → holds st s d → doc_shows d v →
  ∃ l, (load env st s).1 = Ok l ∧ view_of (ld_index l) = v ∧ ld_generation l = doc_generation d ∧
       ld_store_epoch l = doc_store_epoch d ∧ ld_last_change_seq l = doc_last_change_seq d.
Proof.
  intros He Hh Hs. destruct (loaded_shows _ _ Hs) as (l & Hl & Hv). unfold load, shm_bind.
  match goal with |- context [with_document_lock _ _ ?f _] =>
    destruct (with_lock_holds env st s d f He Hh) as (seg & s1 & _ & _ & _ & _ & ->) end.
  unfold shm_lift. rewrite Hl. by exists l.
Qed.

(** ** Replicas *)

(** The replica shows the document: its view and its cursors. *)
Definition current (base : View) (c : ShmState * list SharedIndexOperation) (r : Replica) : Prop :=
  ∃ d, store_at base c d ∧ rp_generation r = doc_generation d ∧ rp_store_epoch r = doc_store_epoch d ∧
       rp_change_seq r = doc_last_change_seq d ∧ view_of (zr_index (rp_zone r)) ≡ replay base c.2.

(** It showed an earlier document of this store, or one of another store. *)
Definition follows (base : View) (c : ShmState * list SharedIndexOperation) (r : Replica) : Prop :=
  (∃ c0, rtc store_step c0 c ∧ current base c0 r) ∨
  (∃ d, store_at base c d ∧ rp_store_epoch r ≠ doc_store_epoch d).

Lemma follows_later base c c' r : follows base c r → rtc store_step c c' → follows base c' r.
Proof.
  intros [(c0 & Hs & Hc)|(d & Hat & Hne)] Hsteps.
  - left. exists c0. split; [by etrans|done].
  - right. destruct (store_steps_forward _ _ _ _ Hsteps Hat) as (d' & more & Hat' & _ & Hf).
    exists d'. split; [done|]. by rewrite (proj1 Hf).
Qed.

(** A replica whose cursors say it is up to date is. *)
Lemma up_to_date_current base c d r :
  follows base c r → store_at base c d →
  up_to_date r (mkSyncState (doc_generation d) (doc_store_epoch d)) = true → current base c r.
Proof.
  intros [(c0 & Hs & d0 & Hat0 & Hg & He & Hq & Hv)|(d1 & Hat1 & Hne)] Hat Hup;
    unfold up_to_date in Hup; apply andb_true_iff in Hup as [Hep Hgen]; cbn in Hep, Hgen; apply Z.eqb_eq in Hep; apply Z.leb_le in Hgen.
  - destruct (store_steps_forward _ _ _ _ Hs Hat0) as (d' & more & Hat' & Hm & Hf).
    assert (d' = d) as -> by (eapply holds_functional; [apply Hat'|apply Hat]).
    destruct Hf as (Hfe & Hfg & Hfm & _). assert (more = []) as -> by (apply Hfm; lia). rewrite app_nil_r in Hm.
    exists d. split_and!; [done|lia|congruence| |by rewrite Hm].
    rewrite Hq, (ho_seq _ _ _ (proj2 Hat0)), (ho_seq _ _ _ (proj2 Hat)). by rewrite Hm.
  - exfalso. apply Hne. assert (d1 = d) as -> by (eapply holds_functional; [apply Hat1|apply Hat]). done.
Qed.

(** Replaying what comes after the cursor brings the replica up to date. *)
Lemma delta_current base c d r ops :
  follows base c r → store_at base c d → doc_store_epoch d = rp_store_epoch r → ops ≠ [] →
  (ops = [] ∨ ops = drop (Z.to_nat (rp_change_seq r)) c.2) →
  current base c (mkReplica (apply_shared_index_delta ops (rp_zone r)) (doc_generation d) (doc_store_epoch d)
                    (doc_last_change_seq d)).
Proof.
  intros Hf Hat Hep Hne [?| ->]; [done|].
  destruct Hf as [(c0 & Hs & d0 & Hat0 & Hg & He & Hq & Hv)|(d1 & Hat1 & Hne1)].
  - exists d. split_and!; [done..|]. cbn [rp_zone]. rewrite deltas_refine, Hv.
    destruct (store_steps_forward _ _ _ _ Hs Hat0) as (d' & more & _ & Hm & _).
    rewrite Hq, (ho_seq _ _ _ (proj2 Hat0)), Nat2Z.id, Hm, drop_app_length, replay_app. done.
  - exfalso. apply Hne1. assert (d1 = d) as -> by (eapply holds_functional; [apply Hat1|apply Hat]). done.
Qed.
(** What a replica does when it synchronises: it asks the store up to four times,
    at [c0], [c1], [c2] and [c3]. *)
Definition synchronised (env0 env1 env2 env3 : Env) (c0 c1 c2 c3 : ShmState * list SharedIndexOperation)
    (r : Replica) : Replica :=
  sync_zone_shared_index_if_needed (sync_state env0 st c0.1).1 (sync_state env1 st c1.1).1
    (λ after, (load_changes_since env2 st after c2.1).1) (load env3 st c3.1).1 r.

Lemma synchronised_current base c0 c1 c2 c3 d0 env0 env1 env2 env3 r :
  env_ok env0 → env_ok env1 → env_ok env2 → env_ok env3 → store_at base c0 d0 →
  rtc store_step c0 c1 → rtc store_step c1 c2 → rtc store_step c2 c3 → follows base c0 r →
  ∃ c, rtc store_step c0 c ∧ rtc store_step c c3 ∧ current base c (synchronised env0 env1 env2 env3 c0 c1 c2 c3 r).
Proof.
  intros He0 He1 He2 He3 Hat0 H01 H12 H23 Hf.
  destruct (store_steps_forward _ _ _ _ H01 Hat0) as (d1 & m1 & Hat1 & _ & Hfw1).
  destruct (store_steps_forward _ _ _ _ H12 Hat1) as (d2 & m2 & Hat2 & _ & Hfw2).
  destruct (store_steps_forward _ _ _ _ H23 Hat2) as (d3 & m3 & Hat3 & _ & Hfw3).
  destruct (load_holds env3 c3.1 d3 (replay base c3.2) He3 (proj1 Hat3) (ho_shows _ _ _ (proj2 Hat3)))
    as (l & Hl & Hlv & Hlg & Hle & Hlq).
  assert (Hreload : current base c3 (reload_zone_shared_index (load env3 st c3.1).1 r)).
  { rewrite Hl. exists d3. cbn. by rewrite Hlv. }
  assert (H03 : rtc store_step c0 c3) by (etrans; [exact H01|]; etrans; [exact H12|exact H23]).
  assert (Hdone : ∃ c, rtc store_step c0 c ∧ rtc store_step c c3 ∧
    current base c (reload_zone_shared_index (load env3 st c3.1).1 r)).
  { exists c3. split_and!; [exact H03|done|done]. }
  unfold synchronised, sync_zone_shared_index_if_needed.
  rewrite (sync_state_holds _ _ _ He0 (proj1 Hat0)), (sync_state_holds _ _ _ He1 (proj1 Hat1)).
  destruct (up_to_date r (mkSyncState (doc_generation d0) _)) eqn:Hup0.
  { exists c0. split_and!; [done|exact H03|]. by eapply up_to_date_current. }
  pose proof (follows_later _ _ _ _ Hf H01) as Hf1. pose proof (follows_later _ _ _ _ Hf1 H12) as Hf2.
  destruct (up_to_date r (mkSyncState (doc_generation d1) _)) eqn:Hup1.
  { exists c1. split_and!; [done|by transitivity c2|]. by eapply up_to_date_current. }
  destruct (negb _) eqn:Hep; [done|]. apply negb_false_iff, Z.eqb_eq in Hep. cbn in Hep.
  rewrite (load_changes_holds _ _ _ _ He2 (proj1 Hat2)).
  assert (Hcur : 0 ≤ rp_change_seq r).
  { destruct Hf2 as [(c & _ & d & Hat & _ & _ & -> & _)|(d & Hat & Hne)].
    - rewrite (ho_seq _ _ _ (proj2 Hat)). lia.
    - exfalso. apply Hne. assert (d = d2) as -> by (eapply holds_functional; [apply Hat|apply Hat2]).
      by rewrite (proj1 Hfw2). }
  destruct (operations_since_spec base d2 c2.2 (rp_change_seq r) (proj2 Hat2) Hcur) as (ops & -> & Hops).
  cbn [rbind lc_store_epoch lc_generation lc_last_change_seq lc_operations].
  destruct (_ && negb _) eqn:Hcond; [|done]. apply andb_true_iff in Hcond as [Hcond Hnil].
  apply andb_true_iff in Hcond as [Hcond _]. apply andb_true_iff in Hcond as [Hep2 _]. apply Z.eqb_eq in Hep2.
  exists c2. split_and!; [by transitivity c1|done|]. apply delta_current; [done|done|done| |done]. by destruct ops.
Qed.

(** ** The life of a replica *)

(** What the replica's own process and the others do.  It starts with what the
    store holds, or with a store that was created anew; it synchronises; and it
    changes its index and publishes what it did, as long as the store is where
    the replica last saw it and the store takes it. *)
Inductive replica_life (base : View) : (ShmState * list SharedIndexOperation) * Replica → Prop :=
| life_starts env c d r :
    env_ok env → store_at base c d → replica_life base (c, reload_zone_shared_index (load env st c.1).1 r)
| life_recreated c d r : store_at base c d → rp_store_epoch r ≠ doc_store_epoch d → replica_life base (c, r)
| life_others c c' r : replica_life base (c, r) → store_step c c' → replica_life base (c', r)
| life_synchronises env0 env1 env2 env3 c0 c1 c2 c3 r :
    replica_life base (c0, r) → env_ok env0 → env_ok env1 → env_ok env2 → env_ok env3 →
    rtc store_step c0 c1 → rtc store_step c1 c2 → rtc store_step c2 c3 →
    replica_life base (c3, synchronised env0 env1 env2 env3 c0 c1 c2 c3 r)
| life_publishes env c d r zone ops a s' :
    replica_life base (c, r) → env_ok env → store_at base c d →
    rp_generation r = doc_generation d → rp_store_epoch r = doc_store_epoch d →
    view_of (zr_index zone) ≡ replay (view_of (zr_index (rp_zone r))) ops →
    Forall op_wf ops → ops ≠ [] → apply_operations env st ops c.1 = (Ok a, s') →
    ap_generation a < u64_max → ap_last_change_seq a < u64_max →
    replica_life base ((s', c.2 ++ ops), apply_zone_shared_index_operations_locked ops (Ok a)
      (mkReplica zone (rp_generation r) (rp_store_epoch r) (rp_change_seq r))).

Lemma life_follows base x : replica_life base x → follows base x.1 x.2 ∧ ∃ d, store_at base x.1 d.
Proof.
  induction 1 as [env c d r He Hat|c d r Hat Hne|c c' r _ [IH (d & Hat)] Hstep|
    env0 env1 env2 env3 c0 c1 c2 c3 r _ [IH (d & Hat)] He0 He1 He2 He3 H01 H12 H23|
    env c d r zone ops a s' _ [IH _] He Hat Hg Hep Hview Hwf Hne Hrun Hmg Hmq]; cbn [fst snd] in *.
  - split; [|by exists d]. left. exists c. split; [done|].
    destruct (load_holds env c.1 d (replay base c.2) He (proj1 Hat) (ho_shows _ _ _ (proj2 Hat))) as (l & Hl & Hlv & Hlg & Hle & Hlq).
    rewrite Hl. exists d. cbn. by rewrite Hlv.
  - split; [|by exists d]. right. by exists d.
  - split; [eapply follows_later; [done|by apply rtc_once]|].
    destruct (store_step_forward _ _ _ _ Hstep Hat) as (d' & more & Hat' & _). by exists d'.
  - destruct (synchronised_current base c0 c1 c2 c3 d env0 env1 env2 env3 r He0 He1 He2 He3 Hat H01 H12 H23 IH) as (c & _ & Hc & Hcur).
    split; [left; by exists c|].
    destruct (store_steps_forward base c0 c3 d) as (d' & more & Hat' & _); [|done|by exists d'].
    etrans; [exact H01|]. by etrans.
  - assert (up_to_date r (mkSyncState (doc_generation d) (doc_store_epoch d)) = true) as Hup.
    { unfold up_to_date. cbn. by rewrite Hg, Hep, Z.eqb_refl, Z.leb_refl. }
    destruct (up_to_date_current _ _ _ _ IH Hat Hup) as (d0 & Hat0 & _ & _ & _ & Hv).
    pose proof (apply_operations_holds env base d c.2 ops c.1 (Ok a) s' He (proj1 Hat) (proj2 Hat) Hwf Hne Hrun) as Hres.
    destruct Hres as (d' & Hh' & Hhist' & _ & _ & _ & ->); [by intros ? [= <-]|].
    split; [|by exists d']. left. exists (s', c.2 ++ ops). split; [done|]. exists d'.
    destruct ops as [|op ops]; [done|]. split_and!; [done..|]. cbn [rp_zone apply_zone_shared_index_operations_locked snd].
    by rewrite Hview, Hv, replay_app.
Qed.
End Replication.



(** ** A store in memory *)

#[local] Existing Instance RefHttp.api.
#[local] Existing Instance RefSha256.api.
#[local] Existing Instance RefJson.api.
#[local] Existing Instance RefJson.laws.

Definition sample_store : MemorySharedIndexStore := mkStore (for_identity "zone:/var/cache" 1000) 4096.
Definition sample_env : Env := mkEnv no_faults LockFree 7.
Definition no_memory : ShmState := mkShmState ∅ 0 0 0.
Definition created : ShmState := (sync_state sample_env sample_store no_memory).2.
Definition sample_operations : list SharedIndexOperation :=
  [UpsertEntry "/x" sample_entry; RemoveAdmissionCount "/x"].
Definition published : ShmState := (apply_operations sample_env sample_store sample_operations created).2.
Definition nothing : View := mkView ∅ ∅ [].
Definition fresh_replica : Replica := mkReplica (initial_zone sample_zone_config) 0 7 0.

Lemma history_empty {HTTP : HttpApi} {JSON : SerdeJson} epoch : history_ok nothing (empty_document epoch) [].
Proof.
  split; [done| |done|].
  - split; [|done|done]. intros k. unfold empty_document, nothing, replay.
    cbn [foldl doc_entries vw_entries]. rewrite !lookup_empty. constructor.
  - exists [], []. split; [done|constructor].
Qed.

Lemma created_store : store_at sample_store nothing (created, []) (empty_document 7).
Proof.
  split; [|apply history_empty]. unfold holds.
  exists (default empty_object (sm_objects created !! cfg_name (st_segment_config sample_store))).
  split_and!; [by vm_compute| |by vm_compute]. split; [|by vm_compute]. vm_compute. split; discriminate.
Qed.

Lemma publish_step {HTTP : HttpApi} {SHA : Sha256Api} {JSON : SerdeJson} st env ops s history s' ap history' :
  env_ok env → Forall op_wf ops → ops ≠ [] → apply_operations env st ops s = (Ok ap, s') →
  ap_generation ap < u64_max → ap_last_change_seq ap < u64_max → history' = history ++ ops →
  store_step st (s, history) (s', history').
Proof. intros ? ? ? Hrun ? ? ->. eapply (step_apply _ env _ _ _ (Ok ap)); [done..|]. by intros a [= <-]. Qed.

Lemma sample_run : apply_operations sample_env sample_store sample_operations created = (Ok (mkApplied 1 7 2), published).
Proof. vm_compute. reflexivity. Qed.

Lemma sample_step : store_step sample_store (created, []) (published, sample_operations).
Proof.
  apply (publish_step sample_store sample_env sample_operations created [] published (mkApplied 1 7 2)).
  - by split; [|left].
  - repeat constructor.
  - discriminate.
  - exact sample_run.
  - reflexivity.
  - reflexivity.
  - reflexivity.
Qed.

Lemma sample_env_ok : env_ok sample_env.
Proof. split; [done|by left]. Qed.

(** A replica that started with the empty store, before the others published. *)
Lemma sample_life : replica_life sample_store nothing ((published, sample_operations),
  reload_zone_shared_index (load sample_env sample_store created).1 fresh_replica).
Proof.
  eapply life_others; [|exact sample_step].
  exact (life_starts sample_store nothing sample_env _ _ fresh_replica sample_env_ok created_store).
Qed.


(** Publishing moves the cursors of the publisher past what others published in
    the meantime: that is neither replayed nor reloaded afterwards. *)
Definition skipping_publisher : Replica :=
  apply_zone_shared_index_operations_locked [SetAdmissionCount "/y" 1]
    (apply_operations sample_env sample_store [SetAdmissionCount "/y" 1] published).1 fresh_replica.

Example publisher_skips_concurrent_change :
  let shared := (apply_operations sample_env sample_store [SetAdmissionCount "/y" 1] published).2 in
  match (sync_state sample_env sample_store shared).1, (load sample_env sample_store shared).1 with
  | Ok state, Ok loaded =>
      up_to_date skipping_publisher state = true ∧
      is_some (idx_entries (ld_index loaded) !! "/x"%string) = true ∧
      is_some (idx_entries (zr_index (rp_zone skipping_publisher)) !! "/x"%string) = false
  | _, _ => False
  end.
Proof. by vm_compute. Qed.
