(* ===== verification/SharedFillLease.v ===== *)
(** * Fill locks of a shared index

    A fill lock taken in the store is a lease: for [lock_age] after it was taken
    it is its owner's, whatever the other processes try, and it is free again
    when the owner lets go. *)

From S2P Require Import Prelude RustStr External Body CacheConfig CacheTypes CacheRequest CachePolicy CacheStore CacheIndex CacheMaintenance CacheInvariant CacheSafety SharedMemory SharedIndex SharedJson SharedIndexView SharedIndexStore SharedIndexSafety.

Section Lease.
Context {HTTP : HttpApi} {SHA : Sha256Api} {JSON : SerdeJson} {Laws : SerdeJsonLaws JSON}.
Context (st : MemorySharedIndexStore).

(** The store holds a document in order. *)
Definition stored (s : ShmState) (d : SharedMemoryIndexDocument) : Prop :=
  ∃ base history, store_at st base (s, history) d.

Lemma stored_locks s d n g : stored s d → ∀ s', holds st s' (with_doc_locks n g d) → stored s' (with_doc_locks n g d).
Proof. intros (base & h & _ & Hh) s' Hs. exists base, h. split; [done|]. by eapply same_index_history. Qed.

(** An operation of the store runs on the document; writing other locks back
    takes effect or fails without one. *)
Lemma stored_run {A} env (f : SharedObject → SharedMemoryIndexDocument → Shm A) s d :
  env_ok env → stored s d →
  ∃ segment s1, sm_objects s1 = sm_objects s ∧ stored s1 d ∧
    with_document_lock env st f s = f segment d s1 ∧
    ∀ n g, ∃ w s2, write_back st segment (with_doc_locks n g d) s1 = (w, s2) ∧
      match w with Ok _ => stored s2 (with_doc_locks n g d) | Err _ => stored s2 d end.
Proof.
  intros He Hst. pose proof Hst as (base & h & Hh & Hhist).
  destruct (with_lock_holds env st s d f He Hh) as (seg & s1 & Ho & Ha & Hok & Hr & Hw).
  exists seg, s1. split_and!; [done| |done|].
  - exists base, h. split; [by eapply holds_ext|done].
  - intros n g. pose proof (same_index_history _ _ _ _ (same_index_locks n g d) Hhist) as Hd. rewrite <-Ho in Ha.
    destruct (write_back_holds st s1 seg (with_doc_locks n g d) _ Ha Hok (ho_version _ _ _ Hd) (ho_shows _ _ _ Hd))
      as (w & s2 & Hwr & Hres). exists w, s2. split; [done|]. destruct w.
    + by eapply stored_locks.
    + exists base, h. destruct Hres as [_ Hobj]. split; [|done]. exact (holds_ext st s s2 d (eq_trans Hobj Ho) Hh).
Qed.

(** ** The owner of a lock *)

(** [key] is held by [nonce], which last renewed it at [since] or later. *)
Definition owned (key nonce : string) (since : Z) (s : ShmState) : Prop :=
  ∃ d record, stored s d ∧ doc_fill_locks d !! key = Some record ∧ flr_nonce record = nonce ∧
    flr_released record = false ∧ since ≤ flr_updated_at_unix_ms record.

(** What other processes, and the owner, do in the meantime: attempts of others
    come within their lock age of [since], and nobody but the owner knows its
    nonce. *)
Inductive lease_step (key nonce : string) (since : Z) : ShmState → ShmState → Prop :=
| lease_apply env ops s r s' :
    env_ok env → Forall op_wf ops → ops ≠ [] → apply_operations env st ops s = (r, s') →
    (∀ a, r = Ok a → ap_generation a < u64_max ∧ ap_last_change_seq a < u64_max) →
    lease_step key nonce since s s'
| lease_acquire env pid k now age other json s r s' :
    env_ok env → (k = key → sat_sub now since ≤ age) →
    try_acquire_fill_lock env st pid k now age other json s = (r, s') → lease_step key nonce since s s'
| lease_renew env now json s r s' :
    env_ok env → since ≤ now → update_fill_lock env st key nonce now json s = (r, s') →
    lease_step key nonce since s s'
| lease_update env k other now json s r s' :
    env_ok env → k ≠ key ∨ other ≠ nonce → update_fill_lock env st k other now json s = (r, s') →
    lease_step key nonce since s s'
| lease_release env k other s r s' :
    env_ok env → k ≠ key ∨ other ≠ nonce → release_fill_lock env st k other s = (r, s') →
    lease_step key nonce since s s'
| lease_clear env k now age s r s' :
    env_ok env → (k = key → sat_sub now since ≤ age) →
    clear_stale_fill_lock env st k now age s = (r, s') → lease_step key nonce since s s'.

Lemma fresh_within since record now age :
  since ≤ flr_updated_at_unix_ms record → sat_sub now since ≤ age →
  (sat_sub now (flr_updated_at_unix_ms record) <=? age) = true.
Proof. unfold sat_sub. intros. apply Z.leb_le. lia. Qed.

(** Writing locks that agree on [key] keeps its owner. *)
Lemma owned_written key nonce since d record n g s1 s' (w : io_result unit) :
  doc_fill_locks d !! key = Some record → flr_nonce record = nonce → flr_released record = false →
  since ≤ flr_updated_at_unix_ms record →
  (∃ record', g (doc_fill_locks d) !! key = Some record' ∧ flr_nonce record' = nonce ∧
     flr_released record' = false ∧ since ≤ flr_updated_at_unix_ms record') →
  match w with Ok _ => stored s' (with_doc_locks n g d) | Err _ => stored s' d end →
  stored s1 d → owned key nonce since s'.
Proof.
  intros Hk Hn Hr Hu (record' & Hk' & Hn' & Hr' & Hu') Hw _. destruct w.
  - by exists (with_doc_locks n g d), record'.
  - by exists d, record.
Qed.

Lemma update_owned env key nonce since k other now json s r s' :
  env_ok env → (k = key → other = nonce → since ≤ now) → update_fill_lock env st k other now json s = (r, s') →
  owned key nonce since s → owned key nonce since s'.
Proof.
  intros He Hnow Hrun (d & record & Hst & Hk & Hn & Hr & Hu). unfold update_fill_lock in Hrun.
  match type of Hrun with with_document_lock _ _ ?f _ = _ =>
    destruct (stored_run env f s d He Hst) as (seg & s1 & Ho & Hst1 & Hw & Hwrite) end.
  rewrite Hw in Hrun. cbn in Hrun. clear Hw.
  assert (Hsame : owned key nonce since s1) by (by exists d, record).
  destruct (doc_fill_locks d !! k) as [rec|] eqn:Hkk; [|by injection Hrun as <- <-].
  destruct (negb _) eqn:Hnonce; [by injection Hrun as <- <-|]. apply negb_false_iff, str_eqb_true in Hnonce.
  destruct (Hwrite id <[k := update_record now json rec]>) as (w & s2 & Hwr & Hres). rewrite Hwr in Hrun.
  injection Hrun as <- <-. eapply owned_written; [exact Hk|done|done|done| |exact Hres|exact Hst1].
  destruct (decide (k = key)) as [->|Hne].
  - rewrite Hk in Hkk. injection Hkk as <-. eexists. rewrite lookup_insert_eq. split_and!; [done|done|done|].
    cbn. apply Hnow; congruence.
  - exists record. by rewrite lookup_insert_ne.
Qed.

Lemma acquire_owned env key nonce since pid k now age other json s r s' :
  env_ok env → (k = key → sat_sub now since ≤ age) →
  try_acquire_fill_lock env st pid k now age other json s = (r, s') →
  owned key nonce since s → owned key nonce since s' ∧ (k = key → r = Ok FillBusy).
Proof.
  intros He Hage Hrun (d & record & Hst & Hk & Hn & Hr & Hu). unfold try_acquire_fill_lock in Hrun.
  match type of Hrun with with_document_lock _ _ ?f _ = _ =>
    destruct (stored_run env f s d He Hst) as (seg & s1 & Ho & Hst1 & Hw & Hwrite) end.
  rewrite Hw in Hrun. cbn in Hrun. clear Hw.
  destruct (decide (k = key)) as [->|Hne].
  { rewrite Hk, Hr in Hrun. cbn [negb] in Hrun. rewrite (fresh_within _ _ _ _ Hu (Hage eq_refl)) in Hrun.
    injection Hrun as <- <-. split; [by exists d, record|done]. }
  split; [|done].
  assert (Hacq : ∀ n g r0, shm_bind (write_back st seg (with_doc_locks n g d)) (λ _, shm_lift r0) s1 = (r, s') →
    g (doc_fill_locks d) !! key = doc_fill_locks d !! key → owned key nonce since s').
  { intros n g r0 Hb Hg. destruct (Hwrite n g) as (w & s2 & Hwr & Hres). unfold shm_bind in Hb. rewrite Hwr in Hb.
    eapply owned_written; [exact Hk|done|done|done|exists record; by rewrite Hg| |exact Hst1].
    assert (s' = s2) as -> by (by destruct w; injection Hb as _ <-). exact Hres. }
  assert (Hins : ∀ rec : SharedMemoryFillLockRecord,
    <[k := rec]> (delete k (doc_fill_locks d)) !! key = doc_fill_locks d !! key).
  { intros rec. by rewrite lookup_insert_ne, lookup_delete_ne. }
  destruct (doc_fill_locks d !! k) as [rec|]; [destruct (negb _); [destruct (_ <=? age)|]|].
  - injection Hrun as <- <-. by exists d, record.
  - by apply (Hacq (λ n, sat_add64 n 1) _ _ Hrun).
  - by apply (Hacq id _ _ Hrun).
  - by apply (Hacq id _ _ Hrun).
Qed.

Lemma release_owned env key nonce since k other s r s' :
  env_ok env → k ≠ key ∨ other ≠ nonce → release_fill_lock env st k other s = (r, s') →
  owned key nonce since s → owned key nonce since s'.
Proof.
  intros He Hne Hrun (d & record & Hst & Hk & Hn & Hr & Hu). unfold release_fill_lock in Hrun.
  match type of Hrun with with_document_lock _ _ ?f _ = _ =>
    destruct (stored_run env f s d He Hst) as (seg & s1 & Ho & Hst1 & Hw & Hwrite) end.
  rewrite Hw in Hrun. cbn in Hrun. clear Hw.
  assert (Hsame : owned key nonce since s1) by (by exists d, record).
  destruct (doc_fill_locks d !! k) as [rec|] eqn:Hkk; [|by injection Hrun as <- <-].
  destruct (negb _) eqn:Hnonce; [by injection Hrun as <- <-|]. apply negb_false_iff, str_eqb_true in Hnonce.
  destruct (Hwrite id <[k := release_record rec]>) as (w & s2 & Hwr & Hres). rewrite Hwr in Hrun.
  injection Hrun as <- <-. eapply owned_written; [exact Hk|done|done|done| |exact Hres|exact Hst1].
  destruct (decide (k = key)) as [->|Hk'].
  - rewrite Hk in Hkk. injection Hkk as <-. destruct Hne; congruence.
  - exists record. by rewrite lookup_insert_ne.
Qed.

Lemma clear_owned env key nonce since k now age s r s' :
  env_ok env → (k = key → sat_sub now since ≤ age) → clear_stale_fill_lock env st k now age s = (r, s') →
  owned key nonce since s → owned key nonce since s'.
Proof.
  intros He Hage Hrun (d & record & Hst & Hk & Hn & Hr & Hu). unfold clear_stale_fill_lock in Hrun.
  match type of Hrun with with_document_lock _ _ ?f _ = _ =>
    destruct (stored_run env f s d He Hst) as (seg & s1 & Ho & Hst1 & Hw & Hwrite) end.
  rewrite Hw in Hrun. cbn in Hrun. clear Hw.
  assert (Hsame : owned key nonce since s1) by (by exists d, record).
  destruct (decide (k = key)) as [->|Hne].
  { rewrite Hk, Hr, (fresh_within _ _ _ _ Hu (Hage eq_refl)) in Hrun. by injection Hrun as <- <-. }
  assert (Hdel : ∀ n r0, shm_bind (write_back st seg (with_doc_locks n (delete k) d)) (λ _, shm_lift r0) s1 = (r, s') →
    owned key nonce since s').
  { intros n r0 Hb. destruct (Hwrite n (delete k)) as (w & s2 & Hwr & Hres). unfold shm_bind in Hb. rewrite Hwr in Hb.
    eapply owned_written; [exact Hk|done|done|done|exists record; by rewrite lookup_delete_ne| |exact Hst1].
    assert (s' = s2) as -> by (by destruct w; injection Hb as _ <-). exact Hres. }
  destruct (doc_fill_locks d !! k) as [rec|]; [|by injection Hrun as <- <-].
  destruct (flr_released rec); [by apply (Hdel id _ Hrun)|].
  destruct (_ <=? age); [by injection Hrun as <- <-|by apply (Hdel _ _ Hrun)].
Qed.

Lemma lease_step_owned key nonce since s s' :
  lease_step key nonce since s s' → owned key nonce since s → owned key nonce since s'.
Proof.
  intros Hstep Hown. destruct Hstep as [env ops s r s' He Hwf Hne Hrun Hmax|env pid k now age other json s r s' He Hage Hrun|
    env now json s r s' He Hnow Hrun|env k other now json s r s' He Hne Hrun|env k other s r s' He Hne Hrun|
    env k now age s r s' He Hage Hrun].
  - destruct Hown as (d & record & (base & h & Hh & Hhist) & Hk & Hrest).
    pose proof (apply_operations_holds st env base d h ops s r s' He Hh Hhist Hwf Hne Hrun Hmax) as Hres.
    destruct r as [a|e].
    + destruct Hres as (d' & Hh' & Hhist' & _ & _ & Hlocks & _). exists d', record. rewrite Hlocks.
      split_and!; [by exists base, (h ++ ops)|done|apply Hrest..].
    + exists d, record. split_and!; [by exists base, h|done|apply Hrest..].
  - by eapply acquire_owned.
  - eapply update_owned; [exact He| |exact Hrun|done]. done.
  - eapply update_owned; [exact He| |exact Hrun|done]. intros -> ->. by destruct Hne.
  - by eapply release_owned.
  - by eapply clear_owned.
Qed.

(** What acquiring writes. *)
Lemma acquire_gives env pid key now age nonce json s s' d :
  env_ok env → stored s d → try_acquire_fill_lock env st pid key now age nonce json s = (Ok FillAcquired, s') →
  owned key nonce now s'.
Proof.
  intros He Hst Hrun. unfold try_acquire_fill_lock in Hrun.
  match type of Hrun with with_document_lock _ _ ?f _ = _ =>
    destruct (stored_run env f s d He Hst) as (seg & s1 & Ho & Hst1 & Hw & Hwrite) end.
  rewrite Hw in Hrun. cbn in Hrun. clear Hw.
  assert (Hacq : ∀ n m rec, flr_nonce rec = nonce → flr_released rec = false → flr_updated_at_unix_ms rec = now →
    shm_bind (write_back st seg (with_doc_locks n (λ l, <[key := rec]> (m l)) d)) (λ _, shm_lift (Ok FillAcquired)) s1 =
      (Ok FillAcquired, s') → owned key nonce now s').
  { intros n m rec H1 H2 H3 Hb. destruct (Hwrite n (λ l, <[key := rec]> (m l))) as (w & s2 & Hwr & Hres).
    unfold shm_bind in Hb. rewrite Hwr in Hb. destruct w as [[]|e]; [|done]. injection Hb as <-.
    exists (with_doc_locks n (λ l, <[key := rec]> (m l)) d), rec. split_and!; [done|apply lookup_insert_eq|done|done|lia]. }
  pose (taken := mkFillRecord (cache_key_hash key) pid (doc_generation d) nonce now now false json).
  destruct (doc_fill_locks d !! key) as [rec|]; [destruct (negb _); [destruct (_ <=? age); [done|]|]|].
  - by apply (Hacq (λ n, sat_add64 n 1) (delete key) taken eq_refl eq_refl eq_refl Hrun).
  - by apply (Hacq id (delete key) taken eq_refl eq_refl eq_refl Hrun).
  - by apply (Hacq id (delete key) taken eq_refl eq_refl eq_refl Hrun).
Qed.

(** Letting go frees the lock. *)
Lemma released_is_free env env' pid key nonce since now age other json s s' :
  env_ok env → env_ok env' → owned key nonce since s → release_fill_lock env st key nonce s = (Ok tt, s') →
  (try_acquire_fill_lock env' st pid key now age other json s').1 ≠ Ok FillBusy.
Proof.
  intros He He' (d & record & Hst & Hk & Hn & Hr & Hu) Hrun. unfold release_fill_lock in Hrun.
  match type of Hrun with with_document_lock _ _ ?f _ = _ =>
    destruct (stored_run env f s d He Hst) as (seg & s1 & Ho & Hst1 & Hw & Hwrite) end.
  rewrite Hw in Hrun. cbn in Hrun. clear Hw. rewrite Hk, Hn, str_eqb_refl in Hrun. cbn [negb] in Hrun.
  destruct (Hwrite id <[key := release_record record]>) as (w & s2 & Hwr & Hres). rewrite Hwr in Hrun.
  injection Hrun as -> ->. cbn in Hres. unfold try_acquire_fill_lock.
  match goal with |- context [with_document_lock _ _ ?f _] =>
    destruct (stored_run env' f s' _ He' Hres) as (seg' & s3 & _ & _ & -> & Hwrite') end.
  cbn. rewrite lookup_insert_eq. cbn. unfold shm_bind. match goal with |- context [let (_, _) := ?w in _] => destruct w as [[] s4] end; discriminate.
Qed.
End Lease.


(** ** A concrete lease *)

#[local] Existing Instance RefHttp.api.
#[local] Existing Instance RefSha256.api.
#[local] Existing Instance RefJson.api.
#[local] Existing Instance RefJson.laws.

Definition leased : ShmState := (try_acquire_fill_lock sample_env sample_store 1 "/x" 100 5000 "n1" [] created).2.

Lemma leased_run :
  try_acquire_fill_lock sample_env sample_store 1 "/x" 100 5000 "n1" [] created = (Ok FillAcquired, leased).
Proof. vm_compute. reflexivity. Qed.

