(* ===== verification/CacheFillShared.v ===== *)
(** * What other processes see of a fill

    Models [crates/rginx-http/src/cache/fill/shared.rs], [fill/persistence.rs] and
    the shared part of [runtime/fill_lock.rs]: the state of a fill as it is
    published to the other processes of the zone, in shared memory or in a
    state file beside a lock file, how they load it, and how they wait for the
    lock.  A file of the zone's directory is its bytes and the time it was last
    written; a file-system call that can fail takes its fault from the
    environment. *)

From S2P Require Import Prelude RustStr External Body CacheConfig CacheTypes CacheRequest CachePolicy CacheStore CacheIndex SharedMemory SharedIndex CacheLookup.

(** Source: crates/rginx-http/src/cache/fill/shared.rs:69-72 (SharedFillHeader) *)
Record SharedFillHeader : Type := mkFillHeader { sfh_name : string; sfh_value : bytes }.

(** Source: crates/rginx-http/src/cache/fill/shared.rs:61-66 (SharedFillResponseMetadata) *)
Record SharedFillResponseMetadata : Type := mkFillResponse {
  sfm_status : Z;
  sfm_headers : list SharedFillHeader;
  sfm_body_tmp_path : string;
  sfm_body_path : string;
}.

(** Source: crates/rginx-http/src/cache/fill/shared.rs:49-58 (SharedFillStateRecord) *)
Record SharedFillStateRecord : Type := mkFillState {
  sfs_nonce : string;
  sfs_share_fingerprint : string;
  sfs_response : option SharedFillResponseMetadata;
  sfs_upstream_completed : bool;
  sfs_finished : bool;
  sfs_trailers : option (list SharedFillHeader);
  sfs_error : option string;
}.

(** Source: crates/rginx-http/src/cache/fill/shared.rs:43-46 (SharedFillLockRecord) *)
Record SharedFillLockRecord : Type := mkLockRecord {
  slr_nonce : string;
  slr_updated_at_unix_ms : Z;
}.

(** [serde_json] for the two records. *)
Class FillJson : Type := {
  state_to_vec : SharedFillStateRecord → option bytes;
  state_from_slice : bytes → option SharedFillStateRecord;
  lock_to_vec : SharedFillLockRecord → option bytes;
  lock_from_slice : bytes → option SharedFillLockRecord;
}.

Class FillJsonLaws (api : FillJson) : Prop := {
  state_json r : ∃ b, state_to_vec r = Some b ∧ state_from_slice b = Some r;
  lock_json r : ∃ b, lock_to_vec r = Some b ∧ lock_from_slice b = Some r;
}.

(** ** The files of the zone *)

Record ZoneFile : Type := mkZoneFile { zf_bytes : bytes; zf_modified_ms : Z }.

Record FillStore : Type := mkFillStore {
  sto_files : gmap string ZoneFile;
  sto_shm : ShmState;
  sto_tmp_counter : Z;
}.

Inductive FsCall : Type :=
| CreateDirAll (path : string)
| WriteFile (path : string)
| RenameFile (from to : string)
| ReadFile (path : string)
| RemoveFile (path : string)
| CreateNew (path : string)
| Metadata (path : string)
| Modified (path : string).

(** One call of an operation: the shared memory environment, the process, the
    clock and the calls that fail. *)
Record FillEnv : Type := mkFillEnv {
  fe_shm : Env;
  fe_pid : Z;
  fe_now_ms : Z;
  fe_fault : FsCall → option ErrorKind;
}.

Definition Fx (A : Type) : Type := FillStore → io_result A * FillStore.
Definition fx_bind {A B} (m : Fx A) (k : A → Fx B) : Fx B :=
  λ s, match m s with (Ok a, s) => k a s | (Err e, s) => (Err e, s) end.
Definition fx_lift {A} (r : io_result A) : Fx A := λ s, (r, s).
Definition fx_shm {A} (m : Shm A) : Fx A := λ s,
  let '(r, shm) := m (sto_shm s) in (r, mkFillStore (sto_files s) shm (sto_tmp_counter s)).
Notation "'fx!' x := m 'in' k" := (fx_bind m (λ x, k))
  (at level 200, x pattern, m at level 100, k at level 200).

Definition with_files (f : gmap string ZoneFile → gmap string ZoneFile) (s : FillStore) : FillStore :=
  mkFillStore (f (sto_files s)) (sto_shm s) (sto_tmp_counter s).

Definition fs_try (env : FillEnv) (call : FsCall) : Fx unit := λ s,
  match fe_fault env call with Some e => (Err e, s) | None => (Ok tt, s) end.

(** [std::fs]: reading, writing, renaming and removing a file. *)
Definition fs_read (env : FillEnv) (path : string) : Fx bytes :=
  fx! _ := fs_try env (ReadFile path) in
  λ s, (match sto_files s !! path with Some f => Ok (zf_bytes f) | None => Err NotFound end, s).
Definition fs_write (env : FillEnv) (path : string) (b : bytes) : Fx unit :=
  fx! _ := fs_try env (WriteFile path) in
  λ s, (Ok tt, with_files <[path := mkZoneFile b (fe_now_ms env)]> s).
Definition fs_rename (env : FillEnv) (from to : string) : Fx unit :=
  fx! _ := fs_try env (RenameFile from to) in
  λ s, match sto_files s !! from with
       | Some f => (Ok tt, with_files (λ m, <[to := f]> (delete from m)) s)
       | None => (Err NotFound, s)
       end.
Definition fs_remove (env : FillEnv) (path : string) : Fx unit :=
  fx! _ := fs_try env (RemoveFile path) in
  λ s, match sto_files s !! path with
       | Some _ => (Ok tt, with_files (delete path) s)
       | None => (Err NotFound, s)
       end.

Section Shared.
Context {HTTP : HttpApi} {SHA : Sha256Api} {JSON : SerdeJson} {FILL : FillJson}.

(** ** Names and paths *)

Definition SHARED_FILL_LOCK_PREFIX : string := ".rginx-fill-".
Definition SHARED_FILL_LOCK_SUFFIX : string := ".lock".
Definition SHARED_FILL_STATE_SUFFIX : string := ".state.json".

(** [Path::join] of a directory and a file name. *)
Definition path_join (dir name : string) : string :=
  if ends_with "/" dir then dir +:+ name else dir +:+ "/" +:+ name.

(** Source: crates/rginx-http/src/cache/shared/index_file/mod.rs:350-353 (shared_fill_lock_path) *)
Definition shared_fill_lock_path (zone : CacheZone) (key : string) : string :=
  path_join (zone_path zone) (SHARED_FILL_LOCK_PREFIX +:+ cache_key_hash key +:+ SHARED_FILL_LOCK_SUFFIX).

(** Source: crates/rginx-http/src/cache/shared/index_file/mod.rs:355-358 (shared_fill_state_path) *)
Definition shared_fill_state_path (zone : CacheZone) (key : string) : string :=
  path_join (zone_path zone) (SHARED_FILL_LOCK_PREFIX +:+ cache_key_hash key +:+ SHARED_FILL_STATE_SUFFIX).

(** [SHARED_FILL_STATE_TMP_COUNTER.fetch_add(1)], a counter of the process. *)
Definition next_tmp_counter : Fx Z := λ s,
  (Ok (sto_tmp_counter s), mkFillStore (sto_files s) (sto_shm s) (wrap64 (sto_tmp_counter s + 1))).

(** Source: crates/rginx-http/src/cache/fill/persistence.rs:20-23 (next_shared_fill_nonce) *)
Definition next_shared_fill_nonce (env : FillEnv) (now : Z) : Fx string :=
  fx! counter := next_tmp_counter in
  fx_lift (Ok (dec now +:+ "-" +:+ dec (fe_pid env) +:+ "-" +:+ dec counter)).

(** The paths written here all have a file name. *)
(** Source: crates/rginx-http/src/cache/fill/persistence.rs:25-33 (temp_json_path) *)
Definition temp_json_path (env : FillEnv) (path : string) : Fx string :=
  fx! counter := next_tmp_counter in
  fx_lift (Ok (path +:+ ".tmp-" +:+ dec (fe_pid env) +:+ "-" +:+ dec counter)).

(** Source: crates/rginx-http/src/cache/fill/persistence.rs:8-18 (atomic_write_json) *)
Definition atomic_write_json {A} (to_vec : A → option bytes) (env : FillEnv) (path : string) (value : A) : Fx unit :=
  fx! b := fx_lift (ok_or (to_vec value) OtherError) in
  fx! _ := fs_try env (CreateDirAll path) in
  fx! tmp_path := temp_json_path env path in
  fx! _ := fs_write env tmp_path b in
  fs_rename env tmp_path path.

(** Source: crates/rginx-http/src/cache/fill/shared.rs:435-440 (persist_shared_fill_lock_record) *)
Definition persist_shared_fill_lock_record (env : FillEnv) (path : string) (record : SharedFillLockRecord) : Fx unit :=
  atomic_write_json lock_to_vec env path record.

(** Source: crates/rginx-http/src/cache/fill/shared.rs:442-447 (persist_shared_fill_state_record) *)
Definition persist_shared_fill_state_record (env : FillEnv) (path : string) (record : SharedFillStateRecord) : Fx unit :=
  atomic_write_json state_to_vec env path record.

(** Source: crates/rginx-http/src/cache/fill/shared.rs:423-427 (read_shared_fill_lock_record) *)
Definition read_shared_fill_lock_record (env : FillEnv) (path : string) : Fx SharedFillLockRecord :=
  fx! b := fs_read env path in fx_lift (invalid_data (lock_from_slice b)).

(** Source: crates/rginx-http/src/cache/fill/shared.rs:429-433 (read_shared_fill_state_record) *)
Definition read_shared_fill_state_record (env : FillEnv) (path : string) : Fx SharedFillStateRecord :=
  fx! b := fs_read env path in fx_lift (invalid_data (state_from_slice b)).

(** Source: crates/rginx-http/src/cache/fill/shared.rs:413-416 (shared_fill_state_record_bytes) *)
Definition shared_fill_state_record_bytes (record : SharedFillStateRecord) : io_result bytes :=
  invalid_data (state_to_vec record).

(** Source: crates/rginx-http/src/cache/fill/shared.rs:418-421 (shared_fill_state_record_from_bytes) *)
Definition shared_fill_state_record_from_bytes (b : bytes) : io_result SharedFillStateRecord :=
  invalid_data (state_from_slice b).

(** ** Headers *)

(** Source: crates/rginx-http/src/cache/fill/shared.rs:403-411 (shared_headers_from_map) *)
Definition shared_headers_from_map (headers : HeaderMap) : list SharedFillHeader :=
  map (λ '(name, value), mkFillHeader name (bytes_of_string (hv_as_bytes value))) (hm_iter headers).

Fixpoint append_shared_headers (headers : list SharedFillHeader) (m : HeaderMap) : io_result HeaderMap :=
  match headers with
  | [] => Ok m
  | header :: headers =>
      let? name := invalid_data (header_name_parse (sfh_name header)) in
      let? value := invalid_data (hv_from_bytes (string_of_bytes (sfh_value header))) in
      append_shared_headers headers (hm_append name value m)
  end.

(** Source: crates/rginx-http/src/cache/fill/shared.rs:389-401 (header_map_from_shared_headers) *)
Definition header_map_from_shared_headers (headers : list SharedFillHeader) : io_result HeaderMap :=
  append_shared_headers headers hm_new.

(** ** The handle of the process that fills *)

(** Source: crates/rginx-http/src/cache/fill/shared.rs:22-25 (SharedFillStateBackend) *)
Inductive SharedFillStateBackend : Type :=
| FileBackend (lock_path state_path : string)
| SharedMemoryBackend (store : MemorySharedIndexStore) (key : string).

(** The record behind the handle's mutex is shared by its clones; the model
    threads it. *)
(** Source: crates/rginx-http/src/cache/fill/shared.rs:16-19 (SharedFillExternalStateHandle) *)
Record SharedFillExternalStateHandle : Type := mkHandle {
  seh_backend : SharedFillStateBackend;
  seh_state : SharedFillStateRecord;
}.

Definition initial_fill_state (nonce : string) (share_fingerprint : option string) : SharedFillStateRecord :=
  mkFillState nonce (default EmptyString share_fingerprint) None false false None None.

(** Writing the state and the lock; the file backend writes the state first. *)
(** Source: crates/rginx-http/src/cache/fill/shared.rs:195-217 (SharedFillExternalStateHandle::persist_lock_and_state) *)
Definition persist_lock_and_state (env : FillEnv) (now : Z) (h : SharedFillExternalStateHandle) : Fx unit :=
  match seh_backend h with
  | FileBackend lock_path state_path =>
      fx! _ := persist_shared_fill_state_record env state_path (seh_state h) in
      persist_shared_fill_lock_record env lock_path (mkLockRecord (sfs_nonce (seh_state h)) now)
  | SharedMemoryBackend store key =>
      fx! b := fx_lift (shared_fill_state_record_bytes (seh_state h)) in
      fx_shm (update_fill_lock (fe_shm env) store key (sfs_nonce (seh_state h)) now b)
  end.

(** Source: crates/rginx-http/src/cache/fill/shared.rs:75-101 (SharedFillExternalStateHandle::create_file) *)
Definition create_file (env : FillEnv) (zone : CacheZone) (key lock_path : string) (now : Z)
    (share_fingerprint : option string) : Fx SharedFillExternalStateHandle :=
  fx! nonce := next_shared_fill_nonce env now in
  let handle := mkHandle (FileBackend lock_path (shared_fill_state_path zone key))
                  (initial_fill_state nonce share_fingerprint) in
  fx! _ := persist_lock_and_state env now handle in
  fx_lift (Ok handle).

(** [lock_age] is in nanoseconds. *)
Definition lock_age_ms (lock_age : Z) : Z := wrap64 (lock_age / 10 ^ 6).

(** Source: crates/rginx-http/src/cache/fill/shared.rs:103-134 (SharedFillExternalStateHandle::create_shared_memory) *)
Definition create_shared_memory (env : FillEnv) (store : MemorySharedIndexStore) (key : string) (now lock_age : Z)
    (share_fingerprint : option string) : Fx (option SharedFillExternalStateHandle) :=
  fx! nonce := next_shared_fill_nonce env now in
  let state := initial_fill_state nonce share_fingerprint in
  fx! state_json := fx_lift (shared_fill_state_record_bytes state) in
  fx! acquire := fx_shm (try_acquire_fill_lock (fe_shm env) store (fe_pid env) key now (lock_age_ms lock_age)
                           nonce state_json) in
  fx_lift (Ok (match acquire with
               | FillAcquired => Some (mkHandle (SharedMemoryBackend store key) state)
               | FillBusy => None
               end)).

(** The record changes even when it cannot be written. *)
(** Source: crates/rginx-http/src/cache/fill/shared.rs:219-242 (SharedFillExternalStateHandle::update_state) *)
Definition update_state (update : SharedFillStateRecord → SharedFillStateRecord) (env : FillEnv)
    (h : SharedFillExternalStateHandle) : SharedFillExternalStateHandle * Fx unit :=
  let h := mkHandle (seh_backend h) (update (seh_state h)) in
  (h, persist_lock_and_state env (fe_now_ms env) h).

Definition with_response (response : SharedFillResponseMetadata) (r : SharedFillStateRecord) : SharedFillStateRecord :=
  mkFillState (sfs_nonce r) (sfs_share_fingerprint r) (Some response) (sfs_upstream_completed r)
    (sfs_finished r) (sfs_trailers r) (sfs_error r).
Definition with_upstream_completed (r : SharedFillStateRecord) : SharedFillStateRecord :=
  mkFillState (sfs_nonce r) (sfs_share_fingerprint r) (sfs_response r) true
    (sfs_finished r) (sfs_trailers r) (sfs_error r).
Definition with_finished (trailers : option HeaderMap) (r : SharedFillStateRecord) : SharedFillStateRecord :=
  mkFillState (sfs_nonce r) (sfs_share_fingerprint r) (sfs_response r) true true
    (shared_headers_from_map <$> trailers) (sfs_error r).
Definition with_error (error : string) (r : SharedFillStateRecord) : SharedFillStateRecord :=
  mkFillState (sfs_nonce r) (sfs_share_fingerprint r) (sfs_response r) (sfs_upstream_completed r)
    (sfs_finished r) (sfs_trailers r) (Some error).

(** Source: crates/rginx-http/src/cache/fill/shared.rs:136-151 (SharedFillExternalStateHandle::publish_response) *)
Definition publish_response (status : Z) (headers : HeaderMap) (body_tmp_path body_path : string) (env : FillEnv)
    (h : SharedFillExternalStateHandle) : SharedFillExternalStateHandle * Fx unit :=
  update_state (with_response (mkFillResponse status (shared_headers_from_map headers) body_tmp_path body_path)) env h.

(** Source: crates/rginx-http/src/cache/fill/shared.rs:153-157 (SharedFillExternalStateHandle::mark_upstream_complete) *)
Definition external_mark_upstream_complete (env : FillEnv) (h : SharedFillExternalStateHandle)
    : SharedFillExternalStateHandle * Fx unit :=
  update_state with_upstream_completed env h.

(** Source: crates/rginx-http/src/cache/fill/shared.rs:159-165 (SharedFillExternalStateHandle::finish) *)
Definition external_finish (trailers : option HeaderMap) (env : FillEnv) (h : SharedFillExternalStateHandle)
    : SharedFillExternalStateHandle * Fx unit :=
  update_state (with_finished trailers) env h.

(** Source: crates/rginx-http/src/cache/fill/shared.rs:167-172 (SharedFillExternalStateHandle::fail) *)
Definition external_fail (error : string) (env : FillEnv) (h : SharedFillExternalStateHandle)
    : SharedFillExternalStateHandle * Fx unit :=
  update_state (with_error error) env h.

(** Source: crates/rginx-http/src/cache/fill/shared.rs:174-193 (SharedFillExternalStateHandle::heartbeat) *)
Definition heartbeat (env : FillEnv) (h : SharedFillExternalStateHandle) : Fx unit :=
  match seh_backend h with
  | FileBackend lock_path _ =>
      persist_shared_fill_lock_record env lock_path (mkLockRecord (sfs_nonce (seh_state h)) (fe_now_ms env))
  | SharedMemoryBackend store key =>
      fx! b := fx_lift (shared_fill_state_record_bytes (seh_state h)) in
      fx_shm (update_fill_lock (fe_shm env) store key (sfs_nonce (seh_state h)) (fe_now_ms env) b)
  end.

(** Errors of the release are dropped. *)
(** Source: crates/rginx-http/src/cache/fill/shared.rs:244-254 (SharedFillExternalStateHandle::release) *)
Definition release (env : FillEnv) (h : SharedFillExternalStateHandle) (s : FillStore) : FillStore :=
  match seh_backend h with
  | FileBackend lock_path _ => (fs_remove env lock_path s).2
  | SharedMemoryBackend store key =>
      (fx_shm (release_fill_lock (fe_shm env) store key (sfs_nonce (seh_state h))) s).2
  end.

(** ** What the other processes load *)

(** Source: crates/rginx-http/src/cache/fill/shared.rs:37-40 (ExternalFillStateSource) *)
Inductive ExternalFillStateSource : Type :=
| FileSource (state_path nonce : string)
| SharedMemorySource (store : MemorySharedIndexStore) (key nonce : string).

(** Source: crates/rginx-http/src/cache/fill/shared.rs:28-34 (ExternalCacheFillReadState) *)
Record ExternalCacheFillReadState : Type := mkExternalRead {
  ext_status : Z;
  ext_headers : HeaderMap;
  ext_body_tmp_path : string;
  ext_body_path : string;
  ext_source : ExternalFillStateSource;
}.

Definition io_ok {A} (r : io_result A) : option A := match r with Ok a => Some a | Err _ => None end.

(** The checks both loaders make on the state they read: it belongs to the lock,
    to the same request, and its origin is still sending. *)
(** Source: crates/rginx-http/src/cache/fill/shared.rs:313-343 (load_memory_external_fill_state) *)
Definition loadable_fill_state (state : SharedFillStateRecord) (lock_nonce : string)
    (share_fingerprint : option string) (source : ExternalFillStateSource) : option ExternalCacheFillReadState :=
  if negb (str_eqb (sfs_nonce state) lock_nonce) then None
  else if match share_fingerprint with
          | Some fingerprint => negb (str_eqb (sfs_share_fingerprint state) fingerprint)
          | None => false
          end then None
  else if is_some (sfs_error state) || sfs_upstream_completed state then None
  else
    response ← sfs_response state;
    status ← status_code_from_u16 (sfm_status response);
    headers ← io_ok (header_map_from_shared_headers (sfm_headers response));
    Some (mkExternalRead status headers (sfm_body_tmp_path response) (sfm_body_path response) source).

(** Source: crates/rginx-http/src/cache/fill/shared.rs:283-311 (load_file_external_fill_state) *)
Definition load_file_external_fill_state (env : FillEnv) (zone : CacheZone) (key : string)
    (share_fingerprint : option string) (s : FillStore) : option ExternalCacheFillReadState :=
  let state_path := shared_fill_state_path zone key in
  lock ← io_ok (read_shared_fill_lock_record env (shared_fill_lock_path zone key) s).1;
  state ← io_ok (read_shared_fill_state_record env state_path s).1;
  loadable_fill_state state (slr_nonce lock) share_fingerprint (FileSource state_path (sfs_nonce state)).

(** The shared memory is locked to be read, so the store changes. *)
(** Source: crates/rginx-http/src/cache/fill/shared.rs:313-343 (load_memory_external_fill_state) *)
Definition load_memory_external_fill_state (env : FillEnv) (store : MemorySharedIndexStore) (key : string)
    (share_fingerprint : option string) (s : FillStore) : option ExternalCacheFillReadState * FillStore :=
  let '(loaded, s) := fx_shm (load_fill_lock (fe_shm env) store key) s in
  (snapshot ← io_ok loaded ≫= id;
   state ← io_ok (shared_fill_state_record_from_bytes (fs_state_json snapshot));
   loadable_fill_state state (fs_nonce snapshot) share_fingerprint (SharedMemorySource store key (sfs_nonce state)), s).

(** Source: crates/rginx-http/src/cache/fill/shared.rs:363-387 (read_external_fill_state_record) *)
Definition read_external_fill_state_record (env : FillEnv) (source : ExternalFillStateSource)
    : Fx SharedFillStateRecord :=
  let check (nonce : string) (state : SharedFillStateRecord) : Fx SharedFillStateRecord :=
    if negb (str_eqb (sfs_nonce state) nonce) then fx_lift (Err NotFound) else fx_lift (Ok state) in
  match source with
  | FileSource state_path nonce =>
      fx! state := read_shared_fill_state_record env state_path in check nonce state
  | SharedMemorySource store key nonce =>
      fx! loaded := fx_shm (load_fill_lock (fe_shm env) store key) in
      fx! snapshot := fx_lift (ok_or loaded NotFound) in
      fx! state := fx_lift (shared_fill_state_record_from_bytes (fs_state_json snapshot)) in
      check nonce state
  end.

(** Source: crates/rginx-http/src/cache/fill/shared.rs:345-352 (memory_shared_fill_lock_state) *)
Definition memory_shared_fill_lock_state (env : FillEnv) (store : MemorySharedIndexStore) (key : string)
    (now lock_age : Z) : Fx SharedFillLockStatus :=
  fx_shm (fill_lock_status (fe_shm env) store key now (lock_age_ms lock_age)).

(** Source: crates/rginx-http/src/cache/fill/shared.rs:354-361 (clear_stale_memory_shared_fill_lock) *)
Definition clear_stale_memory_shared_fill_lock (env : FillEnv) (store : MemorySharedIndexStore) (key : string)
    (now lock_age : Z) : Fx bool :=
  fx_shm (clear_stale_fill_lock (fe_shm env) store key now (lock_age_ms lock_age)).

(** ** The lock file *)

(** Source: crates/rginx-http/src/cache/runtime/fill_lock.rs:7-11 (FileSharedFillLockState) *)
Inductive FileSharedFillLockState : Type := FileMissing | FileFresh | FileStale.

(** Source: crates/rginx-http/src/cache/runtime/fill_lock.rs:243-265 (CacheZoneRuntime::file_shared_fill_lock_state) *)
Definition file_shared_fill_lock_state (env : FillEnv) (lock_path : string) (lock_age : Z) (s : FillStore)
    : FileSharedFillLockState :=
  match fe_fault env (Metadata lock_path), sto_files s !! lock_path with
  | Some NotFound, _ => FileMissing
  | Some _, _ => FileFresh
  | None, None => FileMissing
  | None, Some file =>
      if is_some (fe_fault env (Modified lock_path)) then FileFresh
      else if lock_age_ms lock_age <? sat_sub (fe_now_ms env) (zf_modified_ms file) then FileStale else FileFresh
  end.

(** Taking the lock file is a sequence of file-system calls, between which other
    processes make theirs. *)
Inductive AcquirePc : Type := AcqCreate | AcqInspect | AcqRemove | AcqDone (lock_path : option string).

Definition try_acquire_file_step (env : FillEnv) (lock_path : string) (lock_age : Z) (pc : AcquirePc) (s : FillStore)
    : AcquirePc * FillStore :=
  match pc with
  | AcqCreate =>
      match fe_fault env (CreateNew lock_path), sto_files s !! lock_path with
      | Some _, _ => (AcqDone None, s)
      | None, Some _ => (AcqInspect, s)
      | None, None => (AcqDone (Some lock_path), with_files <[lock_path := mkZoneFile [] (fe_now_ms env)]> s)
      end
  | AcqInspect =>
      match file_shared_fill_lock_state env lock_path lock_age s with
      | FileMissing | FileStale => (AcqRemove, s)
      | FileFresh => (AcqDone None, s)
      end
  | AcqRemove =>
      match fs_remove env lock_path s with
      | (Ok _, s) => (AcqCreate, s)
      | (Err NotFound, s) => (AcqCreate, s)
      | (Err _, s) => (AcqDone None, s)
      end
  | AcqDone _ => (pc, s)
  end.

(** [None]: still looping. *)
Fixpoint try_acquire_file_loop (fuel : nat) (env : FillEnv) (lock_path : string) (lock_age : Z) (pc : AcquirePc)
    (s : FillStore) : option (option string) * FillStore :=
  match pc, fuel with
  | AcqDone r, _ => (Some r, s)
  | _, O => (None, s)
  | _, S fuel =>
      let '(pc, s) := try_acquire_file_step env lock_path lock_age pc s in
      try_acquire_file_loop fuel env lock_path lock_age pc s
  end.

(** Undisturbed, the loop makes at most four calls: create, inspect, remove,
    create. *)
(** Source: crates/rginx-http/src/cache/runtime/fill_lock.rs:198-224 (CacheZoneRuntime::try_acquire_file_shared_fill_lock) *)
Definition try_acquire_file_shared_fill_lock (env : FillEnv) (zone : CacheZone) (key : string) (lock_age : Z)
    (s : FillStore) : option (option string) * FillStore :=
  try_acquire_file_loop 4 env (shared_fill_lock_path zone key) lock_age AcqCreate s.

(** ** Waiting for another process *)

(** A turn of the wait has its environment and the instant at its end; the
    sleep between two turns is the time between them.  [None]: the turns ran
    out before the deadline. *)
(** Source: crates/rginx-http/src/cache/runtime/fill_lock.rs:165-196 (CacheZoneRuntime::wait_for_memory_shared_fill_lock) *)
Fixpoint wait_for_memory_shared_fill_lock (turns : list (FillEnv * Z)) (store : MemorySharedIndexStore) (key : string)
    (deadline lock_age : Z) (s : FillStore) : option bool * FillStore :=
  match turns with
  | [] => (None, s)
  | (env, instant) :: turns =>
      let again (s : FillStore) :=
        if deadline <? instant then (Some false, s)
        else wait_for_memory_shared_fill_lock turns store key deadline lock_age s in
      let now := fe_now_ms env in
      match memory_shared_fill_lock_state env store key now lock_age s with
      | (Ok FillMissing, s) => (Some true, s)
      | (Ok FillStale, s) =>
          match clear_stale_memory_shared_fill_lock env store key now lock_age s with
          | (Ok true, s) => (Some true, s)
          | (_, s) => again s
          end
      | (Ok FillFresh, s) => again s
      | (Err _, s) => (Some false, s)
      end
  end.

Fixpoint wait_for_file_shared_fill_lock (turns : list (FillEnv * Z)) (lock_path : string)
    (deadline lock_age : Z) (s : FillStore) : option bool * FillStore :=
  match turns with
  | [] => (None, s)
  | (env, instant) :: turns =>
      let again (s : FillStore) :=
        if deadline <? instant then (Some false, s)
        else wait_for_file_shared_fill_lock turns lock_path deadline lock_age s in
      match file_shared_fill_lock_state env lock_path lock_age s with
      | FileMissing => (Some true, s)
      | FileStale =>
          match fs_remove env lock_path s with
          | (Ok _, s) | (Err NotFound, s) => (Some true, s)
          | (Err _, s) => again s
          end
      | FileFresh => again s
      end
  end.

(** Source: crates/rginx-http/src/cache/runtime/fill_lock.rs:128-163 (CacheZoneRuntime::wait_for_external_fill_lock) *)
Definition wait_for_external_fill_lock (turns : list (FillEnv * Z)) (zone : CacheZone)
    (store : option MemorySharedIndexStore) (key : string) (deadline lock_age : Z) (s : FillStore)
    : option bool * FillStore :=
  match store with
  | Some store => wait_for_memory_shared_fill_lock turns store key deadline lock_age s
  | None => wait_for_file_shared_fill_lock turns (shared_fill_lock_path zone key) deadline lock_age s
  end.

(** ** The decision against the shared store *)

(** What [fill_lock_decision] asks of the other processes, in the order of its
    code; a call it does not make has no outcome it looks at. *)
(** Source: crates/rginx-http/src/cache/runtime/fill_lock.rs:34-101 (fill_lock_decision, external part) *)
Definition shared_outcomes (env : FillEnv) (zone : CacheZone) (store : option MemorySharedIndexStore) (key : string)
    (now lock_age : Z) (share_fingerprint : option string) (s : FillStore)
    : SharedOutcomes (ExternalHandle := SharedFillExternalStateHandle) (ExternalRead := ExternalCacheFillReadState)
      * FillStore :=
  if negb (zone_shared_index zone)
  then (mkShared false false (Err EmptyString) None None (Err EmptyString) None, s)
  else
    match store with
    | Some store =>
        match create_shared_memory env store key now lock_age share_fingerprint s with
        | (Ok (Some handle), s) => (mkShared true true (Ok (Some handle)) None None (Err EmptyString) None, s)
        | (Ok None, s) =>
            let '(loaded, s) := load_memory_external_fill_state env store key share_fingerprint s in
            (mkShared true true (Ok None) loaded None (Err EmptyString) None, s)
        | (Err _, s) => (mkShared true true (Err EmptyString) None None (Err EmptyString) None, s)
        end
    | None =>
        match try_acquire_file_shared_fill_lock env zone key lock_age s with
        | (Some (Some lock_path), s) =>
            match create_file env zone key lock_path now share_fingerprint s with
            | (Ok handle, s) => (mkShared true false (Err EmptyString) None (Some lock_path) (Ok handle) None, s)
            | (Err _, s) =>
                (mkShared true false (Err EmptyString) None (Some lock_path) (Err EmptyString) None,
                 (fs_remove env lock_path s).2)
            end
        | (_, s) =>
            (mkShared true false (Err EmptyString) None None (Err EmptyString)
               (load_file_external_fill_state env zone key share_fingerprint s), s)
        end
    end.

(** The lock of this process decides alone while it is held and young. *)
(** Source: crates/rginx-http/src/cache/runtime/fill_lock.rs:14-126 (CacheZoneRuntime::fill_lock_decision) *)
Definition shared_fill_lock_decision (env : FillEnv) (zone : CacheZone) (store : option MemorySharedIndexStore)
    (key : string) (now lock_age : Z) (share_fingerprint : option string) (t : FillLocks) (s : FillStore)
    : FillLockDecision (ExternalHandle := SharedFillExternalStateHandle) (ExternalRead := ExternalCacheFillReadState)
      * FillLocks * FillStore :=
  let local := match fls_locks t !! key with
               | Some lock => sat_sub now (fl_acquired_at_unix_ms lock) <=? lock_age_ms lock_age
               | None => false
               end in
  let '(outcomes, s) :=
    if local then (mkShared false false (Err EmptyString) None None (Err EmptyString) None, s)
    else shared_outcomes env zone store key now lock_age share_fingerprint s in
  let '(decision, t) := fill_lock_decision key now lock_age share_fingerprint outcomes t in
  (decision, t, s).
End Shared.
