(* ===== verification/CacheFill.v ===== *)
(** * Filling a cache entry and reading it meanwhile

    Models the writing task of a streaming fill ([complete_streaming_cache] of
    [crates/rginx-http/src/cache/store/streaming/finalize.rs]) and the bodies that
    read a fill while it runs, in its own process ([fill/local.rs]) and in
    another one ([fill/external.rs]), one shared access at a time: an atomic or
    a mutex, the shared record, a call to the file system.  Between two
    accesses of one task the others run.

    The temporary file is written through a buffer: what [write_all] accepted
    is in the file only after a background write, and [flush] waits for it.  A
    reader's open file stays the file it opened when its name goes. *)

From S2P Require Import Prelude RustStr External Body CacheConfig CacheTypes CacheRequest CachePolicy CacheStore CacheIndex SharedMemory SharedIndex CacheLookup CacheFillShared.

Section Fill.
Context {HTTP : HttpApi}.

Definition IN_FLIGHT_FILL_READ_CHUNK_BYTES : Z := 16 * 1024.

(** Source: crates/rginx-http/src/cache/fill/common.rs:30-40 (size_hint_from_headers) *)
Definition size_hint_from_headers (headers : HeaderMap) : option Z :=
  hm_get_str headers "content-length" ≫= parse_u64.

(** ** What the tasks share *)

(** A body file: this fill's, or the one of an entry stored earlier. *)
Inductive BodyFile : Type := ThisFill | Earlier (content : bytes).

(** The read state with its notifications counted; what reading the fill's
    record gives another process; the temporary file, the bytes on their way
    into it and the error of a background write; whether its name is there;
    and what the final name stands for. *)
Record FillWorld : Type := mkFillWorld {
  fw_read : CacheFillReadState;
  fw_notifications : Z;
  fw_record : io_result SharedFillStateRecord;
  fw_file : bytes;
  fw_buffered : bytes;
  fw_write_error : option string;
  fw_tmp : bool;
  fw_body : option BodyFile;
}.

(** An update of the read state wakes the readers and publishes the record;
    [published]: the write of the record succeeded. *)
Definition with_read (f : CacheFillReadState → CacheFillReadState) (published : bool)
    (g : SharedFillStateRecord → SharedFillStateRecord) (w : FillWorld) : FillWorld :=
  mkFillWorld (f (fw_read w)) (fw_notifications w + 1)
    (match fw_record w with
     | Ok r => Ok (if published then g r else r)
     | Err e => Err e
     end) (fw_file w) (fw_buffered w) (fw_write_error w) (fw_tmp w) (fw_body w).

(** The heartbeat of [record_bytes_written] leaves the record as it is. *)
Definition announce (body_size_bytes : Z) (w : FillWorld) : FillWorld :=
  with_read (record_bytes_written body_size_bytes) false id w.
Definition finish_fill (trailers : option HeaderMap) (published : bool) (w : FillWorld) : FillWorld :=
  with_read (finish trailers) published (with_finished trailers) w.
Definition fail_fill (error : string) (published : bool) (w : FillWorld) : FillWorld :=
  with_read (fail error) published (with_error error) w.
Definition complete_upstream (published : bool) (w : FillWorld) : FillWorld :=
  with_read mark_upstream_complete published with_upstream_completed w.

Definition with_paths (tmp : bool) (body : option BodyFile) (w : FillWorld) : FillWorld :=
  mkFillWorld (fw_read w) (fw_notifications w) (fw_record w) (fw_file w) (fw_buffered w) (fw_write_error w)
    tmp body.
Definition remove_tmp (w : FillWorld) : FillWorld := with_paths false (fw_body w) w.
Definition with_writes (file buffered : bytes) (error : option string) (w : FillWorld) : FillWorld :=
  mkFillWorld (fw_read w) (fw_notifications w) (fw_record w) file buffered error (fw_tmp w) (fw_body w).

(** The background write of [count] buffered bytes, and its failure. *)
Definition background_write (count : nat) (w : FillWorld) : FillWorld :=
  with_writes (fw_file w ++ take count (fw_buffered w)) (drop count (fw_buffered w)) (fw_write_error w) w.
Definition background_error (error : string) (w : FillWorld) : FillWorld :=
  with_writes (fw_file w) [] (Some error) w.

(** ** The writer *)

(** Source: crates/rginx-http/src/cache/store/streaming.rs:47-51 (StreamingCacheWriteMessage) *)
Inductive StreamingCacheWriteMessage : Type :=
| MsgData (data : bytes)
| MsgFinish (trailers : option HeaderMap)
| MsgAbort.

(** How committing the temporary file ends. *)
Inductive CommitOutcome : Type :=
| Committed | CommitDirFailed | CommitMetadataFailed | CommitBodyFailed | CommitMetadataRenameFailed.

(** The names of the body after [commit_cache_entry_temp_body]: a failure
    before the first write leaves the temporary name. *)
(** Source: crates/rginx-http/src/cache/entry/write.rs:28-52 (commit_cache_entry_temp_body) *)
Definition commit_cache_entry_temp_body (outcome : CommitOutcome) (w : FillWorld) : io_result unit * FillWorld :=
  match outcome with
  | CommitDirFailed => (Err OtherError, w)
  | CommitMetadataFailed | CommitBodyFailed => (Err OtherError, remove_tmp w)
  | CommitMetadataRenameFailed => (Err OtherError, with_paths false None w)
  | Committed => (Ok tt, with_paths false (Some ThisFill) w)
  end.

(** What the plan says of the body, and what the calls of the finalization
    give. *)
Record BodyPlan : Type := mkBodyPlan { bp_max_entry_bytes : Z; bp_expected_body_bytes : option Z }.
Record FinalizeIo : Type := mkFinalizeIo {
  fin_head_error : option string;
  fin_commit : CommitOutcome;
  fin_published : bool;
}.

Definition length_mismatch (body_size_bytes expected_body_bytes : Z) : string :=
  "streamed body length `" +:+ dec body_size_bytes +:+ "` does not match exact size hint `" +:+
  dec expected_body_bytes +:+ "`".

(** The head of the entry, then its files. *)
Definition commit_body (io : FinalizeIo) (w : FillWorld) : FillWorld :=
  match fin_head_error io with
  | Some error => remove_tmp (fail_fill error (fin_published io) w)
  | None => (commit_cache_entry_temp_body (fin_commit io) w).2
  end.

(** The file and the read state; the index entry that follows a commit is the
    store's. *)
(** Source: crates/rginx-http/src/cache/store/streaming/finalize.rs:45-161 (finalize_streaming_cache) *)
Definition finalize_body (plan : BodyPlan) (body_size_bytes : Z) (io : FinalizeIo) (w : FillWorld) : FillWorld :=
  if bp_max_entry_bytes plan <? body_size_bytes then remove_tmp w
  else
    match bp_expected_body_bytes plan with
    | Some expected =>
        if negb (expected =? body_size_bytes)
        then remove_tmp (fail_fill (length_mismatch body_size_bytes expected) (fin_published io) w)
        else commit_body io w
    | None => commit_body io w
    end.

Inductive WriterPc : Type :=
| WReceive | WWrite (data : bytes) | WAnnounce (data : bytes) | WFlush (trailers : option HeaderMap)
| WFinish (trailers : option HeaderMap) | WFinalize | WDone.

Record FillWriter : Type := mkWriter {
  wr_pc : WriterPc;
  wr_body_size : Z;
  wr_queue : list StreamingCacheWriteMessage;
  wr_closed : bool;
}.

Definition at_pc (pc : WriterPc) (t : FillWriter) : FillWriter :=
  mkWriter pc (wr_body_size t) (wr_queue t) (wr_closed t).

Definition channel_closed : string := "streaming cache writer channel closed before end-of-stream".

(** A failed write is the writer's end. *)
Definition abandon (error : string) (io : FinalizeIo) (t : FillWriter) (w : FillWorld) : FillWriter * FillWorld :=
  (at_pc WDone t, remove_tmp (fail_fill error (fin_published io) w)).

(** One step of the task; it stays where it is while it waits for a message or
    for the background writes. *)
(** Source: crates/rginx-http/src/cache/store/streaming/finalize.rs:163-218 (complete_streaming_cache) *)
Definition writer_step (plan : BodyPlan) (io : FinalizeIo) (t : FillWriter) (w : FillWorld) : FillWriter * FillWorld :=
  match wr_pc t with
  | WReceive =>
      match wr_queue t with
      | MsgData data :: queue => (mkWriter (WWrite data) (wr_body_size t) queue (wr_closed t), w)
      | MsgFinish trailers :: queue => (mkWriter (WFlush trailers) (wr_body_size t) queue (wr_closed t), w)
      | MsgAbort :: queue => (mkWriter WDone (wr_body_size t) queue (wr_closed t), remove_tmp w)
      | [] => if wr_closed t then abandon channel_closed io t w else (t, w)
      end
  | WWrite data =>
      match fw_write_error w with
      | Some error => abandon error io t w
      | None => (at_pc (WAnnounce data) t, with_writes (fw_file w) (fw_buffered w ++ data) None w)
      end
  | WAnnounce data =>
      let body_size_bytes := sat_add64 (wr_body_size t) (len data) in
      (mkWriter WReceive body_size_bytes (wr_queue t) (wr_closed t), announce body_size_bytes w)
  | WFlush trailers =>
      match fw_write_error w, fw_buffered w with
      | Some error, _ => abandon error io t w
      | None, [] => (at_pc (WFinish trailers) t, w)
      | None, _ => (t, w)
      end
  | WFinish trailers => (at_pc WFinalize t, finish_fill trailers (fin_published io) w)
  | WFinalize => (at_pc WDone t, finalize_body plan (wr_body_size t) io w)
  | WDone => (t, w)
  end.

(** ** The readers *)

(** What a reader's task sends: a frame, or the error it ends with. *)
Inductive ReaderError : Type :=
| IoFailure (e : ErrorKind)
| UnexpectedEof
| FillFailed (error : string).

(** What one access gives: a fault of the file system, the most bytes a read
    gives, and whether the receiver is still there. *)
Record ReadIo : Type := mkReadIo {
  io_fault : option ErrorKind;
  io_count : nat;
  io_receiver : bool;
}.

Definition file_content (file : BodyFile) (w : FillWorld) : bytes :=
  match file with ThisFill => fw_file w | Earlier content => content end.

(** [file.read(&mut buffer[filled..])] at a position: nothing only at the end
    of the file. *)
Definition file_read (io : ReadIo) (file : BodyFile) (position room : nat) (w : FillWorld) : bytes :=
  take (Nat.min room (Nat.max 1 (io_count io))) (drop position (file_content file w)).

Definition chunk_len (available offset : Z) : nat :=
  Z.to_nat (Z.min (available - offset) IN_FLIGHT_FILL_READ_CHUNK_BYTES).

(** [tx.send(...).await]: nothing is sent when the receiver is gone. *)
Definition send (io : ReadIo) (item : FramePoll ReaderError) (sent : list (FramePoll ReaderError))
    : list (FramePoll ReaderError) := if io_receiver io then sent ++ [item] else sent.

(** *** In the process of the fill *)

(** Where the task is: [notified] is the count of notifications when the future
    was made. *)
Inductive LocalPc : Type :=
| LOpenTmp | LOpenFinished | LOpenBody
| LNotified
| LAvailable (notified : Z)
| LRead (chunk : nat) (buffer : bytes)
| LEof (chunk : nat) (buffer : bytes)
| LInner (chunk : nat) (buffer : bytes)
| LInnerWait (chunk : nat) (buffer : bytes) (notified : Z)
| LSend (buffer : bytes)
| LError (notified : Z)
| LFinished (notified : Z)
| LTrailers
| LWait (notified : Z)
| LDone.

Record LocalReader : Type := mkLocal {
  lr_pc : LocalPc;
  lr_file : BodyFile;
  lr_position : nat;
  lr_offset : Z;
  lr_sent : list (FramePoll ReaderError);
}.

Definition local_start : LocalReader := mkLocal LOpenTmp ThisFill 0 0 [].

Definition local_at (pc : LocalPc) (r : LocalReader) : LocalReader :=
  mkLocal pc (lr_file r) (lr_position r) (lr_offset r) (lr_sent r).
Definition local_open (file : BodyFile) (r : LocalReader) : LocalReader :=
  mkLocal LNotified file 0 (lr_offset r) (lr_sent r).
Definition local_end (io : ReadIo) (item : FramePoll ReaderError) (r : LocalReader) : LocalReader :=
  mkLocal LDone (lr_file r) (lr_position r) (lr_offset r) (send io item (lr_sent r)).
Definition local_fill (chunk : nat) (buffer : bytes) (r : LocalReader) : LocalReader :=
  local_at (if (length buffer <? chunk)%nat then LRead chunk buffer else LSend buffer) r.

(** Source: crates/rginx-http/src/cache/fill/local.rs:214-292 (stream_inflight_fill_body and open_inflight_fill_body_file) *)
Definition local_step (io : ReadIo) (w : FillWorld) (r : LocalReader) : LocalReader :=
  let state := fw_read w in
  match lr_pc r with
  | LOpenTmp =>
      match io_fault io with
      | Some NotFound => local_at LOpenFinished r
      | Some e => local_end io (ReadyError (IoFailure e)) r
      | None => if fw_tmp w then local_open ThisFill r else local_at LOpenFinished r
      end
  | LOpenFinished =>
      if rs_finished state then local_at LOpenBody r
      else local_end io (ReadyError (IoFailure NotFound)) r
  | LOpenBody =>
      match io_fault io, fw_body w with
      | Some e, _ => local_end io (ReadyError (IoFailure e)) r
      | None, Some file => local_open file r
      | None, None => local_end io (ReadyError (IoFailure NotFound)) r
      end
  | LNotified => local_at (LAvailable (fw_notifications w)) r
  | LAvailable notified =>
      let available := rs_bytes_written state in
      if lr_offset r <? available then local_fill (chunk_len available (lr_offset r)) [] r
      else local_at (LError notified) r
  | LRead chunk buffer =>
      match io_fault io with
      | Some e => local_end io (ReadyError (IoFailure e)) r
      | None =>
          match file_read io (lr_file r) (lr_position r) (chunk - length buffer) w with
          | [] => local_at (LEof chunk buffer) r
          | data =>
              local_fill chunk (buffer ++ data)
                (mkLocal (lr_pc r) (lr_file r) (lr_position r + length data) (lr_offset r) (lr_sent r))
          end
      end
  | LEof chunk buffer =>
      if rs_finished state then local_end io (ReadyError UnexpectedEof) r else local_at (LInner chunk buffer) r
  | LInner chunk buffer => local_at (LInnerWait chunk buffer (fw_notifications w)) r
  | LInnerWait chunk buffer notified =>
      if notified <? fw_notifications w then local_at (LRead chunk buffer) r else r
  | LSend buffer =>
      let offset := sat_add64 (lr_offset r) (len buffer) in
      mkLocal (if io_receiver io then LNotified else LDone) (lr_file r) (lr_position r) offset
        (send io (ReadyFrame (DataFrame buffer)) (lr_sent r))
  | LError notified =>
      match rs_error state with
      | Some error => local_end io (ReadyError (FillFailed error)) r
      | None => local_at (LFinished notified) r
      end
  | LFinished notified =>
      if rs_finished state then local_at LTrailers r else local_at (LWait notified) r
  | LTrailers =>
      match rs_trailers state with
      | Some trailers => local_end io (ReadyFrame (TrailersFrame trailers)) r
      | None => local_at LDone r
      end
  | LWait notified => if notified <? fw_notifications w then local_at LNotified r else r
  | LDone => r
  end.

(** *** In another process *)

Inductive ExternalPc : Type :=
| EFirst | EOpenTmp | EOpenBody
| ERecord
| EMetaTmp | EMetaBody
| ERead (chunk : nat) (buffer : bytes)
| ESend (buffer : bytes)
| EDone.

Record ExternalReader : Type := mkExternal {
  er_pc : ExternalPc;
  er_snapshot : SharedFillStateRecord;
  er_file : BodyFile;
  er_position : nat;
  er_offset : Z;
  er_sent : list (FramePoll ReaderError);
}.

Definition external_start (placeholder : SharedFillStateRecord) : ExternalReader :=
  mkExternal EFirst placeholder ThisFill 0 0 [].

Definition external_at (pc : ExternalPc) (r : ExternalReader) : ExternalReader :=
  mkExternal pc (er_snapshot r) (er_file r) (er_position r) (er_offset r) (er_sent r).
Definition external_seen (pc : ExternalPc) (snapshot : SharedFillStateRecord) (r : ExternalReader) : ExternalReader :=
  mkExternal pc snapshot (er_file r) (er_position r) (er_offset r) (er_sent r).
Definition external_open (file : BodyFile) (r : ExternalReader) : ExternalReader :=
  mkExternal ERecord (er_snapshot r) file 0 (er_offset r) (er_sent r).
Definition external_end (io : ReadIo) (item : FramePoll ReaderError) (r : ExternalReader) : ExternalReader :=
  mkExternal EDone (er_snapshot r) (er_file r) (er_position r) (er_offset r) (send io item (er_sent r)).
Definition external_fill_chunk (chunk : nat) (buffer : bytes) (r : ExternalReader) : ExternalReader :=
  external_at (if (length buffer <? chunk)%nat then ERead chunk buffer else ESend buffer) r.

(** The turn once the length of the file is known: a chunk, the error, the
    trailers, or a sleep before the record is read again. *)
Definition external_turn (io : ReadIo) (available : Z) (r : ExternalReader) : ExternalReader :=
  if er_offset r <? available then external_fill_chunk (chunk_len available (er_offset r)) [] r
  else
    match sfs_error (er_snapshot r) with
    | Some error => external_end io (ReadyError (FillFailed error)) r
    | None =>
        if sfs_finished (er_snapshot r) then
          match sfs_trailers (er_snapshot r) ≫= λ trailers, io_ok (header_map_from_shared_headers trailers) with
          | Some trailers => external_end io (ReadyFrame (TrailersFrame trailers)) r
          | None => external_at EDone r
          end
        else external_at ERecord r
    end.

(** Source: crates/rginx-http/src/cache/fill/external.rs:93-213 (stream_external_fill_body and open_external_fill_body_file and external_fill_available_bytes) *)
Definition external_step (io : ReadIo) (w : FillWorld) (r : ExternalReader) : ExternalReader :=
  match er_pc r with
  | EFirst =>
      match fw_record w with
      | Ok snapshot => external_seen EOpenTmp snapshot r
      | Err e => external_end io (ReadyError (IoFailure e)) r
      end
  | EOpenTmp =>
      match io_fault io with
      | Some NotFound =>
          if sfs_finished (er_snapshot r) then external_at EOpenBody r
          else external_end io (ReadyError (IoFailure NotFound)) r
      | Some e => external_end io (ReadyError (IoFailure e)) r
      | None =>
          if fw_tmp w then external_open ThisFill r
          else if sfs_finished (er_snapshot r) then external_at EOpenBody r
          else external_end io (ReadyError (IoFailure NotFound)) r
      end
  | EOpenBody =>
      match io_fault io, fw_body w with
      | Some e, _ => external_end io (ReadyError (IoFailure e)) r
      | None, Some file => external_open file r
      | None, None => external_end io (ReadyError (IoFailure NotFound)) r
      end
  | ERecord =>
      match fw_record w with
      | Ok snapshot => external_seen EMetaTmp snapshot r
      | Err _ => external_at EMetaTmp r
      end
  | EMetaTmp =>
      match io_fault io with
      | Some NotFound =>
          if sfs_finished (er_snapshot r) then external_at EMetaBody r else external_turn io 0 r
      | Some e => external_end io (ReadyError (IoFailure e)) r
      | None =>
          if fw_tmp w then external_turn io (len (fw_file w)) r
          else if sfs_finished (er_snapshot r) then external_at EMetaBody r
          else external_turn io 0 r
      end
  | EMetaBody =>
      match io_fault io, fw_body w with
      | Some NotFound, _ => external_turn io 0 r
      | Some e, _ => external_end io (ReadyError (IoFailure e)) r
      | None, Some file => external_turn io (len (file_content file w)) r
      | None, None => external_turn io 0 r
      end
  | ERead chunk buffer =>
      match io_fault io with
      | Some e => external_end io (ReadyError (IoFailure e)) r
      | None =>
          match file_read io (er_file r) (er_position r) (chunk - length buffer) w with
          | [] =>
              if sfs_finished (er_snapshot r) then external_end io (ReadyError UnexpectedEof) r else r
          | data =>
              external_fill_chunk chunk (buffer ++ data)
                (mkExternal (er_pc r) (er_snapshot r) (er_file r) (er_position r + length data) (er_offset r)
                   (er_sent r))
          end
      end
  | ESend buffer =>
      let offset := sat_add64 (er_offset r) (len buffer) in
      mkExternal (if io_receiver io then ERecord else EDone) (er_snapshot r) (er_file r) (er_position r) offset
        (send io (ReadyFrame (DataFrame buffer)) (er_sent r))
  | EDone => r
  end.

(** ** The tasks together *)

Definition fill_writer_start : FillWriter := mkWriter WReceive 0 [] false.

(** A fill as [store_streaming_response] starts it: the temporary file just
    made, the record of the lock with the response published. *)
Definition fill_start (status : Z) (headers : HeaderMap) (record : SharedFillStateRecord) (body : option BodyFile)
    : FillWorld :=
  mkFillWorld (read_state_new status headers) 0 (Ok record) [] [] None true body.

Definition enqueue (message : StreamingCacheWriteMessage) (t : FillWriter) : FillWriter :=
  mkWriter (wr_pc t) (wr_body_size t) (wr_queue t ++ [message]) (wr_closed t).
Definition close (t : FillWriter) : FillWriter := mkWriter (wr_pc t) (wr_body_size t) (wr_queue t) true.
Definition wake (w : FillWorld) : FillWorld := with_read id false id w.
Definition lose_record (e : ErrorKind) (w : FillWorld) : FillWorld :=
  mkFillWorld (fw_read w) (fw_notifications w) (Err e) (fw_file w) (fw_buffered w) (fw_write_error w)
    (fw_tmp w) (fw_body w).

(** What happens besides the readers: the writer, the background writes, the
    source of the body, the drop of the fill guard, another fill that takes the
    record over, and the entry's body replaced or removed. *)
Inductive world_step (plan : BodyPlan) : FillWriter * FillWorld → FillWriter * FillWorld → Prop :=
| ws_writer io t w : world_step plan (t, w) (writer_step plan io t w)
| ws_background count t w : world_step plan (t, w) (t, background_write count w)
| ws_background_error error t w : fw_buffered w ≠ [] → world_step plan (t, w) (t, background_error error w)
| ws_send message t w : wr_closed t = false → world_step plan (t, w) (enqueue message t, w)
| ws_close t w : world_step plan (t, w) (close t, w)
| ws_fail error published t w : world_step plan (t, w) (t, fail_fill error published w)
| ws_upstream published t w : world_step plan (t, w) (t, complete_upstream published w)
| ws_guard t w : world_step plan (t, w) (t, wake w)
| ws_record e t w : world_step plan (t, w) (t, lose_record e w)
| ws_body body t w : world_step plan (t, w) (t, with_paths (fw_tmp w) body w).

(** A read access without a fault, whose receiver is there. *)
Definition clean (io : ReadIo) : Prop := io_fault io = None ∧ io_receiver io = true.

(** A run of the fill and one reader: at each instant the world or the reader
    makes a step, and the reader is never left out for ever. *)
Definition fair_run {R} (step : ReadIo → FillWorld → R → R) (plan : BodyPlan)
    (run : nat → FillWriter * FillWorld * R) : Prop :=
  (∀ n, (world_step plan (run n).1 (run (S n)).1 ∧ (run (S n)).2 = (run n).2) ∨
        (∃ io, clean io ∧ run (S n) = ((run n).1, step io (run n).1.2 (run n).2))) ∧
  (∀ n, ∃ m, (n ≤ m)%nat ∧ ∃ io, clean io ∧ run (S m) = ((run m).1, step io (run m).1.2 (run m).2)).

(** The frames of a body sent whole. *)
Definition data_frames (chunks : list bytes) : list (FramePoll ReaderError) :=
  map (λ data, ReadyFrame (DataFrame data)) chunks.
Definition trailers_frame (trailers : option HeaderMap) : list (FramePoll ReaderError) :=
  match trailers with Some t => [ReadyFrame (TrailersFrame t)] | None => [] end.

(** A run given by its first steps; afterwards only the reader moves. *)
Inductive FillAct : Type :=
| ActWriter (io : FinalizeIo)
| ActBackground (count : nat)
| ActBackgroundError (error : string)
| ActWake
| ActLoseRecord (e : ErrorKind)
| ActRead (io : ReadIo).

Section Scheduled.
Context {R : Type} (step : ReadIo → FillWorld → R → R) (plan : BodyPlan).

Definition act (a : FillAct) (s : FillWriter * FillWorld * R) : FillWriter * FillWorld * R :=
  match a with
  | ActWriter io => (writer_step plan io s.1.1 s.1.2, s.2)
  | ActBackground count => (s.1.1, background_write count s.1.2, s.2)
  | ActBackgroundError error => (s.1.1, background_error error s.1.2, s.2)
  | ActWake => (s.1.1, wake s.1.2, s.2)
  | ActLoseRecord e => (s.1.1, lose_record e s.1.2, s.2)
  | ActRead io => (s.1, step io s.1.2 s.2)
  end.

Definition read_one : ReadIo := mkReadIo None 1 true.

Fixpoint scheduled (acts : list FillAct) (s : FillWriter * FillWorld * R) (n : nat) : FillWriter * FillWorld * R :=
  match n with
  | O => s
  | S n =>
      match acts with
      | [] => scheduled [] (act (ActRead read_one) s) n
      | a :: acts => scheduled acts (act a s) n
      end
  end.

Lemma scheduled_next acts s n :
  scheduled acts s (S n) = act (nth n acts (ActRead read_one)) (scheduled acts s n).
Proof.
  revert acts s. induction n as [|n IH]; intros acts s; [by destruct acts|].
  destruct acts as [|a acts].
  - change (scheduled [] (act (ActRead read_one) s) (S n) =
            act (ActRead read_one) (scheduled [] (act (ActRead read_one) s) n)). rewrite IH. by destruct n.
  - apply (IH acts).
Qed.

Lemma scheduled_world acts s k :
  (scheduled acts s (k + length acts)).1 = (scheduled acts s (length acts)).1.
Proof.
  induction k as [|k IH]; [done|]. cbn [Nat.add]. rewrite scheduled_next, nth_overflow by lia. cbn. by rewrite <-IH.
Qed.

Lemma scheduled_fair acts s :
  Forall (λ a, match a with ActRead io => clean io | ActBackgroundError _ => False | _ => True end) acts →
  fair_run step plan (scheduled acts s).
Proof.
  intros Hclean. split.
  - intros n. rewrite scheduled_next. destruct (nth_in_or_default n acts (ActRead read_one)) as [Hin| ->].
    + rewrite Forall_forall in Hclean. specialize (Hclean _ (proj2 (list_elem_of_In _ _) Hin)).
      destruct (scheduled acts s n) as [[t w] r]. destruct (nth n acts (ActRead read_one)); cbn; try (left; split; [|done]).
      * apply ws_writer.
      * apply ws_background.
      * done.
      * apply ws_guard.
      * apply ws_record.
      * right. by exists io.
    + right. exists read_one. split; [done|]. by destruct (scheduled acts s n) as [[t w] r].
  - intros n. exists (n + length acts)%nat. split; [lia|]. exists read_one. split; [done|].
    rewrite scheduled_next, nth_overflow by lia. done.
Qed.

(** What holds of the worlds of the first steps holds of all. *)
Lemma scheduled_always (P : FillWorld → Prop) acts s :
  Forall P (map (λ n, (scheduled acts s n).1.2) (seq 0 (S (length acts)))) → ∀ n, P (scheduled acts s n).1.2.
Proof.
  intros HP n. rewrite Forall_map, Forall_seq in HP. destruct (decide (n ≤ length acts)%nat); [apply HP; lia|].
  replace n with ((n - length acts) + length acts)%nat by lia. rewrite scheduled_world. apply HP. lia.
Qed.
End Scheduled.
End Fill.
