(* ===== verification/CacheFillSafety.v ===== *)
(** * Readers of a running fill

    A reader that opened the file of a fill delivers its whole body and its
    trailers, once the fill finished; and the windows in which a reader of
    the same process is cut short, ends with a spurious error or waits for
    ever. *)

From S2P Require Import Prelude RustStr External Body CacheConfig CacheTypes CacheRequest CachePolicy CacheStore CacheIndex SharedMemory SharedIndex CacheLookup CacheFillShared CacheFill.

Section World.
Context {HTTP : HttpApi} (plan : BodyPlan).

(** ** The writer *)

Definition unannounced (pc : WriterPc) : Z := match pc with WAnnounce data => len data | _ => 0 end.
Definition flushed (pc : WriterPc) : bool := match pc with WFinish _ | WFinalize => true | _ => false end.
Definition past_finish (pc : WriterPc) : bool := match pc with WFinalize | WDone => true | _ => false end.

(** What the record says of the end of the fill is so. *)
Definition record_ok (w : FillWorld) : Prop :=
  ∀ r, fw_record w = Ok r → sfs_finished r = true →
    rs_finished (fw_read w) = true ∧ sfs_trailers r = shared_headers_from_map <$> rs_trailers (fw_read w).

(** The announced bytes were accepted, and a finished fill has all its bytes in
    the file. *)
Record world_ok (t : FillWriter) (w : FillWorld) : Prop := {
  wo_size : rs_bytes_written (fw_read w) = wr_body_size t;
  wo_total : fw_write_error w = None →
    wr_body_size t = Z.min (len (fw_file w ++ fw_buffered w) - unannounced (wr_pc t)) u64_max;
  wo_flushed : flushed (wr_pc t) || rs_finished (fw_read w) = true →
    fw_write_error w = None ∧ fw_buffered w = [];
  wo_finished : rs_finished (fw_read w) = true → past_finish (wr_pc t) = true;
  wo_finalize : wr_pc t = WFinalize → rs_finished (fw_read w) = true;
  wo_record : record_ok w;
  wo_range : 0 ≤ wr_body_size t ≤ u64_max;
}.

(** Worlds that differ in names, errors and notifications only. *)
Definition same_core (w w' : FillWorld) : Prop :=
  rs_bytes_written (fw_read w') = rs_bytes_written (fw_read w) ∧
  rs_finished (fw_read w') = rs_finished (fw_read w) ∧ rs_trailers (fw_read w') = rs_trailers (fw_read w) ∧
  fw_file w' = fw_file w ∧ fw_buffered w' = fw_buffered w ∧ fw_write_error w' = fw_write_error w ∧
  (fw_tmp w = false → fw_tmp w' = false) ∧ fw_notifications w ≤ fw_notifications w' ∧
  ∀ r', fw_record w' = Ok r' →
    ∃ r, fw_record w = Ok r ∧ sfs_finished r' = sfs_finished r ∧ sfs_trailers r' = sfs_trailers r.

Lemma same_core_refl w : same_core w w.
Proof. split_and!; try done; try lia. intros r ->. by exists r. Qed.

Lemma same_core_trans u v w : same_core u v → same_core v w → same_core u w.
Proof.
  intros (?&?&?&?&?&?&?&?&Hu) (?&?&?&?&?&?&?&?&Hv). split_and!; try congruence; try lia; [auto|].
  intros r Hr. destruct (Hv r Hr) as (r' & Hr' & Hf & Ht). destruct (Hu r' Hr') as (r'' & ? & ? & ?).
  exists r''. split_and!; congruence.
Qed.

Lemma same_core_fail error published w : same_core w (fail_fill error published w).
Proof.
  split_and!; try done; [cbn; lia|]. cbn. intros r. destruct (fw_record w) as [r0|]; [|done]. intros [= <-].
  exists r0. by destruct published.
Qed.
Lemma same_core_upstream published w : same_core w (complete_upstream published w).
Proof.
  split_and!; try done; [cbn; lia|]. cbn. intros r. destruct (fw_record w) as [r0|]; [|done]. intros [= <-].
  exists r0. by destruct published.
Qed.
Lemma same_core_wake w : same_core w (wake w).
Proof.
  split_and!; try done; [cbn; lia|]. cbn. intros r. destruct (fw_record w) as [r0|]; [|done]. intros [= <-]. by exists r0.
Qed.
Lemma same_core_record e w : same_core w (lose_record e w).
Proof. split_and!; try done; cbn; lia. Qed.
Lemma same_core_paths tmp body w : (fw_tmp w = false → tmp = false) → same_core w (with_paths tmp body w).
Proof. intros Htmp. split_and!; try done. cbn. intros r Hr. by exists r. Qed.

Lemma same_core_finalize size io w : same_core w (finalize_body plan size io w).
Proof.
  assert (Hrm : ∀ v, same_core w v → same_core w (remove_tmp v)).
  { intros v Hv. eapply same_core_trans; [exact Hv|]. by apply same_core_paths. }
  unfold finalize_body. destruct (_ <? _); [apply Hrm, same_core_refl|].
  assert (Hcommit : same_core w (commit_body io w)).
  { unfold commit_body. destruct (fin_head_error io); [apply Hrm, same_core_fail|].
    destruct (fin_commit io); cbn; try (by apply same_core_refl); by apply same_core_paths. }
  destruct (bp_expected_body_bytes plan); [|done]. destruct (negb _); [|done]. apply Hrm, same_core_fail.
Qed.

Lemma same_core_ok t t' w w' :
  same_core w w' → wr_body_size t' = wr_body_size t → wr_pc t' = wr_pc t ∨ wr_pc t' = WDone →
  (wr_pc t' = WDone → unannounced (wr_pc t) = 0) → world_ok t w → world_ok t' w'.
Proof.
  intros (H1&H2&H3&H4&H5&H6&_&_&H7) Hsize Hpc Hun [Hs Ht Hf Hfin Hfz Hr Hrange]. split.
  - congruence.
  - rewrite H6, H4, H5, Hsize. intros He. rewrite (Ht He). destruct Hpc as [->|Hd]; [done|].
    by rewrite (Hun Hd), Hd.
  - rewrite H6, H5, H2. intros Hor. apply Hf. destruct Hpc as [<-|Hd]; [done|]. rewrite Hd in Hor. cbn in Hor.
    rewrite Hor. by destruct (flushed _).
  - rewrite H2. intros Hx. destruct Hpc as [->| ->]; [by apply Hfin|done].
  - rewrite H2. intros Hx. apply Hfz. destruct Hpc; congruence.
  - intros r Hrr Hfr. destruct (H7 r Hrr) as (r0 & Hr0 & Hf0 & Ht0). rewrite H2, H3.
    destruct (Hr r0 Hr0) as (? & ?); [congruence|]. split; congruence.
  - by rewrite Hsize.
Qed.

Lemma abandon_ok error io t w :
  unannounced (wr_pc t) = 0 → world_ok t w → world_ok (abandon error io t w).1 (abandon error io t w).2.
Proof.
  intros Hun Hok. eapply (same_core_ok t); [|done|by right|done|done].
  eapply same_core_trans; [apply same_core_fail|by apply same_core_paths].
Qed.

Lemma writer_step_ok io t w : world_ok t w → world_ok (writer_step plan io t w).1 (writer_step plan io t w).2.
Proof.
  intros Hok. pose proof Hok as [Hs Ht Hf Hfin Hfz Hr Hrange]. unfold writer_step.
  destruct (wr_pc t) as [|data|data|trailers|trailers| |] eqn:Hpc.
  - destruct (wr_queue t) as [|[data|trailers|] queue].
    + destruct (wr_closed t); [apply abandon_ok; [by rewrite Hpc|done]|done].
    + split; cbn; try done; intros H; by apply Hfin in H.
    + split; cbn; try done; intros H; by apply Hfin in H.
    + cbn. eapply (same_core_ok t); [by apply same_core_paths|done|by right|by rewrite Hpc|done].
  - destruct (fw_write_error w) eqn:He; [apply abandon_ok; [by rewrite Hpc|done]|].
    assert (Hnf : rs_finished (fw_read w) = false).
    { destruct (rs_finished (fw_read w)); [|done]. by specialize (Hfin eq_refl). }
    split; cbn.
    + done.
    + intros _. rewrite (Ht eq_refl), app_assoc, !len_app. cbn. f_equal. lia.
    + by rewrite Hnf.
    + by rewrite Hnf.
    + done.
    + exact Hr.
    + exact Hrange.
  - split; cbn.
    + done.
    + intros He. rewrite (Ht He). unfold sat_add64. cbn. rewrite Z.sub_0_r. pose proof (len_nonneg data). lia.
    + intros H. by apply Hfin in H.
    + intros H. by apply Hfin in H.
    + done.
    + intros r. unfold record_ok in Hr. cbn. destruct (fw_record w) as [r0|]; [|done]. intros [= <-]. by apply Hr.
    + unfold sat_add64. pose proof (len_nonneg data). unfold u64_max in *. lia.
  - destruct (fw_write_error w) eqn:He; [apply abandon_ok; [by rewrite Hpc|done]|].
    destruct (fw_buffered w) eqn:Hb; [|done].
    split; cbn; rewrite ?He, ?Hb; try done; intros H; by apply Hfin in H.
  - destruct (Hf eq_refl) as (He & Hb). split; cbn; rewrite ?He, ?Hb; try done.
    + intros _. by rewrite (Ht He), Hb.
    + intros r. cbn. destruct (fw_record w) as [r0|] eqn:Er; [|done]. intros [= <-]. cbn.
      destruct (fin_published io); [done|]. cbn. intros Hx. by destruct (Hr r0 Er Hx) as (Hy & _); apply Hfin in Hy.
  - cbn. eapply (same_core_ok t); [apply same_core_finalize|done|by right|by rewrite Hpc|done].
  - done.
Qed.

Lemma world_step_ok t w t' w' : world_step plan (t, w) (t', w') → world_ok t w → world_ok t' w'.
Proof.
  intros Hstep Hok. inversion Hstep; subst.
  - match goal with H : writer_step _ ?io _ _ = _ |- _ => pose proof (writer_step_ok io _ _ Hok) as Hn; by rewrite H in Hn end.
  - destruct Hok as [Hs Ht Hf Hfin Hfz Hr Hrange]. split; cbn; try done.
    + intros He. by rewrite (Ht He), <-app_assoc, take_drop.
    + intros H. destruct (Hf H) as (He & ->). by rewrite drop_nil.
  - destruct Hok as [Hs Ht Hf Hfin Hfz Hr Hrange]. split; cbn; try done. intros H. by destruct (Hf H).
  - eapply (same_core_ok t); [apply same_core_refl|done|by left|by (cbn; intros ->)|done].
  - eapply (same_core_ok t); [apply same_core_refl|done|by left|by (cbn; intros ->)|done].
  - eapply (same_core_ok t'); [apply same_core_fail|done|by left|by (cbn; intros ->)|done].
  - eapply (same_core_ok t'); [apply same_core_upstream|done|by left|by (cbn; intros ->)|done].
  - eapply (same_core_ok t'); [apply same_core_wake|done|by left|by (cbn; intros ->)|done].
  - eapply (same_core_ok t'); [apply same_core_record|done|by left|by (cbn; intros ->)|done].
  - eapply (same_core_ok t'); [by apply same_core_paths|done|by left|by (cbn; intros ->)|done].
Qed.

Lemma fill_start_ok status headers record body :
  sfs_finished record = false → world_ok fill_writer_start (fill_start status headers record body).
Proof. intros Hr. split; try done. intros r [= <-]. by rewrite Hr. Qed.

(** ** What a step of the world leaves to the readers *)

(** The file only grows, names and notifications do not come back, an end stays
    announced in a record that is still there; after the finish the file and
    the read state stay. *)
Record later (w w' : FillWorld) : Prop := {
  la_file : fw_file w `prefix_of` fw_file w';
  la_tmp : fw_tmp w = false → fw_tmp w' = false;
  la_notifications : fw_notifications w ≤ fw_notifications w';
  la_announced : rs_bytes_written (fw_read w) ≤ rs_bytes_written (fw_read w');
  la_record r' : fw_record w' = Ok r' →
    ∃ r, fw_record w = Ok r ∧ (sfs_finished r = true → sfs_finished r' = true);
  la_finished : rs_finished (fw_read w) = true →
    rs_finished (fw_read w') = true ∧ fw_file w' = fw_file w ∧
    rs_trailers (fw_read w') = rs_trailers (fw_read w) ∧
    rs_bytes_written (fw_read w') = rs_bytes_written (fw_read w);
}.

Lemma same_core_later w w' : same_core w w' → later w w'.
Proof.
  intros (H1&H2&H3&H4&H5&H6&H7&H8&H9). split; try done.
  - by rewrite H4.
  - by rewrite H1.
  - intros r' Hr'. destruct (H9 r' Hr') as (r0 & Hr0 & Hf0 & _). exists r0. by rewrite Hf0.
  - intros Hf. by rewrite H2, H4, H3, H1.
Qed.

Lemma later_refl w : later w w.
Proof. apply same_core_later, same_core_refl. Qed.

Lemma later_trans u v w : later u v → later v w → later u w.
Proof.
  intros [Hf1 Ht1 Hn1 Ha1 Hr1 He1] [Hf2 Ht2 Hn2 Ha2 Hr2 He2]. split.
  - by etrans.
  - auto.
  - lia.
  - lia.
  - intros r Hr. destruct (Hr2 r Hr) as (r1 & Hr1' & ?). destruct (Hr1 r1 Hr1') as (r2 & ? & ?). eauto.
  - intros H. destruct (He1 H) as (H' & <- & <- & <-). by apply He2.
Qed.

Lemma later_abandon error io t w : later w (abandon error io t w).2.
Proof.
  apply same_core_later. eapply same_core_trans; [apply same_core_fail|by apply same_core_paths].
Qed.

Ltac later_fields Hfin :=
  split; cbn; [done|done|lia|try lia|intros r'; destruct (fw_record _) as [r0|]; [|done]; intros [= <-]; exists r0; split; [done|]; try done|intros H; by apply Hfin in H].

Lemma writer_step_later io t w : world_ok t w → later w (writer_step plan io t w).2.
Proof.
  intros Hok. pose proof Hok as [Hs Ht Hf Hfin Hfz Hr Hrange]. unfold writer_step.
  destruct (wr_pc t) as [|data|data|trailers|trailers| |] eqn:Hpc.
  - destruct (wr_queue t) as [|[data|trailers|] queue]; try apply later_refl.
    + destruct (wr_closed t); [apply later_abandon|apply later_refl].
    + cbn. apply same_core_later. by apply same_core_paths.
  - destruct (fw_write_error w) eqn:He; [apply later_abandon|].
    later_fields Hfin.
  - later_fields Hfin. rewrite Hs. unfold sat_add64. pose proof (len_nonneg data). lia.
  - destruct (fw_write_error w) eqn:He; [apply later_abandon|]. destruct (fw_buffered w); apply later_refl.
  - later_fields Hfin. by destruct (fin_published io).
  - cbn. apply same_core_later, same_core_finalize.
  - apply later_refl.
Qed.

Lemma world_step_later t w t' w' : world_ok t w → world_step plan (t, w) (t', w') → later w w'.
Proof.
  intros Hok Hstep. inversion Hstep; subst.
  - match goal with H : writer_step _ ?io _ _ = _ |- _ => pose proof (writer_step_later io _ _ Hok) as Hn; by rewrite H in Hn end.
  - destruct Hok as [_ _ Hf _ _ _ _]. split; cbn; [|done|lia|lia| |].
    + by eexists.
    + intros r' Hr'. by exists r'.
    + intros H. rewrite H, orb_true_r in Hf. destruct (Hf eq_refl) as (_ & ->). by rewrite take_nil, app_nil_r.
  - split; cbn; try done; try lia. intros r' Hr'. by exists r'.
  - apply later_refl.
  - apply later_refl.
  - apply same_core_later, same_core_fail.
  - apply same_core_later, same_core_upstream.
  - apply same_core_later, same_core_wake.
  - apply same_core_later, same_core_record.
  - by apply same_core_later, same_core_paths.
Qed.

(** The bytes of a finished fill: in the file, and as many as announced. *)
Lemma finished_size t w :
  world_ok t w → rs_finished (fw_read w) = true → rs_bytes_written (fw_read w) = Z.min (len (fw_file w)) u64_max.
Proof.
  intros [Hs Ht Hf Hfin Hfz Hr Hrange] Hfi. rewrite Hfi, orb_true_r in Hf. destruct (Hf eq_refl) as (He & Hb).
  rewrite Hs, (Ht He), Hb, app_nil_r. specialize (Hfin Hfi). destruct (wr_pc t); try done; cbn; f_equal; lia.
Qed.
End World.

(** ** The end of a fair run *)

(** Something that is left as it is by the others, gets smaller at each step of
    its own and is never left out for ever, comes to its end. *)
Lemma fair_end {S} (run : nat → S) (done_at : S → Prop) (μ : S → nat) (start : nat) :
  (∀ n, (start ≤ n)%nat → done_at (run n) → done_at (run (1 + n)%nat)) →
  (∀ n, (start ≤ n)%nat → done_at (run (1 + n)%nat) ∨ (μ (run (1 + n)%nat) ≤ μ (run n))%nat) →
  (∀ n, (start ≤ n)%nat → ∃ m, (n ≤ m)%nat ∧ (done_at (run (1 + m)%nat) ∨ (μ (run (1 + m)%nat) < μ (run m))%nat)) →
  ∃ n, (start ≤ n)%nat ∧ done_at (run n).
Proof.
  intros Hstay Hle Hlt.
  assert (Hmono : ∀ d n, (start ≤ n)%nat → done_at (run (d + n)%nat) ∨ (μ (run (d + n)%nat) ≤ μ (run n))%nat).
  { intros d. induction d as [|d IH]; intros n Hn; [right; done|]. cbn.
    destruct (IH n Hn) as [Hd|Hd]; [left; apply Hstay; [lia|done]|].
    destruct (Hle (d + n)%nat ltac:(lia)) as [|Hl]; [by left|right; cbn in Hl; lia]. }
  assert (Hgo : ∀ k n, (start ≤ n)%nat → (μ (run n) ≤ k)%nat → ∃ m, (start ≤ m)%nat ∧ done_at (run m)).
  { intros k. induction k as [k IH] using lt_wf_ind. intros n Hn Hk.
    destruct (Hlt n Hn) as (m & Hm & [Hd|Hd]); [exists (1 + m)%nat; split; [lia|done]|].
    pose proof (Hmono (m - n)%nat n Hn) as H0. replace (m - n + n)%nat with m in H0 by lia.
    destruct H0 as [H0|H0]; [exists m; split; [lia|done]|].
    apply (IH (μ (run (1 + m)%nat)) ltac:(lia) (1 + m)%nat); lia. }
  by apply (Hgo (μ (run start)) start).
Qed.

(** ** Reading a file in chunks *)

Section Chunks.
Context {HTTP : HttpApi}.

(** A read goes on where the last one stopped, and stops only at the end. *)
Lemma file_read_spec io file room w done_ :
  done_ `prefix_of` file_content file w → (0 < room)%nat →
  let data := file_read io file (length done_) room w in
  (done_ ++ data) `prefix_of` file_content file w ∧ (length data ≤ room)%nat ∧
  (data = [] → done_ = file_content file w).
Proof.
  intros [rest Hc] Hroom. unfold file_read. cbn. rewrite Hc, drop_app_length. split_and!.
  - rewrite <-(take_drop (Nat.min room (Nat.max 1 (io_count io))) rest) at 2. rewrite app_assoc. by eexists.
  - rewrite length_take. lia.
  - destruct rest as [|b rest]; [by rewrite app_nil_r|].
    destruct (Nat.min room (Nat.max 1 (io_count io))) eqn:E; [lia|done].
Qed.

Lemma chunk_len_spec available offset :
  0 ≤ offset → offset < available →
  (0 < chunk_len available offset)%nat ∧ offset + Z.of_nat (chunk_len available offset) ≤ available ∧
  Z.of_nat (chunk_len available offset) ≤ IN_FLIGHT_FILL_READ_CHUNK_BYTES.
Proof. unfold chunk_len, IN_FLIGHT_FILL_READ_CHUNK_BYTES. lia. Qed.

(** The chunks sent so far, none empty and none longer than the bound. *)
Definition chunks_ok (chunks : list bytes) : Prop :=
  Forall (λ data, data ≠ [] ∧ len data ≤ IN_FLIGHT_FILL_READ_CHUNK_BYTES) chunks.

Lemma data_frames_snoc chunks data :
  data_frames (chunks ++ [data]) = data_frames chunks ++ [ReadyFrame (DataFrame data)].
Proof. unfold data_frames. by rewrite map_app. Qed.

Lemma chunks_ok_snoc chunks data :
  chunks_ok chunks → data ≠ [] → len data ≤ IN_FLIGHT_FILL_READ_CHUNK_BYTES → chunks_ok (chunks ++ [data]).
Proof. intros. apply Forall_app. split; [done|]. by constructor. Qed.

(** A reader with [chunks] sent and [buffer] read of the next one. *)
Record reading (chunks : list bytes) (buffer : bytes) (position : nat) (offset : Z) (content : bytes) : Prop := {
  rg_prefix : (concat chunks ++ buffer) `prefix_of` content;
  rg_position : position = length (concat chunks ++ buffer);
  rg_offset : offset = len (concat chunks);
  rg_chunks : chunks_ok chunks;
}.

Lemma reading_grows chunks buffer position offset content content' :
  content `prefix_of` content' → reading chunks buffer position offset content →
  reading chunks buffer position offset content'.
Proof. intros Hp [H ? ? ?]. split; try done. by etrans. Qed.

Lemma reading_bound chunks buffer position offset content :
  reading chunks buffer position offset content → 0 ≤ offset ∧ offset + len buffer ≤ len content ∧
  Z.of_nat position = offset + len buffer.
Proof.
  intros [Hp -> -> _]. apply prefix_length in Hp. rewrite length_app in *. unfold len. lia.
Qed.

Lemma reading_sent chunks buffer position offset content :
  buffer ≠ [] → len buffer ≤ IN_FLIGHT_FILL_READ_CHUNK_BYTES → len content ≤ u64_max →
  reading chunks buffer position offset content →
  reading (chunks ++ [buffer]) [] position (sat_add64 offset (len buffer)) content.
Proof.
  intros Hb Hl Hmax Hr. pose proof (reading_bound _ _ _ _ _ Hr) as (H0 & H1 & _). destruct Hr as [Hp -> -> Hc].
  split; rewrite ?concat_app; cbn; rewrite ?app_nil_r; try done.
  - rewrite len_app. unfold sat_add64. lia.
  - by apply chunks_ok_snoc.
Qed.

Lemma reading_more chunks buffer offset content data :
  reading chunks buffer (length (concat chunks ++ buffer)) offset content →
  ((concat chunks ++ buffer) ++ data) `prefix_of` content →
  reading chunks (buffer ++ data) (length (concat chunks ++ buffer) + length data) offset content.
Proof.
  intros [Hp _ Ho Hc] Hd. split; [by rewrite app_assoc|by rewrite app_assoc, (length_app _ data)|done|done].
Qed.

Lemma reading_all chunks position offset content :
  reading chunks [] position offset content → len content ≤ offset → concat chunks = content.
Proof.
  intros [Hp _ -> _] Hl. rewrite app_nil_r in Hp. apply prefix_length_eq; [done|].
  destruct Hp as [k ->]. unfold len in Hl. rewrite length_app in *. lia.
Qed.
End Chunks.

(** ** A reader in another process *)

Section External.
Context {HTTP : HttpApi}.

(** The trailers another process decodes from the record. *)
Definition shared_trailers (w : FillWorld) : option HeaderMap :=
  rs_trailers (fw_read w) ≫= λ t, io_ok (header_map_from_shared_headers (shared_headers_from_map t)).

(** What the snapshot says of the end of the fill is so. *)
Definition snapshot_ok (w : FillWorld) (snapshot : SharedFillStateRecord) : Prop :=
  sfs_error snapshot = None ∧
  (sfs_finished snapshot = true →
     rs_finished (fw_read w) = true ∧ sfs_trailers snapshot = shared_headers_from_map <$> rs_trailers (fw_read w)).

(** Everything was sent. *)
Definition whole_body_sent (w : FillWorld) (sent : list (FramePoll ReaderError)) : Prop :=
  rs_finished (fw_read w) = true ∧
  ∃ chunks, chunks_ok chunks ∧ concat chunks = fw_file w ∧
    sent = data_frames chunks ++ trailers_frame (shared_trailers w).

(** Everything was sent, or the file was gone before it was opened. *)
Definition external_sent (w : FillWorld) (sent : list (FramePoll ReaderError)) : Prop :=
  whole_body_sent w sent ∨ sent = [ReadyError (IoFailure NotFound)].

Definition external_ok (w : FillWorld) (r : ExternalReader) : Prop :=
  let snapshot := er_snapshot r in
  let read chunks buffer := reading chunks buffer (er_position r) (er_offset r) (fw_file w) ∧
                            er_file r = ThisFill ∧ er_sent r = data_frames chunks in
  match er_pc r with
  | EFirst => (er_offset r = 0 ∧ er_position r = 0%nat) ∧ er_sent r = []
  | EOpenTmp => (er_offset r = 0 ∧ er_position r = 0%nat) ∧ er_sent r = [] ∧ snapshot_ok w snapshot
  | EOpenBody =>
      (er_offset r = 0 ∧ er_position r = 0%nat) ∧ er_sent r = [] ∧ snapshot_ok w snapshot ∧ sfs_finished snapshot = true ∧ fw_tmp w = false
  | ERecord => (∃ chunks, read chunks []) ∧ snapshot_ok w snapshot
  | EMetaTmp => (∃ chunks, read chunks []) ∧ snapshot_ok w snapshot
  | EMetaBody =>
      (∃ chunks, read chunks []) ∧ snapshot_ok w snapshot ∧ sfs_finished snapshot = true ∧ fw_tmp w = false
  | ERead chunk buffer =>
      (∃ chunks, read chunks buffer) ∧ snapshot_ok w snapshot ∧ (length buffer < chunk)%nat ∧
      Z.of_nat chunk ≤ IN_FLIGHT_FILL_READ_CHUNK_BYTES ∧ er_offset r + Z.of_nat chunk ≤ len (fw_file w)
  | ESend buffer =>
      (∃ chunks, read chunks buffer) ∧ snapshot_ok w snapshot ∧ buffer ≠ [] ∧
      len buffer ≤ IN_FLIGHT_FILL_READ_CHUNK_BYTES
  | EDone => external_sent w (er_sent r)
  end.

(** The environment a reader needs: the record stays readable and free of
    errors, and one of the names of the file stays. *)
Definition served (w : FillWorld) : Prop :=
  (∃ record, fw_record w = Ok record ∧ sfs_error record = None) ∧
  (fw_tmp w = true ∨ fw_body w = Some ThisFill) ∧ len (fw_file w) ≤ u64_max.

Lemma snapshot_later w w' snapshot : later w w' → snapshot_ok w snapshot → snapshot_ok w' snapshot.
Proof.
  intros Hl [He Hf]. split; [done|]. intros H. destruct (Hf H) as (Hfin & ->).
  destruct (la_finished _ _ Hl Hfin) as (? & _ & -> & _). done.
Qed.

Lemma external_sent_later w w' sent : later w w' → external_sent w sent → external_sent w' sent.
Proof.
  intros Hl [(Hf & chunks & Hc & Hall & ->)|]; [|by right]. left.
  destruct (la_finished _ _ Hl Hf) as (? & Hfile & Ht & _). split; [done|].
  exists chunks. unfold shared_trailers. rewrite Ht, Hfile. done.
Qed.

Lemma external_later w w' r : later w w' → external_ok w r → external_ok w' r.
Proof.
  intros Hl. pose proof (la_file _ _ Hl) as Hp. pose proof (prefix_length _ _ Hp) as Hlen.
  pose proof (la_tmp _ _ Hl) as Htmp. pose proof (snapshot_later _ _ (er_snapshot r) Hl) as Hs.
  assert (Hr : ∀ chunks buffer,
    reading chunks buffer (er_position r) (er_offset r) (fw_file w) ∧ er_file r = ThisFill ∧
      er_sent r = data_frames chunks →
    reading chunks buffer (er_position r) (er_offset r) (fw_file w') ∧ er_file r = ThisFill ∧
      er_sent r = data_frames chunks).
  { intros chunks buffer (? & ? & ?). split_and!; [|done..]. by eapply reading_grows. }
  unfold external_ok. destruct (er_pc r).
  - done.
  - intros (? & ? & ?). auto.
  - intros (? & ? & ? & ? & ?). destruct_and!. split_and!; auto.
  - intros ((chunks & H) & ?). split; [exists chunks|]; auto.
  - intros ((chunks & H) & ?). split; [exists chunks|]; auto.
  - intros ((chunks & H) & ? & ? & ?). split_and!; [exists chunks| | |]; auto.
  - intros ((chunks & H) & ? & ? & ? & ?). split_and!; [exists chunks| | | |]; auto. unfold len in *. lia.
  - intros ((chunks & H) & ? & ? & ?). split_and!; [exists chunks| | |]; auto.
  - by apply external_sent_later.
Qed.

(** A read within an announced chunk gives something. *)
Lemma external_read_some io w r chunk buffer chunks :
  reading chunks buffer (er_position r) (er_offset r) (fw_file w) → er_file r = ThisFill →
  (length buffer < chunk)%nat → er_offset r + Z.of_nat chunk ≤ len (fw_file w) →
  ∃ b data, file_read io (er_file r) (er_position r) (chunk - length buffer) w = b :: data ∧
    (length (b :: data) ≤ chunk - length buffer)%nat ∧ (er_position r < length (fw_file w))%nat ∧
    reading chunks (buffer ++ b :: data) (er_position r + length (b :: data)) (er_offset r) (fw_file w).
Proof.
  intros Hr Hfile Hlt Hend. pose proof (reading_bound _ _ _ _ _ Hr) as (Hb0 & Hb1 & Hb2).
  destruct (file_read_spec io ThisFill (chunk - length buffer) w (concat chunks ++ buffer)) as (Hd1 & Hd2 & Hd3);
    [apply Hr|lia|]. cbn in Hd1. rewrite <-(rg_position _ _ _ _ _ Hr), <-Hfile in Hd1, Hd2, Hd3.
  assert (Hpos : (er_position r < length (fw_file w))%nat) by (unfold len in *; lia).
  destruct (file_read io (er_file r) (er_position r) (chunk - length buffer) w) as [|b data] eqn:Edata.
  { exfalso. specialize (Hd3 eq_refl). rewrite Hfile in Hd3. cbn in Hd3.
    pose proof (rg_position _ _ _ _ _ Hr) as Hp. rewrite Hd3 in Hp. lia. }
  exists b, data. split_and!; [done|done|done|].
  pose proof Hr as Hmore. rewrite (rg_position _ _ _ _ _ Hr) in Hmore.
  pose proof (reading_more _ _ _ _ _ Hmore Hd1) as Hr'. by rewrite <-(rg_position _ _ _ _ _ Hr) in Hr'.
Qed.

(** Starting a chunk or ending, once the length of the file is known. *)
Lemma external_turn_ok io w r chunks available :
  clean io → reading chunks [] (er_position r) (er_offset r) (fw_file w) → er_file r = ThisFill →
  er_sent r = data_frames chunks → snapshot_ok w (er_snapshot r) → available ≤ len (fw_file w) →
  (sfs_finished (er_snapshot r) = true → available = len (fw_file w)) →
  external_ok w (external_turn io available r).
Proof.
  intros (_ & Hrecv) Hr Hfile Hsent [He Hf] Hle Hall. pose proof (reading_bound _ _ _ _ _ Hr) as (H0 & _ & _).
  unfold external_turn. destruct (Z.ltb_spec (er_offset r) available) as [Hlt|Hge].
  - destruct (chunk_len_spec available (er_offset r) H0 Hlt) as (Hpos & Hend & Hmax).
    unfold external_fill_chunk. rewrite (proj2 (Nat.ltb_lt _ _)) by done.
    cbn. split_and!; [by exists chunks|done|done|done|lia].
  - rewrite He. destruct (sfs_finished (er_snapshot r)) eqn:Efin; [|cbn; split; [by exists chunks|by split; [|rewrite Efin]]].
    destruct (Hf eq_refl) as (Hfin & Ht). specialize (Hall eq_refl). subst available.
    assert (Hdone : external_sent w (er_sent r ++ trailers_frame (shared_trailers w))).
    { left. split; [done|]. exists chunks. rewrite Hsent. split_and!; [apply Hr|by eapply reading_all|done]. }
    unfold shared_trailers in Hdone. rewrite Ht. destruct (rs_trailers (fw_read w)) as [t|]; cbn in *;
      [|by rewrite app_nil_r in Hdone].
    destruct (header_map_from_shared_headers _) as [m|]; cbn in *; [|by rewrite app_nil_r in Hdone].
    unfold external_end, external_ok, send. by rewrite Hrecv.
Qed.

Lemma external_step_ok t io w r :
  world_ok t w → served w → clean io → external_ok w r → external_ok w (external_step io w r).
Proof.
  intros Hw ((record & Hrec & Herr) & Hnames & Hmax) Hio Hok. pose proof Hio as (Hfault & Hrecv).
  assert (Hsnap : snapshot_ok w record). { split; [done|]. by apply (wo_record _ _ Hw). }
  unfold external_ok in Hok. unfold external_step. rewrite ?Hfault, ?Hrec.
  assert (Hopen : er_offset r = 0 ∧ er_position r = 0%nat → er_sent r = [] ∧ snapshot_ok w (er_snapshot r) → external_ok w (external_open ThisFill r)).
  { intros (H0 & Hp0) (Hs & Hsn). cbn. split; [|done]. exists []. split_and!; [|done|done]. split; [apply prefix_nil|done|done|constructor]. }
  assert (Hgone : external_ok w (external_end io (ReadyError (IoFailure NotFound)) r) ∨ er_sent r ≠ []).
  { destruct (er_sent r) eqn:Es; [left|by right]. cbn. unfold send. rewrite Hrecv, Es. by right. }
  destruct (er_pc r) as [| | | | | |chunk buffer|buffer|] eqn:Epc.
  - cbn. destruct Hok. done.
  - destruct Hok as (H0 & Hs & Hsn). destruct (fw_tmp w) eqn:Etmp; [by apply Hopen|].
    destruct (sfs_finished (er_snapshot r)) eqn:Ef; [done|]. by destruct Hgone.
  - destruct Hok as (H0 & Hs & Hsn & Hf & Htmp). destruct Hnames as [Hn| ->]; [congruence|]. by apply Hopen.
  - destruct Hok as (Hread & _). done.
  - destruct Hok as ((chunks & Hr & Hfile & Hsent) & Hsn). destruct (fw_tmp w) eqn:Etmp.
    + by eapply external_turn_ok.
    + destruct (sfs_finished (er_snapshot r)) eqn:Ef.
      * cbn. split_and!; try done. by exists chunks.
      * eapply external_turn_ok; try done; [unfold len; lia|congruence].
  - destruct Hok as ((chunks & Hr & Hfile & Hsent) & Hsn & Hf & Htmp). destruct Hnames as [Hn| ->]; [congruence|].
    by eapply external_turn_ok.
  - destruct Hok as ((chunks & Hr & Hfile & Hsent) & Hsn & Hlt & Hle & Hend).
    destruct (external_read_some io w r chunk buffer chunks) as (b & data & Edata & Hd2 & _ & Hr'); try done. rewrite Edata.
    unfold external_fill_chunk. destruct (Nat.ltb_spec (length (buffer ++ b :: data)) chunk); cbn.
    + split_and!; try done. exists chunks. by split_and!.
    + split_and!; [by exists chunks|done|by destruct buffer|].
      unfold len. rewrite length_app in *. cbn in *. lia.
  - destruct Hok as ((chunks & Hr & Hfile & Hsent) & Hsn & Hne & Hle). rewrite Hrecv. cbn. split; [|done].
    exists (chunks ++ [buffer]). split_and!; [|done|].
    + by apply reading_sent.
    + unfold send. by rewrite Hrecv, data_frames_snoc, Hsent.
  - unfold external_ok. by rewrite Epc.
Qed.

(** The error of a name that is not there is sent from one place: the temporary
    name is gone when it is opened, and the record was unfinished before. *)
Lemma not_found_sent io w r :
  clean io → served w → external_ok w r → er_sent (external_step io w r) = [ReadyError (IoFailure NotFound)] →
  er_sent r = [ReadyError (IoFailure NotFound)] ∨
  (er_pc r = EOpenTmp ∧ sfs_finished (er_snapshot r) = false ∧ fw_tmp w = false).
Proof.
  intros (Hfault & Hrecv) ((record & Hrec & Herr) & Hnames & Hmax) Hok. unfold external_ok in Hok.
  assert (Hlast : ∀ sent (item : FramePoll ReaderError), item ≠ ReadyError (IoFailure NotFound) →
    sent ++ [item] = [ReadyError (IoFailure NotFound)] → sent = [ReadyError (IoFailure NotFound)]).
  { by intros sent item Hne [(_ & [= ?])|(_ & [=])]%app_eq_unit. }
  assert (Hturn : ∀ available, er_sent (external_turn io available r) = [ReadyError (IoFailure NotFound)] →
    er_sent r = [ReadyError (IoFailure NotFound)]).
  { intros available. unfold external_turn, external_fill_chunk, external_end, external_at, send. rewrite Hrecv.
    repeat case_match; try done; cbn; apply Hlast; done. }
  unfold external_step. rewrite ?Hfault, ?Hrec.
  destruct (er_pc r) as [| | | | | |chunk buffer|buffer|] eqn:Epc; try by left.
  - destruct (fw_tmp w) eqn:Etmp; [by left|]. destruct (sfs_finished (er_snapshot r)) eqn:Ef; [by left|by right].
  - destruct Hok as (_ & _ & _ & _ & Htmp). destruct Hnames as [Hn| ->]; [congruence|by left].
  - intros H. left. destruct (fw_tmp w); [by eapply Hturn|]. destruct (sfs_finished (er_snapshot r)); [done|by eapply Hturn].
  - intros H. left. destruct Hok as (_ & _ & _ & Htmp). destruct Hnames as [Hn|Hn]; [congruence|].
    rewrite Hn in H. by eapply Hturn.
  - unfold external_fill_chunk, external_end, external_at, send. rewrite Hrecv. repeat case_match; cbn; try by left.
    intros Hs. left. by apply Hlast in Hs.
  - unfold send. rewrite Hrecv. cbn. intros Hs. left. by apply Hlast in Hs.
Qed.

(** The temporary name is opened after the record was read. *)
Lemma opens_after_record io w r :
  served w → er_pc (external_step io w r) = EOpenTmp →
  er_pc r = EFirst ∧ fw_record w = Ok (er_snapshot (external_step io w r)).
Proof.
  intros ((record & Hrec & _) & _). unfold external_step, external_turn, external_fill_chunk, external_end. rewrite ?Hrec.
  destruct (er_pc r) as [| | | | | |chunk buffer|buffer|] eqn:Epc; repeat case_match; cbn; try congruence.
  by intros _.
Qed.

#[local] Arguments Nat.mul : simpl never.

(** How much is left to do: bytes first, then the places of a turn; a snapshot
    taken before the end costs one more turn. *)
Definition external_rank (fresh : bool) (pc : ExternalPc) : nat :=
  match pc, fresh with
  | EFirst, _ => 40 | EOpenTmp, _ => 39 | EOpenBody, _ => 38
  | EMetaTmp, false => 24 | EMetaBody, false => 24 | ERead _ _, false => 23 | ESend _, false => 22 | ERecord, false => 21
  | ESend _, true => 8 | ERecord, true => 7 | EMetaTmp, true => 6 | EMetaBody, true => 5 | ERead _ _, true => 4
  | EDone, _ => 0
  end.

Definition external_left (w : FillWorld) (r : ExternalReader) : nat :=
  40 * (length (fw_file w) - er_position r) + external_rank (sfs_finished (er_snapshot r)) (er_pc r).

Definition external_done (r : ExternalReader) : Prop := er_pc r = EDone.

Lemma turn_progress io available r w snapshot :
  0 ≤ er_offset r → er_snapshot r = snapshot → sfs_error snapshot = None → er_pc r = EMetaTmp ∨ er_pc r = EMetaBody →
  external_done (external_turn io available r) ∨ (external_left w (external_turn io available r) < external_left w r)%nat.
Proof.
  intros H0 <- He Hpc. unfold external_turn, external_left, external_done, external_fill_chunk, external_end. rewrite He.
  destruct (Z.ltb_spec (er_offset r) available) as [Hlt|].
  - right. rewrite (proj2 (Nat.ltb_lt _ _)) by (by apply chunk_len_spec). destruct Hpc as [->| ->]; cbn; destruct (sfs_finished (er_snapshot r)); cbn; lia.
  - destruct (sfs_finished (er_snapshot r)) eqn:E; [|right; destruct Hpc as [->| ->]; cbn; rewrite ?E; cbn; lia].
    left. by destruct (_ ≫= _).
Qed.

(** Once the record says so, every step of the reader is a step to its end. *)
Lemma external_progress t io w r :
  world_ok t w → served w → clean io → external_ok w r →
  (∀ record, fw_record w = Ok record → sfs_finished record = true) →
  external_done (external_step io w r) ∨ (external_left w (external_step io w r) < external_left w r)%nat.
Proof.
  intros Hw ((record & Hrec & Herr) & Hnames & Hmax) Hio Hok Hfin. pose proof Hio as (Hfault & Hrecv).
  specialize (Hfin _ Hrec). unfold external_ok in Hok. unfold external_step. rewrite ?Hfault, ?Hrec.
  assert (Hopen : er_pc r = EOpenTmp ∨ er_pc r = EOpenBody → er_position r = 0%nat →
     (external_left w (external_open ThisFill r) < external_left w r)%nat).
  { intros Hpc Hp. unfold external_left. rewrite Hp. cbn. destruct Hpc as [->| ->]; cbn; destruct (sfs_finished (er_snapshot r)); cbn; lia. }
  destruct (er_pc r) as [| | | | | |chunk buffer|buffer|] eqn:Epc.
  - right. unfold external_left. cbn. rewrite Epc. cbn. lia.
  - destruct Hok as ((_ & Hp) & _). destruct (fw_tmp w); [right; apply Hopen; auto|].
    destruct (sfs_finished (er_snapshot r)) eqn:E; [|by left]. right. unfold external_left. cbn. rewrite Epc, E. cbn. lia.
  - destruct Hok as ((_ & Hp) & _ & _ & _ & Htmp). destruct Hnames as [Hn| ->]; [congruence|]. right. apply Hopen; auto.
  - right. unfold external_left. cbn. rewrite Epc, Hfin. destruct (sfs_finished (er_snapshot r)); cbn; lia.
  - destruct Hok as ((chunks & Hr & _) & (He & _)). pose proof (reading_bound _ _ _ _ _ Hr) as (H0 & _ & _).
    assert (Hturn : ∀ available, external_done (external_turn io available r) ∨
      (external_left w (external_turn io available r) < external_left w r)%nat).
    { intros available. eapply turn_progress; [done|done|done|by left]. }
    destruct (fw_tmp w); [done|]. destruct (sfs_finished (er_snapshot r)) eqn:E; [|done].
    right. unfold external_left. cbn. rewrite Epc, E. cbn. lia.
  - destruct Hok as ((chunks & Hr & _) & (He & _) & _ & Htmp). destruct Hnames as [Hn| ->]; [congruence|].
    pose proof (reading_bound _ _ _ _ _ Hr) as (H0 & _ & _). eapply turn_progress; [done|done|done|by right].
  - destruct Hok as ((chunks & Hr & Hfile & Hsent) & Hsn & Hlt & Hle & Hend).
    pose proof (reading_bound _ _ _ _ _ Hr) as (Hb0 & Hb1 & Hb2).
    destruct (external_read_some io w r chunk buffer chunks) as (b & data & Edata & _ & Hpos & _); try done. rewrite Edata.
    right. unfold external_fill_chunk, external_left. rewrite Epc.
    case_match; cbn; destruct (sfs_finished (er_snapshot r)); cbn; lia.
  - right. unfold external_left. rewrite Hrecv. cbn. rewrite Epc. destruct (sfs_finished (er_snapshot r)); cbn; lia.
  - left. done.
Qed.
End External.

(** ** Runs *)

Section Runs.
Context {HTTP : HttpApi} (plan : BodyPlan) {R : Type} (step : ReadIo → FillWorld → R → R).
Context (ok : FillWorld → R → Prop) (needs : FillWorld → Prop) (ended : R → Prop) (left_of : FillWorld → R → nat).
Context (ok_step : ∀ t io w r, world_ok t w → needs w → clean io → ok w r → ok w (step io w r)).
Context (ended_stays : ∀ io w r, ended r → step io w r = r).
Context (left_same : ∀ w w' r, fw_file w' = fw_file w → left_of w' r = left_of w r).
Context (run : nat → FillWriter * FillWorld * R) (fair : fair_run step plan run).
Context (world_start : world_ok (run 0%nat).1.1 (run 0%nat).1.2) (ok_start : ok (run 0%nat).1.2 (run 0%nat).2).
Context (needs_run : ∀ n, needs (run n).1.2).
Context (ok_world : ∀ n, world_ok (run n).1.1 (run n).1.2 → needs (run (S n)).1.2 →
  world_step plan (run n).1 (run (S n)).1 → ok (run n).1.2 (run n).2 → ok (run (S n)).1.2 (run n).2).

Lemma run_ok n : world_ok (run n).1.1 (run n).1.2 ∧ ok (run n).1.2 (run n).2.
Proof.
  induction n as [|n (Hw & Hr)]; [done|]. destruct (proj1 fair n) as [(Hs & Heq)|(io & Hio & ->)].
  - rewrite Heq. split; [|by apply ok_world].
    destruct (run n) as [[t w] r], (run (S n)) as [[t' w'] r']. by eapply world_step_ok.
  - cbn. split; [done|]. by eapply ok_step.
Qed.

Lemma run_later n m : (n ≤ m)%nat → later (run n).1.2 (run m).1.2.
Proof.
  induction 1 as [|m _ IH]; [apply later_refl|].
  eapply later_trans; [exact IH|].
  destruct (run_ok m) as (Hw & _). destruct (proj1 fair m) as [(Hs & _)|(io & _ & ->)]; [|apply later_refl].
  destruct (run m) as [[t w] r], (run (S m)) as [[t' w'] r']. by eapply world_step_later.
Qed.

(** From [start] on the file is complete and the reader's steps lead to its
    end. *)
Lemma run_ends start :
  (∀ n, (start ≤ n)%nat → fw_file (run n).1.2 = fw_file (run start).1.2) →
  (∀ n io, (start ≤ n)%nat → clean io → let w := (run n).1.2 in let r := (run n).2 in
     world_ok (run n).1.1 w → ok w r →
     ended (step io w r) ∨ (left_of w (step io w r) < left_of w r)%nat) →
  ∃ n, (start ≤ n)%nat ∧ ended (run n).2.
Proof.
  intros Hfile Hprog.
  assert (Hcase : ∀ n, (start ≤ n)%nat → ended (run (S n)).2 ∨ (left_of (run (S n)).1.2 (run (S n)).2 ≤ left_of (run n).1.2 (run n).2)%nat).
  { intros n Hn. destruct (run_ok n) as (Hw & Hr). destruct (proj1 fair n) as [(_ & ->)|(io & Hio & Hs)].
    - right. rewrite (left_same (run n).1.2); [done|]. rewrite (Hfile n Hn). apply Hfile. lia.
    - rewrite Hs. cbn. destruct (Hprog n io Hn Hio Hw Hr); [by left|right; lia]. }
  apply (fair_end run (λ s, ended s.2) (λ s, left_of s.1.2 s.2)).
  - intros n _ He. cbn. destruct (proj1 fair n) as [(_ & ->)|(io & _ & ->)]; [done|]. cbn. by rewrite ended_stays.
  - exact Hcase.
  - intros n Hn. destruct (proj2 fair n) as (m & Hm & io & Hio & Hs). exists m. split; [done|].
    destruct (run_ok m) as (Hw & Hr). cbn. rewrite Hs. cbn. apply Hprog; [lia|done|done|done].
Qed.
End Runs.

(** The reader looked at the record, which was unfinished, and when it then
    opened the temporary name, that was gone. *)
Definition missed_the_file {HTTP : HttpApi} (run : nat → FillWriter * FillWorld * ExternalReader) (n : nat) : Prop :=
  ∃ k m record, (k < m)%nat ∧ (m < n)%nat ∧
    er_pc (run k).2 = EFirst ∧ fw_record (run k).1.2 = Ok record ∧ sfs_finished record = false ∧
    er_pc (run m).2 = EOpenTmp ∧ fw_tmp (run m).1.2 = false.

Lemma not_found_missed {HTTP : HttpApi} plan (run : nat → FillWriter * FillWorld * ExternalReader) placeholder :
  fair_run external_step plan run → (run 0%nat).2 = external_start placeholder → (∀ n, served (run n).1.2) →
  (∀ n, external_ok (run n).1.2 (run n).2) →
  ∀ n, er_sent (run n).2 = [ReadyError (IoFailure NotFound)] → missed_the_file run n.
Proof.
  intros Hfair Hstart Hserved Hok n. enough ((er_pc (run n).2 = EOpenTmp → ∃ k, (k < n)%nat ∧
      er_pc (run k).2 = EFirst ∧ fw_record (run k).1.2 = Ok (er_snapshot (run n).2)) ∧
    (er_sent (run n).2 = [ReadyError (IoFailure NotFound)] → missed_the_file run n)) as [_ H] by done.
  induction n as [|n [IHopen IHsent]]; [by rewrite Hstart|].
  destruct (proj1 Hfair n) as [(_ & ->)|(io & Hio & ->)]; cbn [fst snd].
  - split; [intros H; destruct (IHopen H) as (k & Hk & H'); exists k; split; [lia|done]|].
    intros H. destruct (IHsent H) as (k & m & record & Hk & Hm & H'). exists k, m, record. split_and!; [done|lia|apply H'..].
  - split.
    + intros [Hpc Hrec]%opens_after_record; [|apply Hserved]. exists n. split; [lia|done].
    + intros [H|(Hpc & Hfin & Htmp)]%not_found_sent; [| |done|apply Hserved|apply Hok].
      * destruct (IHsent H) as (k & m & record & Hk & Hm & H'). exists k, m, record. split_and!; [done|lia|apply H'..].
      * destruct (IHopen Hpc) as (k & Hk & Hfirst & Hrec). exists k, n, (er_snapshot (run n).2). by split_and!; [| lia|..].
Qed.

Lemma fill_reachable_ok {HTTP : HttpApi} plan status headers record body s :
  sfs_finished record = false →
  rtc (world_step plan) (fill_writer_start, fill_start status headers record body) s → world_ok s.1 s.2.
Proof.
  intros Hr Hsteps. remember (fill_writer_start, fill_start status headers record body) as s0 eqn:E.
  assert (Hok : world_ok s0.1 s0.2) by (subst; by apply fill_start_ok). clear E.
  induction Hsteps as [|[t w] [t' w'] s Hstep _ IH]; [done|]. apply IH. by eapply world_step_ok.
Qed.

(** C21.  A reader of a fill in another process, started while the fill runs or
    later, comes to its end once the fill finished, if the fill's record stays
    readable without an error, one of the names of its file stays, the operating
    system fails none of the reader's own calls, and the reader is not left out:
    it has sent the whole body in chunks of at most
    16 KiB, then the trailers the record decodes to.  There is one exception: the
    record it read first was unfinished and the temporary name was gone when it
    then opened it; then it sent that error and nothing else. *)
Theorem external_reader_delivers_the_fill {HTTP : HttpApi} (plan : BodyPlan)
    (run : nat → FillWriter * FillWorld * ExternalReader) (status : Z) (headers : HeaderMap)
    (record placeholder : SharedFillStateRecord) (body : option BodyFile) :
  sfs_finished record = false →
  rtc (world_step plan) (fill_writer_start, fill_start status headers record body) (run 0%nat).1 →
  (run 0%nat).2 = external_start placeholder →
  fair_run external_step plan run →
  (∀ n, served (run n).1.2) →
  (∃ n r, fw_record (run n).1.2 = Ok r ∧ sfs_finished r = true) →
  ∃ n, er_pc (run n).2 = EDone ∧
    (whole_body_sent (run n).1.2 (er_sent (run n).2) ∨
     (er_sent (run n).2 = [ReadyError (IoFailure NotFound)] ∧ missed_the_file run n)).
Proof.
  intros Hrec Hreach Hstart Hfair Hserved (start & r & Hr & Hf).
  pose proof (fill_reachable_ok _ _ _ _ _ _ Hrec Hreach) as Hw.
  assert (H0 : external_ok (run 0%nat).1.2 (run 0%nat).2) by (by rewrite Hstart).
  assert (Hworld : ∀ n, world_ok (run n).1.1 (run n).1.2 → served (run (S n)).1.2 →
    world_step plan (run n).1 (run (S n)).1 → external_ok (run n).1.2 (run n).2 →
    external_ok (run (S n)).1.2 (run n).2).
  { intros n Hwn _ Hstep. apply external_later. destruct (run n) as [[t w] ?], (run (S n)) as [[t' w'] ?].
    by eapply world_step_later. }
  pose proof (run_ok plan external_step external_ok served external_step_ok run Hfair Hw H0 Hserved Hworld) as Hok.
  pose proof (run_later plan external_step external_ok served external_step_ok run Hfair Hw H0 Hserved Hworld) as Hlater.
  destruct (wo_record _ _ (proj1 (Hok start)) r Hr Hf) as (Hfin & _).
  destruct (run_ends plan external_step external_ok served external_done external_left external_step_ok)
    with (run := run) (start := start) as (n & _ & Hn); try done.
  - unfold external_done, external_step. by intros io w r' ->.
  - intros w w' r' Hfile. unfold external_left. by rewrite Hfile.
  - intros n Hn. apply (la_finished _ _ (Hlater start n Hn) Hfin).
  - intros n io Hn Hio w r' Hwn Hrn. eapply external_progress; [done|apply Hserved|done|done|].
    intros r'' Hr''. destruct (la_record _ _ (Hlater start n Hn) r'' Hr'') as (r0 & Hr0 & Himp). apply Himp. congruence.
  - exists n. split; [done|]. pose proof (proj2 (Hok n)) as Hrn. unfold external_ok in Hrn. rewrite Hn in Hrn.
    destruct Hrn as [Hwhole|Hnf]; [by left|right]. split; [done|].
    eapply not_found_missed; [exact Hfair|exact Hstart|exact Hserved|intros k; apply Hok|exact Hnf].
Qed.

(** ** A concrete fill *)

#[local] Existing Instance RefHttp.api.

Definition sample_plan : BodyPlan := mkBodyPlan 64 None.
Definition sample_fin : FinalizeIo := mkFinalizeIo None Committed true.
Definition sample_record : SharedFillStateRecord := mkFillState "n" "f" None false false None None.
Definition sample_trailers : HeaderMap := hm_append "x-sum" (hv_from_static "1") hm_new.

(** Two pieces of the body and the end, queued. *)
Definition sample_queue : list StreamingCacheWriteMessage :=
  [MsgData [104; 101; 108]; MsgData [108; 111]; MsgFinish (Some sample_trailers)].
Definition sample_writer : FillWriter := mkWriter WReceive 0 sample_queue false.
Definition sample_world : FillWorld := fill_start 200 hm_new sample_record None.

Lemma sample_reached :
  rtc (world_step sample_plan) (fill_writer_start, fill_start 200 hm_new sample_record None) (sample_writer, sample_world).
Proof.
  do 3 (eapply rtc_l; [by apply ws_send|]). apply rtc_refl.
Qed.

(** The reader opens the file and waits; the writer takes the first piece; the
    reader reads a byte; the writer goes on to the commit. *)
Definition sample_acts : list FillAct :=
  let w := ActWriter sample_fin in let r := ActRead read_one in
  [r; r; r; r; w; w; w; ActBackground 2; r; r; r; w; w; w; ActBackground 9; w; w; w; w].

Definition sample_run : nat → FillWriter * FillWorld * ExternalReader :=
  scheduled external_step sample_plan sample_acts (sample_writer, sample_world, external_start sample_record).

Lemma sample_fair : fair_run external_step sample_plan sample_run.
Proof. apply scheduled_fair. repeat constructor. Qed.

Lemma sample_served n : served (sample_run n).1.2.
Proof.
  revert n. apply scheduled_always, Forall_map, Forall_seq. intros j Hj. cbn in Hj.
  do 20 (destruct j as [|j];
    [split; [eexists; split; vm_compute; reflexivity|split; [vm_compute; auto|vm_compute; discriminate]]|]). lia.
Qed.

Lemma sample_finished : ∃ n r, fw_record (sample_run n).1.2 = Ok r ∧ sfs_finished r = true.
Proof. exists 19%nat. eexists. split; vm_compute; reflexivity. Qed.

Theorem external_reader_delivers_the_fill_witness :
  ∃ n, er_pc (sample_run n).2 = EDone ∧
    (whole_body_sent (sample_run n).1.2 (er_sent (sample_run n).2) ∨
     (er_sent (sample_run n).2 = [ReadyError (IoFailure NotFound)] ∧ missed_the_file sample_run n)).
Proof.
  exact (external_reader_delivers_the_fill sample_plan sample_run 200 hm_new sample_record sample_record None
    eq_refl sample_reached eq_refl sample_fair sample_served sample_finished).
Defined.

(** What it sent, in the end. *)
Example sample_sent :
  delivered (er_sent (sample_run 60).2) = [104; 101; 108; 108; 111] ∧ length (er_sent (sample_run 60).2) = 3%nat.
Proof. split; vm_compute; reflexivity. Qed.
