(* ===== verification/CacheFillLocal.v ===== *)
(** * Readers of a running fill in its own process

    Such a reader follows the announced bytes and is woken by notifications.
    It delivers the whole body unless the fill finished while it was between
    two looks at the fill; what happens in that window, and after a write that
    failed, is shown on concrete runs. *)

From S2P Require Import Prelude RustStr External Body CacheConfig CacheTypes CacheRequest CachePolicy CacheStore CacheIndex SharedMemory SharedIndex CacheLookup CacheFillShared CacheFill CacheFillSafety.

#[local] Arguments Nat.mul : simpl never.

Section LocalReaders.
Context {HTTP : HttpApi} (plan : BodyPlan).

(** The finish wakes the readers. *)
Lemma finish_notifies t w t' w' :
  world_step plan (t, w) (t', w') →
  rs_finished (fw_read w') = rs_finished (fw_read w) ∨ fw_notifications w < fw_notifications w'.
Proof.
  intros Hstep. inversion Hstep; subst; try (by left).
  match goal with H : writer_step _ ?io ?t ?w = _ |- _ =>
    assert (Hw : w' = (writer_step plan io t w).2) by (by rewrite H); revert Hw; clear; intros -> end.
  unfold writer_step. destruct (wr_pc t) as [|data|data|trailers|trailers| |]; try (by left).
  - destruct (wr_queue t) as [|[| |] ?]; try (by left). destruct (wr_closed t); by left.
  - destruct (fw_write_error w); by left.
  - destruct (fw_write_error w); [by left|]. destruct (fw_buffered w); by left.
  - right. cbn. lia.
  - left. apply (same_core_finalize plan (wr_body_size t) io w).
Qed.

(** Places between looking at the fill and asking to be woken. *)
Definition exposed (pc : LocalPc) : bool :=
  match pc with LEof _ _ | LInner _ _ | LError _ | LFinished _ => true | _ => false end.

Definition local_sent (w : FillWorld) (sent : list (FramePoll ReaderError)) : Prop :=
  ∃ chunks, chunks_ok chunks ∧ concat chunks = fw_file w ∧
    sent = data_frames chunks ++ trailers_frame (rs_trailers (fw_read w)).

Definition local_ok (w : FillWorld) (r : LocalReader) : Prop :=
  let finished := rs_finished (fw_read w) in
  let closed := (lr_offset r = 0 ∧ lr_position r = 0%nat) ∧ lr_sent r = [] in
  let read chunks buffer := reading chunks buffer (lr_position r) (lr_offset r) (fw_file w) ∧
                            lr_file r = ThisFill ∧ lr_sent r = data_frames chunks in
  let between := ∃ chunks, read chunks [] in
  let within chunk buffer :=
    (∃ chunks, read chunks buffer) ∧ (length buffer < chunk)%nat ∧
    Z.of_nat chunk ≤ IN_FLIGHT_FILL_READ_CHUNK_BYTES ∧
    lr_offset r + Z.of_nat chunk ≤ rs_bytes_written (fw_read w) in
  match lr_pc r with
  | LOpenTmp => closed
  | LOpenFinished | LOpenBody => closed ∧ finished = true ∧ fw_tmp w = false
  | LNotified => between
  | LAvailable notified => between ∧ notified ≤ fw_notifications w
  | LRead chunk buffer => within chunk buffer
  | LEof chunk buffer | LInner chunk buffer => within chunk buffer ∧ finished = false
  | LInnerWait chunk buffer notified =>
      within chunk buffer ∧ notified ≤ fw_notifications w ∧ (finished = true → notified < fw_notifications w)
  | LSend buffer =>
      (∃ chunks, read chunks buffer) ∧ buffer ≠ [] ∧ len buffer ≤ IN_FLIGHT_FILL_READ_CHUNK_BYTES
  | LError notified | LFinished notified =>
      between ∧ notified ≤ fw_notifications w ∧ (finished = true → len (fw_file w) ≤ lr_offset r)
  | LTrailers => between ∧ finished = true ∧ len (fw_file w) ≤ lr_offset r
  | LWait notified =>
      between ∧ notified ≤ fw_notifications w ∧ (finished = true → notified < fw_notifications w)
  | LDone => finished = true ∧ local_sent w (lr_sent r)
  end.

(** The fill does not fail, and one of the names of its file stays. *)
Definition healthy (w : FillWorld) : Prop :=
  rs_error (fw_read w) = None ∧
  (fw_tmp w = true ∨ rs_finished (fw_read w) = true ∧ fw_body w = Some ThisFill) ∧ len (fw_file w) ≤ u64_max.

(** What a reader holds stays so, unless the fill finishes while it is
    exposed. *)
Lemma local_later w w' r :
  later w w' →
  rs_finished (fw_read w') = rs_finished (fw_read w) ∨ fw_notifications w < fw_notifications w' →
  (exposed (lr_pc r) = true → rs_finished (fw_read w) = false → rs_finished (fw_read w') = false) →
  local_ok w r → local_ok w' r.
Proof.
  intros Hl Hnote Hexp. pose proof (la_file _ _ Hl) as Hp. pose proof (la_tmp _ _ Hl) as Htmp.
  pose proof (la_announced _ _ Hl) as Han. pose proof (la_finished _ _ Hl) as Hfin.
  pose proof (la_notifications _ _ Hl) as Hn.
  assert (Hr : ∀ chunks buffer,
    reading chunks buffer (lr_position r) (lr_offset r) (fw_file w) ∧ lr_file r = ThisFill ∧
      lr_sent r = data_frames chunks →
    reading chunks buffer (lr_position r) (lr_offset r) (fw_file w') ∧ lr_file r = ThisFill ∧
      lr_sent r = data_frames chunks).
  { intros chunks buffer (? & ? & ?). split_and!; [|done..]. by eapply reading_grows. }
  assert (Hb : (∃ chunks, reading chunks [] (lr_position r) (lr_offset r) (fw_file w) ∧ lr_file r = ThisFill ∧
      lr_sent r = data_frames chunks) →
    ∃ chunks, reading chunks [] (lr_position r) (lr_offset r) (fw_file w') ∧ lr_file r = ThisFill ∧
      lr_sent r = data_frames chunks).
  { intros (chunks & H). exists chunks. auto. }
  assert (Hwithin : ∀ chunk buffer,
    (∃ chunks, reading chunks buffer (lr_position r) (lr_offset r) (fw_file w) ∧ lr_file r = ThisFill ∧
      lr_sent r = data_frames chunks) ∧ (length buffer < chunk)%nat ∧
    Z.of_nat chunk ≤ IN_FLIGHT_FILL_READ_CHUNK_BYTES ∧ lr_offset r + Z.of_nat chunk ≤ rs_bytes_written (fw_read w) →
    (∃ chunks, reading chunks buffer (lr_position r) (lr_offset r) (fw_file w') ∧ lr_file r = ThisFill ∧
      lr_sent r = data_frames chunks) ∧ (length buffer < chunk)%nat ∧
    Z.of_nat chunk ≤ IN_FLIGHT_FILL_READ_CHUNK_BYTES ∧ lr_offset r + Z.of_nat chunk ≤ rs_bytes_written (fw_read w')).
  { intros chunk buffer ((chunks & H) & ? & ? & ?). split_and!; [exists chunks; auto|done|done|lia]. }
  assert (Hwoken : ∀ notified, notified ≤ fw_notifications w →
    (rs_finished (fw_read w) = true → notified < fw_notifications w) →
    rs_finished (fw_read w') = true → notified < fw_notifications w').
  { intros notified Hle Hlt Hf. destruct Hnote as [Heq|]; [|lia]. rewrite Heq in Hf. specialize (Hlt Hf). lia. }
  assert (Hwhole : exposed (lr_pc r) = true →
    (rs_finished (fw_read w) = true → len (fw_file w) ≤ lr_offset r) →
    rs_finished (fw_read w') = true → len (fw_file w') ≤ lr_offset r).
  { intros He Hle Hf. destruct (rs_finished (fw_read w)) eqn:E; [|rewrite (Hexp He eq_refl) in Hf; done].
    destruct (Hfin eq_refl) as (_ & -> & _). auto. }
  unfold local_ok. destruct (lr_pc r) eqn:Epc; cbn in Hexp.
  - done.
  - intros (? & Hf & ?). destruct (Hfin Hf) as (? & _). auto.
  - intros (? & Hf & ?). destruct (Hfin Hf) as (? & _). auto.
  - auto.
  - intros (? & ?). split; [auto|lia].
  - auto.
  - intros (? & ?). split; auto.
  - intros (? & ?). split; auto.
  - intros (? & ? & ?). split; [auto|split; [lia|eauto]].
  - intros ((chunks & H) & ? & ?). split_and!; [exists chunks; auto|done|done].
  - intros (? & ? & ?). split; [auto|split; [lia|auto]].
  - intros (? & ? & ?). split; [auto|split; [lia|auto]].
  - intros (? & Hf & ?). destruct (Hfin Hf) as (? & -> & _). auto.
  - intros (? & ? & ?). split; [auto|split; [lia|eauto]].
  - intros (Hf & chunks & ? & ? & ?). destruct (Hfin Hf) as (? & Hfile & Ht & _). split; [done|].
    exists chunks. by rewrite Hfile, Ht.
Qed.

(** A read within the announced bytes of a finished fill gives something. *)
Lemma local_read_some t io w r chunks chunk buffer :
  world_ok t w → healthy w → rs_finished (fw_read w) = true →
  reading chunks buffer (lr_position r) (lr_offset r) (fw_file w) → lr_file r = ThisFill →
  (length buffer < chunk)%nat → lr_offset r + Z.of_nat chunk ≤ rs_bytes_written (fw_read w) →
  ∃ b data, file_read io (lr_file r) (lr_position r) (chunk - length buffer) w = b :: data ∧
    (lr_position r < length (fw_file w))%nat.
Proof.
  intros Hw (_ & _ & Hmax) Hf Hr Hfile Hlt Hend. rewrite (finished_size _ _ Hw Hf) in Hend.
  destruct (external_read_some io w (mkExternal EDone sample_record (lr_file r) (lr_position r) (lr_offset r) [])
    chunk buffer chunks) as (b & data & Hd & _ & Hp & _); [done|done|done|cbn; lia|].
  by exists b, data.
Qed.

Lemma local_step_ok t io w r :
  world_ok t w → healthy w → clean io → local_ok w r → local_ok w (local_step io w r).
Proof.
  intros Hw Hh Hio Hok. pose proof Hh as (Herr & Hnames & Hmax). pose proof Hio as (Hfault & Hrecv).
  unfold local_ok in Hok. unfold local_step. rewrite ?Hfault, ?Herr.
  assert (Hopen : (lr_offset r = 0 ∧ lr_position r = 0%nat) ∧ lr_sent r = [] → local_ok w (local_open ThisFill r)).
  { intros ((H0 & Hp0) & Hs). exists []. cbn. split_and!; [|done|done]. split; [apply prefix_nil|done|done|constructor]. }
  destruct (lr_pc r) as [| | | |notified|chunk buffer|chunk buffer|chunk buffer|chunk buffer notified|buffer|
    notified|notified| |notified|] eqn:Epc.
  - destruct (fw_tmp w) eqn:Etmp; [by apply Hopen|]. destruct Hnames as [|(Hf & _)]; [done|]. cbn. done.
  - destruct Hok as (Hc & Hf & Htmp). rewrite Hf. cbn. done.
  - destruct Hok as (Hc & Hf & Htmp). destruct Hnames as [|(_ & ->)]; [congruence|]. by apply Hopen.
  - cbn. split; [done|lia].
  - destruct Hok as ((chunks & Hr & Hfile & Hsent) & Hn). pose proof (reading_bound _ _ _ _ _ Hr) as (H0 & _ & _).
    destruct (Z.ltb_spec (lr_offset r) (rs_bytes_written (fw_read w))) as [Hlt|Hge].
    + destruct (chunk_len_spec _ _ H0 Hlt) as (Hpos & Hend & Hcmax).
      unfold local_fill. rewrite (proj2 (Nat.ltb_lt _ _)) by done. cbn. split_and!; [by exists chunks|done|done|done].
    + cbn. split_and!; [by exists chunks|done|]. intros Hf. rewrite (finished_size _ _ Hw Hf) in Hge. lia.
  - destruct Hok as ((chunks & Hr & Hfile & Hsent) & Hlt & Hle & Hend).
    destruct (file_read_spec io ThisFill (chunk - length buffer) w (concat chunks ++ buffer)) as (Hd1 & Hd2 & _);
      [apply Hr|lia|]. cbn in Hd1. rewrite <-(rg_position _ _ _ _ _ Hr), <-Hfile in Hd1, Hd2.
    destruct (file_read io (lr_file r) (lr_position r) (chunk - length buffer) w) as [|b data] eqn:Edata.
    + cbn. split; [split_and!; [by exists chunks|done|done|done]|].
      destruct (rs_finished (fw_read w)) eqn:Hf; [|done].
      destruct (local_read_some t io w r chunks chunk buffer) as (? & ? & Hd & _); try done. congruence.
    + pose proof Hr as Hmore. rewrite (rg_position _ _ _ _ _ Hr) in Hmore.
      pose proof (reading_more _ _ _ _ _ Hmore Hd1) as Hr'. rewrite <-(rg_position _ _ _ _ _ Hr) in Hr'.
      unfold local_fill. destruct (Nat.ltb_spec (length (buffer ++ b :: data)) chunk); cbn.
      * split_and!; try done. exists chunks. by split_and!.
      * split_and!; [by exists chunks|by destruct buffer|]. unfold len. rewrite length_app in *. cbn in *. lia.
  - destruct Hok as (Hread & Hf). rewrite Hf. cbn. done.
  - cbn. destruct Hok as (Hread & Hf). split; [done|split; [lia|by rewrite Hf]].
  - destruct Hok as (Hread & Hn & Hf). destruct (_ <? _); cbn; [done|]. unfold local_ok. by rewrite Epc.
  - destruct Hok as ((chunks & Hr & Hfile & Hsent) & Hne & Hle). rewrite Hrecv. cbn.
    exists (chunks ++ [buffer]). split_and!; [by apply reading_sent|done|].
    unfold send. by rewrite Hrecv, data_frames_snoc, Hsent.
  - cbn. done.
  - destruct Hok as (Hread & Hn & Hf). destruct (rs_finished (fw_read w)) eqn:E; cbn; [split_and!; [done|done|by apply Hf]|].
    split_and!; [done|done|by rewrite E].
  - destruct Hok as ((chunks & Hr & Hfile & Hsent) & Hf & Hle).
    assert (Hdone : local_sent w (lr_sent r ++ trailers_frame (rs_trailers (fw_read w)))).
    { exists chunks. rewrite Hsent. split_and!; [apply Hr|by eapply reading_all|done]. }
    destruct (rs_trailers (fw_read w)) as [trailers|]; cbn in *.
    + unfold send. by rewrite Hrecv.
    + by rewrite app_nil_r in Hdone.
  - destruct Hok as (Hread & Hn & Hf). destruct (_ <? _); cbn; [done|]. unfold local_ok. by rewrite Epc.
  - unfold local_ok. by rewrite Epc.
Qed.

(** How much is left to do once the fill finished. *)
Definition local_rank (pc : LocalPc) : nat :=
  match pc with
  | LOpenTmp => 30 | LOpenFinished => 29 | LOpenBody => 28
  | LWait _ => 15 | LSend _ => 14 | LNotified => 13 | LAvailable _ => 12
  | LInnerWait _ _ _ => 9 | LRead _ _ => 8
  | LError _ => 7 | LFinished _ => 6 | LTrailers => 5
  | LEof _ _ | LInner _ _ => 4
  | LDone => 0
  end.

Definition local_left (w : FillWorld) (r : LocalReader) : nat :=
  40 * (length (fw_file w) - lr_position r) + local_rank (lr_pc r).

Definition local_done (r : LocalReader) : Prop := lr_pc r = LDone.

Lemma local_progress t io w r :
  world_ok t w → healthy w → clean io → local_ok w r → rs_finished (fw_read w) = true →
  local_done (local_step io w r) ∨ (local_left w (local_step io w r) < local_left w r)%nat.
Proof.
  intros Hw Hh Hio Hok Hf. pose proof Hh as (Herr & Hnames & Hmax). pose proof Hio as (Hfault & Hrecv).
  unfold local_ok in Hok. unfold local_step, local_left, local_done. rewrite ?Hfault, ?Herr, ?Hf.
  destruct (lr_pc r) as [| | | |notified|chunk buffer|chunk buffer|chunk buffer|chunk buffer notified|buffer|
    notified|notified| |notified|] eqn:Epc.
  - right. destruct Hok as ((_ & Hp) & _). destruct (fw_tmp w); cbn; rewrite Hp; lia.
  - right. destruct Hok as (((_ & Hp) & _) & _). cbn. rewrite Hp. lia.
  - right. destruct Hok as (((_ & Hp) & _) & _ & Htmp). destruct Hnames as [|(_ & ->)]; [congruence|]. cbn. rewrite Hp. lia.
  - right. cbn. lia.
  - right. destruct Hok as ((chunks & Hr & _) & _). pose proof (reading_bound _ _ _ _ _ Hr) as (H0 & _ & _).
    destruct (Z.ltb_spec (lr_offset r) (rs_bytes_written (fw_read w))) as [Hlt|Hge]; [|cbn; lia].
    unfold local_fill. rewrite (proj2 (Nat.ltb_lt _ _)) by (by apply chunk_len_spec). cbn. lia.
  - right. destruct Hok as ((chunks & Hr & Hfile & Hsent) & Hlt & Hle & Hend).
    destruct (local_read_some t io w r chunks chunk buffer) as (b & data & Hd & Hp); try done. rewrite Hd.
    unfold local_fill. case_match; cbn; lia.
  - by destruct Hok as (_ & Hnf); congruence.
  - by destruct Hok as (_ & Hnf); congruence.
  - right. destruct Hok as (_ & _ & Hlt). rewrite (proj2 (Z.ltb_lt _ _)) by auto. cbn. lia.
  - right. rewrite Hrecv. cbn. lia.
  - right. cbn. lia.
  - right. cbn. lia.
  - left. by destruct (rs_trailers (fw_read w)).
  - right. destruct Hok as (_ & _ & Hlt). rewrite (proj2 (Z.ltb_lt _ _)) by auto. cbn. lia.
  - by left.
Qed.
End LocalReaders.

Lemma delivered_frames {HTTP : HttpApi} chunks trailers :
  delivered (data_frames chunks ++ trailers_frame trailers) = concat chunks.
Proof.
  rewrite delivered_app. replace (delivered (trailers_frame trailers)) with (@nil Z) by (by destruct trailers).
  rewrite app_nil_r. induction chunks as [|c l IH]; [done|]. cbn. by rewrite <-IH.
Qed.

Lemma local_delivered {HTTP : HttpApi} w r : local_ok w r → delivered (lr_sent r) `prefix_of` fw_file w.
Proof.
  assert (Hread : ∀ chunks buffer, reading chunks buffer (lr_position r) (lr_offset r) (fw_file w) ∧
    lr_file r = ThisFill ∧ lr_sent r = data_frames chunks → delivered (lr_sent r) `prefix_of` fw_file w).
  { intros chunks buffer (Hr & _ & ->). pose proof (delivered_frames chunks None) as Hd. cbn in Hd.
    rewrite app_nil_r in Hd. rewrite Hd. etrans; [|apply Hr]. by eexists. }
  assert (Hclosed : lr_sent r = [] → delivered (lr_sent r) `prefix_of` fw_file w).
  { intros ->. apply prefix_nil. }
  unfold local_ok. destruct (lr_pc r).
  - intros (_ & ?). auto.
  - intros ((_ & ?) & _). auto.
  - intros ((_ & ?) & _). auto.
  - intros (? & H). eauto.
  - intros ((? & H) & _). eauto.
  - intros ((? & H) & _). eauto.
  - intros (((? & H) & _) & _). eauto.
  - intros (((? & H) & _) & _). eauto.
  - intros (((? & H) & _) & _). eauto.
  - intros ((? & H) & _). eauto.
  - intros ((? & H) & _). eauto.
  - intros ((? & H) & _). eauto.
  - intros ((? & H) & _). eauto.
  - intros ((? & H) & _). eauto.
  - intros (_ & chunks & _ & <- & ->). by rewrite delivered_frames.
Qed.

(** C22.  A reader of a fill in the process of the fill: whatever it has sent is
    at every moment a prefix of the body, and once the fill finished without
    an error it comes to its end having sent the whole body, in chunks of at
    most 16 KiB, and then the trailers; provided it is not left out, its file
    stays, and the fill did not finish while the reader was between looking at
    the fill and asking to be woken. *)
Theorem local_reader_delivers_the_fill {HTTP : HttpApi} (plan : BodyPlan)
    (run : nat → FillWriter * FillWorld * LocalReader) (status : Z) (headers : HeaderMap)
    (record : SharedFillStateRecord) (body : option BodyFile) :
  sfs_finished record = false →
  rtc (world_step plan) (fill_writer_start, fill_start status headers record body) (run 0%nat).1 →
  (run 0%nat).2 = local_start →
  fair_run local_step plan run →
  (∀ n, healthy (run n).1.2) →
  (∀ n, rs_finished (fw_read (run n).1.2) = false → rs_finished (fw_read (run (S n)).1.2) = true →
     exposed (lr_pc (run n).2) = false) →
  (∀ n, delivered (lr_sent (run n).2) `prefix_of` fw_file (run n).1.2) ∧
  ((∃ n, rs_finished (fw_read (run n).1.2) = true) →
   ∃ n, lr_pc (run n).2 = LDone ∧ local_sent (run n).1.2 (lr_sent (run n).2)).
Proof.
  intros Hrec Hreach Hstart Hfair Hhealthy Hwindow.
  pose proof (fill_reachable_ok _ _ _ _ _ _ Hrec Hreach) as Hw.
  assert (H0 : local_ok (run 0%nat).1.2 (run 0%nat).2) by (by rewrite Hstart).
  assert (Hworld : ∀ n, world_ok (run n).1.1 (run n).1.2 → healthy (run (S n)).1.2 →
    world_step plan (run n).1 (run (S n)).1 → local_ok (run n).1.2 (run n).2 →
    local_ok (run (S n)).1.2 (run n).2).
  { intros n Hwn _ Hstep. specialize (Hwindow n).
    destruct (run n) as [[t w] r], (run (S n)) as [[t' w'] r']. cbn in *. apply local_later.
    - by eapply world_step_later.
    - by eapply finish_notifies.
    - intros He Hf. destruct (rs_finished (fw_read w')) eqn:E; [|done]. by rewrite (Hwindow Hf eq_refl) in He. }
  pose proof (run_ok plan local_step local_ok healthy local_step_ok run Hfair Hw H0 Hhealthy Hworld) as Hok.
  pose proof (run_later plan local_step local_ok healthy local_step_ok run Hfair Hw H0 Hhealthy Hworld) as Hlater.
  split; [intros n; by apply local_delivered, Hok|]. intros (start & Hfin).
  destruct (run_ends plan local_step local_ok healthy local_done local_left local_step_ok)
    with (run := run) (start := start) as (n & _ & Hn); try done.
  - unfold local_done, local_step. by intros io w r' ->.
  - intros w w' r' Hfile. unfold local_left. by rewrite Hfile.
  - intros n Hn. apply (la_finished _ _ (Hlater start n Hn) Hfin).
  - intros n io Hn Hio w r' Hwn Hrn. eapply local_progress; [done|apply Hhealthy|done|done|].
    apply (la_finished _ _ (Hlater start n Hn) Hfin).
  - exists n. split; [done|]. destruct (Hok n) as (_ & Hrn). unfold local_ok in Hrn. rewrite Hn in Hrn. apply Hrn.
Qed.

(** ** Concrete fills *)

#[local] Existing Instance RefHttp.api.

Definition w_step : FillAct := ActWriter sample_fin.
Definition r_step : FillAct := ActRead read_one.
Definition local_run (acts : list FillAct) : nat → FillWriter * FillWorld * LocalReader :=
  scheduled local_step sample_plan acts (sample_writer, sample_world, local_start).
Definition local_after (acts : list FillAct) : FillWriter * FillWorld * LocalReader := local_run acts (length acts).

(** The writer announces the first piece, the reader reads some of it, and the
    fill finishes before the reader comes back. *)
Definition quiet_acts : list FillAct :=
  [r_step; w_step; w_step; w_step; ActBackground 2; r_step; r_step; r_step; w_step; w_step; w_step; ActBackground 9;
   w_step; w_step; w_step; w_step].

Lemma quiet_healthy n : healthy (local_run quiet_acts n).1.2.
Proof.
  revert n. apply scheduled_always, Forall_map, Forall_seq. intros j Hj. cbn in Hj.
  do 17 (destruct j as [|j];
    [split; [vm_compute; reflexivity|split; [vm_compute; auto|vm_compute; discriminate]]|]). lia.
Qed.

Lemma quiet_fair : fair_run local_step sample_plan (local_run quiet_acts).
Proof. apply scheduled_fair. repeat constructor. Qed.

Lemma quiet_window n :
  rs_finished (fw_read (local_run quiet_acts n).1.2) = false →
  rs_finished (fw_read (local_run quiet_acts (S n)).1.2) = true → exposed (lr_pc (local_run quiet_acts n).2) = false.
Proof.
  do 17 (destruct n as [|n]; [vm_compute; done|]). intros Hf. exfalso. revert Hf.
  replace (S (S (S (S (S (S (S (S (S (S (S (S (S (S (S (S (S n))))))))))))))))) with (S n + length quiet_acts)%nat
    by (cbn; lia).
  unfold local_run. rewrite scheduled_world. vm_compute. discriminate.
Qed.

Theorem local_reader_delivers_the_fill_witness :
  ∃ n, lr_pc (local_run quiet_acts n).2 = LDone ∧
    local_sent (local_run quiet_acts n).1.2 (lr_sent (local_run quiet_acts n).2).
Proof.
  apply (local_reader_delivers_the_fill sample_plan (local_run quiet_acts) 200 hm_new sample_record None
    eq_refl sample_reached eq_refl quiet_fair quiet_healthy quiet_window).
  exists 16%nat. vm_compute. reflexivity.
Defined.

(** The error a reader ended with. *)
Definition sent_error {HTTP : HttpApi} (sent : list (FramePoll ReaderError)) : option ReaderError :=
  match last sent with Some (ReadyError e) => Some e | _ => None end.

(** A fill that announces its last bytes and finishes after the reader looked
    at the announced bytes and before it looks at the end: the reader ends the
    body without them, as if it were whole. *)
Definition window_acts : list FillAct :=
  [r_step; w_step; w_step; w_step; ActBackground 9; r_step; r_step; r_step; r_step; r_step; r_step; r_step; r_step;
   w_step; w_step; w_step; ActBackground 9; w_step; w_step; w_step; r_step; r_step; r_step].

Example finish_in_the_window_truncates :
  let s := local_after window_acts in
  lr_pc s.2 = LDone ∧ rs_error (fw_read s.1.2) = None ∧ sent_error (lr_sent s.2) = None ∧
  fw_file s.1.2 = [104; 101; 108; 108; 111] ∧ delivered (lr_sent s.2) = [104; 101; 108].
Proof. split_and!; vm_compute; reflexivity. Qed.

(** Announced bytes that are not in the file yet when the reader reads, and a
    fill that finishes before the reader looks at its end: an error, although
    the file has them. *)
Definition eof_acts : list FillAct :=
  [r_step; w_step; w_step; w_step; r_step; r_step; r_step;
   w_step; w_step; w_step; ActBackground 9; w_step; w_step; w_step; r_step].

Example finish_in_the_window_is_an_error :
  let s := local_after eof_acts in
  lr_pc s.2 = LDone ∧ rs_error (fw_read s.1.2) = None ∧ sent_error (lr_sent s.2) = Some UnexpectedEof ∧
  fw_file s.1.2 = [104; 101; 108; 108; 111] ∧ delivered (lr_sent s.2) = [].
Proof. split_and!; vm_compute; reflexivity. Qed.

(** A background write that fails after its bytes were announced: the fill
    fails and its guard is dropped, and a reader that waits for the bytes waits
    for ever; it never looks at the error. *)
Definition stranded_acts : list FillAct :=
  [r_step; w_step; w_step; w_step; r_step; r_step; r_step; r_step; r_step; ActBackgroundError "disk full";
   w_step; w_step; r_step; r_step; r_step; r_step; ActWake; r_step; r_step; r_step; r_step].

Lemma unwoken_stays {HTTP : HttpApi} io w r chunk buffer :
  lr_pc r = LInnerWait chunk buffer (fw_notifications w) → local_step io w r = r.
Proof. intros Hpc. unfold local_step. by rewrite Hpc, Z.ltb_irrefl. Qed.

Example failed_write_strands_reader :
  let s := local_after stranded_acts in
  wr_pc s.1.1 = WDone ∧ rs_error (fw_read s.1.2) = Some "disk full" ∧ ∀ io, local_step io s.1.2 s.2 = s.2.
Proof.
  split_and!; [vm_compute; reflexivity..|]. intros io. eapply (unwoken_stays _ _ _ 3 []). vm_compute. reflexivity.
Qed.

(** ** Readers in other processes *)

Definition external_after (plan : BodyPlan) (acts : list FillAct) : FillWriter * FillWorld * ExternalReader :=
  scheduled external_step plan acts (sample_writer, sample_world, external_start sample_record) (length acts).

(** A finished fill that is too large to be kept loses its file: a reader that
    has not sent everything takes the missing file for an empty one and ends
    the body where it is. *)
Definition oversized_acts : list FillAct :=
  [r_step; r_step; w_step; w_step; w_step; ActBackground 9; r_step; r_step; r_step; r_step; r_step; r_step;
   w_step; w_step; w_step; ActBackground 9; w_step; w_step; w_step; w_step; r_step; r_step; r_step].

Example oversized_fill_truncates :
  let s := external_after (mkBodyPlan 4 None) oversized_acts in
  wr_pc s.1.1 = WDone ∧ er_pc s.2 = EDone ∧ sent_error (er_sent s.2) = None ∧
  fw_file s.1.2 = [104; 101; 108; 108; 111] ∧ delivered (er_sent s.2) = [104; 101; 108].
Proof. split_and!; vm_compute; reflexivity. Qed.

(** The record taken over by the next fill of the key before the reader saw the
    end of this one: the reader goes round for ever. *)
Definition replaced_acts : list FillAct :=
  [r_step; r_step; w_step; w_step; w_step; ActBackground 9; r_step; r_step; r_step; r_step; r_step; r_step;
   w_step; w_step; w_step; ActBackground 9; w_step; w_step; w_step; w_step; ActLoseRecord NotFound].

Lemma unreadable_record_stays {HTTP : HttpApi} io w r e :
  clean io → er_pc r = ERecord → fw_record w = Err e → fw_tmp w = false → sfs_finished (er_snapshot r) = false →
  sfs_error (er_snapshot r) = None → 0 ≤ er_offset r → external_step io w (external_step io w r) = r.
Proof.
  intros (Hf & _) Hpc Hr Ht Hfin He H0. unfold external_step at 2. rewrite Hpc, Hr. unfold external_step. cbn.
  rewrite Hf, Ht, Hfin. unfold external_turn. cbn. rewrite Hfin, He, (proj2 (Z.ltb_ge _ _)) by done.
  destruct r. cbn in *. by subst.
Qed.

Example replaced_record_strands_reader :
  let s := external_after sample_plan replaced_acts in
  wr_pc s.1.1 = WDone ∧ rs_finished (fw_read s.1.2) = true ∧ len (fw_file s.1.2) = 5 ∧ er_offset s.2 = 3 ∧
  ∀ io, clean io → external_step io s.1.2 (external_step io s.1.2 s.2) = s.2.
Proof.
  split_and!; [vm_compute; reflexivity..|]. intros io Hio.
  apply (unreadable_record_stays io _ _ NotFound); [done|vm_compute; reflexivity..|vm_compute; discriminate].
Qed.
