(* ===== verification/CacheFillSharedSafety.v ===== *)
(** * A published fill is what the other processes read

    The state a filling process publishes in shared memory is the state the
    other processes of the zone load, for as long as its origin sends, and the
    one a reader that loaded it reads again.  The lock file, in contrast, can be
    taken twice. *)

From S2P Require Import Prelude RustStr External Body CacheConfig CacheTypes CacheRequest CachePolicy CacheStore CacheIndex CacheMaintenance CacheInvariant CacheSafety SharedMemory SharedIndex SharedJson SharedIndexView SharedIndexStore SharedIndexSafety SharedFillLease CacheLookup CacheFillShared.

(** ** Headers *)

Section Headers.
Context {HTTP : HttpApi} {HLaws : HttpLaws HTTP}.

(** Names and values that parse back: those of any map of the [http] crate. *)
Definition readable_headers (headers : HeaderMap) : Prop :=
  Forall (λ p, header_name_parse p.1 = Some p.1 ∧ hv_from_bytes (hv_as_bytes p.2) = Some p.2) (hm_iter headers).

Lemma append_shared_headers_values l m :
  Forall (λ p, header_name_parse p.1 = Some p.1 ∧ hv_from_bytes (hv_as_bytes p.2) = Some p.2) l →
  ∃ m', append_shared_headers
          (map (λ '(name, value), mkFillHeader name (bytes_of_string (hv_as_bytes value))) l) m = Ok m' ∧
    ∀ name, hm_get_all m' name =
      hm_get_all m name ++ omap (λ '(n, v), if decide (n = name) then Some v else None) l.
Proof.
  revert m. induction l as [|[n v] l IH]; intros m Hl.
  - exists m. split; [done|]. intros name. by rewrite app_nil_r.
  - apply Forall_cons in Hl as [[Hn Hv] Hl]. cbn in Hn, Hv.
    cbn [map append_shared_headers sfh_name sfh_value]. rewrite Hn, string_bytes, Hv. cbn [invalid_data ok_or rbind].
    destruct (IH (hm_append n v m) Hl) as (m' & -> & Hm'). exists m'. split; [done|]. intros name. rewrite Hm'.
    cbn. destruct (decide (n = name)) as [->|Hne].
    + by rewrite hm_get_all_append_eq, <-app_assoc.
    + by rewrite hm_get_all_append_ne.
Qed.

(** Headers published and read back have the same values under every name. *)
Lemma shared_headers_roundtrip headers :
  readable_headers headers →
  ∃ headers', header_map_from_shared_headers (shared_headers_from_map headers) = Ok headers' ∧
    ∀ name, hm_get_all headers' name = hm_get_all headers name.
Proof.
  intros Hr. destruct (append_shared_headers_values _ hm_new Hr) as (m' & Hm & Hv). exists m'. split; [exact Hm|].
  intros name. by rewrite Hv, hm_get_all_new, (hm_get_all_iter headers).
Qed.
End Headers.

(** ** Shared memory *)

Section Memory.
Context {HTTP : HttpApi} {HLaws : HttpLaws HTTP} {SHA : Sha256Api} {JSON : SerdeJson} {Laws : SerdeJsonLaws JSON}.
Context {FILL : FillJson} {FLaws : FillJsonLaws FILL}.
Context (st : MemorySharedIndexStore) (key : string).

(** The lock of the key carries this state. *)
Definition publishes (s : FillStore) (state : SharedFillStateRecord) : Prop :=
  ∃ d record, stored st (sto_shm s) d ∧ doc_fill_locks d !! key = Some record ∧
    flr_nonce record = sfs_nonce state ∧ state_from_slice (flr_state_json record) = Some state.

Lemma state_bytes state b : shared_fill_state_record_bytes state = Ok b → state_from_slice b = Some state.
Proof.
  unfold shared_fill_state_record_bytes, invalid_data. destruct (state_json state) as (b' & -> & Hb). cbn. by intros [= <-].
Qed.

Definition memory_handle (state : SharedFillStateRecord) : SharedFillExternalStateHandle :=
  mkHandle (SharedMemoryBackend st key) state.

(** A fill that got the lock publishes its first state. *)
Lemma create_publishes env now age fingerprint s h s' d :
  env_ok (fe_shm env) → stored st (sto_shm s) d →
  create_shared_memory env st key now age fingerprint s = (Ok (Some h), s') →
  ∃ nonce, h = memory_handle (initial_fill_state nonce fingerprint) ∧ publishes s' (seh_state h).
Proof.
  intros He Hst. unfold create_shared_memory, fx_bind, next_shared_fill_nonce, next_tmp_counter, fx_lift. cbn.
  set (nonce := dec now +:+ "-" +:+ _). destruct (shared_fill_state_record_bytes _) as [b|e] eqn:Eb; [|done].
  unfold fx_shm. cbn.
  destruct (try_acquire_fill_lock (fe_shm env) st (fe_pid env) key now (lock_age_ms age) nonce b (sto_shm s))
    as [[[|]|e] s1] eqn:Hrun; intros [= <- <-]. exists nonce. split; [done|]. unfold publishes. cbn.
  apply state_bytes in Eb.
  unfold try_acquire_fill_lock in Hrun.
  match type of Hrun with with_document_lock _ _ ?f _ = _ =>
    destruct (stored_run st (fe_shm env) f (sto_shm s) d He Hst) as (seg & s2 & Ho & Hst1 & Hw & Hwrite) end.
  rewrite Hw in Hrun. cbn in Hrun. clear Hw.
  assert (Hacq : ∀ n m rec, flr_nonce rec = nonce → flr_state_json rec = b →
    shm_bind (write_back st seg (with_doc_locks n (λ l, <[key := rec]> (m l)) d)) (λ _, shm_lift (Ok FillAcquired)) s2 =
      (Ok FillAcquired, s1) →
    ∃ d0 record, stored st s1 d0 ∧ doc_fill_locks d0 !! key = Some record ∧
      flr_nonce record = nonce ∧ state_from_slice (flr_state_json record) = Some (initial_fill_state nonce fingerprint)).
  { intros n m rec H1 H2 Hb. destruct (Hwrite n (λ l, <[key := rec]> (m l))) as (w & s3 & Hwr & Hres).
    unfold shm_bind in Hb. rewrite Hwr in Hb. destruct w as [[]|e]; [|done]. injection Hb as <-.
    exists (with_doc_locks n (λ l, <[key := rec]> (m l)) d), rec. split_and!; [done|apply lookup_insert_eq|done|].
    by rewrite H2. }
  pose (taken := mkFillRecord (cache_key_hash key) (fe_pid env) (doc_generation d) nonce now now false b).
  destruct (doc_fill_locks d !! key) as [rec|]; [destruct (negb _); [destruct (_ <=? _); [done|]|]|].
  - by apply (Hacq (λ n, sat_add64 n 1) (delete key) taken eq_refl eq_refl Hrun).
  - by apply (Hacq id (delete key) taken eq_refl eq_refl Hrun).
  - by apply (Hacq id (delete key) taken eq_refl eq_refl Hrun).
Qed.

(** An update that succeeds publishes the new state. *)
Lemma update_publishes f env state s s' :
  env_ok (fe_shm env) → (∀ state, sfs_nonce (f state) = sfs_nonce state) → publishes s state →
  (update_state f env (memory_handle state)).2 s = (Ok tt, s') → publishes s' (f state).
Proof.
  intros He Hf (d & record & Hst & Hk & Hn & _). unfold update_state, persist_lock_and_state, fx_bind, fx_lift. cbn.
  destruct (shared_fill_state_record_bytes (f state)) as [b|e] eqn:Eb; [|done]. apply state_bytes in Eb.
  unfold fx_shm.
  destruct (update_fill_lock (fe_shm env) st key (sfs_nonce (f state)) (fe_now_ms env) b (sto_shm s))
    as [r s1] eqn:Hrun. intros [= -> <-]. unfold publishes. cbn.
  unfold update_fill_lock in Hrun.
  match type of Hrun with with_document_lock _ _ ?f _ = _ =>
    destruct (stored_run st (fe_shm env) f (sto_shm s) d He Hst) as (seg & s2 & Ho & Hst1 & Hw & Hwrite) end.
  rewrite Hw in Hrun. cbn in Hrun. clear Hw. rewrite Hk, Hn, Hf, str_eqb_refl in Hrun. cbn [negb] in Hrun.
  destruct (Hwrite id <[key := update_record (fe_now_ms env) b record]>) as (w & s3 & Hwr & Hres).
  rewrite Hwr in Hrun. injection Hrun as -> ->.
  eexists _, _. split_and!; [exact Hres|apply lookup_insert_eq|by rewrite Hf|done].
Qed.

(** What a process that loads the state sees. *)
Lemma load_publishes env fingerprint s state :
  env_ok (fe_shm env) → publishes s state →
  (load_memory_external_fill_state env st key fingerprint s).1 =
  loadable_fill_state state (sfs_nonce state) fingerprint (SharedMemorySource st key (sfs_nonce state)).
Proof.
  intros He (d & record & Hst & Hk & Hn & Hj). unfold load_memory_external_fill_state, fx_shm, load_fill_lock.
  match goal with |- context [with_document_lock _ _ ?f _] =>
    destruct (stored_run st (fe_shm env) f (sto_shm s) d He Hst) as (seg & s2 & _ & _ & -> & _) end.
  cbn. rewrite Hk. cbn. unfold shared_fill_state_record_from_bytes, invalid_data. rewrite Hj. cbn. by rewrite Hn.
Qed.

Lemma read_publishes env s state :
  env_ok (fe_shm env) → publishes s state →
  (read_external_fill_state_record env (SharedMemorySource st key (sfs_nonce state)) s).1 = Ok state.
Proof.
  intros He (d & record & Hst & Hk & Hn & Hj). unfold read_external_fill_state_record, fx_bind, fx_shm, load_fill_lock.
  match goal with |- context [with_document_lock _ _ ?f _] =>
    destruct (stored_run st (fe_shm env) f (sto_shm s) d He Hst) as (seg & s2 & _ & _ & -> & _) end.
  cbn. rewrite Hk. cbn. unfold shared_fill_state_record_from_bytes, invalid_data, fx_lift. rewrite Hj. cbn.
  by rewrite str_eqb_refl.
Qed.
End Memory.

(** C23.  A fill that took its lock in shared memory and published its response
    is loaded by every process of the zone that asks for the same request, or
    does not say for which: with the status, the values of every header and
    the paths that were published; a process that asks for another request gets
    nothing, and so does every one once the origin completed or the fill
    failed.  Whoever loaded it reads the fill's end, its trailers and its error
    as they were published. *)
Theorem published_fill_is_loaded {HTTP : HttpApi} {HLaws : HttpLaws HTTP} {SHA : Sha256Api} {JSON : SerdeJson}
    {Laws : SerdeJsonLaws JSON} {FILL : FillJson} {FLaws : FillJsonLaws FILL} (st : MemorySharedIndexStore)
    (key : string) (env env' : FillEnv) (now age status : Z) (headers : HeaderMap) (tmp body : string)
    (fingerprint other : string) (d : SharedMemoryIndexDocument) (h : SharedFillExternalStateHandle)
    (s s1 s2 : FillStore) :
  env_ok (fe_shm env) → env_ok (fe_shm env') → stored st (sto_shm s) d → 100 ≤ status < 1000 →
  readable_headers headers → other ≠ fingerprint →
  create_shared_memory env st key now age (Some fingerprint) s = (Ok (Some h), s1) →
  (publish_response status headers tmp body env h).2 s1 = (Ok tt, s2) →
  let h2 := (publish_response status headers tmp body env h).1 in
  let source := SharedMemorySource st key (sfs_nonce (seh_state h)) in
  let load request s := (load_memory_external_fill_state env' st key request s).1 in
  (∃ headers', (∀ name, hm_get_all headers' name = hm_get_all headers name) ∧
     load None s2 = Some (mkExternalRead status headers' tmp body source) ∧
     load (Some fingerprint) s2 = Some (mkExternalRead status headers' tmp body source)) ∧
  load (Some other) s2 = None ∧
  (∀ s3 request, (external_mark_upstream_complete env h2).2 s2 = (Ok tt, s3) → load request s3 = None) ∧
  (∀ s3 request error, (external_fail error env h2).2 s2 = (Ok tt, s3) →
     load request s3 = None ∧
     ∃ r, (read_external_fill_state_record env' source s3).1 = Ok r ∧ sfs_error r = Some error) ∧
  (∀ s3 trailers, (external_finish trailers env h2).2 s2 = (Ok tt, s3) →
     ∃ r, (read_external_fill_state_record env' source s3).1 = Ok r ∧ sfs_finished r = true ∧
       sfs_trailers r = shared_headers_from_map <$> trailers).
Proof.
  intros He He' Hst Hstatus Hheaders Hother Hcreate Hpublish.
  destruct (create_publishes st key env now age (Some fingerprint) s h s1 d He Hst Hcreate) as (nonce & -> & Hp1).
  cbn [seh_state memory_handle] in *.
  set (respond := with_response (mkFillResponse status (shared_headers_from_map headers) tmp body)).
  set (state := respond (initial_fill_state nonce (Some fingerprint))).
  pose proof (update_publishes st key respond env _ s1 s2 He (λ _, eq_refl) Hp1 Hpublish : publishes st key s2 state) as Hp2.
  cbn zeta.
  assert (Hload : ∀ request, (load_memory_external_fill_state env' st key request s2).1 =
      loadable_fill_state state nonce request (SharedMemorySource st key nonce)).
  { intros request. exact (load_publishes st key env' request s2 state He' Hp2). }
  destruct (shared_headers_roundtrip headers Hheaders) as (headers' & Hhm & Hvalues).
  assert (Hstat : status_code_from_u16 status = Some status).
  { unfold status_code_from_u16. by rewrite (proj2 (Z.leb_le _ _)), (proj2 (Z.ltb_lt _ _)) by lia. }
  assert (Hupd : ∀ f s3, (∀ r, sfs_nonce (f r) = sfs_nonce r) →
    (update_state f env (memory_handle st key state)).2 s2 = (Ok tt, s3) → publishes st key s3 (f state)).
  { intros f s3 Hf. by apply update_publishes. }
  split_and!.
  - exists headers'. rewrite !Hload. unfold loadable_fill_state.
    cbn -[header_map_from_shared_headers shared_headers_from_map]. rewrite !str_eqb_refl.
    cbn -[header_map_from_shared_headers shared_headers_from_map]. by rewrite Hstat; cbn -[header_map_from_shared_headers shared_headers_from_map]; rewrite Hhm.
  - rewrite Hload. unfold loadable_fill_state. cbn. rewrite str_eqb_refl. cbn.
    by rewrite (proj2 (str_eqb_false _ _)) by congruence.
  - intros s3 request H3. rewrite (load_publishes st key env' request s3 _ He' (Hupd with_upstream_completed s3 (λ _, eq_refl) H3)).
    unfold loadable_fill_state. cbn. rewrite str_eqb_refl. cbn. destruct request; [destruct (negb _)|]; done.
  - intros s3 request error H3. pose proof (Hupd (with_error error) s3 (λ _, eq_refl) H3) as Hp3. split.
    + rewrite (load_publishes st key env' request s3 _ He' Hp3).
      unfold loadable_fill_state. cbn. rewrite str_eqb_refl. cbn. destruct request; [destruct (negb _)|]; done.
    + eexists. split; [exact (read_publishes st key env' s3 _ He' Hp3)|done].
  - intros s3 trailers H3. pose proof (Hupd (with_finished trailers) s3 (λ _, eq_refl) H3) as Hp3.
    eexists. split; [exact (read_publishes st key env' s3 _ He' Hp3)|done].
Qed.

(** ** A reference instance, and a concrete fill *)

#[export] Instance serial_fill_header : Serial SharedFillHeader.
Proof. refine (serial_via (B := string * bytes) (λ h, (sfh_name h, sfh_value h)) (λ '(n, v), mkFillHeader n v) _). by intros []. Defined.

#[export] Instance serial_fill_response : Serial SharedFillResponseMetadata.
Proof.
  refine (serial_via (B := Z * list SharedFillHeader * string * string)
    (λ r, (sfm_status r, sfm_headers r, sfm_body_tmp_path r, sfm_body_path r))
    (λ '(a, b, c, d), mkFillResponse a b c d) _). by intros [].
Defined.

#[export] Instance serial_fill_state : Serial SharedFillStateRecord.
Proof.
  refine (serial_via (B := string * string * option SharedFillResponseMetadata *
      (bool * bool * option (list SharedFillHeader) * option string))
    (λ r, (sfs_nonce r, sfs_share_fingerprint r, sfs_response r,
      (sfs_upstream_completed r, sfs_finished r, sfs_trailers r, sfs_error r)))
    (λ '(a, b, c, (d, e, f, g)), mkFillState a b c d e f g) _). by intros [].
Defined.

#[export] Instance serial_lock_record : Serial SharedFillLockRecord.
Proof. refine (serial_via (B := string * Z) (λ r, (slr_nonce r, slr_updated_at_unix_ms r)) (λ '(n, u), mkLockRecord n u) _). by intros []. Defined.

Module RefFillJson.
#[export] Instance api : FillJson := {|
  state_to_vec := RefJson.write; state_from_slice := RefJson.read;
  lock_to_vec := RefJson.write; lock_from_slice := RefJson.read;
|}.

#[export] Instance laws : FillJsonLaws api.
Proof. split; intros r; eexists; (split; [done|apply RefJson.read_put]). Qed.
End RefFillJson.

#[local] Existing Instance RefHttp.api.
#[local] Existing Instance RefHttp.laws.
#[local] Existing Instance RefSha256.api.
#[local] Existing Instance RefJson.api.
#[local] Existing Instance RefJson.laws.
#[local] Existing Instance RefFillJson.api.
#[local] Existing Instance RefFillJson.laws.

Definition fill_env : FillEnv := mkFillEnv sample_env 1 100 (λ _, None).
Definition fill_before : FillStore := mkFillStore ∅ created 0.
Definition fill_acquired : io_result (option SharedFillExternalStateHandle) * FillStore :=
  create_shared_memory fill_env sample_store "/x" 100 (5 * 10 ^ 9) (Some "GET /x") fill_before.
Definition fill_handle : SharedFillExternalStateHandle :=
  memory_handle sample_store "/x" (initial_fill_state "100-1-0" (Some "GET /x")).
Definition fill_headers : HeaderMap := hm_append "etag" (hv_from_static "v1") hm_new.
Definition fill_published : io_result unit * FillStore :=
  (publish_response 200 fill_headers "/z/b.tmp" "/z/b" fill_env fill_handle).2 fill_acquired.2.

Lemma fill_acquired_run :
  create_shared_memory fill_env sample_store "/x" 100 (5 * 10 ^ 9) (Some "GET /x") fill_before =
  (Ok (Some fill_handle), fill_acquired.2).
Proof. vm_compute. reflexivity. Qed.

Lemma fill_published_run :
  (publish_response 200 fill_headers "/z/b.tmp" "/z/b" fill_env fill_handle).2 fill_acquired.2 = (Ok tt, fill_published.2).
Proof. vm_compute. reflexivity. Qed.

Theorem published_fill_is_loaded_witness :
  (load_memory_external_fill_state fill_env sample_store "/x" (Some "GET /y") fill_published.2).1 = None.
Proof.
  assert (He : env_ok (fe_shm fill_env)) by (split; [done|by left]).
  assert (Hst : stored sample_store (sto_shm fill_before) (empty_document 7)) by (exists nothing, []; exact created_store).
  assert (Hh : readable_headers fill_headers) by (repeat constructor).
  assert (Hne : ("GET /y" : string) ≠ "GET /x") by discriminate.
  assert (Hs : 100 ≤ 200 < 1000) by lia.
  destruct (published_fill_is_loaded sample_store "/x" fill_env fill_env 100 (5 * 10 ^ 9) 200 fill_headers
    "/z/b.tmp" "/z/b" "GET /x" "GET /y" (empty_document 7) fill_handle fill_before fill_acquired.2 fill_published.2
    He He Hst Hs Hh Hne fill_acquired_run fill_published_run)
    as (_ & H & _).
  exact H.
Defined.

(** ** The lock file *)

(** Alone, taking the lock file succeeds when nobody holds it or its lock is
    older than the lock age, and leaves the holder's file alone otherwise. *)
Lemma file_lock_alone env zone key age s :
  (∀ call, fe_fault env call = None) →
  let path := shared_fill_lock_path zone key in
  try_acquire_file_shared_fill_lock env zone key age s =
  match sto_files s !! path with
  | Some file =>
      if lock_age_ms age <? sat_sub (fe_now_ms env) (zf_modified_ms file)
      then (Some (Some path), with_files <[path := mkZoneFile [] (fe_now_ms env)]> s)
      else (Some None, s)
  | None => (Some (Some path), with_files <[path := mkZoneFile [] (fe_now_ms env)]> s)
  end.
Proof.
  intros Hf. cbn zeta. unfold try_acquire_file_shared_fill_lock. set (path := shared_fill_lock_path zone key).
  cbn [try_acquire_file_loop try_acquire_file_step]. rewrite Hf.
  destruct (sto_files s !! path) as [file|] eqn:Efile; [|done].
  cbn [try_acquire_file_loop try_acquire_file_step]. unfold file_shared_fill_lock_state. rewrite !Hf, Efile. cbn [is_some].
  destruct (_ <? _); [|done]. cbn [try_acquire_file_step]. unfold fs_remove, fs_try, fx_bind. rewrite Hf, Efile.
  cbn [try_acquire_file_loop try_acquire_file_step]. rewrite Hf. cbn. rewrite lookup_delete_eq.
  unfold with_files. cbn. by rewrite insert_delete_eq.
Qed.

(** Two processes that find the same stale lock both take it: one removes the
    lock the other just made. *)
Definition stale_files : FillStore := mkFillStore {["/z/.lock" := mkZoneFile [] 0]} created 0.
Definition late_env : FillEnv := mkFillEnv sample_env 1 10000 (λ _, None).

Example stale_lock_file_taken_twice :
  let step pc s := try_acquire_file_step late_env "/z/.lock" (5 * 10 ^ 9) pc s in
  let '(a1, s) := step AcqCreate stale_files in   (* both find the file *)
  let '(b1, s) := step AcqCreate s in
  let '(a2, s) := step a1 s in                    (* both find it stale *)
  let '(b2, s) := step b1 s in
  let '(a3, s) := step a2 s in                    (* the first removes it and takes it *)
  let '(a4, s) := step a3 s in
  let '(b3, s) := step b2 s in                    (* the second removes the new lock *)
  let '(b4, s) := step b3 s in
  a4 = AcqDone (Some "/z/.lock") ∧ b4 = AcqDone (Some "/z/.lock").
Proof. vm_compute. split; reflexivity. Qed.
