(* ===== verification/CacheStreaming.v ===== *)
(** * Storing a response while it is sent

    Models [crates/rginx-http/src/cache/store/streaming.rs], [streaming/body.rs],
    the index half of [streaming/finalize.rs] and [store/revalidate.rs]: the
    decision to store a response, the body that sends it downstream and feeds
    the writer, what happens to the rest of a body whose client left, and what
    a finished body or a 304 does to the zone.  The half of the finalization
    that the files and the readers see is in [CacheFill.v]. *)

From S2P Require Import Prelude RustStr External Body Template CacheConfig CacheTypes CacheRequest CachePolicy CacheStore CacheIndex CacheMaintenance CacheRange SharedMemory SharedIndex CacheLookup CacheFillShared CacheFill.

Section Streaming.
Context {HTTP : HttpApi} {DATE : HttpDateApi} {SHA : Sha256Api}.

(** ** Effects on the zone *)

(** The zone, the operations published to the other processes and the hashes
    whose files are deleted. *)
Record ZoneEffects : Type := mkEffects {
  ze_zone : CacheZoneRuntime;
  ze_operations : list SharedIndexOperation;
  ze_deleted : list string;
}.

Definition no_effects (z : CacheZoneRuntime) : ZoneEffects := mkEffects z [] [].
Definition with_zone (f : CacheZoneRuntime → CacheZoneRuntime) (e : ZoneEffects) : ZoneEffects :=
  mkEffects (f (ze_zone e)) (ze_operations e) (ze_deleted e).

(** Files are deleted only while nothing in the index uses them. *)
(** Source: crates/rginx-http/src/cache/runtime/support.rs:30-44 (remove_cache_files_if_unreferenced) *)
Definition remove_cache_files_if_unreferenced (hash : string) (e : ZoneEffects) : ZoneEffects :=
  if hash_is_referenced hash (zr_index (ze_zone e)) then e
  else mkEffects (ze_zone e) (ze_operations e) (ze_deleted e ++ [hash]).

Definition remove_files (hashes : list string) (e : ZoneEffects) : ZoneEffects :=
  foldl (λ e hash, remove_cache_files_if_unreferenced hash e) e hashes.

(** [None]: the eviction would not end, which does not happen. *)
Definition index_stored (key : string) (entry : CacheIndexEntry) (replaced : option (string * CacheIndexEntry))
    (e : ZoneEffects) : option (gset string * ZoneEffects) :=
  '(removed, operations, z) ← update_index_after_store key entry replaced (ze_zone e);
  Some (removed, mkEffects z (ze_operations e ++ operations) (ze_deleted e)).

Definition remove_hashes (removed : gset string) (e : ZoneEffects) : ZoneEffects :=
  remove_files (sort_by str_cmp (elements removed)) e.

(** The marker is stored and the files it replaced are deleted. *)
(** Source: crates/rginx-http/src/cache/store.rs:91-124 (remember_hit_for_pass) *)
Definition remember_hit_for_pass (context : CacheStoreContext) (headers : HeaderMap) (now : Z) (e : ZoneEffects)
    : option (gset string * ZoneEffects) :=
  match hit_for_pass_entry context headers now with
  | None => Some (∅, e)
  | Some (key, entry, replaced) => index_stored key entry replaced e
  end.

Definition remember_pass (context : CacheStoreContext) (headers : HeaderMap) (now : Z) (e : ZoneEffects)
    : option ZoneEffects :=
  '(removed, e) ← remember_hit_for_pass context headers now e; Some (remove_hashes removed e).

(** ** The decision to store *)

(** Source: crates/rginx-http/src/cache/store/streaming.rs:23-45 (StreamingCachePlan) *)
Record StreamingCachePlan : Type := mkPlan {
  sp_base_key : string;
  sp_final_key : string;
  sp_vary : list CachedVaryHeaderValue;
  sp_tags : list string;
  sp_status : Z;
  sp_headers : HeaderMap;
  sp_freshness : ResponseFreshness;
  sp_now : Z;
  sp_hash : string;
  sp_max_entry_bytes : Z;
  sp_grace : option Z;
  sp_keep : option Z;
  sp_pass_ttl : option Z;
  sp_expected_body_bytes : option Z;
  sp_revalidating : bool;
  sp_replaced_entry : option (string * CacheIndexEntry);
}.

Definition body_plan (plan : StreamingCachePlan) : BodyPlan :=
  mkBodyPlan (sp_max_entry_bytes plan) (sp_expected_body_bytes plan).

(** What the response's body becomes: sent as it is, or sent while a writer
    stores it; a trimmed one that others may read is filled on its own and read
    from the fill. *)
Inductive StoreDecision : Type :=
| PassThrough
| StreamThrough (plan : StreamingCachePlan)
| FillAndRead (plan : StreamingCachePlan).

(** The clock in milliseconds and nanoseconds, the size hint of the body,
    whether the directory and the temporary file could be made, and whether
    the fill's read state could be attached to its lock. *)
Record StoreIo : Type := mkStoreIo {
  st_now_ms : Z;
  st_now_ns : Z;
  st_exact_size : option Z;
  st_dir_ok : bool;
  st_file_ok : bool;
  st_attached : bool;
}.

Definition plan_of (context : CacheStoreContext) (io : StoreIo) (status : Z) (headers : HeaderMap) : StreamingCachePlan :=
  let '(final_key, vary, tags) := cache_final_key_for_response context (sc_request context) headers in
  let same_key := str_eqb (sc_key context) final_key in
  mkPlan (sc_base_key context) final_key vary tags status headers
    (response_freshness (st_now_ns io) context status headers) (st_now_ms io)
    (match sc_cached_entry context with
     | Some entry => if same_key then ent_hash entry else cache_key_hash final_key
     | None => cache_key_hash final_key
     end)
    (zone_max_entry_bytes (sc_zone context)) (pol_grace (sc_policy context)) (pol_keep (sc_policy context))
    (pol_pass_ttl (sc_policy context)) (st_exact_size io) (sc_revalidating context)
    (match sc_cached_entry context with
     | Some entry => if same_key then None else Some (sc_key context, entry)
     | None => None
     end).

(** Source: crates/rginx-http/src/cache/store/streaming.rs:98-239 (store_streaming_response) *)
Definition store_streaming_response (context : CacheStoreContext) (io : StoreIo) (status : Z) (headers : HeaderMap)
    (storable no_cache trimmed : bool) (z : CacheZoneRuntime) : option (StoreDecision * ZoneEffects) :=
  let now := st_now_ms io in
  let e := no_effects z in
  let pass e := Some (PassThrough, e) in
  if negb storable || no_cache then
    if should_remember_hit_for_pass context headers
    then remember_pass context headers now e ≫= pass else pass e
  else
    let plan := plan_of context io status headers in
    if negb (freshness_is_cacheable (sp_freshness plan)) then
      if should_remember_hit_for_pass context headers
      then remember_pass context headers now e ≫= pass else pass e
    else
      let '(admitted, operations, i) :=
        record_cache_admission_attempt (sp_final_key plan) (pol_min_uses (sc_policy context)) (zr_index z) in
      let e := mkEffects (with_index (λ _, i) z) operations [] in
      if negb admitted then pass e
      else if match sp_expected_body_bytes plan with
              | Some size => sp_max_entry_bytes plan <? size
              | None => false
              end
      then remember_pass context headers now e ≫= pass
      else if negb (st_dir_ok io && st_file_ok io) then pass (with_zone (record_counter write_error_total 1) e)
      else Some (if st_attached io && trimmed then FillAndRead plan else StreamThrough plan, e).

(** ** The end of the body *)

(** Source: crates/rginx-http/src/cache/store/streaming/finalize.rs:220-253 (remember_hit_for_pass_from_plan) *)
Definition remember_hit_for_pass_from_plan (plan : StreamingCachePlan) (e : ZoneEffects) : option ZoneEffects :=
  match sp_pass_ttl plan with
  | None => Some e
  | Some pass_ttl =>
      let until := sat_add64 (sp_now plan) (duration_to_ms pass_ttl) in
      '(removed, e) ← index_stored (sp_final_key plan)
        (mkIndexEntry KindHitForPass (cache_key_hash ("pass:" +:+ sp_final_key plan)) (sp_base_key plan) (sp_now plan)
           (sp_vary plan) (sp_tags plan) 0 until None (Some until) None None false false (sp_now plan))
        (sp_replaced_entry plan) e;
      Some (remove_hashes removed e)
  end.

Definition plan_metadata (plan : StreamingCachePlan) (body_size_bytes : Z) : option CacheMetadata :=
  cache_metadata (sp_final_key plan) (sp_status plan) (sp_headers plan)
    (cache_metadata_input (sp_base_key plan) (sp_vary plan) (sp_tags plan) (sp_now plan) (sp_grace plan) (sp_keep plan)
       (sp_freshness plan) body_size_bytes).

(** The entry of stored metadata. *)
Definition entry_of_metadata (metadata : CacheMetadata) (hash base_key : string) (vary : list CachedVaryHeaderValue)
    (tags : list string) (now : Z) : CacheIndexEntry :=
  mkIndexEntry (md_kind metadata) hash base_key (md_stored_at_unix_ms metadata) vary tags (md_body_size_bytes metadata)
    (md_expires_at_unix_ms metadata) (md_grace_until_unix_ms metadata) (md_keep_until_unix_ms metadata)
    (md_stale_if_error_until_unix_ms metadata) (md_stale_while_revalidate_until_unix_ms metadata)
    (md_requires_revalidation metadata) (md_must_revalidate metadata) now.

(** Metadata that cannot be rendered is a panic of the source, [None] here; a
    head that cannot be prepared is an error. *)
(** Source: crates/rginx-http/src/cache/store/streaming/finalize.rs:45-161 (finalize_streaming_cache) *)
Definition finalize_streaming_cache (plan : StreamingCachePlan) (body_size_bytes : Z) (commit : CommitOutcome)
    (e : ZoneEffects) : option ZoneEffects :=
  let write_error := with_zone (record_counter write_error_total 1) in
  if sp_max_entry_bytes plan <? body_size_bytes then remember_hit_for_pass_from_plan plan e
  else if match sp_expected_body_bytes plan with
          | Some expected => negb (expected =? body_size_bytes)
          | None => false
          end
  then Some (write_error e)
  else
    metadata ← plan_metadata plan body_size_bytes;
    match prepare_cached_response_head (sp_hash plan) metadata with
    | None => Some (write_error e)
    | Some head =>
        match commit with
        | Committed =>
            let e := with_zone (record_counter write_success_total 1) e in
            let e := if sp_revalidating plan then with_zone (record_counter revalidated_total 1) e else e in
            '(removed, e) ← index_stored (sp_final_key plan)
              (entry_of_metadata (ph_metadata head) (sp_hash plan) (sp_base_key plan) (sp_vary plan) (sp_tags plan)
                 (sp_now plan)) (sp_replaced_entry plan) e;
            Some (remove_hashes removed
                    (with_zone (store_prepared_response_head (sp_final_key plan) (sp_now plan) head) e))
        | _ => Some (write_error e)
        end
    end.

(** ** The body that stores what it sends *)

Context {E : Type}.

(** The sender's side of the writer's channel: the outcomes of the next
    [try_send]s (a full or closed channel refuses), the messages accepted, a
    [finish] left to a task of its own, and what was told to the read state. *)
Record WriterChannel : Type := mkChannel {
  wc_accepts : list bool;
  wc_messages : list StreamingCacheWriteMessage;
  wc_spawned : option (option HeaderMap);
  wc_failed : option string;
  wc_upstream_complete : bool;
}.

Definition try_send (message : StreamingCacheWriteMessage) (c : WriterChannel) : bool * WriterChannel :=
  let accepted := default true (head (wc_accepts c)) in
  (accepted, mkChannel (tail (wc_accepts c)) (if accepted then wc_messages c ++ [message] else wc_messages c)
     (wc_spawned c) (wc_failed c) (wc_upstream_complete c)).

(** Source: crates/rginx-http/src/cache/store/streaming.rs:70-75 (StreamingCacheWriter::abort) *)
Definition writer_abort (reason : string) (c : WriterChannel) : WriterChannel :=
  (try_send MsgAbort (mkChannel (wc_accepts c) (wc_messages c) (wc_spawned c) (Some reason) (wc_upstream_complete c))).2.

(** Source: crates/rginx-http/src/cache/store/streaming.rs:77-83 (StreamingCacheWriter::try_finish) *)
Definition writer_try_finish (trailers : option HeaderMap) (c : WriterChannel) : bool * WriterChannel :=
  let '(sent, c) := try_send (MsgFinish trailers) c in
  (sent, mkChannel (wc_accepts c) (wc_messages c) (wc_spawned c) (wc_failed c) (wc_upstream_complete c || sent)).

(** [inner]: the results of the next polls, each with what [is_end_stream] says
    after it. *)
(** Source: crates/rginx-http/src/cache/store/streaming/body.rs:84-91 (StreamingCacheBody) *)
Record StreamingCacheBody : Type := mkStreamingBody {
  sb_inner : list (FramePoll E * bool);
  sb_cache : bool;
  sb_channel : WriterChannel;
  sb_cached_body_bytes : Z;
  sb_max_entry_bytes : Z;
  sb_done : bool;
}.

Definition without_cache (channel : WriterChannel) (b : StreamingCacheBody) : StreamingCacheBody :=
  mkStreamingBody (sb_inner b) false channel (sb_cached_body_bytes b) (sb_max_entry_bytes b) (sb_done b).

(** Source: crates/rginx-http/src/cache/store/streaming/body.rs:110-115 (StreamingCacheBody::disable_cache) *)
Definition disable_cache (b : StreamingCacheBody) : StreamingCacheBody :=
  if sb_cache b
  then without_cache (writer_abort "streaming cache entry exceeded maximum entry bytes" (sb_channel b)) b
  else b.

(** Source: crates/rginx-http/src/cache/store/streaming/body.rs:117-129 (StreamingCacheBody::finish_cache) *)
Definition finish_cache (trailers : option HeaderMap) (b : StreamingCacheBody) : StreamingCacheBody :=
  if sb_cache b then
    let '(sent, c) := writer_try_finish trailers (sb_channel b) in
    without_cache (if sent then c
                   else mkChannel (wc_accepts c) (wc_messages c) (Some trailers) (wc_failed c) (wc_upstream_complete c)) b
  else b.

(** Source: crates/rginx-http/src/cache/store/streaming/body.rs:131-145 (StreamingCacheBody::cache_frame_data) *)
Definition cache_frame_data (data : bytes) (b : StreamingCacheBody) : StreamingCacheBody :=
  match data with
  | [] => b
  | _ =>
      if negb (sb_cache b) then b
      else
        let next_body_size := sat_add64 (sb_cached_body_bytes b) (len data) in
        if sb_max_entry_bytes b <? next_body_size then disable_cache b
        else
          let '(sent, c) := try_send (MsgData data) (sb_channel b) in
          let b := mkStreamingBody (sb_inner b) (sb_cache b) c (sb_cached_body_bytes b) (sb_max_entry_bytes b) (sb_done b) in
          if sent
          then mkStreamingBody (sb_inner b) (sb_cache b) c next_body_size (sb_max_entry_bytes b) (sb_done b)
          else disable_cache b
  end.

Definition set_done (b : StreamingCacheBody) : StreamingCacheBody :=
  mkStreamingBody (sb_inner b) (sb_cache b) (sb_channel b) (sb_cached_body_bytes b) (sb_max_entry_bytes b) true.

(** Source: crates/rginx-http/src/cache/store/streaming/body.rs:171-205 (StreamingCacheBody::poll_frame) *)
Definition stream_poll_frame (b : StreamingCacheBody) : FramePoll E * StreamingCacheBody :=
  if sb_done b then (ReadyEnd, b)
  else
    let '(poll, at_end, inner) :=
      match sb_inner b with
      | [] => (ReadyEnd, true, [])
      | (poll, at_end) :: inner => (poll, at_end, inner)
      end in
    let b := mkStreamingBody inner (sb_cache b) (sb_channel b) (sb_cached_body_bytes b) (sb_max_entry_bytes b) false in
    (poll,
     match poll with
     | ReadyFrame frame =>
         let completed := match frame with TrailersFrame _ => true | _ => at_end end in
         let b := match frame with DataFrame data => cache_frame_data data b | _ => b end in
         if completed
         then finish_cache (match frame with TrailersFrame trailers => Some trailers | _ => None end) (set_done b)
         else b
     | ReadyError _ => disable_cache (set_done b)
     | ReadyEnd => finish_cache None (set_done b)
     | Pending => b
     end).

(** *** A client that leaves *)

(** The task reads on; [None]: the source ended with an error or the writer is
    gone, and nothing is finished.  Its sends wait for room. *)
(** Source: crates/rginx-http/src/cache/store/streaming/body.rs:216-247 (drain_remaining_frames) *)
Fixpoint drain_remaining_frames (inner : list (FramePoll E)) (cached_body_bytes max_entry_bytes : Z)
    : list StreamingCacheWriteMessage :=
  match inner with
  | [] => [MsgFinish None]
  | ReadyEnd :: _ => [MsgFinish None]
  | Pending :: inner => drain_remaining_frames inner cached_body_bytes max_entry_bytes
  | ReadyError _ :: _ => []
  | ReadyFrame (DataFrame []) :: inner => drain_remaining_frames inner cached_body_bytes max_entry_bytes
  | ReadyFrame (DataFrame data) :: inner =>
      let next_body_size := sat_add64 cached_body_bytes (len data) in
      if max_entry_bytes <? next_body_size then []
      else MsgData data :: drain_remaining_frames inner next_body_size max_entry_bytes
  | ReadyFrame (TrailersFrame trailers) :: _ => [MsgFinish (Some trailers)]
  | ReadyFrame OtherFrame :: inner => drain_remaining_frames inner cached_body_bytes max_entry_bytes
  end.

(** Dropping the body leaves the rest to that task. *)
(** Source: crates/rginx-http/src/cache/store/streaming/body.rs:149-164 (StreamingCacheBody::drop) *)
Definition drop_streaming_body (b : StreamingCacheBody) : list StreamingCacheWriteMessage :=
  if sb_done b || negb (sb_cache b) then wc_messages (sb_channel b)
  else wc_messages (sb_channel b) ++
       drain_remaining_frames (map fst (sb_inner b)) (sb_cached_body_bytes b) (sb_max_entry_bytes b).

(** *** A fill of its own *)

(** The messages sent, and the error the read state is told. *)
(** Source: crates/rginx-http/src/cache/store/streaming/body.rs:25-82 (drive_streaming_origin_fill) *)
Fixpoint drive_streaming_origin_fill (inner : list (FramePoll E * bool))
    : list StreamingCacheWriteMessage * option string :=
  match inner with
  | [] => ([MsgFinish None], None)
  | (ReadyEnd, _) :: _ => ([MsgFinish None], None)
  | (Pending, _) :: inner => drive_streaming_origin_fill inner
  | (ReadyError _, _) :: _ => ([], Some "upstream body read failed while filling cache"%string)
  | (ReadyFrame frame, at_end) :: inner =>
      let completed := match frame with TrailersFrame _ => true | _ => at_end end in
      let trailers := match frame with TrailersFrame trailers => Some trailers | _ => None end in
      let sent := match frame with DataFrame ((_ :: _) as data) => [MsgData data] | _ => [] end in
      if completed then (sent ++ [MsgFinish trailers], None)
      else let '(messages, failed) := drive_streaming_origin_fill inner in (sent ++ messages, failed)
  end.

(** ** A 304 for a stored response *)

(** What answers the client: the stored body under this head, or an error. *)
Inductive RefreshAnswer : Type :=
| Refreshed (head : PreparedCacheResponseHead)
| RefreshFailed.

(** Whether the metadata file could be written and the stored body read. *)
Record RefreshIo : Type := mkRefreshIo {
  rf_now_ms : Z;
  rf_now_ns : Z;
  rf_write_ok : bool;
  rf_body_ok : bool;
}.

Definition revalidated_input (context : CacheStoreContext) (io : RefreshIo) (status : Z) (headers : HeaderMap)
    (body_size_bytes : Z) : CacheMetadataInput :=
  let '(_, vary, tags) := cache_final_key_for_response context (sc_request context) headers in
  cache_metadata_input (sc_base_key context) vary tags (rf_now_ms io) (pol_grace (sc_policy context))
    (pol_keep (sc_policy context)) (response_freshness (rf_now_ns io) context status headers) body_size_bytes.

Definition must_revalidate_again (input : CacheMetadataInput) : CacheMetadataInput :=
  mkMetadataInput (mi_kind input) (mi_base_key input) (mi_vary input) (mi_tags input) (mi_stored_at_unix_ms input)
    (mi_expires_at_unix_ms input) (mi_grace_until_unix_ms input) (mi_keep_until_unix_ms input)
    (mi_stale_if_error_until_unix_ms input) (mi_stale_while_revalidate_until_unix_ms input) true
    (mi_must_revalidate input) (mi_body_size_bytes input).

(** The new head replaces the stored one under [key], in the files and the
    index. *)
Definition store_refreshed (context : CacheStoreContext) (io : RefreshIo) (key : string) (entry : CacheIndexEntry)
    (input : CacheMetadataInput) (head : PreparedCacheResponseHead) (replaced : option (string * CacheIndexEntry))
    (e : ZoneEffects) : option (RefreshAnswer * ZoneEffects) :=
  if negb (rf_write_ok io) then Some (RefreshFailed, e)
  else
    let e := with_zone (record_counter revalidated_total 1) (with_zone (record_counter write_success_total 1) e) in
    '(removed, e) ← index_stored key
      (entry_of_metadata (ph_metadata head) (ent_hash entry) (sc_base_key context) (mi_vary input) (mi_tags input)
         (rf_now_ms io)) replaced e;
    let e := with_zone (store_prepared_response_head key (rf_now_ms io) head) e in
    if rf_body_ok io then Some (Refreshed head, remove_hashes removed e) else Some (RefreshFailed, e).

(** Metadata that cannot be rendered is a panic of the source: [None]. *)
(** Source: crates/rginx-http/src/cache/store/revalidate.rs:3-217 (refresh_not_modified_response) *)
Definition refresh_not_modified_response (context : CacheStoreContext) (io : RefreshIo) (not_modified : HeaderMap)
    (z : CacheZoneRuntime) : option (RefreshAnswer * ZoneEffects) :=
  let e := no_effects z in
  match sc_cached_entry context, sc_cached_response_head context with
  | None, _ | _, None => Some (RefreshFailed, with_zone (record_counter write_error_total 1) e)
  | Some entry, Some stored =>
      let headers := merge_not_modified_headers (ph_headers stored) not_modified in
      let status := ph_status stored in
      let size := md_body_size_bytes (ph_metadata stored) in
      let freshness := response_freshness (rf_now_ns io) context status headers in
      let '(final_key, vary, tags) := cache_final_key_for_response context (sc_request context) headers in
      let input := revalidated_input context io status headers size in
      if response_no_cache context status then
        let input := must_revalidate_again input in
        metadata ← cache_metadata final_key status headers input;
        match prepare_cached_response_head (ent_hash entry) metadata with
        | None => Some (RefreshFailed, e)
        | Some head =>
            store_refreshed context io final_key entry input head
              (if str_eqb final_key (sc_key context) then None else Some (sc_key context, entry)) e
        end
      else
        metadata ← cache_metadata final_key status headers input;
        match prepare_cached_response_head (ent_hash entry) metadata with
        | None => Some (RefreshFailed, e)
        | Some head =>
            if negb (response_is_storable_with_size context status headers (body_size_exact size)) ||
               negb (freshness_is_cacheable freshness) || negb (str_eqb final_key (sc_key context))
            then
              if negb (rf_body_ok io) then Some (RefreshFailed, e)
              else
                let remember := str_eqb final_key (sc_key context) &&
                  (should_remember_hit_for_pass context headers || negb (freshness_is_cacheable freshness)) in
                '(removed, e) ← (if remember then remember_hit_for_pass context headers (rf_now_ms io) e
                                 else Some (∅, e));
                let e :=
                  if bool_decide (removed = ∅) then
                    match remove_zone_index_entry_if_matches (sc_key context) entry (ze_zone e) with
                    | Some (hash, delete_files, operations, z) =>
                        mkEffects z (ze_operations e ++ operations)
                          (if delete_files then ze_deleted e ++ [hash] else ze_deleted e)
                    | None => e
                    end
                  else remove_hashes removed e in
                Some (Refreshed head, with_zone (record_counter revalidated_total 1) e)
            else store_refreshed context io (sc_key context) entry input head None e
        end
  end.
End Streaming.
