(* ===== verification/CacheStreamingSafety.v ===== *)
(** * What is stored is what was sent

    The body that stores what it sends gives its client exactly the polls of
    the body behind it, and the end of a body reaches the writer only behind
    every one of its bytes: through the client's polls, through the task that
    reads on when the client left, and through a fill of its own.  And the end
    of a body indexes an entry only with its files in place. *)

From S2P Require Import Prelude RustStr External Body Template CacheConfig CacheTypes CacheRequest CachePolicy CacheStore CacheIndex CacheMaintenance CacheRange SharedMemory SharedIndex CacheLookup CacheFillShared CacheFill CacheStreaming.

Section Bodies.
Context {HTTP : HttpApi} {E : Type}.

Definition message_bytes (messages : list StreamingCacheWriteMessage) : bytes :=
  concat (map (λ m, match m with MsgData data => data | _ => [] end) messages).

Definition is_finish (m : StreamingCacheWriteMessage) : bool := match m with MsgFinish _ => true | _ => false end.

Lemma message_bytes_app l k : message_bytes (l ++ k) = message_bytes l ++ message_bytes k.
Proof. unfold message_bytes. by rewrite map_app, concat_app. Qed.

(** The polls before the body ends: data, waits and other frames. *)
Definition open_poll (p : FramePoll E) : Prop :=
  match p with Pending | ReadyFrame (DataFrame _) | ReadyFrame OtherFrame => True | _ => False end.

(** The messages of a body: no end among them, or all the bytes, then the
    end, once. *)
Definition whole (messages : list StreamingCacheWriteMessage) (body : bytes) : Prop :=
  Forall (λ m, is_finish m = false) messages ∨
  ∃ sent trailers, messages = sent ++ [MsgFinish trailers] ∧ Forall (λ m, is_finish m = false) sent ∧
    message_bytes sent = body.

Lemma whole_after sent messages body done_ :
  Forall (λ m, is_finish m = false) sent → message_bytes sent = done_ → whole messages body →
  whole (sent ++ messages) (done_ ++ body).
Proof.
  intros Hs <- [H|(k & t & -> & Hk & <-)]; [left; by apply Forall_app|]. right. exists (sent ++ k), t.
  split_and!; [by rewrite app_assoc|by apply Forall_app|apply message_bytes_app].
Qed.

(** What a body delivers before its first end or error. *)
Fixpoint body_bytes (inner : list (FramePoll E)) : bytes :=
  match inner with
  | ReadyFrame (DataFrame data) :: inner => data ++ body_bytes inner
  | Pending :: inner | ReadyFrame OtherFrame :: inner => body_bytes inner
  | _ => []
  end.

(** Reading on finishes only a body read to its end. *)
Lemma drain_whole inner cached max : whole (drain_remaining_frames inner cached max) (body_bytes inner).
Proof.
  revert cached. induction inner as [|p inner IH]; intros cached.
  - right. by exists [], None.
  - destruct p as [| |[[|b data]|trailers|]|e]; cbn.
    + apply IH.
    + right. by exists [], None.
    + apply IH.
    + destruct (_ <? _); [by left|]. apply (whole_after [MsgData (b :: data)] _ _ (b :: data)).
      * by repeat constructor.
      * cbn. by rewrite app_nil_r.
      * apply IH.
    + right. by exists [], (Some trailers).
    + apply IH.
    + by left.
Qed.

(** The contract of a body: [is_end_stream] is true only at the end, and
    nothing comes after an end, an error or trailers. *)
Definition closing (p : FramePoll E) : bool :=
  match p with ReadyEnd | ReadyError _ | ReadyFrame (TrailersFrame _) => true | _ => false end.

Fixpoint end_flags (inner : list (FramePoll E * bool)) : Prop :=
  match inner with
  | [] => True
  | (p, at_end) :: inner => (at_end || closing p = true → Forall (λ p, p.1 = ReadyEnd) inner) ∧ end_flags inner
  end.

Lemma ended_bytes (inner : list (FramePoll E * bool)) :
  Forall (λ p, p.1 = ReadyEnd) inner → body_bytes (map fst inner) = [].
Proof. destruct inner as [|[p b] inner]; [done|]. intros [Hp _]%Forall_cons. cbn in Hp. by subst. Qed.

(** A fill of its own finishes only a body read to its end. *)
Lemma drive_whole inner :
  end_flags inner → whole (drive_streaming_origin_fill inner).1 (body_bytes (map fst inner)).
Proof.
  induction inner as [|[p at_end] inner IH]; intros Hf.
  - right. by exists [], None.
  - destruct Hf as [He Hf]. specialize (IH Hf). destruct p as [| |[data|trailers|]|e]; cbn.
    + done.
    + right. by exists [], None.
    + destruct at_end; cbn.
      * rewrite (ended_bytes inner (He eq_refl)), app_nil_r. right. destruct data as [|x data]; [by exists [], None|].
        exists [MsgData (x :: data)], None. split_and!; [done|by repeat constructor|]. cbn. by rewrite app_nil_r.
      * destruct (drive_streaming_origin_fill inner) as [messages failed]. cbn in *. apply whole_after; [| |done].
        -- destruct data; by repeat constructor.
        -- destruct data; [done|]. cbn. by rewrite app_nil_r.
    + right. by exists [], (Some trailers).
    + destruct at_end; cbn.
      * rewrite (ended_bytes inner (He eq_refl)). right. by exists [], None.
      * by destruct (drive_streaming_origin_fill inner).
    + by left.
Qed.

(** ** The body the client polls *)

Definition streaming_body_new (inner : list (FramePoll E * bool)) (accepts : list bool) (max_entry_bytes : Z)
    : StreamingCacheBody :=
  mkStreamingBody inner true (mkChannel accepts [] None None false) 0 max_entry_bytes false.

(** Everything that reaches the writer once the client stopped polling: what was
    accepted, a finish sent by its own task, what the drop reads on. *)
Definition all_messages (b : StreamingCacheBody (E := E)) : list StreamingCacheWriteMessage :=
  drop_streaming_body b ++
  match wc_spawned (sb_channel b) with Some trailers => [MsgFinish trailers] | None => [] end.

(** The messages before the end of the body: none is an end. *)
Definition unfinished (messages : list StreamingCacheWriteMessage) : Prop :=
  Forall (λ m, is_finish m = false) messages.

(** With [seen] of [total] delivered: the writer has exactly that and waits for
    the rest; or it was told an end, or given up, and the messages are whole. *)
Definition body_ok (total seen : bytes) (b : StreamingCacheBody (E := E)) : Prop :=
  let c := sb_channel b in
  if sb_cache b then
    sb_done b = false ∧ unfinished (wc_messages c) ∧ message_bytes (wc_messages c) = seen ∧ wc_spawned c = None ∧
    seen ++ body_bytes (map fst (sb_inner b)) = total
  else whole (wc_messages c ++ match wc_spawned c with Some trailers => [MsgFinish trailers] | None => [] end) total.

Lemma try_send_messages message c :
  wc_messages (try_send message c).2 = wc_messages c ++ (if (try_send message c).1 then [message] else []) ∧
  wc_spawned (try_send message c).2 = wc_spawned c.
Proof. unfold try_send. cbn. destruct (default true _); by rewrite ?app_nil_r. Qed.

Lemma abort_messages reason c :
  unfinished (wc_messages c) → wc_spawned c = None →
  unfinished (wc_messages (writer_abort reason c)) ∧ wc_spawned (writer_abort reason c) = None.
Proof.
  intros Hm Hs. unfold writer_abort. destruct (try_send_messages MsgAbort
    (mkChannel (wc_accepts c) (wc_messages c) (wc_spawned c) (Some reason) (wc_upstream_complete c))) as [-> ->].
  cbn. split; [|done]. apply Forall_app. split; [done|]. case_match; by repeat constructor.
Qed.

(** Giving up leaves no end. *)
Lemma disable_ok total b :
  (sb_cache b = true → unfinished (wc_messages (sb_channel b)) ∧ wc_spawned (sb_channel b) = None) →
  (sb_cache b = false → ∀ seen, body_ok total seen b) → ∀ seen, body_ok total seen (disable_cache b).
Proof.
  intros Hon Hoff seen. unfold disable_cache. destruct (sb_cache b); [|by apply Hoff].
  destruct (Hon eq_refl) as (Hm & Hs). unfold body_ok. cbn -[writer_abort].
  destruct (abort_messages "streaming cache entry exceeded maximum entry bytes" _ Hm Hs) as [H ->].
  rewrite app_nil_r. by left.
Qed.

(** Ending a body that is complete ends the stored one. *)
Lemma finish_ok total trailers b :
  (sb_cache b = true → unfinished (wc_messages (sb_channel b)) ∧
     message_bytes (wc_messages (sb_channel b)) = total ∧ wc_spawned (sb_channel b) = None) →
  (sb_cache b = false → ∀ seen, body_ok total seen b) → ∀ seen, body_ok total seen (finish_cache trailers b).
Proof.
  unfold finish_cache. intros Hon Hoff seen. destruct (sb_cache b); [|by auto].
  destruct (Hon eq_refl) as (Hm & Hb & Hs). unfold writer_try_finish.
  destruct (try_send_messages (MsgFinish trailers) (sb_channel b)) as [H1 H2].
  destruct (try_send (MsgFinish trailers) (sb_channel b)) as [accepted c]. cbn in H1, H2.
  unfold body_ok. destruct accepted; cbn; rewrite ?H1, ?H2, ?Hs, ?app_nil_r; right;
    exists (wc_messages (sb_channel b)), trailers; by rewrite ?app_nil_r.
Qed.

(** Data that is sent on is stored, or the storing is given up. *)
Lemma data_ok total seen data b :
  (sb_cache b = true → sb_done b = false ∧ unfinished (wc_messages (sb_channel b)) ∧
     message_bytes (wc_messages (sb_channel b)) = seen ∧ wc_spawned (sb_channel b) = None ∧
     (seen ++ data) ++ body_bytes (map fst (sb_inner b)) = total) →
  (sb_cache b = false → ∀ seen, body_ok total seen b) → body_ok total (seen ++ data) (cache_frame_data data b).
Proof.
  intros Hon Hoff. unfold cache_frame_data. destruct data as [|x data].
  { destruct (sb_cache b) eqn:Hc; [|by apply Hoff]. unfold body_ok. rewrite Hc. rewrite app_nil_r in *. destruct (Hon eq_refl) as (?&?&?&?&?). auto. }
  destruct (sb_cache b) eqn:Hc; cbn [negb]; [|by apply Hoff].
  destruct (Hon eq_refl) as (Hd & Hm & Hb & Hs & Ht).
  destruct (_ <? _); [by apply disable_ok; [|congruence]|].
  pose proof (try_send_messages (MsgData (x :: data)) (sb_channel b)) as [H1 H2].
  destruct (try_send (MsgData (x :: data)) (sb_channel b)) as [accepted c]. cbn in H1, H2. destruct accepted.
  - unfold body_ok. cbn. rewrite ?Hc, H1, H2. split_and!; [done|by apply Forall_app; repeat constructor| |done|done].
    rewrite message_bytes_app, Hb. cbn. by rewrite app_nil_r.
  - rewrite app_nil_r in H1. apply disable_ok; cbn; [|congruence]. intros _. by rewrite H1, H2.
Qed.

Lemma cache_frame_data_rest data (b : StreamingCacheBody (E := E)) :
  sb_inner (cache_frame_data data b) = sb_inner b ∧ sb_done (cache_frame_data data b) = sb_done b.
Proof.
  assert (Hdis : ∀ b : StreamingCacheBody (E := E), sb_inner (disable_cache b) = sb_inner b ∧ sb_done (disable_cache b) = sb_done b).
  { intros b0. unfold disable_cache. by destruct (sb_cache b0). }
  unfold cache_frame_data. destruct data; [done|]. destruct (negb _); [done|]. destruct (_ <? _); [done|].
  destruct (try_send _ _) as [[] c]; [done|]. match goal with |- context [disable_cache ?x] => exact (Hdis x) end.
Qed.

Lemma finish_rest trailers (b : StreamingCacheBody (E := E)) :
  sb_inner (finish_cache trailers b) = sb_inner b ∧ sb_done (finish_cache trailers b) = sb_done b.
Proof.
  unfold finish_cache. destruct (sb_cache b); [|done]. by destruct (writer_try_finish _ _).
Qed.

Lemma disable_rest (b : StreamingCacheBody (E := E)) : sb_inner (disable_cache b) = sb_inner b ∧ sb_done (disable_cache b) = sb_done b.
Proof. unfold disable_cache. by destruct (sb_cache b). Qed.

(** One poll of a body that is not done: the inner body's. *)
Lemma stream_poll_ok total seen b :
  end_flags (sb_inner b) → sb_done b = false → body_ok total seen b →
  let p := (stream_poll_frame b).1 in let b' := (stream_poll_frame b).2 in
  p = (next_poll (map fst (sb_inner b))).1 ∧ sb_inner b' = tail (sb_inner b) ∧
  body_ok total (seen ++ poll_bytes p) b' ∧
  (sb_done b' = true → Forall (λ p, p.1 = ReadyEnd) (sb_inner b')).
Proof.
  intros Hf Hd Hok. unfold stream_poll_frame. rewrite Hd.
  set (inner := tail (sb_inner b)).
  set (b0 := mkStreamingBody inner (sb_cache b) (sb_channel b) (sb_cached_body_bytes b) (sb_max_entry_bytes b) false).
  assert (Hoff : sb_cache b = false → whole (wc_messages (sb_channel b) ++
    match wc_spawned (sb_channel b) with Some trailers => [MsgFinish trailers] | None => [] end) total).
  { intros Hc. unfold body_ok in Hok. by rewrite Hc in Hok. }
  assert (Hon : sb_cache b = true → unfinished (wc_messages (sb_channel b)) ∧
     message_bytes (wc_messages (sb_channel b)) = seen ∧ wc_spawned (sb_channel b) = None ∧
     seen ++ body_bytes (map fst (sb_inner b)) = total).
  { intros Hc. unfold body_ok in Hok. rewrite Hc in Hok. tauto. }
  clear Hok.
  destruct (sb_inner b) as [|[p at_end] rest] eqn:Hi.
  - cbn -[finish_cache set_done body_ok]. rewrite app_nil_r, (proj1 (finish_rest _ _)).
    split_and!; [done|done| |by constructor].
    + apply finish_ok; cbn.
      * intros Hc. destruct (Hon Hc) as (?&?&?&Ht). cbn in Ht. rewrite app_nil_r in Ht. split_and!; congruence.
      * intros Hc seen'. unfold body_ok. cbn. rewrite Hc. auto.
  - destruct Hf as [Hend Hf]. subst inner. cbn [tail] in *.
    assert (Hb0 : sb_inner b0 = rest) by done.
    assert (Hlast : at_end || closing p = true → body_bytes (map fst rest) = []) by (intros H; by apply ended_bytes, Hend).
    assert (Hfinish : ∀ trailers (b1 : StreamingCacheBody (E := E)) seen',
      sb_inner b1 = rest → body_ok total seen' b1 → body_bytes (map fst rest) = [] →
      body_ok total seen' (finish_cache trailers (set_done b1))).
    { intros trailers b1 seen' Hi1 Hok1 Hnil. unfold body_ok in Hok1. apply finish_ok; cbn; intros Hc; rewrite Hc in Hok1.
      - destruct Hok1 as (_ & ? & <- & ? & Ht). rewrite Hi1, Hnil, app_nil_r in Ht. done.
      - intros s. unfold body_ok. cbn. by rewrite Hc. }
    assert (Hb1 : (∀ data, p ≠ ReadyFrame (DataFrame data)) → body_ok total seen b0).
    { intros Hp. unfold body_ok. cbn. destruct (sb_cache b) eqn:Hc; [|by apply Hoff].
      destruct (Hon eq_refl) as (?&?&?&Ht). split_and!; try done.
      destruct p as [| |[data|trailers|]|e]; try done; try (by destruct (Hp data)); cbn in Ht;
        rewrite Hlast by (by rewrite orb_true_r); done. }
    assert (Hdone : ∀ trailers (b1 : StreamingCacheBody (E := E)), sb_inner b1 = rest → at_end || closing p = true →
      sb_done (finish_cache trailers (set_done b1)) = true →
      Forall (λ p, p.1 = ReadyEnd) (sb_inner (finish_cache trailers (set_done b1)))).
    { intros trailers b1 Hi1 Hc _. rewrite (proj1 (finish_rest _ _)). cbn. rewrite Hi1. auto. }
    cbn -[finish_cache disable_cache cache_frame_data set_done body_ok]. fold b0. destruct p as [| |[data|trailers|]|e]; cbn [poll_bytes].
    + rewrite app_nil_r. split_and!; [done|done|by apply Hb1|done].
    + rewrite app_nil_r. split_and!; [done|by rewrite (proj1 (finish_rest _ _))| |by apply Hdone; [|rewrite orb_true_r]].
      apply Hfinish; [done|by apply Hb1|apply Hlast; by rewrite orb_true_r].
    + pose proof (cache_frame_data_rest data b0) as [Hi1 Hd1].
      assert (Hok1 : body_ok total (seen ++ data) (cache_frame_data data b0)).
      { apply data_ok; cbn; intros Hc; [|intros s; unfold body_ok; cbn; rewrite Hc; by apply Hoff].
        destruct (Hon Hc) as (?&?&?&Ht). cbn in Ht. by rewrite <-app_assoc. }
      cbn zeta. destruct at_end.
      * split_and!; [done|by rewrite (proj1 (finish_rest _ _)); cbn; rewrite Hi1| |by apply Hdone].
        apply Hfinish; [done|done|by apply Hlast].
      * split_and!; [done|done|done|]. rewrite Hd1. done.
    + rewrite app_nil_r. split_and!; [done|by rewrite (proj1 (finish_rest _ _))| |by apply Hdone; [|rewrite orb_true_r]].
      apply Hfinish; [done|by apply Hb1|apply Hlast; by rewrite orb_true_r].
    + rewrite app_nil_r. destruct at_end.
      * split_and!; [done|by rewrite (proj1 (finish_rest _ _))| |by apply Hdone].
        apply Hfinish; [done|by apply Hb1|by apply Hlast].
      * split_and!; [done|done|by apply Hb1|done].
    + rewrite app_nil_r. rewrite (proj1 (disable_rest _)). split_and!; [done|done| |intros _; apply Hend; by rewrite orb_true_r].
      specialize (Hb1 ltac:(done)). unfold body_ok in Hb1. cbn in Hb1. apply disable_ok; cbn; intros Hc.
      * rewrite Hc in Hb1. tauto.
      * intros s. unfold body_ok. cbn. rewrite Hc. auto.
Qed.
End Bodies.

(** The body after some polls. *)
Definition stream_after {HTTP : HttpApi} {E} (n : nat) (b : StreamingCacheBody (E := E)) : StreamingCacheBody :=
  Nat.iter n (λ b, (stream_poll_frame b).2) b.

Lemma polls_ended {HTTP : HttpApi} {E} (l : list (FramePoll E)) n :
  Forall (λ p, p = ReadyEnd) l → polls next_poll n l = replicate n ReadyEnd.
Proof.
  revert l. induction n as [|n IH]; intros l Hl; [done|]. destruct l as [|p l]; cbn.
  - by rewrite IH.
  - apply Forall_cons in Hl as [-> Hl]. by rewrite IH.
Qed.

Lemma finished_polls {HTTP : HttpApi} {E} (b : StreamingCacheBody (E := E)) n :
  sb_done b = true → polls stream_poll_frame n b = replicate n ReadyEnd.
Proof.
  intros Hd. assert (Hs : stream_poll_frame b = (ReadyEnd, b)) by (unfold stream_poll_frame; by rewrite Hd).
  induction n as [|n IH]; [done|]. cbn. by rewrite Hs, IH.
Qed.

Lemma done_after {HTTP : HttpApi} {E} (b : StreamingCacheBody (E := E)) n :
  sb_done b = true → stream_after n b = b.
Proof.
  intros Hd. induction n as [|n IH]; [done|].
  change ((stream_poll_frame (stream_after n b)).2 = b). rewrite IH. unfold stream_poll_frame. by rewrite Hd.
Qed.

Lemma stream_polls_ok {HTTP : HttpApi} {E} (b : StreamingCacheBody (E := E)) total seen n :
  end_flags (sb_inner b) → sb_done b = false → body_ok total seen b →
  polls stream_poll_frame n b = polls next_poll n (map fst (sb_inner b)) ∧
  ∃ seen', body_ok total seen' (stream_after n b).
Proof.
  revert b seen. induction n as [|n IH]; intros b seen Hf Hd Hok; [split; [done|by exists seen]|].
  destruct (stream_poll_ok total seen b Hf Hd Hok) as (Hp & Hi & Hok' & Hdone).
  assert (Hnext_after : stream_after (S n) b = stream_after n (stream_poll_frame b).2) by apply Nat.iter_succ_r.
  rewrite Hnext_after. clear Hnext_after. cbn [polls].
  destruct (stream_poll_frame b) as [p b'] eqn:Eb. cbn in *.
  assert (Hf' : end_flags (sb_inner b')).
  { rewrite Hi. destruct (sb_inner b) as [|[? ?] ?]; [done|apply Hf]. }
  assert (Hnext : next_poll (map fst (sb_inner b)) = (p, map fst (sb_inner b'))).
  { rewrite Hi, Hp. by destruct (sb_inner b) as [|[? ?] ?]. }
  rewrite Hnext. destruct (sb_done b') eqn:Hd'.
  - cbn [snd]. rewrite (finished_polls b' n Hd'), (done_after b' n Hd'), polls_ended; [split; [done|by eexists]|].
    apply Forall_map. apply (Forall_impl _ _ _ (Hdone eq_refl)). done.
  - destruct (IH b' _ Hf' Hd' Hok') as [-> He]. done.
Qed.

(** C24.  A body that is stored while it is sent gives its client exactly the
    polls of the body behind it.  Whenever the client stops polling, even in
    the middle, what reaches the writer (through the polls, from the task that
    reads the rest, or as a fill of its own) either has no end, so that
    nothing is stored, or is every byte of the body followed by one end. *)
Theorem stored_body_is_the_sent_body {HTTP : HttpApi} {E} (inner : list (FramePoll E * bool)) (accepts : list bool)
    (max_entry_bytes : Z) (n : nat) :
  end_flags inner →
  let b := streaming_body_new inner accepts max_entry_bytes in
  polls stream_poll_frame n b = polls next_poll n (map fst inner) ∧
  whole (all_messages (stream_after n b)) (body_bytes (map fst inner)) ∧
  whole (drive_streaming_origin_fill inner).1 (body_bytes (map fst inner)).
Proof.
  intros Hf b. destruct (stream_polls_ok b (body_bytes (map fst inner)) [] n Hf eq_refl) as (Hp & seen & Hok).
  { unfold body_ok. cbn. split_and!; try done. constructor. }
  split_and!; [done| |by apply drive_whole].
  unfold all_messages, drop_streaming_body. unfold body_ok in Hok. destruct (sb_cache (stream_after n b)).
  - destruct Hok as (-> & Hm & Hb & -> & <-). cbn [orb negb]. rewrite app_nil_r. by apply whole_after, drain_whole.
  - by rewrite orb_true_r.
Qed.

(** ** A concrete body *)

#[local] Existing Instance RefHttp.api.

Definition sample_inner : list (FramePoll unit * bool) :=
  [(ReadyFrame (DataFrame [1; 2]), false); (Pending, false); (ReadyFrame (DataFrame [3]), false);
   (ReadyFrame (DataFrame [4]), true)].

Theorem stored_body_is_the_sent_body_witness :
  whole (all_messages (stream_after 2 (streaming_body_new sample_inner [] 10))) [1; 2; 3; 4].
Proof.
  assert (Hf : end_flags sample_inner) by (repeat split; try done; repeat constructor).
  exact (proj1 (proj2 (stored_body_is_the_sent_body sample_inner [] 10 2 Hf))).
Defined.

(** Read to its end, cut off by a client that leaves, too large, and refused by
    a full queue. *)
Example sample_messages :
  let stored n accepts max :=
    let messages := all_messages (stream_after n (streaming_body_new sample_inner accepts max)) in
    (message_bytes messages, existsb is_finish messages) in
  stored 9%nat [] 10 = ([1; 2; 3; 4], true) ∧ stored 1%nat [] 10 = ([1; 2; 3; 4], true) ∧
  stored 9%nat [] 3 = ([1; 2; 3], false) ∧ stored 9%nat [true; false] 10 = ([1; 2], false).
Proof. split_and!; vm_compute; reflexivity. Qed.
